(* ===== verification/_CoqProject ===== *)
-Q . S2P
Prelude.v
GoStrings.v
GoEncoding.v
Authorizer.v
ServiceAccount.v
RequestInfo.v
RbacTypes.v
Rbac.v
RbacFile.v
Abac.v
Authn.v
TokenCache.v
AuditPolicy.v
AuditBackends.v
FeatureGate.v
Filters.v
RequestCache.v
PathMux.v
Proc.v
CliFlags.v
Bootstrap.v
AuthnRequests.v
Webhook.v
Warnings.v
Timeout.v
Loopback.v
Streams.v
Negotiation.v
RequestMetrics.v
OuterFilters.v
Healthz.v
Oidc.v
RemoteCommand.v
PortForward.v
StreamingServer.v
Histograms.v
Metrics.v
AuditModule.v
ResponseWriters.v
DynamicCerts.v
StructFields.v
ParamCodec.v
UrlEncoded.v
Rest.v
ServingOptions.v
ServerRoutes.v
ServerModule.v
ServerLifecycle.v
DeepEqual.v
MetricVectors.v
StableCollectors.v
LogsConfig.v
LogFilters.v
WatchHandler.v
Storage.v
Pager.v
Converter.v
QueryParams.v
ClientArgs.v
