(* ===== verification/Prelude.v ===== *)
(** * A verification library for yubo/apiserver

    The program is a generic API server in Go: it authenticates, audits and
    authorizes HTTP requests before an application's handlers see them, turns Go
    functions into those handlers, streams commands and ports, and manages the
    process around all this.  This library models the decisions it makes as
    executable Rocq functions, file by file, and proves what makes them correct.
    Names are the source's; a method [T.M] is [T_M] here.

    ** Parts and files

    Foundations.
    - [Prelude] (this file): notations, Go's errors, panics ([outcome]) and state
      passing ([ST]), the interfaces of the golib packages the code calls
      ([UtilErrors], [StringSets]) with models of them, shared lemmas and tactics.
    - [GoStrings], [GoEncoding]: the functions of Go's strings, strconv, base64,
      utf8, binary, fnv, url and http.Header packages that the code uses.

    Who may do what.
    - [Authorizer]: pkg/authentication/user, pkg/authorization/authorizer, the
      authorizer chain (pkg/authorization/union), the built-in and path
      authorizers, and the registration, validation and construction of the
      server's authorizer (pkg/authorization/authorization.go).
    - [ServiceAccount]: pkg/apis/validation and the service account names of
      pkg/authentication/serviceaccount.
    - [RequestInfo]: pkg/request/requestinfo.go, the parser of request paths.
    - [RbacTypes], [Rbac], [RbacFile]: pkg/apis/rbac (types, builders, matching,
      validation), plugin/authorizer/rbac (rule resolver, authorizer, subject
      locator) and its file-backed store.
    - [Abac]: plugin/authorizer/abac.
    - [Webhook]: pkg/util/webhook, plugin/authorizer/webhook and
      plugin/authenticator/token/webhook.

    Who is asking.
    - [Authn]: pkg/authentication: audiences, unions, bearer and websocket tokens,
      anonymous requests, group adders, initAuthentication.
    - [AuthnRequests]: front proxy headers, client certificates, passwords, token
      files and sessions.
    - [Bootstrap]: pkg/cluster-bootstrap and the bootstrap token authenticator.
    - [Oidc]: plugin/authenticator/token/oidc.
    - [TokenCache]: pkg/authentication/token/cache.
    - [Loopback]: the server's own credentials (pkg/server/config.go).

    Audit.
    - [AuditPolicy], [AuditBackends]: pkg/apis/audit, pkg/audit,
      plugin/audit/truncate and plugin/audit/buffered.
    - [AuditModule]: pkg/audit/module, plugin/audit/log and plugin/audit/webhook.

    The way of a request.
    - [Filters]: pkg/filters (request info, authentication, audit, impersonation,
      authorization) and the security part of the handler chain.
    - [OuterFilters], [Warnings], [Timeout]: the other filters of pkg/filters and
      DefaultBuildHandlerChain of pkg/server/config.go, the whole chain.
    - [PathMux], [Healthz]: pkg/server/mux and pkg/server/healthz.
    - [WatchHandler]: pkg/server/httplog and pkg/handlers/watch.go.
    - [Negotiation], [ResponseWriters]: pkg/handlers/negotiation,
      pkg/responsewriters and pkg/rest/responsewriter.go.
    - [StructFields], [ParamCodec], [UrlEncoded], [Rest]: pkg/rest: the fields of
      struct types, request parameters, form bodies, and routes with their
      handlers.

    Streaming.
    - [RequestCache], [Streams], [RemoteCommand], [PortForward],
      [StreamingServer]: pkg/streaming.

    The process.
    - [Proc]: pkg/proc, the process manager.
    - [CliFlags], [FeatureGate]: components/cli/flag and components/featuregate.
    - [Metrics], [MetricVectors], [StableCollectors], [Histograms]: components/metrics
      and its prometheusextension; [RequestMetrics]: pkg/metrics and the metrics of
      pkg/filters.
    - [LogsConfig], [LogFilters]: components/logs (configuration, repeated messages,
      sensitive data) and pkg/proc/logging.
    - [DynamicCerts]: pkg/dynamiccertificates and its wiring in
      pkg/server/secure_serving.go.
    - [ServingOptions]: pkg/server/config, the options of the server, and the
      addresses of its own client (pkg/server/config_selfclient.go).
    - [ServerRoutes]: pkg/server/handler.go (the director) and pkg/server/routes.
    - [ServerModule], [ServerLifecycle]: pkg/server/module and the rest of
      pkg/server/secure_serving.go: initialisation, then serving and shutting down.
    - [Storage]: pkg/db, pkg/storage and pkg/models.
    - [DeepEqual], [Converter], [QueryParams]: pkg/conversion, semantic comparison of
      values, the choice of conversion functions and values as query parameters;
      [Pager], [ClientArgs]: the pager and the command lines of pkg/client.

    A request enters the chain of [OuterFilters], which ends in that of [Filters]:
    its [RequestInfo] is attached, an authenticator ([Authn] over [AuthnRequests],
    [Bootstrap], [Oidc] and [Webhook], with [TokenCache] in front of token lookups)
    names its user, the audit policy decides what is recorded ([AuditPolicy]) and
    the events go to the backends of [AuditModule] (over [AuditBackends]),
    impersonation and authorization ask the authorizer ([Authorizer], over [Rbac],
    [Abac] or [Webhook]), refusals are rendered by [ResponseWriters], and what
    passes is routed by the director of [ServerRoutes] and by [PathMux] to the
    handlers of [Rest], [Healthz] or [StreamingServer].  [Proc] starts and stops the
    modules; [ServerModule] puts the server together from its options,
    [ServerLifecycle] runs it and shuts it down; [DynamicCerts] keeps the
    certificates of the connection up to date.

    ** How the code is modelled

    - Pure functions are functions.  Stateful code is state passing: [ST] for
      authorizers and sinks, [Auth] for authenticators, which share a heap of
      responses and edit the request's header, [HM] for HTTP handlers, which keeps
      the state when a handler panics.  Interleaving is a step relation: the
      buffered backend ([AuditBackends]), the life of the audit goroutines
      ([AuditModule]), the process manager ([Proc]), the timeout handler
      ([Timeout]), the streams of [RemoteCommand] and [PortForward], the
      certificate controller with its files ([DynamicCerts]), the watch loops
      ([WatchHandler]), and the listeners, requests and goroutines of the server
      ([ServerLifecycle]).
    - A nil pointer is [None]; a panic is [Panic]; an error is a value.
    - Pointers are modelled where sharing matters: authentication responses, the
      annotations map of an audit event, the elements of the request cache, stream
      pairs, metrics.
    - reflect's types and values are trees ([StructFields]): struct types by name,
      pointers by what they hold; where cycles matter, pointers, slices and maps are
      references into a heap ([DeepEqual]).
    - Lengths are [nat]; machine integers that can overflow are [Z] with the wrap
      written out (int64 sizes of audit batches, uint32 length prefixes and hashes,
      int32 buffer sizes, uint64 bucket counts and version numbers); float64 is a
      binary64 number ([Histograms]).
    - A Go map ranged over is visited in an order given as an argument, so theorems
      hold for every order.
    - Code outside the repository is a parameter with named laws: golib's
      aggregates and string sets (here), DNS validators ([ServiceAccount]), codecs
      and selectors ([RequestInfo]), YAML and sort.Slice ([RbacFile]), the policy
      decoders ([Abac], [AuditPolicy]), the expiring cache and HMAC
      ([TokenCache]), exponential backoff and the LRU cache ([Webhook]), header
      names and status constants ([Filters], [Streams]), the wait group
      ([OuterFilters]), warning headers ([Warnings]), the go-oidc verifier
      ([Oidc]), Prometheus's registry and label checks and versions ([Metrics],
      [MetricVectors], [StableCollectors], [RequestMetrics]), goautoneg
      ([Negotiation]), encoders and API errors ([ResponseWriters]), key pairs and
      certificate pools ([DynamicCerts]), conversions between values and strings
      ([ParamCodec]), listening and the making of certificates ([ServingOptions]),
      go-restful's container ([ServerRoutes]), klog and quantities ([LogsConfig]), golib's
      ORM ([Storage]).  Each has a concrete instance in the
      witnesses.
    - Fuel: [RbacFile.sort_Search] runs with fuel [n], enough since the interval
      shrinks at each step; [RequestCache.gc] with the length of the list, one
      element per turn; [StructFields.levels] with two more than the number of
      struct types, since every level but the last visits a new type; the loop over
      a format string with its length.  All are proved sufficient.
      [DeepEqual.deepValue], whose recursion the code does not bound, takes fuel too:
      a bound is proved for values whose cycles it can remember, and divergence for
      some it cannot; so do [Converter.Convert], with a bound for functions that convert
      smaller values, and [Pager.dump_loop], with a bound for a total that stays.
      Directories recurse on their depth.  Everything else is structural.

    ** What is proved

    - The chain ([OuterFilters], [Filters]): no request reaches the API handler
      unauthenticated, unaudited (unless exempt), unauthorized, or as an identity
      its user was not allowed to take on; requests that pass the checks do reach
      it; a panic is recovered; the audit trail of a request is complete and
      ordered, panics included; a refused request is answered once.  The timeout
      handler never blocks the inner handler, and once it has answered the inner
      handler no longer changes the response; its status is lost when the inner
      handler has flushed before.
    - Authorization: the chain's verdict is the first decisive one; RBAC and ABAC
      allow exactly what the bindings, roles and policies grant, agree with the
      rules they report and, for RBAC, with the subject locator; the webhook's
      verdicts are the service's; a validated configuration always builds.
    - Authentication: the order and error behaviour of unions, what a server
      assembled by initAuthentication guarantees of users, that errors are never
      turned into anonymous access, what each authenticator demands before it names
      a user, and which wrappers are safe on shared responses.
    - Caches: the token cache never mixes up tokens or audiences, its stripes act as
      one cache, a success is served until it expires; streaming tokens are
      unique, single-use and bounded in number.
    - Audit: first matching rule, what enforcement drops, that a loaded policy can
      be enforced, batching and truncation bounds, that the buffered backend
      neither loses nor repeats what it accepted, cuts it into batches in order
      (asynchronous delegate calls may begin in another) and drains on shutdown;
      the backends that options build, delivery with retries, one line of log per
      event, and when stopping the module ends.
    - Handlers ([Rest], [ParamCodec], [UrlEncoded]): parameters and forms that their
      strings can carry survive encoding and decoding; the walk over struct types ends and its paths do not
      overlap; functions are called with the arguments they declare; when they are
      called at all; the filters of a route; what the OpenAPI document says of
      parameters.
    - Certificates ([DynamicCerts]): what is served was built completely, no change
      is lost, the server converges to the content of its files, and which
      certificate a name selects.
    - The server ([ServingOptions], [ServerRoutes], [ServerModule],
      [ServerLifecycle]): which configurations are valid, that a certificate it has to
      make is the one it serves, that it listens and can reach itself once it is
      initialised, where the director sends a path and which endpoints a configuration
      opens, and that it shuts down gracefully and completely.
    - Streaming: protocols collect the right streams, pairs are forwarded once,
      tokens are redeemed once; a watch writes every event once, in order, and leaves
      nothing unflushed while it waits.
    - The process: shutdown completes unless a hook blocks or fails, and runs the stop
      hooks in the reverse order of their priorities; metrics and
      custom collectors are hidden and shown by version; label values stay within their
      allow-lists and the number of series with them; histograms count what they are
      told; a monitored request is counted once, under bounded verbs and content types;
      a logging configuration is applied if it is valid and otherwise changes nothing,
      repeated messages are suppressed as if nothing were forgotten.
    - Storage: a store of a resource over a database is a map from names to objects.
    - Comparison of values ([DeepEqual]): where comparing ends, equality is that of the
      unfolded values, cycles included; it ends when the cycles are ones it remembers.
    - Clients: a query string made of a struct parses back to its parameters, in order;
      cleaning up a struct before listing it leaves exactly the flags that were given.
    - Names, paths, flags, feature gates, routing: round trips between printing and
      parsing, exactness of the optimised comparisons, order-independence of
      setting gates, longest-prefix routing, binary search.
    - Where the code departs from its comments or from the evident intent, the
      behaviour it has is proved too: [NewRequestInfo_fieldSelector],
      [maskTrailingDash_behaviour], [rbac_New_ignores_namespace],
      [AllowedSubjects_duplicates], [subjectless_policy_allows_all],
      [GroupAdder_accumulates], [union_Run_last], [truncate_marks_original],
      [LogRequestObject_name], [AllAlpha_bypasses_lock], [Handle_twice],
      [stop_status_running], [NewRootCmd_drops_error],
      [NamedCertKeyArray_json_lossy], [escaped_extra_header_kept],
      [flush_defeats_timeout], [refused_warnings_replayed], [notifying_leaks],
      [duplicate_stream_panics], [BuildV4Options_unchecked], [empty_key_panics],
      [validateShowHidden_spec], [Apply_disabled_shown], [audit_stop],
      [log_truncation_marks_webhook], [forbidden_text_percent],
      [required_not_enforced], [slice_body_panics], [route_filter_ignored],
      [route_writer_ignored], [SecurityScheme_types], [form_required_ignored],
      [form_map_error_dropped], [form_unnamed_parameter], [header_slice_lost],
      [attach_not_long_running], [no_serving_panics], [authInit_spec],
      [http2_buffer], [derivative_of_crossed], [self_containing_maps_diverge],
      [unexported_fields], [late_allow_list], [unfit_labels], [delete_unconstrained],
      [stable_disabled_shown], [second_registry_panics], [streams_panic],
      [RecordRequestTermination_panics], [recordAuthMetrics_result], [dry_run_panics],
      [verbs_not_canonical], [status_misrecorded], [Set_loses], [unknown_format_panics],
      [closed_gate_start], [nil_interface_hides], [unrecordable_abort_panics],
      [namespaced_selector], [null_store_forgets], [idle_time_is_lifetime],
      [validate_twice], [first_page_zero], [copies_share_ignored].

    ** What is not modelled

    Network and file I/O, TLS itself, logging and tracing, container runtimes,
    generated codecs, database access, flag registration, gRPC, the OpenAPI
    generator and go-restful.  The sharing of one token lookup by concurrent
    callers, the throttle of the buffered backend and panics of its delegate.  Files are read in one step
    by the certificate providers.

    Next in order: the settings of TLS and gRPC clients (pkg/config). *)

From Stdlib Require Export Ascii.
From stdpp Require Export base tactics list strings gmap sorting.

(** ** Notations

    Go's [==] on comparable types is decidable equality.  The notation lives in
    a scope of its own so that it never competes with stdpp's. *)

Declare Scope go_scope.
Delimit Scope go_scope with go.
Notation "x == y" := (bool_decide (x = y)) (at level 70, no associativity) : go_scope.
Notation "x != y" := (negb (bool_decide (x = y))) (at level 70, no associativity) : go_scope.

(** ** Errors

    A Go [error] value is nil ([None]) or a non-nil error.  An error built by
    [errors.New] or [fmt.Errorf] is kept symbolically, as its format and its
    string arguments, so two errors are equal exactly when the code built them
    the same way; [ErrorWrap] is an error formatted around another one. *)

Inductive error :=
  | Errorf (format : string) (args : list string)
  | ErrorWrap (format : string) (args : list string) (inner : error).

#[global] Instance error_eq_dec : EqDecision error.
Proof. solve_decision. Defined.

(** ** Panics

    [outcome A] is what a Go call does: return normally or panic (an index out
    of range, a nil dereference, an explicit [panic]). *)

Inductive outcome (A : Type) :=
  | Ret (a : A)
  | Panic (msg : string).
Arguments Ret {A} _.
Arguments Panic {A} _.

#[global] Instance outcome_ret : MRet outcome := @Ret.
#[global] Instance outcome_bind : MBind outcome := λ A B f m,
  match m with Ret a => f a | Panic msg => Panic msg end.

#[global] Instance outcome_eq_dec `{EqDecision A} : EqDecision (outcome A).
Proof. solve_decision. Defined.

Definition returns {A} (m : outcome A) : bool :=
  match m with Ret _ => true | Panic _ => false end.

Lemma bind_Ret {A B} (m : outcome A) (f : A → outcome B) b :
  m ≫= f = Ret b ↔ ∃ a, m = Ret a ∧ f a = Ret b.
Proof. destruct m; naive_solver. Qed.

(** Slice indexing: Go panics out of range, stdpp's [!!] is [None]. *)
Definition index {A} (l : list A) (i : nat) : outcome A :=
  match l !! i with Some x => Ret x | None => Panic "index out of range" end.

Lemma index_lookup {A} (l : list A) i x : index l i = Ret x ↔ l !! i = Some x.
Proof. unfold index. destruct (l !! i); naive_solver. Qed.

(** ** State

    Operations that mutate an object are functions from the object's state to a
    result and the new state. *)

Definition ST (S A : Type) : Type := S → A * S.

#[global] Instance ST_ret {S} : MRet (ST S) := λ A a s, (a, s).
#[global] Instance ST_bind {S} : MBind (ST S) := λ A B f m s,
  let '(a, s') := m s in f a s'.

(** ** What the code takes from github.com/yubo/golib

    golib is a separate repository.  What the modelled code uses of it is a
    parameter: a class of operations, with the documented behaviour the proofs
    rely on in a class of laws.  [golib_errors_model] and [golib_sets_model] are
    concrete instances, which show that the laws can hold and let the witnesses
    compute. *)

(** utilerrors.NewAggregate: nil for an empty list, non-nil otherwise. *)
Class UtilErrors := NewAggregate : list error → option error.

Class UtilErrorsLaws `{UtilErrors} := {
  NewAggregate_nil : NewAggregate [] = None;
  NewAggregate_cons e l : is_Some (NewAggregate (e :: l));
}.

Definition aggregate_model (l : list error) : option error :=
  match l with [] => None | e :: _ => Some (ErrorWrap "aggregate of" [] e) end.

Definition golib_errors_model : UtilErrors := aggregate_model.

Lemma golib_errors_model_laws : @UtilErrorsLaws golib_errors_model.
Proof. split; [done|]. intros e l. by eexists. Qed.

(** sets.String: a set of strings; [List] is its content in sorted order. *)
Class StringSets (sset : Type) := {
  sets_NewString : list string → sset;
  sets_Has : sset → string → bool;
  sets_Insert : sset → list string → sset;
  sets_Delete : sset → list string → sset;
  sets_List : sset → list string;
}.

Class StringSetsLaws (sset : Type) `{StringSets sset} := {
  sets_Has_NewString l x : sets_Has (sets_NewString l) x = bool_decide (x ∈ l);
  sets_Has_Insert s l x : sets_Has (sets_Insert s l) x = sets_Has s x || bool_decide (x ∈ l);
  sets_Has_Delete s l x : sets_Has (sets_Delete s l) x = sets_Has s x && negb (bool_decide (x ∈ l));
  sets_elem_of_List s x : x ∈ sets_List s ↔ sets_Has s x = true;
  sets_NoDup_List s : NoDup (sets_List s);
  sets_Sorted_List s : Sorted String.le (sets_List s);
}.

Definition golib_sets_model : StringSets (gset string) := {|
  sets_NewString := list_to_set;
  sets_Has s x := bool_decide (x ∈ s);
  sets_Insert s l := s ∪ list_to_set l;
  sets_Delete s l := s ∖ list_to_set l;
  sets_List s := merge_sort String.le (elements s);
|}.

Lemma golib_sets_model_laws : @StringSetsLaws (gset string) golib_sets_model.
Proof.
  split; simpl; intros.
  - apply bool_decide_ext. set_solver.
  - rewrite <- bool_decide_or. apply bool_decide_ext. set_solver.
  - rewrite <- bool_decide_not, <- bool_decide_and. apply bool_decide_ext. set_solver.
  - rewrite merge_sort_Permutation, bool_decide_eq_true. set_solver.
  - rewrite merge_sort_Permutation. apply NoDup_elements.
  - apply Sorted_merge_sort, _.
Qed.

(** ** Shared lemmas and automation *)

Create HintDb apiserver discriminated.

(** Split every boolean connective and every [bool_decide] of the context into
    the propositions it decides, and try to finish. *)
Ltac bool_crush :=
  repeat match goal with
  | H : _ && _ = true |- _ => apply andb_true_iff in H as [? ?]
  | H : _ || _ = false |- _ => apply orb_false_iff in H as [? ?]
  | H : negb _ = true |- _ => apply negb_true_iff in H
  | H : negb _ = false |- _ => apply negb_false_iff in H
  | H : bool_decide _ = true |- _ => apply bool_decide_eq_true in H
  | H : bool_decide _ = false |- _ => apply bool_decide_eq_false in H
  end.

(** Case analysis on the tests of an executable definition. *)
Ltac crush_ifs :=
  repeat first
    [ case_bool_decide | case_decide | case_match ]; simplify_eq/=; try done.

Lemma existsb_elem_of {A} (f : A → bool) (l : list A) :
  existsb f l = true ↔ ∃ x, x ∈ l ∧ f x = true.
Proof. rewrite existsb_exists. by setoid_rewrite list_elem_of_In. Qed.

Lemma existsb_false_iff {A} (f : A → bool) (l : list A) :
  existsb f l = false ↔ ∀ x, x ∈ l → f x = false.
Proof.
  rewrite <- not_true_iff_false, existsb_elem_of. split.
  - intros H x Hx. apply not_true_iff_false. eauto.
  - intros H (x & Hx & Hf). specialize (H x Hx). congruence.
Qed.

(** The loop [for _, s := range l { if s == x { return true } }; return false],
    which the source writes out in several places. *)
Lemma existsb_eq_elem_of `{EqDecision A} (x : A) (l : list A) :
  existsb (λ y, bool_decide (y = x)) l = bool_decide (x ∈ l).
Proof.
  apply eq_bool_prop_intro. rewrite bool_decide_spec, Is_true_true, existsb_elem_of.
  setoid_rewrite bool_decide_eq_true. naive_solver.
Qed.

Lemma existsb_eq_elem_of_r `{EqDecision A} (x : A) (l : list A) :
  existsb (λ y, bool_decide (x = y)) l = bool_decide (x ∈ l).
Proof.
  apply eq_bool_prop_intro. rewrite bool_decide_spec, Is_true_true, existsb_elem_of.
  setoid_rewrite bool_decide_eq_true. naive_solver.
Qed.

Lemma negb_bool_decide `{Decision P} : negb (bool_decide P) = bool_decide (¬ P).
Proof. by rewrite bool_decide_not. Qed.

Lemma fmap_nil_iff {A B} (f : A → B) (l : list A) : f <$> l = [] ↔ l = [].
Proof. by destruct l. Qed.

(** ** sort.SliceStable

    The stable sort by a comparison; [less] compares keys of a total order. *)

Section SliceStable.
Context {A : Type} (less : A → A → bool).

(** Insert [x] before the first element that is not less than it. *)
Fixpoint insert_stable (x : A) (l : list A) : list A :=
  match l with
  | [] => [x]
  | y :: l' => if less y x then y :: insert_stable x l' else x :: l
  end.

Definition SliceStable (l : list A) : list A := foldr insert_stable [] l.

Lemma insert_stable_perm x l : insert_stable x l ≡ₚ x :: l.
Proof.
  induction l as [|y l IH]; cbn; [done|]. destruct (less y x); [|done].
  rewrite IH. apply Permutation_swap.
Qed.

Lemma SliceStable_perm l : SliceStable l ≡ₚ l.
Proof. induction l as [|x l IH]; cbn; [done|]. by rewrite insert_stable_perm, IH. Qed.

Context {K : Type} (key : A → K) (le : K → K → Prop).
Context `{!EqDecision K} `{!PartialOrder le} `{!Total le}.
Hypothesis less_spec : ∀ x y, less x y = true ↔ ¬ le (key y) (key x).

Lemma insert_stable_sorted x l :
  StronglySorted (λ x y, le (key x) (key y)) l →
  StronglySorted (λ x y, le (key x) (key y)) (insert_stable x l).
Proof.
  induction 1 as [|y l Hl IH Hy]; cbn; [repeat constructor|].
  destruct (less y x) eqn:Hlt.
  - apply less_spec in Hlt. constructor; [done|]. rewrite insert_stable_perm.
    constructor; [|done]. by destruct (total le (key y) (key x)).
  - assert (le (key x) (key y)) as Hxy.
    { destruct (total le (key x) (key y)) as [|Hyx]; [done|].
      destruct (decide (key x = key y)) as [->|Hne]; [done|].
      assert (less y x = true) as Hc; [|congruence]. apply less_spec. intros Hxy.
      by destruct Hne; apply (anti_symm le). }
    constructor; [by constructor|]. constructor; [done|].
    eapply Forall_impl; [exact Hy|]. intros z Hz. by etrans.
Qed.

Lemma SliceStable_sorted l : StronglySorted (λ x y, le (key x) (key y)) (SliceStable l).
Proof. induction l; cbn; [constructor|]. by apply insert_stable_sorted. Qed.

Lemma insert_stable_filter x l k :
  StronglySorted (λ x y, le (key x) (key y)) l →
  filter (λ y, key y = k) (insert_stable x l) = filter (λ y, key y = k) (x :: l).
Proof.
  induction 1 as [|y l Hl IH Hy]; [done|]. cbn [insert_stable].
  destruct (less y x) eqn:Hlt; [|done]. apply less_spec in Hlt.
  rewrite !filter_cons, IH, filter_cons. repeat case_decide; try done.
  destruct Hlt. by replace (key x) with (key y) by congruence.
Qed.

(** Elements with the same key keep their order. *)
Lemma SliceStable_stable l k :
  filter (λ y, key y = k) (SliceStable l) = filter (λ y, key y = k) l.
Proof.
  induction l as [|x l IH]; [done|]. cbn [SliceStable foldr].
  rewrite insert_stable_filter by apply SliceStable_sorted.
  fold (SliceStable l). by rewrite !filter_cons, IH.
Qed.

End SliceStable.
