(* ===== verification/GoStrings.v ===== *)
(** * Go strings

    The functions of Go's standard package [strings] that the modelled code
    calls, on byte strings.  Separators and cut sets are single bytes, as in
    every call of the modelled code.  [ToLower] and [TrimSpace] treat the ASCII
    letters and spaces, which is what they do on ASCII input. *)

From S2P Require Import Prelude.

Local Open Scope go_scope.

(** [s[:n]] and [s[n:]] for [n <= len(s)]. *)
Fixpoint stake (n : nat) (s : string) : string :=
  match n, s with
  | S n', String a s' => String a (stake n' s')
  | _, _ => EmptyString
  end.

Fixpoint sdrop (n : nat) (s : string) : string :=
  match n, s with
  | S n', String _ s' => sdrop n' s'
  | _, _ => s
  end.

Fixpoint slen (s : string) : nat :=
  match s with EmptyString => 0 | String _ s' => S (slen s') end.

Fixpoint HasPrefix (s prefix : string) {struct prefix} : bool :=
  match prefix, s with
  | EmptyString, _ => true
  | String a p, String b s' => (a == b) && HasPrefix s' p
  | String _ _, EmptyString => false
  end.

Definition HasSuffix (s suffix : string) : bool :=
  (slen suffix <=? slen s) && (sdrop (slen s - slen suffix) s == suffix).

Definition TrimPrefix (s prefix : string) : string :=
  if HasPrefix s prefix then sdrop (slen prefix) s else s.

Definition TrimSuffix (s suffix : string) : string :=
  if HasSuffix s suffix then stake (slen s - slen suffix) s else s.

(** [strings.TrimRight(s, "c")], [strings.TrimLeft(s, "c")], [strings.Trim(s, "c")]. *)
Fixpoint TrimRight (s : string) (p : ascii → bool) : string :=
  match s with
  | EmptyString => EmptyString
  | String a s' =>
      let t := TrimRight s' p in
      match t with
      | EmptyString => if p a then EmptyString else String a EmptyString
      | _ => String a t
      end
  end.

Fixpoint TrimLeft (s : string) (p : ascii → bool) : string :=
  match s with
  | EmptyString => EmptyString
  | String a s' => if p a then TrimLeft s' p else s
  end.

Definition Trim (s : string) (p : ascii → bool) : string := TrimRight (TrimLeft s p) p.

Definition is_byte (c a : ascii) : bool := c == a.

Definition TrimSpace (s : string) : string := Trim s Ascii.is_space.

(** [strings.ContainsRune(s, c)] for an ASCII [c]; [strings.Count(s, "c")]. *)
Fixpoint ContainsByte (s : string) (c : ascii) : bool :=
  match s with
  | EmptyString => false
  | String a s' => (a == c) || ContainsByte s' c
  end.

Fixpoint CountByte (s : string) (c : ascii) : nat :=
  match s with
  | EmptyString => 0
  | String a s' => (if a == c then 1 else 0) + CountByte s' c
  end.

(** [strings.Split(s, "c")]: never empty. *)
Fixpoint Split (s : string) (c : ascii) : list string :=
  match s with
  | EmptyString => [EmptyString]
  | String a s' =>
      if a == c then EmptyString :: Split s' c
      else match Split s' c with
           | [] => [String a EmptyString]
           | w :: ws => String a w :: ws
           end
  end.

(** [strings.SplitN(s, "c", n)] for [n >= 1]: at most [n] parts, the last one
    unsplit. *)
Fixpoint SplitN (s : string) (c : ascii) (n : nat) {struct s} : list string :=
  match n with
  | 0 | 1 => [s]
  | S n' =>
      match s with
      | EmptyString => [EmptyString]
      | String a s' =>
          if a == c then EmptyString :: SplitN s' c n'
          else match SplitN s' c n with
               | [] => [String a EmptyString]
               | w :: ws => String a w :: ws
               end
      end
  end.

Fixpoint Join (l : list string) (sep : string) : string :=
  match l with
  | [] => ""
  | [s] => s
  | s :: l' => s +:+ sep +:+ Join l' sep
  end.

Definition lower_byte (a : ascii) : ascii :=
  let n := nat_of_ascii a in
  if (65 <=? n) && (n <=? 90) then ascii_of_nat (n + 32) else a.

Fixpoint ToLower (s : string) : string :=
  match s with
  | EmptyString => EmptyString
  | String a s' => String (lower_byte a) (ToLower s')
  end.

(** strconv.Quote, which is also fmt's %q: a double-quoted string with the
    escapes of a Go string literal.  Bytes from 0x80 on, which belong to
    non-ASCII runes, are kept: this is what Go does with printable runes. *)
Definition hex_digit (n : nat) : ascii :=
  ascii_of_nat (if n <? 10 then 48 + n else 87 + n).

Definition quote_byte (a : ascii) : string :=
  let n := nat_of_ascii a in
  let esc (c : ascii) : string := String "\"%char (String c "") in
  if (n =? 34) || (n =? 92) then esc a
  else if n =? 7 then esc "a"%char else if n =? 8 then esc "b"%char
  else if n =? 12 then esc "f"%char else if n =? 10 then esc "n"%char
  else if n =? 13 then esc "r"%char else if n =? 9 then esc "t"%char
  else if n =? 11 then esc "v"%char
  else if (n <? 32) || (n =? 127)
  then esc "x"%char +:+ String (hex_digit (n / 16)) (String (hex_digit (n mod 16)) "")
  else String a "".

Fixpoint quote_bytes (s : string) : string :=
  match s with EmptyString => "" | String a s => quote_byte a +:+ quote_bytes s end.

Definition Quote (s : string) : string :=
  String "034"%char (quote_bytes s +:+ String "034"%char "").

(** ** Lemmas *)

Section lemmas.
Implicit Types (s t u : string) (a c : ascii).

Lemma sapp_nil_l s : "" +:+ s = s.
Proof. done. Qed.

Lemma sapp_cons a s t : String a s +:+ t = String a (s +:+ t).
Proof. done. Qed.

Lemma sapp_nil_r s : s +:+ "" = s.
Proof. induction s as [|a s IH]; [done|]. by rewrite sapp_cons, IH. Qed.

Lemma sapp_assoc s t u : s +:+ t +:+ u = (s +:+ t) +:+ u.
Proof. induction s as [|a s IH]; [done|]. by rewrite !sapp_cons, IH. Qed.

Lemma slen_app s t : slen (s +:+ t) = slen s + slen t.
Proof. induction s as [|a s IH]; [done|]. rewrite sapp_cons. simpl. by rewrite IH. Qed.

Lemma slen_0 s : slen s = 0 ↔ s = "".
Proof. by destruct s. Qed.

Lemma slen_0_decide s : (slen s =? 0) = (s == "").
Proof. by destruct s. Qed.

Lemma slen_pos s : (0 <? slen s) = (s != "").
Proof. rewrite <- slen_0_decide. by destruct (slen s). Qed.

Lemma stake_sdrop n s : stake n s +:+ sdrop n s = s.
Proof.
  revert s. induction n as [|n IH]; intros [|a s]; simpl; try done.
  by rewrite sapp_cons, IH.
Qed.

Lemma sdrop_app s t : sdrop (slen s) (s +:+ t) = t.
Proof. induction s as [|a s IH]; [by destruct t|]. rewrite sapp_cons. by simpl. Qed.

Lemma stake_app s t : stake (slen s) (s +:+ t) = s.
Proof. induction s as [|a s IH]; [by destruct t|]. rewrite sapp_cons. simpl. by rewrite IH. Qed.

Lemma slen_stake n s : slen (stake n s) = n `min` slen s.
Proof. revert s. induction n as [|n IH]; intros [|a s]; simpl; auto. Qed.

Lemma slen_sdrop n s : slen (sdrop n s) = slen s - n.
Proof. revert s. induction n as [|n IH]; intros [|a s]; simpl; auto. Qed.

Lemma HasPrefix_spec s p : HasPrefix s p = true ↔ ∃ t, s = p +:+ t.
Proof.
  revert s. induction p as [|a p IH]; intros s; simpl.
  - split; [|done]. intros _. by exists s.
  - destruct s as [|b s].
    { split; [done|]. intros (t & Ht). by rewrite sapp_cons in Ht. }
    rewrite andb_true_iff, bool_decide_eq_true, IH. setoid_rewrite sapp_cons. naive_solver.
Qed.

Lemma HasPrefix_app p t : HasPrefix (p +:+ t) p = true.
Proof. apply HasPrefix_spec. eauto. Qed.

Lemma HasPrefix_refl s : HasPrefix s s = true.
Proof. apply HasPrefix_spec. exists "". by rewrite sapp_nil_r. Qed.

Lemma HasSuffix_spec s u : HasSuffix s u = true ↔ ∃ t, s = t +:+ u.
Proof.
  unfold HasSuffix. rewrite andb_true_iff, Nat.leb_le, bool_decide_eq_true. split.
  - intros [Hle Hd]. exists (stake (slen s - slen u) s).
    etrans; [symmetry; apply (stake_sdrop (slen s - slen u))|]. by rewrite Hd.
  - intros (t & ->). rewrite slen_app. split; [lia|].
    by replace (slen t + slen u - slen u) with (slen t) by lia; rewrite sdrop_app.
Qed.

Lemma TrimPrefix_app p t : TrimPrefix (p +:+ t) p = t.
Proof. unfold TrimPrefix. by rewrite HasPrefix_app, sdrop_app. Qed.

Lemma TrimSuffix_app t u : TrimSuffix (t +:+ u) u = t.
Proof.
  unfold TrimSuffix. replace (HasSuffix (t +:+ u) u) with true.
  - rewrite slen_app. replace (slen t + slen u - slen u) with (slen t) by lia.
    apply stake_app.
  - symmetry. apply HasSuffix_spec. eauto.
Qed.

Lemma ContainsByte_app s t c :
  ContainsByte (s +:+ t) c = ContainsByte s c || ContainsByte t c.
Proof. induction s as [|a s IH]; [done|]. rewrite sapp_cons. simpl. rewrite IH. by rewrite orb_assoc. Qed.

Lemma CountByte_app s t c : CountByte (s +:+ t) c = CountByte s c + CountByte t c.
Proof. induction s as [|a s IH]; [done|]. rewrite sapp_cons. simpl. rewrite IH. lia. Qed.

Lemma ContainsByte_spec s c : ContainsByte s c = true ↔ ∃ r t, s = r +:+ String c t.
Proof.
  split.
  - induction s as [|a s IH]; simpl; [done|].
    rewrite orb_true_iff, bool_decide_eq_true. intros [->|(r & t & ->)%IH].
    + by exists "", s.
    + by exists (String a r), t.
  - intros (r & t & ->). rewrite ContainsByte_app. simpl.
    rewrite bool_decide_true by done. by rewrite orb_true_r.
Qed.

(** A non-empty string is its bytes up to the last one, and the last one. *)
Lemma stake_last s : s ≠ "" → ∃ a, s = stake (slen s - 1) s +:+ String a "".
Proof.
  induction s as [|a s IH]; [done|]. intros _. destruct s as [|b s]; [by exists a|].
  destruct IH as [c Hc]; [done|]. exists c. simpl in *. rewrite Nat.sub_0_r in Hc.
  rewrite sapp_cons. by f_equal.
Qed.

Lemma stake_snoc s a : stake (slen (s +:+ String a "") - 1) (s +:+ String a "") = s.
Proof. rewrite slen_app. simpl. rewrite Nat.add_sub. apply stake_app. Qed.

Lemma last_inj s t a b : s +:+ String a "" = t +:+ String b "" → s = t ∧ a = b.
Proof.
  revert t. induction s as [|x s IH]; intros [|y t] Heq; rewrite ?sapp_cons in Heq.
  - by simplify_eq/=.
  - injection Heq as _ Heq. by destruct t.
  - injection Heq as _ Heq. by destruct s.
  - injection Heq as -> Heq. apply IH in Heq as [-> ->]. done.
Qed.

(** *** Splitting and joining *)

Lemma Split_non_nil s c : Split s c ≠ [].
Proof. destruct s as [|a s]; simpl; [done|]. case_bool_decide; [done|]. by case_match. Qed.

Lemma Split_no_sep s c : ContainsByte s c = false → Split s c = [s].
Proof.
  induction s as [|a s IH]; simpl; [done|]. intros [Ha Hs]%orb_false_iff.
  apply bool_decide_eq_false in Ha. case_bool_decide; [done|]. by rewrite IH.
Qed.

Lemma Split_app s t c :
  ContainsByte s c = false → Split (s +:+ String c t) c = s :: Split t c.
Proof.
  induction s as [|a s IH]; simpl.
  - intros _. by rewrite bool_decide_true.
  - intros [Ha Hs]%orb_false_iff. apply bool_decide_eq_false in Ha.
    case_bool_decide; [done|]. by rewrite IH.
Qed.

Lemma Join_cons s l sep : l ≠ [] → Join (s :: l) sep = s +:+ sep +:+ Join l sep.
Proof. by destruct l. Qed.

(** [Split] inverts [Join] on parts free of the separator ... *)
Lemma Split_Join l c :
  l ≠ [] → Forall (λ s, ContainsByte s c = false) l →
  Split (Join l (String c "")) c = l.
Proof.
  intros Hne Hl. induction Hl as [|s l Hs Hl IH]; [done|].
  destruct (decide (l = [])) as [->|Hl']; [by apply Split_no_sep|].
  rewrite Join_cons by done.
  change (String c "" +:+ ?x) with (String c x).
  rewrite Split_app by done. by rewrite IH.
Qed.

(** ... and [Join] inverts [Split] always. *)
Lemma Join_Split s c : Join (Split s c) (String c "") = s.
Proof.
  induction s as [|a s IH]; simpl; [done|].
  pose proof (Split_non_nil s c) as Hne. case_bool_decide as Ha.
  - subst. rewrite Join_cons, IH by done. done.
  - destruct (Split s c) as [|w [|w' ws]] eqn:E; [done| |]; simpl in *; by rewrite <- IH.
Qed.

Lemma Split_parts_no_sep s c : Forall (λ w, ContainsByte w c = false) (Split s c).
Proof.
  induction s as [|a s IH]; simpl; [by repeat constructor|].
  case_bool_decide; [by constructor|].
  destruct (Split s c) as [|w ws]; inversion_clear IH; constructor; simpl; auto;
    by rewrite bool_decide_false.
Qed.

Lemma SplitN_no_sep s c n : ContainsByte s c = false → SplitN s c n = [s].
Proof.
  revert n. induction s as [|a s IH]; intros n; [by destruct n as [|[]]|].
  simpl. intros [Ha Hs]%orb_false_iff. apply bool_decide_eq_false in Ha.
  destruct n as [|[|n]]; [done..|]. case_bool_decide; [done|]. by rewrite (IH (S (S n))).
Qed.

Lemma SplitN_app s t c n :
  ContainsByte s c = false →
  SplitN (s +:+ String c t) c (S (S n)) = s :: SplitN t c (S n).
Proof.
  induction s as [|a s IH]; [intros _; simpl; by rewrite bool_decide_true|].
  rewrite sapp_cons. cbn -[SplitN].
  intros [Ha Hs]%orb_false_iff. apply bool_decide_eq_false in Ha.
  simpl. case_bool_decide; [done|]. by rewrite IH.
Qed.

Lemma SplitN_2_sep s t c : ContainsByte s c = false → SplitN (s +:+ String c t) c 2 = [s; t].
Proof. intros Hs. rewrite SplitN_app by done. by destruct t. Qed.

(** [SplitN s c 2] has two parts exactly when the separator occurs. *)
Lemma SplitN_2_cases s c :
  (ContainsByte s c = false ∧ SplitN s c 2 = [s]) ∨
  (∃ k v, s = k +:+ String c v ∧ ContainsByte k c = false ∧ SplitN s c 2 = [k; v]).
Proof.
  induction s as [|a s IH]; [by left|].
  destruct (decide (a = c)) as [->|Hac].
  { right. exists "", s. split; [done|]. split; [done|].
    exact (SplitN_2_sep "" s c eq_refl). }
  destruct IH as [[Hs E]|(k & v & -> & Hk & E)].
  - left. assert (ContainsByte (String a s) c = false) as Hn.
    { cbn. by rewrite bool_decide_false, Hs. }
    split; [done|]. by apply SplitN_no_sep.
  - right. exists (String a k), v. assert (ContainsByte (String a k) c = false) as Hn.
    { cbn. by rewrite bool_decide_false, Hk. }
    split; [by rewrite sapp_cons|]. split; [done|].
    rewrite <- sapp_cons. by apply SplitN_2_sep.
Qed.

(** *** Trimming *)

Lemma TrimRight_id s p :
  (∀ t a, s = t +:+ String a "" → p a = false) → TrimRight s p = s.
Proof.
  induction s as [|a s IH]; intros Hp; simpl; [done|].
  destruct s as [|b s].
  - simpl. by rewrite (Hp "" a).
  - rewrite IH; [done|]. intros t x Hx. apply (Hp (String a t)). by rewrite sapp_cons, <- Hx.
Qed.

Lemma TrimLeft_app_false p a s : p a = false → TrimLeft (String a s) p = String a s.
Proof. simpl. by intros ->. Qed.

Lemma TrimRight_spec s p :
  ∃ t, s = TrimRight s p +:+ t ∧ (∀ u a, TrimRight s p = u +:+ String a "" → p a = false).
Proof.
  induction s as [|a s (t & Ht & Hlast)]; simpl.
  - exists "". split; [done|]. intros [|? ?] ? ?; done.
  - destruct (TrimRight s p) as [|b r] eqn:E.
    + rewrite sapp_nil_l in Ht. destruct (p a) eqn:Ha.
      * exists (String a s). split; [done|]. intros [|? ?] ? ?; done.
      * exists s. split; [done|].
        intros [|? [|? ?]] x Hu; rewrite ?sapp_nil_l, ?sapp_cons in Hu; by simplify_eq.
    + exists t. split; [by rewrite sapp_cons, <- Ht|].
      intros [|? u] x Hu; rewrite ?sapp_nil_l, ?sapp_cons in Hu; simplify_eq; eauto.
Qed.
End lemmas.

Create Rewrite HintDb gostr.
#[export] Hint Rewrite sapp_nil_r slen_app sdrop_app stake_app HasPrefix_app HasPrefix_refl
  TrimPrefix_app TrimSuffix_app ContainsByte_app CountByte_app : gostr.
