(* ===== verification/GoEncoding.v ===== *)
(** * Encodings of the Go standard library

    base64.RawURLEncoding.DecodeString, utf8.Valid, binary.BigEndian.PutUint32,
    hash/fnv's 32-bit hash, base64.StdEncoding, net/url's PathUnescape and
    QueryUnescape, and net/http's Header, as far as the modelled code uses them.  A string is its bytes. *)

From S2P Require Import Prelude GoStrings.

Local Open Scope go_scope.

(** ** base64, URL alphabet, no padding *)

Definition base64url_value (a : ascii) : option nat :=
  let n := nat_of_ascii a in
  if (65 <=? n) && (n <=? 90) then Some (n - 65)
  else if (97 <=? n) && (n <=? 122) then Some (n - 71)
  else if (48 <=? n) && (n <=? 57) then Some (n + 4)
  else if n =? 45 then Some 62
  else if n =? 95 then Some 63
  else None.

(** The decoder skips carriage returns and newlines. *)
Fixpoint base64url_values (s : string) : option (list nat) :=
  match s with
  | EmptyString => Some []
  | String a s =>
      if (nat_of_ascii a =? 10) || (nat_of_ascii a =? 13) then base64url_values s
      else v ← base64url_value a; vs ← base64url_values s; Some (v :: vs)
  end.

Fixpoint base64_bytes (vs : list nat) : option string :=
  match vs with
  | [] => Some ""
  | [_] => None
  | [a; b] => Some (String (ascii_of_nat (a * 4 + b / 16)) "")
  | [a; b; c] =>
      Some (String (ascii_of_nat (a * 4 + b / 16)) (String (ascii_of_nat (b mod 16 * 16 + c / 4)) ""))
  | a :: b :: c :: d :: rest =>
      s ← base64_bytes rest;
      Some (String (ascii_of_nat (a * 4 + b / 16))
             (String (ascii_of_nat (b mod 16 * 16 + c / 4)) (String (ascii_of_nat (c mod 4 * 64 + d)) s)))
  end.

Definition RawURLEncoding_DecodeString (s : string) : option string := base64url_values s ≫= base64_bytes.

Definition base64url_char (v : nat) : ascii :=
  if v <? 26 then ascii_of_nat (v + 65)
  else if v <? 52 then ascii_of_nat (v + 71)
  else if v <? 62 then ascii_of_nat (v - 4)
  else if v =? 62 then "-"%char else "_"%char.

Fixpoint RawURLEncoding_EncodeToString (s : string) : string :=
  match s with
  | EmptyString => EmptyString
  | String x EmptyString =>
      let a := nat_of_ascii x in
      String (base64url_char (a / 4)) (String (base64url_char (a mod 4 * 16)) "")
  | String x (String y EmptyString) =>
      let a := nat_of_ascii x in
      let b := nat_of_ascii y in
      String (base64url_char (a / 4))
        (String (base64url_char (a mod 4 * 16 + b / 16)) (String (base64url_char (b mod 16 * 4)) ""))
  | String x (String y (String z rest)) =>
      let a := nat_of_ascii x in
      let b := nat_of_ascii y in
      let c := nat_of_ascii z in
      String (base64url_char (a / 4))
        (String (base64url_char (a mod 4 * 16 + b / 16))
          (String (base64url_char (b mod 16 * 4 + c / 64))
            (String (base64url_char (c mod 64)) (RawURLEncoding_EncodeToString rest))))
  end.

(** ** UTF-8 validity

    The number of continuation bytes a leading byte announces, with the range of
    the first of them (which excludes overlong forms, surrogates and code points
    above 0x10FFFF). *)

Definition utf8_lead (n : nat) : option (nat * nat * nat) :=
  if n <? 128 then Some (0, 0, 0)
  else if (194 <=? n) && (n <=? 223) then Some (1, 128, 191)
  else if n =? 224 then Some (2, 160, 191)
  else if n =? 237 then Some (2, 128, 159)
  else if (225 <=? n) && (n <=? 239) then Some (2, 128, 191)
  else if n =? 240 then Some (3, 144, 191)
  else if (241 <=? n) && (n <=? 243) then Some (3, 128, 191)
  else if n =? 244 then Some (3, 128, 143)
  else None.

(** [pending] continuation bytes are expected, the next one in [lo, hi]. *)
Fixpoint utf8_from (pending lo hi : nat) (s : string) : bool :=
  match s with
  | EmptyString => pending =? 0
  | String a s =>
      let n := nat_of_ascii a in
      match pending with
      | 0 => match utf8_lead n with Some (p, lo, hi) => utf8_from p lo hi s | None => false end
      | S p => (lo <=? n) && (n <=? hi) && utf8_from p 128 191 s
      end
  end.

Definition utf8_Valid (s : string) : bool := utf8_from 0 0 0 s.

(** ** Big-endian 32-bit integers; the argument is reduced modulo 2^32 *)

Definition byte_of_Z (z : Z) : ascii := ascii_of_N (Z.to_N (Z.land z 255)).

Definition PutUint32 (v : Z) : string :=
  String (byte_of_Z (Z.shiftr v 24)) (String (byte_of_Z (Z.shiftr v 16))
    (String (byte_of_Z (Z.shiftr v 8)) (String (byte_of_Z v) ""))).

Definition uint32 (z : Z) : Z := (z mod 2 ^ 32)%Z.

(** ** FNV-1, 32 bits: multiply by the prime, then xor with the byte *)

Fixpoint fnv32 (h : Z) (s : string) : Z :=
  match s with
  | EmptyString => h
  | String a s => fnv32 (Z.lxor (uint32 (h * 16777619)) (Z.of_N (N_of_ascii a))) s
  end.

Definition fnv_Sum32 (s : string) : Z := fnv32 2166136261 s.

(** ** url.PathUnescape: [None] is an invalid escape *)

Definition hex_value (a : ascii) : option nat :=
  let n := nat_of_ascii a in
  if (48 <=? n) && (n <=? 57) then Some (n - 48)
  else if (97 <=? n) && (n <=? 102) then Some (n - 87)
  else if (65 <=? n) && (n <=? 70) then Some (n - 55)
  else None.

Fixpoint PathUnescape (s : string) : option string :=
  match s with
  | EmptyString => Some EmptyString
  | String a s1 =>
      if a == "%"%char then
        match s1 with
        | String x (String y rest) =>
            hi ← hex_value x; lo ← hex_value y; out ← PathUnescape rest;
            Some (String (ascii_of_nat (16 * hi + lo)) out)
        | _ => None
        end
      else out ← PathUnescape s1; Some (String a out)
  end.

(** ** http.Header: canonical keys to values *)

Definition Header : Type := gmap string (list string).

Definition Header_Get (h : Header) (key : string) : string :=
  match h !! key with Some (v :: _) => v | _ => "" end.
Definition Header_Values (h : Header) (key : string) : list string := default [] (h !! key).
Definition Header_Set (h : Header) (key value : string) : Header := <[key := [value]]> h.
Definition Header_Del (h : Header) (key : string) : Header := delete key h.
#[global] Arguments Header_Del : simpl never.

(** ** Lemmas *)

Lemma byte_of_Z_inj z w : (Z.land z 255 = Z.land w 255)%Z ↔ byte_of_Z z = byte_of_Z w.
Proof.
  unfold byte_of_Z. split; [by intros ->|]. intros Heq.
  assert (∀ z, 0 ≤ Z.land z 255 < 256)%Z as Hrange.
  { intros z'. change 255%Z with (Z.ones 8). rewrite Z.land_ones by lia.
    apply Z.mod_pos_bound. lia. }
  apply (f_equal N_of_ascii) in Heq. pose proof (Hrange z). pose proof (Hrange w).
  rewrite !N_ascii_embedding in Heq by lia. lia.
Qed.

Lemma PutUint32_inj v w :
  (0 ≤ v < 2 ^ 32)%Z → (0 ≤ w < 2 ^ 32)%Z → PutUint32 v = PutUint32 w → v = w.
Proof.
  intros Hv Hw Heq. unfold PutUint32 in Heq. simplify_eq.
  repeat match goal with H : byte_of_Z _ = byte_of_Z _ |- _ => apply byte_of_Z_inj in H end.
  apply Z.bits_inj'. intros n Hn.
  destruct (decide (n < 32)%Z) as [Hlt|Hge].
  - assert (∀ k x y : Z, (0 ≤ k ≤ n)%Z → (n < k + 8)%Z →
      Z.land (Z.shiftr x k) 255 = Z.land (Z.shiftr y k) 255 → Z.testbit x n = Z.testbit y n) as Hbyte.
    { intros k x y Hk Hk8 Hl. apply (f_equal (λ z, Z.testbit z (n - k))) in Hl.
      change 255%Z with (Z.ones 8) in Hl. rewrite !Z.land_spec, Z.ones_spec_low, !andb_true_r in Hl by lia.
      rewrite !Z.shiftr_spec in Hl by lia. by replace (n - k + k)%Z with n in Hl by lia. }
    destruct (decide (n < 8)%Z); [apply (Hbyte 0%Z); [lia|lia|by rewrite !Z.shiftr_0_r]|].
    destruct (decide (n < 16)%Z); [apply (Hbyte 8%Z); [lia|lia|done]|].
    destruct (decide (n < 24)%Z); [apply (Hbyte 16%Z); [lia|lia|done]|].
    apply (Hbyte 24%Z); [lia|lia|done].
  - rewrite !Z.bits_above_log2; [done|lia| |lia|].
    + destruct (decide (w = 0%Z)) as [->|]; [simpl; lia|]. apply Z.log2_lt_pow2; [lia|].
      eapply Z.lt_le_trans; [apply Hw|]. apply Z.pow_le_mono_r; lia.
    + destruct (decide (v = 0%Z)) as [->|]; [simpl; lia|]. apply Z.log2_lt_pow2; [lia|].
      eapply Z.lt_le_trans; [apply Hv|]. apply Z.pow_le_mono_r; lia.
Qed.

Lemma uint32_range z : (0 ≤ uint32 z < 2 ^ 32)%Z.
Proof. apply Z.mod_pos_bound. lia. Qed.

Lemma uint32_id z : (0 ≤ z < 2 ^ 32)%Z → uint32 z = z.
Proof. intros. by apply Z.mod_small. Qed.

Lemma fnv32_range h s : (0 ≤ h < 2 ^ 32)%Z → (0 ≤ fnv32 h s < 2 ^ 32)%Z.
Proof.
  revert h. induction s as [|a s IH]; intros h Hh; simpl; [done|]. apply IH.
  set (x := uint32 (h * 16777619)). pose proof (uint32_range (h * 16777619) : (0 ≤ x < 2 ^ 32)%Z) as Hx.
  assert (0 ≤ Z.of_N (N_of_ascii a) < 2 ^ 32)%Z as Ha.
  { pose proof (N_ascii_bounded a). lia. }
  set (y := Z.of_N (N_of_ascii a)) in *. split; [apply Z.lxor_nonneg; lia|].
  destruct (decide (Z.lxor x y = 0%Z)) as [->|Hne]; [lia|].
  apply Z.log2_lt_cancel. rewrite Z.log2_pow2 by lia.
  eapply Z.le_lt_trans; [apply Z.log2_lxor; lia|].
  apply Z.max_lub_lt.
  - destruct (decide (x = 0%Z)) as [->|]; [simpl; lia|]. apply Z.log2_lt_pow2; lia.
  - destruct (decide (y = 0%Z)) as [->|]; [simpl; lia|]. apply Z.log2_lt_pow2; lia.
Qed.

Lemma fnv_Sum32_range s : (0 ≤ fnv_Sum32 s < 2 ^ 32)%Z.
Proof. apply fnv32_range. lia. Qed.

Example base64_ping : RawURLEncoding_DecodeString "cGluZw" = Some "ping".
Proof. reflexivity. Qed.

Example fnv_foobar : fnv_Sum32 "foobar" = 837857890%Z.
Proof. reflexivity. Qed.

Example PathUnescape_escaped : PathUnescape "a%2fb+c" = Some "a/b+c".
Proof. reflexivity. Qed.

Lemma Header_Del_lookup (h : Header) key k :
  Header_Del h key !! k = if decide (k = key) then None else h !! k.
Proof.
  unfold Header, Header_Del in *. case_decide as Hk; [subst k; apply lookup_delete_eq|].
  apply lookup_delete_ne. congruence.
Qed.

Example base64_encode_ping : RawURLEncoding_EncodeToString "ping?>" = "cGluZz8-".
Proof. reflexivity. Qed.

(** ** base64, standard alphabet, padded *)

Definition base64std_value (a : ascii) : option nat :=
  let n := nat_of_ascii a in
  if (65 <=? n) && (n <=? 90) then Some (n - 65)
  else if (97 <=? n) && (n <=? 122) then Some (n - 71)
  else if (48 <=? n) && (n <=? 57) then Some (n + 4)
  else if n =? 43 then Some 62
  else if n =? 47 then Some 63
  else None.

(** Groups of four characters; padding ends the input. *)
Fixpoint base64std_groups (s : list ascii) : option string :=
  match s with
  | [] => Some ""
  | a :: b :: c :: d :: rest =>
      x ← base64std_value a; y ← base64std_value b;
      if (c == "="%char) && (d == "="%char) && bool_decide (rest = [])
      then Some (String (ascii_of_nat (x * 4 + y / 16)) "")
      else
        z ← base64std_value c;
        if (d == "="%char) && bool_decide (rest = [])
        then Some (String (ascii_of_nat (x * 4 + y / 16)) (String (ascii_of_nat (y mod 16 * 16 + z / 4)) ""))
        else
          v ← base64std_value d; out ← base64std_groups rest;
          Some (String (ascii_of_nat (x * 4 + y / 16))
                 (String (ascii_of_nat (y mod 16 * 16 + z / 4)) (String (ascii_of_nat (z mod 4 * 64 + v)) out)))
  | _ => None
  end.

(** The decoder skips carriage returns and newlines. *)
Definition StdEncoding_DecodeString (s : string) : option string :=
  base64std_groups (filter (λ a, nat_of_ascii a ≠ 10 ∧ nat_of_ascii a ≠ 13) (String.list_ascii_of_string s)).

Example base64std_user : StdEncoding_DecodeString "YWxpY2U6cHc=" = Some "alice:pw".
Proof. reflexivity. Qed.

(** ** url.QueryUnescape: as PathUnescape, and a plus is a space *)

Fixpoint QueryUnescape (s : string) : option string :=
  match s with
  | EmptyString => Some EmptyString
  | String a s1 =>
      if a == "%"%char then
        match s1 with
        | String x (String y rest) =>
            hi ← hex_value x; lo ← hex_value y; out ← QueryUnescape rest;
            Some (String (ascii_of_nat (16 * hi + lo)) out)
        | _ => None
        end
      else out ← QueryUnescape s1; Some (String (if a == "+"%char then " "%char else a) out)
  end.

(** ** http.CanonicalHeaderKey *)

Definition upper_byte (a : ascii) : ascii :=
  let n := nat_of_ascii a in
  if (97 <=? n) && (n <=? 122) then ascii_of_nat (n - 32) else a.

(** strings.ToUpper on ASCII. *)
Fixpoint ToUpper (s : string) : string :=
  match s with EmptyString => "" | String a s => String (upper_byte a) (ToUpper s) end.

(** The bytes of a token: letters, digits and some punctuation. *)
Definition validHeaderFieldByte (a : ascii) : bool :=
  let n := nat_of_ascii a in
  ((65 <=? n) && (n <=? 90)) || ((97 <=? n) && (n <=? 122)) || ((48 <=? n) && (n <=? 57)) ||
  bool_decide (n ∈ [33; 35; 36; 37; 38; 39; 42; 43; 45; 46; 94; 95; 96; 124; 126]).

Fixpoint validHeaderName (s : string) : bool :=
  match s with EmptyString => true | String a s' => validHeaderFieldByte a && validHeaderName s' end.

(** The first letter and every letter after a hyphen are upper case, the others lower. *)
Fixpoint canonical_from (upper : bool) (s : string) : string :=
  match s with
  | EmptyString => EmptyString
  | String a s' =>
      String (if upper then upper_byte a else lower_byte a) (canonical_from (a == "-"%char) s')
  end.

Definition CanonicalHeaderKey (s : string) : string :=
  if validHeaderName s then canonical_from true s else s.

Lemma lower_byte_facts a :
  upper_byte (lower_byte a) = upper_byte a ∧ lower_byte (lower_byte a) = lower_byte a ∧
  validHeaderFieldByte (lower_byte a) = validHeaderFieldByte a ∧
  (lower_byte a == "-"%char) = (a == "-"%char).
Proof. destruct a as [[] [] [] [] [] [] [] []]; vm_compute; done. Qed.

Lemma canonical_from_ToLower u s : canonical_from u (ToLower s) = canonical_from u s.
Proof.
  revert u. induction s as [|a s IH]; intros u; [done|]. cbn [ToLower canonical_from].
  destruct (lower_byte_facts a) as (H1 & H2 & _ & H4). rewrite H1, H2, H4, IH. done.
Qed.

Lemma validHeaderName_ToLower s : validHeaderName (ToLower s) = validHeaderName s.
Proof.
  induction s as [|a s IH]; [done|]. cbn [ToLower validHeaderName].
  destruct (lower_byte_facts a) as (_ & _ & H3 & _). by rewrite H3, IH.
Qed.

(** Header names that differ only in case have the same canonical form. *)
Lemma CanonicalHeaderKey_case s t :
  validHeaderName s = true → ToLower s = ToLower t → CanonicalHeaderKey s = CanonicalHeaderKey t.
Proof.
  intros Hs E. unfold CanonicalHeaderKey.
  rewrite <- (validHeaderName_ToLower t), <- E, validHeaderName_ToLower, Hs.
  by rewrite <- (canonical_from_ToLower true s), E, canonical_from_ToLower.
Qed.

Lemma ToLower_app s t : ToLower (s +:+ t) = ToLower s +:+ ToLower t.
Proof. induction s as [|a s IH]; [done|]. rewrite !sapp_cons. cbn. by rewrite IH. Qed.

Lemma ToLower_idem s : ToLower (ToLower s) = ToLower s.
Proof.
  induction s as [|a s IH]; [done|]. cbn [ToLower]. by rewrite (proj1 (proj2 (lower_byte_facts a))), IH.
Qed.

Lemma slen_ToLower s : slen (ToLower s) = slen s.
Proof. induction s as [|a s IH]; cbn; [done|]. by rewrite IH. Qed.

Lemma ToLower_sdrop n s : ToLower (sdrop n s) = sdrop n (ToLower s).
Proof. revert s. induction n as [|n IH]; intros [|a s]; cbn; auto. Qed.

Example canonical_key : CanonicalHeaderKey "x-remote-USER" = "X-Remote-User".
Proof. reflexivity. Qed.
