(* ===== verification/Authorizer.v ===== *)
(** * Authorization interfaces and the authorizer chain

    Models pkg/authentication/user (the user record), pkg/authorization/authorizer
    (attributes, decisions, the [Authorizer] interface), pkg/authorization/union
    (the chain of authorizers), pkg/authorization/authorizerfactory (the built-in
    authorizers), plugin/authorizer/path (always-allowed paths) and the part of
    pkg/authorization that registers authorizers, validates the configuration and
    builds the chain the server uses.

    An authorizer may keep state (a cache, a connection), so [Authorizer] is a
    state-passing function and the chain threads the state through the calls it
    makes, in the order it makes them. *)

From S2P Require Import Prelude GoStrings.

Local Open Scope go_scope.

(** ** Users *)

Record DefaultInfo := {
  u_Name : string;
  u_UID : string;
  u_Groups : list string;
  u_Extra : gmap string (list string);
}.

Definition SystemPrivilegedGroup : string := "system:masters".
Definition AllUnauthenticated : string := "system:unauthenticated".
Definition AllAuthenticated : string := "system:authenticated".
Definition Anonymous : string := "system:anonymous".

(** ** Attributes of a request; a nil [User] is [None] *)

Record AttributesRecord := {
  a_User : option DefaultInfo;
  a_Verb : string;
  a_Namespace : string;
  a_APIGroup : string;
  a_APIVersion : string;
  a_Resource : string;
  a_Subresource : string;
  a_Name : string;
  a_ResourceRequest : bool;
  a_Path : string;
}.

Definition AttributesRecord_IsReadOnly (a : AttributesRecord) : bool :=
  (a_Verb a == "get") || (a_Verb a == "list") || (a_Verb a == "watch").

Inductive Decision := DecisionDeny | DecisionAllow | DecisionNoOpinion.

#[global] Instance Decision_eq_dec : EqDecision Decision.
Proof. solve_decision. Defined.

(** What [Authorize] returns: decision, reason, error. *)
Record verdict := Verdict { v_decision : Decision; v_reason : string; v_err : option error }.

Definition Authorizer (S : Type) : Type := AttributesRecord → ST S verdict.

(** An authorizer without state. *)
Definition pure_authorizer {S} (f : AttributesRecord → verdict) : Authorizer S :=
  λ a s, (f a, s).

(** Rules as reported by a [RuleResolver]. *)
Record DefaultResourceRuleInfo := {
  rr_Verbs : list string;
  rr_APIGroups : list string;
  rr_Resources : list string;
  rr_ResourceNames : list string;
}.

Record DefaultNonResourceRuleInfo := {
  nr_Verbs : list string;
  nr_NonResourceURLs : list string;
}.

Record rules_result := RulesResult {
  rs_resource : list DefaultResourceRuleInfo;
  rs_nonResource : list DefaultNonResourceRuleInfo;
  rs_incomplete : bool;
  rs_err : option error;
}.

Definition RuleResolver : Type := option DefaultInfo → string → rules_result.

(** ** The union authorizer *)

Section union.
Context `{UtilErrors} {S : Type}.

Definition newline : string := String "010"%char "".

(** The loop of [unionAuthzHandler.Authorize]; the two accumulators are the
    local variables of the method. *)
Fixpoint unionAuthz_loop (handlers : list (Authorizer S)) (a : AttributesRecord)
    (errlist : list error) (reasonlist : list string) : ST S verdict :=
  match handlers with
  | [] => mret (Verdict DecisionNoOpinion (Join reasonlist newline) (NewAggregate errlist))
  | currAuthzHandler :: rest =>
      '(Verdict decision reason err) ← currAuthzHandler a;
      let errlist := errlist ++ option_list err in
      let reasonlist := if slen reason =? 0 then reasonlist else reasonlist ++ [reason] in
      match decision with
      | DecisionAllow | DecisionDeny => mret (Verdict decision reason err)
      | DecisionNoOpinion => unionAuthz_loop rest a errlist reasonlist
      end
  end.

Definition unionAuthzHandler_Authorize (handlers : list (Authorizer S)) : Authorizer S :=
  λ a, unionAuthz_loop handlers a [] [].

Fixpoint unionAuthzRules_loop (handlers : list RuleResolver) (u : option DefaultInfo)
    (ns : string) (acc : rules_result) (errList : list error) : rules_result :=
  match handlers with
  | [] => RulesResult (rs_resource acc) (rs_nonResource acc) (rs_incomplete acc)
                      (NewAggregate errList)
  | h :: rest =>
      let r := h u ns in
      unionAuthzRules_loop rest u ns
        (RulesResult (rs_resource acc ++ rs_resource r)
                     (rs_nonResource acc ++ rs_nonResource r)
                     (if rs_incomplete r then true else rs_incomplete acc) None)
        (errList ++ option_list (rs_err r))
  end.

Definition unionAuthzRulesHandler_RulesFor (handlers : list RuleResolver) : RuleResolver :=
  λ u ns, unionAuthzRules_loop handlers u ns (RulesResult [] [] false None) [].
End union.

(** ** Built-in authorizers *)

Definition alwaysAllowAuthorizer_Authorize (a : AttributesRecord) : verdict :=
  Verdict DecisionAllow "" None.

Definition alwaysAllowAuthorizer_RulesFor : RuleResolver := λ _ _,
  RulesResult
    [{| rr_Verbs := ["*"]; rr_APIGroups := []; rr_Resources := ["*"]; rr_ResourceNames := [] |}]
    [{| nr_Verbs := ["*"]; nr_NonResourceURLs := ["*"] |}] false None.

Definition alwaysDenyAuthorizer_Authorize (a : AttributesRecord) : verdict :=
  Verdict DecisionNoOpinion "Everything is forbidden." None.

Definition alwaysDenyAuthorizer_RulesFor : RuleResolver := λ _ _, RulesResult [] [] false None.

Definition privilegedGroupAuthorizer_Authorize (groups : list string) (attr : AttributesRecord)
    : verdict :=
  match a_User attr with
  | None => Verdict DecisionNoOpinion "Error" (Some (Errorf "no user on request." []))
  | Some u =>
      if existsb (λ attr_group, existsb (λ priv_group, priv_group == attr_group) groups)
                 (u_Groups u)
      then Verdict DecisionAllow "" None
      else Verdict DecisionNoOpinion "" None
  end.

(** ** Always-allowed paths *)

Section path.
Context `{StringSets sset}.

(** The loop of [path.NewAuthorizer] over the configured paths: the set of
    exact paths and the list of prefixes, or the configuration error. *)
Fixpoint pathAuthorizer_parse (alwaysAllowPaths : list string)
    (paths : sset) (prefixes : list string) : (sset * list string) + error :=
  match alwaysAllowPaths with
  | [] => inl (paths, prefixes)
  | p :: rest =>
      let p := TrimPrefix p "/" in
      if slen p =? 0 then pathAuthorizer_parse rest (sets_Insert paths [p]) prefixes
      else if ContainsByte (stake (slen p - 1) p) "*"%char
      then inr (Errorf "only trailing * allowed in %q" [p])
      else if HasSuffix p "*"
      then pathAuthorizer_parse rest paths (prefixes ++ [stake (slen p - 1) p])
      else pathAuthorizer_parse rest (sets_Insert paths [p]) prefixes
  end.

(** The authorizer returned by [path.NewAuthorizer]. *)
Definition pathAuthorizer_Authorize (paths : sset) (prefixes : list string)
    (a : AttributesRecord) : verdict :=
  if a_ResourceRequest a then Verdict DecisionNoOpinion "" None
  else
    let pth := TrimPrefix (a_Path a) "/" in
    if sets_Has paths pth then Verdict DecisionAllow "" None
    else if existsb (λ prefix, HasPrefix pth prefix) prefixes
    then Verdict DecisionAllow "" None
    else Verdict DecisionNoOpinion "" None.

Definition path_NewAuthorizer (alwaysAllowPaths : list string)
    : (AttributesRecord → verdict) + error :=
  match pathAuthorizer_parse alwaysAllowPaths (sets_NewString []) [] with
  | inl (paths, prefixes) => inl (pathAuthorizer_Authorize paths prefixes)
  | inr e => inr e
  end.
End path.

(** ** Registration, configuration and construction of the server's authorizer *)

Section authorization.
Context `{UtilErrors} `{StringSets sset} {S : Type}.

(** A registered factory: [None] is a nil factory; otherwise what calling it
    returns. *)
Definition AuthorizerFactory : Type := option (Authorizer S + error).

Record authorization := {
  authorizerFactories : gmap string AuthorizerFactory;
  AuthorizationModeChoices : list string;
}.

Definition authorization_empty : authorization :=
  {| authorizerFactories := ∅; AuthorizationModeChoices := [] |}.

Definition RegisterAuthz (p : authorization) (name : string) (factory : AuthorizerFactory)
    : outcome authorization :=
  match authorizerFactories p !! name with
  | Some _ => Panic "authz is already registered"
  | None =>
      Ret {| authorizerFactories := <[name := factory]> (authorizerFactories p);
             AuthorizationModeChoices := AuthorizationModeChoices p ++ [name] |}
  end.

Record authz_config := {
  Modes : list string;
  AlwaysAllowPaths : list string;
  AlwaysAllowGroups : list string;
}.

Definition IsValidAuthorizationMode (p : authorization) (authzMode : string) : bool :=
  sets_Has (sets_NewString (AuthorizationModeChoices p)) authzMode.

Definition authz_config_Validate (p : authorization) (o : authz_config) : option error :=
  let e1 := if length (Modes o) =? 0
            then [Errorf "at least one authorization-mode must be passed" []] else [] in
  let modes := sets_NewString (Modes o) in
  let e2 := (λ mode, Errorf "authorization-mode %q is not a valid mode, modes %+v"
                       (mode :: AuthorizationModeChoices p)) <$>
            filter (λ mode, IsValidAuthorizationMode p mode = false) (Modes o) in
  let e3 := if length (Modes o) =? length (sets_List modes) then []
            else [Errorf "authorization-mode %q has mode specified more than once" (Modes o)] in
  NewAggregate (e1 ++ e2 ++ e3).

(** The loop of [initAuthorization] over the modes. *)
Fixpoint initAuthorization_modes (p : authorization) (modes : list string)
    (authorizers : list (Authorizer S)) : list (Authorizer S) + error :=
  match modes with
  | [] => inl authorizers
  | mode :: rest =>
      match authorizerFactories p !! mode with
      | None => inr (Errorf "unknown authz.%s specified" [mode])
      | Some None => initAuthorization_modes p rest authorizers
      | Some (Some (inr err)) => inr (ErrorWrap "authz.%s error %s" [mode] err)
      | Some (Some (inl authz)) => initAuthorization_modes p rest (authorizers ++ [authz])
      end
  end.

Definition initAuthorization (p : authorization) (c : authz_config) : Authorizer S + error :=
  if length (Modes c) =? 0 then inr (Errorf "at least one authz mode must be passed" [])
  else match initAuthorization_modes p (Modes c) [] with
  | inr e => inr e
  | inl authorizers =>
      let authorizers :=
        if length (AlwaysAllowGroups c) =? 0 then authorizers
        else authorizers ++ [pure_authorizer (privilegedGroupAuthorizer_Authorize (AlwaysAllowGroups c))] in
      if length (AlwaysAllowPaths c) =? 0 then inl (unionAuthzHandler_Authorize authorizers)
      else match path_NewAuthorizer (AlwaysAllowPaths c) with
      | inr e => inr e
      | inl a => inl (unionAuthzHandler_Authorize (authorizers ++ [pure_authorizer a]))
      end
  end.
End authorization.
Arguments authorization S : clear implicits.
Arguments AuthorizerFactory S : clear implicits.

(** ** Theorems on the chain *)

Section union_theorems.
Context `{UtilErrors} {S : Type}.
Implicit Types (hs : list (Authorizer S)) (a : AttributesRecord) (s : S).

(** [silent a hs s outs s']: called in order from state [s], every authorizer
    of [hs] answers NoOpinion; [outs] collects their reasons and errors and
    [s'] is the state they leave. *)
Inductive silent a : list (Authorizer S) → S → list (string * option error) → S → Prop :=
  | silent_nil s : silent a [] s [] s
  | silent_cons h hs s reason err s1 outs s2 :
      h a s = (Verdict DecisionNoOpinion reason err, s1) →
      silent a hs s1 outs s2 →
      silent a (h :: hs) s ((reason, err) :: outs) s2.

Definition reasons_of (outs : list (string * option error)) : list string :=
  filter (λ r, r ≠ "") outs.*1.

Lemma unionAuthz_loop_silent a hs s outs s' rest errs reasons :
  silent a hs s outs s' →
  unionAuthz_loop (hs ++ rest) a errs reasons s =
  unionAuthz_loop rest a (errs ++ omap snd outs) (reasons ++ reasons_of outs) s'.
Proof.
  intros Hs. revert errs reasons.
  induction Hs as [|h hs s reason err s1 outs s2 Hh Hs IH]; intros errs reasons; simpl.
  - change (reasons_of []) with (@nil string). by rewrite !app_nil_r.
  - unfold mbind, ST_bind. rewrite Hh, IH. unfold reasons_of. simpl.
    rewrite slen_0_decide. f_equal.
    + destruct err; by simplify_list_eq.
    + case_bool_decide as Hr.
      * rewrite filter_cons_False by (intros Hn; by apply Hn). done.
      * rewrite filter_cons_True by done. by rewrite <- app_assoc.
Qed.

Lemma unionAuthz_split a hs s :
  (∃ outs s', silent a hs s outs s') ∨
  (∃ pre h post outs s1 v s2, hs = pre ++ h :: post ∧ silent a pre s outs s1 ∧
     h a s1 = (v, s2) ∧ v_decision v ≠ DecisionNoOpinion).
Proof.
  revert s. induction hs as [|h hs IH]; intros s; [left; repeat eexists; constructor|].
  destruct (h a s) as [[d r e] s1] eqn:Hh.
  destruct (decide (d = DecisionNoOpinion)) as [->|Hd].
  - destruct (IH s1) as [(outs & s' & Hs)|(pre & h' & post & outs & s2 & v & s3 & -> & Hs & Hv)].
    + left. do 2 eexists. by econstructor.
    + right. exists (h :: pre), h', post. do 4 eexists. split; [done|].
      split; [by econstructor|]. done.
  - right. exists [], h, hs, [], s, (Verdict d r e), s1. repeat split; [constructor|done..].
Qed.

Lemma unionAuthz_decisive a pre h post s outs s1 v s2 :
  silent a pre s outs s1 → h a s1 = (v, s2) → v_decision v ≠ DecisionNoOpinion →
  unionAuthzHandler_Authorize (pre ++ h :: post) a s = (v, s2).
Proof.
  intros Hs Hh Hv. unfold unionAuthzHandler_Authorize.
  erewrite unionAuthz_loop_silent by done. destruct v as [d r e]. simpl in *.
  unfold mbind, ST_bind. rewrite Hh. by destruct d.
Qed.

Lemma unionAuthz_silent a hs s outs s' :
  silent a hs s outs s' →
  unionAuthzHandler_Authorize hs a s =
  (Verdict DecisionNoOpinion (Join (reasons_of outs) newline) (NewAggregate (omap snd outs)), s').
Proof.
  intros Hs. unfold unionAuthzHandler_Authorize.
  rewrite <- (app_nil_r hs). by erewrite unionAuthz_loop_silent.
Qed.

(** C3: the union authorizer returns exactly the verdict of the first
    sub-authorizer that allows or denies, calling the ones before it in order
    and none after it; when all of them have no opinion it has none, with the
    non-empty reasons joined by newlines and the errors aggregated. *)
Theorem union_authorize_spec hs a s v s' :
  unionAuthzHandler_Authorize hs a s = (v, s') ↔
  (∃ pre h post outs s1, hs = pre ++ h :: post ∧ silent a pre s outs s1 ∧
     h a s1 = (v, s') ∧ v_decision v ≠ DecisionNoOpinion) ∨
  (∃ outs, silent a hs s outs s' ∧
     v = Verdict DecisionNoOpinion (Join (reasons_of outs) newline)
                 (NewAggregate (omap snd outs))).
Proof.
  split.
  - intros Hu.
    destruct (unionAuthz_split a hs s)
      as [(outs & s1 & Hs)|(pre & h & post & outs & s1 & v' & s2 & -> & Hs & Hh & Hv)].
    + right. exists outs. rewrite (unionAuthz_silent _ _ _ _ _ Hs) in Hu. by simplify_eq.
    + left. rewrite (unionAuthz_decisive _ _ _ _ _ _ _ _ _ Hs Hh Hv) in Hu.
      simplify_eq. by exists pre, h, post, outs, s1.
  - intros [(pre & h & post & outs & s1 & -> & Hs & Hh & Hv)|(outs & Hs & ->)].
    + by eapply unionAuthz_decisive.
    + by apply unionAuthz_silent.
Qed.

Lemma unionAuthzRules_loop_spec (hs : list RuleResolver) u ns acc errs :
  unionAuthzRules_loop hs u ns acc errs =
  RulesResult (rs_resource acc ++ (hs ≫= λ h, rs_resource (h u ns)))
              (rs_nonResource acc ++ (hs ≫= λ h, rs_nonResource (h u ns)))
              (rs_incomplete acc || existsb (λ h, rs_incomplete (h u ns)) hs)
              (NewAggregate (errs ++ omap (λ h, rs_err (h u ns)) hs)).
Proof.
  revert acc errs. induction hs as [|h hs IH]; intros acc errs; simpl.
  - by rewrite !app_nil_r, orb_false_r.
  - rewrite IH. simpl. f_equal; [by rewrite <- app_assoc..| |].
    + by destruct (rs_incomplete (h u ns)), (rs_incomplete acc).
    + destruct (rs_err (h u ns)); by simplify_list_eq.
Qed.

(** The union rule resolver returns the concatenation of what every
    resolver returns, in order, is incomplete exactly when one of them is, and
    aggregates exactly their errors; no resolver is skipped. *)
Theorem union_rules_spec (hs : list RuleResolver) u ns :
  unionAuthzRulesHandler_RulesFor hs u ns =
  RulesResult (hs ≫= λ h, rs_resource (h u ns)) (hs ≫= λ h, rs_nonResource (h u ns))
              (existsb (λ h, rs_incomplete (h u ns)) hs)
              (NewAggregate (omap (λ h, rs_err (h u ns)) hs)).
Proof. unfold unionAuthzRulesHandler_RulesFor. by rewrite unionAuthzRules_loop_spec. Qed.

(** Chains of authorizers without state. *)
Lemma silent_pure (fs : list (AttributesRecord → verdict)) a s :
  (∀ f, f ∈ fs → v_decision (f a) = DecisionNoOpinion) →
  ∃ outs, silent a (pure_authorizer <$> fs) s outs s.
Proof.
  induction fs as [|f fs IH]; intros Hf; [eexists; constructor|].
  destruct IH as [outs Hs]; [set_solver|].
  destruct (f a) as [d r e] eqn:Hfa. exists ((r, e) :: outs). simpl.
  econstructor; [|done]. unfold pure_authorizer. rewrite Hfa.
  specialize (Hf f). rewrite Hfa in Hf. simpl in Hf. rewrite Hf; set_solver.
Qed.
End union_theorems.

(** ** Theorems on always-allowed paths *)

Section path_theorems.
Context `{StringSetsLaws sset}.

(** What the configuration documents: "each path is either a fully matching
    path or it ends in * in case a prefix match is done; a leading / is
    optional". *)
Definition path_pattern_matches (pattern path : string) : Prop :=
  let q := TrimPrefix pattern "/" in
  let pth := TrimPrefix path "/" in
  (∃ r t, q = r +:+ "*" ∧ pth = r +:+ t) ∨ (HasSuffix q "*" = false ∧ pth = q).

(** A star that is not the last byte. *)
Definition path_pattern_malformed (pattern : string) : Prop :=
  ∃ r c t, TrimPrefix pattern "/" = r +:+ String "*" (String c t).

Lemma inner_star q :
  ContainsByte (stake (slen q - 1) q) "*"%char = true ↔
  ∃ r c t, q = r +:+ String "*" (String c t).
Proof.
  rewrite ContainsByte_spec. split.
  - intros (r & t & Hq). destruct (decide (q = "")) as [->|Hne]; [by destruct r|].
    destruct (stake_last q Hne) as [a Ha]. rewrite Hq in Ha.
    destruct t as [|c t].
    + exists r, a, "". rewrite Ha. by rewrite <- sapp_assoc.
    + exists r, c, (t +:+ String a ""). rewrite Ha. by rewrite <- sapp_assoc.
  - intros (r & c & t & ->).
    destruct (stake_last (String c t)) as [a Ha]; [done|].
    set (w := stake (slen (String c t) - 1) (String c t)) in Ha.
    exists r, w. rewrite Ha.
    replace (r +:+ String "*" (w +:+ String a "")) with ((r +:+ String "*" w) +:+ String a "")
      by (by rewrite <- sapp_assoc).
    by rewrite stake_snoc.
Qed.

Definition exact_of (pattern : string) : option string :=
  let q := TrimPrefix pattern "/" in if HasSuffix q "*" then None else Some q.
Definition prefix_of (pattern : string) : option string :=
  let q := TrimPrefix pattern "/" in
  if HasSuffix q "*" then Some (stake (slen q - 1) q) else None.

Lemma pathAuthorizer_parse_spec l paths prefixes :
  match pathAuthorizer_parse l paths prefixes with
  | inl (P, Q) =>
      (∀ x, sets_Has P x = sets_Has paths x || bool_decide (x ∈ omap exact_of l)) ∧
      Q = prefixes ++ omap prefix_of l ∧ Forall (λ p, ¬ path_pattern_malformed p) l
  | inr e => Exists path_pattern_malformed l
  end.
Proof.
  revert paths prefixes. induction l as [|p l IH]; intros paths prefixes; simpl.
  { repeat split; [intros; by rewrite orb_false_r
                  |by rewrite app_nil_r|constructor]. }
  unfold exact_of, prefix_of. fold exact_of prefix_of.
  set (q := TrimPrefix p "/").
  destruct (slen q =? 0) eqn:E0.
  { rewrite slen_0_decide in E0. apply bool_decide_eq_true in E0. rewrite E0. simpl.
    specialize (IH (sets_Insert paths [""]) prefixes).
    destruct (pathAuthorizer_parse l _ _) as [[P Q]|e]; [|by right].
    destruct IH as (HP & HQ & Hl). split; [|split; [done|]].
    - intros x. rewrite HP, sets_Has_Insert, <- orb_assoc, <- bool_decide_or.
      f_equal. apply bool_decide_ext. set_solver.
    - constructor; [|done]. intros (r & c & t & Hr). fold q in Hr. rewrite E0 in Hr.
      by destruct r. }
  destruct (ContainsByte _ _) eqn:Hc.
  { left. by apply inner_star. }
  assert (¬ path_pattern_malformed p) as Hok.
  { intros Hbad. apply inner_star in Hbad. fold q in Hbad. congruence. }
  destruct (HasSuffix q "*") eqn:Hs.
  - specialize (IH paths (prefixes ++ [stake (slen q - 1) q])).
    destruct (pathAuthorizer_parse l _ _) as [[P Q]|e]; [|by right].
    destruct IH as (HP & HQ & Hl). split; [done|]. split; [|by constructor].
    by rewrite HQ, <- app_assoc.
  - specialize (IH (sets_Insert paths [q]) prefixes).
    destruct (pathAuthorizer_parse l _ _) as [[P Q]|e]; [|by right].
    destruct IH as (HP & HQ & Hl). split; [|split; [done|by constructor]].
    intros x. rewrite HP, sets_Has_Insert, <- orb_assoc, <- bool_decide_or.
    f_equal. apply bool_decide_ext. set_solver.
Qed.

Lemma pattern_matches_iff pattern path :
  path_pattern_matches pattern path ↔
  exact_of pattern = Some (TrimPrefix path "/") ∨
  ∃ pre, prefix_of pattern = Some pre ∧ HasPrefix (TrimPrefix path "/") pre = true.
Proof.
  unfold path_pattern_matches, exact_of, prefix_of.
  set (q := TrimPrefix pattern "/"). set (pth := TrimPrefix path "/").
  destruct (HasSuffix q "*") eqn:Hs.
  - apply HasSuffix_spec in Hs as [r Hr]. split.
    + intros [(r' & t & Hr' & Ht)|[? ?]]; [|done]. right. eexists. split; [done|].
      rewrite Hr', stake_snoc, Ht. apply HasPrefix_app.
    + intros [?|(pre & Hpre & Hp)]; [done|]. simplify_eq. left. exists r.
      rewrite Hr, stake_snoc in Hp. apply HasPrefix_spec in Hp as [t Ht]. eauto.
  - split.
    + intros [(r & t & Hr & _)|[_ ->]]; [|by left].
      assert (HasSuffix q "*" = true) by (apply HasSuffix_spec; eauto). congruence.
    + intros [?|(? & ? & ?)]; [|done]. simplify_eq. by right.
Qed.

(** The path authorizer is built exactly when no configured path has a
    star before its last byte; it then allows a request exactly when it is a
    non-resource request whose path matches a configured path (fully, or by
    prefix for a path ending in a star, the leading slash being optional), and
    has no opinion on every other request. *)
Theorem path_authorizer_spec (paths : list string) :
  match path_NewAuthorizer (sset:=sset) paths with
  | inr _ => ∃ p, p ∈ paths ∧ path_pattern_malformed p
  | inl f =>
      (∀ p, p ∈ paths → ¬ path_pattern_malformed p) ∧
      ∀ a, (v_decision (f a) = DecisionAllow ↔
              a_ResourceRequest a = false ∧ ∃ p, p ∈ paths ∧ path_pattern_matches p (a_Path a)) ∧
           v_decision (f a) ≠ DecisionDeny
  end.
Proof.
  unfold path_NewAuthorizer.
  pose proof (pathAuthorizer_parse_spec paths (sets_NewString []) []) as Hspec.
  destruct (pathAuthorizer_parse _ _ _) as [[P Q]|e]; [|by apply Exists_exists].
  destruct Hspec as (HP & -> & Hok). split; [by apply Forall_forall|].
  intros a. unfold pathAuthorizer_Authorize.
  destruct (a_ResourceRequest a); [split; simpl; naive_solver|].
  rewrite HP, sets_Has_NewString. simpl.
  setoid_rewrite pattern_matches_iff.
  set (pth := TrimPrefix (a_Path a) "/").
  case_bool_decide as Hex; simpl.
  { split; [|done]. split; [|done]. intros _. split; [done|].
    apply list_elem_of_omap in Hex as (p & Hp & Hx). eauto. }
  destruct (existsb _ _) eqn:Hpre; simpl.
  - split; [|done]. split; [|done]. intros _. split; [done|].
    apply existsb_elem_of in Hpre as (pre & Hin & Hpre).
    apply list_elem_of_omap in Hin as (p & Hp & Hx). eauto 6.
  - split; [|done]. split; [done|]. intros [_ (p & Hp & [Hx|(pre & Hx & Hb)])].
    + destruct Hex. apply list_elem_of_omap. eauto.
    + rewrite existsb_false_iff in Hpre. rewrite Hpre in Hb; [done|].
      apply list_elem_of_omap. eauto.
Qed.
End path_theorems.

(** ** Theorems on registration, configuration and the server's authorizer *)

Section authorization_theorems.
Context `{UtilErrorsLaws} `{StringSetsLaws sset} {S : Type}.
Implicit Types (p : authorization S) (c : authz_config).

(** The advertised mode choices are exactly the registered factories. *)
Definition authorization_wf p : Prop :=
  NoDup (AuthorizationModeChoices p) ∧
  ∀ m, m ∈ AuthorizationModeChoices p ↔ is_Some (authorizerFactories p !! m).

(** The states [RegisterAuthz] can reach. *)
Inductive registered : authorization S → Prop :=
  | registered_empty : registered authorization_empty
  | registered_step p name factory p' :
      registered p → RegisterAuthz p name factory = Ret p' → registered p'.

Lemma registered_wf p : registered p → authorization_wf p.
Proof.
  induction 1 as [|p name factory p' Hp [Hnd Hdom] Hstep].
  - split; [constructor|]. intros m. simpl. rewrite lookup_empty.
    split; [set_solver|by intros []].
  - unfold RegisterAuthz in Hstep. case_match eqn:Hname; [done|]. injection Hstep as <-.
    assert (name ∉ AuthorizationModeChoices p) as Hfresh.
    { rewrite Hdom, Hname. by intros []. }
    split; simpl.
    + apply NoDup_app. split; [done|]. split; [set_solver|apply NoDup_singleton].
    + intros m. rewrite elem_of_app, Hdom. destruct (decide (name = m)) as [->|Hne].
      * rewrite lookup_insert_eq. set_solver.
      * rewrite lookup_insert_ne by done. set_solver.
Qed.

Lemma length_List_NewString (l : list string) :
  length l = length (sets_List (sets_NewString (sset:=sset) l)) ↔ NoDup l.
Proof.
  assert (∀ x, x ∈ sets_List (sets_NewString (sset:=sset) l) ↔ x ∈ l) as Hin.
  { intros x. by rewrite sets_elem_of_List, sets_Has_NewString, bool_decide_eq_true. }
  pose proof (sets_NoDup_List (sset:=sset) (sets_NewString l)) as Hnd. split.
  - intros Hlen. apply NoDup_ListNoDup.
    eapply NoDup_incl_NoDup; [apply NoDup_ListNoDup, Hnd|lia|].
    intros x. rewrite <- !list_elem_of_In. apply Hin.
  - intros Hl. apply Permutation_length, NoDup_Permutation; [done..|].
    intros x. by rewrite Hin.
Qed.

Lemma NewAggregate_None (l : list error) : NewAggregate l = None ↔ l = [].
Proof.
  split; [|intros ->; apply NewAggregate_nil]. destruct l as [|e l]; [done|].
  destruct (NewAggregate_cons e l) as [x Hx]. congruence.
Qed.

(** [Validate] accepts a configuration exactly when it names at least one
    mode, no mode twice, and only registered modes. *)
Lemma authz_Validate_None p c :
  registered p →
  authz_config_Validate (sset:=sset) p c = None ↔
  Modes c ≠ [] ∧ NoDup (Modes c) ∧
  ∀ m, m ∈ Modes c → is_Some (authorizerFactories p !! m).
Proof.
  intros [_ Hdom]%registered_wf. unfold authz_config_Validate, IsValidAuthorizationMode.
  rewrite NewAggregate_None. rewrite <- (length_List_NewString (Modes c)).
  assert ((∀ m, m ∈ Modes c → is_Some (authorizerFactories p !! m)) ↔
          filter (λ mode, sets_Has (sets_NewString (sset:=sset) (AuthorizationModeChoices p)) mode
                            = false) (Modes c) = []) as ->.
  { setoid_rewrite <- Hdom. split.
    - intros Hm. apply elem_of_nil_inv. intros m [Hf Hin]%list_elem_of_filter.
      rewrite sets_Has_NewString, bool_decide_eq_false in Hf. auto.
    - intros Hf m Hin. apply dec_stable. intros Hno. apply (not_elem_of_nil m).
      rewrite <- Hf. apply list_elem_of_filter.
      by rewrite sets_Has_NewString, bool_decide_eq_false. }
  assert (Modes c ≠ [] ↔ length (Modes c) ≠ 0) as ->.
  { by rewrite length_zero_iff_nil. }
  destruct (filter _ _) as [|m ms]; simpl;
    destruct (Nat.eqb_spec (length (Modes c)) 0);
    destruct (Nat.eqb_spec (length (Modes c))
               (length (sets_List (sets_NewString (sset:=sset) (Modes c)))));
    simpl; intuition congruence.
Qed.

Lemma initAuthorization_modes_total p modes acc :
  (∀ m, m ∈ modes → ∃ f, authorizerFactories p !! m = Some f ∧ ∀ e, f ≠ Some (inr e)) →
  ∃ l, initAuthorization_modes p modes acc = inl l.
Proof.
  revert acc. induction modes as [|m modes IH]; intros acc Hm; simpl; [by eexists|].
  destruct (Hm m) as (f & Hf & Hne); [set_solver|]. rewrite Hf.
  destruct f as [[h|e]|]; [|by edestruct Hne|]; apply IH; set_solver.
Qed.

(** A configuration that [Validate] accepts, whose factories succeed and
    whose always-allowed paths are well formed is always built into an
    authorizer: initialisation never reports an unknown mode. *)
Theorem initAuthorization_total p c :
  registered p →
  authz_config_Validate (sset:=sset) p c = None →
  (∀ m e, m ∈ Modes c → authorizerFactories p !! m ≠ Some (Some (inr e))) →
  (∀ path, path ∈ AlwaysAllowPaths c → ¬ path_pattern_malformed path) →
  ∃ authz, initAuthorization (sset:=sset) p c = inl authz.
Proof.
  intros Hreg Hval Hfac Hpath. apply authz_Validate_None in Hval as (Hne & _ & Hdom); [|done].
  unfold initAuthorization. destruct (Modes c) as [|m ms] eqn:Hms; [done|].
  rewrite <- Hms in *. replace (length (Modes c) =? 0) with false by (by rewrite Hms).
  destruct (initAuthorization_modes_total p (Modes c) []) as [l ->].
  { intros m' Hin. destruct (Hdom m' Hin) as [f Hf]. exists f. split; [done|].
    intros e ->. by eapply Hfac. }
  destruct (length (AlwaysAllowPaths c) =? 0); [by eexists|].
  unfold path_NewAuthorizer.
  pose proof (pathAuthorizer_parse_spec (AlwaysAllowPaths c) (sets_NewString (sset:=sset) []) []) as Hps.
  destruct (pathAuthorizer_parse _ _ _) as [[P Q]|e]; [by eexists|].
  apply Exists_exists in Hps as (path & Hin & Hbad). by destruct (Hpath path Hin).
Qed.

End authorization_theorems.

Section privileged_theorems.
Context `{UtilErrors} `{StringSets sset} {S : Type}.
Implicit Types (p : authorization S) (c : authz_config).

Lemma initAuthorization_modes_spec p modes acc l :
  initAuthorization_modes p modes acc = inl l →
  ∃ l', l = acc ++ l' ∧
    ∀ h, h ∈ l' → ∃ mode, mode ∈ modes ∧ authorizerFactories p !! mode = Some (Some (inl h)).
Proof.
  revert acc. induction modes as [|m modes IH]; intros acc; simpl.
  - intros [= <-]. exists []. rewrite app_nil_r. split; [done|]. set_solver.
  - destruct (authorizerFactories p !! m) as [[[h|e]|]|] eqn:Hm; [|done| |done].
    + intros (l' & -> & Hl')%IH. exists (h :: l'). rewrite <- app_assoc. split; [done|].
      intros h' [->|Hin]%elem_of_cons; [by exists m; set_solver|].
      destruct (Hl' h' Hin) as (m' & ? & ?). exists m'. set_solver.
    + intros (l' & -> & Hl')%IH. exists l'. split; [done|].
      intros h' Hin. destruct (Hl' h' Hin) as (m' & ? & ?). exists m'. set_solver.
Qed.

(** A request of a user in an always-allowed group is allowed by the
    server's authorizer unless one of the configured modes denies it: the
    always-allowed groups are consulted after the modes, so they override a
    missing opinion but not a denial. *)
Theorem initAuthorization_privileged p c authz a s u g :
  initAuthorization (sset:=sset) p c = inl authz →
  a_User a = Some u → g ∈ u_Groups u → g ∈ AlwaysAllowGroups c →
  v_decision (authz a s).1 = DecisionAllow ∨
  (v_decision (authz a s).1 = DecisionDeny ∧
   ∃ mode h s1, mode ∈ Modes c ∧ authorizerFactories p !! mode = Some (Some (inl h)) ∧
     v_decision (h a s1).1 = DecisionDeny).
Proof.
  intros Hinit Hu Hg Hpriv. unfold initAuthorization in Hinit.
  case_match; [done|]. case_match eqn:Hmodes; [|done].
  apply initAuthorization_modes_spec in Hmodes as (l' & -> & Hl'). simpl in Hinit.
  replace (length (AlwaysAllowGroups c) =? 0) with false in Hinit
    by (destruct (AlwaysAllowGroups c); set_solver).
  set (priv := pure_authorizer (privilegedGroupAuthorizer_Authorize (AlwaysAllowGroups c))) in Hinit.
  assert (∃ tail, authz = unionAuthzHandler_Authorize (l' ++ priv :: tail)) as [tail ->].
  { case_match; [simplify_eq; by exists []|]. case_match; simplify_eq.
    eexists. by rewrite <- app_assoc. }
  assert (∀ s1, priv a s1 = (Verdict DecisionAllow "" None, s1)) as Hallow.
  { intros s1. unfold priv, pure_authorizer, privilegedGroupAuthorizer_Authorize. rewrite Hu.
    replace (existsb _ (u_Groups u)) with true; [done|]. symmetry.
    apply existsb_elem_of. exists g. split; [done|].
    rewrite existsb_eq_elem_of. by apply bool_decide_eq_true. }
  destruct (unionAuthz_split a l' s)
    as [(outs & s1 & Hs)|(pre & h & post & outs & s1 & v & s2 & -> & Hs & Hh & Hv)].
  - left. by rewrite (unionAuthz_decisive _ _ _ _ _ _ _ _ _ Hs (Hallow s1)).
  - rewrite <- app_assoc. simpl. rewrite (unionAuthz_decisive _ _ _ _ _ _ _ _ _ Hs Hh Hv).
    destruct v as [[| |] r e]; [right|by left|done]. split; [done|].
    destruct (Hl' h) as (mode & ? & ?); [set_solver|]. exists mode, h, s1. by rewrite Hh.
Qed.
End privileged_theorems.

(** ** Witnesses *)

Module AuthorizerExamples.
Definition alice : DefaultInfo :=
  {| u_Name := "alice"; u_UID := ""; u_Groups := ["dev"; "system:masters"]; u_Extra := ∅ |}.

Definition get_path (p : string) : AttributesRecord :=
  {| a_User := Some alice; a_Verb := "get"; a_Namespace := ""; a_APIGroup := "";
     a_APIVersion := ""; a_Resource := ""; a_Subresource := ""; a_Name := "";
     a_ResourceRequest := false; a_Path := p |}.

Definition reg : authorization unit :=
  {| authorizerFactories :=
       <["AlwaysDeny" := Some (inl (pure_authorizer alwaysDenyAuthorizer_Authorize))]> ∅;
     AuthorizationModeChoices := ["AlwaysDeny"] |}.

Definition conf : authz_config :=
  {| Modes := ["AlwaysDeny"]; AlwaysAllowPaths := ["/healthz"; "/api/*"];
     AlwaysAllowGroups := ["system:masters"] |}.

Lemma reg_registered : registered reg.
Proof. eapply registered_step; [apply registered_empty|reflexivity]. Defined.
End AuthorizerExamples.

Import AuthorizerExamples.

Lemma path_authorizer_spec_witness :
  match path_NewAuthorizer (sset:=gset string) (H:=golib_sets_model) ["/healthz"; "api/*"] with
  | inl f => v_decision (f (get_path "/api/v1")) = DecisionAllow
  | inr _ => False
  end.
Proof.
  pose proof (path_authorizer_spec (H0:=golib_sets_model_laws) ["/healthz"; "api/*"]) as Hspec.
  destruct (path_NewAuthorizer _) as [f|e] eqn:Hf.
  - apply (proj2 Hspec (get_path "/api/v1")). split; [reflexivity|].
    exists "api/*". split; [set_solver|].
    left. exists "api/", "v1". split; reflexivity.
  - vm_compute in Hf. discriminate Hf.
Defined.

Lemma initAuthorization_total_witness :
  ∃ authz, initAuthorization (sset:=gset string) (H0:=golib_sets_model)
             (H:=golib_errors_model) reg conf = inl authz.
Proof.
  apply (initAuthorization_total (H0:=golib_errors_model_laws) (H2:=golib_sets_model_laws)).
  - apply reg_registered.
  - vm_compute. reflexivity.
  - intros m e Hm Hf. apply list_elem_of_singleton in Hm; subst m.
    vm_compute in Hf. discriminate Hf.
  - intros path Hp Hbad. apply inner_star in Hbad.
    apply elem_of_cons in Hp as [->| ->%list_elem_of_singleton];
      vm_compute in Hbad; discriminate Hbad.
Defined.

Lemma initAuthorization_privileged_witness :
  ∃ authz, initAuthorization (sset:=gset string) (H0:=golib_sets_model)
             (H:=golib_errors_model) reg conf = inl authz ∧
    v_decision (authz (get_path "/secret") tt).1 = DecisionAllow.
Proof.
  destruct (initAuthorization (sset:=gset string) (H0:=golib_sets_model)
             (H:=golib_errors_model) reg conf) as [authz|e] eqn:Hinit.
  - exists authz. split; [reflexivity|].
    destruct (initAuthorization_privileged (S:=unit) reg conf authz (get_path "/secret") tt
                alice "system:masters" Hinit eq_refl) as [Hd|(Hd & mode & h & s1 & Hm & Hh & Hdeny)].
    + set_solver.
    + set_solver.
    + exact Hd.
    + apply list_elem_of_singleton in Hm. subst mode.
      vm_compute in Hh. injection Hh as <-. discriminate Hdeny.
  - vm_compute in Hinit. discriminate Hinit.
Defined.
