(* ===== verification/ServiceAccount.v ===== *)
(** * Object names and service account identities

    Models pkg/apis/validation (generic.go, name.go) and
    pkg/authentication/serviceaccount/util.go.  The DNS-1123 validators are
    golib's, hence parameters ([DNSValidation]); the laws state the alphabets
    golib documents for them. *)

From S2P Require Import Prelude GoStrings Authorizer.

Local Open Scope go_scope.

(** ** Name validation *)

(** golib/util/validation: each validator returns the list of complaints. *)
Class DNSValidation := {
  IsDNS1123Label : string → list string;
  IsDNS1123Subdomain : string → list string;
  IsDNS1035Label : string → list string;
}.

Definition is_dns1123_label_byte (a : ascii) : bool :=
  let n := nat_of_ascii a in
  ((97 <=? n) && (n <=? 122)) || ((48 <=? n) && (n <=? 57)) || (a == "-"%char).

Definition is_dns1123_subdomain_byte (a : ascii) : bool :=
  is_dns1123_label_byte a || (a == "."%char).

Fixpoint all_bytes (p : ascii → bool) (s : string) : bool :=
  match s with EmptyString => true | String a s' => p a && all_bytes p s' end.

(** "must consist of lower case alphanumeric characters or '-'" (and '.' for a
    subdomain). *)
Class DNSValidationLaws `{DNSValidation} := {
  IsDNS1123Label_bytes s : IsDNS1123Label s = [] → all_bytes is_dns1123_label_byte s = true;
  IsDNS1123Subdomain_bytes s :
    IsDNS1123Subdomain s = [] → all_bytes is_dns1123_subdomain_byte s = true;
}.

(** [name[:n]] where [n] may be negative, which panics. *)
Definition slice_to (s : string) (n : Z) : outcome string :=
  if (n <? 0)%Z || (Z.of_nat (slen s) <? n)%Z then Panic "slice bounds out of range"
  else Ret (stake (Z.to_nat n) s).

Definition maskTrailingDash (name : string) : outcome string :=
  if HasSuffix name "-"
  then p ← slice_to name (Z.of_nat (slen name) - 2); Ret (p +:+ "a")
  else Ret name.

Section validation.
Context `{DNSValidation}.

Definition NameIsDNSSubdomain (name : string) (prefix : bool) : outcome (list string) :=
  name ← (if prefix then maskTrailingDash name else Ret name);
  Ret (IsDNS1123Subdomain name).

Definition NameIsDNSLabel (name : string) (prefix : bool) : outcome (list string) :=
  name ← (if prefix then maskTrailingDash name else Ret name);
  Ret (IsDNS1123Label name).

Definition NameIsDNS1035Label (name : string) (prefix : bool) : outcome (list string) :=
  name ← (if prefix then maskTrailingDash name else Ret name);
  Ret (IsDNS1035Label name).

Definition ValidateNamespaceName := NameIsDNSLabel.
Definition ValidateServiceAccountName := NameIsDNSSubdomain.
End validation.

(** ** Names as path segments *)

Definition NameMayNotBe : list string := ["."; ".."].
Definition NameMayNotContain : list ascii := ["/"; "%"]%char.

Definition IsValidPathSegmentPrefix (name : string) : list string :=
  (λ c, "may not contain '" +:+ String c "'") <$> filter (λ c, ContainsByte name c = true) NameMayNotContain.

Definition IsValidPathSegmentName (name : string) : list string :=
  match List.find (λ illegalName, name == illegalName) NameMayNotBe with
  | Some illegalName => ["may not be '" +:+ illegalName +:+ "'"]
  | None =>
      (λ c, "may not contain '" +:+ String c "'") <$>
      filter (λ c, ContainsByte name c = true) NameMayNotContain
  end.

Definition ValidatePathSegmentName (name : string) (prefix : bool) : list string :=
  if prefix then IsValidPathSegmentPrefix name else IsValidPathSegmentName name.

(** ** Service account names *)

Definition ServiceAccountUsernamePrefix : string := "system:serviceaccount:".
Definition ServiceAccountUsernameSeparator : string := ":".
Definition ServiceAccountGroupPrefix : string := "system:serviceaccounts:".
Definition AllServiceAccountsGroup : string := "system:serviceaccounts".
Definition PodNameKey : string := "authentication.kubernetes.io/pod-name".
Definition PodUIDKey : string := "authentication.kubernetes.io/pod-uid".

Definition MakeUsername (namespace name : string) : string :=
  ServiceAccountUsernamePrefix +:+ namespace +:+ ServiceAccountUsernameSeparator +:+ name.

Definition MatchesUsername (namespace name username : string) : bool :=
  if HasPrefix username ServiceAccountUsernamePrefix then
    let username := sdrop (slen ServiceAccountUsernamePrefix) username in
    if HasPrefix username namespace then
      let username := sdrop (slen namespace) username in
      if HasPrefix username ServiceAccountUsernameSeparator then
        let username := sdrop (slen ServiceAccountUsernameSeparator) username in
        username == name
      else false
    else false
  else false.

Definition invalidUsernameErr : error :=
  Errorf "Username must be in the form %s" [MakeUsername "namespace" "name"].

Section split.
Context `{DNSValidation}.

Definition SplitUsername (username : string) : outcome ((string * string) + error) :=
  if HasPrefix username ServiceAccountUsernamePrefix then
    let trimmed := TrimPrefix username ServiceAccountUsernamePrefix in
    match Split trimmed ":"%char with
    | [namespace; name] =>
        nsErrs ← ValidateNamespaceName namespace false;
        if negb (length nsErrs =? 0) then Ret (inr invalidUsernameErr)
        else
          nameErrs ← ValidateServiceAccountName name false;
          if negb (length nameErrs =? 0) then Ret (inr invalidUsernameErr)
          else Ret (inl (namespace, name))
    | _ => Ret (inr invalidUsernameErr)
    end
  else Ret (inr invalidUsernameErr).
End split.

Definition MakeNamespaceGroupName (namespace : string) : string :=
  ServiceAccountGroupPrefix +:+ namespace.

Definition MakeGroupNames (namespace : string) : list string :=
  [AllServiceAccountsGroup; MakeNamespaceGroupName namespace].

Record ServiceAccountInfo := {
  sa_Name : string; sa_Namespace : string; sa_UID : string;
  sa_PodName : string; sa_PodUID : string;
}.

Definition ServiceAccountInfo_UserInfo (sa : ServiceAccountInfo) : DefaultInfo :=
  {| u_Name := MakeUsername (sa_Namespace sa) (sa_Name sa);
     u_UID := sa_UID sa;
     u_Groups := MakeGroupNames (sa_Namespace sa);
     u_Extra :=
       if (sa_PodName sa != "") && (sa_PodUID sa != "")
       then <[PodNameKey := [sa_PodName sa]]> (<[PodUIDKey := [sa_PodUID sa]]> ∅)
       else ∅ |}.

Definition UserInfo (namespace name uid : string) : DefaultInfo :=
  ServiceAccountInfo_UserInfo
    {| sa_Name := name; sa_Namespace := namespace; sa_UID := uid; sa_PodName := ""; sa_PodUID := "" |}.

(** The fields of golib's api.Secret and api.ServiceAccount the check reads, and
    its constants. *)
Record SecretView := { sec_Type : string; sec_Annotations : gmap string string }.
Record ServiceAccountView := { sav_Name : string; sav_UID : string }.

Definition IsServiceAccountToken
    (SecretTypeServiceAccountToken ServiceAccountNameKey ServiceAccountUIDKey : string)
    (secret : SecretView) (sa : ServiceAccountView) : bool :=
  if sec_Type secret != SecretTypeServiceAccountToken then false
  else
    let name := default "" (sec_Annotations secret !! ServiceAccountNameKey) in
    let uid := default "" (sec_Annotations secret !! ServiceAccountUIDKey) in
    if name != sav_Name sa then false
    else if negb (slen uid =? 0) && (uid != sav_UID sa) then false
    else true.

(** ** Theorems *)

Lemma all_bytes_no_byte p s c : all_bytes p s = true → p c = false → ContainsByte s c = false.
Proof.
  induction s as [|a s IH]; simpl; [done|]. intros [Ha Hs]%andb_true_iff Hc.
  rewrite IH by done. rewrite bool_decide_false; [done|]. intros ->. congruence.
Qed.

Lemma MatchesUsername_spec ns name u :
  MatchesUsername ns name u = true ↔ u = MakeUsername ns name.
Proof.
  unfold MatchesUsername, MakeUsername. split.
  - destruct (HasPrefix u _) eqn:H1; [|done].
    apply HasPrefix_spec in H1 as [t1 ->]. rewrite sdrop_app.
    destruct (HasPrefix t1 _) eqn:H2; [|done].
    apply HasPrefix_spec in H2 as [t2 ->]. rewrite sdrop_app.
    destruct (HasPrefix t2 _) eqn:H3; [|done].
    apply HasPrefix_spec in H3 as [t3 ->]. rewrite sdrop_app.
    by rewrite bool_decide_eq_true; intros ->.
  - intros ->. autorewrite with gostr. by apply bool_decide_eq_true.
Qed.

(** [MatchesUsername], the allocation-free comparison, holds exactly of the
    username [MakeUsername] builds. *)
Theorem MatchesUsername_equiv ns name u :
  MatchesUsername ns name u = (u == MakeUsername ns name).
Proof.
  apply eq_bool_prop_intro. by rewrite !Is_true_true, MatchesUsername_spec, bool_decide_eq_true.
Qed.

Section split_theorems.
Context `{DNSValidationLaws}.

Lemma SplitUsername_Make ns name :
  IsDNS1123Label ns = [] → IsDNS1123Subdomain name = [] →
  SplitUsername (MakeUsername ns name) = Ret (inl (ns, name)).
Proof.
  intros Hns Hname. unfold SplitUsername, MakeUsername. autorewrite with gostr.
  change (ServiceAccountUsernameSeparator +:+ name) with (String ":" name).
  rewrite Split_app, Split_no_sep.
  - unfold ValidateNamespaceName, ValidateServiceAccountName, NameIsDNSLabel, NameIsDNSSubdomain.
    cbn [mbind outcome_bind]. rewrite Hns. simpl. by rewrite Hname.
  - eapply all_bytes_no_byte; [by apply IsDNS1123Subdomain_bytes|done].
  - eapply all_bytes_no_byte; [by apply IsDNS1123Label_bytes|done].
Qed.

Lemma SplitUsername_inv u ns name :
  SplitUsername u = Ret (inl (ns, name)) →
  u = MakeUsername ns name ∧ IsDNS1123Label ns = [] ∧ IsDNS1123Subdomain name = [].
Proof.
  unfold SplitUsername. case_match eqn:Hp; [|done]. apply HasPrefix_spec in Hp as [t ->].
  autorewrite with gostr. pose proof (Join_Split t ":"%char) as Ht.
  destruct (Split t ":"%char) as [|ns' [|name' [|]]] eqn:Hsplit; try done.
  unfold ValidateNamespaceName, ValidateServiceAccountName, NameIsDNSLabel, NameIsDNSSubdomain.
  cbn [mbind outcome_bind].
  destruct (IsDNS1123Label ns') eqn:Hns; simpl; [|done].
  destruct (IsDNS1123Subdomain name') eqn:Hname; simpl; [|done].
  intros [= <- <-]. split; [|done]. rewrite <- Ht. done.
Qed.

Lemma SplitUsername_returns u : returns (SplitUsername u) = true.
Proof.
  unfold SplitUsername. case_match; [|done].
  destruct (Split _ _) as [|? [|? [|]]]; try done.
  cbn. case_match; [done|]. cbn. by case_match.
Qed.

(** Splitting a username is the exact inverse of making one from a valid
    namespace and service account name: it succeeds with (namespace, name)
    exactly on the username made from them, both valid, and otherwise returns
    the error; it never panics. *)
Theorem SplitUsername_roundtrip u :
  (∀ ns name, SplitUsername u = Ret (inl (ns, name)) ↔
     u = MakeUsername ns name ∧ IsDNS1123Label ns = [] ∧ IsDNS1123Subdomain name = []) ∧
  (SplitUsername u = Ret (inr invalidUsernameErr) ∨ ∃ ns name, SplitUsername u = Ret (inl (ns, name))).
Proof.
  split.
  - intros ns name. split; [apply SplitUsername_inv|].
    intros (-> & Hns & Hname). by apply SplitUsername_Make.
  - unfold SplitUsername. case_match; [|by left].
    destruct (Split _ _) as [|? [|? [|]]]; try by left.
    cbn. case_match; [by left|]. cbn. case_match; [by left|eauto].
Qed.
End split_theorems.

(** [maskTrailingDash], called for name prefixes, panics on the one-byte name
    "-", and on a longer name ending in a dash it drops the byte before the dash
    as well instead of replacing the dash only. *)
Theorem maskTrailingDash_behaviour (name : string) :
  (maskTrailingDash name = Panic "slice bounds out of range" ↔ name = "-") ∧
  (∀ p c, name = p +:+ String c "-" → maskTrailingDash name = Ret (p +:+ "a")) ∧
  (HasSuffix name "-" = false → maskTrailingDash name = Ret name).
Proof.
  assert (∀ p c, maskTrailingDash (p +:+ String c "-") = Ret (p +:+ "a")) as Hlong.
  { intros p c. unfold maskTrailingDash.
    replace (HasSuffix _ "-") with true
      by (symmetry; apply HasSuffix_spec; exists (p +:+ String c ""); by rewrite <- sapp_assoc).
    unfold slice_to. rewrite slen_app. simpl (slen (String c "-")).
    replace (Z.of_nat (slen p + 2) - 2)%Z with (Z.of_nat (slen p)) by lia.
    replace ((Z.of_nat (slen p) <? 0)%Z || (Z.of_nat (slen p + 2) <? Z.of_nat (slen p))%Z)
      with false by (symmetry; apply orb_false_iff; rewrite !Z.ltb_ge; lia).
    cbn [mbind outcome_bind]. by rewrite Nat2Z.id, stake_app. }
  split; [|split].
  - split; [|by intros ->]. intros Hp.
    destruct (HasSuffix name "-") eqn:Hs; [|unfold maskTrailingDash in Hp; by rewrite Hs in Hp].
    apply HasSuffix_spec in Hs as [t ->].
    destruct (decide (t = "")) as [->|Hne]; [done|].
    destruct (stake_last t Hne) as [c Hc]. rewrite Hc, <- sapp_assoc in Hp.
    change (String c "" +:+ "-") with (String c "-") in Hp. by rewrite Hlong in Hp.
  - intros p c ->. apply Hlong.
  - intros Hs. unfold maskTrailingDash. by rewrite Hs.
Qed.

(** ** Witnesses *)

Module ServiceAccountExamples.
(** A validator with the documented alphabets. *)
Definition dns_model : DNSValidation := {|
  IsDNS1123Label s := if all_bytes is_dns1123_label_byte s then [] else ["invalid label"];
  IsDNS1123Subdomain s :=
    if all_bytes is_dns1123_subdomain_byte s then [] else ["invalid subdomain"];
  IsDNS1035Label s := if all_bytes is_dns1123_label_byte s then [] else ["invalid label"];
|}.

Lemma dns_model_laws : @DNSValidationLaws dns_model.
Proof. split; intros s; simpl; by destruct (all_bytes _ s). Qed.
End ServiceAccountExamples.

Import ServiceAccountExamples.

Lemma SplitUsername_roundtrip_witness :
  @SplitUsername dns_model "system:serviceaccount:kube-system:default"
  = Ret (inl ("kube-system", "default")).
Proof.
  apply (proj1 (SplitUsername_roundtrip (H0:=dns_model_laws)
                  "system:serviceaccount:kube-system:default")).
  repeat split; vm_compute; reflexivity.
Defined.
