(* ===== verification/RequestInfo.v ===== *)
(** * Parsing a request into its RequestInfo

    Models pkg/request/requestinfo.go.  [NewRequestInfo] is translated whole,
    with Go's indexing and slicing ([index], [slice_from] panic out of range).
    Parameters: the factory's ParameterCodec, golib's field-selector parser and
    path-segment validator, and the constant api.NamespaceNone. *)

From S2P Require Import Prelude GoStrings.

Local Open Scope go_scope.

Definition values : Type := gmap string (list string).

Record http_request := {
  req_Method : string;
  req_URL : string; (* req.URL as it prints *)
  req_Path : string;
  req_Query : values;
}.

Record RequestInfo := {
  ri_IsResourceRequest : bool;
  ri_Path : string;
  ri_Verb : string;
  ri_APIPrefix : string;
  ri_APIGroup : string;
  ri_APIVersion : string;
  ri_Namespace : string;
  ri_Resource : string;
  ri_Subresource : string;
  ri_Name : string;
  ri_Parts : list string;
}.

(** The fields of api.ListOptions the parser reads. *)
Record ListOptions := { lo_Watch : bool; lo_FieldSelector : string }.

(** What the parser calls outside this repository.  A nil selector is [None];
    [RequiresExactMatch] is the method of a non-nil selector. *)
Class RequestDeps (Selector : Type) := {
  NamespaceNone : string;
  DecodeParameters : values → ListOptions + error;
  ParseSelector : string → option Selector * option error;
  RequiresExactMatch : Selector → string → option string;
  golib_IsValidPathSegmentName : string → list string;
}.

Definition slice_from {A} (l : list A) (n : nat) : outcome (list A) :=
  if n <=? length l then Ret (drop n l) else Panic "slice bounds out of range".

(** splitPath returns the segments for a URL path. *)
Definition splitPath (path : string) : list string :=
  let path := Trim path (is_byte "/"%char) in
  if path == "" then [] else Split path "/"%char.

Section requestinfo.
Context `{StringSets sset} `{RequestDeps Selector}.

Record RequestInfoFactory := {
  APIPrefixes : sset;
  GrouplessAPIPrefixes : sset;
}.

Definition specialVerbs : sset := sets_NewString ["proxy"; "watch"].
Definition specialVerbsNoSubresources : sset := sets_NewString ["proxy"].
Definition namespaceSubresources : sset := sets_NewString ["status"; "finalize"].

(** [switch req.Method]. *)
Definition methodVerb (method : string) : string :=
  if method == "POST" then "create"
  else if (method == "GET") || (method == "HEAD") then "get"
  else if method == "PUT" then "update"
  else if method == "PATCH" then "patch"
  else if method == "DELETE" then "delete"
  else "".

(** The options of a nameless get; on a decoding error they are rebuilt from
    the "watch" values alone. *)
Definition listOptionsOf (q : values) : ListOptions :=
  match DecodeParameters q with
  | inl opts => opts
  | inr _ =>
      {| lo_Watch :=
           match q !! "watch" with
           | Some (v :: _) => negb ((ToLower v == "false") || (ToLower v == "0"))
           | _ => false
           end;
         lo_FieldSelector := "" |}
  end.

(** The name a nameless get takes from the field selector. *)
Definition nameFromSelector (fieldSelector : string) : outcome string :=
  if fieldSelector != "" then
    match ParseSelector fieldSelector with
    | (selector, Some _) =>
        match selector with
        | None => Panic "nil pointer dereference"
        | Some sel =>
            match RequiresExactMatch sel "metadata.name" with
            | Some name =>
                if length (golib_IsValidPathSegmentName name) =? 0 then Ret name else Ret ""
            | None => Ret ""
            end
        end
    | (_, None) => Ret ""
    end
  else Ret "".

Definition set_verb_name (ri : RequestInfo) (verb name : string) : RequestInfo :=
  {| ri_IsResourceRequest := ri_IsResourceRequest ri; ri_Path := ri_Path ri; ri_Verb := verb;
     ri_APIPrefix := ri_APIPrefix ri; ri_APIGroup := ri_APIGroup ri;
     ri_APIVersion := ri_APIVersion ri; ri_Namespace := ri_Namespace ri;
     ri_Resource := ri_Resource ri; ri_Subresource := ri_Subresource ri;
     ri_Name := name; ri_Parts := ri_Parts ri |}.

(** The last part of the function: a get without a name is a list or a watch,
    a delete without a name is a deletecollection. *)
Definition finishVerb (q : values) (ri : RequestInfo) : outcome RequestInfo :=
  ri ← (if (slen (ri_Name ri) =? 0) && (ri_Verb ri == "get") then
          let opts := listOptionsOf q in
          let verb := if lo_Watch opts then "watch" else "list" in
          name ← nameFromSelector (lo_FieldSelector opts);
          Ret (set_verb_name ri verb name)
        else Ret ri);
  Ret (if (slen (ri_Name ri) =? 0) && (ri_Verb ri == "delete")
       then set_verb_name ri "deletecollection" (ri_Name ri) else ri).

(** The switch on the number of parts, with its fallthroughs:
    (subresource, name, resource). *)
Definition interpretParts (verb : string) (parts : list string)
    : outcome (string * string * string) :=
  if (3 <=? length parts) && negb (sets_Has specialVerbsNoSubresources verb) then
    sub ← index parts 2; name ← index parts 1; res ← index parts 0; Ret (sub, name, res)
  else if 2 <=? length parts then
    name ← index parts 1; res ← index parts 0; Ret ("", name, res)
  else if 1 <=? length parts then
    res ← index parts 0; Ret ("", "", res)
  else Ret ("", "", "").

(** URL forms /namespaces/{namespace}/{kind}/...: the namespace, and the parts
    relative to the kind. *)
Definition namespaceOf (parts : list string) : outcome (string * list string) :=
  p0 ← index parts 0;
  if p0 == "namespaces" then
    if 1 <? length parts then
      ns ← index parts 1;
      if 2 <? length parts then
        p2 ← index parts 2;
        if negb (sets_Has namespaceSubresources p2)
        then rest ← slice_from parts 2; Ret (ns, rest)
        else Ret (ns, parts)
      else Ret (ns, parts)
    else Ret ("", parts)
  else Ret (NamespaceNone, parts).

(** What the function does once the prefix, group and version are known and
    [currentParts] follows the version. *)
Definition resourceRequestInfo (req : http_request) (prefix group version : string)
    (currentParts : list string) : outcome (RequestInfo * option error) :=
  let info verb namespace resource subresource name parts :=
    {| ri_IsResourceRequest := true; ri_Path := req_Path req; ri_Verb := verb;
       ri_APIPrefix := prefix; ri_APIGroup := group; ri_APIVersion := version;
       ri_Namespace := namespace; ri_Resource := resource; ri_Subresource := subresource;
       ri_Name := name; ri_Parts := parts |} in
  c0 ← index currentParts 0;
  if sets_Has specialVerbs c0 && (length currentParts <? 2)
  then Ret (info (ToLower (req_Method req)) "" "" "" "" [],
            Some (Errorf "unable to determine kind and namespace from url, %v" [req_URL req]))
  else
  '(verb, currentParts) ←
    (if sets_Has specialVerbs c0 then rest ← slice_from currentParts 1; Ret (c0, rest)
     else Ret (methodVerb (req_Method req), currentParts));
  '(namespace, parts) ← namespaceOf currentParts;
  '(sub, name, res) ← interpretParts verb parts;
  ri ← finishVerb (req_Query req) (info verb namespace res sub name parts);
  Ret (ri, None).

Definition nonResourceInfo (req : http_request) (prefix : string) : RequestInfo :=
  {| ri_IsResourceRequest := false; ri_Path := req_Path req; ri_Verb := ToLower (req_Method req);
     ri_APIPrefix := prefix; ri_APIGroup := ""; ri_APIVersion := ""; ri_Namespace := "";
     ri_Resource := ""; ri_Subresource := ""; ri_Name := ""; ri_Parts := [] |}.

Definition NewRequestInfo (r : RequestInfoFactory) (req : http_request)
    : outcome (RequestInfo * option error) :=
  let currentParts := splitPath (req_Path req) in
  if length currentParts <? 3 then Ret (nonResourceInfo req "", None) else
  prefix ← index currentParts 0;
  if negb (sets_Has (APIPrefixes r) prefix) then Ret (nonResourceInfo req "", None) else
  currentParts ← slice_from currentParts 1;
  if sets_Has (GrouplessAPIPrefixes r) prefix then
    version ← index currentParts 0;
    currentParts ← slice_from currentParts 1;
    resourceRequestInfo req prefix "" version currentParts
  else if length currentParts <? 3 then Ret (nonResourceInfo req prefix, None)
  else
    group ← index currentParts 0;
    currentParts ← slice_from currentParts 1;
    version ← index currentParts 0;
    currentParts ← slice_from currentParts 1;
    resourceRequestInfo req prefix group version currentParts.
End requestinfo.
Arguments RequestInfoFactory sset : clear implicits.

(** ** Theorems *)

(** *** Splitting a rendered path *)

Definition segment (s : string) : Prop := s ≠ "" ∧ ContainsByte s "/"%char = false.

Lemma Join_non_empty l sep : l ≠ [] → Forall segment l → Join l sep ≠ "".
Proof.
  intros Hne Hl. destruct Hl as [|s l [Hs _] Hl]; [done|].
  destruct l as [|s' l]; [done|]. rewrite Join_cons by done. by destruct s.
Qed.

Lemma Join_last l t a :
  l ≠ [] → Forall segment l → Join l "/" = t +:+ String a "" → a ≠ "/"%char.
Proof.
  intros Hne Hl. revert t. induction Hl as [|s l [Hs Hslash] Hl IH]; [done|]. intros t.
  destruct (decide (l = [])) as [->|Hl'].
  - simpl. intros -> ->. rewrite ContainsByte_app in Hslash. simpl in Hslash.
    by rewrite orb_true_r in Hslash.
  - rewrite Join_cons by done.
    destruct (stake_last (Join l "/")) as [b Hb]; [by apply Join_non_empty|].
    intros Heq. rewrite Hb, !sapp_assoc in Heq. apply last_inj in Heq as [_ ->]. by eapply IH.
Qed.

Lemma splitPath_render l :
  l ≠ [] → Forall segment l → splitPath ("/" +:+ Join l "/") = l.
Proof.
  intros Hne Hl. unfold splitPath.
  assert (Trim ("/" +:+ Join l "/") (is_byte "/"%char) = Join l "/") as ->.
  { unfold Trim. change ("/" +:+ ?x) with (String "/" x). cbn [TrimLeft].
    assert (TrimLeft (Join l "/") (is_byte "/"%char) = Join l "/") as Hleft.
    { destruct Hl as [|s l [Hs Hslash] Hl]; [done|]. destruct s as [|b s]; [done|].
      simpl in Hslash. apply orb_false_iff in Hslash as [Hb _].
      assert (∃ u, Join (String b s :: l) "/" = String b u) as [u ->].
      { destruct l; [by eexists|]. rewrite Join_cons by done. by eexists. }
      apply TrimLeft_app_false. unfold is_byte. apply bool_decide_eq_false.
      apply bool_decide_eq_false in Hb. congruence. }
    change (is_byte "/" "/") with true. cbn. rewrite Hleft. apply TrimRight_id.
    intros t a Ht. apply bool_decide_eq_false. apply not_eq_sym. by eapply Join_last. }
  rewrite bool_decide_false by (by apply Join_non_empty).
  apply Split_Join; [done|]. eapply Forall_impl; [done|]. by intros x [_ ?].
Qed.

Section theorems.
Context `{StringSetsLaws sset} `{RequestDeps Selector}.
Implicit Types (r : RequestInfoFactory sset) (req : http_request).

(** *** The documented URL forms

    /{prefix}[/{group}]/{version}[/{specialVerb}][/namespaces/{namespace}]/{resource}[/{name}/...] *)
Record resource_path := {
  rp_prefix : string;
  rp_group : option string;
  rp_version : string;
  rp_special : option string;
  rp_namespace : option string;
  rp_resource : string;
  rp_name : option (string * list string);
}.

Definition rp_tail (p : resource_path) : list string :=
  rp_resource p :: match rp_name p with Some (n, rest) => n :: rest | None => [] end.

Definition rp_parts (p : resource_path) : list string :=
  rp_prefix p :: option_list (rp_group p) ++ rp_version p :: option_list (rp_special p) ++
  match rp_namespace p with Some n => ["namespaces"; n] | None => [] end ++ rp_tail p.

Definition rp_render (p : resource_path) : string := "/" +:+ Join (rp_parts p) "/".

Definition resource_path_wf r (p : resource_path) : Prop :=
  Forall segment (rp_parts p) ∧
  sets_Has (APIPrefixes r) (rp_prefix p) = true ∧
  sets_Has (GrouplessAPIPrefixes r) (rp_prefix p) = bool_decide (rp_group p = None) ∧
  match rp_special p with
  | Some v => v ∈ ["proxy"; "watch"]
  | None => rp_namespace p = None → rp_resource p ∉ ["proxy"; "watch"]
  end ∧
  match rp_namespace p with
  | Some _ => rp_resource p ∉ ["status"; "finalize"]
  | None => rp_resource p ≠ "namespaces"
  end.

(** The query's field selector, if any, is one golib can parse. *)
Definition selector_ok (q : values) : Prop :=
  let fs := lo_FieldSelector (listOptionsOf q) in fs = "" ∨ (ParseSelector fs).2 = None.

(** The kube verb: a special verb is kept; a nameless get is a list or a
    watch, a nameless delete a deletecollection. *)
Definition rp_verb (p : resource_path) (method : string) (q : values) : string :=
  match rp_special p, rp_name p with
  | Some v, _ => v
  | None, Some _ => methodVerb method
  | None, None =>
      if methodVerb method == "get"
      then if lo_Watch (listOptionsOf q) then "watch" else "list"
      else if methodVerb method == "delete" then "deletecollection"
      else methodVerb method
  end.

Definition rp_info (p : resource_path) (req : http_request) : RequestInfo :=
  {| ri_IsResourceRequest := true;
     ri_Path := req_Path req;
     ri_Verb := rp_verb p (req_Method req) (req_Query req);
     ri_APIPrefix := rp_prefix p;
     ri_APIGroup := default "" (rp_group p);
     ri_APIVersion := rp_version p;
     ri_Namespace := default NamespaceNone (rp_namespace p);
     ri_Resource := rp_resource p;
     ri_Subresource :=
       match rp_name p with
       | Some (_, s :: _) => if rp_special p == Some "proxy" then "" else s
       | _ => ""
       end;
     ri_Name := match rp_name p with Some (n, _) => n | None => "" end;
     ri_Parts := rp_tail p |}.

Lemma nameFromSelector_ok q :
  selector_ok q → nameFromSelector (lo_FieldSelector (listOptionsOf q)) = Ret "".
Proof.
  unfold selector_ok, nameFromSelector. intros Hok.
  case_bool_decide as Hfs; simpl; [done|]. destruct Hok as [?|Hp]; [done|].
  destruct (ParseSelector _) as [sel [e|]]; done.
Qed.

(** The selector is read for a nameless get only. *)
Lemma finishVerb_spec q ri :
  (ri_Name ri = "" → ri_Verb ri = "get" → selector_ok q) →
  finishVerb q ri =
  Ret (set_verb_name ri
         (if ri_Name ri == "" then
            if ri_Verb ri == "get" then if lo_Watch (listOptionsOf q) then "watch" else "list"
            else if ri_Verb ri == "delete" then "deletecollection" else ri_Verb ri
          else ri_Verb ri) (ri_Name ri)).
Proof.
  intros Hok. unfold finishVerb. rewrite !slen_0_decide. destruct ri as [? ? verb ? ? ? ? ? ? name ?].
  cbn [ri_Name ri_Verb]. case_bool_decide as Hn; cbn; [|by rewrite slen_0_decide, bool_decide_false].
  subst name. case_bool_decide as Hg; cbn.
  - subst verb. rewrite (nameFromSelector_ok _ (Hok eq_refl eq_refl)). cbn. by destruct (lo_Watch _).
  - case_bool_decide; done.
Qed.

(** *** The structure of [NewRequestInfo] *)

(** How the path starts: prefix, group, version, and the rest. *)
Definition path_head r (parts : list string) : option (string * string * string * list string) :=
  match parts with
  | p0 :: p1 :: p2 :: rest =>
      if sets_Has (APIPrefixes r) p0 then
        if sets_Has (GrouplessAPIPrefixes r) p0 then Some (p0, "", p1, p2 :: rest)
        else match rest with
             | p3 :: rest' => Some (p0, p1, p2, p3 :: rest')
             | [] => None
             end
      else None
  | _ => None
  end.

Lemma NewRequestInfo_head r req :
  match path_head r (splitPath (req_Path req)) with
  | Some (prefix, group, version, rest) =>
      rest ≠ [] ∧ NewRequestInfo r req = resourceRequestInfo req prefix group version rest
  | None => ∃ prefix, NewRequestInfo r req = Ret (nonResourceInfo req prefix, None)
  end.
Proof.
  unfold NewRequestInfo, path_head.
  destruct (splitPath (req_Path req)) as [|p0 [|p1 [|p2 rest]]]; simpl; [by eexists..|].
  destruct (sets_Has (APIPrefixes r) p0); simpl; [|by eexists].
  unfold slice_from; simpl.
  destruct (sets_Has (GrouplessAPIPrefixes r) p0); [done|].
  destruct rest as [|p3 rest]; [by eexists|done].
Qed.

Lemma namespaceOf_returns parts :
  parts ≠ [] → ∃ ns parts', namespaceOf parts = Ret (ns, parts').
Proof.
  destruct parts as [|p0 [|p1 [|p2 rest]]]; [done|..]; intros _; unfold namespaceOf; simpl;
    case_bool_decide; eauto. destruct (negb _); simpl; eauto.
Qed.

Lemma interpretParts_returns verb parts :
  ∃ sub name res, interpretParts verb parts = Ret (sub, name, res).
Proof.
  unfold interpretParts. destruct parts as [|p0 [|p1 [|p2 rest]]]; simpl; eauto.
  destruct (negb _); simpl; eauto.
Qed.

Lemma namespaceOf_render ns tail :
  tail ≠ [] →
  match ns with
  | Some _ => head tail ∉ [Some "status"; Some "finalize"]
  | None => head tail ≠ Some "namespaces"
  end →
  namespaceOf (match ns with Some n => ["namespaces"; n] | None => [] end ++ tail)
  = Ret (default NamespaceNone ns, tail).
Proof.
  destruct tail as [|res rest]; [done|]. intros _. unfold namespaceOf.
  destruct ns as [n|]; simpl; intros Hne.
  - replace (sets_Has namespaceSubresources res) with false; [done|].
    symmetry. unfold namespaceSubresources. rewrite sets_Has_NewString.
    apply bool_decide_eq_false. set_solver.
  - by rewrite bool_decide_false by congruence.
Qed.

Lemma interpretParts_render verb res name :
  interpretParts verb (res :: match name with Some (n, rest) => n :: rest | None => [] end)
  = Ret (match name with
         | Some (_, s :: _) => if verb == "proxy" then "" else s
         | _ => ""
         end, match name with Some (n, _) => n | None => "" end, res).
Proof.
  unfold interpretParts, specialVerbsNoSubresources. rewrite sets_Has_NewString.
  replace (bool_decide (verb ∈ ["proxy"])) with (verb == "proxy")
    by (apply bool_decide_ext; set_solver).
  destruct name as [[n [|s rest]]|]; simpl; try done. by case_bool_decide.
Qed.

Lemma specialVerbs_first special ns res rest :
  match special with
  | Some v => v ∈ ["proxy"; "watch"]
  | None => ns = None → res ∉ ["proxy"; "watch"]
  end →
  ∃ c0 cs, option_list special ++ match ns with Some n => ["namespaces"; n] | None => [] end
             ++ res :: rest = c0 :: cs ∧
    sets_Has specialVerbs c0 = bool_decide (is_Some special) ∧
    (is_Some special → special = Some c0 ∧ cs ≠ []).
Proof.
  unfold specialVerbs. setoid_rewrite sets_Has_NewString.
  destruct special as [v|]; simpl; intros Hv.
  - do 2 eexists. split; [done|]. rewrite bool_decide_true by done.
    split; [done|]. by destruct ns.
  - destruct ns as [n|]; simpl; do 2 eexists; (split; [done|]);
      (split; [|by intros []]); [done|]. rewrite bool_decide_false by auto. done.
Qed.

(** The RequestInfo before the verb of a nameless request is refined. *)
Definition rp_info0 (p : resource_path) (req : http_request) : RequestInfo :=
  {| ri_IsResourceRequest := true;
     ri_Path := req_Path req;
     ri_Verb := default (methodVerb (req_Method req)) (rp_special p);
     ri_APIPrefix := rp_prefix p;
     ri_APIGroup := default "" (rp_group p);
     ri_APIVersion := rp_version p;
     ri_Namespace := default NamespaceNone (rp_namespace p);
     ri_Resource := rp_resource p;
     ri_Subresource := ri_Subresource (rp_info p req);
     ri_Name := ri_Name (rp_info p req);
     ri_Parts := rp_tail p |}.

Lemma resourceRequestInfo_finish req prefix group version special ns res name :
  match special with
  | Some v => v ∈ ["proxy"; "watch"]
  | None => ns = None → res ∉ ["proxy"; "watch"]
  end →
  match ns with
  | Some _ => res ∉ ["status"; "finalize"]
  | None => res ≠ "namespaces"
  end →
  let p := {| rp_prefix := prefix; rp_group := group; rp_version := version; rp_special := special;
              rp_namespace := ns; rp_resource := res; rp_name := name |} in
  resourceRequestInfo req prefix (default "" group) version
    (option_list special ++ match ns with Some n => ["namespaces"; n] | None => [] end ++ rp_tail p)
  = (ri ← finishVerb (req_Query req) (rp_info0 p req); Ret (ri, None)).
Proof.
  intros Hspec Hns p. unfold resourceRequestInfo, rp_tail, p. cbn [rp_resource rp_name].
  destruct (specialVerbs_first special ns res
    match name with Some (n, rest) => n :: rest | None => [] end Hspec) as (c0 & cs & Hcs & Hhas & Hs).
  rewrite Hcs. change (index (c0 :: cs) 0) with (Ret c0). cbn [mbind outcome_bind]. rewrite Hhas.
  assert (bool_decide (is_Some special) && (length (c0 :: cs) <? 2) = false) as ->.
  { case_bool_decide as Hsome; [|done]. destruct (Hs Hsome) as [_ ?]. by destruct cs as [|? []]. }
  set (tail := res :: match name with Some (n, rest) => n :: rest | None => [] end) in *.
  assert ((if bool_decide (is_Some special)
           then rest ← slice_from (c0 :: cs) 1; Ret (c0, rest)
           else Ret (methodVerb (req_Method req), c0 :: cs)) =
          Ret (default (methodVerb (req_Method req)) special,
               match ns with Some n => ["namespaces"; n] | None => [] end ++ tail)) as ->.
  { destruct special as [v|]; simpl in *; [|by rewrite Hcs].
    by injection Hcs as -> ->. }
  cbn [mbind outcome_bind].
  rewrite namespaceOf_render; [|done|unfold tail; by destruct ns; set_solver].
  cbn [mbind outcome_bind]. unfold tail. rewrite interpretParts_render. cbn [mbind outcome_bind].
  assert (∀ ri ri' : RequestInfo, ri = ri' →
    (ri ← finishVerb (req_Query req) ri; Ret (ri, @None error)) =
    (ri ← finishVerb (req_Query req) ri'; Ret (ri, None))) as Heq by (by intros ? ? ->).
  apply Heq. unfold rp_info0, rp_info, rp_tail. simpl. f_equal.
  destruct name as [[n [|x l]]|]; try done. destruct special as [v|]; simpl.
  - by rewrite (bool_decide_ext (Some v = Some "proxy") (v = "proxy")) by naive_solver.
  - rewrite bool_decide_false; [done|]. unfold methodVerb. repeat case_match; done.
Qed.

Lemma finishVerb_render p req :
  match rp_special p with Some v => v ∈ ["proxy"; "watch"] | None => True end →
  match rp_name p with Some (n, _) => n ≠ "" | None => True end →
  (rp_name p = None → default (methodVerb (req_Method req)) (rp_special p) = "get" → selector_ok (req_Query req)) →
  finishVerb (req_Query req) (rp_info0 p req) = Ret (rp_info p req).
Proof.
  intros Hspec Hname Hsel. rewrite finishVerb_spec.
  2:{ unfold rp_info0, rp_info. cbn [ri_Name ri_Verb]. intros Hn Hv. apply Hsel; [|done]. by destruct (rp_name p) as [[]|]. }
  destruct p as [prefix group version special ns res name].
  unfold rp_info0, rp_info, set_verb_name, rp_verb. simpl in *. do 2 f_equal.
  destruct special as [v|], name as [[n l]|]; simpl; rewrite ?(bool_decide_false (n = _)) by done;
    try done. rewrite !(bool_decide_false (v = _)) by set_solver. done.
Qed.

Lemma NewRequestInfo_finish r p req :
  resource_path_wf r p → req_Path req = rp_render p →
  NewRequestInfo r req = (ri ← finishVerb (req_Query req) (rp_info0 p req); Ret (ri, None)).
Proof.
  intros (Hseg & Hpre & Hgrp & Hspec & Hns) Hpath.
  pose proof (NewRequestInfo_head r req) as Hhead.
  rewrite Hpath in Hhead. unfold rp_render in Hhead. rewrite splitPath_render in Hhead by done.
  assert (path_head r (rp_parts p) =
          Some (rp_prefix p, default "" (rp_group p), rp_version p,
                option_list (rp_special p) ++
                match rp_namespace p with Some n => ["namespaces"; n] | None => [] end ++
                rp_tail p)) as Hph.
  { unfold path_head, rp_parts.
    destruct (rp_group p), (rp_special p), (rp_namespace p); simpl; by rewrite Hpre, Hgrp. }
  rewrite Hph in Hhead. destruct Hhead as [_ ->].
  destruct p as [prefix group version special ns res name].
  by apply resourceRequestInfo_finish.
Qed.

(** The request has no field selector that is looked at: only those of lists and watches
    of a collection are. *)
Definition selector_unread (p : resource_path) (method : string) (q : values) : Prop :=
  is_Some (rp_name p) ∨ default (methodVerb method) (rp_special p) ≠ "get" ∨ lo_FieldSelector (listOptionsOf q) = "".

(** C36: printing then parsing: on the path rendered from the documented URL
    forms of a resource (group or groupless prefix, optional proxy/watch verb,
    optional namespace, a resource other than the namespaces collection itself,
    optional name and subresource), the parser returns exactly those
    components, with the kube verb of the method, and no error.  The request is for a
    named object, or not a get, or has no field selector. *)
Theorem NewRequestInfo_render r p method url q :
  resource_path_wf r p → selector_unread p method q →
  let req := {| req_Method := method; req_URL := url; req_Path := rp_render p; req_Query := q |} in
  NewRequestInfo r req = Ret (rp_info p req, None).
Proof.
  intros Hwf Hsel req. rewrite (NewRequestInfo_finish r p) by done.
  destruct Hwf as (Hseg & _ & _ & Hspec & _).
  rewrite finishVerb_render; [done|..|intros Hn Hv; destruct Hsel as [[? ?]|[?|?]]; [congruence|done|by left]].
  - by destruct (rp_special p).
  - destruct (rp_name p) as [[n rest]|] eqn:Hn; [|done].
    assert (segment n) as [? _]; [|done]. rewrite Forall_forall in Hseg. apply Hseg.
    unfold rp_parts, rp_tail. rewrite Hn. set_solver.
Qed.

(** The only crash of the parser: a nameless get with a field selector golib
    rejects. *)
Definition selector_crash (q : values) : Prop :=
  let fs := lo_FieldSelector (listOptionsOf q) in
  fs ≠ "" ∧ ∃ e, ParseSelector fs = (None, Some e).

Lemma finishVerb_returns q ri : ¬ selector_crash q → ∃ ri', finishVerb q ri = Ret ri' ∧
  ri_IsResourceRequest ri' = ri_IsResourceRequest ri ∧ ri_Path ri' = ri_Path ri.
Proof.
  intros Hc. unfold finishVerb.
  assert (∃ name, nameFromSelector (lo_FieldSelector (listOptionsOf q)) = Ret name) as [name Hname].
  { unfold nameFromSelector. case_bool_decide as Hfs; simpl; [by eexists|].
    destruct (ParseSelector _) as [[sel|] [e|]] eqn:Hp; [|by eexists| |by eexists].
    - repeat case_match; by eexists.
    - destruct Hc. split; [done|]. by exists e. }
  rewrite Hname. destruct (_ && _); simpl; destruct (_ && _); eauto.
Qed.

Lemma resourceRequestInfo_returns req prefix group version parts :
  parts ≠ [] → ¬ selector_crash (req_Query req) →
  ∃ ri e, resourceRequestInfo req prefix group version parts = Ret (ri, e) ∧
    ri_IsResourceRequest ri = true ∧ ri_Path ri = req_Path req.
Proof.
  intros Hne Hc. destruct parts as [|c0 cs]; [done|]. unfold resourceRequestInfo.
  change (index (c0 :: cs) 0) with (Ret c0). cbn [mbind outcome_bind].
  destruct (sets_Has specialVerbs c0 && _) eqn:Hshort; [by do 2 eexists|].
  assert (∃ verb cs', (if sets_Has specialVerbs c0
           then rest ← slice_from (c0 :: cs) 1; Ret (c0, rest)
           else Ret (methodVerb (req_Method req), c0 :: cs)) = Ret (verb, cs') ∧ cs' ≠ [])
    as (verb & cs' & -> & Hcs').
  { destruct (sets_Has specialVerbs c0); [|by do 2 eexists].
    do 2 eexists. split; [done|]. simpl in Hshort. by destruct cs. }
  cbn. destruct (namespaceOf_returns cs' Hcs') as (ns & parts' & ->). cbn.
  destruct (interpretParts_returns verb parts') as (sub & name & res & ->). cbn.
  edestruct (finishVerb_returns (req_Query req)) as (ri & -> & Hres & Hpath); [done|]. cbn. eauto.
Qed.

(** Unless the query carries a field selector golib rejects, the parser
    returns for every request (no slice or index of the function is ever out
    of range); it then classifies the request as a resource request exactly
    when the path has a known API prefix and enough parts after it (three in
    all for a groupless prefix, four otherwise), keeps the path, and gives a
    non-resource request the lowercased HTTP method as its verb. *)
Theorem NewRequestInfo_total r req :
  ¬ selector_crash (req_Query req) →
  ∃ ri e, NewRequestInfo r req = Ret (ri, e) ∧
    ri_Path ri = req_Path req ∧
    (ri_IsResourceRequest ri = true ↔
       let parts := splitPath (req_Path req) in
       ∃ prefix, head parts = Some prefix ∧ sets_Has (APIPrefixes r) prefix = true ∧
         (if sets_Has (GrouplessAPIPrefixes r) prefix then 3 else 4) ≤ length parts) ∧
    (ri_IsResourceRequest ri = false → ri_Verb ri = ToLower (req_Method req) ∧ e = None).
Proof.
  intros Hc. pose proof (NewRequestInfo_head r req) as Hhead.
  destruct (path_head r _) as [[[[prefix group] version] rest]|] eqn:Hph.
  - destruct Hhead as [Hne ->].
    destruct (resourceRequestInfo_returns req prefix group version rest Hne Hc)
      as (ri & e & -> & Hres & Hpath).
    exists ri, e. split; [done|]. split; [done|]. split; [|congruence]. split; [|by intros _].
    intros _. simpl.
    unfold path_head in Hph.
    destruct (splitPath _) as [|p0 [|p1 [|p2 ps]]]; simplify_eq/=. exists p0.
    destruct (sets_Has (APIPrefixes r) p0), (sets_Has (GrouplessAPIPrefixes r) p0), ps;
      simplify_eq/=; split_and!; auto with lia.
  - destruct Hhead as [prefix ->]. do 2 eexists. split; [done|]. split; [done|].
    split; [|done]. split; [done|]. intros (p0 & Hp0 & Hpre & Hlen). exfalso.
    unfold path_head in Hph.
    destruct (splitPath _) as [|p0' [|p1 [|p2 ps]]]; simplify_eq/=;
      [destruct (sets_Has (GrouplessAPIPrefixes r) _); simpl in *; lia..|].
    rewrite Hpre in Hph. destruct (sets_Has (GrouplessAPIPrefixes r) p0); [done|].
    destruct ps; simpl in *; [lia|done].
Qed.

(** The field selector is used with its error test inverted: on a nameless
    GET whose selector golib parses, the name stays empty whatever the selector
    requires, and on one golib rejects (with a nil selector) the parser panics. *)
Theorem NewRequestInfo_fieldSelector r p url q :
  resource_path_wf r p → rp_special p = None → rp_name p = None →
  let req := {| req_Method := "GET"; req_URL := url; req_Path := rp_render p; req_Query := q |} in
  (selector_ok q → ∃ ri, NewRequestInfo r req = Ret (ri, None) ∧ ri_Name ri = "") ∧
  (selector_crash q → NewRequestInfo r req = Panic "nil pointer dereference").
Proof.
  intros Hwf Hsp Hn req. rewrite (NewRequestInfo_finish r p) by done. split.
  - intros Hsel. rewrite finishVerb_render; [|by rewrite Hsp|by rewrite Hn|done].
    eexists. split; [done|]. unfold rp_info. simpl. by rewrite Hn.
  - intros [Hfs [e He]]. unfold finishVerb, rp_info0, rp_info. simpl. rewrite Hn, Hsp. simpl.
    unfold nameFromSelector. rewrite bool_decide_false by done. simpl. by rewrite He.
Qed.
End theorems.

(** ** Witnesses *)

Module RequestInfoExamples.
#[local] Existing Instance golib_sets_model.
#[local] Existing Instance golib_sets_model_laws.

(** A selector is one name requirement; the parser accepts name=value only. *)
#[local] Instance deps : RequestDeps string := {|
  NamespaceNone := "";
  DecodeParameters q :=
    inl {| lo_Watch := bool_decide (q !! "watch" = Some ["1"]);
           lo_FieldSelector := default "" (q !! "fieldSelector" ≫= head) |};
  ParseSelector s :=
    if HasPrefix s "metadata.name=" then (Some (TrimPrefix s "metadata.name="), None)
    else (None, Some (Errorf "invalid selector" [s]));
  RequiresExactMatch sel field := if field == "metadata.name" then Some sel else None;
  golib_IsValidPathSegmentName s := if ContainsByte s "/"%char then ["may not contain '/'"] else [];
|}.

Definition factory : RequestInfoFactory (gset string) :=
  {| APIPrefixes := sets_NewString ["api"; "apis"]; GrouplessAPIPrefixes := sets_NewString ["api"] |}.

Definition pod : resource_path :=
  {| rp_prefix := "apis"; rp_group := Some "batch"; rp_version := "v1"; rp_special := None;
     rp_namespace := Some "ns1"; rp_resource := "pods"; rp_name := Some ("p", ["log"]) |}.

Definition pods : resource_path :=
  {| rp_prefix := "api"; rp_group := None; rp_version := "v1"; rp_special := None;
     rp_namespace := Some "ns1"; rp_resource := "pods"; rp_name := None |}.

Lemma segments_dec (l : list string) :
  forallb (λ s, (s != "") && negb (ContainsByte s "/"%char)) l = true → Forall segment l.
Proof.
  intros Hl. apply Forall_forall. intros x Hx. apply list_elem_of_In in Hx.
  rewrite forallb_forall in Hl. apply Hl in Hx. bool_crush. done.
Qed.

Lemma pod_wf : resource_path_wf factory pod.
Proof. split_and!; [by apply segments_dec|done..|set_solver]. Qed.

Lemma pods_wf : resource_path_wf factory pods.
Proof. split_and!; [by apply segments_dec|done..|set_solver]. Qed.

Lemma NewRequestInfo_render_witness :
  let req := {| req_Method := "GET"; req_URL := ""; req_Path := "/apis/batch/v1/namespaces/ns1/pods/p/log";
                req_Query := ∅ |} in
  NewRequestInfo factory req = Ret (rp_info pod req, None).
Proof.
  apply (NewRequestInfo_render factory pod "GET" "" ∅); [apply pod_wf|left; by eexists].
Defined.

Lemma NewRequestInfo_total_witness :
  ∃ ri e, NewRequestInfo factory {| req_Method := "PUT"; req_URL := ""; req_Path := "/healthz/ping";
                                    req_Query := ∅ |} = Ret (ri, e) ∧ ri_Path ri = "/healthz/ping".
Proof.
  destruct (NewRequestInfo_total factory
    {| req_Method := "PUT"; req_URL := ""; req_Path := "/healthz/ping"; req_Query := ∅ |})
    as (ri & e & Heq & Hpath & _); [by intros [? _]|]. exists ri, e. split; [exact Heq|exact Hpath].
Defined.

Definition selecting (s : string) : values := {[ "fieldSelector" := [s] ]}.

Lemma NewRequestInfo_fieldSelector_witness :
  let req q := {| req_Method := "GET"; req_URL := ""; req_Path := "/api/v1/namespaces/ns1/pods";
                  req_Query := q |} in
  (∃ ri, NewRequestInfo factory (req (selecting "metadata.name=name1")) = Ret (ri, None) ∧ ri_Name ri = "") ∧
  NewRequestInfo factory (req (selecting "!")) = Panic "nil pointer dereference".
Proof.
  split.
  - apply (NewRequestInfo_fieldSelector factory pods ""); [apply pods_wf|done..|by right].
  - apply (NewRequestInfo_fieldSelector factory pods ""); [apply pods_wf|done..|].
    split; [done|]. by eexists.
Defined.
End RequestInfoExamples.
