(* ===== verification/RbacTypes.v ===== *)
(** * RBAC objects, rule matching, builders and validation

    Models pkg/apis/rbac: the types of types.go, the rule matchers, builders and
    display helpers of helpers.go, and the object validation of validation.go.
    Of api.ObjectMeta only the name and the namespace are read.  The constructors
    of golib's field errors are recorded symbolically, as [field_error]. *)

From S2P Require Import Prelude GoStrings Authorizer ServiceAccount.

Local Open Scope go_scope.

(** ** Types *)

Definition APIGroupAll : string := "*".
Definition ResourceAll : string := "*".
Definition VerbAll : string := "*".
Definition NonResourceAll : string := "*".
Definition GroupKind : string := "Group".
Definition ServiceAccountKind : string := "ServiceAccount".
Definition UserKind : string := "User".
Definition GroupName : string := "rbac.authorization.k8s.io".

Record PolicyRule := {
  Verbs : list string;
  APIGroups : list string;
  Resources : list string;
  ResourceNames : list string;
  NonResourceURLs : list string;
}.

Record Subject := {
  s_Kind : string;
  s_APIGroup : string;
  s_Name : string;
  s_Namespace : string;
}.

Record RoleRef := {
  ref_APIGroup : string;
  ref_Kind : string;
  ref_Name : string;
}.

Record ObjectMeta := { m_Name : string; m_Namespace : string }.

Record Role := { role_Meta : ObjectMeta; role_Rules : list PolicyRule }.

Record ClusterRole := { cr_Meta : ObjectMeta; cr_Rules : list PolicyRule }.

Record RoleBinding := {
  rb_Meta : ObjectMeta;
  rb_Subjects : list Subject;
  rb_RoleRef : RoleRef;
}.

Record ClusterRoleBinding := {
  crb_Meta : ObjectMeta;
  crb_Subjects : list Subject;
  crb_RoleRef : RoleRef;
}.

#[global] Instance PolicyRule_eq_dec : EqDecision PolicyRule.
Proof. solve_decision. Defined.
#[global] Instance Subject_eq_dec : EqDecision Subject.
Proof. solve_decision. Defined.
#[global] Instance RoleRef_eq_dec : EqDecision RoleRef.
Proof. solve_decision. Defined.

(** ** Matching a rule (helpers.go)

    Each loop returns true at the first element that matches. *)

Definition VerbMatches (rule : PolicyRule) (requestedVerb : string) : bool :=
  existsb (λ ruleVerb, (ruleVerb == VerbAll) || (ruleVerb == requestedVerb)) (Verbs rule).

Definition APIGroupMatches (rule : PolicyRule) (requestedGroup : string) : bool :=
  existsb (λ ruleGroup, (ruleGroup == APIGroupAll) || (ruleGroup == requestedGroup)) (APIGroups rule).

Definition ResourceMatches (rule : PolicyRule) (combinedRequestedResource requestedSubresource : string)
    : bool :=
  existsb (λ ruleResource,
    if ruleResource == ResourceAll then true
    else if ruleResource == combinedRequestedResource then true
    else if slen requestedSubresource =? 0 then false
    else (slen ruleResource =? slen requestedSubresource + 2) &&
         HasPrefix ruleResource "*/" && HasSuffix ruleResource requestedSubresource)
    (Resources rule).

Definition ResourceNameMatches (rule : PolicyRule) (requestedName : string) : bool :=
  if length (ResourceNames rule) =? 0 then true
  else existsb (λ ruleName, ruleName == requestedName) (ResourceNames rule).

Definition NonResourceURLMatches (rule : PolicyRule) (requestedURL : string) : bool :=
  existsb (λ ruleURL,
    (ruleURL == NonResourceAll) || (ruleURL == requestedURL) ||
    (HasSuffix ruleURL "*" && HasPrefix requestedURL (TrimRight ruleURL (is_byte "*"%char))))
    (NonResourceURLs rule).

(** ** Display helpers *)

(** fmt's %q of a []string: the quoted elements, blank-separated in brackets. *)
Definition QuoteSlice (l : list string) : string := "[" +:+ Join (Quote <$> l) " " +:+ "]".

(** One part "Name:%q" per non-empty field; formatting each part with its
    argument and joining is what formatting the joined format does, since no
    argument is part of the format. *)
Definition CompactString (r : PolicyRule) : string :=
  let part (name : string) (l : list string) :=
    if 0 <? length l then [name +:+ ":" +:+ QuoteSlice l] else [] in
  "{" +:+ Join (part "Resources" (Resources r) ++ part "NonResourceURLs" (NonResourceURLs r) ++
                part "ResourceNames" (ResourceNames r) ++ part "Verbs" (Verbs r)) ", " +:+ "}".

Definition PolicyRule_String (r : PolicyRule) : string := "PolicyRule" +:+ CompactString r.

(** SubjectsStrings: users, groups, service accounts, others. *)
Fixpoint SubjectsStrings (subjects : list Subject)
    : list string * list string * list string * list string :=
  match subjects with
  | [] => ([], [], [], [])
  | s :: rest =>
      let '(users, groups, sas, others) := SubjectsStrings rest in
      if s_Kind s == ServiceAccountKind
      then (users, groups, (s_Namespace s +:+ "/" +:+ s_Name s) :: sas, others)
      else if s_Kind s == UserKind then (s_Name s :: users, groups, sas, others)
      else if s_Kind s == GroupKind then (users, s_Name s :: groups, sas, others)
      else (users, groups, sas, (s_Kind s +:+ "/" +:+ s_Namespace s +:+ "/" +:+ s_Name s) :: others)
  end.

(** strings.Compare(s[i].String(), s[j].String()) < 0 *)
Definition SortableRuleSlice_Less (r1 r2 : PolicyRule) : bool :=
  bool_decide (String.le (PolicyRule_String r1) (PolicyRule_String r2)) &&
  (PolicyRule_String r1 != PolicyRule_String r2).

(** ** Rule and binding builders *)

Section builders.
Context `{StringSets sset}.

Definition combine (s1 s2 : list string) : list string :=
  sets_List (sets_Insert (sets_NewString s1) s2).

Definition NewRule (verbs : list string) : PolicyRule :=
  {| Verbs := sets_List (sets_NewString verbs); APIGroups := []; Resources := [];
     ResourceNames := []; NonResourceURLs := [] |}.

Definition PolicyRuleBuilder_Groups (r : PolicyRule) (groups : list string) : PolicyRule :=
  {| Verbs := Verbs r; APIGroups := combine (APIGroups r) groups; Resources := Resources r;
     ResourceNames := ResourceNames r; NonResourceURLs := NonResourceURLs r |}.

Definition PolicyRuleBuilder_Resources (r : PolicyRule) (resources : list string) : PolicyRule :=
  {| Verbs := Verbs r; APIGroups := APIGroups r; Resources := combine (Resources r) resources;
     ResourceNames := ResourceNames r; NonResourceURLs := NonResourceURLs r |}.

Definition PolicyRuleBuilder_Names (r : PolicyRule) (names : list string) : PolicyRule :=
  {| Verbs := Verbs r; APIGroups := APIGroups r; Resources := Resources r;
     ResourceNames := combine (ResourceNames r) names; NonResourceURLs := NonResourceURLs r |}.

Definition PolicyRuleBuilder_URLs (r : PolicyRule) (urls : list string) : PolicyRule :=
  {| Verbs := Verbs r; APIGroups := APIGroups r; Resources := Resources r;
     ResourceNames := ResourceNames r; NonResourceURLs := combine (NonResourceURLs r) urls |}.
End builders.

(** The fields of a rule an error message formats with %#v. *)
Definition rule_args (r : PolicyRule) : list string :=
  QuoteSlice <$> [Verbs r; APIGroups r; Resources r; ResourceNames r; NonResourceURLs r].

Definition namelessVerbs : list string := ["list"; "watch"; "create"; "deletecollection"].

Definition PolicyRuleBuilder_Rule (r : PolicyRule) : PolicyRule + error :=
  if length (Verbs r) =? 0 then inr (Errorf "verbs are required: %#v" (rule_args r))
  else if 0 <? length (NonResourceURLs r) then
    if negb (length (Resources r) =? 0) || negb (length (ResourceNames r) =? 0)
    then inr (Errorf "non-resource rule may not have apiGroups, resources, or resourceNames: %#v"
                (rule_args r))
    else inl r
  else if 0 <? length (Resources r) then
    if negb (length (ResourceNames r) =? 0) then
      let illegalVerbs := filter (λ verb, verb ∈ namelessVerbs) (Verbs r) in
      if 0 <? length illegalVerbs
      then inr (Errorf "verbs %v do not have names available: %#v" (illegalVerbs ++ rule_args r))
      else inl r
    else inl r
  else inr (Errorf "a rule must have either nonResourceURLs or resources: %#v" (rule_args r)).

Definition PolicyRuleBuilder_RuleOrDie (r : PolicyRule) : outcome PolicyRule :=
  match PolicyRuleBuilder_Rule r with inl ret => Ret ret | inr _ => Panic "RuleOrDie" end.

Definition NewClusterBinding (clusterRoleName : string) : ClusterRoleBinding :=
  {| crb_Meta := {| m_Name := clusterRoleName; m_Namespace := "" |}; crb_Subjects := [];
     crb_RoleRef := {| ref_APIGroup := ""; ref_Kind := "ClusterRole"; ref_Name := clusterRoleName |} |}.

Definition ClusterRoleBindingBuilder_add (b : ClusterRoleBinding) (subjects : list Subject)
    : ClusterRoleBinding :=
  {| crb_Meta := crb_Meta b; crb_Subjects := crb_Subjects b ++ subjects; crb_RoleRef := crb_RoleRef b |}.

Definition groupSubject (group : string) : Subject :=
  {| s_Kind := GroupKind; s_APIGroup := ""; s_Name := group; s_Namespace := "" |}.
Definition userSubject (u : string) : Subject :=
  {| s_Kind := UserKind; s_APIGroup := ""; s_Name := u; s_Namespace := "" |}.
Definition saSubject (namespace saName : string) : Subject :=
  {| s_Kind := ServiceAccountKind; s_APIGroup := ""; s_Name := saName; s_Namespace := namespace |}.

Definition ClusterRoleBindingBuilder_Groups (b : ClusterRoleBinding) (groups : list string) :=
  ClusterRoleBindingBuilder_add b (groupSubject <$> groups).
Definition ClusterRoleBindingBuilder_Users (b : ClusterRoleBinding) (users : list string) :=
  ClusterRoleBindingBuilder_add b (userSubject <$> users).
Definition ClusterRoleBindingBuilder_SAs (b : ClusterRoleBinding) (namespace : string) (sas : list string) :=
  ClusterRoleBindingBuilder_add b (saSubject namespace <$> sas).

Definition ClusterRoleBindingBuilder_Binding (b : ClusterRoleBinding) : ClusterRoleBinding + error :=
  if length (crb_Subjects b) =? 0 then inr (Errorf "subjects are required: %#v" [m_Name (crb_Meta b)])
  else inl b.

Definition ClusterRoleBindingBuilder_BindingOrDie (b : ClusterRoleBinding) : outcome ClusterRoleBinding :=
  match ClusterRoleBindingBuilder_Binding b with inl ret => Ret ret | inr _ => Panic "BindingOrDie" end.

Definition NewRoleBinding (roleName namespace : string) : RoleBinding :=
  {| rb_Meta := {| m_Name := roleName; m_Namespace := namespace |}; rb_Subjects := [];
     rb_RoleRef := {| ref_APIGroup := ""; ref_Kind := "Role"; ref_Name := roleName |} |}.

Definition NewRoleBindingForClusterRole (roleName namespace : string) : RoleBinding :=
  {| rb_Meta := {| m_Name := roleName; m_Namespace := namespace |}; rb_Subjects := [];
     rb_RoleRef := {| ref_APIGroup := ""; ref_Kind := "ClusterRole"; ref_Name := roleName |} |}.

Definition RoleBindingBuilder_add (b : RoleBinding) (subjects : list Subject) : RoleBinding :=
  {| rb_Meta := rb_Meta b; rb_Subjects := rb_Subjects b ++ subjects; rb_RoleRef := rb_RoleRef b |}.

Definition RoleBindingBuilder_Groups (b : RoleBinding) (groups : list string) :=
  RoleBindingBuilder_add b (groupSubject <$> groups).
Definition RoleBindingBuilder_Users (b : RoleBinding) (users : list string) :=
  RoleBindingBuilder_add b (userSubject <$> users).
Definition RoleBindingBuilder_SAs (b : RoleBinding) (namespace : string) (sas : list string) :=
  RoleBindingBuilder_add b (saSubject namespace <$> sas).

Definition RoleBindingBuilder_Binding (b : RoleBinding) : RoleBinding + error :=
  if length (rb_Subjects b) =? 0 then inr (Errorf "subjects are required: %#v" [m_Name (rb_Meta b)])
  else inl b.

Definition RoleBindingBuilder_BindingOrDie (b : RoleBinding) : outcome RoleBinding :=
  match RoleBindingBuilder_Binding b with inl ret => Ret ret | inr _ => Panic "BindingOrDie" end.

(** ** Validation (validation.go) *)

(** Calls of golib's field.Required, field.Invalid and field.NotSupported, with
    the path, the offending value and the detail. *)
Inductive path_elem := Child (name : string) | Index (i : nat).

Inductive field_error :=
  | Required (path : list path_elem) (detail : string)
  | Invalid (path : list path_elem) (value : list string) (detail : string)
  | NotSupported (path : list path_elem) (value : string) (choices : list string).

Definition ValidateRBACName (name : string) (prefix : bool) : list string := IsValidPathSegmentName name.

Definition ValidatePolicyRule (rule : PolicyRule) (isNamespaced : bool) (fldPath : list path_elem)
    : list field_error :=
  let e1 := if length (Verbs rule) =? 0
            then [Required (fldPath ++ [Child "verbs"]) "verbs must contain at least one value"] else [] in
  if 0 <? length (NonResourceURLs rule) then
    let path := fldPath ++ [Child "nonResourceURLs"] in
    let e2 := if isNamespaced
              then [Invalid path (NonResourceURLs rule) "namespaced rules cannot apply to non-resource URLs"]
              else [] in
    let e3 := if (0 <? length (Resources rule)) || (0 <? length (ResourceNames rule))
              then [Invalid path (NonResourceURLs rule)
                      "rules cannot apply to both regular resources and non-resource URLs"]
              else [] in
    e1 ++ e2 ++ e3
  else
    e1 ++ (if length (Resources rule) =? 0
           then [Required (fldPath ++ [Child "resources"]) "resource rules must supply at least one resource"]
           else []).

Definition path_index (field : string) (i : nat) : list path_elem := [Child field; Index i].

Definition ValidateRole (role : Role) : list field_error :=
  concat (imap (λ i rule, ValidatePolicyRule rule true (path_index "rules" i)) (role_Rules role)).

Definition ValidateRoleUpdate (role oldRole : Role) : list field_error := ValidateRole role.

Definition ValidateClusterRole (role : ClusterRole) : list field_error := [].

Definition ValidateClusterRoleUpdate (role oldRole : ClusterRole) : list field_error :=
  ValidateClusterRole role.

Section binding_validation.
Context `{DNSValidation}.

Definition ValidateRoleBindingSubject (subject : Subject) (isNamespaced : bool) (fldPath : list path_elem)
    : outcome (list field_error) :=
  let e1 := if slen (s_Name subject) =? 0 then [Required (fldPath ++ [Child "name"]) ""] else [] in
  if s_Kind subject == ServiceAccountKind then
    msgs ← (if 0 <? slen (s_Name subject) then ValidateServiceAccountName (s_Name subject) false else Ret []);
    let e2 := Invalid (fldPath ++ [Child "name"]) [s_Name subject] <$> msgs in
    let e3 := if negb isNamespaced && (slen (s_Namespace subject) =? 0)
              then [Required (fldPath ++ [Child "namespace"]) ""] else [] in
    Ret (e1 ++ e2 ++ e3)
  else if s_Kind subject == UserKind then Ret e1
  else if s_Kind subject == GroupKind then Ret e1
  else Ret (e1 ++ [NotSupported (fldPath ++ [Child "kind"]) (s_Kind subject)
                     [ServiceAccountKind; UserKind; GroupKind]]).

(** The loop over the subjects of a binding. *)
Fixpoint ValidateSubjects (subjects : list Subject) (isNamespaced : bool) (i : nat)
    : outcome (list field_error) :=
  match subjects with
  | [] => Ret []
  | s :: rest =>
      e ← ValidateRoleBindingSubject s isNamespaced (path_index "subjects" i);
      es ← ValidateSubjects rest isNamespaced (S i);
      Ret (e ++ es)
  end.

(** The checks on the role reference, with the kinds the binding accepts. *)
Definition ValidateRoleRef (ref : RoleRef) (kinds : list string) : list field_error :=
  (if bool_decide (ref_Kind ref ∈ kinds) then []
   else [NotSupported [Child "roleRef"; Child "kind"] (ref_Kind ref) kinds]) ++
  (if slen (ref_Name ref) =? 0 then [Required [Child "roleRef"; Child "name"] ""]
   else Invalid [Child "roleRef"; Child "name"] [ref_Name ref] <$> ValidateRBACName (ref_Name ref) false).

Definition ValidateRoleBinding (roleBinding : RoleBinding) : outcome (list field_error) :=
  es ← ValidateSubjects (rb_Subjects roleBinding) true 0;
  Ret (ValidateRoleRef (rb_RoleRef roleBinding) ["Role"; "ClusterRole"] ++ es).

Definition ValidateClusterRoleBinding (roleBinding : ClusterRoleBinding) : outcome (list field_error) :=
  es ← ValidateSubjects (crb_Subjects roleBinding) false 0;
  Ret (ValidateRoleRef (crb_RoleRef roleBinding) ["ClusterRole"] ++ es).

Definition roleRefChanged (old new : RoleRef) : list field_error :=
  if old != new
  then [Invalid [Child "roleRef"] [ref_APIGroup new; ref_Kind new; ref_Name new] "cannot change roleRef"]
  else [].

Definition ValidateRoleBindingUpdate (roleBinding oldRoleBinding : RoleBinding)
    : outcome (list field_error) :=
  allErrs ← ValidateRoleBinding roleBinding;
  Ret (allErrs ++ roleRefChanged (rb_RoleRef oldRoleBinding) (rb_RoleRef roleBinding)).

Definition ValidateClusterRoleBindingUpdate (roleBinding oldRoleBinding : ClusterRoleBinding)
    : outcome (list field_error) :=
  allErrs ← ValidateClusterRoleBinding roleBinding;
  Ret (allErrs ++ roleRefChanged (crb_RoleRef oldRoleBinding) (crb_RoleRef roleBinding)).
End binding_validation.

(** ** Theorems *)

(** *** Matching *)

Lemma VerbMatches_spec rule verb : VerbMatches rule verb = true ↔ "*" ∈ Verbs rule ∨ verb ∈ Verbs rule.
Proof.
  unfold VerbMatches, VerbAll. rewrite existsb_elem_of. setoid_rewrite orb_true_iff.
  setoid_rewrite bool_decide_eq_true. naive_solver.
Qed.

(** The length, prefix and suffix tests together pick out "*/" ++ subresource. *)
Lemma ResourceMatches_star res sub :
  (slen res =? slen sub + 2) && HasPrefix res "*/" && HasSuffix res sub = true ↔ res = "*/" +:+ sub.
Proof.
  rewrite !andb_true_iff, Nat.eqb_eq, HasPrefix_spec, HasSuffix_spec. split.
  - intros [[Hlen [t ->]] [t' Ht]]. rewrite slen_app in Hlen. simpl in Hlen.
    assert (slen t = slen sub) as Hts by lia. f_equal.
    assert (slen t' = slen "*/") as Ht'.
    { apply (f_equal slen) in Ht. rewrite !slen_app in Ht. lia. }
    apply (f_equal (sdrop (slen "*/"))) in Ht. rewrite sdrop_app in Ht.
    by rewrite <- Ht', sdrop_app in Ht.
  - intros ->. rewrite slen_app. simpl. split_and!; [lia|by eexists..].
Qed.

Lemma ResourceMatches_spec rule combined sub :
  ResourceMatches rule combined sub = true ↔
  ∃ res, res ∈ Resources rule ∧ (res = "*" ∨ res = combined ∨ (sub ≠ "" ∧ res = "*/" +:+ sub)).
Proof.
  unfold ResourceMatches, ResourceAll. rewrite existsb_elem_of. f_equiv. intros res.
  f_equiv. rewrite slen_0_decide.
  destruct (decide (res = "*")); [rewrite bool_decide_true by done; naive_solver|].
  rewrite (bool_decide_false (res = "*")) by done.
  destruct (decide (res = combined)); [rewrite bool_decide_true by done; naive_solver|].
  rewrite (bool_decide_false (res = combined)) by done.
  destruct (decide (sub = "")); [rewrite bool_decide_true by done; naive_solver|].
  rewrite bool_decide_false by done. rewrite ResourceMatches_star. naive_solver.
Qed.

Lemma ResourceNameMatches_spec rule name :
  ResourceNameMatches rule name = true ↔ ResourceNames rule = [] ∨ name ∈ ResourceNames rule.
Proof.
  unfold ResourceNameMatches. rewrite existsb_eq_elem_of. destruct (ResourceNames rule); simpl; [naive_solver|].
  rewrite bool_decide_eq_true. naive_solver.
Qed.

(** A rule URL matches "*", the same URL, or, when it ends in "*", every URL that
    extends what is left of it without its trailing stars. *)
Definition url_covers (ruleURL url : string) : Prop :=
  ruleURL = "*" ∨ ruleURL = url ∨
  ∃ stem rest, ruleURL = stem +:+ "*" ∧ url = TrimRight ruleURL (is_byte "*"%char) +:+ rest.

Lemma NonResourceURLMatches_spec rule url :
  NonResourceURLMatches rule url = true ↔
  ∃ ruleURL, ruleURL ∈ NonResourceURLs rule ∧ url_covers ruleURL url.
Proof.
  unfold NonResourceURLMatches, NonResourceAll, url_covers. rewrite existsb_elem_of.
  setoid_rewrite orb_true_iff. setoid_rewrite orb_true_iff. setoid_rewrite andb_true_iff.
  setoid_rewrite bool_decide_eq_true. setoid_rewrite HasSuffix_spec. setoid_rewrite HasPrefix_spec.
  naive_solver.
Qed.

(** *** Builders and validation *)

Lemma ValidatePolicyRule_spec rule namespaced path :
  ValidatePolicyRule rule namespaced path = [] ↔
  Verbs rule ≠ [] ∧
  (NonResourceURLs rule ≠ [] ∧ namespaced = false ∧ Resources rule = [] ∧ ResourceNames rule = [] ∨
   NonResourceURLs rule = [] ∧ Resources rule ≠ []).
Proof.
  unfold ValidatePolicyRule.
  destruct (Verbs rule), (NonResourceURLs rule), (Resources rule), (ResourceNames rule), namespaced;
    simpl; naive_solver.
Qed.

Lemma illegal_verbs_spec (l : list string) :
  (0 <? length (filter (λ v, v ∈ namelessVerbs) l)) = false ↔ Forall (λ v, v ∉ namelessVerbs) l.
Proof.
  rewrite Nat.ltb_ge, Nat.le_0_r, length_zero_iff_nil. rewrite Forall_forall. split.
  - intros Hf x Hx Hin. assert (x ∈ filter (λ v, v ∈ namelessVerbs) l) as Hx'
      by (by apply list_elem_of_filter). rewrite Hf in Hx'. set_solver.
  - intros Hall. apply elem_of_nil_inv. intros x.
    rewrite list_elem_of_filter. naive_solver.
Qed.

(** The rule builder and the validator agree: [Rule] returns the built rule
    exactly when the validator accepts it as a cluster rule and, if it names
    resources, none of its verbs is one of list, watch, create, deletecollection. *)
Theorem Rule_valid r path :
  PolicyRuleBuilder_Rule r = inl r ↔
  ValidatePolicyRule r false path = [] ∧
  (NonResourceURLs r = [] → ResourceNames r ≠ [] → Forall (λ v, v ∉ namelessVerbs) (Verbs r)).
Proof.
  rewrite ValidatePolicyRule_spec, <- illegal_verbs_spec. unfold PolicyRuleBuilder_Rule.
  destruct (0 <? length (filter _ (Verbs r)));
    destruct (Verbs r), (NonResourceURLs r), (Resources r), (ResourceNames r); cbn; intuition congruence.
Qed.

Section validation_theorems.
Context `{DNSValidation}.

Definition subject_valid (namespaced : bool) (s : Subject) : Prop :=
  s_Name s ≠ "" ∧
  (s_Kind s = UserKind ∨ s_Kind s = GroupKind ∨
   s_Kind s = ServiceAccountKind ∧ IsDNS1123Subdomain (s_Name s) = [] ∧
   (namespaced = false → s_Namespace s ≠ "")).

Lemma ValidateRoleBindingSubject_spec s namespaced path :
  ∃ es, ValidateRoleBindingSubject s namespaced path = Ret es ∧ (es = [] ↔ subject_valid namespaced s).
Proof.
  unfold ValidateRoleBindingSubject, subject_valid, ValidateServiceAccountName, NameIsDNSSubdomain.
  rewrite !slen_0_decide.
  rewrite slen_pos.
  assert (UserKind ≠ ServiceAccountKind ∧ GroupKind ≠ ServiceAccountKind) as [Hus Hgs] by done.
  destruct (decide (s_Kind s = ServiceAccountKind)) as [Hk|Hk].
  - rewrite Hk, bool_decide_true by done. case_bool_decide as Hn; simpl.
    { eexists. split; [done|]. split; [done|]. by intros [? _]. }
    eexists. split; [done|]. rewrite app_nil, fmap_nil_iff.
    destruct namespaced; simpl; [|case_bool_decide]; intuition congruence.
  - rewrite (bool_decide_false (s_Kind s = ServiceAccountKind)) by done.
    repeat case_bool_decide; eexists; (split; [done|]); simpl; intuition congruence.
Qed.

Lemma ValidateSubjects_spec l namespaced i :
  ∃ es, ValidateSubjects l namespaced i = Ret es ∧ (es = [] ↔ Forall (subject_valid namespaced) l).
Proof.
  revert i. induction l as [|s l IH]; intros i; simpl; [by eexists|].
  destruct (ValidateRoleBindingSubject_spec s namespaced (path_index "subjects" i)) as (e & -> & He).
  destruct (IH (S i)) as (es & Heq & Hes). cbn. rewrite Heq. cbn. eexists. split; [done|].
  rewrite app_nil, Forall_cons, He, Hes. done.
Qed.

Definition roleRef_valid (kinds : list string) (ref : RoleRef) : Prop :=
  ref_Kind ref ∈ kinds ∧ ref_Name ref ≠ "" ∧ IsValidPathSegmentName (ref_Name ref) = [].

Lemma ValidateRoleRef_spec ref kinds : ValidateRoleRef ref kinds = [] ↔ roleRef_valid kinds ref.
Proof.
  unfold ValidateRoleRef, roleRef_valid, ValidateRBACName. rewrite slen_0_decide, app_nil.
  case_bool_decide; case_bool_decide; rewrite ?fmap_nil_iff; naive_solver.
Qed.

(** Validating the update of a role binding never panics and accepts exactly
    the well-formed bindings (a supported role kind, a name that is a path
    segment, every subject named and of a known kind, service accounts with a
    DNS name) whose role reference is the old one's. *)
Theorem ValidateRoleBindingUpdate_spec b old :
  ∃ es, ValidateRoleBindingUpdate b old = Ret es ∧
    (es = [] ↔ roleRef_valid ["Role"; "ClusterRole"] (rb_RoleRef b) ∧
               Forall (subject_valid true) (rb_Subjects b) ∧ rb_RoleRef old = rb_RoleRef b).
Proof.
  unfold ValidateRoleBindingUpdate, ValidateRoleBinding, roleRefChanged.
  destruct (ValidateSubjects_spec (rb_Subjects b) true 0) as (es & -> & Hes). cbn.
  eexists. split; [done|]. rewrite !app_nil, ValidateRoleRef_spec, Hes.
  case_bool_decide; naive_solver.
Qed.

Lemma ValidateClusterRoleBinding_spec b :
  ∃ es, ValidateClusterRoleBinding b = Ret es ∧
    (es = [] ↔ roleRef_valid ["ClusterRole"] (crb_RoleRef b) ∧
               Forall (subject_valid false) (crb_Subjects b)).
Proof.
  unfold ValidateClusterRoleBinding.
  destruct (ValidateSubjects_spec (crb_Subjects b) false 0) as (es & -> & Hes). cbn.
  eexists. split; [done|]. rewrite !app_nil, ValidateRoleRef_spec, Hes. done.
Qed.
End validation_theorems.
