(* ===== verification/Rbac.v ===== *)
(** * The RBAC rule resolver and authorizer

    Models plugin/authorizer/rbac/validation/rule.go (the DefaultRuleResolver and
    the static role store), plugin/authorizer/rbac/rbac.go (the authorizer) and
    subject_locator.go (who may perform an action).

    A nil user is [None]; calling its methods panics, so everything that looks at
    the user is an [outcome].  The getters and listers are read during one call
    only, so they are pure functions.  A describer is passed to a visitor as the
    string its String method returns. *)

From S2P Require Import Prelude GoStrings Authorizer ServiceAccount RbacTypes.

Local Open Scope go_scope.

(** ** Who a subject stands for *)

Definition user_GetName (user : option DefaultInfo) : outcome string :=
  match user with Some u => Ret (u_Name u) | None => Panic "nil pointer dereference" end.

Definition user_GetGroups (user : option DefaultInfo) : outcome (list string) :=
  match user with Some u => Ret (u_Groups u) | None => Panic "nil pointer dereference" end.

Definition has (set : list string) (ele : string) : bool := existsb (λ s, s == ele) set.

Definition appliesToUser (user : option DefaultInfo) (subject : Subject) (namespace : string)
    : outcome bool :=
  if s_Kind subject == UserKind then
    name ← user_GetName user; Ret (name == s_Name subject)
  else if s_Kind subject == GroupKind then
    groups ← user_GetGroups user; Ret (has groups (s_Name subject))
  else if s_Kind subject == ServiceAccountKind then
    let saNamespace := if 0 <? slen (s_Namespace subject) then s_Namespace subject else namespace in
    if slen saNamespace =? 0 then Ret false
    else name ← user_GetName user; Ret (MatchesUsername saNamespace (s_Name subject) name)
  else Ret false.

(** The index of the first subject that applies. *)
Fixpoint appliesTo_from (i : nat) (user : option DefaultInfo) (bindingSubjects : list Subject)
    (namespace : string) : outcome (option nat) :=
  match bindingSubjects with
  | [] => Ret None
  | s :: rest =>
      applies ← appliesToUser user s namespace;
      if (applies : bool) then Ret (Some i) else appliesTo_from (S i) user rest namespace
  end.

Definition appliesTo := appliesTo_from 0.

(** ** Describing the source of a rule *)

Definition describeSubject (s : Subject) (bindingNamespace : string) : string :=
  let quoted := Quote in
  if s_Kind s == ServiceAccountKind then
    if 0 <? slen (s_Namespace s)
    then s_Kind s +:+ " " +:+ quoted (s_Name s +:+ "/" +:+ s_Namespace s)
    else s_Kind s +:+ " " +:+ quoted (s_Name s +:+ "/" +:+ bindingNamespace)
  else s_Kind s +:+ " " +:+ quoted (s_Name s).

Definition clusterRoleBindingDescriber_String (binding : ClusterRoleBinding) (subject : Subject) : string :=
  "ClusterRoleBinding " +:+ Quote (m_Name (crb_Meta binding)) +:+ " of " +:+
  ref_Kind (crb_RoleRef binding) +:+ " " +:+ Quote (ref_Name (crb_RoleRef binding)) +:+
  " to " +:+ describeSubject subject "".

Definition roleBindingDescriber_String (binding : RoleBinding) (subject : Subject) : string :=
  "RoleBinding " +:+ Quote (m_Name (rb_Meta binding) +:+ "/" +:+ m_Namespace (rb_Meta binding)) +:+
  " of " +:+ ref_Kind (rb_RoleRef binding) +:+ " " +:+ Quote (ref_Name (rb_RoleRef binding)) +:+
  " to " +:+ describeSubject subject (m_Namespace (rb_Meta binding)).

(** ** The rule resolver *)

Record DefaultRuleResolver := {
  roleGetter : string → string → Role + error;
  roleBindingLister : string → list RoleBinding + error;
  clusterRoleGetter : string → ClusterRole + error;
  clusterRoleBindingLister : list ClusterRoleBinding + error;
}.

Definition GetRoleReferenceRules (r : DefaultRuleResolver) (roleRef : RoleRef) (bindingNamespace : string)
    : list PolicyRule + error :=
  if ref_Kind roleRef == "Role" then
    match roleGetter r bindingNamespace (ref_Name roleRef) with
    | inr err => inr err
    | inl role => inl (role_Rules role)
    end
  else if ref_Kind roleRef == "ClusterRole" then
    match clusterRoleGetter r (ref_Name roleRef) with
    | inr err => inr err
    | inl clusterRole => inl (cr_Rules clusterRole)
    end
  else inr (Errorf "unsupported role reference kind: %q" [ref_Kind roleRef]).

(** A visitor updates its own state and says whether to go on: its arguments are
    the source, the rule and the error, each possibly nil. *)
Section visit.
Context {V : Type}.
Context (visitor : option string → option PolicyRule → option error → V → bool * V).

(** [for i := range rules { if !visitor(source, &rules[i], nil) { return } }];
    the boolean is false after the early return. *)
Fixpoint visitRules (source : string) (rules : list PolicyRule) (v : V) : bool * V :=
  match rules with
  | [] => (true, v)
  | rule :: rest =>
      let '(go, v) := visitor (Some source) (Some rule) None v in
      if go then visitRules source rest v else (false, v)
  end.

(** The two loops over bindings are the same code at two types: [subjects],
    [ref] and [describe] are the fields and the describer of a binding, [ns] the
    namespace the loop passes on. *)
Fixpoint visitBindings {B} (r : DefaultRuleResolver) (user : option DefaultInfo) (ns : string)
    (subjects : B → list Subject) (ref : B → RoleRef) (describe : B → Subject → string)
    (bindings : list B) (v : V) : outcome (bool * V) :=
  match bindings with
  | [] => Ret (true, v)
  | b :: rest =>
      applies ← appliesTo user (subjects b) ns;
      match applies with
      | None => visitBindings r user ns subjects ref describe rest v
      | Some subjectIndex =>
          match GetRoleReferenceRules r (ref b) ns with
          | inr err =>
              let '(go, v) := visitor None None (Some err) v in
              if go then visitBindings r user ns subjects ref describe rest v else Ret (false, v)
          | inl rules =>
              subject ← index (subjects b) subjectIndex;
              let '(go, v) := visitRules (describe b subject) rules v in
              if (go : bool) then visitBindings r user ns subjects ref describe rest v
              else Ret (false, v)
          end
      end
  end.

Definition VisitRulesFor (r : DefaultRuleResolver) (user : option DefaultInfo) (namespace : string)
    (v : V) : outcome V :=
  '(go, v) ←
    match clusterRoleBindingLister r with
    | inr err => Ret (visitor None None (Some err) v)
    | inl bindings =>
        visitBindings r user "" crb_Subjects crb_RoleRef clusterRoleBindingDescriber_String bindings v
    end;
  if negb go then Ret v
  else if 0 <? slen namespace then
    '(_, v) ←
      match roleBindingLister r namespace with
      | inr err => Ret (visitor None None (Some err) v)
      | inl bindings =>
          visitBindings r user namespace rb_Subjects rb_RoleRef roleBindingDescriber_String bindings v
      end;
    Ret v
  else Ret v.
End visit.

(** [ruleAccumulator.visit]: the state is the rules and the errors so far. *)
Definition ruleAccumulator_visit (source : option string) (rule : option PolicyRule) (err : option error)
    (v : list PolicyRule * list error) : bool * (list PolicyRule * list error) :=
  (true, (v.1 ++ option_list rule, v.2 ++ option_list err)).

Definition RulesFor `{UtilErrors} (r : DefaultRuleResolver) (user : option DefaultInfo) (namespace : string)
    : outcome (list PolicyRule * option error) :=
  '(rules, errors) ← VisitRulesFor ruleAccumulator_visit r user namespace ([], []);
  Ret (rules, NewAggregate errors).

(** ** The authorizer *)

Definition RuleAllows (a : AttributesRecord) (rule : PolicyRule) : bool :=
  if a_ResourceRequest a then
    let combinedResource :=
      if 0 <? slen (a_Subresource a) then a_Resource a +:+ "/" +:+ a_Subresource a else a_Resource a in
    VerbMatches rule (a_Verb a) &&
    ResourceMatches rule combinedResource (a_Subresource a) &&
    ResourceNameMatches rule (a_Name a)
  else VerbMatches rule (a_Verb a) && NonResourceURLMatches rule (a_Path a).

Definition RulesAllow (a : AttributesRecord) (rules : list PolicyRule) : bool :=
  existsb (RuleAllows a) rules.

Record authorizingVisitor := { av_allowed : bool; av_reason : string; av_errors : list error }.

(** A nil source with a non-nil rule does not occur; [source.String()] would
    panic.  The default is never used. *)
Definition authorizingVisitor_visit (a : AttributesRecord) (source : option string)
    (rule : option PolicyRule) (err : option error) (v : authorizingVisitor) : bool * authorizingVisitor :=
  match rule with
  | Some rule' =>
      if RuleAllows a rule' then
        (false, {| av_allowed := true; av_reason := "RBAC: allowed by " +:+ default "" source;
                   av_errors := av_errors v |})
      else (true, {| av_allowed := av_allowed v; av_reason := av_reason v;
                     av_errors := av_errors v ++ option_list err |})
  | None => (true, {| av_allowed := av_allowed v; av_reason := av_reason v;
                      av_errors := av_errors v ++ option_list err |})
  end.

Section authorizer.
Context `{UtilErrors}.

(** How an error prints ([%v] of the aggregate). *)
Context (error_String : error → string).

Definition RBACAuthorizer_Authorize (r : DefaultRuleResolver) (a : AttributesRecord) : outcome verdict :=
  v ← VisitRulesFor (authorizingVisitor_visit a) r (a_User a) (a_Namespace a)
        {| av_allowed := false; av_reason := ""; av_errors := [] |};
  if av_allowed v then Ret (Verdict DecisionAllow (av_reason v) None)
  else
    let reason := if 0 <? length (av_errors v)
                  then "RBAC: " +:+ default "<nil>" (error_String <$> NewAggregate (av_errors v)) else "" in
    Ret (Verdict DecisionNoOpinion reason None).

Definition resourceRuleOf (p : PolicyRule) : option DefaultResourceRuleInfo :=
  if 0 <? length (Resources p)
  then Some {| rr_Verbs := Verbs p; rr_APIGroups := APIGroups p; rr_Resources := Resources p;
               rr_ResourceNames := ResourceNames p |}
  else None.

Definition nonResourceRuleOf (p : PolicyRule) : option DefaultNonResourceRuleInfo :=
  if 0 <? length (NonResourceURLs p)
  then Some {| nr_Verbs := Verbs p; nr_NonResourceURLs := NonResourceURLs p |} else None.

Definition RBACAuthorizer_RulesFor (r : DefaultRuleResolver) (user : option DefaultInfo)
    (namespace : string) : outcome rules_result :=
  '(policyRules, err) ← RulesFor r user namespace;
  Ret (RulesResult (omap resourceRuleOf policyRules) (omap nonResourceRuleOf policyRules) false err).

(** ** Locating subjects *)

(** One loop of [AllowedSubjects] over bindings: the subjects of those whose
    rules allow the request (a failed reference has no rules), and the errors. *)
Fixpoint allowedBindings {B} (r : DefaultRuleResolver) (a : AttributesRecord) (ns : string)
    (subjectsOf : B → list Subject) (ref : B → RoleRef) (bindings : list B)
    (subjects : list Subject) (errorlist : list error) : list Subject * list error :=
  match bindings with
  | [] => (subjects, errorlist)
  | b :: rest =>
      let res := GetRoleReferenceRules r (ref b) ns in
      let rules := match res with inl rules => rules | inr _ => [] end in
      let errorlist := match res with inl _ => errorlist | inr err => errorlist ++ [err] end in
      let subjects := if RulesAllow a rules then subjects ++ subjectsOf b else subjects in
      allowedBindings r a ns subjectsOf ref rest subjects errorlist
  end.

Definition presetSubjects (superUser : string) : list Subject :=
  {| s_Kind := GroupKind; s_APIGroup := GroupName; s_Name := SystemPrivilegedGroup; s_Namespace := "" |} ::
  (if 0 <? slen superUser
   then [{| s_Kind := UserKind; s_APIGroup := GroupName; s_Name := superUser; s_Namespace := "" |}]
   else []).

(** The dedupedSubjects the function computes before it returns [subjects]. *)
Definition dedup (subjects : list Subject) : list Subject :=
  fold_left (λ deduped s, if existsb (λ curr, curr == s) deduped then deduped else deduped ++ [s])
            subjects [].

Definition AllowedSubjects (superUser : string) (r : DefaultRuleResolver) (a : AttributesRecord)
    : list Subject * option error :=
  let '(subjects, errorlist) :=
    match clusterRoleBindingLister r with
    | inr err => (presetSubjects superUser, [err])
    | inl bindings => allowedBindings r a "" crb_Subjects crb_RoleRef bindings (presetSubjects superUser) []
    end in
  let '(subjects, errorlist) :=
    if 0 <? slen (a_Namespace a) then
      match roleBindingLister r (a_Namespace a) with
      | inr err => (subjects, errorlist ++ [err])
      | inl bindings =>
          allowedBindings r a (a_Namespace a) rb_Subjects rb_RoleRef bindings subjects errorlist
      end
    else (subjects, errorlist) in
  let dedupedSubjects := dedup subjects in
  (subjects, NewAggregate errorlist).
End authorizer.

(** ** Stores *)

(** StaticRoles resolves from lists of objects. *)
Record StaticRoles := {
  st_roles : list Role;
  st_roleBindings : list RoleBinding;
  st_clusterRoles : list ClusterRole;
  st_clusterRoleBindings : list ClusterRoleBinding;
}.

Definition StaticRoles_GetRole (r : StaticRoles) (namespace name : string) : Role + error :=
  if slen namespace =? 0 then inr (Errorf "must provide namespace when getting role" [])
  else match List.find (λ role, (m_Namespace (role_Meta role) == namespace) &&
                                (m_Name (role_Meta role) == name)) (st_roles r) with
  | Some role => inl role
  | None => inr (Errorf "role not found" [])
  end.

Definition StaticRoles_GetClusterRole (r : StaticRoles) (name : string) : ClusterRole + error :=
  match List.find (λ clusterRole, m_Name (cr_Meta clusterRole) == name) (st_clusterRoles r) with
  | Some clusterRole => inl clusterRole
  | None => inr (Errorf "clusterrole not found" [])
  end.

Definition StaticRoles_ListRoleBindings (r : StaticRoles) (namespace : string) : list RoleBinding + error :=
  if slen namespace =? 0 then inr (Errorf "must provide namespace when listing role bindings" [])
  else inl (filter (λ b, m_Namespace (rb_Meta b) = namespace) (st_roleBindings r)).

Definition StaticRoles_ListClusterRoleBindings (r : StaticRoles) : list ClusterRoleBinding + error :=
  inl (st_clusterRoleBindings r).

Definition newMockRuleResolver (r : StaticRoles) : DefaultRuleResolver :=
  {| roleGetter := StaticRoles_GetRole r;
     roleBindingLister := StaticRoles_ListRoleBindings r;
     clusterRoleGetter := StaticRoles_GetClusterRole r;
     clusterRoleBindingLister := StaticRoles_ListClusterRoleBindings r |}.

(** The listers of pkg/listers, as far as RBAC calls them. *)
Record Listers := {
  l_Role_Get : string → Role + error;
  l_RoleBinding_List : list RoleBinding + error;
  l_ClusterRole_Get : string → ClusterRole + error;
  l_ClusterRoleBinding_List : list ClusterRoleBinding + error;
}.

(** The adapters of rbac.go; the namespace is not used. *)
Definition RoleGetter_GetRole (g : Listers) (namespace name : string) : Role + error := l_Role_Get g name.

Definition RoleBindingLister_ListRoleBindings (l : Listers) (namespace : string) : list RoleBinding + error :=
  l_RoleBinding_List l.

Definition ClusterRoleGetter_GetClusterRole (g : Listers) (name : string) : ClusterRole + error :=
  l_ClusterRole_Get g name.

Definition ClusterRoleBindingLister_ListClusterRoleBindings (l : Listers) : list ClusterRoleBinding + error :=
  l_ClusterRoleBinding_List l.

(** [rbac.New] applied to the adapters, as file.NewRBAC and db.NewRBAC do. *)
Definition rbac_New (l : Listers) : DefaultRuleResolver :=
  {| roleGetter := RoleGetter_GetRole l;
     roleBindingLister := RoleBindingLister_ListRoleBindings l;
     clusterRoleGetter := ClusterRoleGetter_GetClusterRole l;
     clusterRoleBindingLister := ClusterRoleBindingLister_ListClusterRoleBindings l |}.

(** ** Theorems *)

(** *** The subjects that apply to a user *)

(** Declaratively: a User subject names the user, a Group subject one of its
    groups, a ServiceAccount subject the account in its own namespace or, when it
    has none, in the namespace at hand. *)
Definition user_matches (u : DefaultInfo) (s : Subject) (ns : string) : Prop :=
  (s_Kind s = UserKind ∧ u_Name u = s_Name s) ∨
  (s_Kind s = GroupKind ∧ s_Name s ∈ u_Groups u) ∨
  (s_Kind s = ServiceAccountKind ∧
   let n := if s_Namespace s == "" then ns else s_Namespace s in
   n ≠ "" ∧ u_Name u = MakeUsername n (s_Name s)).

Lemma appliesToUser_spec u s ns :
  ∃ b, appliesToUser (Some u) s ns = Ret b ∧ (b = true ↔ user_matches u s ns).
Proof.
  unfold appliesToUser, user_matches, has. rewrite slen_pos, slen_0_decide.
  assert (UserKind ≠ GroupKind ∧ UserKind ≠ ServiceAccountKind ∧ GroupKind ≠ ServiceAccountKind)
    as (Hug & Hus & Hgs) by done.
  case_bool_decide as Hk; [eexists; split; [done|]; rewrite bool_decide_eq_true; intuition congruence|].
  case_bool_decide as Hg; [eexists; split; [done|]; rewrite existsb_eq_elem_of, bool_decide_eq_true; intuition congruence|].
  case_bool_decide as Hs; [|eexists; split; [done|]; intuition congruence].
  assert ((if s_Namespace s != "" then s_Namespace s else ns) =
          (if s_Namespace s == "" then ns else s_Namespace s)) as -> by (by case_bool_decide).
  case_bool_decide as Hn; eexists; (split; [done|]); rewrite ?MatchesUsername_spec; cbn; intuition congruence.
Qed.

(** The boolean [appliesToUser] computes for a user that exists. *)
Definition applies (u : DefaultInfo) (ns : string) (s : Subject) : bool :=
  match appliesToUser (Some u) s ns with Ret b => b | Panic _ => false end.

Lemma appliesToUser_applies u s ns : appliesToUser (Some u) s ns = Ret (applies u ns s).
Proof. unfold applies. by destruct (appliesToUser_spec u s ns) as (b & -> & _). Qed.

Lemma applies_spec u s ns : applies u ns s = true ↔ user_matches u s ns.
Proof. unfold applies. by destruct (appliesToUser_spec u s ns) as (b & -> & ?). Qed.

Lemma appliesTo_from_spec i u subs ns :
  match List.find (applies u ns) subs with
  | None => appliesTo_from i (Some u) subs ns = Ret None
  | Some s => ∃ j, appliesTo_from i (Some u) subs ns = Ret (Some (i + j)) ∧ subs !! j = Some s
  end.
Proof.
  revert i. induction subs as [|s subs IH]; intros i; simpl; [done|].
  rewrite appliesToUser_applies. cbn. destruct (applies u ns s).
  - exists 0. by rewrite Nat.add_0_r.
  - specialize (IH (S i)). destruct (List.find (applies u ns) subs) as [s'|]; [|done].
    destruct IH as (j & -> & Hj). exists (S j). by rewrite Nat.add_succ_r.
Qed.

Lemma find_elem_of {A} (f : A → bool) l :
  (∃ x, List.find f l = Some x) ↔ ∃ x, x ∈ l ∧ f x = true.
Proof.
  split.
  - intros [x Hx]. apply List.find_some in Hx as [Hx Hf]. rewrite <- list_elem_of_In in Hx. eauto.
  - intros (x & Hx & Hf). destruct (List.find f l) eqn:Hfind; [by eexists|].
    apply list_elem_of_In in Hx. eapply List.find_none in Hfind; [|done]. congruence.
Qed.

(** *** Visiting is a short-circuited walk over the list of events *)

Definition event : Type := option string * option PolicyRule * option error.

Section walk.
Context {V : Type} (visitor : option string → option PolicyRule → option error → V → bool * V).

(** Call the visitor on each event until it returns false. *)
Fixpoint walk (evs : list event) (v : V) : bool * V :=
  match evs with
  | [] => (true, v)
  | (source, rule, err) :: rest =>
      let '(go, v) := visitor source rule err v in if go then walk rest v else (false, v)
  end.

Lemma walk_app evs1 evs2 v :
  walk (evs1 ++ evs2) v = let '(go, v) := walk evs1 v in if go then walk evs2 v else (false, v).
Proof.
  revert v. induction evs1 as [|[[s r] e] evs1 IH]; intros v; simpl; [done|].
  destruct (visitor s r e v) as [[] v']; [apply IH|done].
Qed.

Lemma visitRules_walk source rules v :
  visitRules visitor source rules v = walk ((λ rule, (Some source, Some rule, None)) <$> rules) v.
Proof.
  revert v. induction rules as [|rule rules IH]; intros v; simpl; [done|].
  destruct (visitor _ _ _ v) as [[] v']; [apply IH|done].
Qed.
End walk.

(** What a binding contributes: nothing if no subject applies, the error of a
    reference that cannot be resolved, or its rules. *)
Definition bindingEvents {B} (r : DefaultRuleResolver) (u : DefaultInfo) (ns : string)
    (subjects : B → list Subject) (ref : B → RoleRef) (describe : B → Subject → string) (b : B)
    : list event :=
  match List.find (applies u ns) (subjects b) with
  | None => []
  | Some s =>
      match GetRoleReferenceRules r (ref b) ns with
      | inr err => [(None, None, Some err)]
      | inl rules => (λ rule, (Some (describe b s), Some rule, None)) <$> rules
      end
  end.

Definition clusterEvents (r : DefaultRuleResolver) (u : DefaultInfo) : list event :=
  match clusterRoleBindingLister r with
  | inr err => [(None, None, Some err)]
  | inl bs => bs ≫= bindingEvents r u "" crb_Subjects crb_RoleRef clusterRoleBindingDescriber_String
  end.

Definition namespaceEvents (r : DefaultRuleResolver) (u : DefaultInfo) (ns : string) : list event :=
  if ns == "" then [] else
  match roleBindingLister r ns with
  | inr err => [(None, None, Some err)]
  | inl bs => bs ≫= bindingEvents r u ns rb_Subjects rb_RoleRef roleBindingDescriber_String
  end.

Definition events (r : DefaultRuleResolver) (u : DefaultInfo) (ns : string) : list event :=
  clusterEvents r u ++ namespaceEvents r u ns.

Lemma visitBindings_walk {B V} visitor r u ns (subjects : B → list Subject) ref describe bs (v : V) :
  visitBindings visitor r (Some u) ns subjects ref describe bs v =
  Ret (walk visitor (bs ≫= bindingEvents r u ns subjects ref describe) v).
Proof.
  revert v. induction bs as [|b bs IH]; intros v; [done|].
  cbn [visitBindings]. rewrite bind_cons, walk_app. unfold appliesTo.
  pose proof (appliesTo_from_spec 0 u (subjects b) ns) as Happ. unfold bindingEvents at 1.
  destruct (List.find _ _) as [s|]; [|rewrite Happ; apply IH].
  destruct Happ as (j & -> & Hj). cbn [mbind outcome_bind]. simpl.
  destruct (GetRoleReferenceRules _ _ _) as [rules|err].
  - rewrite (proj2 (index_lookup _ _ _) Hj). cbn [mbind outcome_bind]. rewrite visitRules_walk.
    by destruct (walk visitor _ v) as [[] v'].
  - simpl. by destruct (visitor _ _ _ v) as [[] v'].
Qed.

Lemma VisitRulesFor_walk {V} visitor r u ns (v : V) :
  VisitRulesFor visitor r (Some u) ns v = Ret (walk visitor (events r u ns) v).2.
Proof.
  assert (∀ err v, walk visitor [(None, None, Some err)] v = visitor None None (Some err) v) as Herr.
  { intros err v'. simpl. by destruct (visitor _ _ _ _) as [[] ?]. }
  unfold VisitRulesFor, events. rewrite slen_pos, walk_app.
  assert (match clusterRoleBindingLister r with
          | inr err => Ret (visitor None None (Some err) v)
          | inl bs => visitBindings visitor r (Some u) "" crb_Subjects crb_RoleRef
                        clusterRoleBindingDescriber_String bs v
          end = Ret (walk visitor (clusterEvents r u) v)) as ->.
  { unfold clusterEvents. destruct (clusterRoleBindingLister r); by rewrite ?visitBindings_walk, ?Herr. }
  cbn [mbind outcome_bind]. destruct (walk visitor (clusterEvents r u) v) as [[] v1]; simpl; [|done].
  unfold namespaceEvents. case_bool_decide; [done|]. cbn [negb].
  destruct (roleBindingLister r ns); rewrite ?visitBindings_walk, ?Herr; cbn [mbind outcome_bind];
    by case_match.
Qed.

(** *** The rules granted to a user *)

(** [rule] is in a role some binding of [bs] gives to [u], when references are
    resolved in [ns]. *)
Definition bound_rule {B} (r : DefaultRuleResolver) (u : DefaultInfo) (ns : string)
    (subjects : B → list Subject) (ref : B → RoleRef) (bs : list B) (rule : PolicyRule) : Prop :=
  ∃ b s rules, b ∈ bs ∧ s ∈ subjects b ∧ user_matches u s ns ∧
    GetRoleReferenceRules r (ref b) ns = inl rules ∧ rule ∈ rules.

(** [rule] is granted to [u] in [ns]: by a cluster role binding, or, in a
    namespace, by a role binding listed for it. *)
Definition granted (r : DefaultRuleResolver) (u : DefaultInfo) (ns : string) (rule : PolicyRule) : Prop :=
  (∃ bs, clusterRoleBindingLister r = inl bs ∧ bound_rule r u "" crb_Subjects crb_RoleRef bs rule) ∨
  (ns ≠ "" ∧ ∃ bs, roleBindingLister r ns = inl bs ∧ bound_rule r u ns rb_Subjects rb_RoleRef bs rule).

Definition event_rules (evs : list event) : list PolicyRule := omap (λ ev, ev.1.2) evs.
Definition event_errors (evs : list event) : list error := omap snd evs.

Lemma bindingEvents_rules {B} r u ns (subjects : B → list Subject) ref describe bs rule :
  rule ∈ event_rules (bs ≫= bindingEvents r u ns subjects ref describe) ↔
  bound_rule r u ns subjects ref bs rule.
Proof.
  unfold event_rules, bound_rule. rewrite list_elem_of_omap. split.
  - intros ([[src rule'] err] & Hin & Hrule). simpl in Hrule. subst rule'.
    apply list_elem_of_bind in Hin as (b & Hin & Hb). exists b. unfold bindingEvents in Hin.
    destruct (List.find _ _) as [s|] eqn:Hs; [|set_solver].
    apply List.find_some in Hs as [Hs Happ]. rewrite <- list_elem_of_In in Hs.
    destruct (GetRoleReferenceRules _ _ _) as [rules|e] eqn:Href; [|set_solver].
    exists s, rules. rewrite applies_spec in Happ. set_solver.
  - intros (b & s & rules & Hb & Hs & Hu & Href & Hrule).
    rewrite <- applies_spec in Hu. destruct (proj2 (find_elem_of (applies u ns) (subjects b))) as [s' Hs'];
      [by exists s|].
    exists (Some (describe b s'), Some rule, None). split; [|done].
    apply list_elem_of_bind. exists b. split; [|done]. unfold bindingEvents. rewrite Hs', Href. set_solver.
Qed.

Lemma events_granted r u ns rule : rule ∈ event_rules (events r u ns) ↔ granted r u ns rule.
Proof.
  unfold events, event_rules. rewrite omap_app, elem_of_app. unfold granted. f_equiv.
  - unfold clusterEvents. destruct (clusterRoleBindingLister r) as [bs|]; [|simpl; set_solver].
    setoid_rewrite bindingEvents_rules. naive_solver.
  - unfold namespaceEvents. case_bool_decide; [simpl; set_solver|].
    destruct (roleBindingLister r ns) as [bs|]; [|simpl; set_solver].
    setoid_rewrite bindingEvents_rules. naive_solver.
Qed.

(** Every reference that matters for [u] in [ns] resolves: the listers answer, and so do
    the getters for the role of each binding that names the user. *)
Definition bindings_resolve {B} (r : DefaultRuleResolver) (u : DefaultInfo) (ns : string)
    (subjects : B → list Subject) (ref : B → RoleRef) (bs : list B) : Prop :=
  ∀ b s, b ∈ bs → s ∈ subjects b → user_matches u s ns → ∃ rules, GetRoleReferenceRules r (ref b) ns = inl rules.

Definition resolves (r : DefaultRuleResolver) (u : DefaultInfo) (ns : string) : Prop :=
  (∃ bs, clusterRoleBindingLister r = inl bs ∧ bindings_resolve r u "" crb_Subjects crb_RoleRef bs) ∧
  (ns ≠ "" → ∃ bs, roleBindingLister r ns = inl bs ∧ bindings_resolve r u ns rb_Subjects rb_RoleRef bs).

Lemma event_errors_nil evs : event_errors evs = [] ↔ Forall (λ ev, ev.2 = None) evs.
Proof.
  unfold event_errors. induction evs as [|ev evs IH]; cbn; [by split|].
  rewrite Forall_cons, <- IH. destruct ev.2; naive_solver.
Qed.

Lemma bindingEvents_errors {B} r u ns (subjects : B → list Subject) ref describe bs :
  event_errors (bs ≫= bindingEvents r u ns subjects ref describe) = [] ↔ bindings_resolve r u ns subjects ref bs.
Proof.
  rewrite event_errors_nil, Forall_forall. unfold bindings_resolve. split.
  - intros H b s Hb Hs Hu. rewrite <- applies_spec in Hu.
    destruct (proj2 (find_elem_of (applies u ns) (subjects b))) as [s' Hs']; [by exists s|].
    destruct (GetRoleReferenceRules r (ref b) ns) as [rules|err] eqn:Href; [by exists rules|].
    assert ((None, None, Some err) ∈ bs ≫= bindingEvents r u ns subjects ref describe) as Hin;
      [|by specialize (H _ Hin)].
    apply list_elem_of_bind. exists b. split; [|done]. unfold bindingEvents. rewrite Hs', Href. set_solver.
  - intros H ev (b & Hev & Hb)%list_elem_of_bind. unfold bindingEvents in Hev.
    destruct (List.find _ _) as [s|] eqn:Hs; [|set_solver].
    apply List.find_some in Hs as [Hs Happ]. rewrite <- list_elem_of_In in Hs. rewrite applies_spec in Happ.
    destruct (H b s Hb Hs Happ) as [rules Href]. rewrite Href in Hev. set_solver.
Qed.

Lemma events_resolve r u ns : event_errors (events r u ns) = [] ↔ resolves r u ns.
Proof.
  unfold events, event_errors, resolves. rewrite omap_app, app_nil. f_equiv.
  - unfold clusterEvents. destruct (clusterRoleBindingLister r) as [bs|]; [|simpl; naive_solver].
    setoid_rewrite bindingEvents_errors. naive_solver.
  - unfold namespaceEvents. case_bool_decide; [simpl; naive_solver|].
    destruct (roleBindingLister r ns) as [bs|]; [|simpl; naive_solver].
    setoid_rewrite bindingEvents_errors. naive_solver.
Qed.

Lemma walk_accumulate evs v :
  walk ruleAccumulator_visit evs v = (true, (v.1 ++ event_rules evs, v.2 ++ event_errors evs)).
Proof.
  revert v. induction evs as [|[[src rule] err] evs IH]; intros [rules errs]; simpl.
  - unfold event_rules, event_errors. simpl. by rewrite !app_nil_r.
  - rewrite IH. simpl. unfold event_rules, event_errors. destruct rule, err; simpl; by simplify_list_eq.
Qed.

Lemma walk_authorize a evs v :
  let v' := (walk (authorizingVisitor_visit a) evs v).2 in
  av_allowed v' = av_allowed v || RulesAllow a (event_rules evs) ∧
  (RulesAllow a (event_rules evs) = false → av_errors v' = av_errors v ++ event_errors evs).
Proof.
  revert v. induction evs as [|[[src rule] err] evs IH]; intros v; simpl.
  - by rewrite orb_false_r, app_nil_r.
  - destruct rule as [rule|]; simpl.
    + destruct (RuleAllows a rule) eqn:Hr; simpl; [by rewrite orb_true_r|].
      destruct (IH {| av_allowed := av_allowed v; av_reason := av_reason v;
                      av_errors := av_errors v ++ option_list err |}) as [-> IH']. simpl in *.
      split; [done|]. intros Hn. rewrite IH' by done. unfold event_errors. destruct err; by simplify_list_eq.
    + destruct (IH {| av_allowed := av_allowed v; av_reason := av_reason v;
                      av_errors := av_errors v ++ option_list err |}) as [-> IH']. simpl in *.
      split; [done|]. intros Hn. rewrite IH' by done. unfold event_errors. destruct err; by simplify_list_eq.
Qed.

(** What one rule allows: a resource request needs a matching verb, a resource
    pattern ("*", the resource with its subresource, or "*/subresource") and, when
    the rule names resources, a matching name; any other request needs a matching
    verb and a covering URL.  The API group plays no part. *)
Theorem RuleAllows_spec a rule :
  RuleAllows a rule = true ↔
  ("*" ∈ Verbs rule ∨ a_Verb a ∈ Verbs rule) ∧
  if a_ResourceRequest a then
    (∃ res, res ∈ Resources rule ∧
       (res = "*" ∨
        res = (if a_Subresource a == "" then a_Resource a
               else a_Resource a +:+ "/" +:+ a_Subresource a) ∨
        (a_Subresource a ≠ "" ∧ res = "*/" +:+ a_Subresource a))) ∧
    (ResourceNames rule = [] ∨ a_Name a ∈ ResourceNames rule)
  else ∃ ruleURL, ruleURL ∈ NonResourceURLs rule ∧ url_covers ruleURL (a_Path a).
Proof.
  unfold RuleAllows. rewrite slen_pos. destruct (a_ResourceRequest a).
  - rewrite !andb_true_iff, VerbMatches_spec, ResourceMatches_spec, ResourceNameMatches_spec.
    case_bool_decide; tauto.
  - by rewrite andb_true_iff, VerbMatches_spec, NonResourceURLMatches_spec.
Qed.

Section authorizer_theorems.
Context `{UtilErrors} (error_String : error → string).

Lemma RulesFor_events r u ns :
  RulesFor r (Some u) ns =
  Ret (event_rules (events r u ns), NewAggregate (event_errors (events r u ns))).
Proof.
  unfold RulesFor. rewrite VisitRulesFor_walk, walk_accumulate. done.
Qed.

Lemma Authorize_events r u a :
  a_User a = Some u →
  ∃ reason, RBACAuthorizer_Authorize error_String r a =
    Ret (Verdict (if RulesAllow a (event_rules (events r u (a_Namespace a)))
                  then DecisionAllow else DecisionNoOpinion) reason None) ∧
    (RulesAllow a (event_rules (events r u (a_Namespace a))) = false →
     reason = "" ↔ event_errors (events r u (a_Namespace a)) = []).
Proof.
  intros Hu. unfold RBACAuthorizer_Authorize. rewrite Hu, VisitRulesFor_walk. cbn [mbind outcome_bind].
  edestruct (walk_authorize a (events r u (a_Namespace a))) as [-> Herr]. simpl.
  destruct (RulesAllow _ _); eexists; (split; [done|]); [done|]. intros _. rewrite Herr by done. simpl.
  by destruct (event_errors _).
Qed.

(** C2: for a request with a user, the authorizer always answers and allows exactly when
    some rule granted to the user (by a cluster role binding, or by a role binding that
    is listed for the request's non-empty namespace) allows the request; otherwise it
    has no opinion, and its reason is empty exactly when every reference that matters
    for the user resolves.  When they do, there is no error.  It never denies, and the
    order and the short-circuit of the walk do not matter. *)
Theorem RBAC_Authorize_spec r u a :
  a_User a = Some u →
  ∃ d reason err, RBACAuthorizer_Authorize error_String r a = Ret (Verdict d reason err) ∧
    d ≠ DecisionDeny ∧
    (d = DecisionAllow ↔
     ∃ rule, granted r u (a_Namespace a) rule ∧ RuleAllows a rule = true) ∧
    (d = DecisionNoOpinion → reason = "" ↔ resolves r u (a_Namespace a)) ∧
    (resolves r u (a_Namespace a) → err = None).
Proof.
  intros Hu. destruct (Authorize_events r u a Hu) as (reason & -> & Hreason).
  do 3 eexists. split; [done|]. split; [by destruct (RulesAllow _ _)|].
  setoid_rewrite <- events_granted. rewrite <- existsb_elem_of, <- events_resolve.
  change (existsb (RuleAllows a)) with (RulesAllow a).
  destruct (RulesAllow _ _); (split; [done|]); (split; [auto; done|done]).
Qed.

(** What the comments of the types ask for is not done: a reference that does not resolve
    is no error of the authorizer. *)
Lemma unresolved_no_error r u a :
  a_User a = Some u → ∃ d reason, RBACAuthorizer_Authorize error_String r a = Ret (Verdict d reason None).
Proof. intros Hu. destruct (Authorize_events r u a Hu) as (reason & -> & _). by do 2 eexists. Qed.

(** The decision agrees with the rules reported for the user: [Authorize]
    allows exactly when [RulesAllow] accepts what [RulesFor] returns, which is
    every granted rule. *)
Theorem RBAC_Authorize_RulesFor r u a :
  a_User a = Some u →
  ∃ rules err reason,
    RulesFor r (Some u) (a_Namespace a) = Ret (rules, err) ∧
    (∀ rule, rule ∈ rules ↔ granted r u (a_Namespace a) rule) ∧
    RBACAuthorizer_Authorize error_String r a =
      Ret (Verdict (if RulesAllow a rules then DecisionAllow else DecisionNoOpinion) reason None).
Proof.
  intros Hu. destruct (Authorize_events r u a Hu) as (reason & Ha & _).
  do 3 eexists. split; [apply RulesFor_events|]. split; [|exact Ha].
  intros rule. apply events_granted.
Qed.

(** *** Locating subjects *)

Lemma allowedBindings_subjects {B} r a ns (subjectsOf : B → list Subject) ref bs subs errs :
  (allowedBindings r a ns subjectsOf ref bs subs errs).1 =
  subs ++ (bs ≫= λ b, match GetRoleReferenceRules r (ref b) ns with
                      | inl rules => if RulesAllow a rules then subjectsOf b else []
                      | inr _ => []
                      end).
Proof.
  revert subs errs. induction bs as [|b bs IH]; intros subs errs; [by rewrite app_nil_r|].
  cbn [allowedBindings]. rewrite IH, bind_cons.
  destruct (GetRoleReferenceRules _ _ _) as [rules|]; simpl; [|done].
  destruct (RulesAllow a rules); simpl; [by rewrite app_assoc|done].
Qed.

(** [s] is listed by a binding of [bs] whose role allows the request. *)
Definition allowed_subject {B} r a ns (subjectsOf : B → list Subject) (ref : B → RoleRef)
    (bs : list B) (s : Subject) : Prop :=
  ∃ b rules, b ∈ bs ∧ s ∈ subjectsOf b ∧ GetRoleReferenceRules r (ref b) ns = inl rules ∧
    RulesAllow a rules = true.

Lemma allowedBindings_elem {B} r a ns (subjectsOf : B → list Subject) ref bs subs errs s :
  s ∈ (allowedBindings r a ns subjectsOf ref bs subs errs).1 ↔
  s ∈ subs ∨ allowed_subject r a ns subjectsOf ref bs s.
Proof.
  rewrite allowedBindings_subjects, elem_of_app, list_elem_of_bind. f_equiv.
  unfold allowed_subject. split.
  - intros (b & Hs & Hb). exists b. destruct (GetRoleReferenceRules _ _ _) as [rules|]; [|set_solver].
    exists rules. destruct (RulesAllow a rules); [done|set_solver].
  - intros (b & rules & Hb & Hs & Href & Hallow). exists b. rewrite Href, Hallow. done.
Qed.

Lemma AllowedSubjects_elem superUser r a s :
  s ∈ (AllowedSubjects superUser r a).1 ↔
  s ∈ presetSubjects superUser ∨
  (∃ bs, clusterRoleBindingLister r = inl bs ∧ allowed_subject r a "" crb_Subjects crb_RoleRef bs s) ∨
  (a_Namespace a ≠ "" ∧ ∃ bs, roleBindingLister r (a_Namespace a) = inl bs ∧
     allowed_subject r a (a_Namespace a) rb_Subjects rb_RoleRef bs s).
Proof.
  unfold AllowedSubjects. rewrite slen_pos.
  set (base := match clusterRoleBindingLister r with
               | inl bs => allowedBindings r a "" crb_Subjects crb_RoleRef bs (presetSubjects superUser) []
               | inr err => (presetSubjects superUser, [err])
               end).
  assert (s ∈ base.1 ↔ s ∈ presetSubjects superUser ∨
    (∃ bs, clusterRoleBindingLister r = inl bs ∧ allowed_subject r a "" crb_Subjects crb_RoleRef bs s))
    as Hbase.
  { unfold base. destruct (clusterRoleBindingLister r) as [bs|]; [|simpl; naive_solver].
    rewrite allowedBindings_elem. naive_solver. }
  clearbody base. destruct base as [subs errs]. simpl in Hbase. rewrite (assoc (∨)), <- Hbase.
  case_bool_decide; simpl; [naive_solver|].
  destruct (roleBindingLister r (a_Namespace a)) as [bs|]; [|simpl; naive_solver].
  pose proof (allowedBindings_elem r a (a_Namespace a) rb_Subjects rb_RoleRef bs subs errs s) as He.
  destruct (allowedBindings _ _ _ _ _ _ _ _). simpl in *. rewrite He. naive_solver.
Qed.

Lemma RulesAllow_bound {B} r u a ns (subjects : B → list Subject) ref bs :
  (∃ rule, bound_rule r u ns subjects ref bs rule ∧ RuleAllows a rule = true) ↔
  ∃ s, allowed_subject r a ns subjects ref bs s ∧ user_matches u s ns.
Proof.
  unfold bound_rule, allowed_subject, RulesAllow. setoid_rewrite existsb_elem_of. naive_solver.
Qed.

(** A subject whose reach does not depend on the namespace at hand. *)
Definition qualified (s : Subject) : Prop := s_Kind s = ServiceAccountKind → s_Namespace s ≠ "".

Lemma user_matches_qualified u s ns ns' : qualified s → user_matches u s ns → user_matches u s ns'.
Proof.
  unfold qualified, user_matches. intros Hq [?|[?|(Hk & Hu)]]; [by left|by right; left|].
  right; right. split; [done|]. by rewrite bool_decide_false in Hu |- * by auto.
Qed.

Lemma user_matches_empty_ns u s ns : user_matches u s "" → user_matches u s ns.
Proof.
  intros [?|[?|(Hk & Hn & Hu)]]; [by left|by right; left|]. right; right. split; [done|].
  destruct (decide (s_Namespace s = "")) as [He|He].
  - by rewrite bool_decide_true in Hn by done.
  - by rewrite bool_decide_false in Hn, Hu |- * by done.
Qed.

(** C37: the subject locator is complete and, on subjects that are not service
    accounts relying on an implicit namespace, sound: a user the authorizer
    allows matches a listed subject, and a user matching such a listed subject
    other than the preset ones (the masters group and the superuser) is
    allowed. *)
Theorem AllowedSubjects_correct superUser r u a :
  a_User a = Some u →
  let allowed := ∃ reason, RBACAuthorizer_Authorize error_String r a =
                           Ret (Verdict DecisionAllow reason None) in
  (allowed → ∃ s, s ∈ (AllowedSubjects superUser r a).1 ∧ user_matches u s (a_Namespace a)) ∧
  (∀ s, s ∈ (AllowedSubjects superUser r a).1 → s ∉ presetSubjects superUser → qualified s →
        user_matches u s (a_Namespace a) → allowed).
Proof.
  intros Hu allowed.
  assert (allowed ↔ ∃ rule, granted r u (a_Namespace a) rule ∧ RuleAllows a rule = true) as Hal.
  { destruct (Authorize_events r u a Hu) as (reason & Ha & _). unfold allowed. rewrite Ha.
    setoid_rewrite <- events_granted. rewrite <- existsb_elem_of.
    change (existsb (RuleAllows a)) with (RulesAllow a).
    destruct (RulesAllow _ _); naive_solver. }
  unfold granted in Hal. clearbody allowed. setoid_rewrite AllowedSubjects_elem. split.
  - intros (rule & [(bs & Hbs & Hb)|(Hns & bs & Hbs & Hb)] & Hr)%Hal.
    + destruct (proj1 (RulesAllow_bound r u a "" crb_Subjects crb_RoleRef bs)) as (s & Hs & Hm); [by exists rule|].
      exists s. split; [right; left; by exists bs|]. by apply user_matches_empty_ns.
    + destruct (proj1 (RulesAllow_bound r u a (a_Namespace a) rb_Subjects rb_RoleRef bs))
        as (s & Hs & Hm); [by exists rule|]. exists s. split; [right; right; split; [done|]; by exists bs|done].
  - intros s [?|[(bs & Hbs & Hs)|(Hns & bs & Hbs & Hs)]] Hpre Hq Hm; [done|..]; apply Hal.
    + destruct (proj2 (RulesAllow_bound r u a "" crb_Subjects crb_RoleRef bs)) as (rule & ? & ?);
        [exists s; split; [done|]; by eapply user_matches_qualified|].
      exists rule. split; [left; by exists bs|done].
    + destruct (proj2 (RulesAllow_bound r u a (a_Namespace a) rb_Subjects rb_RoleRef bs))
        as (rule & ? & ?); [by exists s|].
      exists rule. split; [right; split; [done|]; by exists bs|done].
Qed.
End authorizer_theorems.

(** *** The namespace adapters *)

Lemma bound_rule_ns {B} r u ns ns' (subjects : B → list Subject) ref bs rule :
  (∀ ref, GetRoleReferenceRules r ref ns = GetRoleReferenceRules r ref ns') →
  Forall (λ b, Forall qualified (subjects b)) bs →
  bound_rule r u ns subjects ref bs rule → bound_rule r u ns' subjects ref bs rule.
Proof.
  intros Href Hq (b & s & rules & Hb & Hs & Hm & Hr & Hrule). exists b, s, rules.
  rewrite <- Href. split_and!; try done. rewrite Forall_forall in Hq. specialize (Hq b Hb).
  rewrite Forall_forall in Hq. by eapply user_matches_qualified; [apply Hq|].
Qed.

(** The authorizer built on the listers ignores the namespace of role
    bindings and roles: when no binding relies on an implicit service-account
    namespace, a user's granted rules are the same in any two non-empty
    namespaces, so a RoleBinding takes effect in every namespace and not only
    in its own. *)
Theorem rbac_New_ignores_namespace l bs u ns ns' rule :
  l_RoleBinding_List l = inl bs → Forall (λ b, Forall qualified (rb_Subjects b)) bs →
  ns ≠ "" → ns' ≠ "" →
  granted (rbac_New l) u ns rule ↔ granted (rbac_New l) u ns' rule.
Proof.
  intros Hbs Hq Hns Hns'. unfold granted.
  assert (∀ n n' : string, (∃ bs0, roleBindingLister (rbac_New l) n = inl bs0 ∧
      bound_rule (rbac_New l) u n rb_Subjects rb_RoleRef bs0 rule) →
    (∃ bs0, roleBindingLister (rbac_New l) n' = inl bs0 ∧
      bound_rule (rbac_New l) u n' rb_Subjects rb_RoleRef bs0 rule)) as Hmove.
  2:{ split; (intros [?|[_ ?]]; [by left|right; split; [done|]; by eapply Hmove]). }
  intros n n' (bs0 & Hbs0 & Hb). exists bs0. split; [done|].
  eapply bound_rule_ns, Hb; [done|]. simpl in Hbs0.
  unfold RoleBindingLister_ListRoleBindings in Hbs0. rewrite Hbs in Hbs0. by injection Hbs0 as <-.
Qed.

(** Over StaticRoles, by contrast, a role binding grants rules in its own
    namespace only, and a Role it references is looked up there. *)
Theorem StaticRoles_namespaced st u ns rule :
  granted (newMockRuleResolver st) u ns rule →
  (∃ b s rules, b ∈ st_clusterRoleBindings st ∧ s ∈ crb_Subjects b ∧ user_matches u s "" ∧
     ref_Kind (crb_RoleRef b) = "ClusterRole" ∧
     GetRoleReferenceRules (newMockRuleResolver st) (crb_RoleRef b) "" = inl rules ∧ rule ∈ rules) ∨
  (∃ b s rules, b ∈ st_roleBindings st ∧ m_Namespace (rb_Meta b) = ns ∧ s ∈ rb_Subjects b ∧
     user_matches u s ns ∧
     GetRoleReferenceRules (newMockRuleResolver st) (rb_RoleRef b) ns = inl rules ∧ rule ∈ rules).
Proof.
  intros [(bs & Hbs & b & s & rules & Hb & Hs & Hm & Href & Hr)
         |(Hns & bs & Hbs & b & s & rules & Hb & Hs & Hm & Href & Hr)].
  - left. exists b, s, rules. injection Hbs as <-. split_and!; try done.
    unfold GetRoleReferenceRules in Href. case_bool_decide; [done|]. by case_bool_decide.
  - right. simpl in Hbs. unfold StaticRoles_ListRoleBindings in Hbs.
    destruct (_ =? 0); [done|]. injection Hbs as <-. apply list_elem_of_filter in Hb as [? ?].
    by exists b, s, rules.
Qed.

Lemma dedup_spec l :
  NoDup (dedup l) ∧ ∀ s, s ∈ dedup l ↔ s ∈ l.
Proof.
  unfold dedup. set (f := λ (deduped : list Subject) s, if existsb _ deduped then deduped else _).
  assert (∀ acc, NoDup acc → NoDup (fold_left f l acc) ∧ ∀ s, s ∈ fold_left f l acc ↔ s ∈ acc ∨ s ∈ l)
    as Hgen.
  { induction l as [|x l IH]; intros acc Hacc; simpl; [split; [done|]; set_solver|].
    assert (NoDup (f acc x) ∧ ∀ s, s ∈ f acc x ↔ s ∈ acc ∨ s = x) as [Hx Hx'].
    { unfold f. rewrite existsb_eq_elem_of. case_bool_decide.
      - split; [done|]. naive_solver.
      - split; [|set_solver]. apply NoDup_app. split_and!; [done|set_solver|]. apply NoDup_singleton. }
    destruct (IH _ Hx) as [Hnd Hin]. split; [done|]. intros s. rewrite Hin, Hx'. set_solver. }
  destruct (Hgen [] (NoDup_nil_2)) as [Hnd Hin]. split; [done|]. intros s. rewrite Hin. set_solver.
Qed.

(** ** Witnesses *)

Module RbacExamples.
#[local] Existing Instance golib_errors_model.

Definition alice : DefaultInfo :=
  {| u_Name := "alice"; u_UID := ""; u_Groups := ["dev"]; u_Extra := ∅ |}.

Definition get_pod (ns : string) : AttributesRecord :=
  {| a_User := Some alice; a_Verb := "get"; a_Namespace := ns; a_APIGroup := ""; a_APIVersion := "v1";
     a_Resource := "pods"; a_Subresource := ""; a_Name := "p"; a_ResourceRequest := true; a_Path := "" |}.

Definition reader : PolicyRule :=
  {| Verbs := ["get"]; APIGroups := []; Resources := ["pods"]; ResourceNames := []; NonResourceURLs := [] |}.

Definition reader_role : Role :=
  {| role_Meta := {| m_Name := "reader"; m_Namespace := "ns1" |}; role_Rules := [reader] |}.

Definition binding : RoleBinding := RoleBindingBuilder_Groups (NewRoleBinding "reader" "ns1") ["dev"].

Definition listers : Listers :=
  {| l_Role_Get name := if name == "reader" then inl reader_role else inr (Errorf "not found" []);
     l_RoleBinding_List := inl [binding; binding];
     l_ClusterRole_Get _ := inr (Errorf "not found" []);
     l_ClusterRoleBinding_List := inl [] |}.

Definition statics : StaticRoles :=
  {| st_roles := [reader_role]; st_roleBindings := [binding]; st_clusterRoles := [];
     st_clusterRoleBindings := [] |}.

Definition print (e : error) : string := "error".

Lemma RBAC_Authorize_spec_witness :
  ∃ d reason err, RBACAuthorizer_Authorize print (newMockRuleResolver statics) (get_pod "ns1") =
    Ret (Verdict d reason err) ∧ d ≠ DecisionDeny.
Proof.
  destruct (RBAC_Authorize_spec print (newMockRuleResolver statics) alice (get_pod "ns1") eq_refl)
    as (d & reason & err & H & Hd & _). exists d, reason, err. split; [exact H|exact Hd].
Defined.

Lemma RBAC_Authorize_RulesFor_witness :
  ∃ rules err, RulesFor (newMockRuleResolver statics) (Some alice) "ns1" = Ret (rules, err) ∧
    ∀ rule, rule ∈ rules ↔ granted (newMockRuleResolver statics) alice "ns1" rule.
Proof.
  destruct (RBAC_Authorize_RulesFor print (newMockRuleResolver statics) alice (get_pod "ns1") eq_refl)
    as (rules & err & reason & H & Hg & _). exists rules, err. split; [exact H|exact Hg].
Defined.

Lemma AllowedSubjects_correct_witness :
  (∃ reason, RBACAuthorizer_Authorize print (newMockRuleResolver statics) (get_pod "ns1") =
             Ret (Verdict DecisionAllow reason None)) ∧
  ∃ s, s ∈ (AllowedSubjects "root" (newMockRuleResolver statics) (get_pod "ns1")).1 ∧
       user_matches alice s "ns1".
Proof.
  destruct (AllowedSubjects_correct print "root" (newMockRuleResolver statics) alice (get_pod "ns1")
              eq_refl) as [H _].
  assert (∃ reason, RBACAuthorizer_Authorize print (newMockRuleResolver statics) (get_pod "ns1") =
                    Ret (Verdict DecisionAllow reason None)) as Hallow
    by (eexists; vm_compute; reflexivity).
  split; [exact Hallow|]. exact (H Hallow).
Defined.

(** The user is granted the rule of the ns1 binding in ns1, hence in ns2. *)
Lemma rbac_New_ignores_namespace_witness : granted (rbac_New listers) alice "ns2" reader.
Proof.
  apply (rbac_New_ignores_namespace listers [binding; binding] alice "ns1" "ns2" reader);
    [done| |done|done|].
  - repeat constructor; done.
  - right. split; [done|]. eexists. split; [done|]. exists binding, (groupSubject "dev"), [reader].
    split_and!; [set_solver|set_solver|right; left; split; [done|set_solver]|done|set_solver].
Defined.

Lemma StaticRoles_namespaced_witness :
  ∃ b s rules, b ∈ st_roleBindings statics ∧ m_Namespace (rb_Meta b) = "ns1" ∧ s ∈ rb_Subjects b ∧
    user_matches alice s "ns1" ∧
    GetRoleReferenceRules (newMockRuleResolver statics) (rb_RoleRef b) "ns1" = inl rules ∧ reader ∈ rules.
Proof.
  destruct (StaticRoles_namespaced statics alice "ns1" reader) as [(b & ? & ? & Hb & _)|H].
  - right. split; [done|]. eexists. split; [vm_compute; reflexivity|].
    exists binding, (groupSubject "dev"), [reader].
    split_and!; [set_solver|set_solver|right; left; split; [done|set_solver]|done|set_solver].
  - exfalso. set_solver.
  - exact H.
Defined.
End RbacExamples.

(** [AllowedSubjects] drops duplicates into a list it does not return: when
    two bindings name the same subject its result has the subject twice, though
    the deduplicated list it computed has not. *)
Theorem AllowedSubjects_duplicates :
  ∃ l a, let subjects := (@AllowedSubjects golib_errors_model "" (rbac_New l) a).1 in
    ¬ NoDup subjects ∧ NoDup (dedup subjects) ∧ ∀ s, s ∈ dedup subjects ↔ s ∈ subjects.
Proof.
  exists RbacExamples.listers, (RbacExamples.get_pod "ns1"). intros subjects.
  split; [|apply dedup_spec].
  assert (subjects = presetSubjects "" ++ [groupSubject "dev"; groupSubject "dev"]) as ->
    by (vm_compute; reflexivity).
  rewrite NoDup_app. intros (_ & _ & Hnd%NoDup_cons). destruct Hnd as [Hnd _]. apply Hnd. set_solver.
Qed.
