(* ===== verification/RbacFile.v ===== *)
(** * The file-backed RBAC store

    Models plugin/authorizer/rbac/file: loading the objects of a directory
    (file.go), sorting them by name and looking them up by binary search (role.go,
    rolebinding.go, clusterrole.go, clusterrolebinding.go), and the listers
    [rbac.New] is given.  The YAML decoder is golib's and a parameter; a
    directory is given by what reading it returns.  sort.Slice does not fix the
    order of equal elements, so sorting is a parameter too, with the two facts the
    standard library documents. *)

From S2P Require Import Prelude GoStrings Authorizer RbacTypes Rbac.

Local Open Scope go_scope.

(** ** Parameters *)

Class Yaml := {
  yaml_docs : string → list string * option error;  (* the documents before EOF or an error *)
  yaml_Kind : string → string + error;              (* Unmarshal into TypeMeta *)
  yaml_Role : string → Role + error;
  yaml_RoleBinding : string → RoleBinding + error;
  yaml_ClusterRole : string → ClusterRole + error;
  yaml_ClusterRoleBinding : string → ClusterRoleBinding + error;
}.

(** sort.Slice(l, func(i, j) { l[i].Name < l[j].Name }). *)
Class SortByName := sort_by_name : ∀ {A}, (A → string) → list A → list A.

Class SortByNameLaws `{SortByName} := {
  sort_by_name_perm {A} (name : A → string) l : sort_by_name name l ≡ₚ l;
  sort_by_name_sorted {A} (name : A → string) l : Sorted String.le (name <$> sort_by_name name l);
}.

(** ** Directories *)

(** An entry of a directory: a file with its contents (or the error of opening
    it), or a directory with what reading it returns. *)
Inductive entry :=
  | EFile (name : string) (content : string + error)
  | EDir (name : string) (sub : list entry + error).

(** filepath.Ext of a file name: from its last dot on. *)
Fixpoint Ext (name : string) : string :=
  match name with
  | EmptyString => ""
  | String a s =>
      let e := Ext s in
      if e != "" then e else if a == "."%char then name else ""
  end.

Record FileStorage := {
  fs_roles : list Role;
  fs_roleBindings : list RoleBinding;
  fs_clusterRoles : list ClusterRole;
  fs_clusterRoleBindings : list ClusterRoleBinding;
}.

Definition FileStorage_empty : FileStorage :=
  {| fs_roles := []; fs_roleBindings := []; fs_clusterRoles := []; fs_clusterRoleBindings := [] |}.

Section load.
Context `{Yaml}.

Definition parsing (source : string) (err : error) : error := ErrorWrap "error parsing %s: %v" [source] err.

Definition loadConfig (p : FileStorage) (data source : string) : FileStorage + error :=
  match yaml_Kind data with
  | inr err => inr (parsing source err)
  | inl kind =>
      if kind == "Role" then
        match yaml_Role data with
        | inr err => inr (parsing source err)
        | inl obj =>
            inl {| fs_roles := fs_roles p ++ [obj]; fs_roleBindings := fs_roleBindings p;
                   fs_clusterRoles := fs_clusterRoles p; fs_clusterRoleBindings := fs_clusterRoleBindings p |}
        end
      else if kind == "RoleBinding" then
        match yaml_RoleBinding data with
        | inr err => inr (parsing source err)
        | inl obj =>
            inl {| fs_roles := fs_roles p; fs_roleBindings := fs_roleBindings p ++ [obj];
                   fs_clusterRoles := fs_clusterRoles p; fs_clusterRoleBindings := fs_clusterRoleBindings p |}
        end
      else if kind == "ClusterRole" then
        match yaml_ClusterRole data with
        | inr err => inr (parsing source err)
        | inl obj =>
            inl {| fs_roles := fs_roles p; fs_roleBindings := fs_roleBindings p;
                   fs_clusterRoles := fs_clusterRoles p ++ [obj];
                   fs_clusterRoleBindings := fs_clusterRoleBindings p |}
        end
      else if kind == "ClusterRoleBinding" then
        match yaml_ClusterRoleBinding data with
        | inr err => inr (parsing source err)
        | inl obj =>
            inl {| fs_roles := fs_roles p; fs_roleBindings := fs_roleBindings p;
                   fs_clusterRoles := fs_clusterRoles p;
                   fs_clusterRoleBindings := fs_clusterRoleBindings p ++ [obj] |}
        end
      else inl p
  end.

(** The loop over the documents of a file. *)
Fixpoint loadDocs (p : FileStorage) (docs : list string) (final : option error) (absPath : string)
    : FileStorage + error :=
  match docs with
  | [] => match final with None => inl p | Some err => inr (parsing absPath err) end
  | raw :: rest =>
      let raw := TrimSpace raw in
      if (slen raw =? 0) || (raw == "null") then loadDocs p rest final absPath
      else match loadConfig p raw absPath with
      | inl p => loadDocs p rest final absPath
      | inr err => inr err
      end
  end.

Definition loadFile (p : FileStorage) (fileName : string) (content : string + error) (path : string)
    : FileStorage + error :=
  let ext := Ext fileName in
  let absPath := path +:+ "/" +:+ fileName in
  if (ext != ".yaml") && (ext != ".yml") then inl p
  else match content with
  | inr err => inr err
  | inl data => let '(docs, final) := yaml_docs data in loadDocs p docs final absPath
  end.

(** The loop over the entries, with what a subdirectory does ([None]: skipped). *)
Fixpoint loadEntries (sub : option (FileStorage → string → list entry + error → FileStorage + error))
    (p : FileStorage) (path : string) (entries : list entry) : FileStorage + error :=
  match entries with
  | [] => inl p
  | EDir name d :: rest =>
      match sub with
      | Some f =>
          match f p (path +:+ "/" +:+ name) d with
          | inl p => loadEntries sub p path rest
          | inr err => inr err
          end
      | None => loadEntries sub p path rest
      end
  | EFile name content :: rest =>
      match loadFile p name content path with
      | inl p => loadEntries sub p path rest
      | inr err => inr err
      end
  end.

Fixpoint loadDir (maxDepth : nat) (p : FileStorage) (path : string) (d : list entry + error)
    : FileStorage + error :=
  match d with
  | inr err => inr err
  | inl entries =>
      loadEntries (match maxDepth with S (S _ as depth) => Some (loadDir depth) | _ => None end)
        p path entries
  end.

Definition FileStorage_sort `{SortByName} (p : FileStorage) : FileStorage :=
  {| fs_roles := sort_by_name (λ r, m_Name (role_Meta r)) (fs_roles p);
     fs_roleBindings := sort_by_name (λ b, m_Name (rb_Meta b)) (fs_roleBindings p);
     fs_clusterRoles := sort_by_name (λ r, m_Name (cr_Meta r)) (fs_clusterRoles p);
     fs_clusterRoleBindings := sort_by_name (λ b, m_Name (crb_Meta b)) (fs_clusterRoleBindings p) |}.

Definition NewFileStorage `{SortByName} (configPath : string) (d : list entry + error)
    : FileStorage + error :=
  match loadDir 1 FileStorage_empty configPath d with
  | inr err => inr err
  | inl p => inl (FileStorage_sort p)
  end.
End load.

(** ** Lookup *)

(** sort.Search: [for i < j { h := (i+j)/2; if !f(h) { i = h+1 } else { j = h } }]. *)
Fixpoint search_loop (fuel : nat) (f : nat → bool) (i j : nat) : nat :=
  match fuel with
  | 0 => i
  | S fuel =>
      if i <? j then
        let h := (i + j) / 2 in
        if negb (f h) then search_loop fuel f (h + 1) j else search_loop fuel f i h
      else i
  end.

(** Each round shrinks [j - i], so [n] rounds are enough. *)
Definition sort_Search (n : nat) (f : nat → bool) : nat := search_loop n f 0 n.

(** The Get methods: roleLister, roleBindingLister, clusterRoleLister and
    clusterRoleBindingLister have the same body. *)
Definition lister_Get {A} (name : A → string) (kind : string) (a : list A) (wanted : string) : A + error :=
  let i := sort_Search (length a)
             (λ i, match a !! i with Some x => bool_decide (String.le wanted (name x)) | None => false end) in
  match a !! i with
  | Some ret => if name ret == wanted then inl ret else inr (Errorf "NotFound" [kind])
  | None => inr (Errorf "NotFound" [kind])
  end.

Definition roleLister_Get (p : FileStorage) := lister_Get (λ r, m_Name (role_Meta r)) "Role" (fs_roles p).
Definition roleBindingLister_Get (p : FileStorage) :=
  lister_Get (λ b, m_Name (rb_Meta b)) "RoleBinding" (fs_roleBindings p).
Definition clusterRoleLister_Get (p : FileStorage) :=
  lister_Get (λ r, m_Name (cr_Meta r)) "ClusterRole" (fs_clusterRoles p).
Definition clusterRoleBindingLister_Get (p : FileStorage) :=
  lister_Get (λ b, m_Name (crb_Meta b)) "ClusterRoleBinding" (fs_clusterRoleBindings p).

Definition file_listers (p : FileStorage) : Listers :=
  {| l_Role_Get := roleLister_Get p;
     l_RoleBinding_List := inl (fs_roleBindings p);
     l_ClusterRole_Get := clusterRoleLister_Get p;
     l_ClusterRoleBinding_List := inl (fs_clusterRoleBindings p) |}.

Definition file_NewRBAC `{Yaml} `{SortByName} (configPath : string) (d : list entry + error)
    : DefaultRuleResolver + error :=
  match NewFileStorage configPath d with
  | inr err => inr err
  | inl f => inl (rbac_New (file_listers f))
  end.

(** ** Theorems *)

(** Binary search: on a predicate that is false then true, the loop stops at the
    boundary. *)
Lemma search_loop_spec fuel (f : nat → bool) i j n :
  (∀ x y, x ≤ y → y < n → f x = true → f y = true) →
  j - i ≤ fuel → i ≤ j → j ≤ n →
  (∀ x, x < i → f x = false) → (∀ x, j ≤ x → x < n → f x = true) →
  let k := search_loop fuel f i j in
  k ≤ n ∧ (∀ x, x < k → f x = false) ∧ (∀ x, k ≤ x → x < n → f x = true).
Proof.
  intros Hmono. revert i j. induction fuel as [|fuel IH]; intros i j Hf Hij Hj Hlo Hhi; cbn [search_loop].
  - assert (i = j) as -> by lia. eauto with lia.
  - destruct (Nat.ltb_spec i j) as [Hlt|Hge]; [|assert (i = j) as -> by lia; eauto with lia].
    assert (i ≤ (i + j) / 2 < j) as [Hh1 Hh2].
    { pose proof (Nat.div_mod (i + j) 2). pose proof (Nat.mod_upper_bound (i + j) 2). lia. }
    set (h := (i + j) / 2) in *. clearbody h. destruct (f h) eqn:Hfh; cbn [negb].
    + apply IH; [lia..|done|]. intros x Hx Hxn. by eapply (Hmono h).
    + apply IH; [lia..| |done]. intros x Hx. destruct (f x) eqn:Hfx; [|done].
      rewrite (Hmono x h) in Hfh; [done|lia|lia|done].
Qed.

Lemma sort_Search_spec n (f : nat → bool) :
  (∀ x y, x ≤ y → y < n → f x = true → f y = true) →
  let k := sort_Search n f in
  k ≤ n ∧ (∀ x, x < k → f x = false) ∧ (∀ x, k ≤ x → x < n → f x = true).
Proof. intros Hmono. apply search_loop_spec; auto with lia. Qed.

Lemma Sorted_lookup_le (l : list string) i j x y :
  Sorted String.le l → i ≤ j → l !! i = Some x → l !! j = Some y → String.le x y.
Proof.
  intros Hs. apply (Sorted_StronglySorted _) in Hs. revert i j.
  induction Hs as [|z l Hs IH Hall]; intros [|i] [|j] Hij Hx Hy; simplify_eq/=; try done; try lia.
  - rewrite Forall_forall in Hall. by eapply Hall, list_elem_of_lookup_2.
  - eapply (IH i j); [lia|done..].
Qed.

(** On a list sorted by name the lookup finds the first object of that name. *)
Lemma lister_Get_spec {A} (name : A → string) kind a wanted :
  Sorted String.le (name <$> a) →
  match lister_Get name kind a wanted with
  | inl x => x ∈ a ∧ name x = wanted
  | inr err => err = Errorf "NotFound" [kind] ∧ ∀ x, x ∈ a → name x ≠ wanted
  end.
Proof.
  intros Hs. unfold lister_Get.
  set (f := λ i, match a !! i with Some x => bool_decide (String.le wanted (name x)) | None => false end).
  assert (∀ i j x y, i ≤ j → a !! i = Some x → a !! j = Some y → String.le (name x) (name y)) as Hle.
  { intros i j x y Hij Hx Hy. eapply (Sorted_lookup_le _ i j); [exact Hs|done|..];
      by rewrite list_lookup_fmap, ?Hx, ?Hy. }
  destruct (sort_Search_spec (length a) f) as (Hk & Hlo & Hhi).
  { intros i j Hij Hj. unfold f. destruct (lookup_lt_is_Some_2 a j Hj) as [y Hy].
    destruct (lookup_lt_is_Some_2 a i) as [x Hx]; [lia|]. rewrite Hx, Hy, !bool_decide_eq_true.
    intros Hw. etrans; [exact Hw|]. by eapply (Hle i j). }
  set (k := sort_Search (length a) f) in *.
  assert (∀ i x, a !! i = Some x → name x = wanted → k ≤ i) as Hge.
  { intros i x Hx Hn. destruct (decide (i < k)) as [Hi|]; [|lia]. apply Hlo in Hi. unfold f in Hi.
    rewrite Hx, bool_decide_eq_false in Hi. destruct Hi. by rewrite Hn. }
  destruct (a !! k) as [ret|] eqn:Hret.
  - case_bool_decide as Hn; [split; [by eapply list_elem_of_lookup_2|done]|].
    split; [done|]. intros x [i Hx]%list_elem_of_lookup_1 Hxn. pose proof (Hge i x Hx Hxn) as Hki.
    apply Hn. apply (anti_symm String.le).
    + rewrite <- Hxn. by eapply (Hle k i).
    + assert (f k = true) as Hfk by (apply Hhi; [done|by eapply lookup_lt_Some]).
      unfold f in Hfk. by rewrite Hret, bool_decide_eq_true in Hfk.
  - split; [done|]. intros x [i Hx]%list_elem_of_lookup_1 Hxn. pose proof (Hge i x Hx Hxn) as Hki.
    apply lookup_ge_None in Hret. apply lookup_lt_Some in Hx. lia.
Qed.

Section file_theorems.
Context `{Yaml} `{SortByNameLaws}.

Lemma NewFileStorage_sorted path d f :
  NewFileStorage path d = inl f →
  ∃ p, loadDir 1 FileStorage_empty path d = inl p ∧ f = FileStorage_sort p.
Proof. unfold NewFileStorage. destruct (loadDir _ _ _ _); naive_solver. Qed.

(** Whatever the order of the files, the store built from a directory answers
    a role lookup with an object of that name if one was loaded, and with a
    NotFound error otherwise: the binary search terminates, stays in range and
    misses nothing. *)
Theorem roleLister_Get_correct path d f p name :
  NewFileStorage path d = inl f → loadDir 1 FileStorage_empty path d = inl p →
  match roleLister_Get f name with
  | inl r => r ∈ fs_roles p ∧ m_Name (role_Meta r) = name
  | inr err => err = Errorf "NotFound" ["Role"] ∧
               ∀ r, r ∈ fs_roles p → m_Name (role_Meta r) ≠ name
  end.
Proof.
  intros (p' & Hp' & ->)%NewFileStorage_sorted Hp. rewrite Hp in Hp'. injection Hp' as <-.
  pose proof (lister_Get_spec (λ r, m_Name (role_Meta r)) "Role"
    (fs_roles (FileStorage_sort p)) name (sort_by_name_sorted _ _)) as Hget.
  fold (roleLister_Get (FileStorage_sort p) name) in Hget.
  destruct (roleLister_Get _ _) as [r|err]; cbn [FileStorage_sort fs_roles] in Hget.
  - by rewrite sort_by_name_perm in Hget.
  - destruct Hget as [-> Hnone]. split; [done|]. intros r Hr. apply Hnone. by rewrite sort_by_name_perm.
Qed.

(** The subdirectories of the configured path are skipped: only its own files
    are read. *)
Lemma loadDir_1_files p path entries :
  loadDir 1 p path (inl entries) =
  loadEntries None p path (filter (λ e, match e with EFile _ _ => true | EDir _ _ => false end = true) entries).
Proof.
  cbn [loadDir]. revert p.
  induction entries as [|[name c|name d] entries IH]; intros p; [done|..].
  - rewrite filter_cons_True by done. cbn [loadEntries]. destruct (loadFile p name c path); [apply IH|done].
  - rewrite filter_cons_False by done. apply IH.
Qed.
End file_theorems.

(** ** Witness *)

Module RbacFileExamples.
Definition insert_by {A} (name : A → string) (l : list A) : list A :=
  merge_sort (λ x y, String.le (name x) (name y)) l.
#[local] Instance sorter : SortByName := @insert_by.

Lemma sorter_laws : @SortByNameLaws sorter.
Proof.
  split.
  - intros A name l. apply merge_sort_Permutation.
  - intros A name l. unfold sort_by_name, sorter, insert_by.
    assert (Sorted (λ x y, String.le (name x) (name y))
              (merge_sort (λ x y, String.le (name x) (name y)) l)) as Hs.
    { apply Sorted_merge_sort. intros x y. apply (total String.le). }
    induction Hs as [|x l' Hs IH Hd]; simpl; constructor; [done|]. by destruct Hd; constructor.
Qed.

(** A toy encoding: a document is "kind name". *)
Definition word (n : nat) (s : string) : string := default "" (Split s " "%char !! n).
Definition meta (s : string) : ObjectMeta := {| m_Name := word 1 s; m_Namespace := "" |}.
Definition no_ref : RoleRef := {| ref_APIGroup := ""; ref_Kind := ""; ref_Name := "" |}.
#[local] Instance toy_yaml : Yaml := {|
  yaml_docs s := (Split s ";"%char, None);
  yaml_Kind s := inl (word 0 s);
  yaml_Role s := inl {| role_Meta := meta s; role_Rules := [] |};
  yaml_RoleBinding s := inl {| rb_Meta := meta s; rb_Subjects := []; rb_RoleRef := no_ref |};
  yaml_ClusterRole s := inl {| cr_Meta := meta s; cr_Rules := [] |};
  yaml_ClusterRoleBinding s := inl {| crb_Meta := meta s; crb_Subjects := []; crb_RoleRef := no_ref |};
|}.

Definition dir : list entry + error :=
  inl [EFile "a.yaml" (inl "Role zed;Role bob"); EDir "sub" (inl [EFile "c.yaml" (inl "Role eve")]);
       EFile "b.yml" (inl "Role amy;null"); EFile "notes.txt" (inl "Role tom")].

Definition loaded : FileStorage :=
  match NewFileStorage "/etc" dir with inl f => f | inr _ => FileStorage_empty end.
Definition unsorted : FileStorage :=
  match loadDir 1 FileStorage_empty "/etc" dir with inl f => f | inr _ => FileStorage_empty end.

Lemma roleLister_Get_correct_witness :
  roleLister_Get loaded "bob" = inl {| role_Meta := {| m_Name := "bob"; m_Namespace := "" |}; role_Rules := [] |} ∧
  match roleLister_Get loaded "eve" with
  | inl r => r ∈ fs_roles unsorted ∧ m_Name (role_Meta r) = "eve"
  | inr err => err = Errorf "NotFound" ["Role"] ∧
               ∀ r, r ∈ fs_roles unsorted → m_Name (role_Meta r) ≠ "eve"
  end.
Proof.
  split; [vm_compute; reflexivity|].
  apply (@roleLister_Get_correct toy_yaml sorter sorter_laws "/etc" dir loaded unsorted "eve");
    vm_compute; reflexivity.
Defined.
End RbacFileExamples.
