(* ===== verification/Abac.v ===== *)
(** * The ABAC authorizer

    Models plugin/authorizer/abac: the policy type with its validation (api/types.go),
    the loading of a policy file and the matching of a request (abac.go), and the
    configuration check and factory of register/abac.go.  The JSON decoder is
    golib's scheme.Decoder and a parameter; the file is given by the lines
    bufio.Scanner returns and its final error. *)

From S2P Require Import Prelude GoStrings Authorizer.

Local Open Scope go_scope.

(** ** Policies *)

Record PolicySpec := {
  User : string;
  Group : string;
  Readonly : bool;
  APIGroup : string;
  Resource : string;
  Namespace : string;
  NonResourcePath : string;
}.

Record Policy := { Kind : string; Spec : PolicySpec }.

Definition Policy_Validate (p : Policy) : option error :=
  if (User (Spec p) == "") && (Group (Spec p) == "")
  then Some (Errorf "user and group both empty" []) else None.

(** ValidateV0 fills the defaults of the unversioned format in place; its error is
    always nil. *)
Definition PolicySpec_ValidateV0 (p : PolicySpec) : PolicySpec :=
  {| User := User p;
     Group := if (User p == "") && (Group p == "") then "system:authenticated" else Group p;
     Readonly := Readonly p;
     APIGroup := "*";
     Resource := if Resource p == "" then "*" else Resource p;
     Namespace := if Namespace p == "" then "*" else Namespace p;
     NonResourcePath := NonResourcePath p |}.

(** ** Loading *)

(** What decoding a line into an empty object leaves in it, or the error. *)
Class PolicyDecoder := {
  Decode_Policy : string → Policy + error;
  Decode_PolicySpec : string → PolicySpec + error;
}.

Record policyLoadError := {
  ple_path : string;
  ple_line : Z;
  ple_data : string;
  ple_err : error;
}.

Inductive load_error := OpenError (err : error) | LoadError (e : policyLoadError).

Section load.
Context `{PolicyDecoder}.

Definition skipped (line : string) : bool :=
  let trimmed := TrimSpace line in (slen trimmed =? 0) || HasPrefix trimmed "#".

Definition decodePolicy (b : string) : Policy + error :=
  let old :=
    match Decode_PolicySpec b with
    | inr err => inr err
    | inl oldPolicy => inl {| Kind := ""; Spec := PolicySpec_ValidateV0 oldPolicy |}
    end in
  match Decode_Policy b with
  | inr _ => old
  | inl decodedPolicy => if bool_decide (is_Some (Policy_Validate decodedPolicy)) then old else inl decodedPolicy
  end.

(** The scanning loop; [i] is the number of the last line read. *)
Fixpoint scanPolicies (path : string) (lines : list string) (scanErr : option error) (i : Z)
    (pl : list Policy) : list Policy + load_error :=
  match lines with
  | [] =>
      match scanErr with
      | Some err => inr (LoadError {| ple_path := path; ple_line := -1; ple_data := ""; ple_err := err |})
      | None => inl pl
      end
  | b :: rest =>
      let i := (i + 1)%Z in
      if skipped b then scanPolicies path rest scanErr i pl
      else match decodePolicy b with
      | inr err => inr (LoadError {| ple_path := path; ple_line := i; ple_data := b; ple_err := err |})
      | inl p => scanPolicies path rest scanErr i (pl ++ [p])
      end
  end.

(** [file] is what os.Open and the scanner give: the open error, or the lines
    and the scanner's final error. *)
Definition NewFromFile (path : string) (file : (list string * option error) + error)
    : list Policy + load_error :=
  match file with
  | inr err => inr (OpenError (ErrorWrap "open --authorization-policy-file=%s error %s" [path] err))
  | inl (lines, scanErr) => scanPolicies path lines scanErr 0 []
  end.

(** register/abac.go *)
Definition abac_config_Validate `{UtilErrors} (modeValid : bool) (policyFile : string) : option error :=
  NewAggregate
    ((if policyFile == "" then [Errorf "authorization-mode ABAC's authorization config file not passed" []]
      else []) ++
     (if modeValid then [] else [Errorf "cannot specify --authorization-policy-file without mode ABAC" []])).

Definition abac_factory (registered : list Policy) (path : string)
    (file : (list string * option error) + error) : list Policy + load_error :=
  match NewFromFile path file with inr err => inr err | inl p => inl (registered ++ p) end.
End load.

(** ** Matching *)

Definition subjectMatches (p : Policy) (user : option DefaultInfo) : bool :=
  match user with
  | None => false
  | Some u =>
      let userPart : option bool := (* None: return false *)
        if 0 <? slen (User (Spec p)) then
          if User (Spec p) == "*" then Some true
          else if User (Spec p) == u_Name u then Some true else None
        else Some false in
      match userPart with
      | None => false
      | Some matched =>
          if 0 <? slen (Group (Spec p)) then
            if Group (Spec p) == "*" then true
            else existsb (λ group, Group (Spec p) == group) (u_Groups u)
          else matched
      end
  end.

Definition verbMatches (p : Policy) (a : AttributesRecord) : bool :=
  if AttributesRecord_IsReadOnly a then true else if negb (Readonly (Spec p)) then true else false.

Definition nonResourceMatches (p : Policy) (a : AttributesRecord) : bool :=
  let path := NonResourcePath (Spec p) in
  if negb (a_ResourceRequest a) then
    if path == "*" then true
    else if path == a_Path a then true
    else HasSuffix path "*" && HasPrefix (a_Path a) (TrimRight path (is_byte "*"%char))
  else false.

Definition resourceMatches (p : Policy) (a : AttributesRecord) : bool :=
  if a_ResourceRequest a then
    if (Namespace (Spec p) == "*") || (Namespace (Spec p) == a_Namespace a) then
      if (Resource (Spec p) == "*") || (Resource (Spec p) == a_Resource a) then
        (APIGroup (Spec p) == "*") || (APIGroup (Spec p) == a_APIGroup a)
      else false
    else false
  else false.

Definition matches (p : Policy) (a : AttributesRecord) : bool :=
  if subjectMatches p (a_User a) then
    if verbMatches p a then
      if resourceMatches p a then true else nonResourceMatches p a
    else false
  else false.

Definition PolicyList_Authorize (pl : list Policy) (a : AttributesRecord) : verdict :=
  if existsb (λ p, matches p a) pl then Verdict DecisionAllow "" None
  else Verdict DecisionNoOpinion "No policy matched." None.

Definition getVerbs (isReadOnly : bool) : list string :=
  if isReadOnly then ["get"; "list"; "watch"] else ["*"].

(** The body of the loop of RulesFor on one policy. *)
Definition policy_applies (user : option DefaultInfo) (namespace : string) (p : Policy) : bool :=
  subjectMatches p user && ((Namespace (Spec p) == "*") || (Namespace (Spec p) == namespace)).

Definition policy_resourceRule (p : Policy) : option DefaultResourceRuleInfo :=
  if 0 <? slen (Resource (Spec p))
  then Some {| rr_Verbs := getVerbs (Readonly (Spec p)); rr_APIGroups := [APIGroup (Spec p)];
               rr_Resources := [Resource (Spec p)]; rr_ResourceNames := [] |}
  else None.

Definition policy_nonResourceRule (p : Policy) : option DefaultNonResourceRuleInfo :=
  if 0 <? slen (NonResourcePath (Spec p))
  then Some {| nr_Verbs := getVerbs (Readonly (Spec p)); nr_NonResourceURLs := [NonResourcePath (Spec p)] |}
  else None.

Definition PolicyList_RulesFor (pl : list Policy) : RuleResolver := λ user namespace,
  let applying := filter (λ p, policy_applies user namespace p = true) pl in
  RulesResult (omap policy_resourceRule applying) (omap policy_nonResourceRule applying) false None.

(** ** Theorems *)

(** *** What a policy says, declaratively *)

Definition wild (pattern value : string) : Prop := pattern = "*" ∨ pattern = value.

(** At least one of user and group is set, and each that is set matches. *)
Definition subject_ok (p : PolicySpec) (u : DefaultInfo) : Prop :=
  (User p ≠ "" ∨ Group p ≠ "") ∧
  (User p = "" ∨ wild (User p) (u_Name u)) ∧
  (Group p = "" ∨ Group p = "*" ∨ Group p ∈ u_Groups u).

Definition policy_allows (p : PolicySpec) (a : AttributesRecord) : Prop :=
  (∃ u, a_User a = Some u ∧ subject_ok p u) ∧
  (Readonly p = true → a_Verb a ∈ ["get"; "list"; "watch"]) ∧
  if a_ResourceRequest a
  then wild (Namespace p) (a_Namespace a) ∧ wild (Resource p) (a_Resource a) ∧ wild (APIGroup p) (a_APIGroup a)
  else wild (NonResourcePath p) (a_Path a) ∨
       ∃ stem rest, NonResourcePath p = stem +:+ "*" ∧
         a_Path a = TrimRight (NonResourcePath p) (is_byte "*"%char) +:+ rest.

Lemma wild_decide pattern value :
  (pattern == "*") || (pattern == value) = true ↔ wild pattern value.
Proof. unfold wild. rewrite orb_true_iff, !bool_decide_eq_true. done. Qed.

Lemma subjectMatches_spec p u : subjectMatches p (Some u) = true ↔ subject_ok (Spec p) u.
Proof.
  unfold subjectMatches, subject_ok, wild.
  rewrite !slen_pos, existsb_eq_elem_of_r.
  destruct (decide (User (Spec p) = "")); repeat case_bool_decide; simplify_eq/=; intuition congruence.
Qed.

Lemma IsReadOnly_spec a : AttributesRecord_IsReadOnly a = true ↔ a_Verb a ∈ ["get"; "list"; "watch"].
Proof.
  unfold AttributesRecord_IsReadOnly. rewrite !orb_true_iff, !bool_decide_eq_true. set_solver.
Qed.

Lemma verbMatches_spec p a :
  verbMatches p a = true ↔ (Readonly (Spec p) = true → a_Verb a ∈ ["get"; "list"; "watch"]).
Proof.
  unfold verbMatches. rewrite <- IsReadOnly_spec.
  destruct (AttributesRecord_IsReadOnly a), (Readonly (Spec p)); intuition congruence.
Qed.

Lemma matches_spec p a : matches p a = true ↔ policy_allows (Spec p) a.
Proof.
  unfold matches, policy_allows.
  destruct (a_User a) as [u|] eqn:Hu; [|simpl; naive_solver].
  assert ((∃ u0, Some u = Some u0 ∧ subject_ok (Spec p) u0) ↔ subjectMatches p (Some u) = true) as ->.
  { rewrite subjectMatches_spec. naive_solver. }
  rewrite <- verbMatches_spec.
  destruct (subjectMatches p (Some u)); [|intuition congruence].
  destruct (verbMatches p a); [|intuition congruence].
  unfold resourceMatches, nonResourceMatches. destruct (a_ResourceRequest a); simpl.
  - rewrite <- !wild_decide. repeat case_match; intuition congruence.
  - unfold wild. case_bool_decide; [tauto|]. case_bool_decide; [tauto|].
    rewrite andb_true_iff, HasSuffix_spec, HasPrefix_spec. naive_solver.
Qed.

(** The authorizer allows a request exactly when some policy of the list says
    so (each of user and group that is set matches and at least one is set, a
    read-only policy only for get, list and watch, a resource policy on namespace,
    resource and group with "*" wildcards, a path policy exactly, by "*" or by a
    trailing "*"); otherwise it has no opinion, and it never denies or fails. *)
Theorem abac_Authorize_spec pl a :
  let v := PolicyList_Authorize pl a in
  v_err v = None ∧
  (v_decision v = DecisionAllow ∧ (∃ p, p ∈ pl ∧ policy_allows (Spec p) a) ∨
   v_decision v = DecisionNoOpinion ∧ ∀ p, p ∈ pl → ¬ policy_allows (Spec p) a).
Proof.
  unfold PolicyList_Authorize. destruct (existsb _ pl) eqn:He; simpl; (split; [done|]).
  - left. split; [done|]. apply existsb_elem_of in He as (p & Hp & Hm).
    exists p. split; [done|]. by apply matches_spec.
  - right. split; [done|]. intros p Hp. rewrite <- matches_spec, not_true_iff_false.
    by eapply existsb_false_iff in He.
Qed.

(** The resource rules reported for a user in a namespace are exact: a request
    for a named resource is allowed precisely when a reported rule has its verb (or
    "*"), its group (or "*") and its resource (or "*"). *)
Theorem abac_RulesFor_exact pl u a :
  a_User a = Some u → a_ResourceRequest a = true → a_Resource a ≠ "" →
  v_decision (PolicyList_Authorize pl a) = DecisionAllow ↔
  ∃ r, r ∈ rs_resource (PolicyList_RulesFor pl (Some u) (a_Namespace a)) ∧
    ("*" ∈ rr_Verbs r ∨ a_Verb a ∈ rr_Verbs r) ∧
    ("*" ∈ rr_APIGroups r ∨ a_APIGroup a ∈ rr_APIGroups r) ∧
    ("*" ∈ rr_Resources r ∨ a_Resource a ∈ rr_Resources r).
Proof.
  intros Hu Hres Hname.
  assert (v_decision (PolicyList_Authorize pl a) = DecisionAllow ↔ ∃ p, p ∈ pl ∧ matches p a = true) as ->.
  { rewrite <- existsb_elem_of. unfold PolicyList_Authorize. by destruct (existsb _ pl). }
  simpl. setoid_rewrite list_elem_of_omap. setoid_rewrite list_elem_of_filter.
  setoid_rewrite matches_spec. unfold policy_allows. rewrite Hres, Hu. unfold policy_applies, policy_resourceRule.
  split.
  - intros (p & Hp & (u' & [= <-] & Hsub) & Hverb & Hns & Hr & Hg).
    eexists. split; [exists p; split; [split; [|done]|]|].
    + by rewrite andb_true_iff, wild_decide, subjectMatches_spec.
    + rewrite slen_pos, bool_decide_false by (destruct Hr as [->| ->]; done). done.
    + simpl. unfold wild in *. split_and!; [|set_solver..].
      destruct (Readonly (Spec p)); [|set_solver]. right. by apply Hverb.
  - intros (r & (p & [Happ Hp] & Hr) & Hv & Hg & Hrs). exists p. split; [done|].
    rewrite andb_true_iff, wild_decide, subjectMatches_spec in Happ. destruct Happ as [Hsub Hns].
    destruct (0 <? slen _); [|done]. injection Hr as <-. simpl in *.
    split_and!; [by exists u| |done|unfold wild; set_solver..].
    intros Hro. rewrite Hro in Hv. destruct Hv as [Hv|Hv]; [|done]. exfalso. cbn in Hv. set_solver.
Qed.

(** *** Loading *)

Section load_theorems.
Context `{PolicyDecoder}.

Lemma decodePolicy_valid b p : decodePolicy b = inl p → Policy_Validate p = None.
Proof.
  unfold decodePolicy. set (old := match Decode_PolicySpec b with inr err => _ | inl o => _ end).
  assert (old = inl p → Policy_Validate p = None) as Hold.
  { unfold old. destruct (Decode_PolicySpec b) as [o|]; [|done]. intros [= <-].
    unfold Policy_Validate. simpl. repeat case_bool_decide; simplify_eq/=; done. }
  destruct (Decode_Policy b) as [p'|]; [|done]. case_bool_decide as Hv; [done|].
  intros [= ->]. destruct (Policy_Validate p); [|done]. destruct Hv. by eexists.
Qed.

Lemma scanPolicies_spec path lines scanErr i pl :
  match scanPolicies path lines scanErr i pl with
  | inl pl' =>
      scanErr = None ∧
      ∃ ps, pl' = pl ++ ps ∧
        Forall2 (λ b p, decodePolicy b = inl p) (filter (λ b, skipped b = false) lines) ps
  | inr (LoadError e) =>
      ple_line e = (-1)%Z ∧ scanErr = Some (ple_err e) ∨
      ∃ n b, ple_line e = (i + Z.of_nat n + 1)%Z ∧ lines !! n = Some b ∧ ple_data e = b ∧
        skipped b = false ∧ decodePolicy b = inr (ple_err e)
  | inr (OpenError _) => False
  end.
Proof.
  revert i pl. induction lines as [|b lines IH]; intros i pl; simpl.
  - destruct scanErr; [by left|]. split; [done|]. exists []. by rewrite app_nil_r.
  - destruct (skipped b) eqn:Hskip; [|destruct (decodePolicy b) as [p|err] eqn:Hdec].
    + specialize (IH (i + 1)%Z pl). rewrite filter_cons_False by congruence.
      destruct (scanPolicies _ _ _ _ _) as [pl'|[|e]]; [done..|].
      destruct IH as [?|(n & b' & ? & ?)]; [by left|]. right. exists (S n), b'. split; [lia|done].
    + specialize (IH (i + 1)%Z (pl ++ [p])). rewrite filter_cons_True by done.
      destruct (scanPolicies _ _ _ _ _) as [pl'|[|e]]; [|done|].
      * destruct IH as (-> & ps & -> & Hps). split; [done|]. exists (p :: ps).
        split; [by rewrite <- app_assoc|]. by constructor.
      * destruct IH as [?|(n & b' & ? & ?)]; [by left|]. right. exists (S n), b'. split; [lia|done].
    + right. exists 0, b. simpl. split; [lia|done].
Qed.

(** Loading a policy file reads every line that is neither blank nor a
    comment into exactly one policy, in order, each with a user or a group; a
    line that decodes in neither format fails the load with its 1-based number
    and its text. *)
Theorem NewFromFile_spec path lines scanErr :
  match NewFromFile path (inl (lines, scanErr)) with
  | inl pl =>
      scanErr = None ∧
      length pl = length (filter (λ b, skipped b = false) lines) ∧
      ∀ p, p ∈ pl → Policy_Validate p = None
  | inr (LoadError e) =>
      ple_line e = (-1)%Z ∧ scanErr = Some (ple_err e) ∨
      ∃ n b, ple_line e = (Z.of_nat n + 1)%Z ∧ lines !! n = Some b ∧ ple_data e = b ∧
        skipped b = false ∧ decodePolicy b = inr (ple_err e)
  | inr (OpenError _) => False
  end.
Proof.
  simpl. pose proof (scanPolicies_spec path lines scanErr 0 []) as Hscan.
  destruct (scanPolicies path lines scanErr 0 []) as [pl|[|e]]; [|done|exact Hscan].
  destruct Hscan as (-> & ps & -> & Hps). split; [done|]. simpl.
  split; [by rewrite (Forall2_length _ _ _ Hps)|]. intros p [i Hp]%list_elem_of_lookup_1.
  eapply Forall2_lookup_r in Hps as (b & _ & Hdec); [|done]. by eapply decodePolicy_valid.
Qed.

(** A line in the versioned format whose spec names neither a user nor a group
    is not rejected: read again as an unversioned spec without fields it becomes
    a policy that lets every user in the group system:authenticated do anything
    to any resource. *)
Theorem subjectless_policy_allows_all path line p old :
  skipped line = false →
  Decode_Policy line = inl p → User (Spec p) = "" → Group (Spec p) = "" →
  Decode_PolicySpec line = inl old →
  User old = "" → Group old = "" → Readonly old = false → Resource old = "" → Namespace old = "" →
  ∃ pl, NewFromFile path (inl ([line], None)) = inl pl ∧
    ∀ u a, a_User a = Some u → AllAuthenticated ∈ u_Groups u → a_ResourceRequest a = true →
      v_decision (PolicyList_Authorize pl a) = DecisionAllow.
Proof.
  intros Hskip Hp HpU HpG Hold HU HG HR HRes HNs.
  set (pol := {| Kind := ""; Spec := PolicySpec_ValidateV0 old |}).
  exists [pol]. simpl. rewrite Hskip. unfold decodePolicy. rewrite Hp, Hold.
  rewrite bool_decide_true by (unfold Policy_Validate; rewrite HpU, HpG; by eexists).
  split; [done|]. intros u a Hu Hgroup Hreq.
  assert (matches pol a = true) as Hm.
  { apply matches_spec. unfold policy_allows, subject_ok, wild. simpl.
    rewrite HU, HG, HR, HRes, HNs, Hreq. simpl.
    split_and!; [|done|by left..]. exists u. split; [done|]. split_and!; [by right|by left|].
    by right; right. }
  unfold PolicyList_Authorize. simpl. by rewrite Hm.
Qed.
End load_theorems.

(** ** Witnesses *)

Module AbacExamples.
Definition no_spec : PolicySpec :=
  {| User := ""; Group := ""; Readonly := false; APIGroup := ""; Resource := ""; Namespace := "";
     NonResourcePath := "" |}.

Definition alice_pods : Policy :=
  {| Kind := "Policy";
     Spec := {| User := "alice"; Group := ""; Readonly := true; APIGroup := "*"; Resource := "pods";
                Namespace := "ns1"; NonResourcePath := "" |} |}.

(** A decoder that, like a JSON decoder, ignores the fields the target lacks. *)
#[local] Instance toy_decoder : PolicyDecoder := {|
  Decode_Policy b := if b == "alice" then inl alice_pods else inl {| Kind := "Policy"; Spec := no_spec |};
  Decode_PolicySpec _ := inl no_spec;
|}.

Definition alice : DefaultInfo := {| u_Name := "alice"; u_UID := ""; u_Groups := [AllAuthenticated]; u_Extra := ∅ |}.

Definition request (verb : string) : AttributesRecord :=
  {| a_User := Some alice; a_Verb := verb; a_Namespace := "ns1"; a_APIGroup := ""; a_APIVersion := "v1";
     a_Resource := "pods"; a_Subresource := ""; a_Name := ""; a_ResourceRequest := true; a_Path := "" |}.

Lemma abac_RulesFor_exact_witness :
  ∃ r, r ∈ rs_resource (PolicyList_RulesFor [alice_pods] (Some alice) "ns1") ∧
    ("*" ∈ rr_Verbs r ∨ "get" ∈ rr_Verbs r).
Proof.
  destruct (abac_RulesFor_exact [alice_pods] alice (request "get") eq_refl eq_refl) as [H _]; [done|].
  destruct H as (r & Hr & Hv & _); [vm_compute; reflexivity|]. exists r. split; [exact Hr|exact Hv].
Defined.

Lemma subjectless_policy_allows_all_witness :
  ∃ pl, NewFromFile "f" (inl (["{kind: Policy, spec: {}}"], None)) = inl pl ∧
    v_decision (PolicyList_Authorize pl (request "delete")) = DecisionAllow.
Proof.
  destruct (subjectless_policy_allows_all "f" "{kind: Policy, spec: {}}"
    {| Kind := "Policy"; Spec := no_spec |} no_spec) as (pl & Hpl & Hall); [reflexivity..|].
  exists pl. split; [exact Hpl|]. apply (Hall alice); [reflexivity|set_solver|reflexivity].
Defined.
End AbacExamples.
