(* ===== verification/Authn.v ===== *)
(** * Authentication

    Models pkg/authentication: the authenticator interfaces, audiences and the
    audience-agnostic wrapper (authenticator/), the request and token unions, the
    bearer-token, websocket-protocol and anonymous request authenticators, the
    group adders (group/), and initAuthentication, which composes them
    (authentication.go).

    An authenticator returns a pointer to a Response, which the wrappers update in
    place and a cache may return again.  The model keeps that store: [w_heap] is
    the list of responses allocated so far and an answer carries an index into
    it.  [w_header] is the header of the request at hand, which authenticators
    edit; [w_state] is whatever else they keep.  The request's context is its
    expected audiences, if any. *)

From S2P Require Import Prelude GoStrings GoEncoding Authorizer.

Local Open Scope go_scope.

Record Response := { resp_Audiences : list string; resp_User : option DefaultInfo }.

Record world (S : Type) := World { w_heap : list Response; w_header : Header; w_state : S }.
Arguments World {S} _ _ _.
Arguments w_heap {S} _.
Arguments w_header {S} _.
Arguments w_state {S} _.

(** (response pointer, ok, error) *)
Definition answer : Type := option nat * bool * option error.

Definition Auth (S A : Type) : Type := world S → outcome (A * world S).
#[global] Instance Auth_ret {S} : MRet (Auth S) := λ A a w, Ret (a, w).
#[global] Instance Auth_bind {S} : MBind (Auth S) := λ A B f m w,
  match m w with Ret (a, w') => f a w' | Panic msg => Panic msg end.

Definition context : Type := option (list string).
Definition Token (S : Type) : Type := context → string → Auth S answer.
Definition Request (S : Type) : Type := context → Auth S answer.

Section store.
Context {S : Type}.

Definition new_response (r : Response) : Auth S nat :=
  λ w, Ret (length (w_heap w), World (w_heap w ++ [r]) (w_header w) (w_state w)).

Definition deref (p : option nat) : Auth S (nat * Response) := λ w,
  match p ≫= λ l, pair l <$> w_heap w !! l with
  | Some lr => Ret (lr, w)
  | None => Panic "nil pointer dereference"
  end.

Definition assign (l : nat) (r : Response) : Auth S unit :=
  λ w, Ret (tt, World (<[l := r]> (w_heap w)) (w_header w) (w_state w)).

Definition get_header : Auth S Header := λ w, Ret (w_header w, w).
Definition set_header (h : Header) : Auth S unit := λ w, Ret (tt, World (w_heap w) h (w_state w)).

Definition user_of (r : Response) : Auth S DefaultInfo := λ w,
  match resp_User r with Some u => Ret (u, w) | None => Panic "nil pointer dereference" end.
End store.

(** ** Audiences *)

Definition Audiences_Has (a : list string) (taud : string) : bool := existsb (λ aud, aud == taud) a.

Definition Audiences_Intersect (a tauds : list string) : list string :=
  filter (λ taud, Audiences_Has a taud = true) tauds.

Section authenticators.
Context `{UtilErrors} {S : Type}.

(** audagnostic.go *)
Definition authenticate (ctx : context) (implicitAuds : list string) (run : Auth S answer) : Auth S answer :=
  match ctx with
  | None => run
  | Some targetAuds =>
      let auds := Audiences_Intersect implicitAuds targetAuds in
      if length auds =? 0 then mret (None, false, None)
      else
        '(resp, ok, err) ← run;
        if bool_decide (is_Some err) || negb ok then mret (None, false, err)
        else
          '(l, r) ← deref resp;
          if 0 <? length (resp_Audiences r)
          then mret (None, false,
                 Some (Errorf "audience agnostic authenticator wrapped an authenticator that returned audiences: %q"
                         (resp_Audiences r)))
          else
            _ ← assign l {| resp_Audiences := auds; resp_User := resp_User r |};
            mret (resp, true, None)
  end.

Definition audAgnosticRequest (implicit : list string) (delegate : Request S) : Request S :=
  λ ctx, authenticate ctx implicit (delegate ctx).

Definition audAgnosticToken (implicit : list string) (delegate : Token S) : Token S :=
  λ ctx tok, authenticate ctx implicit (delegate ctx tok).

(** ** Unions

    The request and the token union have the same loop; a handler here is
    already applied to the request, or to the context and the token. *)
Fixpoint unionAuth_loop (failOnError : bool) (handlers : list (Auth S answer)) (errlist : list error)
    : Auth S answer :=
  match handlers with
  | [] => mret (None, false, NewAggregate errlist)
  | curr :: rest =>
      '(resp, ok, err) ← curr;
      match err with
      | Some e =>
          if failOnError then mret (resp, ok, err)
          else unionAuth_loop failOnError rest (errlist ++ [e])
      | None => if (ok : bool) then mret (resp, ok, err) else unionAuth_loop failOnError rest errlist
      end
  end.

Definition unionAuth (failOnError : bool) (handlers : list (Auth S answer)) : Auth S answer :=
  match handlers with
  | [h] => h
  | _ => unionAuth_loop failOnError handlers []
  end.

Definition request_union_New (hs : list (Request S)) : Request S :=
  λ ctx, unionAuth false ((λ h, h ctx) <$> hs).
Definition request_union_NewFailOnError (hs : list (Request S)) : Request S :=
  λ ctx, unionAuth true ((λ h, h ctx) <$> hs).
Definition token_union_New (hs : list (Token S)) : Token S :=
  λ ctx tok, unionAuth false ((λ h, h ctx tok) <$> hs).
Definition token_union_NewFailOnError (hs : list (Token S)) : Token S :=
  λ ctx tok, unionAuth true ((λ h, h ctx tok) <$> hs).

(** ** Bearer tokens *)

Definition invalidToken : error := Errorf "invalid bearer token" [].

(** The token of an Authorization header, if it carries one. *)
Definition bearer_token (h : Header) : option string :=
  let auth := TrimSpace (Header_Get h "Authorization") in
  if auth == "" then None
  else match SplitN auth " "%char 3 with
  | p0 :: token :: _ =>
      if ToLower p0 != "bearer" then None else if slen token =? 0 then None else Some token
  | _ => None
  end.

Definition bearertoken_AuthenticateRequest (auth : Token S) : Request S := λ ctx,
  h ← get_header;
  match bearer_token h with
  | None => mret (None, false, None)
  | Some token =>
      '(resp, ok, err) ← auth ctx token;
      h ← get_header;
      _ ← (if (ok : bool) then set_header (Header_Del h "Authorization") else mret tt);
      let err := if negb ok && bool_decide (err = None) then Some invalidToken else err in
      mret (resp, ok, err)
  end.

(** ** Tokens in a websocket subprotocol *)

Definition bearerProtocolPrefix : string := "base64url.bearer.authorization.k8s.io.".
Definition protocolHeader : string := "Sec-Websocket-Protocol".

(** The loop over the protocols: the token (with whether one was seen) and the
    other protocols, or the error of the early return. *)
Fixpoint scanProtocols (protocols : list string) (token : string) (saw : bool) (filtered : list string)
    : (string * list string) + error :=
  match protocols with
  | [] => inl (token, filtered)
  | protocol :: rest =>
      let protocol := TrimSpace protocol in
      if negb (HasPrefix protocol bearerProtocolPrefix)
      then scanProtocols rest token saw (filtered ++ [protocol])
      else if saw then inr (Errorf "multiple base64.bearer.authorization tokens specified" [])
      else match RawURLEncoding_DecodeString (TrimPrefix protocol bearerProtocolPrefix) with
      | None => inr (Errorf "invalid base64.bearer.authorization token encoding" [])
      | Some decodedToken =>
          if negb (utf8_Valid decodedToken)
          then inr (Errorf "invalid base64.bearer.authorization token" [])
          else scanProtocols rest decodedToken true filtered
      end
  end.

(** [isWebSocket] is golib's wsstream.IsWebSocketRequest on the header. *)
Definition websocket_AuthenticateRequest (isWebSocket : Header → bool) (auth : Token S) : Request S := λ ctx,
  h ← get_header;
  if negb (isWebSocket h) then mret (None, false, None)
  else
    match scanProtocols (Header_Values h protocolHeader ≫= λ v, Split v ","%char) "" false [] with
    | inr err => mret (None, false, Some err)
    | inl (token, filteredProtocols) =>
        if (0 <? slen token) && (length filteredProtocols =? 0)
        then mret (None, false, Some (Errorf "missing additional subprotocol" []))
        else if slen token =? 0 then mret (None, false, None)
        else
          '(resp, ok, err) ← auth ctx token;
          h ← get_header;
          _ ← (if (ok : bool) then set_header (Header_Set h protocolHeader (Join filteredProtocols ","))
               else mret tt);
          let err := if negb ok && bool_decide (err = None) then Some invalidToken else err in
          mret (resp, ok, err)
    end.

(** ** Anonymous requests *)

Definition anonymous_info : DefaultInfo :=
  {| u_Name := Anonymous; u_UID := ""; u_Groups := [AllUnauthenticated]; u_Extra := ∅ |}.

Definition anonymous_AuthenticateRequest : Request S := λ ctx,
  l ← new_response {| resp_Audiences := default [] ctx; resp_User := Some anonymous_info |};
  mret (Some l, true, None).

(** ** Group adders *)

Definition add_groups (u : DefaultInfo) (groups : list string) : DefaultInfo :=
  {| u_Name := u_Name u; u_UID := u_UID u; u_Groups := u_Groups u ++ groups; u_Extra := u_Extra u |}.

(** GroupAdder and TokenGroupAdder, on a delegate applied to its arguments. *)
Definition addGroups (groups : list string) (delegate : Auth S answer) : Auth S answer :=
  '(resp, ok, err) ← delegate;
  if bool_decide (is_Some err) || negb ok then mret (None, ok, err)
  else
    '(l, r) ← deref resp;
    u ← user_of r;
    _ ← assign l {| resp_Audiences := resp_Audiences r; resp_User := Some (add_groups u groups) |};
    mret (resp, true, None).

Definition GroupAdder_AuthenticateRequest (auth : Request S) (groups : list string) : Request S :=
  λ ctx, addGroups groups (auth ctx).
Definition TokenGroupAdder_AuthenticateToken (auth : Token S) (groups : list string) : Token S :=
  λ ctx tok, addGroups groups (auth ctx tok).

Definition AuthenticatedGroupAdder_AuthenticateRequest (auth : Request S) : Request S := λ ctx,
  '(resp, ok, err) ← auth ctx;
  if bool_decide (is_Some err) || negb ok then mret (None, ok, err)
  else
    '(l, r) ← deref resp;
    u ← user_of r;
    if u_Name u == Anonymous then mret (resp, true, None)
    else if existsb (λ group, (group == AllAuthenticated) || (group == AllUnauthenticated)) (u_Groups u)
    then mret (resp, true, None)
    else
      _ ← assign l {| resp_Audiences := resp_Audiences r; resp_User := Some (add_groups u [AllAuthenticated]) |};
      mret (resp, true, None).

(** ** initAuthentication *)

Record Config := {
  TokenSuccessCacheTTL : Z;
  TokenFailureCacheTTL : Z;
  cfg_Anonymous : bool;
}.

(** A factory's result: an authenticator, a nil one, or an error.  The first
    error ends the loop. *)
Fixpoint run_factories {A} (factories : list (option A + error)) (acc : list A) : list A + error :=
  match factories with
  | [] => inl acc
  | inr err :: _ => inr err
  | inl auth :: rest => run_factories rest (acc ++ option_list auth)
  end.

(** [tokencache] is tokencache.New with cacheErrs set, applied to the TTLs;
    [None] is a nil authenticator. *)
Definition initAuthentication (isWebSocket : Header → bool) (tokencache : Token S → Z → Z → Token S)
    (config : Config) (factories : list (option (Request S) + error))
    (tokenFactories : list (option (Token S) + error)) : option (Request S) + error :=
  match run_factories factories [] with
  | inr err => inr err
  | inl authenticators =>
      match run_factories tokenFactories [] with
      | inr err => inr err
      | inl tokenAuthenticators =>
          let authenticators :=
            if 0 <? length tokenAuthenticators then
              let tokenAuth := token_union_New tokenAuthenticators in
              let tokenAuth :=
                if (0 <? TokenSuccessCacheTTL config)%Z || (0 <? TokenFailureCacheTTL config)%Z
                then tokencache tokenAuth (TokenSuccessCacheTTL config) (TokenFailureCacheTTL config)
                else tokenAuth in
              authenticators ++ [bearertoken_AuthenticateRequest tokenAuth;
                                 websocket_AuthenticateRequest isWebSocket tokenAuth]
            else authenticators in
          if length authenticators =? 0 then
            inl (if cfg_Anonymous config then Some anonymous_AuthenticateRequest else None)
          else
            let authenticator :=
              AuthenticatedGroupAdder_AuthenticateRequest (request_union_New authenticators) in
            inl (Some (if cfg_Anonymous config
                       then request_union_NewFailOnError [authenticator; anonymous_AuthenticateRequest]
                       else authenticator))
      end
  end.
End authenticators.

(** ** Theorems *)

Section theorems.
Context `{UtilErrors} {S : Type}.
Implicit Types (w : world S) (h : Auth S answer) (ctx : context).

(** *** Unions *)

(** [passes hs w errs w']: run in order from [w], no handler of [hs] answers ok
    without an error; [errs] are their errors. *)
Inductive passes : list (Auth S answer) → world S → list error → world S → Prop :=
  | passes_nil w : passes [] w [] w
  | passes_cons h hs w resp ok err w1 errs w2 :
      h w = Ret ((resp, ok, err), w1) → (ok = true → err ≠ None) →
      passes hs w1 errs w2 →
      passes (h :: hs) w (option_list err ++ errs) w2.

Lemma unionAuth_loop_passes hs w errs w' rest acc :
  passes hs w errs w' →
  unionAuth_loop false (hs ++ rest) acc w = unionAuth_loop false rest (acc ++ errs) w'.
Proof.
  intros Hp. revert acc. induction Hp as [|h hs w resp ok err w1 errs w2 Hh Hok Hp IH]; intros acc.
  - by rewrite app_nil_r.
  - cbn [app unionAuth_loop]. unfold mbind, Auth_bind. rewrite Hh.
    destruct err as [e|]; [by rewrite IH, <- app_assoc|].
    destruct ok; [by destruct (Hok eq_refl)|]. by rewrite IH.
Qed.

Lemma unionAuth_success pre h post w errs w1 resp w2 :
  passes pre w errs w1 → h w1 = Ret ((resp, true, None), w2) →
  unionAuth false (pre ++ h :: post) w = Ret ((resp, true, None), w2).
Proof.
  intros Hp Hh.
  assert (unionAuth_loop false (pre ++ h :: post) [] w = Ret ((resp, true, None), w2)) as Hloop.
  { erewrite unionAuth_loop_passes by done. cbn [unionAuth_loop]. unfold mbind, Auth_bind. by rewrite Hh. }
  destruct pre as [|p [|]], post; try exact Hloop. by inversion Hp; subst.
Qed.

(** The request union (and the token union, its twin) tries its handlers in
    order: the first that answers ok without an error decides, later ones are
    not run and earlier errors are dropped; if none does, the request is not
    authenticated and the errors of all handlers are aggregated. *)
Theorem request_union_spec (hs : list (Request S)) ctx w errs w' :
  let run := (λ h : Request S, h ctx) <$> hs in
  (∀ pre h post w1 resp, run = pre ++ h :: post → passes pre w errs w1 →
     h w1 = Ret ((resp, true, None), w') → request_union_New hs ctx w = Ret ((resp, true, None), w')) ∧
  (length hs ≠ 1 → passes run w errs w' →
     request_union_New hs ctx w = Ret ((None, false, NewAggregate errs), w')).
Proof.
  intros run. change (request_union_New hs ctx w) with (unionAuth false run w). split.
  - intros pre h post w1 resp Hrun Hp Hh. rewrite Hrun. by eapply unionAuth_success.
  - intros Hlen Hp. assert (length run ≠ 1) as Hrun by (unfold run; by rewrite length_fmap).
    assert (unionAuth false run w = unionAuth_loop false (run ++ []) [] w) as ->.
    { rewrite app_nil_r. by destruct run as [|? []]. }
    by erewrite unionAuth_loop_passes by done.
Qed.

(** *** Bearer tokens *)

(** The bearer authenticator has no opinion, and calls nobody, on a request
    without a bearer token; with one it always answers: the token authenticator
    accepted and the Authorization header is gone, or there is an error. *)
Theorem bearertoken_spec (auth : Token S) ctx w :
  match bearer_token (w_header w) with
  | None => bearertoken_AuthenticateRequest auth ctx w = Ret ((None, false, None), w)
  | Some token =>
      ∀ resp ok err w1, auth ctx token w = Ret ((resp, ok, err), w1) →
        ∃ err' w2, bearertoken_AuthenticateRequest auth ctx w = Ret ((resp, ok, err'), w2) ∧
          (ok = true → err' = err ∧ w_header w2 !! "Authorization" = None) ∧
          (ok = false → is_Some err' ∧ (is_Some err → err' = err) ∧ w2 = w1)
  end.
Proof.
  unfold bearertoken_AuthenticateRequest, mbind, Auth_bind. cbn.
  destruct (bearer_token (w_header w)) as [token|]; [|done].
  intros resp ok err w1 Hauth. rewrite Hauth. destruct ok; simpl.
  - do 2 eexists. split; [done|]. split; [|done]. intros _. split; [done|]. apply lookup_delete_eq.
  - do 2 eexists. split; [done|]. split; [done|]. intros _.
    destruct err; simpl; [by eauto|]. split; [by eexists|]. split; [by intros []|done].
Qed.

(** *** The chain *)

Lemma AuthenticatedGroupAdder_ok (auth : Request S) ctx w resp w' :
  AuthenticatedGroupAdder_AuthenticateRequest auth ctx w = Ret ((resp, true, None), w') →
  ∃ l r u, resp = Some l ∧ w_heap w' !! l = Some r ∧ resp_User r = Some u ∧
    (u_Name u = Anonymous ∨ AllAuthenticated ∈ u_Groups u ∨ AllUnauthenticated ∈ u_Groups u).
Proof.
  unfold AuthenticatedGroupAdder_AuthenticateRequest, mbind, Auth_bind.
  destruct (auth ctx w) as [[[[resp1 ok1] err1] w1]|]; [|done].
  destruct (bool_decide (is_Some err1) || negb ok1) eqn:Hbad.
  { intros Heq. injection Heq as <- -> -> ->. by rewrite bool_decide_false in Hbad by (by intros []). }
  unfold deref. destruct (resp1 ≫= _) as [[l r]|] eqn:Hl; [|done].
  destruct resp1 as [l'|]; [|done]. simpl in Hl. apply fmap_Some in Hl as (r' & Hr & Heq). simplify_eq.
  unfold user_of. destruct (resp_User r') as [u|] eqn:Hu; [|done].
  destruct (decide (u_Name u = Anonymous)) as [Hanon|Hanon].
  { rewrite bool_decide_true by done. intros [= <- <-]. exists l', r', u. auto. }
  rewrite (bool_decide_false (u_Name u = Anonymous)) by done.
  destruct (existsb _ (u_Groups u)) eqn:Hgr.
  - intros [= <- <-]. exists l', r', u. split_and!; [done..|right].
    apply existsb_elem_of in Hgr as (g & Hg & Hor).
    apply orb_true_iff in Hor as [->%bool_decide_eq_true| ->%bool_decide_eq_true]; auto.
  - intros [= <- <-]. do 3 eexists. split; [done|].
    split; [apply list_lookup_insert_eq; by eapply lookup_lt_Some|]. split; [done|].
    right; left. simpl. set_solver.
Qed.

Lemma anonymous_ok ctx w :
  anonymous_AuthenticateRequest ctx w =
  Ret ((Some (length (w_heap w)), true, None),
       World (w_heap w ++ [{| resp_Audiences := default [] ctx; resp_User := Some anonymous_info |}])
             (w_header w) (w_state w)).
Proof. done. Qed.

Lemma run_factories_app {A} (fs : list (option A + error)) acc l :
  run_factories fs acc = inl l → ∃ l', l = acc ++ l'.
Proof.
  revert acc. induction fs as [|[a|e] fs IH]; intros acc; simpl; [|intros Hl|done].
  - intros [= ->]. exists []. by rewrite app_nil_r.
  - apply IH in Hl as [l' ->]. rewrite <- app_assoc. by eexists.
Qed.

(** What initAuthentication builds: nothing, the anonymous authenticator, or the
    group adder over the union of a non-empty list, with the anonymous fallback
    if it is configured. *)
Lemma initAuthentication_shape isWebSocket (tokencache : Token S → Z → Z → Token S) config fs tfs a :
  initAuthentication isWebSocket tokencache config fs tfs = inl (Some a) →
  (cfg_Anonymous config = true ∧ a = anonymous_AuthenticateRequest) ∨
  ∃ auths, auths ≠ [] ∧
    a = let chain := AuthenticatedGroupAdder_AuthenticateRequest (request_union_New auths) in
        if cfg_Anonymous config
        then request_union_NewFailOnError [chain; anonymous_AuthenticateRequest] else chain.
Proof.
  unfold initAuthentication. destruct (run_factories fs []) as [auths|]; [|done].
  destruct (run_factories tfs []) as [toks|]; [|done].
  set (auths' := if 0 <? length toks then _ else auths).
  destruct (Nat.eqb_spec (length auths') 0) as [Hz|Hnz].
  - destruct (cfg_Anonymous config); [|done]. intros [= <-]. by left.
  - intros [= <-]. right. exists auths'. split; [by intros Heq; rewrite Heq in Hnz|done].
Qed.

Lemma failOnError_anonymous (chain : Request S) ctx w :
  request_union_NewFailOnError [chain; anonymous_AuthenticateRequest] ctx w =
  match chain ctx w with
  | Ret ((resp, ok, Some e), w') => Ret ((resp, ok, Some e), w')
  | Ret ((resp, true, None), w') => Ret ((resp, true, None), w')
  | Ret ((resp, false, None), w') => anonymous_AuthenticateRequest ctx w'
  | Panic msg => Panic msg
  end.
Proof.
  unfold request_union_NewFailOnError, unionAuth. cbn [fmap list_fmap unionAuth_loop].
  unfold mbind, Auth_bind. destruct (chain ctx w) as [[[[resp ok] [e|]] w']|]; [by destruct ok| |done].
  by destruct ok.
Qed.

(** Whatever authenticators are configured, a request the server accepts as
    authenticated comes with a user that is system:anonymous or is in one of the
    groups system:authenticated and system:unauthenticated. *)
Theorem initAuthentication_groups isWebSocket (tokencache : Token S → Z → Z → Token S) config fs tfs a ctx w resp w' :
  initAuthentication isWebSocket tokencache config fs tfs = inl (Some a) →
  a ctx w = Ret ((resp, true, None), w') →
  ∃ l r u, resp = Some l ∧ w_heap w' !! l = Some r ∧ resp_User r = Some u ∧
    (u_Name u = Anonymous ∨ AllAuthenticated ∈ u_Groups u ∨ AllUnauthenticated ∈ u_Groups u).
Proof.
  assert (∀ w, anonymous_AuthenticateRequest ctx w = Ret ((resp, true, None), w') →
    ∃ l r u, resp = Some l ∧ w_heap w' !! l = Some r ∧ resp_User r = Some u ∧
    (u_Name u = Anonymous ∨ AllAuthenticated ∈ u_Groups u ∨ AllUnauthenticated ∈ u_Groups u)) as Hanon.
  { intros w1. rewrite anonymous_ok. intros [= <- <-]. do 3 eexists. split; [done|].
    split; [by apply list_lookup_middle|]. split; [done|]. by left. }
  intros [[_ ->]|(auths & _ & ->)]%initAuthentication_shape Hrun; [by eapply Hanon|]. simpl in Hrun.
  destruct (cfg_Anonymous config); [|by eapply AuthenticatedGroupAdder_ok].
  rewrite failOnError_anonymous in Hrun.
  destruct (AuthenticatedGroupAdder_AuthenticateRequest _ ctx w) as [[[[r ok] [e|]] w1]|] eqn:Hchain;
    [by destruct ok| |done].
  destruct ok; [|by eapply Hanon]. simplify_eq. by eapply AuthenticatedGroupAdder_ok.
Qed.

(** With anonymous access enabled, an error of the configured authenticators
    (a bad token, say) is reported and never turned into an anonymous request;
    only a request on which none of them has an opinion becomes anonymous. *)
Theorem initAuthentication_anonymous isWebSocket (tokencache : Token S → Z → Z → Token S) config fs tfs a :
  initAuthentication isWebSocket tokencache config fs tfs = inl (Some a) →
  cfg_Anonymous config = true →
  a = anonymous_AuthenticateRequest ∨
  ∃ auths, auths ≠ [] ∧ ∀ ctx w resp ok err w',
    request_union_New auths ctx w = Ret ((resp, ok, err), w') →
    (is_Some err → a ctx w = Ret ((None, ok, err), w')) ∧
    (ok = false → err = None → a ctx w = anonymous_AuthenticateRequest ctx w').
Proof.
  intros [[_ ->]|(auths & Hne & ->)]%initAuthentication_shape Hanon; [by left|].
  right. exists auths. split; [done|]. rewrite Hanon. intros ctx w resp ok err w' Hrun.
  rewrite failOnError_anonymous.
  unfold AuthenticatedGroupAdder_AuthenticateRequest, mbind, Auth_bind. rewrite Hrun. split.
  - intros [e ->]. rewrite bool_decide_true by (by eexists). by destruct ok.
  - intros -> ->. done.
Qed.
End theorems.

(** *** Responses that are returned more than once *)

Section sharing.
Context {St : Type}.
Implicit Types (w : world St).

(** An authenticator that answers with the same response object each time, as a
    cache does. *)
Definition shared (l : nat) : Auth St answer := λ w, Ret ((Some l, true, None), w).

Fixpoint run_times (n : nat) (m : Auth St answer) : Auth St unit :=
  match n with 0 => mret tt | S n => _ ← m; run_times n m end.

Definition user_at (w : world St) (l : nat) : option DefaultInfo := w_heap w !! l ≫= resp_User.

Lemma run_times_S n m w a w1 : m w = Ret (a, w1) → run_times (S n) m w = run_times n m w1.
Proof. intros Hm. cbn [run_times]. unfold mbind, Auth_bind. by rewrite Hm. Qed.

Lemma addGroups_shared groups l w u :
  user_at w l = Some u →
  ∃ w', addGroups groups (shared l) w = Ret ((Some l, true, None), w') ∧
    user_at w' l = Some (add_groups u groups).
Proof.
  unfold user_at. intros (r & Hr & Hu)%bind_Some. unfold addGroups, mbind, Auth_bind, shared.
  rewrite bool_decide_false by (by intros []). simpl. unfold deref. simpl. rewrite Hr. simpl.
  unfold user_of. rewrite Hu. eexists. split; [done|]. simpl.
  rewrite list_lookup_insert_eq by (by eapply lookup_lt_Some). done.
Qed.

Lemma add_groups_app u g1 g2 : add_groups (add_groups u g1) g2 = add_groups u (g1 ++ g2).
Proof. unfold add_groups. simpl. by rewrite app_assoc. Qed.

(** Over an authenticator that returns a shared (cached) response, GroupAdder
    and TokenGroupAdder edit that response in place: after n requests the user
    carries n copies of the added groups. *)
Theorem GroupAdder_accumulates groups l w u n :
  user_at w l = Some u →
  ∃ w', run_times n (GroupAdder_AuthenticateRequest (λ _, shared l) groups None) w = Ret (tt, w') ∧
    user_at w' l = Some (add_groups u (concat (replicate n groups))).
Proof.
  revert w u. induction n as [|n IH]; intros w u Hu.
  - exists w. split; [done|]. rewrite Hu. unfold add_groups. destruct u; simpl. by rewrite app_nil_r.
  - destruct (addGroups_shared groups l w u Hu) as (w1 & Hw1 & Hu1).
    destruct (IH w1 _ Hu1) as (w' & Hw' & Hu').
    exists w'. split; [by erewrite run_times_S|]. by rewrite Hu', add_groups_app.
Qed.

Definition classified (u : DefaultInfo) : bool :=
  (u_Name u == Anonymous) ||
  existsb (λ group, (group == AllAuthenticated) || (group == AllUnauthenticated)) (u_Groups u).

Lemma AuthenticatedGroupAdder_shared l w u :
  user_at w l = Some u →
  ∃ w', AuthenticatedGroupAdder_AuthenticateRequest (λ _, shared l) None w = Ret ((Some l, true, None), w') ∧
    user_at w' l = Some (if classified u then u else add_groups u [AllAuthenticated]).
Proof.
  intros Hu. pose proof Hu as (r & Hr & Hur)%bind_Some.
  unfold AuthenticatedGroupAdder_AuthenticateRequest, mbind, Auth_bind, shared.
  rewrite bool_decide_false by (by intros []). simpl. unfold deref. simpl. rewrite Hr. simpl.
  unfold user_of. rewrite Hur. unfold classified.
  destruct (decide (u_Name u = Anonymous)) as [Hanon|Hanon].
  { rewrite bool_decide_true by done. eexists. split; [done|]. done. }
  rewrite (bool_decide_false (u_Name u = Anonymous)) by done. simpl.
  destruct (existsb _ (u_Groups u)); eexists; (split; [done|]); [done|]. unfold user_at. simpl.
  rewrite list_lookup_insert_eq by (by eapply lookup_lt_Some). done.
Qed.

(** AuthenticatedGroupAdder, the adder of the server's own chain, is safe over
    shared responses: after any number of requests the user carries
    system:authenticated once more than the delegate's user, or not at all if it
    was anonymous or already classified. *)
Theorem AuthenticatedGroupAdder_idempotent l w u n :
  user_at w l = Some u →
  ∃ w', run_times (S n) (AuthenticatedGroupAdder_AuthenticateRequest (λ _, shared l) None) w = Ret (tt, w') ∧
    user_at w' l = Some (if classified u then u else add_groups u [AllAuthenticated]).
Proof.
  revert w u. induction n as [|n IH]; intros w u Hu;
    destruct (AuthenticatedGroupAdder_shared l w u Hu) as (w1 & Hw1 & Hu1).
  - exists w1. by erewrite run_times_S.
  - destruct (IH w1 _ Hu1) as (w' & Hw' & Hu'). exists w'. split; [by erewrite run_times_S|].
    rewrite Hu'. destruct (classified u) eqn:Hc; [by rewrite Hc|].
    assert (classified (add_groups u [AllAuthenticated]) = true) as ->; [|done].
    unfold classified, add_groups. simpl. rewrite existsb_app. simpl.
    by rewrite !orb_true_r.
Qed.

(** The audience-agnostic wrapper stamps the delegate's response in place, so
    over a shared response it accepts the first request and rejects the next
    with an error. *)
Theorem audAgnostic_shared_fails implicit auds l w r :
  w_heap w !! l = Some r → resp_Audiences r = [] →
  Audiences_Intersect implicit auds ≠ [] →
  ∃ w1 e, audAgnosticRequest implicit (λ _, shared l) (Some auds) w = Ret ((Some l, true, None), w1) ∧
    audAgnosticRequest implicit (λ _, shared l) (Some auds) w1 = Ret ((None, false, Some e), w1).
Proof.
  intros Hr Hnone Hauds. unfold audAgnosticRequest, authenticate, mbind, Auth_bind, shared.
  set (both := Audiences_Intersect implicit auds) in *.
  assert ((length both =? 0) = false) as -> by (by destruct both).
  rewrite bool_decide_false by (by intros []). simpl. unfold deref. simpl. rewrite Hr. simpl. rewrite Hnone. simpl.
  do 2 eexists. split; [done|]. simpl.
  rewrite list_lookup_insert_eq by (by eapply lookup_lt_Some). simpl.
  assert ((0 <? length both) = true) as -> by (by destruct both). done.
Qed.
End sharing.

(** ** Witnesses *)

Module AuthnExamples.
#[local] Existing Instance golib_errors_model.

Definition alice : DefaultInfo := {| u_Name := "alice"; u_UID := ""; u_Groups := ["dev"]; u_Extra := ∅ |}.
Definition cached : Response := {| resp_Audiences := []; resp_User := Some alice |}.
Definition w0 : world unit := World [cached] {[ "Authorization" := ["Bearer t"] ]} tt.

(** A token authenticator that knows the token "t". *)
Definition tok : Token unit := λ _ t, if t == "t" then shared 0 else mret (None, false, None).
Definition refuse : Request unit := λ _, mret (None, false, Some (Errorf "bad certificate" [])).
Definition silent : Request unit := λ _, mret (None, false, None).

Lemma request_union_spec_witness :
  request_union_New [refuse; bearertoken_AuthenticateRequest tok; refuse] None w0 =
  Ret ((Some 0, true, None), World [cached] ∅ tt).
Proof.
  apply (request_union_spec [refuse; bearertoken_AuthenticateRequest tok; refuse] None w0
           [Errorf "bad certificate" []])
    with (pre := [refuse None]) (h := bearertoken_AuthenticateRequest tok None) (post := [refuse None]) (w1 := w0).
  - reflexivity.
  - apply (passes_cons _ [] w0 None false (Some (Errorf "bad certificate" [])) w0 [] w0);
      [reflexivity|discriminate|constructor].
  - vm_compute. reflexivity.
Defined.

Definition config : Config := {| TokenSuccessCacheTTL := 0; TokenFailureCacheTTL := 0; cfg_Anonymous := true |}.
Definition no_websocket (h : Header) : bool := false.
Definition no_cache (t : Token unit) (_ _ : Z) : Token unit := t.

Definition server : Request unit :=
  match initAuthentication no_websocket no_cache config [] [inl (Some tok)] with
  | inl (Some a) => a
  | _ => silent
  end.

Lemma initAuthentication_groups_witness :
  ∃ w' l r u, server None w0 = Ret ((Some l, true, None), w') ∧
    w_heap w' !! l = Some r ∧ resp_User r = Some u ∧ AllAuthenticated ∈ u_Groups u.
Proof.
  destruct (server None w0) as [[[[resp ok] err] w']|msg] eqn:Hrun; [|vm_compute in Hrun; discriminate Hrun].
  assert (resp = Some 0 ∧ ok = true ∧ err = None) as (-> & -> & ->)
    by (vm_compute in Hrun; injection Hrun as <- <- <- _; done).
  destruct (initAuthentication_groups no_websocket no_cache config [] [inl (Some tok)] server None w0
              (Some 0) w' eq_refl Hrun) as (l & r & u & Hl & Hr & Hu & _).
  exists w', l, r, u. rewrite Hl. split; [reflexivity|]. split; [exact Hr|]. split; [exact Hu|].
  injection Hl as <-. vm_compute in Hrun. injection Hrun as Hw. rewrite <- Hw in Hr.
  vm_compute in Hr. injection Hr as <-. simpl in Hu. injection Hu as <-. simpl. set_solver.
Defined.

Lemma initAuthentication_anonymous_witness :
  server = anonymous_AuthenticateRequest ∨
  ∃ auths, auths ≠ [] ∧ ∀ ctx w resp ok err w',
    request_union_New auths ctx w = Ret ((resp, ok, err), w') →
    (is_Some err → server ctx w = Ret ((None, ok, err), w')) ∧
    (ok = false → err = None → server ctx w = anonymous_AuthenticateRequest ctx w').
Proof. apply (initAuthentication_anonymous no_websocket no_cache config [] [inl (Some tok)]); reflexivity. Defined.

Lemma GroupAdder_accumulates_witness :
  ∃ w', run_times 2 (GroupAdder_AuthenticateRequest (λ _, shared 0) ["ops"] None) w0 = Ret (tt, w') ∧
    user_at w' 0 = Some (add_groups alice ["ops"; "ops"]).
Proof. apply (GroupAdder_accumulates ["ops"] 0 w0 alice 2). reflexivity. Defined.

Lemma AuthenticatedGroupAdder_idempotent_witness :
  ∃ w', run_times 2 (AuthenticatedGroupAdder_AuthenticateRequest (λ _, shared 0) None) w0 = Ret (tt, w') ∧
    user_at w' 0 = Some (add_groups alice [AllAuthenticated]).
Proof. apply (AuthenticatedGroupAdder_idempotent 0 w0 alice 1). reflexivity. Defined.

Lemma audAgnostic_shared_fails_witness :
  ∃ w1 e, audAgnosticRequest ["api"] (λ _, shared 0) (Some ["api"]) w0 = Ret ((Some 0, true, None), w1) ∧
    audAgnosticRequest ["api"] (λ _, shared 0) (Some ["api"]) w1 = Ret ((None, false, Some e), w1).
Proof. apply (audAgnostic_shared_fails ["api"] ["api"] 0 w0 cached); [reflexivity..|discriminate]. Defined.
End AuthnExamples.
