(* ===== verification/TokenCache.v ===== *)
(** * The cache of token authentications

    Models pkg/authentication/token/cache: the cache key (keyFunc and its length
    prefixes), the simple and the striped cache, and the caching authenticator.

    [TokenCache] is the interface the code calls [cache]; its laws say what the
    authenticator relies on.  golib's Expiring cache is a parameter ([Expiring])
    with the same documented behaviour; [simpleCache] wraps it, [stripedCache] is
    built from any cache, and both are proved to satisfy the interface, which is
    all the authenticator's theorems use.  HMAC-SHA256 is a parameter.

    Calls are modelled one at a time: singleflight's sharing of one lookup by
    several concurrent callers is not.  A lookup reads the clock when it consults
    the cache, when it consults it again before the fetch, and when it stores the
    record; the three times are arguments.  A delegate that panics leaves the
    state as it was. *)

From S2P Require Import Prelude GoStrings GoEncoding Authorizer Authn.

Local Open Scope go_scope.

(** ** The key *)

Section key.
Context (hmac : string → string).

(** writeLength encodes uint32(length), big-endian. *)
Definition writeLength (length : Z) : string := PutUint32 (uint32 length).

Definition writeLengthPrefixedString (s : string) : string := writeLength (Z.of_nat (slen s)) +:+ s.

(** The bytes keyFunc feeds to the hash. *)
Definition keyInput (auds : list string) (token : string) : string :=
  writeLengthPrefixedString token +:+ writeLength (Z.of_nat (length auds)) +:+
  foldr (λ aud rest, writeLengthPrefixedString aud +:+ rest) "" auds.

Definition keyFunc (auds : list string) (token : string) : string := hmac (keyInput auds token).
End key.

(** ** The cache interface *)

Record cacheRecord := {
  rec_resp : option nat;
  rec_ok : bool;
  rec_err : option error;
  rec_annotations : gmap string string;
}.

(** get, set and remove at a time of the clock; [c_ok] is the representation
    invariant. *)
Class TokenCache (C : Type) := {
  c_ok : C → Prop;
  c_get : C → Z → string → outcome (option cacheRecord);
  c_set : C → Z → string → cacheRecord → Z → outcome C;
  c_remove : C → Z → string → outcome C;
}.

Class TokenCacheLaws (C : Type) `{TokenCache C} := {
  c_get_returns c t k : c_ok c → ∃ r, c_get c t k = Ret r;
  c_set_spec c t k v ttl : c_ok c → (0 < ttl)%Z →
    ∃ c', c_set c t k v ttl = Ret c' ∧ c_ok c' ∧
      (∀ t', (t ≤ t')%Z → c_get c' t' k = Ret (if (t' <? t + ttl)%Z then Some v else None)) ∧
      (∀ t' k', (t ≤ t')%Z → k' ≠ k → c_get c' t' k' = c_get c t' k');
  c_remove_spec c t k : c_ok c →
    ∃ c', c_remove c t k = Ret c' ∧ c_ok c' ∧
      (∀ t', (t ≤ t')%Z → c_get c' t' k = Ret None) ∧
      (∀ t' k', (t ≤ t')%Z → k' ≠ k → c_get c' t' k' = c_get c t' k');
}.

(** ** golib's Expiring cache and the simple cache *)

Class Expiring (E : Type) := {
  exp_New : E;
  exp_Get : E → Z → string → option cacheRecord;
  exp_Set : E → Z → string → cacheRecord → Z → E;
  exp_Delete : E → Z → string → E;
}.

(** "Set sets a key/value/expiry entry, overwriting any previous entry; Get does
    not return expired entries." *)
Class ExpiringLaws (E : Type) `{Expiring E} := {
  exp_Get_New t k : exp_Get exp_New t k = None;
  exp_Get_Set e t k v ttl t' : (0 < ttl)%Z → (t ≤ t')%Z →
    exp_Get (exp_Set e t k v ttl) t' k = if (t' <? t + ttl)%Z then Some v else None;
  exp_Get_Set_ne e t k v ttl t' k' : (t ≤ t')%Z → k' ≠ k →
    exp_Get (exp_Set e t k v ttl) t' k' = exp_Get e t' k';
  exp_Get_Delete e t k t' : exp_Get (exp_Delete e t k) t' k = None;
  exp_Get_Delete_ne e t k t' k' : (t ≤ t')%Z → k' ≠ k →
    exp_Get (exp_Delete e t k) t' k' = exp_Get e t' k';
}.

Record simpleCache (E : Type) := SimpleCache { sc_cache : E }.
Arguments SimpleCache {E} _.
Arguments sc_cache {E} _.

Section simple.
Context `{Expiring E}.

Definition newSimpleCache : simpleCache E := SimpleCache exp_New.
Definition simpleCache_get (c : simpleCache E) (t : Z) (key : string) : outcome (option cacheRecord) :=
  Ret (exp_Get (sc_cache c) t key).
Definition simpleCache_set (c : simpleCache E) (t : Z) (key : string) (value : cacheRecord) (ttl : Z)
    : outcome (simpleCache E) := Ret (SimpleCache (exp_Set (sc_cache c) t key value ttl)).
Definition simpleCache_remove (c : simpleCache E) (t : Z) (key : string) : outcome (simpleCache E) :=
  Ret (SimpleCache (exp_Delete (sc_cache c) t key)).

#[global] Instance simpleCache_TokenCache : TokenCache (simpleCache E) := {|
  c_ok _ := True;
  c_get := simpleCache_get;
  c_set := simpleCache_set;
  c_remove := simpleCache_remove;
|}.
End simple.

(** ** The striped cache *)

Record stripedCache (C : Type) := { stripeCount : Z; caches : list C }.
Arguments stripeCount {C} _.
Arguments caches {C} _.

Section striped.
Context `{TokenCache C} (hashFunc : string → Z).

Definition newStripedCache (count : nat) (newCache : C) : stripedCache C :=
  {| stripeCount := uint32 (Z.of_nat count); caches := replicate count newCache |}.

(** c.hashFunc(key) % c.stripeCount; a zero modulus panics. *)
Definition stripe (c : stripedCache C) (key : string) : outcome nat :=
  if (stripeCount c =? 0)%Z then Panic "integer divide by zero"
  else Ret (Z.to_nat (hashFunc key mod stripeCount c)).

Definition stripedCache_get (c : stripedCache C) (t : Z) (key : string) : outcome (option cacheRecord) :=
  i ← stripe c key; sub ← index (caches c) i; c_get sub t key.

Definition stripedCache_set (c : stripedCache C) (t : Z) (key : string) (value : cacheRecord) (ttl : Z)
    : outcome (stripedCache C) :=
  i ← stripe c key; sub ← index (caches c) i; sub' ← c_set sub t key value ttl;
  Ret {| stripeCount := stripeCount c; caches := <[i := sub']> (caches c) |}.

Definition stripedCache_remove (c : stripedCache C) (t : Z) (key : string) : outcome (stripedCache C) :=
  i ← stripe c key; sub ← index (caches c) i; sub' ← c_remove sub t key;
  Ret {| stripeCount := stripeCount c; caches := <[i := sub']> (caches c) |}.

Definition stripedCache_ok (c : stripedCache C) : Prop :=
  (0 < stripeCount c)%Z ∧ stripeCount c = Z.of_nat (length (caches c)) ∧ Forall c_ok (caches c).
End striped.

(** A type of its own per hash function, so that the interface can be an
    instance. *)
Record hashedCache (C : Type) (hashFunc : string → Z) := Hashed { unhashed : stripedCache C }.
Arguments Hashed {C hashFunc} _.
Arguments unhashed {C hashFunc} _.

#[global] Instance stripedCache_TokenCache `{TokenCache C} hashFunc : TokenCache (hashedCache C hashFunc) := {|
  c_ok c := stripedCache_ok (unhashed c);
  c_get c := stripedCache_get hashFunc (unhashed c);
  c_set c t k v ttl := c' ← stripedCache_set hashFunc (unhashed c) t k v ttl; Ret (Hashed c');
  c_remove c t k := c' ← stripedCache_remove hashFunc (unhashed c) t k; Ret (Hashed c');
|}.

(** ** The caching authenticator *)

(** A token authenticator together with the audit annotations it records. *)
Definition annotations : Type := gmap string string.
Definition AnnotatedToken (S : Type) : Type := context → string → Auth S (answer * annotations).

Definition errAuthnCrash : error := Errorf "authentication failed unexpectedly" [].

Record cachedTokenAuthenticator (S : Type) := {
  ca_authenticator : AnnotatedToken S;
  ca_cacheErrs : bool;
  ca_successTTL : Z;
  ca_failureTTL : Z;
}.
Arguments ca_authenticator {S} _.
Arguments ca_cacheErrs {S} _.
Arguments ca_successTTL {S} _.
Arguments ca_failureTTL {S} _.

Section cached.
Context `{TokenCache C} {S : Type} (hmac : string → string).

(** The switch that stores the record. *)
Definition storeRecord (a : cachedTokenAuthenticator S) (c : C) (t : Z) (key : string) (record : cacheRecord)
    : outcome C :=
  if negb (ca_cacheErrs a) && bool_decide (is_Some (rec_err record)) then Ret c
  else if rec_ok record && (0 <? ca_successTTL a)%Z then c_set c t key record (ca_successTTL a)
  else if negb (rec_ok record) && (0 <? ca_failureTTL a)%Z then c_set c t key record (ca_failureTTL a)
  else Ret c.

(** The function given to DoChan. *)
Definition fetch (a : cachedTokenAuthenticator S) (c : C) (t1 t2 : Z) (key : string) (ctx : context)
    (token : string) (w : world S) : outcome (cacheRecord * C * world S) :=
  hit ← c_get c t1 key;
  match hit with
  | Some record => Ret (record, c, w)
  | None =>
      match ca_authenticator a ctx token w with
      | Panic _ =>
          Ret ({| rec_resp := None; rec_ok := false; rec_err := Some errAuthnCrash; rec_annotations := ∅ |}, c, w)
      | Ret ((resp, ok, err), ann, w') =>
          let record := {| rec_resp := resp; rec_ok := ok; rec_err := err; rec_annotations := ann |} in
          c' ← storeRecord a c t2 key record;
          Ret (record, c', w')
      end
  end.

(** The final select: [cancelled] is the error of the request's context when its
    Done channel wins; the fetch goes on in the background. *)
Definition awaitRecord (cancelled : option error) (record : cacheRecord) : cacheRecord :=
  match cancelled with
  | None => record
  | Some e => {| rec_resp := None; rec_ok := false; rec_err := Some e; rec_annotations := ∅ |}
  end.

Definition doAuthenticateToken (a : cachedTokenAuthenticator S) (c : C) (t0 t1 t2 : Z) (ctx : context)
    (token : string) (cancelled : option error) (w : world S) : outcome (cacheRecord * C * world S) :=
  let key := keyFunc hmac (default [] ctx) token in
  hit ← c_get c t0 key;
  match hit with
  | Some record => Ret (record, c, w)
  | None =>
      '(record, c', w') ← fetch a c t1 t2 key ctx token w;
      Ret (awaitRecord cancelled record, c', w')
  end.

(** The answer, with the annotations added to the request's audit event. *)
Definition cached_AuthenticateToken (a : cachedTokenAuthenticator S) (c : C) (t0 t1 t2 : Z) (ctx : context)
    (token : string) (cancelled : option error) (w : world S) : outcome (answer * annotations * C * world S) :=
  '(record, c', w') ← doAuthenticateToken a c t0 t1 t2 ctx token cancelled w;
  if negb (rec_ok record) || bool_decide (is_Some (rec_err record))
  then Ret ((None, false, rec_err record), ∅, c', w')
  else Ret ((rec_resp record, true, None), rec_annotations record, c', w').
End cached.

(** newWithClock: 32 stripes hashed with FNV. *)
Definition tokencache_New `{Expiring E} : hashedCache (simpleCache E) fnv_Sum32 :=
  Hashed (newStripedCache 32 newSimpleCache).

(** ** Theorems *)

(** *** The key is unambiguous *)

Lemma sapp_inj s1 s2 t1 t2 : slen s1 = slen s2 → s1 +:+ t1 = s2 +:+ t2 → s1 = s2 ∧ t1 = t2.
Proof.
  revert s2. induction s1 as [|a s1 IH]; intros [|b s2] Hlen Heq; simpl in Hlen; try lia; [done|].
  rewrite !sapp_cons in Heq. injection Heq as -> Heq. destruct (IH s2) as [-> ->]; [lia|done|done].
Qed.

Lemma writeLength_inj n m t u :
  (0 ≤ n < 2 ^ 32)%Z → (0 ≤ m < 2 ^ 32)%Z →
  writeLength n +:+ t = writeLength m +:+ u → n = m ∧ t = u.
Proof.
  intros Hn Hm Heq. apply sapp_inj in Heq as [Heq ->]; [|done]. split; [|done].
  unfold writeLength in Heq. rewrite !uint32_id in Heq by done. by apply PutUint32_inj.
Qed.

Definition small (s : string) : Prop := (Z.of_nat (slen s) < 2 ^ 32)%Z.

Lemma writeLengthPrefixedString_inj s1 s2 t1 t2 :
  small s1 → small s2 →
  writeLengthPrefixedString s1 +:+ t1 = writeLengthPrefixedString s2 +:+ t2 → s1 = s2 ∧ t1 = t2.
Proof.
  unfold small. intros H1 H2. unfold writeLengthPrefixedString. rewrite <- !sapp_assoc. intros Heq.
  apply writeLength_inj in Heq as [Hlen Heq]; [|lia..]. apply sapp_inj; [lia|done].
Qed.

Lemma auds_inj auds1 auds2 :
  Forall small auds1 → Forall small auds2 → length auds1 = length auds2 →
  foldr (λ aud rest, writeLengthPrefixedString aud +:+ rest) "" auds1 =
  foldr (λ aud rest, writeLengthPrefixedString aud +:+ rest) "" auds2 → auds1 = auds2.
Proof.
  intros Hs1. revert auds2. induction Hs1 as [|a1 l1 Ha1 Hl1 IH]; intros [|a2 l2] Hs2 Hlen Heq;
    simpl in Hlen; try lia; [done|]. apply Forall_cons in Hs2 as [Ha2 Hl2].
  apply writeLengthPrefixedString_inj in Heq as [-> Heq]; [|done..]. f_equal. apply IH; [done|lia|done].
Qed.

Definition key_bounds (auds : list string) (token : string) : Prop :=
  small token ∧ (Z.of_nat (length auds) < 2 ^ 32)%Z ∧ Forall small auds.

Lemma keyInput_inj auds1 auds2 tok1 tok2 :
  key_bounds auds1 tok1 → key_bounds auds2 tok2 →
  keyInput auds1 tok1 = keyInput auds2 tok2 → auds1 = auds2 ∧ tok1 = tok2.
Proof.
  intros (Ht1 & Hn1 & Ha1) (Ht2 & Hn2 & Ha2) Heq. unfold keyInput in Heq.
  apply writeLengthPrefixedString_inj in Heq as [-> Heq]; [|done..].
  apply writeLength_inj in Heq as [Hlen Heq]; [|lia..]. split; [|done]. apply auds_inj; [done..|lia|done].
Qed.

(** The bytes hashed into a cache key determine the token and the audiences, as
    long as no length reaches 2^32 (the prefixes are 32-bit): two lookups share a
    key only when the hash collides. *)
Theorem keyInput_injective auds1 auds2 tok1 tok2 :
  key_bounds auds1 tok1 → key_bounds auds2 tok2 →
  keyInput auds1 tok1 = keyInput auds2 tok2 → auds1 = auds2 ∧ tok1 = tok2.
Proof. apply keyInput_inj. Qed.

(** *** The implementations satisfy the interface *)

#[global] Instance simpleCache_laws `{ExpiringLaws E} : TokenCacheLaws (simpleCache E).
Proof.
  split.
  - intros c t k _. by eexists.
  - intros c t k v ttl _ Httl. eexists. split; [done|]. split; [done|]. split.
    + intros t' Ht. cbn. unfold simpleCache_get. cbn. by rewrite exp_Get_Set.
    + intros t' k' Ht Hk. cbn. unfold simpleCache_get. cbn. by rewrite exp_Get_Set_ne.
  - intros c t k _. eexists. split; [done|]. split; [done|]. split.
    + intros t' Ht. cbn. unfold simpleCache_get. cbn. by rewrite exp_Get_Delete.
    + intros t' k' Ht Hk. cbn. unfold simpleCache_get. cbn. by rewrite exp_Get_Delete_ne.
Qed.

Section striped_laws.
Context `{TokenCacheLaws C} (hashFunc : string → Z).
Implicit Types (c : stripedCache C).

Lemma stripe_returns c k :
  stripedCache_ok c →
  ∃ i sub, stripe hashFunc c k = Ret i ∧ caches c !! i = Some sub ∧ c_ok sub.
Proof.
  intros (Hpos & Hlen & Hall). unfold stripe. destruct (Z.eqb_spec (stripeCount c) 0); [lia|].
  set (i := Z.to_nat (hashFunc k mod stripeCount c)).
  assert (i < length (caches c)) as Hi.
  { pose proof (Z.mod_pos_bound (hashFunc k) (stripeCount c) Hpos). lia. }
  destruct (lookup_lt_is_Some_2 _ _ Hi) as [sub Hsub]. exists i, sub. split_and!; [done..|].
  by eapply Forall_lookup_1.
Qed.

Lemma stripe_same c c' k : stripeCount c' = stripeCount c → stripe hashFunc c' k = stripe hashFunc c k.
Proof. unfold stripe. by intros ->. Qed.

Lemma stripedCache_get_at c t k i sub :
  stripe hashFunc c k = Ret i → caches c !! i = Some sub →
  stripedCache_get hashFunc c t k = c_get sub t k.
Proof.
  intros Hi Hsub. unfold stripedCache_get. rewrite Hi. cbn. unfold index. by rewrite Hsub.
Qed.

(** Replacing the sub-cache of [k]'s stripe by one that answers as [f] says on [k]
    and as before on other keys changes the striped cache the same way. *)
Lemma stripedCache_update c k i sub sub' t (f : Z → outcome (option cacheRecord)) :
  stripedCache_ok c → stripe hashFunc c k = Ret i → caches c !! i = Some sub → c_ok sub' →
  (∀ t', (t ≤ t')%Z → c_get sub' t' k = f t') →
  (∀ t' k', (t ≤ t')%Z → k' ≠ k → c_get sub' t' k' = c_get sub t' k') →
  let c' := {| stripeCount := stripeCount c; caches := <[i := sub']> (caches c) |} in
  stripedCache_ok c' ∧
  (∀ t', (t ≤ t')%Z → stripedCache_get hashFunc c' t' k = f t') ∧
  (∀ t' k', (t ≤ t')%Z → k' ≠ k → stripedCache_get hashFunc c' t' k' = stripedCache_get hashFunc c t' k').
Proof.
  intros Hok Hi Hsub Hok' Hself Hother c'.
  assert (caches c' !! i = Some sub') as Hsub'
    by (apply list_lookup_insert_eq; by eapply lookup_lt_Some).
  split; [|split].
  - destruct Hok as (Hpos & Hlen & Hall). split_and!; simpl; [done|by rewrite length_insert|].
    by apply Forall_insert.
  - intros t' Ht. erewrite stripedCache_get_at; [by apply Hself| |exact Hsub'].
    by rewrite (stripe_same c c').
  - intros t' k' Ht Hk. destruct (stripe_returns c k' Hok) as (j & subj & Hj & Hsubj & _).
    assert (stripe hashFunc c' k' = Ret j) as Hj' by (by rewrite (stripe_same c c')).
    rewrite (stripedCache_get_at c t' k' j subj Hj Hsubj).
    destruct (decide (j = i)) as [->|Hne].
    + simplify_eq. rewrite (stripedCache_get_at c' t' k' i sub' Hj' Hsub'). by apply Hother.
    + erewrite stripedCache_get_at; [done|exact Hj'|]. simpl. by rewrite list_lookup_insert_ne.
Qed.
End striped_laws.

#[global] Instance stripedCache_laws `{TokenCacheLaws C} hashFunc : TokenCacheLaws (hashedCache C hashFunc).
Proof.
  split.
  - intros [c] t k Hok. destruct (stripe_returns hashFunc c k Hok) as (i & sub & Hi & Hsub & Hsok).
    cbn. erewrite stripedCache_get_at by done. by apply c_get_returns.
  - intros [c] t k v ttl Hok Httl. destruct (stripe_returns hashFunc c k Hok) as (i & sub & Hi & Hsub & Hsok).
    destruct (c_set_spec sub t k v ttl Hsok Httl) as (sub' & Hset & Hok' & Hself & Hother).
    destruct (stripedCache_update hashFunc c k i sub sub' t
      (λ t', Ret (if (t' <? t + ttl)%Z then Some v else None))) as (Hokc & Hs & Ho); [done..|].
    eexists (Hashed _). split; [|split; [exact Hokc|split; [exact Hs|exact Ho]]].
    cbn. cbn in Hok. unfold stripedCache_set. cbn in Hi. rewrite Hi. cbn. unfold index. rewrite Hsub. cbn.
    rewrite Hset. done.
  - intros [c] t k Hok. destruct (stripe_returns hashFunc c k Hok) as (i & sub & Hi & Hsub & Hsok).
    destruct (c_remove_spec sub t k Hsok) as (sub' & Hset & Hok' & Hself & Hother).
    destruct (stripedCache_update hashFunc c k i sub sub' t (λ _, Ret None)) as (Hokc & Hs & Ho); [done..|].
    eexists (Hashed _). split; [|split; [exact Hokc|split; [exact Hs|exact Ho]]].
    cbn. unfold stripedCache_remove. rewrite Hi. cbn. unfold index. rewrite Hsub. cbn. rewrite Hset. done.
Qed.

Lemma tokencache_New_ok `{ExpiringLaws E} : c_ok (tokencache_New (E := E)).
Proof.
  split_and!; [done|done|]. by apply (Forall_replicate _ 32).
Qed.

Lemma tokencache_New_get `{ExpiringLaws E} t k : c_get (tokencache_New (E := E)) t k = Ret None.
Proof.
  destruct (stripe_returns fnv_Sum32 (unhashed (tokencache_New (E := E))) k tokencache_New_ok)
    as (i & sub & Hi & Hsub & _).
  cbn [c_get stripedCache_TokenCache]. erewrite stripedCache_get_at by done.
  apply (lookup_replicate 32) in Hsub as [-> _].
  cbn. unfold simpleCache_get. cbn. by rewrite exp_Get_New.
Qed.

(** C4: the 32-stripe cache the authenticator uses is one cache: a record set for a
    key is returned for that key until its time to live has passed and not after,
    every other key answers as before, and no operation panics (the stripe index
    is always in range). *)
Theorem stripedCache_refines `{ExpiringLaws E} (c : hashedCache (simpleCache E) fnv_Sum32) t k v ttl :
  stripedCache_ok (unhashed c) → (0 < ttl)%Z →
  ∃ c', stripedCache_set fnv_Sum32 (unhashed c) t k v ttl = Ret c' ∧ stripedCache_ok c' ∧
    (∀ t', (t ≤ t')%Z →
       stripedCache_get fnv_Sum32 c' t' k = Ret (if (t' <? t + ttl)%Z then Some v else None)) ∧
    (∀ t' k', (t ≤ t')%Z → k' ≠ k →
       stripedCache_get fnv_Sum32 c' t' k' = stripedCache_get fnv_Sum32 (unhashed c) t' k').
Proof.
  intros Hok Httl.
  destruct (c_set_spec (TokenCacheLaws := stripedCache_laws fnv_Sum32) c t k v ttl Hok Httl) as ([c'] & Hset & Hok' & Hself & Hother).
  exists c'. split; [|done]. cbn in Hset. apply bind_Ret in Hset as (c'' & -> & [= ->]). done.
Qed.

(** *** The caching authenticator *)

Section cached_theorems.
Context `{TokenCacheLaws C} {St : Type} (hmac : string → string).
Context (a : cachedTokenAuthenticator St).

Local Notation "'key' ctx token" := (keyFunc hmac (default [] ctx) token)
  (at level 10, ctx at level 9, token at level 9).

(** What the delegate may answer for a token, as a record. *)
Context (legit : list string → string → cacheRecord → Prop).

Definition delegate_legit : Prop := ∀ ctx token w resp ok err ann w',
  ca_authenticator a ctx token w = Ret ((resp, ok, err), ann, w') →
  legit (default [] ctx) token
    {| rec_resp := resp; rec_ok := ok; rec_err := err; rec_annotations := ann |}.

(** From [t] on, the cache only holds what the delegate answered for a token and
    audiences with that key. *)
Definition cache_legit (c : C) (t : Z) : Prop := ∀ t' k rec,
  (t ≤ t')%Z → c_get c t' k = Ret (Some rec) →
  ∃ auds token, key_bounds auds token ∧ k = keyFunc hmac auds token ∧ legit auds token rec.

Lemma storeRecord_legit c t ctx token rec :
  c_ok c → cache_legit c t → key_bounds (default [] ctx) token → legit (default [] ctx) token rec →
  ∃ c', storeRecord a c t (key ctx token) rec = Ret c' ∧ c_ok c' ∧ cache_legit c' t.
Proof.
  intros Hok Hc Hb Hrec. unfold storeRecord.
  assert (∀ ttl, (0 < ttl)%Z → ∃ c', c_set c t (key ctx token) rec ttl = Ret c' ∧ c_ok c' ∧ cache_legit c' t)
    as Hset.
  { intros ttl Httl. destruct (c_set_spec c t (key ctx token) rec ttl Hok Httl) as (c' & ? & ? & Hself & Hother).
    exists c'. split_and!; [done..|]. intros t' k rec' Ht Hget.
    destruct (decide (k = key ctx token)) as [->|Hne].
    - rewrite Hself in Hget by done. destruct (t' <? t + ttl)%Z; simplify_eq. eauto.
    - rewrite Hother in Hget by done. by eapply Hc. }
  repeat case_match; try (by eexists); apply Hset; bool_crush; lia.
Qed.

Hypothesis hmac_inj : ∀ x y, hmac x = hmac y → x = y.

(** The cache never mixes up tokens: assuming the keyed hash does not collide,
    every record a lookup returns is one the authenticator itself produced for
    that very token and those audiences (or the error of a crash or of a
    cancelled request), and storing preserves this. *)
Theorem doAuthenticateToken_legit c t0 t1 t2 ctx token cancelled w :
  delegate_legit → c_ok c → cache_legit c t0 → (t0 ≤ t1 ≤ t2)%Z → key_bounds (default [] ctx) token →
  ∃ rec c' w', doAuthenticateToken hmac a c t0 t1 t2 ctx token cancelled w = Ret (rec, c', w') ∧
    c_ok c' ∧ cache_legit c' t2 ∧
    (legit (default [] ctx) token rec ∨
     rec_ok rec = false ∧ (rec_err rec = Some errAuthnCrash ∨ is_Some cancelled ∧ rec_err rec = cancelled)).
Proof.
  intros Hdel Hok Hc Ht Hb. unfold doAuthenticateToken, fetch.
  assert (∀ t rec, (t0 ≤ t)%Z → c_get c t (key ctx token) = Ret (Some rec) → legit (default [] ctx) token rec)
    as Hhit.
  { intros t rec Ht' Hget. destruct (Hc t _ _ Ht' Hget) as (auds & tok & Hb' & Hk & Hl).
    apply hmac_inj, keyInput_inj in Hk as [-> ->]; done. }
  assert (cache_legit c t2) as Hc2 by (intros t' k rec ?; apply Hc; lia).
  destruct (c_get_returns c t0 (key ctx token) Hok) as [[rec|] Hget]; rewrite Hget; cbn.
  { exists rec, c, w. split_and!; [done..|]. left. by eapply Hhit. }
  assert (∀ rec, (legit (default [] ctx) token rec ∨ rec_ok rec = false ∧ rec_err rec = Some errAuthnCrash) →
    let rec1 := awaitRecord cancelled rec in
    legit (default [] ctx) token rec1 ∨ rec_ok rec1 = false ∧
      (rec_err rec1 = Some errAuthnCrash ∨ is_Some cancelled ∧ rec_err rec1 = cancelled)) as Hfin.
  { intros rec Hrec. destruct cancelled as [e|]; simpl; [|naive_solver].
    right. split; [done|]. right. by split. }
  destruct (c_get_returns c t1 (key ctx token) Hok) as [[rec|] Hget1]; rewrite Hget1; cbn.
  { do 3 eexists. split; [done|]. split_and!; [done..|]. apply Hfin. left. eapply Hhit; [|done]. lia. }
  destruct (ca_authenticator a ctx token w) as [[[[[resp ok] err] ann] w']|msg] eqn:Hrun; cbn.
  - pose proof (Hdel _ _ _ _ _ _ _ _ Hrun) as Hl.
    destruct (storeRecord_legit c t2 ctx token _ Hok Hc2 Hb Hl) as (c' & -> & Hok' & Hc').
    cbn. do 3 eexists. split; [done|]. split_and!; [done..|]. apply Hfin. by left.
  - do 3 eexists. split; [done|]. split_and!; [done..|]. apply Hfin. by right.
Qed.

(** A successful authentication is served from the cache until its time to
    live has passed: a lookup of the same token and audiences in that window
    returns the stored response and annotations without calling the
    authenticator (its state is untouched), and does not extend the entry. *)
Theorem cached_success_reused c t0 t1 t2 ctx token w resp ann w1 :
  c_ok c → (0 < ca_successTTL a)%Z → (t0 ≤ t1 ≤ t2)%Z →
  c_get c t0 (key ctx token) = Ret None → c_get c t1 (key ctx token) = Ret None →
  ca_authenticator a ctx token w = Ret ((resp, true, None), ann, w1) →
  ∃ c1, cached_AuthenticateToken hmac a c t0 t1 t2 ctx token None w =
          Ret ((resp, true, None), ann, c1, w1) ∧
    ∀ t s1 s2 cancelled w2, (t2 ≤ t < t2 + ca_successTTL a)%Z →
      cached_AuthenticateToken hmac a c1 t s1 s2 ctx token cancelled w2 =
        Ret ((resp, true, None), ann, c1, w2).
Proof.
  intros Hok Httl Ht Hget0 Hget1 Hrun.
  set (rec := {| rec_resp := resp; rec_ok := true; rec_err := None; rec_annotations := ann |}).
  destruct (c_set_spec c t2 (key ctx token) rec _ Hok Httl) as (c1 & Hset & _ & Hself & _).
  exists c1. split.
  - unfold cached_AuthenticateToken, doAuthenticateToken, fetch. rewrite Hget0. cbn. rewrite Hget1. cbn.
    rewrite Hrun. unfold storeRecord. cbn. rewrite andb_false_r. cbn. destruct (Z.ltb_spec 0 (ca_successTTL a)); [|lia]. fold rec. by rewrite Hset.
  - intros t s1 s2 cancelled w2 Hwin. unfold cached_AuthenticateToken, doAuthenticateToken.
    rewrite Hself by lia. destruct (Z.ltb_spec t (t2 + ca_successTTL a)); [|lia]. done.
Qed.
End cached_theorems.

(** ** Witnesses *)

Module TokenCacheExamples.
(** An expiring cache: a map from keys to values with their expiry. *)
Definition expiring : Type := gmap string (cacheRecord * Z).

#[local] Instance expiring_ops : Expiring expiring := {|
  exp_New := ∅;
  exp_Get e t k := match e !! k with Some (v, expiry) => if (t <? expiry)%Z then Some v else None | None => None end;
  exp_Set e t k v ttl := <[k := (v, (t + ttl)%Z)]> e;
  exp_Delete e t k := delete k e;
|}.

#[local] Instance expiring_laws : ExpiringLaws expiring.
Proof.
  split; intros; simpl.
  - done.
  - by rewrite (lookup_insert_eq (e : gmap _ _)).
  - by rewrite (lookup_insert_ne (e : gmap _ _)).
  - by rewrite (lookup_delete_eq (e : gmap _ _)).
  - by rewrite (lookup_delete_ne (e : gmap _ _)).
Qed.

Definition striped : Type := hashedCache (simpleCache expiring) fnv_Sum32.
Definition empty_cache : striped := tokencache_New.
Definition found (t : string) : cacheRecord :=
  {| rec_resp := Some (slen t); rec_ok := true; rec_err := None; rec_annotations := ∅ |}.

(** A stateless authenticator that accepts every token. *)
Definition accepting : cachedTokenAuthenticator unit :=
  {| ca_authenticator _ t w := Ret ((Some (slen t), true, None), ∅, w);
     ca_cacheErrs := true; ca_successTTL := 10; ca_failureTTL := 0 |}.

Definition w0 : world unit := World [] ∅ tt.
Definition identity (s : string) : string := s.

Lemma bounds_t : key_bounds [] "t".
Proof. split_and!; [done|done|constructor]. Qed.

Lemma keyInput_injective_witness : keyInput [] "t" = keyInput [] "t" ∧ ([] : list string) = [] ∧ "t" = "t".
Proof.
  split; [reflexivity|]. apply (keyInput_injective [] [] "t" "t"); [apply bounds_t|apply bounds_t|reflexivity].
Defined.

Lemma stripedCache_refines_witness :
  ∃ c', stripedCache_set fnv_Sum32 (unhashed empty_cache) 0 "k" (found "t") 10 = Ret c' ∧
    stripedCache_get fnv_Sum32 c' 9 "k" = Ret (Some (found "t")) ∧
    stripedCache_get fnv_Sum32 c' 10 "k" = Ret None.
Proof.
  destruct (stripedCache_refines empty_cache 0 "k" (found "t") 10) as (c' & Hset & _ & Hself & _);
    [apply tokencache_New_ok|reflexivity|].
  exists c'. split; [exact Hset|]. split; apply Hself; discriminate.
Defined.

Lemma doAuthenticateToken_legit_witness :
  ∃ rec c' w', doAuthenticateToken identity accepting empty_cache 0 0 0 None "t" None w0 = Ret (rec, c', w') ∧
    (rec = found "t" ∨ rec_ok rec = false).
Proof.
  destruct (doAuthenticateToken_legit identity accepting (λ _ t rec, rec = found t) (λ x y H, H)
              empty_cache 0 0 0 None "t" None w0) as (rec & c' & w' & Hrun & _ & _ & Hrec).
  - intros ctx token w resp ok err ann w' Hdel. injection Hdel as <- <- <- <- _. reflexivity.
  - apply tokencache_New_ok.
  - intros t' k rec _ Hget. discriminate (eq_trans (eq_sym (tokencache_New_get t' k)) Hget).
  - split; discriminate.
  - apply bounds_t.
  - exists rec, c', w'. split; [exact Hrun|]. destruct Hrec as [?|[? _]]; auto.
Defined.

Lemma cached_success_reused_witness :
  ∃ c1, cached_AuthenticateToken identity accepting empty_cache 0 0 0 None "t" None w0 =
          Ret ((Some 1, true, None), ∅, c1, w0) ∧
    cached_AuthenticateToken identity accepting c1 9 9 9 None "t" None w0 =
          Ret ((Some 1, true, None), ∅, c1, w0).
Proof.
  destruct (cached_success_reused identity accepting empty_cache 0 0 0 None "t" w0 (Some 1) ∅ w0)
    as (c1 & Hrun & Hagain);
    [apply tokencache_New_ok|reflexivity|split; discriminate|apply tokencache_New_get|apply tokencache_New_get
    |reflexivity|].
  exists c1. split; [exact Hrun|]. apply Hagain. split; [discriminate|reflexivity].
Defined.
End TokenCacheExamples.
