(* ===== verification/AuditPolicy.v ===== *)
(** * Audit events and the audit policy

    Models pkg/apis/audit (levels, stages, events, policies and their validation),
    pkg/audit/policy (the policy checker, the enforcement of a level on an event,
    loading) and pkg/audit/request.go and context.go (filling in an event).
    Parameters: json.Marshal of the logged object, golib's source addresses and
    fresh identifiers, golib's policy decoder. *)

From S2P Require Import Prelude GoStrings GoEncoding Authorizer ServiceAccount RbacTypes.

Local Open Scope go_scope.

(** ** Types *)

Definition Level : Type := string.
Definition LevelNone : Level := "None".
Definition LevelMetadata : Level := "Metadata".
Definition LevelRequest : Level := "Request".
Definition LevelRequestResponse : Level := "RequestResponse".

Definition Stage : Type := string.
Definition StageRequestReceived : Stage := "RequestReceived".
Definition StageResponseStarted : Stage := "ResponseStarted".
Definition StageResponseComplete : Stage := "ResponseComplete".
Definition StagePanic : Stage := "Panic".

Record ObjectReference := {
  or_Resource : string; or_Namespace : string; or_Name : string; or_Subresource : string;
  or_APIGroup : string; or_APIVersion : string;
}.

Record UserInfo := {
  ui_Username : string; ui_UID : string; ui_Groups : list string; ui_Extra : gmap string (list string);
}.

Record Status := { st_Status : string; st_Message : string; st_Reason : string; st_Code : Z }.

(** A runtime.Unknown with JSON content. *)
Definition Unknown : Type := string.

Record Event := {
  ev_Level : Level;
  ev_AuditID : string;
  ev_Stage : Stage;
  ev_RequestURI : string;
  ev_Verb : string;
  ev_User : UserInfo;
  ev_ImpersonatedUser : option UserInfo;
  ev_SourceIPs : list string;
  ev_UserAgent : string;
  ev_ObjectRef : option ObjectReference;
  ev_ResponseStatus : option Status;
  ev_RequestObject : option Unknown;
  ev_ResponseObject : option Unknown;
  ev_RequestReceivedTimestamp : Z;
  ev_StageTimestamp : Z;
  ev_Annotations : gmap string string;
}.

Record GroupResources := { gr_Group : string; gr_Resources : list string; gr_ResourceNames : list string }.

Record AuditRule := {
  ar_Level : Level;
  ar_Users : list string;
  ar_UserGroups : list string;
  ar_Verbs : list string;
  ar_Resources : list GroupResources;
  ar_Namespaces : list string;
  ar_NonResourceURLs : list string;
  ar_OmitStages : list Stage;
}.

Record AuditPolicy := { ap_Rules : list AuditRule; ap_OmitStages : list Stage }.

(** ** Levels (helpers.go) *)

Definition ordLevel (l : Level) : nat :=
  if l == LevelMetadata then 1 else if l == LevelRequest then 2
  else if l == LevelRequestResponse then 3 else 0.

Definition Level_Less (a b : Level) : bool := ordLevel a <? ordLevel b.
Definition Level_GreaterOrEqual (a b : Level) : bool := ordLevel b <=? ordLevel a.

(** ** The checker (checker.go) *)

Definition hasString (slice : list string) (value : string) : bool := existsb (λ s, s == value) slice.

(** The keys of a map of all the stages; Go does not fix their order. *)
Definition unionStages (stageLists : list (list Stage)) : list Stage :=
  elements (list_to_set (C := gset string) (concat stageLists)).

Definition set_OmitStages (r : AuditRule) (stages : list Stage) : AuditRule :=
  {| ar_Level := ar_Level r; ar_Users := ar_Users r; ar_UserGroups := ar_UserGroups r; ar_Verbs := ar_Verbs r;
     ar_Resources := ar_Resources r; ar_Namespaces := ar_Namespaces r;
     ar_NonResourceURLs := ar_NonResourceURLs r; ar_OmitStages := stages |}.

(** The rules are updated in place: the caller's policy changes with the checker's. *)
Definition NewChecker (policy : AuditPolicy) : AuditPolicy :=
  {| ap_Rules := (λ rule, set_OmitStages rule (unionStages [ap_OmitStages policy; ar_OmitStages rule]))
                 <$> ap_Rules policy;
     ap_OmitStages := ap_OmitStages policy |}.

Definition pathMatches (path spec : string) : bool :=
  if spec == "*" then true
  else if spec == path then true
  else HasSuffix spec "*" && HasPrefix path (TrimRight spec (is_byte "*"%char)).

Definition ruleMatchesNonResource (r : AuditRule) (attrs : AttributesRecord) : bool :=
  if a_ResourceRequest attrs then false
  else existsb (λ spec, pathMatches (a_Path attrs) spec) (ar_NonResourceURLs r).

(** One resource pattern of a rule, for a request whose name is accepted. *)
Definition resourcePattern (resource subresource res : string) : bool :=
  let combinedResource := if subresource != "" then resource +:+ "/" +:+ subresource else resource in
  if (res == combinedResource) || (res == "*") then true
  else if (0 <? slen subresource) && HasPrefix res "*/" && (subresource == TrimPrefix res "*/") then true
  else HasSuffix res "/*" && (resource == TrimSuffix res "/*").

Definition ruleMatchesResource (r : AuditRule) (attrs : AttributesRecord) : bool :=
  if negb (a_ResourceRequest attrs) then false
  else if (0 <? length (ar_Namespaces r)) && negb (hasString (ar_Namespaces r) (a_Namespace attrs)) then false
  else if length (ar_Resources r) =? 0 then true
  else existsb (λ gr,
    if gr_Group gr == a_APIGroup attrs then
      if length (gr_Resources gr) =? 0 then true
      else existsb (λ res,
        if (length (gr_ResourceNames gr) =? 0) || hasString (gr_ResourceNames gr) (a_Name attrs)
        then resourcePattern (a_Resource attrs) (a_Subresource attrs) res
        else false) (gr_Resources gr)
    else false) (ar_Resources r).

Definition ruleMatches (r : AuditRule) (attrs : AttributesRecord) : bool :=
  let user := a_User attrs in
  if (0 <? length (ar_Users r)) &&
     match user with None => true | Some u => negb (hasString (ar_Users r) (u_Name u)) end then false
  else if (0 <? length (ar_UserGroups r)) &&
     match user with
     | None => true
     | Some u => negb (existsb (hasString (ar_UserGroups r)) (u_Groups u))
     end then false
  else if (0 <? length (ar_Verbs r)) && negb (hasString (ar_Verbs r) (a_Verb attrs)) then false
  else if (0 <? length (ar_Namespaces r)) || (0 <? length (ar_Resources r)) then ruleMatchesResource r attrs
  else if 0 <? length (ar_NonResourceURLs r) then ruleMatchesNonResource r attrs
  else true.

Definition DefaultAuditLevel : Level := LevelNone.

Definition LevelAndStages (p : AuditPolicy) (attrs : AttributesRecord) : Level * list Stage :=
  match List.find (λ rule, ruleMatches rule attrs) (ap_Rules p) with
  | Some rule => (ar_Level rule, ar_OmitStages rule)
  | None => (DefaultAuditLevel, ap_OmitStages p)
  end.

(** ** Enforcement (enforce.go) *)

Definition set_level_objects (e : Event) (level : Level) (req resp : option Unknown) : Event :=
  {| ev_Level := level; ev_AuditID := ev_AuditID e; ev_Stage := ev_Stage e; ev_RequestURI := ev_RequestURI e;
     ev_Verb := ev_Verb e; ev_User := ev_User e; ev_ImpersonatedUser := ev_ImpersonatedUser e;
     ev_SourceIPs := ev_SourceIPs e; ev_UserAgent := ev_UserAgent e; ev_ObjectRef := ev_ObjectRef e;
     ev_ResponseStatus := ev_ResponseStatus e; ev_RequestObject := req; ev_ResponseObject := resp;
     ev_RequestReceivedTimestamp := ev_RequestReceivedTimestamp e; ev_StageTimestamp := ev_StageTimestamp e;
     ev_Annotations := ev_Annotations e |}.

Definition enforceLevel (e : Event) (level : Level) : option Event + error :=
  if level == LevelMetadata then inl (Some (set_level_objects e LevelMetadata None None))
  else if level == LevelRequest then inl (Some (set_level_objects e LevelRequest (ev_RequestObject e) None))
  else if level == LevelRequestResponse
  then inl (Some (set_level_objects e LevelRequestResponse (ev_RequestObject e) (ev_ResponseObject e)))
  else if level == LevelNone then inl None
  else inr (Errorf "level unknown: %s" [level]).

Definition EnforcePolicy (e : Event) (level : Level) (omitStages : list Stage) : option Event + error :=
  if existsb (λ stage, ev_Stage e == stage) omitStages then inl None else enforceLevel e level.

(** ** Validation of a policy (validation/validation.go) *)

Definition validLevels : list string := [LevelNone; LevelMetadata; LevelRequest; LevelRequestResponse].
Definition validOmitStages : list string :=
  [StageRequestReceived; StageResponseStarted; StageResponseComplete; StagePanic].

Section validation.
Context `{DNSValidation}.

Definition validateLevel (level : Level) (fldPath : list path_elem) : list field_error :=
  if bool_decide (level ∈ validLevels) then []
  else if level == "" then [Required fldPath ""]
  else [NotSupported fldPath level validLevels].

Definition validateNonResourceURLs (urls : list string) (fldPath : list path_elem) : list field_error :=
  concat (imap (λ i url,
    if url == "*" then []
    else
      (if HasPrefix url "/" then []
       else [Invalid (fldPath ++ [Index i]) [url] "non-resource URL rules must begin with a '/' character"]) ++
      (if (url != "") && ContainsByte (stake (slen url - 1) url) "*"%char
       then [Invalid (fldPath ++ [Index i]) [url]
               "non-resource URL wildcards '*' must be the final character of the rule"]
       else [])) urls).

Fixpoint validateResources (groupResources : list GroupResources) (fldPath : list path_elem)
    : outcome (list field_error) :=
  match groupResources with
  | [] => Ret []
  | gr :: rest =>
      msgs ← (if negb (slen (gr_Group gr) =? 0) then NameIsDNSSubdomain (gr_Group gr) false else Ret []);
      let e1 := if negb (length msgs =? 0)
                then [Invalid (fldPath ++ [Child "group"]) [gr_Group gr] (Join msgs ",")] else [] in
      let e2 := if (0 <? length (gr_ResourceNames gr)) && (length (gr_Resources gr) =? 0)
                then [Invalid (fldPath ++ [Child "resourceNames"]) (gr_ResourceNames gr)
                        "using resourceNames requires at least one resource"]
                else [] in
      es ← validateResources rest fldPath;
      Ret (e1 ++ e2 ++ es)
  end.

Definition validateOmitStages (omitStages : list Stage) (fldPath : list path_elem) : list field_error :=
  concat (imap (λ i stage,
    if existsb (λ valid, stage == valid) validOmitStages then []
    else [Invalid (fldPath ++ [Index i]) [stage] ("allowed stages are " +:+ Join validOmitStages ",")]) omitStages).

Definition validatePolicyRule (rule : AuditRule) (fldPath : list path_elem) : outcome (list field_error) :=
  resourceErrs ← validateResources (ar_Resources rule) (fldPath ++ [Child "resources"]);
  Ret (validateLevel (ar_Level rule) (fldPath ++ [Child "level"]) ++
       validateNonResourceURLs (ar_NonResourceURLs rule) (fldPath ++ [Child "nonResourceURLs"]) ++
       resourceErrs ++
       validateOmitStages (ar_OmitStages rule) (fldPath ++ [Child "omitStages"]) ++
       (if (0 <? length (ar_NonResourceURLs rule)) &&
           ((0 <? length (ar_Resources rule)) || (0 <? length (ar_Namespaces rule)))
        then [Invalid (fldPath ++ [Child "nonResourceURLs"]) (ar_NonResourceURLs rule)
                "rules cannot apply to both regular resources and non-resource URLs"]
        else [])).

Fixpoint validateRules (rules : list AuditRule) (i : nat) : outcome (list field_error) :=
  match rules with
  | [] => Ret []
  | rule :: rest =>
      e ← validatePolicyRule rule (path_index "rules" i);
      es ← validateRules rest (S i);
      Ret (e ++ es)
  end.

Definition ValidatePolicy (policy : AuditPolicy) : outcome (list field_error) :=
  es ← validateRules (ap_Rules policy) 0;
  Ret (validateOmitStages (ap_OmitStages policy) [Child "omitStages"] ++ es).

(** [decode] is golib's universal decoder into an empty policy; the aggregate of
    the validation errors is recorded by their number. *)
Definition LoadPolicyFromBytes (decode : string → AuditPolicy + error) (policyDef : string)
    : outcome (AuditPolicy + error) :=
  match decode policyDef with
  | inr err => Ret (inr (ErrorWrap "failed decoding: %v" [] err))
  | inl policy =>
      errs ← ValidatePolicy policy;
      if bool_decide (errs ≠ []) then Ret (inr (Errorf "invalid policy" []))
      else if length (ap_Rules policy) =? 0
      then Ret (inr (Errorf "loaded illegal policy with 0 rules" []))
      else Ret (inl policy)
  end.
End validation.

(** ** Stage sets (util.go) *)

Definition AllStages `{StringSets sset} : sset :=
  sets_NewString [StageRequestReceived; StageResponseStarted; StageResponseComplete; StagePanic].

Definition AllLevels `{StringSets sset} : sset :=
  sets_NewString [LevelNone; LevelMetadata; LevelRequest; LevelRequestResponse].

Definition InvertStages `{StringSets sset} (stages : list Stage) : list Stage :=
  sets_List (sets_Delete AllStages stages).

(** ** Filling in an event (request.go) *)

Definition with_Annotations (e : Event) (m : gmap string string) : Event :=
  {| ev_Level := ev_Level e; ev_AuditID := ev_AuditID e; ev_Stage := ev_Stage e; ev_RequestURI := ev_RequestURI e;
     ev_Verb := ev_Verb e; ev_User := ev_User e; ev_ImpersonatedUser := ev_ImpersonatedUser e;
     ev_SourceIPs := ev_SourceIPs e; ev_UserAgent := ev_UserAgent e; ev_ObjectRef := ev_ObjectRef e;
     ev_ResponseStatus := ev_ResponseStatus e; ev_RequestObject := ev_RequestObject e;
     ev_ResponseObject := ev_ResponseObject e;
     ev_RequestReceivedTimestamp := ev_RequestReceivedTimestamp e; ev_StageTimestamp := ev_StageTimestamp e;
     ev_Annotations := m |}.

Definition with_Impersonated (e : Event) (u : UserInfo) : Event :=
  {| ev_Level := ev_Level e; ev_AuditID := ev_AuditID e; ev_Stage := ev_Stage e; ev_RequestURI := ev_RequestURI e;
     ev_Verb := ev_Verb e; ev_User := ev_User e; ev_ImpersonatedUser := Some u;
     ev_SourceIPs := ev_SourceIPs e; ev_UserAgent := ev_UserAgent e; ev_ObjectRef := ev_ObjectRef e;
     ev_ResponseStatus := ev_ResponseStatus e; ev_RequestObject := ev_RequestObject e;
     ev_ResponseObject := ev_ResponseObject e;
     ev_RequestReceivedTimestamp := ev_RequestReceivedTimestamp e; ev_StageTimestamp := ev_StageTimestamp e;
     ev_Annotations := ev_Annotations e |}.

Definition with_Object (e : Event) (ref : option ObjectReference) (st : option Status) : Event :=
  {| ev_Level := ev_Level e; ev_AuditID := ev_AuditID e; ev_Stage := ev_Stage e; ev_RequestURI := ev_RequestURI e;
     ev_Verb := ev_Verb e; ev_User := ev_User e; ev_ImpersonatedUser := ev_ImpersonatedUser e;
     ev_SourceIPs := ev_SourceIPs e; ev_UserAgent := ev_UserAgent e; ev_ObjectRef := ref;
     ev_ResponseStatus := st; ev_RequestObject := ev_RequestObject e;
     ev_ResponseObject := ev_ResponseObject e;
     ev_RequestReceivedTimestamp := ev_RequestReceivedTimestamp e; ev_StageTimestamp := ev_StageTimestamp e;
     ev_Annotations := ev_Annotations e |}.

(** The event pointer may be nil ([None]); the functions return the event after
    the call. *)
Definition LogAnnotation (ae : option Event) (key value : string) : option Event :=
  match ae with
  | None => None
  | Some e =>
      if Level_Less (ev_Level e) LevelMetadata then Some e
      else match ev_Annotations e !! key with
      | Some v => if v != value then Some e else Some (with_Annotations e (<[key := value]> (ev_Annotations e)))
      | None => Some (with_Annotations e (<[key := value]> (ev_Annotations e)))
      end
  end.

Definition userInfoOf (u : DefaultInfo) : UserInfo :=
  {| ui_Username := u_Name u; ui_UID := u_UID u; ui_Groups := u_Groups u; ui_Extra := u_Extra u |}.

Definition LogImpersonatedUser (ae : option Event) (user : DefaultInfo) : option Event :=
  match ae with
  | None => None
  | Some e =>
      if Level_Less (ev_Level e) LevelMetadata then Some e
      else Some (with_Impersonated e (userInfoOf user))
  end.

Definition emptyObjectReference : ObjectReference :=
  {| or_Resource := ""; or_Namespace := ""; or_Name := ""; or_Subresource := ""; or_APIGroup := "";
     or_APIVersion := "" |}.

(** [encoded] is the JSON of the object, or the marshalling error.  The name comes
    from reflect.TypeOf of a reflect.Value, whose type name is "Value". *)
Definition LogRequestObject (ae : option Event) (encoded : Unknown + error) (subresource : string) : option Event :=
  match ae with
  | None => None
  | Some e =>
      if Level_Less (ev_Level e) LevelMetadata then Some e
      else
        let ref := default emptyObjectReference (ev_ObjectRef e) in
        let ref :=
          {| or_Resource := or_Resource ref; or_Namespace := or_Namespace ref;
             or_Name := if slen (or_Name ref) =? 0 then "Value" else or_Name ref;
             or_Subresource := if slen (or_Subresource ref) =? 0 then subresource else or_Subresource ref;
             or_APIGroup := or_APIGroup ref; or_APIVersion := or_APIVersion ref |} in
        let e := with_Object e (Some ref) (ev_ResponseStatus e) in
        if Level_Less (ev_Level e) LevelRequest then Some e
        else Some (set_level_objects e (ev_Level e)
                     (match encoded with inl raw => Some raw | inr _ => None end) (ev_ResponseObject e))
  end.

Definition LogRequestPatch (ae : option Event) (patch : string) : option Event :=
  match ae with
  | None => None
  | Some e =>
      if Level_Less (ev_Level e) LevelRequest then Some e
      else Some (set_level_objects e (ev_Level e) (Some patch) (ev_ResponseObject e))
  end.

(** [status] is the object when it is an api.Status. *)
Definition LogResponseObject (ae : option Event) (status : option Status) (encoded : Unknown + error)
    : option Event :=
  match ae with
  | None => None
  | Some e =>
      if Level_Less (ev_Level e) LevelMetadata then Some e
      else
        let e :=
          match status with
          | Some st =>
              with_Object e (ev_ObjectRef e)
                (Some {| st_Status := st_Status st; st_Message := ""; st_Reason := st_Reason st; st_Code := st_Code st |})
          | None => e
          end in
        if Level_Less (ev_Level e) LevelRequestResponse then Some e
        else Some (set_level_objects e (ev_Level e) (ev_RequestObject e)
                     (match encoded with inl raw => Some raw | inr _ => None end))
  end.

Definition maxUserAgentLength : nat := 1024.
Definition userAgentTruncateSuffix : string := "...TRUNCATED".

Definition maybeTruncateUserAgent (ua : string) : string :=
  if maxUserAgentLength <? slen ua then stake maxUserAgentLength ua +:+ userAgentTruncateSuffix else ua.

Definition NewEventFromRequest (h : Header) (requestURI : string) (sourceIPs : list string) (newUID : string)
    (received : Z) (level : Level) (attribs : AttributesRecord) (pending : list (string * string)) : Event :=
  let ids := Header_Get h "Audit-Id" in
  let ev :=
    {| ev_Level := level;
       ev_AuditID := if ids != "" then ids else newUID;
       ev_Stage := "";
       ev_RequestURI := requestURI;
       ev_Verb := a_Verb attribs;
       ev_User := match a_User attribs with
                  | Some u => userInfoOf u
                  | None => {| ui_Username := ""; ui_UID := ""; ui_Groups := []; ui_Extra := ∅ |}
                  end;
       ev_ImpersonatedUser := None;
       ev_SourceIPs := sourceIPs;
       ev_UserAgent := maybeTruncateUserAgent (Header_Get h "User-Agent");
       ev_ObjectRef :=
         if a_ResourceRequest attribs
         then Some {| or_Resource := a_Resource attribs; or_Namespace := a_Namespace attribs;
                      or_Name := a_Name attribs; or_Subresource := a_Subresource attribs;
                      or_APIGroup := a_APIGroup attribs; or_APIVersion := a_APIVersion attribs |}
         else None;
       ev_ResponseStatus := None; ev_RequestObject := None; ev_ResponseObject := None;
       ev_RequestReceivedTimestamp := received; ev_StageTimestamp := 0; ev_Annotations := ∅ |} in
  default ev (fold_left (λ ae kv, LogAnnotation ae kv.1 kv.2) pending (Some ev)).

(** context.go: what AddAuditAnnotation does to a request's context, which holds an
    audit event, or annotations waiting for one, or neither. *)
Record auditContext := { ac_event : option Event; ac_pending : option (list (string * string)) }.

Definition WithAuditAnnotations (c : auditContext) : auditContext :=
  match ac_pending c with
  | Some _ => c
  | None => {| ac_event := ac_event c; ac_pending := Some [] |}
  end.

Definition AddAuditAnnotation (c : auditContext) (key value : string) : auditContext :=
  match ac_event c with
  | Some e => {| ac_event := LogAnnotation (Some e) key value; ac_pending := ac_pending c |}
  | None =>
      match ac_pending c with
      | None => c
      | Some l => {| ac_event := None; ac_pending := Some (l ++ [(key, value)]) |}
      end
  end.

(** ** Theorems *)

Lemma hasString_spec l x : hasString l x = bool_decide (x ∈ l).
Proof. apply existsb_eq_elem_of. Qed.

(** *** What a rule covers, declaratively *)

Definition any_or {A} (l : list A) (P : Prop) : Prop := l = [] ∨ P.

Definition res_covers (resource subresource res : string) : Prop :=
  res = "*" ∨ res = (if subresource == "" then resource else resource +:+ "/" +:+ subresource) ∨
  (subresource ≠ "" ∧ res = "*/" +:+ subresource) ∨ res = resource +:+ "/*".

Definition resources_cover (r : AuditRule) (a : AttributesRecord) : Prop :=
  any_or (ar_Resources r) (∃ gr, gr ∈ ar_Resources r ∧ gr_Group gr = a_APIGroup a ∧
    any_or (gr_Resources gr)
      (any_or (gr_ResourceNames gr) (a_Name a ∈ gr_ResourceNames gr) ∧
       ∃ res, res ∈ gr_Resources gr ∧ res_covers (a_Resource a) (a_Subresource a) res)).

(** Every field that is set must match; resources and namespaces make it a resource
    rule, otherwise URLs make it a non-resource rule. *)
Definition rule_covers (r : AuditRule) (a : AttributesRecord) : Prop :=
  any_or (ar_Users r) (∃ u, a_User a = Some u ∧ u_Name u ∈ ar_Users r) ∧
  any_or (ar_UserGroups r) (∃ u g, a_User a = Some u ∧ g ∈ u_Groups u ∧ g ∈ ar_UserGroups r) ∧
  any_or (ar_Verbs r) (a_Verb a ∈ ar_Verbs r) ∧
  if decide (ar_Namespaces r = [] ∧ ar_Resources r = [])
  then any_or (ar_NonResourceURLs r)
         (a_ResourceRequest a = false ∧
          ∃ spec, spec ∈ ar_NonResourceURLs r ∧ pathMatches (a_Path a) spec = true)
  else a_ResourceRequest a = true ∧ any_or (ar_Namespaces r) (a_Namespace a ∈ ar_Namespaces r) ∧
       resources_cover r a.

Lemma resourcePattern_spec resource subresource res :
  resourcePattern resource subresource res = true ↔ res_covers resource subresource res.
Proof.
  unfold resourcePattern, res_covers. rewrite slen_pos.
  assert ((if subresource != "" then resource +:+ "/" +:+ subresource else resource) =
          (if subresource == "" then resource else resource +:+ "/" +:+ subresource)) as ->
    by (by case_bool_decide).
  set (combined := if subresource == "" then _ else _).
  assert ((subresource != "") && HasPrefix res "*/" && (subresource == TrimPrefix res "*/") = true ↔
          subresource ≠ "" ∧ res = "*/" +:+ subresource) as Hstar.
  { rewrite !andb_true_iff, HasPrefix_spec, negb_true_iff, bool_decide_eq_true, bool_decide_eq_false. split.
    - intros [[? [t ->]] ->]. by rewrite TrimPrefix_app.
    - intros [? ->]. rewrite TrimPrefix_app. split; [split; [done|by eexists]|done]. }
  assert (HasSuffix res "/*" && (resource == TrimSuffix res "/*") = true ↔ res = resource +:+ "/*") as Hall.
  { rewrite andb_true_iff, HasSuffix_spec, bool_decide_eq_true. split.
    - intros [[t ->] ->]. by rewrite TrimSuffix_app.
    - intros ->. rewrite TrimSuffix_app. split; [by eexists|done]. }
  rewrite <- Hstar, <- Hall.
  destruct (decide (res = combined)); [rewrite bool_decide_true by done; tauto|].
  rewrite (bool_decide_false (res = combined)) by done.
  destruct (decide (res = "*")); [rewrite bool_decide_true by done; tauto|].
  rewrite bool_decide_false by done. simpl.
  destruct (_ && (subresource == _)), (HasSuffix _ _ && _); intuition congruence.
Qed.

Lemma length_pos {A} (l : list A) : (0 <? length l) = bool_decide (l ≠ []).
Proof. by destruct l. Qed.

Lemma guard_any {A} (l : list A) (b : bool) (P : Prop) :
  (b = true ↔ ¬ P) → base.Decision P → ((0 <? length l) && b = false ↔ any_or l P).
Proof.
  intros Hb HP. unfold any_or. rewrite length_pos. destruct l; simpl; [naive_solver|].
  destruct b, (decide P); intuition congruence.
Qed.

Lemma ruleMatchesResource_spec r a :
  ruleMatchesResource r a = true ↔
  a_ResourceRequest a = true ∧ any_or (ar_Namespaces r) (a_Namespace a ∈ ar_Namespaces r) ∧
  resources_cover r a.
Proof.
  unfold ruleMatchesResource, resources_cover. destruct (a_ResourceRequest a); [|naive_solver].
  assert (Hns : (0 <? length (ar_Namespaces r)) && negb (hasString (ar_Namespaces r) (a_Namespace a)) = false ↔
          any_or (ar_Namespaces r) (a_Namespace a ∈ ar_Namespaces r)).
  { apply guard_any; [|apply _]. by rewrite hasString_spec, negb_bool_decide, bool_decide_eq_true. }
  rewrite <- Hns. cbn [negb]. destruct ((0 <? length (ar_Namespaces r)) && _); [intuition congruence|].
  unfold any_or at 1. destruct (ar_Resources r) as [|gr0 grs]; [simpl; naive_solver|].
  cbn [length Nat.eqb]. rewrite existsb_elem_of.
  assert (∀ gr, (if gr_Group gr == a_APIGroup a then
      if length (gr_Resources gr) =? 0 then true
      else existsb (λ res,
        if (length (gr_ResourceNames gr) =? 0) || hasString (gr_ResourceNames gr) (a_Name a)
        then resourcePattern (a_Resource a) (a_Subresource a) res else false) (gr_Resources gr)
    else false) = true ↔
    gr_Group gr = a_APIGroup a ∧ any_or (gr_Resources gr)
      (any_or (gr_ResourceNames gr) (a_Name a ∈ gr_ResourceNames gr) ∧
       ∃ res, res ∈ gr_Resources gr ∧ res_covers (a_Resource a) (a_Subresource a) res)) as Hgr.
  { intros gr. case_bool_decide; [|intuition congruence].
    unfold any_or. destruct (gr_Resources gr) as [|res0 ress]; [simpl; intuition|]. cbn [length Nat.eqb].
    assert ((length (gr_ResourceNames gr) =? 0) || hasString (gr_ResourceNames gr) (a_Name a) = true ↔
            gr_ResourceNames gr = [] ∨ a_Name a ∈ gr_ResourceNames gr) as <-.
    { rewrite orb_true_iff, hasString_spec, bool_decide_eq_true, Nat.eqb_eq, length_zero_iff_nil. done. }
    destruct ((length (gr_ResourceNames gr) =? 0) || _).
    - rewrite existsb_elem_of. setoid_rewrite resourcePattern_spec. intuition congruence.
    - rewrite existsb_elem_of. naive_solver. }
  setoid_rewrite Hgr. intuition congruence.
Qed.

Lemma ruleMatches_spec r a : ruleMatches r a = true ↔ rule_covers r a.
Proof.
  unfold ruleMatches, rule_covers. cbn zeta.
  assert (Hu : (0 <? length (ar_Users r)) &&
    match a_User a with None => true | Some u => negb (hasString (ar_Users r) (u_Name u)) end = false ↔
    any_or (ar_Users r) (∃ u, a_User a = Some u ∧ u_Name u ∈ ar_Users r)).
  { unfold any_or. rewrite length_pos. destruct (ar_Users r) as [|x l]; [simpl; naive_solver|].
    rewrite bool_decide_true by done. cbn [andb].
    destruct (a_User a) as [u|]; [|naive_solver].
    rewrite hasString_spec, negb_bool_decide, bool_decide_eq_false. split; [|naive_solver].
    intros ?%dec_stable. eauto. }
  assert (Hg : (0 <? length (ar_UserGroups r)) &&
    match a_User a with None => true | Some u => negb (existsb (hasString (ar_UserGroups r)) (u_Groups u)) end
      = false ↔
    any_or (ar_UserGroups r) (∃ u g, a_User a = Some u ∧ g ∈ u_Groups u ∧ g ∈ ar_UserGroups r)).
  { unfold any_or. rewrite length_pos. destruct (ar_UserGroups r) as [|x l] eqn:Hl; [simpl; naive_solver|].
    rewrite bool_decide_true by done. cbn [andb].
    destruct (a_User a) as [u|]; [|naive_solver]. rewrite negb_false_iff, existsb_elem_of.
    setoid_rewrite hasString_spec. setoid_rewrite bool_decide_eq_true. naive_solver. }
  assert (Hv : (0 <? length (ar_Verbs r)) && negb (hasString (ar_Verbs r) (a_Verb a)) = false ↔
               any_or (ar_Verbs r) (a_Verb a ∈ ar_Verbs r)).
  { apply guard_any; [|apply _]. by rewrite hasString_spec, negb_bool_decide, bool_decide_eq_true. }
  rewrite <- Hu, <- Hg, <- Hv.
  destruct (_ && match a_User a with Some u => negb (hasString _ _) | None => true end); [intuition congruence|].
  destruct (_ && match a_User a with Some u => negb (existsb _ _) | None => true end); [intuition congruence|].
  destruct (_ && negb (hasString (ar_Verbs r) _)); [intuition congruence|].
  rewrite !length_pos, <- bool_decide_or. destruct (decide (ar_Namespaces r = [] ∧ ar_Resources r = [])) as [[Hn Hr]|Hnr].
  - rewrite bool_decide_false by naive_solver. unfold ruleMatchesNonResource, any_or.
    destruct (ar_NonResourceURLs r) as [|x l]; [simpl; naive_solver|]. rewrite bool_decide_true by done.
    destruct (a_ResourceRequest a); [naive_solver|]. rewrite existsb_elem_of. naive_solver.
  - rewrite bool_decide_true by (destruct (ar_Namespaces r); naive_solver).
    rewrite ruleMatchesResource_spec. naive_solver.
Qed.

Lemma unionStages_elem l1 l2 s : s ∈ unionStages [l1; l2] ↔ s ∈ l1 ∨ s ∈ l2.
Proof. unfold unionStages. rewrite elem_of_elements. simpl. set_solver. Qed.

Lemma ruleMatches_set_OmitStages r stages a : ruleMatches (set_OmitStages r stages) a = ruleMatches r a.
Proof. done. Qed.

Lemma find_fmap {A B} (f : B → bool) (g : A → B) l :
  List.find f (g <$> l) = g <$> List.find (λ x, f (g x)) l.
Proof. induction l as [|x l IH]; simpl; [done|]. by destruct (f (g x)). Qed.

Lemma find_split {A} (f : A → bool) l x :
  List.find f l = Some x ↔
  ∃ pre post, l = pre ++ x :: post ∧ f x = true ∧ ∀ y, y ∈ pre → f y = false.
Proof.
  induction l as [|y l IH]; simpl.
  - split; [done|]. by intros ([] & ? & ? & _).
  - destruct (f y) eqn:Hy.
    + split.
      * intros [= ->]. exists [], l. split; [done|]. set_solver.
      * intros ([|z pre] & post & Heq & Hx & Hpre); simplify_eq/=; [done|].
        rewrite Hpre in Hy by set_solver. done.
    + rewrite IH. split.
      * intros (pre & post & -> & Hx & Hpre). exists (y :: pre), post. set_solver.
      * intros ([|z pre] & post & Heq & Hx & Hpre); simplify_eq/=; [congruence|].
        exists pre, post. set_solver.
Qed.

(** The checker built from a policy records a request at the level of the FIRST
    rule that covers it (every field that is set matches), omitting the stages of
    the policy and of the rule together; a request no rule covers is not audited. *)
Theorem LevelAndStages_spec p a :
  let '(level, stages) := LevelAndStages (NewChecker p) a in
  (∃ pre r post, ap_Rules p = pre ++ r :: post ∧ rule_covers r a ∧ (∀ r', r' ∈ pre → ¬ rule_covers r' a) ∧
     level = ar_Level r ∧ ∀ s, s ∈ stages ↔ s ∈ ap_OmitStages p ∨ s ∈ ar_OmitStages r) ∨
  ((∀ r, r ∈ ap_Rules p → ¬ rule_covers r a) ∧ level = LevelNone ∧ stages = ap_OmitStages p).
Proof.
  unfold LevelAndStages, NewChecker. cbn [ap_Rules ap_OmitStages]. rewrite find_fmap.
  destruct (List.find _ (ap_Rules p)) as [r|] eqn:Hfind; simpl.
  - left. apply find_split in Hfind as (pre & post & Heq & Hr & Hpre).
    exists pre, r, post. setoid_rewrite <- ruleMatches_spec. split_and!; [done..| |done|].
    + intros r' Hr'. specialize (Hpre r' Hr'). rewrite ruleMatches_set_OmitStages in Hpre. congruence.
    + intros s. apply unionStages_elem.
  - right. split; [|done]. intros r Hr. rewrite <- ruleMatches_spec.
    apply list_elem_of_In in Hr. eapply List.find_none in Hfind; [|done].
    rewrite ruleMatches_set_OmitStages in Hfind. congruence.
Qed.

(** Enforcing a level never leaks: the event that comes out carries the level
    asked for, is not at an omitted stage, has no response object below
    RequestResponse and no request object below Request, and is otherwise the
    event that went in; nothing comes out at an omitted stage or at level None, and
    an unknown level is an error. *)
Theorem EnforcePolicy_spec e level omit :
  match EnforcePolicy e level omit with
  | inl (Some e') =>
      ev_Stage e ∉ omit ∧ level ∈ [LevelMetadata; LevelRequest; LevelRequestResponse] ∧
      e' = set_level_objects e level (ev_RequestObject e') (ev_ResponseObject e') ∧
      ev_RequestObject e' = (if Level_GreaterOrEqual level LevelRequest then ev_RequestObject e else None) ∧
      ev_ResponseObject e' = (if Level_GreaterOrEqual level LevelRequestResponse then ev_ResponseObject e else None)
  | inl None => ev_Stage e ∈ omit ∨ level = LevelNone
  | inr err => ev_Stage e ∉ omit ∧ level ∉ validLevels ∧ err = Errorf "level unknown: %s" [level]
  end.
Proof.
  unfold EnforcePolicy. rewrite existsb_eq_elem_of_r.
  case_bool_decide as Homit; [by left|]. unfold enforceLevel.
  destruct (decide (level = LevelMetadata)) as [->|]; [split_and!; done || set_solver|].
  rewrite (bool_decide_false (level = LevelMetadata)) by done.
  destruct (decide (level = LevelRequest)) as [->|]; [split_and!; done || set_solver|].
  rewrite (bool_decide_false (level = LevelRequest)) by done.
  destruct (decide (level = LevelRequestResponse)) as [->|]; [split_and!; done || set_solver|].
  rewrite (bool_decide_false (level = LevelRequestResponse)) by done.
  case_bool_decide; [by right|]. split_and!; [done| |done]. unfold validLevels. set_solver.
Qed.

(** *** Validated policies *)

Section validated.
Context `{DNSValidation}.

Lemma validateResources_returns grs path : ∃ es, validateResources grs path = Ret es.
Proof.
  induction grs as [|gr grs [es IH]]; simpl; [by eexists|]. unfold NameIsDNSSubdomain.
  destruct (negb _); simpl; rewrite IH; by eexists.
Qed.

Lemma validateRules_spec rules i es :
  validateRules rules i = Ret es → es = [] → Forall (λ r, ar_Level r ∈ validLevels) rules.
Proof.
  revert i es. induction rules as [|r rules IH]; intros i es; simpl; [by intros; constructor|].
  unfold validatePolicyRule. destruct (validateResources_returns (ar_Resources r) (path_index "rules" i ++ [Child "resources"]))
    as [es' ->]. cbn. intros (es2 & Hes2 & Heq)%bind_Ret ->. injection Heq as Heq.
  apply app_eq_nil in Heq as [Hr ->]. apply app_eq_nil in Hr as [Hlevel _].
  constructor; [|by eapply IH]. unfold validateLevel in Hlevel.
  case_bool_decide; [done|]. by case_bool_decide.
Qed.

(** A policy that loads is safe to enforce: whatever the request and the event,
    the checker built from it never asks for a level the enforcement rejects. *)
Theorem loaded_policy_enforceable decode def p a e :
  LoadPolicyFromBytes decode def = Ret (inl p) →
  let '(level, stages) := LevelAndStages (NewChecker p) a in
  ∃ e', EnforcePolicy e level stages = inl e'.
Proof.
  unfold LoadPolicyFromBytes. destruct (decode def) as [p'|]; [|done]. unfold ValidatePolicy.
  intros (errs & (es & Hes & [= Herrs])%bind_Ret & Hp)%bind_Ret.
  case_bool_decide as Hne; [done|]. destruct (length (ap_Rules p') =? 0); [done|]. injection Hp as ->.
  rewrite Hne in Herrs. apply app_eq_nil in Herrs as [_ ->].
  pose proof (validateRules_spec _ _ _ Hes eq_refl) as Hlevels.
  destruct (LevelAndStages (NewChecker p) a) as [level stages] eqn:Hls.
  assert (level ∈ validLevels) as Hlevel.
  { unfold LevelAndStages in Hls. destruct (List.find _ _) as [r|] eqn:Hfind.
    - injection Hls as <- _. apply List.find_some in Hfind as [Hin _].
      rewrite <- list_elem_of_In in Hin. apply list_elem_of_fmap in Hin as (r' & -> & Hr').
      rewrite Forall_forall in Hlevels. exact (Hlevels r' Hr').
    - injection Hls as <- _. unfold validLevels, DefaultAuditLevel. set_solver. }
  unfold EnforcePolicy. destruct (existsb _ _); [by eexists|]. unfold enforceLevel.
  repeat (case_bool_decide; [by eexists|]). exfalso. unfold validLevels in Hlevel. set_solver.
Qed.
End validated.

(** *** Annotations *)

(** An annotation is written once: logging a key that has a value keeps the first
    value, logging a fresh key adds exactly that pair, and an event below Metadata
    (or a nil event) takes none. *)
Theorem LogAnnotation_spec ae key value :
  LogAnnotation ae key value =
  match ae with
  | Some e =>
      if Level_Less (ev_Level e) LevelMetadata then Some e
      else Some (with_Annotations e ({[ key := default value (ev_Annotations e !! key) ]} ∪ ev_Annotations e))
  | None => None
  end.
Proof.
  unfold LogAnnotation. destruct ae as [e|]; [|done]. destruct (Level_Less _ _); [done|].
  destruct (ev_Annotations e !! key) as [v|] eqn:Hv; simpl.
  - assert ({[key := v]} ∪ ev_Annotations e = ev_Annotations e) as ->.
    { rewrite <- insert_union_singleton_l. by apply insert_id. }
    destruct (decide (v = value)) as [->|]; [rewrite bool_decide_true by done|rewrite bool_decide_false by done];
      simpl; [by rewrite insert_id|]. by destruct e.
  - by rewrite <- insert_union_singleton_l.
Qed.

(** The truncated user agent is bounded. *)
Lemma maybeTruncateUserAgent_bound ua :
  slen (maybeTruncateUserAgent ua) ≤ maxUserAgentLength + slen userAgentTruncateSuffix.
Proof.
  unfold maybeTruncateUserAgent. destruct (Nat.ltb_spec maxUserAgentLength (slen ua)).
  - rewrite slen_app, slen_stake. lia.
  - lia.
Qed.

(** A request object logged on an event whose reference has no name (a create)
    puts the constant "Value" there: the type name is taken of the reflect.Value
    and not of the object. *)
Theorem LogRequestObject_name e encoded sub ref :
  ev_ObjectRef e = Some ref → or_Name ref = "" → Level_Less (ev_Level e) LevelMetadata = false →
  ∃ e' ref', LogRequestObject (Some e) encoded sub = Some e' ∧ ev_ObjectRef e' = Some ref' ∧
    or_Name ref' = "Value".
Proof.
  intros Href Hname Hlevel. unfold LogRequestObject. rewrite Hlevel, Href. simpl. rewrite Hname.
  destruct (Level_Less _ LevelRequest); do 2 eexists; (split; [done|]); done.
Qed.

(** ** Witnesses *)

Module AuditPolicyExamples.
Definition rule : AuditRule :=
  {| ar_Level := LevelMetadata; ar_Users := []; ar_UserGroups := []; ar_Verbs := []; ar_Resources := [];
     ar_Namespaces := []; ar_NonResourceURLs := []; ar_OmitStages := [] |}.
Definition policy : AuditPolicy := {| ap_Rules := [rule]; ap_OmitStages := [StagePanic] |}.

Definition dns_any : DNSValidation :=
  {| IsDNS1123Label _ := []; IsDNS1123Subdomain _ := []; IsDNS1035Label _ := [] |}.

Definition request : AttributesRecord :=
  {| a_User := None; a_Verb := "create"; a_Namespace := "ns1"; a_APIGroup := ""; a_APIVersion := "v1";
     a_Resource := "pods"; a_Subresource := ""; a_Name := ""; a_ResourceRequest := true; a_Path := "" |}.

Definition event : Event := NewEventFromRequest ∅ "/" [] "id" 0 LevelMetadata request [].

Lemma loaded_policy_enforceable_witness :
  @LoadPolicyFromBytes dns_any (λ _, inl policy) "" = Ret (inl policy) ∧
  let '(level, stages) := LevelAndStages (NewChecker policy) request in
  ∃ e', EnforcePolicy event level stages = inl e'.
Proof.
  split; [vm_compute; reflexivity|].
  apply (@loaded_policy_enforceable dns_any (λ _, inl policy) "" policy request event).
  vm_compute. reflexivity.
Defined.

Lemma LogRequestObject_name_witness :
  ∃ e' ref', LogRequestObject (Some event) (inl "{}") "" = Some e' ∧ ev_ObjectRef e' = Some ref' ∧
    or_Name ref' = "Value".
Proof. eapply (LogRequestObject_name event (inl "{}") ""); reflexivity. Defined.
End AuditPolicyExamples.
