(* ===== verification/AuditBackends.v ===== *)
(** * Audit backends

    Models pkg/audit/union.go, plugin/audit/truncate and plugin/audit/buffered.

    A backend's ProcessEvents is a state-passing function on the backend's own
    state.  The truncating backend's event sizes come from golib's encoder, a
    parameter; sizes are int64 and their sum wraps around.  The buffered backend
    is a step relation: callers of ProcessEvents, the batching goroutine, the
    delegate calls and the closing of stopCh interleave freely.  processEvents
    hands a batch over in one step and the delegate call begins and returns in
    later ones: with AsyncDelegate in any order, without it while the batching
    goroutine waits.  The throttle only delays and is left out; a delegate call
    that panics is recovered by HandleCrash (unless golib's ReallyCrash is set,
    which ends the process) and counts as returned. *)

From S2P Require Import Prelude GoStrings Authorizer AuditPolicy.

Local Open Scope go_scope.

(** ** Union *)

Section union.
Context {S : Type}.

(** What the union uses of a backend: its ProcessEvents, and a name by which Run
    and Shutdown calls are recorded. *)
Record Backend := { b_name : string; b_ProcessEvents : list Event → ST S bool }.

Fixpoint union_loop (backends : list Backend) (events : list Event) (success : bool) : ST S bool :=
  match backends with
  | [] => mret success
  | backend :: rest => ok ← b_ProcessEvents backend events; union_loop rest events (ok && success)
  end.

Definition union_ProcessEvents (backends : list Backend) (events : list Event) : ST S bool :=
  union_loop backends events true.

(** The closures of Run share the loop variable (go.mod says go 1.20), which holds
    the last backend when AggregateGoroutines calls them: the backends whose Run
    is called, one per closure. *)
Definition union_Run (backends : list Backend) : list string :=
  match last backends with
  | Some backend => replicate (length backends) (b_name backend)
  | None => []
  end.

Definition union_Shutdown (backends : list Backend) : list string := b_name <$> backends.

Definition union_String (backends : list Backend) : string :=
  "union[" +:+ Join (b_name <$> backends) "," +:+ "]".
End union.
Arguments Backend S : clear implicits.

(** ** Truncation *)

(** Two's-complement wrap-around of int64. *)
Definition int64 (z : Z) : Z := ((z + 2 ^ 63) mod 2 ^ 64 - 2 ^ 63)%Z.

Record truncate_Config := { MaxEventSize : Z; MaxBatchSize : Z }.

Definition annotationKey : string := "audit.k8s.io/truncated".
Definition annotationValue : string := "true".

(** The shallow copy shares the annotations map with the original unless that map
    is nil ([∅] here): the pair is the truncated copy and the original after the
    call. *)
Definition truncate (e : Event) : Event * Event :=
  let copy := set_level_objects e (ev_Level e) None None in
  let newEvent := default copy (LogAnnotation (Some copy) annotationKey annotationValue) in
  (newEvent, if ev_Annotations e == ∅ then e else with_Annotations e (ev_Annotations newEvent)).

Section truncate_backend.
(** The size of an event's encoding, or the encoder's error. *)
Context {S : Type} (calcSize : Event → Z + error) (c : truncate_Config).

(** The event the batch gets, with its size: the original or the truncated copy;
    or the event that is dropped, with the reason. *)
Definition prepare (event : Event) : (Event * Z) + (Event * error) :=
  let final (ev : Event) (r : Z + error) : (Event * Z) + (Event * error) :=
    match r with
    | inr err => inr (ev, err)
    | inl size =>
        if (MaxEventSize c <? size)%Z
        then inr (ev, Errorf "event is too large even after truncating" []) else inl (ev, size)
    end in
  match calcSize event with
  | inr err => final event (inr err)
  | inl size =>
      if (MaxEventSize c <? size)%Z && Level_GreaterOrEqual (ev_Level event) LevelRequest
      then let event := (truncate event).1 in final event (calcSize event)
      else final event (inl size)
  end.

(** The loop of ProcessEvents; the accumulators are its local variables. *)
Fixpoint truncate_loop (delegate : list Event → ST S bool) (events batch : list Event) (batchSize : Z)
    (success : bool) (impacted : list (Event * error)) : ST S (bool * list (Event * error)) :=
  match events with
  | [] =>
      success ← (if 0 <? length batch then ok ← delegate batch; mret (ok && success) else mret success);
      mret (success, impacted)
  | event :: rest =>
      match prepare event with
      | inr bad => truncate_loop delegate rest batch batchSize success (impacted ++ [bad])
      | inl (event, size) =>
          if (0 <? length batch) && (MaxBatchSize c <? int64 (batchSize + size))%Z then
            ok ← delegate batch;
            truncate_loop delegate rest [event] size (ok && success) impacted
          else
            truncate_loop delegate rest (batch ++ [event]) (int64 (batchSize + size)) success impacted
      end
  end.

(** The result, with the events reported to HandlePluginError. *)
Definition truncate_ProcessEvents (delegate : list Event → ST S bool) (events : list Event)
    : ST S (bool * list (Event * error)) :=
  truncate_loop delegate events [] 0 true [].

(** The caller's events after the call: an event that was truncated may have had
    its annotations edited. *)
Definition truncate_caller_view (event : Event) : Event :=
  match calcSize event with
  | inl size =>
      if (MaxEventSize c <? size)%Z && Level_GreaterOrEqual (ev_Level event) LevelRequest
      then (truncate event).2 else event
  | inr _ => event
  end.
End truncate_backend.

(** ** Buffering *)

(** Where the goroutine of Run is: collecting a batch while running, between two
    batches (the select on stopCh), draining the closed buffer, or gone. *)
Inductive phase := Running | Checking | Draining | Done.

Record buffered_state := {
  bs_buffer : list Event;      (* the channel *)
  bs_closed : bool;            (* the channel is closed *)
  bs_stopped : bool;           (* stopCh is closed *)
  bs_phase : phase;
  bs_batch : list Event;       (* the events collected so far *)
  bs_calls : list (list Event);     (* processEvents has got this far; its delegate calls have not begun *)
  bs_running : list (list Event);   (* delegate calls that have begun and not returned *)
  bs_delivered : list (list Event); (* ghost: the delegate calls, in the order in which they began *)
  bs_batches : list (list Event);   (* ghost: the batches, in the order of processEvents *)
  bs_accepted : list Event;    (* ghost: what ProcessEvents put into the channel *)
  bs_dropped : list Event;     (* ghost: what it reported to HandlePluginError *)
}.

Definition buffered_init : buffered_state :=
  {| bs_buffer := []; bs_closed := false; bs_stopped := false; bs_phase := Running; bs_batch := [];
     bs_calls := []; bs_running := []; bs_delivered := []; bs_batches := [];
     bs_accepted := []; bs_dropped := [] |}.

(** processEvents: an empty batch is not sent. *)
Definition deliver (batch : list Event) (batches : list (list Event)) : list (list Event) :=
  match batch with [] => batches | _ => batches ++ [batch] end.

(** One iteration of the loop of ProcessEvents: the event is queued, or ([None]) the
    channel is full or closed. *)
Definition buffered_try (cap : nat) (e : Event) (s : buffered_state) : option buffered_state :=
  if bs_closed s || (cap <=? length (bs_buffer s)) then None
  else Some {| bs_buffer := bs_buffer s ++ [e]; bs_closed := bs_closed s; bs_stopped := bs_stopped s;
               bs_phase := bs_phase s; bs_batch := bs_batch s;
               bs_calls := bs_calls s; bs_running := bs_running s;
               bs_delivered := bs_delivered s; bs_batches := bs_batches s;
               bs_accepted := bs_accepted s ++ [e]; bs_dropped := bs_dropped s |}.

(** HandlePluginError gets the events that were not queued. *)
Definition buffered_drop (evs : list Event) (s : buffered_state) : buffered_state :=
  {| bs_buffer := bs_buffer s; bs_closed := bs_closed s; bs_stopped := bs_stopped s;
     bs_phase := bs_phase s; bs_batch := bs_batch s;
     bs_calls := bs_calls s; bs_running := bs_running s;
     bs_delivered := bs_delivered s; bs_batches := bs_batches s;
     bs_accepted := bs_accepted s; bs_dropped := bs_dropped s ++ evs |}.

(** ProcessEvents, run without interruption: the first event that cannot be queued
    ends the loop and is dropped with the rest. *)
Fixpoint buffered_ProcessEvents (cap : nat) (evs : list Event) (s : buffered_state) : buffered_state :=
  match evs with
  | [] => s
  | e :: rest =>
      match buffered_try cap e s with
      | Some s' => buffered_ProcessEvents cap rest s'
      | None => buffered_drop evs s
      end
  end.

(** collectEvents takes the first event of the channel. *)
Definition receive (e : Event) (rest : list Event) (s : buffered_state) : buffered_state :=
  {| bs_buffer := rest; bs_closed := bs_closed s; bs_stopped := bs_stopped s;
     bs_phase := bs_phase s; bs_batch := bs_batch s ++ [e];
     bs_calls := bs_calls s; bs_running := bs_running s;
     bs_delivered := bs_delivered s; bs_batches := bs_batches s;
     bs_accepted := bs_accepted s; bs_dropped := bs_dropped s |}.

(** collectEvents returns and processEvents gets the batch: the go statement, or
    the point before the direct call; the goroutine is then at [ph]. *)
Definition hand_over (ph : phase) (s : buffered_state) : buffered_state :=
  {| bs_buffer := bs_buffer s; bs_closed := bs_closed s; bs_stopped := bs_stopped s;
     bs_phase := ph; bs_batch := [];
     bs_calls := deliver (bs_batch s) (bs_calls s); bs_running := bs_running s;
     bs_delivered := bs_delivered s; bs_batches := deliver (bs_batch s) (bs_batches s);
     bs_accepted := bs_accepted s; bs_dropped := bs_dropped s |}.

(** The state of the signals and of the goroutine. *)
Definition set_phase (closed stopped : bool) (ph : phase) (s : buffered_state) : buffered_state :=
  {| bs_buffer := bs_buffer s; bs_closed := closed; bs_stopped := stopped;
     bs_phase := ph; bs_batch := bs_batch s;
     bs_calls := bs_calls s; bs_running := bs_running s;
     bs_delivered := bs_delivered s; bs_batches := bs_batches s;
     bs_accepted := bs_accepted s; bs_dropped := bs_dropped s |}.

(** The state of the delegate calls. *)
Definition set_calls (calls running delivered : list (list Event)) (s : buffered_state) : buffered_state :=
  {| bs_buffer := bs_buffer s; bs_closed := bs_closed s; bs_stopped := bs_stopped s;
     bs_phase := bs_phase s; bs_batch := bs_batch s;
     bs_calls := calls; bs_running := running;
     bs_delivered := delivered; bs_batches := bs_batches s;
     bs_accepted := bs_accepted s; bs_dropped := bs_dropped s |}.

Section buffered.
(** The capacity of the channel, the maximum size of a batch, and whether
    processEvents starts a goroutine for each batch. *)
Context (cap maxBatchSize : nat) (asyncDelegate : bool).

(** May collectEvents break off here?  The batch is full, the timer fired (only
    armed with batches of more than one), stopCh is closed, or the channel is
    closed and empty.  While draining neither the timer nor stopCh is used. *)
Definition may_flush (s : buffered_state) : bool :=
  (maxBatchSize <=? length (bs_batch s)) ||
  match bs_phase s with
  | Running => (1 <? maxBatchSize) || bs_stopped s
  | Draining => bs_closed s && (length (bs_buffer s) =? 0)
  | _ => false
  end.

(** Is the batching goroutine free to go on?  Without asyncDelegate processEvents
    returns when its delegate call has returned. *)
Definition free (s : buffered_state) : bool :=
  asyncDelegate || ((length (bs_calls s) =? 0) && (length (bs_running s) =? 0)).

Inductive step : buffered_state → buffered_state → Prop :=
  (* a caller's ProcessEvents: one event is queued, or the rest is dropped *)
  | step_send s e s' : buffered_try cap e s = Some s' → step s s'
  | step_drop s e rest : buffered_try cap e s = None → step s (buffered_drop (e :: rest) s)
  (* stopCh is closed *)
  | step_stop s : step s (set_phase (bs_closed s) true (bs_phase s) s)
  (* a delegate call begins: goroutines do so in any order *)
  | step_begin s l1 batch l2 :
      bs_calls s = l1 ++ batch :: l2 →
      step s (set_calls (l1 ++ l2) (bs_running s ++ [batch]) (bs_delivered s ++ [batch]) s)
  (* a delegate call returns, or HandleCrash recovers its panic *)
  | step_return s l1 batch l2 :
      bs_running s = l1 ++ batch :: l2 →
      step s (set_calls (bs_calls s) (l1 ++ l2) (bs_delivered s) s)
  (* collectEvents receives an event *)
  | step_receive s e rest :
      free s = true → bs_phase s = Running ∨ bs_phase s = Draining →
      length (bs_batch s) < maxBatchSize → bs_buffer s = e :: rest →
      step s (receive e rest s)
  (* collectEvents returns, while running, and processEvents gets the batch *)
  | step_flush s :
      free s = true → bs_phase s = Running → may_flush s = true → step s (hand_over Checking s)
  (* the select on stopCh: go on, or close the channel and start draining *)
  | step_continue s :
      free s = true → bs_phase s = Checking → bs_stopped s = false →
      step s (set_phase (bs_closed s) (bs_stopped s) Running s)
  | step_close s :
      free s = true → bs_phase s = Checking → bs_stopped s = true →
      step s (set_phase true true Draining s)
  (* one round of the draining loop; it ends on an empty batch *)
  | step_drain s :
      free s = true → bs_phase s = Draining → may_flush s = true →
      step s (hand_over (match bs_batch s with [] => Done | _ => Draining end) s).

Definition reachable (s : buffered_state) : Prop := rtc step buffered_init s.
End buffered.

(** What Shutdown waits for before it shuts the delegate down: the goroutine of Run
    has gone, and (wg.Wait) no delegate call is left. *)
Definition shutdown_ready (s : buffered_state) : Prop :=
  bs_phase s = Done ∧ bs_calls s = [] ∧ bs_running s = [].

(** ** Theorems *)

(** *** Union *)

(** The union calls every backend once, in order, on the same events, even after
    one has failed, and reports success exactly when all of them did. *)
Theorem union_ProcessEvents_spec {S} (backends : list (Backend S)) events (s : S) :
  union_ProcessEvents backends events s =
  foldl (λ '(ok, s) b, let '(ok', s') := b_ProcessEvents b events s in (ok' && ok, s')) (true, s) backends.
Proof.
  unfold union_ProcessEvents. generalize true. revert s.
  induction backends as [|b bs IH]; intros s ok; [done|]. cbn [union_loop foldl].
  unfold mbind, ST_bind. destruct (b_ProcessEvents b events s) as [ok' s']. apply IH.
Qed.

(** Run of a union starts only its last backend, once per member: a union of
    two backends never starts the first, and starts the second twice. *)
Theorem union_Run_last {S} (backends : list (Backend S)) (b : Backend S) :
  union_Run (backends ++ [b]) = replicate (length backends + 1) (b_name b).
Proof. unfold union_Run. rewrite last_snoc, length_app. done. Qed.

(** *** Truncation *)

Section truncate_theorems.
Context {S : Type} (calcSize : Event → Z + error) (c : truncate_Config).

(** The reference: first prepare every event, then cut the sequence of prepared
    events greedily. *)
Fixpoint cut (evs : list (Event * Z)) (batch : list Event) (size : Z) : list (list Event) :=
  match evs with
  | [] => match batch with [] => [] | _ => [batch] end
  | (e, n) :: rest =>
      if (0 <? length batch) && (MaxBatchSize c <? int64 (size + n))%Z
      then batch :: cut rest [e] n
      else cut rest (batch ++ [e]) (int64 (size + n))
  end.

Definition kept (evs : list Event) : list (Event * Z) :=
  omap (λ e, match prepare calcSize c e with inl x => Some x | inr _ => None end) evs.
Definition rejected (evs : list Event) : list (Event * error) :=
  omap (λ e, match prepare calcSize c e with inl _ => None | inr x => Some x end) evs.

(** Hand the batches to the delegate in order; success if every call succeeds. *)
Fixpoint send (delegate : list Event → ST S bool) (batches : list (list Event)) (success : bool) : ST S bool :=
  match batches with
  | [] => mret success
  | b :: rest => ok ← delegate b; send delegate rest (ok && success)
  end.

Lemma truncate_loop_send delegate evs batch size success impacted s :
  truncate_loop calcSize c delegate evs batch size success impacted s =
  let '(ok, s') := send delegate (cut (kept evs) batch size) success s in
  ((ok, impacted ++ rejected evs), s').
Proof.
  revert batch size success impacted s.
  induction evs as [|e evs IH]; intros batch size success impacted s; cbn [truncate_loop].
  - unfold rejected. simpl. rewrite app_nil_r. destruct batch; [done|]. simpl.
    unfold mbind, ST_bind. by destruct (delegate _ s).
  - unfold kept, rejected. cbn [omap list_omap]. fold (kept evs) (rejected evs).
    destruct (prepare calcSize c e) as [[e' n]|bad].
    + cbn [cut]. destruct (_ && _).
      * cbn [send]. unfold mbind, ST_bind. destruct (delegate batch s) as [ok s']. apply IH.
      * apply IH.
    + rewrite IH. by rewrite <- app_assoc.
Qed.

(** A batch with its total size. *)
Definition sized (bs : list (Event * Z)) : Prop :=
  bs ≠ [] ∧ (length bs = 1 ∨ (foldr Z.add 0 bs.*2 ≤ MaxBatchSize c)%Z).

Lemma int64_id z : (- 2 ^ 63 ≤ z < 2 ^ 63)%Z → int64 z = z.
Proof. intros. unfold int64. rewrite Z.mod_small by lia. lia. Qed.

Definition total (bs : list (Event * Z)) : Z := foldr Z.add 0%Z bs.*2.

Lemma total_snoc bs e n : total (bs ++ [(e, n)]) = (total bs + n)%Z.
Proof.
  unfold total. rewrite fmap_app, foldr_app. simpl. rewrite Z.add_0_r.
  induction bs as [|[e' n'] bs IH]; cbn [fmap list_fmap foldr snd]; lia.
Qed.

(** Limits small enough for the sums not to wrap around. *)
Definition limits_ok : Prop := (0 ≤ MaxEventSize c < 2 ^ 62)%Z ∧ (0 ≤ MaxBatchSize c < 2 ^ 62)%Z.

Lemma cut_spec evs batch :
  limits_ok → Forall (λ en, (0 ≤ en.2 ≤ MaxEventSize c)%Z) evs →
  (batch = [] ∨ sized batch) → (0 ≤ total batch ≤ Z.max (MaxBatchSize c) (MaxEventSize c))%Z →
  ∃ groups, cut evs batch.*1 (total batch) = (λ g, g.*1) <$> groups ∧
    concat groups = batch ++ evs ∧ Forall sized groups.
Proof.
  intros [Hme Hmb] Hall. revert batch. induction Hall as [|[e n] evs Hn Hall IH]; intros batch Hb Ht.
  - destruct Hb as [->|Hb]; [by exists []|]. exists [batch]. simpl. rewrite !app_nil_r.
    split_and!; [|done|by constructor]. by destruct batch; [destruct Hb as [? _]|].
  - simpl in Hn. cbn [cut]. rewrite int64_id by lia. rewrite length_fmap.
    assert (total [(e, n)] = n) as Hn1 by (unfold total; simpl; lia).
    destruct (Nat.ltb_spec 0 (length batch)) as [Hlen|Hlen]; cbn [andb].
    + destruct (Z.ltb_spec (MaxBatchSize c) (total batch + n)) as [Hcut|Hfit].
      * destruct (IH [(e, n)]) as (groups & Heq & Hcat & Hsz); [by right; split; [|left]|lia|].
        rewrite Hn1 in Heq. exists (batch :: groups). cbn [fmap list_fmap concat].
        rewrite <- Heq, Hcat. split_and!; [done|done|]. constructor; [|done].
        destruct Hb as [->|Hb]; [simpl in Hlen; lia|done].
      * destruct (IH (batch ++ [(e, n)])) as (groups & Heq & Hcat & Hsz).
        { right. split; [by destruct batch|]. right. fold (total (batch ++ [(e, n)])). by rewrite total_snoc. }
        { rewrite total_snoc. lia. }
        rewrite total_snoc, fmap_app in Heq. exists groups. rewrite Hcat, <- app_assoc. done.
    + destruct batch; [|simpl in Hlen; lia]. destruct (IH [(e, n)]) as (groups & Heq & Hcat & Hsz);
        [by right; split; [|left]|lia|]. rewrite Hn1 in Heq. exists groups.
      split_and!; [exact Heq|by rewrite Hcat|done].
Qed.

Lemma prepare_bound e e' n :
  (∀ e n, calcSize e = inl n → (0 ≤ n)%Z) →
  prepare calcSize c e = inl (e', n) → calcSize e' = inl n ∧ (0 ≤ n ≤ MaxEventSize c)%Z.
Proof.
  intros Hpos. unfold prepare.
  destruct (calcSize e) as [size|] eqn:Hsize; [|done].
  destruct (_ && _).
  - destruct (calcSize (truncate e).1) as [size'|] eqn:Hsize'; [|done].
    destruct (Z.ltb_spec (MaxEventSize c) size'); [done|]. intros [= <- <-]. eauto.
  - destruct (Z.ltb_spec (MaxEventSize c) size); [done|]. intros [= <- <-]. eauto.
Qed.

(** The truncating backend forwards, in order and each exactly once, the events
    that fit (truncated first if that is what makes them fit), in non-empty
    batches that are single events or within the batch limit, and reports every
    other event; it succeeds when every delegate call does.  The sums of sizes
    do not wrap around below 2^62. *)
Theorem truncate_ProcessEvents_spec delegate evs s :
  limits_ok → (∀ e n, calcSize e = inl n → (0 ≤ n)%Z) →
  ∃ groups,
    truncate_ProcessEvents calcSize c delegate evs s =
      (let '(ok, s') := send delegate ((λ g, g.*1) <$> groups) true s in ((ok, rejected evs), s')) ∧
    concat groups = kept evs ∧
    Forall (λ en, calcSize en.1 = inl en.2 ∧ (en.2 ≤ MaxEventSize c)%Z) (concat groups) ∧
    Forall sized groups ∧
    length (kept evs) + length (rejected evs) = length evs.
Proof.
  intros Hlim Hpos. pose proof Hlim as [Hme Hmb].
  assert (Forall (λ en, calcSize en.1 = inl en.2 ∧ (0 ≤ en.2 ≤ MaxEventSize c)%Z) (kept evs)) as Hkept.
  { apply Forall_forall. intros [e' n] (e & He & Hprep)%list_elem_of_omap.
    destruct (prepare calcSize c e) as [[]|] eqn:Hp; [|done]. injection Hprep as -> ->.
    by eapply prepare_bound. }
  destruct (cut_spec (kept evs) []) as (groups & Heq & Hcat & Hsz); [done| |by left|unfold total; simpl; lia|].
  { eapply Forall_impl; [exact Hkept|]. by intros [] [_ ?]. }
  unfold total in Heq. simpl in Heq, Hcat. exists groups. split_and!; [|done| |done|].
  - unfold truncate_ProcessEvents. rewrite truncate_loop_send, Heq. by destruct (send _ _ _ _).
  - rewrite Hcat. eapply Forall_impl; [exact Hkept|]. intros [] [? ?]. simpl in *. split; [done|lia].
  - clear. unfold kept, rejected. induction evs as [|e evs IH]; [done|].
    cbn [omap list_omap]. destruct (prepare calcSize c e); cbn [length]; lia.
Qed.

(** Truncating an event also edits the event it was given: the copy shares its
    annotations map, so an original that has annotations gains the truncation
    mark although it keeps its request and response. *)
Theorem truncate_marks_original e :
  Level_GreaterOrEqual (ev_Level e) LevelRequest = true →
  ev_Annotations e ≠ ∅ → ev_Annotations e !! annotationKey = None →
  let '(copy, original) := truncate e in
  ev_RequestObject copy = None ∧ ev_ResponseObject copy = None ∧
  ev_RequestObject original = ev_RequestObject e ∧
  ev_Annotations original !! annotationKey = Some annotationValue.
Proof.
  intros Hlevel Hne Hnew. unfold truncate. rewrite bool_decide_false by done.
  assert (Level_Less (ev_Level e) LevelMetadata = false) as Hless.
  { unfold Level_GreaterOrEqual, Level_Less in *. apply Nat.leb_le in Hlevel. apply Nat.ltb_ge.
    change (ordLevel LevelRequest) with 2 in Hlevel. change (ordLevel LevelMetadata) with 1. lia. }
  unfold LogAnnotation. simpl. rewrite Hless, Hnew. simpl. by rewrite lookup_insert_eq.
Qed.
End truncate_theorems.

(** *** Buffering *)

Section buffered_theorems.
Context (cap maxBatchSize : nat) (asyncDelegate : bool).
Hypothesis cap_pos : 0 < cap.
Hypothesis batch_pos : 0 < maxBatchSize.

(** Nothing is lost, duplicated or reordered: what was accepted is what was
    batched, then what is being collected, then what waits in the channel; and
    each batch is a delegate call once. *)
Record buffered_inv (s : buffered_state) : Prop := {
  inv_fifo : concat (bs_batches s) ++ bs_batch s ++ bs_buffer s = bs_accepted s;
  inv_calls : bs_delivered s ++ bs_calls s ≡ₚ bs_batches s;
  inv_sync : asyncDelegate = false →
    bs_delivered s ++ bs_calls s = bs_batches s ∧ length (bs_calls s) + length (bs_running s) ≤ 1;
  inv_cap : length (bs_buffer s) ≤ cap;
  inv_batch : length (bs_batch s) ≤ maxBatchSize;
  inv_batches : Forall (λ b, b ≠ [] ∧ length b ≤ maxBatchSize) (bs_batches s);
  inv_closed : bs_closed s = true ↔ bs_phase s = Draining ∨ bs_phase s = Done;
  inv_checking : bs_phase s = Checking → bs_batch s = [];
  inv_done : bs_phase s = Done → bs_batch s = [] ∧ bs_buffer s = [];
}.

Lemma concat_deliver batch batches : concat (deliver batch batches) = concat batches ++ batch.
Proof. destruct batch; simpl; [by rewrite app_nil_r|]. rewrite concat_app. simpl. by rewrite app_nil_r. Qed.

Lemma deliver_app batch l k : deliver batch (l ++ k) = l ++ deliver batch k.
Proof. destruct batch; simpl; [done|]. by rewrite (assoc_L (++)). Qed.

Lemma length_deliver batch : length (deliver batch []) ≤ 1.
Proof. destruct batch; simpl; lia. Qed.

Lemma deliver_perm batch l k : l ≡ₚ k → deliver batch l ≡ₚ deliver batch k.
Proof. intros Hlk. destruct batch; simpl; [done|]. by rewrite Hlk. Qed.

Lemma deliver_bounded batch batches :
  length batch ≤ maxBatchSize → Forall (λ b, b ≠ [] ∧ length b ≤ maxBatchSize) batches →
  Forall (λ b, b ≠ [] ∧ length b ≤ maxBatchSize) (deliver batch batches).
Proof.
  intros Hb Hd. destruct batch as [|e batch]; simpl; [done|]. apply Forall_app. split; [done|].
  by constructor; [|constructor].
Qed.

Lemma free_sync s : asyncDelegate = false → free asyncDelegate s = true → bs_calls s = [] ∧ bs_running s = [].
Proof.
  unfold free. intros -> [Hc%Nat.eqb_eq Hr%Nat.eqb_eq]%andb_true_iff.
  by split; apply length_zero_iff_nil.
Qed.

Lemma buffered_init_inv : buffered_inv buffered_init.
Proof. split; simpl; try done; try lia; naive_solver lia. Qed.

(** processEvents keeps the queue discipline, whatever the goroutine does next. *)
Lemma hand_over_inv s ph :
  buffered_inv s → free asyncDelegate s = true →
  (bs_closed s = true ↔ ph = Draining ∨ ph = Done) → (ph = Done → bs_buffer s = []) →
  buffered_inv (hand_over ph s).
Proof.
  intros [Hfifo Hcalls Hsync Hcap Hbatch Hdel _ _ _] Hfree Hcl Hdone. split; simpl; try done; try lia.
  - by rewrite concat_deliver, <- app_assoc.
  - rewrite <- deliver_app. by apply deliver_perm.
  - intros Hs. destruct (free_sync s Hs Hfree) as [Hc Hr]. destruct (Hsync Hs) as [Heq _].
    pose proof (length_deliver (bs_batch s)). split; [by rewrite <- deliver_app, Heq|].
    rewrite Hc, Hr. simpl. lia.
  - by apply deliver_bounded.
  - intros Hp. split; [done|by apply Hdone].
Qed.

Lemma buffered_step_inv s s' :
  buffered_inv s → step cap maxBatchSize asyncDelegate s s' → buffered_inv s'.
Proof.
  intros Hinv Hstep. pose proof Hinv as [Hfifo Hcalls Hsync Hcap Hbatch Hdel Hclosed Hcheck Hdone].
  destruct Hstep as [s e s' Htry|s e rest Htry|s|s l1 b l2 Hl|s l1 b l2 Hl|s e rest Hfr Hph Hlt Hbuf|s Hfr Hph Hfl
                    |s Hfr Hph Hst|s Hfr Hph Hst|s Hfr Hph Hfl].
  - unfold buffered_try in Htry. destruct (bs_closed s) eqn:Hc; [done|].
    destruct (Nat.leb_spec cap (length (bs_buffer s))); [done|]. injection Htry as <-.
    split; simpl; try done.
    + rewrite <- Hfifo. by rewrite <- !app_assoc.
    + rewrite length_app. simpl. lia.
    + intros Hd. destruct Hclosed as [_ Hclosed]. discriminate Hclosed. by right.
  - split; done.
  - split; done.
  - rewrite Hl in Hcalls, Hsync. split; simpl; try done.
    + rewrite <- Hcalls, <- (assoc (++)). simpl. by rewrite Permutation_middle.
    + intros [Heq Hlen]%Hsync. rewrite length_app in Hlen. simpl in Hlen.
      rewrite !length_app. simpl. destruct l1; [|simpl in Hlen; lia]. destruct l2; [|simpl in Hlen; lia].
      simpl in *. split; [by rewrite app_nil_r|lia].
  - split; simpl; try done. intros [Heq Hlen]%Hsync. split; [done|].
    rewrite Hl, length_app in Hlen. rewrite length_app. simpl in Hlen. lia.
  - split; simpl; try done.
    + rewrite <- Hfifo, Hbuf, <- app_assoc. done.
    + rewrite Hbuf in Hcap. simpl in Hcap. lia.
    + rewrite length_app. simpl. lia.
    + intros Hp. by destruct Hph as [Hph|Hph]; rewrite Hph in Hp.
    + intros Hp. by destruct Hph as [Hph|Hph]; rewrite Hph in Hp.
  - apply hand_over_inv; [done..| |done]. rewrite Hph in Hclosed. naive_solver.
  - rewrite Hph in Hclosed. split; simpl; try done. naive_solver.
  - split; simpl; try done. naive_solver.
  - apply hand_over_inv; [done..| |].
    + rewrite Hph in Hclosed. destruct (bs_batch s); naive_solver.
    + unfold may_flush in Hfl. rewrite Hph in Hfl. destruct (bs_batch s) as [|e b]; [|done]. intros _.
      simpl in Hfl. destruct (Nat.leb_spec maxBatchSize 0); [lia|]. simpl in Hfl.
      apply andb_true_iff in Hfl as [_ Hz%Nat.eqb_eq]. by apply length_zero_iff_nil.
Qed.

Lemma buffered_reachable_inv s : reachable cap maxBatchSize asyncDelegate s → buffered_inv s.
Proof.
  intros Hs. unfold reachable in Hs. pose proof buffered_init_inv as Hinv.
  induction Hs as [|s1 s2 s3 Hstep _ IH]; [done|]. apply IH. by eapply buffered_step_inv.
Qed.

(** ProcessEvents is a sequence of steps. *)
Lemma buffered_ProcessEvents_steps evs s :
  rtc (step cap maxBatchSize asyncDelegate) s (buffered_ProcessEvents cap evs s).
Proof.
  revert s. induction evs as [|e evs IH]; intros s; simpl; [done|].
  destruct (buffered_try cap e s) as [s'|] eqn:Htry.
  - eapply rtc_l; [by eapply step_send|]. apply IH.
  - apply rtc_once. by constructor.
Qed.

(** The delegate calls can all begin, in the order of their batches, and return. *)
Lemma calls_return s :
  rtc (step cap maxBatchSize asyncDelegate) s (set_calls [] [] (bs_delivered s ++ bs_calls s) s).
Proof.
  remember (bs_calls s) as calls eqn:Hc. revert s Hc. induction calls as [|b calls IH]; intros s Hc.
  - rewrite app_nil_r. remember (bs_running s) as running eqn:Hr. revert s Hc Hr.
    induction running as [|b running IH]; intros s Hc Hr.
    + destruct s. simpl in *. subst. constructor.
    + eapply rtc_l; [by apply (step_return _ _ _ s [] b running)|]. by apply (IH (set_calls _ _ _ s)).
  - eapply rtc_l; [by apply (step_begin _ _ _ s [] b calls)|].
    specialize (IH (set_calls calls (bs_running s ++ [b]) (bs_delivered s ++ [b]) s) eq_refl).
    simpl in IH. by rewrite <- (assoc_L (++)) in IH.
Qed.

(** While draining, collecting and handing over until the channel is empty, each
    time waiting for the delegate. *)
Lemma drain_round s ph :
  free asyncDelegate s = true → bs_phase s = Draining → may_flush maxBatchSize s = true →
  ph = match bs_batch s with [] => Done | _ => Draining end →
  ∃ s', rtc (step cap maxBatchSize asyncDelegate) s s' ∧ bs_phase s' = ph ∧ bs_batch s' = [] ∧
    bs_calls s' = [] ∧ bs_running s' = [] ∧ bs_buffer s' = bs_buffer s ∧ bs_closed s' = bs_closed s ∧
    bs_accepted s' = bs_accepted s.
Proof.
  intros Hfr Hph Hfl ->. eexists. split.
  { eapply rtc_l; [by apply step_drain|]. apply calls_return. }
  done.
Qed.

Lemma drain_finishes s :
  bs_phase s = Draining → bs_closed s = true → bs_calls s = [] → bs_running s = [] →
  ∃ s', rtc (step cap maxBatchSize asyncDelegate) s s' ∧ shutdown_ready s' ∧ bs_accepted s' = bs_accepted s.
Proof.
  assert (∀ s, bs_calls s = [] → bs_running s = [] → free asyncDelegate s = true) as Hfree.
  { intros s1 Hc Hr. unfold free. by rewrite Hc, Hr, orb_true_r. }
  remember (length (bs_buffer s)) as n eqn:Hn. revert s Hn.
  induction n as [|n IH]; intros s Hn Hph Hcl Hc Hr.
  - (* the channel is empty: flush what was collected, then an empty batch *)
    assert (∀ s, bs_phase s = Draining → bs_closed s = true → length (bs_buffer s) = 0 → may_flush maxBatchSize s = true)
      as Hfl.
    { intros s1 Hp Hcs Hl. unfold may_flush. by rewrite Hp, Hcs, Hl, orb_true_r. }
    destruct (drain_round s _ (Hfree s Hc Hr) Hph (Hfl s Hph Hcl (eq_sym Hn)) eq_refl)
      as (s1 & Hs1 & Hp1 & Hb1 & Hc1 & Hr1 & Hq1 & Hcl1 & Ha1).
    destruct (bs_batch s); [by exists s1|].
    destruct (drain_round s1 Done) as (s2 & Hs2 & Hp2 & _ & Hc2 & Hr2 & _ & _ & Ha2);
      [by auto|done|apply Hfl; congruence|by rewrite Hb1|].
    exists s2. split_and!; [by etrans|done|congruence].
  - destruct (bs_buffer s) as [|e rest] eqn:Hbuf; [done|]. simpl in Hn.
    assert (∀ s, length (bs_batch s) < maxBatchSize → bs_phase s = Draining → bs_closed s = true →
      bs_calls s = [] → bs_running s = [] → bs_buffer s = e :: rest →
      ∃ s', rtc (step cap maxBatchSize asyncDelegate) s s' ∧ shutdown_ready s' ∧ bs_accepted s' = bs_accepted s)
      as Hrecv.
    { intros s1 Hlt Hp Hcs Hc1 Hr1 Hbf.
      destruct (IH (receive e rest s1)) as (s' & Hs' & Hd & Ha); simpl; [lia|done..|].
      exists s'. split; [|done]. eapply rtc_l; [by apply (step_receive _ _ _ s1 e rest); auto|exact Hs']. }
    destruct (decide (length (bs_batch s) < maxBatchSize)) as [Hlt|Hge]; [by apply Hrecv|].
    destruct (drain_round s Draining (Hfree s Hc Hr) Hph) as (s1 & Hs1 & Hp1 & Hb1 & Hc1 & Hr1 & Hq1 & Hcl1 & Ha1).
    { unfold may_flush. destruct (Nat.leb_spec maxBatchSize (length (bs_batch s))); [done|lia]. }
    { destruct (bs_batch s); [simpl in Hge; lia|done]. }
    destruct (Hrecv s1) as (s2 & Hs2 & Hd2 & Ha2); [by rewrite Hb1|congruence..|].
    exists s2. split_and!; [by etrans|done|congruence].
Qed.

(** C35: with a positive queue capacity and batch size, every interleaving of
    callers, the batching goroutine, the delegate calls and the stop signal keeps
    the queue discipline: the batches cut the accepted events in their order, with
    none lost or duplicated; every batch is one delegate call; the queue and the
    batches respect their limits and no batch is empty.  With AsyncDelegate the
    delegate calls may begin in any order of the batches; without it they begin in
    the order of the batches, one at a time.  When Shutdown may shut the delegate
    down, it has been called with every accepted event. *)
Theorem buffered_safety s :
  reachable cap maxBatchSize asyncDelegate s →
  concat (bs_batches s) ++ bs_batch s ++ bs_buffer s = bs_accepted s ∧
  bs_delivered s ++ bs_calls s ≡ₚ bs_batches s ∧
  (asyncDelegate = false →
   bs_delivered s ++ bs_calls s = bs_batches s ∧ length (bs_calls s) + length (bs_running s) ≤ 1) ∧
  length (bs_buffer s) ≤ cap ∧
  Forall (λ b, b ≠ [] ∧ length b ≤ maxBatchSize) (bs_batches s) ∧
  (shutdown_ready s →
   concat (bs_batches s) = bs_accepted s ∧ bs_delivered s ≡ₚ bs_batches s ∧
   concat (bs_delivered s) ≡ₚ bs_accepted s).
Proof.
  intros [Hfifo Hcalls Hsync Hcap _ Hdel _ _ Hdone]%buffered_reachable_inv. split_and!; [done..|].
  intros (Hph & Hc & _). destruct (Hdone Hph) as [Hb Hq]. rewrite Hb, Hq, !app_nil_r in Hfifo.
  rewrite Hc, app_nil_r in Hcalls. split_and!; [done..|]. by rewrite Hcalls, Hfifo.
Qed.

(** Shutdown completes if the delegate's calls return: once the goroutine has seen
    the stop signal and closed the queue, it can always run to its end without
    accepting anything more, and then everything accepted has been delivered. *)
Theorem buffered_drains s :
  reachable cap maxBatchSize asyncDelegate s → bs_phase s = Draining →
  ∃ s', rtc (step cap maxBatchSize asyncDelegate) s s' ∧ shutdown_ready s' ∧
    bs_accepted s' = bs_accepted s ∧ concat (bs_delivered s') ≡ₚ bs_accepted s.
Proof.
  intros Hs Hph. pose proof (buffered_reachable_inv s Hs) as Hinv.
  destruct (drain_finishes (set_calls [] [] (bs_delivered s ++ bs_calls s) s) Hph) as (s' & Hs' & Hd & Ha);
    [|done..|].
  { simpl. apply (inv_closed s Hinv). by left. }
  assert (rtc (step cap maxBatchSize asyncDelegate) s s') as Hrun by (etrans; [apply calls_return|done]).
  exists s'. split_and!; [done..|]. simpl in Ha. rewrite <- Ha.
  assert (buffered_inv s') as [Hfifo Hcalls _ _ _ _ _ _ Hdone].
  { apply buffered_reachable_inv. unfold reachable. by etrans. }
  destruct Hd as (Hp & Hc & _). destruct (Hdone Hp) as [Hb Hq].
  rewrite Hc, app_nil_r in Hcalls. by rewrite Hcalls, <- Hfifo, Hb, Hq, !app_nil_r.
Qed.
End buffered_theorems.

(** ** Witnesses *)

Module AuditBackendsExamples.
Definition ev (uri : string) (anns : gmap string string) : Event :=
  with_Annotations
    (set_level_objects
       (NewEventFromRequest ∅ uri [] "id" 0 LevelRequest AuditPolicyExamples.request [])
       LevelRequest (Some "body") None) anns.

(** An encoder: four bytes for a request object, and the URI. *)
Definition size (e : Event) : Z + error :=
  inl (Z.of_nat (slen (ev_RequestURI e)) + match ev_RequestObject e with Some _ => 4 | None => 0 end)%Z.

Definition limits : truncate_Config := {| MaxEventSize := 5; MaxBatchSize := 8 |}.
Definition counting (batch : list Event) : ST nat bool := λ n, (true, n + length batch).

Lemma truncate_ProcessEvents_spec_witness :
  ∃ groups,
    truncate_ProcessEvents size limits counting [ev "/a" ∅; ev "/abcdefg" ∅; ev "/" ∅] 0 =
      (let '(ok, s') := send counting ((λ g, g.*1) <$> groups) true 0 in
       ((ok, rejected size limits [ev "/a" ∅; ev "/abcdefg" ∅; ev "/" ∅]), s')) ∧
    concat groups = kept size limits [ev "/a" ∅; ev "/abcdefg" ∅; ev "/" ∅].
Proof.
  destruct (truncate_ProcessEvents_spec size limits counting [ev "/a" ∅; ev "/abcdefg" ∅; ev "/" ∅] 0)
    as (groups & Hrun & Hcat & _).
  - split; split; vm_compute; congruence.
  - intros e n Hn. injection Hn as <-. destruct (ev_RequestObject e); lia.
  - exists groups. split; [exact Hrun|exact Hcat].
Defined.

Lemma truncate_marks_original_witness :
  let e := ev "/a" {[ "k" := "v" ]} in
  ev_RequestObject (truncate e).2 = Some "body" ∧
  ev_Annotations (truncate e).2 !! annotationKey = Some annotationValue.
Proof.
  pose proof (truncate_marks_original (ev "/a" {[ "k" := "v" ]})) as H.
  destruct (truncate (ev "/a" {[ "k" := "v" ]})) as [copy original] eqn:Ht.
  destruct H as (_ & _ & Hreq & Hann); [reflexivity|intros Heq; apply (f_equal (lookup "k")) in Heq; done
    |reflexivity|]. cbv zeta. rewrite Ht. split; [exact Hreq|exact Hann].
Defined.

(** Two events queued and the stop signal seen before any was collected. *)
Definition queued : buffered_state := buffered_ProcessEvents 4 [ev "/a" ∅; ev "/b" ∅] buffered_init.

Definition draining : buffered_state :=
  {| bs_buffer := [ev "/a" ∅; ev "/b" ∅]; bs_closed := true; bs_stopped := true; bs_phase := Draining;
     bs_batch := []; bs_calls := []; bs_running := []; bs_delivered := []; bs_batches := [];
     bs_accepted := [ev "/a" ∅; ev "/b" ∅]; bs_dropped := [] |}.

Lemma draining_reachable : reachable 4 3 false draining.
Proof.
  unfold reachable. etrans; [apply (buffered_ProcessEvents_steps 4 3 false [ev "/a" ∅; ev "/b" ∅])|].
  eapply rtc_l; [apply step_stop|]. eapply rtc_l; [apply step_flush; reflexivity|].
  apply rtc_once. refine (step_close 4 3 false _ _ _ _); reflexivity.
Qed.

(** Two batches of one event and asynchronous delegate calls: the second call
    begins first. *)
Definition overtaken : buffered_state :=
  {| bs_buffer := []; bs_closed := false; bs_stopped := true; bs_phase := Checking;
     bs_batch := []; bs_calls := [[ev "/a" ∅]]; bs_running := [[ev "/b" ∅]];
     bs_delivered := [[ev "/b" ∅]]; bs_batches := [[ev "/a" ∅]; [ev "/b" ∅]];
     bs_accepted := [ev "/a" ∅; ev "/b" ∅]; bs_dropped := [] |}.

Lemma overtaken_reachable : reachable 4 1 true overtaken.
Proof.
  unfold reachable. etrans; [apply (buffered_ProcessEvents_steps 4 1 true [ev "/a" ∅; ev "/b" ∅])|].
  eapply rtc_l; [eapply step_receive; [reflexivity|by left|simpl; lia|reflexivity]|].
  eapply rtc_l; [apply step_flush; reflexivity|].
  eapply rtc_l; [apply step_continue; reflexivity|].
  eapply rtc_l; [eapply step_receive; [reflexivity|by left|simpl; lia|reflexivity]|].
  eapply rtc_l; [apply step_flush; reflexivity|].
  eapply rtc_l; [apply step_stop|].
  apply rtc_once. refine (step_begin 4 1 true _ [[ev "/a" ∅]] [ev "/b" ∅] [] _). reflexivity.
Qed.

Lemma buffered_safety_witness :
  (concat (bs_batches draining) ++ bs_batch draining ++ bs_buffer draining = [ev "/a" ∅; ev "/b" ∅]) ∧
  [[ev "/b" ∅]; [ev "/a" ∅]] ≡ₚ bs_batches overtaken.
Proof.
  destruct (buffered_safety 4 3 false ltac:(lia) ltac:(lia) draining draining_reachable) as [H _].
  split; [exact H|].
  destruct (buffered_safety 4 1 true ltac:(lia) ltac:(lia) overtaken overtaken_reachable) as (_ & H2 & _). exact H2.
Defined.

Lemma buffered_drains_witness :
  ∃ s', rtc (step 4 3 false) draining s' ∧ shutdown_ready s' ∧
    concat (bs_delivered s') ≡ₚ [ev "/a" ∅; ev "/b" ∅].
Proof.
  destruct (buffered_drains 4 3 false ltac:(lia) ltac:(lia) draining draining_reachable eq_refl)
    as (s' & Hs & Hd & _ & Hall).
  exists s'. split; [exact Hs|]. split; [exact Hd|exact Hall].
Defined.
End AuditBackendsExamples.
