(* ===== verification/FeatureGate.v ===== *)
(** * Feature gates

    Models components/featuregate/feature_gate.go: known features, the special
    gates AllAlpha and AllBeta, setting gates from a map or a flag string, adding
    features, and copying.  A Go map is ranged over in an order the language does
    not fix, so [SetFromMap] takes the pairs in the order they are visited and the
    theorems hold for every order.  Each method runs under the gate's lock and is
    one state transition. *)

From S2P Require Import Prelude GoStrings.

Local Open Scope go_scope.

Definition allAlphaGate : string := "AllAlpha".
Definition allBetaGate : string := "AllBeta".

Inductive prerelease := Alpha | Beta | GA | Deprecated.
#[global] Instance prerelease_eq_dec : EqDecision prerelease.
Proof. solve_decision. Defined.

Record FeatureSpec := { Default : bool; LockToDefault : bool; PreRelease : prerelease }.
#[global] Instance FeatureSpec_eq_dec : EqDecision FeatureSpec.
Proof. solve_decision. Defined.

Record featureGate := {
  known : gmap string FeatureSpec;
  enabled : gmap string bool;
  closed : bool;
}.

Definition defaultFeatures : gmap string FeatureSpec :=
  {[ allAlphaGate := {| Default := false; LockToDefault := false; PreRelease := Alpha |};
     allBetaGate := {| Default := false; LockToDefault := false; PreRelease := Beta |} ]}.

Definition NewFeatureGate : featureGate := {| known := defaultFeatures; enabled := ∅; closed := false |}.

(** setUnsetAlphaGates and setUnsetBetaGates: every known feature of that maturity
    without a value gets one. *)
Definition setUnsetGates (p : prerelease) (known : gmap string FeatureSpec) (enabled : gmap string bool)
    (val : bool) : gmap string bool :=
  enabled ∪ ((λ _, val) <$> filter (λ kv, PreRelease kv.2 = p) known).

Definition specialFeatures (k : string)
    : option (gmap string FeatureSpec → gmap string bool → bool → gmap string bool) :=
  if k == allAlphaGate then Some (setUnsetGates Alpha)
  else if k == allBetaGate then Some (setUnsetGates Beta)
  else None.

(** The loop of SetFromMap on the copies of the two maps. *)
Fixpoint setLoop (known : gmap string FeatureSpec) (m : list (string * bool)) (enabled : gmap string bool)
    : gmap string bool + error :=
  match m with
  | [] => inl enabled
  | (k, v) :: rest =>
      match known !! k with
      | None => inr (Errorf "unrecognized feature gate: %s" [k])
      | Some featureSpec =>
          if LockToDefault featureSpec && negb (bool_decide (Default featureSpec = v))
          then inr (Errorf "cannot set feature gate %v to %v, feature is locked to %v" [k])
          else
            let enabled := <[k := v]> enabled in
            let enabled := match specialFeatures k with Some fn => fn known enabled v | None => enabled end in
            setLoop known rest enabled
      end
  end.

Definition SetFromMap (f : featureGate) (m : list (string * bool)) : option error * featureGate :=
  match setLoop (known f) m (enabled f) with
  | inr err => (Some err, f)
  | inl e => (None, {| known := known f; enabled := e; closed := closed f |})
  end.

(** strconv.ParseBool *)
Definition ParseBool (s : string) : option bool :=
  if bool_decide (s ∈ ["1"; "t"; "T"; "true"; "TRUE"; "True"]) then Some true
  else if bool_decide (s ∈ ["0"; "f"; "F"; "false"; "FALSE"; "False"]) then Some false
  else None.

(** The loop of Set, filling the map. *)
Fixpoint parseGates (parts : list string) (m : gmap string bool) : gmap string bool + error :=
  match parts with
  | [] => inl m
  | s :: rest =>
      if slen s =? 0 then parseGates rest m
      else match SplitN s "="%char 2 with
      | [k; v] =>
          let k := TrimSpace k in
          let v := TrimSpace v in
          match ParseBool v with
          | None => inr (Errorf "invalid value of %s=%s, err: %v" [k; v])
          | Some b => parseGates rest (<[k := b]> m)
          end
      | arr => inr (Errorf "missing bool value for %s" [TrimSpace (hd "" arr)])
      end
  end.

(** [order] lists the parsed map in the order Go visits it. *)
Definition Set_ (order : gmap string bool → list (string * bool)) (f : featureGate) (value : string)
    : option error * featureGate :=
  match parseGates (Split value ","%char) ∅ with
  | inr err => (Some err, f)
  | inl m => SetFromMap f (order m)
  end.

Definition bool_String (b : bool) : string := if b then "true" else "false".

Definition featureGate_String (f : featureGate) : string :=
  Join (merge_sort String.le ((λ kv, kv.1 +:+ "=" +:+ bool_String kv.2) <$> map_to_list (enabled f))) ",".

(** The loop of Add on the copy of the known features. *)
Fixpoint addLoop (features : list (string * FeatureSpec)) (known : gmap string FeatureSpec)
    : gmap string FeatureSpec + error :=
  match features with
  | [] => inl known
  | (name, spec) :: rest =>
      match known !! name with
      | Some existingSpec =>
          if existingSpec == spec then addLoop rest known
          else inr (Errorf "feature gate %q with different spec already exists: %v" [name])
      | None => addLoop rest (<[name := spec]> known)
      end
  end.

Definition Add (f : featureGate) (features : list (string * FeatureSpec)) : option error * featureGate :=
  if closed f then (Some (Errorf "cannot add a feature gate after adding it to the flag set" []), f)
  else match addLoop features (known f) with
  | inr err => (Some err, f)
  | inl k => (None, {| known := k; enabled := enabled f; closed := closed f |})
  end.

Definition GetAll (f : featureGate) : gmap string FeatureSpec := known f.

Definition Enabled (f : featureGate) (key : string) : outcome bool :=
  match enabled f !! key with
  | Some v => Ret v
  | None =>
      match known f !! key with
      | Some v => Ret (Default v)
      | None => Panic "feature is not registered in FeatureGate"
      end
  end.

(** AddFlag closes the gate; the flag it registers is left out. *)
Definition AddFlag (f : featureGate) : featureGate :=
  {| known := known f; enabled := enabled f; closed := true |}.

Definition prerelease_String (p : prerelease) : string :=
  match p with Alpha => "ALPHA" | Beta => "BETA" | GA => "" | Deprecated => "DEPRECATED" end.

Definition KnownFeatures (f : featureGate) : list string :=
  merge_sort String.le
    (omap (λ kv : string * FeatureSpec,
       if (PreRelease kv.2 == GA) || (PreRelease kv.2 == Deprecated) then None
       else Some (kv.1 +:+ "=true|false (" +:+ prerelease_String (PreRelease kv.2) +:+ " - default=" +:+
                  bool_String (Default kv.2) +:+ ")")) (map_to_list (known f))).

(** The copy has its own maps; values are immutable here, so it is the same gate. *)
Definition DeepCopy (f : featureGate) : featureGate :=
  {| known := known f; enabled := enabled f; closed := closed f |}.

(** ** Theorems *)

(** May this pair be set? *)
Definition settable (known : gmap string FeatureSpec) (kv : string * bool) : Prop :=
  ∃ spec, known !! kv.1 = Some spec ∧ (LockToDefault spec = true → Default spec = kv.2).

(** The value the special gates of [m] give to an unset feature. *)
Definition groupDefault (known : gmap string FeatureSpec) (m : gmap string bool) (k : string) : option bool :=
  spec ← known !! k;
  match PreRelease spec with
  | Alpha => m !! allAlphaGate
  | Beta => m !! allBetaGate
  | _ => None
  end.

(** What setting [m] does to a feature: the explicit value wins, then the value it
    had, then the value of its group's gate. *)
Definition setResult (known : gmap string FeatureSpec) (m enabled : gmap string bool) (k : string) : option bool :=
  match m !! k with
  | Some v => Some v
  | None => match enabled !! k with Some v => Some v | None => groupDefault known m k end
  end.

Lemma setUnsetGates_lookup p known enabled val k :
  setUnsetGates p known enabled val !! k =
  match enabled !! k with
  | Some v => Some v
  | None =>
      match known !! k with
      | Some spec => if PreRelease spec == p then Some val else None
      | None => None
      end
  end.
Proof.
  unfold setUnsetGates. rewrite lookup_union. destruct (enabled !! k) as [v|] eqn:He.
  - by rewrite union_Some_l.
  - rewrite (left_id_L None (∪)), lookup_fmap. destruct (known !! k) as [spec|] eqn:Hk.
    + destruct (decide (PreRelease spec = p)) as [Hp|Hp].
      * rewrite bool_decide_true by done.
        by rewrite (map_lookup_filter_Some_2 (λ kv : string * FeatureSpec, PreRelease kv.2 = p) known k spec).
      * rewrite bool_decide_false by done.
        by rewrite map_lookup_filter_None_2 by (right; naive_solver).
    + by rewrite map_lookup_filter_None_2 by (by left).
Qed.

Lemma setLoop_ok known m enabled :
  (∃ e, setLoop known m enabled = inl e) ↔ Forall (settable known) m.
Proof.
  revert enabled. induction m as [|[k v] m IH]; intros enabled; simpl.
  - split; [by constructor|]. by eexists.
  - rewrite Forall_cons. unfold settable at 1. cbn [fst snd].
    destruct (known !! k) as [spec|].
    2:{ split; [by intros [? ?]|]. by intros [(? & ? & _) _]. }
    assert ((∃ spec0, Some spec = Some spec0 ∧ (LockToDefault spec0 = true → Default spec0 = v)) ↔
            (LockToDefault spec = true → Default spec = v)) as ->.
    { split; [intros (s' & Heq & Hs'); by injection Heq as ->|eauto]. }
    destruct (LockToDefault spec && negb _) eqn:Hbad.
    + apply andb_true_iff in Hbad as [Hl Hd]. bool_crush. split; [by intros [? ?]|]. intros [Hok _]. by destruct (Hd (Hok Hl)).
    + rewrite IH. split; [|by intros [_ ?]]. intros Hm. split; [|done]. intros Hl. rewrite Hl in Hbad.
      simpl in Hbad. by bool_crush.
Qed.

Lemma setLoop_lookup known m enabled e k :
  NoDup m.*1 → setLoop known m enabled = inl e →
  e !! k = setResult known (list_to_map m) enabled k.
Proof.
  revert enabled. induction m as [|[k0 v0] m IH]; intros enabled Hnd Hset.
  - simpl in *. injection Hset as <-. unfold setResult, groupDefault. rewrite !lookup_empty.
    destruct (enabled !! k) eqn:He; [done|]. simpl. destruct (known !! k) as [spec|]; simpl; [|done].
    by destruct (PreRelease spec).
  - simpl in Hset. apply NoDup_cons in Hnd as [Hk0 Hnd].
    destruct (known !! k0) as [spec0|]; [|done].
    destruct (LockToDefault spec0 && _); [done|].
    rewrite (IH _ Hnd Hset). clear IH Hset. unfold setResult.
    assert ((list_to_map m : gmap string bool) !! k0 = None) as Hnone by (by apply not_elem_of_list_to_map_1).
    change (list_to_map ((k0, v0) :: m)) with (<[k0 := v0]> (list_to_map m : gmap string bool)).
    destruct (decide (k = k0)) as [->|Hne].
    + rewrite Hnone, lookup_insert_eq.
      assert (<[k0:=v0]> enabled !! k0 = Some v0) as Hself by apply lookup_insert_eq.
      unfold specialFeatures. repeat case_bool_decide; cbn; rewrite ?setUnsetGates_lookup, ?Hself; done.
    + rewrite lookup_insert_ne by done. destruct (list_to_map m !! k) as [v|]; [done|].
      unfold groupDefault, specialFeatures.
      destruct (decide (k0 = allAlphaGate)) as [->|Ha].
      * rewrite bool_decide_true by done. cbn. rewrite setUnsetGates_lookup, lookup_insert_ne by done.
        destruct (enabled !! k) as [v|]; [done|]. destruct (known !! k) as [spec|]; cbn; [|done].
        rewrite lookup_insert_eq, (lookup_insert_ne _ allAlphaGate allBetaGate) by done.
        destruct (PreRelease spec); cbn; done.
      * rewrite (bool_decide_false (k0 = allAlphaGate)) by done. rewrite (lookup_insert_ne _ k0 allAlphaGate) by done.
        destruct (decide (k0 = allBetaGate)) as [->|Hb].
        -- rewrite bool_decide_true by done. cbn. rewrite setUnsetGates_lookup, lookup_insert_ne by done.
           destruct (enabled !! k) as [v|]; [done|]. destruct (known !! k) as [spec|]; cbn; [|done].
           rewrite lookup_insert_eq. destruct (PreRelease spec); cbn; done.
        -- rewrite bool_decide_false by done. rewrite !lookup_insert_ne by done. done.
Qed.

(** Setting gates from a map is atomic and does not depend on the order in which
    the map is visited: it fails, leaving the gate as it was, exactly when some
    feature is unknown or is locked to another value; otherwise each feature gets
    its explicit value, else keeps the one it had, else takes the one of the
    AllAlpha or AllBeta gate of its maturity if that gate is set. *)
Theorem SetFromMap_spec f m :
  NoDup m.*1 →
  let '(err, f') := SetFromMap f m in
  (err = None ↔ ∀ kv, kv ∈ m → settable (known f) kv) ∧
  (is_Some err → f' = f) ∧
  (err = None → known f' = known f ∧ closed f' = closed f ∧
     ∀ k, enabled f' !! k = setResult (known f) (list_to_map m) (enabled f) k).
Proof.
  intros Hnd. unfold SetFromMap.
  pose proof (setLoop_ok (known f) m (enabled f)) as Hok. rewrite Forall_forall in Hok.
  destruct (setLoop _ _ _) as [e|err] eqn:Hset.
  - split_and!; [split; [intros _; apply Hok; by eexists|done]|by intros []|].
    intros _. split_and!; [done..|]. intros k. by apply (setLoop_lookup _ _ _ _ _ Hnd Hset).
  - split_and!; [|done|done]. split; [done|]. intros Hall. by destruct (proj2 Hok Hall) as [? ?].
Qed.

(** The AllAlpha gate does not respect locks: on a gate where a locked alpha
    feature (not AllAlpha itself) has no value yet, AllAlpha=v sets the feature to
    v, though setting it to v directly is refused when v is not its default. *)
Theorem AllAlpha_bypasses_lock f k spec gate v :
  known f !! k = Some spec → LockToDefault spec = true → PreRelease spec = Alpha → Default spec ≠ v →
  enabled f !! k = None → k ≠ allAlphaGate →
  known f !! allAlphaGate = Some gate → LockToDefault gate = false →
  (SetFromMap f [(k, v)]).2 = f ∧
  (SetFromMap f [(allAlphaGate, v)]).1 = None ∧ Enabled (SetFromMap f [(allAlphaGate, v)]).2 k = Ret v.
Proof.
  intros Hk Hlock Halpha Hdef Hunset Hne Hgate Hfree. unfold SetFromMap. split.
  - simpl. rewrite Hk, Hlock, bool_decide_false by done. done.
  - destruct (setLoop (known f) [(allAlphaGate, v)] (enabled f)) as [e|err] eqn:Hset.
    + split; [done|]. unfold Enabled. simpl.
      rewrite (setLoop_lookup _ [(allAlphaGate, v)] _ _ k (NoDup_singleton _) Hset).
      unfold setResult, groupDefault. simpl. rewrite lookup_insert_ne by done. rewrite lookup_empty.
      rewrite Hunset, Hk. simpl. by rewrite Halpha, lookup_insert_eq.
    + exfalso. simpl in Hset. by rewrite Hgate, Hfree in Hset.
Qed.

(** *** The flag syntax *)

(** A feature name the flag syntax can carry. *)
Definition nameable (k : string) : Prop :=
  ContainsByte k ","%char = false ∧ ContainsByte k "="%char = false ∧ TrimSpace k = k.

Definition pair_String (kv : string * bool) : string := kv.1 +:+ "=" +:+ bool_String kv.2.

Lemma parseGates_cons kv rest m :
  nameable kv.1 → parseGates (pair_String kv :: rest) m = parseGates rest (<[kv.1 := kv.2]> m).
Proof.
  destruct kv as [k b]. intros (_ & Heq & Htrim). cbn [fst snd] in *. cbn [parseGates].
  assert ((slen (pair_String (k, b)) =? 0) = false) as ->.
  { unfold pair_String. simpl. rewrite slen_app. simpl. rewrite Nat.add_comm. done. }
  assert (SplitN (pair_String (k, b)) "=" 2 = [k; bool_String b]) as ->.
  { unfold pair_String. simpl. change ("=" +:+ bool_String b) with (String "=" (bool_String b)).
    rewrite SplitN_app by done. by destruct (bool_String b). }
  rewrite Htrim. by destruct b.
Qed.

Lemma parseGates_pairs kvs m :
  Forall (λ kv, nameable kv.1) kvs →
  parseGates (pair_String <$> kvs) m = inl (list_to_map (reverse kvs) ∪ m).
Proof.
  intros Hn. revert m. induction Hn as [|[k b] kvs Hk Hn IH]; intros m.
  - simpl. by rewrite (left_id_L ∅ (∪)).
  - cbn [fmap list_fmap]. rewrite parseGates_cons by done. rewrite IH. f_equal.
    rewrite reverse_cons, list_to_map_app. simpl. rewrite <- (assoc_L (∪)). f_equal.
    by rewrite insert_union_singleton_l.
Qed.

Lemma pair_String_no_comma kv : nameable kv.1 → ContainsByte (pair_String kv) ","%char = false.
Proof.
  intros (Hc & _ & _). unfold pair_String. rewrite !ContainsByte_app, Hc. by destruct kv.2.
Qed.

(** Printing and parsing: the string that describes the gates set so far, given
    to [Set], parses back to exactly those settings (for names without commas,
    equals signs or surrounding blanks), so it can be replayed on another gate. *)
Theorem String_parse_roundtrip f :
  (∀ k b, enabled f !! k = Some b → nameable k) →
  parseGates (Split (featureGate_String f) ","%char) ∅ = inl (enabled f).
Proof.
  intros Hname. unfold featureGate_String. fold pair_String.
  assert (merge_sort String.le (pair_String <$> map_to_list (enabled f)) ≡ₚ
          List.map pair_String (map_to_list (enabled f))) as (kvs & Heq & Hperm)%Permutation_map_inv
    by apply merge_sort_Permutation.
  change (List.map pair_String kvs) with (pair_String <$> kvs) in Heq.
  assert (Forall (λ kv : string * bool, nameable kv.1) kvs) as Hkvs.
  { rewrite <- Hperm. apply Forall_forall. intros [k b] Hkb. apply elem_of_map_to_list in Hkb. by eapply Hname. }
  rewrite Heq. destruct (decide (kvs = [])) as [->|Hne].
  - simpl. apply Permutation_nil_r, map_to_list_empty_iff in Hperm. by rewrite Hperm.
  - rewrite Split_Join.
    + rewrite parseGates_pairs by done. rewrite (right_id_L ∅ (∪)). f_equal.
      rewrite <- (list_to_map_to_list (enabled f)). apply list_to_map_proper.
      * rewrite fmap_reverse, reverse_Permutation, <- Hperm. apply NoDup_fst_map_to_list.
      * by rewrite reverse_Permutation, <- Hperm.
    + by intros ?%fmap_nil_iff.
    + apply Forall_fmap. eapply Forall_impl; [done|]. intros kv. apply pair_String_no_comma.
Qed.

(** ** Witnesses *)

Module FeatureGateExamples.
Definition locked : FeatureSpec := {| Default := false; LockToDefault := true; PreRelease := Alpha |}.
Definition gate : featureGate := (Add NewFeatureGate [("Locked", locked)]).2.

Lemma SetFromMap_spec_witness :
  let '(err, f') := SetFromMap gate [("AllAlpha", true); ("AllBeta", false)] in
  err = None → ∀ k, enabled f' !! k = setResult (known gate) (list_to_map [("AllAlpha", true); ("AllBeta", false)]) (enabled gate) k.
Proof.
  pose proof (SetFromMap_spec gate [("AllAlpha", true); ("AllBeta", false)]) as H.
  destruct (SetFromMap gate _) as [err f']. destruct H as (_ & _ & H).
  - apply NoDup_cons. split; [set_solver|apply NoDup_singleton].
  - intros Herr. apply H. exact Herr.
Defined.

Lemma AllAlpha_bypasses_lock_witness :
  (SetFromMap gate [("Locked", true)]).2 = gate ∧
  (SetFromMap gate [(allAlphaGate, true)]).1 = None ∧
  Enabled (SetFromMap gate [(allAlphaGate, true)]).2 "Locked" = Ret true.
Proof.
  apply (AllAlpha_bypasses_lock gate "Locked" locked
           {| Default := false; LockToDefault := false; PreRelease := Alpha |} true);
    first [reflexivity|discriminate].
Defined.

Lemma String_parse_roundtrip_witness :
  let f := (SetFromMap gate [("AllAlpha", true)]).2 in
  parseGates (Split (featureGate_String f) ","%char) ∅ = inl (enabled f).
Proof.
  assert (map_to_list (enabled (SetFromMap gate [("AllAlpha", true)]).2) =
          [("Locked", true); ("AllAlpha", true)] ∨
          map_to_list (enabled (SetFromMap gate [("AllAlpha", true)]).2) =
          [("AllAlpha", true); ("Locked", true)]) as Henabled
    by (vm_compute; first [left; reflexivity|right; reflexivity]).
  apply (String_parse_roundtrip (SetFromMap gate [("AllAlpha", true)]).2). intros k b Hk.
  apply elem_of_map_to_list in Hk.
  assert (Forall (λ kv : string * bool, nameable kv.1)
            (map_to_list (enabled (SetFromMap gate [("AllAlpha", true)]).2))) as Hall
    by (destruct Henabled as [Heq|Heq]; rewrite Heq; repeat constructor; reflexivity).
  rewrite Forall_forall in Hall. exact (Hall _ Hk).
Defined.
End FeatureGateExamples.
