(* ===== verification/Filters.v ===== *)
(** * The HTTP filters

    Models pkg/filters: attaching the RequestInfo (requestinfo.go), authentication
    (authentication.go), impersonation (impersonation.go), authorization
    (authorization.go), auditing (audit.go, authn_audit.go, audit_annotations.go),
    the long-running check (longrunning.go), and the part of
    pkg/server/config.go's DefaultBuildHandlerChain that composes them.

    A handler is given the response writer and the request's context and runs in a
    monad that keeps the state when it panics, since WithAudit recovers, records
    the panic and panics again.  The request's header is shared by all the copies
    of the request (net/http copies the map's pointer), so it lives in the state.
    The state also holds the audit event attached to the context, the annotations
    waiting for one, and the [sync.Once] of the audit response writer; a request
    has at most one of each.  The rest of the state is the authenticators',
    authorizers' and the sink's.

    How a refusal is rendered (pkg/responsewriters, golib's serializers) is a
    parameter: the theorems hold for every rendering. *)

From S2P Require Import Prelude GoStrings GoEncoding Authorizer ServiceAccount RequestInfo RbacTypes Authn AuditPolicy.

Local Open Scope go_scope.

(** ** The monad of a handler *)

Record fstate (S : Type) := FState { fs_audit : auditContext; fs_once : bool; fs_state : S }.
Arguments FState {S} _ _ _.
Arguments fs_audit {S} _.
Arguments fs_once {S} _.
Arguments fs_state {S} _.

Definition HM (S A : Type) : Type := world (fstate S) → outcome A * world (fstate S).
#[global] Instance HM_ret {S} : MRet (HM S) := λ A a w, (Ret a, w).
#[global] Instance HM_bind {S} : MBind (HM S) := λ A B f m w,
  match m w with (Ret a, w') => f a w' | (Panic msg, w') => (Panic msg, w') end.

Section monad.
Context {S : Type}.

Definition lift_outcome {A} (m : outcome A) : HM S A := λ w, (m, w).

(** A panicking authenticator leaves the state as it was. *)
Definition lift_auth {A} (m : Auth (fstate S) A) : HM S A := λ w,
  match m w with Ret (a, w') => (Ret a, w') | Panic msg => (Panic msg, w) end.

Definition lift_ST {A} (m : ST (fstate S) A) : HM S A := λ w,
  let '(a, s) := m (w_state w) in (Ret a, World (w_heap w) (w_header w) s).

Definition set_fstate (f : fstate S → fstate S) : HM S unit := λ w,
  (Ret tt, World (w_heap w) (w_header w) (f (w_state w))).

(** request.AuditEventFrom, and updates through the pointer it returns. *)
Definition AuditEventFrom : HM S (option Event) := λ w, (Ret (ac_event (fs_audit (w_state w))), w).

Definition update_event (f : option Event → option Event) : HM S unit :=
  set_fstate (λ s,
    FState {| ac_event := f (ac_event (fs_audit s)); ac_pending := ac_pending (fs_audit s) |}
           (fs_once s) (fs_state s)).
End monad.

(** ** Requests, writers, handlers *)

(** What the filters read of a request and its context.  [rc_env] holds the inputs
    golib and the clock supply to an audit event. *)
Record environment := { env_RequestURI : string; env_SourceIPs : list string; env_NewUID : string;
                        env_Received : option Z; env_Now : Z; env_BasicAuth : bool; env_PeerCerts : nat }.

Record rcontext := {
  rc_http : http_request;
  rc_env : environment;
  rc_auds : context;
  rc_user : option DefaultInfo;
  rc_info : option RequestInfo;
}.

Definition WithAudiences (cx : rcontext) (auds : list string) : rcontext :=
  {| rc_http := rc_http cx; rc_env := rc_env cx; rc_auds := Some auds; rc_user := rc_user cx; rc_info := rc_info cx |}.
Definition WithUser (cx : rcontext) (u : option DefaultInfo) : rcontext :=
  {| rc_http := rc_http cx; rc_env := rc_env cx; rc_auds := rc_auds cx; rc_user := u; rc_info := rc_info cx |}.
Definition WithInfo (cx : rcontext) (info : RequestInfo) : rcontext :=
  {| rc_http := rc_http cx; rc_env := rc_env cx; rc_auds := rc_auds cx; rc_user := rc_user cx; rc_info := Some info |}.

(** The operations on a response. *)
Inductive wop :=
  | SetHeader (key value : string) | AddHeader (key value : string) | DelHeader (key : string)
  | WriteHeader (code : Z) | WriteBody (bs : string) | Flush | Hijack.
Definition ResponseWriter (S : Type) : Type := wop → HM S unit.
Definition Handler (S : Type) : Type := ResponseWriter S → rcontext → HM S unit.

(** The refusals the filters write themselves. *)
Inductive refusal :=
  | Unauthorized
  | InternalError (err : error)
  | BadRequest (err : error)
  | Forbidden (attributes : AttributesRecord) (reason : string).

Section filters.
Context {S : Type} (respond : refusal → Handler S).

(** ** requestinfo.go *)

Definition WithRequestInfo (handler : Handler S)
    (resolver : http_request → outcome (RequestInfo * option error)) : Handler S := λ w cx,
  '(info, err) ← lift_outcome (resolver (rc_http cx));
  match err with
  | Some err => respond (InternalError (ErrorWrap "failed to create RequestInfo: %v" [] err)) w cx
  | None => handler w (WithInfo cx info)
  end.

(** ** authentication.go *)

Definition audiencesAreAcceptable (apiAuds responseAudiences : list string) : bool :=
  if (length apiAuds =? 0) || (length responseAudiences =? 0) then true
  else 0 <? length (Audiences_Intersect apiAuds responseAudiences).

Definition WithAuthentication (handler : Handler S) (auth : option (Request (fstate S))) (failed : Handler S)
    (apiAuds : list string) (keepAuthorizationHeader : bool) : Handler S :=
  match auth with
  | None => handler
  | Some auth => λ w cx,
      let cx := if 0 <? length apiAuds then WithAudiences cx apiAuds else cx in
      '(resp, ok, err) ← lift_auth (auth (rc_auds cx));
      if bool_decide (is_Some err) || negb ok then failed w cx
      else
        '(_, r) ← lift_auth (deref resp);
        if negb (audiencesAreAcceptable apiAuds (resp_Audiences r)) then failed w cx
        else
          h ← lift_auth get_header;
          _ ← (if (keepAuthorizationHeader : bool) then mret tt
               else lift_auth (set_header (Header_Del h "Authorization")));
          u ← lift_auth (user_of r);
          handler w (WithUser cx (Some u))
  end.

(** ** authorization.go *)

Definition decisionAnnotationKey : string := "authorization.k8s.io/decision".
Definition reasonAnnotationKey : string := "authorization.k8s.io/reason".
Definition decisionAllow : string := "allow".
Definition decisionForbid : string := "forbid".
Definition reasonError : string := "internal error".

Definition GetAuthorizerAttributes (cx : rcontext) : AttributesRecord + error :=
  match rc_info cx with
  | None => inr (Errorf "no RequestInfo found in the context" [])
  | Some info =>
      inl {| a_User := rc_user cx; a_Verb := ri_Verb info; a_Namespace := ri_Namespace info;
             a_APIGroup := ""; a_APIVersion := ""; a_Resource := ri_Resource info;
             a_Subresource := ri_Subresource info; a_Name := ri_Name info;
             a_ResourceRequest := ri_IsResourceRequest info; a_Path := ri_Path info |}
  end.

Definition WithAuthorization (handler : Handler S) (a : option (Authorizer (fstate S))) : Handler S :=
  match a with
  | None => handler
  | Some a => λ w cx,
      match GetAuthorizerAttributes cx with
      | inr err => respond (InternalError err) w cx
      | inl attributes =>
          v ← lift_ST (a attributes);
          if v_decision v == DecisionAllow then
            _ ← update_event (λ ae, LogAnnotation ae decisionAnnotationKey decisionAllow);
            _ ← update_event (λ ae, LogAnnotation ae reasonAnnotationKey (v_reason v));
            handler w cx
          else match v_err v with
          | Some err =>
              _ ← update_event (λ ae, LogAnnotation ae reasonAnnotationKey reasonError);
              respond (InternalError err) w cx
          | None =>
              _ ← update_event (λ ae, LogAnnotation ae decisionAnnotationKey decisionForbid);
              _ ← update_event (λ ae, LogAnnotation ae reasonAnnotationKey (v_reason v));
              respond (Forbidden attributes (v_reason v)) w cx
          end
      end
  end.
End filters.

(** ** impersonation.go *)

(** The header names are golib's api constants.  A Go map is ranged over in any
    order: [range_header] gives the order of this run. *)
Class ImpersonationHeaders := {
  ImpersonateUserHeader : string;
  ImpersonateGroupHeader : string;
  ImpersonateUserExtraHeaderPrefix : string;
}.
Class HeaderRange := range_header : Header → list (string * list string).
Class HeaderRangeLaws `{HeaderRange} := range_header_perm h : range_header h ≡ₚ map_to_list h.

(** The kinds are a closed enumeration, so the switch's default cannot be taken. *)
Inductive ImpersonationRequestKind :=
  | ImpersonationUser | ImpersonationServiceAccount | ImpersonationGroup | ImpersonationUserExtra.

Record ImpersonationRequest := {
  im_Kind : ImpersonationRequestKind;
  im_Namespace : string;
  im_Name : string;
  im_FieldPath : string;
}.

Definition impersonationRequest (kind : ImpersonationRequestKind) (namespace name fieldPath : string)
    : ImpersonationRequest :=
  {| im_Kind := kind; im_Namespace := namespace; im_Name := name; im_FieldPath := fieldPath |}.

Definition unescapeExtraKey (encodedKey : string) : string :=
  match PathUnescape encodedKey with None => encodedKey | Some key => key end.

Section impersonation.
Context {S : Type} (respond : refusal → Handler S).
Context `{DNSValidation} `{ImpersonationHeaders} `{HeaderRange}.

Definition isExtraHeader (headerName : string) : bool := HasPrefix headerName ImpersonateUserExtraHeaderPrefix.

Definition extraRequests (header : string * list string) : list ImpersonationRequest :=
  if negb (isExtraHeader header.1) then []
  else
    let extraKey := unescapeExtraKey (ToLower (sdrop (slen ImpersonateUserExtraHeaderPrefix) header.1)) in
    (λ value, impersonationRequest ImpersonationUserExtra "" value extraKey) <$> header.2.

Definition buildImpersonationRequests (headers : Header) : outcome (list ImpersonationRequest + error) :=
  let requestedUser := Header_Get headers ImpersonateUserHeader in
  let hasUser := 0 <? slen requestedUser in
  userRequests ←
    (if hasUser then
       split ← SplitUsername requestedUser;
       Ret (match split with
            | inl (namespace, name) => [impersonationRequest ImpersonationServiceAccount namespace name ""]
            | inr _ => [impersonationRequest ImpersonationUser "" requestedUser ""]
            end)
     else Ret []);
  let groups := Header_Values headers ImpersonateGroupHeader in
  let extras := filter (λ header, isExtraHeader header.1 = true) (range_header headers) in
  let hasGroups := 0 <? length groups in
  let hasUserExtra := 0 <? length extras in
  Ret (if (hasGroups || hasUserExtra) && negb hasUser
       then inr (Errorf "requested %v without impersonating a user" [])
       else inl (userRequests
                 ++ ((λ group, impersonationRequest ImpersonationGroup "" group "") <$> groups)
                 ++ (extras ≫= extraRequests))).

Definition actingAsAttributes (requestor : DefaultInfo) (r : ImpersonationRequest) : AttributesRecord :=
  {| a_User := Some requestor; a_Verb := "impersonate"; a_Namespace := im_Namespace r;
     a_APIGroup := ""; a_APIVersion := "";
     a_Resource := match im_Kind r with
                   | ImpersonationServiceAccount => "serviceaccounts"
                   | ImpersonationUser => "users"
                   | ImpersonationGroup => "groups"
                   | ImpersonationUserExtra => "userextras"
                   end;
     a_Subresource := match im_Kind r with ImpersonationUserExtra => im_FieldPath r | _ => "" end;
     a_Name := im_Name r; a_ResourceRequest := true; a_Path := "" |}.

(** The variables username, groups and userExtra of the loop. *)
Record acting := { ac_username : string; ac_groups : list string; ac_extra : gmap string (list string) }.

Definition actAs (groupsSpecified : bool) (r : ImpersonationRequest) (x : acting) : acting :=
  match im_Kind r with
  | ImpersonationServiceAccount =>
      {| ac_username := MakeUsername (im_Namespace r) (im_Name r);
         ac_groups := if groupsSpecified then ac_groups x else MakeGroupNames (im_Namespace r);
         ac_extra := ac_extra x |}
  | ImpersonationUser => {| ac_username := im_Name r; ac_groups := ac_groups x; ac_extra := ac_extra x |}
  | ImpersonationGroup =>
      {| ac_username := ac_username x; ac_groups := ac_groups x ++ [im_Name r]; ac_extra := ac_extra x |}
  | ImpersonationUserExtra =>
      {| ac_username := ac_username x; ac_groups := ac_groups x;
         ac_extra := <[im_FieldPath r := default [] (ac_extra x !! im_FieldPath r) ++ [im_Name r]]> (ac_extra x) |}
  end.

(** The loop ends with what to act as, or at the first request that is refused. *)
Fixpoint impersonationLoop (a : option (Authorizer (fstate S))) (requestor : DefaultInfo) (groupsSpecified : bool)
    (rs : list ImpersonationRequest) (x : acting) : HM S (acting + (AttributesRecord * string)) :=
  match rs with
  | [] => mret (inl x)
  | r :: rs =>
      let attributes := actingAsAttributes requestor r in
      let x := actAs groupsSpecified r x in
      match a with
      | None => impersonationLoop a requestor groupsSpecified rs x
      | Some authz =>
          v ← lift_ST (authz attributes);
          if bool_decide (is_Some (v_err v)) || (v_decision v != DecisionAllow)
          then mret (inr (attributes, v_reason v))
          else impersonationLoop a requestor groupsSpecified rs x
      end
  end.

Definition impersonatedGroups (username : string) (groups : list string) : list string :=
  if username != Anonymous then
    if existsb (λ group, (group == AllAuthenticated) || (group == AllUnauthenticated)) groups
    then groups else groups ++ [AllAuthenticated]
  else
    if existsb (λ group, group == AllUnauthenticated) groups
    then groups else groups ++ [AllUnauthenticated].

Definition clearImpersonationHeaders (h : Header) : Header :=
  let h := Header_Del (Header_Del h ImpersonateUserHeader) ImpersonateGroupHeader in
  foldl (λ h header, if isExtraHeader header.1 then Header_Del h header.1 else h) h (range_header h).

Definition WithImpersonation (handler : Handler S) (a : option (Authorizer (fstate S))) : Handler S := λ w cx,
  h ← lift_auth get_header;
  requests ← lift_outcome (buildImpersonationRequests h);
  match requests with
  | inr err => respond (InternalError err) w cx
  | inl requests =>
      if length requests =? 0 then handler w cx
      else match rc_user cx with
      | None => respond (InternalError (Errorf "no user found for request" [])) w cx
      | Some requestor =>
          let groupsSpecified := 0 <? length (Header_Values h ImpersonateGroupHeader) in
          x ← impersonationLoop a requestor groupsSpecified requests
                {| ac_username := ""; ac_groups := []; ac_extra := ∅ |};
          match x with
          | inr (attributes, reason) => respond (Forbidden attributes reason) w cx
          | inl x =>
              let newUser :=
                {| u_Name := ac_username x; u_UID := "";
                   u_Groups := impersonatedGroups (ac_username x) (ac_groups x); u_Extra := ac_extra x |} in
              _ ← update_event (λ ae, LogImpersonatedUser ae newUser);
              h ← lift_auth get_header;
              _ ← lift_auth (set_header (clearImpersonationHeaders h));
              handler w (WithUser cx (Some newUser))
          end
      end
  end.
End impersonation.

(** ** audit.go *)

(** api.StatusFailure and the like are golib's. *)
Class StatusConstants := {
  StatusSuccess : string;
  StatusFailure : string;
  StatusReasonInternalError : string;
}.

Definition HeaderAuditID : string := "Audit-ID".

Definition with_Stage (e : Event) (stage : Stage) (timestamp : Z) : Event :=
  {| ev_Level := ev_Level e; ev_AuditID := ev_AuditID e; ev_Stage := stage; ev_RequestURI := ev_RequestURI e;
     ev_Verb := ev_Verb e; ev_User := ev_User e; ev_ImpersonatedUser := ev_ImpersonatedUser e;
     ev_SourceIPs := ev_SourceIPs e; ev_UserAgent := ev_UserAgent e; ev_ObjectRef := ev_ObjectRef e;
     ev_ResponseStatus := ev_ResponseStatus e; ev_RequestObject := ev_RequestObject e;
     ev_ResponseObject := ev_ResponseObject e;
     ev_RequestReceivedTimestamp := ev_RequestReceivedTimestamp e; ev_StageTimestamp := timestamp;
     ev_Annotations := ev_Annotations e |}.

Definition set_Stage (stage : Stage) (e : Event) : Event := with_Stage e stage (ev_StageTimestamp e).
Definition set_Status (st : Status) (e : Event) : Event := with_Object e (ev_ObjectRef e) (Some st).

(** policy.Checker, and audit.Sink: a sink may edit the event it is given. *)
Definition Checker : Type := AttributesRecord → Level * list Stage.
Definition Sink (S : Type) : Type := Event → ST (fstate S) bool.

Section audit.
Context {S : Type} (respond : refusal → Handler S).
Context `{StatusConstants}.

(** [ev.f = v] on the request's event. *)
Definition edit_event (f : Event → Event) : HM S unit := update_event (fmap f).

(** The panic of [m] as a value, with the state it left. *)
Definition try_ {A} (m : HM S A) : HM S (A + string) := λ w,
  match m w with (Ret a, w') => (Ret (inl a), w') | (Panic msg, w') => (Ret (inr msg), w') end.

(** The stages to omit, or [None] when the request is not audited. *)
Definition createAuditEventAndAttachToContext (cx : rcontext) (policy : Checker)
    : HM S (option (list Stage) + error) :=
  match GetAuthorizerAttributes cx with
  | inr err => mret (inr (ErrorWrap "failed to GetAuthorizerAttributes: %v" [] err))
  | inl attribs =>
      let '(level, omitStages) := policy attribs in
      if level == LevelNone then mret (inl None)
      else
        h ← lift_auth get_header;
        _ ← set_fstate (λ s,
              let e := rc_env cx in
              let ev := NewEventFromRequest h (env_RequestURI e) (env_SourceIPs e) (env_NewUID e)
                          (default (env_Now e) (env_Received e)) level attribs
                          (default [] (ac_pending (fs_audit s))) in
              FState {| ac_event := Some ev; ac_pending := ac_pending (fs_audit s) |} (fs_once s) (fs_state s));
        mret (inl (Some omitStages))
  end.

Definition processAuditEvent (sink : Sink S) (cx : rcontext) (omitStages : list Stage) : HM S bool :=
  ae ← AuditEventFrom;
  match ae with
  | None => lift_outcome (Panic "nil pointer dereference")
  | Some ev =>
      if existsb (λ stage, ev_Stage ev == stage) omitStages then mret true
      else
        let now := if ev_Stage ev == StageRequestReceived
                   then ev_RequestReceivedTimestamp ev else env_Now (rc_env cx) in
        _ ← edit_event (λ ev, with_Stage ev (ev_Stage ev) now);
        lift_ST (sink (with_Stage ev (ev_Stage ev) now))
  end.

(** auditResponseWriter.  The [once] of the writer at hand is [fs_once]. *)
Definition processCode (sink : option (Sink S)) (cx : rcontext) (omitStages : list Stage) (code : Z) : HM S unit :=
  λ w,
  if fs_once (w_state w) then (Ret tt, w)
  else
    (_ ← set_fstate (λ s, FState (fs_audit s) true (fs_state s));
     _ ← edit_event (λ ev,
           let st := default {| st_Status := ""; st_Message := ""; st_Reason := ""; st_Code := 0 |}
                       (ev_ResponseStatus ev) in
           set_Stage StageResponseStarted
             (set_Status {| st_Status := st_Status st; st_Message := st_Message st;
                            st_Reason := st_Reason st; st_Code := code |} ev));
     match sink with
     | None => mret tt
     | Some sink => _ ← processAuditEvent sink cx omitStages; mret tt
     end) w.

Definition setHttpHeader (w : ResponseWriter S) : HM S unit :=
  ae ← AuditEventFrom;
  match ae with
  | None => lift_outcome (Panic "nil pointer dereference")
  | Some ev => w (SetHeader HeaderAuditID (ev_AuditID ev))
  end.

(** The decorated writer starts with a fresh [once]; Hijack is there when the
    underlying writer is a Hijacker. *)
Definition auditResponseWriter (w : ResponseWriter S) (sink : option (Sink S)) (cx : rcontext)
    (omitStages : list Stage) : ResponseWriter S := λ op,
  let code := match op with WriteHeader code => Some code | WriteBody _ => Some 200%Z | Hijack => Some 101%Z
                          | SetHeader _ _ | AddHeader _ _ | DelHeader _ | Flush => None end in
  match code with
  | None => w op
  | Some code =>
      _ ← processCode sink cx omitStages code;
      _ ← setHttpHeader w;
      w op
  end.

Definition reset_once : HM S unit := set_fstate (λ s, FState (fs_audit s) false (fs_state s)).

Definition fakedSuccessStatus : Status :=
  {| st_Status := StatusSuccess; st_Message := "Connection closed early"; st_Reason := ""; st_Code := 200 |}.

Definition panicStatus (msg : string) : Status :=
  {| st_Status := StatusFailure; st_Message := "APIServer panic'd: " +:+ msg;
     st_Reason := StatusReasonInternalError; st_Code := 500 |}.

(** The deferred function, after the handler returned or panicked. *)
Definition leaveAudit (sink : Sink S) (longRunningSink : option (Sink S)) (cx : rcontext) (omitStages : list Stage)
    (res : unit + string) : HM S unit :=
  match res with
  | inr msg =>
      _ ← edit_event (set_Stage StagePanic ∘ set_Status (panicStatus msg));
      _ ← try_ (processAuditEvent sink cx omitStages);
      lift_outcome (Panic msg)
  | inl _ =>
      ae ← AuditEventFrom;
      _ ← match ae ≫= ev_ResponseStatus, longRunningSink with
          | None, Some longRunningSink =>
              _ ← edit_event (set_Stage StageResponseStarted ∘ set_Status fakedSuccessStatus);
              _ ← processAuditEvent longRunningSink cx omitStages; mret tt
          | _, _ => mret tt
          end;
      _ ← edit_event (λ ev,
            let ev := set_Stage StageResponseComplete ev in
            match ev_ResponseStatus ev with None => set_Status fakedSuccessStatus ev | Some _ => ev end);
      _ ← processAuditEvent sink cx omitStages; mret tt
  end.

Definition WithAudit (handler : Handler S) (audit : option (Sink S * Checker))
    (longRunningCheck : option (RequestInfo → bool)) : Handler S :=
  match audit with
  | None => handler
  | Some (sink, policy) => λ w cx,
      created ← createAuditEventAndAttachToContext cx policy;
      match created with
      | inr _ => respond (InternalError (Errorf "failed to create audit event" [])) w cx
      | inl None => handler w cx
      | inl (Some omitStages) =>
          _ ← edit_event (set_Stage StageRequestReceived);
          processed ← processAuditEvent sink cx omitStages;
          if negb processed then respond (InternalError (Errorf "failed to store audit event" [])) w cx
          else
            let longRunningSink :=
              match longRunningCheck, rc_info cx with
              | Some check, Some info => if check info then Some sink else None
              | _, _ => None
              end in
            _ ← reset_once;
            res ← try_ (handler (auditResponseWriter w longRunningSink cx omitStages) cx);
            leaveAudit sink longRunningSink cx omitStages res
      end
  end.

(** authn_audit.go.  [env_BasicAuth] and [env_PeerCerts] are what req.BasicAuth and
    req.TLS report. *)
Definition getAuthMethods (h : Header) (cx : rcontext) : string :=
  let basic := if env_BasicAuth (rc_env cx) then ["basic"] else [] in
  let parts := Split (TrimSpace (Header_Get h "Authorization")) " "%char in
  let bearer := match parts with p :: _ :: _ => if ToLower p == "bearer" then ["bearer"] else [] | _ => [] end in
  let token := TrimSpace (match req_Query (rc_http cx) !! "access_token" with Some (v :: _) => v | _ => "" end) in
  let access := if 0 <? slen token then ["access_token"] else [] in
  let x509 := if 0 <? env_PeerCerts (rc_env cx) then ["x509"] else [] in
  let authMethods := basic ++ bearer ++ access ++ x509 in
  if 0 <? length authMethods then "Authentication failed, attempted: " +:+ Join authMethods ", "
  else "Authentication failed, no credentials provided".

Definition WithFailedAuthenticationAudit (failedHandler : Handler S) (audit : option (Sink S * Checker)) : Handler S :=
  match audit with
  | None => failedHandler
  | Some (sink, policy) => λ w cx,
      created ← createAuditEventAndAttachToContext cx policy;
      match created with
      | inr _ => respond (InternalError (Errorf "failed to create audit event" [])) w cx
      | inl None => failedHandler w cx
      | inl (Some omitStages) =>
          h ← lift_auth get_header;
          _ ← edit_event (set_Stage StageResponseStarted ∘
                 set_Status {| st_Status := ""; st_Message := getAuthMethods h cx; st_Reason := ""; st_Code := 0 |});
          _ ← reset_once;
          failedHandler (auditResponseWriter w (Some sink) cx omitStages) cx
      end
  end.

(** audit_annotations.go *)
Definition filters_WithAuditAnnotations (handler : Handler S) (audit : option (Sink S * Checker)) : Handler S :=
  match audit with
  | None => handler
  | Some _ => λ w cx,
      _ ← set_fstate (λ s, FState (WithAuditAnnotations (fs_audit s)) (fs_once s) (fs_state s));
      handler w cx
  end.
End audit.

(** longrunning.go *)
Definition BasicLongRunningRequestCheck `{StringSets sset} (longRunningVerbs longRunningSubresources : sset)
    (requestInfo : RequestInfo) : bool :=
  if sets_Has longRunningVerbs (ri_Verb requestInfo) then true
  else if ri_IsResourceRequest requestInfo && sets_Has longRunningSubresources (ri_Subresource requestInfo) then true
  else negb (ri_IsResourceRequest requestInfo) && HasPrefix (ri_Path requestInfo) "/debug/pprof/".

(** ** The chain (config.go) *)

Record ChainConfig (S : Type) := {
  cc_Authenticator : option (Request (fstate S));
  cc_APIAudiences : list string;
  cc_KeepAuthorizationHeader : bool;
  cc_Authorizer : option (Authorizer (fstate S));
  cc_Audit : option (Sink S * Checker);
  cc_LongRunningFunc : option (RequestInfo → bool);
}.
Arguments cc_Authenticator {S} _.
Arguments cc_APIAudiences {S} _.
Arguments cc_KeepAuthorizationHeader {S} _.
Arguments cc_Authorizer {S} _.
Arguments cc_Audit {S} _.
Arguments cc_LongRunningFunc {S} _.

(** The filters of DefaultBuildHandlerChain that decide about a request, from the
    authentication inwards.  The latency trackers between them only measure. *)
Definition securityChain {S} (respond : refusal → Handler S) `{DNSValidation} `{ImpersonationHeaders}
    `{HeaderRange} `{StatusConstants} (apiHandler : Handler S) (s : ChainConfig S) : Handler S :=
  let handler := WithAuthorization respond apiHandler (cc_Authorizer s) in
  let handler := WithImpersonation respond handler (cc_Authorizer s) in
  let handler := WithAudit respond handler (cc_Audit s) (cc_LongRunningFunc s) in
  let failedHandler := WithFailedAuthenticationAudit respond (respond Unauthorized) (cc_Audit s) in
  WithAuthentication handler (cc_Authenticator s) failedHandler (cc_APIAudiences s) (cc_KeepAuthorizationHeader s).

(** ** Theorems *)

(** *** Reaching the handler

    On a given request a filter either refuses, whatever handler it wraps, or
    calls that handler, once, on a writer, context and state that do not depend
    on it, and turns its outcome into its own. *)

Section reach.
Context {S : Type}.
Implicit Types (F G : Handler S → Handler S) (w : world (fstate S)) (rw : ResponseWriter S) (cx : rcontext).

Definition ending : Type := outcome unit * world (fstate S).

Definition refuses F rw cx w : Prop := ∃ res : ending, ∀ h, F h rw cx w = res.

Definition reaches F rw cx w rw' cx' w' (k : ending → ending) : Prop := ∀ h, F h rw cx w = k (h rw' cx' w').

Lemma refuses_outer F G rw cx w : refuses F rw cx w → refuses (F ∘ G) rw cx w.
Proof. intros [res Hres]. exists res. intros h. apply Hres. Qed.

Lemma refuses_inner F G rw cx w rw' cx' w' k :
  reaches F rw cx w rw' cx' w' k → refuses G rw' cx' w' → refuses (F ∘ G) rw cx w.
Proof. intros Hreach [res Hres]. exists (k res). intros h. unfold compose. by rewrite Hreach, Hres. Qed.

Lemma reaches_compose F G rw cx w rw1 cx1 w1 k1 rw2 cx2 w2 k2 :
  reaches F rw cx w rw1 cx1 w1 k1 → reaches G rw1 cx1 w1 rw2 cx2 w2 k2 →
  reaches (F ∘ G) rw cx w rw2 cx2 w2 (k1 ∘ k2).
Proof. intros HF HG h. unfold compose. by rewrite HF, HG. Qed.
End reach.

#[export] Hint Resolve refuses_outer refuses_inner reaches_compose : apiserver.

(** The filter refuses: its outcome does not mention the handler. *)
Ltac refused := left; by eexists.

Section filter_lemmas.
Context {S : Type} (respond : refusal → Handler S).
Context `{DNSValidation} `{ImpersonationHeaders} `{HeaderRange} `{StatusConstants}.
Implicit Types (w : world (fstate S)) (rw : ResponseWriter S) (cx : rcontext).

(** *** Authentication *)

Definition audienceContext (apiAuds : list string) (cx : rcontext) : rcontext :=
  if 0 <? length apiAuds then WithAudiences cx apiAuds else cx.

(** The authenticator accepts the request as [u], for audiences the server accepts. *)
Definition authenticates (auth : Request (fstate S)) (apiAuds : list string) cx w (u : DefaultInfo) w1 : Prop :=
  ∃ l r, auth (rc_auds (audienceContext apiAuds cx)) w = Ret ((Some l, true, None), w1) ∧
    w_heap w1 !! l = Some r ∧ resp_User r = Some u ∧
    audiencesAreAcceptable apiAuds (resp_Audiences r) = true.

Definition afterAuthentication (keep : bool) w : world (fstate S) :=
  if keep then w else World (w_heap w) (Header_Del (w_header w) "Authorization") (w_state w).

Lemma authentication_reaches auth failed apiAuds keep rw cx w u w1 :
  authenticates auth apiAuds cx w u w1 →
  reaches (λ h, WithAuthentication h (Some auth) failed apiAuds keep) rw cx w
    rw (WithUser (audienceContext apiAuds cx) (Some u)) (afterAuthentication keep w1) id.
Proof.
  intros (l & r & Hauth & Hl & Hu & Hauds) h. unfold WithAuthentication, audienceContext in *.
  unfold mbind, HM_bind, lift_auth. rewrite Hauth. cbn. unfold deref. cbn. rewrite Hl. cbn.
  rewrite Hauds. cbn. unfold user_of. destruct keep; cbn; rewrite Hu; done.
Qed.

Lemma authentication_dichotomy auth failed apiAuds keep rw cx w :
  refuses (λ h, WithAuthentication h (Some auth) failed apiAuds keep) rw cx w ∨
  ∃ u w1, authenticates auth apiAuds cx w u w1.
Proof.
  unfold refuses, WithAuthentication, authenticates, audienceContext.
  set (cx1 := if 0 <? length apiAuds then _ else _). unfold mbind, HM_bind, lift_auth.
  destruct (auth (rc_auds cx1) w) as [[[[resp ok] err] w1]|] eqn:Hauth; [|refused].
  destruct err as [e|]; cbn; [refused|]. destruct ok; cbn; [|refused].
  unfold deref. destruct resp as [l|]; cbn; [|refused].
  destruct (w_heap w1 !! l) as [r|] eqn:Hl; cbn; [|refused].
  destruct (audiencesAreAcceptable apiAuds (resp_Audiences r)) eqn:Hauds; cbn; [|refused].
  unfold user_of. destruct (resp_User r) as [u|] eqn:Hu; [right; by exists u, w1, l, r|].
  left. destruct keep; by eexists.
Qed.

(** *** Authorization *)

Definition authorizes (a : Authorizer (fstate S)) (attrs : AttributesRecord) (s : fstate S) : Prop :=
  v_decision (a attrs s).1 = DecisionAllow.

Definition afterAuthorization (a : Authorizer (fstate S)) (attrs : AttributesRecord) w : world (fstate S) :=
  let '(v, s) := a attrs (w_state w) in
  let ae := LogAnnotation (ac_event (fs_audit s)) decisionAnnotationKey decisionAllow in
  World (w_heap w) (w_header w)
    (FState {| ac_event := LogAnnotation ae reasonAnnotationKey (v_reason v); ac_pending := ac_pending (fs_audit s) |}
            (fs_once s) (fs_state s)).

Lemma authorization_reaches a rw cx w attrs :
  GetAuthorizerAttributes cx = inl attrs → authorizes a attrs (w_state w) →
  reaches (λ h, WithAuthorization respond h (Some a)) rw cx w rw cx (afterAuthorization a attrs w) id.
Proof.
  intros Hattrs Hallow h. unfold authorizes in Hallow. unfold WithAuthorization, afterAuthorization. rewrite Hattrs.
  unfold mbind, HM_bind, lift_ST. destruct (a attrs (w_state w)) as [v s]. cbn in *. by rewrite Hallow.
Qed.

Lemma authorization_dichotomy a rw cx w :
  refuses (λ h, WithAuthorization respond h (Some a)) rw cx w ∨
  ∃ attrs, GetAuthorizerAttributes cx = inl attrs ∧ authorizes a attrs (w_state w).
Proof.
  unfold refuses, WithAuthorization, authorizes.
  destruct (GetAuthorizerAttributes cx) as [attrs|err]; [|refused].
  unfold mbind, HM_bind, lift_ST. destruct (a attrs (w_state w)) as [v s] eqn:Ha. cbn.
  destruct (decide (v_decision v = DecisionAllow)) as [Hallow|Hdeny].
  - right. exists attrs. by rewrite Ha.
  - left. rewrite bool_decide_eq_false_2 by done. cbn. destruct (v_err v); by eexists.
Qed.

(** *** Impersonation *)

Definition may_act (a : Authorizer (fstate S)) (u : DefaultInfo) (r : ImpersonationRequest) : Prop :=
  ∃ s, v_err (a (actingAsAttributes u r) s).1 = None ∧ authorizes a (actingAsAttributes u r) s.

Lemma impersonationLoop_spec a u specified rs x w :
  match (impersonationLoop (Some a) u specified rs x w).1 with
  | Ret (inl x') => x' = foldl (λ x r, actAs specified r x) x rs ∧ ∀ r, r ∈ rs → may_act a u r
  | Ret (inr (attrs, _)) => ∃ r, r ∈ rs ∧ attrs = actingAsAttributes u r
  | Panic _ => False
  end.
Proof.
  revert x w. induction rs as [|r rs IH]; intros x w; cbn.
  { split; [done|]. by intros r ?%not_elem_of_nil. }
  unfold mbind, HM_bind, lift_ST. destruct (a (actingAsAttributes u r) (w_state w)) as [v s] eqn:Ha. cbn.
  destruct (v_err v) as [e|] eqn:He; cbn; [exists r; split; [left|done]|].
  destruct (decide (v_decision v = DecisionAllow)) as [Hallow|Hdeny].
  - rewrite bool_decide_eq_true_2 by done. cbn.
    specialize (IH (actAs specified r x) (World (w_heap w) (w_header w) s)).
    destruct (impersonationLoop _ _ _ _ _ _) as [[[x'|[attrs reason]]|msg] w'] eqn:Hloop; cbn in *; [| |done].
    + destruct IH as [-> Hrs]. split; [done|]. intros r' [->|?]%elem_of_cons; [|by apply Hrs].
      exists (w_state w). unfold authorizes. by rewrite Ha.
    + destruct IH as (r' & Hr' & ->). exists r'. split; [by right|done].
  - rewrite bool_decide_eq_false_2 by done. cbn. exists r. split; [left|done].
Qed.
(** What one request adds to the identity. *)
Definition act_user (r : ImpersonationRequest) : option string :=
  match im_Kind r with
  | ImpersonationUser => Some (im_Name r)
  | ImpersonationServiceAccount => Some (MakeUsername (im_Namespace r) (im_Name r))
  | _ => None
  end.

Definition act_groups (r : ImpersonationRequest) : list string :=
  match im_Kind r with
  | ImpersonationGroup => [im_Name r]
  | ImpersonationServiceAccount => MakeGroupNames (im_Namespace r)
  | _ => []
  end.

Definition act_extra (r : ImpersonationRequest) : option (string * string) :=
  match im_Kind r with ImpersonationUserExtra => Some (im_FieldPath r, im_Name r) | _ => None end.

Lemma actAs_groups specified r x g :
  g ∈ ac_groups (actAs specified r x) → g ∈ ac_groups x ∨ g ∈ act_groups r.
Proof. unfold actAs, act_groups. destruct (im_Kind r); cbn; [|destruct specified| |]; set_solver. Qed.

Lemma actAs_extra specified r x k vs v :
  ac_extra (actAs specified r x) !! k = Some vs → v ∈ vs →
  (∃ vs', ac_extra x !! k = Some vs' ∧ v ∈ vs') ∨ act_extra r = Some (k, v).
Proof.
  unfold actAs, act_extra. destruct (im_Kind r); cbn; intros Hk Hv; try by left; eauto.
  destruct (decide (im_FieldPath r = k)) as [<-|Hne]; [|rewrite lookup_insert_ne in Hk by done; by left; eauto].
  rewrite lookup_insert_eq in Hk. injection Hk as <-.
  apply elem_of_app in Hv as [Hv| ->%list_elem_of_singleton]; [left|by right].
  destruct (ac_extra x !! im_FieldPath r) as [vs|]; [by eauto|by apply not_elem_of_nil in Hv].
Qed.

Lemma actAs_user specified r x :
  ac_username (actAs specified r x) = default (ac_username x) (act_user r).
Proof. unfold actAs, act_user. by destruct (im_Kind r). Qed.

Lemma foldl_actAs_groups specified rs x g :
  g ∈ ac_groups (foldl (λ x r, actAs specified r x) x rs) →
  g ∈ ac_groups x ∨ ∃ r, r ∈ rs ∧ g ∈ act_groups r.
Proof.
  revert x. induction rs as [|r rs IH]; intros x; cbn; [by left|].
  intros [[?|?]%actAs_groups|(r' & ? & ?)]%IH; [by left| |]; right; eexists; (split; [|done]).
  - left.
  - by right.
Qed.

Lemma foldl_actAs_extra specified rs x k vs v :
  ac_extra (foldl (λ x r, actAs specified r x) x rs) !! k = Some vs → v ∈ vs →
  (∃ vs', ac_extra x !! k = Some vs' ∧ v ∈ vs') ∨ ∃ r, r ∈ rs ∧ act_extra r = Some (k, v).
Proof.
  revert x. induction rs as [|r rs IH]; intros x; cbn; [by eauto|].
  intros Hk Hv. destruct (IH _ Hk Hv) as [(vs' & Hk' & Hv')|(r' & ? & ?)].
  - destruct (actAs_extra _ _ _ _ _ _ Hk' Hv') as [?|?]; [by left|]. right. exists r. split; [left|done].
  - right. exists r'. split; [by right|done].
Qed.

Lemma foldl_actAs_user specified rs x :
  (∀ r, r ∈ rs → act_user r = None) →
  ac_username (foldl (λ x r, actAs specified r x) x rs) = ac_username x.
Proof.
  revert x. induction rs as [|r rs IH]; intros x Hrs; cbn; [done|].
  rewrite IH, actAs_user, Hrs; [done|left|]. intros r' Hr'. apply Hrs. by right.
Qed.

(** Either nothing is asked for, or the first request is for the user the header
    names and no other request names one. *)
Lemma buildImpersonationRequests_spec h rs :
  buildImpersonationRequests h = Ret (inl rs) →
  rs = [] ∨ ∃ r rest, rs = r :: rest ∧ act_user r = Some (Header_Get h ImpersonateUserHeader) ∧
    ∀ r', r' ∈ rest → act_user r' = None.
Proof.
  unfold buildImpersonationRequests. set (user := Header_Get h ImpersonateUserHeader).
  set (extras := filter _ _). set (groups := Header_Values h ImpersonateGroupHeader). intros Hbuild.
  assert (∀ r', r' ∈ ((λ group, impersonationRequest ImpersonationGroup "" group "") <$> groups)
                     ++ (extras ≫= extraRequests) → act_user r' = None) as Hrest.
  { intros r' [(? & -> & _)%list_elem_of_fmap|(hd & Hr' & _)%list_elem_of_bind]%elem_of_app; [done|].
    unfold extraRequests in Hr'. destruct (negb (isExtraHeader hd.1)); [by apply not_elem_of_nil in Hr'|].
    by apply list_elem_of_fmap in Hr' as (? & -> & _). }
  destruct (0 <? slen user); cbn in Hbuild.
  - destruct (SplitUsername user) as [[[ns name]|e]|] eqn:Hsplit; cbn in Hbuild; [| |done];
      rewrite andb_false_r in Hbuild; injection Hbuild as <-; right; eexists _, _; split_and!; try done.
    cbn. by apply SplitUsername_inv in Hsplit as (-> & _).
  - destruct (_ || _) eqn:Hany; [done|]. injection Hbuild as <-. left.
    apply orb_false_iff in Hany as [Hg He]. by destruct groups, extras.
Qed.
Lemma clear_fold (l : list (string * list string)) (h : Header) k :
  foldl (λ h header, if isExtraHeader header.1 then Header_Del h header.1 else h) h l !! k =
  if isExtraHeader k && bool_decide (k ∈ l.*1) then None else h !! k.
Proof.
  revert h. induction l as [|[k' vs] l IH]; intros h; cbn; [by rewrite andb_false_r|].
  rewrite IH. destruct (decide (k = k')) as [->|Hne].
  - rewrite (bool_decide_eq_true_2 (k' ∈ k' :: _)) by left. rewrite andb_true_r.
    destruct (isExtraHeader k') eqn:Hk'; cbn; [|done]. rewrite Header_Del_lookup, decide_True by done. by destruct (bool_decide _).
  - rewrite (bool_decide_ext (k ∈ k' :: _) (k ∈ l.*1)) by (rewrite elem_of_cons; naive_solver).
    destruct (isExtraHeader k'); [|done]. by rewrite Header_Del_lookup, decide_False.
Qed.

Lemma clearImpersonationHeaders_lookup `{!HeaderRangeLaws} (h : Header) k :
  clearImpersonationHeaders h !! k =
  if (k == ImpersonateUserHeader) || (k == ImpersonateGroupHeader) || isExtraHeader k then None else h !! k.
Proof.
  unfold clearImpersonationHeaders. set (h' := Header_Del _ ImpersonateGroupHeader).
  rewrite clear_fold.
  assert (k ∈ (range_header h').*1 ↔ is_Some (h' !! k)) as Hrange.
  { rewrite range_header_perm, list_elem_of_fmap. split.
    - intros ([k' vs] & -> & Hin%elem_of_map_to_list). by exists vs.
    - intros [vs Hvs]. exists (k, vs). split; [done|]. by apply elem_of_map_to_list. }
  rewrite (bool_decide_ext _ _ Hrange). subst h'. rewrite !Header_Del_lookup.
  destruct (isExtraHeader k), (decide (k = ImpersonateGroupHeader)), (decide (k = ImpersonateUserHeader));
    rewrite ?(bool_decide_eq_true_2 (k = ImpersonateGroupHeader)), ?(bool_decide_eq_false_2 (k = ImpersonateGroupHeader)),
      ?(bool_decide_eq_true_2 (k = ImpersonateUserHeader)), ?(bool_decide_eq_false_2 (k = ImpersonateUserHeader)) by done;
    cbn; try done.
  by destruct (h !! k).
Qed.

(** The identity [eff] that [u] is allowed, request by request, to take on. *)
Definition impersonates (a : Authorizer (fstate S)) (u eff : DefaultInfo) : Prop :=
  (∃ r, may_act a u r ∧ act_user r = Some (u_Name eff)) ∧
  (∀ g, g ∈ u_Groups eff →
     g = AllAuthenticated ∨ g = AllUnauthenticated ∨ ∃ r, may_act a u r ∧ g ∈ act_groups r) ∧
  (∀ k vs v, u_Extra eff !! k = Some vs → v ∈ vs → ∃ r, may_act a u r ∧ act_extra r = Some (k, v)).

Lemma impersonatedGroups_elem name groups g :
  g ∈ impersonatedGroups name groups → g ∈ groups ∨ g = AllAuthenticated ∨ g = AllUnauthenticated.
Proof. unfold impersonatedGroups. repeat case_match; set_solver. Qed.

Lemma impersonates_loop a u specified rs :
  let x := foldl (λ x r, actAs specified r x) {| ac_username := ""; ac_groups := []; ac_extra := ∅ |} rs in
  (∀ r, r ∈ rs → may_act a u r) →
  (∃ r, r ∈ rs ∧ act_user r = Some (ac_username x)) →
  impersonates a u {| u_Name := ac_username x; u_UID := "";
                      u_Groups := impersonatedGroups (ac_username x) (ac_groups x); u_Extra := ac_extra x |}.
Proof.
  intros x Hrs (r & Hr & Huser). split_and!.
  - exists r. by auto.
  - cbn. intros g [Hg|[->| ->]]%impersonatedGroups_elem; [|by auto..].
    apply foldl_actAs_groups in Hg as [?%not_elem_of_nil|(r' & ? & ?)]; [done|].
    right; right. exists r'. by auto.
  - cbn. intros k vs v Hk Hv.
    destruct (foldl_actAs_extra _ _ _ _ _ _ Hk Hv) as [(vs' & Hk' & _)|(r' & ? & ?)].
    + cbn in Hk'. by rewrite lookup_empty in Hk'.
    + exists r'. by auto.
Qed.
Lemma impersonationLoop_frame a u specified rs x w :
  let w' := (impersonationLoop (Some a) u specified rs x w).2 in
  w_heap w' = w_heap w ∧ w_header w' = w_header w.
Proof.
  revert x w. induction rs as [|r rs IH]; intros x w; cbn; [done|].
  unfold mbind, HM_bind, lift_ST. destruct (a (actingAsAttributes u r) (w_state w)) as [v s]. cbn.
  destruct (_ || _); [done|]. apply (IH _ (World (w_heap w) (w_header w) s)).
Qed.

(** No impersonation header reaches the handler. *)
Definition impersonation_cleared (h : Header) : Prop :=
  ∀ k, (k == ImpersonateUserHeader) || (k == ImpersonateGroupHeader) || isExtraHeader k = true → h !! k = None.

Lemma impersonation_dichotomy `{!HeaderRangeLaws} a rw cx w :
  let F := λ h, WithImpersonation respond h (Some a) in
  refuses F rw cx w ∨
  (buildImpersonationRequests (w_header w) = Ret (inl []) ∧ reaches F rw cx w rw cx w id) ∨
  ∃ u eff w', rc_user cx = Some u ∧ impersonates a u eff ∧
    u_Name eff = Header_Get (w_header w) ImpersonateUserHeader ∧ impersonation_cleared (w_header w') ∧
    reaches F rw cx w rw (WithUser cx (Some eff)) w' id.
Proof.
  unfold refuses, reaches, WithImpersonation, mbind, HM_bind, lift_auth, get_header, lift_outcome.
  cbn -[buildImpersonationRequests impersonationLoop Nat.ltb].
  destruct (buildImpersonationRequests (w_header w)) as [[rs|err]|msg] eqn:Hbuild;
    cbn -[impersonationLoop Nat.ltb]; [|refused..].
  destruct (buildImpersonationRequests_spec _ _ Hbuild) as [->|(r & rest & -> & Huser & Hrest)];
    [by right; left|]. cbn -[impersonationLoop Nat.ltb].
  destruct (rc_user cx) as [u|]; [|refused]. set (specified := 0 <? _). set (x0 := Build_acting _ _ _).
  pose proof (impersonationLoop_spec a u specified (r :: rest) x0 w) as Hspec.
  pose proof (impersonationLoop_frame a u specified (r :: rest) x0 w) as [_ Hheader].
  destruct (impersonationLoop _ _ _ _ _ _) as [[[x|[attrs reason]]|msg] w1]; cbn in *; [|refused|done].
  right; right. destruct Hspec as [-> Hrs].
  match goal with |- context [foldl ?f ?y rest] =>
    assert (Some (ac_username (foldl f y rest)) = act_user r) as Hname end.
  { rewrite foldl_actAs_user by done. by rewrite actAs_user, Huser. }
  exists u. eexists _, _. split_and!; [done| | | |intros h; cbn; reflexivity].
  - apply (impersonates_loop a u specified (r :: rest)); [done|]. exists r. split; [left|done].
  - cbn. rewrite Huser in Hname. by injection Hname.
  - intros k Hk. cbn. by rewrite clearImpersonationHeaders_lookup, Hk.
Qed.

(** *** Audit *)

Lemma LogAnnotation_with ev k v : ∃ m, LogAnnotation (Some ev) k v = Some (with_Annotations ev m).
Proof.
  unfold LogAnnotation. assert (ev = with_Annotations ev (ev_Annotations ev)) as Hid by by destruct ev.
  repeat case_match; by eexists; first [exact (f_equal Some Hid)|reflexivity].
Qed.

Lemma NewEventFromRequest_with h uri ips uid t level attrs pending :
  ∃ m, NewEventFromRequest h uri ips uid t level attrs pending =
       with_Annotations (NewEventFromRequest h uri ips uid t level attrs []) m.
Proof.
  unfold NewEventFromRequest. set (ev := Build_Event _ _ _ _ _ _ _ _ _ _ _ _ _ _ _ _).
  change (default ev (fold_left _ [] (Some ev))) with ev.
  assert (∀ e, ∃ m, fold_left (λ ae kv, LogAnnotation ae kv.1 kv.2) pending (Some e) = Some (with_Annotations e m))
    as Hfold.
  { induction pending as [|kv pending IH]; intros e; cbn [fold_left]; [exists (ev_Annotations e); by destruct e|].
    destruct (LogAnnotation_with e kv.1 kv.2) as [m ->]. destruct (IH (with_Annotations e m)) as [m' ->]. by exists m'. }
  destruct (Hfold ev) as [m ->]. by exists m.
Qed.

(** The request is exempt from auditing, or the sink has stored an event of it, with
    its user, before the handler runs. *)
Definition recorded (audit : option (Sink S * Checker)) cx : Prop :=
  match audit with
  | None => True
  | Some (sink, policy) =>
      ∃ attrs, GetAuthorizerAttributes cx = inl attrs ∧
        ((policy attrs).1 = LevelNone ∨ StageRequestReceived ∈ (policy attrs).2 ∨
         ∃ ev s, ev_Stage ev = StageRequestReceived ∧ ev_Level ev = (policy attrs).1 ∧
           (∀ u, rc_user cx = Some u → ev_User ev = userInfoOf u) ∧ (sink ev s).1 = true)
  end.

Lemma GetAuthorizerAttributes_user cx attrs : GetAuthorizerAttributes cx = inl attrs → a_User attrs = rc_user cx.
Proof. unfold GetAuthorizerAttributes. destruct (rc_info cx); [|done]. by injection 1 as <-. Qed.

(** What createAuditEventAndAttachToContext returns, and the state it leaves. *)
Definition attachedEvent (policy : Checker) (attrs : AttributesRecord) cx w : Event :=
  NewEventFromRequest (w_header w) (env_RequestURI (rc_env cx)) (env_SourceIPs (rc_env cx)) (env_NewUID (rc_env cx))
    (default (env_Now (rc_env cx)) (env_Received (rc_env cx))) (policy attrs).1 attrs
    (default [] (ac_pending (fs_audit (w_state w)))).

Definition attach (ev : Event) w : world (fstate S) :=
  let s := w_state w in
  World (w_heap w) (w_header w)
    (FState {| ac_event := Some ev; ac_pending := ac_pending (fs_audit s) |} (fs_once s) (fs_state s)).

Lemma createAuditEvent_eq cx policy w :
  createAuditEventAndAttachToContext cx policy w =
  match GetAuthorizerAttributes cx with
  | inr err => (Ret (inr (ErrorWrap "failed to GetAuthorizerAttributes: %v" [] err)), w)
  | inl attrs =>
      if (policy attrs).1 == LevelNone then (Ret (inl None), w)
      else (Ret (inl (Some (policy attrs).2)), attach (attachedEvent policy attrs cx w) w)
  end.
Proof.
  unfold createAuditEventAndAttachToContext, attachedEvent, attach.
  destruct (GetAuthorizerAttributes cx) as [attrs|]; [|done].
  destruct (policy attrs) as [level omit]. cbn [fst snd]. by case_match.
Qed.

Definition stamp (ev : Event) cx : Event :=
  with_Stage ev (ev_Stage ev)
    (if ev_Stage ev == StageRequestReceived then ev_RequestReceivedTimestamp ev else env_Now (rc_env cx)).

(** processAuditEvent on a state that holds an event. *)
Lemma processAuditEvent_eq sink cx omit ev w :
  processAuditEvent sink cx omit (attach ev w) =
  if existsb (λ stage, ev_Stage ev == stage) omit then (Ret true, attach ev w)
  else let '(ok, s) := sink (stamp ev cx) (w_state (attach (stamp ev cx) w)) in
       (Ret ok, World (w_heap w) (w_header w) s).
Proof.
  unfold processAuditEvent, mbind, HM_bind, AuditEventFrom, attach. simpl.
  destruct (existsb _ omit); reflexivity.
Qed.

Lemma edit_event_eq f ev w : edit_event f (attach ev w) = (Ret tt, attach (f ev) w).
Proof. done. Qed.
(** The decorated writer's [once] is reset. *)
Definition fresh_once w : world (fstate S) :=
  World (w_heap w) (w_header w) (FState (fs_audit (w_state w)) false (fs_state (w_state w))).

Definition longRunningSinkOf (sink : Sink S) (longRunning : option (RequestInfo → bool)) cx : option (Sink S) :=
  match longRunning, rc_info cx with
  | Some check, Some info => if check info then Some sink else None
  | _, _ => None
  end.

(** What the deferred function makes of the handler's ending. *)
Definition finishAudit (sink : Sink S) (longRunningSink : option (Sink S)) cx (omit : list Stage) (res : ending)
    : ending :=
  match res with
  | (Ret a, w) => leaveAudit sink longRunningSink cx omit (inl a) w
  | (Panic msg, w) => leaveAudit sink longRunningSink cx omit (inr msg) w
  end.

(** Storing the first event: whether it was accepted, and the state after it. *)
Definition firstEvent (sink : Sink S) (policy : Checker) (attrs : AttributesRecord) cx w : bool * world (fstate S) :=
  let ev := set_Stage StageRequestReceived (attachedEvent policy attrs cx w) in
  if existsb (λ stage, ev_Stage ev == stage) (policy attrs).2 then (true, attach ev w)
  else let '(ok, s) := sink (stamp ev cx) (w_state (attach (stamp ev cx) w)) in
       (ok, World (w_heap w) (w_header w) s).

Lemma WithAudit_eq h sink policy longRunning rw cx w attrs :
  GetAuthorizerAttributes cx = inl attrs → (policy attrs).1 ≠ LevelNone →
  WithAudit respond h (Some (sink, policy)) longRunning rw cx w =
  let '(ok, w1) := firstEvent sink policy attrs cx w in
  let longRunningSink := longRunningSinkOf sink longRunning cx in
  let omit := (policy attrs).2 in
  if ok then finishAudit sink longRunningSink cx omit
               (h (auditResponseWriter rw longRunningSink cx omit) cx (fresh_once w1))
  else respond (InternalError (Errorf "failed to store audit event" [])) rw cx w1.
Proof.
  intros Hattrs Hlevel. unfold WithAudit, firstEvent, mbind, HM_bind. rewrite createAuditEvent_eq, Hattrs.
  rewrite bool_decide_eq_false_2 by done. rewrite edit_event_eq, processAuditEvent_eq.
  set (ev := set_Stage _ _). unfold finishAudit, try_, reset_once, set_fstate.
  destruct (existsb _ _); cbn [negb].
  - by destruct (h _ _ _) as [[]].
  - destruct (sink _ _) as [[] s]; cbn [negb]; [|done]. by destruct (h _ _ _) as [[]].
Qed.

Lemma firstEvent_spec sink policy attrs cx w :
  w_header (firstEvent sink policy attrs cx w).2 = w_header w ∧
  (a_User attrs = rc_user cx → (firstEvent sink policy attrs cx w).1 = true →
   StageRequestReceived ∈ (policy attrs).2 ∨
   ∃ ev s, ev_Stage ev = StageRequestReceived ∧ ev_Level ev = (policy attrs).1 ∧
     (∀ u, rc_user cx = Some u → ev_User ev = userInfoOf u) ∧ (sink ev s).1 = true).
Proof.
  unfold firstEvent. set (ev := set_Stage _ _). destruct (existsb _ _) eqn:Homit.
  { split; [done|]. intros _ _. left. apply existsb_elem_of in Homit as (stage & Hin & Heq).
    by apply bool_decide_eq_true in Heq as <-. }
  destruct (sink _ _) as [ok s] eqn:Hsink. split; [done|]. intros Huser Hok. right.
  exists (stamp ev cx), (w_state (attach (stamp ev cx) w)). split_and!; [done| | |by rewrite Hsink].
  - subst ev. cbn. unfold attachedEvent.
    by match goal with |- ev_Level (NewEventFromRequest ?h ?u ?i ?d ?t ?l ?a ?p) = _ =>
      destruct (NewEventFromRequest_with h u i d t l a p) as [m ->] end.
  - intros u Hu. subst ev. cbn. unfold attachedEvent.
    match goal with |- ev_User (NewEventFromRequest ?h ?u ?i ?d ?t ?l ?a ?p) = _ =>
      destruct (NewEventFromRequest_with h u i d t l a p) as [m ->] end. cbn. by rewrite Huser, Hu.
Qed.

Lemma audit_dichotomy audit longRunning rw cx w :
  let F := λ h, WithAudit respond h audit longRunning in
  refuses F rw cx w ∨
  recorded audit cx ∧ ∃ rw' w' k, w_header w' = w_header w ∧ reaches F rw cx w rw' cx w' k.
Proof.
  destruct audit as [[sink policy]|]; [|right; split; [done|]; by exists rw, w, id].
  unfold refuses, reaches, recorded.
  destruct (GetAuthorizerAttributes cx) as [attrs|err] eqn:Hattrs.
  2:{ left. eexists. intros h. unfold WithAudit, mbind, HM_bind. rewrite createAuditEvent_eq, Hattrs. reflexivity. }
  destruct (decide ((policy attrs).1 = LevelNone)) as [Hnone|Hsome].
  { right. split; [by eauto|]. exists rw, w, id. split; [done|]. intros h.
    unfold WithAudit, mbind, HM_bind. rewrite createAuditEvent_eq, Hattrs. by rewrite bool_decide_eq_true_2. }
  pose proof (firstEvent_spec sink policy attrs cx w) as [Hheader Hrec].
  destruct (firstEvent sink policy attrs cx w) as [[] w1] eqn:Hfirst.
  - right. split; [exists attrs; split; [done|]; right; apply Hrec; [by apply GetAuthorizerAttributes_user|done]|].
    eexists _, (fresh_once w1), _. split; [exact Hheader|]. intros h.
    rewrite (WithAudit_eq _ _ _ _ _ _ _ attrs), Hfirst by done. reflexivity.
  - left. eexists. intros h. rewrite (WithAudit_eq _ _ _ _ _ _ _ attrs), Hfirst by done. reflexivity.
Qed.
End filter_lemmas.

(** *** The whole chain *)

Section chain_theorems.
Context {S : Type} (respond : refusal → Handler S).
Context `{DNSValidation} `{ImpersonationHeaders} `{HeaderRange} `{!HeaderRangeLaws} `{StatusConstants}.
Implicit Types (w : world (fstate S)) (rw : ResponseWriter S) (cx : rcontext) (s : ChainConfig S).

(** The filters inside the authentication, on a request of user [u]. *)
Lemma inner_dichotomy s authz rw cx w u :
  let B := λ h, WithAudit respond h (cc_Audit s) (cc_LongRunningFunc s) in
  let C := λ h, WithImpersonation respond h (Some authz) in
  let D := λ h, WithAuthorization respond h (Some authz) in
  rc_user cx = Some u →
  refuses (B ∘ (C ∘ D)) rw cx w ∨
  ∃ rw' cx' w' k eff attrs st,
    reaches (B ∘ (C ∘ D)) rw cx w rw' cx' w' k ∧ recorded (cc_Audit s) cx ∧
    (eff = u ∧ buildImpersonationRequests (w_header w) = Ret (inl []) ∨
     impersonates authz u eff ∧ impersonation_cleared (w_header w')) ∧
    rc_user cx' = Some eff ∧ rc_info cx' = rc_info cx ∧
    GetAuthorizerAttributes cx' = inl attrs ∧ authorizes authz attrs st.
Proof.
  intros B C D Hu.
  destruct (audit_dichotomy respond (cc_Audit s) (cc_LongRunningFunc s) rw cx w)
    as [Hrefuse|(Hrec & rw1 & w1 & k1 & Hheader & HB)]; [left; by apply refuses_outer|].
  destruct (impersonation_dichotomy respond authz rw1 cx w1)
    as [Hrefuse|[[Hnone HC]|(u' & eff & w2 & Hu' & Himp & _ & Hclear & HC)]].
  - left. eauto with apiserver.
  - destruct (authorization_dichotomy respond authz rw1 cx w1) as [Hrefuse|(attrs & Hattrs & Hallow)].
    + left. eauto with apiserver.
    + right. eexists rw1, cx, _, _, u, attrs, _. split_and!; try done.
      * pose proof (authorization_reaches respond authz rw1 _ _ _ Hattrs Hallow). eauto with apiserver.
      * left. by rewrite <- Hheader.
  - destruct (authorization_dichotomy respond authz rw1 (WithUser cx (Some eff)) w2)
      as [Hrefuse|(attrs & Hattrs & Hallow)].
    + left. eauto with apiserver.
    + right. eexists rw1, (WithUser cx (Some eff)), _, _, eff, attrs, _. split_and!; try done.
      * pose proof (authorization_reaches respond authz rw1 _ _ _ Hattrs Hallow). eauto with apiserver.
      * right. split; [congruence|]. unfold afterAuthorization. by destruct (authz attrs (w_state w2)).
Qed.

(** No request reaches the API handler unchecked.  With an authenticator and an
    authorizer configured, a request is either refused, whatever the API handler
    is, or: the authenticator accepted it as a user [u] for an acceptable
    audience; the audit policy exempts it or the sink has stored an event for
    [u]; it runs as [u] (when no impersonation is asked for) or as an identity
    whose user name, groups and extra fields the authorizer let [u] impersonate
    one by one (system:authenticated and system:unauthenticated apart), with the
    impersonation headers removed; and the authorizer allowed that identity the
    request described by the RequestInfo. *)
Theorem securityChain_sound s auth authz rw cx w :
  cc_Authenticator s = Some auth → cc_Authorizer s = Some authz →
  (∃ res, ∀ api, securityChain respond api s rw cx w = res) ∨
  ∃ rw' cx' w' k u w1 eff attrs st,
    (∀ api, securityChain respond api s rw cx w = k (api rw' cx' w')) ∧
    authenticates auth (cc_APIAudiences s) cx w u w1 ∧
    recorded (cc_Audit s) (WithUser (audienceContext (cc_APIAudiences s) cx) (Some u)) ∧
    (eff = u ∧ buildImpersonationRequests (w_header (afterAuthentication (cc_KeepAuthorizationHeader s) w1)) = Ret (inl []) ∨
     impersonates authz u eff ∧ impersonation_cleared (w_header w')) ∧
    rc_user cx' = Some eff ∧ rc_info cx' = rc_info cx ∧
    GetAuthorizerAttributes cx' = inl attrs ∧ authorizes authz attrs st.
Proof.
  intros Hauth Hauthz. unfold securityChain. rewrite Hauth, Hauthz.
  set (failed := WithFailedAuthenticationAudit _ _ _).
  destruct (authentication_dichotomy auth failed (cc_APIAudiences s) (cc_KeepAuthorizationHeader s) rw cx w)
    as [[res Hres]|(u & w1 & Hu)]; [left; exists res; intros api; apply Hres|].
  pose proof (authentication_reaches auth failed _ (cc_KeepAuthorizationHeader s) rw _ _ _ _ Hu) as HA.
  destruct (inner_dichotomy s authz rw (WithUser (audienceContext (cc_APIAudiences s) cx) (Some u))
              (afterAuthentication (cc_KeepAuthorizationHeader s) w1) u) as [Hrefuse|Hreach]; [done| |].
  - left. destruct (refuses_inner _ _ _ _ _ _ _ _ _ HA Hrefuse) as [res Hres]. exists res. intros api. apply Hres.
  - right. destruct Hreach as (rw' & cx' & w' & k & eff & attrs & st & HB & Hrec & Heff & Huser & Hinfo & Hattrs & Hok).
    exists rw', cx', w', (id ∘ k), u, w1, eff, attrs, st. split_and!; try done.
    + intros api. apply (reaches_compose _ _ _ _ _ _ _ _ _ _ _ _ _ HA HB).
    + rewrite Hinfo. unfold audienceContext. by case_match.
Qed.

(** What the audit filter hands to the handler inside: the writer, the state, and what it
    makes of the handler's ending; [None] when the sink refuses the request's first
    event.  Without auditing, and for a request the policy exempts, that is nothing. *)
Definition entersAudit (audit : option (Sink S * Checker)) (longRunning : option (RequestInfo → bool))
    (attrs : AttributesRecord) rw cx w
    : option (ResponseWriter S * (ending → ending)) * world (fstate S) :=
  match audit with
  | None => (Some (rw, id), w)
  | Some (sink, policy) =>
      if (policy attrs).1 == LevelNone then (Some (rw, id), w)
      else
        let '(ok, w1) := firstEvent sink policy attrs cx w in
        let longRunningSink := longRunningSinkOf sink longRunning cx in
        let omit := (policy attrs).2 in
        if (ok : bool) then (Some (auditResponseWriter rw longRunningSink cx omit, finishAudit sink longRunningSink cx omit), fresh_once w1)
        else (None, w1)
  end.

Lemma entersAudit_eq h audit longRunning attrs rw cx w :
  GetAuthorizerAttributes cx = inl attrs →
  WithAudit respond h audit longRunning rw cx w =
  match entersAudit audit longRunning attrs rw cx w with
  | (Some (rw', k), w') => k (h rw' cx w')
  | (None, w') => respond (InternalError (Errorf "failed to store audit event" [])) rw cx w'
  end.
Proof.
  intros Hattrs. unfold entersAudit. destruct audit as [[sink policy]|]; [|done].
  case_bool_decide as Hlevel.
  - unfold WithAudit, mbind, HM_bind. rewrite createAuditEvent_eq, Hattrs. by rewrite bool_decide_eq_true_2.
  - rewrite (WithAudit_eq _ _ _ _ _ _ _ _ attrs) by done. by destruct (firstEvent _ _ _ _ _) as [[] w1].
Qed.

Lemma entersAudit_header audit longRunning attrs rw cx w : w_header (entersAudit audit longRunning attrs rw cx w).2 = w_header w.
Proof.
  unfold entersAudit. destruct audit as [[sink policy]|]; [|done]. case_bool_decide; [done|].
  pose proof (firstEvent_spec sink policy attrs cx w) as [Hh _]. by destruct (firstEvent _ _ _ _ _) as [[] w1].
Qed.

(** C6: and the chain refuses nothing else: a request the authenticator accepts, that asks
    for no impersonation and that the authorizer allows, is handed to the API handler
    as that user's, once the audit sink has stored its first event if the policy asks
    for one; if the sink fails to, the answer is an internal error whatever the
    authorizer and the API handler are. *)
Theorem securityChain_complete s auth authz rw cx w u w1 attrs :
  cc_Authenticator s = Some auth → cc_Authorizer s = Some authz →
  authenticates auth (cc_APIAudiences s) cx w u w1 →
  let cx' := WithUser (audienceContext (cc_APIAudiences s) cx) (Some u) in
  let w2 := afterAuthentication (cc_KeepAuthorizationHeader s) w1 in
  buildImpersonationRequests (w_header w2) = Ret (inl []) →
  GetAuthorizerAttributes cx' = inl attrs →
  match entersAudit (cc_Audit s) (cc_LongRunningFunc s) attrs rw cx' w2 with
  | (Some (rw', k), w3) =>
      authorizes authz attrs (w_state w3) →
      ∃ w', ∀ api, securityChain respond api s rw cx w = k (api rw' cx' w')
  | (None, w3) =>
      ∀ api, securityChain respond api s rw cx w =
             respond (InternalError (Errorf "failed to store audit event" [])) rw cx' w3
  end.
Proof.
  intros Hauth Hauthz Hu cx' w2 Hnone Hattrs.
  assert (∀ api, securityChain respond api s rw cx w =
    WithAudit respond (WithImpersonation respond (WithAuthorization respond api (Some authz)) (Some authz))
      (cc_Audit s) (cc_LongRunningFunc s) rw cx' w2) as Hchain.
  { intros api. unfold securityChain. rewrite Hauth, Hauthz.
    by rewrite (authentication_reaches auth _ _ (cc_KeepAuthorizationHeader s) rw _ _ _ _ Hu
                 (WithAudit respond _ (cc_Audit s) (cc_LongRunningFunc s))). }
  pose proof (entersAudit_header (cc_Audit s) (cc_LongRunningFunc s) attrs rw cx' w2) as Hheader.
  destruct (entersAudit _ _ _ _ _ _) as [[[rw' k]|] w3] eqn:Henter; cbn in Hheader;
    [intros Hallow; exists (afterAuthorization authz attrs w3)|];
    intros api; rewrite Hchain, (entersAudit_eq _ _ _ attrs), Henter by done; [|done]. f_equal.
  unfold WithImpersonation, mbind, HM_bind, lift_auth, get_header, lift_outcome. rewrite Hheader, Hnone.
  exact (authorization_reaches respond authz rw' cx' w3 attrs Hattrs Hallow api).
Qed.
End chain_theorems.

(** *** The audit trail of a request *)

Section trail.
Context (respond : refusal → Handler (list Event)) `{StatusConstants}.
Implicit Types (w : world (fstate (list Event))) (ev : Event) (cx : rcontext) (omit : list Stage).

(** A sink that stores every event and accepts those [accept] says. *)
Definition log_sink (accept : Event → bool) : Sink (list Event) := λ ev s,
  (accept ev, FState (fs_audit s) (fs_once s) (fs_state s ++ [ev])).

(** A handler that performs some writes and then returns or panics, on a writer
    that touches nothing of the state. *)
Definition script (ops : list wop) (panics : option string) : Handler (list Event) := λ rw cx,
  foldr (λ op m, _ ← rw op; m)
    (match panics with None => mret tt | Some msg => lift_outcome (Panic msg) end) ops.

Definition quiet (rw : ResponseWriter (list Event)) : Prop := ∀ op w, rw op w = (Ret tt, w).

Definition op_code (op : wop) : option Z :=
  match op with WriteHeader code => Some code | WriteBody _ => Some 200%Z | Hijack => Some 101%Z
              | SetHeader _ _ | AddHeader _ _ | DelHeader _ | Flush => None end.

(** The status code of a response is that of the first write that has one. *)
Definition first_code (ops : list wop) : option Z := head (omap op_code ops).

Definition entry ev : Stage * option Z := (ev_Stage ev, st_Code <$> ev_ResponseStatus ev).

(** What is recorded of a request, before the omitted stages are taken out. *)
Definition full_trail (longRunning : bool) (ops : list wop) (panics : option string) : list (Stage * option Z) :=
  let code := Some (default 200%Z (first_code ops)) in
  let started := if longRunning && (bool_decide (is_Some (first_code ops)) || bool_decide (panics = None))
                 then [(StageResponseStarted, code)] else [] in
  let last := match panics with
              | None => (StageResponseComplete, code)
              | Some _ => (StagePanic, Some 500%Z)
              end in
  (StageRequestReceived, None) :: started ++ [last].

(** A state with event [ev] attached and events [log] stored. *)
Definition audited w ev (once : bool) (log : list Event) : world (fstate (list Event)) :=
  World (w_heap w) (w_header w)
    (FState {| ac_event := Some ev; ac_pending := ac_pending (fs_audit (w_state w)) |} once log).

Definition omitted omit ev : bool := existsb (λ stage, ev_Stage ev == stage) omit.

Definition emit omit cx ev : Event * list Event :=
  if omitted omit ev then (ev, []) else (stamp ev cx, [stamp ev cx]).

Lemma process_audited accept cx omit w ev once log :
  processAuditEvent (log_sink accept) cx omit (audited w ev once log) =
  (Ret (omitted omit ev || accept (stamp ev cx)),
   audited w (emit omit cx ev).1 once (log ++ (emit omit cx ev).2)).
Proof.
  unfold processAuditEvent, mbind, HM_bind, AuditEventFrom, emit, audited. simpl. fold (omitted omit ev).
  destruct (omitted omit ev); [by rewrite app_nil_r|reflexivity].
Qed.

(** The event once the response has started with a code. *)
Definition started_event (code : Z) ev : Event :=
  let st := default {| st_Status := ""; st_Message := ""; st_Reason := ""; st_Code := 0 |} (ev_ResponseStatus ev) in
  set_Stage StageResponseStarted
    (set_Status {| st_Status := st_Status st; st_Message := st_Message st;
                   st_Reason := st_Reason st; st_Code := code |} ev).

Definition start omit cx (longRunning : bool) (code : Z) ev : Event * list Event :=
  if longRunning then emit omit cx (started_event code ev) else (started_event code ev, []).

Definition lr_sink (accept : Event → bool) (longRunning : bool) : option (Sink (list Event)) :=
  if longRunning then Some (log_sink accept) else None.

Lemma writer_audited rw accept longRunning cx omit op w ev once log :
  quiet rw →
  auditResponseWriter rw (lr_sink accept longRunning) cx omit op (audited w ev once log) =
  (Ret tt, match op_code op, once with
           | Some code, false => audited w (start omit cx longRunning code ev).1 true
                                   (log ++ (start omit cx longRunning code ev).2)
           | _, _ => audited w ev once log
           end).
Proof.
  intros Hrw. unfold auditResponseWriter. change (match op with WriteHeader code => Some code | _ => _ end) with (op_code op).
  destruct (op_code op) as [code|]; [|apply Hrw]. unfold mbind, HM_bind, processCode.
  destruct once; cbn [fs_once w_state audited].
  - unfold setHttpHeader, mbind, HM_bind. cbn. by rewrite !Hrw.
  - unfold set_fstate, mbind, HM_bind. cbn -[processAuditEvent]. unfold start, lr_sink. destruct longRunning.
    + change (World _ _ _) with (audited w (started_event code ev) true log). rewrite process_audited.
      unfold setHttpHeader, mbind, HM_bind. cbn. by rewrite !Hrw.
    + unfold setHttpHeader, mbind, HM_bind. cbn. rewrite !Hrw. by rewrite app_nil_r.
Qed.
Lemma script_audited rw accept longRunning cx omit ops panics w ev once log :
  quiet rw →
  script ops panics (auditResponseWriter rw (lr_sink accept longRunning) cx omit) cx (audited w ev once log) =
  (match panics with None => Ret tt | Some msg => Panic msg end,
   match first_code ops, once with
   | Some code, false => audited w (start omit cx longRunning code ev).1 true
                           (log ++ (start omit cx longRunning code ev).2)
   | _, _ => audited w ev once log
   end).
Proof.
  intros Hrw. unfold script. revert ev once log. induction ops as [|op ops IH]; intros ev once log.
  { by destruct panics. }
  cbn [foldr]. unfold mbind, HM_bind. rewrite writer_audited by done. unfold first_code. cbn [omap list_omap].
  destruct (op_code op) as [code|] eqn:Hop.
  - cbn [head]. destruct once; rewrite IH; by destruct (first_code ops).
  - rewrite IH. by unfold first_code.
Qed.

Lemma emit_entries omit cx ev : entry <$> (emit omit cx ev).2 = filter (λ e, e.1 ∉ omit) [entry ev].
Proof.
  unfold emit, omitted. rewrite existsb_eq_elem_of_r. rewrite filter_cons, filter_nil. cbn [entry fst].
  case_bool_decide; [by rewrite decide_False by naive_solver|]. by rewrite decide_True.
Qed.

Lemma emit_status omit cx ev : ev_ResponseStatus (emit omit cx ev).1 = ev_ResponseStatus ev.
Proof. unfold emit. by destruct (omitted omit ev). Qed.

Lemma event_audited w ev once log : AuditEventFrom (audited w ev once log) = (Ret (Some ev), audited w ev once log).
Proof. done. Qed.

Lemma edit_audited f w ev once log : edit_event f (audited w ev once log) = (Ret tt, audited w (f ev) once log).
Proof. done. Qed.

Lemma entry_complete ev :
  entry (let ev := set_Stage StageResponseComplete ev in
         match ev_ResponseStatus ev with None => set_Status fakedSuccessStatus ev | Some _ => ev end) =
  (StageResponseComplete, Some (default 200%Z (st_Code <$> ev_ResponseStatus ev))).
Proof. unfold entry. cbn. destruct (ev_ResponseStatus ev) as [st|] eqn:Hst; cbn; by rewrite ?Hst. Qed.

(** The deferred function's events, after a normal return and after a panic. *)
Lemma leave_returned accept longRunning cx omit w ev once log :
  let code := default 200%Z (st_Code <$> ev_ResponseStatus ev) in
  let started := if longRunning && bool_decide (ev_ResponseStatus ev = None)
                 then [(StageResponseStarted, Some code)] else [] in
  let res := leaveAudit (log_sink accept) (lr_sink accept longRunning) cx omit (inl tt) (audited w ev once log) in
  res.1 = Ret tt ∧
  entry <$> fs_state (w_state res.2) =
    (entry <$> log) ++ filter (λ e, e.1 ∉ omit) (started ++ [(StageResponseComplete, Some code)]).
Proof.
  unfold leaveAudit, mbind, HM_bind, lr_sink. rewrite event_audited.
  cbn [option_bind].
  destruct (ev_ResponseStatus ev) as [st|] eqn:Hst; [|destruct longRunning].
  - rewrite bool_decide_eq_false_2, andb_false_r by done.
    unfold mret, HM_ret. rewrite edit_audited, process_audited. split; [done|].
    cbn [snd audited w_state fs_state]. by rewrite fmap_app, emit_entries, entry_complete, Hst.
  - rewrite edit_audited, process_audited.
    unfold mret, HM_ret. rewrite edit_audited, process_audited. split; [done|].
    cbn [snd audited w_state fs_state].
    by rewrite !fmap_app, !emit_entries, entry_complete, emit_status, <- (assoc (++)), <- filter_app.
  - unfold mret, HM_ret. rewrite edit_audited, process_audited. split; [done|].
    cbn [snd audited w_state fs_state]. by rewrite fmap_app, emit_entries, entry_complete, Hst.
Qed.

Lemma leave_panicked accept longRunning cx omit w ev once log msg :
  let res := leaveAudit (log_sink accept) (lr_sink accept longRunning) cx omit (inr msg) (audited w ev once log) in
  res.1 = Panic msg ∧
  entry <$> fs_state (w_state res.2) = (entry <$> log) ++ filter (λ e, e.1 ∉ omit) [(StagePanic, Some 500%Z)].
Proof.
  unfold leaveAudit, mbind, HM_bind, try_. rewrite edit_audited, process_audited. split; [done|].
  cbn [snd audited w_state fs_state lift_outcome]. by rewrite fmap_app, emit_entries.
Qed.
Lemma start_entries omit cx longRunning code ev :
  entry <$> (start omit cx longRunning code ev).2 =
  filter (λ e, e.1 ∉ omit) (if longRunning then [(StageResponseStarted, Some code)] else []).
Proof. unfold start. destruct longRunning; [apply emit_entries|done]. Qed.

Lemma start_status omit cx longRunning code ev :
  st_Code <$> ev_ResponseStatus (start omit cx longRunning code ev).1 = Some code.
Proof. unfold start. destruct longRunning; [by rewrite emit_status|done]. Qed.

Definition received_event (policy : Checker) attrs cx w : Event :=
  set_Stage StageRequestReceived (attachedEvent policy attrs cx w).

Lemma entry_received policy attrs cx w : entry (received_event policy attrs cx w) = (StageRequestReceived, None).
Proof.
  unfold received_event, attachedEvent.
  match goal with |- context [NewEventFromRequest ?h ?u ?i ?d ?t ?l ?a ?p] =>
    destruct (NewEventFromRequest_with h u i d t l a p) as [m ->] end. done.
Qed.

Lemma firstEvent_log accept policy attrs cx w :
  let ev := received_event policy attrs cx w in
  firstEvent (log_sink accept) policy attrs cx w =
  (omitted (policy attrs).2 ev || accept (stamp ev cx),
   audited w (emit (policy attrs).2 cx ev).1 (fs_once (w_state w))
     (fs_state (w_state w) ++ (emit (policy attrs).2 cx ev).2)).
Proof.
  unfold firstEvent, emit. fold (received_event policy attrs cx w). fold (omitted (policy attrs).2 (received_event policy attrs cx w)).
  cbn zeta. destruct (omitted _ _); [|reflexivity]. unfold audited, attach. by rewrite app_nil_r.
Qed.

(** C5: the audit trail of a request is complete and in order.  A request audited at
    some level, whose first event is stored, leaves exactly: RequestReceived; for
    a long-running request ResponseStarted, once, with the status code of the
    first write (200 when the handler returns without writing); then
    ResponseComplete with that code, or Panic with code 500 when the handler
    panics, in which case the panic goes on.  Stages the policy omits are left
    out, and nothing else is. *)
Theorem audit_trail accept policy longRunning rw cx w attrs info ops panics :
  quiet rw → GetAuthorizerAttributes cx = inl attrs → rc_info cx = Some info →
  (policy attrs).1 ≠ LevelNone → (∀ ev, ev_Stage ev = StageRequestReceived → accept ev = true) →
  let res := WithAudit respond (script ops panics) (Some (log_sink accept, policy)) (Some longRunning) rw cx w in
  res.1 = match panics with None => Ret tt | Some msg => Panic msg end ∧
  entry <$> fs_state (w_state res.2) =
    (entry <$> fs_state (w_state w)) ++
    filter (λ e, e.1 ∉ (policy attrs).2) (full_trail (longRunning info) ops panics).
Proof.
  intros Hrw Hattrs Hinfo Hlevel Haccept. cbn zeta.
  rewrite (WithAudit_eq _ _ _ _ _ _ _ _ attrs), firstEvent_log by done. set (ev := received_event _ _ _ _).
  rewrite (Haccept (stamp ev cx)), orb_true_r by done. cbn zeta.
  assert (longRunningSinkOf (log_sink accept) (Some longRunning) cx = lr_sink accept (longRunning info)) as ->.
  { unfold longRunningSinkOf. by rewrite Hinfo. }
  change (fresh_once (audited ?w0 ?e ?o ?l)) with (audited w0 e false l).
  rewrite script_audited by done. set (ev1 := (emit (policy attrs).2 cx ev).1).
  assert (ev_ResponseStatus ev1 = None) as Hst.
  { subst ev1. rewrite emit_status. pose proof (entry_received policy attrs cx w) as He. unfold entry in He.
    fold ev in He. by destruct (ev_ResponseStatus ev). }
  unfold full_trail, finishAudit.
  rewrite (app_assoc [_] _ [_] : _ :: _ ++ [_] = _), (filter_app _ ([_] ++ _) [_]), (filter_app _ [_] _).
  rewrite <- (entry_received policy attrs cx w). fold ev. rewrite <- (emit_entries _ cx ev).
  destruct (first_code ops) as [code|], panics as [msg|];
    match goal with
    | |- context [leaveAudit _ _ ?c ?d (inr ?m) (audited ?w0 ?e ?o ?l)] =>
        destruct (leave_panicked accept (longRunning info) c d w0 e o l m) as [-> ->]
    | |- context [leaveAudit _ _ ?c ?d (inl _) (audited ?w0 ?e ?o ?l)] =>
        destruct (leave_returned accept (longRunning info) c d w0 e o l) as [-> ->]
    end; (split; [done|]); rewrite !fmap_app, ?start_entries, ?start_status, ?Hst, !(assoc (++)).
  - cbn. by rewrite andb_true_r.
  - rewrite bool_decide_eq_false_2, andb_false_r; [by cbn; rewrite andb_true_r|].
    intros Hnone. pose proof (start_status (policy attrs).2 cx (longRunning info) code ev1) as Hcode.
    by rewrite Hnone in Hcode.
  - cbn. by rewrite andb_false_r, app_nil_r.
  - rewrite filter_app, !(assoc (++)). done.
Qed.
End trail.

(** ** Witnesses *)

Module FiltersExamples.
#[local] Existing Instance golib_sets_model.
#[local] Existing Instance ServiceAccountExamples.dns_model.

#[local] Instance headers : ImpersonationHeaders := {|
  ImpersonateUserHeader := "Impersonate-User";
  ImpersonateGroupHeader := "Impersonate-Group";
  ImpersonateUserExtraHeaderPrefix := "Impersonate-Extra-";
|}.
#[local] Instance in_order : HeaderRange := map_to_list.
#[local] Instance in_order_laws : HeaderRangeLaws.
Proof. intros h. reflexivity. Qed.
#[local] Instance statuses : StatusConstants := {|
  StatusSuccess := "Success"; StatusFailure := "Failure"; StatusReasonInternalError := "InternalError";
|}.

Definition alice : DefaultInfo := {| u_Name := "alice"; u_UID := "1"; u_Groups := ["dev"]; u_Extra := ∅ |}.

Definition respond {S} (r : refusal) : Handler S := λ rw cx,
  rw (WriteHeader (match r with Unauthorized => 401 | InternalError _ => 500 | BadRequest _ => 400 | Forbidden _ _ => 403 end)).

Definition info : RequestInfo :=
  {| ri_IsResourceRequest := true; ri_Path := "/api/v1/namespaces/ns1/pods/p"; ri_Verb := "get"; ri_APIPrefix := "api";
     ri_APIGroup := ""; ri_APIVersion := "v1"; ri_Namespace := "ns1"; ri_Resource := "pods"; ri_Subresource := "";
     ri_Name := "p"; ri_Parts := ["pods"; "p"] |}.

Definition cx : rcontext :=
  {| rc_http := {| req_Method := "GET"; req_URL := "/"; req_Path := "/api/v1/namespaces/ns1/pods/p"; req_Query := ∅ |};
     rc_env := {| env_RequestURI := "/"; env_SourceIPs := []; env_NewUID := "id"; env_Received := Some 7%Z;
                  env_Now := 9; env_BasicAuth := false; env_PeerCerts := 0 |};
     rc_auds := None; rc_user := None; rc_info := Some info |}.

Definition start_world (h : Header) : world (fstate (list Event)) :=
  World [] h (FState {| ac_event := None; ac_pending := None |} false []).

Definition is_alice : Request (fstate (list Event)) := λ _,
  l ← new_response {| resp_Audiences := []; resp_User := Some alice |}; mret (Some l, true, None).

(** alice may get pods and act as user bob. *)
Definition authz : Authorizer (fstate (list Event)) := pure_authorizer (λ a,
  Verdict (if ((a_Verb a == "get") && (a_Resource a == "pods")) || ((a_Verb a == "impersonate") && (a_Name a == "bob"))
           then DecisionAllow else DecisionNoOpinion) "" None).

Definition config (audit : option (Sink (list Event) * Checker)) : ChainConfig (list Event) :=
  {| cc_Authenticator := Some is_alice; cc_APIAudiences := []; cc_KeepAuthorizationHeader := false;
     cc_Authorizer := Some authz; cc_Audit := audit; cc_LongRunningFunc := None |}.

Definition everything : Checker := λ _, (LevelMetadata, []).
Definition discard : ResponseWriter (list Event) := λ _, mret tt.

(** The user the API handler sees, if it is reached. *)
Definition seen_user (h : Header) : option string :=
  match (securityChain respond (λ _ cx, lift_outcome (Panic (default "" (u_Name <$> rc_user cx)))) (config None)
           discard cx (start_world h)).1 with
  | Panic name => Some name
  | Ret _ => None
  end.

Example seen_alice : seen_user ∅ = Some "alice".
Proof. reflexivity. Qed.
Example seen_bob : seen_user {[ "Impersonate-User" := ["bob"] ]} = Some "bob".
Proof. reflexivity. Qed.
Example refused_mallory : seen_user {[ "Impersonate-User" := ["mallory"] ]} = None.
Proof. reflexivity. Qed.

Lemma securityChain_sound_witness :
  let s := config (Some (log_sink (λ _, true), everything)) in
  (∃ res, ∀ api, securityChain respond api s discard cx (start_world ∅) = res) ∨
  ∃ rw' cx' w' k u w1 eff attrs st,
    (∀ api, securityChain respond api s discard cx (start_world ∅) = k (api rw' cx' w')) ∧
    authenticates is_alice [] cx (start_world ∅) u w1 ∧
    recorded (cc_Audit s) (WithUser cx (Some u)) ∧
    (eff = u ∧ buildImpersonationRequests (w_header (afterAuthentication false w1)) = Ret (inl []) ∨
     impersonates authz u eff ∧ impersonation_cleared (w_header w')) ∧
    rc_user cx' = Some eff ∧ rc_info cx' = Some info ∧
    GetAuthorizerAttributes cx' = inl attrs ∧ authorizes authz attrs st.
Proof.
  exact (securityChain_sound respond (config (Some (log_sink (λ _, true), everything))) is_alice authz discard cx
           (start_world ∅) eq_refl eq_refl).
Defined.

(** Audited by a sink that stores its events, and by one that fails. *)
Lemma securityChain_complete_witness :
  (∃ rw' k w', ∀ api, securityChain respond api (config (Some (log_sink (λ _, true), everything))) discard cx (start_world ∅) =
               k (api rw' (WithUser cx (Some alice)) w')) ∧
  ∃ w', ∀ api, securityChain respond api (config (Some (log_sink (λ _, false), everything))) discard cx (start_world ∅) =
               respond (InternalError (Errorf "failed to store audit event" [])) discard (WithUser cx (Some alice)) w'.
Proof.
  destruct (is_alice None (start_world ∅)) as [[answer w1]|] eqn:Hw1; [|discriminate].
  injection Hw1 as _ Hw1.
  assert (authenticates is_alice [] cx (start_world ∅) alice w1) as Hu.
  { subst w1. exists 0, {| resp_Audiences := []; resp_User := Some alice |}. split_and!; reflexivity. }
  set (attrs := {| a_User := Some alice; a_Verb := "get"; a_Namespace := "ns1";
                   a_APIGroup := ""; a_APIVersion := ""; a_Resource := "pods"; a_Subresource := ""; a_Name := "p";
                   a_ResourceRequest := true; a_Path := "/api/v1/namespaces/ns1/pods/p" |}).
  split.
  - assert (buildImpersonationRequests (w_header (afterAuthentication false w1)) = Ret (inl [])) as Hnone by (subst w1; reflexivity).
    pose proof (securityChain_complete respond (config (Some (log_sink (λ _, true), everything))) is_alice authz discard cx
      (start_world ∅) alice w1 attrs eq_refl eq_refl Hu Hnone eq_refl) as H. cbn in H.
    destruct H as [w' H]; [reflexivity|]. eexists _, _, w'. exact H.
  - assert (buildImpersonationRequests (w_header (afterAuthentication false w1)) = Ret (inl [])) as Hnone by (subst w1; reflexivity).
    pose proof (securityChain_complete respond (config (Some (log_sink (λ _, false), everything))) is_alice authz discard cx
      (start_world ∅) alice w1 attrs eq_refl eq_refl Hu Hnone eq_refl) as H. cbn in H. eexists. exact H.
Defined.

Lemma audit_trail_witness :
  let res := WithAudit respond (script [SetHeader "a" "b"; WriteHeader 404; WriteBody "x"] None)
               (Some (log_sink (λ _, true), everything)) (Some (λ _, true)) discard cx (start_world ∅) in
  res.1 = Ret tt ∧
  entry <$> fs_state (w_state res.2) =
    [(StageRequestReceived, None); (StageResponseStarted, Some 404%Z); (StageResponseComplete, Some 404%Z)].
Proof.
  apply (audit_trail respond (λ _, true) everything (λ _, true) discard cx (start_world ∅)
           {| a_User := None; a_Verb := "get"; a_Namespace := "ns1"; a_APIGroup := ""; a_APIVersion := "";
              a_Resource := "pods"; a_Subresource := ""; a_Name := "p"; a_ResourceRequest := true;
              a_Path := "/api/v1/namespaces/ns1/pods/p" |} info
           [SetHeader "a" "b"; WriteHeader 404; WriteBody "x"] None); first [reflexivity|discriminate|by intros].
Defined.
End FiltersExamples.
