(* ===== verification/RequestCache.v ===== *)
(** * The cache of streaming requests

    Models pkg/streaming/request_cache.go: requests are exchanged for single-use
    random tokens that expire.  The list of entries is container/list's, newest
    first, and the map holds pointers to its elements; here an element is
    identified by a number, and removing an element removes the one with that
    number.  Each method runs under the lock and is one transition.  The clock's
    readings and crypto/rand's results are arguments, in the order the code asks
    for them. *)

From S2P Require Import Prelude GoStrings GoEncoding.

Local Open Scope go_scope.

Definition cacheTTL : Z := 60 * 1000000000. (* nanoseconds *)
Definition maxInFlight : nat := 1000.
Definition tokenLen : nat := 8.
Definition tokenSize : nat := 6. (* math.Ceil(float64(tokenLen) * 6 / 8) *)
Definition maxTries : nat := 10.

Definition ErrorTooManyInFlight : error := Errorf "maximum number of in-flight requests exceeded" [].

Section cache.
Context {request : Type}.

Record cacheEntry := { ce_token : string; ce_req : request; ce_expireTime : Z }.

Record requestCache := {
  rq_ll : list (nat * cacheEntry);
  rq_tokens : gmap string nat;
  rq_next : nat; (* the number of the next element *)
}.

Definition newRequestCache : requestCache := {| rq_ll := []; rq_tokens := ∅; rq_next := 0 |}.

(** list.Remove of element [id], and delete of [token] from the map. *)
Definition remove_element (c : requestCache) (id : nat) (token : string) : requestCache :=
  {| rq_ll := filter (λ el, el.1 ≠ id) (rq_ll c); rq_tokens := delete token (rq_tokens c); rq_next := rq_next c |}.

(** The loop runs at most once per element. *)
Fixpoint gc_loop (fuel : nat) (now : Z) (c : requestCache) : requestCache :=
  match fuel with
  | 0 => c
  | Datatypes.S fuel =>
      match last (rq_ll c) with
      | None => c
      | Some (id, entry) =>
          if negb (ce_expireTime entry <? now)%Z then c
          else gc_loop fuel now (remove_element c id (ce_token entry))
      end
  end.

Definition gc (now : Z) (c : requestCache) : requestCache := gc_loop (length (rq_ll c)) now c.

(** [reads] is what rand.Read fills rawToken with, or its error, try by try. *)
Fixpoint uniqueToken_loop (tries : nat) (reads : list (string + error)) (tokens : gmap string nat) : string + error :=
  match tries, reads with
  | Datatypes.S tries, inl rawToken :: reads =>
      let encoded := RawURLEncoding_EncodeToString rawToken in
      let token := stake tokenLen encoded in
      match tokens !! encoded with
      | None => inl token
      | Some _ => uniqueToken_loop tries reads tokens
      end
  | Datatypes.S _, inr err :: _ => inr err
  | _, _ => inr (Errorf "failed to generate unique token" [])
  end.

Definition uniqueToken (c : requestCache) (reads : list (string + error)) : string + error :=
  uniqueToken_loop maxTries reads (rq_tokens c).

(** [now0] is the time gc reads, [now1] the time the entry is made. *)
Definition Insert (c : requestCache) (now0 now1 : Z) (reads : list (string + error)) (req : request)
    : (string + error) * requestCache :=
  let c := gc now0 c in
  if length (rq_ll c) =? maxInFlight then (inr ErrorTooManyInFlight, c)
  else match uniqueToken c reads with
  | inr err => (inr err, c)
  | inl token =>
      let entry := {| ce_token := token; ce_req := req; ce_expireTime := (now1 + cacheTTL)%Z |} in
      (inl token,
       {| rq_ll := (rq_next c, entry) :: rq_ll c;
          rq_tokens := <[token := rq_next c]> (rq_tokens c);
          rq_next := Datatypes.S (rq_next c) |})
  end.

(** The entry an element pointer leads to. *)
Definition element (c : requestCache) (id : nat) : option cacheEntry :=
  snd <$> List.find (λ el, el.1 =? id) (rq_ll c).

Definition Consume (c : requestCache) (now : Z) (token : string) : outcome (option request * requestCache) :=
  match rq_tokens c !! token with
  | None => Ret (None, c)
  | Some ele =>
      match element c ele with
      | None => Panic "nil pointer dereference"
      | Some entry =>
          let c := remove_element c ele token in
          Ret (if (ce_expireTime entry <? now)%Z then (None, c) else (Some (ce_req entry), c))
      end
  end.

(** ** What the cache promises

    A set of outstanding tokens, each with its request and its time of expiry. *)

Definition outstanding (c : requestCache) : gmap string (request * Z) :=
  list_to_map ((λ el, (ce_token el.2, (ce_req el.2, ce_expireTime el.2))) <$> rq_ll c).

(** The map and the list agree, numbers and tokens are unique, entries are in order
    of expiry, made no later than [t], and no more than [maxInFlight]. *)
Record cache_inv (t : Z) (c : requestCache) : Prop := {
  inv_ids : NoDup (rq_ll c).*1;
  inv_fresh : ∀ el, el ∈ rq_ll c → el.1 < rq_next c;
  inv_tokens : NoDup (ce_token ∘ snd <$> rq_ll c);
  inv_map : ∀ token id, rq_tokens c !! token = Some id ↔ ∃ e, (id, e) ∈ rq_ll c ∧ ce_token e = token;
  inv_sorted : StronglySorted (λ a b, (ce_expireTime b.2 ≤ ce_expireTime a.2)%Z) (rq_ll c);
  inv_time : ∀ el, el ∈ rq_ll c → (ce_expireTime el.2 ≤ t + cacheTTL)%Z;
  inv_size : length (rq_ll c) ≤ maxInFlight;
}.
End cache.
Arguments requestCache : clear implicits.
Arguments cacheEntry : clear implicits.

(** ** Theorems *)

Section theorems.
Context {request : Type}.
Implicit Types (c : requestCache request) (e : cacheEntry request).

Lemma StronglySorted_filter {A} (R : A → A → Prop) (P : A → Prop) `{∀ x, base.Decision (P x)} l :
  StronglySorted R l → StronglySorted R (filter P l).
Proof.
  induction 1 as [|x l Hl IH Hx]; [constructor|]. rewrite filter_cons. case_decide; [|done].
  constructor; [done|]. rewrite Forall_forall in *. intros y [_ Hy]%list_elem_of_filter. by apply Hx.
Qed.

Lemma NoDup_fmap_filter {A B} (f : A → B) (P : A → Prop) `{∀ x, base.Decision (P x)} l :
  NoDup (f <$> l) → NoDup (f <$> filter P l).
Proof.
  induction l as [|x l IH]; cbn; [done|]. rewrite NoDup_cons. intros [Hx Hl]. case_decide; [|by apply IH].
  cbn. apply NoDup_cons. split; [|by apply IH]. rewrite list_elem_of_fmap in *.
  intros (y & Heq & [_ Hy]%list_elem_of_filter). apply Hx. by exists y.
Qed.

Lemma inv_same_id t c id e e' : cache_inv t c → (id, e) ∈ rq_ll c → (id, e') ∈ rq_ll c → e = e'.
Proof.
  intros Hinv [i Hi]%list_elem_of_lookup_1 [j Hj]%list_elem_of_lookup_1.
  assert (i = j) as ->; [|congruence].
  apply (NoDup_lookup (rq_ll c).*1 i j id (inv_ids _ _ Hinv)); by rewrite list_lookup_fmap, ?Hi, ?Hj.
Qed.

Lemma inv_same_token t c id id' e e' :
  cache_inv t c → (id, e) ∈ rq_ll c → (id', e') ∈ rq_ll c → ce_token e = ce_token e' → id = id' ∧ e = e'.
Proof.
  intros Hinv [i Hi]%list_elem_of_lookup_1 [j Hj]%list_elem_of_lookup_1 Htok.
  assert (i = j) as ->; [|split; congruence].
  apply (NoDup_lookup (ce_token ∘ snd <$> rq_ll c) i j (ce_token e) (inv_tokens _ _ Hinv));
    rewrite list_lookup_fmap, ?Hi, ?Hj; cbn; congruence.
Qed.

Lemma element_spec t c id e : cache_inv t c → (id, e) ∈ rq_ll c → element c id = Some e.
Proof.
  intros Hinv Hin. unfold element. destruct (List.find _ _) as [[id' e']|] eqn:Hfind.
  - apply List.find_some in Hfind as [Hin' Hid]. apply Nat.eqb_eq in Hid. cbn in Hid. subst id'.
    apply list_elem_of_In in Hin'. cbn. f_equal. by eapply inv_same_id.
  - exfalso. apply list_elem_of_In, (List.find_none _ _ Hfind) in Hin. cbn in Hin. by rewrite Nat.eqb_refl in Hin.
Qed.

Lemma remove_inv t c id e : cache_inv t c → (id, e) ∈ rq_ll c → cache_inv t (remove_element c id (ce_token e)).
Proof.
  intros Hinv Hin. pose proof Hinv as []. split; cbn.
  - by apply NoDup_fmap_filter.
  - intros el [_ Hel]%list_elem_of_filter. by apply inv_fresh0.
  - by apply NoDup_fmap_filter.
  - intros token id'. destruct (decide (token = ce_token e)) as [->|Hne].
    + rewrite lookup_delete_eq. split; [done|]. intros (e' & [Hne Hin']%list_elem_of_filter & Htok).
      destruct (inv_same_token _ _ _ _ _ _ Hinv Hin' Hin Htok) as [-> _]. done.
    + rewrite lookup_delete_ne, inv_map0 by done. split; intros (e' & Hin' & Htok); exists e'; (split; [|done]).
      * apply list_elem_of_filter. split; [|done]. cbn. intros ->. apply Hne. rewrite <- Htok. f_equal.
        by eapply inv_same_id.
      * by apply list_elem_of_filter in Hin' as [_ ?].
  - by apply StronglySorted_filter.
  - intros el [_ Hel]%list_elem_of_filter. by apply inv_time0.
  - etrans; [apply length_filter|done].
Qed.

Lemma outstanding_lookup t c token r x :
  cache_inv t c →
  outstanding c !! token = Some (r, x) ↔
  ∃ id e, (id, e) ∈ rq_ll c ∧ ce_token e = token ∧ ce_req e = r ∧ ce_expireTime e = x.
Proof.
  intros Hinv. unfold outstanding. rewrite <- elem_of_list_to_map.
  - rewrite list_elem_of_fmap. split.
    + intros ([id e] & Heq & Hin). injection Heq as -> -> ->. by exists id, e.
    + intros (id & e & Hin & <- & <- & <-). by exists (id, e).
  - rewrite <- list_fmap_compose. exact (inv_tokens _ _ Hinv).
Qed.

Lemma outstanding_remove t c id e :
  cache_inv t c → (id, e) ∈ rq_ll c → outstanding (remove_element c id (ce_token e)) = delete (ce_token e) (outstanding c).
Proof.
  intros Hinv Hin. apply map_eq. intros token. apply option_eq. intros [r x].
  rewrite (outstanding_lookup t) by by apply remove_inv.
  rewrite lookup_delete_Some, (outstanding_lookup t) by done. cbn. split.
  - intros (id' & e' & [Hid Hin']%list_elem_of_filter & Htok & Hr & Hx). split; [|by exists id', e'].
    intros Heq. destruct (inv_same_token _ _ _ _ _ _ Hinv Hin' Hin) as [-> _]; [congruence|done].
  - intros (Hne & id' & e' & Hin' & Htok & Hr & Hx). exists id', e'. split_and!; [|done..].
    apply list_elem_of_filter. split; [|done]. cbn. intros ->. apply Hne. rewrite <- Htok. f_equal.
    by eapply inv_same_id.
Qed.
(** *** Garbage collection *)

Definition live (now : Z) (m : gmap string (request * Z)) : gmap string (request * Z) :=
  filter (λ kv, ¬ (kv.2.2 < now)%Z) m.

Lemma sorted_last (l : list (nat * cacheEntry request)) el :
  StronglySorted (λ a b, (ce_expireTime b.2 ≤ ce_expireTime a.2)%Z) l → last l = Some el →
  ∀ el', el' ∈ l → (ce_expireTime el.2 ≤ ce_expireTime el'.2)%Z.
Proof.
  intros Hsorted [l' ->]%last_Some el' [Hin| ->%list_elem_of_singleton]%elem_of_app; [|done].
  apply (StronglySorted_app_1_elem_of _ _ _ el' el Hsorted); [done|]. by apply list_elem_of_singleton.
Qed.

Lemma live_lookup now (m : gmap string (request * Z)) token r x :
  live now m !! token = Some (r, x) ↔ m !! token = Some (r, x) ∧ ¬ (x < now)%Z.
Proof. apply map_lookup_filter_Some. Qed.

Lemma live_delete now token r x (m : gmap string (request * Z)) :
  m !! token = Some (r, x) → (x < now)%Z → live now (delete token m) = live now m.
Proof.
  intros Hm Hx. apply map_eq. intros token'. apply option_eq. intros [r' x'].
  rewrite !live_lookup, lookup_delete_Some. split; [tauto|]. intros [Hm' Hx']. split_and!; [|done..].
  intros <-. rewrite Hm in Hm'. injection Hm' as _ <-. done.
Qed.

(** The expired entries are exactly the ones collected. *)
Lemma gc_spec t now c :
  cache_inv t c → cache_inv t (gc now c) ∧ outstanding (gc now c) = live now (outstanding c).
Proof.
  unfold gc. remember (length (rq_ll c)) as fuel eqn:Hfuel. assert (length (rq_ll c) ≤ fuel) as Hlen by lia.
  clear Hfuel. revert c Hlen. induction fuel as [|fuel IH]; intros c Hlen Hinv; cbn.
  - split; [done|]. destruct c as [[] ? ?]; [done|cbn in Hlen; lia].
  - destruct (last (rq_ll c)) as [[id e]|] eqn:Hlast.
    2:{ apply last_None in Hlast. split; [done|]. unfold outstanding. rewrite Hlast. done. }
    pose proof (last_Some_elem_of _ _ Hlast) as Hin. destruct (ce_expireTime e <? now)%Z eqn:Hexp; cbn.
    + apply Z.ltb_lt in Hexp. destruct (IH (remove_element c id (ce_token e))) as [Hinv' Hout].
      * cbn. apply list_elem_of_lookup_1 in Hin as [i Hi].
        enough (length (filter (λ el, el.1 ≠ id) (rq_ll c)) < length (rq_ll c)) by lia.
        apply length_filter_lt with (id, e); [|cbn; tauto]. by eapply list_elem_of_lookup_2.
      * by apply remove_inv.
      * split; [done|]. rewrite Hout, (outstanding_remove t) by done.
        eapply live_delete; [|exact Hexp]. apply (outstanding_lookup t); [done|]. by exists id, e.
    + apply Z.ltb_ge in Hexp. split; [done|].
      apply map_eq. intros token. apply option_eq. intros [r x]. rewrite live_lookup. split; [|tauto].
      intros Hout. split; [done|]. apply (outstanding_lookup t) in Hout as (id' & e' & Hin' & _ & _ & <-); [|done].
      pose proof (sorted_last _ _ (inv_sorted _ _ Hinv) Hlast _ Hin') as Hle. cbn in Hle. lia.
Qed.
(** *** Tokens *)

Lemma encoded_length raw : slen raw = tokenSize → slen (RawURLEncoding_EncodeToString raw) = tokenLen.
Proof. do 7 (destruct raw as [|? raw]; try discriminate 1). done. Qed.

Lemma stake_all n x : slen x = n → stake n x = x.
Proof. intros <-. induction x as [|a x IH]; cbn; congruence. Qed.

Lemma uniqueToken_fresh tries reads tokens token :
  (∀ raw, inl raw ∈ reads → slen raw = tokenSize) →
  uniqueToken_loop tries reads tokens = inl token → tokens !! token = None.
Proof.
  revert reads. induction tries as [|tries IH]; intros reads Hreads; cbn [uniqueToken_loop]; [done|].
  destruct reads as [|[raw|err] reads]; [done| |done]. cbn zeta.
  rewrite stake_all by (apply encoded_length, Hreads; left).
  destruct (tokens !! RawURLEncoding_EncodeToString raw) as [id|] eqn:Htok.
  - apply IH. intros raw' Hraw'. apply Hreads. by right.
  - by injection 1 as <-.
Qed.

Lemma tokens_outstanding t c token :
  cache_inv t c → rq_tokens c !! token = None ↔ outstanding c !! token = None.
Proof.
  intros Hinv. rewrite !eq_None_not_Some. apply not_iff_compat. split.
  - intros [id (e & Hin & Htok)%(inv_map _ _ Hinv)]. exists (ce_req e, ce_expireTime e).
    apply (outstanding_lookup t); [done|]. by exists id, e.
  - intros [[r x] (id & e & Hin & Htok & _)%(outstanding_lookup t)]; [|done].
    exists id. apply (inv_map _ _ Hinv). by exists e.
Qed.

Lemma outstanding_size t c : cache_inv t c → size (outstanding c) = length (rq_ll c).
Proof.
  intros Hinv. unfold outstanding. rewrite <- length_map_to_list, map_to_list_to_map, length_fmap; [done|].
  rewrite <- list_fmap_compose. exact (inv_tokens _ _ Hinv).
Qed.

Lemma insert_inv t now1 c token (req : request) :
  cache_inv t c → (t ≤ now1)%Z → length (rq_ll c) < maxInFlight → rq_tokens c !! token = None →
  let entry := {| ce_token := token; ce_req := req; ce_expireTime := (now1 + cacheTTL)%Z |} in
  cache_inv now1 {| rq_ll := (rq_next c, entry) :: rq_ll c; rq_tokens := <[token := rq_next c]> (rq_tokens c);
                    rq_next := Datatypes.S (rq_next c) |}.
Proof.
  intros Hinv Ht Hlen Hfresh entry. pose proof Hinv as []. split; cbn.
  - apply NoDup_cons. split; [|done]. intros (el & Heq & Hel)%list_elem_of_fmap. apply inv_fresh0 in Hel. lia.
  - intros el [->|Hel]%elem_of_cons; cbn; [lia|]. apply inv_fresh0 in Hel. lia.
  - apply NoDup_cons. split; [|done]. intros ([id e] & Heq & Hel)%list_elem_of_fmap. cbn in Heq.
    enough (rq_tokens c !! token = Some id) by congruence. apply inv_map0. by exists e.
  - intros token' id. destruct (decide (token' = token)) as [->|Hne].
    + rewrite lookup_insert_eq. split.
      * injection 1 as <-. exists entry. split; [left|done].
      * intros (e & [Heq|Hin]%elem_of_cons & Htok); [by injection Heq as -> _|].
        enough (rq_tokens c !! token = Some id) by congruence. apply inv_map0. by exists e.
    + rewrite lookup_insert_ne, inv_map0 by done. split; intros (e & Hin & Htok); exists e; (split; [|done]).
      * by right.
      * apply elem_of_cons in Hin as [Heq|Hin]; [|done]. injection Heq as _ ->. by cbn in Htok.
  - constructor; [done|]. apply Forall_forall. intros el Hel. cbn. specialize (inv_time0 _ Hel). lia.
  - intros el [->|Hel]%elem_of_cons; cbn; [lia|]. specialize (inv_time0 _ Hel). lia.
  - lia.
Qed.

(** Inserting a request.  Expired requests are forgotten first; the request is
    refused for lack of room exactly when [maxInFlight] unexpired requests are
    outstanding, and then, or when no unused token is drawn, nothing else changes;
    otherwise it becomes outstanding under a token that no outstanding request
    has, for one [cacheTTL]. *)
Theorem Insert_spec t now0 now1 c reads (req : request) :
  cache_inv t c → (t ≤ now0 ≤ now1)%Z → (∀ raw, inl raw ∈ reads → slen raw = tokenSize) →
  let before := live now0 (outstanding c) in
  match Insert c now0 now1 reads req with
  | (inl token, c') =>
      cache_inv now1 c' ∧ size before < maxInFlight ∧ before !! token = None ∧
      outstanding c' = <[token := (req, (now1 + cacheTTL)%Z)]> before
  | (inr err, c') =>
      cache_inv now1 c' ∧ outstanding c' = before ∧
      (size before = maxInFlight ∧ err = ErrorTooManyInFlight ∨
       size before < maxInFlight ∧ uniqueToken c' reads = inr err)
  end.
Proof.
  intros Hinv Ht Hreads before. destruct (gc_spec t now0 c Hinv) as [Hinv' Hout].
  assert (∀ t', (t ≤ t')%Z → cache_inv t' (gc now0 c)) as Hlater.
  { intros t' Ht'. destruct Hinv'. split; try done. intros el Hel. specialize (inv_time0 _ Hel). lia. }
  pose proof (outstanding_size t _ Hinv') as Hsize. pose proof (inv_size _ _ Hinv') as Hmax.
  unfold Insert. destruct (Nat.eqb_spec (length (rq_ll (gc now0 c))) maxInFlight) as [Hfull|Hroom].
  { split_and!; [apply Hlater; lia|done|]. left. split; [|done]. subst before. congruence. }
  assert (size before < maxInFlight) as Hlt by (subst before; rewrite <- Hout; lia).
  unfold uniqueToken. destruct (uniqueToken_loop _ _ _) as [token|err] eqn:Hunique.
  - apply uniqueToken_fresh in Hunique; [|done]. split_and!; [|done| |].
    + apply (insert_inv t); [done|lia|lia|done].
    + subst before. rewrite <- Hout. by apply (tokens_outstanding t).
    + subst before. by rewrite <- Hout.
  - split_and!; [apply Hlater; lia|done|]. by right.
Qed.

(** Consuming a token.  It returns the request outstanding under it if it has not
    expired, and whatever it returns, the token is gone afterwards: no token is
    ever accepted twice.  Other tokens are not affected. *)
Theorem Consume_spec t now c token :
  cache_inv t c →
  ∃ c', Consume c now token =
          Ret (match outstanding c !! token with
               | Some (req, expire) => if (expire <? now)%Z then None else Some req
               | None => None
               end, c') ∧
    cache_inv t c' ∧ outstanding c' = delete token (outstanding c).
Proof.
  intros Hinv. unfold Consume. destruct (rq_tokens c !! token) as [id|] eqn:Htok.
  - apply (inv_map _ _ Hinv) in Htok as (e & Hin & <-). rewrite (element_spec t c id e) by done.
    assert (outstanding c !! ce_token e = Some (ce_req e, ce_expireTime e)) as ->.
    { apply (outstanding_lookup t); [done|]. by exists id, e. }
    eexists. split; [by case_match|]. split; [by apply remove_inv|]. by eapply outstanding_remove.
  - apply (tokens_outstanding t) in Htok; [|done]. exists c. rewrite Htok. split_and!; [done..|].
    by rewrite delete_id.
Qed.
End theorems.

(** ** Witnesses *)

Module RequestCacheExamples.
Lemma new_inv : cache_inv 0 (newRequestCache (request:=string)).
Proof.
  split; cbn; try (by constructor); try (by intros el ?%not_elem_of_nil); [|unfold maxInFlight; lia].
  intros token id. rewrite lookup_empty. split; [done|]. by intros (e & ?%not_elem_of_nil & _).
Qed.

Definition raw : string := "abcdef".
Definition one : requestCache string := (Insert newRequestCache 0 0 [inl raw] "exec").2.

Lemma Insert_spec_witness :
  cache_inv 0 one ∧ outstanding one = {[ "YWJjZGVm" := ("exec", cacheTTL) ]}.
Proof.
  pose proof (Insert_spec 0 0 0 newRequestCache [inl raw] "exec" new_inv) as Hspec.
  change (Insert newRequestCache 0 0 [inl raw] "exec") with (inl (B:=error) "YWJjZGVm", one) in Hspec.
  destruct Hspec as (Hinv & _ & _ & Hout); [lia| |].
  - intros r Hr. apply list_elem_of_singleton in Hr. injection Hr as ->. reflexivity.
  - split; [exact Hinv|]. rewrite Hout. reflexivity.
Defined.

Lemma Consume_spec_witness :
  ∃ c', Consume (newRequestCache (request:=string)) 5 "t" = Ret (None, c') ∧ cache_inv 0 c' ∧
        outstanding c' = delete "t" (outstanding newRequestCache).
Proof. exact (Consume_spec 0 5 newRequestCache "t" new_inv). Defined.
End RequestCacheExamples.
