(* ===== verification/PathMux.v ===== *)
(** * The path-recording request multiplexer

    Models pkg/server/mux/pathrecorder.go.  Handlers are values of a type [H];
    serving a request is the choice of the handler that gets it.  The methods that
    change the multiplexer run under its lock, and each rebuilds the routing table
    that requests read: each is one transition.  The stack trace recorded per path
    is an argument. *)

From S2P Require Import Prelude GoStrings.

Local Open Scope go_scope.

Section mux.
Context {H : Type} (http_NotFoundHandler : H).

Record pathHandler := {
  ph_pathToHandler : gmap string H;
  ph_prefixHandlers : list (string * H);
  ph_notFoundHandler : H;
}.

Record PathRecorderMux := {
  m_notFoundHandler : option H;
  m_pathToHandler : gmap string H;
  m_prefixToHandler : gmap string H;
  m_mux : pathHandler;
  m_exposedPaths : list string;
  m_pathStacks : gmap string string;
}.

Definition NewPathRecorderMux : PathRecorderMux :=
  {| m_notFoundHandler := None; m_pathToHandler := ∅; m_prefixToHandler := ∅;
     m_mux := {| ph_pathToHandler := ∅; ph_prefixHandlers := []; ph_notFoundHandler := http_NotFoundHandler |};
     m_exposedPaths := []; m_pathStacks := ∅ |}.

Definition ListedPaths (m : PathRecorderMux) : list string := merge_sort String.le (m_exposedPaths m).

(** byPrefixPriority.Less *)
Definition byPrefixPriority_Less (lhs rhs : string) : bool :=
  let lhsNumParts := CountByte lhs "/"%char in
  let rhsNumParts := CountByte rhs "/"%char in
  if negb (lhsNumParts =? rhsNumParts) then lhsNumParts <? rhsNumParts
  else if negb (slen lhs =? slen rhs) then slen lhs <? slen rhs
  else String.ltb lhs rhs.

(** sort.Sort(sort.Reverse(byPrefixPriority(keys))).  The keys are distinct and the
    order is total, so every sort gives this list. *)
Definition not_before (a b : string) : Prop := byPrefixPriority_Less a b = false.
#[global] Instance not_before_dec : RelDecision not_before.
Proof. intros a b. unfold not_before. apply _. Defined.

Definition sortedPrefixes (prefixToHandler : gmap string H) : list string :=
  merge_sort not_before (map_to_list prefixToHandler).*1.

Definition prefixHandlersOf (prefixToHandler : gmap string H) : list (string * H) :=
  omap (λ prefix, pair prefix <$> prefixToHandler !! prefix) (sortedPrefixes prefixToHandler).

Definition refreshMuxLocked (m : PathRecorderMux) : PathRecorderMux :=
  {| m_notFoundHandler := m_notFoundHandler m; m_pathToHandler := m_pathToHandler m;
     m_prefixToHandler := m_prefixToHandler m;
     m_mux := {| ph_pathToHandler := m_pathToHandler m;
                 ph_prefixHandlers := prefixHandlersOf (m_prefixToHandler m);
                 ph_notFoundHandler := default http_NotFoundHandler (m_notFoundHandler m) |};
     m_exposedPaths := m_exposedPaths m; m_pathStacks := m_pathStacks m |}.

(** The assignments the methods make before they refresh. *)
Definition set_mux (m : PathRecorderMux) (notFound : option H) (paths prefixes : gmap string H)
    (exposed : list string) (stacks : gmap string string) : PathRecorderMux :=
  {| m_notFoundHandler := notFound; m_pathToHandler := paths; m_prefixToHandler := prefixes;
     m_mux := m_mux m; m_exposedPaths := exposed; m_pathStacks := stacks |}.

Definition NotFoundHandler (m : PathRecorderMux) (handler : option H) : PathRecorderMux :=
  refreshMuxLocked (set_mux m handler (m_pathToHandler m) (m_prefixToHandler m) (m_exposedPaths m) (m_pathStacks m)).

Fixpoint remove_first (path : string) (paths : list string) : list string :=
  match paths with
  | [] => []
  | p :: ps => if p == path then ps else p :: remove_first path ps
  end.

Definition Unregister (m : PathRecorderMux) (path : string) : PathRecorderMux :=
  refreshMuxLocked (set_mux m (m_notFoundHandler m) (delete path (m_pathToHandler m)) (delete path (m_prefixToHandler m))
                      (remove_first path (m_exposedPaths m)) (delete path (m_pathStacks m))).

(** trackCallers: an existing stack is logged and replaced. *)
Definition trackCallers (m : PathRecorderMux) (path stack : string) : gmap string string :=
  <[path := stack]> (m_pathStacks m).

Definition Handle (m : PathRecorderMux) (path : string) (handler : H) (stack : string) : PathRecorderMux :=
  refreshMuxLocked (set_mux m (m_notFoundHandler m) (<[path := handler]> (m_pathToHandler m)) (m_prefixToHandler m)
                      (m_exposedPaths m ++ [path]) (trackCallers m path stack)).

Definition UnlistedHandle (m : PathRecorderMux) (path : string) (handler : H) (stack : string) : PathRecorderMux :=
  refreshMuxLocked (set_mux m (m_notFoundHandler m) (<[path := handler]> (m_pathToHandler m)) (m_prefixToHandler m)
                      (m_exposedPaths m) (trackCallers m path stack)).

Definition HandlePrefix (m : PathRecorderMux) (path : string) (handler : H) (stack : string)
    : outcome PathRecorderMux :=
  if negb (HasSuffix path "/") then Panic "must end in a trailing slash"
  else Ret (refreshMuxLocked
              (set_mux m (m_notFoundHandler m) (m_pathToHandler m) (<[path := handler]> (m_prefixToHandler m))
                 (m_exposedPaths m ++ [path]) (trackCallers m path stack))).

Definition UnlistedHandlePrefix (m : PathRecorderMux) (path : string) (handler : H) (stack : string)
    : outcome PathRecorderMux :=
  if negb (HasSuffix path "/") then Panic "must end in a trailing slash"
  else Ret (refreshMuxLocked
              (set_mux m (m_notFoundHandler m) (m_pathToHandler m) (<[path := handler]> (m_prefixToHandler m))
                 (m_exposedPaths m) (trackCallers m path stack))).

(** The handler that serves a path. *)
Definition pathHandler_ServeHTTP (h : pathHandler) (path : string) : H :=
  match ph_pathToHandler h !! path with
  | Some exactHandler => exactHandler
  | None =>
      match List.find (λ prefixHandler, HasPrefix path prefixHandler.1) (ph_prefixHandlers h) with
      | Some prefixHandler => prefixHandler.2
      | None => ph_notFoundHandler h
      end
  end.

Definition ServeHTTP (m : PathRecorderMux) (path : string) : H := pathHandler_ServeHTTP (m_mux m) path.
End mux.
Arguments pathHandler : clear implicits.
Arguments PathRecorderMux : clear implicits.

(** ** Theorems *)

(** *** The order of prefixes *)

Lemma ltb_leb a b : String.ltb a b = negb (String.leb b a).
Proof. unfold String.ltb, String.leb. rewrite (String.compare_antisym b a). by destruct (String.compare a b). Qed.

Lemma not_before_spec a b :
  not_before a b ↔
  CountByte b "/"%char < CountByte a "/"%char ∨
  CountByte b "/"%char = CountByte a "/"%char ∧ (slen b < slen a ∨ slen b = slen a ∧ String.le b a).
Proof.
  unfold not_before, byPrefixPriority_Less, String.le. rewrite ltb_leb.
  destruct (Nat.eqb_spec (CountByte a "/"%char) (CountByte b "/"%char)) as [Hc|Hc]; cbn [negb];
    [|rewrite Nat.ltb_ge; intuition lia].
  destruct (Nat.eqb_spec (slen a) (slen b)) as [Hl|Hl]; cbn [negb]; [|rewrite Nat.ltb_ge; intuition lia].
  rewrite negb_false_iff. destruct (String.leb b a); cbn; intuition (lia || done).
Qed.

#[global] Instance not_before_total : Total not_before.
Proof.
  intros a b. rewrite !not_before_spec. pose proof (total String.le a b) as [|]; 
    destruct (Nat.lt_trichotomy (CountByte a "/"%char) (CountByte b "/"%char)) as [|[|]];
    destruct (Nat.lt_trichotomy (slen a) (slen b)) as [|[|]]; intuition lia.
Qed.

#[global] Instance not_before_trans : Transitive not_before.
Proof.
  intros a b c. rewrite !not_before_spec. intros Hab Hbc.
  destruct Hab as [|[? [|[? Hab]]]], Hbc as [|[? [|[? Hbc]]]]; try (left; lia); right; (split; [lia|]);
    try (left; lia). right. split; [lia|]. by transitivity b.
Qed.

(** Among prefixes of one path, the first in this order is the longest. *)
Lemma prefix_of_prefix path p q :
  HasPrefix path p = true → HasPrefix path q = true → slen q ≤ slen p → HasPrefix p q = true.
Proof.
  revert path q. induction p as [|a p IH]; intros path q; cbn.
  - intros _ _ Hq. by destruct q; [|cbn in Hq; lia].
  - destruct q as [|b q]; [done|]. destruct path as [|c path]; [done|]. cbn.
    rewrite !andb_true_iff, !bool_decide_eq_true. intros [-> Hp] [<- Hq] Hlen. split; [done|]. eapply IH; [done..|lia].
Qed.

Lemma not_before_longest path p q :
  HasPrefix path p = true → HasPrefix path q = true → not_before p q → HasPrefix p q = true.
Proof.
  intros Hp Hq Horder. destruct (decide (slen q ≤ slen p)) as [Hlen|Hlen]; [by eapply prefix_of_prefix|].
  exfalso. assert (HasPrefix q p = true) as [t ->]%HasPrefix_spec by (eapply prefix_of_prefix; [done..|lia]).
  apply not_before_spec in Horder. rewrite CountByte_app in Horder. lia.
Qed.

Lemma find_sorted {A} (R : A → A → Prop) (f : A → bool) l x :
  StronglySorted R l → List.find f l = Some x →
  x ∈ l ∧ f x = true ∧ ∀ y, y ∈ l → f y = true → y = x ∨ R x y.
Proof.
  induction 1 as [|a l Hl IH Ha]; cbn; [done|]. destruct (f a) eqn:Hfa.
  - injection 1 as ->. split_and!; [left|done|]. intros y [->|Hy]%elem_of_cons _; [by left|].
    right. rewrite Forall_forall in Ha. by apply Ha.
  - intros (Hin & Hx & Hbest)%IH. split_and!; [by right|done|].
    intros y [->|Hy]%elem_of_cons Hfy; [congruence|]. by apply Hbest.
Qed.

Section theorems.
Context {H : Type} (http_NotFoundHandler : H).
Implicit Types (m : PathRecorderMux H) (t : gmap string H).

Lemma prefixHandlersOf_elem t p h : (p, h) ∈ prefixHandlersOf t ↔ t !! p = Some h.
Proof.
  unfold prefixHandlersOf, sortedPrefixes. rewrite list_elem_of_omap. split.
  - intros (q & _ & Hq). destruct (t !! q) eqn:Hlookup; [|done]. cbn in Hq. by injection Hq as <- <-.
  - intros Hp. exists p. rewrite Hp, merge_sort_Permutation. split; [|done].
    apply list_elem_of_fmap. exists (p, h). split; [done|]. by apply elem_of_map_to_list.
Qed.

Lemma prefixHandlersOf_sorted t : StronglySorted (λ a b, not_before a.1 b.1) (prefixHandlersOf t).
Proof.
  unfold prefixHandlersOf.
  assert (StronglySorted not_before (sortedPrefixes t)) as Hsorted
    by (apply (StronglySorted_merge_sort not_before); apply _).
  induction Hsorted as [|p l Hl IH Hp]; cbn; [constructor|].
  destruct (t !! p) as [h|]; cbn; [|done]. constructor; [done|].
  rewrite Forall_forall in Hp. apply Forall_forall. intros [q h'] (q' & Hq' & Heq)%list_elem_of_omap.
  destruct (t !! q'); [|done]. cbn in Heq. injection Heq as <- _. by apply Hp.
Qed.

(** *** Reachable multiplexers *)

Inductive reachable_mux : PathRecorderMux H → Prop :=
  | reach_new : reachable_mux (NewPathRecorderMux http_NotFoundHandler)
  | reach_notFound m handler : reachable_mux m → reachable_mux (NotFoundHandler http_NotFoundHandler m handler)
  | reach_unregister m path : reachable_mux m → reachable_mux (Unregister http_NotFoundHandler m path)
  | reach_handle m path h stack : reachable_mux m → reachable_mux (Handle http_NotFoundHandler m path h stack)
  | reach_unlisted m path h stack :
      reachable_mux m → reachable_mux (UnlistedHandle http_NotFoundHandler m path h stack)
  | reach_prefix m path h stack m' :
      reachable_mux m → HandlePrefix http_NotFoundHandler m path h stack = Ret m' → reachable_mux m'
  | reach_unlistedPrefix m path h stack m' :
      reachable_mux m → UnlistedHandlePrefix http_NotFoundHandler m path h stack = Ret m' → reachable_mux m'.

(** The table requests read is the one of the current registrations, and prefixes
    end in a slash. *)
Record mux_inv m : Prop := {
  inv_paths : ph_pathToHandler (m_mux m) = m_pathToHandler m;
  inv_prefixes : ph_prefixHandlers (m_mux m) = prefixHandlersOf (m_prefixToHandler m);
  inv_notFound : ph_notFoundHandler (m_mux m) = default http_NotFoundHandler (m_notFoundHandler m);
  inv_slash : ∀ p h, m_prefixToHandler m !! p = Some h → HasSuffix p "/" = true;
}.

Lemma refresh_inv m :
  (∀ p h, m_prefixToHandler m !! p = Some h → HasSuffix p "/" = true) → mux_inv (refreshMuxLocked http_NotFoundHandler m).
Proof. by split. Qed.

Lemma insert_slash t path h :
  (∀ p h, t !! p = Some h → HasSuffix p "/" = true) → HasSuffix path "/" = true →
  ∀ p h', <[path := h]> t !! p = Some h' → HasSuffix p "/" = true.
Proof. intros Ht Hpath p h' [[-> _]|[_ Hp]]%lookup_insert_Some; [done|by eapply Ht]. Qed.

Lemma reachable_inv m : reachable_mux m → mux_inv m.
Proof.
  induction 1 as [|m handler _ []|m path _ []|m path h stack _ []|m path h stack _ []
                  |m path h stack m' _ [] Hm'|m path h stack m' _ [] Hm'].
  - by split.
  - by apply refresh_inv.
  - apply refresh_inv. cbn. intros p h [_ Hp]%lookup_delete_Some. by eapply inv_slash0.
  - by apply refresh_inv.
  - by apply refresh_inv.
  - unfold HandlePrefix in Hm'. destruct (HasSuffix path "/") eqn:Hslash; [|done].
    injection Hm' as <-. apply refresh_inv. by apply insert_slash.
  - unfold UnlistedHandlePrefix in Hm'. destruct (HasSuffix path "/") eqn:Hslash; [|done].
    injection Hm' as <-. apply refresh_inv. by apply insert_slash.
Qed.

(** C34: however handlers were registered and removed, a request goes to the handler
    registered last for its exact path; failing that, to the handler of the
    LONGEST registered prefix of its path, which ends in a slash (so the request
    is for something under it); failing that, to the not-found handler. *)
Theorem ServeHTTP_spec m path :
  reachable_mux m →
  let h := ServeHTTP m path in
  m_pathToHandler m !! path = Some h ∨
  m_pathToHandler m !! path = None ∧
  ((∃ p, m_prefixToHandler m !! p = Some h ∧ HasPrefix path p = true ∧ HasSuffix p "/" = true ∧
      ∀ q h', m_prefixToHandler m !! q = Some h' → HasPrefix path q = true → HasPrefix p q = true) ∨
   (∀ q h', m_prefixToHandler m !! q = Some h' → HasPrefix path q = false) ∧
   h = default http_NotFoundHandler (m_notFoundHandler m)).
Proof.
  intros [Hpaths Hprefixes HnotFound Hslash]%reachable_inv. unfold ServeHTTP, pathHandler_ServeHTTP.
  rewrite Hpaths, Hprefixes, HnotFound. destruct (m_pathToHandler m !! path) as [h|]; [by left|]. right. split; [done|].
  destruct (List.find _ _) as [[p h]|] eqn:Hfind.
  - left. apply (find_sorted _ _ _ _ (prefixHandlersOf_sorted _)) in Hfind as (Hin & Hp & Hbest).
    apply prefixHandlersOf_elem in Hin. exists p. split_and!; [done..|by eapply Hslash|].
    intros q h' Hq%prefixHandlersOf_elem Hpq. destruct (Hbest _ Hq Hpq) as [Heq|Hle].
    + injection Heq as -> _. apply HasPrefix_refl.
    + by apply (not_before_longest path).
  - right. split; [|done]. intros q h' Hq%prefixHandlersOf_elem%list_elem_of_In.
    exact (List.find_none _ _ Hfind _ Hq).
Qed.

(** Registering a path twice replaces the handler, where the comments announce a
    panic, and lists the path twice; removing it once then leaves it listed though
    nothing serves it any more. *)
Theorem Handle_twice m path h1 h2 stack :
  path ∉ m_exposedPaths m →
  let m2 := Handle http_NotFoundHandler (Handle http_NotFoundHandler m path h1 stack) path h2 stack in
  let m3 := Unregister http_NotFoundHandler m2 path in
  ServeHTTP m2 path = h2 ∧
  path ∈ ListedPaths m3 ∧ m_pathToHandler m3 !! path = None ∧ m_prefixToHandler m3 !! path = None.
Proof.
  intros Hnew. split_and!.
  - unfold ServeHTTP, pathHandler_ServeHTTP. cbn. by rewrite lookup_insert_eq.
  - unfold ListedPaths. rewrite merge_sort_Permutation. cbn. rewrite <- (assoc (++)).
    induction (m_exposedPaths m) as [|p ps IH]; cbn.
    + rewrite bool_decide_eq_true_2 by done. left.
    + apply not_elem_of_cons in Hnew as [Hne Hnew]. rewrite bool_decide_eq_false_2 by done. right. by apply IH.
  - cbn. apply lookup_delete_eq.
  - cbn. apply lookup_delete_eq.
Qed.
End theorems.

(** ** Witnesses *)

Module PathMuxExamples.
Definition m1 : PathRecorderMux string :=
  Handle "404" (Handle "404" (NewPathRecorderMux "404") "/healthz" "health" "s") "/apis" "index" "s".
Definition m2 : PathRecorderMux string :=
  match HandlePrefix "404" m1 "/apis/" "apis" "s" with Ret m => m | Panic _ => m1 end.
Definition m3 : PathRecorderMux string :=
  match HandlePrefix "404" m2 "/apis/apps/" "apps" "s" with Ret m => m | Panic _ => m2 end.

Lemma m3_reachable : reachable_mux "404" m3.
Proof.
  apply (reach_prefix _ m2 "/apis/apps/" "apps" "s"); [|reflexivity].
  apply (reach_prefix _ m1 "/apis/" "apis" "s"); [|reflexivity]. apply reach_handle, reach_handle, reach_new.
Qed.

Lemma ServeHTTP_spec_witness :
  m_pathToHandler m3 !! "/apis/apps/v1" = Some "apps" ∨
  m_pathToHandler m3 !! "/apis/apps/v1" = None ∧
  ((∃ p, m_prefixToHandler m3 !! p = Some "apps" ∧ HasPrefix "/apis/apps/v1" p = true ∧ HasSuffix p "/" = true ∧
      ∀ q h', m_prefixToHandler m3 !! q = Some h' → HasPrefix "/apis/apps/v1" q = true → HasPrefix p q = true) ∨
   (∀ q h', m_prefixToHandler m3 !! q = Some h' → HasPrefix "/apis/apps/v1" q = false) ∧
   "apps" = default "404" (m_notFoundHandler m3)).
Proof. exact (ServeHTTP_spec "404" m3 "/apis/apps/v1" m3_reachable). Defined.

Lemma Handle_twice_witness :
  let m2 := Handle "404" (Handle "404" m1 "/a" "one" "s") "/a" "two" "s" in
  let m3 := Unregister "404" m2 "/a" in
  ServeHTTP m2 "/a" = "two" ∧ "/a" ∈ ListedPaths m3 ∧
  m_pathToHandler m3 !! "/a" = None ∧ m_prefixToHandler m3 !! "/a" = None.
Proof. apply (Handle_twice "404" m1 "/a" "one" "two" "s"). cbn. set_solver. Defined.
End PathMuxExamples.
