(* ===== verification/Proc.v ===== *)
(** * The process manager

    src/pkg/proc/proc.go, options.go, context.go, config.go, util.go,
    signal_posix.go and src/pkg/proc/api/v1: modules register hooks for the start,
    reload and stop of the process; [start] runs the start hooks by priority,
    [mainLoop] waits for signals, [stop] runs the stop hooks in reverse and cancels
    the process context.

    A hook is a function of the parsed configuration and of the world [W] it acts
    on; it may return, panic or block, and a hook that blocks may go on once the
    world has changed.  The configuration reader (golib's configer), the values of attributes and
    the state of the world are parameters of the model.  [mainLoop] runs beside the
    goroutine of [stop] and the goroutine that waits for the wait group: [step] is
    their interleaving with the signals that arrive. *)

From S2P Require Import Prelude.
From stdpp Require Import relations.
From Stdlib Require Import Wellfounded.

Open Scope Z_scope.

(** ** Priorities and actions (api/v1) *)

(** [iota << 3] as uint16. *)
Definition PRI_SYS_INIT : Z := 1 ≪ 3.
Definition PRI_SYS_PRESTART : Z := 2 ≪ 3.
Definition PRI_MODULE : Z := 3 ≪ 3.
Definition PRI_SYS_START : Z := 4 ≪ 3.
Definition PRI_SYS_POSTSTART : Z := 5 ≪ 3.

Definition PRI_M_LOGGING : Z := 1 ≪ 3.
Definition PRI_M_DB : Z := 2 ≪ 3.
Definition PRI_M_AUDIT : Z := 3 ≪ 3.
Definition PRI_M_HTTP : Z := 4 ≪ 3.
Definition PRI_M_AUTHN : Z := 5 ≪ 3.
Definition PRI_M_AUTHZ : Z := 6 ≪ 3.
Definition PRI_M_HTTP2 : Z := 7 ≪ 3.
Definition PRI_M_TRACING : Z := 8 ≪ 3.
Definition PRI_M_GRPC : Z := 9 ≪ 3.

Definition system_priorities : list Z :=
  [PRI_SYS_INIT; PRI_SYS_PRESTART; PRI_MODULE; PRI_SYS_START; PRI_SYS_POSTSTART].

(** ProcessAction is a uint32; it indexes the array of hooks. *)
Definition ACTION_START : nat := 0.
Definition ACTION_RELOAD : nat := 1.
Definition ACTION_STOP : nat := 2.
Definition ACTION_SIZE : nat := 3.

Definition ProcessAction_String (p : nat) : string :=
  if decide (p = ACTION_START) then "start"
  else if decide (p = ACTION_RELOAD) then "reload"
  else if decide (p = ACTION_STOP) then "stop"
  else "unknown".

Inductive ProcessStatus :=
  STATUS_INIT | STATUS_PENDING | STATUS_RUNNING | STATUS_RELOADING | STATUS_EXIT.

#[global] Instance ProcessStatus_eq_dec : EqDecision ProcessStatus.
Proof. solve_decision. Defined.

(** [atomic.StoreUint32(p, STATUS_RUNNING)]: the argument is not used. *)
Definition ProcessStatus_Set (p v : ProcessStatus) : ProcessStatus := STATUS_RUNNING.

(** uint32 arithmetic. *)
Definition uint32 (z : Z) : Z := z mod 2 ^ 32.

Inductive signal := Interrupt | SIGTERM | OtherSignal (n : nat).

#[global] Instance signal_eq_dec : EqDecision signal.
Proof. solve_decision. Defined.

Definition sigContains (v : signal) (sigs : list signal) : bool :=
  existsb (λ sig, bool_decide (sig = v)) sigs.

Definition shutdownSignals : list signal := [Interrupt; SIGTERM].
Definition reloadSignals : list signal := [].

(** ** Hooks and the process *)

(** A call of code that need not return. *)
Inductive call (A : Type) := Completes (a : A) | Panics (msg : string) | Blocks.
Arguments Completes {A} _.
Arguments Panics {A} _.
Arguments Blocks {A}.

#[global] Instance call_ret : MRet call := λ A a, Completes a.
#[global] Instance call_bind : MBind call := λ A B f m,
  match m with Completes a => f a | Panics msg => Panics msg | Blocks => Blocks end.

Section Process.
Context {W PC CO : Type}.

(** What a hook does: golib's [WithConfiger] context gives it the parsed
    configuration; if it returns, it returns an error or nil. *)
Definition HookFn : Type := option PC → W → call (option error * W).

Record HookOps := {
  Hook : HookFn;
  FnName : string;            (* util.Name(Hook), the name of the function *)
  Owner : string;
  HookNum : nat;
  Priority : Z;               (* uint16 *)
  SubPriority : Z;            (* uint16 *)
  processPriority : Z;        (* uint32, 0 until computed *)
}.

Definition computedPriority (p : HookOps) : Z :=
  uint32 (uint32 (Priority p ≪ (16 - 3)) + SubPriority p).

(** [HookOps.ProcessPriority]: computes the priority on first use and keeps it. *)
Definition set_processPriority (p : HookOps) (v : Z) : HookOps :=
  {| Hook := Hook p; FnName := FnName p; Owner := Owner p; HookNum := HookNum p;
     Priority := Priority p; SubPriority := SubPriority p; processPriority := v |}.

Definition ProcessPriority (p : HookOps) : Z * HookOps :=
  let p' := if decide (processPriority p = 0)
            then set_processPriority p (computedPriority p) else p in
  (processPriority p', p').

(** [Hooks.Sort]: with two hooks or more every hook takes part in a comparison,
    which computes its priority. *)
Definition hook_less (x y : HookOps) : bool :=
  bool_decide ((ProcessPriority x).1 < (ProcessPriority y).1).

Definition Hooks_Sort (x : list HookOps) : list HookOps :=
  match x with
  | [] | [_] => x
  | _ => SliceStable hook_less (snd ∘ ProcessPriority <$> x)
  end.

(** [SetContext] has a value receiver: it assigns to a copy. *)
Definition SetContext (p : HookOps) : HookOps := p.

(** A wait group is a reference; [wg_ref] names it. *)
Definition wg_ref : Type := nat.

(** A context, up to its Done channel: the configer it carries and its attribute
    map, of which the wait group is kept. *)
Record Context := {
  cx_configer : option PC;
  cx_attr : option (option wg_ref);
}.

Record ProcessOptions := {
  name : string;
  description : string;
  ctx : Context;
  hooks : list HookOps;
  noloop : bool;
  group : bool;
  report : bool;
  skipLoggingFlags : bool;
  wg : wg_ref;
  configerOptions : list CO;
}.

Definition newProcessOptions (base_Args0 : string) (freshWg : wg_ref) : ProcessOptions :=
  {| name := base_Args0; description := ""; ctx := {| cx_configer := None; cx_attr := None |};
     hooks := []; noloop := false; group := true; report := false; skipLoggingFlags := false;
     wg := freshWg; configerOptions := [] |}.

Definition ProcessOption : Type := ProcessOptions → ProcessOptions.

Definition WithContext (c : Context) : ProcessOption := λ p,
  {| name := name p; description := description p; ctx := c; hooks := hooks p;
     noloop := noloop p; group := group p; report := report p;
     skipLoggingFlags := skipLoggingFlags p; wg := wg p; configerOptions := configerOptions p |}.

Definition WithHooks (hs : list HookOps) : ProcessOption := λ p,
  {| name := name p; description := description p; ctx := ctx p; hooks := hooks p ++ hs;
     noloop := noloop p; group := group p; report := report p;
     skipLoggingFlags := skipLoggingFlags p; wg := wg p; configerOptions := configerOptions p |}.

Definition WithRegisterAuth (fn : list (string * HookFn)) : ProcessOption :=
  WithHooks ((λ f, {| Hook := f.2; FnName := f.1; Owner := "__proc_with_register_auth__";
                      HookNum := ACTION_START; Priority := PRI_SYS_INIT;
                      SubPriority := PRI_M_AUTHN; processPriority := 0 |}) <$> fn).

Definition WithRun (fn : list (string * HookFn)) : ProcessOption :=
  WithHooks ((λ f, {| Hook := f.2; FnName := f.1; Owner := "__proc_with_run__";
                      HookNum := ACTION_START; Priority := PRI_MODULE;
                      SubPriority := 0; processPriority := 0 |}) <$> fn).

Definition WithName (n : string) : ProcessOption := λ p,
  {| name := n; description := description p; ctx := ctx p; hooks := hooks p;
     noloop := noloop p; group := group p; report := report p;
     skipLoggingFlags := skipLoggingFlags p; wg := wg p; configerOptions := configerOptions p |}.

Definition WithDescription (d : string) : ProcessOption := λ p,
  {| name := name p; description := d; ctx := ctx p; hooks := hooks p;
     noloop := noloop p; group := group p; report := report p;
     skipLoggingFlags := skipLoggingFlags p; wg := wg p; configerOptions := configerOptions p |}.

Definition WithoutLoop : ProcessOption := λ p,
  {| name := name p; description := description p; ctx := ctx p; hooks := hooks p;
     noloop := true; group := group p; report := report p;
     skipLoggingFlags := skipLoggingFlags p; wg := wg p; configerOptions := configerOptions p |}.

Definition WithoutGroup : ProcessOption := λ p,
  {| name := name p; description := description p; ctx := ctx p; hooks := hooks p;
     noloop := noloop p; group := false; report := report p;
     skipLoggingFlags := skipLoggingFlags p; wg := wg p; configerOptions := configerOptions p |}.

Definition WithWaitGroup (w : wg_ref) : ProcessOption := λ p,
  {| name := name p; description := description p; ctx := ctx p; hooks := hooks p;
     noloop := noloop p; group := group p; report := report p;
     skipLoggingFlags := skipLoggingFlags p; wg := w; configerOptions := configerOptions p |}.

Definition WithConfigOptions (options : list CO) : ProcessOption := λ p,
  {| name := name p; description := description p; ctx := ctx p; hooks := hooks p;
     noloop := noloop p; group := group p; report := report p;
     skipLoggingFlags := skipLoggingFlags p; wg := wg p;
     configerOptions := configerOptions p ++ options |}.

Definition WithReport : ProcessOption := λ p,
  {| name := name p; description := description p; ctx := ctx p; hooks := hooks p;
     noloop := noloop p; group := group p; report := true;
     skipLoggingFlags := skipLoggingFlags p; wg := wg p; configerOptions := configerOptions p |}.

Definition WithoutLoggingFlags : ProcessOption := λ p,
  {| name := name p; description := description p; ctx := ctx p; hooks := hooks p;
     noloop := noloop p; group := group p; report := report p;
     skipLoggingFlags := true; wg := wg p; configerOptions := configerOptions p |}.

(** A registered configuration: path, flag group and own flag set. *)
Record configOptions := { cf_path : string; cf_group : string; cf_fs : option nat }.

(** The flag set a configuration's flags go to. *)
Inductive flagset := Named (group : string) | Own (fs : nat) | Root.

#[global] Instance flagset_eq_dec : EqDecision flagset.
Proof. solve_decision. Defined.

Record Process := {
  opts : ProcessOptions;
  parsedConfiger : option PC;
  configs : list configOptions;
  debugConfig : bool;
  hookOps : list (list HookOps);       (* [ACTION_SIZE]Hooks *)
  status : ProcessStatus;
  err : option error;
  done_ : bool;                        (* the context of the process is cancelled *)
}.

Definition NewProcess (base_Args0 : string) (freshWg : wg_ref) (os : list ProcessOption) : Process :=
  {| opts := foldl (λ o opt, opt o) (newProcessOptions base_Args0 freshWg) os;
     parsedConfiger := None; configs := []; debugConfig := false;
     hookOps := replicate ACTION_SIZE []; status := STATUS_INIT; err := None; done_ := false |}.

(** Field updates. *)
Definition set_opts (p : Process) (o : ProcessOptions) : Process :=
  {| opts := o; parsedConfiger := parsedConfiger p; configs := configs p;
     debugConfig := debugConfig p; hookOps := hookOps p; status := status p; err := err p;
     done_ := done_ p |}.
Definition set_hookOps (p : Process) (h : list (list HookOps)) : Process :=
  {| opts := opts p; parsedConfiger := parsedConfiger p; configs := configs p;
     debugConfig := debugConfig p; hookOps := h; status := status p; err := err p;
     done_ := done_ p |}.
Definition set_parsedConfiger (p : Process) (c : option PC) : Process :=
  {| opts := opts p; parsedConfiger := c; configs := configs p; debugConfig := debugConfig p;
     hookOps := hookOps p; status := status p; err := err p; done_ := done_ p |}.
Definition set_status (p : Process) (v : ProcessStatus) : Process :=
  {| opts := opts p; parsedConfiger := parsedConfiger p; configs := configs p;
     debugConfig := debugConfig p; hookOps := hookOps p;
     status := ProcessStatus_Set (status p) v; err := err p; done_ := done_ p |}.
Definition set_err (p : Process) (e : option error) : Process :=
  {| opts := opts p; parsedConfiger := parsedConfiger p; configs := configs p;
     debugConfig := debugConfig p; hookOps := hookOps p; status := status p; err := e;
     done_ := done_ p |}.
Definition cancel (p : Process) : Process :=
  {| opts := opts p; parsedConfiger := parsedConfiger p; configs := configs p;
     debugConfig := debugConfig p; hookOps := hookOps p; status := status p; err := err p;
     done_ := true |}.

(** ** Registration *)

(** [Process.RegisterHooks]: a [HookNum] outside the array panics. *)
Fixpoint RegisterHooks (p : Process) (ins : list HookOps) : outcome Process :=
  match ins with
  | [] => Ret p
  | v :: rest =>
      l ← index (hookOps p) (HookNum v);
      RegisterHooks (set_hookOps p (<[HookNum v := l ++ [SetContext v]]> (hookOps p))) rest
  end.

Definition ConfigOption : Type := configOptions → configOptions.

Definition WithConfigGroup (g : string) : ConfigOption := λ o,
  {| cf_path := cf_path o; cf_group := g; cf_fs := cf_fs o |}.
Definition WithConfigFlagSet (fs : nat) : ConfigOption := λ o,
  {| cf_path := cf_path o; cf_group := cf_group o; cf_fs := Some fs |}.

Definition AddConfig (p : Process) (path : string) (os : list ConfigOption) : Process :=
  let cf := foldl (λ o opt, opt o) {| cf_path := path; cf_group := ""; cf_fs := None |} os in
  {| opts := opts p; parsedConfiger := parsedConfiger p; configs := configs p ++ [cf];
     debugConfig := debugConfig p; hookOps := hookOps p; status := status p; err := err p;
     done_ := done_ p |}.

Definition AddGlobalConfig (p : Process) : Process := AddConfig p "" [WithConfigGroup "global"].

(** golib's configer: [Var] binds the flags of a path, [Parse] reads the
    configuration. *)
Context (configer_Var : flagset → string → option error).
Context (configer_Parse : list CO → W → PC + error).

Definition config_flagset (v : configOptions) : flagset :=
  if bool_decide (cf_group v ≠ "") then Named (cf_group v)
  else match cf_fs v with Some fs => Own fs | None => Root end.

(** The pairs bound, and the first error. *)
Fixpoint bind_loop (l : list configOptions) : list (flagset * string) * option error :=
  match l with
  | [] => ([], None)
  | v :: rest =>
      match configer_Var (config_flagset v) (cf_path v) with
      | Some e => ([], Some e)
      | None => let '(bound, e) := bind_loop rest in ((config_flagset v, cf_path v) :: bound, e)
      end
  end.

Definition BindRegisteredFlags (p : Process) : list (flagset * string) * option error :=
  bind_loop (configs p).

Definition apply_opts (p : Process) (os : list ProcessOption) : Process :=
  set_opts p (foldl (λ o opt, opt o) (opts p) os).

(** [WgFrom]: panics when the context has no attributes. *)
Definition WgFrom (c : Context) : outcome (option wg_ref) :=
  match cx_attr c with
  | Some wg => Ret wg
  | None => Panic "unable to get attr from context"
  end.

Definition WgMustFrom (c : Context) : outcome wg_ref :=
  wg ← WgFrom c;
  match wg with Some wg => Ret wg | None => Panic "unable to get waitGroup from context" end.

Definition set_attr (c : Context) (a : option wg_ref) : Context :=
  {| cx_configer := cx_configer c; cx_attr := Some a |}.

(** [WithWg] writes into the attribute map of the context. *)
Definition WithWg (c : Context) (wg : wg_ref) : outcome Context :=
  match cx_attr c with
  | Some _ => Ret (set_attr c (Some wg))
  | None => Panic "unable to get attr from context"
  end.

(** The context part of [Process.Init]. *)
Definition init_context (c : Context) (wg : wg_ref) : outcome Context :=
  let c1 := match cx_attr c with Some _ => c | None => set_attr c None end in
  w ← WgFrom c1;
  match w with Some _ => Ret c1 | None => WithWg c1 wg end.

Definition Init (p : Process) (os : list ProcessOption) : outcome (option error * Process) :=
  p ← RegisterHooks (apply_opts p os) (hooks (opts (apply_opts p os)));
  let p := match cx_configer (ctx (opts p)) with
           | Some c => set_parsedConfiger p (Some c) | None => p end in
  c ← init_context (ctx (opts p)) (wg (opts p));
  let p := set_opts p (WithContext c (opts p)) in
  match (BindRegisteredFlags p).2 with
  | Some e => Ret (Some (ErrorWrap "proc.BindRegisteredFlags %s" [] e), p)
  | None => Ret (None, p)
  end.

(** [NewRootCmd] and [NewCmd] call [p.Init(cmd)] and do not look at its error. *)
Definition NewRootCmd (p : Process) (os : list ProcessOption) : outcome Process :=
  r ← Init (apply_opts p os) [];
  Ret r.2.

Definition NewCmd (p : Process) (os : list ProcessOption) : outcome Process :=
  r ← Init (apply_opts p os) [];
  Ret r.2.

(** The package-level [Init] returns nil whatever the process's [Init] returned. *)
Definition proc_Init (p : Process) (os : list ProcessOption) : outcome (option error * Process) :=
  r ← Init p os;
  Ret (None, r.2).

(** ** Start, stop and reload *)

Definition Parse (p : Process) (os : list CO) (w : W) : (PC + error) * Process :=
  match parsedConfiger p with
  | Some c => (inl c, p)
  | None =>
      match configer_Parse (configerOptions (opts p) ++ os) w with
      | inr e => (inr e, p)
      | inl c => (inl c, set_parsedConfiger p (Some c))
      end
  end.

(** The loop over hooks: stops at the first hook that fails, panics or blocks. *)
Fixpoint run_hooks (l : list HookOps) (pc : option PC) (w : W) : call (option (HookOps * error) * W) :=
  match l with
  | [] => mret (None, w)
  | h :: rest =>
      '(r, w') ← Hook h pc w;
      match r with
      | Some e => mret (Some (h, e), w')
      | None => run_hooks rest pc w'
      end
  end.

Definition hookError (h : HookOps) (e : error) : error :=
  ErrorWrap "%s.%s() err: %s" [Owner h; FnName h] e.

Definition hooksOf (p : Process) (action : nat) : list HookOps := default [] (hookOps p !! action).

(** [Process.start].  The wait group is held from its entry to its return. *)
Definition start (p : Process) (w : W) : call (option error * Process * W) :=
  let p := set_hookOps p (Hooks_Sort <$> hookOps p) in
  '(r, w') ← run_hooks (hooksOf p ACTION_START) (parsedConfiger p) w;
  match r with
  | Some (h, e) => mret (Some (hookError h e), p, w')
  | None => mret (None, set_status p STATUS_RUNNING, w')
  end.

Definition timeoutError (p : Process) : error :=
  Errorf "%s closed after timeout %s" [name (opts p); "12s"].

(** [Process.stop]; [drained] says whether the wait group reaches zero before the
    timeout of 12 seconds. *)
Definition stop (p : Process) (w : W) (drained : bool) : call (option error * Process * W) :=
  if done_ p then mret (None, p, w)
  else
    '(r, w') ← run_hooks (reverse (hooksOf p ACTION_STOP)) (parsedConfiger p) w;
    match r with
    | Some (h, e) => mret (Some (hookError h e), set_err p (Some (hookError h e)), w')
    | None =>
        let p := set_status p STATUS_EXIT in
        let p := if drained then p else set_err p (Some (timeoutError p)) in
        mret (err p, cancel p, w')
    end.

(** [Process.reload]: the error of a hook is kept as it is. *)
Definition reload (p : Process) (w : W) : call (option error * Process * W) :=
  let p := set_status p STATUS_RELOADING in
  match configer_Parse (configerOptions (opts p)) w with
  | inr e => mret (Some e, set_err p (Some e), w)
  | inl cf =>
      let p := set_parsedConfiger p (Some cf) in
      '(r, w') ← run_hooks (hooksOf p ACTION_RELOAD) (Some cf) w;
      match r with
      | Some (_, e) => mret (Some e, set_err p (Some e), w')
      | None => mret (None, set_err (set_status p STATUS_RUNNING) None, w')
      end
  end.

(** ** The main loop, the stopping goroutine and the waiting goroutine *)

(** Where [mainLoop] is: in its select, in the hooks of a reload, returned, or the
    process left by os.Exit or by a panic (with code 2). *)
Inductive main_pc :=
  | Loop
  | Reloading (pc : option PC) (rest : list HookOps)
  | Returned (e : option error)
  | Exited (code : Z).

(** Where [go p.stop()] is. *)
Inductive stop_pc :=
  | NoStop
  | StopEntry
  | StopHooks (pc : option PC) (rest : list HookOps)
  | StopWait
  | StopDone (e : option error).

(** Where the goroutine [p.wg.Wait(); wgCh <- struct{}{}] is. *)
Inductive waiter := NotWaiting | Waiting | Sending | Received.

Record run := Run {
  r_p : Process;
  r_w : W;
  r_sigs : list signal;         (* the buffer of sigsCh, capacity 2 *)
  r_shutdown : bool;
  r_main : main_pc;
  r_stop : stop_pc;
  r_waiter : waiter;
  r_wg : nat;                   (* the counter of the wait group *)
  r_ran : list (HookOps * option error); (* the calls of stop hooks that returned, and their results *)
}.

(** The two lists of signals, which depend on the platform. *)
Context (shutdownSigs reloadSigs : list signal).

(** A hook that blocks takes no step; one that panics ends the process. *)
Inductive step_main : run → run → Prop :=
  | main_done p w sigs sd s wt n ran :
      done_ p = true →
      step_main (Run p w sigs sd Loop s wt n ran) (Run p w sigs sd (Returned (err p)) s wt n ran)
  | main_shutdown p w sg sigs s wt n ran :
      sigContains sg shutdownSigs = true →
      step_main (Run p w (sg :: sigs) false Loop s wt n ran)
                (Run p w sigs true Loop StopEntry wt n ran)
  | main_force p w sg sigs s wt n ran :
      sigContains sg shutdownSigs = true →
      step_main (Run p w (sg :: sigs) true Loop s wt n ran)
                (Run p w sigs true (Exited 1) s wt n ran)
  | main_reload_parse p w sg sigs sd s wt n ran e :
      sigContains sg shutdownSigs = false → sigContains sg reloadSigs = true →
      configer_Parse (configerOptions (opts p)) w = inr e →
      step_main (Run p w (sg :: sigs) sd Loop s wt n ran)
                (Run (set_err (set_status p STATUS_RELOADING) (Some e)) w sigs sd
                   (Returned (Some e)) s wt n ran)
  | main_reload p w sg sigs sd s wt n ran cf :
      sigContains sg shutdownSigs = false → sigContains sg reloadSigs = true →
      configer_Parse (configerOptions (opts p)) w = inl cf →
      step_main (Run p w (sg :: sigs) sd Loop s wt n ran)
                (Run (set_parsedConfiger (set_status p STATUS_RELOADING) (Some cf)) w sigs sd
                   (Reloading (Some cf) (hooksOf p ACTION_RELOAD)) s wt n ran)
  | main_reload_hook p w sigs sd pc h rest s wt n ran w' :
      Hook h pc w = Completes (None, w') →
      step_main (Run p w sigs sd (Reloading pc (h :: rest)) s wt n ran)
                (Run p w' sigs sd (Reloading pc rest) s wt n ran)
  | main_reload_panic p w sigs sd pc h rest s wt n ran msg :
      Hook h pc w = Panics msg →
      step_main (Run p w sigs sd (Reloading pc (h :: rest)) s wt n ran)
                (Run p w sigs sd (Exited 2) s wt n ran)
  | main_reload_err p w sigs sd pc h rest s wt n ran w' e :
      Hook h pc w = Completes (Some e, w') →
      step_main (Run p w sigs sd (Reloading pc (h :: rest)) s wt n ran)
                (Run (set_err p (Some e)) w' sigs sd (Returned (Some e)) s wt n ran)
  | main_reload_end p w sigs sd pc s wt n ran :
      step_main (Run p w sigs sd (Reloading pc []) s wt n ran)
                (Run (set_err (set_status p STATUS_RUNNING) None) w sigs sd Loop s wt n ran)
  | main_ignored p w sg sigs sd s wt n ran :
      sigContains sg shutdownSigs = false → sigContains sg reloadSigs = false →
      step_main (Run p w (sg :: sigs) sd Loop s wt n ran) (Run p w sigs sd Loop s wt n ran).

Definition alive (m : main_pc) : Prop := match m with Exited _ => False | _ => True end.

Inductive step_stop : run → run → Prop :=
  | stop_entry_done p w sigs sd m wt n ran :
      alive m → done_ p = true →
      step_stop (Run p w sigs sd m StopEntry wt n ran) (Run p w sigs sd m (StopDone None) wt n ran)
  | stop_entry p w sigs sd m wt n ran :
      alive m → done_ p = false →
      step_stop (Run p w sigs sd m StopEntry wt n ran)
                (Run p w sigs sd m (StopHooks (parsedConfiger p) (reverse (hooksOf p ACTION_STOP)))
                   Waiting n ran)
  | stop_hook p w sigs sd m pc h rest wt n ran w' :
      alive m → Hook h pc w = Completes (None, w') →
      step_stop (Run p w sigs sd m (StopHooks pc (h :: rest)) wt n ran)
                (Run p w' sigs sd m (StopHooks pc rest) wt n (ran ++ [(h, None)]))
  | stop_hook_panic p w sigs sd m pc h rest wt n ran msg :
      alive m → Hook h pc w = Panics msg →
      step_stop (Run p w sigs sd m (StopHooks pc (h :: rest)) wt n ran)
                (Run p w sigs sd (Exited 2) (StopHooks pc (h :: rest)) wt n ran)
  | stop_hook_err p w sigs sd m pc h rest wt n ran w' e :
      alive m → Hook h pc w = Completes (Some e, w') →
      step_stop (Run p w sigs sd m (StopHooks pc (h :: rest)) wt n ran)
                (Run (set_err p (Some (hookError h e))) w' sigs sd m
                   (StopDone (Some (hookError h e))) wt n (ran ++ [(h, Some e)]))
  | stop_hooks_end p w sigs sd m pc wt n ran :
      alive m →
      step_stop (Run p w sigs sd m (StopHooks pc []) wt n ran)
                (Run (set_status p STATUS_EXIT) w sigs sd m StopWait wt n ran)
  | stop_drained p w sigs sd m n ran :
      alive m →
      step_stop (Run p w sigs sd m StopWait Sending n ran)
                (Run (cancel p) w sigs sd m (StopDone (err p)) Received n ran)
  | stop_timeout p w sigs sd m wt n ran :
      alive m →
      step_stop (Run p w sigs sd m StopWait wt n ran)
                (Run (cancel (set_err p (Some (timeoutError p)))) w sigs sd m
                   (StopDone (Some (timeoutError p))) wt n ran).

Inductive step_waiter : run → run → Prop :=
  | waiter_zero p w sigs sd m s ran :
      alive m →
      step_waiter (Run p w sigs sd m s Waiting 0 ran) (Run p w sigs sd m s Sending 0 ran).

(** The environment: a signal arrives (one that finds the buffer full is dropped,
    which changes nothing), the counter of the wait group moves, the rest of the
    program changes the world. *)
Inductive step_env : run → run → Prop :=
  | env_signal p w sg sigs sd m s wt n ran :
      alive m → (length sigs < 2)%nat →
      step_env (Run p w sigs sd m s wt n ran) (Run p w (sigs ++ [sg]) sd m s wt n ran)
  | env_wg p w sigs sd m s wt n n' ran :
      alive m →
      step_env (Run p w sigs sd m s wt n ran) (Run p w sigs sd m s wt n' ran)
  | env_world p w w' sigs sd m s wt n ran :
      alive m →
      step_env (Run p w sigs sd m s wt n ran) (Run p w' sigs sd m s wt n ran).

(** A context given with [WithContext] can also be cancelled from outside. *)
Inductive step_cancel : run → run → Prop :=
  | parent_cancel p w sigs sd m s wt n ran :
      alive m →
      step_cancel (Run p w sigs sd m s wt n ran) (Run (cancel p) w sigs sd m s wt n ran).

(** The steps of the process's own goroutines, and all steps. *)
Definition internal (r r' : run) : Prop := step_main r r' ∨ step_stop r r' ∨ step_waiter r r'.
Definition step (r r' : run) : Prop := internal r r' ∨ step_env r r'.
Definition step_any (r r' : run) : Prop := step r r' ∨ step_cancel r r'.

(** The state in which [mainLoop] enters its loop; in a run of [Start] below, [p] is
    what [start] leaves, its hooks sorted. *)
Definition loop_entry (p : Process) (w : W) (n : nat) : run :=
  Run p w [] false Loop NoStop NotWaiting n [].

(** ** Process.Start, on a process that does not loop *)

Inductive exit := Return (e : option error) | OsExit (code : Z).

(** [Start] up to the main loop: the process left, or the loop entered. *)
Definition Start (p : Process) (w : W) (drained : bool) (reporter : option error)
    (n : nat) : call ((exit * Process * W) + run) :=
  match Parse p [] w with
  | (inr e, p) => mret (inl (Return (Some e), p, w))
  | (inl _, p) =>
      if debugConfig p then mret (inl (OsExit 0, p, w))
      else
        '(e, p, w) ← start p w;
        match e with
        | Some e => mret (inl (Return (Some e), p, w))
        | None =>
            if noloop (opts p) then
              '(e, p, w) ← stop p w drained; mret (inl (Return e, p, w))
            else
              match (if report (opts p) then reporter else None) with
              | Some e => mret (inl (Return (Some e), p, w))
              | None => mret (inr (loop_entry p w n))
              end
        end
  end.

End Process.

Arguments run_hooks {W PC} _ _ _.
Arguments start {W PC CO} _ _.
Arguments stop {W PC CO} _ _ _.

(** ** Priorities *)

Section Priorities.
Context {W PC : Type}.
Implicit Types h : @HookOps W PC.

(** What Go's types and the cache of [ProcessPriority] guarantee of a hook. *)
Definition hook_ok h : Prop :=
  0 ≤ Priority h < 2 ^ 16 ∧ 0 ≤ SubPriority h < 2 ^ 16 ∧
  (processPriority h = 0 ∨ processPriority h = computedPriority h).

(** The hook with its priority computed. *)
Definition core h : @HookOps W PC := set_processPriority h (computedPriority h).

Lemma computedPriority_exact h :
  hook_ok h → computedPriority h = Priority h * 2 ^ 13 + SubPriority h.
Proof.
  intros (Hp & Hs & _). unfold computedPriority, uint32.
  change (16 - 3) with 13. rewrite Z.shiftl_mul_pow2 by lia.
  rewrite (Z.mod_small (Priority h * _)) by lia. apply Z.mod_small. lia.
Qed.

Lemma ProcessPriority_fst h : hook_ok h → (ProcessPriority h).1 = computedPriority h.
Proof. intros (_ & _ & Hc). unfold ProcessPriority. case_decide; cbn; [done|]. naive_solver. Qed.

Lemma ProcessPriority_core h : hook_ok h → core (ProcessPriority h).2 = core h.
Proof. intros _. unfold ProcessPriority. by case_decide. Qed.

Lemma computedPriority_core h : computedPriority (core h) = computedPriority h.
Proof. done. Qed.

Lemma ProcessPriority_ok h : hook_ok h → hook_ok (ProcessPriority h).2.
Proof.
  intros Hok. unfold ProcessPriority. case_decide; [|done]. destruct Hok as (Hp & Hs & _).
  split; [exact Hp|]. split; [exact Hs|]. right. reflexivity.
Qed.

(** Priorities that are multiples of 8, as the declared ones are, order hooks by
    priority first and by sub-priority second. *)
Lemma computedPriority_lex h1 h2 :
  hook_ok h1 → hook_ok h2 → (8 | Priority h1) → (8 | Priority h2) →
  computedPriority h1 < computedPriority h2 ↔
  Priority h1 < Priority h2 ∨ Priority h1 = Priority h2 ∧ SubPriority h1 < SubPriority h2.
Proof.
  intros H1 H2 [k1 E1] [k2 E2]. rewrite !computedPriority_exact by done.
  destruct H1 as (? & ? & _), H2 as (? & ? & _). rewrite E1, E2. lia.
Qed.

Let less := λ x y : @HookOps W PC, bool_decide (computedPriority x < computedPriority y).

Lemma insert_stable_core x l :
  hook_ok x → Forall hook_ok l →
  core <$> insert_stable hook_less x l = insert_stable less (core x) (core <$> l).
Proof.
  intros Hx. induction 1 as [|y l Hy Hl IH]; cbn; [done|].
  unfold hook_less at 1, less at 1.
  rewrite !ProcessPriority_fst, !computedPriority_core by done.
  case_bool_decide; cbn; [by rewrite IH|done].
Qed.

Lemma SliceStable_core l :
  Forall hook_ok l → core <$> SliceStable hook_less l = SliceStable less (core <$> l).
Proof.
  induction 1 as [|x l Hx Hl IH]; cbn; [done|].
  fold (SliceStable (@hook_less W PC) l). rewrite insert_stable_core; [by rewrite IH|done|].
  apply Forall_forall. intros y Hy. rewrite Forall_forall in Hl. apply Hl.
  revert Hy. by rewrite SliceStable_perm.
Qed.

(** Sorting the hooks is the stable sort of their computed priorities; the cache
    that is filled on the way does not change the order. *)
Lemma Hooks_Sort_core l :
  Forall hook_ok l → core <$> Hooks_Sort l = SliceStable less (core <$> l).
Proof.
  intros Hl. destruct l as [|x [|y l]]; [done|done|]. unfold Hooks_Sort.
  rewrite SliceStable_core.
  - f_equal. rewrite <- list_fmap_compose. apply list_fmap_ext. intros i z Hz.
    apply ProcessPriority_core. by eapply Forall_lookup_1.
  - apply Forall_fmap. eapply Forall_impl; [exact Hl|]. cbn. apply ProcessPriority_ok.
Qed.

Lemma run_hooks_core l pc (w : W) :
  run_hooks (core <$> l) pc w =
  match run_hooks l pc w with
  | Completes (r, w') => Completes (option_map (prod_map core id) r, w')
  | Panics msg => Panics msg
  | Blocks => Blocks
  end.
Proof.
  revert w. induction l as [|h l IH]; intros w; cbn; [done|].
  destruct (Hook h pc w) as [[[e|] w']|msg|]; cbn; [done|apply IH|done..].
Qed.

(** The successive calls of hooks that all succeed. *)
Inductive succeed (pc : option PC) : list (@HookOps W PC) → W → W → Prop :=
  | succeed_nil w : succeed pc [] w w
  | succeed_cons h l w w1 w2 :
      Hook h pc w = Completes (None, w1) → succeed pc l w1 w2 → succeed pc (h :: l) w w2.

(** The hooks before [h] succeed and [h] is called in the world [w1]. *)
Definition reaches (pc : option PC) (l : list (@HookOps W PC)) (w : W) h (w1 : W) : Prop :=
  ∃ l1 l2, l = l1 ++ h :: l2 ∧ succeed pc l1 w w1.

Lemma reaches_cons pc h l w w1 h' w2 :
  Hook h pc w = Completes (None, w1) → reaches pc l w1 h' w2 → reaches pc (h :: l) w h' w2.
Proof. intros Hh (l1 & l2 & -> & Hs). exists (h :: l1), l2. split; [done|by econstructor]. Qed.

Lemma reaches_head pc h l w : reaches pc (h :: l) w h w.
Proof. exists [], l. split; [done|constructor]. Qed.

Lemma run_hooks_spec l pc (w : W) :
  match run_hooks l pc w with
  | Completes (None, w') => succeed pc l w w'
  | Completes (Some (h, e), w') => ∃ w1, reaches pc l w h w1 ∧ Hook h pc w1 = Completes (Some e, w')
  | Panics msg => ∃ h w1, reaches pc l w h w1 ∧ Hook h pc w1 = Panics msg
  | Blocks => ∃ h w1, reaches pc l w h w1 ∧ Hook h pc w1 = Blocks
  end.
Proof.
  revert w. induction l as [|h l IH]; intros w; cbn; [constructor|].
  destruct (Hook h pc w) as [[[e|] w1]|msg|] eqn:Hh; cbn; [by eauto using reaches_head| |by eauto using reaches_head..].
  specialize (IH w1). destruct (run_hooks l pc w1) as [[[[h' e]|] w']|msg|].
  - destruct IH as (w2 & Hr & He). eauto using reaches_cons.
  - by econstructor.
  - destruct IH as (h' & w2 & Hr & He). eauto using reaches_cons.
  - destruct IH as (h' & w2 & Hr & He). eauto using reaches_cons.
Qed.

End Priorities.

(** ** Starting *)

Section Start.
Context {W PC CO : Type}.
Implicit Types p : @Process W PC CO.

Definition by_priority (x y : @HookOps W PC) : Prop := computedPriority x ≤ computedPriority y.

(** [l'] is [l] in the order of priorities, registration order among equals. *)
Definition in_order (l l' : list (@HookOps W PC)) : Prop :=
  l' ≡ₚ core <$> l ∧ StronglySorted by_priority l' ∧
  ∀ k, filter (λ h, computedPriority h = k) l' = filter (λ h, computedPriority h = k) (core <$> l).

Lemma priority_less_spec (x y : @HookOps W PC) :
  bool_decide (computedPriority x < computedPriority y) = true ↔
  ¬ computedPriority y ≤ computedPriority x.
Proof. rewrite bool_decide_eq_true. lia. Qed.

Lemma Hooks_Sort_in_order l : Forall hook_ok l → in_order l (core <$> Hooks_Sort l).
Proof.
  intros Hl. rewrite Hooks_Sort_core by done. split; [|split].
  - apply SliceStable_perm.
  - apply (SliceStable_sorted _ computedPriority Z.le), priority_less_spec.
  - intros k. apply (SliceStable_stable _ computedPriority Z.le), priority_less_spec.
Qed.

Lemma hooksOf_Sort p a :
  hooksOf (set_hookOps p (Hooks_Sort <$> hookOps p)) a = Hooks_Sort (hooksOf p a).
Proof. unfold hooksOf. cbn. rewrite list_lookup_fmap. by destruct (hookOps p !! a). Qed.

Lemma hooksOf_ok p a : Forall (Forall hook_ok) (hookOps p) → Forall hook_ok (hooksOf p a).
Proof.
  intros Hp. unfold hooksOf. destruct (hookOps p !! a) eqn:Ha; cbn; [|constructor].
  by eapply Forall_lookup_1.
Qed.

Theorem start_spec p w :
  Forall (Forall hook_ok) (hookOps p) →
  ∃ sorted, in_order (hooksOf p ACTION_START) sorted ∧
  match start p w with
  | Completes (None, p', w') => succeed (parsedConfiger p) sorted w w' ∧ status p' = STATUS_RUNNING
  | Completes (Some e, p', w') =>
      status p' = status p ∧
      ∃ h w1 e0, reaches (parsedConfiger p) sorted w h w1 ∧
        Hook h (parsedConfiger p) w1 = Completes (Some e0, w') ∧ e = hookError h e0
  | Panics msg => ∃ h w1, reaches (parsedConfiger p) sorted w h w1 ∧ Hook h (parsedConfiger p) w1 = Panics msg
  | Blocks => ∃ h w1, reaches (parsedConfiger p) sorted w h w1 ∧ Hook h (parsedConfiger p) w1 = Blocks
  end.
Proof.
  intros Hok. exists (core <$> Hooks_Sort (hooksOf p ACTION_START)).
  split; [by apply Hooks_Sort_in_order, hooksOf_ok|].
  unfold start. rewrite hooksOf_Sort. cbn [parsedConfiger set_hookOps].
  pose proof (run_hooks_spec (core <$> Hooks_Sort (hooksOf p ACTION_START)) (parsedConfiger p) w)
    as Hrun. rewrite run_hooks_core in Hrun.
  destruct (run_hooks _ _ _) as [[[[h e]|] w']|msg|]; cbn in Hrun |- *; [|done..].
  destruct Hrun as (w1 & Hr & He). split; [done|]. by exists (core h), w1, e.
Qed.

(** [start] leaves the hooks of every action sorted, and nothing else of the
    process changed but its status. *)
Lemma start_hookOps p w e p' w' :
  start p w = Completes (e, p', w') →
  hookOps p' = Hooks_Sort <$> hookOps p ∧ done_ p' = done_ p ∧ opts p' = opts p.
Proof.
  unfold start. destruct (run_hooks _ _ _) as [[[[h e0]|] w1]|msg|]; [..|done|done]; by intros [= <- <- <-].
Qed.

End Start.

(** ** The main loop *)

Lemma rtc_preserves {A} (P : A → Prop) (R : A → A → Prop) x y :
  (∀ x y, P x → R x y → P y) → rtc R x y → P x → P y.
Proof. intros HR. induction 1; eauto. Qed.

Section MainLoop.
Context {W PC CO : Type}.
Context (configer_Parse : list CO → W → PC + error).
Context (shutdownSigs reloadSigs : list signal).
Implicit Types (p : @Process W PC CO) (r : @run W PC CO).

Abbreviation internal := (internal configer_Parse shutdownSigs reloadSigs).
Abbreviation step := (step configer_Parse shutdownSigs reloadSigs).
Abbreviation step_any := (step_any configer_Parse shutdownSigs reloadSigs).

(** *** Termination *)

Definition stop_weight (s : @stop_pc W PC) (stops : nat) : nat :=
  match s with
  | NoStop | StopDone _ => 0
  | StopEntry => stops + 6
  | StopHooks _ rest => length rest + 4
  | StopWait => 2
  end.

Definition main_weight (m : @main_pc W PC) : nat :=
  match m with
  | Loop => 2
  | Reloading _ rest => length rest + 3
  | Returned _ => 1
  | Exited _ => 0
  end.

Definition waiter_weight (wt : waiter) : nat := match wt with Waiting => 1 | _ => 0 end.

(** What is left to do, counted in steps. *)
Definition work r : nat :=
  let stops := length (hooksOf (r_p r) ACTION_STOP) in
  let reloads := length (hooksOf (r_p r) ACTION_RELOAD) in
  length (r_sigs r) * (stops + reloads + 10) + main_weight (r_main r) +
  stop_weight (r_stop r) stops + waiter_weight (r_waiter r).

Lemma internal_work r r' : internal r r' → (work r' < work r)%nat.
Proof.
  unfold work. intros [Hm|[Hs|Hw]].
  - destruct Hm; cbn -[Nat.mul]; unfold hooksOf, set_parsedConfiger, set_status, set_err; cbn -[Nat.mul]; lia.
  - destruct Hs; cbn -[Nat.mul]; rewrite ?length_reverse; unfold hooksOf, set_status, set_err, cancel in *;
      cbn -[Nat.mul]; try lia.
    destruct m; cbn -[Nat.mul] in *; [lia..|done].
  - destruct Hw; cbn -[Nat.mul]; lia.
Qed.

(** C11: the process's own goroutines (the main loop, the shutdown goroutine and the
    waiter) come to rest unless new signals keep arriving: from any state they make
    at most [work] steps. *)
Theorem internal_terminates r :
  Acc (flip internal) r ∧ ∀ n r', nsteps internal n r r' → (n ≤ work r)%nat.
Proof.
  split.
  - apply (wf_projected lt work); [|apply lt_wf]. intros x y. apply internal_work.
  - intros n r' Hn. induction Hn as [x|n x y z Hxy Hyz IH]; [lia|].
    apply internal_work in Hxy. lia.
Qed.

(** *** Order of the stop hooks *)

(** The calls so far all returned nil. *)
Definition all_nil (l : list (@HookOps W PC * option error)) : Prop := Forall (λ c, c.2 = None) l.

(** The invariant of the runs that start from [p0].  [ext] holds when the context
    can be cancelled from outside. *)
Definition loop_inv (ext : Prop) (p0 : @Process W PC CO) r : Prop :=
  let full := reverse (hooksOf p0 ACTION_STOP) in
  hookOps (r_p r) = hookOps p0 ∧
  match r_stop r with
  | NoStop => r_shutdown r = false ∧ r_ran r = [] ∧ (done_ (r_p r) = true → ext)
  | StopEntry => r_shutdown r = true ∧ r_ran r = [] ∧ (done_ (r_p r) = true → ext)
  | StopHooks _ rest =>
      r_shutdown r = true ∧ (r_ran r).*1 ++ rest = full ∧ all_nil (r_ran r) ∧
      (done_ (r_p r) = true → ext)
  | StopWait =>
      r_shutdown r = true ∧ (r_ran r).*1 = full ∧ all_nil (r_ran r) ∧ (done_ (r_p r) = true → ext)
  | StopDone e =>
      r_shutdown r = true ∧
      ((r_ran r).*1 = full ∧ all_nil (r_ran r) ∧ done_ (r_p r) = true ∨
       (∃ l h e0 rest, r_ran r = l ++ [(h, Some e0)] ∧ all_nil l ∧ (r_ran r).*1 ++ rest = full ∧
          e = Some (hookError h e0) ∧ (done_ (r_p r) = true → ext)) ∨
       (ext ∧ r_ran r = []))
  end.

Lemma loop_inv_main ext p0 r r' :
  loop_inv ext p0 r → step_main configer_Parse shutdownSigs reloadSigs r r' → loop_inv ext p0 r'.
Proof.
  intros [Hh Hs] Hm. destruct Hm; (split; [done|]); cbn in Hs |- *; try done.
  destruct s as [| | | |e]; [naive_solver..|]. by destruct Hs as [? _].
Qed.

Lemma loop_inv_stop ext p0 r r' :
  loop_inv ext p0 r → step_stop r r' → loop_inv ext p0 r'.
Proof.
  intros [Hh Hs] Hm. destruct Hm; (split; [done|]); cbn in Hs, Hh |- *.
  - destruct Hs as (? & -> & ?). eauto 10.
  - destruct Hs as (? & -> & ?). unfold hooksOf. rewrite Hh. split_and!; [done..|constructor|done].
  - destruct Hs as (? & Hl & Hn & ?). rewrite fmap_app, <- (assoc (++)). split_and!; [done..| |done].
    apply Forall_app; split; [done|]. by repeat constructor.
  - exact Hs.
  - destruct Hs as (? & Hl & Hn & ?). split; [done|]. right; left. exists ran, h, e, rest.
    rewrite fmap_app, <- (assoc (++)). done.
  - rewrite app_nil_r in Hs. naive_solver.
  - naive_solver.
  - naive_solver.
Qed.

Lemma loop_inv_step ext p0 r r' :
  loop_inv ext p0 r → step r r' → loop_inv ext p0 r'.
Proof.
  intros Hinv [[Hm|[Hs|Hw]]|He].
  - by eapply loop_inv_main.
  - by eapply loop_inv_stop.
  - by destruct Hw.
  - by destruct He.
Qed.

Lemma loop_inv_cancel p0 r r' : loop_inv True p0 r → step_cancel r r' → loop_inv True p0 r'.
Proof.
  intros [Hh Hs] Hc. destruct Hc. split; [done|]. cbn in Hs |- *.
  destruct s; naive_solver.
Qed.

Lemma loop_inv_reach p w n r : done_ p = false → rtc step (loop_entry p w n) r → loop_inv False p r.
Proof.
  intros Hd Hr. eapply (rtc_preserves (loop_inv False p)); [apply loop_inv_step|exact Hr|].
  split; [done|]. cbn. rewrite Hd. naive_solver.
Qed.

Lemma loop_inv_reach_any p w n r : rtc step_any (loop_entry p w n) r → loop_inv True p r.
Proof.
  intros Hr. eapply (rtc_preserves (loop_inv True p)); [|exact Hr|].
  - intros x y Hx [Hs|Hc]; [by eapply loop_inv_step|by eapply loop_inv_cancel].
  - split; [done|]. cbn. naive_solver.
Qed.

Theorem stop_hooks_once p w n r :
  rtc step_any (loop_entry p w n) r →
  (r_ran r).*1 `prefix_of` reverse (hooksOf p ACTION_STOP) ∧
  (r_shutdown r = false → r_ran r = []) ∧
  ∀ l h e l', r_ran r = l ++ (h, Some e) :: l' → l' = [].
Proof.
  intros [_ Hs]%loop_inv_reach_any.
  assert (∀ l h e l', all_nil (l ++ (h, Some e) :: l') → l' = []) as Hnil.
  { intros l h e l' Ha. apply Forall_app in Ha as [_ Ha]. by inversion Ha. }
  destruct (r_stop r).
  - destruct Hs as (? & -> & _). split_and!; [apply prefix_nil|done|]. by intros [|].
  - destruct Hs as (? & -> & _). split_and!; [apply prefix_nil|done|]. by intros [|].
  - destruct Hs as (? & <- & ? & _). split_and!; [by eexists|congruence|]. intros l h e l' E. rewrite E in *. eauto.
  - destruct Hs as (? & <- & ? & _). split_and!; [done|congruence|]. intros l h e l' E. rewrite E in *. eauto.
  - destruct Hs as (? & [(<- & ? & _)|[(l0 & h0 & e0 & rest & E0 & Hl0 & <- & _)|(_ & ->)]]).
    + split_and!; [done|congruence|]. intros l h e' l' E. rewrite E in *. eauto.
    + split_and!; [by eexists|congruence|]. intros l h e' l' E. rewrite E in E0.
      destruct (decide (l' = [])) as [|Hne]; [done|].
      destruct (exists_last Hne) as (k & x & ->). rewrite app_comm_cons, (assoc (++)) in E0.
      apply app_inj_2 in E0 as [<- _]; [|done]. apply Forall_app in Hl0 as [_ Hl0]. by inversion Hl0.
    + split_and!; [apply prefix_nil|done|]. by intros [|].
Qed.

(** Where [Start] enters the main loop: the state [loop_entry] of a process whose
    hooks are sorted. *)
Lemma Start_loop p0 w0 drained reporter n r0 :
  Forall (Forall hook_ok) (hookOps p0) →
  Start configer_Parse p0 w0 drained reporter n = Completes (inr r0) →
  ∃ p w, r0 = loop_entry p w n ∧ done_ p = done_ p0 ∧
    in_order (hooksOf p0 ACTION_STOP) (core <$> hooksOf p ACTION_STOP).
Proof.
  intros Hok. unfold Start. destruct (Parse _ _ _ _) as [[c|e] p] eqn:Hp; [|done].
  assert (hookOps p = hookOps p0 ∧ done_ p = done_ p0) as [Hh Hd].
  { unfold Parse in Hp. destruct (parsedConfiger p0); [by simplify_eq|].
    by destruct (configer_Parse _ _); simplify_eq/=. }
  destruct (debugConfig p); [done|].
  destruct (start p w0) as [[[[e|] p1] w1]|msg|] eqn:Hs; cbn; [done| |done..].
  apply start_hookOps in Hs as (Hh1 & Hd1 & _).
  destruct (noloop _); [by destruct (stop p1 w1 drained) as [[[? ?] ?]| |]|].
  destruct (if report _ then _ else _); [done|]. intros [= <-].
  exists p1, w1. split_and!; [done|congruence|].
  assert (hooksOf p1 ACTION_STOP = Hooks_Sort (hooksOf p0 ACTION_STOP)) as ->.
  { rewrite <- hooksOf_Sort. unfold hooksOf. cbn. by rewrite Hh1, Hh. }
  by apply Hooks_Sort_in_order, hooksOf_ok.
Qed.

(** C12: whatever hooks were registered, if [Start] enters the main loop and the
    process's own goroutines then cancel the context, every stop hook has been
    called once and returned nil, in the reverse of the order of priorities: higher
    priorities first, and among equal ones the hook registered last first. *)
Theorem done_after_stop_hooks p0 w0 drained reporter n r0 r :
  Forall (Forall hook_ok) (hookOps p0) → done_ p0 = false →
  Start configer_Parse p0 w0 drained reporter n = Completes (inr r0) →
  rtc step r0 r → done_ (r_p r) = true →
  ∃ sorted, in_order (hooksOf p0 ACTION_STOP) sorted ∧
    core <$> (r_ran r).*1 = reverse sorted ∧ all_nil (r_ran r) ∧ r_shutdown r = true.
Proof.
  intros Hok Hd (p & w & -> & Hd' & Hord)%Start_loop Hr Hdone; [|done].
  apply loop_inv_reach in Hr as [_ Hs]; [|congruence].
  assert ((r_ran r).*1 = reverse (hooksOf p ACTION_STOP) ∧ all_nil (r_ran r) ∧ r_shutdown r = true)
    as (Hran & Hnil & Hsd) by (destruct (r_stop r); naive_solver).
  exists (core <$> hooksOf p ACTION_STOP). split; [done|]. by rewrite Hran, fmap_reverse.
Qed.

(** *** Reaching the end *)

Lemma loop_moves p w sg sigs sd s wt n ran :
  ∃ r', step_main configer_Parse shutdownSigs reloadSigs (Run p w (sg :: sigs) sd Loop s wt n ran) r'.
Proof.
  destruct (sigContains sg shutdownSigs) eqn:Hsd; [destruct sd; eexists; by constructor|].
  destruct (sigContains sg reloadSigs) eqn:Hr; [|eexists; by apply main_ignored].
  destruct (configer_Parse (configerOptions (opts p)) w) eqn:Hp;
    eexists; [by eapply main_reload|by eapply main_reload_parse].
Qed.

Lemma reloading_moves p w sigs sd pc rest s wt n ran :
  (∀ h rest', rest = h :: rest' → Hook h pc w ≠ Blocks) →
  ∃ r', step_main configer_Parse shutdownSigs reloadSigs
          (Run p w sigs sd (Reloading pc rest) s wt n ran) r'.
Proof.
  intros Hb. destruct rest as [|h rest]; [eexists; by constructor|]. specialize (Hb h rest eq_refl).
  destruct (Hook h pc w) as [[[e|] w']|msg|] eqn:Hh; [..|done]; eexists;
    [by eapply main_reload_err|by eapply main_reload_hook|by eapply main_reload_panic].
Qed.

Lemma stop_moves p w sigs sd m s wt n ran :
  alive m → s ≠ NoStop → (∀ e, s ≠ StopDone e) →
  (∀ pc h rest, s = StopHooks pc (h :: rest) → Hook h pc w ≠ Blocks) →
  ∃ r', step_stop (Run p w sigs sd m s wt n ran) r'.
Proof.
  intros Hm Hs1 Hs2 Hb. destruct s as [| |pc [|h rest]| |e].
  - done.
  - destruct (done_ p) eqn:Hd; eexists; by constructor.
  - eexists; by constructor.
  - specialize (Hb pc h rest eq_refl).
    destruct (Hook h pc w) as [[[e|] w']|msg|] eqn:Hh; [..|done]; eexists; by econstructor.
  - eexists; by eapply stop_timeout.
  - by destruct (Hs2 e).
Qed.

Lemma Blocks_dec h (pc : option PC) (w : W) : {Hook h pc w = Blocks} + {Hook h pc w ≠ Blocks}.
Proof. destruct (Hook h pc w); [by right|by right|by left]. Qed.

(** C10: once a shutdown has begun and the goroutines have come to rest, one of these
    holds: the process has exited; the main loop has returned; a hook blocks in the
    present world, a stop hook under the waiting main loop or a reload hook in the
    main loop itself; or a stop hook returned an error, and the main loop is left
    waiting for a context that nobody cancels.  A shutdown whose hooks return nil
    always ends. *)
Theorem shutdown_completes p w n r :
  done_ p = false → rtc step (loop_entry p w n) r → r_shutdown r = true →
  (∀ r', ¬ internal r r') →
  (∃ code, r_main r = Exited code) ∨
  (∃ e, r_main r = Returned e) ∨
  (∃ pc h rest, r_main r = Reloading pc (h :: rest) ∧ Hook h pc (r_w r) = Blocks) ∨
  (r_main r = Loop ∧ r_sigs r = [] ∧ done_ (r_p r) = false ∧
   ((∃ pc h rest, r_stop r = StopHooks pc (h :: rest) ∧ Hook h pc (r_w r) = Blocks) ∨
    ∃ l h e, r_ran r = l ++ [(h, Some e)])).
Proof.
  intros Hd Hr Hsd Hq. apply loop_inv_reach in Hr as [_ Hinv]; [|done].
  destruct r as [p' w' sigs sd m s wt n' ran]. cbn in *. subst sd.
  destruct m as [|pc rest|e|code].
  - do 3 right. destruct sigs as [|sg sigs].
    2:{ destruct (loop_moves p' w' sg sigs true s wt n' ran) as [r' Hstep]. destruct (Hq r'). by left. }
    destruct (done_ p') eqn:Hd'. { edestruct Hq. left. by apply main_done. }
    split_and!; [done..|].
    assert (s ≠ NoStop → (∀ e, s ≠ StopDone e) →
      ¬ (∀ pc h rest, s = StopHooks pc (h :: rest) → Hook h pc w' ≠ Blocks)) as Hst.
    { intros H1 H2 H3. destruct (stop_moves p' w' [] true Loop s wt n' ran I H1 H2 H3) as [r' Hstep].
      apply (Hq r'). by right; left. }
    destruct s as [| |pc [|h rest]| |e]; [naive_solver| by destruct Hst..| |by destruct Hst|].
    + left. destruct (Blocks_dec h pc w') as [|Hb]; [by eauto|].
      destruct Hst; [done..|]. intros ? ? ? [= <- <- <-]. exact Hb.
    + destruct Hinv as (_ & [(_ & _ & ?)|[(l & h & e0 & rest & -> & _)|[? _]]]); [done| |done].
      right. eauto.
  - right; right; left. destruct rest as [|h rest].
    { edestruct Hq. left. by apply main_reload_end. }
    destruct (Blocks_dec h pc w') as [|Hb]; [by eauto|].
    destruct (reloading_moves p' w' sigs true pc (h :: rest) s wt n' ran) as [r' Hstep].
    { intros h' rest' [= <- <-]. exact Hb. }
    destruct (Hq r'). by left.
  - eauto.
  - eauto.
Qed.

End MainLoop.

(** ** Registration, stopping and reloading *)

Section Operations.
Context {W PC CO : Type}.
Context (configer_Var : flagset → string → option error).
Context (configer_Parse : list CO → W → PC + error).
Implicit Types p : @Process W PC CO.

Lemma hooksOf_insert p a l i :
  length (hookOps p) = ACTION_SIZE → (i < ACTION_SIZE)%nat →
  hooksOf (set_hookOps p (<[i := l]> (hookOps p))) a = if decide (a = i) then l else hooksOf p a.
Proof.
  intros Hlen Hi. unfold hooksOf. cbn. case_decide; subst.
  - by rewrite list_lookup_insert_eq by lia.
  - by rewrite list_lookup_insert_ne by done.
Qed.

(** Registration appends the hooks of each action in their order, and panics on a
    hook of an unknown action. *)
Theorem RegisterHooks_spec p ins :
  length (hookOps p) = ACTION_SIZE →
  (Forall (λ h, HookNum h < ACTION_SIZE)%nat ins →
   ∃ p', RegisterHooks p ins = Ret p' ∧ length (hookOps p') = ACTION_SIZE ∧
     opts p' = opts p ∧ parsedConfiger p' = parsedConfiger p ∧
     ∀ a, hooksOf p' a = hooksOf p a ++ filter (λ h, HookNum h = a) ins) ∧
  (Exists (λ h, ACTION_SIZE ≤ HookNum h)%nat ins → returns (RegisterHooks p ins) = false).
Proof.
  revert p. induction ins as [|h ins IH]; intros p Hlen.
  { split; [|inversion 1]. intros _. exists p. split_and!; try done. intros a. by rewrite app_nil_r. }
  cbn [RegisterHooks]. destruct (decide (HookNum h < ACTION_SIZE)%nat) as [Hh|Hh].
  2:{ split; [inversion 1; lia|]. intros _. unfold index.
      rewrite lookup_ge_None_2 by lia. done. }
  destruct (lookup_lt_is_Some_2 (hookOps p) (HookNum h)) as [l Hl]; [lia|].
  unfold index. rewrite Hl. cbn [mbind outcome_bind].
  destruct (IH (set_hookOps p (<[HookNum h := l ++ [SetContext h]]> (hookOps p)))) as [IH1 IH2].
  { cbn. by rewrite length_insert. }
  split.
  - intros [_ Hins]%Forall_cons. destruct (IH1 Hins) as (p' & Hp' & Hlen' & Ho & Hpc & Ha).
    exists p'. split_and!; [done..|]. intros a. rewrite Ha, hooksOf_insert, filter_cons by done.
    case_decide; subst.
    + rewrite decide_True by done. unfold hooksOf. rewrite Hl. cbn. by rewrite <- (assoc (++)).
    + by rewrite decide_False by naive_solver.
  - intros Hex%Exists_cons. destruct Hex as [?|?]; [lia|auto].
Qed.

(** [stop] on a process whose context is not cancelled: every branch. *)
Theorem stop_spec p w drained :
  done_ p = false →
  match stop p w drained with
  | Completes (e, p', w') =>
      if done_ p' then
        succeed (parsedConfiger p) (reverse (hooksOf p ACTION_STOP)) w w' ∧
        e = err p' ∧ e = (if drained then err p else Some (timeoutError p))
      else
        ∃ h w1 e0, reaches (parsedConfiger p) (reverse (hooksOf p ACTION_STOP)) w h w1 ∧
          Hook h (parsedConfiger p) w1 = Completes (Some e0, w') ∧
          e = Some (hookError h e0) ∧ err p' = e
  | Panics msg => ∃ h w1, reaches (parsedConfiger p) (reverse (hooksOf p ACTION_STOP)) w h w1 ∧
      Hook h (parsedConfiger p) w1 = Panics msg
  | Blocks => ∃ h w1, reaches (parsedConfiger p) (reverse (hooksOf p ACTION_STOP)) w h w1 ∧
      Hook h (parsedConfiger p) w1 = Blocks
  end.
Proof.
  intros Hd. unfold stop. rewrite Hd.
  pose proof (run_hooks_spec (reverse (hooksOf p ACTION_STOP)) (parsedConfiger p) w) as Hr.
  destruct (run_hooks _ _ _) as [[[[h e]|] w']|msg|]; cbn; [| |done..].
  - rewrite Hd. destruct Hr as (w1 & ? & ?). by exists h, w1, e.
  - by destruct drained.
Qed.

(** [Init] leaves a wait group in the context: the one that was there, or the
    process's own. *)
Theorem Init_WgMustFrom p os e p' :
  Init configer_Var p os = Ret (e, p') →
  WgMustFrom (ctx (opts p')) =
    Ret (match cx_attr (ctx (opts (apply_opts p os))) with
         | Some (Some g) => g
         | _ => wg (opts (apply_opts p os))
         end).
Proof.
  assert (∀ ins (q q' : @Process W PC CO), RegisterHooks q ins = Ret q' → opts q' = opts q) as Hreg.
  { induction ins as [|h ins IH]; intros q q' Hq; cbn in Hq; [by simplify_eq|].
    apply bind_Ret in Hq as (l & _ & Hq). by apply IH in Hq. }
  unfold Init. intros (q & Hq & HI)%bind_Ret. apply Hreg in Hq.
  set (q' := match cx_configer _ with Some c => _ | None => _ end) in HI.
  assert (opts q' = opts (apply_opts p os)) as Hq' by (unfold q'; destruct (cx_configer _); exact Hq).
  rewrite Hq' in HI. apply bind_Ret in HI as (c & Hc & HI).
  assert (p' = set_opts q' (WithContext c (opts (apply_opts p os)))) as ->
    by (case_match; by simplify_eq).
  revert Hc. cbn [ctx opts set_opts WithContext]. clear. generalize (ctx (opts (apply_opts p os))), (wg (opts (apply_opts p os))).
  intros [cf [[g|]|]] g0 Hc; cbn in Hc; by simplify_eq.
Qed.

(** The error of binding the flags is lost in the commands and in the package's
    own [Init]. *)
Theorem NewRootCmd_drops_error p os e p' :
  Init configer_Var (apply_opts p os) [] = Ret (Some e, p') →
  NewRootCmd configer_Var p os = Ret p' ∧
  proc_Init configer_Var (apply_opts p os) [] = Ret (None, p').
Proof. intros Hi. unfold NewRootCmd, proc_Init. by rewrite Hi. Qed.

(** [ProcessStatus.Set] ignores its argument: a process that has stopped, and one
    in the middle of a reload, are both recorded as running. *)
Theorem stop_status_running p w drained e p' w' :
  done_ p = false → stop p w drained = Completes (e, p', w') → done_ p' = true →
  status p' = STATUS_RUNNING.
Proof.
  intros Hd. unfold stop. rewrite Hd. destruct (run_hooks _ _ _) as [[[[h e0]|] w1]|msg|]; [..|done|done].
  - intros [= <- <- <-]. cbn. congruence.
  - by destruct drained; intros [= <- <- <-].
Qed.

(** A reload that fails keeps the error of the reader or of the hook; one that
    succeeds clears the error and installs the new configuration. *)
Theorem reload_spec p w :
  match reload configer_Parse p w with
  | Completes (None, p', w') => ∃ cf, configer_Parse (configerOptions (opts p)) w = inl cf ∧
      parsedConfiger p' = Some cf ∧ succeed (Some cf) (hooksOf p ACTION_RELOAD) w w' ∧ err p' = None
  | Completes (Some e, p', w') => err p' = Some e ∧
      (configer_Parse (configerOptions (opts p)) w = inr e ∧ w' = w ∧
       parsedConfiger p' = parsedConfiger p ∨
       ∃ cf h w1, configer_Parse (configerOptions (opts p)) w = inl cf ∧
         parsedConfiger p' = Some cf ∧ reaches (Some cf) (hooksOf p ACTION_RELOAD) w h w1 ∧
         Hook h (Some cf) w1 = Completes (Some e, w'))
  | Panics msg => ∃ cf h w1, reaches (Some cf) (hooksOf p ACTION_RELOAD) w h w1 ∧ Hook h (Some cf) w1 = Panics msg
  | Blocks => ∃ cf h w1, reaches (Some cf) (hooksOf p ACTION_RELOAD) w h w1 ∧ Hook h (Some cf) w1 = Blocks
  end.
Proof.
  unfold reload. cbn [opts set_status]. destruct (configer_Parse _ _) as [cf|e]; cbn; [|by eauto].
  pose proof (run_hooks_spec (hooksOf p ACTION_RELOAD) (Some cf) w) as Hr.
  change (hooksOf (set_parsedConfiger _ _) ACTION_RELOAD) with (hooksOf p ACTION_RELOAD).
  destruct (run_hooks _ _ _) as [[[[h e]|] w']|msg|]; cbn; [| |by eauto..].
  - destruct Hr as (w1 & ? & ?). split; [done|]. right. by exists cf, h, w1.
  - by exists cf.
Qed.

End Operations.

(** The goroutine of [stop], run to its end without interruption, does what [stop]
    does. *)
Section StopRefines.
Context {W PC CO : Type}.
Context (sigs : list signal) (m : @main_pc W PC) (Hm : alive m).
Implicit Types p : @Process W PC CO.

(** Steps of the stopping and of the waiting goroutine. *)
Definition stop_side (r r' : @run W PC CO) : Prop := step_stop r r' ∨ step_waiter r r'.

Lemma run_hooks_steps l p pc w wt n ran :
  match run_hooks l pc w with
  | Completes (None, w') =>
      rtc stop_side (Run p w sigs true m (StopHooks pc l) wt n ran)
        (Run p w' sigs true m (StopHooks pc []) wt n (ran ++ ((λ h, (h, None)) <$> l)))
  | Completes (Some (h, e), w') =>
      ∃ ran', rtc stop_side (Run p w sigs true m (StopHooks pc l) wt n ran)
        (Run (set_err p (Some (hookError h e))) w' sigs true m (StopDone (Some (hookError h e)))
           wt n ran')
  | Panics _ | Blocks => True
  end.
Proof.
  revert w ran. induction l as [|h l IH]; intros w ran; cbn.
  { rewrite app_nil_r. constructor. }
  destruct (Hook h pc w) as [[[e|] w1]|msg|] eqn:Hh; cbn; [| |done..].
  { eexists. apply rtc_once. left. by apply stop_hook_err. }
  specialize (IH w1 (ran ++ [(h, None)])). destruct (run_hooks l pc w1) as [[[[h' e]|] w']|msg|]; [| |done..].
  - destruct IH as [ran' IH]. exists ran'. eapply rtc_l; [left; by apply stop_hook|exact IH].
  - rewrite <- (assoc (++)) in IH. eapply rtc_l; [left; by apply stop_hook|exact IH].
Qed.

(** Draining needs the wait group at zero. *)
Theorem stop_refines p w drained n e p' w' :
  (drained = true → n = 0%nat) → stop p w drained = Completes (e, p', w') →
  ∃ wt ran, rtc stop_side (Run p w sigs true m StopEntry NotWaiting n [])
              (Run p' w' sigs true m (StopDone e) wt n ran).
Proof.
  intros Hn. unfold stop. destruct (done_ p) eqn:Hd.
  { intros [= <- <- <-]. do 2 eexists. apply rtc_once. left. by apply stop_entry_done. }
  pose proof (run_hooks_steps (reverse (hooksOf p ACTION_STOP)) p (parsedConfiger p) w Waiting n [])
    as Hr.
  destruct (run_hooks _ _ _) as [[[[h e0]|] w1]|msg|]; [..|done|done].
  - intros [= <- <- <-]. destruct Hr as [ran Hr]. exists Waiting, ran.
    eapply rtc_l; [left; by apply stop_entry|exact Hr].
  - destruct drained; intros [= <- <- <-].
    + specialize (Hn eq_refl) as ->. do 2 eexists. eapply rtc_l; [left; by apply stop_entry|].
      etrans; [exact Hr|]. eapply rtc_l; [left; by apply stop_hooks_end|].
      eapply rtc_l; [right; by apply waiter_zero|]. apply rtc_once. left. by apply (stop_drained (set_status p STATUS_EXIT)).
    + do 2 eexists. eapply rtc_l; [left; by apply stop_entry|].
      etrans; [exact Hr|]. eapply rtc_l; [left; by apply stop_hooks_end|].
      apply rtc_once. left. by apply (stop_timeout (set_status p STATUS_EXIT)).
Qed.

End StopRefines.

(** ** Examples *)

(** Hooks that log their name; a hook may fail. *)
Definition logHook (nm : string) (num : nat) (pri sub : Z) (fails : bool) : @HookOps (list string) unit :=
  {| Hook := λ _ w, Completes ((if fails then Some (Errorf "failed" []) else None), w ++ [nm]);
     FnName := nm; Owner := "owner"; HookNum := num; Priority := pri; SubPriority := sub;
     processPriority := 0 |}.

(** A hook that waits until the world says "released". *)
Definition waitHook (nm : string) (num : nat) (pri sub : Z) : @HookOps (list string) unit :=
  {| Hook := λ _ w, if bool_decide ("released" ∈ w) then Completes (None, w ++ [nm]) else Blocks;
     FnName := nm; Owner := "owner"; HookNum := num; Priority := pri; SubPriority := sub;
     processPriority := 0 |}.

Definition exampleProcess (fails : bool) : @Process (list string) unit unit :=
  set_hookOps (NewProcess "app" 0%nat [])
    [[logHook "http" ACTION_START PRI_SYS_INIT PRI_M_HTTP false;
      logHook "run" ACTION_START PRI_MODULE 0 false;
      logHook "log" ACTION_START PRI_SYS_INIT PRI_M_LOGGING false;
      logHook "run2" ACTION_START PRI_MODULE 0 false];
     [];
     [logHook "stop-http" ACTION_STOP PRI_SYS_INIT PRI_M_HTTP fails;
      logHook "stop-db" ACTION_STOP PRI_SYS_INIT PRI_M_DB false]].

Definition exampleParse (os : list unit) (w : list string) : unit + error := inl tt.

Example start_order :
  (λ r, r.2) <$> match start (exampleProcess false) [] with Completes r => Some r | _ => None end =
  Some ["log"; "http"; "run"; "run2"].
Proof. vm_compute. reflexivity. Qed.

(** A priority that is not a multiple of 8 mixes with the sub-priority. *)
Example priority_overlap :
  computedPriority (logHook "a" 0 1 0 false) < computedPriority (logHook "b" 0 0 10000 false).
Proof. vm_compute. reflexivity. Qed.

Lemma exampleProcess_ok fails : Forall (Forall hook_ok) (hookOps (exampleProcess fails)).
Proof.
  repeat (apply Forall_cons; split); try apply Forall_nil; try done;
    (split_and!; [done..|left; reflexivity]).
Qed.

Lemma start_spec_witness :
  ∃ sorted, in_order (hooksOf (exampleProcess false) ACTION_START) sorted ∧
    succeed None sorted [] ["log"; "http"; "run"; "run2"].
Proof.
  destruct (start_spec (exampleProcess false) [] (exampleProcess_ok false)) as (l & Hl & Hs).
  exists l. split; [exact Hl|]. exact (proj1 Hs).
Defined.

Abbreviation ex_step := (step exampleParse shutdownSignals reloadSignals).

(** A run that has entered the stop hooks. *)
Lemma example_entered (p : @Process (list string) unit unit) w n :
  done_ p = false →
  rtc ex_step (loop_entry p w n)
    (Run p w [] true Loop (StopHooks (parsedConfiger p) (reverse (hooksOf p ACTION_STOP))) Waiting n []).
Proof.
  intros Hd. eapply rtc_l; [right; apply (env_signal _ _ SIGTERM); [done|cbn; lia]|].
  eapply rtc_l; [left; left; by apply main_shutdown|].
  apply rtc_once. left; right; left. by apply stop_entry.
Qed.

(** A stop hook fails: the loop waits for a signal that may never come. *)
Definition failing : @Process (list string) unit unit :=
  set_hookOps (exampleProcess true) [[]; []; [logHook "stop-http" ACTION_STOP PRI_SYS_INIT PRI_M_HTTP true]].

Definition hung : @run (list string) unit unit :=
  let h := logHook "stop-http" ACTION_STOP PRI_SYS_INIT PRI_M_HTTP true in
  let e := hookError h (Errorf "failed" []) in
  Run (set_err failing (Some e)) ["stop-http"] [] true Loop (StopDone (Some e))
    Waiting 1 [(h, Some (Errorf "failed" []))].

Lemma hung_reachable : rtc ex_step (loop_entry failing [] 1) hung.
Proof.
  etrans; [by apply (example_entered failing [] 1)|]. apply rtc_once. left; right; left.
  apply (stop_hook_err failing [] [] true Loop None
           (logHook "stop-http" ACTION_STOP PRI_SYS_INIT PRI_M_HTTP true) _ Waiting 1 []); done.
Qed.

Lemma hung_quiescent r' : ¬ internal exampleParse shutdownSignals reloadSignals hung r'.
Proof. intros [Hm|[Hs|Hw]]; [inversion Hm|inversion Hs|inversion Hw]; done. Qed.

(** A stop hook blocks. *)
Definition waiting : @Process (list string) unit unit :=
  set_hookOps (exampleProcess true) [[]; []; [waitHook "stop-audit" ACTION_STOP PRI_SYS_INIT PRI_M_AUDIT]].

Definition blocked : @run (list string) unit unit :=
  Run waiting [] [] true Loop (StopHooks None (reverse (hooksOf waiting ACTION_STOP))) Waiting 1 [].

Lemma blocked_quiescent r' : ¬ internal exampleParse shutdownSignals reloadSignals blocked r'.
Proof. intros [Hm|[Hs|Hw]]; [inversion Hm|inversion Hs|inversion Hw]; done. Qed.

Lemma shutdown_completes_witness :
  (r_main hung = Loop ∧ r_sigs hung = []) ∧
  (r_main blocked = Loop ∧ r_sigs blocked = []).
Proof.
  split.
  - destruct (shutdown_completes exampleParse shutdownSignals reloadSignals failing [] 1
                hung eq_refl hung_reachable eq_refl hung_quiescent)
      as [[c Hc]|[[e He]|[(pc & h & rest & Hm & _)|(Hm & Hs & _)]]];
      [discriminate Hc|discriminate He|discriminate Hm|].
    split; [exact Hm|exact Hs].
  - destruct (shutdown_completes exampleParse shutdownSignals reloadSignals waiting [] 1
                blocked eq_refl (example_entered waiting [] 1 eq_refl) eq_refl blocked_quiescent)
      as [[c Hc]|[[e He]|[(pc & h & rest & Hm & _)|(Hm & Hs & _)]]];
      [discriminate Hc|discriminate He|discriminate Hm|].
    split; [exact Hm|exact Hs].
Defined.

Lemma stop_hooks_once_witness :
  (r_ran hung).*1 `prefix_of` reverse (hooksOf failing ACTION_STOP).
Proof.
  refine (proj1 (stop_hooks_once exampleParse shutdownSignals reloadSignals failing [] 1 hung _)).
  eapply rtc_subrel; [|exact hung_reachable]. intros x y Hxy. left. exact Hxy.
Defined.

(** The process after its start, whose stop hooks were registered out of order. *)
Definition startedProcess : @Process (list string) unit unit :=
  let p := set_parsedConfiger (exampleProcess false) (Some tt) in
  set_status (set_hookOps p (Hooks_Sort <$> hookOps p)) STATUS_RUNNING.

Definition started : @run (list string) unit unit :=
  loop_entry startedProcess ["log"; "http"; "run"; "run2"] 0.

Lemma started_Start : Start exampleParse (exampleProcess false) [] true None 0 = Completes (inr started).
Proof. vm_compute. reflexivity. Qed.

(** The stop hooks succeed and the wait group is at zero. *)
Definition drainedRun : @run (list string) unit unit :=
  let hs := reverse (hooksOf startedProcess ACTION_STOP) in
  Run (cancel (set_status startedProcess STATUS_EXIT))
    ["log"; "http"; "run"; "run2"; "stop-http"; "stop-db"] [] true Loop
    (StopDone None) Received 0 ((λ h, (h, None)) <$> hs).

Lemma drainedRun_reachable : rtc ex_step started drainedRun.
Proof.
  etrans; [by apply (example_entered startedProcess ["log"; "http"; "run"; "run2"] 0)|].
  eapply rtc_l; [left; right; left; by apply stop_hook|].
  eapply rtc_l; [left; right; left; by apply stop_hook|].
  eapply rtc_l; [left; right; left; by apply stop_hooks_end|].
  eapply rtc_l; [left; right; right; by apply waiter_zero|].
  apply rtc_once. left; right; left. by apply (stop_drained (set_status startedProcess STATUS_EXIT)).
Qed.

Lemma done_after_stop_hooks_witness :
  FnName <$> (r_ran drainedRun).*1 = ["stop-http"; "stop-db"] ∧
  ∃ sorted, in_order (hooksOf (exampleProcess false) ACTION_STOP) sorted ∧
    core <$> (r_ran drainedRun).*1 = reverse sorted ∧ all_nil (r_ran drainedRun) ∧
    r_shutdown drainedRun = true.
Proof.
  split; [vm_compute; reflexivity|].
  exact (done_after_stop_hooks exampleParse shutdownSignals reloadSignals (exampleProcess false) [] true
           None 0 started drainedRun (exampleProcess_ok false) eq_refl started_Start drainedRun_reachable
           eq_refl).
Defined.

Lemma internal_terminates_witness :
  (5 ≤ work (Run (exampleProcess false) [] [SIGTERM] false Loop NoStop NotWaiting 1 []))%nat.
Proof.
  eapply (proj2 (internal_terminates exampleParse shutdownSignals reloadSignals
             (Run (exampleProcess false) [] [SIGTERM] false Loop NoStop NotWaiting 1 []))).
  eapply nsteps_l; [left; by apply main_shutdown|].
  eapply nsteps_l; [right; left; by apply stop_entry|].
  eapply nsteps_l; [right; left; by apply stop_hook|].
  eapply nsteps_l; [right; left; by apply stop_hook|].
  eapply nsteps_l; [right; left; by apply stop_hooks_end|].
  apply nsteps_O.
Defined.

Lemma stop_refines_witness :
  ∃ wt ran, rtc stop_side (Run (exampleProcess false) [] [] true Loop StopEntry NotWaiting 0 [])
    (Run (cancel (set_status (exampleProcess false) STATUS_EXIT)) ["stop-db"; "stop-http"] [] true
       Loop (StopDone None) wt 0 ran).
Proof. exact (stop_refines [] Loop I (exampleProcess false) [] true 0 _ _ _ (λ _, eq_refl) eq_refl). Defined.

Lemma NewRootCmd_drops_error_witness :
  let var : flagset → string → option error := λ _ _, Some (Errorf "duplicate flag" []) in
  let p := AddConfig (exampleProcess false) "db" [] in
  ∃ p', NewRootCmd var p [] = Ret p'.
Proof.
  cbn zeta. eexists.
  exact (proj1 (NewRootCmd_drops_error (λ _ _, Some (Errorf "duplicate flag" []))
           (AddConfig (exampleProcess false) "db" []) [] _ _ eq_refl)).
Defined.
