(* ===== verification/CliFlags.v ===== *)
(** * Command-line flag values

    src/components/cli/flag: flags whose value is a map, a list of certificates, a
    tristate or a string, each with its parser [Set] and its printer [String].

    A flag that fills a map holds a pointer to it: [None] is the nil pointer,
    [Some None] a pointer to a nil map.  [Set] clears the map on its first call and
    adds to it on the next ones; the pairs before a malformed one stay in the map. *)

From S2P Require Import Prelude GoStrings FeatureGate.

Local Open Scope go_scope.

(** ** Maps of pairs *)

Record MapFlag (M : Type) := {
  fl_Map : option (option M);
  fl_initialized : bool;
}.
Arguments fl_Map {M} _.
Arguments fl_initialized {M} _.

Section Pairs.
Context {M : Type} `{Empty M}.
Context (c : ascii) (malformed : error) (put : string → string → M → M + error).

(** The loop over the parts of [strings.Split(value, ",")]. *)
Fixpoint set_loop (parts : list string) (m : M) : option error * M :=
  match parts with
  | [] => (None, m)
  | s :: rest =>
      if s == "" then set_loop rest m
      else
        match SplitN s c 2 with
        | [k; v] =>
            match put (TrimSpace k) (TrimSpace v) m with
            | inl m' => set_loop rest m'
            | inr e => (Some e, m)
            end
        | _ => (Some malformed, m)
        end
  end.

(** The map [Set] starts from: cleared unless an earlier [Set] filled it. *)
Definition set_target (f : MapFlag M) : M :=
  match fl_Map f with
  | Some (Some m) => if fl_initialized f then m else ∅
  | _ => ∅
  end.

Definition flag_Set (nilTarget : error) (f : MapFlag M) (value : string) : option error * MapFlag M :=
  match fl_Map f with
  | None => (Some nilTarget, f)
  | Some _ =>
      let '(e, m) := set_loop (Split value ",") (set_target f) in
      (e, {| fl_Map := Some (Some m); fl_initialized := true |})
  end.

End Pairs.

(** Ranging over a nil map does nothing. *)
Definition flag_map {M} `{Empty M} (f : MapFlag M) : M :=
  match fl_Map f with Some (Some m) => m | _ => ∅ end.

Definition flag_Empty {V} (f : MapFlag (gmap string V)) : bool := bool_decide (flag_map f = ∅).

(** *** map_string_string.go *)

Definition put_string (k v : string) (m : gmap string string) : gmap string string + error :=
  inl (<[k := v]> m).

Definition pair_string (sep : string) (kv : string * string) : string := kv.1 +:+ sep +:+ kv.2.

Definition map_String {V} (render : string * V → string) (m : gmap string V) : string :=
  Join (merge_sort String.le (render <$> map_to_list m)) ",".

Record MapStringString := { ms_flag : MapFlag (gmap string string); ms_NoSplit : bool }.

Definition NewMapStringString (m : option (option (gmap string string))) : MapStringString :=
  {| ms_flag := {| fl_Map := m; fl_initialized := false |}; ms_NoSplit := false |}.
Definition NewMapStringStringNoSplit (m : option (option (gmap string string))) : MapStringString :=
  {| ms_flag := {| fl_Map := m; fl_initialized := false |}; ms_NoSplit := true |}.

Definition MapStringString_String (m : MapStringString) : string :=
  match fl_Map (ms_flag m) with
  | None => ""
  | Some _ => map_String (pair_string "=") (flag_map (ms_flag m))
  end.

Definition MapStringString_malformed : error := Errorf "malformed pair, expect string=string" [].
Definition noTarget : error := Errorf "no target (nil pointer to map[string]string)" [].

Definition MapStringString_Set (m : MapStringString) (value : string) : option error * MapStringString :=
  match fl_Map (ms_flag m) with
  | None => (Some noTarget, m)
  | Some _ =>
      if ms_NoSplit m then
        let m0 := set_target (ms_flag m) in
        match SplitN value "=" 2 with
        | [k; v] =>
            (None, {| ms_flag := {| fl_Map := Some (Some (<[TrimSpace k := TrimSpace v]> m0));
                                    fl_initialized := true |};
                      ms_NoSplit := ms_NoSplit m |})
        | _ =>
            (Some MapStringString_malformed,
             {| ms_flag := {| fl_Map := Some (Some m0); fl_initialized := true |};
                ms_NoSplit := ms_NoSplit m |})
        end
      else
        let '(e, f) := flag_Set "=" MapStringString_malformed put_string noTarget (ms_flag m) value in
        (e, {| ms_flag := f; ms_NoSplit := ms_NoSplit m |})
  end.

(** *** langle_separated_map_string_string.go

    Its [String] dereferences the pointer without a test. *)

Definition Langle_String (m : MapFlag (gmap string string)) : outcome string :=
  match fl_Map m with
  | None => Panic "nil pointer dereference"
  | Some _ => Ret (map_String (pair_string "<") (flag_map m))
  end.

Definition Langle_Set (m : MapFlag (gmap string string)) (value : string)
    : option error * MapFlag (gmap string string) :=
  flag_Set "<" (Errorf "malformed pair, expect string<string" []) put_string noTarget m value.

(** *** map_string_bool.go *)

Definition fmt_bool (b : bool) : string := if b then "true" else "false".

Definition put_bool (k v : string) (m : gmap string bool) : gmap string bool + error :=
  match ParseBool v with
  | Some b => inl (<[k := b]> m)
  | None => inr (ErrorWrap "invalid value of %s: %s, err: %v" [k; v]
                   (Errorf "strconv.ParseBool: parsing %q: invalid syntax" [v]))
  end.

Definition MapStringBool_String (m : MapFlag (gmap string bool)) : string :=
  match fl_Map m with
  | None => ""
  | Some _ => map_String (λ kv, pair_string "=" (kv.1, fmt_bool kv.2)) (flag_map m)
  end.

Definition MapStringBool_Set (m : MapFlag (gmap string bool)) (value : string)
    : option error * MapFlag (gmap string bool) :=
  flag_Set "=" (Errorf "malformed pair, expect string=bool" []) put_bool
    (Errorf "no target (nil pointer to map[string]bool)" []) m value.

(** *** colon_separated_multimap_string_string.go *)

Definition multimap_add (m : gmap string (list string)) (kv : string * string)
    : gmap string (list string) :=
  <[kv.1 := default [] (m !! kv.1) ++ [kv.2]]> m.

Definition put_multi (k v : string) (m : gmap string (list string))
    : gmap string (list string) + error := inl (multimap_add m (k, v)).

Definition Colon_Set (m : MapFlag (gmap string (list string))) (value : string)
    : option error * MapFlag (gmap string (list string)) :=
  flag_Set ":" (Errorf "malformed pair, expect string:string" []) put_multi
    (Errorf "no target (nil pointer to map[string][]string)" []) m value.

(** The entries of a multimap, visited in the order [visit] of its keys. *)
Definition multimap_kvs (visit : list (string * list string)) : list (string * string) :=
  kvs ← visit; pair kvs.1 <$> kvs.2.

Definition key_less (x y : string * string) : bool := bool_decide (¬ String.le y.1 x.1).

Definition Colon_String (visit : list (string * list string)) : string :=
  Join (pair_string ":" <$> SliceStable key_less (multimap_kvs visit)) ",".

(** *** configuration_map.go: a part without [=] is a key with an empty value. *)

Fixpoint ConfigurationMap_loop (parts : list string) (m : gmap string string) : gmap string string :=
  match parts with
  | [] => m
  | s :: rest =>
      if s == "" then ConfigurationMap_loop rest m
      else
        ConfigurationMap_loop rest
          (match SplitN s "=" 2 with
           | [k; v] => <[TrimSpace k := TrimSpace v]> m
           | k :: _ => <[TrimSpace k := ""]> m
           | [] => m
           end)
  end.

Definition ConfigurationMap_Set (m : gmap string string) (value : string) : gmap string string :=
  ConfigurationMap_loop (Split value ",") m.

Definition ConfigurationMap_String (m : gmap string string) : string := map_String (pair_string "=") m.

(** ** Certificates (namedcertkey_flag.go) *)

Record NamedCertKey := { Names : list string; CertFile : string; KeyFile : string }.

#[global] Instance NamedCertKey_eq_dec : EqDecision NamedCertKey.
Proof. solve_decision. Defined.

Definition NamedCertKey_String (nkc : NamedCertKey) : string :=
  let s := CertFile nkc +:+ "," +:+ KeyFile nkc in
  if 0 <? length (Names nkc) then s +:+ ":" +:+ Join (Names nkc) "," else s.

(** The second half of [Set], after the names were assigned. *)
Definition set_files (nkc : NamedCertKey) (names : list string) (keycert : string)
    : option error * NamedCertKey :=
  match Split keycert "," with
  | [cert; key] =>
      (None, {| Names := names; CertFile := TrimSpace cert; KeyFile := TrimSpace key |})
  | _ =>
      (Some (Errorf "expected comma separated certificate and key file paths" []),
       {| Names := names; CertFile := CertFile nkc; KeyFile := KeyFile nkc |})
  end.

Definition NamedCertKey_Set (nkc : NamedCertKey) (value : string) : option error * NamedCertKey :=
  match SplitN value ":" 2 with
  | [kc; ns] =>
      let names := TrimSpace ns in
      if names == "" then (Some (Errorf "empty names list is not allowed" []), nkc)
      else set_files nkc (TrimSpace <$> Split names ",") (TrimSpace kc)
  | kc :: _ => set_files nkc [] (TrimSpace kc)
  | [] => set_files nkc [] ""
  end.

Record NamedCertKeyArray := { nka_value : option (list NamedCertKey); nka_changed : bool }.

(** [*a.value] with a nil pointer panics. *)
Definition NamedCertKeyArray_Set (a : NamedCertKeyArray) (val : string)
    : outcome (option error * NamedCertKeyArray) :=
  match NamedCertKey_Set {| Names := []; CertFile := ""; KeyFile := "" |} val with
  | (Some e, _) => Ret (Some e, a)
  | (None, nkc) =>
      match nka_value a with
      | None => Panic "nil pointer dereference"
      | Some l =>
          Ret (None, if nka_changed a then {| nka_value := Some (l ++ [nkc]); nka_changed := true |}
                     else {| nka_value := Some [nkc]; nka_changed := true |})
      end
  end.

Definition NamedCertKeyArray_SetDefault (a : NamedCertKeyArray) (val : string)
    : outcome (option error * NamedCertKeyArray) :=
  r ← NamedCertKeyArray_Set a val;
  match r with
  | (Some e, a) => Ret (Some e, a)
  | (None, a) => Ret (None, {| nka_value := nka_value a; nka_changed := false |})
  end.

Definition NamedCertKeyArray_String (a : NamedCertKeyArray) : string :=
  match nka_value a with
  | None => ""
  | Some l => "[" +:+ Join (NamedCertKey_String <$> l) ";" +:+ "]"
  end.

Definition Certs (a : NamedCertKeyArray) : list NamedCertKey := default [] (nka_value a).

Definition IsZero (a : NamedCertKeyArray) : bool :=
  match nka_value a with None | Some [] => true | _ => false end.

(** [MarshalJSON]: the JSON null, or the JSON string of [String]; [UnmarshalJSON]:
    null changes nothing, a string is given to [SetDefault]. *)
Inductive json := JNull | JString (s : string).

Definition NamedCertKeyArray_MarshalJSON (a : NamedCertKeyArray) : json :=
  if IsZero a then JNull else JString (NamedCertKeyArray_String a).

Definition NamedCertKeyArray_UnmarshalJSON (a : NamedCertKeyArray) (j : json)
    : outcome (option error * NamedCertKeyArray) :=
  match j with
  | JNull => Ret (None, a)
  | JString s => NamedCertKeyArray_SetDefault a s
  end.

(** ** Tristate, strings and slices *)

Inductive Tristate := Unset | TriTrue | TriFalse.
#[global] Instance Tristate_eq_dec : EqDecision Tristate.
Proof. solve_decision. Defined.

Definition boolFromTri (t : Tristate) : bool := t == TriTrue.
Definition triFromBool (b : bool) : Tristate := if b then TriTrue else TriFalse.
Definition Tristate_Default (f : Tristate) (value : bool) : Tristate := triFromBool value.
Definition Tristate_String (f : Tristate) : string := fmt_bool (boolFromTri f).
Definition Tristate_Value (f : Tristate) : bool := boolFromTri f.
Definition Tristate_Provided (f : Tristate) : bool := f != Unset.
Definition Tristate_Set (f : Tristate) (value : string) : option error * Tristate :=
  match ParseBool value with
  | None => (Some (Errorf "strconv.ParseBool: parsing %q: invalid syntax" [value]), f)
  | Some b => (None, triFromBool b)
  end.

Record StringFlag := { sf_provided : bool; sf_value : string }.

Definition NewStringFlag (defaultVal : string) : StringFlag :=
  {| sf_provided := false; sf_value := defaultVal |}.
Definition StringFlag_Default (f : StringFlag) (value : string) : StringFlag :=
  {| sf_provided := sf_provided f; sf_value := value |}.
Definition StringFlag_Set (f : StringFlag) (value : string) : StringFlag :=
  {| sf_provided := true; sf_value := value |}.

Record StringSlice := { ss_value : option (list string); ss_changed : bool }.

Definition NewStringSlice (s : option (list string)) : StringSlice :=
  {| ss_value := s; ss_changed := false |}.
Definition StringSlice_String (s : StringSlice) : string :=
  match ss_value s with None => "" | Some l => Join l " " end.
Definition StringSlice_Set (s : StringSlice) (val : string) : option error * StringSlice :=
  match ss_value s with
  | None => (Some (Errorf "no target (nil pointer to []string)" []), s)
  | Some l =>
      (None, {| ss_value := Some ((if ss_changed s then l else []) ++ [val]); ss_changed := true |})
  end.

(** ** Ciphers and TLS versions (ciphersuites_flag.go)

    crypto/tls gives the tables of cipher suites: they are parameters. *)

Section Ciphers.
Context (ciphers insecureCiphers : gmap string Z).

Definition allCiphers : gmap string Z := insecureCiphers ∪ ciphers.

Definition TLSCipherPossibleValues `{StringSets sset} : list string :=
  sets_List (foldl (λ s key, sets_Insert s [key]) (sets_NewString []) (map_to_list allCiphers).*1).

Definition cipher_error (cipher : string) : error :=
  Errorf "Cipher suite %s not supported or doesn't exist" [cipher].

Fixpoint cipher_loop (names : list string) (acc : list Z) : list Z + error :=
  match names with
  | [] => inl acc
  | cipher :: rest =>
      match allCiphers !! cipher with
      | None => inr (cipher_error cipher)
      | Some intValue => cipher_loop rest (acc ++ [intValue])
      end
  end.

Definition TLSCipherSuites (cipherNames : list string) : list Z + error :=
  if length cipherNames =? 0 then inl [] else cipher_loop cipherNames [].
End Ciphers.

(** tls.VersionTLS10 .. tls.VersionTLS13. *)
Definition versions : gmap string Z :=
  {[ "VersionTLS10" := 0x0301%Z; "VersionTLS11" := 0x0302%Z;
     "VersionTLS12" := 0x0303%Z; "VersionTLS13" := 0x0304%Z ]}.

Definition DefaultTLSVersion : Z := 0x0303.

Definition TLSVersion (versionName : string) : Z + error :=
  if versionName == "" then inl DefaultTLSVersion
  else match versions !! versionName with
       | Some version => inl version
       | None => inr (Errorf "unknown tls version %q" [versionName])
       end.

(** ** Names of flags and flag sets (flags.go, sectioned.go) *)

(** [strings.Replace(name, "_", "-", -1)] *)
Fixpoint replace_underscores (s : string) : string :=
  match s with
  | EmptyString => EmptyString
  | String a s' => String (if a == "_"%char then "-"%char else a) (replace_underscores s')
  end.

Definition WordSepNormalizeFunc (name : string) : string :=
  if ContainsByte name "_" then replace_underscores name else name.

(** A flag set is the list of its flags. *)
Record NamedFlagSets := { nfs_Order : list string; nfs_FlagSets : gmap string (list string) }.

Definition FlagSet (nfs : NamedFlagSets) (name : string) : NamedFlagSets :=
  match nfs_FlagSets nfs !! name with
  | Some _ => nfs
  | None => {| nfs_Order := nfs_Order nfs ++ [name];
               nfs_FlagSets := <[name := []]> (nfs_FlagSets nfs) |}
  end.

(** ** Printing and parsing pairs *)

(** A string [TrimSpace] leaves alone and that does not contain the list separator. *)
Definition plain (s : string) : Prop := TrimSpace s = s ∧ ContainsByte s "," = false.

(** A pair that prints to a string [Set] reads back: the key does not contain the
    separator; the value may. *)
Definition good_pair (c : ascii) (kv : string * string) : Prop :=
  plain kv.1 ∧ plain kv.2 ∧ ContainsByte kv.1 c = false.

Section PairsProofs.
Context {M : Type} `{Empty M}.
Context (c : ascii) (malformed : error) (put : string → string → M → M + error).

(** Parsing what was printed: each pair is put, in the order printed. *)
Lemma set_loop_render (put' : M → string * string → M) l m :
  Forall (good_pair c) l →
  (∀ kv m, kv ∈ l → put kv.1 kv.2 m = inl (put' m kv)) →
  set_loop c malformed put (pair_string (String c "") <$> l) m = (None, foldl put' m l).
Proof.
  intros Hl. revert m. induction Hl as [|[k v] l ([Hk Hk1] & [Hv Hv1] & Hc) Hl IH]; intros m Hput; [done|].
  cbn [fmap list_fmap set_loop fst snd] in *.
  change (pair_string (String c "") (k, v)) with (k +:+ String c v).
  rewrite bool_decide_false by (destruct k; discriminate).
  rewrite SplitN_2_sep, Hk, Hv, (Hput (k, v)) by (done || left). cbn [foldl].
  apply IH. intros kv m' Hin. apply Hput. by right.
Qed.

(** The pieces of the printed list. *)
Lemma Split_rendered l m :
  Forall (good_pair c) l → c ≠ ","%char →
  set_loop c malformed put (Split (Join (pair_string (String c "") <$> l) ",") ",") m =
  set_loop c malformed put (pair_string (String c "") <$> l) m.
Proof.
  intros Hl Hc. destruct l as [|kv l]; [done|]. rewrite Split_Join; [done..|].
  apply Forall_fmap. eapply Forall_impl; [exact Hl|]. intros [k v] ([_ Hk] & [_ Hv] & _).
  cbn in *. unfold pair_string. cbn. rewrite !ContainsByte_app, Hk, Hv. cbn.
  by rewrite bool_decide_false.
Qed.

(** Without errors from [put], [Set] fails exactly on a non-empty part without the
    separator. *)
Lemma set_loop_error parts m :
  (∀ k v m, ∃ m', put k v m = inl m') →
  is_Some (set_loop c malformed put parts m).1 ↔
  ∃ s, s ∈ parts ∧ s ≠ "" ∧ ContainsByte s c = false.
Proof.
  intros Hput. revert m. induction parts as [|s parts IH]; intros m; cbn [set_loop].
  { split; [by intros [? ?]|]. intros (s & Hs & _). inversion Hs. }
  case_bool_decide as Hs.
  { rewrite IH. setoid_rewrite elem_of_cons. naive_solver. }
  destruct (SplitN_2_cases s c) as [[Hn ->]|(k & v & Es & Hk & ->)].
  { split; [|by eexists]. intros _. exists s. split_and!; [by left|done..]. }
  destruct (Hput (TrimSpace k) (TrimSpace v) m) as [m' ->]. rewrite IH.
  assert (ContainsByte s c = true) as Hc by (apply ContainsByte_spec; eauto).
  setoid_rewrite elem_of_cons. split; [naive_solver|].
  intros (s' & [->|Hin] & ? & ?); [congruence|eauto].
Qed.

End PairsProofs.

Definition insert_pair {V} (m : gmap string V) (kv : string * V) : gmap string V :=
  <[kv.1 := kv.2]> m.

(** Inserting pairs with distinct keys, in any order. *)
Lemma foldl_insert_union {V} (l : list (string * V)) (m : gmap string V) :
  NoDup l.*1 → foldl insert_pair m l = list_to_map l ∪ m.
Proof.
  revert m. induction l as [|[k v] l IH]; intros m; cbn; [by rewrite (left_id_L ∅ (∪))|].
  intros [Hk Hl]%NoDup_cons. rewrite IH by done. unfold insert_pair. cbn.
  rewrite <- insert_union_r by (by apply not_elem_of_list_to_map_1).
  by rewrite insert_union_l.
Qed.

Lemma foldl_insert_map {V} (m m0 : gmap string V) l :
  l ≡ₚ map_to_list m → foldl insert_pair m0 l = m ∪ m0.
Proof.
  intros Hl. assert (NoDup l.*1) as Hnd by (rewrite Hl; apply NoDup_fst_map_to_list).
  rewrite foldl_insert_union by done. f_equal.
  rewrite (list_to_map_proper l (map_to_list m)) by done. apply list_to_map_to_list.
Qed.

(** A sorted list of rendered pairs is the rendering of a permutation of the pairs. *)
Lemma merge_sort_render {V} (render : string * V → string) (l : list (string * V)) :
  ∃ l', merge_sort String.le (render <$> l) = render <$> l' ∧ l' ≡ₚ l.
Proof.
  destruct (Permutation_map_inv render l (merge_sort_Permutation String.le (render <$> l)))
    as (l' & E & Hl'). by exists l'.
Qed.

Definition good_map (c : ascii) (m : gmap string string) : Prop :=
  map_Forall (λ k v, good_pair c (k, v)) m.

Lemma good_map_Forall c m l : good_map c m → l ≡ₚ map_to_list m → Forall (good_pair c) l.
Proof.
  intros Hm Hl. rewrite Hl. apply Forall_forall. intros [k v] Hin%elem_of_map_to_list. by apply Hm.
Qed.

(** Parsing a printed map of strings, whatever the separator. *)
Lemma flag_Set_String c malformed nilTarget (f : MapFlag (gmap string string)) m :
  c ≠ ","%char → good_map c m → is_Some (fl_Map f) →
  flag_Set c malformed put_string nilTarget f (map_String (pair_string (String c "")) m) =
  (None, {| fl_Map := Some (Some (m ∪ set_target f)); fl_initialized := true |}).
Proof.
  intros Hc Hm [cur Hcur]. unfold flag_Set. rewrite Hcur. unfold map_String.
  destruct (merge_sort_render (pair_string (String c "")) (map_to_list m)) as (l & -> & Hl).
  pose proof (good_map_Forall _ _ _ Hm Hl) as Hgood.
  rewrite Split_rendered, (set_loop_render _ _ _ insert_pair), (foldl_insert_map m) by done. done.
Qed.

(** What [Set] parses of what [String] printed: the printed map replaces the
    defaults on the first call and overrides them on the next ones. *)
Theorem MapStringString_roundtrip (f : MapStringString) m :
  good_map "=" m → is_Some (fl_Map (ms_flag f)) → ms_NoSplit f = false →
  MapStringString_Set f (MapStringString_String (NewMapStringString (Some (Some m)))) =
  (None, {| ms_flag := {| fl_Map := Some (Some (m ∪ set_target (ms_flag f))); fl_initialized := true |};
            ms_NoSplit := false |}).
Proof.
  intros Hm Hf Hns. unfold MapStringString_Set. destruct Hf as [cur Hcur]. rewrite Hcur, Hns.
  unfold MapStringString_String. cbn [NewMapStringString ms_flag fl_Map flag_map].
  by rewrite flag_Set_String by (done || by eexists).
Qed.

Theorem Langle_roundtrip (f : MapFlag (gmap string string)) m s :
  good_map "<" m → is_Some (fl_Map f) →
  Langle_String {| fl_Map := Some (Some m); fl_initialized := true |} = Ret s →
  Langle_Set f s = (None, {| fl_Map := Some (Some (m ∪ set_target f)); fl_initialized := true |}).
Proof. intros Hm Hf Hs. cbn in Hs. simplify_eq. by apply flag_Set_String. Qed.

Theorem MapStringString_Set_error (f : MapStringString) value :
  is_Some (fl_Map (ms_flag f)) → ms_NoSplit f = false →
  is_Some (MapStringString_Set f value).1 ↔
  ∃ s, s ∈ Split value "," ∧ s ≠ "" ∧ ContainsByte s "=" = false.
Proof.
  intros [cur Hcur] Hns. unfold MapStringString_Set, flag_Set. rewrite Hcur, Hns.
  rewrite <- (set_loop_error "=" MapStringString_malformed put_string _ (set_target (ms_flag f)))
    by (intros; by eexists).
  by destruct (set_loop _ _ _ _ _).
Qed.

(** Maps of booleans: only the keys are constrained. *)
Theorem MapStringBool_roundtrip (f : MapFlag (gmap string bool)) m :
  map_Forall (λ k _, plain k ∧ ContainsByte k "=" = false) m → is_Some (fl_Map f) →
  MapStringBool_Set f (MapStringBool_String {| fl_Map := Some (Some m); fl_initialized := true |}) =
  (None, {| fl_Map := Some (Some (m ∪ set_target f)); fl_initialized := true |}).
Proof.
  intros Hm [cur Hcur]. unfold MapStringBool_Set, flag_Set. rewrite Hcur.
  unfold MapStringBool_String, map_String. cbn [fl_Map flag_map].
  set (render := λ kv : string * bool, _).
  destruct (merge_sort_render render (map_to_list m)) as (l & -> & Hl).
  set (str := λ kv : string * bool, (kv.1, fmt_bool kv.2)).
  assert (render <$> l = pair_string "=" <$> (str <$> l)) as -> by (by rewrite <- list_fmap_compose).
  assert (Forall (good_pair "=") (str <$> l)) as Hgood.
  { apply Forall_fmap, Forall_forall. intros [k b] Hin. rewrite Hl in Hin.
    apply elem_of_map_to_list, Hm in Hin as [Hk Hc]. split_and!; [done| |done]. by destruct b. }
  set (put' := λ (m : gmap string bool) (kv : string * string),
    match ParseBool kv.2 with Some b => <[kv.1 := b]> m | None => m end).
  rewrite Split_rendered, (set_loop_render _ _ _ put'); [|done| |done|done].
  - do 4 f_equal. rewrite <- (foldl_insert_map m _ l Hl). clear. generalize (set_target f).
    induction l as [|[k b] l IH]; intros m0; cbn; [done|]. rewrite IH. by destruct b.
  - intros kv m0 ([k b] & -> & _)%list_elem_of_fmap. by destruct b.
Qed.

(** *** Multimaps *)

Lemma multimap_lookup l m k :
  foldl multimap_add m l !! k =
  match (filter (λ kv, kv.1 = k) l).*2 with
  | [] => m !! k
  | vs => Some (default [] (m !! k) ++ vs)
  end.
Proof.
  revert m. induction l as [|[k' v] l IH]; intros m; [done|].
  cbn [foldl]. rewrite IH, filter_cons. unfold multimap_add. cbn [fst snd]. case_decide as Hk.
  - subst. rewrite lookup_insert_eq. cbn [fmap list_fmap snd].
    destruct ((filter _ l).*2) as [|v' vs]; cbn; [done|]. by rewrite <- (assoc (++)).
  - rewrite lookup_insert_ne by done. done.
Qed.

Lemma filter_pair_same (k : string) (vs : list string) :
  filter (λ kv, kv.1 = k) (pair k <$> vs) = pair k <$> vs.
Proof.
  induction vs as [|v vs IH]; [done|]. cbn [fmap list_fmap] in *. by rewrite filter_cons_True, IH.
Qed.

Lemma filter_pair_other (k k' : string) (vs : list string) :
  k' ≠ k → filter (λ kv, kv.1 = k) (pair k' <$> vs) = [].
Proof.
  intros Hk. induction vs as [|v vs IH]; [done|]. cbn [fmap list_fmap] in *.
  by rewrite filter_cons_False, IH.
Qed.

(** The entries of one key of a multimap, wherever it is visited. *)
Lemma multimap_kvs_filter visit (m : gmap string (list string)) k :
  visit ≡ₚ map_to_list m →
  (filter (λ kv, kv.1 = k) (multimap_kvs visit)).*2 = default [] (m !! k).
Proof.
  intros Hv. assert (NoDup visit.*1) as Hnd by (rewrite Hv; apply NoDup_fst_map_to_list).
  assert (list_to_map visit = m) as <-.
  { rewrite (list_to_map_proper visit (map_to_list m)) by done. apply list_to_map_to_list. }
  clear Hv. induction visit as [|[k' vs] visit IH]; [done|].
  cbn [multimap_kvs mbind list_bind list_to_map foldr fst snd uncurry fmap list_fmap] in *.
  fold (multimap_kvs visit). apply NoDup_cons in Hnd as [Hk' Hnd]. cbn in Hk'. rewrite filter_app, fmap_app, IH by done.
  destruct (decide (k' = k)) as [->|Hne].
  - rewrite filter_pair_same, lookup_insert_eq, not_elem_of_list_to_map_1 by done.
    cbn. rewrite app_nil_r, <- list_fmap_compose. apply list_fmap_id.
  - by rewrite filter_pair_other, lookup_insert_ne.
Qed.

Definition good_multimap (m : gmap string (list string)) : Prop :=
  map_Forall (λ k vs, vs ≠ [] ∧ Forall (λ v, good_pair ":" (k, v)) vs) m.

Lemma key_less_spec x y : key_less x y = true ↔ ¬ String.le y.1 x.1.
Proof. apply bool_decide_eq_true. Qed.

(** A multimap printed in any order of its keys reads back as it was: keys sorted,
    the values of a key in their order. *)
Theorem Colon_roundtrip (f : MapFlag (gmap string (list string))) visit m :
  good_multimap m → visit ≡ₚ map_to_list m → is_Some (fl_Map f) → fl_initialized f = false →
  Colon_Set f (Colon_String visit) =
  (None, {| fl_Map := Some (Some m); fl_initialized := true |}).
Proof.
  intros Hm Hv [cur Hcur] Hi. unfold Colon_Set, flag_Set, set_target. rewrite Hcur, Hi.
  assert (Forall (good_pair ":") (SliceStable key_less (multimap_kvs visit))) as Hgood.
  { rewrite SliceStable_perm. apply Forall_forall. intros kv Hin.
    apply list_elem_of_bind in Hin as ([k vs] & Hkv & Hin). rewrite Hv in Hin.
    apply elem_of_map_to_list, Hm in Hin as [_ Hvs]. apply list_elem_of_fmap in Hkv as (v & -> & Hin).
    rewrite Forall_forall in Hvs. by apply Hvs. }
  assert ((match cur with Some m => if false then m else ∅ | None => ∅ end) = (∅ : gmap _ _)) as ->
    by (by destruct cur).
  unfold Colon_String. rewrite Split_rendered, (set_loop_render _ _ _ multimap_add) by (done || by intros []).
  do 4 f_equal. apply map_eq. intros k. rewrite multimap_lookup.
  rewrite (SliceStable_stable _ fst String.le key_less_spec), (multimap_kvs_filter visit m) by done.
  rewrite lookup_empty. destruct (m !! k) as [vs|] eqn:Hk; cbn; [|done].
  apply Hm in Hk as [Hne _]. by destruct vs.
Qed.

(** ** Trimmed strings *)

Lemma slen_TrimLeft s p : slen (TrimLeft s p) ≤ slen s.
Proof. induction s as [|a s IH]; cbn; [done|]. destruct (p a); cbn; lia. Qed.

Lemma slen_TrimRight s p : slen (TrimRight s p) ≤ slen s.
Proof. destruct (TrimRight_spec s p) as (t & Ht & _). rewrite Ht at 2. rewrite slen_app. lia. Qed.

(** Neither end of the string is a space. *)
Definition trimmed (s : string) : Prop :=
  (∀ a t, s = String a t → Ascii.is_space a = false) ∧
  (∀ t a, s = t +:+ String a "" → Ascii.is_space a = false).

Lemma trimmed_iff s : TrimSpace s = s ↔ trimmed s.
Proof.
  unfold TrimSpace, Trim. split.
  - intros E. split.
    + intros a t ->. destruct (Ascii.is_space a) eqn:Ha; [|done].
      cbn [TrimLeft] in E. rewrite Ha in E. apply (f_equal slen) in E.
      pose proof (slen_TrimRight (TrimLeft t Ascii.is_space) Ascii.is_space) as H1.
      pose proof (slen_TrimLeft t Ascii.is_space) as H2. cbn in E. lia.
    + intros t a Es. destruct (TrimRight_spec (TrimLeft s Ascii.is_space) Ascii.is_space)
        as (_ & _ & Hlast). rewrite E in Hlast. by apply (Hlast t).
  - intros [Hfirst Hlast]. assert (TrimLeft s Ascii.is_space = s) as ->.
    { destruct s as [|a s]; [done|]. cbn. by rewrite (Hfirst a s). }
    by apply TrimRight_id.
Qed.

(** Two trimmed strings around a separator that is not a space. *)
Lemma trimmed_join s t c :
  trimmed s → trimmed t → Ascii.is_space c = false → trimmed (s +:+ String c t).
Proof.
  intros [Hs _] [_ Ht] Hc. split.
  - intros a u E. destruct s as [|b s]; [rewrite sapp_nil_l in E; by simplify_eq|].
    rewrite sapp_cons in E. simplify_eq. by apply (Hs a s).
  - intros u a E. destruct (decide (t = "")) as [->|Hne].
    { apply last_inj in E as [_ <-]. done. }
    destruct (stake_last t Hne) as [b Hb]. rewrite Hb in E.
    change (String c (?x +:+ ?y)) with (String c x +:+ y) in E. rewrite sapp_assoc in E.
    apply last_inj in E as [_ <-]. exact (Ht _ b Hb).
Qed.

Lemma trimmed_Join l c :
  Forall trimmed l → Ascii.is_space c = false → trimmed (Join l (String c "")).
Proof.
  intros Hl Hc. induction Hl as [|s l Hs Hl IH]; [by apply trimmed_iff|].
  destruct (decide (l = [])) as [->|Hne]; [done|]. rewrite Join_cons by done.
  change (String c "" +:+ ?x) with (String c x). by apply trimmed_join.
Qed.

(** ** Certificates *)

Definition good_file (s : string) : Prop := plain s ∧ ContainsByte s ":" = false.

(** The values [String] prints without loss. *)
Definition good_cert (n : NamedCertKey) : Prop :=
  good_file (CertFile n) ∧ good_file (KeyFile n) ∧ Forall plain (Names n) ∧ Names n ≠ [""].

Lemma set_files_good n0 names cert key :
  good_file cert → good_file key →
  set_files n0 names (TrimSpace (cert +:+ "," +:+ key)) =
  (None, {| Names := names; CertFile := cert; KeyFile := key |}).
Proof.
  intros [[Hc Hc1] _] [[Hk Hk1] _]. unfold set_files.
  change ("," +:+ key) with (String "," key).
  assert (TrimSpace (cert +:+ String "," key) = cert +:+ String "," key) as ->.
  { apply trimmed_iff, trimmed_join; [by apply trimmed_iff..|done]. }
  by rewrite Split_app, Split_no_sep, Hc, Hk.
Qed.

Lemma fmap_TrimSpace l : Forall plain l → TrimSpace <$> l = l.
Proof. induction 1 as [|s l [Hs _] Hl IH]; cbn; [done|]. by rewrite Hs, IH. Qed.

Lemma keycert_no_colon cert key :
  good_file cert → good_file key → ContainsByte (cert +:+ "," +:+ key) ":" = false.
Proof. intros [_ Hc] [_ Hk]. by rewrite !ContainsByte_app, Hc, Hk. Qed.

(** "certfile,keyfile:name,name": what [String] prints, [Set] reads, whatever the
    flag held before. *)
Theorem NamedCertKey_roundtrip n0 n :
  good_cert n → NamedCertKey_Set n0 (NamedCertKey_String n) = (None, n).
Proof.
  intros (Hc & Hk & Hn & Hne). destruct n as [names cert key]. cbn in *.
  unfold NamedCertKey_Set, NamedCertKey_String. cbn [Names CertFile KeyFile].
  pose proof (keycert_no_colon cert key Hc Hk) as Hnc.
  destruct names as [|n1 names].
  { cbn [length Nat.ltb Nat.leb]. rewrite SplitN_no_sep by done. by apply set_files_good. }
  set (l := n1 :: names) in *. assert ((0 <? length l) = true) as -> by done.
  change (":" +:+ Join l ",") with (String ":" (Join l ",")).
  rewrite SplitN_2_sep by done.
  assert (TrimSpace (Join l ",") = Join l ",") as ->.
  { apply trimmed_iff. apply (trimmed_Join l ","); [|done].
    eapply Forall_impl; [exact Hn|]. intros s [Hs _]. by apply trimmed_iff. }
  assert (Split (Join l ",") "," = l) as Hsplit.
  { apply Split_Join; [done|]. eapply Forall_impl; [exact Hn|]. by intros s [_ Hs]. }
  rewrite bool_decide_false by (intros E; rewrite E in Hsplit; apply Hne; by rewrite <- Hsplit).
  rewrite Hsplit, fmap_TrimSpace by done. by apply set_files_good.
Qed.

(** *** The JSON form of an array *)

Lemma plain_cons a s : Ascii.is_space a = false → a ≠ ","%char → plain s → plain (String a s).
Proof.
  intros Ha Hc [Hs Hs1]. split.
  - apply trimmed_iff. apply (trimmed_join "" s a); [by apply trimmed_iff..|done].
  - cbn. by rewrite bool_decide_false.
Qed.

Lemma plain_snoc a s : Ascii.is_space a = false → a ≠ ","%char → plain s → plain (s +:+ String a "").
Proof.
  intros Ha Hc [Hs Hs1]. split.
  - apply trimmed_iff, trimmed_join; [by apply trimmed_iff..|done].
  - rewrite ContainsByte_app, Hs1. cbn. by rewrite bool_decide_false.
Qed.

Lemma Join_snoc l x sep t : Join (l ++ [x]) sep +:+ t = Join (l ++ [x +:+ t]) sep.
Proof.
  induction l as [|y l IH]; [done|]. cbn [app].
  rewrite !Join_cons by (by destruct l). by rewrite <- !sapp_assoc, IH.
Qed.

(** The certificate whose string is the bracketed string of [n]. *)
Lemma bracketed_cert n :
  good_cert n →
  ∃ n', good_cert n' ∧ CertFile n' = "[" +:+ CertFile n ∧
        "[" +:+ NamedCertKey_String n +:+ "]" = NamedCertKey_String n'.
Proof.
  intros (Hc & Hk & Hn & Hne). destruct n as [names cert key]. cbn in *.
  assert (good_file ("[" +:+ cert)) as Hc'.
  { destruct Hc as [Hc1 Hc2]. split; [by apply plain_cons|]. exact Hc2. }
  destruct names as [|n1 names] using rev_ind.
  - exists {| Names := []; CertFile := "[" +:+ cert; KeyFile := key +:+ "]" |}.
    split_and!; [|done|].
    + split_and!; [done| |constructor|done]. destruct Hk as [Hk1 Hk2].
      split; [by apply plain_snoc|]. cbn [KeyFile]. by rewrite ContainsByte_app, Hk2.
    + unfold NamedCertKey_String. cbn [Names CertFile KeyFile length Nat.ltb Nat.leb].
      by rewrite !sapp_assoc.
  - exists {| Names := names ++ [n1 +:+ "]"]; CertFile := "[" +:+ cert; KeyFile := key |}.
    apply Forall_app in Hn as [Hn Hn1]. rewrite Forall_singleton in Hn1.
    split_and!; [|done|].
    + split_and!; [done..| |].
      * apply Forall_app. split; [done|]. apply Forall_singleton. by apply plain_snoc.
      * intros E. apply (f_equal last) in E. cbn [Names] in E. rewrite last_snoc in E.
        apply (f_equal (fmap slen)) in E. cbn in E. rewrite slen_app in E. cbn in E.
        injection E. lia.
    + unfold NamedCertKey_String. cbn [Names CertFile KeyFile]. rewrite !length_app. cbn [length].
      assert (∀ n, (0 <? n + 1) = true) as -> by (intros; apply Nat.ltb_lt; lia).
      rewrite <- Join_snoc. by rewrite !sapp_assoc.
Qed.

(** The JSON form of the array is not what its parser reads: the brackets become
    part of the file names, so no configured certificate survives. *)
Theorem NamedCertKeyArray_json_lossy (l : list NamedCertKey) a0 a :
  l ≠ [] → Forall good_cert l → nka_value a0 = Some [] →
  NamedCertKeyArray_UnmarshalJSON a0
    (NamedCertKeyArray_MarshalJSON {| nka_value := Some l; nka_changed := true |}) = Ret (None, a) →
  Certs a ≠ l.
Proof.
  intros Hne Hl H0 Hj Ha. destruct l as [|n l]; [done|]. clear Hne.
  change (NamedCertKeyArray_MarshalJSON _)
    with (JString ("[" +:+ Join (NamedCertKey_String <$> n :: l) ";" +:+ "]")) in Hj.
  cbn [NamedCertKeyArray_UnmarshalJSON] in Hj.
  unfold NamedCertKeyArray_SetDefault, NamedCertKeyArray_Set in Hj. rewrite H0 in Hj.
  destruct (NamedCertKey_Set _ _) as [[e|] n'] eqn:Hset; [done|]. cbn in Hj.
  assert (Certs a = [n']) as Ea by (destruct (nka_changed a0); by simplify_eq/=).
  rewrite Ha in Ea. simplify_eq. rewrite Forall_singleton in Hl.
  destruct (bracketed_cert n' Hl) as (m & Hm & Hcert & Es).
  cbn [fmap list_fmap Join] in Hset. rewrite Es, (NamedCertKey_roundtrip _ m Hm) in Hset.
  simplify_eq. apply (f_equal slen) in Hcert. rewrite slen_app in Hcert. cbn in Hcert. lia.
Qed.

(** ** The other flags *)

(** Ciphers: the identifiers in order, or an error about the first unknown name. *)
Theorem TLSCipherSuites_spec ciphers insecure names :
  match TLSCipherSuites ciphers insecure names with
  | inl ids => Forall2 (λ n id, allCiphers ciphers insecure !! n = Some id) names ids
  | inr e => ∃ l1 n l2, names = l1 ++ n :: l2 ∧ e = cipher_error n ∧
      allCiphers ciphers insecure !! n = None ∧
      Forall (λ n, is_Some (allCiphers ciphers insecure !! n)) l1
  end.
Proof.
  assert (∀ acc, match cipher_loop ciphers insecure names acc with
    | inl ids => ∃ ids', ids = acc ++ ids' ∧
        Forall2 (λ n id, allCiphers ciphers insecure !! n = Some id) names ids'
    | inr e => ∃ l1 n l2, names = l1 ++ n :: l2 ∧ e = cipher_error n ∧
        allCiphers ciphers insecure !! n = None ∧
        Forall (λ n, is_Some (allCiphers ciphers insecure !! n)) l1
    end) as Hloop.
  { induction names as [|n names IH]; intros acc; cbn; [exists []; by rewrite app_nil_r|].
    destruct (allCiphers ciphers insecure !! n) as [id|] eqn:Hn.
    2:{ exists [], n, names. by repeat split. }
    specialize (IH (acc ++ [id])). destruct (cipher_loop _ _ _ _) as [ids|e].
    - destruct IH as (ids' & -> & Hf). exists (id :: ids'). split; [by rewrite <- (assoc (++))|].
      by constructor.
    - destruct IH as (l1 & n' & l2 & -> & ? & ? & ?). exists (n :: l1), n', l2.
      split_and!; [done..|]. constructor; [by eexists|done]. }
  unfold TLSCipherSuites. destruct names as [|n names]; [constructor|].
  cbn [length Nat.eqb]. specialize (Hloop []).
  destruct (cipher_loop _ _ _ _) as [ids|e]; [|done]. by destruct Hloop as (ids' & -> & ?).
Qed.

(** A repeated slice flag holds the values given, the default only before the first. *)
Theorem StringSlice_accumulates (d : list string) vals :
  vals ≠ [] →
  foldl (λ s v, (StringSlice_Set s v).2) (NewStringSlice (Some d)) vals =
  {| ss_value := Some vals; ss_changed := true |}.
Proof.
  induction vals as [|v vals IH] using rev_ind; [done|]. intros _. rewrite foldl_app.
  destruct (decide (vals = [])) as [->|Hne]; [done|]. by rewrite IH.
Qed.

(** A tristate set from its printed value keeps its boolean and becomes provided. *)
Theorem Tristate_roundtrip f0 f :
  Tristate_Set f0 (Tristate_String f) = (None, triFromBool (Tristate_Value f)).
Proof. by destruct f. Qed.

Theorem WordSepNormalizeFunc_idem name :
  WordSepNormalizeFunc (WordSepNormalizeFunc name) = WordSepNormalizeFunc name ∧
  ContainsByte (WordSepNormalizeFunc name) "_" = false.
Proof.
  assert (∀ s, ContainsByte (replace_underscores s) "_" = false) as Hr.
  { induction s as [|a s IH]; cbn; [done|]. rewrite IH, orb_false_r.
    apply bool_decide_eq_false. by case_bool_decide. }
  assert (ContainsByte (WordSepNormalizeFunc name) "_" = false) as Hn.
  { unfold WordSepNormalizeFunc. destruct (ContainsByte name "_") eqn:E; [apply Hr|done]. }
  split; [|done]. unfold WordSepNormalizeFunc at 1. by rewrite Hn.
Qed.

(** The names of the flag sets are recorded once, in the order of first use. *)
Definition nfs_ok (nfs : NamedFlagSets) : Prop :=
  NoDup (nfs_Order nfs) ∧ ∀ name, name ∈ nfs_Order nfs ↔ is_Some (nfs_FlagSets nfs !! name).

Theorem FlagSet_ok nfs name :
  nfs_ok nfs → nfs_ok (FlagSet nfs name) ∧ is_Some (nfs_FlagSets (FlagSet nfs name) !! name) ∧
  nfs_Order nfs `prefix_of` nfs_Order (FlagSet nfs name).
Proof.
  intros [Hnd Hin]. unfold FlagSet. destruct (nfs_FlagSets nfs !! name) as [fs|] eqn:Hn.
  { split_and!; [done|by eexists|done]. }
  split_and!; cbn; [split; cbn|by rewrite lookup_insert_eq|by eexists].
  - apply NoDup_app. split_and!; [done| |apply NoDup_singleton].
    intros x Hx ->%list_elem_of_singleton. apply Hin in Hx. rewrite Hn in Hx. by destruct Hx.
  - intros x. rewrite elem_of_app, list_elem_of_singleton, Hin.
    destruct (decide (x = name)) as [->|Hne].
    + rewrite lookup_insert_eq. split; [by eexists|by right].
    + rewrite lookup_insert_ne by done. naive_solver.
Qed.

(** ** Examples *)

Definition exampleMap : gmap string string := {[ "a" := "x=1"; "b" := "y" ]}.

Lemma exampleMap_good : good_map "=" exampleMap.
Proof.
  apply map_Forall_insert_2; [|apply map_Forall_singleton]; (split_and!; split; vm_compute; reflexivity) || done.
Qed.

Lemma MapStringString_roundtrip_witness :
  MapStringString_Set (NewMapStringString (Some (Some {[ "default" := "z" ]}))) "a=x=1,b=y" =
  (None, {| ms_flag := {| fl_Map := Some (Some exampleMap); fl_initialized := true |};
            ms_NoSplit := false |}).
Proof.
  pose proof (MapStringString_roundtrip (NewMapStringString (Some (Some {[ "default" := "z" ]})))
                exampleMap exampleMap_good (mk_is_Some _ _ eq_refl) eq_refl) as H.
  change (set_target _) with (∅ : gmap string string) in H.
  rewrite (right_id_L ∅ (∪)) in H. exact H.
Defined.

Definition exampleMultimap : gmap string (list string) :=
  {[ "a" := ["hello"]; "b" := ["again"; "beautiful"] ]}.

Lemma Colon_roundtrip_witness :
  Colon_Set {| fl_Map := Some None; fl_initialized := false |} "a:hello,b:again,b:beautiful" =
  (None, {| fl_Map := Some (Some exampleMultimap); fl_initialized := true |}).
Proof.
  assert (good_multimap exampleMultimap) as Hgood.
  { apply map_Forall_insert_2; [|apply map_Forall_singleton];
      (split; [done|repeat constructor; done]). }
  refine (Colon_roundtrip {| fl_Map := Some None; fl_initialized := false |}
           [("b", ["again"; "beautiful"]); ("a", ["hello"])] exampleMultimap
           Hgood _ (mk_is_Some _ _ eq_refl) eq_refl).
  vm_compute. first [reflexivity | apply Permutation_swap].
Defined.

Definition exampleCert : NamedCertKey :=
  {| Names := ["*.foo.com"; "foo.com"]; CertFile := "foo.crt"; KeyFile := "foo.key" |}.

Lemma exampleCert_good : good_cert exampleCert.
Proof. split_and!; repeat constructor; done. Qed.

Lemma NamedCertKey_roundtrip_witness :
  NamedCertKey_Set exampleCert "foo.crt,foo.key:*.foo.com,foo.com" = (None, exampleCert).
Proof. exact (NamedCertKey_roundtrip exampleCert exampleCert exampleCert_good). Defined.

Lemma NamedCertKeyArray_json_lossy_witness :
  ∃ a, NamedCertKeyArray_UnmarshalJSON {| nka_value := Some []; nka_changed := false |}
         (JString "[foo.crt,foo.key:*.foo.com,foo.com]") = Ret (None, a) ∧ Certs a ≠ [exampleCert].
Proof.
  eexists. split; [reflexivity|].
  refine (NamedCertKeyArray_json_lossy [exampleCert] {| nka_value := Some []; nka_changed := false |}
            _ _ _ eq_refl eq_refl); [done|].
  apply Forall_singleton. exact exampleCert_good.
Defined.
