(* ===== verification/Bootstrap.v ===== *)
(** * Bootstrap tokens

    src/pkg/cluster-bootstrap (tokens, secrets and their validation, detached JWS)
    and src/plugin/authenticator/token/bootstrap, the token authenticator that
    accepts "id.secret" when the secret object of that id says so.

    The regular expressions of token/api/types.go are written out as the tests they
    denote.  time.Parse(RFC3339), the lister of secrets and go-jose's signer are
    parameters; a time is a number of nanoseconds. *)

From S2P Require Import Prelude GoStrings GoEncoding Authorizer Authn.

Local Open Scope go_scope.

(** ** Names and patterns (token/api/types.go) *)

Definition BootstrapTokenSecretPrefix : string := "bootstrap-token-".
Definition SecretTypeBootstrapToken : string := "bootstrap.kubernetes.io/token".
Definition BootstrapTokenIDKey : string := "token-id".
Definition BootstrapTokenSecretKey : string := "token-secret".
Definition BootstrapTokenExpirationKey : string := "expiration".
Definition BootstrapTokenExtraGroupsKey : string := "auth-extra-groups".
Definition BootstrapTokenUsageAuthentication : string := "usage-bootstrap-authentication".
Definition BootstrapUserPrefix : string := "system:bootstrap:".
Definition BootstrapDefaultGroup : string := "system:bootstrappers".
Definition BootstrapTokenIDBytes : nat := 6.
Definition BootstrapTokenSecretBytes : nat := 16.
Definition KnownTokenUsages : list string := ["signing"; "authentication"].

Fixpoint all_chars (p : ascii → bool) (s : string) : bool :=
  match s with EmptyString => true | String a s' => p a && all_chars p s' end.

(** [a-z0-9] and [a-z0-9:-] *)
Definition is_token_char (a : ascii) : bool :=
  let n := nat_of_ascii a in ((97 <=? n) && (n <=? 122)) || ((48 <=? n) && (n <=? 57)).
Definition is_group_char (a : ascii) : bool :=
  is_token_char a || (a == ":"%char) || (a == "-"%char).

(** [BootstrapTokenIDPattern] and the pattern of the secret part. *)
Definition matchTokenID (s : string) : bool := (slen s =? 6) && all_chars is_token_char s.
Definition matchTokenSecret (s : string) : bool := (slen s =? 16) && all_chars is_token_char s.

(** [BootstrapTokenPattern] with its two groups. *)
Definition matchToken (s : string) : option (string * string) :=
  let id := stake 6 s in
  match sdrop 6 s with
  | String c secret =>
      if (c == "."%char) && matchTokenID id && matchTokenSecret secret then Some (id, secret) else None
  | EmptyString => None
  end.

(** [BootstrapGroupPattern]: the prefix, at most 255 group characters, one token
    character. *)
Definition bootstrapGroupPrefix : string := "system:bootstrappers:".

Definition matchGroup (s : string) : bool :=
  HasPrefix s bootstrapGroupPrefix &&
  (let rest := TrimPrefix s bootstrapGroupPrefix in
   let body := stake (slen rest - 1) rest in
   let final := sdrop (slen rest - 1) rest in
   (1 <=? slen rest) && (slen body <=? 255) && all_chars is_group_char body &&
   all_chars is_token_char final).

(** ** Tokens (util/tokens, token/util) *)

Definition ParseToken (s : string) : (string * string) + error :=
  match matchToken s with
  | Some p => inl p
  | None => inr (Errorf "token [%q] was not of form [%q]" [s])
  end.

Definition TokenFromIDAndSecret (id secret : string) : string := id +:+ "." +:+ secret.
Definition IsValidBootstrapToken (token : string) : bool := bool_decide (is_Some (matchToken token)).
Definition IsValidBootstrapTokenID (tokenID : string) : bool := matchTokenID tokenID.
Definition BootstrapTokenSecretName (tokenID : string) : string :=
  BootstrapTokenSecretPrefix +:+ tokenID.

Definition ValidateBootstrapGroupName (name : string) : option error :=
  if matchGroup name then None
  else Some (Errorf "bootstrap group %q is invalid (must match %s)" [name]).

Definition ValidateUsages `{StringSets sset} (usages : list string) : option error :=
  let validUsages := sets_NewString KnownTokenUsages in
  let invalidUsages :=
    foldl (λ s usage, if negb (sets_Has validUsages usage) then sets_Insert s [usage] else s)
      (sets_NewString []) usages in
  if 0 <? length (sets_List invalidUsages)
  then Some (Errorf "invalid bootstrap token usage string: %s, valid usage options: %s"
               [Join (sets_List invalidUsages) ","; Join KnownTokenUsages ","])
  else None.

(** *** Random tokens *)

Definition validBootstrapTokenChars : string := "0123456789abcdefghijklmnopqrstuvwxyz".
Definition maxByteValue : nat := 252.

Fixpoint byte_at (s : string) (n : nat) : ascii :=
  match s, n with
  | String a _, 0 => a
  | String _ s', S n' => byte_at s' n'
  | EmptyString, _ => zero
  end.

Definition tokenChar (b : nat) : ascii :=
  byte_at validBootstrapTokenChars (b mod slen validBootstrapTokenChars).

(** [randBytes]: [stream] is what the random reader yields; its end is a read error. *)
Fixpoint randBytes (length : nat) (stream : list nat) {struct stream} : string + error :=
  match length with
  | 0 => inl ""
  | S n =>
      match stream with
      | [] => inr (Errorf "EOF" [])
      | b :: rest =>
          if b <? maxByteValue then
            match randBytes n rest with
            | inl s => inl (String (tokenChar b) s)
            | inr e => inr e
            end
          else randBytes length rest
      end
  end.

Definition GenerateBootstrapToken (stream1 stream2 : list nat) : string + error :=
  match randBytes BootstrapTokenIDBytes stream1 with
  | inr e => inr e
  | inl tokenID =>
      match randBytes BootstrapTokenSecretBytes stream2 with
      | inr e => inr e
      | inl tokenSecret => inl (TokenFromIDAndSecret tokenID tokenSecret)
      end
  end.

(** ** Secrets (util/secrets) *)

Record Secret := {
  sec_Namespace : string;
  sec_Name : string;
  sec_Deleted : bool;                         (* DeletionTimestamp != nil *)
  sec_Type : string;
  sec_Data : option (gmap string string);
}.

Definition GetData (secret : Secret) (key : string) : string :=
  match sec_Data secret with
  | None => ""
  | Some d => default "" (d !! key)
  end.

Definition ParseName (name : string) : option string :=
  if HasPrefix name BootstrapTokenSecretPrefix && matchTokenID (TrimPrefix name BootstrapTokenSecretPrefix)
  then Some (TrimPrefix name BootstrapTokenSecretPrefix) else None.

Section Bootstrap.
Context `{StringSets sset}.
Context (parseRFC3339 : string → option Z).

(** Time.Sub saturates at the ends of int64. *)
Definition Time_Sub (t u : Z) : Z := (Z.max (-2 ^ 63) (Z.min (2 ^ 63 - 1) (t - u)))%Z.

Definition GetExpiration (secret : Secret) (currentTime : Z) : Z * bool :=
  let expiration := GetData secret BootstrapTokenExpirationKey in
  if slen expiration =? 0 then (0%Z, false)
  else
    match parseRFC3339 expiration with
    | None => (0%Z, true)
    | Some expTime =>
        let timeRemaining := Time_Sub expTime currentTime in
        if (timeRemaining <=? 0)%Z then (0%Z, true) else (timeRemaining, false)
    end.

Definition HasExpired (secret : Secret) (currentTime : Z) : bool := (GetExpiration secret currentTime).2.

Fixpoint groups_loop (parts : list string) (groups : sset) : sset + error :=
  match parts with
  | [] => inl groups
  | group :: rest =>
      match ValidateBootstrapGroupName group with
      | Some e => inr e
      | None => groups_loop rest (sets_Insert groups [group])
      end
  end.

Definition GetGroups (secret : Secret) : list string + error :=
  let groups := sets_NewString [BootstrapDefaultGroup] in
  let extraGroupsString := GetData secret BootstrapTokenExtraGroupsKey in
  if extraGroupsString == "" then inl (sets_List groups)
  else
    match groups_loop (Split extraGroupsString ",") groups with
    | inl groups => inl (sets_List groups)
    | inr e => inr e
    end.

(** ** The authenticator *)

(** The lister, the test of its not-found error, and time.Now(). *)
Context (lister_Get : string → Secret + error) (IsNotFound : error → bool) (now : Z).

(** What [AuthenticateToken] decides: the user of an accepted token, nil, or an
    error. *)
Definition bootstrap_user (token : string) : option DefaultInfo + error :=
  match ParseToken token with
  | inr _ => inl None
  | inl (tokenID, tokenSecret) =>
      match lister_Get (BootstrapTokenSecretPrefix +:+ tokenID) with
      | inr err => if IsNotFound err then inl None else inr err
      | inl secret =>
          if sec_Deleted secret then inl None
          else if (sec_Type secret != SecretTypeBootstrapToken) || bool_decide (sec_Data secret = None)
          then inl None
          else if GetData secret BootstrapTokenSecretKey != tokenSecret then inl None
          else
            let id := GetData secret BootstrapTokenIDKey in
            if id != tokenID then inl None
            else if HasExpired secret now then inl None
            else if GetData secret BootstrapTokenUsageAuthentication != "true" then inl None
            else
              match GetGroups secret with
              | inr _ => inl None
              | inl groups =>
                  inl (Some {| u_Name := BootstrapUserPrefix +:+ id; u_UID := ""; u_Groups := groups;
                               u_Extra := ∅ |})
              end
      end
  end.

Definition bootstrap_AuthenticateToken {S} : Token S := λ ctx token,
  match bootstrap_user token with
  | inr e => mret (None, false, Some e)
  | inl None => mret (None, false, None)
  | inl (Some u) =>
      l ← new_response {| resp_Audiences := []; resp_User := Some u |};
      mret (Some l, true, None)
  end.

End Bootstrap.

(** ** Detached signatures (token/jws) *)

Definition stripContent (fullSig : string) : string + error :=
  match Split fullSig "." with
  | [p0; _; p2] => inl (p0 +:+ ".." +:+ p2)
  | _ => inr (Errorf "compact JWS format must have three parts" [])
  end.

Section JWS.
(** go-jose's HS256 signature of a content, in its compact form. *)
Context (sign : string → string → string → string + error).

Definition ComputeDetachedSignature (content tokenID tokenSecret : string) : string + error :=
  match sign content tokenID tokenSecret with
  | inr e => inr (ErrorWrap "can't HS256-sign the given token: %v" [] e)
  | inl fullSig => stripContent fullSig
  end.

Definition DetachedTokenIsValid (detachedToken content tokenID tokenSecret : string) : bool :=
  match ComputeDetachedSignature content tokenID tokenSecret with
  | inr _ => false
  | inl newToken => detachedToken == newToken
  end.
End JWS.

(** ** Tokens: parsing, printing, generating *)

Lemma stake_exact s t n : slen s = n → stake n (s +:+ t) = s.
Proof. intros <-. apply stake_app. Qed.
Lemma sdrop_exact s t n : slen s = n → sdrop n (s +:+ t) = t.
Proof. intros <-. apply sdrop_app. Qed.

Lemma matchToken_iff s id secret :
  matchToken s = Some (id, secret) ↔
  s = TokenFromIDAndSecret id secret ∧ matchTokenID id = true ∧ matchTokenSecret secret = true.
Proof.
  unfold matchToken, TokenFromIDAndSecret. split.
  - pose proof (stake_sdrop 6 s) as Hs. destruct (sdrop 6 s) as [|c sec] eqn:Hd; [done|].
    intros Hm. destruct (_ && _ && _) eqn:Hc; [|done]. simplify_eq. bool_crush. subst c.
    split_and!; [by rewrite <- Hs at 1|done..].
  - intros (-> & Hid & Hsec). assert (slen id = 6) as Hlen.
    { unfold matchTokenID in Hid. bool_crush. by apply Nat.eqb_eq. }
    rewrite stake_exact, sdrop_exact by done.
    change ("." +:+ secret) with (String "." secret). cbv beta iota.
    by rewrite bool_decide_true, Hid, Hsec.
Qed.

(** A token made of a valid id and secret parses back, and nothing else parses. *)
Theorem ParseToken_roundtrip s id secret :
  ParseToken s = inl (id, secret) ↔
  s = TokenFromIDAndSecret id secret ∧ matchTokenID id = true ∧ matchTokenSecret secret = true.
Proof.
  rewrite <- matchToken_iff. unfold ParseToken. destruct (matchToken s); naive_solver.
Qed.

Lemma tokenChar_valid b : is_token_char (tokenChar b) = true.
Proof.
  unfold tokenChar. change (slen validBootstrapTokenChars) with 36.
  assert (b mod 36 < 36) as Hb by (apply Nat.mod_upper_bound; lia). revert Hb.
  generalize (b mod 36). intros n Hn.
  do 36 (destruct n as [|n]; [reflexivity|]). lia.
Qed.

Lemma randBytes_valid n stream s :
  randBytes n stream = inl s → slen s = n ∧ all_chars is_token_char s = true.
Proof.
  revert n s. induction stream as [|b stream IH]; intros [|n] s Hs; cbn [randBytes] in Hs;
    simplify_eq; try done.
  destruct (b <? maxByteValue).
  - destruct (randBytes n stream) as [s'|] eqn:E; [|done]. simplify_eq.
    apply IH in E as [<- Hall]. cbn [slen all_chars]. by rewrite tokenChar_valid, Hall.
  - by apply IH in Hs.
Qed.

(** The loops end as soon as the reader has yielded enough usable bytes. *)
Theorem randBytes_terminates n stream :
  n ≤ length (filter (λ b, b < maxByteValue) stream) ↔ ∃ s, randBytes n stream = inl s.
Proof.
  revert n. induction stream as [|b stream IH]; intros [|n]; cbn [randBytes].
  - split; [by eexists|cbn; lia].
  - split; [cbn; lia|]. by intros [s Hs].
  - split; [by eexists|lia].
  - rewrite filter_cons. destruct (b <? maxByteValue) eqn:Hb.
    + rewrite decide_True by (by apply Nat.ltb_lt). cbn [length].
      specialize (IH n). destruct (randBytes n stream) as [s|e].
      * split; [by eexists|]. intros _. apply le_n_S, IH. by eexists.
      * split; [|by intros [? ?]]. intros Hle. apply le_S_n, IH in Hle as [? ?]. done.
    + rewrite decide_False by (by apply Nat.ltb_ge in Hb; lia). apply IH.
Qed.

(** Every character is drawn from the same number of byte values. *)
Theorem tokenChar_uniform c :
  is_token_char c = true →
  length (filter (λ b, b < maxByteValue ∧ tokenChar b = c) (seq 0 256)) = 7.
Proof.
  destruct c as [[] [] [] [] [] [] [] []]; intros Hc; try discriminate Hc; vm_compute; reflexivity.
Qed.

(** A generated token is valid and splits into its two random parts. *)
Theorem GenerateBootstrapToken_valid stream1 stream2 token :
  GenerateBootstrapToken stream1 stream2 = inl token →
  IsValidBootstrapToken token = true ∧
  ∃ id secret, ParseToken token = inl (id, secret) ∧
    randBytes BootstrapTokenIDBytes stream1 = inl id ∧
    randBytes BootstrapTokenSecretBytes stream2 = inl secret.
Proof.
  unfold GenerateBootstrapToken. destruct (randBytes _ stream1) as [id|] eqn:E1; [|done].
  destruct (randBytes _ stream2) as [secret|] eqn:E2; [|done]. intros [= <-].
  destruct (randBytes_valid _ _ _ E1) as [L1 V1]. destruct (randBytes_valid _ _ _ E2) as [L2 V2].
  assert (matchToken (TokenFromIDAndSecret id secret) = Some (id, secret)) as Hm.
  { apply matchToken_iff. unfold matchTokenID, matchTokenSecret. rewrite L1, L2, V1, V2. done. }
  split; [apply bool_decide_eq_true; by rewrite Hm|].
  exists id, secret. split_and!; [|done..]. unfold ParseToken. by rewrite Hm.
Qed.

(** The name of a token's secret gives back its id. *)
Theorem ParseName_roundtrip name id :
  ParseName name = Some id ↔ name = BootstrapTokenSecretName id ∧ matchTokenID id = true.
Proof.
  unfold ParseName, BootstrapTokenSecretName. split.
  - destruct (HasPrefix _ _) eqn:Hp; [|done]. apply HasPrefix_spec in Hp as [t ->].
    rewrite TrimPrefix_app. cbn [andb]. destruct (matchTokenID t) eqn:Ht; [|done]. by intros [= <-].
  - intros [-> Hid]. by rewrite HasPrefix_app, TrimPrefix_app, Hid.
Qed.

(** ** Groups and users *)

Section BootstrapProofs.
Context `{StringSetsLaws sset}.

Lemma matchGroup_prefix g : matchGroup g = true → HasPrefix g bootstrapGroupPrefix = true.
Proof. unfold matchGroup. intros Hg. by bool_crush. Qed.

Lemma groups_loop_spec parts (groups : sset) :
  match groups_loop parts groups with
  | inl r => Forall (λ g, matchGroup g = true) parts ∧
             ∀ x, sets_Has r x = sets_Has groups x || bool_decide (x ∈ parts)
  | inr _ => Exists (λ g, matchGroup g = false) parts
  end.
Proof.
  revert groups. induction parts as [|g parts IH]; intros groups; cbn.
  { split; [constructor|]. intros x. by rewrite orb_false_r. }
  unfold ValidateBootstrapGroupName. destruct (matchGroup g) eqn:Hg; [|by left].
  specialize (IH (sets_Insert groups [g])). destruct (groups_loop _ _) as [r|e]; [|by right].
  destruct IH as [Hall Hhas]. split; [by constructor|]. intros x.
  rewrite Hhas, sets_Has_Insert, <- orb_assoc. f_equal.
  rewrite <- bool_decide_or. apply bool_decide_ext. set_solver.
Qed.

(** The groups of a secret: the default one and its extra ones, which must all be
    valid; sorted and without duplicates. *)
Definition extra_groups (secret : Secret) : list string :=
  if GetData secret BootstrapTokenExtraGroupsKey == "" then []
  else Split (GetData secret BootstrapTokenExtraGroupsKey) ",".

Lemma GetGroups_spec secret l :
  GetGroups secret = inl l →
  Forall (λ g, matchGroup g = true) (extra_groups secret) ∧ NoDup l ∧ Sorted String.le l ∧
  ∀ g, g ∈ l ↔ g = BootstrapDefaultGroup ∨ g ∈ extra_groups secret.
Proof.
  unfold GetGroups, extra_groups. case_bool_decide.
  - intros [= <-]. split_and!; [constructor|apply sets_NoDup_List|apply sets_Sorted_List|].
    intros g. rewrite sets_elem_of_List, sets_Has_NewString, bool_decide_eq_true. set_solver.
  - pose proof (groups_loop_spec (Split (GetData secret BootstrapTokenExtraGroupsKey) ",")
                  (sets_NewString [BootstrapDefaultGroup])) as Hloop.
    destruct (groups_loop _ _) as [r|e]; [|done]. intros [= <-]. destruct Hloop as [Hall Hhas].
    split_and!; [done|apply sets_NoDup_List|apply sets_Sorted_List|].
    intros g. rewrite sets_elem_of_List, Hhas, sets_Has_NewString, orb_true_iff, !bool_decide_eq_true.
    set_solver.
Qed.

Lemma GetGroups_total secret :
  Forall (λ g, matchGroup g = true) (extra_groups secret) → ∃ l, GetGroups secret = inl l.
Proof.
  unfold GetGroups, extra_groups. case_bool_decide; [by eexists|]. intros Hall.
  pose proof (groups_loop_spec (Split (GetData secret BootstrapTokenExtraGroupsKey) ",")
                (sets_NewString [BootstrapDefaultGroup])) as Hloop.
  destruct (groups_loop _ _) as [r|e]; [by eexists|].
  apply Exists_exists in Hloop as (g & Hin & Hg). rewrite Forall_forall in Hall.
  by rewrite Hall in Hg.
Qed.

Context (parseRFC3339 : string → option Z) (lister_Get : string → Secret + error).
Context (IsNotFound : error → bool) (now : Z).

(** When a secret admits its token. *)
Definition admits (secret : Secret) (id tokenSecret : string) : Prop :=
  sec_Deleted secret = false ∧ sec_Type secret = SecretTypeBootstrapToken ∧
  sec_Data secret ≠ None ∧
  GetData secret BootstrapTokenSecretKey = tokenSecret ∧
  GetData secret BootstrapTokenIDKey = id ∧
  HasExpired parseRFC3339 secret now = false ∧
  GetData secret BootstrapTokenUsageAuthentication = "true" ∧
  Forall (λ g, matchGroup g = true) (extra_groups secret).

(** The authenticator accepts exactly the tokens whose secret admits them, and
    the user it returns carries the token's id and the secret's groups. *)
Theorem bootstrap_user_spec token u :
  bootstrap_user parseRFC3339 lister_Get IsNotFound now token = inl (Some u) ↔
  ∃ id tokenSecret secret groups,
    token = TokenFromIDAndSecret id tokenSecret ∧ matchTokenID id = true ∧
    matchTokenSecret tokenSecret = true ∧
    lister_Get (BootstrapTokenSecretName id) = inl secret ∧ admits secret id tokenSecret ∧
    GetGroups secret = inl groups ∧
    u = {| u_Name := BootstrapUserPrefix +:+ id; u_UID := ""; u_Groups := groups; u_Extra := ∅ |}.
Proof.
  unfold bootstrap_user, BootstrapTokenSecretName. split.
  - destruct (ParseToken token) as [[id ts]|] eqn:Hp; [|done].
    apply ParseToken_roundtrip in Hp as (-> & Hid & Hts).
    destruct (lister_Get _) as [secret|e] eqn:Hget; [|by destruct (IsNotFound e)].
    destruct (sec_Deleted secret) eqn:Hdel; [done|].
    destruct (_ || _) eqn:Htype; [done|]. bool_crush.
    case_bool_decide as Hs; [|discriminate]. case_bool_decide as Hi; [|discriminate]. cbn [negb].
    destruct (HasExpired _ _ _) eqn:Hexp; [discriminate|].
    case_bool_decide as Hu; [|discriminate]. cbn [negb].
    destruct (GetGroups secret) as [groups|] eqn:Hg; [|discriminate]. intros [= <-].
    exists id, ts, secret, groups. rewrite Hi. split_and!; try done.
    by destruct (GetGroups_spec _ _ Hg).
  - intros (id & ts & secret & groups & -> & Hid & Hts & Hget & Ha & Hg & ->).
    destruct Ha as (Hdel & Htype & Hdata & Hsec & Hidk & Hexp & Huse & _).
    assert (ParseToken (TokenFromIDAndSecret id ts) = inl (id, ts)) as ->
      by (by apply ParseToken_roundtrip).
    rewrite Hget, Hdel, Htype, Hsec, Hidk, Hexp, Huse, Hg.
    rewrite (bool_decide_false (sec_Data secret = None)) by done.
    by rewrite !bool_decide_true by done.
Qed.

(** C29: no bootstrap token carries a group outside "system:bootstrappers": in
    particular none is privileged, whatever its secret says. *)
Theorem bootstrap_groups_confined {S} ctx token (w w' : world S) l r u g :
  bootstrap_AuthenticateToken parseRFC3339 lister_Get IsNotFound now ctx token w =
    Ret ((Some l, true, None), w') →
  w_heap w' !! l = Some r → resp_User r = Some u → g ∈ u_Groups u →
  (g = BootstrapDefaultGroup ∨ HasPrefix g bootstrapGroupPrefix = true) ∧ g ≠ SystemPrivilegedGroup.
Proof.
  unfold bootstrap_AuthenticateToken. intros Hw Hr Hu Hg.
  assert (g = BootstrapDefaultGroup ∨ HasPrefix g bootstrapGroupPrefix = true) as Hgr.
  { destruct (bootstrap_user _ _ _ _ _) as [[u'|]|] eqn:Hb; [|done..].
    unfold mbind, Auth_bind, new_response, mret, Auth_ret in Hw. simplify_eq. cbn in Hr.
    rewrite lookup_app_r, Nat.sub_diag in Hr by lia. simplify_eq/=.
    apply bootstrap_user_spec in Hb as (id & ts & secret & groups & _ & _ & _ & _ & _ & Hgs & ->).
    apply GetGroups_spec in Hgs as (Hall & _ & _ & Hin). apply Hin in Hg as [|Hg]; [by left|right].
    rewrite Forall_forall in Hall. by apply matchGroup_prefix, Hall. }
  split; [done|]. destruct Hgr as [->|Hp]; [done|]. by intros ->.
Qed.

(** An expired secret, or one whose expiration does not parse, admits nothing. *)
Theorem HasExpired_spec secret :
  HasExpired parseRFC3339 secret now = true ↔
  GetData secret BootstrapTokenExpirationKey ≠ "" ∧
  ∀ t, parseRFC3339 (GetData secret BootstrapTokenExpirationKey) = Some t → (t ≤ now)%Z.
Proof.
  unfold HasExpired, GetExpiration. rewrite slen_0_decide. case_bool_decide as He; cbn.
  { split; [done|]. by intros []. }
  destruct (parseRFC3339 _) as [t|]; cbn; [|naive_solver].
  destruct (Z.leb_spec (Time_Sub t now) 0) as [Hle|Hgt]; cbn; unfold Time_Sub in *.
  - split; [|done]. intros _. split; [done|]. intros t' [= <-]. lia.
  - split; [done|]. intros [_ Ht]. specialize (Ht t eq_refl). lia.
Qed.
End BootstrapProofs.

(** ** Detached signatures *)

(** A detached token is valid for exactly the content it was computed from: the
    signature with the middle part left out. *)
Theorem DetachedTokenIsValid_spec sign detached content id secret :
  DetachedTokenIsValid sign detached content id secret = true ↔
  ∃ header payload sig,
    sign content id secret = inl (header +:+ "." +:+ payload +:+ "." +:+ sig) ∧
    ContainsByte header "." = false ∧ ContainsByte payload "." = false ∧
    ContainsByte sig "." = false ∧ detached = header +:+ ".." +:+ sig.
Proof.
  unfold DetachedTokenIsValid, ComputeDetachedSignature, stripContent. split.
  - destruct (sign content id secret) as [full|]; [|done].
    pose proof (Join_Split full ".") as Hj. pose proof (Split_parts_no_sep full ".") as Hp.
    destruct (Split full ".") as [|h [|p [|s [|]]]] eqn:E; try done.
    intros ->%bool_decide_eq_true. rewrite !Forall_cons in Hp.
    exists h, p, s. split_and!; naive_solver.
  - intros (h & p & s & Hs & Hh & Hp & Hsig & ->). rewrite Hs.
    change ("." +:+ p +:+ "." +:+ s) with (String "." (p +:+ String "." s)).
    rewrite Split_app, Split_app, Split_no_sep by done. by apply bool_decide_eq_true.
Qed.

(** ** Examples *)

Definition exampleSecret : Secret :=
  {| sec_Namespace := "kube-system"; sec_Name := "bootstrap-token-abc123"; sec_Deleted := false;
     sec_Type := SecretTypeBootstrapToken;
     sec_Data := Some {[ BootstrapTokenIDKey := "abc123"; BootstrapTokenSecretKey := "0123456789abcdef";
                         BootstrapTokenUsageAuthentication := "true";
                         BootstrapTokenExtraGroupsKey := "system:bootstrappers:workers" ]} |}.

Definition exampleLister (name : string) : Secret + error :=
  if name == "bootstrap-token-abc123" then inl exampleSecret else inr (Errorf "not found" []).

Abbreviation ex_user :=
  (@bootstrap_user _ golib_sets_model (λ _, None) exampleLister (λ _, true) 0).

Example bootstrap_accepts :
  ex_user "abc123.0123456789abcdef" =
  inl (Some {| u_Name := "system:bootstrap:abc123"; u_UID := "";
               u_Groups := ["system:bootstrappers"; "system:bootstrappers:workers"]; u_Extra := ∅ |}).
Proof. vm_compute. reflexivity. Qed.

Example bootstrap_refuses : ex_user "abc123.0123456789abcdeg" = inl None.
Proof. vm_compute. reflexivity. Qed.

Lemma bootstrap_user_spec_witness :
  ∃ id tokenSecret secret groups,
    "abc123.0123456789abcdef" = TokenFromIDAndSecret id tokenSecret ∧
    exampleLister (BootstrapTokenSecretName id) = inl secret ∧
    @admits (λ _, None) 0 secret id tokenSecret ∧
    @GetGroups _ golib_sets_model secret = inl groups.
Proof.
  destruct (proj1 (@bootstrap_user_spec _ golib_sets_model golib_sets_model_laws (λ _, None) exampleLister
    (λ _, true) 0 "abc123.0123456789abcdef"
    {| u_Name := "system:bootstrap:abc123"; u_UID := "";
       u_Groups := ["system:bootstrappers"; "system:bootstrappers:workers"]; u_Extra := ∅ |})
    ltac:(vm_compute; reflexivity)) as (id & ts & secret & groups & Ht & _ & _ & Hl & Ha & Hg & _).
  exists id, ts, secret, groups. split; [exact Ht|]. split; [exact Hl|]. split; [exact Ha|exact Hg].
Defined.

Lemma bootstrap_groups_confined_witness :
  "system:bootstrappers:workers" ≠ SystemPrivilegedGroup.
Proof.
  refine (proj2 (@bootstrap_groups_confined _ golib_sets_model golib_sets_model_laws (λ _, None)
    exampleLister (λ _, true) 0 unit None "abc123.0123456789abcdef" (World [] ∅ tt) _ 0 _ _ _ _ _ _ _)).
  - vm_compute. reflexivity.
  - reflexivity.
  - reflexivity.
  - cbn. right. left.
Defined.

Lemma GenerateBootstrapToken_valid_witness :
  IsValidBootstrapToken "abcdef.0123456789abcdef" = true.
Proof.
  refine (proj1 (GenerateBootstrapToken_valid [10; 253; 11; 12; 13; 255; 14; 15] (seq 0 16) _ _)).
  vm_compute. reflexivity.
Defined.

Lemma tokenChar_uniform_witness :
  length (filter (λ b, b < maxByteValue ∧ tokenChar b = "q"%char) (seq 0 256)) = 7.
Proof. exact (tokenChar_uniform "q" eq_refl). Defined.
