(* ===== verification/AuthnRequests.v ===== *)
(** * Request authenticators: front proxy headers, client certificates, passwords

    src/pkg/authentication/request/headerrequest/requestheader.go and x509/x509.go,
    src/plugin/authenticator/basic, passwordfile, token/tokenfile and session, and
    src/pkg/sessions.

    crypto/x509's [Certificate.Verify], the CSV reader, the password provider and
    the session store are parameters.  The certificates the peer presented are part
    of the request: an authenticator that looks at them takes them as an argument.
    A Go map is ranged over in an unspecified order: [range] gives the order in
    which the headers are visited for a prefix. *)

From S2P Require Import Prelude GoStrings GoEncoding Authorizer Authn.

Local Open Scope go_scope.

(** ** Request headers set by a front proxy (requestheader.go) *)

Fixpoint trimHeaders (headerNames : list string) : list string + error :=
  match headerNames with
  | [] => inl []
  | headerName :: rest =>
      let trimmedHeader := TrimSpace headerName in
      if slen trimmedHeader =? 0 then inr (Errorf "empty header %q" [headerName])
      else match trimHeaders rest with
           | inl ret => inl (trimmedHeader :: ret)
           | inr e => inr e
           end
  end.

(** [h.Get(name)] and [h.Del(name)] use the canonical form of the name. *)
Definition headerValue (h : Header) (headerNames : list string) : string :=
  default "" (List.find (λ v, 0 <? slen v)
                ((λ n, Header_Get h (CanonicalHeaderKey n)) <$> headerNames)).

Definition allHeaderValues (h : Header) (headerNames : list string) : list string :=
  filter (λ v, v ≠ "") (headerNames ≫= λ n, Header_Values h (CanonicalHeaderKey n)).

Definition unescapeExtraKey (encodedKey : string) : string := default encodedKey (PathUnescape encodedKey).

(** The body of the inner loop of [newExtra]. *)
Definition addExtra (prefix : string) (ret : gmap string (list string)) (hv : string * list string)
    : gmap string (list string) :=
  if HasPrefix (ToLower hv.1) (ToLower prefix) then
    let extraKey := unescapeExtraKey (ToLower (sdrop (slen prefix) hv.1)) in
    <[extraKey := default [] (ret !! extraKey) ++ hv.2]> ret
  else ret.

Definition newExtra (range : string → list (string * list string)) (headerPrefixes : list string)
    : gmap string (list string) :=
  foldl (λ ret prefix, foldl (addExtra prefix) ret (range prefix)) ∅ headerPrefixes.

Definition delHeaders (h : Header) (names : list string) : Header :=
  foldl (λ h n, Header_Del h (CanonicalHeaderKey n)) h names.

(** The names deleted for the extra headers: [prefix + k] for each key found. *)
Definition extraNames (extra : gmap string (list string)) (prefixes : list string) : list string :=
  (map_to_list extra).*1 ≫= λ k, (λ prefix, prefix +:+ k) <$> prefixes.

Section HeaderRequest.
Context {S : Type}.
Context (range : Header → string → list (string * list string)).

Record requestHeaderConfig := {
  nameHeaders : list string;
  groupHeaders : list string;
  extraHeaderPrefixes : list string;
}.

Definition headerrequest_AuthenticateRequest (a : requestHeaderConfig) : Request S := λ ctx,
  h ← get_header;
  let name := headerValue h (nameHeaders a) in
  if slen name =? 0 then mret (None, false, None)
  else
    let groups := allHeaderValues h (groupHeaders a) in
    let extra := newExtra (range h) (extraHeaderPrefixes a) in
    let h1 := delHeaders h (nameHeaders a) in
    let h2 := delHeaders h1 (groupHeaders a) in
    let h3 := delHeaders h2 (extraNames extra (extraHeaderPrefixes a)) in
    _ ← set_header h3;
    l ← new_response {| resp_Audiences := [];
          resp_User := Some {| u_Name := name; u_UID := ""; u_Groups := groups; u_Extra := extra |} |};
    mret (Some l, true, None).

Definition headerrequest_New (names groups extras : list string) : requestHeaderConfig + error :=
  match trimHeaders names with
  | inr e => inr e
  | inl names =>
      match trimHeaders groups with
      | inr e => inr e
      | inl groups =>
          match trimHeaders extras with
          | inr e => inr e
          | inl extras =>
              inl {| nameHeaders := names; groupHeaders := groups; extraHeaderPrefixes := extras |}
          end
      end
  end.

(** ** Client certificates (x509.go) *)

Record Certificate := {
  cert_CommonName : string;
  cert_Organization : list string;
  cert_SerialNumber : string;       (* in decimal *)
  cert_SubjectKeyId : string;
  cert_AuthorityKeyId : string;
}.

(** x509.VerifyOptions, of which the code reads and sets the intermediates. *)
Record VerifyOptions := { vo_id : nat; vo_Intermediates : option (list Certificate) }.

Context (Verify : Certificate → VerifyOptions → list (list Certificate) + error).

Definition VerifyOptionFunc : Type := option VerifyOptions.
Definition UserConversion : Type := list Certificate → outcome (option Response * bool * option error).

(** Upper-case hexadecimal with a colon between bytes. *)
Definition upper_hex (n : nat) : ascii := ascii_of_nat (if n <? 10 then 48 + n else 55 + n).

Fixpoint columnSeparatedHex (d : string) : string :=
  match d with
  | EmptyString => EmptyString
  | String a rest =>
      let n := nat_of_ascii a in
      String (upper_hex (n / 16)) (String (upper_hex (n mod 16))
        (match rest with EmptyString => EmptyString | _ => String ":" (columnSeparatedHex rest) end))
  end.

Definition certificateIdentifier (c : Certificate) : string :=
  "SN=" +:+ cert_SerialNumber c +:+ ", SKID=" +:+ columnSeparatedHex (cert_SubjectKeyId c) +:+
  ", AKID=" +:+ columnSeparatedHex (cert_AuthorityKeyId c).

(** The copy of the options: the peer's other certificates are the intermediates
    when none are given. *)
Definition with_intermediates (opts : VerifyOptions) (peer : list Certificate) : VerifyOptions :=
  if bool_decide (vo_Intermediates opts = None) && (1 <? length peer)
  then {| vo_id := vo_id opts; vo_Intermediates := Some (tail peer) |} else opts.

(** chain[0] panics on an empty chain. *)
Definition CommonNameUserConversion : UserConversion := λ chain,
  c ← index chain 0;
  if slen (cert_CommonName c) =? 0 then Ret (None, false, None)
  else Ret (Some {| resp_Audiences := [];
                    resp_User := Some {| u_Name := cert_CommonName c; u_UID := "";
                                         u_Groups := cert_Organization c; u_Extra := ∅ |} |}, true, None).

Section X509.
Context `{UtilErrors}.

Fixpoint chains_loop (user : UserConversion) (chains : list (list Certificate)) (errlist : list error)
    : Auth S answer :=
  match chains with
  | [] => mret (None, false, NewAggregate errlist)
  | chain :: rest =>
      λ w, match user chain with
           | Panic m => Panic m
           | Ret (resp, ok, Some e) => chains_loop user rest (errlist ++ [e]) w
           | Ret (resp, ok, None) =>
               if ok then
                 match resp with
                 | None => Ret ((None, true, None), w)
                 | Some r => (l ← new_response r; mret (Some l, true, None)) w
                 end
               else chains_loop user rest errlist w
           end
  end.

(** [peer] is req.TLS.PeerCertificates, nothing when req.TLS is nil. *)
Definition x509_AuthenticateRequest (verifyOptionsFn : VerifyOptionFunc) (user : UserConversion)
    (peer : option (list Certificate)) : Request S := λ ctx,
  match peer with
  | None | Some [] => mret (None, false, None)
  | Some ((c :: _) as certs) =>
      match verifyOptionsFn with
      | None => mret (None, false, None)
      | Some opts =>
          match Verify c (with_intermediates opts certs) with
          | inr e => mret (None, false,
              Some (ErrorWrap "verifying certificate %s failed: %w" [certificateIdentifier c] e))
          | inl chains => chains_loop user chains []
          end
      end
  end.
End X509.

Definition verifySubject (allowedCommonNames : list string) (c : Certificate) : option error :=
  if length allowedCommonNames =? 0 then None
  else if existsb (λ n, n == cert_CommonName c) allowedCommonNames then None
  else Some (Errorf "x509: subject with cn=%s is not in the allowed list" [cert_CommonName c]).

Definition Verifier_AuthenticateRequest (verifyOptionsFn : VerifyOptionFunc) (auth : Request S)
    (allowedCommonNames : list string) (peer : option (list Certificate)) : Request S := λ ctx,
  match peer with
  | None | Some [] => mret (None, false, None)
  | Some ((c :: _) as certs) =>
      match verifyOptionsFn with
      | None => mret (None, false, None)
      | Some opts =>
          match Verify c (with_intermediates opts certs) with
          | inr e => mret (None, false, Some e)
          | inl _ =>
              match verifySubject allowedCommonNames c with
              | Some e => mret (None, false, Some e)
              | None => auth ctx
              end
          end
      end
  end.

(** The front proxy: headers are believed only behind a verified certificate. *)
Definition NewDynamicVerifyOptionsSecure (verifyOptionsFn : VerifyOptionFunc)
    (proxyClientNames : list string) (a : requestHeaderConfig) (peer : option (list Certificate)) : Request S :=
  Verifier_AuthenticateRequest verifyOptionsFn (headerrequest_AuthenticateRequest a) proxyClientNames peer.

(** ** Basic authentication and password files *)

Definition basic_AuthenticateRequest (provider : string → string → option DefaultInfo) : Request S := λ ctx,
  h ← get_header;
  let auth := Header_Get h "Authorization" in
  if auth == "" then mret (None, false, None)
  else
    match SplitN auth " " 2 with
    | [scheme; payload] =>
        if scheme != "Basic" then mret (None, false, None)
        else
          match StdEncoding_DecodeString payload with
          | None => mret (None, false, Some (Errorf "illegal base64 data" [payload]))
          | Some b =>
              match SplitN b ":" 2 with
              | [u; p] =>
                  match QueryUnescape u with
                  | None => mret (None, false, Some (Errorf "invalid URL escape" [u]))
                  | Some username =>
                      match QueryUnescape p with
                      | None => mret (None, false, Some (Errorf "invalid URL escape" [p]))
                      | Some password =>
                          match provider username password with
                          | None => mret (None, false, None)
                          | Some usr =>
                              l ← new_response {| resp_Audiences := []; resp_User := Some usr |};
                              mret (Some l, true, None)
                          end
                      end
                  end
              | _ => mret (None, false, Some (Errorf "Invalid authorization message" []))
              end
          end
    | _ => mret (None, false, None)
    end.

End HeaderRequest.

(** A record of a CSV file of users: secret, name, uid, groups. *)
Section CSV.
Context {K : Type} `{Countable K}.
Context (key : string → string → K).           (* of the secret and the user name *)
Context (tooShort : nat → error).

Definition record_user (r : list string) (name uid : string) : DefaultInfo :=
  {| u_Name := name; u_UID := uid;
     u_Groups := (match r with _ :: _ :: _ :: g :: _ => Split g "," | _ => [] end); u_Extra := ∅ |}.

Fixpoint csv_loop (records : list (list string + error)) (users : gmap K DefaultInfo)
    : gmap K DefaultInfo + error :=
  match records with
  | [] => inl users
  | inr e :: _ => inr e
  | inl r :: rest =>
      match r with
      | secret :: name :: uid :: _ =>
          if secret == "" then csv_loop rest users
          else csv_loop rest (<[key secret name := record_user r name uid]> users)
      | _ => inr (tooShort (length r))
      end
  end.
End CSV.

(** tokenfile.NewCSV and passwordfile.NewCSV. *)
Definition tokenfile_NewCSV (path : string) (records : list (list string + error))
    : gmap string DefaultInfo + error :=
  csv_loop (λ secret _, secret)
    (λ n, Errorf "token file '%s' must have at least 3 columns (token, user name, user uid), found %d" [path])
    records ∅.

Definition passwordfile_NewCSV (path : string) (records : list (list string + error))
    : gmap (string * string) DefaultInfo + error :=
  csv_loop (λ secret name, (name, secret))
    (λ n, Errorf "password file '%s' must have at least 3 columns (password, user name, user uid), found %d" [path])
    records ∅.

Definition tokenfile_AuthenticateToken {S} (tokens : gmap string DefaultInfo) : Token S := λ ctx value,
  match tokens !! value with
  | None => mret (None, false, None)
  | Some user =>
      l ← new_response {| resp_Audiences := []; resp_User := Some user |};
      mret (Some l, true, None)
  end.

Definition passwordfile_Authenticate (users : gmap (string * string) DefaultInfo) (usr pwd : string)
    : option DefaultInfo := users !! (usr, pwd).

(** ** Sessions (pkg/sessions) *)

Section Sessions.
Context {V : Type}.

(** A session loads its values from the store on first use. *)
Record session := { s_values : option (gmap string V); s_written : bool }.

(** The store: reading the values of the request's session, saving them. *)
Context (store_Get : gmap string V) (store_Save : gmap string V → option error).

Definition newSession : session := {| s_values := None; s_written := false |}.

Definition Session (s : session) : gmap string V * session :=
  match s_values s with
  | Some v => (v, s)
  | None => (store_Get, {| s_values := Some store_Get; s_written := s_written s |})
  end.

Definition session_Get (s : session) (key : string) : option V * session :=
  let '(v, s) := Session s in (v !! key, s).

Definition session_Set (s : session) (key : string) (val : V) : session :=
  let '(v, s) := Session s in {| s_values := Some (<[key := val]> v); s_written := true |}.

Definition session_Delete (s : session) (key : string) : session :=
  let '(v, s) := Session s in {| s_values := Some (delete key v); s_written := true |}.

(** [for key := range values { s.Delete(key) }] *)
Definition session_Clear (s : session) : session :=
  let '(v, s) := Session s in foldl session_Delete s (map_to_list v).*1.

(** [Save]: what the store received, the error, the session after. *)
Definition session_Save (s : session) : option (gmap string V) * option error * session :=
  if s_written s then
    let '(v, s) := Session s in
    match store_Save v with
    | None => (Some v, None, {| s_values := s_values s; s_written := false |})
    | Some e => (Some v, Some e, s)
    end
  else (None, None, s).
End Sessions.

Definition UserInfoKey : string := "userInfo".

(** The values of a session are of any type; only a *user.DefaultInfo is a user. *)
Inductive session_value := SVUser (u : DefaultInfo) | SVOther.

Definition UserFrom (store_Get : gmap string session_value) (s : session) : option DefaultInfo :=
  match (session_Get store_Get s UserInfoKey).1 with Some (SVUser u) => Some u | _ => None end.

Definition WithUser (store_Get : gmap string session_value) (store_Save : gmap string session_value → option error)
    (s : session) (u : DefaultInfo) : option error * session :=
  let '(_, e, s) := session_Save store_Get store_Save (session_Set store_Get s UserInfoKey (SVUser u)) in
  (e, s).

(** [sess]: the session of the request's context, with what its store holds. *)
Definition session_AuthenticateRequest {S} (sess : option (@session session_value * gmap string session_value))
    : Request S := λ ctx,
  match sess with
  | None => mret (None, false, None)
  | Some (s, store) =>
      match UserFrom store s with
      | None => mret (None, false, None)
      | Some user =>
          l ← new_response {| resp_Audiences := []; resp_User := Some user |};
          mret (Some l, true, None)
      end
  end.

(** ** Front proxy headers *)

Lemma delHeaders_lookup h names k :
  delHeaders h names !! k = if decide (k ∈ CanonicalHeaderKey <$> names) then None else h !! k.
Proof.
  revert h. induction names as [|n names IH]; intros h; cbn [delHeaders foldl].
  { by rewrite decide_False by (by intros ?%elem_of_nil). }
  fold (delHeaders (Header_Del h (CanonicalHeaderKey n)) names). rewrite IH, Header_Del_lookup.
  cbn [fmap list_fmap]. repeat case_decide; set_solver.
Qed.

(** The answer of the header authenticator: nothing without a name header;
    otherwise the user the headers describe. *)
Lemma headerrequest_answer {S} range a ctx (w : world S) :
  let h := w_header w in
  let name := headerValue h (nameHeaders a) in
  headerrequest_AuthenticateRequest range a ctx w =
  if name == "" then Ret ((None, false, None), w)
  else
    let extra := newExtra (range h) (extraHeaderPrefixes a) in
    Ret ((Some (length (w_heap w)), true, None),
         World (w_heap w ++ [{| resp_Audiences := [];
                  resp_User := Some {| u_Name := name; u_UID := "";
                    u_Groups := allHeaderValues h (groupHeaders a); u_Extra := extra |} |}])
           (delHeaders (delHeaders (delHeaders h (nameHeaders a)) (groupHeaders a))
              (extraNames extra (extraHeaderPrefixes a)))
           (w_state w)).
Proof.
  unfold headerrequest_AuthenticateRequest. unfold mbind at 1, Auth_bind at 1, get_header. cbn beta iota.
  rewrite slen_0_decide. by case_bool_decide.
Qed.

(** Matching a prefix, up to case. *)
Definition has_prefix_fold (name prefix : string) : Prop :=
  HasPrefix (ToLower name) (ToLower prefix) = true.

Lemma newExtra_key range prefixes p hn vv :
  p ∈ prefixes → (hn, vv) ∈ range p → has_prefix_fold hn p →
  is_Some (newExtra range prefixes !! unescapeExtraKey (ToLower (sdrop (slen p) hn))).
Proof.
  set (key := unescapeExtraKey _). unfold newExtra.
  assert (∀ q l ret, is_Some (ret !! key) → is_Some (foldl (addExtra q) ret l !! key)) as Hkeep.
  { intros q l. induction l as [|hv l IH]; intros ret Hret; [done|]. apply IH.
    unfold addExtra. case_match; [|done].
    destruct (decide (unescapeExtraKey (ToLower (sdrop (slen q) hv.1)) = key)) as [->|Hne].
    - by rewrite lookup_insert_eq.
    - by rewrite lookup_insert_ne. }
  assert (∀ l ret, is_Some (ret !! key) →
    is_Some (foldl (λ ret q, foldl (addExtra q) ret (range q)) ret l !! key)) as Hkeep2.
  { induction l as [|q l IH]; intros ret Hret; [done|]. by apply IH, Hkeep. }
  intros Hp Hin Hpre. generalize (∅ : gmap string (list string)).
  induction prefixes as [|q prefixes IH]; [by inversion Hp|]. intros ret. cbn [foldl].
  apply elem_of_cons in Hp as [<-|Hp]; [|by apply IH]. apply Hkeep2.
  revert ret. induction (range p) as [|hv l IHl]; [by inversion Hin|]. intros ret. cbn [foldl].
  apply elem_of_cons in Hin as [<-|Hin]; [|by apply IHl]. apply Hkeep.
  unfold addExtra. cbn [fst]. rewrite Hpre. fold key. by rewrite lookup_insert_eq.
Qed.

Lemma canonical_extra hn p :
  validHeaderName hn = true → CanonicalHeaderKey hn = hn → has_prefix_fold hn p →
  CanonicalHeaderKey (p +:+ ToLower (sdrop (slen p) hn)) = hn.
Proof.
  intros Hv Hc Hp. rewrite <- Hc at 2. symmetry. apply CanonicalHeaderKey_case; [done|].
  rewrite ToLower_app, ToLower_idem, ToLower_sdrop.
  apply HasPrefix_spec in Hp as [t ->]. f_equal. by rewrite <- (slen_ToLower p), sdrop_app.
Qed.

(** After a request is authenticated from its headers, none of the headers the
    identity came from is left: the name and group headers are gone, and so is
    every extra header whose name has no escaped character. *)
Theorem headerrequest_cleared {S} range a ctx (w w' : world S) l :
  (∀ p, range (w_header w) p ≡ₚ map_to_list (w_header w)) →
  headerrequest_AuthenticateRequest range a ctx w = Ret ((Some l, true, None), w') →
  (∀ n, n ∈ nameHeaders a ∨ n ∈ groupHeaders a → w_header w' !! CanonicalHeaderKey n = None) ∧
  (∀ p hn, p ∈ extraHeaderPrefixes a → has_prefix_fold hn p →
     validHeaderName hn = true → CanonicalHeaderKey hn = hn →
     PathUnescape (ToLower (sdrop (slen p) hn)) = Some (ToLower (sdrop (slen p) hn)) →
     w_header w' !! hn = None) ∧
  (∀ k, is_Some (w_header w' !! k) → w_header w' !! k = w_header w !! k).
Proof.
  intros Hrange. rewrite headerrequest_answer. cbv zeta. case_bool_decide; [done|].
  intros Hw. simplify_eq.
  cbn [w_header]. split_and!.
  - intros n Hn. rewrite !delHeaders_lookup. repeat case_decide; try done. set_solver.
  - intros p hn Hp Hpre Hv Hc Hu. rewrite !delHeaders_lookup.
    repeat case_decide; try done. destruct (w_header w !! hn) as [vv|] eqn:Hhn; [|done].
    exfalso. match goal with H : ¬ (hn ∈ _ <$> extraNames _ _) |- _ => apply H end.
    apply list_elem_of_fmap. exists (p +:+ ToLower (sdrop (slen p) hn)).
    split; [by rewrite canonical_extra|].
    apply list_elem_of_bind. exists (ToLower (sdrop (slen p) hn)). split; [apply list_elem_of_fmap; eauto|].
    assert (is_Some (newExtra (range (w_header w)) (extraHeaderPrefixes a) !!
              unescapeExtraKey (ToLower (sdrop (slen p) hn)))) as [v Hv'].
    { apply (newExtra_key _ _ p hn vv); [done| |done]. rewrite Hrange. by apply elem_of_map_to_list. }
    unfold unescapeExtraKey in Hv'. rewrite Hu in Hv'. cbn in Hv'.
    apply list_elem_of_fmap. exists (ToLower (sdrop (slen p) hn), v). split; [done|].
    by apply elem_of_map_to_list.
  - intros k [v Hk]. revert Hk. rewrite !delHeaders_lookup. repeat case_decide; done.
Qed.

(** The identity the headers describe. *)
Theorem headerrequest_identity {S} range a ctx (w : world S) :
  match headerrequest_AuthenticateRequest range a ctx w with
  | Ret ((Some l, true, None), w') =>
      ∃ u, w_heap w' !! l = Some {| resp_Audiences := []; resp_User := Some u |} ∧
        u_Name u ≠ "" ∧
        (∃ n1 n n2, nameHeaders a = n1 ++ n :: n2 ∧
           u_Name u = Header_Get (w_header w) (CanonicalHeaderKey n) ∧
           Forall (λ m, Header_Get (w_header w) (CanonicalHeaderKey m) = "") n1) ∧
        (∀ g, g ∈ u_Groups u ↔ g ≠ "" ∧ ∃ n, n ∈ groupHeaders a ∧
                g ∈ Header_Values (w_header w) (CanonicalHeaderKey n))
  | Ret (r, w') => r = (None, false, None) ∧ w' = w ∧
      Forall (λ n, Header_Get (w_header w) (CanonicalHeaderKey n) = "") (nameHeaders a)
  | Panic _ => False
  end.
Proof.
  rewrite headerrequest_answer. unfold headerValue.
  assert (∀ l, match List.find (λ v, 0 <? slen v) ((λ n, Header_Get (w_header w) (CanonicalHeaderKey n)) <$> l) with
    | Some v => v ≠ "" ∧ ∃ n1 n n2, l = n1 ++ n :: n2 ∧ v = Header_Get (w_header w) (CanonicalHeaderKey n) ∧
        Forall (λ m, Header_Get (w_header w) (CanonicalHeaderKey m) = "") n1
    | None => Forall (λ m, Header_Get (w_header w) (CanonicalHeaderKey m) = "") l end) as Hfind.
  { induction l as [|n l IH]; cbn [fmap list_fmap List.find]; [constructor|].
    rewrite slen_pos. case_bool_decide as Hn; cbn [negb].
    - destruct (List.find _ _) as [v|]; [|by constructor].
      destruct IH as [Hv (n1 & m & n2 & -> & -> & Hall)]. split; [done|].
      exists (n :: n1), m, n2. split_and!; [done..|by constructor].
    - split; [done|]. exists [], n, l. split_and!; [done..|constructor]. }
  specialize (Hfind (nameHeaders a)). destruct (List.find _ _) as [v|]; cbn [default].
  - destruct Hfind as [Hne Hex]. rewrite bool_decide_false by done. cbn beta iota zeta.
    eexists. split; [cbn [w_heap]; by rewrite lookup_app_r, Nat.sub_diag by lia|].
    cbn [u_Name u_Groups]. split_and!; [done..|]. intros g. unfold allHeaderValues.
    rewrite list_elem_of_filter, list_elem_of_bind. naive_solver.
  - cbn. done.
Qed.

(** A header whose extra key is %-encoded is not deleted: the key it is looked up
    by is the decoded one. *)
Definition escapedHeader : Header :=
  {[ "X-Remote-User" := ["alice"]; "X-Remote-Extra-Acme.com%2fproject" := ["some-project"] ]}.

Definition exampleProxy : requestHeaderConfig :=
  {| nameHeaders := ["X-Remote-User"]; groupHeaders := ["X-Remote-Group"];
     extraHeaderPrefixes := ["X-Remote-Extra-"] |}.

Theorem escaped_extra_header_kept {S} (st : S) :
  ∃ w' u, headerrequest_AuthenticateRequest (λ h _, map_to_list h) exampleProxy None
            (World [] escapedHeader st) = Ret ((Some 0, true, None), w') ∧
    w_heap w' !! 0 = Some {| resp_Audiences := []; resp_User := Some u |} ∧
    u_Extra u !! "acme.com/project" = Some ["some-project"] ∧
    w_header w' !! "X-Remote-Extra-Acme.com%2fproject" = Some ["some-project"].
Proof. do 2 eexists. rewrite headerrequest_answer. by vm_compute. Qed.

(** ** Client certificates *)

Section X509Proofs.
Context {S : Type} (range : Header → string → list (string * list string)).
Context (Verify : Certificate → VerifyOptions → list (list Certificate) + error).

(** The certificate the peer proved, and the options it was verified with. *)
Definition verified (opts : VerifyOptionFunc) (allowed : list string) (peer : option (list Certificate))
    : Prop :=
  ∃ c rest o chains, peer = Some (c :: rest) ∧ opts = Some o ∧
    Verify c (with_intermediates o (c :: rest)) = inl chains ∧
    (allowed = [] ∨ cert_CommonName c ∈ allowed).

Lemma verifySubject_None allowed c :
  verifySubject allowed c = None ↔ allowed = [] ∨ cert_CommonName c ∈ allowed.
Proof.
  unfold verifySubject. destruct allowed as [|n allowed]; [naive_solver|]. cbn [length Nat.eqb].
  rewrite existsb_eq_elem_of. case_bool_decide; naive_solver.
Qed.

(** The verifier delegates exactly when the certificate is verified and its common
    name allowed; otherwise it does not authenticate and touches nothing. *)
Theorem Verifier_spec opts auth allowed peer ctx (w : world S) :
  (verified opts allowed peer ∧
   Verifier_AuthenticateRequest Verify opts auth allowed peer ctx w = auth ctx w) ∨
  (¬ verified opts allowed peer ∧
   ∃ e, Verifier_AuthenticateRequest Verify opts auth allowed peer ctx w = Ret ((None, false, e), w)).
Proof.
  unfold Verifier_AuthenticateRequest, verified. destruct peer as [[|c rest]|].
  1,3: right; split; [naive_solver|by eexists].
  destruct opts as [o|]; [|right; split; [naive_solver|by eexists]].
  destruct (Verify c (with_intermediates o (c :: rest))) as [chains|e] eqn:Hv.
  2:{ right. split; [|exists (Some e); reflexivity]. intros (? & ? & ? & ? & ? & ? & ? & _).
      simplify_eq. congruence. }
  destruct (verifySubject allowed c) as [e|] eqn:Hs.
  - right. split; [|exists (Some e); reflexivity].
    intros (? & ? & ? & ? & ? & ? & ? & Ha). simplify_eq. apply verifySubject_None in Ha. congruence.
  - left. split; [|done]. apply verifySubject_None in Hs. eauto 10.
Qed.

(** C22: headers alone never authenticate: a request is authenticated by the front
    proxy authenticator only behind a verified certificate with an allowed name, and
    otherwise keeps its headers. *)
Theorem front_proxy_sound opts names a peer ctx (w w' : world S) ans :
  NewDynamicVerifyOptionsSecure range Verify opts names a peer ctx w = Ret (ans, w') →
  (verified opts names peer ∧ headerrequest_AuthenticateRequest range a ctx w = Ret (ans, w')) ∨
  (¬ verified opts names peer ∧ ans.1 = (None, false) ∧ w' = w).
Proof.
  unfold NewDynamicVerifyOptionsSecure. intros Hr.
  destruct (Verifier_spec opts (headerrequest_AuthenticateRequest range a) names peer ctx w)
    as [[Hv E]|[Hv [e E]]]; rewrite E in Hr.
  - by left.
  - right. by simplify_eq.
Qed.

(** The user of a client certificate: the common name and the organizations of the
    first certificate of a verified chain. *)
Theorem x509_CommonName_spec `{UtilErrors} opts peer ctx (w w' : world S) l :
  x509_AuthenticateRequest Verify opts CommonNameUserConversion peer ctx w = Ret ((Some l, true, None), w') →
  ∃ c rest o chains chain leaf, peer = Some (c :: rest) ∧ opts = Some o ∧
    Verify c (with_intermediates o (c :: rest)) = inl chains ∧ chain ∈ chains ∧
    chain !! 0 = Some leaf ∧ cert_CommonName leaf ≠ "" ∧
    w_heap w' !! l = Some {| resp_Audiences := [];
      resp_User := Some {| u_Name := cert_CommonName leaf; u_UID := "";
                           u_Groups := cert_Organization leaf; u_Extra := ∅ |} |}.
Proof.
  unfold x509_AuthenticateRequest. destruct peer as [[|c rest]|]; [done| |done].
  destruct opts as [o|]; [|done].
  destruct (Verify c (with_intermediates o (c :: rest))) as [chains|e] eqn:Hv; [|done].
  assert (∀ errs, chains_loop CommonNameUserConversion chains errs w = Ret ((Some l, true, None), w') →
    ∃ chain leaf, chain ∈ chains ∧ chain !! 0 = Some leaf ∧ cert_CommonName leaf ≠ "" ∧
      w_heap w' !! l = Some {| resp_Audiences := [];
        resp_User := Some {| u_Name := cert_CommonName leaf; u_UID := "";
                             u_Groups := cert_Organization leaf; u_Extra := ∅ |} |}) as Hloop.
  { clear Hv. induction chains as [|chain chains IH]; intros errs Hl; [done|]. cbn [chains_loop] in Hl.
    unfold CommonNameUserConversion in Hl at 1. unfold index in Hl.
    destruct (chain !! 0) as [leaf|] eqn:Hc; [|done]. cbn [mbind outcome_bind] in Hl.
    rewrite slen_0_decide in Hl. case_bool_decide as Hn.
    - destruct (IH _ Hl) as (ch & lf & Hin & ? & ? & ?). exists ch, lf. split; [by right|done].
    - unfold new_response, mbind, Auth_bind, mret, Auth_ret in Hl. simplify_eq.
      exists chain, leaf. split; [by left|]. split_and!; [done..|]. cbn [w_heap]. by rewrite lookup_app_r, Nat.sub_diag by lia. }
  intros Hl. destruct (Hloop _ Hl) as (chain & leaf & ? & ? & ? & ?).
  by exists c, rest, o, chains, chain, leaf.
Qed.
End X509Proofs.

(** ** Files of tokens and passwords *)

Section CSVProofs.
Context {K : Type} `{Countable K} (key : string → string → K) (tooShort : nat → error).

(** The entry a record contributes, unless its secret is empty. *)
Definition record_entry (r : list string) : option (K * DefaultInfo) :=
  match r with
  | secret :: name :: uid :: _ =>
      if secret == "" then None else Some (key secret name, record_user r name uid)
  | _ => None
  end.

Lemma csv_loop_ok (rs : list (list string)) m :
  Forall (λ r, 3 ≤ length r) rs →
  csv_loop key tooShort (inl <$> rs) m =
  inl (foldl (λ m kv, <[kv.1 := kv.2]> m) m (omap record_entry rs)).
Proof.
  intros Hrs. revert m. induction Hrs as [|r rs Hr Hrs IH]; intros m; [done|].
  cbn [fmap list_fmap csv_loop omap list_omap].
  destruct r as [|s [|n [|u r]]]; cbn [length] in Hr; try lia. cbn [record_entry].
  case_bool_decide; by rewrite IH.
Qed.

Lemma csv_loop_error records m :
  (∃ e, csv_loop key tooShort records m = inr e) ↔
  ∃ r, r ∈ records ∧ match r with inl l => length l < 3 | inr _ => True end.
Proof.
  revert m. induction records as [|[r|e] records IH]; intros m.
  - split; [by intros [? ?]|]. intros (r & Hr & _). inversion Hr.
  - assert ((∃ x, x ∈ inl r :: records ∧ match x with inl l => length l < 3 | inr _ => True end) ↔
      length r < 3 ∨ ∃ x, x ∈ records ∧ match x with inl l => length l < 3 | inr _ => True end) as ->.
    { setoid_rewrite elem_of_cons. split; [intros (x & [->|?] & ?); eauto|].
      intros [?|(x & ? & ?)]; eauto. }
    destruct r as [|s [|n [|u r]]]; cbn [csv_loop length].
    1-3: split; [left; lia|by eexists].
    case_bool_decide; rewrite IH; split; [by right|intros [?|?]; [lia|done]|by right|intros [?|?]; [lia|done]].
  - cbn. split; [|by eexists]. intros _. exists (inr e). split; [by left|done].
Qed.

Lemma foldl_insert_last (l : list (K * DefaultInfo)) (m : gmap K DefaultInfo) k :
  foldl (λ (m : gmap K DefaultInfo) kv, <[kv.1 := kv.2]> m) m l !! k =
  match last (filter (λ kv, kv.1 = k) l) with Some kv => Some kv.2 | None => m !! k end.
Proof.
  revert m. induction l as [|[k' v] l IH]; intros m; [done|]. cbn [foldl]. rewrite IH, filter_cons.
  cbn [fst snd]. case_decide as Hk.
  - subst. rewrite lookup_insert_eq. rewrite last_cons.
    by destruct (last (filter _ l)).
  - by rewrite lookup_insert_ne.
Qed.
End CSVProofs.

(** A file of tokens is read entirely or refused; when it is read, a token
    authenticates as the user of its last record, and the empty token never. *)
Theorem tokenfile_spec path (records : list (list string + error)) :
  match tokenfile_NewCSV path records with
  | inr _ => ∃ r, r ∈ records ∧ match r with inl l => length l < 3 | inr _ => True end
  | inl tokens =>
      ∃ rs, records = inl <$> rs ∧ tokens !! "" = None ∧
      ∀ tok, tokens !! tok =
        snd <$> last (filter (λ kv, kv.1 = tok) (omap (record_entry (λ secret _, secret)) rs))
  end.
Proof.
  unfold tokenfile_NewCSV. set (short := λ n : nat, _).
  destruct (csv_loop _ short records ∅) as [tokens|e] eqn:Hl.
  2:{ apply (csv_loop_error (λ secret _, secret) short records ∅). by eexists. }
  assert (∃ rs, records = inl <$> rs ∧ Forall (λ r, 3 ≤ length r) rs) as (rs & -> & Hrs).
  { assert (∀ r, r ∈ records → ∃ l, r = inl l ∧ 3 ≤ length l) as Hall.
    { intros r Hr. destruct r as [l|e].
      - destruct (decide (3 ≤ length l)) as [|Hlt]; [by eexists|].
        destruct (proj2 (csv_loop_error (λ secret _, secret) short records ∅)) as [e He];
          [exists (inl l); split; [done|lia]|congruence].
      - destruct (proj2 (csv_loop_error (λ secret _, secret) short records ∅)) as [e' He];
          [by exists (inr e)|congruence]. }
    clear Hl. induction records as [|r records IH]; [by exists []|].
    destruct (Hall r) as (l & -> & Hlen); [by left|].
    destruct IH as (rs & -> & Hrs); [intros r Hr; apply Hall; by right|].
    exists (l :: rs). split; [done|by constructor]. }
  rewrite csv_loop_ok in Hl by done. simplify_eq.
  exists rs. split; [done|].
  assert (∀ tok, foldl (λ (m : gmap string DefaultInfo) kv, <[kv.1 := kv.2]> m) ∅
      (omap (record_entry (λ secret _, secret)) rs) !! tok =
      snd <$> last (filter (λ kv, kv.1 = tok) (omap (record_entry (λ secret _, secret)) rs))) as Hlook.
  { intros tok. rewrite foldl_insert_last, lookup_empty. by destruct (last _). }
  split; [|done]. rewrite Hlook. destruct (last _) as [[k u]|] eqn:Hlast; [|done].
  apply last_Some_elem_of, list_elem_of_filter in Hlast as [Hk Hin]. cbn in Hk. subst k.
  apply list_elem_of_omap in Hin as (r & _ & Hr). destruct r as [|s [|n [|uid r]]]; try done.
  cbn in Hr. case_bool_decide; simplify_eq.
Qed.

(** ** Basic authentication *)

(** Basic authentication succeeds exactly on a well-formed header whose decoded
    name and password the provider knows. *)
Theorem basic_spec {S} provider ctx (w w' : world S) l :
  basic_AuthenticateRequest provider ctx w = Ret ((Some l, true, None), w') ↔
  ∃ payload b u p username password usr,
    Header_Get (w_header w) "Authorization" = "Basic" +:+ String " " payload ∧
    StdEncoding_DecodeString payload = Some b ∧
    b = u +:+ String ":" p ∧ ContainsByte u ":" = false ∧
    QueryUnescape u = Some username ∧ QueryUnescape p = Some password ∧
    provider username password = Some usr ∧ l = length (w_heap w) ∧
    w' = World (w_heap w ++ [{| resp_Audiences := []; resp_User := Some usr |}]) (w_header w) (w_state w).
Proof.
  unfold basic_AuthenticateRequest. unfold mbind at 1, Auth_bind at 1, get_header. cbn beta iota zeta.
  set (auth := Header_Get (w_header w) "Authorization"). split.
  - case_bool_decide; [done|]. destruct (SplitN_2_cases auth " "%char) as [[_ ->]|(s & payload & Ea & Hs & ->)]; [done|].
    case_bool_decide as Hb; [|done]. cbn [negb]. subst s.
    destruct (StdEncoding_DecodeString payload) as [b|] eqn:Hd; [|done].
    destruct (SplitN_2_cases b ":"%char) as [[_ ->]|(u & p & Eb & Hu & ->)]; [done|].
    destruct (QueryUnescape u) as [username|] eqn:Hqu; [|done].
    destruct (QueryUnescape p) as [password|] eqn:Hqp; [|done].
    destruct (provider username password) as [usr|] eqn:Hp; [|done].
    unfold mbind, Auth_bind, new_response, mret, Auth_ret. intros. simplify_eq. eauto 20.
  - intros (payload & b & u & p & username & password & usr & Ea & Hd & -> & Hu & Hqu & Hqp & Hp & -> & ->).
    rewrite Ea. rewrite bool_decide_false by done.
    rewrite SplitN_2_sep, bool_decide_true by done. cbn [negb].
    rewrite Hd, SplitN_2_sep by done. by rewrite Hqu, Hqp, Hp.
Qed.

(** ** Sessions *)

Section SessionProofs.
Context {V : Type} (store_Get : gmap string V) (store_Save : gmap string V → option error).
Implicit Types s : @session V.

Definition view s : gmap string V := default store_Get (s_values s).

Lemma Session_view s : (Session store_Get s).1 = view s ∧ view (Session store_Get s).2 = view s ∧
  s_written (Session store_Get s).2 = s_written s.
Proof. unfold Session, view. by destruct (s_values s) eqn:E; cbn; rewrite ?E. Qed.

Lemma session_Delete_view s k : view (session_Delete store_Get s k) = delete k (view s).
Proof. unfold session_Delete, Session, view. by destruct (s_values s) eqn:E. Qed.

Lemma foldl_Delete_view l s k :
  view (foldl (session_Delete store_Get) s l) !! k = if decide (k ∈ l) then None else view s !! k.
Proof.
  revert s. induction l as [|k' l IH]; intros s; [done|]. cbn [foldl]. rewrite IH, session_Delete_view.
  destruct (decide (k = k')) as [->|Hne].
  - rewrite lookup_delete_eq, (decide_True (P := k' ∈ k' :: l)) by left. by case_decide.
  - rewrite lookup_delete_ne by done. repeat case_decide; set_solver.
Qed.

(** Clearing a session leaves nothing in it. *)
Lemma session_Clear_view s : view (session_Clear store_Get s) = ∅.
Proof.
  unfold session_Clear. destruct (Session store_Get s) as [v s'] eqn:E.
  pose proof (Session_view s) as (H1 & H2 & _). rewrite E in H1, H2. cbn in H1, H2.
  apply map_eq. intros k. rewrite foldl_Delete_view, H2, lookup_empty.
  case_decide as Hk; [done|]. apply eq_None_not_Some. intros [x Hx]. apply Hk.
  apply list_elem_of_fmap. exists (k, x). split; [done|]. apply elem_of_map_to_list. by rewrite H1.
Qed.

(** Saving writes exactly when something was changed since the last save, and what
    it writes is what later reads see. *)
Theorem session_Save_spec s :
  match session_Save store_Get store_Save s with
  | (written, e, s') =>
      view s' = view s ∧ written = (if s_written s then Some (view s) else None) ∧
      (e = None → s_written s' = false) ∧ (is_Some e → s_written s' = true)
  end.
Proof.
  unfold session_Save. destruct (s_written s) eqn:Hw.
  2:{ split_and!; [done..|]. by intros [? ?]. }
  destruct (Session store_Get s) as [v s'] eqn:E.
  pose proof (Session_view s) as (H1 & H2 & H3). rewrite E in H1, H2, H3. cbn in *. subst v.
  destruct (store_Save (view s)).
  - split_and!; [done..|]. intros _. congruence.
  - split_and!; [done..|]. by intros [? ?].
Qed.
End SessionProofs.

(** A user stored in the session is the user later requests are authenticated as. *)
Theorem WithUser_UserFrom store_Get store_Save s u :
  UserFrom store_Get (WithUser store_Get store_Save s u).2 = Some u.
Proof.
  unfold WithUser, session_Save, session_Set, Session.
  destruct (s_values s) as [v|]; cbn; destruct (store_Save _); unfold UserFrom, session_Get; cbn;
    by rewrite lookup_insert_eq.
Qed.

(** ** Examples *)

Definition exampleCertificate (cn : string) : Certificate :=
  {| cert_CommonName := cn; cert_Organization := ["ops"]; cert_SerialNumber := "1";
     cert_SubjectKeyId := ""; cert_AuthorityKeyId := "" |}.

Definition acceptAll (c : Certificate) (o : VerifyOptions) : list (list Certificate) + error := inl [[c]].

Definition proxyHeader : Header := {[ "X-Remote-User" := ["alice"]; "X-Remote-Extra-Scope" := ["a"] ]}.

Lemma front_proxy_sound_witness :
  verified acceptAll (Some {| vo_id := 0; vo_Intermediates := None |}) ["front"]
    (Some [exampleCertificate "front"]).
Proof.
  edestruct (front_proxy_sound (S := unit) (λ h _, map_to_list h) acceptAll
    (Some {| vo_id := 0; vo_Intermediates := None |}) ["front"] exampleProxy
    (Some [exampleCertificate "front"]) None (World [] proxyHeader tt)) as [[Hv _]|(_ & Ha & _)];
    [vm_compute; reflexivity|exact Hv|discriminate Ha].
Defined.

Lemma headerrequest_cleared_witness :
  ∃ w', headerrequest_AuthenticateRequest (λ h _, map_to_list h) exampleProxy None (World [] proxyHeader tt) =
          Ret ((Some 0, true, None), w') ∧ w_header w' !! "X-Remote-Extra-Scope" = None.
Proof.
  eexists. split; [vm_compute; reflexivity|].
  eapply (proj1 (proj2 (headerrequest_cleared (λ h _, map_to_list h) exampleProxy None
            (World [] proxyHeader tt) _ 0 (λ _, Permutation_refl _) ltac:(vm_compute; reflexivity)))
          "X-Remote-Extra-" "X-Remote-Extra-Scope"); [left|vm_compute; reflexivity..].
Defined.

Lemma x509_CommonName_spec_witness :
  ∃ w', @x509_AuthenticateRequest unit acceptAll golib_errors_model
          (Some {| vo_id := 0; vo_Intermediates := None |}) CommonNameUserConversion
          (Some [exampleCertificate "bob"]) None (World [] ∅ tt) = Ret ((Some 0, true, None), w') ∧
        ∃ c, acceptAll c {| vo_id := 0; vo_Intermediates := None |} = inl [[c]].
Proof.
  eexists. split; [vm_compute; reflexivity|].
  destruct (@x509_CommonName_spec unit acceptAll golib_errors_model
    (Some {| vo_id := 0; vo_Intermediates := None |}) (Some [exampleCertificate "bob"]) None
    (World [] ∅ tt) _ 0 ltac:(vm_compute; reflexivity)) as (c & _).
  exists c. reflexivity.
Defined.
