(* ===== verification/Webhook.v ===== *)
(** * Webhooks

    src/pkg/util/webhook (retries, client configuration, validation),
    src/plugin/authorizer/webhook (the webhook authorizer and its cache) and
    src/plugin/authenticator/token/webhook (the webhook token authenticator).

    The remote service, JSON encoding and url.Parse are parameters, and so are
    golib's exponential backoff and LRU cache with expiry, with what they document
    as laws.  [R] is the state of the remote service and of the clock. *)

From stdpp Require Import pretty.
From S2P Require Import Prelude GoStrings GoEncoding Authorizer Authn RbacTypes.

Local Open Scope go_scope.

(** ** golib: wait.ExponentialBackoffWithContext

    "Repeats a condition check with exponential backoff: it stops when the condition
    returns true or an error, when the steps are used up, or when the context is
    done." *)

Class Backoff := ExponentialBackoffWithContext :
  ∀ X, nat → (X → bool * option error * X) → X → option error * X.

Inductive backoff_runs {X} (cond : X → bool * option error * X) : nat → X → option error → X → Prop :=
  | br_done n x x' : cond x = (true, None, x') → backoff_runs cond (S n) x None x'
  | br_err n x b e x' : cond x = (b, Some e, x') → backoff_runs cond (S n) x (Some e) x'
  | br_retry n x x' r x'' :
      cond x = (false, None, x') → backoff_runs cond n x' r x'' → backoff_runs cond (S n) x r x''
  | br_stop n x e : backoff_runs cond n x (Some e) x.

Class BackoffLaws `{Backoff} :=
  backoff_law X steps (cond : X → bool * option error * X) x :
    backoff_runs cond steps x (ExponentialBackoffWithContext X steps cond x).1
      (ExponentialBackoffWithContext X steps cond x).2.

Fixpoint backoff_loop X (steps : nat) (cond : X → bool * option error * X) (x : X) : option error * X :=
  match steps with
  | 0 => (Some (Errorf "timed out waiting for the condition" []), x)
  | S n =>
      match cond x with
      | (_, Some e, x') => (Some e, x')
      | (true, None, x') => (None, x')
      | (false, None, x') => backoff_loop X n cond x'
      end
  end.

Definition backoff_model : Backoff := backoff_loop.

Lemma backoff_model_laws : @BackoffLaws backoff_model.
Proof.
  intros X steps cond. induction steps as [|n IH]; intros x; cbn; [constructor|].
  destruct (cond x) as [[[] [e|]] x'] eqn:E; cbn;
    [by eapply br_err|by apply br_done|by eapply br_err|]. by eapply br_retry.
Qed.

(** ** golib: cache.LRUExpireCache

    An entry may be evicted at any time; [lru_Get] also returns the cache, whose
    order of use it changes. *)

Class LRUExpire (V C : Type) := {
  lru_New : C;
  lru_Get : C → Z → string → option V * C;
  lru_Add : C → Z → string → V → Z → C;
}.

Class LRUExpireLaws (V C : Type) `{LRUExpire V C} := {
  lru_New_empty t k : (lru_Get lru_New t k).1 = None;
  lru_Get_keeps c t k t' k' v : (lru_Get (lru_Get c t k).2 t' k').1 = Some v → (lru_Get c t' k').1 = Some v;
  lru_Add_spec c t k v ttl t' k' v' : (t ≤ t')%Z → (lru_Get (lru_Add c t k v ttl) t' k').1 = Some v' →
    (k' = k ∧ v' = v ∧ t' < t + ttl)%Z ∨ (k' ≠ k ∧ (lru_Get c t' k').1 = Some v');
}.

(** An unbounded cache. *)
Definition lru_model (V : Type) : LRUExpire V (gmap string (V * Z)) := {|
  lru_New := ∅;
  lru_Get c t k :=
    (match c !! k with Some (v, e) => if (t <? e)%Z then Some v else None | None => None end, c);
  lru_Add c t k v ttl := <[k := (v, (t + ttl)%Z)]> c;
|}.

Lemma lru_model_laws V : @LRUExpireLaws V _ (lru_model V).
Proof.
  split; cbn; [done|done|]. intros c t k v ttl t' k' v' Ht.
  destruct (decide (k' = k)) as [->|Hne].
  - rewrite lookup_insert_eq. destruct (Z.ltb_spec t' (t + ttl)); [|done]. intros. left. by simplify_eq.
  - rewrite lookup_insert_ne by done. by right.
Qed.

(** ** Retries (webhook.go) *)

Section Retry.
Context `{Backoff} {X : Type}.

(** [utilnet.IsConnectionReset], [errors.IsInternalError], [IsTimeout],
    [IsTooManyRequests] and [SuggestsClientDelay], each false on a nil error. *)
Context (isTransient : error → bool).

Definition DefaultShouldRetry (err : option error) : bool :=
  match err with None => false | Some e => isTransient e end.

(** [webhookErr] is the state beside the caller's. *)
Definition retry_condition (webhookFn : X → option error * X) (shouldRetry : option error → bool)
    (s : option error * X) : bool * option error * (option error * X) :=
  let '(webhookErr, x) := webhookFn s.2 in
  if shouldRetry webhookErr then (false, None, (webhookErr, x))
  else
    match webhookErr with
    | Some e => (false, Some e, (webhookErr, x))
    | None => (true, None, (webhookErr, x))
    end.

Definition WithExponentialBackoff (steps : nat) (webhookFn : X → option error * X)
    (shouldRetry : option error → bool) (x : X) : option error * X :=
  let '(err, (webhookErr, x)) :=
    ExponentialBackoffWithContext _ steps (retry_condition webhookFn shouldRetry) (None, x) in
  match webhookErr, err with
  | Some e, _ => (Some e, x)
  | None, Some e => (Some (ErrorWrap "webhook call failed: %s" [] e), x)
  | None, None => (None, x)
  end.

(** The calls of [webhookFn] along a run: [attempts n x last x'] holds when at most [n]
    calls in a row, the first from [x], lead to [x'], the last one returning [last]
    and the ones before it errors that [shouldRetry] accepts. *)
Inductive attempts (webhookFn : X → option error * X) (shouldRetry : option error → bool)
    : nat → X → option error → X → Prop :=
  | att_last n x e x' : webhookFn x = (e, x') → attempts webhookFn shouldRetry (S n) x e x'
  | att_more n x e x' last x'' :
      webhookFn x = (e, x') → shouldRetry e = true →
      attempts webhookFn shouldRetry n x' last x'' → attempts webhookFn shouldRetry (S n) x last x''.

Context `{!BackoffLaws}.

Lemma retry_runs webhookFn shouldRetry steps x0 x err we x' :
  backoff_runs (retry_condition webhookFn shouldRetry) steps (x0, x) err (we, x') →
  (we = x0 ∧ x' = x ∧ is_Some err) ∨
  (attempts webhookFn shouldRetry steps x we x' ∧ (err = None → we = None)).
Proof.
  remember (x0, x) as s eqn:Es. remember (we, x') as s' eqn:Es'. intros Hr.
  revert x0 x Es Es'.
  induction Hr as [n s s2 Hc|n s b e s2 Hc|n s s2 r s3 Hc Hr IH|n s e]; intros x0 x -> Es'; subst;
    unfold retry_condition in *; cbn in *; try (destruct (webhookFn x) as [e1 x1] eqn:Ew).
  - right. destruct (shouldRetry e1); [done|]. destruct e1; simplify_eq. split; [by apply att_last|done].
  - right. destruct (shouldRetry e1); [done|]. destruct e1; simplify_eq. split; [by apply att_last|done].
  - right. destruct (shouldRetry e1) eqn:Hs; [|by destruct e1]. simplify_eq.
    destruct (IH _ _ eq_refl eq_refl) as [(-> & -> & [? ->])|[Ha Hn]].
    + split; [by apply att_last|done].
    + split; [by eapply att_more|done].
  - left. simplify_eq. split_and!; by eexists || done.
Qed.

(** What the retry loop guarantees: it never succeeds without a call that succeeded,
    it makes at most [steps] calls, it calls again only after an error that may be
    retried, and the error it returns is that of the last call when there was one. *)
Lemma WithExponentialBackoff_attempts steps webhookFn shouldRetry x :
  let '(err, x') := WithExponentialBackoff steps webhookFn shouldRetry x in
  match err with
  | None => attempts webhookFn shouldRetry steps x None x'
  | Some e => attempts webhookFn shouldRetry steps x (Some e) x' ∨
      (∃ e', e = ErrorWrap "webhook call failed: %s" [] e' ∧
       (x' = x ∨ attempts webhookFn shouldRetry steps x None x'))
  end.
Proof.
  unfold WithExponentialBackoff.
  pose proof (backoff_law _ steps (retry_condition webhookFn shouldRetry) (None, x)) as Hl.
  destruct (ExponentialBackoffWithContext _ _ _ _) as [err [we x']]. cbn in Hl.
  apply retry_runs in Hl as [(-> & -> & [e ->])|[Ha Hn]].
  - right. exists e. auto.
  - destruct we as [e|]; [by left|]. destruct err as [e|]; [|done]. right. exists e. auto.
Qed.

(** A property of the state that every call keeps, and that holds of the result of a
    successful one, holds of the result of the loop. *)
Lemma attempts_inv (I : X → Prop) (Q : X → Prop) webhookFn shouldRetry n x e x' :
  (∀ y e y', I y → webhookFn y = (e, y') → I y' ∧ (e = None → Q y')) →
  attempts webhookFn shouldRetry n x e x' → I x → I x' ∧ (e = None → Q x').
Proof. intros Hf Ha. induction Ha as [n x e x' Hw|n x e x' l x'' Hw Hs Ha IH]; intros Hx; naive_solver. Qed.
End Retry.

(** ** The webhook authorizer *)

Record ResourceAttributes := {
  ra_Namespace : string; ra_Verb : string; ra_Group : string; ra_Version : string;
  ra_Resource : string; ra_Subresource : string; ra_Name : string;
}.
Record NonResourceAttributes := { nra_Path : string; nra_Verb : string }.

Record SubjectAccessReviewSpec := {
  sar_ResourceAttributes : option ResourceAttributes;
  sar_NonResourceAttributes : option NonResourceAttributes;
  sar_User : string;
  sar_Groups : list string;
  sar_Extra : gmap string (list string);
  sar_UID : string;
}.

Record SubjectAccessReviewStatus := {
  sar_Allowed : bool; sar_Denied : bool; sar_Reason : string; sar_EvaluationError : string;
}.

Definition maxControlledAttrCacheSize : Z := 10000.

Definition shouldCache (attr : AttributesRecord) : bool :=
  (Z.of_nat (slen (a_Namespace attr)) + Z.of_nat (slen (a_Verb attr)) +
   Z.of_nat (slen (a_APIGroup attr)) + Z.of_nat (slen (a_APIVersion attr)) +
   Z.of_nat (slen (a_Resource attr)) + Z.of_nat (slen (a_Subresource attr)) +
   Z.of_nat (slen (a_Name attr)) + Z.of_nat (slen (a_Path attr)) <? maxControlledAttrCacheSize)%Z.

Definition convertToSARExtra (extra : gmap string (list string)) : gmap string (list string) := extra.

(** The review built from the attributes. *)
Definition review_of (attr : AttributesRecord) : SubjectAccessReviewSpec :=
  let ra := if a_ResourceRequest attr then
              Some {| ra_Namespace := a_Namespace attr; ra_Verb := a_Verb attr; ra_Group := a_APIGroup attr;
                      ra_Version := a_APIVersion attr; ra_Resource := a_Resource attr;
                      ra_Subresource := a_Subresource attr; ra_Name := a_Name attr |}
            else None in
  let nra := if a_ResourceRequest attr then None
             else Some {| nra_Path := a_Path attr; nra_Verb := a_Verb attr |} in
  match a_User attr with
  | Some user =>
      {| sar_ResourceAttributes := ra; sar_NonResourceAttributes := nra; sar_User := u_Name user;
         sar_Groups := u_Groups user; sar_Extra := convertToSARExtra (u_Extra user); sar_UID := u_UID user |}
  | None =>
      {| sar_ResourceAttributes := ra; sar_NonResourceAttributes := nra; sar_User := "";
         sar_Groups := []; sar_Extra := ∅; sar_UID := "" |}
  end.

(** The switch at the end of [Authorize]. *)
Definition status_verdict (s : SubjectAccessReviewStatus) : verdict :=
  if sar_Denied s && sar_Allowed s then
    Verdict DecisionDeny (sar_Reason s)
      (Some (Errorf "webhook subject access review returned both allow and deny response" []))
  else if sar_Denied s then Verdict DecisionDeny (sar_Reason s) None
  else if sar_Allowed s then Verdict DecisionAllow (sar_Reason s) None
  else Verdict DecisionNoOpinion (sar_Reason s) None.

Section Authorizer.
Context `{Backoff} `{LRUExpire SubjectAccessReviewStatus C} {R : Type}.
Context (isTransient : error → bool).
(** json.Marshal of the spec; time.Now(); Post().Body(review).Do(ctx).Into(result),
    which leaves a status in [result] and returns an error. *)
Context (marshal : SubjectAccessReviewSpec → string + error).
Context (now : R → Z).
Context (PostInto : SubjectAccessReviewSpec → R → SubjectAccessReviewStatus * option error * R).

(** subjectAccessReviewV1Client: [result] is never nil. *)
Definition subjectAccessReviewV1Client_Create (spec : SubjectAccessReviewSpec) (r : R)
    : option SubjectAccessReviewStatus * option error * R :=
  let '(result, err, r) := PostInto spec r in (Some result, err, r).

Record WebhookAuthorizer := {
  wh_authorizedTTL : Z;
  wh_unauthorizedTTL : Z;
  wh_retrySteps : nat;
  wh_decisionOnError : Decision;
}.

Definition newWithBackoff (authorizedTTL unauthorizedTTL : Z) (retrySteps : nat) : WebhookAuthorizer :=
  {| wh_authorizedTTL := authorizedTTL; wh_unauthorizedTTL := unauthorizedTTL;
     wh_retrySteps := retrySteps; wh_decisionOnError := DecisionNoOpinion |}.

(** The response cache and the rest of the world. *)
Record wh_state := WH { wh_cache : C; wh_remote : R }.

(** One call of the remote service: [result] is the variable the closure assigns. *)
Definition createFn (spec : SubjectAccessReviewSpec) (x : option SubjectAccessReviewStatus * R)
    : option error * (option SubjectAccessReviewStatus * R) :=
  let '(result, sarErr, r) := subjectAccessReviewV1Client_Create spec x.2 in (sarErr, (result, r)).

Definition ttl_of (w : WebhookAuthorizer) (s : SubjectAccessReviewStatus) : Z :=
  if sar_Allowed s then wh_authorizedTTL w else wh_unauthorizedTTL w.

Definition webhook_Authorize (w : WebhookAuthorizer) (attr : AttributesRecord)
    : ST wh_state (outcome verdict) := λ st,
  match marshal (review_of attr) with
  | inr e => (Ret (Verdict (wh_decisionOnError w) "" (Some e)), st)
  | inl key =>
      let '(entry, c) := lru_Get (wh_cache st) (now (wh_remote st)) key in
      match entry with
      | Some status => (Ret (status_verdict status), WH c (wh_remote st))
      | None =>
          match WithExponentialBackoff (wh_retrySteps w) (createFn (review_of attr))
                  (DefaultShouldRetry isTransient) (None, wh_remote st) with
          | (Some e, (_, r)) => (Ret (Verdict (wh_decisionOnError w) "" (Some e)), WH c r)
          | (None, (None, r)) => (Panic "nil pointer dereference", WH c r)
          | (None, (Some status, r)) =>
              let c := if shouldCache attr then lru_Add c (now r) key status (ttl_of w status) else c in
              (Ret (status_verdict status), WH c r)
          end
      end
  end.

(** [RulesFor] of the webhook authorizer: no rules, incomplete, an error. *)
Definition webhook_RulesFor
    : list DefaultResourceRuleInfo * list DefaultNonResourceRuleInfo * bool * option error :=
  ([], [], true, Some (Errorf "webhook authorizer does not support user rule resolution" [])).

(** *** Soundness of the cache

    [history] is what the remote service has answered and when; the clock does not go
    back.  The environment may do anything else between two calls. *)
Context `{!BackoffLaws} `{!LRUExpireLaws SubjectAccessReviewStatus C}.
Context (history : R → list (SubjectAccessReviewSpec * SubjectAccessReviewStatus * Z)).

Definition evolves (r r' : R) : Prop := (now r ≤ now r')%Z ∧ history r ⊆ history r'.

Class RemoteLaws := {
  PostInto_evolves spec r : evolves r (PostInto spec r).2;
  PostInto_answer spec r status r' :
    PostInto spec r = (status, None, r') → (spec, status, now r') ∈ history r';
}.
Context `{!RemoteLaws}.

(** Calls of [Authorize] on one authorizer, with anything the rest of the world does
    in between. *)
Inductive wh_reachable (w : WebhookAuthorizer) : wh_state → Prop :=
  | wr_init r : wh_reachable w (WH lru_New r)
  | wr_env st r' : wh_reachable w st → evolves (wh_remote st) r' → wh_reachable w (WH (wh_cache st) r')
  | wr_call st attr : wh_reachable w st → wh_reachable w (webhook_Authorize w attr st).2.

(** Every entry the cache may still serve was answered by the remote service for a
    review with the same JSON, less than its time to live ago. *)
Definition cache_fresh (w : WebhookAuthorizer) (st : wh_state) : Prop :=
  ∀ t k status, (now (wh_remote st) ≤ t)%Z → (lru_Get (wh_cache st) t k).1 = Some status →
    ∃ spec t0, marshal spec = inl k ∧ (spec, status, t0) ∈ history (wh_remote st) ∧
               (t0 ≤ now (wh_remote st) ∧ t < t0 + ttl_of w status)%Z.

Lemma evolves_refl r : evolves r r.
Proof. done. Qed.

Lemma evolves_trans r1 r2 r3 : evolves r1 r2 → evolves r2 r3 → evolves r1 r3.
Proof. intros [? ?] [? ?]. split; [lia|]. by etrans. Qed.

Lemma cache_fresh_evolves w c r r' : cache_fresh w (WH c r) → evolves r r' → cache_fresh w (WH c r').
Proof.
  intros Hf [Ht Hh] t k s Hle Hg. cbn in *.
  destruct (Hf t k s) as (spec & t0 & ? & ? & ? & ?); cbn in *; [lia|done|].
  exists spec, t0. split_and!; auto; lia.
Qed.

Lemma cache_fresh_Get w c r t k : cache_fresh w (WH c r) → cache_fresh w (WH (lru_Get c t k).2 r).
Proof. intros Hf t' k' s Hle Hg. apply (Hf t' k' s Hle). by eapply lru_Get_keeps. Qed.

Lemma cache_fresh_Add w c r spec k status :
  marshal spec = inl k → (spec, status, now r) ∈ history r → cache_fresh w (WH c r) →
  cache_fresh w (WH (lru_Add c (now r) k status (ttl_of w status)) r).
Proof.
  intros Hm Hin Hf t' k' s Hle Hg. cbn in *.
  apply lru_Add_spec in Hg as [(-> & -> & Hlt)|[_ Hg]]; [|by apply (Hf t' k' s)|done].
  exists spec, (now r). auto with lia.
Qed.

(** The two outcomes of the calls to the remote service. *)
Lemma create_loop w spec r :
  match WithExponentialBackoff (wh_retrySteps w) (createFn spec) (DefaultShouldRetry isTransient) (None, r) with
  | (Some e, (_, r')) => evolves r r'
  | (None, (result, r')) =>
      evolves r r' ∧ ∃ status, result = Some status ∧ (spec, status, now r') ∈ history r'
  end.
Proof.
  set (I := λ x : option SubjectAccessReviewStatus * R, evolves r x.2).
  set (Q := λ x : option SubjectAccessReviewStatus * R,
              ∃ status, x.1 = Some status ∧ (spec, status, now x.2) ∈ history x.2).
  assert (Hf : ∀ y e y', I y → createFn spec y = (e, y') → I y' ∧ (e = None → Q y')).
  { intros [o y] e y' Hy. unfold createFn, subjectAccessReviewV1Client_Create. cbn.
    destruct (PostInto spec y) as [[status err] r'] eqn:Hp. intros. simplify_eq. split.
    - eapply evolves_trans; [exact Hy|]. pose proof (PostInto_evolves spec y) as He. by rewrite Hp in He.
    - intros ->. exists status. split; [done|]. by apply PostInto_answer with y. }
  pose proof (WithExponentialBackoff_attempts (wh_retrySteps w) (createFn spec)
                (DefaultShouldRetry isTransient) (None, r)) as Ha.
  destruct (WithExponentialBackoff _ _ _ _) as [[e|] [result r']].
  - destruct Ha as [Ha|(e' & -> & [Ha|Ha])]; [|by simplify_eq|];
      by apply (attempts_inv I Q _ _ _ _ _ _ Hf) in Ha as [? _].
  - apply (attempts_inv I Q _ _ _ _ _ _ Hf) in Ha as [HI HQ]; [|done]. split; [exact HI|]. exact (HQ eq_refl).
Qed.

(** The state after one call, and where its verdict comes from. *)
Lemma webhook_Authorize_cases w attr st :
  cache_fresh w st →
  let '(res, st') := webhook_Authorize w attr st in
  evolves (wh_remote st) (wh_remote st') ∧ cache_fresh w st' ∧
  ((∃ e, res = Ret (Verdict (wh_decisionOnError w) "" (Some e))) ∨
   (∃ spec status t0 key, res = Ret (status_verdict status) ∧
      marshal (review_of attr) = inl key ∧ marshal spec = inl key ∧
      (spec, status, t0) ∈ history (wh_remote st') ∧ (t0 ≤ now (wh_remote st'))%Z ∧
      (t0 = now (wh_remote st') ∨ now (wh_remote st) < t0 + ttl_of w status)%Z)).
Proof.
  intros Hf. unfold webhook_Authorize. destruct st as [c r]. cbn.
  destruct (marshal (review_of attr)) as [key|e] eqn:Hm; [|cbn; split_and!; eauto using evolves_refl].
  pose proof (cache_fresh_Get w c r (now r) key Hf) as Hfg.
  destruct (lru_Get c (now r) key) as [[status|] c1] eqn:Hg; cbn in Hfg |- *.
  - split_and!; [apply evolves_refl|done|]. right.
    destruct (Hf (now r) key status) as (spec & t0 & Hms & Hin & Ht0 & Hlt); cbn; [done|by rewrite Hg|].
    exists spec, status, t0, key. auto 10.
  - pose proof (create_loop w (review_of attr) r) as Hc.
    destruct (WithExponentialBackoff _ _ _ _) as [[e|] [result r']].
    + cbn. split_and!; [done|by eapply cache_fresh_evolves|eauto].
    + destruct Hc as [He (status & -> & Hin)].
      assert (Hf' := cache_fresh_evolves w c1 r r' Hfg He).
      split_and!; cbn; [done| |].
      * destruct (shouldCache attr); [|done]. by eapply cache_fresh_Add.
      * right. exists (review_of attr), status, (now r'), key. auto 10 with lia.
Qed.

Lemma wh_reachable_fresh w st : wh_reachable w st → cache_fresh w st.
Proof.
  induction 1 as [r|st r' _ IH He|st attr _ IH].
  - intros t k s _ Hg. cbn in Hg. by rewrite lru_New_empty in Hg.
  - destruct st. by eapply cache_fresh_evolves.
  - pose proof (webhook_Authorize_cases w attr st IH) as Hc.
    destruct (webhook_Authorize w attr st) as [? st']. by destruct Hc as (_ & ? & _).
Qed.

(** C20: the webhook authorizer allows a request only on the word of the remote service:
    whatever calls came before, a request is allowed only if the service answered
    "allowed" and not "denied" to a review with the same JSON, either during this call
    or less than the authorized time to live before it; and the call never panics. *)
Theorem webhook_sound authorizedTTL unauthorizedTTL steps attr st :
  let w := newWithBackoff authorizedTTL unauthorizedTTL steps in
  wh_reachable w st →
  ∃ v st', webhook_Authorize w attr st = (Ret v, st') ∧
    (v_decision v = DecisionAllow →
     ∃ key spec status t0,
       marshal (review_of attr) = inl key ∧ marshal spec = inl key ∧
       (spec, status, t0) ∈ history (wh_remote st') ∧
       sar_Allowed status = true ∧ sar_Denied status = false ∧
       (t0 ≤ now (wh_remote st') ∧
        (t0 = now (wh_remote st') ∨ now (wh_remote st) < t0 + authorizedTTL))%Z).
Proof.
  intros w Hr. apply wh_reachable_fresh in Hr.
  pose proof (webhook_Authorize_cases w attr st Hr) as Hc.
  destruct (webhook_Authorize w attr st) as [res st'].
  destruct Hc as (_ & _ & [[e ->]|(spec & status & t0 & key & -> & Hm & Hms & Hin & Ht & Hd)]);
    eexists _, _; (split; [done|]); [done|].
  unfold status_verdict, ttl_of in *. destruct status as [[] [] ? ?]; cbn in *; try done.
  intros _. exists key, spec. eexists _, t0. split_and!; [done|done|exact Hin|done|done|done|done].
Qed.
End Authorizer.

(** ** The webhook token authenticator *)

Record ReviewUserInfo := { ui_Username : string; ui_UID : string; ui_Groups : list string;
                     ui_Extra : gmap string (list string) }.
Record TokenReviewStatus := { tr_Authenticated : bool; tr_User : ReviewUserInfo; tr_Audiences : list string;
                              tr_Error : string }.

Section TokenAuthenticator.
Context `{Backoff} {S : Type} (isTransient : error → bool).
(** Post().Body(review).Do(ctx).Into(result): token and audiences of the review. *)
Context (PostReview : string → list string → S → TokenReviewStatus * option error * S).

(** tokenReviewV1Client: [result] is never nil. *)
Definition tokenReviewV1Client_Create (token : string) (auds : list string) (s : S)
    : option TokenReviewStatus * option error * S :=
  let '(result, err, s) := PostReview token auds s in (Some result, err, s).

Definition reviewFn (token : string) (auds : list string) (x : option TokenReviewStatus * S)
    : option error * (option TokenReviewStatus * S) :=
  let '(result, tokenReviewErr, s) := tokenReviewV1Client_Create token auds x.2 in
  (tokenReviewErr, (result, s)).

(** What follows the remote call. *)
Definition review_answer (implicitAuds : list string) (ctx : context) (status : TokenReviewStatus)
    : option Response * bool * option error :=
  let auds := match ctx with
              | None => Some []
              | Some wantAuds =>
                  let gotAuds := if 0 <? length (tr_Audiences status) then tr_Audiences status
                                 else implicitAuds in
                  match Audiences_Intersect wantAuds gotAuds with [] => None | auds => Some auds end
              end in
  match auds with
  | None => (None, false, None)
  | Some auds =>
      if negb (tr_Authenticated status)
      then (None, false, if slen (tr_Error status) =? 0 then None else Some (Errorf (tr_Error status) []))
      else (Some {| resp_Audiences := auds;
                    resp_User := Some {| u_Name := ui_Username (tr_User status); u_UID := ui_UID (tr_User status);
                                         u_Groups := ui_Groups (tr_User status);
                                         u_Extra := ui_Extra (tr_User status) |} |}, true, None)
  end.

Definition webhook_AuthenticateToken (retrySteps : nat) (implicitAuds : list string) : Token S :=
  λ ctx token w,
  match WithExponentialBackoff retrySteps (reviewFn token (default [] ctx))
          (DefaultShouldRetry isTransient) (None, w_state w) with
  | (Some e, (_, s)) => Ret ((None, false, Some e), World (w_heap w) (w_header w) s)
  | (None, (None, s)) => Panic "nil pointer dereference"
  | (None, (Some status, s)) =>
      let w := World (w_heap w) (w_header w) s in
      match review_answer implicitAuds ctx status with
      | (Some r, ok, e) => (l ← new_response r; mret (Some l, ok, e)) w
      | (None, ok, e) => Ret ((None, ok, e), w)
      end
  end.

Context `{!BackoffLaws}.

Lemma Audiences_Intersect_spec a tauds x : x ∈ Audiences_Intersect a tauds ↔ x ∈ a ∧ x ∈ tauds.
Proof.
  unfold Audiences_Intersect, Audiences_Has. rewrite list_elem_of_filter.
  by rewrite existsb_eq_elem_of, bool_decide_eq_true.
Qed.

(** A token is accepted only when the review of this token, with the audiences of the
    request, came back authenticated; the response is then a new one with the user of
    the review; and when the request is limited to audiences, the response has some,
    and each is both wanted and granted by the review (or implicit when the review
    grants none).  The call never panics. *)
Theorem webhook_token_sound retrySteps implicitAuds ctx token w :
  ∃ resp ok err w', webhook_AuthenticateToken retrySteps implicitAuds ctx token w = Ret ((resp, ok, err), w') ∧
    (ok = false → resp = None ∧ w_heap w' = w_heap w) ∧
    (ok = true →
      ∃ status s0 r, PostReview token (default [] ctx) s0 = (status, None, w_state w') ∧
        tr_Authenticated status = true ∧ err = None ∧
        resp = Some (length (w_heap w)) ∧ w_heap w' = w_heap w ++ [r] ∧
        (u_Name <$> resp_User r) = Some (ui_Username (tr_User status)) ∧
        (u_Groups <$> resp_User r) = Some (ui_Groups (tr_User status)) ∧
        match ctx with
        | None => resp_Audiences r = []
        | Some wantAuds =>
            resp_Audiences r ≠ [] ∧
            ∀ aud, aud ∈ resp_Audiences r →
              aud ∈ wantAuds ∧ aud ∈ (if decide (tr_Audiences status = []) then implicitAuds else tr_Audiences status)
        end).
Proof.
  unfold webhook_AuthenticateToken.
  set (f := reviewFn token (default [] ctx)).
  pose proof (WithExponentialBackoff_attempts retrySteps f (DefaultShouldRetry isTransient) (None, w_state w)) as Ha.
  destruct (WithExponentialBackoff _ _ _ _) as [[e|] [result s]]; [by eexists _, _, _, _|].
  set (Q := λ x : option TokenReviewStatus * S, ∃ status s0,
              x.1 = Some status ∧ PostReview token (default [] ctx) s0 = (status, None, x.2)).
  assert (HQ : Q (result, s)).
  { eapply (attempts_inv (λ _, True) Q) in Ha as [_ HQ]; [by apply HQ| |done].
    intros [o y] e y' _. unfold f, reviewFn, tokenReviewV1Client_Create. cbn.
    destruct (PostReview _ _ y) as [[status err] s'] eqn:Hp. intros. simplify_eq.
    split; [done|]. intros ->. exists status, y. done. }
  destruct HQ as (status & s0 & Hres & Hp). cbn in Hres, Hp. subst result.
  unfold review_answer. destruct ctx as [wantAuds|]; cycle 1.
  { destruct (tr_Authenticated status) eqn:Hauth; cbn; eexists _, _, _, _; (split; [done|]); [|done].
    split; [done|]. intros _. exists status, s0. eexists. split_and!; done. }
  assert (Hgot : (if 0 <? length (tr_Audiences status) then tr_Audiences status else implicitAuds) =
            (if decide (tr_Audiences status = []) then implicitAuds else tr_Audiences status)).
  { destruct (tr_Audiences status); [done|]. by rewrite decide_False. }
  rewrite Hgot. set (got := if decide _ then _ else _).
  destruct (Audiences_Intersect wantAuds got) as [|aud auds] eqn:Hi; [by eexists _, _, _, _|].
  destruct (tr_Authenticated status) eqn:Hauth; cbn; eexists _, _, _, _; (split; [done|]); [|done].
  split; [done|]. intros _. exists status, s0. eexists. split_and!; try done.
  cbn. intros x Hx. rewrite <- Hi in Hx. by apply Audiences_Intersect_spec in Hx.
Qed.
End TokenAuthenticator.

(** ** Where webhooks are called (authentication.go, client.go, validation.go) *)

(** net.JoinHostPort and net.SplitHostPort. *)
Definition JoinHostPort (host port : string) : string :=
  if ContainsByte host ":" then "[" +:+ host +:+ "]:" +:+ port else host +:+ ":" +:+ port.

(** Position of the last occurrence, of the first occurrence. *)
Fixpoint last_index (s : string) (c : ascii) : option nat :=
  match s with
  | EmptyString => None
  | String a s' =>
      match last_index s' c with
      | Some i => Some (S i)
      | None => if a == c then Some 0 else None
      end
  end.

Fixpoint first_index (s : string) (c : ascii) : option nat :=
  match s with
  | EmptyString => None
  | String a s' => if a == c then Some 0 else S <$> first_index s' c
  end.

Definition SplitHostPort (hostport : string) : option (string * string) :=
  match last_index hostport ":" with
  | None => None
  | Some i =>
      let hjk :=
        if HasPrefix hostport "[" then
          match first_index hostport "]" with
          | None => None
          | Some e => if S e =? i then Some (stake (e - 1) (sdrop 1 hostport), 1, S e) else None
          end
        else
          if ContainsByte (stake i hostport) ":" then None else Some (stake i hostport, 0, 0) in
      match hjk with
      | None => None
      | Some (host, j, k) =>
          if ContainsByte (sdrop j hostport) "[" || ContainsByte (sdrop k hostport) "]" then None
          else Some (host, sdrop (S i) hostport)
      end
  end.

(** clientcmd's AuthInfo and rest.Config, as far as they are copied. *)
Record AuthInfo := {
  ai_ClientCertificate : string; ai_ClientCertificateData : string;
  ai_ClientKey : string; ai_ClientKeyData : string;
  ai_Token : string; ai_TokenFile : string;
  ai_Impersonate : string; ai_ImpersonateGroups : list string;
  ai_ImpersonateUserExtra : gmap string (list string);
  ai_Username : string; ai_Password : string;
  ai_Exec : option string; ai_AuthProvider : option string;
}.

Record rest_Config := {
  rc_BearerToken : string; rc_BearerTokenFile : string;
  rc_Impersonate : option (string * list string * gmap string (list string));
  rc_CertFile : string; rc_CertData : string; rc_KeyFile : string; rc_KeyData : string;
  rc_Username : string; rc_Password : string; rc_ExecProvider : option string;
  rc_UserAgent : string; rc_Timeout : Z;
  rc_Host : string; rc_APIPath : string; rc_ServerName : string; rc_CAData : string;
  rc_QPS : Z; rc_NextProtos : list string; rc_ContentType : string;
}.

Definition emptyConfig : rest_Config :=
  {| rc_BearerToken := ""; rc_BearerTokenFile := ""; rc_Impersonate := None; rc_CertFile := "";
     rc_CertData := ""; rc_KeyFile := ""; rc_KeyData := ""; rc_Username := ""; rc_Password := "";
     rc_ExecProvider := None; rc_UserAgent := ""; rc_Timeout := 0; rc_Host := ""; rc_APIPath := ""; rc_ServerName := "";
     rc_CAData := ""; rc_QPS := 0; rc_NextProtos := []; rc_ContentType := "" |}.

Definition setGlobalDefaults (c : rest_Config) : rest_Config :=
  {| rc_BearerToken := rc_BearerToken c; rc_BearerTokenFile := rc_BearerTokenFile c;
     rc_Impersonate := rc_Impersonate c; rc_CertFile := rc_CertFile c; rc_CertData := rc_CertData c;
     rc_KeyFile := rc_KeyFile c; rc_KeyData := rc_KeyData c; rc_Username := rc_Username c;
     rc_Password := rc_Password c; rc_ExecProvider := rc_ExecProvider c; rc_UserAgent := "kube-apiserver-admission";
     rc_Timeout := 30000000000; rc_Host := rc_Host c; rc_APIPath := rc_APIPath c;
     rc_ServerName := rc_ServerName c; rc_CAData := rc_CAData c;
     rc_QPS := rc_QPS c; rc_NextProtos := rc_NextProtos c; rc_ContentType := rc_ContentType c |}.

Section Clients.
(** Reading a token file; rest.InClusterConfig. *)
Context (ReadFile : string → string + error) (InClusterConfig : rest_Config + error).

Definition restConfigFromKubeconfig (a : AuthInfo) : rest_Config + error :=
  let token :=
    if 0 <? slen (ai_Token a) then inl (ai_Token a, ai_TokenFile a)
    else if 0 <? slen (ai_TokenFile a) then
      match ReadFile (ai_TokenFile a) with
      | inl b => inl (b, ai_TokenFile a)
      | inr e => inr e
      end
    else inl ("", "") in
  match token with
  | inr e => inr e
  | inl (bearer, file) =>
      let cert := (0 <? slen (ai_ClientCertificate a)) || (0 <? slen (ai_ClientCertificateData a)) in
      let basic := (0 <? slen (ai_Username a)) || (0 <? slen (ai_Password a)) in
      if bool_decide (is_Some (ai_AuthProvider a)) then inr (Errorf "auth provider not supported" [])
      else inl (setGlobalDefaults
        {| rc_BearerToken := bearer; rc_BearerTokenFile := file;
           rc_Impersonate := (if 0 <? slen (ai_Impersonate a)
             then Some (ai_Impersonate a, ai_ImpersonateGroups a, ai_ImpersonateUserExtra a) else None);
           rc_CertFile := (if cert then ai_ClientCertificate a else "");
           rc_CertData := (if cert then ai_ClientCertificateData a else "");
           rc_KeyFile := (if cert then ai_ClientKey a else "");
           rc_KeyData := (if cert then ai_ClientKeyData a else "");
           rc_Username := (if basic then ai_Username a else "");
           rc_Password := (if basic then ai_Password a else "");
           rc_ExecProvider := ai_Exec a;
           rc_UserAgent := ""; rc_Timeout := 0; rc_Host := ""; rc_APIPath := ""; rc_ServerName := "";
           rc_CAData := ""; rc_QPS := 0; rc_NextProtos := []; rc_ContentType := "" |})
  end.

Record kubeconfig := {
  kc_AuthInfos : gmap string AuthInfo;
  kc_CurrentContext : string;
  kc_Contexts : gmap string string;       (* the AuthInfo name of each context *)
}.

(** The loop over "*." followed by the steps from the i-th on. *)
Fixpoint star_loop (c : kubeconfig) (steps : list string) : option AuthInfo :=
  match steps with
  | [] | [_] => None
  | _ :: rest =>
      match kc_AuthInfos c !! ("*." +:+ Join rest ".") with
      | Some a => Some a
      | None => star_loop c rest
      end
  end.

(** Exact match, then star prefixed match. *)
Definition host_match (c : kubeconfig) (target : string) : option AuthInfo :=
  match kc_AuthInfos c !! target with
  | Some a => Some a
  | None => star_loop c (Split target ".")
  end.

Definition clientConfig (c : kubeconfig) (target : string) : rest_Config + error :=
  let without_port :=
    match SplitHostPort target with
    | Some (host, port) => if port == "443" then host_match c host else None
    | None => None
    end in
  let fallback :=
    match kc_AuthInfos c !! "*" with
    | Some a => restConfigFromKubeconfig a
    | None =>
        match (if 0 <? slen (kc_CurrentContext c) then
                 match kc_Contexts c !! kc_CurrentContext c with
                 | Some name => if 0 <? slen name then kc_AuthInfos c !! name else None
                 | None => None
                 end
               else None) with
        | Some a => restConfigFromKubeconfig a
        | None => inl (setGlobalDefaults emptyConfig)
        end
    end in
  match host_match c target with
  | Some a => restConfigFromKubeconfig a
  | None =>
      match without_port with
      | Some a => restConfigFromKubeconfig a
      | None =>
          if target == "kubernetes.default.svc:443" then
            match InClusterConfig with
            | inl cfg => inl (setGlobalDefaults cfg)
            | inr _ => fallback
            end
          else fallback
      end
  end.

Definition ClientConfigFor (c : kubeconfig) (hostPort : string) : rest_Config + error :=
  clientConfig c hostPort.
Definition ClientConfigForService (c : kubeconfig) (serviceName serviceNamespace : string) (port : Z)
    : rest_Config + error :=
  clientConfig c (JoinHostPort (serviceName +:+ "." +:+ serviceNamespace +:+ ".svc") (pretty port)).

(** *** Clients of webhooks *)

Record ClientConfigService := { svc_Name : string; svc_Namespace : string; svc_Path : string; svc_Port : Z }.
Record ClientConfig := { cc_Name : string; cc_URL : string; cc_CABundle : string;
                         cc_Service : option ClientConfigService }.

(** url.Parse: scheme, host (with port), port, path, user information, query and
    fragment. *)
Record URL := { url_Scheme : string; url_Host : string; url_Port : string; url_Path : string;
                url_User : option string; url_RawQuery : string; url_Fragment : string }.
Context (url_Parse : string → URL + error) (Error_string : error → string).

Definition completeConfig (cfg : rest_Config) (host apiPath serverName : string) (caBundle : string)
    : rest_Config :=
  {| rc_BearerToken := rc_BearerToken cfg; rc_BearerTokenFile := rc_BearerTokenFile cfg;
     rc_Impersonate := rc_Impersonate cfg; rc_CertFile := rc_CertFile cfg; rc_CertData := rc_CertData cfg;
     rc_KeyFile := rc_KeyFile cfg; rc_KeyData := rc_KeyData cfg; rc_Username := rc_Username cfg;
     rc_Password := rc_Password cfg; rc_ExecProvider := rc_ExecProvider cfg; rc_UserAgent := rc_UserAgent cfg; rc_Timeout := rc_Timeout cfg;
     rc_Host := host; rc_APIPath := apiPath; rc_ServerName := serverName;
     rc_CAData := (if 0 <? slen (rc_CAData cfg) then rc_CAData cfg +:+ String "010" "" else "") +:+ caBundle;
     rc_QPS := -1; rc_NextProtos := ["http/1.1"]; rc_ContentType := "application/json" |}.

(** ErrCallingWebhook. *)
Definition errCallingWebhook (name : string) (reason : option error) : error :=
  match reason with
  | Some r => ErrorWrap "failed calling webhook %q: %v" [name] r
  | None => Errorf "failed calling webhook %q; no further details available" [name]
  end.

(** [HookClient] on a cache miss: the configuration of the client that is built
    and cached ([dial_addr] below is its dialer). *)
Definition HookClient_config (c : kubeconfig) (cc : ClientConfig) : rest_Config + error :=
  match cc_Service cc with
  | Some svc =>
      let port := if (svc_Port svc =? 0)%Z then 443%Z else svc_Port svc in
      match ClientConfigForService c (svc_Name svc) (svc_Namespace svc) port with
      | inr e => inr e
      | inl cfg =>
          let serverName := svc_Name svc +:+ "." +:+ svc_Namespace svc +:+ ".svc" in
          let host := JoinHostPort serverName (pretty port) in
          inl (completeConfig cfg ("https://" +:+ host) (svc_Path svc)
                 (if slen (rc_ServerName cfg) =? 0 then serverName else rc_ServerName cfg) (cc_CABundle cc))
      end
  | None =>
      if cc_URL cc == "" then
        inr (errCallingWebhook (cc_Name cc)
               (Some (Errorf "webhook configuration must have either service or URL" [])))
      else
        match url_Parse (cc_URL cc) with
        | inr e => inr (errCallingWebhook (cc_Name cc) (Some (ErrorWrap "Unparsable URL: %v" [] e)))
        | inl u =>
            let hostPort := if slen (url_Port u) =? 0 then JoinHostPort (url_Host u) "443" else url_Host u in
            match ClientConfigFor c hostPort with
            | inr e => inr e
            | inl cfg =>
                inl (completeConfig cfg (url_Scheme u +:+ "://" +:+ url_Host u) (url_Path u)
                       (rc_ServerName cfg) (cc_CABundle cc))
            end
        end
  end.

(** ResolveEndpoint: the host of "https://name.namespace.svc:port". *)
Definition ResolveEndpoint (namespace name : string) (port : Z) : string + error :=
  if (slen name =? 0) || (slen namespace =? 0) || (port =? 0)%Z
  then inr (Errorf "cannot resolve an empty service name or namespace or port" [])
  else inl (name +:+ "." +:+ namespace +:+ ".svc:" +:+ pretty port).

(** The address the dialer of a service's client really dials. *)
Definition dial_addr (svc : ClientConfigService) (addr : string) : string + error :=
  let port := if (svc_Port svc =? 0)%Z then 443%Z else svc_Port svc in
  let host := JoinHostPort (svc_Name svc +:+ "." +:+ svc_Namespace svc +:+ ".svc") (pretty port) in
  if addr == host then ResolveEndpoint (svc_Namespace svc) (svc_Name svc) port else inl addr.

Definition ccWithNoName (cc : ClientConfig) : ClientConfig :=
  {| cc_Name := ""; cc_URL := cc_URL cc; cc_CABundle := cc_CABundle cc; cc_Service := cc_Service cc |}.

Section HookClient.
Context {Client C : Type}.
(** json.Marshal; rest.UnversionedRESTClientFor; golib's LRU cache. *)
Context (marshalCC : ClientConfig → string + error) (UnversionedRESTClientFor : rest_Config → Client + error).
Context (cache_Get : C → string → option Client * C) (cache_Add : C → string → Client → C).

Definition HookClient (kc : kubeconfig) (cc : ClientConfig) (c : C) : (Client + error) * C :=
  match marshalCC (ccWithNoName cc) with
  | inr e => (inr e, c)
  | inl cacheKey =>
      let '(entry, c) := cache_Get c cacheKey in
      match entry with
      | Some client => (inl client, c)
      | None =>
          match HookClient_config kc cc with
          | inr e => (inr e, c)
          | inl cfg =>
              match UnversionedRESTClientFor cfg with
              | inl client => (inl client, cache_Add c cacheKey client)
              | inr e => (inr e, c)
              end
          end
      end
  end.
End HookClient.

(** *** Validation *)

(** golib's IsValidPortNum and IsDNS1123Subdomain. *)
Context (IsValidPortNum : Z → list string) (IsDNS1123Subdomain : string → list string).

Fixpoint path_steps (fldPath : list path_elem) (urlPath : string) (i : nat) (steps : list string)
    : list field_error :=
  match steps with
  | [] => []
  | step :: rest =>
      (if slen step =? 0 then
         [Invalid (fldPath ++ [Child "path"]) [urlPath] ("segment[" +:+ pretty i +:+ "] may not be empty")]
       else
         (λ failure, Invalid (fldPath ++ [Child "path"]) [urlPath]
                       ("segment[" +:+ pretty i +:+ "]: " +:+ failure)) <$> IsDNS1123Subdomain step)
      ++ path_steps fldPath urlPath (S i) rest
  end.

Definition url_form : string := "; desired format: https://host[/path]".

Definition ValidateWebhookURL (fldPath : list path_elem) (url : string) (forceHttps : bool) : list field_error :=
  match url_Parse url with
  | inr e => [Required fldPath ("url must be a valid URL: " +:+ Error_string e +:+ url_form)]
  | inl u =>
      (if forceHttps && negb (url_Scheme u == "https")
       then [Invalid fldPath [url_Scheme u] ("'https' is the only allowed URL scheme" +:+ url_form)] else []) ++
      (if slen (url_Host u) =? 0
       then [Invalid fldPath [url_Host u] ("host must be provided" +:+ url_form)] else []) ++
      (match url_User u with
       | Some user => [Invalid fldPath [user] "user information is not permitted in the URL"]
       | None => []
       end) ++
      (if negb (slen (url_Fragment u) =? 0)
       then [Invalid fldPath [url_Fragment u] "fragments are not permitted in the URL"] else []) ++
      (if negb (slen (url_RawQuery u) =? 0)
       then [Invalid fldPath [url_RawQuery u] "query parameters are not permitted in the URL"] else [])
  end.

Definition ValidateWebhookService (fldPath : list path_elem) (namespace name : string)
    (path : option string) (port : Z) : list field_error :=
  let e1 := if slen name =? 0 then [Required (fldPath ++ [Child "name"]) "service name is required"] else [] in
  let e2 := if slen namespace =? 0
            then [Required (fldPath ++ [Child "namespace"]) "service namespace is required"] else [] in
  let e3 := match IsValidPortNum port with
            | [] => []
            | errs => [Invalid (fldPath ++ [Child "port"]) [pretty port]
                         ("port is not valid: " +:+ Join errs ", ")]
            end in
  let es := e1 ++ e2 ++ e3 in
  match path with
  | None => es
  | Some urlPath =>
      if (urlPath == "/") || (slen urlPath =? 0) then es
      else if urlPath == "//"
      then es ++ [Invalid (fldPath ++ [Child "path"]) [urlPath] "segment[0] may not be empty"]
      else
        let e4 := if HasPrefix urlPath "/" then []
                  else [Invalid (fldPath ++ [Child "path"]) [urlPath] "must start with a '/'"] in
        let urlPathToCheck := sdrop 1 urlPath in
        let urlPathToCheck := if HasSuffix urlPathToCheck "/"
                              then stake (slen urlPathToCheck - 1) urlPathToCheck else urlPathToCheck in
        es ++ e4 ++ path_steps fldPath urlPath 0 (Split urlPathToCheck "/")
  end.

(** *** Theorems *)

#[local] Set Default Proof Using "Type".

(** A host or port without ':', '[' and ']'. *)
Definition plain_host (s : string) : Prop :=
  ContainsByte s ":" = false ∧ ContainsByte s "[" = false ∧ ContainsByte s "]" = false.

Lemma plain_host_app s t : plain_host (s +:+ t) ↔ plain_host s ∧ plain_host t.
Proof. unfold plain_host. rewrite !ContainsByte_app, !orb_false_iff. by split; intros; destruct_and?; split_and?. Qed.

Lemma last_index_none s c : ContainsByte s c = false → last_index s c = None.
Proof. induction s as [|a s IH]; [done|]. cbn. intros [Ha Hs]%orb_false_iff. by rewrite IH, Ha. Qed.

Lemma last_index_sep s t c : ContainsByte t c = false → last_index (s +:+ String c t) c = Some (slen s).
Proof.
  intros Ht. induction s as [|a s IH].
  - cbn [last_index slen]. rewrite sapp_nil_l. cbn [last_index]. rewrite last_index_none by done.
    by rewrite bool_decide_eq_true_2.
  - rewrite sapp_cons. cbn [last_index]. by rewrite IH.
Qed.

Lemma first_index_sep s t c : ContainsByte s c = false → first_index (s +:+ String c t) c = Some (slen s).
Proof.
  induction s as [|a s IH].
  - rewrite sapp_nil_l. cbn [first_index]. by rewrite bool_decide_eq_true_2.
  - rewrite sapp_cons. cbn [first_index ContainsByte]. intros [Ha Hs]%orb_false_iff. by rewrite Ha, IH.
Qed.

Lemma sdrop_sep s c t : sdrop (S (slen s)) (s +:+ String c t) = t.
Proof. induction s as [|a s IH]; [done|]. rewrite sapp_cons. apply IH. Qed.

(** SplitHostPort inverts JoinHostPort, for a plain host or an IPv6 address. *)
Theorem SplitHostPort_JoinHostPort host port :
  ContainsByte host "[" = false → ContainsByte host "]" = false → plain_host port →
  SplitHostPort (JoinHostPort host port) = Some (host, port).
Proof.
  intros Hl Hr (Hp & Hpl & Hpr). unfold JoinHostPort. destruct (ContainsByte host ":") eqn:Hc.
  - set (pre := String "[" host +:+ "]").
    change ("[" +:+ host +:+ "]:" +:+ port) with (String "[" (host +:+ String "]" (String ":" port))).
    replace (String "[" (host +:+ String "]" (String ":" port))) with (pre +:+ String ":" port)
      by (unfold pre; rewrite <- sapp_assoc, sapp_cons; done).
    assert (Hpre : slen pre = S (slen (String "[" host))) by (unfold pre; rewrite slen_app; cbn; lia).
    unfold SplitHostPort. rewrite last_index_sep by done.
    replace (HasPrefix (pre +:+ String ":" port) "[") with true by done.
    replace (first_index (pre +:+ String ":" port) "]") with (Some (slen (String "[" host))); cycle 1.
    { unfold pre. rewrite <- sapp_assoc. symmetry. apply first_index_sep. cbn. by rewrite Hr. }
    rewrite <- Hpre, Nat.eqb_refl, sdrop_app, sdrop_sep.
    replace (slen (String "[" host) - 1) with (slen host) by (cbn; lia).
    replace (sdrop 1 (pre +:+ String ":" port)) with (host +:+ String "]" (String ":" port))
      by (unfold pre; rewrite <- sapp_assoc, sapp_cons; done).
    rewrite stake_app, !ContainsByte_app, Hl. cbn [ContainsByte orb]. by rewrite Hpl, Hpr.
  - unfold SplitHostPort. change (host +:+ ":" +:+ port) with (host +:+ String ":" port).
    rewrite last_index_sep by done.
    replace (HasPrefix (host +:+ String ":" port) "[") with false.
    + rewrite stake_app, Hc, sdrop_sep. cbn [sdrop]. rewrite !ContainsByte_app, Hl, Hr.
      cbn [ContainsByte orb]. by rewrite Hpl, Hpr.
    + destruct host as [|a host]; [done|]. rewrite sapp_cons. cbn in *.
      apply orb_false_iff in Hl as [Ha _]. apply bool_decide_eq_false in Ha. by rewrite bool_decide_eq_false_2 by congruence.
Qed.

(** The default resolver dials the address it was asked for: what [HookClient]'s
    dialer substitutes for the service's host is that host. *)
Theorem ResolveEndpoint_identity namespace name port :
  name ≠ "" → namespace ≠ "" → port ≠ 0%Z → ContainsByte name ":" = false → ContainsByte namespace ":" = false →
  ResolveEndpoint namespace name port = inl (JoinHostPort (name +:+ "." +:+ namespace +:+ ".svc") (pretty port)).
Proof.
  intros Hn Hns Hp Hc1 Hc2. unfold ResolveEndpoint, JoinHostPort. rewrite !slen_0_decide, !ContainsByte_app, Hc1, Hc2.
  rewrite !bool_decide_eq_false_2 by done. rewrite (proj2 (Z.eqb_neq port 0)) by done. cbn [orb ContainsByte].
  by rewrite <- !sapp_assoc.
Qed.

(** The names under which the kubeconfig may hold credentials for a service, in the
    order in which they are preferred. *)
Definition service_names (name namespace : string) : list string :=
  [ name +:+ "." +:+ namespace +:+ ".svc:443"; "*." +:+ namespace +:+ ".svc:443"; "*.svc:443";
    name +:+ "." +:+ namespace +:+ ".svc"; "*." +:+ namespace +:+ ".svc"; "*.svc" ].

(** What is used when none of them is there. *)
Definition default_names (c : kubeconfig) : list string :=
  "*" :: (if 0 <? slen (kc_CurrentContext c) then
            match kc_Contexts c !! kc_CurrentContext c with
            | Some name => if 0 <? slen name then [name] else []
            | None => []
            end
          else []).

Definition service_label (s : string) : Prop := plain_host s ∧ ContainsByte s "." = false.

Lemma host_match_service c name namespace last :
  ContainsByte name "." = false → ContainsByte namespace "." = false → ContainsByte last "." = false →
  host_match c (name +:+ "." +:+ namespace +:+ "." +:+ last) =
  head (omap (λ n, kc_AuthInfos c !! n)
    [name +:+ "." +:+ namespace +:+ "." +:+ last; "*." +:+ namespace +:+ "." +:+ last; "*." +:+ last]).
Proof.
  intros H1 H2 H3. unfold host_match.
  change (Split (name +:+ "." +:+ namespace +:+ "." +:+ last) ".")
    with (Split (name +:+ String "." (namespace +:+ String "." last)) ".").
  rewrite !Split_app by done. rewrite Split_no_sep by done. cbn [star_loop].
  change (Join [namespace; last] ".") with (namespace +:+ "." +:+ last).
  change (Join [last] ".") with last. cbn [omap list_omap].
  repeat case_match; by simplify_eq.
Qed.

Lemma head_omap_app {A B} (f : A → option B) l1 l2 :
  head (omap f (l1 ++ l2)) = match head (omap f l1) with Some b => Some b | None => head (omap f l2) end.
Proof. induction l1 as [|x l1 IH]; [done|]. cbn. by destruct (f x). Qed.

Lemma service_target name namespace last :
  ContainsByte name "." = false → ContainsByte namespace "." = false → ContainsByte last "." = false →
  name +:+ "." +:+ namespace +:+ "." +:+ last = "kubernetes.default." +:+ last ↔
  name = "kubernetes" ∧ namespace = "default".
Proof.
  intros H1 H2 H3. split; [|by intros [-> ->]]. intros E.
  assert (E' : Split (name +:+ String "." (namespace +:+ String "." last)) "." = ["kubernetes"; "default"; last]).
  { change (name +:+ String "." (namespace +:+ String "." last)) with (name +:+ "." +:+ namespace +:+ "." +:+ last).
    rewrite E. change ("kubernetes.default." +:+ last) with ("kubernetes" +:+ String "." ("default" +:+ String "." last)).
    by rewrite !Split_app, Split_no_sep. }
  rewrite !Split_app, Split_no_sep in E' by done. by simplify_eq.
Qed.

(** A service on the default port is given the credentials of the first of its names
    the kubeconfig has: the full name with the port, "*." and its suffixes, then the
    same without the port; then the in-cluster configuration for kubernetes.default;
    then "*" and the current context; and it is anonymous if nothing matches. *)
Theorem ClientConfigForService_spec c name namespace :
  service_label name → service_label namespace →
  ClientConfigForService c name namespace 443 =
  match head (omap (λ n, kc_AuthInfos c !! n) (service_names name namespace)) with
  | Some a => restConfigFromKubeconfig a
  | None =>
      let fallback :=
        match head (omap (λ n, kc_AuthInfos c !! n) (default_names c)) with
        | Some a => restConfigFromKubeconfig a
        | None => inl (setGlobalDefaults emptyConfig)
        end in
      if (name == "kubernetes") && (namespace == "default") then
        match InClusterConfig with inl cfg => inl (setGlobalDefaults cfg) | inr _ => fallback end
      else fallback
  end.
Proof.
  intros [Hn Hnd] [Hns Hnsd]. unfold ClientConfigForService, clientConfig.
  set (host := name +:+ "." +:+ namespace +:+ ".svc"). change (pretty 443%Z) with "443".
  assert (Hh : plain_host host) by (unfold host; rewrite !plain_host_app; split_and?; done).
  rewrite SplitHostPort_JoinHostPort by (apply Hh || done). rewrite bool_decide_eq_true_2 by done.
  replace (JoinHostPort host "443") with (name +:+ "." +:+ namespace +:+ "." +:+ "svc:443"); cycle 1.
  { unfold JoinHostPort. destruct Hh as [-> _]. unfold host. by rewrite <- !sapp_assoc. }
  change host with (name +:+ "." +:+ namespace +:+ "." +:+ "svc").
  rewrite !host_match_service by done.
  rewrite (bool_decide_ext _ _ (service_target name namespace "svc:443" Hnd Hnsd eq_refl)), bool_decide_and.
  change (service_names name namespace) with
    ([name +:+ "." +:+ namespace +:+ "." +:+ "svc:443"; "*." +:+ namespace +:+ "." +:+ "svc:443"; "*." +:+ "svc:443"] ++
     [name +:+ "." +:+ namespace +:+ "." +:+ "svc"; "*." +:+ namespace +:+ "." +:+ "svc"; "*." +:+ "svc"]).
  rewrite head_omap_app. unfold default_names. cbv zeta.
  destruct (head (omap _ [name +:+ "." +:+ namespace +:+ "." +:+ "svc:443"; _; _])) as [?|]; [done|].
  destruct (head (omap _ [name +:+ "." +:+ namespace +:+ "." +:+ "svc"; _; _])) as [?|]; [done|].
  cbn [omap list_omap]. destruct (kc_AuthInfos c !! "*"); [done|].
  destruct (0 <? slen (kc_CurrentContext c)); [|done].
  destruct (kc_Contexts c !! kc_CurrentContext c) as [n|]; [|done].
  destruct (0 <? slen n); [|done]. cbn [omap list_omap]. by destruct (kc_AuthInfos c !! n).
Qed.

Lemma path_steps_spec fldPath urlPath i steps :
  path_steps fldPath urlPath i steps = [] ↔
  Forall (λ step, step ≠ "" ∧ IsDNS1123Subdomain step = []) steps.
Proof.
  revert i. induction steps as [|step rest IH]; intros i; [by split|].
  rewrite Forall_cons, <- (IH (S i)). cbn [path_steps]. rewrite app_nil, slen_0_decide.
  case_bool_decide as E; [by split; [intros [? _]|intros [[? _] _]]|]. rewrite fmap_nil_iff.
  by split; intros; destruct_and?; split_and?.
Qed.

(** A service with a path passes validation exactly when its name, namespace and port
    are valid and, after the leading slash and an optional trailing one, every segment
    of the path is a non-empty DNS subdomain. *)
Theorem ValidateWebhookService_path fldPath namespace name p port :
  p ≠ "" →
  ValidateWebhookService fldPath namespace name (Some ("/" +:+ p)) port = [] ↔
  name ≠ "" ∧ namespace ≠ "" ∧ IsValidPortNum port = [] ∧
  Forall (λ step, step ≠ "" ∧ IsDNS1123Subdomain step = []) (Split (TrimSuffix p "/") "/").
Proof.
  intros Hp. unfold ValidateWebhookService. rewrite !slen_0_decide.
  rewrite (bool_decide_eq_false_2 ("/" +:+ p = "/")) by (intros [=]; done).
  rewrite (bool_decide_eq_false_2 ("/" +:+ p = "")) by done. cbn [orb].
  assert (Hes : (if name == "" then [Required (fldPath ++ [Child "name"]) "service name is required"] else []) ++
     (if namespace == "" then [Required (fldPath ++ [Child "namespace"]) "service namespace is required"] else []) ++
     match IsValidPortNum port with
     | [] => []
     | errs => [Invalid (fldPath ++ [Child "port"]) [pretty port] ("port is not valid: " +:+ Join errs ", ")]
     end = [] ↔ name ≠ "" ∧ namespace ≠ "" ∧ IsValidPortNum port = []).
  { clear. rewrite !app_nil. repeat case_bool_decide; destruct (IsValidPortNum port); naive_solver. }
  destruct (bool_decide_reflect ("/" +:+ p = "//")) as [Hs|Hs].
  - assert (p = "/") as -> by (change (String "/" p = String "/" "/") in Hs; congruence). rewrite app_nil. split; [by intros [_ ?]|].
    intros (_ & _ & _ & Hf). change (Split (TrimSuffix "/" "/") "/") with [""] in Hf.
    rewrite Forall_singleton in Hf. by destruct Hf.
  - rewrite HasPrefix_app. change (sdrop 1 ("/" +:+ p)) with p. rewrite app_nil, Hes. cbn [app].
    rewrite path_steps_spec. unfold TrimSuffix. change (slen "/") with 1.
    split; [intros [(? & ? & ?) ?]|intros (? & ? & ? & ?)]; by split_and!.
Qed.

(** *** The client cache *)

Section HookClientProps.
Context {Client C : Type} (marshalCC : ClientConfig → string + error).
Context (UnversionedRESTClientFor : rest_Config → Client + error).
Context (cache_Get : C → string → option Client * C) (cache_Add : C → string → Client → C).

(** golib's lru.Cache: entries may be evicted, never made up. *)
Class LRULaws := {
  cache_Get_keeps c k k' v : (cache_Get (cache_Get c k).2 k').1 = Some v → (cache_Get c k').1 = Some v;
  cache_Add_spec c k v k' v' : (cache_Get (cache_Add c k v) k').1 = Some v' →
    (k' = k ∧ v' = v) ∨ (cache_Get c k').1 = Some v';
}.
Context (Laws : LRULaws).

(** The client is one [HookClient] would build for a configuration with the same
    JSON but for the name. *)
Definition built_for (kc : kubeconfig) (key : string) (client : Client) : Prop :=
  ∃ cc cfg, marshalCC (ccWithNoName cc) = inl key ∧ HookClient_config kc cc = inl cfg ∧
            UnversionedRESTClientFor cfg = inl client.

Definition clients_ok (kc : kubeconfig) (c : C) : Prop :=
  ∀ k client, (cache_Get c k).1 = Some client → built_for kc k client.

(** Every client handed out, cached or not, was built for a configuration that differs
    from the one asked for at most in its name; the cache keeps that property. *)
Theorem HookClient_sound kc cc c :
  clients_ok kc c →
  let '(res, c') := HookClient marshalCC UnversionedRESTClientFor cache_Get cache_Add kc cc c in
  clients_ok kc c' ∧
  ∀ client, res = inl client → ∃ key, marshalCC (ccWithNoName cc) = inl key ∧ built_for kc key client.
Proof using Type Laws.
  intros Hok. unfold HookClient.
  destruct (marshalCC (ccWithNoName cc)) as [key|e] eqn:Hm; [|by split].
  assert (Hok' : clients_ok kc (cache_Get c key).2).
  { intros k client Hg. apply Hok. by eapply cache_Get_keeps. }
  pose proof (Hok key) as Hkey.
  destruct (cache_Get c key) as [[client|] c1]; cbn in *.
  - split; [done|]. intros ? [= <-]. eauto.
  - destruct (HookClient_config kc cc) as [cfg|e] eqn:Hc; [|by split].
    destruct (UnversionedRESTClientFor cfg) as [client|e] eqn:Hu; [|by split].
    assert (Hb : built_for kc key client) by by exists cc, cfg.
    split; [|intros ? [= <-]; eauto].
    intros k cl Hg. apply cache_Add_spec in Hg as [[-> ->]|Hg]; [done|by apply Hok'].
Qed.
End HookClientProps.
End Clients.

(** ** Witnesses *)

(** A remote service that allows everything and takes one tick to answer. *)
Module Example.
Definition R : Type := Z * list (SubjectAccessReviewSpec * SubjectAccessReviewStatus * Z).
Definition yes : SubjectAccessReviewStatus :=
  {| sar_Allowed := true; sar_Denied := false; sar_Reason := "ok"; sar_EvaluationError := "" |}.
Definition PostInto (spec : SubjectAccessReviewSpec) (r : R) : SubjectAccessReviewStatus * option error * R :=
  (yes, None, ((r.1 + 1)%Z, (spec, yes, (r.1 + 1)%Z) :: r.2)).
Definition marshal (spec : SubjectAccessReviewSpec) : string + error := inl (sar_User spec).
Definition jane : AttributesRecord :=
  {| a_User := Some {| u_Name := "jane"; u_UID := ""; u_Groups := []; u_Extra := ∅ |};
     a_Verb := "get"; a_Namespace := "ns"; a_APIGroup := ""; a_APIVersion := "v1"; a_Resource := "pods";
     a_Subresource := ""; a_Name := ""; a_ResourceRequest := true; a_Path := "" |}.
Definition Authorize := @webhook_Authorize backoff_model _ (lru_model _) R (λ _, false) marshal fst PostInto.
Definition start : @wh_state (gmap string (SubjectAccessReviewStatus * Z)) R := WH ∅ (0%Z, []).
End Example.

Lemma example_remote_laws : RemoteLaws (R := Example.R) fst Example.PostInto snd.
Proof.
  split.
  - intros spec [t h]. split; cbn; [lia|]. set_solver.
  - intros spec [t h] status r'. unfold Example.PostInto. cbn. intros. simplify_eq/=. by left.
Qed.

(** Two calls: the second is answered from the cache. *)
Lemma webhook_sound_witness :
  let w := newWithBackoff 10 5 3 in
  ∃ v st', Example.Authorize w Example.jane (Example.Authorize w Example.jane Example.start).2 = (Ret v, st') ∧
    v_decision v = DecisionAllow ∧
    (v_decision v = DecisionAllow → ∃ key spec status t0,
       Example.marshal (review_of Example.jane) = inl key ∧ Example.marshal spec = inl key ∧
       (spec, status, t0) ∈ (wh_remote st').2 ∧ sar_Allowed status = true ∧ sar_Denied status = false ∧
       (t0 ≤ (wh_remote st').1 ∧ (t0 = (wh_remote st').1 ∨ 1 < t0 + 10))%Z).
Proof.
  intros w.
  destruct (@webhook_sound backoff_model _ (lru_model _) Example.R (λ _, false) Example.marshal fst
    Example.PostInto backoff_model_laws (lru_model_laws _) snd example_remote_laws 10 5 3 Example.jane
    (Example.Authorize w Example.jane Example.start).2) as (v & st' & Hc & Ha).
  { apply (wr_call (H := backoff_model) (H0 := lru_model _)), (wr_init (H := backoff_model) (H0 := lru_model _)). }
  exists v, st'. split; [exact Hc|]. split; [|exact Ha].
  assert (E : (Example.Authorize w Example.jane (Example.Authorize w Example.jane Example.start).2).1 =
              Ret (Verdict DecisionAllow "ok" None)) by (vm_compute; reflexivity).
  apply (f_equal fst) in Hc.
  assert (E' : Ret v = Ret (Verdict DecisionAllow "ok" None)) by (rewrite <- E; symmetry; exact Hc).
  by simplify_eq.
Defined.

Lemma webhook_token_sound_witness :
  let post := λ (token : string) (auds : list string) (s : unit),
    ({| tr_Authenticated := true; tr_User := {| ui_Username := "jane"; ui_UID := ""; ui_Groups := ["dev"]; ui_Extra := ∅ |};
        tr_Audiences := ["api"]; tr_Error := "" |}, @None error, s) in
  let auth := @webhook_AuthenticateToken backoff_model unit (λ _, false) post 3 ["implicit"] in
  ∃ resp ok err w', auth (Some ["api"; "other"]) "t" (World [] ∅ tt) = Ret ((resp, ok, err), w') ∧ ok = true ∧
    (ok = false → resp = None ∧ w_heap w' = []) ∧ resp = Some 0.
Proof.
  intros post auth.
  destruct (@webhook_token_sound backoff_model unit (λ _, false) post backoff_model_laws 3 ["implicit"]
    (Some ["api"; "other"]) "t" (World [] ∅ tt)) as (resp & ok & err & w' & E & Hno & Hok).
  exists resp, ok, err, w'. split; [exact E|].
  assert (Hb : ok = true).
  { vm_compute in E. by simplify_eq. }
  split; [exact Hb|]. split; [exact Hno|]. by destruct (Hok Hb) as (? & ? & ? & ? & ? & ? & ? & ?).
Defined.

(** A cache that keeps everything. *)
Lemma HookClient_sound_witness :
  let get := λ (c : gmap string rest_Config) k, (c !! k, c) in
  let add := λ (c : gmap string rest_Config) k v, <[k := v]> c in
  let parse := λ _ : string, @inr URL error (Errorf "no URL" []) in
  let marshalCC := λ cc, @inl string error (cc_URL cc) in
  let kc := {| kc_AuthInfos := ∅; kc_CurrentContext := ""; kc_Contexts := ∅ |} in
  let cc := {| cc_Name := "hook"; cc_URL := ""; cc_CABundle := "";
               cc_Service := Some {| svc_Name := "a"; svc_Namespace := "b"; svc_Path := "/"; svc_Port := 0 |} |} in
  let '(res, c') := HookClient (λ _, inl "") (inr (Errorf "" [])) parse marshalCC inl get add kc cc ∅ in
  clients_ok (λ _, inl "") (inr (Errorf "" [])) parse marshalCC inl get kc c' ∧ rc_Host <$> (c' !! "") = Some "https://a.b.svc:443".
Proof.
  intros get add parse marshalCC kc cc.
  assert (Hl : LRULaws get add).
  { split; [done|]. intros c k v k' v' Hg. change (<[k := v]> c !! k' = Some v') in Hg.
    apply lookup_insert_Some in Hg as [[-> ->]|[_ Hg]]; auto. }
  assert (H0 : clients_ok (λ _, inl "") (inr (Errorf "" [])) parse marshalCC (inl (B := error)) get kc ∅) by done.
  destruct (HookClient_sound (λ _, inl "") (inr (Errorf "" [])) parse marshalCC inl get add Hl kc cc ∅ H0) as [Hok _].
  split; [exact Hok|]. vm_compute. reflexivity.
Defined.

Lemma SplitHostPort_JoinHostPort_witness :
  SplitHostPort (JoinHostPort "fe80::1" "443") = Some ("fe80::1", "443").
Proof. apply SplitHostPort_JoinHostPort; [reflexivity|reflexivity|repeat split; reflexivity]. Defined.

Lemma ClientConfigForService_spec_witness :
  let a := {| ai_ClientCertificate := ""; ai_ClientCertificateData := ""; ai_ClientKey := ""; ai_ClientKeyData := "";
              ai_Token := "secret"; ai_TokenFile := ""; ai_Impersonate := ""; ai_ImpersonateGroups := [];
              ai_ImpersonateUserExtra := ∅; ai_Username := ""; ai_Password := ""; ai_Exec := None;
              ai_AuthProvider := None |} in
  let c := {| kc_AuthInfos := {[ "*.prod.svc" := a ]}; kc_CurrentContext := ""; kc_Contexts := ∅ |} in
  ClientConfigForService (λ _, inl "") (inr (Errorf "no" [])) c "hook" "prod" 443 =
  restConfigFromKubeconfig (λ _, inl "") a.
Proof.
  intros a c. etrans; [apply (ClientConfigForService_spec (λ _, inl "") (inr (Errorf "no" [])) c "hook" "prod"); repeat split; reflexivity|].
  vm_compute. reflexivity.
Defined.

Lemma ValidateWebhookService_path_witness :
  ValidateWebhookService (λ _, []) (λ _, []) [] "ns" "hook" (Some ("/" +:+ "a/b/")) 443 = [].
Proof.
  apply ValidateWebhookService_path; [done|]. split_and!; [done..|].
  change (Split (TrimSuffix "a/b/" "/") "/") with ["a"; "b"]. by repeat constructor.
Defined.

Lemma ResolveEndpoint_identity_witness :
  ResolveEndpoint "andromeda" "ross" 443 = inl "ross.andromeda.svc:443".
Proof. apply (ResolveEndpoint_identity "andromeda" "ross" 443); done. Defined.
