(* ===== verification/Warnings.v ===== *)
(** * Warning headers

    src/pkg/filters/warning.go: the recorder behind WithWarningRecorder, which adds
    each distinct warning to the response once and starts truncating when they grow
    too long.  The recorder's writer is represented by its header.  golib's
    NewWarningHeader is a parameter. *)

From S2P Require Import Prelude GoStrings GoEncoding.

Local Open Scope go_scope.

(** ** Runes

    [for range] over a string and the conversion to []rune decode UTF-8, an invalid
    byte giving U+FFFD.  A rune is represented by its encoding. *)

Definition RuneError : string := String "239" (String "191" (String "189" "")).

(** The next [p] bytes when they are continuation bytes, the first in [lo, hi]. *)
Fixpoint continuation (p lo hi : nat) (s : string) : option (string * string) :=
  match p, s with
  | 0, _ => Some ("", s)
  | S p, String a s =>
      if (lo <=? nat_of_ascii a) && (nat_of_ascii a <=? hi)
      then (λ '(c, rest), (String a c, rest)) <$> continuation p 128 191 s
      else None
  | S _, EmptyString => None
  end.

Definition next_rune (a : ascii) (s : string) : string * string :=
  match utf8_lead (nat_of_ascii a) with
  | Some (p, lo, hi) =>
      match continuation p lo hi s with
      | Some (c, rest) => (String a c, rest)
      | None => (RuneError, s)
      end
  | None => (RuneError, s)
  end.

Fixpoint runes_from (fuel : nat) (s : string) : list string :=
  match fuel, s with
  | S fuel, String a s => let '(r, rest) := next_rune a s in r :: runes_from fuel rest
  | _, _ => []
  end.

Definition runes (s : string) : list string := runes_from (slen s) s.
Definition RuneCountInString (s : string) : Z := Z.of_nat (length (runes s)).

(** ** The recorder *)

Definition truncateAtTotalRunes : Z := 4096.
Definition truncateItemRunes : Z := 256.

Record recorder := {
  rec_recorded : gmap string bool;
  rec_ordered : list (string * string);     (* agent, text *)
  rec_written : Z;
  rec_truncating : bool;
  rec_header : Header;
}.

Definition new_recorder (h : Header) : recorder :=
  {| rec_recorded := ∅; rec_ordered := []; rec_written := 0; rec_truncating := false; rec_header := h |}.

Definition Header_Add (h : Header) (key value : string) : Header := <[key := Header_Values h key ++ [value]]> h.

Section Recorder.
Context (NewWarningHeader : Z → string → string → string + error).

(** string([]rune(text)[:truncateItemRunes]) when the text is longer than that, with
    the rune length that goes with it. *)
Definition truncate_item (text : string) : string * Z :=
  let textRuneLength := RuneCountInString text in
  if (truncateItemRunes <? textRuneLength)%Z
  then (foldr String.append "" (take (Z.to_nat truncateItemRunes) (runes text)), truncateItemRunes)
  else (text, textRuneLength).

(** One turn of the loop that replays the warnings. *)
Definition replay (r : recorder) (w : string * string) : recorder :=
  let '(text, textRuneLength) := truncate_item w.2 in
  match NewWarningHeader 299 w.1 text with
  | inl header =>
      {| rec_recorded := rec_recorded r; rec_ordered := rec_ordered r;
         rec_written := (rec_written r + textRuneLength)%Z; rec_truncating := rec_truncating r;
         rec_header := Header_Add (rec_header r) "Warning" header |}
  | inr _ => r
  end.

Definition AddWarning (agent text : string) (r : recorder) : recorder :=
  if slen text =? 0 then r
  else if (truncateAtTotalRunes <=? rec_written r)%Z && rec_truncating r then r
  else if default false (rec_recorded r !! text) then r
  else
    let r := {| rec_recorded := <[text := true]> (rec_recorded r); rec_ordered := rec_ordered r ++ [(agent, text)];
                rec_written := rec_written r; rec_truncating := rec_truncating r;
                rec_header := rec_header r |} in
    let '(text, textRuneLength) :=
      if rec_truncating r then truncate_item text else (text, RuneCountInString text) in
    match NewWarningHeader 299 agent text with
    | inr _ => r
    | inl header =>
        if (rec_written r + textRuneLength <=? truncateAtTotalRunes)%Z || rec_truncating r then
          {| rec_recorded := rec_recorded r; rec_ordered := rec_ordered r;
             rec_written := (rec_written r + textRuneLength)%Z; rec_truncating := rec_truncating r;
             rec_header := Header_Add (rec_header r) "Warning" header |}
        else
          foldl replay
            {| rec_recorded := rec_recorded r; rec_ordered := rec_ordered r; rec_written := 0;
               rec_truncating := true; rec_header := Header_Del (rec_header r) "Warning" |}
            (rec_ordered r)
    end.

Definition AddWarnings (l : list (string * string)) (r : recorder) : recorder :=
  foldl (λ r w, AddWarning w.1 w.2 r) r l.

(** ** What the response carries

    [shown] is the text a warning is shown with, [headers] the Warning headers of a
    list of warnings, [runes_in] their total length. *)

Definition shown (truncating : bool) (text : string) : string * Z :=
  if truncating then truncate_item text else (text, RuneCountInString text).

Definition headers (truncating : bool) (l : list (string * string)) : list string :=
  omap (λ w, match NewWarningHeader 299 w.1 (shown truncating w.2).1 with inl h => Some h | inr _ => None end) l.

Definition runes_in (truncating : bool) (l : list (string * string)) : Z :=
  foldr (λ w n, (match NewWarningHeader 299 w.1 (shown truncating w.2).1 with
                 | inl _ => (shown truncating w.2).2
                 | inr _ => 0
                 end + n)%Z) 0%Z l.

(** The response shows exactly the recorded warnings, in order, those that are not
    valid left out; no text is recorded twice; and [written] is their length. *)
Record recorder_ok (r : recorder) : Prop := {
  ok_header : Header_Values (rec_header r) "Warning" = headers (rec_truncating r) (rec_ordered r);
  ok_written : rec_written r = runes_in (rec_truncating r) (rec_ordered r);
  ok_nodup : NoDup (snd <$> rec_ordered r);
  ok_recorded text : default false (rec_recorded r !! text) = true ↔ text ∈ snd <$> rec_ordered r;
  ok_limit : rec_truncating r = false → (rec_written r ≤ truncateAtTotalRunes)%Z;
}.

Lemma headers_snoc b l w :
  headers b (l ++ [w]) = headers b l ++
    match NewWarningHeader 299 w.1 (shown b w.2).1 with inl h => [h] | inr _ => [] end.
Proof. unfold headers. rewrite omap_app. cbn. by destruct (NewWarningHeader _ _ _). Qed.

Lemma runes_in_snoc b l w :
  (runes_in b (l ++ [w]) = runes_in b l +
    match NewWarningHeader 299 w.1 (shown b w.2).1 with inl _ => (shown b w.2).2 | inr _ => 0 end)%Z.
Proof. unfold runes_in. induction l as [|x l IH]; cbn [app foldr]; [lia|]. rewrite IH. lia. Qed.

Lemma Header_Values_Add h k v : Header_Values (Header_Add h k v) k = Header_Values h k ++ [v].
Proof.
  unfold Header_Add. unfold Header_Values at 1. unfold Header in *. by rewrite lookup_insert_eq.
Qed.

(** The replay shows the warnings it goes through after those already shown. *)
Lemma replay_spec l r :
  rec_truncating r = true →
  let r' := foldl replay r l in
  rec_recorded r' = rec_recorded r ∧ rec_ordered r' = rec_ordered r ∧ rec_truncating r' = true ∧
  rec_written r' = (rec_written r + runes_in true l)%Z ∧
  Header_Values (rec_header r') "Warning" = Header_Values (rec_header r) "Warning" ++ headers true l.
Proof.
  revert r. induction l as [|w l IH]; intros r Ht; cbn.
  - rewrite app_nil_r, Z.add_0_r. by split_and!.
  - assert (Ht' : rec_truncating (replay r w) = true).
    { unfold replay. destruct (truncate_item w.2), (NewWarningHeader _ _ _); done. }
    destruct (IH _ Ht') as (-> & -> & -> & -> & ->). unfold replay, runes_in, headers. cbn.
    destruct (truncate_item w.2) as [t n]. cbn. destruct (NewWarningHeader 299 w.1 t); cbn.
    + rewrite Header_Values_Add, <- app_assoc. split_and!; (done || lia).
    + split_and!; (done || lia).
Qed.

Lemma recorder_ok_new h : Header_Values h "Warning" = [] → recorder_ok (new_recorder h).
Proof. intros Hh. split; cbn; [done|done|apply NoDup_nil_2| |done].
  intros text. rewrite lookup_empty. cbn. by rewrite elem_of_nil. Qed.

Lemma AddWarning_ok agent text r : recorder_ok r → recorder_ok (AddWarning agent text r).
Proof.
  intros [Hh Hw Hnd Hrec Hlim]. unfold AddWarning.
  case_match; [by split|]. case_match; [by split|]. destruct (default false (rec_recorded r !! text)) eqn:Hin; [by split|]. cbn [rec_recorded rec_ordered rec_written rec_truncating rec_header].
  assert (Hnd' : NoDup (snd <$> rec_ordered r ++ [(agent, text)])).
  { rewrite fmap_app, NoDup_app. cbn. split_and!; [done| |apply NoDup_singleton].
    intros x Hx ->%list_elem_of_singleton. apply Hrec in Hx. congruence. }
  assert (Hrec' : ∀ t, default false (<[text := true]> (rec_recorded r) !! t) = true ↔
                       t ∈ snd <$> rec_ordered r ++ [(agent, text)]).
  { intros t. rewrite fmap_app, elem_of_app, <- Hrec. cbn. rewrite list_elem_of_singleton.
    destruct (decide (t = text)) as [->|]; [rewrite lookup_insert_eq; tauto|].
    rewrite lookup_insert_ne by done. tauto. }
  change (if rec_truncating r then truncate_item text else (text, RuneCountInString text))
    with (shown (rec_truncating r) text).
  pose proof (headers_snoc (rec_truncating r) (rec_ordered r) (agent, text)) as Hsh.
  pose proof (runes_in_snoc (rec_truncating r) (rec_ordered r) (agent, text)) as Hsr. cbn in Hsh, Hsr.
  destruct (shown (rec_truncating r) text) as [t n] eqn:Hs. cbn in Hsh, Hsr.
  destruct (NewWarningHeader 299 agent t) as [header|e].
  - destruct ((rec_written r + n <=? truncateAtTotalRunes)%Z || rec_truncating r) eqn:Hfit.
    + split; cbn [rec_recorded rec_ordered rec_written rec_truncating rec_header]; try done.
      * by rewrite Header_Values_Add, Hh, Hsh.
      * by rewrite Hsr, Hw.
      * intros Ht. rewrite Ht, orb_false_r in Hfit. by apply Z.leb_le in Hfit.
    + match goal with |- context [foldl replay ?r0 ?l] => destruct (replay_spec l r0 eq_refl) as (E1 & E2 & E3 & E4 & E5) end.
      cbn [rec_recorded rec_ordered rec_written rec_truncating rec_header] in *. split; rewrite ?E1, ?E2, ?E3, ?E4, ?E5; try done.
      unfold Header_Values. rewrite Header_Del_lookup, decide_True by done. done.
  - split; cbn [rec_recorded rec_ordered rec_written rec_truncating rec_header]; try done; [by rewrite Hsh, app_nil_r|rewrite Hsr; lia].
Qed.

(** Whatever warnings are added, the response shows exactly the distinct ones that were
    recorded, in the order they came, all of them whole or all of them truncated. *)
Theorem AddWarnings_spec h l :
  Header_Values h "Warning" = [] → recorder_ok (AddWarnings l (new_recorder h)).
Proof.
  intros Hh. unfold AddWarnings. generalize (new_recorder h), (recorder_ok_new h Hh).
  induction l as [|w l IH]; intros r Hr; [done|]. cbn. apply IH. by apply AddWarning_ok.
Qed.

(** *** The length of the headers *)

Lemma truncate_item_length text :
  (0 ≤ (truncate_item text).2 ≤ truncateItemRunes ∧ (truncate_item text).2 ≤ RuneCountInString text)%Z.
Proof. unfold truncate_item. unfold RuneCountInString, truncateItemRunes.
  destruct (Z.ltb_spec 256 (Z.of_nat (length (runes text)))); cbn [snd]; lia. Qed.

(** A text whose truncation is acceptable is acceptable. *)
Definition truncation_reflects : Prop :=
  ∀ agent text h, NewWarningHeader 299 agent (truncate_item text).1 = inl h →
    ∃ h', NewWarningHeader 299 agent text = inl h'.

Lemma runes_in_truncated l : truncation_reflects → (runes_in true l ≤ runes_in false l)%Z.
Proof.
  intros Hl. unfold runes_in. induction l as [|[a t] l IH]; cbn [foldr]; [done|].
  apply Z.add_le_mono; [|exact IH]. cbn [shown fst snd].
  destruct (NewWarningHeader 299 a (truncate_item t).1) as [h|e] eqn:E; cycle 1.
  { case_match; unfold RuneCountInString; lia. }
  destruct (Hl a t h E) as [h' ->]. apply truncate_item_length.
Qed.

Definition written_bound : Z := truncateAtTotalRunes + truncateItemRunes.

Lemma AddWarning_bound agent text r :
  truncation_reflects → recorder_ok r → (rec_written r ≤ written_bound →
  rec_written (AddWarning agent text r) ≤ written_bound)%Z.
Proof.
  intros Hl Hok Hb. unfold AddWarning.
  case_match; [done|]. destruct ((truncateAtTotalRunes <=? rec_written r)%Z && rec_truncating r) eqn:Hfull; [done|].
  case_match; [done|]. cbn [rec_recorded rec_ordered rec_written rec_truncating rec_header].
  change (if rec_truncating r then truncate_item text else (text, RuneCountInString text))
    with (shown (rec_truncating r) text).
  destruct (shown (rec_truncating r) text) as [t n] eqn:Hs.
  destruct (NewWarningHeader 299 agent t) as [header|e]; [|done].
  unfold written_bound, truncateAtTotalRunes, truncateItemRunes in *. destruct (rec_truncating r) eqn:Ht; rewrite ?orb_true_r, ?orb_false_r, ?andb_true_r in *.
  - apply Z.leb_gt in Hfull. cbn [rec_written].
    pose proof (truncate_item_length text) as [Hn _]. unfold truncateItemRunes in Hn. unfold shown in Hs. rewrite Hs in Hn. cbn in Hn. lia.
  - destruct (Z.leb_spec (rec_written r + n) 4096); cbn [rec_written]; [lia|].
    match goal with |- context [foldl replay ?r0 ?l] => destruct (replay_spec l r0 eq_refl) as (_ & _ & _ & -> & _) end.
    cbn [rec_written]. rewrite runes_in_snoc. pose proof (runes_in_truncated (rec_ordered r) Hl).
    pose proof (ok_written r Hok) as Hw. rewrite Ht in Hw. pose proof (ok_limit r Hok Ht). unfold truncateAtTotalRunes in *.
    pose proof (truncate_item_length text) as [Hn _]. unfold truncateItemRunes in Hn. case_match; cbn [shown snd] in *; lia.
Qed.

(** As long as truncating a text cannot make it valid, the response carries at most
    4096 + 256 runes of warnings, however many are added. *)
Theorem AddWarnings_bounded h l :
  truncation_reflects → Header_Values h "Warning" = [] →
  let r := AddWarnings l (new_recorder h) in
  (runes_in (rec_truncating r) (rec_ordered r) ≤ truncateAtTotalRunes + truncateItemRunes)%Z ∧
  (rec_truncating r = false → runes_in false (rec_ordered r) ≤ truncateAtTotalRunes)%Z.
Proof.
  intros Hl Hh r. pose proof (AddWarnings_spec h l Hh) as Hok. fold r in Hok.
  rewrite <- (ok_written r Hok). split.
  - subst r. clear Hok. unfold AddWarnings.
    assert (H0 : (rec_written (new_recorder h) ≤ written_bound)%Z) by done.
    revert H0. generalize (new_recorder h), (recorder_ok_new h Hh).
    induction l as [|w l IH]; intros r Hr Hb; [done|]. cbn [foldl].
    apply IH; [by apply AddWarning_ok|by apply AddWarning_bound].
  - intros Ht. pose proof (ok_written r Hok) as Hw. rewrite Ht in Hw. rewrite <- Hw. by apply (ok_limit r Hok).
Qed.
End Recorder.

(** ** Examples *)

Module WarningsExamples.
(** A header maker that accepts everything, and one that refuses control characters,
    as golib's does. *)
Definition any_text (code : Z) (agent text : string) : string + error := inl text.

Fixpoint hasAnyControls (s : string) : bool :=
  match s with
  | EmptyString => false
  | String a s => (nat_of_ascii a <? 32) || (nat_of_ascii a =? 127) || hasAnyControls s
  end.
Definition no_controls (code : Z) (agent text : string) : string + error :=
  if hasAnyControls text then inr (Errorf "text must be valid UTF-8 and must not contain control characters" [])
  else inl text.

Fixpoint repeat_char (a : ascii) (n : nat) : string :=
  match n with 0 => "" | S n => String a (repeat_char a n) end.

Lemma AddWarnings_spec_witness :
  recorder_ok any_text (AddWarnings any_text [("", "a"); ("", "b"); ("", "a")] (new_recorder ∅)) ∧
  rec_ordered (AddWarnings any_text [("", "a"); ("", "b"); ("", "a")] (new_recorder ∅)) = [("", "a"); ("", "b")].
Proof. split; [apply AddWarnings_spec; reflexivity|vm_compute; reflexivity]. Defined.

Definition long_warnings : list (string * string) := [("", repeat_char "a" 4000); ("", repeat_char "b" 300)].

Lemma any_text_reflects : truncation_reflects any_text.
Proof. intros agent text h _. by exists text. Qed.

Lemma AddWarnings_bounded_witness :
  (runes_in any_text (rec_truncating (AddWarnings any_text long_warnings (new_recorder ∅)))
    (rec_ordered (AddWarnings any_text long_warnings (new_recorder ∅))) ≤ truncateAtTotalRunes + truncateItemRunes)%Z ∧
  rec_truncating (AddWarnings any_text long_warnings (new_recorder ∅)) = true.
Proof.
  destruct (AddWarnings_bounded any_text ∅ long_warnings any_text_reflects) as [Hb _]; [reflexivity|].
  split; [exact Hb|]. vm_compute. reflexivity.
Defined.

(** A multi-byte rune is not cut in two; an invalid byte counts as one rune. *)
Example runes_example :
  runes (String "206" (String "177" (String "255" "b"))) = [String "206" (String "177" ""); RuneError; "b"].
Proof. vm_compute. reflexivity. Qed.
End WarningsExamples.

(** The limit does not hold when a text is refused for a control character past its
    256th rune: such warnings are recorded before they are refused, are not counted,
    and all of them are replayed, truncated and now valid, when the limit is reached.
    Forty of them and one long warning give more than twice the limit. *)
Theorem refused_warnings_replayed :
  let bad := (λ i, ("", WarningsExamples.repeat_char "a" 256 +:+ WarningsExamples.repeat_char "b" i +:+ String "010" "")) <$> seq 0 40 in
  let r := AddWarnings WarningsExamples.no_controls (bad ++ [("", WarningsExamples.repeat_char "c" 4097)]) (new_recorder ∅) in
  headers WarningsExamples.no_controls false bad = [] ∧
  runes_in WarningsExamples.no_controls (rec_truncating r) (rec_ordered r) = 10496%Z ∧
  length (Header_Values (rec_header r) "Warning") = 41.
Proof. vm_compute. split_and!; reflexivity. Qed.
