(* ===== verification/Timeout.v ===== *)
(** * The timeout handler

    src/pkg/filters/timeout.go: a handler runs in a goroutine of its own with a writer
    that is cut off when the request's deadline passes.  The inner handler is
    arbitrary: at any time it may use the writer, return or panic, so it is a set of
    possible steps.  The mutex makes each method of the writer one step.  CloseNotify is
    left out. *)

From S2P Require Import Prelude GoStrings.

Local Open Scope go_scope.

(** ** The underlying writer

    What reaches it, and from whom.  The headers of a response are one map, sent as it is
    at the first write, flush or final status: every event carries the map at its time.
    A handler that asked for the map keeps it, and can change it at any time; one that
    hijacked the connection writes to it directly ([EConn]).  The underlying writer is a
    Flusher and a Hijacker; with less than that there are fewer steps. *)

Definition Header : Type := gmap string (list string).

Inductive author := Inner | Filter.
Inductive wevent := EHeader (code : Z) | EBody (bs : string) | EFlush | EHijack | EConn (bs : string).
Definition wlog : Type := list (author * wevent * Header).

(** A status that announces another one. *)
Definition informational (code : Z) : bool := (100 <=? code)%Z && (code <=? 199)%Z && (code != 101%Z).

(** What net/http then tells the client: its status, 200 when the first event has none,
    and the headers. *)
Fixpoint response_sent (log : wlog) : option (Z * Header) :=
  match log with
  | [] => None
  | (_, EHeader code, hdr) :: log => if informational code then response_sent log else Some (code, hdr)
  | (_, EBody _, hdr) :: _ | (_, EFlush, hdr) :: _ => Some (200%Z, hdr)
  | (_, EHijack, _) :: _ | (_, EConn _, _) :: _ => None
  end.

(** ** baseTimeoutWriter *)

(** With the underlying writer's headers, whether the inner handler holds their map, and
    whether it holds the connection. *)
Record baseTimeoutWriter := {
  tw_timedOut : bool;
  tw_wroteHeader : bool;
  tw_hijacked : bool;
  tw_w : wlog;
  tw_header : Header;
  tw_shared : bool;
}.

Definition newTimeoutWriter (hdr : Header) : baseTimeoutWriter :=
  {| tw_timedOut := false; tw_wroteHeader := false; tw_hijacked := false; tw_w := []; tw_header := hdr; tw_shared := false |}.

Definition ErrHandlerTimeout : error := Errorf "http: Handler timeout" [].
Definition ErrHijacked : error := Errorf "http: connection has been hijacked" [].
Definition ErrAbortHandler : string := "net/http: abort Handler".

(** One more event at the underlying writer. *)
Definition send (by_ : author) (e : wevent) (tw : baseTimeoutWriter) : baseTimeoutWriter :=
  {| tw_timedOut := tw_timedOut tw; tw_wroteHeader := tw_wroteHeader tw; tw_hijacked := tw_hijacked tw;
     tw_w := tw_w tw ++ [(by_, e, tw_header tw)]; tw_header := tw_header tw; tw_shared := tw_shared tw |}.
Definition set_flags (timedOut wroteHeader hijacked : bool) (tw : baseTimeoutWriter) : baseTimeoutWriter :=
  {| tw_timedOut := timedOut; tw_wroteHeader := wroteHeader; tw_hijacked := hijacked;
     tw_w := tw_w tw; tw_header := tw_header tw; tw_shared := tw_shared tw |}.
Definition set_header (hdr : Header) (shared : bool) (tw : baseTimeoutWriter) : baseTimeoutWriter :=
  {| tw_timedOut := tw_timedOut tw; tw_wroteHeader := tw_wroteHeader tw; tw_hijacked := tw_hijacked tw;
     tw_w := tw_w tw; tw_header := hdr; tw_shared := shared |}.

(** The map the handler gets: the underlying one, or after the timeout one of its own. *)
Definition tw_Header (tw : baseTimeoutWriter) : Header * baseTimeoutWriter :=
  if tw_timedOut tw then (∅, tw) else (tw_header tw, set_header (tw_header tw) true tw).

Definition tw_Write (p : string) (tw : baseTimeoutWriter) : option error * baseTimeoutWriter :=
  if tw_timedOut tw then (Some ErrHandlerTimeout, tw)
  else if tw_hijacked tw then (Some ErrHijacked, tw)
  else (None, send Inner (EBody p) (set_flags (tw_timedOut tw) true (tw_hijacked tw) tw)).

Definition tw_Flush (tw : baseTimeoutWriter) : baseTimeoutWriter :=
  if tw_timedOut tw then tw else send Inner EFlush tw.

Definition tw_WriteHeader (code : Z) (tw : baseTimeoutWriter) : baseTimeoutWriter :=
  if tw_timedOut tw || tw_wroteHeader tw || tw_hijacked tw then tw
  else send Inner (EHeader code) (set_flags (tw_timedOut tw) true (tw_hijacked tw) tw).

(** [err] is what the underlying Hijack returns. *)
Definition tw_hijack (err : option error) (tw : baseTimeoutWriter) : option error * baseTimeoutWriter :=
  if tw_timedOut tw then (Some ErrHandlerTimeout, tw)
  else match err with
  | Some e => (Some e, tw)
  | None => (None, send Inner EHijack (set_flags (tw_timedOut tw) (tw_wroteHeader tw) true tw))
  end.

(** The body is the JSON of the status, given as [status]. *)
Definition tw_timeout (status : string) (tw : baseTimeoutWriter) : outcome unit * baseTimeoutWriter :=
  let tw := set_flags true (tw_wroteHeader tw) (tw_hijacked tw) tw in
  if negb (tw_wroteHeader tw) && negb (tw_hijacked tw)
  then (Ret tt, send Filter (EBody status) (send Filter (EHeader 504) tw))
  else (Panic ErrAbortHandler, tw).

(** ** ServeHTTP *)

(** The inner handler: running, sending its result on resultCh, gone. *)
Inductive inner_state := Running | Sending (res : option string) | Gone.

(** ServeHTTP itself: in the handler it called directly (a long-running request), in
    the select, in postTimeoutFn, in tw.timeout, ended. *)
Inductive serve_state := Direct | Select | Post | TimingOut | Ended (res : outcome unit).

Record tstate := {
  ts_inner : inner_state;
  ts_serve : serve_state;
  ts_reader : bool;           (* the goroutine that reads resultCh after a timeout *)
  ts_tw : baseTimeoutWriter;
}.

(** [hdr]: the headers the filters outside have set. *)
Definition ServeHTTP_start (hdr : Header) (longRunning : bool) : tstate :=
  {| ts_inner := Running; ts_serve := if longRunning then Direct else Select; ts_reader := false;
     ts_tw := newTimeoutWriter hdr |}.

(** What the goroutine sends when the handler panics with [msg]. *)
Section ServeHTTP.
Context (withStack : string → string) (status : string).

Definition recovered (res : option string) : option string :=
  (λ msg, if msg == ErrAbortHandler then msg else withStack msg) <$> res.

Definition outcome_of (res : option string) : outcome unit :=
  match res with None => Ret tt | Some msg => Panic msg end.

(** The operations the inner handler may call, and what it may do with the header map and
    the connection it got from them, at any later time. *)
Inductive inner_op : baseTimeoutWriter → baseTimeoutWriter → Prop :=
  | io_Header tw : inner_op tw (tw_Header tw).2
  | io_SetHeader hdr tw : tw_shared tw = true → inner_op tw (set_header hdr true tw)
  | io_Conn bs tw : tw_hijacked tw = true → inner_op tw (send Inner (EConn bs) tw)
  | io_Write p tw : inner_op tw (tw_Write p tw).2
  | io_WriteHeader code tw : inner_op tw (tw_WriteHeader code tw)
  | io_Flush tw : inner_op tw (tw_Flush tw)
  | io_Hijack err tw : inner_op tw (tw_hijack err tw).2.

Definition set_inner (s : tstate) (i : inner_state) : tstate :=
  {| ts_inner := i; ts_serve := ts_serve s; ts_reader := ts_reader s; ts_tw := ts_tw s |}.
Definition set_serve (s : tstate) (m : serve_state) : tstate :=
  {| ts_inner := ts_inner s; ts_serve := m; ts_reader := ts_reader s; ts_tw := ts_tw s |}.
Definition set_tw (s : tstate) (tw : baseTimeoutWriter) : tstate :=
  {| ts_inner := ts_inner s; ts_serve := ts_serve s; ts_reader := ts_reader s; ts_tw := tw |}.
(** ServeHTTP ends after a timeout; its deferred function starts the reader. *)
Definition end_timeout (s : tstate) (res : outcome unit) : tstate :=
  {| ts_inner := ts_inner s; ts_serve := Ended res; ts_reader := true; ts_tw := ts_tw s |}.

Inductive tstep : tstate → tstate → Prop :=
  (* the inner handler, in its goroutine *)
  | t_op s tw : ts_inner s = Running → ts_serve s ≠ Direct → inner_op (ts_tw s) tw → tstep s (set_tw s tw)
  | t_end s res : ts_inner s = Running → ts_serve s ≠ Direct →
      tstep s (set_inner s (Sending (recovered res)))
  (* the inner handler, called directly: it writes to w itself *)
  | t_direct s e : ts_inner s = Running → ts_serve s = Direct →
      tstep s (set_tw s (send Inner e (ts_tw s)))
  | t_direct_header s hdr : ts_inner s = Running → ts_serve s = Direct →
      tstep s (set_tw s (set_header hdr true (ts_tw s)))
  | t_direct_end s res : ts_inner s = Running → ts_serve s = Direct →
      tstep s (set_serve (set_inner s Gone) (Ended (outcome_of res)))
  (* the select *)
  | t_result s res : ts_serve s = Select → ts_inner s = Sending res →
      tstep s (set_serve (set_inner s Gone) (Ended (outcome_of res)))
  | t_deadline s : ts_serve s = Select → tstep s (set_serve s Post)
  | t_post s : ts_serve s = Post → tstep s (set_serve s TimingOut)
  | t_post_panic s msg : ts_serve s = Post → tstep s (end_timeout s (Panic msg))
  | t_timeout s : ts_serve s = TimingOut →
      tstep s (end_timeout (set_tw s (tw_timeout status (ts_tw s)).2) (tw_timeout status (ts_tw s)).1)
  (* the reader *)
  | t_reader s res : ts_reader s = true → ts_inner s = Sending res →
      tstep s {| ts_inner := Gone; ts_serve := ts_serve s; ts_reader := false; ts_tw := ts_tw s |}.

Definition treachable (hdr : Header) (longRunning : bool) (s : tstate) : Prop := rtc tstep (ServeHTTP_start hdr longRunning) s.

(** ** The response is the handler's or the filter's, never both *)

Definition by_inner (log : wlog) : Prop := Forall (λ e, e.1.1 = Inner) log.
Definition only_flushes (log : wlog) : Prop := Forall (λ e, e.1.2 = EFlush) log.

(** What is sent over a connection that was hijacked is no response of net/http. *)
Definition on_connection (e : author * wevent * Header) : bool := match e.1.2 with EConn _ => true | _ => false end.
Definition response_of (log : wlog) : wlog := List.filter (λ e, negb (on_connection e)) log.

(** The filter's answer, with the headers at its time. *)
Definition timeout_answer (log pre : wlog) : Prop :=
  by_inner pre ∧ only_flushes pre ∧ ∃ hdr, log = pre ++ [(Filter, EHeader 504, hdr); (Filter, EBody status, hdr)].

Record writer_ok (tw : baseTimeoutWriter) : Prop := {
  wo_before : tw_timedOut tw = false → by_inner (tw_w tw);
  wo_used : tw_timedOut tw = false → tw_wroteHeader tw = false → tw_hijacked tw = false → only_flushes (tw_w tw);
  wo_after : tw_timedOut tw = true →
    if tw_wroteHeader tw || tw_hijacked tw then by_inner (tw_w tw)
    else ∃ pre, timeout_answer (tw_w tw) pre;
}.

Lemma by_inner_snoc log e hdr : by_inner log → by_inner (log ++ [(Inner, e, hdr)]).
Proof. intros. apply Forall_app. by repeat constructor. Qed.
#[local] Hint Resolve by_inner_snoc : core.

Lemma inner_op_ok tw tw' : inner_op tw tw' → writer_ok tw → writer_ok tw'.
Proof.
  destruct 1 as [tw|hdr tw Hsh|bs tw Hhj|p tw|code tw|tw|err tw]; intros [Hb Hu Ha]; destruct tw as [t h hj w hd sh]; cbn in *.
  - unfold tw_Header. destruct t; cbn in *; by split.
  - by split.
  - subst hj. split; cbn in *; [auto|done|]. intros Ht. specialize (Ha Ht). rewrite orb_true_r in *. auto.
  - unfold tw_Write. destruct t, hj; cbn in *; try (split; cbn; done). split; cbn; [auto|done|done].
  - unfold tw_WriteHeader. destruct t, h, hj; cbn in *; try (split; cbn; done). split; cbn; [auto|done|done].
  - unfold tw_Flush. destruct t; cbn in *; [by split|]. split; cbn; [auto| |done].
    intros _ H1 H2. apply Forall_app. split; [by apply Hu|by repeat constructor].
  - unfold tw_hijack. destruct t, err; cbn in *; try (by split). split; cbn; [auto|done|done].
Qed.

Lemma tw_timeout_ok tw : tw_timedOut tw = false → writer_ok tw → writer_ok (tw_timeout status tw).2.
Proof.
  intros Ht [Hb Hu Ha]. destruct tw as [t h hj w hd sh]. cbn in *. subst t. unfold tw_timeout.
  destruct h, hj; cbn; (split; cbn; [done|done|]); intros _; auto. exists w. split_and!; auto.
  exists hd. by rewrite <- app_assoc.
Qed.

(** The invariant of a request that is not long-running: the filter's end matches what
    it did to the writer, and as long as the inner handler is there, someone will
    read the result it sends. *)
Record serve_ok (s : tstate) : Prop := {
  so_direct : ts_serve s ≠ Direct;
  so_writer : writer_ok (ts_tw s);
  so_timed : tw_timedOut (ts_tw s) = true →
    ts_serve s = Ended (if tw_wroteHeader (ts_tw s) || tw_hijacked (ts_tw s) then Panic ErrAbortHandler else Ret tt);
  so_channel : ts_inner s ≠ Gone →
    ts_serve s = Select ∨ ts_serve s = Post ∨ ts_serve s = TimingOut ∨ ts_reader s = true;
  so_reader : ts_reader s = true → ∃ res, ts_serve s = Ended res;
}.

(** After the timeout the response is frozen: what the inner handler can still change is
    the header map, which was sent, and a connection it hijacked. *)
Lemma inner_op_frozen tw tw' : inner_op tw tw' → tw_timedOut tw = true →
  tw_timedOut tw' = true ∧ tw_wroteHeader tw' = tw_wroteHeader tw ∧ tw_hijacked tw' = tw_hijacked tw ∧
  response_of (tw_w tw') = response_of (tw_w tw) ∧ (tw_hijacked tw = false → tw_w tw' = tw_w tw).
Proof.
  destruct 1 as [tw|hdr tw Hsh|bs tw Hhj|p tw|code tw|tw|err tw]; intros Ht;
    unfold tw_Header, tw_Write, tw_WriteHeader, tw_Flush, tw_hijack, response_of; rewrite ?Ht; cbn; split_and!; try done.
  - by rewrite List.filter_app, app_nil_r.
  - by rewrite Hhj.
Qed.

Lemma inner_op_timedOut tw tw' : inner_op tw tw' → tw_timedOut tw' = tw_timedOut tw.
Proof.
  destruct 1; unfold tw_Header, tw_Write, tw_WriteHeader, tw_Flush, tw_hijack; by repeat case_match.
Qed.

Lemma serve_ok_start hdr : serve_ok (ServeHTTP_start hdr false).
Proof. split; cbn; [done| |done|auto|done]. split; cbn; [constructor|constructor|done]. Qed.

Lemma tstep_ok s s' : tstep s s' → serve_ok s → serve_ok s'.
Proof.
  intros Hs [Hd Hw Ht Hc Hr].
  destruct Hs as [s tw' Hi _ Hop|s res Hi _|s e Hi Hm|s hdr Hi Hm|s res Hi Hm|s res Hm Hi|s Hm|s Hm|s msg Hm|s Hm|s res Hrd Hi];
    try congruence.
  - (* an operation of the inner handler *)
    split; cbn; [done|by eapply inner_op_ok| |done|done].
    intros Ht'. rewrite (inner_op_timedOut _ _ Hop) in Ht'. destruct (inner_op_frozen _ _ Hop Ht') as (_ & -> & -> & _). auto.
  - split; cbn; [done|done|done| |done]. intros _. apply Hc. congruence.
  - split; cbn; [done|done| |done|]; [intros Ht'; specialize (Ht Ht'); congruence|].
    intros Hrd. destruct (Hr Hrd). congruence.
  - split; cbn; [done|done| |auto|]; [intros Ht'; specialize (Ht Ht'); congruence|].
    intros Hrd. destruct (Hr Hrd). congruence.
  - split; cbn; [done|done| |auto|]; [intros Ht'; specialize (Ht Ht'); congruence|].
    intros Hrd. destruct (Hr Hrd). congruence.
  - split; cbn; [done|done| |auto|eauto]. intros Ht'. specialize (Ht Ht'). congruence.
  - assert (Hnt : tw_timedOut (ts_tw s) = false) by (destruct (tw_timedOut (ts_tw s)); [specialize (Ht eq_refl); congruence|done]).
    split; cbn; [done|by apply tw_timeout_ok| |auto|eauto].
    intros _. unfold tw_timeout. destruct (ts_tw s) as [t h hj w hd sh]. by destruct h, hj.
  - destruct (Hr Hrd) as [r Hm]. split; cbn; [done|done|done|done|done].
Qed.

Lemma treachable_ok hdr s : treachable hdr false s → serve_ok s.
Proof.
  unfold treachable. generalize (serve_ok_start hdr). generalize (ServeHTTP_start hdr false).
  intros s0 H0 Hr. induction Hr as [|s1 s2 s3 Hs _ IH]; [done|]. apply IH. by eapply tstep_ok.
Qed.

Lemma timeout_answer_sent log pre : timeout_answer log pre →
  ∃ hdr, response_sent log = Some (if pre is [] then 504 else 200, hdr)%Z.
Proof.
  intros (_ & Hf & hdr & ->). destruct pre as [|[[a e] h] pre]; [by exists hdr|].
  apply Forall_cons in Hf as [He _]. cbn in He. subst e. by exists h.
Qed.

(** C19: in every interleaving, once a request has timed out its response stays as it is,
    whatever the inner handler does with the writer or the header map it holds (only a
    connection it hijacked is its own to write to), and it is one of two things: nothing
    by the inner handler but flushes, followed by the filter's 504 and status, with
    ServeHTTP returning normally; or only what the inner handler wrote, with ServeHTTP
    panicking so that the connection is closed.  In the first case the client is told 504
    if the inner handler did not flush; if it did, 200, with the filter's status as the
    body.  Before the timeout only the inner handler writes. *)
Theorem timeout_exclusive hdr s :
  treachable hdr false s →
  let tw := ts_tw s in
  if tw_timedOut tw then
    (∀ tw', inner_op tw tw' → response_of (tw_w tw') = response_of (tw_w tw) ∧ (tw_hijacked tw = false → tw_w tw' = tw_w tw)) ∧
    ((ts_serve s = Ended (Ret tt) ∧ ∃ pre, timeout_answer (tw_w tw) pre ∧
       ∃ h, response_sent (tw_w tw) = Some (if pre is [] then 504 else 200, h)%Z) ∨
     (ts_serve s = Ended (Panic ErrAbortHandler) ∧ by_inner (tw_w tw)))
  else by_inner (tw_w tw).
Proof.
  intros Hr tw. destruct (treachable_ok hdr s Hr) as [_ [Hb Hu Ha] Ht _ _]. fold tw in Hb, Hu, Ha, Ht.
  destruct (tw_timedOut tw) eqn:E; [|by apply Hb]. split.
  { intros tw' Hop. by destruct (inner_op_frozen _ _ Hop E) as (_ & _ & _ & ? & ?). }
  specialize (Ha eq_refl). specialize (Ht eq_refl).
  destruct (tw_wroteHeader tw || tw_hijacked tw); [by right|left]. split; [done|].
  destruct Ha as [pre Hpre]. exists pre. split; [done|by apply timeout_answer_sent].
Qed.

(** The goroutine of the inner handler is never stuck on sending its result: from any
    reachable state steps of ServeHTTP and of the reader alone let it go. *)
Theorem inner_never_stuck hdr s res :
  treachable hdr false s → ts_inner s = Sending res → ∃ s', rtc tstep s s' ∧ ts_inner s' = Gone.
Proof.
  intros Hr Hi. pose proof (so_channel s (treachable_ok hdr s Hr)) as Hc.
  assert (Hread : ∀ s, ts_reader s = true → ts_inner s = Sending res → ∃ s', rtc tstep s s' ∧ ts_inner s' = Gone).
  { intros s0 Hrd Hi0. eexists. split; [apply rtc_once, (t_reader _ res); done|done]. }
  assert (Htime : ∀ s, ts_serve s = TimingOut → ts_inner s = Sending res → ∃ s', rtc tstep s s' ∧ ts_inner s' = Gone).
  { intros s0 Hm Hi0. destruct (Hread (end_timeout (set_tw s0 (tw_timeout status (ts_tw s0)).2)
      (tw_timeout status (ts_tw s0)).1)) as (s' & Hs' & Hg); [done|done|].
    exists s'. split; [|done]. eapply rtc_l; [by apply t_timeout|done]. }
  destruct Hc as [Hm|[Hm|[Hm|Hrd]]]; [congruence| | |by apply Htime|by apply Hread].
  - eexists. split; [apply rtc_once, (t_result _ res); done|done].
  - destruct (Htime (set_serve s TimingOut)) as (s' & Hs' & Hg); [done|done|].
    exists s'. split; [|done]. eapply rtc_l; [by apply t_post|done].
Qed.

(** A long-running request is never timed out. *)
Theorem longRunning_untouched hdr s :
  treachable hdr true s → tw_timedOut (ts_tw s) = false ∧ by_inner (tw_w (ts_tw s)) ∧
  (ts_serve s = Direct ∨ ∃ res, ts_serve s = Ended res ∧ ts_inner s = Gone).
Proof.
  unfold treachable. set (I := λ s, tw_timedOut (ts_tw s) = false ∧ by_inner (tw_w (ts_tw s)) ∧
    ts_reader s = false ∧ (ts_serve s = Direct ∨ ∃ res, ts_serve s = Ended res ∧ ts_inner s = Gone)).
  assert (Hstep : ∀ s1 s2, tstep s1 s2 → I s1 → I s2).
  { intros s1 s2 Hs (Ht & Hb & Hrd & Hm). destruct Hs; destruct Hm as [Hm|(r & Hm & Hg)]; try congruence.
    - repeat split; cbn; auto.
    - repeat split; cbn; auto.
    - repeat split; cbn; eauto. }
  assert (H0 : I (ServeHTTP_start hdr true)) by (repeat split; cbn; auto; constructor).
  revert H0. generalize (ServeHTTP_start hdr true). intros s0 H0 Hr.
  assert (Hs : I s) by (induction Hr; eauto). by destruct Hs as (? & ? & _ & ?).
Qed.
End ServeHTTP.

(** ** Examples *)

(** A timeout that the inner handler did not anticipate tells the client 504; but a
    flush before any write has already sent 200, which [baseTimeoutWriter] does not
    remember: ServeHTTP then returns normally and the client reads the filter's
    status as the body of a successful response. *)
Theorem flush_defeats_timeout withStack status :
  ∃ s, treachable withStack status ∅ false s ∧ tw_timedOut (ts_tw s) = true ∧ ts_serve s = Ended (Ret tt) ∧
    tw_w (ts_tw s) = [(Inner, EFlush, ∅); (Filter, EHeader 504, ∅); (Filter, EBody status, ∅)] ∧
    response_sent (tw_w (ts_tw s)) = Some (200%Z, ∅).
Proof.
  exists {| ts_inner := Running; ts_serve := Ended (Ret tt); ts_reader := true;
            ts_tw := {| tw_timedOut := true; tw_wroteHeader := false; tw_hijacked := false;
                        tw_w := [(Inner, EFlush, ∅); (Filter, EHeader 504, ∅); (Filter, EBody status, ∅)];
                        tw_header := ∅; tw_shared := false |} |}.
  split; [|split_and!; reflexivity]. unfold treachable.
  eapply rtc_l; [apply t_op; [done|done|apply io_Flush]|].
  eapply rtc_l; [by apply t_deadline|]. eapply rtc_l; [by apply t_post|].
  eapply rtc_l; [by apply t_timeout|]. apply rtc_refl.
Qed.

Module TimeoutExamples.
(** The inner handler wrote half an answer when the deadline passed, and then ended. *)
Definition half : tstate :=
  {| ts_inner := Sending None; ts_serve := Ended (Panic ErrAbortHandler); ts_reader := true;
     ts_tw := {| tw_timedOut := true; tw_wroteHeader := true; tw_hijacked := false; tw_w := [(Inner, EBody "half", ∅)];
                 tw_header := ∅; tw_shared := false |} |}.

Lemma half_reachable : treachable id "timeout" ∅ false half.
Proof.
  unfold treachable.
  eapply rtc_l; [apply t_op; [done|done|apply (io_Write "half")]|].
  eapply rtc_l; [by apply t_deadline|]. eapply rtc_l; [by apply t_post|].
  eapply rtc_l; [by apply t_timeout|].
  eapply rtc_l; [by apply (t_end _ _ _ None)|]. apply rtc_refl.
Qed.

Lemma timeout_exclusive_witness :
  ts_serve half = Ended (Panic ErrAbortHandler) ∧ by_inner (tw_w (ts_tw half)).
Proof.
  pose proof (timeout_exclusive id "timeout" ∅ half half_reachable) as H. cbn in H.
  destruct H as [_ [[He _]|H]]; [discriminate|exact H].
Defined.

Lemma inner_never_stuck_witness :
  ∃ s', rtc (tstep id "timeout") half s' ∧ ts_inner s' = Gone.
Proof. apply (inner_never_stuck id "timeout" ∅ half None); [exact half_reachable|reflexivity]. Defined.

Lemma longRunning_untouched_witness :
  let s := ServeHTTP_start ∅ true in
  tw_timedOut (ts_tw s) = false ∧ by_inner (tw_w (ts_tw s)) ∧
  (ts_serve s = Direct ∨ ∃ res, ts_serve s = Ended res ∧ ts_inner s = Gone).
Proof. apply (longRunning_untouched id "timeout" ∅). apply rtc_refl. Defined.
End TimeoutExamples.
