(* ===== verification/Loopback.v ===== *)
(** * The server's own credentials

    src/pkg/server/config.go, AuthorizeClientBearerToken: the token of the loopback
    client is put in front of the configured authenticator, and its group in front of
    the configured authorizer.  src/pkg/authentication/authenticatorfactory/loopback.go. *)

From S2P Require Import Prelude GoStrings GoEncoding Authorizer Authn AuthnRequests.

Local Open Scope go_scope.

Definition APIServerUser : string := "system:apiserver".

Definition NewFromTokens {S} (tokens : gmap string DefaultInfo) : Request S :=
  bearertoken_AuthenticateRequest (tokenfile_AuthenticateToken tokens).

Section Loopback.
Context `{UtilErrors} {S A : Type}.

Definition loopback_user (uid : string) : DefaultInfo :=
  {| u_Name := APIServerUser; u_UID := uid; u_Groups := [SystemPrivilegedGroup]; u_Extra := ∅ |}.

(** A nil pointer, then a nil interface inside it, are two options.  [loopback] is the
    client's bearer token, [uid] the new UUID. *)
Definition AuthorizeClientBearerToken (loopback : option string) (uid : string)
    (authn : option (option (Request S))) (authz : option (option (Authorizer A)))
    : option (option (Request S)) * option (option (Authorizer A)) :=
  match loopback, authn, authz with
  | Some token, Some (Some authenticator), Some (Some authorizer) =>
      if slen token =? 0 then (authn, authz)
      else
        let tokenAuthenticator := NewFromTokens {[ token := loopback_user uid ]} in
        let tokenAuthorizer := pure_authorizer (privilegedGroupAuthorizer_Authorize [SystemPrivilegedGroup]) in
        (Some (Some (request_union_New [tokenAuthenticator; authenticator])),
         Some (Some (unionAuthzHandler_Authorize [tokenAuthorizer; authorizer])))
  | _, _, _ => (authn, authz)
  end.

(** What the two become. *)
Definition loopback_authn token uid (authn : Request S) : Request S :=
  request_union_New [NewFromTokens {[ token := loopback_user uid ]}; authn].
Definition loopback_authz (authz : Authorizer A) : Authorizer A :=
  unionAuthzHandler_Authorize [pure_authorizer (privilegedGroupAuthorizer_Authorize [SystemPrivilegedGroup]); authz].

Lemma AuthorizeClientBearerToken_eq token uid authn authz :
  token ≠ "" →
  AuthorizeClientBearerToken (Some token) uid (Some (Some authn)) (Some (Some authz)) =
  (Some (Some (loopback_authn token uid authn)), Some (Some (loopback_authz authz))).
Proof. intros Ht. unfold AuthorizeClientBearerToken. by rewrite slen_0_decide, bool_decide_eq_false_2. Qed.

(** With any other bearer token, or none, the token authenticator has no say and
    changes nothing. *)
Lemma loopback_token_passes token uid ctx (w : world S) :
  bearer_token (w_header w) ≠ Some token →
  ∃ err, NewFromTokens {[ token := loopback_user uid ]} ctx w = Ret ((None, false, err), w).
Proof.
  intros Hb. unfold NewFromTokens, bearertoken_AuthenticateRequest, mbind, Auth_bind. cbn.
  destruct (bearer_token (w_header w)) as [t|]; [|by eexists].
  unfold tokenfile_AuthenticateToken. rewrite lookup_singleton_ne by congruence. by eexists.
Qed.

Lemma unionAuth_last errs (m : Auth S answer) w l w' :
  unionAuth_loop false [m] errs w = Ret ((l, true, None), w') ↔ m w = Ret ((l, true, None), w').
Proof.
  cbn [unionAuth_loop]. unfold mbind, Auth_bind, mret, Auth_ret.
  destruct (m w) as [[[[resp ok] [e|]] w1]|msg]; [split; intros; simplify_eq| |done].
  destruct ok; [done|split; intros; simplify_eq].
Qed.

(** The loopback token is accepted as the privileged user, whose requests the authorizer
    allows; a request with another token, or none, is answered by the configured
    authenticator exactly when that accepts it; a user outside the privileged group is
    decided on by the configured authorizer alone. *)
Theorem loopback_spec token uid authn authz :
  token ≠ "" →
  AuthorizeClientBearerToken (Some token) uid (Some (Some authn)) (Some (Some authz)) =
    (Some (Some (loopback_authn token uid authn)), Some (Some (loopback_authz authz))) ∧
  (∀ ctx w, bearer_token (w_header w) = Some token →
     ∃ w' r, loopback_authn token uid authn ctx w = Ret ((Some (length (w_heap w)), true, None), w') ∧
       w_heap w' = w_heap w ++ [r] ∧ resp_User r = Some (loopback_user uid) ∧
       w_header w' !! "Authorization" = None) ∧
  (∀ ctx w l w', bearer_token (w_header w) ≠ Some token →
     loopback_authn token uid authn ctx w = Ret ((l, true, None), w') ↔ authn ctx w = Ret ((l, true, None), w')) ∧
  (∀ attrs st, a_User attrs = Some (loopback_user uid) → loopback_authz authz attrs st = (Verdict DecisionAllow "" None, st)) ∧
  (∀ attrs st u, a_User attrs = Some u → SystemPrivilegedGroup ∉ u_Groups u →
     v_decision (loopback_authz authz attrs st).1 = v_decision (authz attrs st).1 ∧
     (loopback_authz authz attrs st).2 = (authz attrs st).2).
Proof.
  intros Ht. split; [by apply AuthorizeClientBearerToken_eq|]. split_and!.
  - intros ctx w Hb. unfold loopback_authn, request_union_New, unionAuth. cbn [fmap list_fmap unionAuth_loop].
    unfold NewFromTokens, bearertoken_AuthenticateRequest, mbind, Auth_bind. cbn. rewrite Hb.
    unfold tokenfile_AuthenticateToken. rewrite lookup_singleton_eq. cbn.
    do 2 eexists. split; [reflexivity|]. split; [done|]. split; [done|]. apply lookup_delete_eq.
  - intros ctx w l w' Hb. unfold loopback_authn, request_union_New, unionAuth. cbn [fmap list_fmap unionAuth_loop].
    destruct (loopback_token_passes token uid ctx w Hb) as [err Heq].
    unfold mbind, Auth_bind. rewrite Heq. by destruct err; apply unionAuth_last.
  - intros attrs st Hu. unfold loopback_authz, unionAuthzHandler_Authorize, privilegedGroupAuthorizer_Authorize, pure_authorizer.
    cbn. rewrite Hu. reflexivity.
  - intros attrs st u Hu Hg. unfold loopback_authz, unionAuthzHandler_Authorize, privilegedGroupAuthorizer_Authorize, pure_authorizer.
    cbn [unionAuthz_loop]. unfold mbind, ST_bind. rewrite Hu.
    replace (existsb _ (u_Groups u)) with false; cycle 1.
    { symmetry. apply existsb_false_iff. intros g Hin. cbn. apply orb_false_iff. split; [|done].
      apply bool_decide_eq_false. congruence. }
    cbn. destruct (authz attrs st) as [[[] reason err] st']; by cbn.
Qed.
End Loopback.

Module LoopbackExamples.
#[local] Existing Instance golib_errors_model.

Definition nobody : Request unit := λ _, mret (None, false, None).
Definition deny : Authorizer unit := pure_authorizer alwaysDenyAuthorizer_Authorize.

Lemma loopback_spec_witness :
  ∃ w' r, loopback_authn "secret" "uid" nobody None (World [] {[ "Authorization" := ["Bearer secret"] ]} tt) =
            Ret ((Some 0, true, None), w') ∧
    w_heap w' = [r] ∧ resp_User r = Some (loopback_user "uid") ∧ w_header w' !! "Authorization" = None.
Proof.
  destruct (loopback_spec "secret" "uid" nobody deny) as (_ & Hown & _); [done|].
  apply (Hown None (World [] {[ "Authorization" := ["Bearer secret"] ]} tt)). vm_compute. reflexivity.
Defined.
End LoopbackExamples.
