(* ===== verification/Streams.v ===== *)
(** * Streams: what remote commands and port forwarding share

    The streams of an upgraded connection as pkg/streaming sees them: golib's
    httpstream.Stream is an identifier with headers.  The names of headers and
    stream types are golib constants, so they are parameters; that the types are
    distinct is a law.  strconv.ParseUint, ParseInt and Itoa are Go's. *)

From stdpp Require Import pretty.
From S2P Require Import Prelude GoStrings GoEncoding.

Local Open Scope go_scope.

(** github.com/yubo/golib/api: header names and the values of the stream type. *)
Class StreamConsts := {
  StreamType : string;
  StreamTypeStdin : string;
  StreamTypeStdout : string;
  StreamTypeStderr : string;
  StreamTypeData : string;
  StreamTypeError : string;
  StreamTypeResize : string;
  PortHeader : string;
  PortForwardRequestIDHeader : string;
}.

Class StreamConstsLaws `{StreamConsts} :=
  stream_types_distinct :
    NoDup [StreamTypeStdin; StreamTypeStdout; StreamTypeStderr; StreamTypeData; StreamTypeError; StreamTypeResize].

Definition golib_stream_consts : StreamConsts := {|
  StreamType := "streamType"; StreamTypeStdin := "stdin"; StreamTypeStdout := "stdout";
  StreamTypeStderr := "stderr"; StreamTypeData := "data"; StreamTypeError := "error";
  StreamTypeResize := "resize"; PortHeader := "port"; PortForwardRequestIDHeader := "requestID";
|}.

Lemma golib_stream_consts_laws : @StreamConstsLaws golib_stream_consts.
Proof. unfold StreamConstsLaws. apply (bool_decide_unpack _). vm_compute. exact I. Qed.

(** httpstream.Stream: [st_id] is the uint32 of Identifier(). *)
Record Stream := { st_id : Z; st_headers : Header }.

#[global] Instance Stream_eq_dec : EqDecision Stream.
Proof. solve_decision. Defined.

(** stream.Headers().Get(key): Get canonicalizes the key. *)
Definition stream_Get (s : Stream) (key : string) : string := Header_Get (st_headers s) (CanonicalHeaderKey key).

Definition stream_type `{StreamConsts} (s : Stream) : string := stream_Get s StreamType.

(** ** strconv *)

Definition digit_value (a : ascii) : option Z :=
  let n := Z.of_N (N_of_ascii a) in
  if (48 <=? n)%Z && (n <=? 57)%Z then Some (n - 48)%Z else None.

Definition ErrSyntax : error := Errorf "invalid syntax" [].
Definition ErrRange : error := Errorf "value out of range" [].

(** The loop of ParseUint in base 10; [maxVal] is 2^bitSize - 1. *)
Fixpoint parse_digits (maxVal n : Z) (s : string) : Z + error :=
  match s with
  | "" => inl n
  | String a s =>
      match digit_value a with
      | None => inr ErrSyntax
      | Some d =>
          let n1 := (n * 10 + d)%Z in
          if (maxVal <? n1)%Z then inr ErrRange else parse_digits maxVal n1 s
      end
  end.

(** strconv.ParseUint(s, 10, bitSize), for widths at which [n * 10 + 9] fits uint64. *)
Definition ParseUint (s : string) (bitSize : Z) : Z + error :=
  if s == "" then inr ErrSyntax else parse_digits (2 ^ bitSize - 1) 0 s.

(** strconv.ParseInt(s, 10, bitSize): a result also accompanies an error. *)
Definition ParseInt (s : string) (bitSize : Z) : Z * option error :=
  match s with
  | "" => (0%Z, Some ErrSyntax)
  | String a rest =>
      let neg := a == "-"%char in
      let s := if (a == "+"%char) || neg then rest else s in
      let cutoff := (2 ^ (bitSize - 1))%Z in
      let finish un :=
        if negb neg && (cutoff <=? un)%Z then ((cutoff - 1)%Z, Some ErrRange)
        else if neg && (cutoff <? un)%Z then ((- cutoff)%Z, Some ErrRange)
        else (if neg then (- un)%Z else un, None) in
      match ParseUint s bitSize with
      | inl un => finish un
      | inr e => if e == ErrRange then finish (2 ^ bitSize - 1)%Z else (0%Z, Some e)
      end
  end.

(** strconv.Itoa. *)
Definition Itoa (n : Z) : string := pretty n.

Lemma Itoa_inj n m : Itoa n = Itoa m → n = m.
Proof. apply (inj (pretty : Z → string)). Qed.

(** The text of a number has digits and a sign only. *)
Lemma pretty_N_go_ContainsByte c x s :
  (∀ d, pretty_N_char d ≠ c) → ContainsByte s c = false → ContainsByte (pretty_N_go x s) c = false.
Proof.
  intros Hc. revert s. induction (N.lt_wf_0 x) as [x _ IH]; intros s Hs.
  destruct (decide (x = 0%N)) as [->|Hx]; [by rewrite pretty_N_go_0|].
  rewrite pretty_N_go_step by lia. apply IH; [apply N.div_lt; lia|]. cbn [ContainsByte].
  by rewrite Hs, orb_false_r, bool_decide_eq_false_2.
Qed.

Lemma Itoa_ContainsByte c n : c ≠ "-"%char → (∀ d, pretty_N_char d ≠ c) → ContainsByte (Itoa n) c = false.
Proof.
  intros Hm Hc.
  assert (∀ p, ContainsByte (pretty (Npos p)) c = false) as Hp by (intros p; by apply pretty_N_go_ContainsByte).
  destruct n as [|p|p]; [|apply Hp|].
  - change (Itoa 0) with (String (pretty_N_char 0) ""). cbn [ContainsByte]. by rewrite bool_decide_eq_false_2.
  - unfold Itoa. change (pretty (Zneg p)) with ("-" +:+ pretty (Npos p)). rewrite ContainsByte_app, Hp. cbn.
    by rewrite bool_decide_eq_false_2.
Qed.

Ltac no_digit := let d := fresh in intros d; unfold pretty_N_char; by repeat case_match.

Lemma digit_value_range a d : digit_value a = Some d → (0 ≤ d ≤ 9)%Z ∧ a ≠ "-"%char ∧ a ≠ "+"%char.
Proof.
  unfold digit_value. destruct ((48 <=? _)%Z && _) eqn:E; [|done]. intros [= <-]. bool_crush.
  split_and!; [lia|lia|intros ->; done..].
Qed.

Lemma parse_digits_range maxVal n s v :
  (0 ≤ n ≤ maxVal)%Z → parse_digits maxVal n s = inl v → (0 ≤ v ≤ maxVal)%Z.
Proof.
  revert n. induction s as [|a s IH]; intros n Hn; cbn [parse_digits]; [by intros [= <-]|].
  destruct (digit_value a) as [d|] eqn:Hd; [|done]. apply digit_value_range in Hd as [Hd _]. cbn zeta.
  destruct (maxVal <? _)%Z eqn:Hlt; [done|]. apply Z.ltb_ge in Hlt. apply IH. lia.
Qed.

Lemma parse_digits_mono maxVal maxVal' n s v :
  (maxVal ≤ maxVal')%Z → parse_digits maxVal n s = inl v → parse_digits maxVal' n s = inl v.
Proof.
  intros Hle. revert n. induction s as [|a s IH]; intros n; cbn [parse_digits]; [done|].
  destruct (digit_value a) as [d|]; [|done]. cbn zeta.
  destruct (maxVal <? _)%Z eqn:Hlt; [done|]. apply Z.ltb_ge in Hlt.
  destruct (maxVal' <? _)%Z eqn:Hlt'; [apply Z.ltb_lt in Hlt'; lia|]. apply IH.
Qed.

Lemma ParseUint_range s b v : (0 ≤ b)%Z → ParseUint s b = inl v → (0 ≤ v < 2 ^ b)%Z.
Proof.
  intros Hb. unfold ParseUint. destruct (s == ""); [done|].
  intros H%parse_digits_range; [lia|]. pose proof (Z.pow_pos_nonneg 2 b). lia.
Qed.

(** What Itoa writes is read back. *)
Lemma parse_digits_pretty maxVal x s :
  (Z.of_N x ≤ maxVal)%Z → parse_digits maxVal 0 (pretty_N_go x s) = parse_digits maxVal (Z.of_N x) s.
Proof.
  revert s; induction (N.lt_wf_0 x) as [x _ IH]; intros s Hx.
  destruct (decide (x = 0%N)) as [->|Hn]; [by rewrite pretty_N_go_0|].
  assert (x `div` 10 < x)%N as Hlt by (apply N.div_lt; lia).
  pose proof (N.div_mod' x 10) as Hd; pose proof (N.mod_lt x 10 ltac:(lia)) as Hm.
  rewrite pretty_N_go_step, IH by lia; cbn [parse_digits].
  assert (digit_value (pretty_N_char (x `mod` 10)) = Some (Z.of_N (x `mod` 10))) as ->.
  { assert (∀ k, k < 10 → digit_value (pretty_N_char (N.of_nat k)) = Some (Z.of_nat k)) as Hk.
    { intros k Hk; do 10 (destruct k as [|k]; [reflexivity|]); lia. }
    rewrite <- (N2Nat.id (x `mod` 10)), Hk by lia; f_equal; lia. }
  rewrite (proj2 (Z.ltb_ge _ _)) by lia; f_equal; lia.
Qed.

Lemma pretty_N_go_non_empty x s : x ≠ 0%N ∨ s ≠ "" → pretty_N_go x s ≠ "".
Proof.
  revert s; induction (N.lt_wf_0 x) as [x _ IH]; intros s Hs.
  destruct (decide (x = 0%N)) as [->|Hn]; [rewrite pretty_N_go_0; naive_solver|].
  rewrite pretty_N_go_step by lia; apply IH; [apply N.div_lt; lia|by right].
Qed.

Lemma ParseUint_Itoa n b : (0 ≤ n < 2 ^ b)%Z → ParseUint (Itoa n) b = inl n.
Proof.
  intros Hn; unfold ParseUint; destruct n as [|p|p]; [| |lia].
  - change (Itoa 0) with (String "0"%char ""); rewrite bool_decide_eq_false_2 by done; cbn [parse_digits].
    change (digit_value "0"%char) with (Some 0%Z); cbv beta iota zeta; by rewrite (proj2 (Z.ltb_ge _ _)) by lia.
  - change (Itoa (Zpos p)) with (pretty_N_go (Npos p) "").
    rewrite bool_decide_eq_false_2 by (by apply pretty_N_go_non_empty; left). by rewrite parse_digits_pretty by lia.
Qed.

(** What ParseUint accepts at a smaller width, ParseInt reads as the same number. *)
Lemma ParseUint_ParseInt s b b' v :
  (0 ≤ b < b')%Z → ParseUint s b = inl v → ParseInt s b' = (v, None).
Proof.
  intros Hb Hs. pose proof (ParseUint_range _ _ _ (proj1 Hb) Hs) as Hv.
  assert (2 ^ b ≤ 2 ^ (b' - 1))%Z as Hpow by (apply Z.pow_le_mono_r; lia).
  assert (2 ^ b ≤ 2 ^ b')%Z as Hpow' by (apply Z.pow_le_mono_r; lia).
  destruct s as [|a s]; [done|].
  assert (ParseUint (String a s) b' = inl v) as Hs'.
  { unfold ParseUint in *. cbn in Hs |- *. eapply (parse_digits_mono (2 ^ b - 1) _ 0 (String a s)); [lia|exact Hs]. }
  assert (is_Some (digit_value a)) as [d Hd].
  { unfold ParseUint in Hs. cbn in Hs. destruct (digit_value a) as [d|]; [by eexists|done]. }
  apply digit_value_range in Hd as (_ & Hminus & Hplus). unfold ParseInt.
  rewrite !bool_decide_eq_false_2 by done. cbn [orb negb andb]. rewrite Hs'.
  by rewrite (proj2 (Z.leb_gt _ _)) by lia.
Qed.

Example ParseInt_examples :
  ParseInt "+8080" 32 = (8080%Z, None) ∧ ParseInt "99999999999" 32 = ((2 ^ 31 - 1)%Z, Some ErrRange) ∧
  ParseInt "80x" 32 = (0%Z, Some ErrSyntax) ∧ ParseUint "65536" 16 = inr ErrRange ∧ ParseUint "+1" 16 = inr ErrSyntax.
Proof. vm_compute. split_and!; reflexivity. Qed.
