(* ===== verification/Negotiation.v ===== *)
(** * Content negotiation

    Models pkg/handlers/negotiation: which serializer answers an Accept header and
    which reads a Content-Type.  goautoneg's parser of Accept headers,
    mime.ParseMediaType, url.ParseQuery and golib's SerializerInfoForMediaType are
    parameters. *)

From S2P Require Import Prelude GoStrings GoEncoding FeatureGate.

Local Open Scope go_scope.

(** strings.Contains. *)
Fixpoint Contains (s sub : string) : bool :=
  HasPrefix s sub || match s with "" => false | String _ s => Contains s sub end.

Section negotiation.
(** Serializers are golib's. *)
Context {S : Type}.

Record SerializerInfo := {
  si_MediaType : string;
  si_MediaTypeType : string;
  si_MediaTypeSubType : string;
  si_Serializer : S;
  si_PrettySerializer : option S;
  si_StreamSerializer : option S;
}.

(** A clause of goautoneg.ParseAccept. *)
Record Accept := { ac_Type : string; ac_SubType : string; ac_Params : gmap string string }.

Record MediaTypeOptions := {
  mt_Pretty : bool;
  mt_Stream : string;
  mt_UseServerVersion : string;
  mt_Export : bool;
  mt_Unrecognized : list string;
  mt_Accepted : option SerializerInfo; (* the zero SerializerInfo is [None] *)
}.

Definition MediaTypeOptions_zero : MediaTypeOptions :=
  {| mt_Pretty := false; mt_Stream := ""; mt_UseServerVersion := ""; mt_Export := false; mt_Unrecognized := [];
     mt_Accepted := None |}.

Context (ParseAccept : string → list Accept).
(** The order in which a map is ranged over. *)
Context (visit : gmap string string → list (string * string)).

(** The errors of errors.go; the code of their status. *)
Inductive negotiationError := NotAcceptable (accepted : list string) | UnsupportedMediaType (accepted : list string).

Definition Status_Code (e : negotiationError) : Z :=
  match e with NotAcceptable _ => 406%Z | UnsupportedMediaType _ => 415%Z end.

Definition MediaTypesForSerializer (supported : list SerializerInfo) : list string * list string :=
  (si_MediaType <$> supported,
   (λ info, si_MediaType info +:+ ";stream=watch") <$> filter (λ info, is_Some (si_StreamSerializer info)) supported).

(** The loop over the parameters. *)
Fixpoint params_loop (params : list (string * string)) (accepts : SerializerInfo) (o : MediaTypeOptions)
    : option MediaTypeOptions :=
  match params with
  | [] => Some o
  | (k, v) :: params =>
      if k == "stream" then
        if (v != "") && bool_decide (si_StreamSerializer accepts = None) then None
        else params_loop params accepts
               {| mt_Pretty := mt_Pretty o; mt_Stream := v; mt_UseServerVersion := mt_UseServerVersion o;
                  mt_Export := mt_Export o; mt_Unrecognized := mt_Unrecognized o; mt_Accepted := mt_Accepted o |}
      else params_loop params accepts
        (if k == "sv" then
           {| mt_Pretty := mt_Pretty o; mt_Stream := mt_Stream o; mt_UseServerVersion := v;
              mt_Export := mt_Export o; mt_Unrecognized := mt_Unrecognized o; mt_Accepted := mt_Accepted o |}
         else if k == "export" then
           {| mt_Pretty := mt_Pretty o; mt_Stream := mt_Stream o; mt_UseServerVersion := mt_UseServerVersion o;
              mt_Export := v == "1"; mt_Unrecognized := mt_Unrecognized o; mt_Accepted := mt_Accepted o |}
         else if k == "pretty" then
           {| mt_Pretty := v == "1"; mt_Stream := mt_Stream o; mt_UseServerVersion := mt_UseServerVersion o;
              mt_Export := mt_Export o; mt_Unrecognized := mt_Unrecognized o; mt_Accepted := mt_Accepted o |}
         else
           {| mt_Pretty := mt_Pretty o; mt_Stream := mt_Stream o; mt_UseServerVersion := mt_UseServerVersion o;
              mt_Export := mt_Export o; mt_Unrecognized := mt_Unrecognized o ++ [k]; mt_Accepted := mt_Accepted o |})
  end.

Definition acceptMediaTypeOptions (params : gmap string string) (accepts : SerializerInfo) : option MediaTypeOptions :=
  match params_loop (visit params) accepts MediaTypeOptions_zero with
  | None => None
  | Some o =>
      Some {| mt_Pretty := mt_Pretty o; mt_Stream := mt_Stream o; mt_UseServerVersion := mt_UseServerVersion o;
              mt_Export := mt_Export o; mt_Unrecognized := mt_Unrecognized o; mt_Accepted := Some accepts |}
  end.

(** The cases of the switch. *)
Definition clause_matches (clause : Accept) (accepts : SerializerInfo) : bool :=
  ((ac_Type clause == si_MediaTypeType accepts) && (ac_SubType clause == si_MediaTypeSubType accepts)) ||
  ((ac_Type clause == si_MediaTypeType accepts) && (ac_SubType clause == "*")) ||
  ((ac_Type clause == "*") && (ac_SubType clause == "*")).

Fixpoint accepted_loop (clause : Accept) (accepted : list SerializerInfo) : option MediaTypeOptions :=
  match accepted with
  | [] => None
  | accepts :: accepted =>
      if clause_matches clause accepts then
        match acceptMediaTypeOptions (ac_Params clause) accepts with
        | Some ret => Some ret
        | None => accepted_loop clause accepted
        end
      else accepted_loop clause accepted
  end.

Fixpoint clauses_loop (clauses : list Accept) (accepted : list SerializerInfo) : option MediaTypeOptions :=
  match clauses with
  | [] => None
  | clause :: clauses =>
      match accepted_loop clause accepted with
      | Some ret => Some ret
      | None => clauses_loop clauses accepted
      end
  end.

Definition NegotiateMediaTypeOptions (header : string) (accepted : list SerializerInfo) : option MediaTypeOptions :=
  match (if header == "" then accepted else []) with
  | first :: _ =>
      Some {| mt_Pretty := false; mt_Stream := ""; mt_UseServerVersion := ""; mt_Export := false;
              mt_Unrecognized := []; mt_Accepted := Some first |}
  | [] => clauses_loop (ParseAccept header) accepted
  end.

(** What of the request is used: a nil URL is [None], otherwise its RawQuery. *)
Record Request := { rq_Accept : string; rq_ContentType : string; rq_RawQuery : option string; rq_UserAgent : string }.

Context (ParseQuery : string → gmap string (list string)).

Definition isPrettyPrint (req : Request) : bool :=
  let pp := match rq_RawQuery req with
            | Some raw => if Contains raw "pretty" then default "" (head (default [] (ParseQuery raw !! "pretty"))) else ""
            | None => ""
            end in
  if pp != "" then default false (ParseBool pp)
  else HasPrefix (rq_UserAgent req) "curl" || HasPrefix (rq_UserAgent req) "Wget" ||
       HasPrefix (rq_UserAgent req) "Mozilla/5.0".

Definition with_serializer (info : SerializerInfo) (s : S) : SerializerInfo :=
  {| si_MediaType := si_MediaType info; si_MediaTypeType := si_MediaTypeType info;
     si_MediaTypeSubType := si_MediaTypeSubType info; si_Serializer := s;
     si_PrettySerializer := si_PrettySerializer info; si_StreamSerializer := si_StreamSerializer info |}.

Definition NegotiateOutputMediaType (req : Request) (supported : list SerializerInfo)
    : MediaTypeOptions * SerializerInfo + negotiationError :=
  match NegotiateMediaTypeOptions (rq_Accept req) supported with
  | Some mediaType =>
      match mt_Accepted mediaType with
      | Some info =>
          inl (mediaType,
               match (if mt_Pretty mediaType || isPrettyPrint req then si_PrettySerializer info else None) with
               | Some pretty => with_serializer info pretty
               | None => info
               end)
      | None => inr (NotAcceptable []) (* not reached: an accepted media type is set *)
      end
  | None => inr (NotAcceptable (MediaTypesForSerializer supported).1)
  end.

Definition NegotiateOutputMediaTypeStream (req : Request) (supported : list SerializerInfo)
    : SerializerInfo + negotiationError :=
  match NegotiateMediaTypeOptions (rq_Accept req) supported ≫= mt_Accepted with
  | Some info =>
      if bool_decide (is_Some (si_StreamSerializer info)) then inl info
      else inr (NotAcceptable (MediaTypesForSerializer supported).2)
  | None => inr (NotAcceptable (MediaTypesForSerializer supported).2)
  end.

(** mime.ParseMediaType, its error as [None], and golib's lookup. *)
Context (ParseMediaType : string → option string).
Context (SerializerInfoForMediaType : list SerializerInfo → string → option SerializerInfo).

Definition NegotiateInputSerializerForMediaType (mediaType : string) (streaming : bool) (supported : list SerializerInfo)
    : outcome (SerializerInfo + negotiationError) :=
  mediaType ← (if mediaType == "" then info ← index supported 0; Ret (si_MediaType info) else Ret mediaType);
  Ret (match ParseMediaType mediaType ≫= SerializerInfoForMediaType supported with
       | Some info => inl info
       | None =>
           let '(types, streamTypes) := MediaTypesForSerializer supported in
           inr (UnsupportedMediaType (if streaming then streamTypes else types))
       end).

Definition NegotiateInputSerializer (req : Request) (streaming : bool) (supported : list SerializerInfo)
    : outcome (SerializerInfo + negotiationError) :=
  NegotiateInputSerializerForMediaType (rq_ContentType req) streaming supported.
End negotiation.
Arguments SerializerInfo : clear implicits.
Arguments MediaTypeOptions : clear implicits.

(** ** Theorems *)

Section theorems.
Context {S : Type}.
Context (ParseAccept : string → list Accept) (visit : gmap string string → list (string * string)).
Implicit Types (a : SerializerInfo S).

Abbreviation NegotiateMediaTypeOptions := (NegotiateMediaTypeOptions (S := S) ParseAccept visit).
Abbreviation acceptMediaTypeOptions := (acceptMediaTypeOptions (S := S) visit).

Definition known : list string := ["stream"; "sv"; "export"; "pretty"].

(** The parameters ask for a stream the serializer cannot give. *)
Definition refused (params : gmap string string) a : Prop :=
  si_StreamSerializer a = None ∧ ∃ v, params !! "stream" = Some v ∧ v ≠ "".

(** What the parameters ask for otherwise. *)
Definition options_of (params : gmap string string) (unrecognized : list string) a : MediaTypeOptions S :=
  {| mt_Pretty := params !! "pretty" == Some "1"; mt_Stream := default "" (params !! "stream");
     mt_UseServerVersion := default "" (params !! "sv"); mt_Export := params !! "export" == Some "1";
     mt_Unrecognized := unrecognized; mt_Accepted := Some a |}.

Lemma params_loop_spec l a (o : MediaTypeOptions S) :
  NoDup l.*1 →
  match params_loop l a o with
  | None => refused (list_to_map l) a
  | Some o' =>
      ¬ refused (list_to_map l) a ∧
      mt_Pretty o' = match (list_to_map l : gmap string string) !! "pretty" with Some v => v == "1" | None => mt_Pretty o end ∧
      mt_Stream o' = default (mt_Stream o) ((list_to_map l : gmap string string) !! "stream") ∧
      mt_UseServerVersion o' = default (mt_UseServerVersion o) ((list_to_map l : gmap string string) !! "sv") ∧
      mt_Export o' = match (list_to_map l : gmap string string) !! "export" with Some v => v == "1" | None => mt_Export o end ∧
      mt_Unrecognized o' = mt_Unrecognized o ++ filter (λ k, k ∉ known) l.*1
  end.
Proof.
  revert o. induction l as [|[k v] l IH]; intros o Hnd; cbn [params_loop].
  { unfold refused. cbn. rewrite !lookup_empty, app_nil_r. split_and!; [|done..]. by intros (_ & ? & ? & _). }
  cbn in Hnd. apply NoDup_cons in Hnd as [Hk Hnd].
  assert ((list_to_map l : gmap string string) !! k = None) as Hnone by by apply not_elem_of_list_to_map_1.
  assert (∀ k', (list_to_map ((k, v) :: l) : gmap string string) !! k' =
            if decide (k = k') then Some v else (list_to_map l : gmap string string) !! k') as Hlook.
  { intros k'. cbn. case_decide; [subst; apply lookup_insert_eq|by apply lookup_insert_ne]. }
  unfold refused. rewrite !Hlook. cbn [fmap list_fmap fst]. rewrite filter_cons.
  destruct (decide (k = "stream")) as [->|Hst].
  { rewrite bool_decide_eq_true_2 by done.
    destruct ((v != "") && bool_decide (si_StreamSerializer a = None)) eqn:Hr.
    - bool_crush. split; [done|]. by exists v.
    - specialize (IH {| mt_Pretty := mt_Pretty o; mt_Stream := v; mt_UseServerVersion := mt_UseServerVersion o;
                        mt_Export := mt_Export o; mt_Unrecognized := mt_Unrecognized o; mt_Accepted := mt_Accepted o |} Hnd).
      rewrite !decide_False by done. rewrite (decide_False (P := "stream" ∉ known)) by (intros Hn; apply Hn; by left).
      destruct (params_loop l a _) as [o'|].
      + cbn in IH. rewrite Hnone in IH. destruct IH as (_ & Hp & Hs & Hv & He & Hu). split_and!; [|done..].
        intros (Hnil & ? & [= <-] & Hne). apply andb_false_iff in Hr as [Hr|Hr]; bool_crush; done.
      + destruct IH as (_ & ? & Hs & _). congruence. }
  rewrite (bool_decide_eq_false_2 (k = "stream")) by done.
  match goal with |- context [params_loop l a ?o1] => specialize (IH o1 Hnd); destruct (params_loop l a o1) as [o'|] end;
    [|destruct IH as (? & v' & ? & ?); split; [done|]; by exists v'].
  destruct IH as (Hr & Hp & Hs & Hv & He & Hu). split.
  { intros (Hn & v' & Hv' & Hne). apply Hr. split; [done|]. by exists v'. }
  destruct (decide (k = "sv")) as [->|Hsv].
  { rewrite bool_decide_eq_true_2 in * by done. cbn in *. rewrite Hnone in Hv. rewrite (decide_False (P := "sv" ∉ known)) by set_solver.
    rewrite ?decide_False by done. by rewrite ?decide_True by done. }
  rewrite (bool_decide_eq_false_2 (k = "sv")) in * by done.
  destruct (decide (k = "export")) as [->|Hex].
  { rewrite bool_decide_eq_true_2 in * by done. cbn in *. rewrite Hnone in He. rewrite (decide_False (P := "export" ∉ known)) by set_solver.
    rewrite ?decide_False by done. by rewrite ?decide_True by done. }
  rewrite (bool_decide_eq_false_2 (k = "export")) in * by done.
  destruct (decide (k = "pretty")) as [->|Hpr].
  { rewrite bool_decide_eq_true_2 in * by done. cbn in *. rewrite Hnone in Hp. rewrite (decide_False (P := "pretty" ∉ known)) by set_solver.
    rewrite ?decide_False by done. by rewrite ?decide_True by done. }
  rewrite (bool_decide_eq_false_2 (k = "pretty")) in * by done. cbn in *.
  rewrite (decide_True (P := k ∉ known)) by set_solver. rewrite <- app_assoc in Hu. done.
Qed.

Lemma acceptMediaTypeOptions_spec params a :
  visit params ≡ₚ map_to_list params →
  match acceptMediaTypeOptions params a with
  | None => refused params a
  | Some o => ¬ refused params a ∧ o = options_of params (filter (λ k, k ∉ known) (visit params).*1) a
  end.
Proof.
  intros Hvisit. unfold Negotiation.acceptMediaTypeOptions.
  assert (NoDup (visit params).*1) as Hnd by (rewrite Hvisit; apply NoDup_fst_map_to_list).
  pose proof (params_loop_spec (visit params) a MediaTypeOptions_zero Hnd) as Hl.
  assert (list_to_map (visit params) = params) as Hm.
  { transitivity (list_to_map (map_to_list params) : gmap string string); [by apply list_to_map_proper|apply list_to_map_to_list]. }
  rewrite Hm in Hl. destruct (params_loop _ _ _) as [o|]; [|done].
  destruct Hl as (Hr & Hp & Hs & Hv & He & Hu). split; [done|]. unfold options_of. f_equal; cbn in *; try done.
  - rewrite Hp. destruct (params !! "pretty") as [v|]; [|done].
    apply bool_decide_ext. naive_solver.
  - rewrite He. destruct (params !! "export") as [v|]; [|done].
    apply bool_decide_ext. naive_solver.
Qed.

(** A clause ranges over one media type, all those of a type, or all. *)
Definition covers (c : Accept) a : Prop :=
  (ac_Type c = si_MediaTypeType a ∧ (ac_SubType c = si_MediaTypeSubType a ∨ ac_SubType c = "*")) ∨
  (ac_Type c = "*" ∧ ac_SubType c = "*").

Lemma clause_matches_true c a : clause_matches c a = true ↔ covers c a.
Proof.
  unfold clause_matches, covers. rewrite !orb_true_iff, !andb_true_iff, !bool_decide_eq_true. naive_solver.
Qed.

(** A clause takes a serializer it ranges over, unless it asks for a stream the
    serializer cannot give. *)
Definition offered (c : Accept) a : Prop := covers c a ∧ ¬ refused (ac_Params c) a.

Lemma accepted_loop_spec c accepted :
  (∀ m, visit m ≡ₚ map_to_list m) →
  match accepted_loop visit c accepted with
  | None => ∀ a, a ∈ accepted → ¬ offered c a
  | Some o =>
      ∃ l1 a l2, accepted = l1 ++ a :: l2 ∧ offered c a ∧ (∀ a', a' ∈ l1 → ¬ offered c a') ∧
        o = options_of (ac_Params c) (filter (λ k, k ∉ known) (visit (ac_Params c)).*1) a
  end.
Proof.
  intros Hvisit. induction accepted as [|a accepted IH]; cbn [accepted_loop]; [by intros a ?%not_elem_of_nil|].
  assert (¬ offered c a → match accepted_loop visit c accepted with
    | None => ∀ a', a' ∈ a :: accepted → ¬ offered c a'
    | Some o => ∃ l1 a' l2, a :: accepted = l1 ++ a' :: l2 ∧ offered c a' ∧ (∀ a', a' ∈ l1 → ¬ offered c a') ∧
        o = options_of (ac_Params c) (filter (λ k, k ∉ known) (visit (ac_Params c)).*1) a'
    end) as Hskip.
  { intros Hno. destruct (accepted_loop visit c accepted) as [o|].
    - destruct IH as (l1 & a' & l2 & -> & Ho & Hpre & ->). exists (a :: l1), a', l2. split_and!; [done|done| |done].
      intros x [->|Hx]%elem_of_cons; [done|by apply Hpre].
    - intros x [->|Hx]%elem_of_cons; [done|by apply IH]. }
  destruct (clause_matches c a) eqn:Hm; [apply clause_matches_true in Hm|apply Hskip; intros [?%clause_matches_true _]; congruence].
  pose proof (acceptMediaTypeOptions_spec (ac_Params c) a (Hvisit _)) as Ha.
  destruct (acceptMediaTypeOptions (ac_Params c) a) as [o|].
  - destruct Ha as [Hr ->]. exists [], a, accepted. split_and!; [done|done| |done]. by intros x ?%not_elem_of_nil.
  - apply Hskip. by intros [_ Hn].
Qed.

(** Without an Accept header the first serializer answers.  Otherwise it is the first
    one offered to the first clause that takes any, with the options that clause asks
    for, whatever order its parameters are visited in; and the request is refused only
    when no clause takes any. *)
Theorem NegotiateMediaTypeOptions_spec header accepted :
  (∀ m, visit m ≡ₚ map_to_list m) →
  if decide (header = "" ∧ accepted ≠ []) then
    NegotiateMediaTypeOptions header accepted = (λ a, options_of ∅ [] a) <$> head accepted
  else match NegotiateMediaTypeOptions header accepted with
  | None => ∀ c a, c ∈ ParseAccept header → a ∈ accepted → ¬ offered c a
  | Some o =>
      ∃ c1 c c2 l1 a l2, ParseAccept header = c1 ++ c :: c2 ∧ accepted = l1 ++ a :: l2 ∧ offered c a ∧
        (∀ c' a', c' ∈ c1 → a' ∈ accepted → ¬ offered c' a') ∧ (∀ a', a' ∈ l1 → ¬ offered c a') ∧
        ∃ unrecognized, o = options_of (ac_Params c) unrecognized a ∧
          ∀ k, k ∈ unrecognized ↔ is_Some (ac_Params c !! k) ∧ k ∉ known
  end.
Proof.
  intros Hvisit. unfold Negotiation.NegotiateMediaTypeOptions. case_decide as Hh.
  { destruct Hh as [-> Hne]. destruct accepted as [|a accepted]; [done|]. cbn. unfold options_of.
    by rewrite !lookup_empty. }
  assert ((if header == "" then accepted else []) = []) as ->.
  { case_bool_decide; [|done]. destruct accepted; [done|]. exfalso. by apply Hh. }
  induction (ParseAccept header) as [|c clauses IH]; cbn [clauses_loop]; [by intros c a ?%not_elem_of_nil|].
  pose proof (accepted_loop_spec c accepted Hvisit) as Ha. destruct (accepted_loop visit c accepted) as [o|].
  - destruct Ha as (l1 & a & l2 & -> & Ho & Hpre & ->). exists [], c, clauses, l1, a, l2.
    split_and!; [done|done|done|by intros c' a' ?%not_elem_of_nil|done|]. eexists. split; [done|].
    intros k. rewrite list_elem_of_filter, Hvisit. split.
    + intros [Hk ([k' v] & -> & Hin%elem_of_map_to_list)%list_elem_of_fmap]. split; [by eexists|done].
    + intros [[v Hv] Hk]. split; [done|]. apply list_elem_of_fmap. exists (k, v). split; [done|]. by apply elem_of_map_to_list.
  - destruct (clauses_loop visit clauses accepted) as [o|].
    + destruct IH as (c1 & c' & c2 & l1 & a & l2 & -> & -> & Ho & Hc & Hl & Hu).
      exists (c :: c1), c', c2, l1, a, l2. split_and!; [done|done|done| |done|done].
      intros x a' [->|Hx]%elem_of_cons Hin; [by apply Ha|by apply Hc].
    + intros x a [->|Hx]%elem_of_cons Hin; [by apply Ha|by apply IH].
Qed.

Context (ParseQuery : string → gmap string (list string)).

Lemma accepted_from header accepted o :
  (∀ m, visit m ≡ₚ map_to_list m) → NegotiateMediaTypeOptions header accepted = Some o →
  ∃ a, a ∈ accepted ∧ mt_Accepted o = Some a.
Proof.
  intros Hvisit. unfold Negotiation.NegotiateMediaTypeOptions.
  destruct (if header == "" then accepted else []) as [|a l] eqn:Hl.
  - induction (ParseAccept header) as [|c clauses IH]; cbn [clauses_loop]; [done|].
    pose proof (accepted_loop_spec c accepted Hvisit) as Ha. destruct (accepted_loop visit c accepted) as [o'|]; [|done].
    intros [= ->]. destruct Ha as (l1 & a & l2 & -> & _ & _ & ->). exists a. split; [set_solver|done].
  - intros [= <-]. exists a. case_bool_decide; [|done]. subst accepted. split; [left|done].
Qed.

(** The response is written by a supported serializer, in its pretty form only when the
    request asks for that; a request for a stream gets one that can stream. *)
Theorem NegotiateOutput_supported req supported :
  (∀ m, visit m ≡ₚ map_to_list m) →
  match NegotiateOutputMediaType ParseAccept visit ParseQuery req supported with
  | inl (o, info) =>
      ∃ a, a ∈ supported ∧ mt_Accepted o = Some a ∧
        (info = a ∨ ∃ pretty, si_PrettySerializer a = Some pretty ∧ info = with_serializer a pretty ∧
                              (mt_Pretty o = true ∨ isPrettyPrint ParseQuery req = true))
  | inr e => NegotiateMediaTypeOptions (rq_Accept req) supported = None ∧ e = NotAcceptable (si_MediaType <$> supported)
  end ∧
  match NegotiateOutputMediaTypeStream ParseAccept visit req supported with
  | inl info => info ∈ supported ∧ is_Some (si_StreamSerializer info)
  | inr e => Status_Code e = 406%Z
  end.
Proof.
  intros Hvisit. unfold NegotiateOutputMediaType, NegotiateOutputMediaTypeStream.
  destruct (NegotiateMediaTypeOptions (rq_Accept req) supported) as [o|] eqn:Ho; [|done].
  destruct (accepted_from _ _ _ Hvisit Ho) as (a & Hin & Ha). cbn. rewrite Ha. split.
  - exists a. split_and!; [done..|]. destruct (mt_Pretty o || isPrettyPrint ParseQuery req) eqn:Hp; [|by left].
    destruct (si_PrettySerializer a) as [pretty|]; [|by left]. right. exists pretty. split_and!; [done..|].
    by apply orb_true_iff in Hp.
  - by case_bool_decide.
Qed.
End theorems.

(** ** Witnesses *)

Module NegotiationExamples.
Definition json : SerializerInfo string :=
  {| si_MediaType := "application/json"; si_MediaTypeType := "application"; si_MediaTypeSubType := "json";
     si_Serializer := "json"; si_PrettySerializer := Some "pretty json"; si_StreamSerializer := Some "json frames" |}.
Definition yaml : SerializerInfo string :=
  {| si_MediaType := "application/yaml"; si_MediaTypeType := "application"; si_MediaTypeSubType := "yaml";
     si_Serializer := "yaml"; si_PrettySerializer := None; si_StreamSerializer := None |}.

(** "application/yaml;stream=watch, application/json;pretty=1;x=y" *)
Definition parse (_ : string) : list Accept :=
  [{| ac_Type := "application"; ac_SubType := "yaml"; ac_Params := {[ "stream" := "watch" ]} |};
   {| ac_Type := "application"; ac_SubType := "json"; ac_Params := {[ "pretty" := "1"; "x" := "y" ]} |}].

Definition negotiate : option (MediaTypeOptions string) := NegotiateMediaTypeOptions parse map_to_list "header" [yaml; json].

Lemma NegotiateMediaTypeOptions_spec_witness :
  ∃ o c, negotiate = Some o ∧ offered c json ∧ mt_Accepted o = Some json ∧ mt_Pretty o = true.
Proof.
  pose proof (NegotiateMediaTypeOptions_spec parse map_to_list "header" [yaml; json] (λ m, reflexivity _)) as Hs.
  change (NegotiateMediaTypeOptions parse map_to_list "header" [yaml; json]) with negotiate in Hs.
  destruct negotiate as [o|] eqn:Ho; [|vm_compute in Ho; discriminate Ho]. cbn in Hs.
  destruct Hs as (c1 & c & c2 & l1 & a & l2 & _ & _ & Hoff & _ & _ & u & Heq & _).
  assert (mt_Accepted o = Some json ∧ mt_Pretty o = true) as [Hj Hp] by (vm_compute in Ho; injection Ho as <-; split; reflexivity).
  assert (a = json) as ->. { rewrite Heq in Hj. injection Hj as ->. reflexivity. }
  exists o, c. split_and!; [reflexivity|exact Hoff|exact Hj|exact Hp].
Defined.

Definition req : Request := {| rq_Accept := "header"; rq_ContentType := ""; rq_RawQuery := None; rq_UserAgent := "curl/8" |}.

Lemma NegotiateOutput_supported_witness :
  ∃ o, NegotiateOutputMediaType parse map_to_list (λ _, ∅) req [yaml; json] = inl (o, with_serializer json "pretty json") ∧
    ∃ a, a ∈ [yaml; json] ∧ mt_Accepted o = Some a.
Proof.
  pose proof (NegotiateOutput_supported parse map_to_list (λ _, ∅) req [yaml; json] (λ m, reflexivity _)) as [Hs _].
  destruct (NegotiateOutputMediaType parse map_to_list (λ _, ∅) req [yaml; json]) as [[o info]|e] eqn:Ho; [|vm_compute in Ho; discriminate Ho].
  exists o. split.
  - vm_compute in Ho. injection Ho as <- <-. reflexivity.
  - destruct Hs as (a & Hin & Ha & _). exists a. split; [exact Hin|exact Ha].
Defined.

(** Without supported types an empty Content-Type panics. *)
Example empty_panics :
  NegotiateInputSerializer (S := string) Some (λ _ _, None) req false [] = Panic "index out of range".
Proof. reflexivity. Qed.
End NegotiationExamples.
