(* ===== verification/RequestMetrics.v ===== *)
(** * Metrics of requests

    Models pkg/metrics/metrics.go: the labels under which requests are counted, the
    response writer that observes a response, and what is recorded for a request; and
    pkg/filters/metrics.go and filterlatency.go: the metrics of authentication and of the
    filters.  What is recorded is a list of observations.  Prometheus's check of label
    values is a parameter; sets of strings are golib's. *)

From stdpp Require Import pretty.
From S2P Require Import Prelude GoStrings GoEncoding AuditBackends Authorizer RequestInfo Loopback Streams Negotiation.

Local Open Scope go_scope.

(** ** Metrics *)

(** A vector has a name and label names. *)
Abbreviation vector := (string * list string)%type.

(** An observation: the metric, the label values and what was done to it. *)
Inductive update := UInc | UDec | USet (n : Z) | UObserve (n : Z).
Abbreviation observation := (string * list string * update)%type.

(** ** Labels *)

Section labels.
Context `{StringSets sset}.

Definition OtherContentType : string := "other".
Definition OtherRequestMethod : string := "other".

Definition knownMetricContentTypes : list string :=
  ["application/apply-patch+yaml"; "application/json"; "application/json-patch+json"; "application/merge-patch+json";
   "application/strategic-merge-patch+json"; "application/vnd.kubernetes.protobuf";
   "application/vnd.kubernetes.protobuf;stream=watch"; "application/yaml"; "text/plain"; "text/plain;charset=utf-8"].

Definition validRequestMethods : list string :=
  ["APPLY"; "CONNECT"; "CREATE"; "DELETE"; "DELETECOLLECTION"; "GET"; "LIST"; "PATCH"; "POST"; "PROXY"; "PUT"; "UPDATE";
   "WATCH"; "WATCHLIST"].

(** strings.ReplaceAll of one byte by nothing. *)
Fixpoint remove_byte (c : ascii) (s : string) : string :=
  match s with
  | "" => ""
  | String a s => if a == c then remove_byte c s else String a (remove_byte c s)
  end.

Definition cleanContentType (contentType : string) : string :=
  let normalizedContentType :=
    if HasSuffix contentType " stream=watch" || HasSuffix contentType " charset=utf-8" then remove_byte " "%char contentType
    else ToLower contentType in
  if sets_Has (sets_NewString knownMetricContentTypes : sset) normalizedContentType then normalizedContentType
  else OtherContentType.

Definition CleanScope (info : RequestInfo) : string :=
  if ri_Namespace info != "" then "namespace"
  else if ri_Name info != "" then "resource"
  else if ri_IsResourceRequest info then "cluster"
  else "".

Definition canonicalVerb (verb scope : string) : string :=
  if (verb == "GET") || (verb == "HEAD") then
    if (scope != "resource") && (scope != "") then "LIST" else "GET"
  else verb.

Definition cleanVerb (verb : string) (query : values) : string :=
  let reportedVerb :=
    if verb == "LIST" then
      match query !! "watch" with
      | Some (value :: _) =>
          let value := ToLower value in
          if (value != "0") && (value != "false") then "WATCH" else verb
      | _ => verb
      end
    else verb in
  let reportedVerb := if verb == "WATCHLIST" then "WATCH" else reportedVerb in
  if sets_Has (sets_NewString validRequestMethods : sset) reportedVerb then reportedVerb else OtherRequestMethod.

(** [rawQuery] is the query as it was sent. *)
Definition cleanDryRun (rawQuery : string) (query : values) : string :=
  if negb (Contains rawQuery "dryRun") then ""
  else Join (sets_List (sets_NewString (default [] (query !! "dryRun")) : sset)) ",".

(** A small optimization over Itoa. *)
Definition codeToString (s : Z) : string :=
  match s with
  | 100 => "100" | 101 => "101"
  | 200 => "200" | 201 => "201" | 202 => "202" | 203 => "203" | 204 => "204" | 205 => "205" | 206 => "206"
  | 300 => "300" | 301 => "301" | 302 => "302" | 304 => "304" | 305 => "305" | 307 => "307"
  | 400 => "400" | 401 => "401" | 402 => "402" | 403 => "403" | 404 => "404" | 405 => "405" | 406 => "406" | 407 => "407"
  | 408 => "408" | 409 => "409" | 410 => "410" | 411 => "411" | 412 => "412" | 413 => "413" | 414 => "414" | 415 => "415"
  | 416 => "416" | 417 => "417" | 418 => "418"
  | 500 => "500" | 501 => "501" | 502 => "502" | 503 => "503" | 504 => "504" | 505 => "505"
  | 428 => "428" | 429 => "429" | 431 => "431" | 511 => "511"
  | s => Itoa s
  end%Z.

(** ** The response writer *)

Record ResponseWriterDelegator := { rd_status : Z; rd_written : Z; rd_wroteHeader : bool }.

Definition new_delegator : ResponseWriterDelegator := {| rd_status := 0; rd_written := 0; rd_wroteHeader := false |}.

(** Calls on a response writer; Write says how many bytes the writer behind takes.  A
    handler can flush if the writer behind is a flusher, a hijacker and a close notifier. *)
Inductive rw_call := CWriteHeader (code : Z) | CWrite (n : Z) | CFlush.

Definition delegator_WriteHeader (r : ResponseWriterDelegator) (code : Z) : ResponseWriterDelegator * list rw_call :=
  ({| rd_status := code; rd_written := rd_written r; rd_wroteHeader := true |}, [CWriteHeader code]).

(** written is an int64. *)
Definition delegator_Write (r : ResponseWriterDelegator) (n : Z) : ResponseWriterDelegator * list rw_call :=
  let '(r, calls) := if rd_wroteHeader r then (r, []) else delegator_WriteHeader r 200 in
  ({| rd_status := rd_status r; rd_written := int64 (rd_written r + n); rd_wroteHeader := rd_wroteHeader r |}, calls ++ [CWrite n]).

(** The state and the calls on the writer behind. *)
Definition delegator_call (r : ResponseWriterDelegator) (c : rw_call) : ResponseWriterDelegator * list rw_call :=
  match c with
  | CWriteHeader code => delegator_WriteHeader r code
  | CWrite n => delegator_Write r n
  | CFlush => (r, [CFlush])
  end.

Fixpoint delegator_calls (r : ResponseWriterDelegator) (cs : list rw_call) : ResponseWriterDelegator * list rw_call :=
  match cs with
  | [] => (r, [])
  | c :: cs =>
      let '(r, l) := delegator_call r c in
      let '(r, l') := delegator_calls r cs in
      (r, l ++ l')
  end.

(** ** What is recorded *)

Definition requestCounter : vector := ("apiserver_request_total", ["verb"; "dry_run"; "path"; "component"; "contentType"; "code"]).
Definition longRunningRequestGauge : vector := ("apiserver_longrunning_gauge", ["verb"; "path"; "component"]).
Definition requestLatencies : vector := ("apiserver_request_duration_seconds", ["verb"; "dry_run"; "path"; "component"]).
Definition responseSizes : vector := ("apiserver_response_sizes", ["verb"; "path"; "component"]).
Definition deprecatedRequestGauge : vector := ("apiserver_requested_deprecated_apis", ["path"]).
Definition requestTerminationsTotal : vector := ("apiserver_request_terminations_total", ["verb"; "path"; "component"; "code"]).
Definition apiSelfRequestCounter : vector := ("apiserver_selfrequest_total", ["verb"; "path"]).
Definition requestAbortsTotal : vector := ("apiserver_request_aborts_total", ["verb"; "path"]).

(** prometheus: whether label values fit the names of a vector. *)
Context (validateLabelValues : list string → list string → option error).

Definition with_label_values (v : vector) (lvs : list string) (u : update) : outcome (list observation) :=
  match validateLabelValues v.2 lvs with
  | Some _ => Panic "prometheus: WithLabelValues"
  | None => Ret [(v.1, lvs, u)]
  end.

(** A request as these functions see it. *)
Record mrequest := { mq_Method : string; mq_Path : string; mq_RawQuery : string; mq_Query : values; mq_User : option DefaultInfo }.

Definition requestInfo_or (req : mrequest) (info : option RequestInfo) : RequestInfo :=
  default {| ri_IsResourceRequest := false; ri_Path := mq_Path req; ri_Verb := mq_Method req; ri_APIPrefix := "";
             ri_APIGroup := ""; ri_APIVersion := ""; ri_Namespace := ""; ri_Resource := ""; ri_Subresource := "";
             ri_Name := ""; ri_Parts := [] |} info.

(** The information that is passed is not used. *)
Definition RecordRequestAbort (req : mrequest) : outcome (list observation) :=
  with_label_values requestAbortsTotal [mq_Method req; mq_Path req] UInc.

Definition RecordRequestTermination (req : mrequest) (info : option RequestInfo) (component : string) (code : Z)
    : outcome (list observation) :=
  let info := requestInfo_or req info in
  let scope := CleanScope info in
  let reportedVerb := cleanVerb (canonicalVerb (ToUpper (mq_Method req)) scope) (mq_Query req) in
  with_label_values requestTerminationsTotal
    (if ri_IsResourceRequest info
     then [reportedVerb; ri_APIGroup info; ri_APIVersion info; ri_Resource info; ri_Subresource info; scope; component; codeToString code]
     else [reportedVerb; ""; ""; ""; ri_Path info; scope; component; codeToString code]) UInc.

(** The gauge RecordLongRunning counts the request in. *)
Definition longRunning_labels (req : mrequest) (info : option RequestInfo) (component : string) : list string :=
  let info := requestInfo_or req info in
  let scope := CleanScope info in
  let reportedVerb := cleanVerb (canonicalVerb (ToUpper (mq_Method req)) scope) (mq_Query req) in
  if ri_IsResourceRequest info
  then [reportedVerb; ri_APIGroup info; ri_APIVersion info; ri_Resource info; ri_Subresource info; scope; component]
  else [reportedVerb; ""; ""; ""; ri_Path info; scope; component].

Definition longRunning_gauge (req : mrequest) (info : option RequestInfo) (component : string) : outcome (list observation) :=
  with_label_values longRunningRequestGauge (longRunning_labels req info component) UInc.

(** [fn] is run between the increment and the deferred decrement, with what it records. *)
Definition RecordLongRunning (req : mrequest) (info : option RequestInfo) (component : string) (fn : outcome (list observation))
    : outcome (list observation) :=
  inc ← longRunning_gauge req info component;
  l ← fn;
  Ret (inc ++ l ++ [(longRunningRequestGauge.1, longRunning_labels req info component, UDec)]).

(** The observations, and whether the audit annotation of deprecated APIs is added.
    [elapsed] is the latency. *)
Definition MonitorRequest (req : mrequest) (verb path component : string) (deprecated : bool) (contentType : string)
    (httpCode respSize elapsed : Z) : outcome (list observation * bool) :=
  let reportedVerb := cleanVerb (ToUpper (mq_Method req)) (mq_Query req) in
  let dryRun := cleanDryRun (mq_RawQuery req) (mq_Query req) in
  count ← with_label_values requestCounter
    [reportedVerb; dryRun; path; component; cleanContentType contentType; codeToString httpCode] UInc;
  self ← (match mq_User req with
          | Some info =>
              if u_Name info == APIServerUser then with_label_values apiSelfRequestCounter [reportedVerb; path] UInc else Ret []
          | None => Ret []
          end);
  old ← (if deprecated then with_label_values deprecatedRequestGauge [path] (USet 1) else Ret []);
  latency ← with_label_values requestLatencies [reportedVerb; dryRun; path; component] (UObserve elapsed);
  size ← (if (verb == "GET") || (verb == "LIST") then with_label_values responseSizes [reportedVerb; path; component] (UObserve respSize)
          else Ret []);
  Ret (count ++ self ++ old ++ latency ++ size, deprecated).

(** InstrumentHandlerFunc and InstrumentRouteFunc: the handler makes calls on the writer,
    sets the content type and may panic; nothing is recorded then. *)
Definition InstrumentHandlerFunc (verb path component : string) (deprecated : bool) (handler : outcome (list rw_call * string))
    (req : mrequest) (elapsed : Z) : outcome (list rw_call * list observation) :=
  r ← handler;
  let '(delegate, calls) := delegator_calls new_delegator r.1 in
  m ← MonitorRequest req verb path component deprecated r.2 (rd_status delegate) (rd_written delegate) elapsed;
  Ret (calls, m.1).

Definition InstrumentRouteFunc := InstrumentHandlerFunc.

Definition ReadOnlyKind : string := "readOnly".
Definition MutatingKind : string := "mutating".
Definition ExecutingPhase : string := "executing".

Definition UpdateInflightRequestMetrics (phase : string) (nonmutating mutating : Z) : outcome (list observation) :=
  let v : vector := if phase == ExecutingPhase then ("apiserver_current_inflight_requests", ["request_kind"])
                    else ("apiserver_current_inqueue_requests", ["request_kind"]) in
  a ← with_label_values v [ReadOnlyKind] (USet nonmutating);
  b ← with_label_values v [MutatingKind] (USet mutating);
  Ret (a ++ b).

(** ** Authentication (pkg/filters/metrics.go) *)

Definition compressUsername (username : string) : string :=
  if (username == "admin") || (username == "client") || (username == "kube_proxy") || (username == "kubelet") ||
     (username == "system:serviceaccount:kube-system:default") then username
  else if Contains username "@" then "email_id"
  else "other".

(** [resp] is the response with its user, which may be nil too. *)
Definition recordAuthMetrics (resp : option (option DefaultInfo)) (ok : bool) (err : option error) (elapsed : Z)
    : outcome (list observation) :=
  r ← (if bool_decide (is_Some err) || bool_decide (is_Some resp) then Ret ("error", [])
       else if negb ok then Ret ("failure", [])
       else
         match resp with
         | Some (Some u) =>
             c ← with_label_values ("authenticated_user_requests", ["username"]) [compressUsername (u_Name u)] UInc;
             Ret ("success", c)
         | _ => Panic "invalid memory address or nil pointer dereference"
         end);
  a ← with_label_values ("authentication_attempts", ["result"]) [r.1] UInc;
  b ← with_label_values ("authentication_duration_seconds", ["result"]) [r.1] (UObserve elapsed);
  Ret (r.2 ++ a ++ b).

(** ** Filters (pkg/filters/filterlatency.go) *)

(** The record of a request, shared through its context: the filter that runs and when it
    started. *)
Record requestFilterRecord := { fr_name : string; fr_startedTimestamp : Z }.

(** The trackers a request passes on its way in, with the time of each. *)
Inductive tracker := TrackStarted (name : string) (now : Z) | TrackCompleted (now : Z).

Definition trackStarted (fr : option requestFilterRecord) (name : string) (now : Z) : option requestFilterRecord :=
  Some {| fr_name := name; fr_startedTimestamp := now |}.

Definition trackCompleted (fr : option requestFilterRecord) (now : Z) : list (string * Z) :=
  match fr with
  | Some fr => [(fr_name fr, (now - fr_startedTimestamp fr)%Z)]
  | None => []
  end.

Fixpoint track (fr : option requestFilterRecord) (l : list tracker) : list (string * Z) :=
  match l with
  | [] => []
  | TrackStarted name now :: l => track (trackStarted fr name now) l
  | TrackCompleted now :: l => trackCompleted fr now ++ track fr l
  end.
End labels.

(** ** Theorems *)

(** The shortcut agrees with Itoa: the codes it lists, and then all the others. *)
Local Opaque Itoa.
Lemma codeToString_Itoa s : codeToString s = Itoa s.
Proof.
  destruct s as [|p|p]; [reflexivity| |reflexivity].
  do 9 (try (destruct p as [p|p|]; [ | |first [reflexivity|vm_compute; reflexivity]])); reflexivity.
Qed.
Local Transparent Itoa.

(** A string of ASCII bytes is UTF-8. *)
Lemma ascii_valid s : (∀ c, 128 ≤ nat_of_ascii c → ContainsByte s c = false) → utf8_Valid s = true.
Proof.
  unfold utf8_Valid; induction s as [|a s IH]; intros Hs; [done|].
  assert (nat_of_ascii a < 128) as Ha.
  { destruct (decide (128 ≤ nat_of_ascii a)) as [Ha|]; [|lia].
    specialize (Hs a Ha); cbn [ContainsByte] in Hs; by rewrite bool_decide_eq_true_2 in Hs. }
  cbn [utf8_from]; unfold utf8_lead; rewrite (proj2 (Nat.ltb_lt _ _) Ha); apply IH; intros c Hc.
  specialize (Hs c Hc); cbn [ContainsByte] in Hs; bool_crush; done.
Qed.

Section theorems.
Context `{StringSetsLaws sset}.
Context (validateLabelValues : list string → list string → option error).

(** Label values fit if and only if there is one for each name and they are UTF-8. *)
Context (validateLabelValues_spec : ∀ labels lvs,
  validateLabelValues labels lvs = None ↔ length lvs = length labels ∧ Forall (λ x, utf8_Valid x = true) lvs).

Abbreviation cleanVerb := (cleanVerb (sset := sset)).
Abbreviation cleanContentType := (cleanContentType (sset := sset)).
Abbreviation cleanDryRun := (cleanDryRun (sset := sset)).
Abbreviation MonitorRequest := (MonitorRequest (sset := sset) validateLabelValues).

Lemma cleanVerb_bounded verb query : cleanVerb verb query ∈ OtherRequestMethod :: validRequestMethods.
Proof.
  unfold RequestMetrics.cleanVerb; rewrite sets_Has_NewString; case_bool_decide as Hb; [by right|by left].
Qed.

Lemma cleanContentType_bounded contentType : cleanContentType contentType ∈ OtherContentType :: knownMetricContentTypes.
Proof.
  unfold RequestMetrics.cleanContentType; rewrite sets_Has_NewString; case_bool_decide as Hb; [by right|by left].
Qed.

Lemma all_valid l x : forallb utf8_Valid l = true → x ∈ l → utf8_Valid x = true.
Proof. rewrite forallb_forall; intros Hl Hx; apply Hl; by apply list_elem_of_In. Qed.

Lemma cleanVerb_valid verb query : utf8_Valid (cleanVerb verb query) = true.
Proof. eapply all_valid, cleanVerb_bounded; vm_compute; reflexivity. Qed.

Lemma cleanContentType_valid contentType : utf8_Valid (cleanContentType contentType) = true.
Proof. eapply all_valid, cleanContentType_bounded; vm_compute; reflexivity. Qed.

Lemma codeToString_valid code : utf8_Valid (codeToString code) = true.
Proof.
  rewrite codeToString_Itoa; apply ascii_valid; intros c Hc; apply Itoa_ContainsByte.
  - intros ->; vm_compute in Hc; lia.
  - intros d <-; revert Hc; unfold pretty_N_char; repeat case_match; vm_compute; lia.
Qed.

(** The label of a dry run depends on the set of the values alone. *)
Lemma cleanDryRun_set raw raw' query query' l l' :
  Contains raw "dryRun" = true → Contains raw' "dryRun" = true → query !! "dryRun" = Some l → query' !! "dryRun" = Some l' →
  (∀ x, x ∈ l ↔ x ∈ l') → cleanDryRun raw query = cleanDryRun raw' query'.
Proof.
  intros Hr Hr' Hq Hq' Hl; unfold RequestMetrics.cleanDryRun; rewrite Hr, Hr', Hq, Hq'; simpl; f_equal.
  apply (StronglySorted_unique String.le); [apply Sorted_StronglySorted; [tc_solve|apply sets_Sorted_List]..|].
  apply NoDup_Permutation; [apply sets_NoDup_List..|intros x].
  by rewrite !sets_elem_of_List, !sets_Has_NewString, !bool_decide_eq_true, Hl.
Qed.

(** One value is its own label: a client chooses how many there are. *)
Lemma cleanDryRun_single raw query x :
  Contains raw "dryRun" = true → query !! "dryRun" = Some [x] → cleanDryRun raw query = x.
Proof.
  intros Hr Hq; unfold RequestMetrics.cleanDryRun; rewrite Hr, Hq; simpl.
  assert (sets_List (sets_NewString [x] : sset) = [x]) as ->; [|done].
  apply symmetry, Permutation_singleton_l, NoDup_Permutation; [apply NoDup_singleton|apply sets_NoDup_List|intros y].
  by rewrite sets_elem_of_List, sets_Has_NewString, bool_decide_eq_true.
Qed.

Lemma with_label_values_fit v lvs u :
  length lvs = length v.2 → Forall (λ x, utf8_Valid x = true) lvs →
  with_label_values validateLabelValues v lvs u = Ret [(v.1, lvs, u)].
Proof. intros Hl Hv; unfold with_label_values; by rewrite (proj2 (validateLabelValues_spec _ _)). Qed.

Lemma with_label_values_unfit v lvs u :
  ¬ (length lvs = length v.2 ∧ Forall (λ x, utf8_Valid x = true) lvs) → with_label_values validateLabelValues v lvs u = Panic "prometheus: WithLabelValues".
Proof.
  intros Hn; unfold with_label_values; destruct (validateLabelValues v.2 lvs) eqn:E; [done|].
  by apply validateLabelValues_spec in E.
Qed.

Lemma longRunning_seven_values req info component :
  length (longRunning_labels (sset := sset) req info component) = 7.
Proof. unfold longRunning_labels; by destruct (ri_IsResourceRequest _). Qed.

(** A long-running request is never run: the gauge has three labels and gets seven values. *)
Lemma RecordLongRunning_panics req info component fn :
  ∃ msg, RecordLongRunning (sset := sset) validateLabelValues req info component fn = Panic msg.
Proof.
  unfold RecordLongRunning, longRunning_gauge; rewrite with_label_values_unfit; [by eexists|].
  rewrite longRunning_seven_values; by intros [[=] _].
Qed.

(** Nor is the termination of a request recorded. *)
Lemma RecordRequestTermination_panics req info component code :
  ∃ msg, RecordRequestTermination (sset := sset) validateLabelValues req info component code = Panic msg.
Proof.
  unfold RecordRequestTermination; rewrite with_label_values_unfit; [by eexists|].
  destruct (ri_IsResourceRequest _); by intros [[=] _].
Qed.

(** How often a metric is updated. *)
Definition updates (v : vector) (l : list observation) : list (list string * update) :=
  omap (λ o, if o.1.1 == v.1 then Some (o.1.2, o.2) else None) l.

(** Every monitored request is counted once and its latency observed once, under a verb
    and a content type out of a fixed list; its size is observed for reads only.  The
    labels that come from the client's dry run make it panic when they are not UTF-8. *)
Theorem MonitorRequest_counts req verb path component deprecated contentType httpCode respSize elapsed :
  utf8_Valid path = true → utf8_Valid component = true →
  match MonitorRequest req verb path component deprecated contentType httpCode respSize elapsed with
  | Ret (l, annotated) =>
      let dryRun := cleanDryRun (mq_RawQuery req) (mq_Query req) in
      utf8_Valid dryRun = true ∧ annotated = deprecated ∧
      ∃ v ct, v ∈ OtherRequestMethod :: validRequestMethods ∧ ct ∈ OtherContentType :: knownMetricContentTypes ∧
        updates requestCounter l = [([v; dryRun; path; component; ct; Itoa httpCode], UInc)] ∧
        updates requestLatencies l = [([v; dryRun; path; component], UObserve elapsed)] ∧
        updates responseSizes l =
          (if bool_decide (verb ∈ ["GET"; "LIST"]) then [([v; path; component], UObserve respSize)] else []) ∧
        updates deprecatedRequestGauge l = (if deprecated then [([path], USet 1)] else []) ∧
        updates apiSelfRequestCounter l =
          (if bool_decide (u_Name <$> mq_User req = Some APIServerUser) then [([v; path], UInc)] else [])
  | Panic _ => utf8_Valid (cleanDryRun (mq_RawQuery req) (mq_Query req)) = false
  end.
Proof.
  intros Hp Hc; unfold RequestMetrics.MonitorRequest.
  pose proof (cleanVerb_valid (ToUpper (mq_Method req)) (mq_Query req)) as Hv.
  pose proof (cleanContentType_valid contentType) as Hct.
  pose proof (codeToString_valid httpCode) as Hcode.
  pose proof (cleanVerb_bounded (ToUpper (mq_Method req)) (mq_Query req)) as Hvb.
  pose proof (cleanContentType_bounded contentType) as Hctb.
  destruct (utf8_Valid (cleanDryRun _ _)) eqn:Hd.
  - rewrite !with_label_values_fit by (by repeat constructor).
    assert (bool_decide (verb ∈ ["GET"; "LIST"]) = (verb == "GET") || (verb == "LIST")) as ->.
    { rewrite <- bool_decide_or; apply bool_decide_ext; by rewrite elem_of_cons, list_elem_of_singleton. }
    destruct (mq_User req) as [u|]; [destruct (decide (u_Name u = APIServerUser)) as [Hu|Hu]|];
      [cbn [fmap option_fmap option_map]; rewrite Hu| rewrite (bool_decide_eq_false_2 (u_Name u = APIServerUser)) by done;
        rewrite (bool_decide_eq_false_2 (u_Name <$> Some u = _)) by (simpl; congruence)|].
    all: destruct deprecated, ((verb == "GET") || (verb == "LIST")); rewrite codeToString_Itoa; simpl;
      (split; [done|]); (split; [done|]); exists (cleanVerb (ToUpper (mq_Method req)) (mq_Query req)), (cleanContentType contentType); split_and!; done.
  - rewrite (with_label_values_unfit requestCounter); [done|]. intros [_ Hf]. rewrite !Forall_cons in Hf; naive_solver congruence.
Qed.
End theorems.

(** *** The writer *)

(** What net/http tells the client: the first status, or 200 with the first bytes, the
    first flush or the end of the handler. *)
Definition client_status (cs : list rw_call) : Z :=
  match cs with CWriteHeader code :: _ => code | _ => 200 end.

Definition bytes (cs : list rw_call) : Z :=
  foldr (λ c n, match c with CWrite k => (k + n)%Z | _ => n end) 0%Z cs.

Lemma delegator_calls_cons r c cs :
  delegator_calls r (c :: cs) =
  ((delegator_calls (delegator_call r c).1 cs).1, (delegator_call r c).2 ++ (delegator_calls (delegator_call r c).1 cs).2).
Proof. simpl; destruct (delegator_call r c) as [r' l]; simpl; by destruct (delegator_calls r' cs). Qed.

Lemma bytes_app cs cs' : bytes (cs ++ cs') = (bytes cs + bytes cs')%Z.
Proof. unfold bytes; induction cs as [|[]]; simpl; rewrite ?IHcs; lia. Qed.

Lemma int64_add_l a b : int64 (int64 a + b) = int64 (a + b).
Proof.
  unfold int64; f_equal.
  replace ((a + 2 ^ 63) mod 2 ^ 64 - 2 ^ 63 + b + 2 ^ 63)%Z with ((a + 2 ^ 63) mod 2 ^ 64 + b)%Z by lia.
  rewrite Zplus_mod_idemp_l; f_equal; lia.
Qed.

(** The bytes are counted modulo the width of the counter and passed on. *)
Lemma delegator_bytes cs r :
  bytes (delegator_calls r cs).2 = bytes cs ∧
  int64 (rd_written (delegator_calls r cs).1) = int64 (rd_written r + bytes cs).
Proof.
  revert r; induction cs as [|c cs IH]; intros r; [split; [done|simpl; f_equal; lia]|].
  rewrite delegator_calls_cons; simpl; rewrite bytes_app; destruct (IH (delegator_call r c).1) as [-> ->].
  destruct c as [code|n|]; simpl; [split; [lia|done]| |split; [lia|done]].
  unfold delegator_Write; destruct (rd_wroteHeader r); simpl; (split; [lia|]); rewrite int64_add_l; f_equal; lia.
Qed.

(** Once the header is out, only WriteHeader changes the status. *)
Lemma delegator_status_kept cs r :
  rd_wroteHeader r = true → (∀ code, CWriteHeader code ∉ cs) → rd_status (delegator_calls r cs).1 = rd_status r.
Proof.
  revert r; induction cs as [|c cs IH]; intros r Hr Hn; [done|]. rewrite delegator_calls_cons; simpl.
  destruct c as [code|n|]; [by destruct (Hn code); left| |].
  - simpl; unfold delegator_Write; rewrite Hr; rewrite IH; [done..|]. intros code Hc; by apply (Hn code); right.
  - rewrite IH; [done..|]. intros code Hc; by apply (Hn code); right.
Qed.

(** The client sees what the handler wrote; a response that starts with a status or with
    bytes and sets no status later is recorded under the status the client sees. *)
Theorem delegator_faithful cs :
  client_status (delegator_calls new_delegator cs).2 = client_status cs ∧
  bytes (delegator_calls new_delegator cs).2 = bytes cs ∧
  (match cs with
   | CFlush :: _ | [] => False
   | _ :: cs => ∀ code, CWriteHeader code ∉ cs
   end → rd_status (delegator_calls new_delegator cs).1 = client_status cs).
Proof.
  split_and!; [|apply delegator_bytes|].
  - destruct cs as [|c cs]; [done|]. rewrite delegator_calls_cons. by destruct c.
  - destruct cs as [|c cs]; [done|]. rewrite delegator_calls_cons. destruct c as [code|n|]; [| |done]; intros Hn; simpl.
    + by apply delegator_status_kept.
    + by rewrite delegator_status_kept.
Qed.

(** An empty response is recorded under 0, and a superfluous status replaces the one that
    was sent. *)
Lemma status_misrecorded :
  (rd_status (delegator_calls new_delegator []).1 = 0 ∧ client_status [] = 200 ∧
   rd_status (delegator_calls new_delegator [CWrite 3; CWriteHeader 500]).1 = 500 ∧
   client_status [CWrite 3; CWriteHeader 500] = 200)%Z.
Proof. done. Qed.

(** *** Authentication *)

(** Every response is an error: who authenticated is never counted. *)
Lemma recordAuthMetrics_result validateLabelValues resp ok err elapsed l :
  recordAuthMetrics validateLabelValues resp ok err elapsed = Ret l →
  updates ("authenticated_user_requests", ["username"]) l = [] ∧
  updates ("authentication_attempts", ["result"]) l =
    [([if bool_decide (is_Some err) || bool_decide (is_Some resp) then "error" else "failure"], UInc)].
Proof.
  unfold recordAuthMetrics, with_label_values; destruct (_ || _) eqn:E; simpl.
  - by repeat case_match; intros [= <-].
  - destruct ok; simpl; [|by repeat case_match; intros [= <-]].
    destruct resp as [[u|]|]; [|done..]. apply orb_false_iff in E as [_ E]. by apply bool_decide_eq_false in E as [].
Qed.

(** *** Filters *)

(** One filter after the other: each is observed with the time it took. *)
Definition passed (f : string * Z * Z) : list tracker := let '(name, start, stop) := f in [TrackStarted name start; TrackCompleted stop].

Lemma track_passed fr l :
  track fr (l ≫= passed) = (λ '(name, start, stop), (name, (stop - start)%Z)) <$> l.
Proof.
  revert fr; induction l as [|[[name start] stop] l IH]; intros fr; [done|]. by cbn; rewrite IH.
Qed.

(** *** Witnesses *)

(** Prometheus's check. *)
Definition label_check (labels lvs : list string) : option error :=
  if (length lvs =? length labels) && forallb utf8_Valid lvs then None else Some (Errorf "inconsistent label values" []).

Lemma label_check_spec labels lvs :
  label_check labels lvs = None ↔ length lvs = length labels ∧ Forall (λ x, utf8_Valid x = true) lvs.
Proof.
  unfold label_check; assert (Forall (λ x, utf8_Valid x = true) lvs ↔ forallb utf8_Valid lvs = true) as ->.
  { rewrite forallb_forall, Forall_forall; by setoid_rewrite list_elem_of_In. }
  destruct (Nat.eqb_spec (length lvs) (length labels)), (forallb utf8_Valid lvs); naive_solver.
Qed.

Definition get (raw : string) (query : values) : mrequest :=
  {| mq_Method := "get"; mq_Path := "/a"; mq_RawQuery := raw; mq_Query := query; mq_User := None |}.

#[local] Existing Instances golib_sets_model golib_sets_model_laws.

Lemma MonitorRequest_counts_witness :
  let req := get "dryRun=b&dryRun=a&dryRun=b" {[ "dryRun" := ["b"; "a"; "b"] ]} in
  ∃ l v ct, MonitorRequest (sset := gset string) label_check req "GET" "/a" "apiserver" false "text/plain; charset=utf-8" 200 3 1 =
      Ret (l, false) ∧
    updates requestCounter l = [([v; "a,b"; "/a"; "apiserver"; ct; "200"], UInc)] ∧
    updates responseSizes l = [([v; "/a"; "apiserver"], UObserve 3)].
Proof.
  intros req; set (m := MonitorRequest _ _ _ _ _ _ _ _ _ _).
  assert (∃ l, m = Ret (l, false)) as [l Hm] by (eexists; vm_compute; reflexivity).
  pose proof (MonitorRequest_counts label_check label_check_spec req "GET" "/a" "apiserver" false "text/plain; charset=utf-8" 200 3 1
    eq_refl eq_refl) as H.
  fold m in H; rewrite Hm in H; destruct H as (_ & _ & v & ct & _ & _ & H1 & _ & H2 & _).
  exists l, v, ct; split; [done|]. split; [rewrite H1; vm_compute; reflexivity|by rewrite H2].
Defined.

(** A query that a client may send makes the monitoring of its request panic. *)
Lemma dry_run_panics :
  MonitorRequest (sset := gset string) label_check (get "dryRun=%ff" {[ "dryRun" := [String "255"%char ""] ]})
    "GET" "/a" "apiserver" false "text/plain" 200 3 1 = Panic "prometheus: WithLabelValues".
Proof. vm_compute; reflexivity. Qed.

(** A GET of a collection is not told from a GET of an object, and a HEAD is another verb. *)
Lemma verbs_not_canonical :
  cleanVerb (sset := gset string) "HEAD" ∅ = "other" ∧ cleanVerb (sset := gset string) (canonicalVerb "HEAD" "cluster") ∅ = "LIST".
Proof. split; vm_compute; reflexivity. Qed.
