(* ===== verification/OuterFilters.v ===== *)
(** * The outer filters and the whole handler chain

    src/pkg/filters: CORS, request deadlines, the wait group, GOAWAY, cache control,
    HSTS, content type, warnings, received timestamps and panic recovery; and
    src/pkg/server/config.go, DefaultBuildHandlerChain, which puts them around the
    chain of [Filters].

    The state of a request is that of [Filters] with a response ([o_response]), the
    deadline and the warning recorder of its context, the server's wait group and
    the rest.  [netWriter] is net/http's response writer on that response. *)

From S2P Require Import Prelude GoStrings GoEncoding Authorizer ServiceAccount RequestInfo RbacTypes Authn AuditPolicy Filters Warnings RequestMetrics.

Local Open Scope go_scope.

(** ** golib: SafeWaitGroup

    [Add] fails once [Wait] has been called; [outstanding] is the number of calls of
    [Add(1)] not yet matched by [Done]. *)

Class SafeWaitGroup (W : Type) := {
  wg_Add1 : W → option error * W;
  wg_Done : W → W;
}.
Class SafeWaitGroupLaws (W : Type) `{SafeWaitGroup W} (outstanding : W → nat) := {
  wg_Add1_ok w w' : wg_Add1 w = (None, w') → outstanding w' = S (outstanding w);
  wg_Add1_err w e w' : wg_Add1 w = (Some e, w') → outstanding w' = outstanding w;
  wg_Done_spec w n : outstanding w = S n → outstanding (wg_Done w) = n;
}.

Definition waitgroup_model : SafeWaitGroup (nat * bool) := {|
  wg_Add1 (w : nat * bool) := if w.2 then (Some (Errorf "add with positive delta after Wait is forbidden" []), w)
               else (None, (S w.1, w.2));
  wg_Done (w : nat * bool) := (pred w.1, w.2);
|}.

Lemma waitgroup_model_laws : @SafeWaitGroupLaws _ waitgroup_model fst.
Proof. split; [intros [n []] [m b]|intros [n []] e [m b]|intros [n b] m]; cbn; intros; by simplify_eq. Qed.

(** ** Responses *)

Record response := {
  rs_header : Header;
  rs_status : option Z;
  rs_body : list string;
  rs_flushed : bool;
  rs_hijacked : bool;
}.

Record ostate (W S : Type) := OState {
  o_response : response;
  o_deadline : option Z;
  o_recorder : option recorder;
  o_wg : W;
  o_rest : S;
}.
Arguments OState {W S} _ _ _ _ _.
Arguments o_response {W S} _.
Arguments o_deadline {W S} _.
Arguments o_recorder {W S} _.
Arguments o_wg {W S} _.
Arguments o_rest {W S} _.

Section outer.
Context {W S : Type} `{SafeWaitGroup W}.
Context (respond : refusal → Handler (ostate W S)).
Abbreviation St := (ostate W S).

Definition set_o (f : St → St) : HM St unit :=
  set_fstate (λ s, FState (fs_audit s) (fs_once s) (f (fs_state s))).
Definition get_o {A} (f : St → A) : HM St A := λ w, (Ret (f (fs_state (w_state w))), w).

Definition set_response (f : response → response) : HM St unit :=
  set_o (λ o, OState (f (o_response o)) (o_deadline o) (o_recorder o) (o_wg o) (o_rest o)).

Definition with_header (f : Header → Header) (r : response) : response :=
  {| rs_header := f (rs_header r); rs_status := rs_status r; rs_body := rs_body r; rs_flushed := rs_flushed r;
     rs_hijacked := rs_hijacked r |}.

(** The first status counts; a write or a flush without one sends 200. *)
Definition with_status (code : Z) (r : response) : response :=
  {| rs_header := rs_header r; rs_status := Some (default code (rs_status r)); rs_body := rs_body r;
     rs_flushed := rs_flushed r; rs_hijacked := rs_hijacked r |}.

Definition netWriter : ResponseWriter St := λ op,
  set_response (λ r,
    match op with
    | SetHeader k v => with_header (λ h, Header_Set h k v) r
    | AddHeader k v => with_header (λ h, Header_Add h k v) r
    | DelHeader k => with_header (λ h, Header_Del h k) r
    | WriteHeader code => with_status code r
    | WriteBody bs =>
        let r := with_status 200 r in
        {| rs_header := rs_header r; rs_status := rs_status r; rs_body := rs_body r ++ [bs];
           rs_flushed := rs_flushed r; rs_hijacked := rs_hijacked r |}
    | Flush =>
        let r := with_status 200 r in
        {| rs_header := rs_header r; rs_status := rs_status r; rs_body := rs_body r; rs_flushed := true;
           rs_hijacked := rs_hijacked r |}
    | Hijack =>
        {| rs_header := rs_header r; rs_status := rs_status r; rs_body := rs_body r; rs_flushed := rs_flushed r;
           rs_hijacked := true |}
    end).

(** ** Headers *)

(** WithCacheControl and WithHSTS set a header unless it is there. *)
Definition set_default_header (rw : ResponseWriter St) (key value : string) : HM St unit :=
  h ← get_o (rs_header ∘ o_response);
  if bool_decide (is_Some ((h : gmap string (list string)) !! key)) then mret tt else rw (SetHeader key value).

Definition WithCacheControl (handler : Handler St) : Handler St := λ rw cx,
  _ ← set_default_header rw "Cache-Control" "no-cache, private";
  handler rw cx.

Definition WithHSTS (handler : Handler St) (hstsDirectives : list string) : Handler St :=
  if length hstsDirectives =? 0 then handler
  else λ rw cx,
    _ ← set_default_header rw "Strict-Transport-Security" (Join hstsDirectives "; ");
    handler rw cx.

Definition WithContentType (handler : Handler St) (contentType : string) : Handler St := λ rw cx,
  _ ← rw (SetHeader "Content-Type" contentType);
  _ ← rw (SetHeader "X-Content-Type-Options" "nosniff");
  handler rw cx.

(** *** CORS.  The patterns are matched by Go's regexp package; allowedOriginRegexps
    ends the process when a pattern does not compile. *)
Context (MatchString : string → string → bool).

Definition defaultMethods : list string := ["POST"; "GET"; "OPTIONS"; "PUT"; "DELETE"; "PATCH"].
Definition defaultHeaders : list string :=
  ["Content-Type"; "Content-Length"; "Accept-Encoding"; "X-CSRF-Token"; "Authorization"; "X-Requested-With";
   "If-Modified-Since"].

Definition WithCORS (handler : Handler St) (allowedOriginPatterns : list string)
    (allowedMethods allowedHeaders exposedHeaders : option (list string)) (allowCredentials : string) : Handler St :=
  if length allowedOriginPatterns =? 0 then handler
  else λ rw cx,
    reqh ← lift_auth get_header;
    let origin := Header_Get reqh "Origin" in
    if (origin != "") && existsb (λ re, MatchString re origin) allowedOriginPatterns then
      _ ← rw (SetHeader "Access-Control-Allow-Origin" origin);
      _ ← rw (SetHeader "Access-Control-Allow-Methods" (Join (default defaultMethods allowedMethods) ", "));
      _ ← rw (SetHeader "Access-Control-Allow-Headers" (Join (default defaultHeaders allowedHeaders) ", "));
      _ ← rw (SetHeader "Access-Control-Expose-Headers" (Join (default ["Date"] exposedHeaders) ", "));
      _ ← rw (SetHeader "Access-Control-Allow-Credentials" allowCredentials);
      if req_Method (rc_http cx) == "OPTIONS" then rw (WriteHeader 204) else handler rw cx
    else handler rw cx.

(** *** GOAWAY.  The decider draws a number and compares it with the chance; both are
    floating-point numbers, whose comparison is [lt]. *)
Section goaway.
Context {F : Type} (lt : F → F → bool) (next : HM St F) (chance : F).

Definition probabilisticGoawayDecider_Goaway : HM St bool := x ← next; mret (lt x chance).

Definition WithProbabilisticGoaway (proto : rcontext → string) (inner : Handler St) : Handler St := λ rw cx,
  away ← (if proto cx == "HTTP/2.0" then probabilisticGoawayDecider_Goaway else mret false);
  _ ← (if (away : bool) then rw (SetHeader "Connection" "close") else mret tt);
  inner rw cx.
End goaway.

(** ** Warnings and timestamps *)

(** The recorder writes to the header of [w], the response's. *)
Definition WithWarningRecorder (handler : Handler St) : Handler St := λ rw cx,
  _ ← set_o (λ o, OState (o_response o) (o_deadline o) (Some (new_recorder (rs_header (o_response o)))) (o_wg o) (o_rest o));
  handler rw cx.

(** warning.AddWarning on the request's context. *)
Definition ctx_AddWarning (NewWarningHeader : Z → string → string → string + error) (agent text : string) : HM St unit :=
  set_o (λ o,
    match o_recorder o with
    | None => o
    | Some r =>
        let r := AddWarning NewWarningHeader agent text
                   {| rec_recorded := rec_recorded r; rec_ordered := rec_ordered r; rec_written := rec_written r;
                      rec_truncating := rec_truncating r; rec_header := rs_header (o_response o) |} in
        OState (with_header (λ _, rec_header r) (o_response o)) (o_deadline o) (Some r) (o_wg o) (o_rest o)
    end).

Definition WithReceivedTimestamp (cx : rcontext) (t : Z) : rcontext :=
  let e := rc_env cx in
  {| rc_http := rc_http cx;
     rc_env := {| env_RequestURI := env_RequestURI e; env_SourceIPs := env_SourceIPs e; env_NewUID := env_NewUID e;
                  env_Received := Some t; env_Now := env_Now e; env_BasicAuth := env_BasicAuth e;
                  env_PeerCerts := env_PeerCerts e |};
     rc_auds := rc_auds cx; rc_user := rc_user cx; rc_info := rc_info cx |}.

Definition WithRequestReceivedTimestamp (handler : Handler St) : Handler St := λ rw cx,
  handler rw (WithReceivedTimestamp cx (env_Now (rc_env cx))).

(** ** The wait group *)

(** [encodeStatus] is golib's encoding of the ServiceUnavailable status. *)
Context (encodeStatus : string → string).

Definition set_wg (f : W → W) : HM St unit :=
  set_o (λ o, OState (o_response o) (o_deadline o) (o_recorder o) (f (o_wg o)) (o_rest o)).

(** A deferred call: it runs after [m] whether or not [m] panics. *)
Definition deferred {A} (m : HM St A) (d : HM St unit) : HM St A :=
  res ← try_ m;
  _ ← d;
  match res with inl a => mret a | inr msg => lift_outcome (Panic msg) end.

Definition wg_Add : HM St (option error) := λ w,
  let '(err, wg) := wg_Add1 (o_wg (fs_state (w_state w))) in
  match set_wg (λ _, wg) w with (_, w') => (Ret err, w') end.

(** A nil check panics when it is called. *)
Definition is_long_running (longRunning : option (RequestInfo → bool)) (info : RequestInfo) : HM St bool :=
  match longRunning with
  | None => lift_outcome (Panic "nil pointer dereference")
  | Some f => mret (f info)
  end.

Definition WithWaitGroup (handler : Handler St) (longRunning : option (RequestInfo → bool)) : Handler St := λ rw cx,
  match rc_info cx with
  | None => respond (InternalError (Errorf "no RequestInfo found in the context" [])) rw cx
  | Some requestInfo =>
      long ← is_long_running longRunning requestInfo;
      if (long : bool) then handler rw cx
      else
        err ← wg_Add;
        match err with
        | Some _ =>
            _ ← rw (AddHeader "Retry-After" "1");
            _ ← rw (SetHeader "Content-Type" "application/json");
            _ ← rw (SetHeader "X-Content-Type-Options" "nosniff");
            _ ← rw (WriteHeader 503);
            rw (WriteBody (encodeStatus "apiserver is shutting down"))
        | None => deferred (handler rw cx) (set_wg wg_Done)
        end
  end.

(** ** Deadlines *)

(** time.ParseDuration, in nanoseconds; err.Error(). *)
Context (ParseDuration : string → Z + error) (Error_string : error → string).
Context `{StatusConstants}.

Definition invalidTimeoutInURL : string := "invalid timeout specified in the request URL".

(** req.URL.Query().Get *)
Definition query_Get (cx : rcontext) (key : string) : string :=
  match req_Query (rc_http cx) !! key with Some (v :: _) => v | _ => "" end.

(** The timeout, if one is given. *)
Definition parseTimeout (cx : rcontext) : option Z + error :=
  let value := query_Get cx "timeout" in
  if value == "" then inl None
  else match ParseDuration value with
       | inr err => inr (Errorf (invalidTimeoutInURL +:+ " - " +:+ Error_string err) [])
       | inl timeout => inl (Some timeout)
       end.

Definition withFailedRequestAudit (failedHandler : Handler St) (message : string)
    (audit : option (Sink St * Checker)) : Handler St :=
  match audit with
  | None => failedHandler
  | Some (sink, policy) => λ rw cx,
      created ← createAuditEventAndAttachToContext cx policy;
      match created with
      | inr _ => respond (InternalError (Errorf "failed to create audit event" [])) rw cx
      | inl None => failedHandler rw cx
      | inl (Some omitStages) =>
          _ ← edit_event (set_Stage StageResponseStarted ∘
                 set_Status {| st_Status := ""; st_Message := message; st_Reason := ""; st_Code := 0 |});
          _ ← reset_once;
          failedHandler (auditResponseWriter rw (Some sink) cx omitStages) cx
      end
  end.

Definition set_deadline (d : option Z) : HM St unit :=
  set_o (λ o, OState (o_response o) d (o_recorder o) (o_wg o) (o_rest o)).

(** context.WithDeadline keeps the earlier of the two deadlines. *)
Definition min_deadline (d : option Z) (t : Z) : Z := match d with Some d => Z.min d t | None => t end.

(** The timeout of a request: its own when it is positive and below the maximum. *)
Definition request_timeout (requestTimeoutMaximum : Z) (userSpecifiedTimeout : option Z) : Z :=
  match userSpecifiedTimeout with
  | Some t => if (0 <? t)%Z && (t <? requestTimeoutMaximum)%Z then t else requestTimeoutMaximum
  | None => requestTimeoutMaximum
  end.

(** http.Error *)
Definition http_Error (rw : ResponseWriter St) (error : string) (code : Z) : HM St unit :=
  _ ← rw (SetHeader "Content-Type" "text/plain; charset=utf-8");
  _ ← rw (SetHeader "X-Content-Type-Options" "nosniff");
  _ ← rw (WriteHeader code);
  rw (WriteBody (error +:+ String "010" "")).

Definition handleError (rw : ResponseWriter St) (cx : rcontext) (code : Z) (err : error) : HM St unit :=
  http_Error rw ("Error - " +:+ Error_string err +:+ ": " +:+ Quote (env_RequestURI (rc_env cx))) code.

Definition WithRequestDeadline (handler : Handler St) (audit : option (Sink St * Checker))
    (longRunning : option (RequestInfo → bool)) (requestTimeoutMaximum : Z) : Handler St := λ rw cx,
  match rc_info cx with
  | None => handleError rw cx 500 (Errorf "no RequestInfo found in context, handler chain must be wrong" [])
  | Some requestInfo =>
      long ← is_long_running longRunning requestInfo;
      if (long : bool) then handler rw cx
      else
        match parseTimeout cx with
        | inr err =>
            withFailedRequestAudit (respond (BadRequest err)) (Error_string err) audit rw cx
        | inl userSpecifiedTimeout =>
            let timeout := request_timeout requestTimeoutMaximum userSpecifiedTimeout in
            let started := default (env_Now (rc_env cx)) (env_Received (rc_env cx)) in
            old ← get_o o_deadline;
            _ ← set_deadline (Some (min_deadline old (started + timeout)%Z));
            handler rw cx
        end
  end.

(** ** Panics *)

(** A panic is known by its message.  The message of this sentinel stands for the sentinel:
    no other panic of the handlers prints alike. *)
Definition ErrAbortHandler : string := "net/http: abort Handler".

(** Prometheus's check of label values. *)
Context (validateLabelValues : list string → list string → option error).

(** An abort is counted under its method and path; both the resolver, whose result does not
    matter, and the counter may panic. *)
Definition record_abort (resolver : http_request → outcome (RequestInfo * option error)) (r : http_request) : outcome unit :=
  _ ← resolver r;
  _ ← RecordRequestAbort validateLabelValues
        {| mq_Method := req_Method r; mq_Path := req_Path r; mq_RawQuery := ""; mq_Query := req_Query r; mq_User := None |};
  Ret tt.

(** golib's HandleCrash recovers, calls the crash handler, and panics again when
    ReallyCrash is set.  httplog.WithLogging around the handler only records. *)
Definition WithPanicRecovery (resolver : http_request → outcome (RequestInfo * option error)) (reallyCrash : bool)
    (handler : Handler St) : Handler St := λ rw cx,
  res ← try_ (handler rw cx);
  match res with
  | inl _ => mret tt
  | inr msg =>
      _ ← (if msg == ErrAbortHandler then lift_outcome (record_abort resolver (rc_http cx))
           else http_Error rw "This request caused apiserver to panic. Look in the logs for details." 500);
      if reallyCrash then lift_outcome (Panic msg) else mret tt
  end.

(** ** DefaultBuildHandlerChain *)

(** WithTimeoutForNonLongRunningRequests returns its handler: its body is commented
    out. *)
Definition WithTimeoutForNonLongRunningRequests (handler : Handler St) : Handler St := handler.

Record ServerConfig := {
  sc_chain : ChainConfig St;
  sc_CorsAllowedOriginList : list string;
  sc_HSTSDirectives : list string;
  sc_RequestTimeout : Z;
  sc_RequestInfoResolver : http_request → outcome (RequestInfo * option error);
  sc_ReallyCrash : bool;
}.

Context `{DNSValidation} `{ImpersonationHeaders} `{HeaderRange}.

(** The sessions filter attaches a session and WithHttpDump logs; neither is here. *)
Definition outerChain (s : ServerConfig) (handler : Handler St) : Handler St :=
  let handler := WithCORS handler (sc_CorsAllowedOriginList s) None None None "true" in
  let handler := WithTimeoutForNonLongRunningRequests handler in
  let handler := WithRequestDeadline handler (cc_Audit (sc_chain s)) (cc_LongRunningFunc (sc_chain s)) (sc_RequestTimeout s) in
  let handler := WithWaitGroup handler (cc_LongRunningFunc (sc_chain s)) in
  let handler := WithRequestInfo respond handler (sc_RequestInfoResolver s) in
  let handler := filters_WithAuditAnnotations handler (cc_Audit (sc_chain s)) in
  let handler := WithWarningRecorder handler in
  let handler := WithCacheControl handler in
  let handler := WithHSTS handler (sc_HSTSDirectives s) in
  let handler := WithRequestReceivedTimestamp handler in
  WithPanicRecovery (sc_RequestInfoResolver s) (sc_ReallyCrash s) handler.

Definition DefaultBuildHandlerChain (apiHandler : Handler St) (s : ServerConfig) : Handler St :=
  outerChain s (securityChain respond apiHandler (sc_chain s)).

(** ** Passing a filter

    On a given request a filter refuses, or calls its handler once on a writer,
    context and state of which [P] holds. *)

Definition passes (F : Handler St → Handler St) rw cx w (P : ResponseWriter St → rcontext → world (fstate St) → Prop) : Prop :=
  refuses F rw cx w ∨ ∃ rw' cx' w' k, reaches F rw cx w rw' cx' w' k ∧ P rw' cx' w'.

Lemma passes_compose F G rw cx w P Q :
  passes F rw cx w P → (∀ rw' cx' w', P rw' cx' w' → passes G rw' cx' w' Q) → passes (F ∘ G) rw cx w Q.
Proof.
  intros [Hr|(rw1 & cx1 & w1 & k1 & HF & HP)] HG; [left; by apply refuses_outer|].
  destruct (HG _ _ _ HP) as [Hr|(rw2 & cx2 & w2 & k2 & HG2 & HQ)]; [left; by eapply refuses_inner|].
  right. exists rw2, cx2, w2, (k1 ∘ k2). split; [by eapply reaches_compose|done].
Qed.

Lemma passes_weaken F rw cx w P Q :
  passes F rw cx w P → (∀ rw' cx' w', P rw' cx' w' → Q rw' cx' w') → passes F rw cx w Q.
Proof. intros [Hr|(rw1 & cx1 & w1 & k & HF & HP)] HQ; [by left|]. right. exists rw1, cx1, w1, k. auto. Qed.

(** A filter that calls its handler and nothing else afterwards. *)
Lemma passes_id F rw cx w rw' cx' w' (P : ResponseWriter St → rcontext → world (fstate St) → Prop) :
  (∀ h, F h rw cx w = h rw' cx' w') → P rw' cx' w' → passes F rw cx w P.
Proof. intros Heq HP. right. exists rw', cx', w', id. split; [exact Heq|done]. Qed.

Definition upd_o (f : St → St) (w : world (fstate St)) : world (fstate St) :=
  World (w_heap w) (w_header w) (FState (fs_audit (w_state w)) (fs_once (w_state w)) (f (fs_state (w_state w)))).
Definition the_o (w : world (fstate St)) : St := fs_state (w_state w).

(** Two states that differ at most in the response, the deadline, the recorder, the
    wait group and what is known of the audit. *)
Definition same_request (w w' : world (fstate St)) : Prop :=
  w_heap w' = w_heap w ∧ w_header w' = w_header w ∧ o_rest (the_o w') = o_rest (the_o w).
(** ... and in the wait group and the deadline neither. *)
Definition same_flight (w w' : world (fstate St)) : Prop :=
  same_request w w' ∧ o_wg (the_o w') = o_wg (the_o w) ∧ o_deadline (the_o w') = o_deadline (the_o w).

Lemma same_flight_refl w : same_flight w w.
Proof. by repeat split. Qed.
Lemma same_flight_trans w1 w2 w3 : same_flight w1 w2 → same_flight w2 w3 → same_flight w1 w3.
Proof. unfold same_flight, same_request. intros [(?&?&?) [??]] [(?&?&?) [??]]. repeat split; congruence. Qed.

Lemma default_header_eq key value w :
  ∃ w', set_default_header netWriter key value w = (Ret tt, w') ∧ same_flight w w' ∧
    (∃ v, (rs_header (o_response (the_o w')) : gmap string (list string)) !! key = Some v).
Proof.
  unfold set_default_header, mbind, HM_bind, get_o. cbn [fst snd compose].
  case_bool_decide as Hh.
  - exists w. split; [done|]. split; [apply same_flight_refl|]. destruct Hh as [v Hv]. by exists v.
  - eexists. split; [reflexivity|]. split; [by repeat split|]. cbn. unfold Header_Set, Header in *.
    rewrite lookup_insert_eq. by eexists.
Qed.

Lemma recovery_passes resolver crash cx w (P : ResponseWriter St → rcontext → world (fstate St) → Prop) rw :
  P rw cx w → passes (WithPanicRecovery resolver crash) rw cx w P.
Proof.
  intros HP. right. exists rw, cx, w.
  exists (λ e, match e with
               | (Ret _, w') => (Ret tt, w')
               | (Panic msg, w') =>
                   (_ ← (if msg == ErrAbortHandler then lift_outcome (record_abort resolver (rc_http cx))
                         else http_Error rw "This request caused apiserver to panic. Look in the logs for details." 500);
                    if crash then lift_outcome (Panic msg) else mret tt) w'
               end).
  split; [|done]. intros h. unfold WithPanicRecovery, try_, mbind at 1, HM_bind at 1. by destruct (h rw cx w) as [[[]|msg] w'].
Qed.

(** The state in which the recorder is attached. *)
Lemma warning_passes rw cx w (P : ResponseWriter St → rcontext → world (fstate St) → Prop) :
  (∀ w', same_flight w w' → (rs_header (o_response (the_o w'))) = rs_header (o_response (the_o w)) → P rw cx w') →
  passes WithWarningRecorder rw cx w P.
Proof. intros HP. eapply passes_id; [intros h; reflexivity|]. apply HP; by repeat split. Qed.

Lemma annotations_passes audit rw cx w (P : ResponseWriter St → rcontext → world (fstate St) → Prop) :
  (∀ w', same_flight w w' → o_response (the_o w') = o_response (the_o w) → P rw cx w') →
  passes (λ h, filters_WithAuditAnnotations h audit) rw cx w P.
Proof.
  intros HP. destruct audit as [?|].
  - eapply passes_id; [intros h; reflexivity|]. apply HP; by repeat split.
  - eapply passes_id; [intros h; reflexivity|]. apply HP; by repeat split.
Qed.

Lemma requestinfo_passes resolver rw cx w (P : ResponseWriter St → rcontext → world (fstate St) → Prop) :
  (∀ info, resolver (rc_http cx) = Ret (info, None) → P rw (WithInfo cx info) w) →
  passes (λ h, WithRequestInfo respond h resolver) rw cx w P.
Proof.
  intros HP. destruct (resolver (rc_http cx)) as [[info [e|]]|msg] eqn:Hr.
  - left. eexists. intros h. unfold WithRequestInfo, mbind, HM_bind, lift_outcome. by rewrite Hr.
  - eapply passes_id; [|by apply HP]. intros h. unfold WithRequestInfo, mbind, HM_bind, lift_outcome. by rewrite Hr.
  - left. eexists. intros h. unfold WithRequestInfo, mbind, HM_bind, lift_outcome. by rewrite Hr.
Qed.

Lemma hsts_passes directives cx w (P : ResponseWriter St → rcontext → world (fstate St) → Prop) :
  (∀ w', same_flight w w' → P netWriter cx w') → passes (λ h, WithHSTS h directives) netWriter cx w P.
Proof.
  intros HP. unfold WithHSTS. destruct (length directives =? 0).
  - eapply passes_id; [intros h; reflexivity|]. apply HP, same_flight_refl.
  - destruct (default_header_eq "Strict-Transport-Security" (Join directives "; ") w) as (w' & Heq & Hsame & _).
    eapply passes_id; [|by apply HP]. intros h. unfold mbind, HM_bind. by rewrite Heq.
Qed.

Lemma cachecontrol_passes cx w (P : ResponseWriter St → rcontext → world (fstate St) → Prop) :
  (∀ w' v, same_flight w w' →
    (rs_header (o_response (the_o w')) : gmap string (list string)) !! "Cache-Control" = Some v → P netWriter cx w') →
  passes WithCacheControl netWriter cx w P.
Proof.
  intros HP. destruct (default_header_eq "Cache-Control" "no-cache, private" w) as (w' & Heq & Hsame & v & Hv).
  eapply passes_id; [|by eapply HP]. intros h. unfold WithCacheControl, mbind, HM_bind. by rewrite Heq.
Qed.

(** What CORS does: it answers a preflight request of an allowed origin itself, and
    otherwise calls the handler, having named the origin as allowed only if it is. *)
Definition cors_headers (origin : string) (h : Header) : Header :=
  Header_Set (Header_Set (Header_Set (Header_Set (Header_Set h
    "Access-Control-Allow-Origin" origin)
    "Access-Control-Allow-Methods" (Join defaultMethods ", "))
    "Access-Control-Allow-Headers" (Join defaultHeaders ", "))
    "Access-Control-Expose-Headers" (Join ["Date"] ", "))
    "Access-Control-Allow-Credentials" "true".

Definition cors_allowed (patterns : list string) (origin : string) : Prop :=
  origin ≠ "" ∧ ∃ re, re ∈ patterns ∧ MatchString re origin = true.

Theorem WithCORS_spec patterns cx w :
  let origin := Header_Get (w_header w) "Origin" in
  let F := λ h, WithCORS h patterns None None None "true" in
  let allowed := upd_o (λ o, OState (with_header (cors_headers origin) (o_response o)) (o_deadline o) (o_recorder o)
                               (o_wg o) (o_rest o)) w in
  (cors_allowed patterns origin ∧
     (req_Method (rc_http cx) = "OPTIONS" ∧ (∀ h, F h netWriter cx w = netWriter (WriteHeader 204) allowed) ∨
      req_Method (rc_http cx) ≠ "OPTIONS" ∧ (∀ h, F h netWriter cx w = h netWriter cx allowed))) ∨
  (¬ cors_allowed patterns origin ∧ ∀ h, F h netWriter cx w = h netWriter cx w).
Proof.
  intros origin F allowed. unfold F, WithCORS.
  destruct (Nat.eqb_spec (length patterns) 0) as [Hnil|Hnil].
  { right. split; [|done]. intros (_ & re & Hre & _). apply nil_length_inv in Hnil as ->. by apply elem_of_nil in Hre. }
  unfold mbind, HM_bind. cbn [lift_auth get_header]. fold origin.
  destruct ((origin != "") && existsb (λ re, MatchString re origin) patterns) eqn:Hm.
  - apply andb_true_iff in Hm as [Ho Hm]. apply negb_true_iff, bool_decide_eq_false in Ho.
    apply existsb_elem_of in Hm. left. split; [split; [done|naive_solver]|].
    destruct (bool_decide_reflect (req_Method (rc_http cx) = "OPTIONS")) as [HO|HO]; [left|right]; (split; [done|]); intros h; reflexivity.
  - right. split; [|done]. intros (Ho & re & Hre & Hmatch). apply andb_false_iff in Hm as [Hm|Hm].
    + by apply negb_false_iff, bool_decide_eq_true in Hm.
    + assert (existsb (λ re, MatchString re origin) patterns = true) by (apply existsb_elem_of; eauto). congruence.
Qed.

Lemma cors_passes patterns cx w (P : ResponseWriter St → rcontext → world (fstate St) → Prop) :
  (∀ w', same_flight w w' → P netWriter cx w') →
  passes (λ h, WithCORS h patterns None None None "true") netWriter cx w P.
Proof.
  intros HP. destruct (WithCORS_spec patterns cx w) as [[_ [[_ Heq]|[_ Heq]]]|[_ Heq]].
  - left. eexists. intros h. apply Heq.
  - eapply passes_id; [exact Heq|]. apply HP. by repeat split.
  - eapply passes_id; [exact Heq|]. apply HP, same_flight_refl.
Qed.

(** *** The wait group and the deadline *)

Definition set_in_flight (wg : W) : St → St := λ o, OState (o_response o) (o_deadline o) (o_recorder o) wg (o_rest o).

Lemma bind_long {A} f info (m : bool → HM St A) w : (is_long_running (Some f) info ≫= m) w = m (f info) w.
Proof. reflexivity. Qed.

Lemma bind_Add {A} (m : option error → HM St A) w :
  (wg_Add ≫= m) w = m (wg_Add1 (o_wg (the_o w))).1 (upd_o (set_in_flight (wg_Add1 (o_wg (the_o w))).2) w).
Proof. unfold wg_Add, mbind, HM_bind, the_o. by destruct (wg_Add1 _) as [err wg]. Qed.

(** The end of a counted request. *)
Definition leave_waitgroup (e : ending) : ending :=
  (e.1, upd_o (λ o, set_in_flight (wg_Done (o_wg o)) o) e.2).

(** A request that is not long-running is counted while its handler runs, and no
    longer, however the handler ends; when the server is shutting down the handler is
    not called. *)
Lemma waitgroup_cases (f : RequestInfo → bool) info rw cx w :
  rc_info cx = Some info →
  if f info then ∀ h, WithWaitGroup h (Some f) rw cx w = h rw cx w
  else match wg_Add1 (o_wg (the_o w)) with
       | (Some _, _) => refuses (λ h, WithWaitGroup h (Some f)) rw cx w
       | (None, wg) => ∀ h, WithWaitGroup h (Some f) rw cx w =
           leave_waitgroup (h rw cx (upd_o (set_in_flight wg) w))
       end.
Proof.
  intros Hi. unfold WithWaitGroup. rewrite Hi. destruct (f info) eqn:Hf.
  - intros h. by rewrite ?Hi, bind_long, Hf.
  - destruct (wg_Add1 (o_wg (the_o w))) as [[e|] wg] eqn:Ha.
    + eexists. intros h. cbv beta.
      rewrite ?Hi, bind_long, Hf, bind_Add, Ha. cbn [fst snd]. reflexivity.
    + intros h. rewrite ?Hi, bind_long, Hf, bind_Add, Ha. cbn [fst snd].
      unfold deferred, try_, mbind, HM_bind. by destruct (h rw cx _) as [[[]|msg] w'].
Qed.

Lemma waitgroup_passes (f : RequestInfo → bool) info rw cx w (P : ResponseWriter St → rcontext → world (fstate St) → Prop) :
  rc_info cx = Some info →
  (∀ w', same_request w w' → o_deadline (the_o w') = o_deadline (the_o w) → o_response (the_o w') = o_response (the_o w) →
     (if f info then o_wg (the_o w') = o_wg (the_o w) else wg_Add1 (o_wg (the_o w)) = (None, o_wg (the_o w'))) →
     P rw cx w') →
  passes (λ h, WithWaitGroup h (Some f)) rw cx w P.
Proof.
  intros Hi HP. pose proof (waitgroup_cases f info rw cx w Hi) as Hc. destruct (f info).
  - eapply passes_id; [exact Hc|]. by apply HP.
  - destruct (wg_Add1 (o_wg (the_o w))) as [[e|] wg] eqn:Ha; [by left|].
    right. exists rw, cx, (upd_o (set_in_flight wg) w), leave_waitgroup. split; [exact Hc|]. by apply HP.
Qed.

Lemma deadline_passes audit (f : RequestInfo → bool) info max rw cx w (P : ResponseWriter St → rcontext → world (fstate St) → Prop) :
  rc_info cx = Some info →
  (∀ w', same_request w w' → o_wg (the_o w') = o_wg (the_o w) → o_response (the_o w') = o_response (the_o w) →
     (if f info then o_deadline (the_o w') = o_deadline (the_o w)
      else ∃ d, o_deadline (the_o w') = Some d ∧
             (d ≤ default (env_Now (rc_env cx)) (env_Received (rc_env cx)) + max)%Z) →
     P rw cx w') →
  passes (λ h, WithRequestDeadline h audit (Some f) max) rw cx w P.
Proof.
  intros Hi HP. unfold WithRequestDeadline. destruct (f info) eqn:Hf.
  - eapply passes_id; [intros h; cbv beta; rewrite ?Hi, bind_long, Hf; reflexivity|]. by apply HP.
  - destruct (parseTimeout cx) as [user|err] eqn:Hp.
    + eapply passes_id; [intros h; cbv beta; rewrite ?Hi, bind_long, Hf, Hp; reflexivity|]. apply HP; [by repeat split|done|done|].
      eexists. split; [reflexivity|]. unfold min_deadline, request_timeout.
      destruct user as [t|]; [destruct (Z.ltb_spec 0 t), (Z.ltb_spec t max)|]; destruct (o_deadline _); cbn; lia.
    + left. eexists. intros h. cbv beta. rewrite ?Hi, bind_long, Hf, Hp. reflexivity.
Qed.

(** *** The chain *)

(** The state in which the security chain is entered. *)
Record entered (s : ServerConfig) (f : RequestInfo → bool) (cx : rcontext) (w : world (fstate St))
    (cx1 : rcontext) (w1 : world (fstate St)) : Prop := {
  en_info : ∃ info, sc_RequestInfoResolver s (rc_http cx) = Ret (info, None) ∧
    cx1 = WithInfo (WithReceivedTimestamp cx (env_Now (rc_env cx))) info ∧
    (if f info
     then o_wg (the_o w1) = o_wg (the_o w) ∧ o_deadline (the_o w1) = o_deadline (the_o w)
     else wg_Add1 (o_wg (the_o w)) = (None, o_wg (the_o w1)) ∧
          ∃ d, o_deadline (the_o w1) = Some d ∧ (d ≤ env_Now (rc_env cx) + sc_RequestTimeout s)%Z);
  en_same : same_request w w1;
}.

Lemma outerChain_passes s f cx w :
  cc_LongRunningFunc (sc_chain s) = Some f →
  passes (outerChain s) netWriter cx w (λ rw1 cx1 w1, rw1 = netWriter ∧ entered s f cx w cx1 w1).
Proof.
  intros Hf. unfold outerChain. rewrite Hf. cbv zeta. unfold WithTimeoutForNonLongRunningRequests.
  set (cx0 := WithReceivedTimestamp cx (env_Now (rc_env cx))).
  eapply (passes_compose (WithPanicRecovery (sc_RequestInfoResolver s) (sc_ReallyCrash s)));
    [apply (recovery_passes _ _ _ _ (λ rw' cx' w', rw' = netWriter ∧ cx' = cx ∧ w' = w)); done|intros ??? (-> & -> & ->)].
  eapply (passes_compose WithRequestReceivedTimestamp);
    [eapply passes_id with (P := λ rw' cx' w', rw' = netWriter ∧ cx' = cx0 ∧ w' = w); [intros h; reflexivity|done]
    |intros ??? (-> & -> & ->)].
  eapply (passes_compose (λ h, WithHSTS h _));
    [apply (hsts_passes _ _ _ (λ rw' cx' w', rw' = netWriter ∧ cx' = cx0 ∧ same_flight w w')); done|intros ?? w1 (-> & -> & Hw1)].
  eapply (passes_compose WithCacheControl);
    [apply (cachecontrol_passes _ _ (λ rw' cx' w', rw' = netWriter ∧ cx' = cx0 ∧ same_flight w w'));
       eauto using same_flight_trans|intros ?? w2 (-> & -> & Hw2)].
  eapply (passes_compose WithWarningRecorder);
    [apply (warning_passes _ _ _ (λ rw' cx' w', rw' = netWriter ∧ cx' = cx0 ∧ same_flight w w'));
       eauto using same_flight_trans|intros ?? w3 (-> & -> & Hw3)].
  eapply (passes_compose (λ h, filters_WithAuditAnnotations h _));
    [apply (annotations_passes _ _ _ _ (λ rw' cx' w', rw' = netWriter ∧ cx' = cx0 ∧ same_flight w w'));
       eauto using same_flight_trans|intros ?? w4 (-> & -> & Hw4)].
  eapply (passes_compose (λ h, WithRequestInfo respond h _));
    [apply (requestinfo_passes _ _ _ _ (λ rw' cx' w', rw' = netWriter ∧ w' = w4 ∧
       ∃ info, sc_RequestInfoResolver s (rc_http cx) = Ret (info, None) ∧ cx' = WithInfo cx0 info)); eauto
    |intros ? cx5 ? (-> & -> & info & Hinfo & ->)].
  eapply (passes_compose (λ h, WithWaitGroup h _));
    [apply (waitgroup_passes f info _ _ _ (λ rw' cx' w', rw' = netWriter ∧ cx' = WithInfo cx0 info ∧
       same_request w w' ∧ o_deadline (the_o w') = o_deadline (the_o w) ∧
       (if f info then o_wg (the_o w') = o_wg (the_o w) else wg_Add1 (o_wg (the_o w)) = (None, o_wg (the_o w'))))); [done|]
    |intros ?? w6 (-> & -> & Hreq & Hdl & Hwg)].
  { destruct Hw4 as [(Hh4 & Hd4 & Hr4) [Hwg4 Hdl4]]. rewrite <- Hwg4, <- Hdl4.
    intros w' (Hh & Hd & Hr) Hdl' _ Hwg'. split_and!; try done. repeat split; congruence. }
  eapply (passes_compose (λ h, WithRequestDeadline h _ _ _));
    [apply (deadline_passes _ f info _ _ _ _ (λ rw' cx' w', rw' = netWriter ∧ entered s f cx w cx' w')); [done|]
    |intros ? cx7 w7 (-> & He)].
  { destruct Hreq as (Hh & Hd & Hr). intros w' (Hh' & Hd' & Hr') Hwg' _ Hdl'. split; [done|].
    split; [exists info; split_and!; [done|done|]|repeat split; congruence].
    destruct (f info); [split; congruence|]. rewrite Hwg'. split; [done|exact Hdl']. }
  apply (cors_passes _ _ _ (λ rw' cx' w', rw' = netWriter ∧ entered s f cx w cx' w')).
  intros w' [(Hh & Hd & Hr) [Hwg' Hdl']]. split; [done|]. destruct He as [(i & Hi & Hcx & Hfl) (Hh7 & Hd7 & Hr7)].
  split; [exists i; split_and!; [done|done|]|repeat split; congruence]. by rewrite Hwg', Hdl'.
Qed.

(** C1: no request reaches the API handler through the server's whole chain unchecked.  It
    is either answered without the handler (whatever the handler is), or: its path was
    classified; unless it is long-running, it is counted in the wait group and has a
    deadline within the server's timeout; the authenticator accepted it as a user [u]
    for an acceptable audience; the audit policy exempts it or the sink has stored an
    event for [u]; it runs as [u] or as an identity the authorizer let [u] impersonate,
    with the impersonation headers removed; and the authorizer allowed that identity
    the request that was classified. *)
Theorem handlerChain_sound `{!HeaderRangeLaws} s f auth authz cx w :
  cc_LongRunningFunc (sc_chain s) = Some f →
  cc_Authenticator (sc_chain s) = Some auth → cc_Authorizer (sc_chain s) = Some authz →
  (∃ res, ∀ api, DefaultBuildHandlerChain api s netWriter cx w = res) ∨
  ∃ cx1 w1 rw' cx' w' k u w2 eff attrs st,
    (∀ api, DefaultBuildHandlerChain api s netWriter cx w = k (api rw' cx' w')) ∧
    entered s f cx w cx1 w1 ∧
    authenticates auth (cc_APIAudiences (sc_chain s)) cx1 w1 u w2 ∧
    recorded (cc_Audit (sc_chain s)) (WithUser (audienceContext (cc_APIAudiences (sc_chain s)) cx1) (Some u)) ∧
    (eff = u ∧ buildImpersonationRequests
                 (w_header (afterAuthentication (cc_KeepAuthorizationHeader (sc_chain s)) w2)) = Ret (inl []) ∨
     impersonates authz u eff ∧ impersonation_cleared (w_header w')) ∧
    rc_user cx' = Some eff ∧ rc_info cx' = rc_info cx1 ∧
    GetAuthorizerAttributes cx' = inl attrs ∧ authorizes authz attrs st.
Proof.
  intros Hf Hauth Hauthz. unfold DefaultBuildHandlerChain.
  destruct (outerChain_passes s f cx w Hf) as [[res Hres]|(rw1 & cx1 & w1 & k1 & Hreach & -> & Hen)];
    [left; exists res; intros api; apply Hres|].
  destruct (securityChain_sound respond (sc_chain s) auth authz netWriter cx1 w1 Hauth Hauthz)
    as [[res Hres]|(rw' & cx' & w' & k & u & w2 & eff & attrs & st & Heq & Hrest)].
  - left. exists (k1 res). intros api. by rewrite Hreach, Hres.
  - right. exists cx1, w1, rw', cx', w', (k1 ∘ k), u, w2, eff, attrs, st. split; [|by split].
    intros api. by rewrite Hreach, Heq.
Qed.

(** C7: with golib's ReallyCrash off, whatever the handlers inside do, serving a request
    does not panic, if an abort of the request can be recorded: its information can be
    resolved, and its method and path are label values.  ([reallyCrash_panics]: with
    ReallyCrash on a panic goes on.) *)
Theorem handlerChain_recovers s api cx w :
  sc_ReallyCrash s = false → (∃ info, sc_RequestInfoResolver s (rc_http cx) = Ret info) →
  validateLabelValues requestAbortsTotal.2 [req_Method (rc_http cx); req_Path (rc_http cx)] = None →
  (DefaultBuildHandlerChain api s netWriter cx w).1 = Ret tt.
Proof.
  intros Hc [info Hi] Hl. unfold DefaultBuildHandlerChain, outerChain, WithPanicRecovery. rewrite Hc.
  unfold try_, mbind, HM_bind. cbv beta zeta. set (m := WithRequestReceivedTimestamp _ _ _ _).
  destruct m as [[?|msg] w']; [done|]. case_bool_decide; [|done].
  unfold record_abort, RecordRequestAbort, with_label_values; rewrite Hi; cbn [mbind outcome_bind mq_Method mq_Path]; by rewrite Hl.
Qed.

(** With ReallyCrash on, a panic of the handlers inside is a panic of the chain. *)
Lemma reallyCrash_panics resolver (handler : Handler St) rw cx w msg :
  (handler rw cx w).1 = Panic msg → (WithPanicRecovery resolver true handler rw cx w).1 ≠ Ret tt.
Proof.
  unfold WithPanicRecovery, try_, mbind, HM_bind. destruct (handler rw cx w) as [[?|m] w']; [done|].
  intros _. by destruct (_ w') as [[]].
Qed.

(** Only an abort that cannot be recorded panics. *)
Theorem handlerChain_panics s api cx w :
  sc_ReallyCrash s = false → (DefaultBuildHandlerChain api s netWriter cx w).1 ≠ Ret tt →
  ∃ msg, record_abort (sc_RequestInfoResolver s) (rc_http cx) = Panic msg.
Proof.
  intros Hc. unfold DefaultBuildHandlerChain, outerChain, WithPanicRecovery. rewrite Hc.
  unfold try_, mbind at 1, HM_bind at 1. cbv beta zeta. set (m := WithRequestReceivedTimestamp _ _ _ _).
  destruct m as [[?|msg] w']; [done|]. case_bool_decide; [|done].
  unfold mbind at 1, HM_bind at 1, lift_outcome.
  destruct (record_abort (sc_RequestInfoResolver s) (rc_http cx)) as [[]|msg']; [done|eauto].
Qed.

(** The wait group's count is the same after a request as before it, whether its
    handler returned or panicked, and one more while its handler runs. *)
Theorem WithWaitGroup_balanced outstanding `{!SafeWaitGroupLaws W outstanding} f info h cx w :
  rc_info cx = Some info →
  let inflight w := outstanding (o_wg (the_o w)) in
  (∀ w', inflight (h netWriter cx w').2 = inflight w') →
  inflight (WithWaitGroup h (Some f) netWriter cx w).2 = inflight w ∧
  passes (λ h, WithWaitGroup h (Some f)) netWriter cx w (λ _ _ w',
    inflight w' = if f info then inflight w else Datatypes.S (inflight w)).
Proof.
  intros Hi inflight Hh. split.
  - pose proof (waitgroup_cases f info netWriter cx w Hi) as Hc. destruct (f info) eqn:Hf; [by rewrite Hc|].
    destruct (wg_Add1 (o_wg (the_o w))) as [[e|] wg] eqn:Ha.
    + unfold WithWaitGroup. rewrite Hi, bind_long, Hf, bind_Add, Ha. exact (wg_Add1_err _ _ _ Ha).
    + rewrite Hc. unfold leave_waitgroup, inflight. cbn. apply wg_Done_spec.
      fold (the_o (h netWriter cx (upd_o (set_in_flight wg) w)).2).
      change (outstanding (o_wg (the_o (h netWriter cx (upd_o (set_in_flight wg) w)).2)))
        with (inflight (h netWriter cx (upd_o (set_in_flight wg) w)).2).
      rewrite Hh. unfold inflight. cbn. by apply wg_Add1_ok.
  - apply (waitgroup_passes f info _ _ _ _ Hi). intros w' _ _ _ Hwg. unfold inflight. destruct (f info); [by rewrite Hwg|].
    by apply wg_Add1_ok.
Qed.
End outer.

(** ** Examples *)

Module OuterFiltersExamples.
#[local] Existing Instance ServiceAccountExamples.dns_model.
#[local] Existing Instance FiltersExamples.headers.
#[local] Existing Instance FiltersExamples.in_order.
#[local] Existing Instance FiltersExamples.in_order_laws.
#[local] Existing Instance FiltersExamples.statuses.
#[local] Existing Instance waitgroup_model.

Definition St : Type := ostate (nat * bool) unit.

Definition is_alice : Request (fstate St) := λ _,
  l ← new_response {| resp_Audiences := []; resp_User := Some FiltersExamples.alice |}; mret (Some l, true, None).
Definition authz : Authorizer (fstate St) := pure_authorizer (λ a,
  Verdict (if a_Verb a == "get" then DecisionAllow else DecisionNoOpinion) "" None).

Definition config : @ServerConfig (nat * bool) unit :=
  {| sc_chain := {| cc_Authenticator := Some is_alice; cc_APIAudiences := []; cc_KeepAuthorizationHeader := false;
                    cc_Authorizer := Some authz; cc_Audit := None; cc_LongRunningFunc := Some (λ _, false) |};
     sc_CorsAllowedOriginList := ["trusted"]; sc_HSTSDirectives := ["max-age=1"]; sc_RequestTimeout := 60;
     sc_RequestInfoResolver := λ _, Ret (FiltersExamples.info, None); sc_ReallyCrash := false |}.

Definition start (h : Header) (stopping : bool) : world (fstate St) :=
  World [] h (FState {| ac_event := None; ac_pending := None |} false
    (OState {| rs_header := ∅; rs_status := None; rs_body := []; rs_flushed := false; rs_hijacked := false |}
       None None (0, stopping) tt)).

Definition ParseDuration (s : string) : Z + error := if s == "10s" then inl 10%Z else inr (Errorf "bad" []).

(** The whole chain around a handler that reports the user, the deadline and the
    number of requests in flight by panicking, or answers 200. *)
Definition serve (api : Handler St) (h : Header) (stopping : bool) (cx : rcontext) :=
  DefaultBuildHandlerChain FiltersExamples.respond (λ re s, re == s) id ParseDuration (λ _, "") label_check api config
    netWriter cx (start h stopping).

Definition ok_handler : Handler St := λ rw cx, rw (WriteHeader 200).
Definition status_of (r : outcome unit * world (fstate St)) : option Z := rs_status (o_response (the_o r.2)).

Example serve_ok : status_of (serve ok_handler ∅ false FiltersExamples.cx) = Some 200%Z.
Proof. vm_compute. reflexivity. Qed.
Example serve_panics : status_of (serve (λ _ _, lift_outcome (Panic "boom")) ∅ false FiltersExamples.cx) = Some 500%Z.
Proof. vm_compute. reflexivity. Qed.
Example serve_stopping : status_of (serve ok_handler ∅ true FiltersExamples.cx) = Some 503%Z.
Proof. vm_compute. reflexivity. Qed.

Lemma handlerChain_sound_witness :
  (∃ cx1 w1, entered config (λ _, false) FiltersExamples.cx (start ∅ false) cx1 w1).
Proof.
  destruct (handlerChain_sound FiltersExamples.respond (λ re s, re == s) id ParseDuration (λ _, "") label_check config (λ _, false)
              is_alice authz FiltersExamples.cx (start ∅ false) eq_refl eq_refl eq_refl)
    as [[res Hres]|(cx1 & w1 & rw' & cx' & w' & k & u & w2 & eff & attrs & st & _ & He & _)].
  - exfalso. pose proof (Hres ok_handler) as E1. pose proof (Hres (λ _ _, lift_outcome (Panic "boom"))) as E2.
    assert (H1 : status_of res = Some 200%Z) by (rewrite <- E1; exact serve_ok).
    assert (H2 : status_of res = Some 500%Z) by (rewrite <- E2; exact serve_panics). congruence.
  - exists cx1, w1. exact He.
Defined.

Lemma handlerChain_recovers_witness :
  (serve (λ _ _, lift_outcome (Panic "boom")) ∅ false FiltersExamples.cx).1 = Ret tt.
Proof.
  apply (handlerChain_recovers FiltersExamples.respond (λ re s, re == s) id ParseDuration (λ _, "") label_check config);
    [reflexivity|by eexists|reflexivity].
Defined.

(** An aborted request whose path is not UTF-8 panics in the crash handler. *)
Lemma unrecordable_abort_panics :
  let cx := {| rc_http := {| req_Method := "GET"; req_URL := "/%ff"; req_Path := String "/"%char (String "255"%char ""); req_Query := ∅ |};
               rc_env := rc_env FiltersExamples.cx; rc_auds := None; rc_user := None; rc_info := None |} in
  (serve (λ _ _, lift_outcome (Panic ErrAbortHandler)) ∅ false cx).1 = Panic "prometheus: WithLabelValues".
Proof. vm_compute; reflexivity. Qed.

Lemma WithWaitGroup_balanced_witness :
  fst (o_wg (the_o (WithWaitGroup FiltersExamples.respond id (λ _ _, lift_outcome (Panic "boom")) (Some (λ _, false))
                      netWriter FiltersExamples.cx (start ∅ false)).2)) = 0.
Proof.
  pose proof waitgroup_model_laws as Hl.
  exact (proj1 (WithWaitGroup_balanced FiltersExamples.respond id fst (λ _, false) FiltersExamples.info
    (λ _ _, lift_outcome (Panic "boom")) FiltersExamples.cx (start ∅ false) eq_refl (λ w, eq_refl))).
Defined.
End OuterFiltersExamples.
