(* ===== verification/Healthz.v ===== *)
(** * Health checks

    src/pkg/server/healthz/healthz.go: the checks, the handler that runs them all, the
    handlers of single checks, and their registration with the multiplexer of
    [PathMux].  A check reads the request ([R]) and may change a state ([S]). *)

From S2P Require Import Prelude GoStrings PathMux.

Local Open Scope go_scope.

Record HealthChecker (R S : Type) := { hc_Name : string; hc_Check : R → ST S (option error) }.
Arguments hc_Name {R S} _.
Arguments hc_Check {R S} _ _.

Record health_response := { hr_Code : Z; hr_ContentType : string; hr_NoSniff : bool; hr_Body : string }.

Definition nl : string := String "010" "".

(** http.Error; [fmt.Fprint] on a writer that was not given a status. *)
Definition http_Error (msg : string) (code : Z) : health_response :=
  {| hr_Code := code; hr_ContentType := "text/plain; charset=utf-8"; hr_NoSniff := true; hr_Body := msg +:+ nl |}.

(** ** Checks *)

Section checks.
Context {R S : Type}.

Definition PingHealthz : HealthChecker R S := {| hc_Name := "ping"; hc_Check := λ _, mret None |}.

(** NamedCheck *)
Definition NamedCheck (name : string) (check : R → ST S (option error)) : HealthChecker R S :=
  {| hc_Name := name; hc_Check := check |}.

(** LogHealthz.  The state is [lastVerified], nil before the first check; the time of
    the check is part of the request.  The goroutine it starts stores the time after
    each flush of the log. *)
Definition log_Check (now : Z) : ST (option Z) (option error) := λ lastVerified,
  let last := default now lastVerified in
  (if (now - last <? 120000000000)%Z then None else Some (Errorf "logging blocked" []), Some last).

(** informerSync: [started] lists the informers in the order of the map's iteration. *)
Definition informerSync_Check (started : list (string * bool)) : option error :=
  let notStarted := fst <$> filter (λ i, i.2 = false) started in
  if 0 <? length notStarted
  then Some (Errorf "%d informers not started yet: %v" notStarted) else None.
End checks.

Section healthz.
Context {R S sset : Type} `{StringSets sset}.
(** The query of the request; fmt.Sprintf("%q", s) and err.Error(). *)
Context (query : R → gmap string (list string)) (quote : string → string) (Error_string : error → string).

Definition getExcludedChecks (r : R) : sset :=
  match query r !! "exclude" with
  | Some checks => sets_NewString checks
  | None => sets_NewString []
  end.

Definition checkerNames (checks : list (HealthChecker R S)) : list string := hc_Name <$> checks.
Definition formatQuoted (names : list string) : string := Join (quote <$> names) ",".

(** The variables of the loop over the checks: what is left to exclude, the output,
    the names of the checks that failed. *)
Record progress := { pr_excluded : sset; pr_output : string; pr_failed : list string }.

Definition check_step (r : R) (check : HealthChecker R S) (p : progress) : ST S progress :=
  if sets_Has (pr_excluded p) (hc_Name check) then
    mret {| pr_excluded := sets_Delete (pr_excluded p) [hc_Name check];
            pr_output := pr_output p +:+ "[+]" +:+ hc_Name check +:+ " excluded: ok" +:+ nl;
            pr_failed := pr_failed p |}
  else
    err ← hc_Check check r;
    match err with
    | Some _ =>
        mret {| pr_excluded := pr_excluded p;
                pr_output := pr_output p +:+ "[-]" +:+ hc_Name check +:+ " failed: reason withheld" +:+ nl;
                pr_failed := pr_failed p ++ [hc_Name check] |}
    | None =>
        mret {| pr_excluded := pr_excluded p;
                pr_output := pr_output p +:+ "[+]" +:+ hc_Name check +:+ " ok" +:+ nl;
                pr_failed := pr_failed p |}
    end.

Fixpoint check_loop (r : R) (checks : list (HealthChecker R S)) (p : progress) : ST S progress :=
  match checks with
  | [] => mret p
  | check :: checks => p ← check_step r check p; check_loop r checks p
  end.

(** The answer once the checks have run. *)
Definition root_answer (name : string) (r : R) (p : progress) : health_response :=
  let left := sets_List (pr_excluded p) in
  let output := if 0 <? length left
    then pr_output p +:+ "warn: some health checks cannot be excluded: no matches for " +:+ formatQuoted left +:+ nl
    else pr_output p in
  if 0 <? length (pr_failed p) then http_Error (output +:+ name +:+ " check failed") 500
  else
    {| hr_Code := 200; hr_ContentType := "text/plain; charset=utf-8"; hr_NoSniff := true;
       hr_Body := if bool_decide (query r !! "verbose" = None) then "ok"
                  else output +:+ name +:+ " check passed" +:+ nl |}.

Definition handleRootHealth (name : string) (checks : list (HealthChecker R S)) (r : R) : ST S health_response :=
  p ← check_loop r checks {| pr_excluded := getExcludedChecks r; pr_output := ""; pr_failed := [] |};
  mret (root_answer name r p).

Definition adaptCheckToHandler (c : R → ST S (option error)) (r : R) : ST S health_response :=
  err ← c r;
  mret (match err with
        | Some err => http_Error ("internal server error: " +:+ Error_string err) 500
        | None => {| hr_Code := 200; hr_ContentType := ""; hr_NoSniff := false; hr_Body := "ok" |}
        end).

(** *** Registration *)

(** The multiplexer's handlers are of a type [Hdl], which [wrap] puts these into. *)
Definition health_handler : Type := R → ST S health_response.
Context {Hdl : Type} (wrap : health_handler → Hdl) (http_NotFoundHandler : Hdl).

Definition InstallPathHandler (mux : PathRecorderMux Hdl) (path : string)
    (checks : list (HealthChecker R S)) : PathRecorderMux Hdl :=
  let checks := if length checks =? 0 then [PingHealthz] else checks in
  let name := default "" (head (Split (TrimPrefix path "/") "/")) in
  let mux := Handle http_NotFoundHandler mux path (wrap (handleRootHealth name checks)) "" in
  foldl (λ mux check, Handle http_NotFoundHandler mux (path +:+ "/" +:+ hc_Name check)
                        (wrap (adaptCheckToHandler (hc_Check check))) "") mux checks.

Definition InstallHandler mux checks := InstallPathHandler mux "/healthz" checks.
Definition InstallReadyzHandler mux checks := InstallPathHandler mux "/readyz" checks.
Definition InstallLivezHandler mux checks := InstallPathHandler mux "/livez" checks.

(** ** Theorems *)

Context `{!StringSetsLaws sset}.

Definition excluded_names (r : R) : list string := default [] (query r !! "exclude").

Lemma getExcludedChecks_Has r x : sets_Has (getExcludedChecks r) x = bool_decide (x ∈ excluded_names r).
Proof. unfold getExcludedChecks, excluded_names. destruct (query r !! "exclude"); apply sets_Has_NewString. Qed.

(** Running a list of checks one after the other, whatever they return. *)
Fixpoint run_all (r : R) (checks : list (HealthChecker R S)) : ST S (list (option error)) :=
  match checks with
  | [] => mret []
  | c :: cs => e ← hc_Check c r; es ← run_all r cs; mret (e :: es)
  end.

(** The names of the checks that failed. *)
Definition failures (checks : list (HealthChecker R S)) (es : list (option error)) : list string :=
  omap (λ ce, (λ _, hc_Name ce.1) <$> ce.2) (zip checks es).

Lemma check_loop_spec r (excl : list string) checks p s :
  NoDup (checkerNames checks) →
  (∀ c, c ∈ checks → sets_Has (pr_excluded p) (hc_Name c) = bool_decide (hc_Name c ∈ excl)) →
  let run := filter (λ c, hc_Name c ∉ excl) checks in
  let '(es, s') := run_all r run s in
  ∃ p', check_loop r checks p s = (p', s') ∧
    pr_failed p' = pr_failed p ++ failures run es ∧ length es = length run.
Proof.
  revert p s. induction checks as [|c cs IH]; intros p s Hnd Hex; cbv zeta.
  { cbn. exists p. by rewrite app_nil_r. }
  unfold checkerNames in *. rewrite fmap_cons in Hnd. apply NoDup_cons in Hnd as [Hc Hnd].
  rewrite filter_cons. cbn [check_loop]. unfold check_step, mbind, ST_bind, mret, ST_ret. rewrite Hex by left.
  destruct (decide (hc_Name c ∈ excl)) as [Hin|Hin]; [rewrite bool_decide_eq_true_2, decide_False by tauto|
    rewrite bool_decide_eq_false_2, decide_True by done]; cbn [run_all].
  - match goal with |- context [check_loop r cs ?p1 s] => apply (IH p1 s Hnd) end.
    intros c' Hc'. cbn. rewrite sets_Has_Delete, Hex by by right.
    rewrite (bool_decide_eq_false_2 (hc_Name c' ∈ [_])); [by rewrite andb_true_r|].
    rewrite list_elem_of_singleton. intros E. apply Hc. rewrite <- E. by apply (list_elem_of_fmap_2 hc_Name).
  - unfold mbind, ST_bind. destruct (hc_Check c r s) as [err s1].
    assert (Hp : ∀ p1, pr_excluded p1 = pr_excluded p →
      ∀ c', c' ∈ cs → sets_Has (pr_excluded p1) (hc_Name c') = bool_decide (hc_Name c' ∈ excl)).
    { intros p1 -> c' Hc'. apply Hex. by right. }
    destruct err as [e|]; cbv beta iota.
    + match goal with |- context [check_loop r cs ?p1 s1] => specialize (IH p1 s1 Hnd (Hp p1 eq_refl)) end.
      destruct (run_all r _ s1) as [es s']. destruct IH as (p' & -> & Hf & Hl). exists p'. split; [done|].
      rewrite Hf. unfold failures. cbn. split; [by rewrite <- app_assoc|by rewrite Hl].
    + match goal with |- context [check_loop r cs ?p1 s1] => specialize (IH p1 s1 Hnd (Hp p1 eq_refl)) end.
      destruct (run_all r _ s1) as [es s']. destruct IH as (p' & -> & Hf & Hl). exists p'. split; [done|].
      rewrite Hf. unfold failures. cbn. split; [done|by rewrite Hl].
Qed.

(** The root handler runs, once each and in order, the checks whose names the request
    does not exclude, and answers 500 exactly when one of them failed. *)
Theorem handleRootHealth_spec name checks r s :
  NoDup (checkerNames checks) →
  let run := filter (λ c, hc_Name c ∉ excluded_names r) checks in
  let '(es, s') := run_all r run s in
  ∃ resp, handleRootHealth name checks r s = (resp, s') ∧ length es = length run ∧
    (hr_Code resp = 500%Z ∧ Exists is_Some es ∨ hr_Code resp = 200%Z ∧ Forall (λ e, e = None) es ∧
       (query r !! "verbose" = None → hr_Body resp = "ok")).
Proof.
  intros Hnd. cbv zeta.
  pose proof (check_loop_spec r (excluded_names r) checks
    {| pr_excluded := getExcludedChecks r; pr_output := ""; pr_failed := [] |} s Hnd) as Hl. cbv zeta in Hl.
  specialize (Hl (λ c _, getExcludedChecks_Has r (hc_Name c))).
  destruct (run_all r _ s) as [es s']. destruct Hl as (p' & Heq & Hf & Hlen). cbn in Hf.
  exists (root_answer name r p'). split; [by unfold handleRootHealth, mbind, ST_bind; rewrite Heq|]. split; [done|].
  assert (Hfail : pr_failed p' = [] ↔ Forall (λ e, e = None) es).
  { rewrite Hf. unfold failures. clear -Hlen. revert es Hlen.
    generalize (filter (λ c, hc_Name c ∉ excluded_names r) checks). intros l.
    induction l as [|c l IH]; intros [|e es] Hlen; [split; [constructor|done]|done|done|].
    rewrite Forall_cons, <- (IH es) by (cbn in Hlen; lia). destruct e; cbn; naive_solver. }
  unfold root_answer. destruct (pr_failed p') as [|f fs]; cbn.
  - right. split; [done|]. split; [by apply Hfail|]. intros Hv. by rewrite bool_decide_eq_true_2.
  - left. split; [done|]. destruct (decide (Exists is_Some es)) as [|Hn]; [done|]. exfalso.
    apply not_Exists_Forall in Hn; [|apply _]. assert (f :: fs = []) as E; [|done].
    apply Hfail. eapply Forall_impl; [exact Hn|]. intros [e|] He; [|done]. exfalso. apply He. by eexists.
Qed.

(** Why a check failed is not told: two runs in which the same checks fail, for
    whatever reasons, are answered alike. *)
Theorem health_reason_withheld name checks checks' r s :
  Forall2 (λ c c', hc_Name c = hc_Name c' ∧
    ∀ s, (hc_Check c r s).2 = (hc_Check c' r s).2 ∧ (is_Some (hc_Check c r s).1 ↔ is_Some (hc_Check c' r s).1))
    checks checks' →
  handleRootHealth name checks r s = handleRootHealth name checks' r s.
Proof.
  intros Hall. unfold handleRootHealth, mbind, ST_bind.
  generalize {| pr_excluded := getExcludedChecks r; pr_output := ""; pr_failed := [] |} as p. intros p.
  assert (Hl : check_loop r checks p s = check_loop r checks' p s); [|by rewrite Hl].
  revert p s. induction Hall as [|c c' cs cs' [Hn Hc] _ IH]; intros p s; [done|].
  cbn [check_loop]. unfold check_step, mbind, ST_bind, mret, ST_ret. rewrite Hn.
  destruct (sets_Has (pr_excluded p) (hc_Name c')); [apply IH|]. destruct (Hc s) as [Hs He].
  destruct (hc_Check c r s) as [e s1], (hc_Check c' r s) as [e' s1']. cbn in Hs, He. subst s1'.
  destruct e as [e|], e' as [e'|]; try apply IH.
  - exfalso. by destruct He as [[] _].
  - exfalso. by destruct He as [_ []].
Qed.

Lemma Handle_foldl_paths {X} (key : X → string) (val : X → Hdl) (l : list X) m :
  m_pathToHandler (foldl (λ m x, Handle http_NotFoundHandler m (key x) (val x) "") m l) =
  foldl (λ (g : gmap string Hdl) x, <[key x := val x]> g) (m_pathToHandler m) l.
Proof. revert m. induction l as [|x l IH]; intros m; [done|]. cbn [foldl]. by rewrite IH. Qed.

Lemma Handle_foldl_routes {X} (key : X → string) (val : X → Hdl) (l : list X) m :
  ph_pathToHandler (m_mux m) = m_pathToHandler m →
  let m' := foldl (λ m x, Handle http_NotFoundHandler m (key x) (val x) "") m l in
  ph_pathToHandler (m_mux m') = m_pathToHandler m'.
Proof. revert m. induction l as [|x l IH]; intros m Hm; [done|]. cbn [foldl]. by apply IH. Qed.

Lemma foldl_insert_lookup {X} (key : X → string) (val : X → Hdl) (l : list X) (g : gmap string Hdl) :
  (∀ p, p ∉ key <$> l → foldl (λ g x, <[key x := val x]> g) g l !! p = g !! p) ∧
  (NoDup (key <$> l) → ∀ x, x ∈ l → foldl (λ g x, <[key x := val x]> g) g l !! key x = Some (val x)).
Proof.
  revert g. induction l as [|y l IH]; intros g; [split; [done|by intros _ x ?%elem_of_nil]|].
  rewrite fmap_cons. cbn [foldl]. destruct (IH (<[key y := val y]> g)) as [IH1 IH2]. split.
  - intros p Hp. apply not_elem_of_cons in Hp as [Hne Hp]. rewrite IH1 by done. by rewrite lookup_insert_ne.
  - intros [Hy Hnd]%NoDup_cons x [->|Hx]%elem_of_cons; [|by apply IH2].
    rewrite IH1 by done. by rewrite lookup_insert_eq.
Qed.

Lemma sapp_inj_l s t u : s +:+ t = s +:+ u → t = u.
Proof. induction s as [|a s IH]; [done|]. rewrite !sapp_cons. intros E. apply IH. congruence. Qed.

(** Once installed, the path is served by the handler of all checks and the path of each
    check by that check's handler. *)
Theorem InstallPathHandler_serves mux path checks :
  checks ≠ [] → NoDup (checkerNames checks) →
  let m := InstallPathHandler mux path checks in
  ServeHTTP m path = wrap (handleRootHealth (default "" (head (Split (TrimPrefix path "/") "/"))) checks) ∧
  ∀ c, c ∈ checks → ServeHTTP m (path +:+ "/" +:+ hc_Name c) = wrap (adaptCheckToHandler (hc_Check c)).
Proof.
  intros Hne Hnd. cbv zeta. unfold InstallPathHandler.
  destruct (Nat.eqb_spec (length checks) 0) as [E|_]; [by apply nil_length_inv in E|].
  set (key := λ c : HealthChecker R S, path +:+ "/" +:+ hc_Name c).
  set (val := λ c : HealthChecker R S, wrap (adaptCheckToHandler (hc_Check c))).
  set (m0 := Handle http_NotFoundHandler mux path _ "").
  pose proof (Handle_foldl_routes key val checks m0 eq_refl) as Hroutes. cbv zeta in Hroutes.
  unfold ServeHTTP, pathHandler_ServeHTTP.
  change (foldl _ m0 checks) with (foldl (λ m x, Handle http_NotFoundHandler m (key x) (val x) "") m0 checks).
  rewrite Hroutes, (Handle_foldl_paths key val).
  destruct (foldl_insert_lookup key val checks (m_pathToHandler m0)) as [Hother Hown].
  assert (Hkeys : NoDup (key <$> checks)).
  { replace (key <$> checks) with ((λ n, path +:+ "/" +:+ n) <$> checkerNames checks)
      by (unfold checkerNames; by rewrite <- list_fmap_compose).
    apply NoDup_fmap_2; [|done]. intros a b Hab. by do 2 apply sapp_inj_l in Hab. }
  split; [|intros c Hc; change (path +:+ "/" +:+ hc_Name c) with (key c); by rewrite (Hown Hkeys c Hc)].
  rewrite Hother; [unfold m0; cbn; by rewrite lookup_insert_eq|].
  intros (c & Hc & _)%list_elem_of_fmap. apply (f_equal slen) in Hc. unfold key in Hc. rewrite !slen_app in Hc. cbn in Hc. lia.
Qed.
End healthz.

(** The log check passes as long as the log was flushed less than two minutes ago,
    counting from the first check. *)
Theorem log_Check_spec now last :
  log_Check now last =
  (match last with
   | None => None
   | Some t => if decide (now < t + 120000000000)%Z then None else Some (Errorf "logging blocked" [])
   end, Some (default now last)).
Proof.
  unfold log_Check. destruct last as [t|]; cbn.
  - destruct (Z.ltb_spec (now - t) 120000000000); case_decide; (done || lia).
  - by rewrite Z.sub_diag.
Qed.

(** ** Examples *)

Module HealthzExamples.
#[local] Existing Instance golib_sets_model.
#[local] Existing Instance golib_sets_model_laws.

Definition bad : HealthChecker (gmap string (list string)) unit := NamedCheck "etcd" (λ _, mret (Some (Errorf "secret" []))).
Definition checks := [PingHealthz; bad].
Definition root := handleRootHealth (sset := gset string) id id "healthz" checks.

Example root_fails : hr_Code (root ∅ tt).1 = 500%Z.
Proof. vm_compute. reflexivity. Qed.
Example root_excluded : (root {[ "exclude" := ["etcd"] ]} tt).1 =
  {| hr_Code := 200; hr_ContentType := "text/plain; charset=utf-8"; hr_NoSniff := true; hr_Body := "ok" |}.
Proof. vm_compute. reflexivity. Qed.

Lemma names_NoDup : NoDup (checkerNames checks).
Proof. apply (bool_decide_unpack _). vm_compute. exact I. Qed.

Lemma handleRootHealth_spec_witness :
  ∃ resp, root {[ "exclude" := ["etcd"] ]} tt = (resp, tt) ∧ hr_Code resp = 200%Z.
Proof.
  pose proof (handleRootHealth_spec (sset := gset string) id id "healthz" checks {[ "exclude" := ["etcd"] ]} tt names_NoDup) as Hs.
  vm_compute in Hs. destruct Hs as (resp & Heq & _ & [[_ Hex]|[Hc _]]).
  - exfalso. inversion Hex as [? ? He|? ? He]; subst; [by destruct He|by inversion He].
  - exists resp. split; [|exact Hc]. rewrite <- Heq. vm_compute. reflexivity.
Defined.

Definition worse : HealthChecker (gmap string (list string)) unit := NamedCheck "etcd" (λ _, mret (Some (Errorf "other" []))).

Lemma health_reason_withheld_witness :
  root ∅ tt = handleRootHealth (sset := gset string) id id "healthz" [PingHealthz; worse] ∅ tt.
Proof.
  apply (health_reason_withheld (sset := gset string) id id "healthz" checks [PingHealthz; worse]).
  constructor; [by split|]. constructor; [|constructor]. split; [done|]. intros s. split; [done|]. split; by eexists.
Defined.

Definition not_found : health_handler (R := gmap string (list string)) (S := unit) := λ _, mret (http_Error "not found" 404).

Lemma InstallPathHandler_serves_witness :
  let m := InstallPathHandler (sset := gset string) id id (λ _, "") id not_found (NewPathRecorderMux not_found) "/healthz" checks in
  ServeHTTP m "/healthz" = root ∧ hr_Code (ServeHTTP m "/healthz/etcd" ∅ tt).1 = 500%Z.
Proof.
  intros m. destruct (InstallPathHandler_serves (sset := gset string) id id (λ _, "") id not_found (NewPathRecorderMux not_found)
    "/healthz" checks) as [Hroot Hone]; [done|exact names_NoDup|].
  split; [exact Hroot|]. pose proof (Hone bad) as Hb. change ("/healthz" +:+ "/" +:+ hc_Name bad) with "/healthz/etcd" in Hb.
  unfold m. rewrite Hb; [reflexivity|by right; left].
Defined.
End HealthzExamples.
