(* ===== verification/Oidc.v ===== *)
(** * OpenID Connect tokens

    src/plugin/authenticator/token/oidc/oidc.go: the construction of the authenticator,
    the untrusted issuer of a token, distributed claims, and AuthenticateToken.

    A raw JSON value is a [J] with encoding/json's decoders; a verifier of the go-oidc
    package is a [V]; the network is a state [N].  Initialisation of the verifiers is
    asynchronous: [initialised iss] says which verifier, if any, has been set up for
    an issuer by the time it is asked for. *)

From S2P Require Import Prelude GoStrings GoEncoding Authorizer Authn.

Local Open Scope go_scope.

(** ** Options *)

Record Options := {
  op_IssuerURL : string;
  op_ClientID : string;
  op_CAFile : string;
  op_UsernameClaim : string;
  op_UsernamePrefix : string;
  op_GroupsClaim : string;
  op_GroupsPrefix : string;
  op_SupportedSigningAlgs : list string;
  op_RequiredClaims : gmap string string;
}.

Record Authenticator := {
  oa_issuerURL : string;
  oa_usernameClaim : string;
  oa_usernamePrefix : string;
  oa_groupsClaim : string;
  oa_groupsPrefix : string;
  oa_requiredClaims : gmap string string;
  oa_resolver : option string;        (* the claim of the claimResolver *)
}.

(** oidc.Config: the client and the signing algorithms of a verifier. *)
Record verifierConfig := { vc_ClientID : string; vc_SupportedSigningAlgs : list string }.

Definition allowedSigningAlgs : list string :=
  ["RS256"; "RS384"; "RS512"; "ES256"; "ES384"; "ES512"; "PS256"; "PS384"; "PS512"].

Fixpoint check_algs (algs : list string) : option error :=
  match algs with
  | [] => None
  | alg :: algs =>
      if bool_decide (alg ∈ allowedSigningAlgs) then check_algs algs
      else Some (Errorf "oidc: unsupported signing alg: %q" [alg])
  end.

(** [NewPool] reads the CA file. *)
Definition newAuthenticator (NewPool : string → option error) (opts : Options) : (Authenticator * verifierConfig) + error :=
  if op_UsernameClaim opts == "" then inr (Errorf "no username claim provided" [])
  else
    let supportedSigningAlgs :=
      if length (op_SupportedSigningAlgs opts) =? 0 then ["RS256"] else op_SupportedSigningAlgs opts in
    match check_algs supportedSigningAlgs with
    | Some err => inr err
    | None =>
        match (if op_CAFile opts != "" then NewPool (op_CAFile opts) else None) with
        | Some err => inr (ErrorWrap "Failed to read the CA file: %v" [] err)
        | None =>
            inl ({| oa_issuerURL := op_IssuerURL opts; oa_usernameClaim := op_UsernameClaim opts;
                    oa_usernamePrefix := op_UsernamePrefix opts; oa_groupsClaim := op_GroupsClaim opts;
                    oa_groupsPrefix := op_GroupsPrefix opts; oa_requiredClaims := op_RequiredClaims opts;
                    oa_resolver := if op_GroupsClaim opts != "" then Some (op_GroupsClaim opts) else None |},
                 {| vc_ClientID := op_ClientID opts; vc_SupportedSigningAlgs := supportedSigningAlgs |})
        end
    end.

Definition Available (a : Authenticator) : bool := 0 <? slen (oa_issuerURL a).

(** *** The module's configuration (register/oidc.go) *)

Record config := {
  cf_CAFile : string; cf_ClientID : string; cf_IssuerURL : string; cf_UsernameClaim : string;
  cf_UsernamePrefix : string; cf_GroupsClaim : string; cf_GroupsPrefix : string;
  cf_SigningAlgs : list string; cf_RequiredClaims : gmap string string;
}.

Definition noUsernamePrefix : string := "-".

(** Validate also completes the username prefix. *)
Definition config_Validate (o : config) : config + error :=
  if negb (bool_decide ((0 <? slen (cf_IssuerURL o)) = (0 <? slen (cf_ClientID o))))
  then inr (Errorf "oidc-issuer-url and oidc-client-id should be specified together" [])
  else
    let prefix := cf_UsernamePrefix o in
    let prefix := if (prefix == "") && (cf_UsernameClaim o != "email") then cf_IssuerURL o +:+ "#" else prefix in
    let prefix := if prefix == noUsernamePrefix then "" else prefix in
    inl {| cf_CAFile := cf_CAFile o; cf_ClientID := cf_ClientID o; cf_IssuerURL := cf_IssuerURL o;
           cf_UsernameClaim := cf_UsernameClaim o; cf_UsernamePrefix := prefix; cf_GroupsClaim := cf_GroupsClaim o;
           cf_GroupsPrefix := cf_GroupsPrefix o; cf_SigningAlgs := cf_SigningAlgs o;
           cf_RequiredClaims := cf_RequiredClaims o |}.

(** The factory, on the configuration that ReadConfig returns. *)
Definition factory (NewPool : string → option error) (cf : config) : option (Authenticator * verifierConfig) + error :=
  if slen (cf_IssuerURL cf) =? 0 then inl None
  else
    match newAuthenticator NewPool
      {| op_IssuerURL := cf_IssuerURL cf; op_ClientID := cf_ClientID cf; op_CAFile := cf_CAFile cf;
         op_UsernameClaim := cf_UsernameClaim cf; op_UsernamePrefix := cf_UsernamePrefix cf;
         op_GroupsClaim := cf_GroupsClaim cf; op_GroupsPrefix := cf_GroupsPrefix cf;
         op_SupportedSigningAlgs := cf_SigningAlgs cf; op_RequiredClaims := cf_RequiredClaims cf |} with
    | inl a => inl (Some a)
    | inr err => inr err
    end.

(** ** Tokens *)

Record endpoint := { ep_URL : string; ep_AccessToken : string; ep_JWT : string }.

Section Oidc.
Context {J V IDToken N : Type}.
Context (json_issuer : string → string + error).
Context (json_string : J → string + error) (json_strings : J → list string + error) (json_bool : J → bool + error).
Context (json_names : J → gmap string string + error) (json_sources : J → gmap string endpoint + error).
(** go-oidc: verifying a token with a verifier, and the claims of a verified token. *)
Context (Verify : V → string → ST N (IDToken + error)) (Claims : IDToken → gmap string J + error).
(** http.NewRequest and client.Do: the URL and the Authorization header give a status
    code and a body. *)
Context (Do : string → option string → ST N ((Z * (string + error)) + error)).
Context (initialised : string → ST N (option V)).

Abbreviation claims := (gmap string J).

Definition untrustedIssuer (token : string) : string + error :=
  match Split token "." with
  | [_; payload; _] =>
      match RawURLEncoding_DecodeString payload with
      | None => inr (Errorf "error decoding token: %v" [])
      | Some payload =>
          match json_issuer payload with
          | inr err => inr (ErrorWrap "while unmarshaling token: %v" [] err)
          | inl issuer => inl (if issuer == "accounts.google.com" then "https://accounts.google.com" else issuer)
          end
      end
  | _ => inr (Errorf "malformed token" [])
  end.

Definition hasCorrectIssuer (iss tokenData : string) : bool :=
  match untrustedIssuer tokenData with
  | inr _ => false
  | inl uiss => uiss == iss
  end.

(** ** Claims *)

Definition unmarshalClaim {A} (decode : J → A + error) (c : claims) (name : string) : A + error :=
  match c !! name with
  | None => inr (Errorf "claim not present" [])
  | Some val => decode val
  end.

Definition hasClaim (c : claims) (name : string) : bool := bool_decide (is_Some (c !! name)).

Definition stringOrArray_UnmarshalJSON (b : J) : list string + error :=
  match json_strings b with
  | inl a => inl a
  | inr _ => match json_string b with inl str => inl [str] | inr err => inr err end
  end.

(** ** Distributed claims *)

(** The verifiers of the claimResolver: [None] is one not initialised yet. *)
Record oidc_state := {
  os_verifier : option V;
  os_verifierPerIssuer : gmap string (option V);
  os_net : N;
}.

Definition set_net (s : oidc_state) (n : N) : oidc_state :=
  {| os_verifier := os_verifier s; os_verifierPerIssuer := os_verifierPerIssuer s; os_net := n |}.

Definition on_net {A} (m : ST N A) : ST oidc_state A := λ s,
  let '(a, n) := m (os_net s) in (a, set_net s n).

Definition Verifier (iss : string) : ST oidc_state (V + error) := λ s,
  match os_verifierPerIssuer s !! iss with
  | Some (Some v) => (inl v, s)
  | _ =>
      let '(v, n) := initialised iss (os_net s) in
      let s := {| os_verifier := os_verifier s; os_verifierPerIssuer := <[iss := v]> (os_verifierPerIssuer s);
                  os_net := n |} in
      (match v with
       | Some v => inl v
       | None => inr (Errorf "verifier not initialized for issuer: %q" [iss])
       end, s)
  end.

Definition getClaimJWT (url accessToken : string) : ST N (string + error) :=
  response ← Do url (if accessToken != "" then Some ("Bearer " +:+ accessToken) else None);
  mret (match response with
        | inr err => inr err
        | inl (code, body) =>
            if (code <? 200)%Z || (226 <? code)%Z
            then inr (Errorf "error while getting distributed claim JWT: %v" [])
            else match body with
                 | inr _ => inr (Errorf "could not decode distributed claim response" [])
                 | inl bytes => inl bytes
                 end
        end).

Definition resolve (claim : string) (ep : endpoint) (allClaims : claims) : ST oidc_state (claims + error) :=
  jwt ← on_net (getClaimJWT (ep_URL ep) (ep_AccessToken ep));
  match jwt with
  | inr err => mret (inr (ErrorWrap "while getting distributed claim %q: %v" [claim] err))
  | inl jwt =>
      match untrustedIssuer jwt with
      | inr err => mret (inr (ErrorWrap "getting untrusted issuer from endpoint %v failed for claim %q: %v" [ep_URL ep; claim] err))
      | inl untrustedIss =>
          v ← Verifier untrustedIss;
          match v with
          | inr err => mret (inr (ErrorWrap "verifying untrusted issuer %v failed: %v" [untrustedIss] err))
          | inl v =>
              t ← on_net (Verify v jwt);
              match t with
              | inr err => mret (inr (ErrorWrap "verify distributed claim token: %v" [] err))
              | inl t =>
                  match Claims t with
                  | inr err => mret (inr (ErrorWrap "could not parse distributed claims for claim %v: %v" [claim] err))
                  | inl distClaims =>
                      match distClaims !! claim with
                      | None => mret (inr (Errorf "jwt returned by distributed claim endpoint %s did not contain claim: %v" [ep_URL ep; claim]))
                      | Some value => mret (inl (<[claim := value]> allClaims))
                      end
                  end
              end
          end
      end
  end.

(** The source of a distributed claim: none to resolve, or an endpoint. *)
Definition claim_endpoint (claim : string) (c : claims) : option endpoint + error :=
  if hasClaim c claim then inl None
  else match c !! "_claim_names" with
  | None => inl None
  | Some names =>
      match json_names names with
      | inr err => inr (ErrorWrap "oidc: error parsing distributed claim names: %v" [] err)
      | inl claimToSource =>
          match c !! "_claim_sources" with
          | None => inr (Errorf "oidc: no claim sources" [])
          | Some rawSources =>
              match json_sources rawSources with
              | inr err => inr (ErrorWrap "oidc: could not parse claim sources: %v" [] err)
              | inl sources =>
                  match claimToSource !! claim with
                  | None => inl None
                  | Some src =>
                      match sources !! src with
                      | None => inr (Errorf "id token _claim_names contained a source %s missing in _claims_sources" [src])
                      | Some ep => if ep_URL ep == "" then inl None else inl (Some ep)
                      end
                  end
              end
          end
      end
  end.

Definition expand (claim : string) (c : claims) : ST oidc_state (claims + error) :=
  match claim_endpoint claim c with
  | inr err => mret (inr err)
  | inl None => mret (inl c)
  | inl (Some ep) => resolve claim ep c
  end.

(** ** AuthenticateToken *)

(** The required claims, visited in any order of the map. *)
Fixpoint check_required (c : claims) (required : list (string * string)) : option error :=
  match required with
  | [] => None
  | (claim, value) :: required =>
      if negb (hasClaim c claim) then Some (Errorf "oidc: required claim %s not present in ID token" [claim])
      else match unmarshalClaim json_string c claim with
           | inr err => Some (ErrorWrap "oidc: parse claim %s: %v" [claim] err)
           | inl claimValue =>
               if claimValue != value
               then Some (Errorf "oidc: required claim %s value does not match. Got = %s, want = %s" [claim; claimValue; value])
               else check_required c required
           end
  end.

Definition check_email (a : Authenticator) (c : claims) : option error :=
  if (oa_usernameClaim a == "email") && hasClaim c "email_verified" then
    match unmarshalClaim json_bool c "email_verified" with
    | inr err => Some (ErrorWrap "oidc: parse 'email_verified' claim: %v" [] err)
    | inl emailVerified => if emailVerified then None else Some (Errorf "oidc: email not verified" [])
    end
  else None.

Definition groups_of (a : Authenticator) (c : claims) : list string + error :=
  let groups :=
    if (oa_groupsClaim a != "") && hasClaim c (oa_groupsClaim a) then
      match unmarshalClaim stringOrArray_UnmarshalJSON c (oa_groupsClaim a) with
      | inr err => inr (ErrorWrap "oidc: parse groups claim %q: %v" [oa_groupsClaim a] err)
      | inl groups => inl groups
      end
    else inl [] in
  match groups with
  | inr err => inr err
  | inl groups => inl (if oa_groupsPrefix a != "" then String.append (oa_groupsPrefix a) <$> groups else groups)
  end.

(** What follows the expansion of the claims. *)
Definition user_of_claims (a : Authenticator) (required : list (string * string)) (c : claims) : DefaultInfo + error :=
  match unmarshalClaim json_string c (oa_usernameClaim a) with
  | inr err => inr (ErrorWrap "oidc: parse username claims %q: %v" [oa_usernameClaim a] err)
  | inl username =>
      match check_email a c with
      | Some err => inr err
      | None =>
          let username := if oa_usernamePrefix a != "" then oa_usernamePrefix a +:+ username else username in
          match groups_of a c with
          | inr err => inr err
          | inl groups =>
              match check_required c required with
              | Some err => inr err
              | None => inl {| u_Name := username; u_UID := ""; u_Groups := groups; u_Extra := ∅ |}
              end
          end
      end
  end.

(** The user, no opinion ([inr None]) or an error. *)
Definition authenticate_user (a : Authenticator) (required : list (string * string)) (token : string)
    : ST oidc_state (DefaultInfo + option error) :=
  if negb (hasCorrectIssuer (oa_issuerURL a) token) then mret (inr None)
  else λ s,
    match os_verifier s with
    | None => (inr (Some (Errorf "oidc: authenticator not initialized" [])), s)
    | Some verifier =>
        (idToken ← on_net (Verify verifier token);
         match idToken with
         | inr err => mret (inr (Some (ErrorWrap "oidc: verify token: %v" [] err)))
         | inl idToken =>
             match Claims idToken with
             | inr err => mret (inr (Some (ErrorWrap "oidc: parse claims: %v" [] err)))
             | inl c =>
                 expanded ← match oa_resolver a with None => mret (inl c) | Some claim => expand claim c end;
                 match expanded with
                 | inr err => mret (inr (Some (ErrorWrap "oidc: could not expand distributed claims: %v" [] err)))
                 | inl c =>
                     match user_of_claims a required c with
                     | inr err => mret (inr (Some err))
                     | inl info => mret (inl info)
                     end
                 end
             end
         end) s
    end.

Definition oidc_AuthenticateToken (a : Authenticator) (required : list (string * string)) : Token oidc_state :=
  λ ctx token w,
  let '(res, s) := authenticate_user a required token (w_state w) in
  let w := World (w_heap w) (w_header w) s in
  match res with
  | inl info => (l ← new_response {| resp_Audiences := []; resp_User := Some info |}; mret (Some l, true, None)) w
  | inr err => Ret ((None, false, err), w)
  end.

(** ** Theorems *)

(** A verifier that initialisation has produced for the issuer. *)
Definition made_for (iss : string) (v : V) : Prop := ∃ n n', initialised iss n = (Some v, n').

Definition verifiers_ok (s : oidc_state) : Prop :=
  ∀ iss v, os_verifierPerIssuer s !! iss = Some (Some v) → made_for iss v.

(** [value] comes from a token that a verifier of the token's own issuer accepted. *)
Definition vouched (claim : string) (value : J) : Prop :=
  ∃ jwt iss v n n' t dist, untrustedIssuer jwt = inl iss ∧ made_for iss v ∧
    Verify v jwt n = (inl t, n') ∧ Claims t = inl dist ∧ dist !! claim = Some value.

Lemma Verifier_ok iss s r s' :
  Verifier iss s = (r, s') → verifiers_ok s →
  verifiers_ok s' ∧ os_verifier s' = os_verifier s ∧ ∀ v, r = inl v → made_for iss v.
Proof.
  intros Hv Hok. unfold Verifier in Hv.
  destruct (os_verifierPerIssuer s !! iss) as [[v|]|] eqn:Hl;
    [simplify_eq; split_and!; [done|done|]; intros ? [= <-]; by apply Hok| |].
  all: destruct (initialised iss (os_net s)) as [v n] eqn:Hi; simplify_eq; cbn; split_and!; [|done|];
    [|intros v' Hr; destruct v as [v|]; simplify_eq; by exists (os_net s), n].
  all: intros iss' v' Hl'; cbn in Hl'; destruct (decide (iss' = iss)) as [->|Hne];
    [rewrite lookup_insert_eq in Hl'; simplify_eq; by exists (os_net s), n|].
  all: rewrite lookup_insert_ne in Hl' by done; by apply Hok.
Qed.

Lemma on_net_ok {A} (m : ST N A) s a s' :
  on_net m s = (a, s') → ∃ n', m (os_net s) = (a, n') ∧ s' = set_net s n'.
Proof. unfold on_net. destruct (m (os_net s)) as [b n]. intros. simplify_eq. by exists n. Qed.

Lemma resolve_spec claim ep c s r s' :
  resolve claim ep c s = (r, s') → verifiers_ok s →
  verifiers_ok s' ∧ os_verifier s' = os_verifier s ∧
  ∀ c', r = inl c' → ∃ value, vouched claim value ∧ c' = <[claim := value]> c.
Proof.
  unfold resolve, mbind, ST_bind, mret, ST_ret. intros Hr Hok.
  destruct (on_net (getClaimJWT _ _) s) as [jwt s1] eqn:H1. apply on_net_ok in H1 as (n1 & _ & ->).
  destruct jwt as [jwt|err]; [|by simplify_eq]. destruct (untrustedIssuer jwt) as [iss|err] eqn:Hiss; [|by simplify_eq].
  destruct (Verifier iss (set_net s n1)) as [v s2] eqn:Hv. apply Verifier_ok in Hv as (Hok2 & Hs2 & Hmade); [|exact Hok].
  destruct v as [v|err]; [|by simplify_eq]. specialize (Hmade v eq_refl).
  destruct (on_net (Verify v jwt) s2) as [t s3] eqn:Ht. apply on_net_ok in Ht as (n3 & Ht & ->).
  destruct t as [t|err]; [|by simplify_eq]. destruct (Claims t) as [dist|err] eqn:Hc; [|by simplify_eq].
  destruct (dist !! claim) as [value|] eqn:Hval; simplify_eq; [|done].
  split_and!; [done|done|]. intros c' [= <-]. exists value. split; [|done].
  by exists jwt, iss, v, (os_net s2), n3, t, dist.
Qed.

Lemma expand_spec claim c s r s' :
  expand claim c s = (r, s') → verifiers_ok s →
  verifiers_ok s' ∧ os_verifier s' = os_verifier s ∧
  ∀ c', r = inl c' → c' = c ∨ c !! claim = None ∧ ∃ value, vouched claim value ∧ c' = <[claim := value]> c.
Proof.
  unfold expand. intros Hr Hok. destruct (claim_endpoint claim c) as [[ep|]|err] eqn:He.
  - apply resolve_spec in Hr as (? & ? & Hv); [|done]. split_and!; [done|done|]. intros c' Hc. right.
    split; [|by apply Hv]. unfold claim_endpoint, hasClaim in He.
    destruct (c !! claim); [by rewrite bool_decide_eq_true_2 in He by by eexists|done].
  - unfold mret, ST_ret in Hr. injection Hr as <- <-. split_and!; [done|done|]. intros c' [= <-]. by left.
  - unfold mret, ST_ret in Hr. by injection Hr as <- <-.
Qed.

Lemma check_required_spec c required :
  check_required c required = None ↔ Forall (λ kv, ∃ j, c !! kv.1 = Some j ∧ json_string j = inl kv.2) required.
Proof.
  induction required as [|[k v] l IH]; cbn [check_required]; [by split|]. rewrite Forall_cons, <- IH. cbn.
  unfold hasClaim, unmarshalClaim. destruct (c !! k) as [j|] eqn:Hk.
  - rewrite bool_decide_eq_true_2 by by eexists. cbn. destruct (json_string j) as [x|err] eqn:Hj.
    + destruct (bool_decide_reflect (x = v)) as [->|Hne]; cbn; [naive_solver|]. split; [done|].
      intros [(j' & [= <-] & Hj') _]. congruence.
    + split; [done|]. intros [(j' & [= <-] & Hj') _]. congruence.
  - rewrite bool_decide_eq_false_2 by by intros []. cbn. split; [done|]. intros [(j' & ? & _) _]. done.
Qed.

(** What the claims must be for [user_of_claims] to give a user, and which. *)
Record claims_give (a : Authenticator) (c : claims) (u : DefaultInfo) : Prop := {
  cg_name : ∃ j username, c !! oa_usernameClaim a = Some j ∧ json_string j = inl username ∧
    u_Name u = oa_usernamePrefix a +:+ username;
  cg_email : oa_usernameClaim a = "email" → ∀ j, c !! "email_verified" = Some j → json_bool j = inl true;
  cg_groups : if decide (oa_groupsClaim a = "") then u_Groups u = []
    else match c !! oa_groupsClaim a with
         | None => u_Groups u = []
         | Some j => ∃ gs, stringOrArray_UnmarshalJSON j = inl gs ∧ u_Groups u = String.append (oa_groupsPrefix a) <$> gs
         end;
  cg_required : ∀ k v, oa_requiredClaims a !! k = Some v → ∃ j, c !! k = Some j ∧ json_string j = inl v;
}.

Lemma append_empty (l : list string) : String.append "" <$> l = l.
Proof. induction l as [|x l IH]; [done|]. rewrite fmap_cons, IH. done. Qed.

Lemma groups_of_spec a c gs :
  groups_of a c = inl gs →
  if decide (oa_groupsClaim a = "") then gs = []
  else match c !! oa_groupsClaim a with
       | None => gs = []
       | Some j => ∃ gs0, stringOrArray_UnmarshalJSON j = inl gs0 ∧ gs = String.append (oa_groupsPrefix a) <$> gs0
       end.
Proof.
  assert (Hp : ∀ l : list string, (if oa_groupsPrefix a != "" then String.append (oa_groupsPrefix a) <$> l else l) =
                    String.append (oa_groupsPrefix a) <$> l).
  { intros l. destruct (bool_decide_reflect (oa_groupsPrefix a = "")) as [->|]; [by rewrite append_empty|done]. }
  unfold groups_of, hasClaim, unmarshalClaim. destruct (bool_decide_reflect (oa_groupsClaim a = "")) as [Hg|Hg]; cbn [negb andb].
  - rewrite Hp, decide_True by done. by intros [= <-].
  - rewrite decide_False by done. destruct (c !! oa_groupsClaim a) as [j|].
    + rewrite bool_decide_eq_true_2 by by eexists. destruct (stringOrArray_UnmarshalJSON j) as [l|err]; [|done].
      rewrite Hp. intros. simplify_eq. by exists l.
    + rewrite bool_decide_eq_false_2 by by intros []. rewrite Hp. by intros [= <-].
Qed.

Lemma user_of_claims_spec a required c u :
  required ≡ₚ map_to_list (oa_requiredClaims a) →
  user_of_claims a required c = inl u → claims_give a c u.
Proof.
  intros Hreq Hu. unfold user_of_claims in Hu.
  destruct (unmarshalClaim json_string c (oa_usernameClaim a)) as [name|] eqn:Hn; [|done].
  destruct (check_email a c) eqn:He; [done|]. destruct (groups_of a c) as [gs|] eqn:Hg; [|done].
  destruct (check_required c required) eqn:Hr; [done|]. injection Hu as <-. split; cbn.
  - unfold unmarshalClaim in Hn. destruct (c !! oa_usernameClaim a) as [j|] eqn:Hj; [|done]. exists j, name. split_and!; [done|done|].
    by destruct (bool_decide_reflect (oa_usernamePrefix a = "")) as [->|].
  - intros Hem j Hj. unfold check_email, hasClaim, unmarshalClaim in He. rewrite Hem, Hj in He.
    rewrite !bool_decide_eq_true_2 in He by (done || by eexists). cbn in He. by destruct (json_bool j) as [[]|].
  - by apply groups_of_spec.
  - intros k v Hkv. apply check_required_spec in Hr. rewrite Forall_forall in Hr. apply (Hr (k, v)).
    rewrite Hreq. by apply elem_of_map_to_list.
Qed.

Lemma claims_give_prefix a c u :
  claims_give a c u →
  HasPrefix (u_Name u) (oa_usernamePrefix a) = true ∧ Forall (λ g, HasPrefix g (oa_groupsPrefix a) = true) (u_Groups u).
Proof.
  intros [(j & name & _ & _ & ->) _ Hg _]. split; [apply HasPrefix_app|].
  destruct (decide _); [by rewrite Hg|]. destruct (c !! _) as [j'|]; [|by rewrite Hg].
  destruct Hg as (gs & _ & ->). apply Forall_fmap, Forall_true. intros g. apply HasPrefix_app.
Qed.

(** C21: a token is accepted only if its issuer is the configured one, the verifier of that
    issuer accepted it, and its claims give the user: the username claim behind the
    configured prefix, a verified address when the claim is the email, every required
    claim with its value, and groups behind their prefix.  Only the groups claim may
    come from elsewhere: when the token lacks it, from a token that a verifier of that
    token's own issuer accepted.  So whatever the claims, user name and groups stay
    behind their prefixes.  The call never panics, and keeps each resolver
    verifier with the issuer it was made for. *)
Theorem oidc_sound a required ctx token w :
  required ≡ₚ map_to_list (oa_requiredClaims a) → verifiers_ok (w_state w) →
  ∃ resp ok err w', oidc_AuthenticateToken a required ctx token w = Ret ((resp, ok, err), w') ∧
    verifiers_ok (w_state w') ∧ os_verifier (w_state w') = os_verifier (w_state w) ∧
    (ok = false → resp = None ∧ w_heap w' = w_heap w) ∧
    (ok = true →
      ∃ verifier n t c c' u, untrustedIssuer token = inl (oa_issuerURL a) ∧
        os_verifier (w_state w) = Some verifier ∧ Verify verifier token (os_net (w_state w)) = (inl t, n) ∧
        Claims t = inl c ∧
        (c' = c ∨ ∃ claim value, oa_resolver a = Some claim ∧ c !! claim = None ∧ vouched claim value ∧
                                 c' = <[claim := value]> c) ∧
        claims_give a c' u ∧ HasPrefix (u_Name u) (oa_usernamePrefix a) = true ∧
        Forall (λ g, HasPrefix g (oa_groupsPrefix a) = true) (u_Groups u) ∧ err = None ∧ resp = Some (length (w_heap w)) ∧
        w_heap w' = w_heap w ++ [{| resp_Audiences := []; resp_User := Some u |}]).
Proof.
  intros Hreq Hok. unfold oidc_AuthenticateToken, authenticate_user, hasCorrectIssuer.
  destruct w as [heap header s]. cbn [w_heap w_header w_state] in *.
  destruct (untrustedIssuer token) as [iss|e] eqn:Hiss; [|by eexists _, _, _, _].
  destruct (bool_decide_reflect (iss = oa_issuerURL a)) as [->|]; [|by eexists _, _, _, _]. cbn [negb].
  destruct (os_verifier s) as [verifier|] eqn:Hv; [|eexists _, _, _, _; split; [reflexivity|]; by split_and!].
  unfold mbind, ST_bind, mret, ST_ret.
  destruct (on_net (Verify verifier token) s) as [t s1] eqn:Ht. apply on_net_ok in Ht as (n & Ht & ->).
  destruct t as [t|e]; [|by eexists _, _, _, _]. destruct (Claims t) as [c|e] eqn:Hc; [|by eexists _, _, _, _].
  destruct (match oa_resolver a with None => _ | Some _ => _ end) as [r s2] eqn:Hex.
  assert (verifiers_ok s2 ∧ os_verifier s2 = Some verifier ∧
    ∀ c', r = inl c' → c' = c ∨ ∃ claim value, oa_resolver a = Some claim ∧ c !! claim = None ∧ vouched claim value ∧
                                 c' = <[claim := value]> c) as (Hok2 & Hv2 & Hr).
  { destruct (oa_resolver a) as [claim|].
    - apply expand_spec in Hex as (? & Hs & Hr); [|exact Hok]. split_and!; [done|by rewrite Hs|]. intros c' Hc'.
      destruct (Hr c' Hc') as [->|(Hn & value & Hvo & ->)]; [by left|]. right. by exists claim, value.
    - simplify_eq. split_and!; [done|done|]. intros c' [= <-]. by left. }
  destruct r as [c'|e]; [|by eexists _, _, _, _]. specialize (Hr c' eq_refl).
  destruct (user_of_claims a required c') as [u|e] eqn:Hu; [|by eexists _, _, _, _].
  eexists _, _, _, _. cbn. split; [done|]. split_and!; [done|done|done|]. intros _.
  assert (Hg : claims_give a c' u) by by eapply user_of_claims_spec.
  exists verifier, n, t, c, c', u. split_and!; try done; by eapply claims_give_prefix.
Qed.

End Oidc.

(** ** Construction *)

Lemma check_algs_spec algs : check_algs algs = None ↔ Forall (λ alg, alg ∈ allowedSigningAlgs) algs.
Proof.
  induction algs as [|alg algs IH]; cbn [check_algs]; [by split|]. rewrite Forall_cons, <- IH.
  case_bool_decide; naive_solver.
Qed.

(** An authenticator is built exactly from options with a username claim, signing
    algorithms of the whitelist (RS256 if none is given) and a readable CA file.  The
    issuer's URL is not looked at: the flag promises that only https is accepted. *)
Theorem newAuthenticator_spec NewPool opts :
  (∃ a vc, newAuthenticator NewPool opts = inl (a, vc) ∧ oa_issuerURL a = op_IssuerURL opts ∧
     vc_SupportedSigningAlgs vc ≠ [] ∧ Forall (λ alg, alg ∈ allowedSigningAlgs) (vc_SupportedSigningAlgs vc) ∧
     (oa_resolver a = None ↔ oa_groupsClaim a = "")) ↔
  op_UsernameClaim opts ≠ "" ∧ Forall (λ alg, alg ∈ allowedSigningAlgs) (op_SupportedSigningAlgs opts) ∧
  (op_CAFile opts ≠ "" → NewPool (op_CAFile opts) = None).
Proof.
  unfold newAuthenticator. set (algs := if length (op_SupportedSigningAlgs opts) =? 0 then _ else _).
  assert (Halgs : algs ≠ [] ∧ (Forall (λ alg, alg ∈ allowedSigningAlgs) algs ↔
                   Forall (λ alg, alg ∈ allowedSigningAlgs) (op_SupportedSigningAlgs opts))).
  { unfold algs. destruct (op_SupportedSigningAlgs opts); cbn; [|done]. split; [done|]. split; [constructor|].
    intros _. constructor; [left|constructor]. }
  destruct Halgs as [Hne Halgs]. rewrite <- Halgs.
  destruct (bool_decide_reflect (op_UsernameClaim opts = "")) as [Hu|Hu]; [split; [by intros (? & ? & ? & _)|by intros [? _]]|].
  destruct (check_algs algs) as [err|] eqn:Hc.
  { split; [by intros (? & ? & ? & _)|]. intros (_ & Hf & _). apply check_algs_spec in Hf. congruence. }
  apply check_algs_spec in Hc.
  destruct (bool_decide_reflect (op_CAFile opts = "")) as [Hca|Hca]; cbn [negb];
    [|destruct (NewPool (op_CAFile opts)) as [err|] eqn:Hp].
  2:{ split; [by intros (? & ? & ? & _)|]. intros (_ & _ & Hx). by specialize (Hx Hca). }
  all: split; [intros _; by split_and!|intros _]; eexists _, _; (split; [reflexivity|]); cbn; split_and!; try done;
    destruct (bool_decide_reflect (op_GroupsClaim opts = "")) as [->|]; by cbn.
Qed.

(** The username prefix of a validated configuration: "-" asks for none; without one,
    claims other than the email are put behind the issuer. *)
Theorem config_Validate_prefix o o' :
  config_Validate o = inl o' →
  cf_UsernamePrefix o' =
  (if decide (cf_UsernamePrefix o = "-") then ""
   else if decide (cf_UsernamePrefix o = "" ∧ cf_UsernameClaim o ≠ "email") then cf_IssuerURL o +:+ "#"
   else cf_UsernamePrefix o) ∧
  (cf_IssuerURL o' = "" ↔ cf_ClientID o' = "").
Proof.
  unfold config_Validate. rewrite !slen_pos.
  destruct (bool_decide_reflect ((cf_IssuerURL o != "") = (cf_ClientID o != ""))) as [He|]; [|done]. cbn [negb].
  intros [= <-]. cbn. split.
  - unfold noUsernamePrefix. destruct (decide (cf_UsernamePrefix o = "-")) as [->|Hd]; [done|].
    destruct (bool_decide_reflect (cf_UsernamePrefix o = "")) as [->|Hp].
    + destruct (bool_decide_reflect (cf_UsernameClaim o = "email")) as [->|Hc]; cbn [negb andb].
      * by rewrite decide_False by naive_solver.
      * rewrite decide_True by done. rewrite bool_decide_eq_false_2; [done|].
        destruct (cf_IssuerURL o) as [|x [|y z]]; [done|intros [=]..].
    + cbn [andb]. rewrite decide_False by naive_solver. by rewrite bool_decide_eq_false_2.
  - destruct (bool_decide_reflect (cf_IssuerURL o = "")), (bool_decide_reflect (cf_ClientID o = "")); cbn in He; naive_solver.
Qed.

(** ** Examples *)

Module OidcExamples.
(** JSON values that are strings or lists of strings; a verifier accepts the tokens of
    its issuer; a token's claims are fixed. *)
Inductive json := JString (s : string) | JStrings (l : list string) | JBool (b : bool).
Definition json_string (j : json) : string + error := match j with JString s => inl s | _ => inr (Errorf "" []) end.
Definition json_strings (j : json) : list string + error := match j with JStrings l => inl l | _ => inr (Errorf "" []) end.
Definition json_bool (j : json) : bool + error := match j with JBool b => inl b | _ => inr (Errorf "" []) end.
Definition json_issuer (payload : string) : string + error := inl payload.
Definition no_json {A} (j : json) : A + error := inr (Errorf "" []).
Definition Verify (v : string) (token : string) : ST unit (gmap string json + error) := λ s,
  (inl {[ "sub" := JString "jane"; "groups" := JStrings ["system:masters"]; "hd" := JString "example.com" ]}, s).
Definition Do (url : string) (h : option string) : ST unit ((Z * (string + error)) + error) := λ s, (inr (Errorf "" []), s).
Definition initialised (iss : string) : ST unit (option string) := λ s, (Some iss, s).

Definition opts : Options :=
  {| op_IssuerURL := "https://idp"; op_ClientID := "api"; op_CAFile := ""; op_UsernameClaim := "sub";
     op_UsernamePrefix := "oidc:"; op_GroupsClaim := "groups"; op_GroupsPrefix := "oidc:";
     op_SupportedSigningAlgs := []; op_RequiredClaims := {[ "hd" := "example.com" ]} |}.

Definition auth : Authenticator :=
  match newAuthenticator (λ _, None) opts with
  | inl (a, _) => a
  | inr _ => {| oa_issuerURL := ""; oa_usernameClaim := ""; oa_usernamePrefix := ""; oa_groupsClaim := "";
                oa_groupsPrefix := ""; oa_requiredClaims := ∅; oa_resolver := None |}
  end.

Definition start : world (@oidc_state string unit) :=
  World [] ∅ {| os_verifier := Some "https://idp"; os_verifierPerIssuer := ∅; os_net := tt |}.

Definition token : string := "h." +:+ RawURLEncoding_EncodeToString "https://idp" +:+ ".s".

Definition authenticate_jane := oidc_AuthenticateToken json_issuer json_string json_strings json_bool no_json no_json
  Verify inl Do initialised auth [("hd", "example.com")] None token start.

Example accepted : (λ x, (x.1.1.2, u_Name <$> (w_heap x.2 !! 0 ≫= resp_User), u_Groups <$> (w_heap x.2 !! 0 ≫= resp_User)))
  <$> (match authenticate_jane with Ret x => Some x | Panic _ => None end) =
  Some (true, Some "oidc:jane", Some ["oidc:system:masters"]).
Proof. vm_compute. reflexivity. Qed.

Lemma oidc_sound_witness :
  ∃ w' u, authenticate_jane = Ret ((Some 0, true, None), w') ∧
    w_heap w' = [{| resp_Audiences := []; resp_User := Some u |}] ∧
    Forall (λ g, HasPrefix g "oidc:" = true) (u_Groups u).
Proof.
  destruct (oidc_sound json_issuer json_string json_strings json_bool no_json no_json Verify inl Do initialised auth
    [("hd", "example.com")] None token start) as (resp & ok & err & w' & Heq & _ & _ & _ & Hok).
  { vm_compute. reflexivity. }
  { intros iss v Hl. cbn in Hl. by rewrite lookup_empty in Hl. }
  assert (Hb : ok = true).
  { pose proof accepted as Ha. unfold authenticate_jane in Ha. rewrite Heq in Ha. cbn in Ha. congruence. }
  destruct (Hok Hb) as (ver & n & t & c & c' & u & _ & _ & _ & _ & _ & _ & _ & Hg & -> & -> & Hw').
  exists w', u. subst ok. split; [exact Heq|]. split; [exact Hw'|exact Hg].
Defined.
End OidcExamples.
