(* ===== verification/RemoteCommand.v ===== *)
(** * Remote commands

    Models pkg/streaming/remotecommand: the options of a request, the four versions
    of the protocol that collects the client's streams (httpstream.go), the streams
    of a websocket (websocket.go), and ServeExec and ServeAttach.  Waiting for
    streams is a step relation: the loop, the goroutines that wait for the reply of
    each stream, the client and the timer.  The upgrade of the connection, the JSON
    of a status and the container runtime are parameters. *)

From S2P Require Import Prelude GoStrings GoEncoding Streams.

Local Open Scope go_scope.

(** ** Options *)

Record Options := { o_Stdin : bool; o_Stdout : bool; o_Stderr : bool; o_TTY : bool }.

Section NewOptions.
(** The names of golib's query parameters, and req.FormValue. *)
Context (ExecTTYParam ExecStdinParam ExecStdoutParam ExecStderrParam : string).
Context (FormValue : string → string).

Definition NewOptions : Options + error :=
  let tty := FormValue ExecTTYParam == "1" in
  let stdin := FormValue ExecStdinParam == "1" in
  let stdout := FormValue ExecStdoutParam == "1" in
  let stderr := FormValue ExecStderrParam == "1" in
  let stderr := if tty && stderr then false else stderr in
  if negb stdin && negb stdout && negb stderr then
    inr (Errorf "you must specify at least 1 of stdin, stdout, stderr" [])
  else inl {| o_Stdin := stdin; o_Stdout := stdout; o_Stderr := stderr; o_TTY := tty |}.

(** What a session may ask for: at least one stream, and no separate standard error
    on a terminal. *)
Definition opts_ok (o : Options) : Prop :=
  (o_Stdin o || o_Stdout o || o_Stderr o = true) ∧ (o_TTY o && o_Stderr o = false).

Lemma NewOptions_ok o : NewOptions = inl o → opts_ok o.
Proof.
  unfold NewOptions, opts_ok.
  destruct (FormValue ExecTTYParam == "1"), (FormValue ExecStdinParam == "1"),
    (FormValue ExecStdoutParam == "1"), (FormValue ExecStderrParam == "1"); cbn; intros [= <-]; done.
Qed.
End NewOptions.

(** ** The context of a session

    [A] is the type of its streams.  [V1Status] and [V4Status] are the closures that
    v1WriteStatusFunc and v4WriteStatusFunc return. *)

Inductive statusWriter (A : Type) := V1Status (stream : A) | V4Status (stream : A).
Arguments V1Status {A} _.
Arguments V4Status {A} _.

Record context (A : Type) := {
  ctx_stdinStream : option A;
  ctx_stdoutStream : option A;
  ctx_stderrStream : option A;
  ctx_writeStatus : option (statusWriter A);
  ctx_resizeStream : option A;
  ctx_tty : bool;
}.
Arguments ctx_stdinStream {A} _.
Arguments ctx_stdoutStream {A} _.
Arguments ctx_stderrStream {A} _.
Arguments ctx_writeStatus {A} _.
Arguments ctx_resizeStream {A} _.
Arguments ctx_tty {A} _.

Definition context_zero {A} : context A :=
  {| ctx_stdinStream := None; ctx_stdoutStream := None; ctx_stderrStream := None; ctx_writeStatus := None;
     ctx_resizeStream := None; ctx_tty := false |}.

Section fields.
Context {A : Type}.
Implicit Types (c : context A).

Definition set_stdin c (s : A) : context A :=
  {| ctx_stdinStream := Some s; ctx_stdoutStream := ctx_stdoutStream c; ctx_stderrStream := ctx_stderrStream c;
     ctx_writeStatus := ctx_writeStatus c; ctx_resizeStream := ctx_resizeStream c; ctx_tty := ctx_tty c |}.
Definition set_stdout c (s : A) : context A :=
  {| ctx_stdinStream := ctx_stdinStream c; ctx_stdoutStream := Some s; ctx_stderrStream := ctx_stderrStream c;
     ctx_writeStatus := ctx_writeStatus c; ctx_resizeStream := ctx_resizeStream c; ctx_tty := ctx_tty c |}.
Definition set_stderr c (s : A) : context A :=
  {| ctx_stdinStream := ctx_stdinStream c; ctx_stdoutStream := ctx_stdoutStream c; ctx_stderrStream := Some s;
     ctx_writeStatus := ctx_writeStatus c; ctx_resizeStream := ctx_resizeStream c; ctx_tty := ctx_tty c |}.
Definition set_writeStatus c (w : statusWriter A) : context A :=
  {| ctx_stdinStream := ctx_stdinStream c; ctx_stdoutStream := ctx_stdoutStream c;
     ctx_stderrStream := ctx_stderrStream c; ctx_writeStatus := Some w; ctx_resizeStream := ctx_resizeStream c;
     ctx_tty := ctx_tty c |}.
Definition set_resize c (s : A) : context A :=
  {| ctx_stdinStream := ctx_stdinStream c; ctx_stdoutStream := ctx_stdoutStream c;
     ctx_stderrStream := ctx_stderrStream c; ctx_writeStatus := ctx_writeStatus c; ctx_resizeStream := Some s;
     ctx_tty := ctx_tty c |}.
Definition set_tty c (tty : bool) : context A :=
  {| ctx_stdinStream := ctx_stdinStream c; ctx_stdoutStream := ctx_stdoutStream c;
     ctx_stderrStream := ctx_stderrStream c; ctx_writeStatus := ctx_writeStatus c;
     ctx_resizeStream := ctx_resizeStream c; ctx_tty := tty |}.
End fields.

(** ** The protocol handlers *)

Inductive protocolHandler := v1ProtocolHandler | v2ProtocolHandler | v3ProtocolHandler | v4ProtocolHandler.

Definition supportsTerminalResizing (h : protocolHandler) : bool :=
  match h with v1ProtocolHandler | v2ProtocolHandler => false | v3ProtocolHandler | v4ProtocolHandler => true end.

Section wait.
Context `{StreamConsts}.

(** The switch on the stream's type: the new context, or [None] in the default case,
    where the stream is only reported. *)
Definition v4_assign (c : context Stream) (s : Stream) : option (context Stream) :=
  let streamType := stream_type s in
  if streamType == StreamTypeError then Some (set_writeStatus c (V4Status s))
  else if streamType == StreamTypeStdin then Some (set_stdin c s)
  else if streamType == StreamTypeStdout then Some (set_stdout c s)
  else if streamType == StreamTypeStderr then Some (set_stderr c s)
  else if streamType == StreamTypeResize then Some (set_resize c s)
  else None.

Definition v3_assign (c : context Stream) (s : Stream) : option (context Stream) :=
  let streamType := stream_type s in
  if streamType == StreamTypeError then Some (set_writeStatus c (V1Status s))
  else if streamType == StreamTypeStdin then Some (set_stdin c s)
  else if streamType == StreamTypeStdout then Some (set_stdout c s)
  else if streamType == StreamTypeStderr then Some (set_stderr c s)
  else if streamType == StreamTypeResize then Some (set_resize c s)
  else None.

Definition v2_assign (c : context Stream) (s : Stream) : option (context Stream) :=
  let streamType := stream_type s in
  if streamType == StreamTypeError then Some (set_writeStatus c (V1Status s))
  else if streamType == StreamTypeStdin then Some (set_stdin c s)
  else if streamType == StreamTypeStdout then Some (set_stdout c s)
  else if streamType == StreamTypeStderr then Some (set_stderr c s)
  else None.

Definition v1_assign (c : context Stream) (s : Stream) : option (context Stream) :=
  let streamType := stream_type s in
  if streamType == StreamTypeError then Some (set_writeStatus c (V1Status s))
  else if streamType == StreamTypeStdin then Some (set_stdin c s)
  else if streamType == StreamTypeStdout then Some (set_stdout c s)
  else if streamType == StreamTypeStderr then Some (set_stderr c s)
  else None.

Definition assign (h : protocolHandler) : context Stream → Stream → option (context Stream) :=
  match h with
  | v1ProtocolHandler => v1_assign
  | v2ProtocolHandler => v2_assign
  | v3ProtocolHandler => v3_assign
  | v4ProtocolHandler => v4_assign
  end.

(** What v1 does to streams: it resets error streams when it returns, and closes
    the standard input of a session it completes. *)
Inductive effect := Reset (s : Stream) | CloseStream (s : Stream).

Definition deferred_resets (h : protocolHandler) (s : Stream) : list Stream :=
  match h with
  | v1ProtocolHandler => if stream_type s == StreamTypeError then [s] else []
  | _ => []
  end.

Definition close_stdin (h : protocolHandler) (c : context Stream) : list effect :=
  match h, ctx_stdinStream c with
  | v1ProtocolHandler, Some s => [CloseStream s]
  | _, _ => []
  end.

Definition timedOut : error := Errorf "timed out waiting for client to create streams" [].

(** waitForStreams and its goroutines.  [w_waiting] are the streams whose
    waitStreamReply is in its select, [w_notifying] counts those blocked on sending
    to replyChan, [w_deferred] are the deferred resets, latest first; [w_accepted]
    records the streams that were assigned. *)
Record wait := {
  w_ctx : context Stream;
  w_received : nat;
  w_waiting : list Stream;
  w_notifying : nat;
  w_deferred : list Stream;
  w_effects : list effect;
  w_accepted : list Stream;
  w_result : option (context Stream + error);
}.

Definition waitForStreams : wait :=
  {| w_ctx := context_zero; w_received := 0; w_waiting := []; w_notifying := 0; w_deferred := []; w_effects := [];
     w_accepted := []; w_result := None |}.

(** Returning runs the deferred functions. *)
Definition return_ (w : wait) (effects : list effect) (res : context Stream + error) : wait :=
  {| w_ctx := w_ctx w; w_received := w_received w; w_waiting := w_waiting w; w_notifying := w_notifying w;
     w_deferred := []; w_effects := w_effects w ++ effects ++ (Reset <$> w_deferred w);
     w_accepted := w_accepted w; w_result := Some res |}.

Definition accept (h : protocolHandler) (w : wait) (s : Stream) (c : context Stream) : wait :=
  {| w_ctx := c; w_received := w_received w; w_waiting := w_waiting w ++ [s]; w_notifying := w_notifying w;
     w_deferred := deferred_resets h s ++ w_deferred w; w_effects := w_effects w;
     w_accepted := w_accepted w ++ [s]; w_result := w_result w |}.

Definition set_waiting (w : wait) (waiting : list Stream) (notifying : nat) : wait :=
  {| w_ctx := w_ctx w; w_received := w_received w; w_waiting := waiting; w_notifying := notifying;
     w_deferred := w_deferred w; w_effects := w_effects w; w_accepted := w_accepted w; w_result := w_result w |}.

Definition set_received (w : wait) (n notifying : nat) : wait :=
  {| w_ctx := w_ctx w; w_received := n; w_waiting := w_waiting w; w_notifying := notifying;
     w_deferred := w_deferred w; w_effects := w_effects w; w_accepted := w_accepted w; w_result := w_result w |}.

(** waitStreamReply. *)
Inductive step_reply : wait → wait → Prop :=
  | reply_sent w l1 s l2 :
      w_waiting w = l1 ++ s :: l2 →
      step_reply w (set_waiting w (l1 ++ l2) (Datatypes.S (w_notifying w)))
  | reply_stop w l1 s l2 :
      w_result w ≠ None → w_waiting w = l1 ++ s :: l2 →
      step_reply w (set_waiting w (l1 ++ l2) (w_notifying w)).

(** The loop. *)
Inductive step_wait (h : protocolHandler) (expectedStreams : nat) : wait → wait → Prop :=
  | wait_stream w s c :
      w_result w = None → assign h (w_ctx w) s = Some c → step_wait h expectedStreams w (accept h w s c)
  | wait_unexpected w s :
      w_result w = None → assign h (w_ctx w) s = None → step_wait h expectedStreams w w
  | wait_reply w n :
      w_result w = None → w_notifying w = Datatypes.S n → Datatypes.S (w_received w) ≠ expectedStreams →
      step_wait h expectedStreams w (set_received w (Datatypes.S (w_received w)) n)
  | wait_last w n :
      w_result w = None → w_notifying w = Datatypes.S n → Datatypes.S (w_received w) = expectedStreams →
      step_wait h expectedStreams w
        (return_ (set_received w (Datatypes.S (w_received w)) n) (close_stdin h (w_ctx w)) (inl (w_ctx w)))
  | wait_expired w :
      w_result w = None → step_wait h expectedStreams w (return_ w [] (inr timedOut)).

Definition step (h : protocolHandler) (expectedStreams : nat) (w w' : wait) : Prop :=
  step_wait h expectedStreams w w' ∨ step_reply w w'.

(** ** The streams a session expects *)

Definition expectedStreams (o : Options) (h : protocolHandler) : nat :=
  1 + (if o_Stdin o then 1 else 0) + (if o_Stdout o then 1 else 0) + (if o_Stderr o then 1 else 0) +
  (if o_TTY o && supportsTerminalResizing h then 1 else 0).

(** Their types. *)
Definition requested (o : Options) (h : protocolHandler) : list string :=
  [StreamTypeError] ++ (if o_Stdin o then [StreamTypeStdin] else []) ++ (if o_Stdout o then [StreamTypeStdout] else []) ++
  (if o_Stderr o then [StreamTypeStderr] else []) ++
  (if o_TTY o && supportsTerminalResizing h then [StreamTypeResize] else []).

(** The stream a context holds for a type. *)
Definition writer_stream {A} (w : statusWriter A) : A := match w with V1Status s | V4Status s => s end.

Definition stream_for {A} (c : context A) (ty : string) : option A :=
  if ty == StreamTypeError then writer_stream <$> ctx_writeStatus c
  else if ty == StreamTypeStdin then ctx_stdinStream c
  else if ty == StreamTypeStdout then ctx_stdoutStream c
  else if ty == StreamTypeStderr then ctx_stderrStream c
  else if ty == StreamTypeResize then ctx_resizeStream c
  else None.
End wait.

(** ** Creating the streams *)

Section create.
Context `{StreamConsts}.

(** golib's names of the protocols. *)
Context (StreamProtocolV1Name StreamProtocolV2Name StreamProtocolV3Name StreamProtocolV4Name : string).

(** The switch on the protocol; [None] is the nil handler of an unknown one. *)
Definition handler_of (protocol : string) : option protocolHandler :=
  if protocol == StreamProtocolV4Name then Some v4ProtocolHandler
  else if protocol == StreamProtocolV3Name then Some v3ProtocolHandler
  else if protocol == StreamProtocolV2Name then Some v2ProtocolHandler
  else if (protocol == "") || (protocol == StreamProtocolV1Name) then Some v1ProtocolHandler
  else None.

(** [handshake] and [upgraded] are the results of httpstream.Handshake and of
    UpgradeResponse, [waited] that of waitForStreams.  The first component is the
    status answered, if any. *)
Definition createHTTPStreamStreams (handshake : string + error) (upgraded : bool) (opts : Options)
    (waited : protocolHandler → nat → context Stream + error) : outcome (option Z * option (context Stream)) :=
  match handshake with
  | inr _ => Ret (Some 400%Z, None)
  | inl protocol =>
      if negb upgraded then Ret (None, None)
      else match handler_of protocol with
      | None => Panic "invalid memory address or nil pointer dereference"
      | Some handler =>
          match waited handler (expectedStreams opts handler) with
          | inr _ => Ret (None, None)
          | inl ctx => Ret (None, Some (set_tty ctx (o_TTY opts)))
          end
      end
  end.

(** *** Websockets *)

Inductive ChannelType := ReadChannel | WriteChannel | ReadWriteChannel | IgnoreChannel.

Definition readChannel (real : bool) : ChannelType := if real then ReadChannel else IgnoreChannel.
Definition writeChannel (real : bool) : ChannelType := if real then WriteChannel else IgnoreChannel.

Definition stdinChannel : nat := 0.
Definition stdoutChannel : nat := 1.
Definition stderrChannel : nat := 2.
Definition errorChannel : nat := 3.
Definition resizeChannel : nat := 4.

Definition createChannels (opts : Options) : list ChannelType :=
  [readChannel (o_Stdin opts); writeChannel (o_Stdout opts); writeChannel (o_Stderr opts); WriteChannel; ReadChannel].

Context {W : Type}.

(** wsstream's Open, which negotiates the protocol and returns the streams; its two
    names of the v4 protocols.  The first component is the stream that is sent the
    empty message. *)
Context (Open : list ChannelType → (string * list W) + error).
Context (v4BinaryWebsocketProtocol v4Base64WebsocketProtocol : string).

Definition createWebSocketStreams (opts : Options) : outcome (option W * option (context W)) :=
  match Open (createChannels opts) with
  | inr _ => Ret (None, None)
  | inl (negotiatedProtocol, streams) =>
      first ← index streams (if o_Stdout opts then stdoutChannel else if o_Stderr opts then stderrChannel else errorChannel);
      stdin ← index streams stdinChannel;
      stdout ← index streams stdoutChannel;
      stderr ← index streams stderrChannel;
      resize ← index streams resizeChannel;
      err ← index streams errorChannel;
      let v4 := (negotiatedProtocol == v4BinaryWebsocketProtocol) || (negotiatedProtocol == v4Base64WebsocketProtocol) in
      Ret (Some first, Some
        {| ctx_stdinStream := Some stdin; ctx_stdoutStream := Some stdout; ctx_stderrStream := Some stderr;
           ctx_writeStatus := Some (if v4 then V4Status err else V1Status err);
           ctx_resizeStream := Some resize; ctx_tty := o_TTY opts |})
  end.
End create.

(** ** ServeExec and ServeAttach *)

Section serve.
Context {A S : Type}.

(** The parts of golib's api.Status the code sets. *)
Record Status := { s_Status : string; s_Reason : string; s_Message : string; s_Causes : list (string * string) }.

Context (StatusSuccess StatusFailure NonZeroExitCodeReason ExitCodeCauseType : string).
(** json.Marshal of a status, StatusError.Error and errors.NewInternalError. *)
Context (marshal : Status → string + error) (StatusError_Error : Status → string) (NewInternalError : error → Status).

(** An error of the executor: utilexec.ExitError, with its message, or another. *)
Inductive execError := ExitError (exited : bool) (rc : Z) (msg : string) | OtherError (err : error).

Definition error_of (e : execError) : error := match e with ExitError _ _ msg => Errorf msg [] | OtherError err => err end.

(** What is written to the error stream, if anything. *)
Definition v1WriteStatus (status : Status) : option string :=
  if s_Status status == StatusSuccess then None else Some (StatusError_Error status).

Definition v4WriteStatus (status : Status) : option string :=
  match marshal status with inr _ => None | inl bs => Some bs end.

(** A call of a nil function panics. *)
Definition write_status (w : option (statusWriter A)) (status : Status) : outcome (option (A * string)) :=
  match w with
  | None => Panic "invalid memory address or nil pointer dereference"
  | Some (V1Status s) => Ret ((s,.) <$> v1WriteStatus status)
  | Some (V4Status s) => Ret ((s,.) <$> v4WriteStatus status)
  end.

Definition success : Status := {| s_Status := StatusSuccess; s_Reason := ""; s_Message := ""; s_Causes := [] |}.

Definition exec_status (res : option execError) : Status :=
  match res with
  | Some (ExitError true rc msg) =>
      {| s_Status := StatusFailure; s_Reason := NonZeroExitCodeReason;
         s_Message := "command terminated with non-zero exit code: " +:+ msg;
         s_Causes := [(ExitCodeCauseType, Itoa rc)] |}
  | Some e => NewInternalError (ErrorWrap "error executing command in container: %v" [] (error_of e))
  | None => success
  end.

Definition attach_status (res : option error) : Status :=
  match res with
  | Some err => NewInternalError (ErrorWrap "error attaching to container: %v" [] err)
  | None => success
  end.

(** ctx.resizeChan is made exactly when there is a stream to read sizes from. *)
Definition resizeChan (c : context A) : bool := bool_decide (is_Some (ctx_resizeStream c)).

(** [created] is what createStreams returned.  The last component tells whether the
    connection was closed. *)
Definition ServeExec (created : option (context A))
    (exec : option A → option A → option A → bool → bool → S → option execError * S) (s : S)
    : outcome (option (A * string)) * S * bool :=
  match created with
  | None => (Ret None, s, false)
  | Some ctx =>
      let '(err, s) := exec (ctx_stdinStream ctx) (ctx_stdoutStream ctx) (ctx_stderrStream ctx) (ctx_tty ctx)
                         (resizeChan ctx) s in
      (write_status (ctx_writeStatus ctx) (exec_status err), s, true)
  end.

Definition ServeAttach (created : option (context A))
    (attach : option A → option A → option A → bool → bool → S → option error * S) (s : S)
    : outcome (option (A * string)) * S * bool :=
  match created with
  | None => (Ret None, s, false)
  | Some ctx =>
      let '(err, s) := attach (ctx_stdinStream ctx) (ctx_stdoutStream ctx) (ctx_stderrStream ctx) (ctx_tty ctx)
                         (resizeChan ctx) s in
      (write_status (ctx_writeStatus ctx) (attach_status err), s, true)
  end.
End serve.

(** ** Theorems *)

Section theorems.
Context `{StreamConsts} `{!StreamConstsLaws}.

Lemma types_distinct :
  StreamTypeError ≠ StreamTypeStdin ∧ StreamTypeError ≠ StreamTypeStdout ∧ StreamTypeError ≠ StreamTypeStderr ∧
  StreamTypeError ≠ StreamTypeResize ∧ StreamTypeStdin ≠ StreamTypeStdout ∧ StreamTypeStdin ≠ StreamTypeStderr ∧
  StreamTypeStdin ≠ StreamTypeResize ∧ StreamTypeStdout ≠ StreamTypeStderr ∧ StreamTypeStdout ≠ StreamTypeResize ∧
  StreamTypeStderr ≠ StreamTypeResize.
Proof. pose proof stream_types_distinct as Hd. rewrite !NoDup_cons in Hd. set_solver. Qed.

(** A stream that is assigned has one of the five types and goes to its field. *)
Lemma assign_cases h c s c' :
  assign h c s = Some c' →
  (stream_type s = StreamTypeError ∧ ∃ w, writer_stream w = s ∧ c' = set_writeStatus c w) ∨
  (stream_type s = StreamTypeStdin ∧ c' = set_stdin c s) ∨
  (stream_type s = StreamTypeStdout ∧ c' = set_stdout c s) ∨
  (stream_type s = StreamTypeStderr ∧ c' = set_stderr c s) ∨
  (stream_type s = StreamTypeResize ∧ c' = set_resize c s).
Proof.
  destruct h; cbn [assign]; unfold v1_assign, v2_assign, v3_assign, v4_assign; cbn zeta;
    (case_bool_decide; [intros [= <-]; left; split; [done|]; eexists; split; [|done]; done|]);
    (case_bool_decide; [intros [= <-]; by right; left|]);
    (case_bool_decide; [intros [= <-]; by do 2 right; left|]);
    (case_bool_decide; [intros [= <-]; by do 3 right; left|]);
    try done;
    (case_bool_decide; [intros [= <-]; by do 4 right|done]).
Qed.

(** Assigning a stream gives its type that stream and leaves the others. *)
Lemma assign_spec h c s c' ty :
  assign h c s = Some c' → stream_for c' ty = if decide (ty = stream_type s) then Some s else stream_for c ty.
Proof.
  pose proof types_distinct as (?&?&?&?&?&?&?&?&?&?). unfold stream_for.
  intros [(-> & w & <- & ->)|[(-> & ->)|[(-> & ->)|[(-> & ->)|(-> & ->)]]]]%assign_cases; case_decide as Hty; subst;
    cbn; repeat (case_bool_decide; [congruence || done|]); congruence || done.
Qed.

(** The latest accepted stream of a type. *)
Definition latest (ty : string) (l : list Stream) : option Stream := last (filter (λ s, stream_type s = ty) l).

#[local] Arguments latest : simpl never.
#[local] Arguments stream_for : simpl never.

Lemma latest_snoc ty l s :
  latest ty (l ++ [s]) = if decide (ty = stream_type s) then Some s else latest ty l.
Proof.
  unfold latest. rewrite filter_app, filter_cons, filter_nil.
  destruct (decide (ty = stream_type s)) as [->|Hne].
  - rewrite decide_True by done. apply last_snoc.
  - rewrite decide_False by done. by rewrite app_nil_r.
Qed.

Lemma latest_Some ty l : (∃ s, s ∈ l ∧ stream_type s = ty) → ∃ s, latest ty l = Some s ∧ s ∈ l ∧ stream_type s = ty.
Proof.
  intros (s & Hs & Hty). unfold latest.
  destruct (last (filter _ l)) as [s'|] eqn:Hl.
  - exists s'. apply last_Some_elem_of, list_elem_of_filter in Hl as [? ?]. done.
  - apply last_None in Hl. assert (s ∈ filter (λ s, stream_type s = ty) l) as Hin by by apply list_elem_of_filter.
    rewrite Hl in Hin. by apply not_elem_of_nil in Hin.
Qed.

Lemma latest_None ty l : (∀ s, s ∈ l → stream_type s ≠ ty) → latest ty l = None.
Proof.
  intros Hl. unfold latest. destruct (last (filter _ l)) as [s|] eqn:E; [|done].
  apply last_Some_elem_of, list_elem_of_filter in E as [Hty Hs]. by apply Hl in Hs.
Qed.

Record wait_inv (expected : nat) (w : wait) : Prop := {
  wi_ctx : ∀ ty, stream_for (w_ctx w) ty = latest ty (w_accepted w);
  wi_count : w_received w + w_notifying w + length (w_waiting w) ≤ length (w_accepted w);
  wi_open : w_result w = None → w_received w + w_notifying w + length (w_waiting w) = length (w_accepted w);
  wi_result : ∀ c, w_result w = Some (inl c) → c = w_ctx w ∧ w_received w = expected;
  wi_lt : 0 < expected → w_result w = None → w_received w < expected;
}.

Lemma wait_inv_start expected : wait_inv expected waitForStreams.
Proof.
  split; cbn; [|lia|done|done|done]. intros ty. unfold stream_for, latest. cbn. by repeat case_bool_decide.
Qed.

Lemma wait_inv_step h expected w w' : wait_inv expected w → step h expected w w' → wait_inv expected w'.
Proof.
  intros Hinv Hstep. revert Hinv.
  destruct Hstep as [[v s c Hn Ha|v s Hn Ha|v n Hn Hk Hne|v n Hn Hk He|v Hn]|[v l1 s l2 Hw|v l1 s l2 Hn Hw]];
    intros [Hctx Hc Ho Hr Hlt]; try done; split; cbn; rewrite ?length_app; cbn; try exact Hctx; try exact Hr;
    try exact Hlt; try done.
  all: try (rewrite Hw, length_app in *; cbn in * ).
  all: try (intros; lia). all: try (intros; specialize (Ho Hn); lia).
  - intros ty. by rewrite (assign_spec _ _ _ _ _ Ha), latest_snoc, Hctx.
  - intros c' Hc'. congruence.
  - intros c' Hc'. congruence.
  - intros Hpos _. specialize (Hlt Hpos Hn). lia.
  - by intros c' [= <-].
  - intros Hn. specialize (Ho Hn). lia.
Qed.

Definition waited (h : protocolHandler) (expected : nat) (w : wait) : Prop := rtc (step h expected) waitForStreams w.

Lemma waited_inv h expected w : waited h expected w → wait_inv expected w.
Proof.
  intros Hw. unfold waited in Hw. pose proof (wait_inv_start expected) as Hi. revert Hi.
  induction Hw; eauto using wait_inv_step.
Qed.

Lemma requested_length o h : length (requested o h) = expectedStreams o h.
Proof. unfold requested, expectedStreams. rewrite !length_app. by repeat case_match. Qed.

(** When the client opens only streams that were asked for, each once, a session
    starts only when all of them are there, each in its place, and no other. *)
Theorem waitForStreams_complete o h w c :
  waited h (expectedStreams o h) w → w_result w = Some (inl c) →
  NoDup (stream_type <$> w_accepted w) → (∀ s, s ∈ w_accepted w → stream_type s ∈ requested o h) →
  ∀ ty, if decide (ty ∈ requested o h)
        then ∃ s, stream_for c ty = Some s ∧ s ∈ w_accepted w ∧ stream_type s = ty
        else stream_for c ty = None.
Proof.
  intros [Hctx Hc _ Hr _]%waited_inv Hres Hnd Hreq ty. destruct (Hr _ Hres) as [-> Hn]. rewrite Hctx.
  assert (stream_type <$> w_accepted w ≡ₚ requested o h) as Hperm.
  { apply submseteq_length_Permutation.
    - apply NoDup_submseteq; [done|]. intros x (s & -> & Hs)%list_elem_of_fmap. by apply Hreq.
    - rewrite length_fmap, requested_length. lia. }
  case_decide as Hty.
  - apply latest_Some. rewrite <- Hperm in Hty. apply list_elem_of_fmap in Hty as (s & -> & Hs). by exists s.
  - apply latest_None. intros s Hs <-. by apply Hty, Hreq.
Qed.

(** The steps in which the client takes no part. *)
Definition server_step (h : protocolHandler) (expected : nat) (w w' : wait) : Prop :=
  step h expected w w' ∧ w_accepted w' = w_accepted w.

Lemma replies_collected h expected k w :
  w_result w = None → w_received w < expected → expected ≤ w_received w + w_notifying w + length (w_waiting w) →
  k = expected - w_received w →
  ∃ w', rtc (server_step h expected) w w' ∧ w_ctx w' = w_ctx w ∧ w_result w' = Some (inl (w_ctx w)).
Proof.
  intros Hn Hlt Hle Hk.
  revert w Hn Hlt Hle Hk. induction k as [|k IH]; intros w Hn Hlt Hle Hk; [lia|].
  assert (∃ v n, rtc (server_step h expected) w v ∧ w_ctx v = w_ctx w ∧ w_result v = None ∧
                 w_received v = w_received w ∧ w_notifying v = Datatypes.S n ∧
                 w_notifying v + length (w_waiting v) = w_notifying w + length (w_waiting w))
    as (v & n & Hwv & Hctx & Hv & Hrec & Hnot & Hlen).
  { destruct (w_notifying w) as [|n] eqn:Hnot; [|by exists w, n; rewrite Hnot].
    destruct (w_waiting w) as [|s l] eqn:Hw; [cbn in Hle; lia|].
    exists (set_waiting w l 1), 0. split_and!; [|done..].
    apply rtc_once. split; [|done]. right. replace 1 with (Datatypes.S (w_notifying w)) by lia.
    by apply (reply_sent w [] s l). }
  destruct (decide (Datatypes.S (w_received v) = expected)) as [He|Hne].
  - exists (return_ (set_received v (Datatypes.S (w_received v)) n) (close_stdin h (w_ctx v)) (inl (w_ctx v))).
    split_and!; [|done|by cbn; rewrite Hctx]. eapply rtc_r; [done|]. split; [|done]. left. by apply wait_last.
  - destruct (IH (set_received v (Datatypes.S (w_received v)) n)) as (w' & Hr & Hc' & Hres); cbn; [done|lia..|].
    exists w'. cbn in Hc', Hres. split_and!; [|congruence|congruence].
    etrans; [done|]. eapply rtc_l; [|done]. split; [|done]. left. by apply wait_reply.
Qed.

(** Once the client has opened as many streams as were asked for, the server by
    itself can start the session with the streams it has. *)
Theorem waitForStreams_progress h expected w :
  0 < expected → waited h expected w → w_result w = None →
  expected ≤ length (w_accepted w) →
  ∃ w', rtc (server_step h expected) w w' ∧ w_result w' = Some (inl (w_ctx w)).
Proof.
  intros Hpos [_ _ Ho _ Hlt]%waited_inv Hn Hle. specialize (Ho Hn).
  destruct (replies_collected h expected _ w Hn (Hlt Hpos Hn) ltac:(lia) eq_refl) as (w' & Hr & _ & Hres). by exists w'.
Qed.

(** A goroutine that is about to report a reply when the wait is over never ends:
    its send has no receiver left, and it does not watch the stop channel. *)
Theorem notifying_leaks h expected w w' :
  w_result w ≠ None → rtc (step h expected) w w' → w_notifying w ≤ w_notifying w' ∧ w_result w' = w_result w.
Proof.
  intros Hn Hr. revert Hn. induction Hr as [w|w v w' Hstep _ IH]; [done|]. intros Hn.
  assert (w_notifying w ≤ w_notifying v ∧ w_result v = w_result w) as [Hle Hres].
  { clear IH. destruct Hstep as [Hs|Hs]; destruct Hs; try done; cbn; split; (lia || done). }
  destruct IH as [Hle' Hres']; [congruence|]. split; [lia|congruence].
Qed.

(** *** Serving *)

Section serve.
Context {A S : Type}.
Context (StatusSuccess StatusFailure NonZeroExitCodeReason ExitCodeCauseType : string).
Context (marshal : Status → string + error) (StatusError_Error : Status → string) (NewInternalError : error → Status).

Abbreviation ServeExec := (ServeExec (A := A) (S := S) StatusSuccess StatusFailure NonZeroExitCodeReason ExitCodeCauseType marshal
  StatusError_Error NewInternalError).
Abbreviation exec_status := (exec_status StatusSuccess StatusFailure NonZeroExitCodeReason ExitCodeCauseType NewInternalError).

(** The command is run once with the streams of the session, the connection is
    closed whatever happens, and the end of the command is reported on the error
    stream: by v4 as the JSON of a status that has the exit code; by v1 to v3 as
    text, and only when it failed. *)
Theorem ServeExec_spec ctx w exec s :
  ctx_writeStatus ctx = Some w →
  let '(err, s') := exec (ctx_stdinStream ctx) (ctx_stdoutStream ctx) (ctx_stderrStream ctx) (ctx_tty ctx) (resizeChan ctx) s in
  ∃ out, ServeExec (Some ctx) exec s = (Ret out, s', true) ∧
    (∀ rc msg, err = Some (ExitError true rc msg) → s_Causes (exec_status err) = [(ExitCodeCauseType, Itoa rc)]) ∧
    match w with
    | V4Status e => ∀ bs, marshal (exec_status err) = inl bs → out = Some (e, bs)
    | V1Status e =>
        out = if s_Status (exec_status err) == StatusSuccess then None else Some (e, StatusError_Error (exec_status err))
    end.
Proof.
  intros Hw. unfold RemoteCommand.ServeExec.
  destruct (exec _ _ _ _ _ _) as [err s']. rewrite Hw. unfold write_status.
  destruct w as [e|e]; (eexists; split_and!; [done|by intros rc msg ->|]).
  - unfold v1WriteStatus. by case_bool_decide.
  - intros bs Hbs. unfold v4WriteStatus. by rewrite Hbs.
Qed.
End serve.

(** Over a websocket the session always has an error stream, so that reporting never
    panics, provided Open returns a stream for each channel it was asked for. *)
Theorem createWebSocketStreams_complete {W} (Open : list ChannelType → (string * list W) + error) v4b v4b64 opts :
  (∀ l p streams, Open l = inl (p, streams) → length streams = length l) →
  ∃ first ctx, createWebSocketStreams Open v4b v4b64 opts = Ret (first, ctx) ∧
    ∀ c, ctx = Some c → is_Some (ctx_writeStatus c) ∧ ctx_tty c = o_TTY opts.
Proof.
  intros Hopen. unfold createWebSocketStreams.
  destruct (Open (createChannels opts)) as [[p streams]|e] eqn:Ho; [|by exists None, None].
  apply Hopen in Ho. do 5 (destruct streams as [|? streams]; [done|]). destruct streams; [|done].
  destruct opts as [? [] [] ?]; cbn; (do 2 eexists; split; [done|]; intros c [= <-]; cbn; split; [by eexists|done]).
Qed.
End theorems.

(** ** Concrete runs *)

Module RemoteCommandExamples.
#[local] Existing Instance golib_stream_consts.

Definition opts : Options := {| o_Stdin := false; o_Stdout := true; o_Stderr := false; o_TTY := false |}.

Definition stream_of (id : Z) (ty : string) : Stream := {| st_id := id; st_headers := {[ "Streamtype" := [ty] ]} |}.

(** The loop takes two streams, their replies go out, both goroutines report. *)
Definition accept2 (h : protocolHandler) (s1 s2 : Stream) : option wait :=
  c1 ← assign h context_zero s1; c2 ← assign h c1 s2;
  let w := set_waiting (accept h (accept h waitForStreams s1 c1) s2 c2) [] 2 in
  let w := set_received w 1 1 in
  Some (return_ (set_received w 2 0) (close_stdin h c2) (inl c2)).

Lemma accept2_waited h s1 s2 w : accept2 h s1 s2 = Some w → waited h 2 w.
Proof.
  unfold accept2. cbn [mbind option_bind]. destruct (assign h context_zero s1) as [c1|] eqn:H1; [|done]. cbn [mbind option_bind].
  destruct (assign h c1 s2) as [c2|] eqn:H2; [|done]. intros [= <-]. unfold waited.
  eapply rtc_l; [left; by apply (wait_stream h 2 waitForStreams s1 c1)|].
  eapply rtc_l; [left; by apply (wait_stream h 2 _ s2 c2)|].
  eapply rtc_l; [right; by apply (reply_sent _ [] s1 [s2])|].
  eapply rtc_l; [right; by apply (reply_sent _ [] s2 [])|].
  eapply rtc_l; [left; by apply (wait_reply h 2 _ 1)|].
  eapply rtc_l; [left; by apply (wait_last h 2 _ 0)|]. apply rtc_refl.
Qed.

Lemma waitForStreams_complete_witness :
  ∃ w c, accept2 v4ProtocolHandler (stream_of 1 "error") (stream_of 3 "stdout") = Some w ∧ w_result w = Some (inl c) ∧
    ∃ s, stream_for c StreamTypeError = Some s ∧ s ∈ w_accepted w ∧ stream_type s = StreamTypeError.
Proof.
  destruct (accept2 v4ProtocolHandler (stream_of 1 "error") (stream_of 3 "stdout")) as [w|] eqn:Hw;
    [|vm_compute in Hw; discriminate Hw].
  pose proof (accept2_waited _ _ _ _ Hw) as Hr.
  assert (w_accepted w = [stream_of 1 "error"; stream_of 3 "stdout"] ∧
          w_result w = Some (inl (set_stdout (set_writeStatus context_zero (V4Status (stream_of 1 "error"))) (stream_of 3 "stdout"))))
    as [Ha Hres] by (injection Hw as <-; split; reflexivity).
  eexists w, _. split; [reflexivity|]. split; [exact Hres|].
  pose proof (@waitForStreams_complete _ golib_stream_consts_laws opts v4ProtocolHandler w _ Hr Hres) as Hc.
  rewrite Ha in Hc |- *. specialize (Hc ltac:(apply (bool_decide_unpack _); vm_compute; exact I)).
  specialize (Hc ltac:(intros s; rewrite !elem_of_cons, elem_of_nil; intros [->|[->|[]]]; apply (bool_decide_unpack _); vm_compute; exact I)).
  exact (Hc StreamTypeError).
Defined.

(** Streams are counted, not told apart: a client that opens the standard output
    twice gets a session without an error stream, and reporting the end of the
    command calls a nil function. *)
Theorem duplicate_stream_panics :
  ∃ w c, waited v4ProtocolHandler (expectedStreams opts v4ProtocolHandler) w ∧ w_result w = Some (inl c) ∧
    ctx_writeStatus c = None ∧
    ∀ marshal toString internal s,
      ServeExec "Success" "Failure" "NonZeroExitCode" "ExitCode" marshal toString internal (Some c)
        (λ _ _ _ _ _ s, (None, s)) s =
      (Panic "invalid memory address or nil pointer dereference", s : unit, true).
Proof.
  destruct (accept2 v4ProtocolHandler (stream_of 1 "stdout") (stream_of 3 "stdout")) as [w|] eqn:Hw;
    [|vm_compute in Hw; discriminate Hw].
  pose proof (accept2_waited _ _ _ _ Hw) as Hr. injection Hw as <-.
  eexists _, _. split; [exact Hr|]. split; [reflexivity|]. split; reflexivity.
Qed.

Lemma waitForStreams_progress_witness :
  let w := accept v1ProtocolHandler waitForStreams (stream_of 1 "error") (set_writeStatus context_zero (V1Status (stream_of 1 "error"))) in
  ∃ w', rtc (server_step v1ProtocolHandler 1) w w' ∧ w_result w' = Some (inl (w_ctx w)).
Proof.
  apply (@waitForStreams_progress _ golib_stream_consts_laws v1ProtocolHandler 1); [lia| |reflexivity|cbn; lia].
  apply rtc_once. left. apply wait_stream; reflexivity.
Defined.

(** The timer fires when a reply has gone out but has not been counted yet. *)
Lemma notifying_leaks_witness :
  let w := accept v4ProtocolHandler waitForStreams (stream_of 1 "error") (set_writeStatus context_zero (V4Status (stream_of 1 "error"))) in
  let late := return_ (set_waiting w [] 1) [] (inr timedOut) in
  ∀ w', rtc (step v4ProtocolHandler 2) late w' → 1 ≤ w_notifying w' ∧ w_result w' = Some (inr timedOut).
Proof. intros w late w'. apply (notifying_leaks v4ProtocolHandler 2 late w'). discriminate. Defined.

Lemma ServeExec_spec_witness :
  let serve := ServeExec "Success" "Failure" "NonZeroExitCode" "ExitCode" (λ st, inl (Join (snd <$> s_Causes st) ","))
    (λ _, "") (λ _, success "Internal") in
  ∃ out, serve (Some (set_writeStatus context_zero (V4Status 0))) (λ _ _ _ _ _ s, (Some (ExitError true 3 "exit status 3"), s)) tt =
    (Ret out, tt, true) ∧ out = Some (0, "3").
Proof.
  destruct (ServeExec_spec "Success" "Failure" "NonZeroExitCode" "ExitCode" (λ st, inl (Join (snd <$> s_Causes st) ","))
    (λ _, "") (λ _, success "Internal") (set_writeStatus context_zero (V4Status 0)) (V4Status 0)
    (λ _ _ _ _ _ s, (Some (ExitError true 3 "exit status 3"), s)) tt eq_refl) as (out & Hs & _ & Hout).
  exists out. split; [exact Hs|]. apply Hout. reflexivity.
Defined.

Lemma createWebSocketStreams_complete_witness :
  ∃ first ctx, createWebSocketStreams (λ l, inl ("v4.channel.k8s.io", seq 0 (length l))) "v4.channel.k8s.io" "v4.base64.channel.k8s.io" opts =
    Ret (first, ctx) ∧ ∀ c, ctx = Some c → is_Some (ctx_writeStatus c) ∧ ctx_tty c = false.
Proof. apply createWebSocketStreams_complete. intros l p streams [= _ <-]. apply length_seq. Defined.
End RemoteCommandExamples.
