(* ===== verification/PortForward.v ===== *)
(** * Port forwarding

    Models pkg/streaming/portforward.  Over SPDY (httpstream.go) the data and error
    streams of a forwarded connection arrive separately and are paired by their
    request ID; here the handler, its main loop, the monitors of incomplete pairs,
    the goroutines that forward and the client are a step relation over a heap of
    pairs.  Over a websocket (websocket.go) all streams exist from the start.  The
    forwarder and the connection are parameters. *)

From S2P Require Import Prelude GoStrings GoEncoding Streams.

Local Open Scope go_scope.

Section pf.
Context `{StreamConsts}.

(** ** Streams and pairs *)

(** What httpStreamReceived answers to a new stream; a stream it answers nil to is
    sent to the channel. *)
Definition httpStreamReceived (s : Stream) : option error :=
  let portString := stream_Get s PortHeader in
  if portString == "" then Some (Errorf "%q header is required" [PortHeader])
  else match ParseUint portString 16 with
  | inr err => Some (ErrorWrap "unable to parse %q as a port: %v" [portString] err)
  | inl port =>
      if (port <? 1)%Z then Some (Errorf "port %q must be > 0" [portString])
      else
        let streamType := stream_type s in
        if streamType == "" then Some (Errorf "%q header is required" [StreamType])
        else if (streamType != StreamTypeError) && (streamType != StreamTypeData)
        then Some (Errorf "invalid stream type %q" [streamType])
        else None
  end.

(** int is 64 bits wide, so no uint32 identifier wraps. *)
Definition requestID (s : Stream) : string :=
  let id := stream_Get s PortForwardRequestIDHeader in
  if id == "" then
    let streamType := stream_type s in
    if streamType == StreamTypeError then Itoa (st_id s)
    else if streamType == StreamTypeData then Itoa (st_id s - 2)
    else id
  else id.

(** [pr_complete] tells whether the channel of that name is closed. *)
Record httpStreamPair := {
  pr_requestID : string;
  pr_dataStream : option Stream;
  pr_errorStream : option Stream;
  pr_complete : bool;
}.

Definition newPortForwardPair (id : string) : httpStreamPair :=
  {| pr_requestID := id; pr_dataStream := None; pr_errorStream := None; pr_complete := false |}.

Definition set_streams (p : httpStreamPair) (data err : option Stream) : httpStreamPair :=
  {| pr_requestID := pr_requestID p; pr_dataStream := data; pr_errorStream := err; pr_complete := pr_complete p |}.

(** The end of add: closing a closed channel panics. *)
Definition add_end (p : httpStreamPair) : outcome (bool + error) * httpStreamPair :=
  match pr_dataStream p, pr_errorStream p with
  | Some _, Some _ =>
      if pr_complete p then (Panic "close of closed channel", p)
      else (Ret (inl true), {| pr_requestID := pr_requestID p; pr_dataStream := pr_dataStream p;
                               pr_errorStream := pr_errorStream p; pr_complete := true |})
  | _, _ => (Ret (inl false), p)
  end.

Definition add (p : httpStreamPair) (s : Stream) : outcome (bool + error) * httpStreamPair :=
  let streamType := stream_type s in
  if streamType == StreamTypeError then
    match pr_errorStream p with
    | Some _ => (Ret (inr (Errorf "error stream already assigned" [])), p)
    | None => add_end (set_streams p (pr_dataStream p) (Some s))
    end
  else if streamType == StreamTypeData then
    match pr_dataStream p with
    | Some _ => (Ret (inr (Errorf "data stream already assigned" [])), p)
    | None => add_end (set_streams p (Some s) (pr_errorStream p))
    end
  else add_end p.

(** ** The handler *)

Inductive monitor := Selecting | Removing.

Inductive loop_pc :=
  | Idle
  | Adding (p : nat) (s : Stream)
  | Reporting (p : nat) (err : error)
  | Closed
  | Panicked (msg : string).

(** A message on an error stream. *)
Record message := { m_stream : Stream; m_err : error }.

(** [h_pairs] is the heap of pairs, which streamPairs points into; [h_monitors] are
    the goroutines of monitorStreamPair; [h_ready] the pairs whose portForward has
    been started but has not called the forwarder; [h_forwards] the calls made: the
    pair, the port and the data stream. *)
Record httpStreamHandler := {
  h_streamChan : list Stream;
  h_pairs : list httpStreamPair;
  h_streamPairs : gmap string nat;
  h_monitors : gmap nat monitor;
  h_loop : loop_pc;
  h_ready : list nat;
  h_forwards : list (nat * Z * Stream);
  h_out : list message;
}.

Definition handler_start : httpStreamHandler :=
  {| h_streamChan := []; h_pairs := []; h_streamPairs := ∅; h_monitors := ∅; h_loop := Idle; h_ready := [];
     h_forwards := []; h_out := [] |}.

Definition set_loop (h : httpStreamHandler) (l : loop_pc) : httpStreamHandler :=
  {| h_streamChan := h_streamChan h; h_pairs := h_pairs h; h_streamPairs := h_streamPairs h;
     h_monitors := h_monitors h; h_loop := l; h_ready := h_ready h; h_forwards := h_forwards h; h_out := h_out h |}.
Definition set_chan (h : httpStreamHandler) (l : list Stream) : httpStreamHandler :=
  {| h_streamChan := l; h_pairs := h_pairs h; h_streamPairs := h_streamPairs h;
     h_monitors := h_monitors h; h_loop := h_loop h; h_ready := h_ready h; h_forwards := h_forwards h; h_out := h_out h |}.
Definition set_pair (h : httpStreamHandler) (p : nat) (pr : httpStreamPair) : httpStreamHandler :=
  {| h_streamChan := h_streamChan h; h_pairs := <[p := pr]> (h_pairs h); h_streamPairs := h_streamPairs h;
     h_monitors := h_monitors h; h_loop := h_loop h; h_ready := h_ready h; h_forwards := h_forwards h; h_out := h_out h |}.
Definition set_monitor (h : httpStreamHandler) (p : nat) (m : monitor) : httpStreamHandler :=
  {| h_streamChan := h_streamChan h; h_pairs := h_pairs h; h_streamPairs := h_streamPairs h;
     h_monitors := <[p := m]> (h_monitors h); h_loop := h_loop h; h_ready := h_ready h; h_forwards := h_forwards h;
     h_out := h_out h |}.
Definition set_ready (h : httpStreamHandler) (l : list nat) : httpStreamHandler :=
  {| h_streamChan := h_streamChan h; h_pairs := h_pairs h; h_streamPairs := h_streamPairs h;
     h_monitors := h_monitors h; h_loop := h_loop h; h_ready := l; h_forwards := h_forwards h; h_out := h_out h |}.
Definition log_forward (h : httpStreamHandler) (f : nat * Z * Stream) : httpStreamHandler :=
  {| h_streamChan := h_streamChan h; h_pairs := h_pairs h; h_streamPairs := h_streamPairs h;
     h_monitors := h_monitors h; h_loop := h_loop h; h_ready := h_ready h; h_forwards := h_forwards h ++ [f];
     h_out := h_out h |}.
Definition write (h : httpStreamHandler) (s : option Stream) (err : error) : httpStreamHandler :=
  match s with
  | None => h
  | Some s =>
      {| h_streamChan := h_streamChan h; h_pairs := h_pairs h; h_streamPairs := h_streamPairs h;
         h_monitors := h_monitors h; h_loop := h_loop h; h_ready := h_ready h; h_forwards := h_forwards h;
         h_out := h_out h ++ [{| m_stream := s; m_err := err |}] |}
  end.

(** The pair for a request ID, and whether it was created. *)
Definition getStreamPair (h : httpStreamHandler) (id : string) : nat * bool * httpStreamHandler :=
  match h_streamPairs h !! id with
  | Some p => (p, false, h)
  | None =>
      let p := length (h_pairs h) in
      (p, true,
       {| h_streamChan := h_streamChan h; h_pairs := h_pairs h ++ [newPortForwardPair id];
          h_streamPairs := <[id := p]> (h_streamPairs h); h_monitors := h_monitors h; h_loop := h_loop h;
          h_ready := h_ready h; h_forwards := h_forwards h; h_out := h_out h |})
  end.

Definition hasStreamPair (h : httpStreamHandler) (id : string) : bool :=
  bool_decide (is_Some (h_streamPairs h !! id)).

(** A monitor removes the pair's ID from the map and ends. *)
Definition removeStreamPair (h : httpStreamHandler) (p : nat) (id : string) : httpStreamHandler :=
  {| h_streamChan := h_streamChan h; h_pairs := h_pairs h; h_streamPairs := delete id (h_streamPairs h);
     h_monitors := delete p (h_monitors h); h_loop := h_loop h; h_ready := h_ready h; h_forwards := h_forwards h;
     h_out := h_out h |}.

Definition printError (h : httpStreamHandler) (pr : httpStreamPair) (err : error) : httpStreamHandler :=
  write h (pr_errorStream pr) err.

(** The select of run takes a stream. *)
Definition take (h : httpStreamHandler) (s : Stream) (rest : list Stream) : httpStreamHandler :=
  let '(p, created, h) := getStreamPair (set_chan h rest) (requestID s) in
  let h := if created then set_monitor h p Selecting else h in
  set_loop h (Adding p s).

(** What run does with the result of add. *)
Definition added (h : httpStreamHandler) (p : nat) (s : Stream) (res : outcome (bool + error)) : httpStreamHandler :=
  match res with
  | Panic msg => set_loop h (Panicked msg)
  | Ret (inr err) => set_loop h (Reporting p (ErrorWrap "error processing stream for request %s: %v" [requestID s] err))
  | Ret (inl true) => set_loop (set_ready h (h_ready h ++ [p])) Idle
  | Ret (inl false) => set_loop h Idle
  end.

(** portForward, with the forwarder's answer; the nil streams of an incomplete pair
    would panic, and a panic in a goroutine ends the process. *)
Definition portForward (h : httpStreamHandler) (p : nat) (pr : httpStreamPair) (res : option error) : httpStreamHandler :=
  match pr_dataStream pr, pr_errorStream pr with
  | Some data, Some errorStream =>
      let port := (ParseInt (stream_Get data PortHeader) 32).1 in
      let h := log_forward h (p, port, data) in
      match res with
      | None => h
      | Some err => write h (Some errorStream) (ErrorWrap "error forwarding port %d to pod %s, uid %v: %v" [Itoa port] err)
      end
  | _, _ => set_loop h (Panicked "invalid memory address or nil pointer dereference")
  end.

Definition timedOutError (pr : httpStreamPair) : error :=
  Errorf "(conn=%v, request=%s) timed out waiting for streams" [pr_requestID pr].

(** monitorStreamPair. *)
Inductive step_monitor : httpStreamHandler → httpStreamHandler → Prop :=
  | monitor_timeout h p pr :
      h_monitors h !! p = Some Selecting → h_pairs h !! p = Some pr →
      step_monitor h (set_monitor (printError h pr (timedOutError pr)) p Removing)
  | monitor_complete h p pr :
      h_monitors h !! p = Some Selecting → h_pairs h !! p = Some pr → pr_complete pr = true →
      step_monitor h (set_monitor h p Removing)
  | monitor_remove h p pr :
      h_monitors h !! p = Some Removing → h_pairs h !! p = Some pr →
      step_monitor h (removeStreamPair h p (pr_requestID pr)).

(** The client's streams (the channel holds one), run, and portForward. *)
Inductive step_handler : httpStreamHandler → httpStreamHandler → Prop :=
  | client_stream h s :
      httpStreamReceived s = None → length (h_streamChan h) < 1 →
      step_handler h (set_chan h (h_streamChan h ++ [s]))
  | run_take h s rest :
      h_loop h = Idle → h_streamChan h = s :: rest → step_handler h (take h s rest)
  | run_add h p s pr res pr' :
      h_loop h = Adding p s → h_pairs h !! p = Some pr → add pr s = (res, pr') →
      step_handler h (added (set_pair h p pr') p s res)
  | run_report h p pr err :
      h_loop h = Reporting p err → h_pairs h !! p = Some pr →
      step_handler h (set_loop (printError h pr err) Idle)
  | run_closed h :
      h_loop h = Idle → step_handler h (set_loop h Closed)
  | forward h l1 p l2 pr res :
      h_ready h = l1 ++ p :: l2 → h_pairs h !! p = Some pr →
      step_handler h (portForward (set_ready h (l1 ++ l2)) p pr res).

Definition step (h h' : httpStreamHandler) : Prop := step_handler h h' ∨ step_monitor h h'.

Definition reachable (h : httpStreamHandler) : Prop := rtc step handler_start h.
End pf.

(** ** Theorems *)

Section theorems.
Context `{StreamConsts} `{!StreamConstsLaws}.

Lemma data_error_distinct : StreamTypeData ≠ StreamTypeError.
Proof. pose proof stream_types_distinct as Hd. rewrite !NoDup_cons in Hd. set_solver. Qed.

Definition valid (s : Stream) : Prop := httpStreamReceived s = None.

(** A stream that was received has a port and one of the two types. *)
Lemma valid_spec s :
  valid s ↔ (∃ port, ParseUint (stream_Get s PortHeader) 16 = inl port ∧ 1 ≤ port < 2 ^ 16)%Z ∧
            stream_type s ≠ "" ∧ (stream_type s = StreamTypeError ∨ stream_type s = StreamTypeData).
Proof.
  unfold valid, httpStreamReceived. case_bool_decide as He.
  { rewrite He. split; [done|]. by intros [(? & ? & _) _]. }
  destruct (ParseUint _ 16) as [port|err] eqn:Hp; [|naive_solver].
  pose proof (ParseUint_range _ 16 _ ltac:(lia) Hp) as Hrange.
  destruct (port <? 1)%Z eqn:Hlt.
  { apply Z.ltb_lt in Hlt. split; [done|]. intros [(? & [= <-] & ?) _]. lia. }
  apply Z.ltb_ge in Hlt.
  assert (∃ port' : Z, @inl Z error port = inl port' ∧ (1 ≤ port' < 2 ^ 16)%Z) as Hport by (exists port; split; [done|lia]).
  clear Hrange Hlt Hp. repeat case_bool_decide; naive_solver.
Qed.

Record pair_ok (pr : httpStreamPair) : Prop := {
  ok_data : ∀ s, pr_dataStream pr = Some s → valid s ∧ stream_type s = StreamTypeData ∧ requestID s = pr_requestID pr;
  ok_error : ∀ s, pr_errorStream pr = Some s → valid s ∧ stream_type s = StreamTypeError ∧ requestID s = pr_requestID pr;
  ok_complete : pr_complete pr = bool_decide (is_Some (pr_dataStream pr) ∧ is_Some (pr_errorStream pr));
}.

Lemma new_pair_ok id : pair_ok (newPortForwardPair id).
Proof. by split. Qed.

(** Adding a received stream never panics, and completes a pair at most once. *)
Lemma add_spec pr s :
  pair_ok pr → valid s → requestID s = pr_requestID pr →
  ∃ r pr', add pr s = (Ret r, pr') ∧ pair_ok pr' ∧ pr_requestID pr' = pr_requestID pr ∧
    (∀ d, pr_dataStream pr = Some d → pr_dataStream pr' = Some d) ∧
    (if decide (r = inl true) then pr_complete pr = false ∧ pr_complete pr' = true
     else pr_complete pr' = pr_complete pr).
Proof.
  intros [Hd He Hc] Hv Hid. pose proof data_error_distinct. pose proof Hv as (_ & _ & Hty)%valid_spec.
  destruct pr as [id data err complete]. cbn in Hd, He, Hc, Hid. unfold add.
  destruct Hty as [Hty|Hty]; rewrite Hty; [rewrite bool_decide_eq_true_2 by done|
    rewrite bool_decide_eq_false_2, bool_decide_eq_true_2 by congruence]; cbn.
  - destruct err as [e|].
    + eexists _, _. split; [done|]. split_and!; [by split|done|done|]. by rewrite decide_False.
    + assert (complete = false) as -> by (rewrite Hc; apply bool_decide_eq_false_2; by intros [_ [? ?]]).
      destruct data as [d|]; cbn; eexists _, _; (split; [done|]); (split_and!; [|done|done|by cbn]);
        split; cbn; try (intros s' [= <-]); naive_solver.
  - destruct data as [d|].
    + eexists _, _. split; [done|]. split_and!; [by split|done|done|]. by rewrite decide_False.
    + assert (complete = false) as -> by (rewrite Hc; apply bool_decide_eq_false_2; by intros [[? ?] _]).
      destruct err as [e|]; cbn; eexists _, _; (split; [done|]); (split_and!; [|done|done|by cbn]);
        split; cbn; try (intros s' [= <-]); naive_solver.
Qed.

Definition forwarded (h : httpStreamHandler) : list nat := h_ready h ++ (fst ∘ fst <$> h_forwards h).

Record inv (h : httpStreamHandler) : Prop := {
  inv_chan : Forall valid (h_streamChan h);
  inv_pairs : ∀ p pr, h_pairs h !! p = Some pr → pair_ok pr;
  inv_map : ∀ id p, h_streamPairs h !! id = Some p ↔
    is_Some (h_monitors h !! p) ∧ ∃ pr, h_pairs h !! p = Some pr ∧ pr_requestID pr = id;
  inv_monitors : ∀ p, is_Some (h_monitors h !! p) → is_Some (h_pairs h !! p);
  inv_loop : match h_loop h with
             | Adding p s => valid s ∧ ∃ pr, h_pairs h !! p = Some pr ∧ pr_requestID pr = requestID s
             | Reporting p _ => is_Some (h_pairs h !! p)
             | Panicked _ => False
             | _ => True
             end;
  inv_once : NoDup (forwarded h);
  inv_complete : ∀ p, p ∈ forwarded h ↔ ∃ pr, h_pairs h !! p = Some pr ∧ pr_complete pr = true;
  inv_forwards : ∀ p port d, (p, port, d) ∈ h_forwards h →
    (1 ≤ port < 2 ^ 16)%Z ∧ ParseUint (stream_Get d PortHeader) 16 = inl port ∧
    ∃ pr, h_pairs h !! p = Some pr ∧ pr_dataStream pr = Some d;
}.

Lemma inv_start : inv handler_start.
Proof.
  split; cbn; try done.
  - intros id p. rewrite !lookup_empty. split; [done|]. by intros [[? ?] _].
  - intros p [? ?]. by rewrite lookup_empty in *.
  - constructor.
  - intros p. split; [by intros ?%not_elem_of_nil|]. by intros (? & ? & _).
  - by intros p port d ?%not_elem_of_nil.
Qed.

(** Writing, setting the program counter of the loop to a harmless one. *)
Lemma inv_write h s err : inv h → inv (write h s err).
Proof. intros []. by destruct s; split. Qed.

Lemma inv_set_loop h l :
  inv h →
  match l with
  | Adding p s => valid s ∧ ∃ pr, h_pairs h !! p = Some pr ∧ pr_requestID pr = requestID s
  | Reporting p _ => is_Some (h_pairs h !! p)
  | Panicked _ => False
  | _ => True
  end → inv (set_loop h l).
Proof. intros [] Hl. by split. Qed.

Lemma inv_set_chan h l : inv h → Forall valid l → inv (set_chan h l).
Proof. intros [] Hl. by split. Qed.

Lemma inv_set_monitor h p m : inv h → is_Some (h_monitors h !! p) → inv (set_monitor h p m).
Proof.
  intros [] Hp. split; cbn; try done.
  - intros id q. rewrite inv_map0. destruct (decide (p = q)) as [->|Hne].
    + rewrite lookup_insert_eq. split; intros [_ ?]; (split; [first [done|by eexists]|done]).
    + by rewrite lookup_insert_ne.
  - intros q. destruct (decide (p = q)) as [->|Hne]; [by intros _; apply inv_monitors0|].
    rewrite lookup_insert_ne by done. apply inv_monitors0.
Qed.

(** A new pair and its monitor. *)
Lemma inv_create h id :
  inv h → h_streamPairs h !! id = None → h_loop h = Idle →
  let '(p, _, h') := getStreamPair h id in
  inv (set_monitor h' p Selecting) ∧ p = length (h_pairs h) ∧ h_pairs h' !! p = Some (newPortForwardPair id).
Proof.
  intros [] Hnone Hloop. unfold getStreamPair. rewrite Hnone. cbn zeta.
  assert (h_monitors h !! length (h_pairs h) = None) as Hmon.
  { apply eq_None_not_Some. intros Hm%inv_monitors0. apply lookup_lt_is_Some in Hm. lia. }
  assert ((h_pairs h ++ [newPortForwardPair id]) !! length (h_pairs h) = Some (newPortForwardPair id)) as Hlast.
  { by rewrite lookup_app_r, Nat.sub_diag by lia. }
  assert (∀ q pr, h_pairs h !! q = Some pr → (h_pairs h ++ [newPortForwardPair id]) !! q = Some pr) as Hold.
  { intros q pr Hq. by apply lookup_app_l_Some. }
  assert (∀ q pr, (h_pairs h ++ [newPortForwardPair id]) !! q = Some pr →
            h_pairs h !! q = Some pr ∨ q = length (h_pairs h) ∧ pr = newPortForwardPair id) as Hinv.
  { intros q pr Hq. apply lookup_snoc_Some in Hq as [[? ?]|[? ?]]; [by left|by right]. }
  split; [|done]. split; cbn.
  - done.
  - intros q pr [Hq|[_ ->]]%Hinv; [by eapply inv_pairs0|]. apply new_pair_ok.
  - intros id' q. destruct (decide (q = length (h_pairs h))) as [->|Hne].
    + rewrite lookup_insert_eq, Hlast. destruct (decide (id' = id)) as [->|Hid].
      * rewrite lookup_insert_eq. split; [|done]. intros _. split; [by eexists|]. by eexists.
      * rewrite lookup_insert_ne by done. rewrite inv_map0, Hmon. split; [by intros [[? ?] _]|].
        by intros [_ (? & [= <-] & ?)].
    + rewrite (lookup_insert_ne (h_monitors h)) by done. destruct (decide (id' = id)) as [->|Hid].
      * rewrite lookup_insert_eq. split; [intros [= <-]; done|].
        intros [Hm (pr & [Hq|[? _]]%Hinv & Hpr)]; [|done].
        assert (h_streamPairs h !! id = Some q) by (apply inv_map0; split; [done|by exists pr]). congruence.
      * rewrite lookup_insert_ne by done. rewrite inv_map0. apply and_iff_compat_l.
        split; intros (pr & Hq & Hpr); exists pr; (split; [|done]); [by apply Hold|].
        by apply Hinv in Hq as [?|[? _]].
  - intros q. destruct (decide (q = length (h_pairs h))) as [->|Hne]; [by rewrite Hlast|].
    rewrite lookup_insert_ne by done. intros [pr Hpr]%inv_monitors0. exists pr. by apply Hold.
  - by rewrite Hloop.
  - done.
  - intros q. change (forwarded _) with (forwarded h). rewrite inv_complete0.
    split; intros (pr & Hq & Hpr); exists pr; (split; [|done]); [by apply Hold|].
    apply Hinv in Hq as [?|[_ ->]]; [done|discriminate Hpr].
  - intros q port d (? & ? & pr & Hq & ?)%inv_forwards0. do 2 (split; [done|]). exists pr. split; [by apply Hold|done].
Qed.

(** A pair whose streams or completion changed. *)
Lemma inv_set_pair h p pr pr' l :
  inv h → h_pairs h !! p = Some pr → pair_ok pr' → pr_requestID pr' = pr_requestID pr →
  (∀ d, pr_dataStream pr = Some d → pr_dataStream pr' = Some d) →
  (l = [] ∧ pr_complete pr' = pr_complete pr ∨ l = [p] ∧ pr_complete pr = false ∧ pr_complete pr' = true) →
  inv (set_ready (set_pair h p pr') (h_ready h ++ l)).
Proof.
  intros [] Hp Hok Hid Hdata Hl.
  assert (p < length (h_pairs h)) as Hlt by by eapply lookup_lt_Some.
  assert (∀ q x, <[p := pr']> (h_pairs h) !! q = Some x ↔ (q = p ∧ x = pr') ∨ (q ≠ p ∧ h_pairs h !! q = Some x)) as Hlook.
  { intros q x. rewrite list_lookup_insert. case_decide as Hd; [destruct Hd as [-> _]; naive_solver|].
    split; [|by intros [[-> _]|[_ ?]]; [destruct Hd|]]. intros ?. right. split; [|done]. intros ->. by destruct Hd. }
  split; cbn; try done.
  - intros q x [[_ ->]|[_ Hq]]%Hlook; [done|by eapply inv_pairs0].
  - intros id q. rewrite inv_map0. apply and_iff_compat_l. split.
    + intros (x & Hq & Hx). destruct (decide (q = p)) as [->|Hne].
      * exists pr'. rewrite Hlook. split; [by left|]. congruence.
      * exists x. rewrite Hlook. split; [by right|done].
    + intros (x & [[-> ->]|[_ Hq]]%Hlook & Hx); [exists pr; split; [done|congruence]|by exists x].
  - intros q [x Hx]%inv_monitors0. destruct (decide (q = p)) as [->|Hne].
    + exists pr'. rewrite Hlook. by left.
    + exists x. rewrite Hlook. by right.
  - destruct (h_loop h); try done.
    + destruct inv_loop0 as [Hv (x & Hx & Hr)]. split; [done|]. destruct (decide (p0 = p)) as [->|Hne].
      * exists pr'. rewrite Hlook. split; [by left|]. congruence.
      * exists x. rewrite Hlook. split; [by right|done].
    + destruct inv_loop0 as [x Hx]. destruct (decide (p0 = p)) as [->|Hne].
      * exists pr'. rewrite Hlook. by left.
      * exists x. rewrite Hlook. by right.
  - unfold forwarded in *. cbn. rewrite <- app_assoc. destruct Hl as [[-> _]|(-> & Hpr & _)]; [done|].
    rewrite (Permutation_app_comm [p]), app_assoc, Permutation_app_comm. cbn. apply NoDup_cons. split; [|done].
    intros (x & Hx & Hc)%inv_complete0. congruence.
  - intros q. unfold forwarded in *. cbn. rewrite <- app_assoc.
    assert (q ∈ h_ready h ++ l ++ (fst ∘ fst <$> h_forwards h) ↔ q ∈ l ∨ q ∈ h_ready h ++ (fst ∘ fst <$> h_forwards h)) as ->.
    { rewrite !elem_of_app. tauto. }
    rewrite inv_complete0. split.
    + intros [Hq|(x & Hq & Hx)].
      * destruct Hl as [[-> _]|(-> & _ & Hc)]; [by apply not_elem_of_nil in Hq|].
        apply list_elem_of_singleton in Hq as ->. exists pr'. rewrite Hlook. split; [by left|done].
      * destruct (decide (q = p)) as [->|Hne]; [|exists x; rewrite Hlook; split; [by right|done]].
        exists pr'. rewrite Hlook. split; [by left|]. destruct Hl as [[_ ?]|(_ & _ & ?)]; congruence.
    + intros (x & [[-> ->]|[Hne Hq]]%Hlook & Hx); [|right; by exists x].
      destruct Hl as [[-> Hc]|(-> & _ & _)]; [right; exists pr; split; [done|congruence]|left; by left].
  - intros q port d (? & ? & x & Hq & Hx)%inv_forwards0. do 2 (split; [done|]).
    destruct (decide (q = p)) as [->|Hne].
    + exists pr'. rewrite Hlook. split; [by left|]. apply Hdata. congruence.
    + exists x. rewrite Hlook. split; [by right|done].
Qed.

(** The monitor of a pair removes the entry of that pair and no other. *)
Lemma inv_remove h p pr :
  inv h → is_Some (h_monitors h !! p) → h_pairs h !! p = Some pr → inv (removeStreamPair h p (pr_requestID pr)).
Proof.
  intros [] Hm Hp. split; cbn; try done.
  - intros id q. rewrite lookup_delete_Some, inv_map0. destruct (decide (q = p)) as [->|Hne].
    + rewrite lookup_delete_eq. split; [|by intros [[? ?] _]].
      intros [Hid [_ (x & Hx & Hxid)]]. destruct Hid. congruence.
    + rewrite lookup_delete_ne by done. split; [by intros [_ ?]|]. intros [Hq (x & Hx & Hxid)]. split; [|split; [done|by exists x]].
      intros Heq.
      assert (h_streamPairs h !! id = Some p) by (apply inv_map0; split; [done|by exists pr]).
      assert (h_streamPairs h !! id = Some q) by (apply inv_map0; split; [done|by exists x]). congruence.
  - intros q. destruct (decide (q = p)) as [->|Hne]; [rewrite lookup_delete_eq; by intros [? ?]|].
    rewrite lookup_delete_ne by done. apply inv_monitors0.
Qed.

Lemma inv_forward h l1 p l2 pr res :
  inv h → h_ready h = l1 ++ p :: l2 → h_pairs h !! p = Some pr →
  inv (portForward (set_ready h (l1 ++ l2)) p pr res).
Proof.
  intros Hinv Hr Hp. pose proof Hinv as [].
  assert (pr_complete pr = true) as Hc.
  { assert (p ∈ forwarded h) as (x & Hx & Hc)%inv_complete0; [|congruence].
    unfold forwarded. rewrite Hr. set_solver. }
  pose proof (inv_pairs0 _ _ Hp) as [Hd He Hco]. rewrite Hc in Hco.
  symmetry in Hco. apply bool_decide_eq_true in Hco as [[d Hdata] [e Herr]]. unfold portForward. rewrite Hdata, Herr.
  destruct (Hd _ Hdata) as [((port & Hport & Hrange) & _)%valid_spec _].
  rewrite (ParseUint_ParseInt _ 16 32 port) by (done || lia). cbn [fst]. cbn zeta.
  assert (inv (log_forward (set_ready h (l1 ++ l2)) (p, port, d))) as Hlog.
  { assert (forwarded (log_forward (set_ready h (l1 ++ l2)) (p, port, d)) ≡ₚ forwarded h) as Hperm.
    { unfold forwarded. cbn. rewrite Hr, fmap_app. cbn. solve_Permutation. }
    split; cbn; try done.
    - by rewrite Hperm.
    - intros q. by rewrite Hperm.
    - intros q port' d' [Hin|Heq%list_elem_of_singleton]%elem_of_app; [by apply inv_forwards0|].
      injection Heq as -> -> ->. do 2 (split; [done|]). by exists pr. }
  destruct res as [err|]; [|done]. by apply inv_write.
Qed.

Lemma inv_step h h' : inv h → step h h' → inv h'.
Proof.
  intros Hinv [Hs|Hs]; revert Hinv; destruct Hs as [h s Hv Hlen|h s rest Hl Hch|h p s pr res pr' Hl Hp Ha|h p pr err Hl Hp|h Hl|h l1 p l2 pr res Hr Hp]
    || destruct Hs as [h p pr Hm Hp|h p pr Hm Hp Hc|h p pr Hm Hp]; intros Hinv.
  - apply inv_set_chan; [done|]. apply Forall_app. split; [apply Hinv|]. by constructor.
  - pose proof (inv_chan _ Hinv) as Hval. rewrite Hch in Hval. apply Forall_cons in Hval as [Hs Hrest].
    assert (inv (set_chan h rest)) as Hinv' by by apply inv_set_chan. unfold take.
    destruct (h_streamPairs h !! requestID s) as [p|] eqn:Hm.
    + unfold getStreamPair. cbn [h_streamPairs set_chan]. rewrite Hm.
      apply inv_set_loop; [done|]. split; [done|]. by apply (inv_map _ Hinv) in Hm as [_ ?].
    + pose proof (inv_create (set_chan h rest) (requestID s) Hinv' Hm Hl) as Hcr.
      unfold getStreamPair in *. cbn [h_streamPairs set_chan] in *. rewrite Hm in *.
      destruct Hcr as (Hcr & _ & Hpair). apply inv_set_loop; [done|]. split; [done|].
      eexists. split; [exact Hpair|done].
  - pose proof (inv_loop _ Hinv) as Hlp. rewrite Hl in Hlp. destruct Hlp as [Hv (x & Hx & Hid)].
    simplify_eq. destruct (add_spec pr s (inv_pairs _ Hinv _ _ Hp) Hv (eq_sym Hid)) as (r & y & Hadd & Hok & Hyid & Hdata & Hcomp).
    rewrite Ha in Hadd. simplify_eq. unfold added.
    assert (inv (set_pair h p y) ∨ r = inl true) as Hset.
    { case_decide; [by right|]. left. destruct (inv_set_pair h p pr y [] Hinv Hp Hok Hyid Hdata) as []; [by left|].
      cbn in *. rewrite app_nil_r in *. by split. }
    destruct r as [[]|err].
    + cbn in Hcomp. pose proof (inv_set_pair h p pr y [p] Hinv Hp Hok Hyid Hdata (or_intror (conj eq_refl Hcomp))) as Hi.
      by apply inv_set_loop.
    + destruct Hset as [Hset|?]; [|done]. by apply inv_set_loop.
    + destruct Hset as [Hset|?]; [|done]. apply inv_set_loop; [done|]. cbn.
      exists y. apply list_lookup_insert_eq. by eapply lookup_lt_Some.
  - apply inv_set_loop; [|done]. by apply inv_write.
  - by apply inv_set_loop.
  - by apply inv_forward.
  - apply inv_set_monitor; [by apply inv_write|]. unfold printError, write. destruct (pr_errorStream pr); cbn; by eexists.
  - apply inv_set_monitor; [done|by eexists].
  - apply inv_remove; [done|by eexists|done].
Qed.

Lemma handler_reachable_inv h : reachable h → inv h.
Proof.
  intros Hr. pose proof inv_start as Hi. unfold reachable in Hr. revert Hi. induction Hr; eauto using inv_step.
Qed.

(** C31: in every interleaving of the client, the loop, the monitors and the forwarding
    goroutines: nothing panics (in particular no channel is closed twice), a pair is
    forwarded at most once, and what is forwarded is a data stream whose error
    stream has the same request ID, to the port its header names, between 1 and
    65535. *)
Theorem forwards_sound h :
  reachable h →
  (∀ msg, h_loop h ≠ Panicked msg) ∧ NoDup (fst ∘ fst <$> h_forwards h) ∧
  ∀ p port d, (p, port, d) ∈ h_forwards h →
    (1 ≤ port < 2 ^ 16)%Z ∧ ParseUint (stream_Get d PortHeader) 16 = inl port ∧
    ∃ pr e, h_pairs h !! p = Some pr ∧ pr_dataStream pr = Some d ∧ pr_errorStream pr = Some e ∧
      stream_type d = StreamTypeData ∧ stream_type e = StreamTypeError ∧ requestID d = requestID e.
Proof.
  intros []%handler_reachable_inv. split_and!.
  - intros msg Hl. by rewrite Hl in *.
  - by apply NoDup_app in inv_once0 as (_ & _ & ?).
  - intros p port d Hf. destruct (inv_forwards0 _ _ _ Hf) as (Hr & Hport & pr & Hp & Hd). do 2 (split; [done|]).
    assert (p ∈ forwarded h) as (pr' & Hp' & Hc)%inv_complete0.
    { unfold forwarded. apply elem_of_app. right. by apply (list_elem_of_fmap_2' _ _ (p, port, d)). }
    assert (pr' = pr) as -> by congruence. destruct (inv_pairs0 _ _ Hp) as [Hdata Herr Hco].
    rewrite Hc in Hco. symmetry in Hco. apply bool_decide_eq_true in Hco as [_ [e He]]. exists pr, e.
    apply Hdata in Hd as Hd'. apply Herr in He as He'. naive_solver congruence.
Qed.

(** Every complete pair is handed to the forwarder, or is about to be. *)
Theorem complete_forwarded h p pr :
  reachable h → h_pairs h !! p = Some pr → is_Some (pr_dataStream pr) → is_Some (pr_errorStream pr) → p ∈ forwarded h.
Proof.
  intros []%handler_reachable_inv Hp Hd He. apply inv_complete0. exists pr. split; [done|].
  rewrite (ok_complete _ (inv_pairs0 _ _ Hp)). by apply bool_decide_eq_true_2.
Qed.

Lemma monitor_finishes h p :
  inv h → is_Some (h_monitors h !! p) →
  ∃ h', rtc step_monitor h h' ∧ inv h' ∧ h_monitors h' = delete p (h_monitors h).
Proof.
  intros Hinv Hm. destruct (inv_monitors _ Hinv _ Hm) as [pr Hp].
  assert (∃ g, rtc step_monitor h g ∧ inv g ∧ h_monitors g !! p = Some Removing ∧ h_pairs g !! p = Some pr ∧
               delete p (h_monitors g) = delete p (h_monitors h)) as (g & Hhg & Hg & Hgm & Hgp & Hdel).
  { destruct Hm as [[] Hm].
    - exists (set_monitor (printError h pr (timedOutError pr)) p Removing).
      assert (step_monitor h (set_monitor (printError h pr (timedOutError pr)) p Removing)) as Hstep by by apply monitor_timeout.
      split_and!.
      + by apply rtc_once.
      + eapply inv_step; [done|by right].
      + cbn. apply lookup_insert_eq.
      + unfold printError, write. by destruct (pr_errorStream pr).
      + cbn. rewrite delete_insert_eq. unfold printError, write. by destruct (pr_errorStream pr).
    - by exists h. }
  assert (step_monitor g (removeStreamPair g p (pr_requestID pr))) as Hstep by by apply monitor_remove.
  exists (removeStreamPair g p (pr_requestID pr)). split_and!.
  - by eapply rtc_r.
  - eapply inv_step; [done|by right].
  - done.
Qed.

(** Pairs do not leak: whatever the client does, the monitors alone can empty the
    map, and then no request is known. *)
Theorem monitors_drain h :
  reachable h →
  ∃ h', rtc step_monitor h h' ∧ h_monitors h' = ∅ ∧ h_streamPairs h' = ∅ ∧ ∀ id, hasStreamPair h' id = false.
Proof.
  intros Hinv%handler_reachable_inv.
  assert (∃ h', rtc step_monitor h h' ∧ inv h' ∧ h_monitors h' = ∅) as (h' & Hr & Hinv' & Hm).
  { remember (size (h_monitors h)) as n eqn:Hn. revert h Hn Hinv. induction n as [|n IH]; intros h Hn Hinv.
    { exists h. split_and!; [done|done|]. by apply map_size_empty_inv. }
    destruct (map_choose (h_monitors h)) as (p & m & Hp). { intros He. rewrite He, map_size_empty in Hn. lia. }
    destruct (monitor_finishes h p Hinv) as (g & Hhg & Hg & Hgm); [by eexists|].
    destruct (IH g) as (h' & Hr & Hinv' & Hm); [|done|exists h'; split; [by etrans|done]].
    rewrite Hgm, map_size_delete_Some by by eexists. lia. }
  exists h'. assert (h_streamPairs h' = ∅) as Hs.
  { apply map_empty. intros id. apply eq_None_not_Some. intros [p [[m Hp] _]%(inv_map _ Hinv')].
    by rewrite Hm, lookup_empty in Hp. }
  split_and!; [done..|]. intros id. unfold hasStreamPair. rewrite Hs, lookup_empty. by apply bool_decide_eq_false_2.
Qed.

(** Clients that send no request ID: the error stream with identifier [n] and the data
    stream with identifier [n + 2] belong together, and no others do. *)
Theorem requestID_legacy e d :
  stream_type e = StreamTypeError → stream_type d = StreamTypeData →
  stream_Get e PortForwardRequestIDHeader = "" → stream_Get d PortForwardRequestIDHeader = "" →
  requestID e = requestID d ↔ (st_id d = st_id e + 2)%Z.
Proof.
  intros He Hd He' Hd'. pose proof data_error_distinct. unfold requestID.
  rewrite He, Hd, He', Hd', (bool_decide_eq_true_2 (StreamTypeError = _)), (bool_decide_eq_false_2 (StreamTypeData = StreamTypeError)),
    (bool_decide_eq_true_2 (StreamTypeData = _)) by done. cbn. split; [intros ?%Itoa_inj; lia|intros ->; f_equal; lia].
Qed.
End theorems.

(** ** Websockets *)

(** NewV4Options: [query] are the values of the port parameter. *)
Fixpoint parse_list (portString : string) (l : list string) (ports : list Z) : list Z + error :=
  match l with
  | [] => inl ports
  | p :: l =>
      match ParseUint p 16 with
      | inr err => inr (ErrorWrap "unable to parse %q as a port: %v" [portString] err)
      | inl port =>
          if (port <? 1)%Z then inr (Errorf "port %q must be > 0" [portString])
          else parse_list portString l (ports ++ [port])
      end
  end.

Fixpoint parse_ports (PortHeader : string) (query : list string) (ports : list Z) : list Z + error :=
  match query with
  | [] => inl ports
  | portString :: query =>
      if portString == "" then inr (Errorf "query parameter %q cannot be empty" [PortHeader])
      else match parse_list portString (Split portString ",") ports with
      | inr err => inr err
      | inl ports => parse_ports PortHeader query ports
      end
  end.

Definition NewV4Options `{StreamConsts} (isWebSocket : bool) (query : list string) : list Z + error :=
  if negb isWebSocket then inl []
  else if length query =? 0 then inr (Errorf "query parameter %q is required" [PortHeader])
  else parse_ports PortHeader query [].

Definition BuildV4Options (ports : list Z) : list Z + error := inl ports.

(** binary.LittleEndian.PutUint16(b, uint16(port)). *)
Definition port_bytes (port : Z) : string :=
  let v := (port mod 2 ^ 16)%Z in String (byte_of_Z v) (String (byte_of_Z (Z.shiftr v 8)) "").

Definition Uint16 (s : string) : Z :=
  match s with
  | String a (String b _) => (Z.of_N (N_of_ascii a) + 256 * Z.of_N (N_of_ascii b))%Z
  | _ => 0%Z
  end.

Section websocket.
Context {W : Type}.

Record websocketStreamPair := { ws_port : Z; ws_dataStream : W; ws_errorStream : W }.

Definition dataChannel : nat := 0.
Definition errorChannel : nat := 1.

(** The loop over the ports: the pairs, and what is written to each stream. *)
Fixpoint make_pairs (i : nat) (ports : list Z) (streams : list W)
    : outcome (list websocketStreamPair * list (W * string)) :=
  match ports with
  | [] => Ret ([], [])
  | port :: ports =>
      data ← index streams (i * 2 + dataChannel);
      err ← index streams (i * 2 + errorChannel);
      rest ← make_pairs (Datatypes.S i) ports streams;
      Ret ({| ws_port := port; ws_dataStream := data; ws_errorStream := err |} :: rest.1,
           (data, port_bytes port) :: (err, port_bytes port) :: rest.2)
  end.

(** The goroutines of run, in the order [order] they get to call the forwarder; each
    call is the port and the data stream. *)
Definition websocket_run (order : list websocketStreamPair) : list (Z * W) :=
  (λ p, (ws_port p, ws_dataStream p)) <$> order.

(** [Open] is wsstream's, asked for two channels per port. *)
Definition handleWebSocketStreams (Open : nat → list W + error) (ports : list Z)
    (schedule : list websocketStreamPair → list websocketStreamPair) : outcome ((list (W * string) * list (Z * W)) + error) :=
  match Open (length ports * 2) with
  | inr err => Ret (inr (ErrorWrap "unable to upgrade websocket connection: %v" [] err))
  | inl streams =>
      res ← make_pairs 0 ports streams;
      Ret (inl (res.2, websocket_run (schedule res.1)))
  end.
End websocket.

Lemma parse_list_range portString l ports ports' :
  Forall (λ p, 1 ≤ p < 2 ^ 16)%Z ports → parse_list portString l ports = inl ports' →
  Forall (λ p, 1 ≤ p < 2 ^ 16)%Z ports'.
Proof.
  revert ports. induction l as [|p l IH]; intros ports Hp; cbn [parse_list]; [by intros [= <-]|].
  destruct (ParseUint p 16) as [port|err] eqn:Hport; [|done].
  destruct (port <? 1)%Z eqn:Hlt; [done|]. apply Z.ltb_ge in Hlt.
  apply (ParseUint_range _ 16) in Hport; [|lia]. apply IH. apply Forall_app. split; [done|]. constructor; [lia|done].
Qed.

(** The ports a websocket client asks for are between 1 and 65535. *)
Theorem NewV4Options_range `{StreamConsts} isWebSocket query ports :
  NewV4Options isWebSocket query = inl ports → Forall (λ p, 1 ≤ p < 2 ^ 16)%Z ports.
Proof.
  unfold NewV4Options. destruct isWebSocket; cbn [negb]; [|by intros [= <-]]. destruct (length query =? 0); [done|].
  assert (Forall (λ p, 1 ≤ p < 2 ^ 16)%Z []) as Hnil by constructor. revert Hnil. generalize (@nil Z).
  induction query as [|q query IH]; intros l Hl; cbn [parse_ports]; [by intros [= <-]|].
  case_bool_decide; [done|]. destruct (parse_list q (Split q ",") l) as [l'|] eqn:Hq; [|done].
  apply IH. by eapply parse_list_range.
Qed.

#[local] Arguments Uint16 : simpl never.
#[local] Arguments port_bytes : simpl never.

Lemma port_bytes_value port : Uint16 (port_bytes port) = (port mod 2 ^ 16)%Z.
Proof.
  unfold port_bytes, Uint16, byte_of_Z. set (v := (port mod 2 ^ 16)%Z).
  assert (0 ≤ v < 2 ^ 16)%Z as Hv by (apply Z.mod_pos_bound; lia).
  change 255%Z with (Z.ones 8). rewrite !Z.land_ones by lia. rewrite Z.shiftr_div_pow2 by lia.
  pose proof (Z.mod_pos_bound v (2 ^ 8) ltac:(lia)). pose proof (Z.mod_pos_bound (v / 2 ^ 8) (2 ^ 8) ltac:(lia)).
  rewrite !N_ascii_embedding by lia. rewrite !Z2N.id by lia.
  rewrite (Z.mod_small (v / 2 ^ 8)) by (split; [apply Z.div_pos; lia|apply Z.div_lt_upper_bound; lia]).
  pose proof (Z.div_mod v (2 ^ 8) ltac:(lia)). lia.
Qed.

Lemma make_pairs_spec {W} i ports (streams : list W) :
  length streams = (i + length ports) * 2 →
  ∃ pairs writes, make_pairs i ports streams = Ret (pairs, writes) ∧ ws_port <$> pairs = ports ∧
    writes = (pairs ≫= λ p, [(ws_dataStream p, port_bytes (ws_port p)); (ws_errorStream p, port_bytes (ws_port p))]) ∧
    drop (i * 2) streams = (pairs ≫= λ p, [ws_dataStream p; ws_errorStream p]).
Proof.
  revert i. induction ports as [|port ports IH]; intros i Hlen; cbn [make_pairs].
  { exists [], []. split_and!; [done..|]. apply drop_ge. cbn in Hlen. lia. }
  cbn [length] in Hlen.
  destruct (lookup_lt_is_Some_2 streams (i * 2 + 0)) as [d Hd]; [lia|].
  destruct (lookup_lt_is_Some_2 streams (i * 2 + 1)) as [e He]; [lia|].
  destruct (IH (Datatypes.S i)) as (pairs & writes & Hm & Hports & Hw & Hdrop); [lia|].
  unfold dataChannel, errorChannel. rewrite (proj2 (index_lookup _ _ _) Hd), (proj2 (index_lookup _ _ _) He), Hm. cbn.
  eexists _, _. split; [done|]. split; [by rewrite <- Hports|]. split; [by rewrite Hw|].
  rewrite Nat.add_0_r in Hd. rewrite (drop_S _ _ _ Hd). replace (Datatypes.S (i * 2)) with (i * 2 + 1) by lia.
  rewrite (drop_S _ _ _ He). replace (Datatypes.S (i * 2 + 1)) with (Datatypes.S i * 2) by lia. by rewrite Hdrop.
Qed.

(** Over a websocket every port is forwarded once, on its own data stream, in some
    order; each of the streams, in pairs per port, is first sent its port: for ports
    from 1 to 65535 the client reads it back.  Nothing panics. *)
Theorem handleWebSocketStreams_spec {W} (Open : nat → list W + error) ports schedule streams :
  Open (length ports * 2) = inl streams → length streams = length ports * 2 → (∀ l, schedule l ≡ₚ l) →
  ∃ pairs writes calls,
    handleWebSocketStreams Open ports schedule = Ret (inl (writes, calls)) ∧
    ws_port <$> pairs = ports ∧ streams = (pairs ≫= λ p, [ws_dataStream p; ws_errorStream p]) ∧
    calls ≡ₚ (λ p, (ws_port p, ws_dataStream p)) <$> pairs ∧ writes.*1 = streams ∧
    (Forall (λ p, 1 ≤ p < 2 ^ 16)%Z ports → Uint16 <$> writes.*2 = (ports ≫= λ p, [p; p])).
Proof.
  intros Hopen Hlen Hsched. destruct (make_pairs_spec 0 ports streams) as (pairs & writes & Hm & Hports & Hw & Hs); [lia|].
  unfold handleWebSocketStreams. rewrite Hopen, Hm. cbn.
  exists pairs, writes, (websocket_run (schedule pairs)). split_and!; [done|done|by rewrite <- Hs, drop_0| |..].
  - unfold websocket_run. by rewrite Hsched.
  - rewrite drop_0 in Hs. rewrite Hs, Hw. clear. induction pairs as [|p pairs IH]; [done|]. cbn. by rewrite IH.
  - intros Hrange. rewrite <- Hports, Hw in *. clear -Hrange. induction pairs as [|p pairs IH]; [done|].
    cbn in Hrange. apply Forall_cons in Hrange as [Hp Hrange]. cbn. rewrite IH by done.
    by rewrite !port_bytes_value, Z.mod_small by lia.
Qed.

(** BuildV4Options takes the ports of the cached request as they are, so that a port
    outside the range is announced modulo 2^16 although it is forwarded as given. *)
Theorem BuildV4Options_unchecked :
  BuildV4Options [70000%Z] = inl [70000%Z] ∧
  handleWebSocketStreams (λ n, inl (seq 0 n)) [70000%Z] id =
    Ret (inl ([(0, port_bytes 4464); (1, port_bytes 4464)], [(70000%Z, 0)])).
Proof. split; reflexivity. Qed.

(** ** Concrete runs *)

Module PortForwardExamples.
#[local] Existing Instance golib_stream_consts.

Definition stream_of (id : Z) (ty port req : string) : Stream :=
  {| st_id := id; st_headers := {[ "Streamtype" := [ty]; "Port" := [port]; "Requestid" := [req] ]} |}.

Definition err_stream : Stream := stream_of 1 "error" "8080" "7".
Definition data_stream : Stream := stream_of 3 "data" "8080" "7".

(** One stream goes from the client into its pair. *)
Definition feed (h : httpStreamHandler) (s : Stream) : httpStreamHandler :=
  let h := take (set_chan h (h_streamChan h ++ [s])) s [] in
  match h_loop h with
  | Adding p s =>
      match h_pairs h !! p with
      | Some pr => let '(res, pr') := add pr s in added (set_pair h p pr') p s res
      | None => h
      end
  | _ => h
  end.

Lemma feed_reachable h s :
  reachable h → h_loop h = Idle → h_streamChan h = [] → httpStreamReceived s = None → reachable (feed h s).
Proof.
  intros Hr Hl Hc Hv. unfold feed. set (h1 := set_chan h (h_streamChan h ++ [s])).
  assert (reachable h1) as Hr1. { eapply rtc_r; [done|]. left. apply client_stream; [done|]. rewrite Hc. cbn. lia. }
  assert (reachable (take h1 s [])) as Hr2.
  { eapply rtc_r; [done|]. left. apply run_take; [done|]. cbn. by rewrite Hc. }
  destruct (h_loop (take h1 s [])) as [|p s'| | |] eqn:Hl2; try done.
  destruct (h_pairs (take h1 s []) !! p) as [pr|] eqn:Hp; [|done]. destruct (add pr s') as [res pr'] eqn:Ha.
  eapply rtc_r; [done|]. left. by eapply run_add.
Qed.

Definition paired : httpStreamHandler := feed (feed handler_start err_stream) data_stream.

Definition served : httpStreamHandler :=
  match h_ready paired, h_pairs paired !! 0 with
  | p :: l, Some pr => portForward (set_ready paired l) p pr None
  | _, _ => paired
  end.

Lemma served_reachable : reachable served.
Proof.
  assert (reachable paired) as Hp.
  { apply feed_reachable; [apply feed_reachable; [constructor|vm_compute; done..]|vm_compute; done..]. }
  eapply rtc_r; [exact Hp|]. left. apply (forward paired [] 0 []); vm_compute; reflexivity.
Qed.

Lemma forwards_sound_witness :
  h_forwards served = [(0, 8080%Z, data_stream)] ∧
  ∃ pr e, h_pairs served !! 0 = Some pr ∧ pr_dataStream pr = Some data_stream ∧ pr_errorStream pr = Some e ∧
    stream_type data_stream = StreamTypeData ∧ stream_type e = StreamTypeError ∧ requestID data_stream = requestID e.
Proof.
  assert (h_forwards served = [(0, 8080%Z, data_stream)]) as Hf by (vm_compute; reflexivity).
  split; [exact Hf|].
  destruct (@forwards_sound _ golib_stream_consts_laws served served_reachable) as (_ & _ & Hs).
  destruct (Hs 0 8080%Z data_stream) as (_ & _ & Hpr); [rewrite Hf; left|exact Hpr].
Defined.

Lemma complete_forwarded_witness : 0 ∈ forwarded served.
Proof.
  assert (is_Some (h_pairs served !! 0)) as [pr Hp] by (vm_compute; by eexists).
  apply (@complete_forwarded _ golib_stream_consts_laws served 0 pr served_reachable Hp);
    vm_compute in Hp; injection Hp as <-; by eexists.
Defined.

Lemma monitors_drain_witness :
  hasStreamPair served "7" = true ∧
  ∃ h', rtc step_monitor served h' ∧ h_monitors h' = ∅ ∧ h_streamPairs h' = ∅ ∧ ∀ id, hasStreamPair h' id = false.
Proof. split; [vm_compute; reflexivity|]. exact (@monitors_drain _ golib_stream_consts_laws served served_reachable). Defined.

Lemma requestID_legacy_witness :
  requestID (stream_of 1 "error" "80" "") = requestID (stream_of 3 "data" "80" "") ↔ (3 = 1 + 2)%Z.
Proof.
  apply (@requestID_legacy _ golib_stream_consts_laws (stream_of 1 "error" "80" "") (stream_of 3 "data" "80" ""));
    vm_compute; reflexivity.
Defined.

Lemma NewV4Options_range_witness : Forall (λ p, 1 ≤ p < 2 ^ 16)%Z [8080; 80; 443]%Z.
Proof. apply (NewV4Options_range true ["8080,80"; "443"]). vm_compute. reflexivity. Defined.

Lemma handleWebSocketStreams_spec_witness :
  ∃ pairs writes calls,
    handleWebSocketStreams (λ n, inl (seq 0 n)) [80; 443]%Z reverse = Ret (inl (writes, calls)) ∧
    ws_port <$> pairs = [80; 443]%Z ∧ [0; 1; 2; 3] = (pairs ≫= λ p, [ws_dataStream p; ws_errorStream p]) ∧
    calls ≡ₚ (λ p, (ws_port p, ws_dataStream p)) <$> pairs ∧ writes.*1 = [0; 1; 2; 3] ∧
    (Forall (λ p, 1 ≤ p < 2 ^ 16)%Z [80; 443]%Z → Uint16 <$> writes.*2 = [80; 80; 443; 443]%Z).
Proof.
  apply (handleWebSocketStreams_spec (λ n, inl (seq 0 n)) [80; 443]%Z reverse [0; 1; 2; 3]); [reflexivity|reflexivity|].
  intros l. apply reverse_Permutation.
Defined.
End PortForwardExamples.
