(* ===== verification/StreamingServer.v ===== *)
(** * The streaming server

    Models pkg/streaming/server.go: GetExec, GetAttach and GetPortForward validate a
    request and exchange it for a URL with a token of the request cache
    ([RequestCache]); serveExec, serveAttach and servePortForward redeem a token for
    the request and run it with the streams of [RemoteCommand] or [PortForward].
    Routing to the three endpoints is go-restful's. *)

From S2P Require Import Prelude GoStrings GoEncoding RequestCache RemoteCommand PortForward.

Local Open Scope go_scope.

(** The requests of golib's api package. *)
Record ExecRequest := {
  er_ContainerId : string; er_Cmd : list string; er_Tty : bool; er_Stdin : bool; er_Stdout : bool; er_Stderr : bool }.
Record AttachRequest := {
  ar_ContainerId : string; ar_Tty : bool; ar_Stdin : bool; ar_Stdout : bool; ar_Stderr : bool }.
Record PortForwardRequest := { pf_PodSandboxId : string; pf_Port : list Z }.

(** What the cache holds is an interface{} with one of the three in it. *)
Inductive request := Exec (r : ExecRequest) | Attach (r : AttachRequest) | Forward (r : PortForwardRequest).

Definition InvalidArgument (msg : string) : error := Errorf msg [].

Definition validateExecRequest (req : ExecRequest) : option error :=
  if er_ContainerId req == "" then Some (InvalidArgument "missing required container_id")
  else if er_Tty req && er_Stderr req then Some (InvalidArgument "tty and stderr cannot both be true")
  else if negb (er_Stdin req) && negb (er_Stdout req) && negb (er_Stderr req)
  then Some (InvalidArgument "one of stdin, stdout, or stderr must be set")
  else None.

Definition validateAttachRequest (req : AttachRequest) : option error :=
  if ar_ContainerId req == "" then Some (InvalidArgument "missing required container_id")
  else if ar_Tty req && ar_Stderr req then Some (InvalidArgument "tty and stderr cannot both be true")
  else if negb (ar_Stdin req) && negb (ar_Stdout req) && negb (ar_Stderr req)
  then Some (InvalidArgument "one of stdin, stdout, and stderr must be set")
  else None.

Section server.
(** The base URL's ResolveReference of a relative path, as a string. *)
Context (resolve : string → string).

(** path.Join of a method and a token: both are clean, as a token has no slash or
    dot. *)
Definition buildURL (method token : string) : string := resolve (method +:+ "/" +:+ token).

Abbreviation cache := (requestCache request).

(** The answer is the token with the URL that has it. *)
Definition insert_for (method : string) (c : cache) (now0 now1 : Z) (reads : list (string + error)) (req : request)
    : (string * string + error) * cache :=
  match Insert c now0 now1 reads req with
  | (inr err, c) => (inr err, c)
  | (inl token, c) => (inl (token, buildURL method token), c)
  end.

Definition GetExec (c : cache) (now0 now1 : Z) (reads : list (string + error)) (req : ExecRequest)
    : (string * string + error) * cache :=
  match validateExecRequest req with
  | Some err => (inr err, c)
  | None => insert_for "exec" c now0 now1 reads (Exec req)
  end.

Definition GetAttach (c : cache) (now0 now1 : Z) (reads : list (string + error)) (req : AttachRequest)
    : (string * string + error) * cache :=
  match validateAttachRequest req with
  | Some err => (inr err, c)
  | None => insert_for "attach" c now0 now1 reads (Attach req)
  end.

Definition GetPortForward (c : cache) (now0 now1 : Z) (reads : list (string + error)) (req : PortForwardRequest)
    : (string * string + error) * cache :=
  if pf_PodSandboxId req == "" then (inr (InvalidArgument "missing required pod_sandbox_id"), c)
  else insert_for "portforward" c now0 now1 reads (Forward req).

Definition get (c : cache) (now0 now1 : Z) (reads : list (string + error)) (req : request)
    : (string * string + error) * cache :=
  match req with
  | Exec r => GetExec c now0 now1 reads r
  | Attach r => GetAttach c now0 now1 reads r
  | Forward r => GetPortForward c now0 now1 reads r
  end.

(** ** Serving *)

(** What a handler does: http.NotFound, or a call of ServeExec, ServeAttach or
    ServePortForward. *)
Inductive answer :=
  | NotFound
  | ServedExec (container : string) (cmd : list string) (opts : Options)
  | ServedAttach (container : string) (opts : Options)
  | ServedPortForward (sandbox : string) (ports : list Z)
  | BadRequest (err : error).

Definition serveExec (c : cache) (now : Z) (token : string) : outcome (answer * cache) :=
  res ← Consume c now token;
  Ret (match res.1 with
       | Some (Exec exec) =>
           ServedExec (er_ContainerId exec) (er_Cmd exec)
             {| o_Stdin := er_Stdin exec; o_Stdout := er_Stdout exec; o_Stderr := er_Stderr exec; o_TTY := er_Tty exec |}
       | _ => NotFound
       end, res.2).

Definition serveAttach (c : cache) (now : Z) (token : string) : outcome (answer * cache) :=
  res ← Consume c now token;
  Ret (match res.1 with
       | Some (Attach attach) =>
           ServedAttach (ar_ContainerId attach)
             {| o_Stdin := ar_Stdin attach; o_Stdout := ar_Stdout attach; o_Stderr := ar_Stderr attach; o_TTY := ar_Tty attach |}
       | _ => NotFound
       end, res.2).

Definition servePortForward (c : cache) (now : Z) (token : string) : outcome (answer * cache) :=
  res ← Consume c now token;
  Ret (match res.1 with
       | Some (Forward pf) =>
           match BuildV4Options (pf_Port pf) with
           | inr err => BadRequest err
           | inl ports => ServedPortForward (pf_PodSandboxId pf) ports
           end
       | _ => NotFound
       end, res.2).

Inductive endpoint := ExecEndpoint | AttachEndpoint | PortForwardEndpoint.

#[global] Instance endpoint_eq_dec : EqDecision endpoint.
Proof. solve_decision. Defined.

Definition serve (ep : endpoint) : cache → Z → string → outcome (answer * cache) :=
  match ep with
  | ExecEndpoint => serveExec
  | AttachEndpoint => serveAttach
  | PortForwardEndpoint => servePortForward
  end.

(** ** What the server promises *)

Definition endpoint_of (r : request) : endpoint :=
  match r with Exec _ => ExecEndpoint | Attach _ => AttachEndpoint | Forward _ => PortForwardEndpoint end.

(** What a request asks to run. *)
Definition run_of (r : request) : answer :=
  match r with
  | Exec r => ServedExec (er_ContainerId r) (er_Cmd r)
                {| o_Stdin := er_Stdin r; o_Stdout := er_Stdout r; o_Stderr := er_Stderr r; o_TTY := er_Tty r |}
  | Attach r => ServedAttach (ar_ContainerId r)
                  {| o_Stdin := ar_Stdin r; o_Stdout := ar_Stdout r; o_Stderr := ar_Stderr r; o_TTY := ar_Tty r |}
  | Forward r => ServedPortForward (pf_PodSandboxId r) (pf_Port r)
  end.

Definition answer_ok (a : answer) : Prop :=
  match a with
  | NotFound => True
  | ServedExec container _ opts | ServedAttach container opts => container ≠ "" ∧ opts_ok opts
  | ServedPortForward sandbox _ => sandbox ≠ ""
  | BadRequest _ => False
  end.

(** The history of the server, latest first. *)
Inductive event :=
  | Issued (token : string) (r : request) (t : Z)
  | Presented (token : string) (ep : endpoint) (t : Z) (a : answer).

Definition presents (token : string) (e : event) : Prop :=
  match e with Presented token' _ _ _ => token' = token | _ => False end.

(** The clock does not go backwards, and rand.Read fills the whole buffer. *)
Inductive history : Z → cache → list event → Prop :=
  | history_start t : history t newRequestCache []
  | history_get t c log now0 now1 reads r token url c' :
      history t c log → (t ≤ now0 ≤ now1)%Z → (∀ raw, inl raw ∈ reads → slen raw = tokenSize) →
      get c now0 now1 reads r = (inl (token, url), c') → history now1 c' (Issued token r now1 :: log)
  | history_refused t c log now0 now1 reads r err c' :
      history t c log → (t ≤ now0 ≤ now1)%Z → (∀ raw, inl raw ∈ reads → slen raw = tokenSize) →
      get c now0 now1 reads r = (inr err, c') → history now1 c' log
  | history_serve t c log ep now token a c' :
      history t c log → (t ≤ now)%Z → serve ep c now token = Ret (a, c') →
      history now c' (Presented token ep now a :: log).
End server.

(** ** Theorems *)

Section theorems.
Context (resolve : string → string).
Abbreviation cache := (requestCache request).
Abbreviation get := (get resolve).
Abbreviation history := (history resolve).

Lemma cache_inv_later t t' (c : cache) : (t ≤ t')%Z → cache_inv t c → cache_inv t' c.
Proof. intros Ht [? ? ? ? ? Htime ?]. split; try done. intros el Hel. specialize (Htime _ Hel). lia. Qed.

Lemma newRequestCache_inv t : cache_inv t (newRequestCache (request := request)).
Proof.
  split; cbn; try (by constructor); try (by intros el ?%not_elem_of_nil); [|unfold maxInFlight; lia].
  intros token id. rewrite lookup_empty. split; [done|]. by intros (e & ?%not_elem_of_nil & _).
Qed.

(** Asking: either nothing but expiry happens to the cache, or the request was valid
    and has been inserted. *)
Lemma get_spec c now0 now1 reads r :
  match get c now0 now1 reads r with
  | (inl (token, url), c') => answer_ok (run_of r) ∧ Insert c now0 now1 reads r = (inl token, c')
  | (inr err, c') => c' = c ∨ Insert c now0 now1 reads r = (inr err, c')
  end.
Proof.
  destruct r as [[cont cmd tty i o e]|[cont tty i o e]|[pod ports]]; cbn.
  - unfold GetExec, validateExecRequest, insert_for. cbn. case_bool_decide; [by left|].
    destruct (tty && e) eqn:Hte; [by left|].
    destruct (negb i && negb o && negb e) eqn:Hio; [by left|].
    destruct (Insert _ _ _ _ _) as [[token|err] c']; [|by right]. split; [|done]. split; [done|]. unfold opts_ok; cbn.
    split; [by destruct i, o, e|done].
  - unfold GetAttach, validateAttachRequest, insert_for. cbn. case_bool_decide; [by left|].
    destruct (tty && e) eqn:Hte; [by left|].
    destruct (negb i && negb o && negb e) eqn:Hio; [by left|].
    destruct (Insert _ _ _ _ _) as [[token|err] c']; [|by right]. split; [|done]. split; [done|]. unfold opts_ok; cbn.
    split; [by destruct i, o, e|done].
  - unfold GetPortForward, insert_for. cbn. case_bool_decide; [by left|].
    by destruct (Insert _ _ _ _ _) as [[token|err] c']; [|right].
Qed.

(** Serving redeems the token, and runs the request at its own endpoint only. *)
Lemma serve_spec ep c now token :
  serve ep c now token =
  res ← Consume c now token;
  Ret (match res.1 with
       | Some r => if decide (ep = endpoint_of r) then run_of r else NotFound
       | None => NotFound
       end, res.2).
Proof.
  destruct ep; cbn; [unfold serveExec|unfold serveAttach|unfold servePortForward];
    (destruct (Consume c now token) as [[[[]|] c']|msg]; done).
Qed.

Record server_inv (t : Z) (c : cache) (log : list event) : Prop := {
  si_cache : cache_inv t c;
  si_issued : ∀ token r x, outstanding c !! token = Some (r, x) →
    answer_ok (run_of r) ∧
    ∃ l1 l2, log = l1 ++ Issued token r (x - cacheTTL) :: l2 ∧ Forall (λ e, ¬ presents token e) l1;
}.

Lemma history_inv t c log : history t c log → server_inv t c log.
Proof.
  induction 1 as [t|t c log now0 now1 reads r token url c' _ [Hc Hi] Ht Hreads Hget
                   |t c log now0 now1 reads r err c' _ [Hc Hi] Ht Hreads Hget|t c log ep now token a c' _ [Hc Hi] Ht Hs].
  - split; [apply newRequestCache_inv|]. intros token r x. unfold outstanding. cbn. by rewrite lookup_empty.
  - pose proof (get_spec c now0 now1 reads r) as Hg. rewrite Hget in Hg. destruct Hg as [Hok Hins].
    pose proof (Insert_spec t now0 now1 c reads r Hc Ht Hreads) as Hspec. rewrite Hins in Hspec.
    destruct Hspec as (Hc' & _ & _ & Hout). split; [done|]. intros token' r' x. rewrite Hout.
    intros [[<- [= <- <-]]|[Hne [Hl _]%live_lookup]]%lookup_insert_Some.
    + split; [done|]. exists [], log. split; [|constructor]. cbn. do 2 f_equal. lia.
    + destruct (Hi _ _ _ Hl) as (Hr & l1 & l2 & -> & Hp). split; [done|].
      exists (Issued token r now1 :: l1), l2. split; [done|]. constructor; [by intros []|done].
  - pose proof (get_spec c now0 now1 reads r) as Hg. rewrite Hget in Hg. destruct Hg as [->|Hins].
    + split; [|done]. eapply cache_inv_later; [|done]. lia.
    + pose proof (Insert_spec t now0 now1 c reads r Hc Ht Hreads) as Hspec. rewrite Hins in Hspec.
      destruct Hspec as (Hc' & Hout & _). split; [done|]. intros token' r' x. rewrite Hout.
      intros [Hl _]%live_lookup. by apply Hi.
  - rewrite serve_spec in Hs. destruct (Consume_spec t now c token Hc) as (c1 & Hcons & Hc1 & Hout).
    rewrite Hcons in Hs. cbn in Hs. injection Hs as _ <-.
    split; [by eapply cache_inv_later|]. intros token' r x. rewrite Hout. intros [Hne Hl]%lookup_delete_Some.
    destruct (Hi _ _ _ Hl) as (Hr & l1 & l2 & -> & Hp). split; [done|].
    exists (Presented token ep now a :: l1), l2. split; [done|]. by constructor.
Qed.

(** C30: whatever is asked of the server and whatever tokens are presented: a handler never
    panics, and when it runs anything, it runs a request for which the presented token
    was issued at most [cacheTTL] earlier, exactly as it was asked for, at the endpoint
    for its kind; the token was not presented in between, so it runs at most once;
    and the request names a container or sandbox and, for commands, has at least one
    stream and no separate standard error on a terminal. *)
Theorem streaming_single_use t c log ep now token :
  history t c log → (t ≤ now)%Z →
  ∃ a c', serve ep c now token = Ret (a, c') ∧ answer_ok a ∧
    (a ≠ NotFound →
     ∃ l1 r t0 l2, log = l1 ++ Issued token r t0 :: l2 ∧ Forall (λ e, ¬ presents token e) l1 ∧
       (now ≤ t0 + cacheTTL)%Z ∧ ep = endpoint_of r ∧ a = run_of r).
Proof.
  intros [Hc Hi]%history_inv Ht. rewrite serve_spec.
  destruct (Consume_spec t now c token Hc) as (c1 & -> & _ & _). cbn. eexists _, _. split; [done|].
  destruct (outstanding c !! token) as [[r x]|] eqn:Hl; cbn; [|done].
  destruct (x <? now)%Z eqn:Hx; cbn; [done|]. apply Z.ltb_ge in Hx.
  destruct (Hi _ _ _ Hl) as (Hr & l1 & l2 & -> & Hp). case_decide; [|done]. split; [done|]. intros _.
  exists l1, r, (x - cacheTTL)%Z, l2. split_and!; [done|done|lia|done|done].
Qed.

(** A request that was accepted is run when its token is presented at its endpoint in
    time. *)
Theorem streaming_served t c log now0 now1 reads r token url c' now :
  history t c log → (t ≤ now0 ≤ now1)%Z → (∀ raw, inl raw ∈ reads → slen raw = tokenSize) →
  get c now0 now1 reads r = (inl (token, url), c') → (now1 ≤ now ≤ now1 + cacheTTL)%Z →
  ∃ c'', serve (endpoint_of r) c' now token = Ret (run_of r, c'').
Proof.
  intros [Hc _]%history_inv Ht Hreads Hget Hnow.
  pose proof (get_spec c now0 now1 reads r) as Hg. rewrite Hget in Hg. destruct Hg as [_ Hins].
  pose proof (Insert_spec t now0 now1 c reads r Hc Ht Hreads) as Hspec. rewrite Hins in Hspec.
  destruct Hspec as (Hc' & _ & _ & Hout). rewrite serve_spec.
  destruct (Consume_spec now1 now c' token Hc') as (c1 & -> & _ & _). rewrite Hout, lookup_insert_eq.
  rewrite (proj2 (Z.ltb_ge _ _)) by lia. cbn. rewrite decide_True by done. by eexists.
Qed.
End theorems.

(** ** Errors *)

Section errors.
(** The codes of google.golang.org/grpc/codes the code tells apart, and FromError. *)
Inductive code := CodeNotFound | CodeResourceExhausted | OtherCode.
Context (FromError : error → code) (Error : error → string).

(** The status, the Retry-After header and the body written. *)
Definition WriteError (err : error) : Z * option string * string :=
  let '(status, retry) :=
    match FromError err with
    | CodeNotFound => (404%Z, None)
    | CodeResourceExhausted => (429%Z, Some (Streams.Itoa (cacheTTL / 1000000000)))
    | OtherCode => (500%Z, None)
    end in
  (status, retry, Error err).

(** A client that is refused for lack of room is told to come back when every request
    outstanding now has expired. *)
Theorem WriteError_retry :
  FromError ErrorTooManyInFlight = CodeResourceExhausted →
  WriteError ErrorTooManyInFlight = (429%Z, Some "60", Error ErrorTooManyInFlight).
Proof. intros Hf. unfold WriteError. by rewrite Hf. Qed.
End errors.

(** ** Witnesses *)

Module StreamingServerExamples.
Definition ls : ExecRequest :=
  {| er_ContainerId := "c1"; er_Cmd := ["ls"]; er_Tty := false; er_Stdin := false; er_Stdout := true; er_Stderr := true |}.

Definition issued : requestCache request := (GetExec id newRequestCache 0 0 [inl "abcdef"] ls).2.

Lemma issued_history : history id 0 issued [Issued "YWJjZGVm" (Exec ls) 0].
Proof.
  apply (history_get id 0 newRequestCache [] 0 0 [inl "abcdef"] (Exec ls) "YWJjZGVm" "exec/YWJjZGVm"); [constructor|lia| |reflexivity].
  intros raw Hr. apply list_elem_of_singleton in Hr. injection Hr as ->. reflexivity.
Qed.

Lemma streaming_single_use_witness :
  ∃ a c', serve ExecEndpoint issued 5 "YWJjZGVm" = Ret (a, c') ∧ answer_ok a ∧ a = run_of (Exec ls).
Proof.
  destruct (streaming_single_use id 0 issued _ ExecEndpoint 5 "YWJjZGVm" issued_history ltac:(lia)) as (a & c' & Hs & Hok & Hrun).
  exists a, c'. split; [exact Hs|]. split; [exact Hok|].
  vm_compute in Hs. injection Hs as <- _. reflexivity.
Defined.

Lemma streaming_served_witness :
  ∃ c'', serve ExecEndpoint issued 5 "YWJjZGVm" = Ret (run_of (Exec ls), c'').
Proof.
  apply (streaming_served id 0 newRequestCache [] 0 0 [inl "abcdef"] (Exec ls) "YWJjZGVm" "exec/YWJjZGVm" issued 5);
    [constructor|lia| |reflexivity|unfold cacheTTL; lia].
  intros raw Hr. apply list_elem_of_singleton in Hr. injection Hr as ->. reflexivity.
Defined.

(** At the wrong endpoint the token is refused and used up. *)
Example wrong_endpoint :
  ∃ c', serve AttachEndpoint issued 5 "YWJjZGVm" = Ret (NotFound, c') ∧
        serve ExecEndpoint c' 6 "YWJjZGVm" = Ret (NotFound, c').
Proof. eexists. split; vm_compute; reflexivity. Qed.
End StreamingServerExamples.
