(* ===== verification/Histograms.v ===== *)
(** * Weighted and timing histograms

    Models components/metrics/prometheusextension/weighted_histogram.go and
    timing_histogram.go.  A float64 is a binary64 number of the Standard Library's
    SpecFloat, with its rounding; bucket counts are uint64 and wrap around.  Each
    method runs under the histogram's lock and is one transition.  What the
    Prometheus library does with the numbers, and its default buckets, are
    parameters. *)

From Stdlib Require Import SpecFloat.
From S2P Require Import Prelude RbacFile.

Local Open Scope go_scope.

(** ** float64 *)

Definition float64 : Type := spec_float.

Definition fadd : float64 → float64 → float64 := SFadd 53 1024.
Definition fsub : float64 → float64 → float64 := SFsub 53 1024.
Definition fmul : float64 → float64 → float64 := SFmul 53 1024.
Definition fdiv : float64 → float64 → float64 := SFdiv 53 1024.
(** float64(n) *)
Definition float_of_Z (n : Z) : float64 := binary_normalize 53 1024 n 0 false.
(** a >= b and a > b; false when one is not a number. *)
Definition fge (a b : float64) : bool := SFleb b a.
Definition fgt (a b : float64) : bool := SFltb b a.
Definition is_nan (f : float64) : bool := match f with S754_nan => true | _ => false end.
(** math.IsInf(f, +1) *)
Definition IsInf_pos (f : float64) : bool := match f with S754_infinity false => true | _ => false end.

Definition uint64 (z : Z) : Z := (z mod 2 ^ 64)%Z.

(** sort.SearchFloat64s: the index as specified by Search. *)
Definition SearchFloat64s (a : list float64) (x : float64) : nat :=
  sort_Search (length a) (λ i, match a !! i with Some b => fge b x | None => false end).

(** ** The weighted histogram *)

Record weightedHistogram := {
  hg_upperBounds : list float64;
  hg_buckets : list Z;
  hg_sumHot : float64;
  hg_sumCold : float64;
  hg_transferThreshold : float64;
  hg_hotCount : Z;
}.

Definition initialHotCount : Z := -15.

(** The loop over the buckets: the bounds without a final +Inf, or an error. *)
Fixpoint check_buckets (buckets : list float64) : list float64 + error :=
  match buckets with
  | [] => inl []
  | upperBound :: rest =>
      match rest with
      | next :: _ =>
          if fge upperBound next
          then inr (Errorf "histogram buckets must be in increasing order: %f >= %f" [])
          else match check_buckets rest with
               | inl l => inl (upperBound :: l)
               | inr err => inr err
               end
      | [] => if IsInf_pos upperBound then inl [] else inl [upperBound]
      end
  end.

Definition newWeightedHistogram (DefBuckets buckets : list float64) : weightedHistogram + error :=
  let buckets := if length buckets =? 0 then DefBuckets else buckets in
  match check_buckets buckets with
  | inr err => inr err
  | inl upperBounds =>
      inl {| hg_upperBounds := upperBounds; hg_buckets := replicate (length upperBounds + 1) 0%Z;
             hg_sumHot := S754_zero false; hg_sumCold := S754_zero false; hg_transferThreshold := S754_zero false;
             hg_hotCount := initialHotCount |}
  end.

Definition updateLocked (sh : weightedHistogram) (idx : nat) (value : float64) (weight : Z) : outcome weightedHistogram :=
  b ← index (hg_buckets sh) idx;
  let buckets := <[idx := uint64 (b + weight)]> (hg_buckets sh) in
  let newSumHot := fadd (hg_sumHot sh) (fmul (float_of_Z weight) value) in
  let hotCount := (hg_hotCount sh + 1)%Z in
  let keep hotCount :=
    {| hg_upperBounds := hg_upperBounds sh; hg_buckets := buckets; hg_sumHot := newSumHot;
       hg_sumCold := hg_sumCold sh; hg_transferThreshold := hg_transferThreshold sh; hg_hotCount := hotCount |} in
  Ret (if (0 <=? hotCount)%Z then
         if fgt (SFabs newSumHot) (hg_transferThreshold sh) then
           let newSumCold := fadd (hg_sumCold sh) newSumHot in
           {| hg_upperBounds := hg_upperBounds sh; hg_buckets := buckets; hg_sumHot := S754_zero false;
              hg_sumCold := newSumCold; hg_transferThreshold := SFabs (fdiv newSumCold (float_of_Z 67108864));
              hg_hotCount := initialHotCount |}
         else keep initialHotCount
       else keep hotCount).

(** ObserveWithWeight takes the lock first; observeWithWeightLocked has it. *)
Definition ObserveWithWeight (sh : weightedHistogram) (value : float64) (weight : Z) : outcome weightedHistogram :=
  updateLocked sh (SearchFloat64s (hg_upperBounds sh) value) value weight.

(** The loop of Write: the running count at each bound. *)
Fixpoint write_loop (idx : nat) (bounds : list float64) (buckets : list Z) (count : Z)
    : outcome (Z * list (float64 * Z)) :=
  match bounds with
  | [] => Ret (count, [])
  | upperBound :: bounds =>
      b ← index buckets idx;
      let count := uint64 (count + b) in
      rest ← write_loop (S idx) bounds buckets count;
      Ret (rest.1, (upperBound, count) :: rest.2)
  end.

(** The count, the sum and the buckets that go to NewConstHistogram. *)
Definition Write (sh : weightedHistogram) : outcome (Z * float64 * list (float64 * Z)) :=
  res ← write_loop 0 (hg_upperBounds sh) (hg_buckets sh) 0;
  b ← index (hg_buckets sh) (length (hg_upperBounds sh));
  Ret (uint64 (res.1 + b), fadd (hg_sumHot sh) (hg_sumCold sh), res.2).

(** ** The timing histogram *)

Record timingHistogram := { th_weighted : weightedHistogram; th_lastSetTime : Z; th_value : float64 }.

(** A nil or incomplete pair of MakeLabelPairs is [None]. *)
Definition newTimingHistogram (DefBuckets : list float64) (labels : list (option (string * string))) (now : Z)
    (buckets : list float64) (initialValue : float64) : timingHistogram + error :=
  if existsb (λ p, p == None) labels then inr (Errorf "prometheus.MakeLabelPairs returned a nil" [])
  else match newWeightedHistogram DefBuckets buckets with
  | inr err => inr err
  | inl weighted => inl {| th_weighted := weighted; th_lastSetTime := now; th_value := initialValue |}
  end.

(** time.Time.Sub saturates at the ends of int64. *)
Definition time_Sub (t u : Z) : Z := (- 2 ^ 63) `max` ((t - u) `min` (2 ^ 63 - 1)).

Definition update (th : timingHistogram) (now : Z) (updateFn : float64 → float64) : outcome timingHistogram :=
  let delta := time_Sub now (th_lastSetTime th) in
  let value := th_value th in
  if (0 <? delta)%Z then
    weighted ← ObserveWithWeight (th_weighted th) value (uint64 delta);
    Ret {| th_weighted := weighted; th_lastSetTime := now; th_value := updateFn value |}
  else Ret {| th_weighted := th_weighted th; th_lastSetTime := th_lastSetTime th; th_value := updateFn value |}.

Definition th_Set (newValue : float64) : float64 → float64 := λ _, newValue.
Definition th_Inc : float64 → float64 := λ oldValue, fadd oldValue (float_of_Z 1).
Definition th_Dec : float64 → float64 := λ oldValue, fsub oldValue (float_of_Z 1).
Definition th_Add (delta : float64) : float64 → float64 := λ oldValue, fadd oldValue delta.
Definition th_Sub (delta : float64) : float64 → float64 := λ oldValue, fsub oldValue delta.

(** time.Duration.Seconds. *)
Definition Seconds (d : Z) : float64 :=
  fadd (float_of_Z (d ÷ 1000000000)) (fdiv (float_of_Z (Z.rem d 1000000000)) (float_of_Z 1000000000)).

(** The clock is read again, [now'], inside the update; time.Unix(0, 0) is zero. *)
Definition th_SetToCurrentTime (now' : Z) : float64 → float64 := λ _, Seconds (time_Sub now' 0).

Definition th_Write (th : timingHistogram) (now : Z) : outcome (timingHistogram * (Z * float64 * list (float64 * Z))) :=
  th ← update th now (th_Add (S754_zero false));
  res ← Write (th_weighted th);
  Ret (th, res).

(** ** The order of floats

    A float that is a number is placed by a triple, compared lexicographically. *)

Definition fkey (f : float64) : Z * Z * Z :=
  match f with
  | S754_infinity true => (-2, 0, 0)%Z
  | S754_finite true m e => (-1, - e, Z.neg m)%Z
  | S754_zero _ | S754_nan => (0, 0, 0)%Z
  | S754_finite false m e => (1, e, Z.pos m)%Z
  | S754_infinity false => (2, 0, 0)%Z
  end.

Definition key_le (k l : Z * Z * Z) : Prop :=
  let '(a, b, c) := k in let '(a', b', c') := l in
  (a < a' ∨ a = a' ∧ (b < b' ∨ b = b' ∧ c ≤ c'))%Z.

Lemma fge_key a b : is_nan a = false → is_nan b = false → fge a b = true ↔ key_le (fkey b) (fkey a).
Proof.
  unfold fge, SFleb, key_le. destruct a as [|[]| |[] m e], b as [|[]| |[] n k]; try done; intros _ _; cbn;
    try (split; [lia|done]); try (split; [done|lia]).
  - change (Pos.compare_cont Eq n m) with (Pos.compare n m).
    destruct (Z.compare_spec k e), (Pos.compare_spec n m); cbn; (split; [lia|try done; lia]).
  - change (Pos.compare_cont Eq n m) with (Pos.compare n m).
    destruct (Z.compare_spec k e), (Pos.compare_spec n m); cbn; (split; [lia|try done; lia]).
Qed.

Lemma key_le_trans k l m : key_le k l → key_le l m → key_le k m.
Proof. destruct k as [[? ?] ?], l as [[? ?] ?], m as [[? ?] ?]. cbn. lia. Qed.

Lemma key_le_total k l : key_le k l ∨ key_le l k.
Proof. destruct k as [[? ?] ?], l as [[? ?] ?]. cbn. lia. Qed.

Lemma fge_trans a b c :
  is_nan a = false → is_nan b = false → is_nan c = false → fge a b = true → fge b c = true → fge a c = true.
Proof. intros Ha Hb Hc. rewrite !fge_key by done. intros ? ?. by eapply key_le_trans. Qed.

Lemma fge_false a b : is_nan a = false → is_nan b = false → fge a b = false → fge b a = true.
Proof.
  intros Ha Hb Hab. apply not_true_iff_false in Hab. rewrite fge_key in Hab |- * by done.
  by destruct (key_le_total (fkey b) (fkey a)).
Qed.

(** ** Theorems *)

Definition numbers (l : list float64) : Prop := Forall (λ f, is_nan f = false) l.

(** The bounds a histogram keeps are the ones given, less a final +Inf, strictly
    increasing. *)
Definition increasing (l : list float64) : Prop :=
  ∀ i j a b, i < j → l !! i = Some a → l !! j = Some b → fge a b = false.

Lemma check_buckets_spec l :
  numbers l →
  match check_buckets l with
  | inl l' => increasing l ∧ ∃ tail, l = l' ++ tail ∧ (tail = [] ∨ tail = [S754_infinity false])
  | inr _ => ¬ increasing l
  end.
Proof.
  induction l as [|a l IH]; intros Hnum; cbn [check_buckets].
  { split; [intros i j ? ? _ Hi; done|]. exists []. split; [done|by left]. }
  apply Forall_cons in Hnum as [Ha Hnum]. destruct l as [|b l].
  - assert (increasing [a]) as Hinc. { intros [|i] [|j] x y Hij Hx Hy; try done; try lia. }
    destruct a as [|[]| |]; cbn; (split; [done|]); try (exists []; split; [done|by left]).
    exists [S754_infinity false]. split; [done|by right].
  - destruct (fge a b) eqn:Hab. { intros Hinc. specialize (Hinc 0 1 a b ltac:(lia) eq_refl eq_refl). congruence. }
    specialize (IH Hnum). destruct (check_buckets (b :: l)) as [l'|err].
    + destruct IH as (Hinc & tail & Htail & Ht). split; [|exists tail; split; [cbn; by rewrite <- Htail|done]].
      intros [|i] [|j] x y Hij Hx Hy; try lia; [|by apply (Hinc i j); [lia|..]].
      injection Hx as <-. cbn in Hy. destruct j as [|j]; [by injection Hy as <-|].
      pose proof (Hinc 0 (Datatypes.S j) b y ltac:(lia) eq_refl Hy) as Hby.
      apply list_elem_of_lookup_2 in Hy as Hin. apply Forall_cons in Hnum as Hnum'. destruct Hnum' as [Hb _].
      apply (proj1 (Forall_forall _ _) Hnum) in Hin. apply not_true_iff_false. intros Hay.
      apply fge_false in Hab; [|done..]. apply not_true_iff_false in Hby. apply Hby.
      by apply (fge_trans b a y).
    + intros Hinc. apply IH. intros i j x y Hij Hx Hy. by apply (Hinc (Datatypes.S i) (Datatypes.S j)); [lia|..].
Qed.

(** A value is put into the bucket of the first bound that is not below it. *)
Lemma SearchFloat64s_spec bounds x :
  numbers bounds → increasing bounds → is_nan x = false →
  let k := SearchFloat64s bounds x in
  k ≤ length bounds ∧ ∀ i b, bounds !! i = Some b → fge b x = true ↔ k ≤ i.
Proof.
  intros Hnum Hinc Hx. unfold SearchFloat64s. set (f := λ i, match bounds !! i with Some b => fge b x | None => false end).
  destruct (sort_Search_spec (length bounds) f) as (Hk & Hlo & Hhi).
  { intros i j Hij Hj. unfold f. destruct (bounds !! i) as [a|] eqn:Hi; [|done].
    destruct (lookup_lt_is_Some_2 bounds j Hj) as [b Hb]. rewrite Hb. intros Ha.
    destruct (decide (i = j)) as [->|]; [congruence|]. pose proof (Hinc i j a b ltac:(lia) Hi Hb) as Hab.
    assert (is_nan a = false) as Hna by (apply (proj1 (Forall_forall _ _) Hnum); by eapply list_elem_of_lookup_2).
    assert (is_nan b = false) as Hnb by (apply (proj1 (Forall_forall _ _) Hnum); by eapply list_elem_of_lookup_2).
    apply (fge_trans b a x); [done..| |done]. by apply fge_false. }
  split; [done|]. intros i b Hb. assert (f i = fge b x) as Hf by (unfold f; by rewrite Hb). rewrite <- Hf. split.
  - intros Hfi. destruct (decide (i < sort_Search (length bounds) f)) as [Hlt|]; [|lia].
    apply Hlo in Hlt. congruence.
  - intros Hle. apply Hhi; [done|]. by eapply lookup_lt_Some.
Qed.

(** The weight observed by values with a property. *)
Definition weight_of (P : float64 → bool) (obs : list (float64 * Z)) : Z :=
  foldr (λ o acc, (if P o.1 then o.2 else 0) + acc)%Z 0%Z obs.

Lemma weight_of_snoc P obs v w : weight_of P (obs ++ [(v, w)]) = (weight_of P obs + if P v then w else 0)%Z.
Proof. unfold weight_of. induction obs as [|[u x] obs IH]; cbn; [lia|]. rewrite IH. lia. Qed.

Lemma weight_of_cons P v w obs : weight_of P ((v, w) :: obs) = ((if P v then w else 0) + weight_of P obs)%Z.
Proof. done. Qed.

Lemma weight_of_ext P Q obs : (∀ o, o ∈ obs → P o.1 = Q o.1) → weight_of P obs = weight_of Q obs.
Proof.
  intros HPQ. unfold weight_of. induction obs as [|[u x] obs IH]; cbn; [done|].
  rewrite IH by (intros o Ho; apply HPQ; by right).
  pose proof (HPQ (u, x) ltac:(left)) as Hux. cbn in Hux. by rewrite Hux.
Qed.

Lemma weight_of_split P Q R obs :
  (∀ v, R v = P v || Q v) → (∀ v, P v && Q v = false) → (weight_of R obs = weight_of P obs + weight_of Q obs)%Z.
Proof.
  intros HR HPQ. unfold weight_of. induction obs as [|[u x] obs IH]; cbn; [done|]. rewrite IH, HR.
  specialize (HPQ u). destruct (P u), (Q u); cbn in *; (done || lia).
Qed.

(** What a histogram has after some observations. *)
Record hist_inv (bounds : list float64) (obs : list (float64 * Z)) (sh : weightedHistogram) : Prop := {
  hi_bounds : hg_upperBounds sh = bounds;
  hi_length : length (hg_buckets sh) = length bounds + 1;
  hi_bucket : ∀ i b, hg_buckets sh !! i = Some b →
    b = uint64 (weight_of (λ v, SearchFloat64s bounds v =? i) obs);
  hi_hot : (initialHotCount ≤ hg_hotCount sh < 0)%Z;
}.

Lemma uint64_add a b : uint64 (uint64 a + b) = uint64 (a + b).
Proof. unfold uint64. by rewrite Zplus_mod_idemp_l. Qed.
Lemma uint64_small a : (0 ≤ a < 2 ^ 64)%Z → uint64 a = a.
Proof. apply Z.mod_small. Qed.
Lemma uint64_add_r a b : uint64 (a + uint64 b) = uint64 (a + b).
Proof. unfold uint64. by rewrite Zplus_mod_idemp_r. Qed.

Lemma observe_inv bounds obs sh value weight :
  numbers bounds → increasing bounds → is_nan value = false → hist_inv bounds obs sh →
  ∃ sh', ObserveWithWeight sh value weight = Ret sh' ∧ hist_inv bounds (obs ++ [(value, weight)]) sh'.
Proof.
  intros Hnum Hinc Hv [Hb Hlen Hbuck Hhot]. unfold ObserveWithWeight, updateLocked. rewrite Hb.
  set (k := SearchFloat64s bounds value).
  destruct (SearchFloat64s_spec bounds value Hnum Hinc Hv) as [Hk _].
  destruct (lookup_lt_is_Some_2 (hg_buckets sh) k) as [b Hbk]; [subst k; lia|].
  rewrite (proj2 (index_lookup _ _ _) Hbk). cbn [mbind outcome_bind].
  assert (∀ i x, <[k := uint64 (b + weight)]> (hg_buckets sh) !! i = Some x →
            x = uint64 (weight_of (λ v, SearchFloat64s bounds v =? i) (obs ++ [(value, weight)]))) as Hnew.
  { intros i x. rewrite list_lookup_insert_Some, weight_of_snoc. intros [(<- & <- & _)|[Hne Hi]].
    - rewrite (Hbuck _ _ Hbk), uint64_add. fold k. by rewrite Nat.eqb_refl.
    - rewrite (Hbuck _ _ Hi). fold k. rewrite (proj2 (Nat.eqb_neq k i)) by done. by rewrite Z.add_0_r. }
  eexists. split; [done|]. unfold initialHotCount in *.
  destruct (0 <=? hg_hotCount sh + 1)%Z eqn:Hh; [apply Z.leb_le in Hh; destruct (fgt _ _)|apply Z.leb_gt in Hh];
    split; cbn; rewrite ?length_insert; try done; unfold initialHotCount; lia.
Qed.

Lemma write_loop_spec obs bounds buckets pre suf count :
  numbers bounds → increasing bounds → Forall (λ o, is_nan o.1 = false) obs → length buckets = length bounds + 1 →
  (∀ i b, buckets !! i = Some b → b = uint64 (weight_of (λ v, SearchFloat64s bounds v =? i) obs)) →
  bounds = pre ++ suf → count = uint64 (weight_of (λ v, SearchFloat64s bounds v <? length pre) obs) →
  write_loop (length pre) suf buckets count =
  Ret (uint64 (weight_of (λ v, SearchFloat64s bounds v <? length bounds) obs),
       (λ b, (b, uint64 (weight_of (fge b) obs))) <$> suf).
Proof.
  intros Hnum Hinc Hobs Hlen Hbuck. revert pre count. induction suf as [|u suf IH]; intros pre count Hpre Hcount; cbn [write_loop].
  { rewrite app_nil_r in Hpre. by rewrite Hcount, <- Hpre. }
  destruct (lookup_lt_is_Some_2 buckets (length pre)) as [b Hb]. { rewrite Hlen, Hpre, length_app. cbn. lia. }
  rewrite (proj2 (index_lookup _ _ _) Hb). cbn [mbind outcome_bind]. rewrite (Hbuck _ _ Hb), Hcount, uint64_add, uint64_add_r.
  assert (Z.add (weight_of (λ v, SearchFloat64s bounds v <? length pre) obs) (weight_of (λ v, SearchFloat64s bounds v =? length pre) obs) =
          weight_of (λ v, SearchFloat64s bounds v <? length (pre ++ [u])) obs) as ->.
  { symmetry. apply weight_of_split.
    - intros v. rewrite length_app. cbn [length]. apply eq_true_iff_eq. rewrite orb_true_iff, !Nat.ltb_lt, Nat.eqb_eq. lia.
    - intros v. apply not_true_iff_false. rewrite andb_true_iff, Nat.ltb_lt, Nat.eqb_eq. lia. }
  replace (Datatypes.S (length pre)) with (length (pre ++ [u])) by (rewrite length_app; cbn; lia).
  erewrite IH; [|by rewrite <- app_assoc|done]. cbn [mbind outcome_bind fst snd fmap list_fmap].
  do 5 f_equal. apply weight_of_ext. intros [v w] Ho. cbn [fst].
  apply (proj1 (Forall_forall _ _) Hobs) in Ho. cbn in Ho.
  destruct (SearchFloat64s_spec bounds v Hnum Hinc Ho) as [_ Hs].
  specialize (Hs (length pre) u). rewrite Hpre, list_lookup_middle in Hs by done. specialize (Hs eq_refl).
  rewrite length_app. cbn [length]. apply eq_true_iff_eq. rewrite Hs, Nat.ltb_lt, Hpre. lia.
Qed.

Lemma weight_of_false obs : weight_of (λ _, false) obs = 0%Z.
Proof. unfold weight_of. by induction obs. Qed.

Lemma Write_inv bounds obs sh :
  numbers bounds → increasing bounds → Forall (λ o, is_nan o.1 = false) obs → hist_inv bounds obs sh →
  Write sh = Ret (uint64 (weight_of (λ _, true) obs), fadd (hg_sumHot sh) (hg_sumCold sh),
                  (λ b, (b, uint64 (weight_of (fge b) obs))) <$> bounds).
Proof.
  intros Hnum Hinc Hobs [Hb Hlen Hbuck _]. unfold Write. rewrite Hb.
  rewrite (write_loop_spec obs bounds (hg_buckets sh) [] bounds); try done.
  2:{ rewrite (weight_of_ext _ (λ _, false)) by done. by rewrite weight_of_false. }
  cbn [mbind outcome_bind]. destruct (lookup_lt_is_Some_2 (hg_buckets sh) (length bounds)) as [b Hl]; [lia|].
  rewrite (proj2 (index_lookup _ _ _) Hl). cbn [mbind outcome_bind fst snd].
  rewrite (Hbuck _ _ Hl), uint64_add, uint64_add_r, <- (weight_of_split _ _ (λ v, (SearchFloat64s bounds v <? length bounds) ||
    (SearchFloat64s bounds v =? length bounds))); [|done|].
  - do 4 f_equal. apply weight_of_ext. intros [v w] Ho. apply (proj1 (Forall_forall _ _) Hobs) in Ho. cbn [fst] in *.
    destruct (SearchFloat64s_spec bounds v Hnum Hinc Ho) as [Hk _].
    apply orb_true_iff. rewrite Nat.ltb_lt, Nat.eqb_eq. lia.
  - intros v. apply not_true_iff_false. rewrite andb_true_iff, Nat.ltb_lt, Nat.eqb_eq. lia.
Qed.

(** Observations, one after the other. *)
Fixpoint observe_all (sh : weightedHistogram) (obs : list (float64 * Z)) : outcome weightedHistogram :=
  match obs with
  | [] => Ret sh
  | (value, weight) :: obs => sh ← ObserveWithWeight sh value weight; observe_all sh obs
  end.

Lemma observe_all_inv bounds obs0 obs sh :
  numbers bounds → increasing bounds → Forall (λ o, is_nan o.1 = false) obs → hist_inv bounds obs0 sh →
  ∃ sh', observe_all sh obs = Ret sh' ∧ hist_inv bounds (obs0 ++ obs) sh'.
Proof.
  intros Hnum Hinc. revert obs0 sh. induction obs as [|[v w] obs IH]; intros obs0 sh Hobs Hinv; cbn [observe_all].
  { exists sh. by rewrite app_nil_r. }
  apply Forall_cons in Hobs as [Hv Hobs]. destruct (observe_inv bounds obs0 sh v w Hnum Hinc Hv Hinv) as (sh1 & -> & Hinv1).
  destruct (IH _ _ Hobs Hinv1) as (sh2 & Hr & Hinv2). exists sh2. cbn. split; [done|]. by rewrite <- app_assoc in Hinv2.
Qed.

Lemma newHistogram_inv DefBuckets buckets sh :
  numbers (if length buckets =? 0 then DefBuckets else buckets) → newWeightedHistogram DefBuckets buckets = inl sh →
  numbers (hg_upperBounds sh) ∧ increasing (hg_upperBounds sh) ∧ hist_inv (hg_upperBounds sh) [] sh.
Proof.
  unfold newWeightedHistogram. set (l := if length buckets =? 0 then DefBuckets else buckets). intros Hnum.
  pose proof (check_buckets_spec l Hnum) as Hc. destruct (check_buckets l) as [l'|err]; [|done]. intros [= <-]. cbn.
  destruct Hc as (Hinc & tail & Hl & _). split_and!.
  - unfold numbers in *. rewrite Hl in Hnum. by apply Forall_app in Hnum as [? _].
  - intros i j a b Hij Ha Hb. apply (Hinc i j a b Hij); rewrite Hl; by apply lookup_app_l_Some.
  - split; cbn; [done|by rewrite length_replicate| |unfold initialHotCount; lia].
    intros i b [-> _]%lookup_replicate. done.
Qed.

(** A histogram built from numbers never panics; it is built exactly when the bounds
    are strictly increasing, and then reports, for each bound but a final +Inf, the
    weight of the observations up to it, and the weight of all of them, modulo 2^64. *)
Theorem weightedHistogram_spec DefBuckets buckets obs :
  let given := if length buckets =? 0 then DefBuckets else buckets in
  numbers given → Forall (λ o, is_nan o.1 = false) obs →
  match newWeightedHistogram DefBuckets buckets with
  | inr _ => ¬ increasing given
  | inl sh =>
      increasing given ∧
      (∃ tail, given = hg_upperBounds sh ++ tail ∧ (tail = [] ∨ tail = [S754_infinity false])) ∧
      ∃ sh' sum, observe_all sh obs = Ret sh' ∧
        Write sh' = Ret (uint64 (weight_of (λ _, true) obs), sum,
                         (λ b, (b, uint64 (weight_of (fge b) obs))) <$> hg_upperBounds sh)
  end.
Proof.
  intros given Hnum Hobs. pose proof (check_buckets_spec given Hnum) as Hc.
  destruct (newWeightedHistogram DefBuckets buckets) as [sh|err] eqn:Hnew.
  - destruct (newHistogram_inv _ _ _ Hnum Hnew) as (Hn & Hi & Hinv).
    unfold newWeightedHistogram in Hnew. fold given in Hnew. destruct (check_buckets given) as [l|]; [|done].
    destruct Hc as (Hinc & tail & Hl & Ht). injection Hnew as <-. cbn in *. split; [done|].
    split; [by exists tail|].
    destruct (observe_all_inv _ _ obs _ Hn Hi Hobs Hinv) as (sh' & Hr & Hinv'). exists sh', (fadd (hg_sumHot sh') (hg_sumCold sh')).
    split; [done|]. by apply Write_inv.
  - unfold newWeightedHistogram in Hnew. fold given in Hnew. by destruct (check_buckets given).
Qed.

(** ** Timing *)

(** The durations for which the variable had each value, given the times and effects
    of the updates: an update earlier than the last one that counted takes no time. *)
Fixpoint durations (last : Z) (value : float64) (updates : list (Z * (float64 → float64))) : list (float64 * Z) :=
  match updates with
  | [] => []
  | (now, f) :: updates =>
      if (last <? now)%Z then (value, now - last)%Z :: durations now (f value) updates
      else durations last (f value) updates
  end.

Fixpoint update_all (th : timingHistogram) (updates : list (Z * (float64 → float64))) : outcome timingHistogram :=
  match updates with
  | [] => Ret th
  | (now, f) :: updates => th ← update th now f; update_all th updates
  end.

(** The latest time. *)
Definition latest (t : Z) (updates : list (Z * (float64 → float64))) : Z := foldl Z.max t (updates.*1).

Lemma durations_total last value updates :
  weight_of (λ _, true) (durations last value updates) = (latest last updates - last)%Z.
Proof.
  unfold latest. revert last value. induction updates as [|[now f] updates IH]; intros last value; [cbn; lia|].
  cbn [durations fmap list_fmap foldl fst]. destruct (last <? now)%Z eqn:Hlt.
  - apply Z.ltb_lt in Hlt. rewrite weight_of_cons, IH, Z.max_r by lia. lia.
  - apply Z.ltb_ge in Hlt. rewrite IH, Z.max_l by lia. lia.
Qed.

(** The clock's readings are less than 2^63 ns (292 years) apart. *)
Definition span_ok (t : Z) (times : list Z) : Prop := ∃ lo, Forall (λ u, lo ≤ u < lo + 2 ^ 63)%Z (t :: times).

Lemma update_all_spec bounds obs updates th :
  numbers bounds → increasing bounds → span_ok (th_lastSetTime th) (updates.*1) →
  Forall (λ o, is_nan o.1 = false) (durations (th_lastSetTime th) (th_value th) updates) →
  hist_inv bounds obs (th_weighted th) →
  ∃ th', update_all th updates = Ret th' ∧
    hist_inv bounds (obs ++ durations (th_lastSetTime th) (th_value th) updates) (th_weighted th').
Proof.
  intros Hnum Hinc. revert obs th. induction updates as [|[now f] updates IH]; intros obs th [lo Hspan] Hnan Hinv; cbn [update_all durations].
  { exists th. by rewrite app_nil_r. }
  cbn in Hspan, Hnan. apply Forall_cons in Hspan as [Hlast [Hnow Hspan]%Forall_cons].
  unfold update. assert (time_Sub now (th_lastSetTime th) = now - th_lastSetTime th)%Z as -> by (unfold time_Sub; lia).
  destruct (th_lastSetTime th <? now)%Z eqn:Hlt.
  - apply Z.ltb_lt in Hlt. rewrite (proj2 (Z.ltb_lt 0 _)) by lia. apply Forall_cons in Hnan as [Hv Hnan].
    destruct (observe_inv bounds obs (th_weighted th) (th_value th) (uint64 (now - th_lastSetTime th)) Hnum Hinc Hv Hinv) as (sh & -> & Hsh).
    cbn [mbind outcome_bind]. rewrite uint64_small in Hsh by lia.
    destruct (IH (obs ++ [(th_value th, now - th_lastSetTime th)%Z]) {| th_weighted := sh; th_lastSetTime := now; th_value := f (th_value th) |})
      as (th' & Hr & Hinv'); [exists lo; by constructor|done|done|].
    exists th'. split; [done|]. by rewrite <- app_assoc in Hinv'.
  - apply Z.ltb_ge in Hlt. rewrite (proj2 (Z.ltb_ge 0 _)) by lia. cbn [mbind outcome_bind].
    apply (IH obs {| th_weighted := th_weighted th; th_lastSetTime := th_lastSetTime th; th_value := f (th_value th) |});
      [exists lo; by constructor|done|done].
Qed.

(** A timing histogram, whatever is done to its variable and in whatever order the
    clock is read (within 292 years), reports for each bound the time the variable
    was at most that bound, and as count all the time since it was made. *)
Theorem timingHistogram_spec DefBuckets labels t0 buckets v0 th updates now :
  numbers (if length buckets =? 0 then DefBuckets else buckets) →
  newTimingHistogram DefBuckets labels t0 buckets v0 = inl th → span_ok t0 (updates.*1 ++ [now]) →
  let all := updates ++ [(now, th_Add (S754_zero false))] in
  Forall (λ o, is_nan o.1 = false) (durations t0 v0 all) →
  ∃ th1 th2 sum, update_all th updates = Ret th1 ∧
    th_Write th1 now =
    Ret (th2, (uint64 (latest t0 all - t0), sum,
               (λ b, (b, uint64 (weight_of (fge b) (durations t0 v0 all)))) <$> hg_upperBounds (th_weighted th))).
Proof.
  intros Hnum Hnew Hspan all Hnan. unfold newTimingHistogram in Hnew. destruct (existsb _ labels); [done|].
  destruct (newWeightedHistogram DefBuckets buckets) as [sh|] eqn:Hw; [|done]. injection Hnew as <-. cbn.
  destruct (newHistogram_inv _ _ _ Hnum Hw) as (Hn & Hi & Hinv).
  destruct (update_all_spec _ [] all {| th_weighted := sh; th_lastSetTime := t0; th_value := v0 |} Hn Hi) as (th2 & Hr & Hinv2);
    [unfold all; by rewrite fmap_app|done|done|]. cbn [th_lastSetTime th_value th_weighted app] in Hinv2.
  assert (∃ th1, update_all {| th_weighted := sh; th_lastSetTime := t0; th_value := v0 |} updates = Ret th1 ∧
                 update th1 now (th_Add (S754_zero false)) = Ret th2) as (th1 & Hr1 & Hr2).
  { clear -Hr. unfold all in Hr. generalize dependent {| th_weighted := sh; th_lastSetTime := t0; th_value := v0 |}.
    induction updates as [|[u f] updates IH]; intros th Hr; cbn in Hr |- *.
    - exists th. split; [done|]. by destruct (update th now _).
    - destruct (update th u f) as [th'|]; [|done]. by apply IH. }
  exists th1, th2, (fadd (hg_sumHot (th_weighted th2)) (hg_sumCold (th_weighted th2))). split; [done|].
  unfold th_Write. rewrite Hr2. cbn [mbind outcome_bind]. rewrite (Write_inv _ _ _ Hn Hi Hnan Hinv2). cbn.
  by rewrite durations_total.
Qed.

(** ** Witnesses *)

Module HistogramsExamples.
Definition f (n : Z) : float64 := float_of_Z n.
Definition bounds : list float64 := [f 1; f 10; S754_infinity false].

Lemma bounds_numbers : numbers bounds.
Proof. repeat constructor. Qed.

Lemma weightedHistogram_spec_witness :
  ∃ sh sh' sum, newWeightedHistogram [] bounds = inl sh ∧
    observe_all sh [(f 1, 5); (f 7, 2 ^ 64 - 1); (f 100, 3)]%Z = Ret sh' ∧
    Write sh' = Ret (7%Z, sum, [(f 1, 5%Z); (f 10, 4%Z)]).
Proof.
  pose proof (weightedHistogram_spec [] bounds [(f 1, 5); (f 7, 2 ^ 64 - 1); (f 100, 3)]%Z bounds_numbers
                ltac:(repeat constructor)) as Hspec.
  destruct (newWeightedHistogram [] bounds) as [sh|] eqn:Hnew; [|vm_compute in Hnew; discriminate Hnew].
  destruct Hspec as (_ & _ & sh' & sum & Ho & Hw). exists sh, sh', sum. split; [reflexivity|]. split; [exact Ho|].
  rewrite Hw. vm_compute in Hnew. injection Hnew as <-. vm_compute. reflexivity.
Defined.

(** The variable is 1 for 5 ns, then 7 for 20 ns; the clock jumps back in between. *)
Lemma timingHistogram_spec_witness :
  ∃ th th1 th2 sum, newTimingHistogram [] [] 100 bounds (f 1) = inl th ∧
    update_all th [(105, th_Set (f 7)); (103, th_Inc); (104, th_Dec)]%Z = Ret th1 ∧
    th_Write th1 125 = Ret (th2, (25%Z, sum, [(f 1, 5%Z); (f 10, 25%Z)])).
Proof.
  destruct (newTimingHistogram [] [] 100 bounds (f 1)) as [th|] eqn:Hnew; [|vm_compute in Hnew; discriminate Hnew].
  destruct (timingHistogram_spec [] [] 100 bounds (f 1) th [(105, th_Set (f 7)); (103, th_Inc); (104, th_Dec)]%Z 125 bounds_numbers Hnew)
    as (th1 & th2 & sum & Hu & Hw); [exists 0%Z; repeat constructor; cbn; lia|repeat constructor|].
  exists th, th1, th2, sum. split; [reflexivity|]. split; [exact Hu|]. rewrite Hw.
  vm_compute in Hnew. injection Hnew as <-. vm_compute. reflexivity.
Defined.

(** After fifteen observations the sum moves to its cold part. *)
Example hot_to_cold :
  match newWeightedHistogram [] bounds with
  | inl sh => match observe_all sh (replicate 15 (f 2, 1%Z)) with
              | Ret sh' => (hg_sumHot sh', hg_sumCold sh', hg_hotCount sh') = (S754_zero false, f 30, (-15)%Z)
              | Panic _ => False
              end
  | inr _ => False
  end.
Proof. vm_compute. reflexivity. Qed.
End HistogramsExamples.
