(* ===== verification/Metrics.v ===== *)
(** * The life cycle of metrics

    Models components/metrics: lazily created metrics (metric.go, with the options and
    Counter methods they call), the registry that hides deprecated ones (registry.go),
    the command-line options (options.go) and the allow-lists of label values
    (opts.go).  Metrics are shared objects, so they live in a heap.  Prometheus's
    registry and blang/semver are parameters; custom StableCollectors and the
    registry's own counters are left out. *)

From S2P Require Import Prelude GoStrings Streams.

Local Open Scope go_scope.

(** github.com/blang/semver: parsing (Make and MustParse), comparison, and the two
    numbers the code reads, which are uint64. *)
Class Semver (V : Type) := {
  sv_Parse : string → option V;
  sv_LT : V → V → bool;
  sv_LTE : V → V → bool;
  sv_Major : V → Z;
  sv_Minor : V → Z;
}.

Section metrics.
Context `{Semver V}.

Definition parseSemver (s : string) : outcome (option V) :=
  if s == "" then Ret None
  else match sv_Parse s with Some v => Ret (Some v) | None => Panic "semver: Parse" end.

Definition guardVersion (current : V) : string :=
  Itoa (sv_Major current) +:+ "." +:+ Itoa (sv_Minor current) +:+ ".0".

Definition shouldHide (current deprecated : V) : outcome bool :=
  match sv_Parse (guardVersion current) with
  | None => Panic "failed to make version from current version"
  | Some guard => Ret (sv_LT deprecated guard)
  end.

(** ** Lazy metrics *)

Definition setDefaults (sl : string) : string := if sl == "" then "ALPHA" else sl.

(** A lazyMetric with the options of the metric that embeds it.  [lm_marked] and
    [lm_once] tell whether markDeprecationOnce and createOnce have run, [lm_annotated]
    and [lm_deprecated] whether the options' two have. *)
Record lazyMetric := {
  lm_fqName : string;
  lm_DeprecatedVersion : string;
  lm_stabilityLevel : string;
  lm_isDeprecated : bool;
  lm_isHidden : bool;
  lm_isCreated : bool;
  lm_marked : bool;
  lm_once : bool;
  lm_Help : string;
  lm_annotated : bool;
  lm_deprecated : bool;
}.

Definition NewCounter (fqName deprecatedVersion stabilityLevel help : string) : lazyMetric :=
  {| lm_fqName := fqName; lm_DeprecatedVersion := deprecatedVersion; lm_stabilityLevel := setDefaults stabilityLevel;
     lm_isDeprecated := false; lm_isHidden := false; lm_isCreated := false; lm_marked := false; lm_once := false;
     lm_Help := help; lm_annotated := false; lm_deprecated := false |}.

Definition set_flags (m : lazyMetric) (isDeprecated isHidden isCreated marked once : bool) : lazyMetric :=
  {| lm_fqName := lm_fqName m; lm_DeprecatedVersion := lm_DeprecatedVersion m; lm_stabilityLevel := lm_stabilityLevel m;
     lm_isDeprecated := isDeprecated; lm_isHidden := isHidden; lm_isCreated := isCreated; lm_marked := marked;
     lm_once := once; lm_Help := lm_Help m; lm_annotated := lm_annotated m; lm_deprecated := lm_deprecated m |}.

Definition set_help (m : lazyMetric) (help : string) (annotated deprecated : bool) : lazyMetric :=
  {| lm_fqName := lm_fqName m; lm_DeprecatedVersion := lm_DeprecatedVersion m; lm_stabilityLevel := lm_stabilityLevel m;
     lm_isDeprecated := lm_isDeprecated m; lm_isHidden := lm_isHidden m; lm_isCreated := lm_isCreated m;
     lm_marked := lm_marked m; lm_once := lm_once m; lm_Help := help; lm_annotated := annotated;
     lm_deprecated := deprecated |}.

Definition markDeprecated (m : lazyMetric) : lazyMetric :=
  if lm_deprecated m then m
  else set_help m ("(Deprecated since " +:+ lm_DeprecatedVersion m +:+ ") " +:+ lm_Help m) (lm_annotated m) true.

Definition annotateStabilityLevel (m : lazyMetric) : lazyMetric :=
  if lm_annotated m then m
  else set_help m ("[" +:+ lm_stabilityLevel m +:+ "] " +:+ lm_Help m) true (lm_deprecated m).

Definition initializeMetric (m : lazyMetric) : lazyMetric := annotateStabilityLevel m.
Definition initializeDeprecatedMetric (m : lazyMetric) : lazyMetric := initializeMetric (markDeprecated m).

(** The package's variables: showHidden with its once, and disabledMetrics. *)
Record globals := { g_showHidden : bool; g_showHiddenOnce : bool; g_disabled : gset string }.

Definition preprocessMetric (g : globals) (version : V) (m : lazyMetric) : outcome lazyMetric :=
  if bool_decide (lm_fqName m ∈ g_disabled g) then
    Ret (set_flags m (lm_isDeprecated m) true (lm_isCreated m) (lm_marked m) (lm_once m))
  else
    selfVersion ← parseSemver (lm_DeprecatedVersion m);
    match selfVersion with
    | None => Ret m
    | Some selfVersion =>
        if lm_marked m then Ret m
        else
          let isDeprecated := sv_LTE selfVersion version || lm_isDeprecated m in
          if g_showHidden g then Ret (set_flags m isDeprecated (lm_isHidden m) (lm_isCreated m) true (lm_once m))
          else
            hide ← shouldHide version selfVersion;
            Ret (set_flags m isDeprecated (hide || lm_isHidden m) (lm_isCreated m) true (lm_once m))
    end.

Definition Create (g : globals) (version : option V) (m : lazyMetric) : outcome (bool * lazyMetric) :=
  m ← (match version with Some version => preprocessMetric g version m | None => Ret m end);
  if lm_isHidden m then Ret (false, m)
  else
    let m :=
      if lm_once m then m
      else
        let m := set_flags m (lm_isDeprecated m) (lm_isHidden m) true (lm_marked m) true in
        if lm_isDeprecated m then initializeDeprecatedMetric m else initializeMetric m in
    _ ← parseSemver (lm_DeprecatedVersion m);
    Ret (lm_isCreated m, m).

Definition ClearState (m : lazyMetric) : lazyMetric := set_flags m false false false false false.

(** ** The registry *)

(** The heap of metrics; a collector is an index into it. *)
Abbreviation heap := (list lazyMetric).

(** [kr_registered] is what the Prometheus registry has, in order. *)
Record kubeRegistry := {
  kr_version : V;
  kr_registered : list nat;
  kr_hiddenCollectors : gmap string nat;
  kr_resettables : list nat;
}.

Definition newKubeRegistry (version : V) : kubeRegistry :=
  {| kr_version := version; kr_registered := []; kr_hiddenCollectors := ∅; kr_resettables := [] |}.

(** PromRegistry.Register's error, from the names it has and the new one. *)
Context (PromRegister : list string → string → option error).

Definition names (h : heap) (l : list nat) : list string := omap (λ i, lm_fqName <$> h !! i) l.

Definition set_registered (kr : kubeRegistry) (l : list nat) : kubeRegistry :=
  {| kr_version := kr_version kr; kr_registered := l; kr_hiddenCollectors := kr_hiddenCollectors kr;
     kr_resettables := kr_resettables kr |}.

Definition addResettable (kr : kubeRegistry) (c : nat) : kubeRegistry :=
  {| kr_version := kr_version kr; kr_registered := kr_registered kr; kr_hiddenCollectors := kr_hiddenCollectors kr;
     kr_resettables := kr_resettables kr ++ [c] |}.

Definition trackHiddenCollector (kr : kubeRegistry) (c : nat) (fqName : string) : kubeRegistry :=
  {| kr_version := kr_version kr; kr_registered := kr_registered kr;
     kr_hiddenCollectors := <[fqName := c]> (kr_hiddenCollectors kr); kr_resettables := kr_resettables kr |}.

Definition Register (g : globals) (kr : kubeRegistry) (h : heap) (c : nat) : outcome (option error * kubeRegistry * heap) :=
  m ← index h c;
  res ← Create g (Some (kr_version kr)) m;
  let m := res.2 in
  let h : heap := <[c := m]> h in
  if (res.1 : bool) then
    match PromRegister (names h (kr_registered kr)) (lm_fqName m) with
    | Some err => Ret (Some err, addResettable kr c, h)
    | None => Ret (None, addResettable (set_registered kr (kr_registered kr ++ [c])) c, h)
    end
  else Ret (None, trackHiddenCollector kr c (lm_fqName m), h).

(** The first loop of MustRegister: the metrics to register. *)
Fixpoint must_loop (g : globals) (kr : kubeRegistry) (h : heap) (cs : list nat) (metrics : list nat)
    : outcome (list nat * kubeRegistry * heap) :=
  match cs with
  | [] => Ret (metrics, kr, h)
  | c :: cs =>
      m ← index h c;
      res ← Create g (Some (kr_version kr)) m;
      let m := res.2 in
      let h : heap := <[c := m]> h in
      if (res.1 : bool) then must_loop g (addResettable kr c) h cs (metrics ++ [c])
      else must_loop g (trackHiddenCollector kr c (lm_fqName m)) h cs metrics
  end.

(** PromRegistry.MustRegister. *)
Fixpoint prom_loop (kr : kubeRegistry) (h : heap) (metrics : list nat) : outcome kubeRegistry :=
  match metrics with
  | [] => Ret kr
  | c :: metrics =>
      m ← index h c;
      match PromRegister (names h (kr_registered kr)) (lm_fqName m) with
      | Some _ => Panic "prometheus: MustRegister"
      | None => prom_loop (set_registered kr (kr_registered kr ++ [c])) h metrics
      end
  end.

Definition MustRegister (g : globals) (kr : kubeRegistry) (h : heap) (cs : list nat) : outcome (kubeRegistry * heap) :=
  res ← must_loop g kr h cs [];
  kr ← prom_loop res.1.2 res.2 res.1.1;
  Ret (kr, res.2).

Fixpoint clear_all (h : heap) (cs : list nat) : heap :=
  match cs with
  | [] => h
  | c :: cs => clear_all (match h !! c with Some m => <[c := ClearState m]> h | None => h end) cs
  end.

(** [visit] is the order in which the map is ranged over. *)
Definition enableHiddenCollectors (visit : gmap string nat → list (string * nat)) (g : globals) (kr : kubeRegistry) (h : heap)
    : outcome (kubeRegistry * heap) :=
  let cs := (visit (kr_hiddenCollectors kr)).*2 in
  if length cs =? 0 then Ret (kr, h)
  else
    let h := clear_all h cs in
    MustRegister g {| kr_version := kr_version kr; kr_registered := kr_registered kr; kr_hiddenCollectors := ∅;
                      kr_resettables := kr_resettables kr |} h cs.

Definition SetDisabledMetric (g : globals) (name : string) : globals :=
  {| g_showHidden := g_showHidden g; g_showHiddenOnce := g_showHiddenOnce g; g_disabled := {[ name ]} ∪ g_disabled g |}.

Fixpoint enable_all (visit : gmap string nat → list (string * nat)) (g : globals) (krs : list kubeRegistry) (h : heap)
    : outcome (list kubeRegistry * heap) :=
  match krs with
  | [] => Ret ([], h)
  | kr :: krs =>
      res ← enableHiddenCollectors visit g kr h;
      rest ← enable_all visit g krs res.2;
      Ret (res.1 :: rest.1, rest.2)
  end.

Definition SetShowHidden (visit : gmap string nat → list (string * nat)) (g : globals) (krs : list kubeRegistry) (h : heap)
    : outcome (globals * list kubeRegistry * heap) :=
  if g_showHiddenOnce g then Ret (g, krs, h)
  else
    let g := {| g_showHidden := true; g_showHiddenOnce := true; g_disabled := g_disabled g |} in
    res ← enable_all visit g krs h;
    Ret (g, res.1, res.2).

(** ** The options *)

Definition validateShowHiddenMetricsVersion (current : V) (target : string) : option error :=
  if target == "" then None
  else
    (* Minor is a uint64 *)
    let valid := Itoa (sv_Major current) +:+ "." +:+ Itoa ((sv_Minor current - 1) mod 2 ^ 64) in
    if target != valid then
      Some (Errorf "--show-hidden-metrics-for-version must be omitted or have the value '%v'. Only the previous minor version is allowed" [valid])
    else None.

(** The two first steps of Apply. *)
Definition Apply_visibility (visit : gmap string nat → list (string * nat)) (showHiddenFor : string) (disabled : list string)
    (g : globals) (krs : list kubeRegistry) (h : heap) : outcome (globals * list kubeRegistry * heap) :=
  res ← (if showHiddenFor != "" then SetShowHidden visit g krs h else Ret (g, krs, h));
  Ret (foldl SetDisabledMetric res.1.1 disabled, res.1.2, res.2).
End metrics.

(** ** Theorems *)

Section theorems.
Context `{Semver V}.
Context (PromRegister : list string → string → option error).

(** Prometheus accepts a collector whose name it does not have. *)
Context (PromRegister_new : ∀ l n, n ∉ l → PromRegister l n = None).

Abbreviation MustRegister := (MustRegister PromRegister).
Abbreviation heap := (list lazyMetric).
Implicit Types (kr : @kubeRegistry V).

Definition fresh (m : lazyMetric) : Prop :=
  lm_isDeprecated m = false ∧ lm_isHidden m = false ∧ lm_isCreated m = false ∧ lm_marked m = false ∧ lm_once m = false.

(** The versions involved are semantic versions. *)
Definition parses (v : V) (m : lazyMetric) : Prop :=
  is_Some (sv_Parse (guardVersion v)) ∧ (lm_DeprecatedVersion m = "" ∨ is_Some (sv_Parse (lm_DeprecatedVersion m))).

(** Deprecated before the minor release the binary is of. *)
Definition outdated (v : V) (m : lazyMetric) : bool :=
  match sv_Parse (lm_DeprecatedVersion m), sv_Parse (guardVersion v) with
  | Some d, Some guard => (lm_DeprecatedVersion m != "") && sv_LT d guard
  | _, _ => false
  end.

Definition visible (g : globals) (v : V) (m : lazyMetric) : bool :=
  negb (bool_decide (lm_fqName m ∈ g_disabled g)) && (g_showHidden g || negb (outdated v m)).

Definition spec_of (m : lazyMetric) : string * string := (lm_fqName m, lm_DeprecatedVersion m).

Lemma visible_ext g v m m' : spec_of m = spec_of m' → visible g v m = visible g v m'.
Proof. destruct m, m'. unfold spec_of, visible, outdated. cbn. by intros [= -> ->]. Qed.

Lemma parses_ext v m m' : spec_of m = spec_of m' → parses v m → parses v m'.
Proof. destruct m, m'. unfold spec_of, parses. cbn. by intros [= -> ->]. Qed.

Lemma parseSemver_parses v m : parses v m → parseSemver (lm_DeprecatedVersion m) =
  Ret (if lm_DeprecatedVersion m == "" then None else sv_Parse (lm_DeprecatedVersion m)).
Proof. intros [_ Hp]. unfold parseSemver. case_bool_decide; [done|]. by destruct Hp as [?|[d ->]]. Qed.

(** A fresh metric is created exactly when it is visible, and otherwise hidden. *)
Lemma Create_spec g v m :
  fresh m → parses v m →
  ∃ m', Create g (Some v) m = Ret (visible g v m, m') ∧ spec_of m' = spec_of m.
Proof.
  intros (Hd & Hh & Hc & Hm & Ho) Hp. pose proof (parseSemver_parses v m Hp) as Hself. destruct Hp as [[guard Hguard] Hdep].
  unfold Create, preprocessMetric, visible, outdated, shouldHide. rewrite Hself, Hguard, Hm.
  destruct (bool_decide (lm_fqName m ∈ g_disabled g)); [by eexists|]. cbn [negb andb mbind outcome_bind].
  case_bool_decide as Hempty.
  - cbn. rewrite Hh, Ho. cbn. assert (∀ x : option V, match x with Some d => false && sv_LT d guard | None => false end = false) as ->
      by by intros []. rewrite orb_true_r. unfold parseSemver.
    rewrite Hd. unfold initializeMetric, annotateStabilityLevel. cbn.
    destruct (lm_annotated m); cbn; rewrite bool_decide_eq_true_2 by done; by eexists.
  - destruct Hdep as [?|[d Hdep]]; [done|]. rewrite Hdep. cbn.
    assert (∀ m', lm_DeprecatedVersion m' = lm_DeprecatedVersion m → parseSemver (lm_DeprecatedVersion m') = Ret (Some d)) as Hps.
    { intros m' ->. unfold parseSemver. by rewrite bool_decide_eq_false_2, Hdep. }
    destruct (g_showHidden g); cbn; [|destruct (sv_LT d guard); cbn; [by eexists|]]; rewrite Hh, Ho; cbn;
      (destruct (sv_LTE d v || lm_isDeprecated m); unfold initializeDeprecatedMetric, initializeMetric, annotateStabilityLevel, markDeprecated; cbn;
       [destruct (lm_deprecated m); cbn|]; destruct (lm_annotated m); cbn; rewrite Hps by done; by eexists).
Qed.

Definition same (h h' : heap) : Prop := ∀ i, spec_of <$> h !! i = spec_of <$> h' !! i.

Lemma same_insert h c m m' : h !! c = Some m → spec_of m' = spec_of m → same h (<[c := m']> h).
Proof.
  intros Hc Hs i. destruct (decide (i = c)) as [->|Hne].
  - rewrite list_lookup_insert_eq by (by eapply lookup_lt_Some). by rewrite Hc; cbn; rewrite Hs.
  - by rewrite list_lookup_insert_ne.
Qed.

Lemma same_lookup h h' i m : same h h' → h !! i = Some m → ∃ m', h' !! i = Some m' ∧ spec_of m' = spec_of m.
Proof.
  intros Hs Hi. specialize (Hs i). rewrite Hi in Hs. cbn in Hs. destruct (h' !! i) as [m'|]; [|done].
  exists m'. split; [done|]. cbn in Hs. unfold spec_of in *. congruence.
Qed.

Definition vis (g : globals) (v : V) (h : heap) (i : nat) : bool :=
  match h !! i with Some m => visible g v m | None => false end.

Lemma vis_same g v h h' i : same h h' → vis g v h i = vis g v h' i.
Proof.
  intros Hs. specialize (Hs i). unfold vis. destruct (h !! i) as [m|], (h' !! i) as [m'|]; try done.
  cbn in Hs. injection Hs as Hs Hs'. apply visible_ext. unfold spec_of. congruence.
Qed.

Definition name_of (h : heap) (i : nat) : string := match h !! i with Some m => lm_fqName m | None => "" end.

Lemma name_of_same h h' i : same h h' → name_of h i = name_of h' i.
Proof.
  intros Hs. specialize (Hs i). unfold name_of. destruct (h !! i) as [m|], (h' !! i) as [m'|]; try done. by injection Hs.
Qed.

(** The metrics that a loop hides. *)
Definition hide_all (h : heap) (hidden : gmap string nat) (cs : list nat) : gmap string nat :=
  foldl (λ acc c, <[name_of h c := c]> acc) hidden cs.

Lemma hide_all_same h h' hidden cs : same h h' → hide_all h hidden cs = hide_all h' hidden cs.
Proof.
  intros Hs. unfold hide_all. revert hidden. induction cs as [|c cs IH]; intros hidden; cbn; [done|].
  by rewrite IH, (name_of_same h h').
Qed.

Lemma must_loop_spec g kr h cs metrics :
  NoDup cs → (∀ c, c ∈ cs → ∃ m, h !! c = Some m ∧ fresh m ∧ parses (kr_version kr) m) →
  ∃ kr' h', must_loop g kr h cs metrics = Ret (metrics ++ filter (λ c, vis g (kr_version kr) h c = true) cs, kr', h') ∧
    same h h' ∧ kr_version kr' = kr_version kr ∧ kr_registered kr' = kr_registered kr ∧
    kr_hiddenCollectors kr' = hide_all h (kr_hiddenCollectors kr) (filter (λ c, vis g (kr_version kr) h c = false) cs).
Proof.
  revert kr h metrics. induction cs as [|c cs IH]; intros kr h metrics Hnd Hcs; cbn [must_loop].
  { exists kr, h. by rewrite app_nil_r. }
  apply NoDup_cons in Hnd as [Hc Hnd]. destruct (Hcs c) as (m & Hm & Hf & Hp); [left|].
  rewrite (proj2 (index_lookup _ _ _) Hm). cbn [mbind outcome_bind].
  destruct (Create_spec g (kr_version kr) m Hf Hp) as (m' & -> & Hs). cbn [mbind outcome_bind fst snd].
  set (h1 := <[c := m']> h). assert (same h h1) as Hsame by by eapply same_insert.
  assert (vis g (kr_version kr) h c = visible g (kr_version kr) m) as Hvis by (unfold vis; by rewrite Hm).
  assert (name_of h c = lm_fqName m') as Hname by (unfold name_of; rewrite Hm; by injection Hs).
  set (kr1 := if visible g (kr_version kr) m then addResettable kr c else trackHiddenCollector kr c (lm_fqName m')).
  destruct (IH kr1 h1 (if visible g (kr_version kr) m then metrics ++ [c] else metrics) Hnd) as (kr' & h' & Hr & Hs' & Hv & Hreg & Hhid).
  { intros c' Hc'. destruct (Hcs c') as (x & Hx & ?); [by right|]. exists x.
    assert (c ≠ c') by (intros ->; done). unfold h1. rewrite list_lookup_insert_ne by done. split; [done|].
    unfold kr1. by destruct (visible g (kr_version kr) m). }
  assert (kr_version kr1 = kr_version kr) as Hv1 by (unfold kr1; by destruct (visible g (kr_version kr) m)).
  rewrite Hv1 in *. exists kr', h'. split_and!.
  - rewrite filter_cons, Hvis. unfold kr1 in Hr. destruct (visible g (kr_version kr) m); cbn; rewrite Hr; do 3 f_equal.
    + rewrite <- app_assoc. cbn. do 2 f_equal. apply list_filter_iff. intros x. by rewrite <- (vis_same _ _ h h1).
    + f_equal. apply list_filter_iff. intros x. by rewrite <- (vis_same _ _ h h1).
  - intros i. by rewrite (Hsame i).
  - congruence.
  - rewrite Hreg. unfold kr1. by destruct (visible g (kr_version kr) m).
  - rewrite Hhid, filter_cons, Hvis, <- (hide_all_same h h1) by done.
    assert (filter (λ c0, vis g (kr_version kr) h1 c0 = false) cs = filter (λ c0, vis g (kr_version kr) h c0 = false) cs) as ->
      by (apply list_filter_iff; intros x; by rewrite <- (vis_same _ _ h h1)).
    unfold kr1. destruct (visible g (kr_version kr) m); [by rewrite decide_False|]. rewrite decide_True by done.
    unfold hide_all. cbn [foldl]. by rewrite Hname.
Qed.

Definition unique (h : heap) : Prop := NoDup (lm_fqName <$> h).

Lemma unique_name h i j : unique h → i < length h → j < length h → name_of h i = name_of h j → i = j.
Proof.
  intros Hu Hi Hj Hn. destruct (lookup_lt_is_Some_2 h i Hi) as [m Hm]. destruct (lookup_lt_is_Some_2 h j Hj) as [m' Hm'].
  unfold name_of in Hn. rewrite Hm, Hm' in Hn.
  apply (NoDup_lookup (lm_fqName <$> h) i j (lm_fqName m) Hu); rewrite list_lookup_fmap, ?Hm, ?Hm'; cbn; congruence.
Qed.

Lemma same_length h h' : same h h' → length h = length h'.
Proof.
  intros Hs. destruct (lt_eq_lt_dec (length h) (length h')) as [[Hlt|?]|Hlt]; [|done|].
  - specialize (Hs (length h)). rewrite (lookup_ge_None_2 h) in Hs by lia.
    destruct (lookup_lt_is_Some_2 h' _ Hlt) as [m Hm]. by rewrite Hm in Hs.
  - specialize (Hs (length h')). rewrite (lookup_ge_None_2 h') in Hs by lia.
    destruct (lookup_lt_is_Some_2 h _ Hlt) as [m Hm]. by rewrite Hm in Hs.
Qed.

Lemma same_unique h h' : same h h' → unique h → unique h'.
Proof.
  intros Hs. unfold unique. replace (lm_fqName <$> h') with (lm_fqName <$> h); [done|].
  apply list_eq. intros i. rewrite !list_lookup_fmap. specialize (Hs i).
  destruct (h !! i) as [m|], (h' !! i) as [m'|]; try done. cbn in *. unfold spec_of in Hs. congruence.
Qed.

Lemma names_elem h l n : n ∈ names h l ↔ ∃ i m, i ∈ l ∧ h !! i = Some m ∧ lm_fqName m = n.
Proof.
  unfold names. rewrite list_elem_of_omap. split.
  - intros (i & Hi & Hn). destruct (h !! i) as [m|] eqn:Hm; [|done]. injection Hn as <-. by exists i, m.
  - intros (i & m & Hi & Hm & <-). exists i. split; [done|]. by rewrite Hm.
Qed.

Lemma prom_loop_spec kr h cs :
  unique h → NoDup (kr_registered kr ++ cs) → Forall (λ i, i < length h) (kr_registered kr ++ cs) →
  prom_loop PromRegister kr h cs = Ret (set_registered kr (kr_registered kr ++ cs)).
Proof.
  intros Hu. revert kr. induction cs as [|c cs IH]; intros kr Hnd Hlt; cbn [prom_loop].
  { rewrite app_nil_r. by destruct kr. }
  assert (c < length h) as Hc by (apply Forall_app in Hlt as [_ [? _]%Forall_cons]; done).
  destruct (lookup_lt_is_Some_2 h c Hc) as [m Hm]. rewrite (proj2 (index_lookup _ _ _) Hm). cbn [mbind outcome_bind].
  rewrite PromRegister_new.
  - rewrite IH; cbn; rewrite <- app_assoc; done.
  - intros (i & m' & Hi & Hm' & Hn)%names_elem. assert (i = c) as ->.
    { apply (unique_name h); [done|by eapply lookup_lt_Some|done|]. unfold name_of. by rewrite Hm, Hm'. }
    apply NoDup_app in Hnd as (_ & Hnd & _). by apply (Hnd c Hi); left.
Qed.

Lemma MustRegister_spec g kr h cs :
  unique h → NoDup (kr_registered kr ++ cs) → Forall (λ i, i < length h) (kr_registered kr) →
  (∀ c, c ∈ cs → ∃ m, h !! c = Some m ∧ fresh m ∧ parses (kr_version kr) m) →
  ∃ kr' h', MustRegister g kr h cs = Ret (kr', h') ∧ same h h' ∧ kr_version kr' = kr_version kr ∧
    kr_registered kr' = kr_registered kr ++ filter (λ c, vis g (kr_version kr) h c = true) cs ∧
    kr_hiddenCollectors kr' = hide_all h (kr_hiddenCollectors kr) (filter (λ c, vis g (kr_version kr) h c = false) cs).
Proof.
  intros Hu Hnd Hreg Hcs. apply NoDup_app in Hnd as Hnd'. destruct Hnd' as (Hnd1 & Hdisj & Hnd2).
  destruct (must_loop_spec g kr h cs [] Hnd2 Hcs) as (kr1 & h' & Hr & Hs & Hv & Hr1 & Hh). unfold Metrics.MustRegister.
  rewrite Hr. cbn [mbind outcome_bind fst snd app].
  rewrite (prom_loop_spec kr1 h').
  - cbn. eexists _, h'. split; [done|]. cbn. by rewrite Hr1.
  - by eapply same_unique.
  - rewrite Hr1. apply NoDup_app. split_and!; [done| |by apply NoDup_filter].
    intros x Hx [_ Hin]%list_elem_of_filter. by apply (Hdisj x).
  - rewrite Hr1. apply Forall_app. rewrite <- (same_length h h' Hs). split; [done|]. apply Forall_forall.
    intros x [_ Hin]%list_elem_of_filter. destruct (Hcs x Hin) as (m & Hm & _). by eapply lookup_lt_Some.
Qed.

Lemma hide_all_lookup h cs n i :
  unique h → Forall (λ i, i < length h) cs → hide_all h ∅ cs !! n = Some i ↔ i ∈ cs ∧ name_of h i = n.
Proof.
  intros Hu. induction cs as [|c cs IH] using rev_ind; intros Hlt.
  { unfold hide_all. cbn. rewrite lookup_empty. split; [done|]. by intros [?%not_elem_of_nil _]. }
  apply Forall_app in Hlt as [Hlt [Hc _]%Forall_cons]. unfold hide_all in *. rewrite foldl_app. cbn [foldl].
  rewrite lookup_insert_Some, IH, elem_of_app, list_elem_of_singleton by done. split.
  - naive_solver.
  - intros [[Hi| ->] Hn]; [|by left]. destruct (decide (name_of h c = n)) as [Hcn|]; [left|by right].
    split; [done|]. apply (unique_name h); [done|done| |congruence]. by apply (proj1 (Forall_forall _ _) Hlt).
Qed.

Lemma ClearState_fresh m : fresh (ClearState m) ∧ spec_of (ClearState m) = spec_of m.
Proof. done. Qed.

Lemma clear_all_spec h cs :
  Forall (λ i, i < length h) cs →
  same h (clear_all h cs) ∧
  ∀ i, (i ∈ cs → ∃ m, clear_all h cs !! i = Some m ∧ fresh m) ∧ (i ∉ cs → clear_all h cs !! i = h !! i).
Proof.
  revert h. induction cs as [|c cs IH]; intros h Hlt; cbn [clear_all].
  { split; [done|]. intros i. split; [by intros ?%not_elem_of_nil|done]. }
  apply Forall_cons in Hlt as [Hc Hlt]. destruct (lookup_lt_is_Some_2 h c Hc) as [m Hm]. rewrite Hm.
  assert (same h (<[c := ClearState m]> h)) as Hs by by eapply same_insert.
  destruct (IH (<[c := ClearState m]> h)) as [Hs' Hi]. { by rewrite length_insert. }
  split; [intros i; by rewrite (Hs i)|]. intros i. destruct (Hi i) as [Hin Hout]. split.
  - intros Hic. destruct (decide (i ∈ cs)) as [|Hn]; [by apply Hin|]. apply elem_of_cons in Hic as [->|]; [|done].
    rewrite Hout by done. rewrite list_lookup_insert_eq by done. by eexists.
  - intros [Hne Hn]%not_elem_of_cons. rewrite Hout by done. by rewrite list_lookup_insert_ne.
Qed.

(** The hidden collectors, in whatever order the map is visited. *)
Lemma hidden_visited visit h hid :
  (∀ m, visit m ≡ₚ map_to_list m) → unique h → Forall (λ i, i < length h) hid → NoDup hid →
  (visit (hide_all h ∅ hid)).*2 ≡ₚ hid.
Proof.
  intros Hvisit Hu Hlt Hnd. rewrite Hvisit. apply NoDup_Permutation; [|done|].
  - apply NoDup_fmap_2_strong; [|apply NoDup_map_to_list].
    intros [n i] [n' i'] Hx%elem_of_map_to_list Hy%elem_of_map_to_list Heq. cbn in Heq. subst i'.
    apply hide_all_lookup in Hx as [_ <-]; [|done..]. by apply hide_all_lookup in Hy as [_ <-].
  - intros i. rewrite list_elem_of_fmap. split.
    + intros ([n j] & -> & Hin%elem_of_map_to_list). by apply hide_all_lookup in Hin as [? _].
    + intros Hi. exists (name_of h i, i). split; [done|]. apply elem_of_map_to_list. by apply hide_all_lookup.
Qed.

Lemma enableHiddenCollectors_spec visit g kr h hid :
  (∀ m, visit m ≡ₚ map_to_list m) → unique h → NoDup (kr_registered kr ++ hid) →
  Forall (λ i, i < length h) (kr_registered kr ++ hid) →
  (∀ c m, c ∈ hid → h !! c = Some m → parses (kr_version kr) m) → kr_hiddenCollectors kr = hide_all h ∅ hid →
  ∃ kr' h', enableHiddenCollectors PromRegister visit g kr h = Ret (kr', h') ∧
    kr_registered kr' ≡ₚ kr_registered kr ++ filter (λ c, vis g (kr_version kr) h c = true) hid.
Proof.
  intros Hvisit Hu Hnd Hlt Hparse Hhid. unfold enableHiddenCollectors. set (cs := (visit (kr_hiddenCollectors kr)).*2).
  apply Forall_app in Hlt as [Hlt1 Hlt2]. assert (cs ≡ₚ hid) as Hcs.
  { unfold cs. rewrite Hhid. apply hidden_visited; [done..|]. by apply NoDup_app in Hnd as (_ & _ & ?). }
  destruct (Nat.eqb_spec (length cs) 0) as [Hempty|Hne].
  { exists kr, h. split; [done|]. rewrite Hcs in Hempty. apply nil_length_inv in Hempty as ->. by rewrite app_nil_r. }
  destruct (clear_all_spec h cs) as [Hs Hclear]; [by rewrite Hcs|].
  destruct (MustRegister_spec g {| kr_version := kr_version kr; kr_registered := kr_registered kr; kr_hiddenCollectors := ∅;
              kr_resettables := kr_resettables kr |} (clear_all h cs) cs) as (kr' & h' & Hr & _ & _ & Hreg & _); cbn in *.
  - by eapply same_unique.
  - by rewrite Hcs.
  - by rewrite <- (same_length _ _ Hs).
  - intros c Hc. destruct (proj1 (Hclear c) Hc) as (m & Hm & Hf). exists m. split_and!; [done|done|].
    pose proof (Hs c) as Hsc. rewrite Hm in Hsc. destruct (h !! c) as [m0|] eqn:Hm0; [|done].
    apply (parses_ext _ m0); [cbn in Hsc; unfold spec_of in *; congruence|]. apply (Hparse c); [by rewrite <- Hcs|done].
  - exists kr', h'. split; [done|]. rewrite Hreg, Hcs. f_equiv.
    rewrite (list_filter_iff (λ c, vis g (kr_version kr) (clear_all h cs) c = true) (λ c, vis g (kr_version kr) h c = true));
      [done|]. intros c. by rewrite (vis_same _ _ h (clear_all h cs)).
Qed.

(** Metrics registered together are in the registry exactly when they are visible;
    showing hidden metrics then brings back, once each, all the others but those that
    were disabled.  Nothing panics. *)
Theorem SetShowHidden_reveals visit g v h :
  (∀ m, visit m ≡ₚ map_to_list m) → unique h → Forall (λ m, fresh m ∧ parses v m) h → g_showHiddenOnce g = false →
  ∃ kr h1 g' kr' h2,
    MustRegister g (newKubeRegistry v) h (seq 0 (length h)) = Ret (kr, h1) ∧
    (∀ i m, h !! i = Some m → i ∈ kr_registered kr ↔ visible g v m = true) ∧
    SetShowHidden PromRegister visit g [kr] h1 = Ret (g', [kr'], h2) ∧ NoDup (kr_registered kr') ∧
    (∀ i m, h !! i = Some m → i ∈ kr_registered kr' ↔ lm_fqName m ∉ g_disabled g).
Proof.
  intros Hvisit Hu Hall Honce.
  assert (∀ c m, h !! c = Some m → fresh m ∧ parses v m) as Hok.
  { intros c m Hm. apply (proj1 (Forall_forall _ _) Hall). by eapply list_elem_of_lookup_2. }
  destruct (MustRegister_spec g (newKubeRegistry v) h (seq 0 (length h))) as (kr & h1 & Hr & Hs & Hv & Hreg & Hhid); cbn in *.
  { done. } { apply NoDup_seq. } { constructor. }
  { intros c [_ [m Hm]%lookup_lt_is_Some_2]%elem_of_seq. exists m. split; [done|]. by eapply Hok. }
  set (all := seq 0 (length h)) in *.
  assert (∀ (b : bool) i m, h !! i = Some m → i ∈ filter (λ c, vis g v h c = b) all ↔ visible g v m = b) as Hfilter.
  { intros b i m Hm. rewrite list_elem_of_filter. unfold vis, all. rewrite Hm, elem_of_seq.
    apply lookup_lt_Some in Hm. intuition lia. }
  assert (kr_registered kr ++ filter (λ c, vis g v h c = false) all ≡ₚ all) as Hperm.
  { rewrite Hreg, (list_filter_iff (λ c, vis g v h c = false) (λ c, ¬ vis g v h c = true)) by (intros c; by destruct (vis g v h c)).
    apply filter_app_complement. }
  exists kr, h1. unfold SetShowHidden. rewrite Honce. cbn [enable_all].
  set (g' := {| g_showHidden := true; g_showHiddenOnce := true; g_disabled := g_disabled g |}).
  destruct (enableHiddenCollectors_spec visit g' kr h1 (filter (λ c, vis g v h c = false) all)) as (kr' & h2 & -> & Hreg').
  { done. } { by eapply same_unique. } { rewrite Hperm. apply NoDup_seq. }
  { rewrite Hperm, <- (same_length _ _ Hs). apply Forall_forall. intros c [_ ?]%elem_of_seq. done. }
  { intros c m _ Hm. rewrite Hv. pose proof (Hs c) as Hsc. rewrite Hm in Hsc. destruct (h !! c) as [m0|] eqn:Hm0; [|done].
    apply (parses_ext _ m0); [cbn in Hsc; unfold spec_of in *; congruence|]. by eapply Hok. }
  { rewrite Hhid. by apply hide_all_same. }
  cbn. exists g', kr', h2. split_and!; [done| |done| |].
  - intros i m Hm. rewrite Hreg. by apply Hfilter.
  - rewrite Hreg'. eapply sublist_NoDup; [|apply sublist_app; [reflexivity|apply sublist_filter]]. rewrite Hperm. apply NoDup_seq.
  - intros i m Hm. rewrite Hreg', elem_of_app, list_elem_of_filter, Hreg, !(Hfilter _ i m Hm), Hv.
    rewrite <- (vis_same _ _ h) by done. unfold vis. rewrite Hm. unfold visible, g'. cbn.
    destruct (decide (lm_fqName m ∈ g_disabled g)) as [Hd|Hd].
    + rewrite bool_decide_eq_true_2 by done. cbn. naive_solver.
    + rewrite bool_decide_eq_false_2 by done. cbn. destruct (g_showHidden g || negb (outdated v m)); naive_solver.
Qed.
End theorems.

(** ** Allow-lists of label values *)

Section labels.
Context `{StringSets sset}.

Definition lower_letter (a : ascii) : bool := let n := nat_of_ascii a in (97 <=? n) && (n <=? 122).
Definition upper_letter (a : ascii) : bool := let n := nat_of_ascii a in (65 <=? n) && (n <=? 90).
Definition digit (a : ascii) : bool := let n := nat_of_ascii a in (48 <=? n) && (n <=? 57).

(** The classes of the two regular expressions. *)
Definition label_start (a : ascii) : bool := lower_letter a || upper_letter a || (a == "_"%char).
Definition label_char (a : ascii) : bool := label_start a || digit a.
Definition metric_start (a : ascii) : bool := label_start a || (a == ":"%char).
Definition metric_char (a : ascii) : bool := metric_start a || digit a.

(** The longest prefix in a class, and what follows. *)
Fixpoint span (p : ascii → bool) (s : string) : string * string :=
  match s with
  | "" => ("", "")
  | String a s' => if p a then let '(x, y) := span p s' in (String a x, y) else ("", s)
  end.

(** The match of metricNameRegex + "," + labelRegex at the start of [s]; no class has
    a comma, so the greedy match is the only one. *)
Definition match_at (s : string) : option string :=
  match s with
  | "" => None
  | String a s' =>
      if metric_start a then
        let '(x, rest) := span metric_char s' in
        match rest with
        | String c (String b rest) =>
            if (c == ","%char) && label_start b then
              let '(y, _) := span label_char rest in Some (String a x +:+ "," +:+ String b y)
            else None
        | _ => None
        end
      else None
  end.

(** Regexp.FindString: the leftmost match, or the empty string. *)
Fixpoint FindString (s : string) : string :=
  match match_at s with
  | Some m => m
  | None => match s with "" => "" | String _ s => FindString s end
  end.

Definition validateAllowMetricLabel (keys : list string) : option error :=
  if existsb (λ k, FindString k != k) keys
  then Some (Errorf "--allow-metric-labels must has a list of kv pair with format `metricName:labelName=labelValue, labelValue,...`" [])
  else None.

Abbreviation allowLists := (gmap string (gmap string sset)).

(** One round of the loop. *)
Definition set_allow_list (lists : allowLists) (metricLabelName labelValues : string) : outcome allowLists :=
  metricName ← index (Split metricLabelName ",") 0;
  labelName ← index (Split metricLabelName ",") 1;
  let valueSet := sets_NewString (Split labelValues ",") in
  Ret (<[metricName := <[labelName := valueSet]> (default ∅ (lists !! metricName))]> lists).

(** [mapping] in the order it is ranged over. *)
Fixpoint SetLabelAllowListFromCLI (lists : allowLists) (mapping : list (string * string)) : outcome allowLists :=
  match mapping with
  | [] => Ret lists
  | (k, v) :: mapping => lists ← set_allow_list lists k v; SetLabelAllowListFromCLI lists mapping
  end.

(** The values replaced in place, from index [i] on. *)
Fixpoint ConstrainToAllowedList (allowList : gmap string sset) (names values : list string) : outcome (list string) :=
  match values with
  | [] => Ret []
  | value :: values =>
      name ← index names 0;
      rest ← ConstrainToAllowedList allowList (tail names) values;
      Ret (match allowList !! name with
           | Some allowed => if sets_Has allowed value then value else "unexpected"
           | None => value
           end :: rest)
  end.

Definition ConstrainLabelMap (allowList : gmap string sset) (labels : gmap string string) : gmap string string :=
  map_imap (λ name value, Some (match allowList !! name with
                                | Some allowed => if sets_Has allowed value then value else "unexpected"
                                | None => value
                                end)) labels.
End labels.

Section label_theorems.
Context `{StringSets sset}.
Abbreviation allowLists := (gmap string (gmap string sset)).

Lemma span_spec p s x y : span p s = (x, y) → s = x +:+ y ∧ (∀ c, p c = false → ContainsByte x c = false).
Proof.
  revert x y. induction s as [|a s IH]; intros x y; cbn; [by intros [= <- <-]|].
  destruct (p a) eqn:Ha; [|by intros [= <- <-]].
  destruct (span p s) as [x' y'] eqn:Hs. intros [= <- <-]. destruct (IH _ _ eq_refl) as [-> Hc]. split; [done|].
  intros c Hp. cbn. rewrite (Hc c Hp). rewrite bool_decide_eq_false_2; [done|]. intros ->. congruence.
Qed.

Lemma match_at_spec s m :
  match_at s = Some m →
  (∃ t, s = m +:+ t) ∧ ∃ x y, m = x +:+ String "," y ∧ ContainsByte x "," = false ∧ ContainsByte y "," = false.
Proof.
  destruct s as [|a s]; cbn [match_at]; [done|]. destruct (metric_start a) eqn:Ha; [|done].
  destruct (span metric_char s) as [x rest] eqn:Hx. apply span_spec in Hx as [-> Hxc].
  destruct rest as [|c [|b rest]]; [done..|]. destruct ((c == ","%char) && label_start b) eqn:Hb; [|done]. bool_crush. subst c.
  destruct (span label_char rest) as [y t] eqn:Hy. apply span_spec in Hy as [-> Hyc]. intros [= <-]. split.
  - exists t. cbn. f_equal. by rewrite <- !sapp_assoc.
  - exists (String a x), (String b y). split_and!; [done|..]; cbn.
    + rewrite (Hxc ","%char) by done. rewrite bool_decide_eq_false_2; [done|]. intros ->. done.
    + rewrite (Hyc ","%char) by done. rewrite bool_decide_eq_false_2; [done|]. intros ->. done.
Qed.

Lemma FindString_length s : slen (FindString s) ≤ slen s.
Proof.
  induction s as [|a s IH]; cbn [FindString]; [done|].
  destruct (match_at (String a s)) as [m|] eqn:Hm; [|cbn; lia].
  apply match_at_spec in Hm as [[t Ht] _]. rewrite Ht, slen_app. lia.
Qed.

(** A key that the regular expression matches whole is a metric and a label. *)
Lemma FindString_full k :
  k ≠ "" → FindString k = k → ∃ x y, k = x +:+ String "," y ∧ Split k "," = [x; y].
Proof.
  intros Hne Hf. destruct k as [|a s]; [done|]. cbn [FindString] in Hf.
  destruct (match_at (String a s)) as [m|] eqn:Hm.
  - subst m. apply match_at_spec in Hm as [_ (x & y & Hk & Hx & Hy)]. exists x, y. split; [done|].
    rewrite Hk, Split_app by done. by rewrite Split_no_sep.
  - pose proof (FindString_length s) as Hlen. rewrite Hf in Hlen. cbn in Hlen. lia.
Qed.

(** The list of one metric and label. *)
Definition lookup_list (lists : allowLists) (metric label : string) : option sset := lists !! metric ≫= (.!! label).

Lemma lookup_list_insert (lists : allowLists) metric label (v : sset) metric' label' :
  lookup_list (<[metric := <[label := v]> (default ∅ (lists !! metric))]> lists) metric' label' =
  if decide (metric = metric' ∧ label = label') then Some v else lookup_list lists metric' label'.
Proof.
  unfold lookup_list. destruct (decide (metric = metric')) as [->|Hm].
  - rewrite lookup_insert_eq. cbn. destruct (decide (label = label')) as [->|Hl].
    + rewrite lookup_insert_eq. by rewrite decide_True.
    + rewrite lookup_insert_ne, decide_False by naive_solver. by destruct (lists !! metric') as [m|]; cbn; rewrite ?lookup_empty.
  - by rewrite lookup_insert_ne, decide_False by naive_solver.
Qed.

(** Once the options are valid and no key is empty, applying them does not panic: the
    list of each metric and label named is the one given, the others are unchanged,
    in whatever order the map is visited. *)
Theorem SetLabelAllowList_spec lists (mapping : list (string * string)) :
  NoDup mapping.*1 → "" ∉ mapping.*1 → validateAllowMetricLabel mapping.*1 = None →
  ∃ lists', SetLabelAllowListFromCLI lists mapping = Ret lists' ∧
    ∀ metric label,
      (∀ k v, (k, v) ∈ mapping → Split k "," = [metric; label] →
         lookup_list lists' metric label = Some (sets_NewString (Split v ","))) ∧
      ((∀ k v, (k, v) ∈ mapping → Split k "," ≠ [metric; label]) →
         lookup_list lists' metric label = lookup_list lists metric label).
Proof.
  unfold validateAllowMetricLabel. revert lists. induction mapping as [|[k v] mapping IH]; intros lists Hnd Hne Hval; cbn [SetLabelAllowListFromCLI].
  { exists lists. split; [done|]. intros metric label. split; [by intros k v ?%not_elem_of_nil|done]. }
  cbn in Hnd, Hne, Hval. apply NoDup_cons in Hnd as [Hk Hnd]. apply not_elem_of_cons in Hne as [Hke Hne].
  destruct (FindString k != k) eqn:Hf; [done|]. cbn in Hval. bool_crush.
  destruct (FindString_full k) as (x & y & _ & Hsplit); [done|done|].
  unfold set_allow_list. rewrite Hsplit. cbn [index lookup list_lookup mbind outcome_bind].
  set (lists1 := <[x := _]> lists).
  destruct (IH lists1 Hnd Hne Hval) as (lists' & Hr & Hl). exists lists'. split; [exact Hr|].
  intros metric label. destruct (Hl metric label) as [Hin Hout].
  assert (∀ k', k' ∈ mapping.*1 → Split k' "," ≠ [x; y]) as Hother.
  { intros k' Hk' Hs. apply Hk. replace k with k'; [done|]. rewrite <- (Join_Split k' ","), <- (Join_Split k ","). congruence. }
  split.
  - intros k' v' [Heq|Hin']%elem_of_cons Hs; [|by eapply Hin].
    injection Heq as -> ->. rewrite Hsplit in Hs. injection Hs as <- <-. rewrite Hout.
    + unfold lists1. by rewrite lookup_list_insert, decide_True.
    + intros k' v'' Hin'. apply Hother. by apply (list_elem_of_fmap_2' fst mapping (k', v'')).
  - intros Hno. rewrite Hout by (intros k' v' Hin'; apply (Hno k' v'); by right).
    unfold lists1. rewrite lookup_list_insert, decide_False; [done|]. intros [-> ->]. by apply (Hno k v); [left|].
Qed.

(** Constrained values are allowed ones, or "unexpected": a label has no more values
    than its allow-list and one. *)
Theorem ConstrainToAllowedList_spec allowList names values :
  length values ≤ length names →
  ∃ values', ConstrainToAllowedList allowList names values = Ret values' ∧ length values' = length values ∧
    (∀ i name value', names !! i = Some name → values' !! i = Some value' →
       match allowList !! name with
       | Some allowed => sets_Has allowed value' = true ∨ value' = "unexpected"
       | None => values !! i = Some value'
       end) ∧
    ConstrainToAllowedList allowList names values' = Ret values'.
Proof.
  revert names. induction values as [|value values IH]; intros names Hlen; cbn [ConstrainToAllowedList].
  { exists []. split_and!; [done|done| |done]. by intros i name value' _ ?. }
  destruct names as [|name names]; [cbn in Hlen; lia|]. cbn in Hlen.
  destruct (IH names) as (values' & Hr & Hl & Hv & Hid); [lia|]. cbn. rewrite Hr. cbn. eexists. split; [done|]. split_and!.
  - cbn. by rewrite Hl.
  - intros [|i] name' value'; cbn; [|apply Hv]. intros [= <-] [= <-].
    destruct (allowList !! name) as [allowed|]; [|done]. destruct (sets_Has allowed value) eqn:Ha; [by left|by right].
  - cbn. rewrite Hid. cbn. do 2 f_equal. destruct (allowList !! name) as [allowed|]; [|done].
    destruct (sets_Has allowed value) eqn:Ha; [by rewrite Ha|]. by destruct (sets_Has allowed "unexpected").
Qed.
End label_theorems.

(** The empty key passes the validation, since an unsuccessful search also returns the
    empty string, and panics when it is applied. *)
Theorem empty_key_panics `{StringSets sset} (lists : gmap string (gmap string sset)) v :
  validateAllowMetricLabel [""] = None ∧ SetLabelAllowListFromCLI lists [("", v)] = Panic "index out of range".
Proof. done. Qed.

(** The version to show hidden metrics for is the previous minor version; the
    subtraction wraps around, so that no sensible value is accepted at minor version
    zero. *)
Theorem validateShowHidden_spec `{Semver V} (current : V) target :
  (0 ≤ sv_Minor current < 2 ^ 64)%Z →
  validateShowHiddenMetricsVersion current target = None ↔
  target = "" ∨
  target = Itoa (sv_Major current) +:+ "." +:+
           Itoa (if decide (sv_Minor current = 0%Z) then 2 ^ 64 - 1 else sv_Minor current - 1)%Z.
Proof.
  intros Hm. unfold validateShowHiddenMetricsVersion. case_bool_decide; [naive_solver|]. cbn zeta.
  assert ((sv_Minor current - 1) mod 2 ^ 64 = if decide (sv_Minor current = 0) then 2 ^ 64 - 1 else sv_Minor current - 1)%Z as ->.
  { case_decide as Hz; [by rewrite Hz|]. rewrite Z.mod_small; lia. }
  case_bool_decide; naive_solver.
Qed.

(** ** Concrete runs *)

Module MetricsExamples.
(** Versions "a.b.c" of single digits. *)
Definition parse3 (s : string) : option (Z * Z * Z) :=
  match s with
  | String a (String "." (String b (String "." (String c "")))) =>
      match digit_value a, digit_value b, digit_value c with
      | Some x, Some y, Some z => Some (x, y, z)
      | _, _, _ => None
      end
  | _ => None
  end.

Definition number (v : Z * Z * Z) : Z := let '(x, y, z) := v in (x * 100 + y * 10 + z)%Z.

#[local] Instance semver3 : Semver (Z * Z * Z) := {|
  sv_Parse := parse3; sv_LT v w := (number v <? number w)%Z; sv_LTE v w := (number v <=? number w)%Z;
  sv_Major v := v.1.1; sv_Minor v := v.1.2;
|}.

Definition prom (l : list string) (n : string) : option error :=
  if bool_decide (n ∈ l) then Some (Errorf "duplicate metrics collector registration attempted" []) else None.

Lemma prom_new l n : n ∉ l → prom l n = None.
Proof. intros Hn. unfold prom. by rewrite bool_decide_eq_false_2. Qed.

Definition metrics : list lazyMetric :=
  [NewCounter "requests" "" "STABLE" "Requests."; NewCounter "old" "1.2.0" "" "Old."; NewCounter "noisy" "" "" "Noisy."].

Definition start : globals := {| g_showHidden := false; g_showHiddenOnce := false; g_disabled := {[ "noisy" ]} |}.

Lemma SetShowHidden_reveals_witness :
  ∃ kr h1 g' kr' h2,
    MustRegister prom start (newKubeRegistry (1, 5, 0)%Z) metrics [0; 1; 2] = Ret (kr, h1) ∧
    SetShowHidden prom map_to_list start [kr] h1 = Ret (g', [kr'], h2) ∧
    1 ∈ kr_registered kr' ∧ 2 ∉ kr_registered kr'.
Proof.
  destruct (SetShowHidden_reveals prom prom_new map_to_list start (1, 5, 0)%Z metrics) as (kr & h1 & g' & kr' & h2 & Hr & _ & Hs & _ & Hreg).
  - reflexivity.
  - apply (bool_decide_unpack _). vm_compute. exact I.
  - repeat apply Forall_cons_2; [..|constructor]; (split; [repeat split|split; [by eexists|]]); [by left|right; by eexists|by left].
  - reflexivity.
  - exists kr, h1, g', kr', h2. split; [exact Hr|]. split; [exact Hs|]. split.
    + apply (Hreg 1 _ eq_refl). apply (bool_decide_unpack _). vm_compute. exact I.
    + rewrite (Hreg 2 _ eq_refl). intros Hn. apply Hn. apply (bool_decide_unpack _). vm_compute. exact I.
Defined.

(** The flags say that disabling a metric has precedence over showing hidden ones.
    Apply shows hidden metrics before it records which are disabled, so that a hidden
    metric registered earlier is shown although it is disabled. *)
Theorem Apply_disabled_shown :
  ∃ kr h1 g' kr' h2,
    MustRegister prom {| g_showHidden := false; g_showHiddenOnce := false; g_disabled := ∅ |}
      (newKubeRegistry (1, 5, 0)%Z) [NewCounter "old" "1.2.0" "" "Old."] [0] = Ret (kr, h1) ∧ kr_registered kr = [] ∧
    Apply_visibility prom map_to_list "1.4" ["old"] {| g_showHidden := false; g_showHiddenOnce := false; g_disabled := ∅ |} [kr] h1 =
      Ret (g', [kr'], h2) ∧ "old" ∈ g_disabled g' ∧ kr_registered kr' = [0] ∧
    lm_Help <$> h2 !! 0 = Some "[ALPHA] (Deprecated since 1.2.0) Old.".
Proof.
  eexists _, _, _, _, _. split; [vm_compute; reflexivity|]. split; [reflexivity|].
  split; [vm_compute; reflexivity|]. split; [apply (bool_decide_unpack _); vm_compute; exact I|]. split; reflexivity.
Qed.

Lemma SetLabelAllowList_spec_witness :
  ∃ lists', @SetLabelAllowListFromCLI _ golib_sets_model ∅ [("http_requests,code", "200,500")] = Ret lists' ∧
    lookup_list lists' "http_requests" "code" = Some ({[ "200"; "500" ]} : gset string).
Proof.
  destruct (@SetLabelAllowList_spec _ golib_sets_model ∅ [("http_requests,code", "200,500")]) as (lists' & Hr & Hl).
  - apply (bool_decide_unpack _). vm_compute. exact I.
  - apply (bool_decide_unpack _). vm_compute. exact I.
  - vm_compute. reflexivity.
  - exists lists'. split; [exact Hr|]. rewrite (proj1 (Hl "http_requests" "code") "http_requests,code" "200,500"); [|left|reflexivity].
    reflexivity.
Defined.

Lemma ConstrainToAllowedList_spec_witness :
  ∃ values', @ConstrainToAllowedList _ golib_sets_model {[ "code" := {[ "200" ]} ]} ["code"; "path"] ["418"; "/x"] = Ret values' ∧
    values' = ["unexpected"; "/x"].
Proof.
  destruct (@ConstrainToAllowedList_spec _ golib_sets_model {[ "code" := ({[ "200" ]} : gset string) ]} ["code"; "path"] ["418"; "/x"]) as (values' & Hr & _);
    [cbn; lia|]. exists values'. split; [exact Hr|]. vm_compute in Hr. injection Hr as <-. reflexivity.
Defined.

Lemma validateShowHidden_spec_witness :
  validateShowHiddenMetricsVersion (1, 5, 0)%Z "1.4" = None.
Proof.
  apply (validateShowHidden_spec (1, 5, 0)%Z "1.4"); [cbn; lia|]. right. vm_compute. reflexivity.
Defined.
End MetricsExamples.
