(* ===== verification/AuditModule.v ===== *)
(** * The audit module and its log and webhook plugins

    Models pkg/audit/module/audit.go, plugin/audit/log/backend.go,
    plugin/audit/webhook/webhook.go, pkg/audit/format.go and the configuration of
    plugin/audit/buffered: the options and their validation, the tree of backends
    that initAudit builds from them, ProcessEvents through that tree, and what
    starting and stopping it does to the goroutines of its buffers.

    [W] is the world behind the two sinks: the writer of the log and the remote
    service.  golib's encoder, the reading of the policy file and of the webhook's
    kubeconfig, and time.Time.Format are parameters.  Buffered backends carry the
    identity of the channels they were made with. *)

From Stdlib Require Import SpecFloat.
From stdpp Require Import pretty.
From S2P Require Import Prelude GoStrings Webhook Streams ServiceAccount Authorizer AuditPolicy AuditBackends.

Local Open Scope go_scope.

(** ** Options *)

(** ThrottleQPS is a float32. *)
Record BatchConfig := {
  bc_BufferSize : Z;
  bc_MaxBatchSize : Z;
  bc_MaxBatchWait : Z;
  bc_ThrottleEnable : bool;
  bc_ThrottleQPS : spec_float;
  bc_ThrottleBurst : Z;
  bc_AsyncDelegate : bool;
}.

Definition float32_of_Z (n : Z) : spec_float := binary_normalize 24 128 n 0 false.

Definition ModeBatch : string := "batch".
Definition ModeBlocking : string := "blocking".
Definition ModeBlockingStrict : string := "blocking-strict".
Definition AllowedModes : list string := [ModeBatch; ModeBlocking; ModeBlockingStrict].

Definition FormatLegacy : string := "legacy".
Definition FormatJson : string := "json".
Definition AllowedFormats : list string := [FormatLegacy; FormatJson].

Definition log_PluginName : string := "log".
Definition webhook_PluginName : string := "webhook".
Definition buffered_PluginName : string := "buffered".
Definition truncate_PluginName : string := "truncate".

Record AuditBatchOptions := { bo_Mode : string; bo_BatchConfig : BatchConfig }.

Record AuditTruncateOptions := { to_Enabled : bool; to_Config : truncate_Config }.

Record AuditLogOptions := {
  lo_Path : string; lo_MaxAge : Z; lo_MaxBackups : Z; lo_MaxSize : Z; lo_Format : string; lo_Compress : bool;
  lo_BatchOptions : AuditBatchOptions; lo_TruncateOptions : AuditTruncateOptions;
}.

Record AuditWebhookOptions := {
  wo_ConfigFile : string; wo_InitialBackoff : Z;
  wo_BatchOptions : AuditBatchOptions; wo_TruncateOptions : AuditTruncateOptions;
}.

Record config := {
  cf_PolicyFile : string; cf_LogOptions : AuditLogOptions; cf_WebhookOptions : AuditWebhookOptions;
}.

Definition log_enabled (o : AuditLogOptions) : bool := lo_Path o != "".
Definition webhook_enabled (o : AuditWebhookOptions) : bool := wo_ConfigFile o != "".

Definition validateBackendMode (pluginName mode : string) : option error :=
  if existsb (λ m, m == mode) AllowedModes then None
  else Some (Errorf "invalid audit %s mode %s, allowed modes are %q" [pluginName; mode; Join AllowedModes ","]).

Definition validateBackendBatchOptions (pluginName : string) (options : AuditBatchOptions) : option error :=
  match validateBackendMode pluginName (bo_Mode options) with
  | Some err => Some err
  | None =>
      if bo_Mode options != ModeBatch then None
      else
        let config := bo_BatchConfig options in
        if (bc_BufferSize config <=? 0)%Z
        then Some (Errorf "invalid audit batch %s buffer size %v, must be a positive number"
                     [pluginName; Itoa (bc_BufferSize config)])
        else if (bc_MaxBatchSize config <=? 0)%Z
        then Some (Errorf "invalid audit batch %s max batch size %v, must be a positive number"
                     [pluginName; Itoa (bc_MaxBatchSize config)])
        else if bc_ThrottleEnable config then
          if SFleb (bc_ThrottleQPS config) (S754_zero false)
          then Some (Errorf "invalid audit batch %s throttle QPS %v, must be a positive number" [pluginName])
          else if (bc_ThrottleBurst config <=? 0)%Z
          then Some (Errorf "invalid audit batch %s throttle burst %v, must be a positive number"
                       [pluginName; Itoa (bc_ThrottleBurst config)])
          else None
        else None
  end.

Definition truncate_Validate (o : AuditTruncateOptions) (pluginName : string) : option error :=
  let config := to_Config o in
  if (MaxEventSize config <=? 0)%Z
  then Some (Errorf "invalid audit truncate %s max event size %v, must be a positive number"
               [pluginName; Itoa (MaxEventSize config)])
  else if (MaxBatchSize config <? MaxEventSize config)%Z
  then Some (Errorf "invalid audit truncate %s max batch size %v, must be greater than max event size (%v)"
               [pluginName; Itoa (MaxBatchSize config); Itoa (MaxEventSize config)])
  else None.

Definition log_Validate (o : AuditLogOptions) : list error :=
  if negb (log_enabled o) then []
  else
    option_list (validateBackendBatchOptions log_PluginName (lo_BatchOptions o)) ++
    option_list (truncate_Validate (lo_TruncateOptions o) log_PluginName) ++
    (if existsb (λ f, f == lo_Format o) AllowedFormats then []
     else [Errorf "invalid audit log format %s, allowed formats are %q" [lo_Format o; Join AllowedFormats ","]]) ++
    (if (lo_MaxAge o <? 0)%Z
     then [Errorf "--audit-log-maxage %v can't be a negative number" [Itoa (lo_MaxAge o)]] else []) ++
    (if (lo_MaxBackups o <? 0)%Z
     then [Errorf "--audit-log-maxbackup %v can't be a negative number" [Itoa (lo_MaxBackups o)]] else []) ++
    (if (lo_MaxSize o <? 0)%Z
     then [Errorf "--audit-log-maxsize %v can't be a negative number" [Itoa (lo_MaxSize o)]] else []).

Definition webhook_Validate (o : AuditWebhookOptions) : list error :=
  if negb (webhook_enabled o) then []
  else
    option_list (validateBackendBatchOptions webhook_PluginName (wo_BatchOptions o)) ++
    option_list (truncate_Validate (wo_TruncateOptions o) webhook_PluginName).

Definition config_Validate `{UtilErrors} (c : config) : option error :=
  NewAggregate (log_Validate (cf_LogOptions c) ++ webhook_Validate (cf_WebhookOptions c)).

(** *** Defaults *)

Definition NewAuditTruncateOptions : AuditTruncateOptions :=
  {| to_Enabled := false; to_Config := {| MaxEventSize := 100 * 1024; MaxBatchSize := 10 * 1024 * 1024 |} |}.

(** Durations are in nanoseconds. *)
Definition second : Z := 10 ^ 9.

Definition defaultWebhookBatchConfig : BatchConfig :=
  {| bc_BufferSize := 10000; bc_MaxBatchSize := 400; bc_MaxBatchWait := 30 * second; bc_ThrottleEnable := true;
     bc_ThrottleQPS := float32_of_Z 10; bc_ThrottleBurst := 15; bc_AsyncDelegate := true |}.

Definition defaultLogBatchConfig : BatchConfig :=
  {| bc_BufferSize := 10000; bc_MaxBatchSize := 1; bc_MaxBatchWait := 0; bc_ThrottleEnable := false;
     bc_ThrottleQPS := S754_zero false; bc_ThrottleBurst := 0; bc_AsyncDelegate := false |}.

Definition DefaultInitialBackoffDelay : Z := 10 * second.

Definition newConfig : config := {|
  cf_PolicyFile := "";
  cf_LogOptions := {|
    lo_Path := ""; lo_MaxAge := 0; lo_MaxBackups := 0; lo_MaxSize := 0; lo_Format := FormatJson; lo_Compress := false;
    lo_BatchOptions := {| bo_Mode := ModeBlocking; bo_BatchConfig := defaultLogBatchConfig |};
    lo_TruncateOptions := NewAuditTruncateOptions |};
  cf_WebhookOptions := {|
    wo_ConfigFile := ""; wo_InitialBackoff := DefaultInitialBackoffDelay;
    wo_BatchOptions := {| bo_Mode := ModeBatch; bo_BatchConfig := defaultWebhookBatchConfig |};
    wo_TruncateOptions := NewAuditTruncateOptions |};
|}.

(** ** Text of an event (format.go) *)

Definition nl : string := String "010"%char "".

Section format.
(** [RequestReceivedTimestamp.Format(time.RFC3339Nano)]. *)
Context (RFC3339Nano : Z → string).

Definition auditStringSlice (inList : list string) : string := Join (Quote <$> inList) ",".

(** An impersonated user's groups are nil when they are the empty list. *)
Definition EventString (ev : Event) : string :=
  let user := ev_User ev in
  let username := if 0 <? slen (ui_Username user) then ui_Username user else "<none>" in
  let groups :=
    if (0 <? slen (ui_Username user)) && (0 <? length (ui_Groups user))
    then auditStringSlice (ui_Groups user) else "<none>" in
  let asuser := match ev_ImpersonatedUser ev with Some u => ui_Username u | None => "<self>" end in
  let asgroups :=
    match ev_ImpersonatedUser ev with
    | Some u => if ui_Groups u == [] then "<lookup>" else auditStringSlice (ui_Groups u)
    | None => "<lookup>"
    end in
  let namespace :=
    match ev_ObjectRef ev with
    | Some ref => if slen (or_Namespace ref) =? 0 then "<none>" else or_Namespace ref
    | None => "<none>"
    end in
  let response := match ev_ResponseStatus ev with Some st => Itoa (st_Code st) | None => "<deferred>" end in
  let ip := match ev_SourceIPs ev with ip :: _ => ip | [] => "<unknown>" end in
  RFC3339Nano (ev_RequestReceivedTimestamp ev) +:+ " AUDIT: id=" +:+ Quote (ev_AuditID ev) +:+
  " stage=" +:+ Quote (ev_Stage ev) +:+ " ip=" +:+ Quote ip +:+ " method=" +:+ Quote (ev_Verb ev) +:+
  " user=" +:+ Quote username +:+ " groups=" +:+ Quote groups +:+ " as=" +:+ Quote asuser +:+
  " asgroups=" +:+ Quote asgroups +:+ " namespace=" +:+ Quote namespace +:+ " uri=" +:+ Quote (ev_RequestURI ev) +:+
  " response=" +:+ String "034"%char response +:+ String "034"%char "".
End format.

(** ** Backends *)

(** The writers of the log: standard output, or a rotated file. *)
Inductive Writer := Stdout | File (filename : string) (maxAge maxBackups maxSize : Z) (compress : bool).

(** What initAudit composes.  A buffered backend has its channels ([id]), the
    capacity of its queue and its limits. *)
Inductive backend :=
  | LogBackend (out : Writer) (format : string)
  | WebhookBackend (configFile : string) (initialBackoff : Z)
  | IgnoreErrors (b : backend)
  | Buffered (id : nat) (b : backend) (c : BatchConfig)
  | Truncate (b : backend) (c : truncate_Config)
  | Union (backends : list backend).

Definition audit_Union (backends : list backend) : backend :=
  match backends with [b] => b | _ => Union backends end.

Definition appendBackend (existing newBackend : option backend) : option backend :=
  match existing, newBackend with
  | None, _ => newBackend
  | _, None => existing
  | Some e, Some n => Some (audit_Union [e; n])
  end.

Fixpoint backend_String (b : backend) : string :=
  match b with
  | LogBackend _ _ => log_PluginName
  | WebhookBackend _ _ => webhook_PluginName
  | IgnoreErrors b => "ignoreErrors<" +:+ backend_String b +:+ ">"
  | Buffered _ b _ => buffered_PluginName +:+ "<" +:+ backend_String b +:+ ">"
  | Truncate b _ => truncate_PluginName +:+ "<" +:+ backend_String b +:+ ">"
  | Union backends => "union[" +:+ Join (backend_String <$> backends) "," +:+ "]"
  end.

(** make panics on a negative capacity. *)
Definition buffered_NewBackend (id : nat) (delegate : backend) (c : BatchConfig) : outcome backend :=
  if (bc_BufferSize c <? 0)%Z then Panic "makechan: size out of range" else Ret (Buffered id delegate c).

Definition batch_wrapBackend (id : nat) (o : AuditBatchOptions) (delegate : backend) : outcome backend :=
  if bo_Mode o == ModeBlockingStrict then Ret delegate
  else if bo_Mode o == ModeBlocking then Ret (IgnoreErrors delegate)
  else buffered_NewBackend id delegate (bo_BatchConfig o).

Definition truncate_wrapBackend (o : AuditTruncateOptions) (delegate : backend) : backend :=
  if negb (to_Enabled o) then delegate else Truncate delegate (to_Config o).

Definition getWriter (o : AuditLogOptions) : option Writer :=
  if negb (log_enabled o) then None
  else Some (if lo_Path o != "-"
             then File (lo_Path o) (lo_MaxAge o) (lo_MaxBackups o) (lo_MaxSize o) (lo_Compress o) else Stdout).

Definition log_newBackend (id : nat) (o : AuditLogOptions) (w : Writer) : outcome backend :=
  log ← batch_wrapBackend id (lo_BatchOptions o) (LogBackend w (lo_Format o));
  Ret (truncate_wrapBackend (lo_TruncateOptions o) log).

(** [load] reads the kubeconfig: an error, or nothing. *)
Definition newUntruncatedBackend (load : string → option error) (id : nat) (o : AuditWebhookOptions)
    : outcome (backend + error) :=
  match load (wo_ConfigFile o) with
  | Some err => Ret (inr (ErrorWrap "initializing audit webhook: %v" [] err))
  | None => b ← batch_wrapBackend id (wo_BatchOptions o) (WebhookBackend (wo_ConfigFile o) (wo_InitialBackoff o)); Ret (inl b)
  end.

(** *** The module *)

Section module.
(** ioutil.ReadFile, golib's decoder of policies, and the reading of the webhook's
    kubeconfig: an error, or nothing. *)
Context `{DNSValidation} (ReadFile : string → string + error) (decode : string → AuditPolicy + error)
        (load : string → option error).

Definition LoadPolicyFromFile (filePath : string) : outcome (AuditPolicy + error) :=
  if filePath == "" then Ret (inr (Errorf "file path not specified" []))
  else
    match ReadFile filePath with
    | inr err => Ret (inr (ErrorWrap "failed to read file path %q: %+v" [filePath] err))
    | inl policyDef =>
        r ← LoadPolicyFromBytes decode policyDef;
        Ret match r with
            | inr err => inr (ErrorWrap "%v: from file %v" [filePath] err)
            | inl ret => inl ret
            end
    end.

Definition newPolicyChecker (c : config)
    : outcome (option AuditPolicy + error) :=
  if cf_PolicyFile c == "" then Ret (inl None)
  else
    r ← LoadPolicyFromFile (cf_PolicyFile c);
    Ret match r with
        | inr err => inr (ErrorWrap "loading audit policy file: %v" [] err)
        | inl p => inl (Some (NewChecker p))
        end.

Record module := { m_checker : option AuditPolicy; m_backend : option backend }.

(** The channels of the log's buffer are 0, those of the webhook's 1. *)
Definition initAudit (c : config) : outcome (module + error) :=
  r ← newPolicyChecker c;
  match r with
  | inr err => Ret (inr err)
  | inl checker =>
      logBackend ←
        match getWriter (cf_LogOptions c), checker with
        | Some w, Some _ => b ← log_newBackend 0 (cf_LogOptions c) w; Ret (Some b)
        | _, _ => Ret None
        end;
      webhookBackend ←
        (if webhook_enabled (cf_WebhookOptions c) then
           match checker with
           | None => Ret (inl None)
           | Some _ =>
               r ← newUntruncatedBackend load 1 (cf_WebhookOptions c);
               Ret match r with inl b => inl (Some b) | inr err => inr err end
           end
         else Ret (inl None));
      match webhookBackend with
      | inr err => Ret (inr err)
      | inl webhookBackend =>
          let dynamicBackend := truncate_wrapBackend (wo_TruncateOptions (cf_WebhookOptions c)) <$> webhookBackend in
          Ret (inl {| m_checker := checker; m_backend := appendBackend logBackend dynamicBackend |})
      end
  end.
End module.

(** ** ProcessEvents *)

(** The two sinks, the queues by their identity, and the calls of HandlePluginError
    with the plugin and the events that may not have been recorded. *)
Record audit_state (W : Type) := {
  as_world : W;
  as_buffers : gmap nat buffered_state;
  as_errors : list (string * error * list Event);
}.
Arguments as_world {W} _.
Arguments as_buffers {W} _.
Arguments as_errors {W} _.

Section process.
Context {W : Type} `{Backoff}.
(** [write out line] appends to the writer; [post events] sends one request with an
    EventList; [Encode] is golib's encoder and [calcSize] the size of its output. *)
Context (RFC3339Nano : Z → string) (write : Writer → string → W → option error * W)
        (post : string → list Event → W → option error * W) (Encode : Event → string + error)
        (calcSize : Event → Z + error) (aggregate : list error → error).

Definition set_world (w : W) : ST (audit_state W) unit := λ s,
  (tt, {| as_world := w; as_buffers := as_buffers s; as_errors := as_errors s |}).

Definition HandlePluginError (plugin : string) (err : error) (impacted : list Event) : ST (audit_state W) unit := λ s,
  (tt, {| as_world := as_world s; as_buffers := as_buffers s; as_errors := as_errors s ++ [(plugin, err, impacted)] |}).

(** *** Log *)

Definition log_line (format : string) (ev : Event) : string + error :=
  if format == FormatLegacy then inl (EventString RFC3339Nano ev +:+ nl)
  else if format == FormatJson then Encode ev
  else inr (Errorf "log format %q is not in list of known formats (%s)" [format; Join AllowedFormats ","]).

Definition logEvent (out : Writer) (format : string) (ev : Event) : ST (audit_state W) bool :=
  match log_line format ev with
  | inr err => _ ← HandlePluginError log_PluginName err [ev]; mret false
  | inl line => λ s,
      let '(r, w) := write out line (as_world s) in
      (_ ← set_world w;
       match r with
       | Some err => _ ← HandlePluginError log_PluginName err [ev]; mret false
       | None => mret true
       end) s
  end.

Fixpoint log_loop (out : Writer) (format : string) (events : list Event) (success : bool) : ST (audit_state W) bool :=
  match events with
  | [] => mret success
  | ev :: rest => ok ← logEvent out format ev; log_loop out format rest (ok && success)
  end.

Definition log_ProcessEvents (out : Writer) (format : string) (events : list Event) : ST (audit_state W) bool :=
  log_loop out format events true.

(** *** Webhook *)

Definition retryOnError (err : option error) : bool := bool_decide (is_Some err).

(** DefaultRetryBackoffWithInitialDelay tries five times. *)
Definition retry_steps : nat := 5.

(** GenericWebhook.WithExponentialBackoff keeps the last result beside the state and
    drops what the retries return; [None] is the zero result, which has no error. *)
Definition GenericWebhook_WithExponentialBackoff (webhookFn : W → option error * W) (w : W) : option error * W :=
  let '(_, (result, w)) :=
    WithExponentialBackoff retry_steps
      (λ rw : option error * W, let '(r, w) := webhookFn rw.2 in (r, (r, w))) retryOnError (None, w) in
  (result, w).

Definition webhook_ProcessEvents (configFile : string) (events : list Event) : ST (audit_state W) bool := λ s,
  let '(err, w) := GenericWebhook_WithExponentialBackoff (post configFile events) (as_world s) in
  (_ ← set_world w;
   match err with
   | Some err => _ ← HandlePluginError webhook_PluginName err events; mret false
   | None => mret true
   end) s.

(** *** The tree *)

Definition set_buffer (id : nat) (q : buffered_state) : ST (audit_state W) unit := λ s,
  (tt, {| as_world := as_world s; as_buffers := <[id := q]> (as_buffers s); as_errors := as_errors s |}).

(** What the caller's event has become: a truncating backend may have annotated it,
    and whoever handles it next sees that. *)
Fixpoint caller_view (b : backend) (ev : Event) : Event :=
  match b with
  | LogBackend _ _ | WebhookBackend _ _ | Buffered _ _ _ => ev
  | IgnoreErrors b => caller_view b ev
  | Truncate _ c => truncate_caller_view calcSize c ev
  | Union backends => foldl (λ ev b, caller_view b ev) ev backends
  end.

Fixpoint ProcessEvents (b : backend) (events : list Event) : ST (audit_state W) bool :=
  match b with
  | LogBackend out format => log_ProcessEvents out format events
  | WebhookBackend configFile _ => webhook_ProcessEvents configFile events
  | IgnoreErrors b => _ ← ProcessEvents b events; mret true
  | Buffered id b c => λ s,
      let q := default buffered_init (as_buffers s !! id) in
      (_ ← set_buffer id (buffered_ProcessEvents (Z.to_nat (bc_BufferSize c)) events q); mret true) s
  | Truncate b c =>
      r ← truncate_ProcessEvents calcSize c (ProcessEvents b) events;
      _ ← (if 0 <? length r.2 then HandlePluginError truncate_PluginName (aggregate r.2.*2) r.2.*1 else mret tt);
      mret r.1
  | Union backends =>
      (fix loop backends events success :=
         match backends with
         | [] => mret success
         | b :: rest => ok ← ProcessEvents b events; loop rest (caller_view b <$> events) (ok && success)
         end) backends events true
  end.
End process.

(** ** Starting and stopping *)

(** The goroutines that Run starts, each named by the buffer it serves.  Of a union
    only the last backend is run, once per backend (see union_Run). *)
Fixpoint Run (b : backend) : list nat :=
  match b with
  | LogBackend _ _ | WebhookBackend _ _ => []
  | IgnoreErrors b | Truncate b _ => Run b
  | Buffered id b _ => id :: Run b
  | Union backends =>
      concat (replicate (length backends)
        ((fix last_run backends :=
            match backends with [] => [] | [b] => Run b | _ :: rest => last_run rest end) backends))
  end.

(** The shutdownCh that Shutdown waits for, in order. *)
Fixpoint Shutdown (b : backend) : list nat :=
  match b with
  | LogBackend _ _ | WebhookBackend _ _ => []
  | IgnoreErrors b | Truncate b _ => Shutdown b
  | Buffered id b _ => id :: Shutdown b
  | Union backends => mjoin (Shutdown <$> backends)
  end.

(** init: the module, with the goroutines it started; no Run of these backends fails. *)
Definition module_init `{DNSValidation} (ReadFile : string → string + error) (decode : string → AuditPolicy + error)
    (load : string → option error) (ReadConfig : config + error) : outcome (module * list nat + error) :=
  match ReadConfig with
  | inr err => Ret (inr err)
  | inl cf =>
      r ← initAudit ReadFile decode load cf;
      Ret match r with
          | inr err => inr err
          | inl m => inl (m, match m_backend m with Some b => Run b | None => [] end)
          end
  end.

(** A goroutine of Run after stopCh was closed: in processIncomingEvents, draining
    the buffer that it closed, or gone. *)
Inductive goroutine := Incoming | Remaining | Exited.

Record life := {
  l_goroutines : list (nat * goroutine);
  l_buffers : gset nat;      (* the buffers that are closed *)
  l_shutdownCh : gset nat;   (* the shutdownCh that are closed *)
  l_waiting : list nat;      (* what Shutdown still waits for *)
  l_crashed : bool;          (* a close panicked in a goroutine *)
}.

Definition module_stop (b : backend) : life :=
  {| l_goroutines := (λ id, (id, Incoming)) <$> Run b; l_buffers := ∅; l_shutdownCh := ∅;
     l_waiting := Shutdown b; l_crashed := false |}.

Definition crash (l : life) : life :=
  {| l_goroutines := l_goroutines l; l_buffers := l_buffers l; l_shutdownCh := l_shutdownCh l;
     l_waiting := l_waiting l; l_crashed := true |}.

Inductive life_step : life → life → Prop :=
  (* processIncomingEvents returns and closes the buffer *)
  | ls_close l i id :
      l_crashed l = false → l_goroutines l !! i = Some (id, Incoming) → id ∉ l_buffers l →
      life_step l {| l_goroutines := <[i := (id, Remaining)]> (l_goroutines l); l_buffers := {[ id ]} ∪ l_buffers l;
                     l_shutdownCh := l_shutdownCh l; l_waiting := l_waiting l; l_crashed := false |}
  | ls_close_panic l i id :
      l_crashed l = false → l_goroutines l !! i = Some (id, Incoming) → id ∈ l_buffers l → life_step l (crash l)
  (* the remaining events are processed and shutdownCh is closed *)
  | ls_exit l i id :
      l_crashed l = false → l_goroutines l !! i = Some (id, Remaining) → id ∉ l_shutdownCh l →
      life_step l {| l_goroutines := <[i := (id, Exited)]> (l_goroutines l); l_buffers := l_buffers l;
                     l_shutdownCh := {[ id ]} ∪ l_shutdownCh l; l_waiting := l_waiting l; l_crashed := false |}
  | ls_exit_panic l i id :
      l_crashed l = false → l_goroutines l !! i = Some (id, Remaining) → id ∈ l_shutdownCh l → life_step l (crash l)
  (* Shutdown's receive from shutdownCh *)
  | ls_wait l id rest :
      l_crashed l = false → l_waiting l = id :: rest → id ∈ l_shutdownCh l →
      life_step l {| l_goroutines := l_goroutines l; l_buffers := l_buffers l; l_shutdownCh := l_shutdownCh l;
                     l_waiting := rest; l_crashed := false |}.

(** ** Theorems *)

(** *** Validation *)

Definition batch_ok (o : AuditBatchOptions) : Prop :=
  bo_Mode o ∈ AllowedModes ∧
  (bo_Mode o = ModeBatch →
   let c := bo_BatchConfig o in
   (0 < bc_BufferSize c)%Z ∧ (0 < bc_MaxBatchSize c)%Z ∧
   (bc_ThrottleEnable c = true →
    SFleb (bc_ThrottleQPS c) (S754_zero false) = false ∧ (0 < bc_ThrottleBurst c)%Z)).

Definition truncate_ok (o : AuditTruncateOptions) : Prop :=
  (0 < MaxEventSize (to_Config o) ≤ MaxBatchSize (to_Config o))%Z.

Lemma validateBackendBatchOptions_None p o : validateBackendBatchOptions p o = None ↔ batch_ok o.
Proof.
  unfold validateBackendBatchOptions, validateBackendMode, batch_ok.
  rewrite existsb_eq_elem_of. case_bool_decide as Hm; [|naive_solver].
  case_bool_decide as Hb; cbn [negb]; [|naive_solver].
  repeat case_match; rewrite ?Z.leb_le, ?Z.leb_gt in *; naive_solver lia.
Qed.

Lemma truncate_Validate_None p o : truncate_Validate o p = None ↔ truncate_ok o.
Proof.
  unfold truncate_Validate, truncate_ok. repeat case_match; rewrite ?Z.leb_le, ?Z.leb_gt, ?Z.ltb_lt, ?Z.ltb_ge in *; naive_solver lia.
Qed.

Definition log_ok (o : AuditLogOptions) : Prop :=
  lo_Path o ≠ "" →
  batch_ok (lo_BatchOptions o) ∧ truncate_ok (lo_TruncateOptions o) ∧ lo_Format o ∈ AllowedFormats ∧
  (0 ≤ lo_MaxAge o)%Z ∧ (0 ≤ lo_MaxBackups o)%Z ∧ (0 ≤ lo_MaxSize o)%Z.

Definition webhook_ok (o : AuditWebhookOptions) : Prop :=
  wo_ConfigFile o ≠ "" → batch_ok (wo_BatchOptions o) ∧ truncate_ok (wo_TruncateOptions o).

Lemma option_list_nil {A} (o : option A) : option_list o = [] ↔ o = None.
Proof. by destruct o. Qed.

Lemma if_nil_Z (b : bool) (e : error) : (if b then [e] else []) = [] ↔ b = false.
Proof. by destruct b. Qed.

(** A configuration is accepted exactly when every plugin it enables has a known mode,
    a known format, and limits under which its buffers and truncation work: a queue
    and batches of at least one event, and batches at least as large as events. *)
Theorem config_Validate_spec `{UtilErrorsLaws} c :
  config_Validate c = None ↔ log_ok (cf_LogOptions c) ∧ webhook_ok (cf_WebhookOptions c).
Proof.
  unfold config_Validate. rewrite NewAggregate_None, app_nil.
  unfold log_Validate, webhook_Validate, log_ok, webhook_ok, log_enabled, webhook_enabled. f_equiv.
  - rewrite !negb_involutive. case_bool_decide as Hp; [naive_solver|].
    rewrite !app_nil, !option_list_nil, validateBackendBatchOptions_None, truncate_Validate_None, existsb_eq_elem_of,
      !if_nil_Z, !Z.ltb_ge.
    case_bool_decide; naive_solver.
  - rewrite !negb_involutive. case_bool_decide as Hp; [naive_solver|].
    rewrite !app_nil, !option_list_nil, validateBackendBatchOptions_None, truncate_Validate_None. naive_solver.
Qed.

(** *** Starting and stopping *)

(** Does the plugin get a buffer? *)
Definition batched (o : AuditBatchOptions) : bool :=
  (bo_Mode o != ModeBlockingStrict) && (bo_Mode o != ModeBlocking).

Lemma truncate_wrapBackend_life o b :
  Run (truncate_wrapBackend o b) = Run b ∧ Shutdown (truncate_wrapBackend o b) = Shutdown b.
Proof. unfold truncate_wrapBackend. by destruct (to_Enabled o). Qed.

Lemma batch_wrapBackend_life id o d b :
  Run d = [] → Shutdown d = [] → batch_wrapBackend id o d = Ret b →
  Run b = (if batched o then [id] else []) ∧ Shutdown b = (if batched o then [id] else []).
Proof.
  intros Hr Hs. unfold batch_wrapBackend, buffered_NewBackend, batched.
  case_bool_decide; cbn; [by intros [= <-]|]. case_bool_decide; cbn; [by intros [= <-]|].
  case_match; [done|]. intros [= <-]. cbn. by rewrite Hr, Hs.
Qed.

Lemma log_newBackend_life id o w b :
  log_newBackend id o w = Ret b →
  Run b = (if batched (lo_BatchOptions o) then [id] else []) ∧
  Shutdown b = (if batched (lo_BatchOptions o) then [id] else []).
Proof.
  unfold log_newBackend. destruct (batch_wrapBackend _ _ _) as [l|] eqn:Hl; [|done]. cbn. intros [= <-].
  destruct (truncate_wrapBackend_life (lo_TruncateOptions o) l) as [-> ->]. eapply batch_wrapBackend_life; [| |exact Hl]; done.
Qed.

Lemma newUntruncatedBackend_life load id o b :
  newUntruncatedBackend load id o = Ret (inl b) →
  Run b = (if batched (wo_BatchOptions o) then [id] else []) ∧
  Shutdown b = (if batched (wo_BatchOptions o) then [id] else []).
Proof.
  unfold newUntruncatedBackend. destruct (load _); [done|]. destruct (batch_wrapBackend _ _ _) as [l|] eqn:Hl; [|done].
  cbn. intros [= <-]. eapply batch_wrapBackend_life; [| |exact Hl]; done.
Qed.

Section module_theorems.
Context `{DNSValidation} (ReadFile : string → string + error) (decode : string → AuditPolicy + error)
        (load : string → option error).

(** What initAudit builds, plugin by plugin. *)
Lemma initAudit_backends c m :
  initAudit ReadFile decode load c = Ret (inl m) →
  ∃ lb wb,
    m_backend m = appendBackend lb (truncate_wrapBackend (wo_TruncateOptions (cf_WebhookOptions c)) <$> wb) ∧
    match lb with
    | Some b => ∃ w, getWriter (cf_LogOptions c) = Some w ∧ log_newBackend 0 (cf_LogOptions c) w = Ret b
    | None => log_enabled (cf_LogOptions c) = false ∨ m_checker m = None
    end ∧
    match wb with
    | Some b => webhook_enabled (cf_WebhookOptions c) = true ∧
                newUntruncatedBackend load 1 (cf_WebhookOptions c) = Ret (inl b)
    | None => webhook_enabled (cf_WebhookOptions c) = false ∨ m_checker m = None
    end ∧
    (m_checker m = None → lb = None ∧ wb = None).
Proof.
  unfold initAudit. destruct (newPolicyChecker _ _ c) as [[checker|]|]; [|done..]. cbn.
  destruct checker as [p|].
  - destruct (getWriter (cf_LogOptions c)) as [w|] eqn:Hw.
    + destruct (log_newBackend _ _ _) as [b|] eqn:Hb; [|done]. cbn.
      destruct (webhook_enabled _) eqn:He.
      * destruct (newUntruncatedBackend _ _ _) as [[wb|]|] eqn:Hwb; [|done..]. cbn. intros [= <-].
        exists (Some b), (Some wb). naive_solver.
      * cbn. intros [= <-]. exists (Some b), None. naive_solver.
    + cbn. assert (log_enabled (cf_LogOptions c) = false).
      { unfold getWriter in Hw. by destruct (log_enabled _). }
      destruct (webhook_enabled _) eqn:He.
      * destruct (newUntruncatedBackend _ _ _) as [[wb|]|] eqn:Hwb; [|done..]. cbn. intros [= <-].
        exists None, (Some wb). naive_solver.
      * cbn. intros [= <-]. exists None, None. naive_solver.
  - assert (match getWriter (cf_LogOptions c) with Some _ | _ => Ret None end = Ret (None : option backend)) as Hg
      by by destruct (getWriter _).
    rewrite Hg. cbn. destruct (webhook_enabled _); cbn; intros [= <-]; exists None, None; naive_solver.
Qed.
End module_theorems.

(** *** One buffer: every run of the stop ends well. *)

Definition one (id : nat) (g : goroutine) (w : list nat) : life :=
  {| l_goroutines := [(id, g)];
     l_buffers := (match g with Incoming => ∅ | _ => {[ id ]} end);
     l_shutdownCh := (match g with Exited => {[ id ]} | _ => ∅ end); l_waiting := w; l_crashed := false |}.

Lemma one_step id g w l :
  (w = [id] ∨ (g = Exited ∧ w = [])) → life_step (one id g w) l →
  ∃ g' w', l = one id g' w' ∧ (w' = [id] ∨ (g' = Exited ∧ w' = [])).
Proof.
  intros Hw Hs. inversion Hs as [l0 i id0 Hc Hg Hn|l0 i id0 Hc Hg Hn|l0 i id0 Hc Hg Hn|l0 i id0 Hc Hg Hn|l0 id0 rest Hc Hwait Hn];
    subst; cbn in *.
  - apply list_lookup_singleton_Some in Hg as [-> [= -> ->]]. exists Remaining, w. cbn.
    split; [unfold one; f_equal; set_solver|naive_solver].
  - apply list_lookup_singleton_Some in Hg as [-> [= -> ->]]. set_solver.
  - apply list_lookup_singleton_Some in Hg as [-> [= -> ->]]. exists Exited, w. cbn.
    split; [unfold one; f_equal; set_solver|naive_solver].
  - apply list_lookup_singleton_Some in Hg as [-> [= -> ->]]. set_solver.
  - destruct g; [set_solver..|]. exists Exited, rest. split; [done|]. destruct Hw as [->|[_ ->]]; naive_solver.
Qed.

Lemma one_reachable id l :
  rtc life_step (one id Incoming [id]) l → ∃ g w, l = one id g w ∧ (w = [id] ∨ (g = Exited ∧ w = [])).
Proof.
  intros Hr. remember (one id Incoming [id]) as l0 eqn:E.
  assert (∃ g w, l0 = one id g w ∧ (w = [id] ∨ (g = Exited ∧ w = []))) as Hi by (subst; naive_solver).
  clear E. induction Hr as [|x y z Hs _ IH]; [done|]. destruct Hi as (g & w & -> & Hw). by apply IH, (one_step id g w).
Qed.

Lemma one_finishes id g w :
  (w = [id] ∨ (g = Exited ∧ w = [])) → ∃ l, rtc life_step (one id g w) l ∧ l_waiting l = [].
Proof.
  intros [->|[-> ->]]; [|by exists (one id Exited [])].
  assert (rtc life_step (one id Exited [id]) (one id Exited [])) as H1.
  { apply rtc_once. eapply (ls_wait (one id Exited [id])); [done|done|cbn; set_solver]. }
  assert (rtc life_step (one id Remaining [id]) (one id Exited [id])) as H2.
  { apply rtc_once. pose proof (ls_exit (one id Remaining [id]) 0 id eq_refl eq_refl) as Hs. cbn in Hs.
    rewrite (right_id_L ∅ (∪)) in Hs. apply Hs. set_solver. }
  assert (rtc life_step (one id Incoming [id]) (one id Remaining [id])) as H3.
  { apply rtc_once. pose proof (ls_close (one id Incoming [id]) 0 id eq_refl eq_refl) as Hs. cbn in Hs.
    rewrite (right_id_L ∅ (∪)) in Hs. apply Hs. set_solver. }
  exists (one id Exited []). split; [|done]. destruct g; [by do 2 (etrans; [done|])|by etrans|done].
Qed.

(** Stopping [b] neither crashes nor blocks. *)
Definition stops_cleanly (b : backend) : Prop :=
  ∀ l, rtc life_step (module_stop b) l → l_crashed l = false ∧ ∃ l', rtc life_step l l' ∧ l_waiting l' = [].

Lemma stops_cleanly_one b (bt : bool) id :
  Run b = (if bt then [id] else []) → Shutdown b = (if bt then [id] else []) → stops_cleanly b.
Proof.
  intros Hr Hs l Hl. unfold module_stop in Hl. rewrite Hr, Hs in Hl. destruct bt.
  - apply (one_reachable id) in Hl as (g & w & -> & Hw). split; [done|]. by apply one_finishes.
  - assert (l = {| l_goroutines := []; l_buffers := ∅; l_shutdownCh := ∅; l_waiting := []; l_crashed := false |}) as ->.
    { cbn in Hl. inversion Hl as [|? y ? Hs' _]; [done|]. inversion Hs'; naive_solver. }
    split; [done|]. eexists. split; [constructor|done].
Qed.

(** *** Two plugins: the log's buffer is never run, the webhook's twice. *)

Lemma life_waiting_head id l l' :
  (∀ g, (id, g) ∉ l_goroutines l) → id ∉ l_shutdownCh l → head (l_waiting l) = Some id →
  rtc life_step l l' → l_waiting l' = l_waiting l.
Proof.
  intros Hg Hc Hh Hr. induction Hr as [|x y z Hs _ IH]; [done|].
  inversion Hs as [l0 i id0 Hn Hi Hb|l0 i id0 Hn Hi Hb|l0 i id0 Hn Hi Hb|l0 i id0 Hn Hi Hb|l0 id0 rest Hn Hw Hb]; subst; cbn in *.
  - apply IH; cbn; [|done|done]. intros g Hin%list_elem_of_lookup. destruct Hin as [j Hj].
    apply list_lookup_insert_Some in Hj as [(-> & [= <- <-] & _)|[_ Hj%list_elem_of_lookup_2]]; [|by eapply Hg].
    by apply list_elem_of_lookup_2, Hg in Hi.
  - by apply IH.
  - apply IH; cbn; [| |done].
    + intros g Hin%list_elem_of_lookup. destruct Hin as [j Hj].
      apply list_lookup_insert_Some in Hj as [(-> & [= <- <-] & _)|[_ Hj%list_elem_of_lookup_2]]; [|by eapply Hg].
      by apply list_elem_of_lookup_2, Hg in Hi.
    + rewrite not_elem_of_union, not_elem_of_singleton. split; [|done]. intros ->.
      by apply list_elem_of_lookup_2, Hg in Hi.
  - by apply IH.
  - rewrite Hw in Hh. naive_solver.
Qed.

Lemma crash_twice id rest waiting bufs :
  id ∉ bufs →
  ∃ l, rtc life_step {| l_goroutines := (id, Incoming) :: (id, Incoming) :: rest; l_buffers := bufs; l_shutdownCh := ∅;
                        l_waiting := waiting; l_crashed := false |} l ∧ l_crashed l = true.
Proof.
  intros Hb. eexists. split.
  - eapply rtc_l; [eapply (ls_close _ 0 id); done|]. apply rtc_once. eapply (ls_close_panic _ 1 id); [done|done|cbn; set_solver].
  - done.
Qed.

Section stop_theorem.
Context `{DNSValidation} (ReadFile : string → string + error) (decode : string → AuditPolicy + error)
        (load : string → option error).

(** C18: with one plugin, or with plugins without buffers, stopping the module ends: no
    goroutine panics and Shutdown returns.  With both plugins, Run starts the
    webhook's backend twice and the log's not at all: Shutdown waits forever for a
    log with a buffer, and a webhook with a buffer can crash the process by closing
    its channel twice. *)
Theorem audit_stop c m b :
  initAudit ReadFile decode load c = Ret (inl m) → m_backend m = Some b →
  let both := log_enabled (cf_LogOptions c) && webhook_enabled (cf_WebhookOptions c) in
  let log := batched (lo_BatchOptions (cf_LogOptions c)) in
  let webhook := batched (wo_BatchOptions (cf_WebhookOptions c)) in
  (both = false ∨ log = false ∧ webhook = false → stops_cleanly b) ∧
  (both = true → log = true → ∀ l, rtc life_step (module_stop b) l → l_waiting l ≠ []) ∧
  (both = true → webhook = true → ∃ l, rtc life_step (module_stop b) l ∧ l_crashed l = true).
Proof.
  intros Hi Hb both log webhook. destruct (initAudit_backends _ _ _ _ _ Hi) as (lb & wb & Hm & Hl & Hw & Hno).
  rewrite Hm in Hb. destruct lb as [lb|], wb as [wb|]; cbn in Hb; [| | |done]; injection Hb as <-.
  - destruct Hl as (w & Hwr & (Hlr & Hls)%log_newBackend_life). destruct Hw as (He & (Hwr' & Hws)%newUntruncatedBackend_life).
    destruct (truncate_wrapBackend_life (wo_TruncateOptions (cf_WebhookOptions c)) wb) as [Ht Hts].
    rewrite Hwr' in Ht. rewrite Hws in Hts. fold log in Hlr, Hls. fold webhook in Ht, Hts.
    assert (both = true) as Hboth.
    { unfold both. unfold getWriter in Hwr. by destruct (log_enabled _). }
    split_and!.
    + intros [?|[Hl0 Hw0]]; [congruence|]. apply (stops_cleanly_one _ false 0); cbn; rewrite ?Ht, ?Hts, ?Hls, Hw0, ?Hl0; done.
    + intros _ Hl1 l Hr. assert (Shutdown (Union [lb; truncate_wrapBackend (wo_TruncateOptions (cf_WebhookOptions c)) wb]) ≠ []) as Hne.
      { cbn. by rewrite Hls, Hl1. }
      rewrite (λ Hg Hc Hh, life_waiting_head 0 _ _ Hg Hc Hh Hr); [exact Hne| | |].
      * intros g. cbn. rewrite Ht, app_nil_r. destruct webhook; cbn; set_solver.
      * cbn. set_solver.
      * cbn. by rewrite Hls, Hl1.
    + intros _ Hw1. unfold module_stop. cbn [Run]. rewrite Ht, Hw1. cbn. apply crash_twice. set_solver.
  - destruct Hl as (w & Hwr & (Hlr & Hls)%log_newBackend_life). assert (both = false) as ->.
    { destruct Hw as [Hw|Hc]; [|by destruct (Hno Hc)]. unfold both. by rewrite Hw, andb_false_r. }
    split_and!; [intros _|done..]. by eapply stops_cleanly_one.
  - destruct Hw as (He & (Hwr' & Hws)%newUntruncatedBackend_life). assert (both = false) as ->.
    { destruct Hl as [Hl|Hc]; [|by destruct (Hno Hc)]. unfold both. by rewrite Hl. }
    destruct (truncate_wrapBackend_life (wo_TruncateOptions (cf_WebhookOptions c)) wb) as [Ht Hts].
    split_and!; [intros _|done..]. apply (stops_cleanly_one _ webhook 1); [by rewrite Ht|by rewrite Hts].
Qed.
End stop_theorem.

(** *** Text *)

Lemma quote_byte_no_nl a : ContainsByte (quote_byte a) "010"%char = false.
Proof. destruct a as [[] [] [] [] [] [] [] []]; reflexivity. Qed.

Lemma quote_bytes_no_nl s : ContainsByte (quote_bytes s) "010"%char = false.
Proof. induction s as [|a s IH]; [done|]. cbn [quote_bytes]. by rewrite ContainsByte_app, quote_byte_no_nl, IH. Qed.

Lemma Quote_no_nl s : ContainsByte (Quote s) "010"%char = false.
Proof. unfold Quote. cbn [ContainsByte]. by rewrite ContainsByte_app, quote_bytes_no_nl. Qed.

Lemma Itoa_no_nl n : ContainsByte (Itoa n) "010"%char = false.
Proof. apply Itoa_ContainsByte; [done|no_digit]. Qed.

Lemma EventString_no_nl RFC3339Nano ev :
  (∀ t, ContainsByte (RFC3339Nano t) "010"%char = false) → ContainsByte (EventString RFC3339Nano ev) "010"%char = false.
Proof.
  intros Ht. unfold EventString. cbn zeta.
  change (String "034"%char ?s +:+ ?t) with (String "034"%char (s +:+ t)).
  assert (∀ st : option Status, ContainsByte match st with Some st => Itoa (st_Code st) | None => "<deferred>" end "010"%char = false)
    as Hr by (intros []; [apply Itoa_no_nl|done]).
  rewrite !ContainsByte_app, Ht, !Quote_no_nl. cbn [ContainsByte orb]. rewrite ContainsByte_app, Hr. done.
Qed.

(** *** Processing *)

Section process_theorems.
Context {W : Type} `{Backoff}.
Context (RFC3339Nano : Z → string) (write : Writer → string → W → option error * W)
        (post : string → list Event → W → option error * W) (Encode : Event → string + error)
        (calcSize : Event → Z + error) (aggregate : list error → error).

Abbreviation PE := (ProcessEvents RFC3339Nano write post Encode calcSize aggregate).

(** Does the backend report success whatever happens? *)
Definition lenient (b : backend) : Prop := ∀ events s, (PE b events s).1 = true.

Lemma truncate_loop_true c (delegate : list Event → ST (audit_state W) bool) events :
  (∀ events s, (delegate events s).1 = true) →
  ∀ batch size impacted s, (truncate_loop calcSize c delegate events batch size true impacted s).1.1 = true.
Proof.
  intros Hd. induction events as [|ev events IH]; intros batch size impacted s; cbn [truncate_loop].
  - destruct (0 <? length batch); [|done]. unfold mbind, ST_bind. specialize (Hd batch s).
    destruct (delegate batch s) as [ok s']. cbn in *. by subst.
  - destruct (prepare calcSize c ev) as [[e z]|bad]; [|apply IH]. case_match; [|apply IH].
    unfold mbind, ST_bind. specialize (Hd batch s). destruct (delegate batch s) as [ok s']. cbn in Hd. subst. apply IH.
Qed.

Lemma lenient_IgnoreErrors b : lenient (IgnoreErrors b).
Proof. intros events s. cbn. unfold mbind, ST_bind. by destruct (PE b events s). Qed.

Lemma lenient_Buffered id b c : lenient (Buffered id b c).
Proof. done. Qed.

Lemma lenient_Truncate b c : lenient b → lenient (Truncate b c).
Proof.
  intros Hb events s. cbn [ProcessEvents]. unfold mbind, ST_bind.
  pose proof (truncate_loop_true c (PE b) events Hb [] 0%Z [] s) as Ht. fold (truncate_ProcessEvents calcSize c (PE b) events) in Ht.
  destruct (truncate_ProcessEvents calcSize c (PE b) events s) as [[ok imp] s']. cbn in *. subst. by case_match.
Qed.

Lemma lenient_truncate_wrapBackend o b : lenient b → lenient (truncate_wrapBackend o b).
Proof. unfold truncate_wrapBackend. destruct (to_Enabled o); [apply lenient_Truncate|done]. Qed.

Lemma lenient_batch_wrapBackend id o d b :
  bo_Mode o ≠ ModeBlockingStrict → batch_wrapBackend id o d = Ret b → lenient b.
Proof.
  intros Hm. unfold batch_wrapBackend, buffered_NewBackend. rewrite bool_decide_false by done.
  case_bool_decide; [intros [= <-]; apply lenient_IgnoreErrors|]. case_match; [done|]. intros [= <-]. apply lenient_Buffered.
Qed.

Lemma lenient_Union2 b1 b2 : lenient b1 → lenient b2 → lenient (Union [b1; b2]).
Proof.
  intros H1 H2 events s. cbn. unfold mbind, ST_bind. specialize (H1 events s). destruct (PE b1 events s) as [o1 s1]. cbn in *.
  specialize (H2 (caller_view calcSize b1 <$> events) s1). destruct (PE b2 _ s1) as [o2 s2]. cbn in *. by subst.
Qed.

(** Auditing makes a request fail only in a mode that says so: the backend reports a
    failure only when a plugin that is enabled is in blocking-strict mode. *)
Theorem audit_fails_only_strict `{DNSValidation} ReadFile decode load c m b events s :
  initAudit ReadFile decode load c = Ret (inl m) → m_backend m = Some b → (PE b events s).1 = false →
  (log_enabled (cf_LogOptions c) = true ∧ bo_Mode (lo_BatchOptions (cf_LogOptions c)) = ModeBlockingStrict) ∨
  (webhook_enabled (cf_WebhookOptions c) = true ∧ bo_Mode (wo_BatchOptions (cf_WebhookOptions c)) = ModeBlockingStrict).
Proof.
  intros Hi Hb Hf. destruct (initAudit_backends _ _ _ _ _ Hi) as (lb & wb & Hm & Hl & Hw & _).
  destruct (decide (bo_Mode (lo_BatchOptions (cf_LogOptions c)) = ModeBlockingStrict ∧ is_Some lb)) as [[Hs [lb' ->]]|Hls].
  { left. split; [|done]. destruct Hl as (w & Hg & _). unfold getWriter in Hg. by destruct (log_enabled _). }
  destruct (decide (bo_Mode (wo_BatchOptions (cf_WebhookOptions c)) = ModeBlockingStrict ∧ is_Some wb)) as [[Hs [wb' ->]]|Hws].
  { right. by destruct Hw. }
  exfalso. assert (∀ b, lb = Some b → lenient b) as Hlb.
  { intros b' ->. destruct Hl as (w & _ & Hn). unfold log_newBackend in Hn.
    destruct (batch_wrapBackend _ _ _) eqn:Hw'; [|done]. injection Hn as <-. apply lenient_truncate_wrapBackend.
    eapply lenient_batch_wrapBackend; [|exact Hw']. intros ?. by apply Hls. }
  assert (∀ b, wb = Some b → lenient (truncate_wrapBackend (wo_TruncateOptions (cf_WebhookOptions c)) b)) as Hwb.
  { intros b' ->. destruct Hw as [_ Hn]. unfold newUntruncatedBackend in Hn. destruct (load _); [done|].
    destruct (batch_wrapBackend _ _ _) eqn:Hw'; [|done]. injection Hn as <-. apply lenient_truncate_wrapBackend.
    eapply lenient_batch_wrapBackend; [|exact Hw']. intros ?. by apply Hws. }
  assert (lenient b) as Hlen; [|by rewrite Hlen in Hf].
  rewrite Hm in Hb. destruct lb as [lb|], wb as [wb|]; cbn in Hb; [| | |done]; injection Hb as <-; eauto.
  apply lenient_Union2; eauto.
Qed.
End process_theorems.

(** *** Delivery to the webhook *)

(** With a context that is never done the retries end only as documented: when the
    condition says so, or when the steps are used up. *)
Class BackoffBackground `{Backoff} := {
  backoff_0 X (cond : X → bool * option error * X) x : ∃ e, ExponentialBackoffWithContext X 0 cond x = (Some e, x);
  backoff_S X n (cond : X → bool * option error * X) x :
    ExponentialBackoffWithContext X (S n) cond x =
    match cond x with
    | (_, Some e, x') => (Some e, x')
    | (true, None, x') => (None, x')
    | (false, None, x') => ExponentialBackoffWithContext X n cond x'
    end;
}.

Lemma backoff_model_background : @BackoffBackground backoff_model.
Proof. split; [by eexists|]. intros X n cond x. cbn. by destruct (cond x) as [[[] []] ?]. Qed.

Section delivery.
Context {W : Type} `{BackoffBackground}.
Context (post : string → list Event → W → option error * W).

(** At most [n] requests in a row, until one succeeds; the error of the last one. *)
Fixpoint try_post (n : nat) (file : string) (events : list Event) (last : option error) (w : W) : option error * W :=
  match n with
  | 0 => (last, w)
  | S n =>
      match post file events w with
      | (None, w') => (None, w')
      | (Some e, w') => try_post n file events (Some e) w'
      end
  end.

Lemma backoff_try_post n file events e0 r w :
  (ExponentialBackoffWithContext _ n
     (retry_condition (λ rw : option error * W, let '(r, w) := post file events rw.2 in (r, (r, w))) retryOnError)
     (e0, (r, w))).2.2 =
  try_post n file events r w.
Proof.
  revert e0 r w. induction n as [|n IH]; intros e0 r w.
  - by destruct (backoff_0 (option error * (option error * W))
      (retry_condition (λ rw : option error * W, let '(r, w) := post file events rw.2 in (r, (r, w))) retryOnError)
      (e0, (r, w))) as [e ->].
  - rewrite backoff_S. unfold retry_condition at 1. cbn. destruct (post file events w) as [[e|] w']; cbn; [apply IH|done].
Qed.

(** A batch of events is sent until the service accepts it, five times at most; when
    it never does, all of them are reported as lost, with the last error. *)
Theorem webhook_delivery file events (s : audit_state W) :
  webhook_ProcessEvents post file events s =
  match try_post 5 file events None (as_world s) with
  | (None, w) => (true, {| as_world := w; as_buffers := as_buffers s; as_errors := as_errors s |})
  | (Some e, w) => (false, {| as_world := w; as_buffers := as_buffers s;
                              as_errors := as_errors s ++ [(webhook_PluginName, e, events)] |})
  end.
Proof.
  unfold webhook_ProcessEvents, GenericWebhook_WithExponentialBackoff, WithExponentialBackoff.
  pose proof (backoff_try_post retry_steps file events None None (as_world s)) as Ht.
  destruct (ExponentialBackoffWithContext _ _ _ _) as [err [we [r w]]]. cbn [snd] in Ht.
  change 5 with retry_steps. rewrite <- Ht.
  destruct we; [by destruct r|]. by destruct err; destruct r.
Qed.
End delivery.

(** *** The log *)

Section log_theorems.
Context `{Backoff}.
Context (RFC3339Nano : Z → string) (Encode : Event → string + error).

(** A file: writing appends. *)
Definition append_line (_ : Writer) (line content : string) : option error * string := (None, content +:+ line).

Abbreviation log_PE := (log_ProcessEvents RFC3339Nano append_line Encode).

Lemma log_loop_legacy out events (s : audit_state string) :
  log_loop RFC3339Nano append_line Encode out FormatLegacy events true s =
  (true, {| as_world := as_world s +:+ foldr (λ ev rest, (EventString RFC3339Nano ev +:+ nl) +:+ rest) "" events;
            as_buffers := as_buffers s; as_errors := as_errors s |}).
Proof.
  revert s. induction events as [|ev events IH]; intros s; cbn [log_loop foldr].
  - rewrite sapp_nil_r. by destruct s.
  - unfold mbind, ST_bind.
    assert (logEvent RFC3339Nano append_line Encode out FormatLegacy ev s =
            (true, {| as_world := as_world s +:+ (EventString RFC3339Nano ev +:+ nl); as_buffers := as_buffers s;
                      as_errors := as_errors s |})) as -> by done.
    cbn [andb]. rewrite IH. cbn [as_world as_buffers as_errors]. by rewrite !sapp_assoc.
Qed.

Lemma Split_lines (lines : list string) :
  Forall (λ l, ContainsByte l "010"%char = false) lines →
  Split (foldr (λ l rest, (l +:+ nl) +:+ rest) "" lines) "010"%char = lines ++ [""].
Proof.
  induction 1 as [|l lines Hl _ IH]; [done|]. cbn [foldr app].
  assert (∀ r, (l +:+ nl) +:+ r = l +:+ String "010"%char r) as -> by (intros r; by rewrite <- sapp_assoc).
  by rewrite Split_app, IH.
Qed.

(** The legacy log holds one line per event, in order, whatever names, groups,
    identifiers or URIs the requests carried: reading the file by lines gives back
    the texts of the events. *)
Theorem legacy_log_lines out events (s : audit_state string) :
  (∀ t, ContainsByte (RFC3339Nano t) "010"%char = false) → as_world s = "" →
  ∃ s', log_PE out FormatLegacy events s = (true, s') ∧ as_errors s' = as_errors s ∧
    Split (as_world s') "010"%char = (EventString RFC3339Nano <$> events) ++ [""].
Proof.
  intros Ht Hw. eexists. split; [apply log_loop_legacy|]. split; [done|]. cbn. rewrite Hw. cbn.
  rewrite <- (Split_lines (EventString RFC3339Nano <$> events)).
  - f_equal. change ("" +:+ ?x) with x. by induction events as [|ev events IH]; cbn [foldr fmap list_fmap]; [|rewrite <- IH].
  - apply Forall_fmap, Forall_true. intros ev. by apply EventString_no_nl.
Qed.
End log_theorems.

(** ** Witnesses *)

Module AuditModuleExamples.
Import AuditPolicyExamples.

(** Both plugins, with the default modes: the log blocking, the webhook batching. *)
Definition both : config := {|
  cf_PolicyFile := "/etc/policy";
  cf_LogOptions := {|
    lo_Path := "-"; lo_MaxAge := 0; lo_MaxBackups := 0; lo_MaxSize := 0; lo_Format := FormatLegacy; lo_Compress := false;
    lo_BatchOptions := {| bo_Mode := ModeBlocking; bo_BatchConfig := defaultLogBatchConfig |};
    lo_TruncateOptions := NewAuditTruncateOptions |};
  cf_WebhookOptions := {|
    wo_ConfigFile := "/etc/webhook"; wo_InitialBackoff := DefaultInitialBackoffDelay;
    wo_BatchOptions := {| bo_Mode := ModeBatch; bo_BatchConfig := defaultWebhookBatchConfig |};
    wo_TruncateOptions := NewAuditTruncateOptions |};
|}.

Definition init (c : config) : outcome (module + error) :=
  @initAudit dns_any (λ _, inl "") (λ _, inl policy) (λ _, None) c.

Definition union_backend : backend :=
  Union [IgnoreErrors (LogBackend Stdout FormatLegacy);
         Buffered 1 (WebhookBackend "/etc/webhook" DefaultInitialBackoffDelay) defaultWebhookBatchConfig].

Lemma config_Validate_spec_witness : @config_Validate golib_errors_model both = None.
Proof.
  apply (proj2 (@config_Validate_spec _ golib_errors_model_laws both)).
  split; intros _; unfold batch_ok, truncate_ok; cbn; split_and!; try lia; set_solver.
Defined.

(** Started with both plugins and their default modes, the module can bring the
    process down when it stops. *)
Lemma audit_stop_witness :
  init both = Ret (inl {| m_checker := Some (NewChecker policy); m_backend := Some union_backend |}) ∧
  ∃ l, rtc life_step (module_stop union_backend) l ∧ l_crashed l = true.
Proof.
  assert (init both = Ret (inl {| m_checker := Some (NewChecker policy); m_backend := Some union_backend |})) as Hi
    by (vm_compute; reflexivity).
  split; [exact Hi|].
  destruct (@audit_stop dns_any (λ _, inl "") (λ _, inl policy) (λ _, None) both _ union_backend Hi eq_refl) as (_ & _ & Hc).
  apply Hc; reflexivity.
Defined.

(** A writer that is full. *)
Definition full (_ : Writer) (_ : string) (w : unit) : option error * unit := (Some (Errorf "no space left on device" []), w).
Definition refusing (_ : string) (_ : list Event) (w : unit) : option error * unit := (Some (Errorf "connection refused" []), w).

Definition strict : config := {|
  cf_PolicyFile := "/etc/policy";
  cf_LogOptions := {|
    lo_Path := "-"; lo_MaxAge := 0; lo_MaxBackups := 0; lo_MaxSize := 0; lo_Format := FormatLegacy; lo_Compress := false;
    lo_BatchOptions := {| bo_Mode := ModeBlockingStrict; bo_BatchConfig := defaultLogBatchConfig |};
    lo_TruncateOptions := NewAuditTruncateOptions |};
  cf_WebhookOptions := cf_WebhookOptions newConfig;
|}.

Definition start {W} (w : W) : audit_state W := {| as_world := w; as_buffers := ∅; as_errors := [] |}.

Lemma audit_fails_only_strict_witness :
  log_enabled (cf_LogOptions strict) = true ∧ bo_Mode (lo_BatchOptions (cf_LogOptions strict)) = ModeBlockingStrict.
Proof.
  destruct (@audit_fails_only_strict unit backoff_model (λ _, "") full refusing (λ _, inl "") (λ _, inl 0%Z)
    (λ _, Errorf "" []) dns_any (λ _, inl "") (λ _, inl policy) (λ _, None) strict
    {| m_checker := Some (NewChecker policy); m_backend := Some (LogBackend Stdout FormatLegacy) |}
    (LogBackend Stdout FormatLegacy) [event] (start ())) as [Hr|[Hw _]].
  - vm_compute. reflexivity.
  - reflexivity.
  - vm_compute. reflexivity.
  - exact Hr.
  - discriminate Hw.
Defined.

(** A service that refuses the first two requests. *)
Definition third (_ : string) (_ : list Event) (n : nat) : option error * nat :=
  (if n <? 2 then Some (Errorf "connection refused" []) else None, S n).

Lemma webhook_delivery_witness :
  @webhook_ProcessEvents nat backoff_model third "/etc/webhook" [event] (start 0) = (true, start 3).
Proof. rewrite (@webhook_delivery nat backoff_model backoff_model_background). reflexivity. Defined.

(** A request URI with a line break. *)
Definition forged : Event := AuditBackendsExamples.ev ("/a" +:+ nl +:+ "AUDIT: forged") ∅.

Lemma legacy_log_lines_witness :
  ∃ s', log_ProcessEvents (λ _, "now") append_line (λ _, inl "") Stdout FormatLegacy [forged; event] (start "") = (true, s') ∧
    length (Split (as_world s') "010"%char) = 3.
Proof.
  destruct (legacy_log_lines (λ _, "now") (λ _, inl "") Stdout [forged; event] (start "")) as (s' & Hr & _ & Hl);
    [reflexivity|reflexivity|]. exists s'. split; [exact Hr|]. rewrite Hl. reflexivity.
Defined.

(** The log's truncation marks the event that the webhook sends whole: both plugins
    strict, truncation enabled for the log only. *)
Definition truncating : backend := Union [Truncate (LogBackend Stdout FormatLegacy) AuditBackendsExamples.limits;
                                          WebhookBackend "/etc/webhook" DefaultInitialBackoffDelay].
Definition record (_ : string) (evs : list Event) (w : list Event) : option error * list Event := (None, w ++ evs).

Theorem log_truncation_marks_webhook :
  let e := AuditBackendsExamples.ev "/ab" {[ "k" := "v" ]} in
  ∃ s', @ProcessEvents _ backoff_model (λ _, "now") (λ _ _ w, (None, w)) record (λ _, inl "") AuditBackendsExamples.size
          (λ _, Errorf "" []) truncating [e] (start []) = (true, s') ∧
    (λ sent, (ev_RequestObject sent, ev_Annotations sent !! annotationKey)) <$> as_world s' =
      [(ev_RequestObject e, Some annotationValue)].
Proof. eexists. split; [reflexivity|]. vm_compute. reflexivity. Qed.
End AuditModuleExamples.
