(* ===== verification/ResponseWriters.v ===== *)
(** * Response writers

    Models pkg/responsewriters (writers.go, status.go, errors.go) and the default
    writer of pkg/rest/responsewriter.go: how errors and objects become HTTP
    responses, with content negotiation (Negotiation.v), deferred headers, gzip and
    the audit of response objects.  [respond] renders the refusals that the filters
    of Filters.v and OuterFilters.v leave as a parameter.

    golib's encoders, its constructors of API errors, json.Marshal, gzip and the
    websocket reader are parameters.  A writer's own failures (a broken connection)
    are not modelled; a gzip writer passes its output on when it is closed. *)

From S2P Require Import Prelude GoStrings GoEncoding Streams Authorizer RequestInfo Rbac Authn AuditPolicy Filters Negotiation RequestMetrics.

Local Open Scope go_scope.

(** ** fmt.Errorf(format) without arguments

    The scanner of fmt's doPrintf when no argument is left. *)

Section fmt.
Definition digit_byte (a : ascii) : bool := let n := nat_of_ascii a in (48 <=? n) && (n <=? 57).

Fixpoint skip_flags (s : string) : string :=
  match s with
  | String a rest =>
      if existsb (λ c, c == a) ["#"; "0"; "+"; "-"; " "]%char then skip_flags rest else s
  | "" => ""
  end.

(** parsenum; a number above a million makes the rest of the format be skipped. *)
Fixpoint parsenum (num : Z) (s : string) : string :=
  match s with
  | String a rest =>
      if digit_byte a
      then if (10 ^ 6 <? num)%Z then "" else parsenum (num * 10 + Z.of_nat (nat_of_ascii a - 48))%Z rest else s
  | "" => ""
  end.

Fixpoint after_bracket (s : string) : option string :=
  match s with
  | "" => None
  | String a rest => if a == "]"%char then Some rest else after_bracket rest
  end.

(** argNumber: every index is out of range.  The rest of the format, whether an index
    was found, and whether the argument number is still good. *)
Definition argNumber (good : bool) (s : string) : string * bool * bool :=
  match s with
  | String a rest =>
      if a == "["%char then
        match after_bracket rest with Some rest' => (rest', true, false) | None => (rest, false, false) end
      else (s, false, good)
  | "" => ("", false, good)
  end.

(** A verb is a rune; an invalid one is replaced. *)
Definition RuneError : string := String "239"%char (String "191"%char (String "189"%char "")).

Definition first_rune (s : string) : string * string :=
  match s with
  | "" => ("", "")
  | String a rest =>
      match utf8_lead (nat_of_ascii a) with
      | Some (n, _, _) =>
          if utf8_Valid (stake (1 + n) s) && (slen (stake (1 + n) s) =? 1 + n) then (stake (1 + n) s, sdrop (1 + n) s)
          else (RuneError, rest)
      | None => (RuneError, rest)
      end
  end.

(** What a "%" followed by [s] prints, and the rest of the format. *)
Definition directive (s : string) : string * string :=
  let s := skip_flags s in
  let '(s, afterIndex, good) := argNumber true s in
  let '(out, s, afterIndex, good) :=
    match s with
    | String "*" rest => ("%!(BADWIDTH)", rest, false, good)
    | _ => let s' := parsenum 0 s in ("", s', afterIndex, good && negb (afterIndex && negb (s' == s)))
    end in
  let '(out, s, afterIndex, good) :=
    match s with
    | String "." rest =>
        let good := good && negb afterIndex in
        let '(rest, afterIndex, good) := argNumber good rest in
        match rest with
        | String "*" rest => (out +:+ "%!(BADPREC)", rest, false, good)
        | _ => (out, parsenum 0 rest, afterIndex, good)
        end
    | _ => (out, s, afterIndex, good)
    end in
  let '(s, good) := (if afterIndex : bool then (s, good) else let '(s, _, good) := argNumber good s in (s, good)) in
  if s == "" then (out +:+ "%!(NOVERB)", "")
  else
    let '(verb, rest) := first_rune s in
    (out +:+ (if verb == "%" then "%"
              else if good then "%!" +:+ verb +:+ "(MISSING)" else "%!" +:+ verb +:+ "(BADINDEX)"), rest).

(** Every directive consumes at least the byte after its "%": the length of the
    format is enough fuel. *)
Fixpoint printf_loop (fuel : nat) (s : string) : string :=
  match fuel with
  | 0 => ""
  | S fuel =>
      match s with
      | "" => ""
      | String a rest =>
          if a == "%"%char then let '(out, rest) := directive rest in out +:+ printf_loop fuel rest
          else String a (printf_loop fuel rest)
      end
  end.

Definition Sprintf_no_args (format : string) : string := printf_loop (slen format) format.
End fmt.

Lemma printf_plain fuel s :
  slen s ≤ fuel → ContainsByte s "%"%char = false → printf_loop fuel s = s.
Proof.
  revert s. induction fuel as [|fuel IH]; intros [|a s] Hf Hc; cbn in *; [done|lia|done|].
  apply orb_false_iff in Hc as [Ha Hc]. rewrite Ha, IH; [done|lia|done].
Qed.

Example printf_percent : Sprintf_no_args "/a%2Fb 100%" = "/a%!F(MISSING)b 100%!(NOVERB)".
Proof. reflexivity. Qed.

(** ** Status of an error (status.go, negotiation/errors.go) *)

(** An api.Status; its Details are nil or hold the seconds after which to retry. *)
Record APIStatus := { as_status : Status; as_RetryAfterSeconds : option Z }.

(** golib's constants and constructors of API errors: the status each carries. *)
Class APIErrors := {
  StatusReasonUnknown : string;
  StatusReasonNotAcceptable : string;
  StatusReasonUnsupportedMediaType : string;
  NewUnauthorized : string → APIStatus;
  NewForbidden : string → string → APIStatus;
  NewBadRequest : string → APIStatus;
}.

Class APIErrorsLaws `{APIErrors, StatusConstants} := {
  StatusSuccess_Failure : StatusSuccess ≠ StatusFailure;
  StatusFailure_nonempty : StatusFailure ≠ "";
  NewUnauthorized_status msg :
    st_Status (as_status (NewUnauthorized msg)) = StatusFailure ∧ st_Code (as_status (NewUnauthorized msg)) = 401%Z;
  NewForbidden_status name msg :
    st_Status (as_status (NewForbidden name msg)) = StatusFailure ∧ st_Code (as_status (NewForbidden name msg)) = 403%Z;
  NewBadRequest_status msg :
    st_Status (as_status (NewBadRequest msg)) = StatusFailure ∧ st_Code (as_status (NewBadRequest msg)) = 400%Z;
}.

(** An error that carries a status, or another one. *)
Inductive apierror := StatusError (s : APIStatus) | OtherError (err : error).

Section status.
Context `{APIErrors, StatusConstants} (Error_string : error → string).

Definition default_code (s : Status) (code : Z) : Status :=
  {| st_Status := st_Status s; st_Message := st_Message s; st_Reason := st_Reason s;
     st_Code := if (st_Code s =? 0)%Z then code else st_Code s |}.

Definition ErrorToAPIStatus (err : apierror) : APIStatus :=
  match err with
  | StatusError t =>
      let status := as_status t in
      let status := {| st_Status := if slen (st_Status status) =? 0 then StatusFailure else st_Status status;
                       st_Message := st_Message status; st_Reason := st_Reason status; st_Code := st_Code status |} in
      {| as_status := default_code status (if st_Status status == StatusSuccess then 200 else 500)%Z;
         as_RetryAfterSeconds := as_RetryAfterSeconds t |}
  | OtherError err =>
      {| as_status := {| st_Status := StatusFailure; st_Message := Error_string err; st_Reason := StatusReasonUnknown;
                         st_Code := 500 |};
         as_RetryAfterSeconds := None |}
  end.

(** The errors of content negotiation carry a status. *)
Definition negotiation_Error (e : negotiationError) : string :=
  match e with
  | NotAcceptable accepted => "only the following media types are accepted: " +:+ Join accepted ", "
  | UnsupportedMediaType accepted =>
      "the body of the request was in an unknown format - accepted media types include: " +:+ Join accepted ", "
  end.

Definition negotiation_Status (e : negotiationError) : apierror :=
  StatusError {|
    as_status := {|
      st_Status := StatusFailure; st_Code := Status_Code e; st_Message := negotiation_Error e;
      st_Reason := match e with
                   | NotAcceptable _ => StatusReasonNotAcceptable
                   | UnsupportedMediaType _ => StatusReasonUnsupportedMediaType
                   end |};
    as_RetryAfterSeconds := None |}.
End status.

(** ** Writers (writers.go) *)

(** A ResourceStreamer's answer to an Accept header: the stream (read in chunks, or
    nil), whether to flush, and its type; or an error. *)
Definition ResourceStreamer : Type := string → (option (list string) * bool * string) + apierror.

Inductive object (Data : Type) :=
  | StatusObject (s : APIStatus)
  | DataObject (d : Data)
  | StreamObject_ (s : ResourceStreamer).
Arguments StatusObject {Data} _.
Arguments DataObject {Data} _.
Arguments StreamObject_ {Data} _.

(** The writer behind a deferredResponseWriter that has written. *)
Inductive target := PlainWriter | GzipWriter (chunks : list string).

Record deferredResponseWriter := {
  d_mediaType : string;
  d_statusCode : Z;
  d_contentEncoding : string;
  d_w : option target; (* hasWritten *)
}.

Definition defaultGzipThresholdBytes : Z := 128 * 1024.

(** The loop cuts the header at commas. *)
Definition negotiateContentEncoding (h : Header) : string :=
  let encoding := Header_Get h "Accept-Encoding" in
  if slen encoding =? 0 then ""
  else if existsb (λ token, TrimSpace token == "gzip") (Split encoding ","%char) then "gzip" else "".

Section writers.
Context {St : Type} `{APIErrors, StatusConstants} (Error_string : error → string).
(** Serializers and what they encode: the chunks an encoder writes, with its error if
    it stops early. *)
Context {Ser Data : Type} (Encode : Ser → object Data → list string * option apierror).
Context (Marshal : object Data → string + error) (gzip : list string → string).
(** Content negotiation, and the serializers that are offered. *)
Context (ParseAccept : string → list Accept) (visit : gmap string string → list (string * string))
        (ParseQuery : string → gmap string (list string)) (supported : list (SerializerInfo Ser)).
(** The parts of a request that Filters.v does not keep. *)
Context (RawQuery : rcontext → option string).
(** wsstream.IsWebSocketRequest and the copy of a stream to a websocket. *)
Context (IsWebSocketRequest : rcontext → Header → bool) (websocket_Copy : list string → Handler St).
(** Prometheus's check of label values. *)
Context `{StringSets sset} (validateLabelValues : list string → list string → option error).

Implicit Types (rw : ResponseWriter St) (cx : rcontext).

(** net/http's Error. *)
Definition plain_Error rw (text : string) (code : Z) : HM St unit :=
  _ ← rw (SetHeader "Content-Type" "text/plain; charset=utf-8");
  _ ← rw (SetHeader "X-Content-Type-Options" "nosniff");
  _ ← rw (WriteHeader code);
  rw (WriteBody (text +:+ String "010"%char "")).

Definition WriteRawJSON (statusCode : Z) (obj : object Data) rw : HM St unit :=
  match Marshal obj with
  | inr err => plain_Error rw (Error_string err) 500
  | inl output =>
      _ ← rw (SetHeader "Content-Type" "application/json");
      _ ← rw (WriteHeader statusCode);
      rw (WriteBody output)
  end.

Definition WriteObject (statusCode : Z) (obj : object Data) rw : HM St unit := WriteRawJSON statusCode obj rw.

Definition HttpRedirect rw (url : string) : HM St unit :=
  _ ← rw (AddHeader "location" url); rw (WriteHeader 302).

Definition deferred_Write rw (w : deferredResponseWriter) (p : string) : HM St deferredResponseWriter :=
  let set (t : target) := {| d_mediaType := d_mediaType w; d_statusCode := d_statusCode w;
                             d_contentEncoding := d_contentEncoding w; d_w := Some t |} in
  match d_w w with
  | Some PlainWriter => _ ← rw (WriteBody p); mret w
  | Some (GzipWriter chunks) => mret (set (GzipWriter (chunks ++ [p])))
  | None =>
      let zip := (d_contentEncoding w == "gzip") && (defaultGzipThresholdBytes <? Z.of_nat (slen p))%Z in
      _ ← (if zip then
             _ ← rw (SetHeader "Content-Encoding" "gzip"); rw (AddHeader "Vary" "Accept-Encoding")
           else mret tt);
      _ ← rw (SetHeader "Content-Type" (d_mediaType w));
      _ ← rw (WriteHeader (d_statusCode w));
      if zip then mret (set (GzipWriter [p])) else _ ← rw (WriteBody p); mret (set PlainWriter)
  end.

Definition deferred_Close rw (w : deferredResponseWriter) : HM St unit :=
  match d_w w with
  | Some (GzipWriter chunks) => rw (WriteBody (gzip chunks))
  | _ => mret tt
  end.

Fixpoint write_chunks rw (w : deferredResponseWriter) (chunks : list string) : HM St deferredResponseWriter :=
  match chunks with
  | [] => mret w
  | p :: rest => w ← deferred_Write rw w p; write_chunks rw w rest
  end.

(** After a failure: the text that is written instead, and the writer it goes to.
    runtime.Encode collects what the encoder writes. *)
Definition fallback (encoder : Ser) (statusCode : Z) (err : apierror) (w : deferredResponseWriter)
    : string * deferredResponseWriter :=
  let status := ErrorToAPIStatus Error_string err in
  let w := if (200 <=? statusCode)%Z && (statusCode <? 400)%Z
           then {| d_mediaType := d_mediaType w; d_statusCode := st_Code (as_status status);
                   d_contentEncoding := d_contentEncoding w; d_w := d_w w |}
           else w in
  match Encode encoder (StatusObject status) with
  | (chunks, None) => (Join chunks "", w)
  | (_, Some _) =>
      (st_Reason (as_status status) +:+ ": " +:+ st_Message (as_status status),
       {| d_mediaType := "text/plain"; d_statusCode := d_statusCode w;
          d_contentEncoding := d_contentEncoding w; d_w := d_w w |})
  end.

Definition SerializeObject (mediaType : string) (encoder : Ser) rw (contentEncoding : string) (statusCode : Z)
    (obj : object Data) : HM St unit :=
  let w := {| d_mediaType := mediaType; d_statusCode := statusCode; d_contentEncoding := contentEncoding; d_w := None |} in
  let '(chunks, err) := Encode encoder obj in
  w ← write_chunks rw w chunks;
  match err with
  | None => deferred_Close rw w
  | Some err =>
      let '(output, w) := fallback encoder statusCode err w in
      w ← deferred_Write rw w output;
      deferred_Close rw w
  end.

Definition negotiation_request cx (h : Header) : Negotiation.Request :=
  {| rq_Accept := Header_Get h "Accept"; rq_ContentType := Header_Get h "Content-Type"; rq_RawQuery := RawQuery cx;
     rq_UserAgent := Header_Get h "User-Agent" |}.

(** WriteObjectNegotiated for an object that is not a ResourceStreamer. *)
Definition WriteObjectNegotiated_object (statusCode : Z) (obj : object Data) : Handler St := λ rw cx,
  h ← lift_auth get_header;
  match NegotiateOutputMediaType ParseAccept visit ParseQuery (negotiation_request cx h) supported with
  | inr err =>
      if (statusCode <? 200)%Z || (400 <=? statusCode)%Z then WriteRawJSON statusCode obj rw
      else
        let status := ErrorToAPIStatus Error_string (negotiation_Status err) in
        WriteRawJSON (st_Code (as_status status)) (StatusObject status) rw
  | inl (_, serializer) =>
      _ ← update_event (λ ae,
            LogResponseObject ae match obj with StatusObject s => Some (as_status s) | _ => None end (Marshal obj));
      SerializeObject (si_MediaType serializer) (si_Serializer serializer) rw (negotiateContentEncoding h) statusCode obj
  end.

(** The code is returned. *)
Definition ErrorNegotiated (err : apierror) rw cx : HM St Z :=
  let status := ErrorToAPIStatus Error_string err in
  let code := st_Code (as_status status) in
  _ ← match as_RetryAfterSeconds status with
      | Some s => if (0 <? s)%Z then rw (SetHeader "Retry-After" (Itoa s)) else mret tt
      | None => mret tt
      end;
  if (code =? 204)%Z then _ ← rw (WriteHeader code); mret code
  else _ ← WriteObjectNegotiated_object code (StatusObject status) rw cx; mret code.

Fixpoint copy_chunks rw (flush : bool) (chunks : list string) : HM St unit :=
  match chunks with
  | [] => mret tt
  | p :: rest => _ ← rw (WriteBody p); _ ← (if flush then rw Flush else mret tt); copy_chunks rw flush rest
  end.

Definition StreamObject (statusCode : Z) (stream : ResourceStreamer) : Handler St := λ rw cx,
  h ← lift_auth get_header;
  match stream (Header_Get h "Accept") with
  | inr err => _ ← ErrorNegotiated err rw cx; mret tt
  | inl (None, _, _) => rw (WriteHeader 204)
  | inl (Some out, flush, contentType) =>
      if IsWebSocketRequest cx h then websocket_Copy out rw cx
      else
        _ ← rw (SetHeader "Content-Type" (if slen contentType =? 0 then "application/octet-stream" else contentType));
        _ ← rw (WriteHeader statusCode);
        _ ← rw Flush;
        copy_chunks rw flush out
  end.

Definition metrics_request (cx : rcontext) : mrequest :=
  {| mq_Method := req_Method (rc_http cx); mq_Path := req_Path (rc_http cx); mq_RawQuery := default "" (RawQuery cx);
     mq_Query := req_Query (rc_http cx); mq_User := rc_user cx |}.

(** A stream is counted in the gauge of long-running requests while it is written. *)
Definition WriteObjectNegotiated (statusCode : Z) (obj : object Data) : Handler St := λ rw cx,
  match obj with
  | StreamObject_ s =>
      _ ← lift_outcome (longRunning_gauge (sset := sset) validateLabelValues (metrics_request cx) (rc_info cx) "apiserver");
      StreamObject statusCode s rw cx
  | _ => WriteObjectNegotiated_object statusCode obj rw cx
  end.

(** The default RespWrite of package rest: what a handler returned. *)
Inductive resp_data := NoData | Bytes (bs : string) | Object (obj : object Data).

Definition RespWrite (data : resp_data) (err : option apierror) : Handler St := λ rw cx,
  match err with
  | Some err => _ ← ErrorNegotiated err rw cx; mret tt
  | None =>
      match data with
      | NoData => mret tt
      | Bytes bs => rw (WriteBody bs)
      | Object obj => WriteObjectNegotiated 200 obj rw cx
      end
  end.

(** ** Refusals (errors.go) *)

Fixpoint sanitize (s : string) : string :=
  match s with
  | "" => ""
  | String a rest =>
      (if a == "&"%char then "&amp;" else if a == "<"%char then "&lt;" else if a == ">"%char then "&gt;"
       else String a "") +:+ sanitize rest
  end.

Definition forbiddenMessage (attributes : AttributesRecord) : string :=
  let username := match a_User attributes with Some u => u_Name u | None => "" end in
  if negb (a_ResourceRequest attributes)
  then "User " +:+ Quote username +:+ " cannot " +:+ a_Verb attributes +:+ " path " +:+ Quote (a_Path attributes)
  else
    let resource := a_Resource attributes +:+
      (if 0 <? slen (a_Subresource attributes) then "/" +:+ a_Subresource attributes else "") in
    let head := "User " +:+ Quote username +:+ " cannot " +:+ a_Verb attributes +:+ " resource " +:+ Quote resource in
    if 0 <? slen (a_Namespace attributes) then head +:+ " in the namespace " +:+ Quote (a_Namespace attributes)
    else head +:+ " at the cluster scope".

(** The text is handed to fmt.Errorf as a format. *)
Definition forbidden_text (attributes : AttributesRecord) (reason : string) : string :=
  let msg := sanitize (forbiddenMessage attributes) in
  Sprintf_no_args (if slen reason =? 0 then msg else msg +:+ ": " +:+ reason).

Definition write_Forbidden (attributes : AttributesRecord) (reason : string) : Handler St := λ rw cx,
  _ ← rw (SetHeader "X-Content-Type-Options" "nosniff");
  _ ← ErrorNegotiated (StatusError (NewForbidden (a_Name attributes) (forbidden_text attributes reason))) rw cx;
  mret tt.

Definition write_InternalError (err : error) : Handler St := λ rw cx,
  plain_Error rw (sanitize ("Internal Server Error: " +:+ Quote (env_RequestURI (rc_env cx)) +:+ ": " +:+ Error_string err)) 500.

(** The refusals of the filters; a bad request is rendered by failedErrorHandler. *)
Definition respond (r : refusal) : Handler St := λ rw cx,
  match r with
  | Unauthorized => _ ← ErrorNegotiated (StatusError (NewUnauthorized "Unauthorized")) rw cx; mret tt
  | InternalError err => write_InternalError err rw cx
  | BadRequest err => _ ← ErrorNegotiated (StatusError (NewBadRequest (Error_string err))) rw cx; mret tt
  | Forbidden attributes reason => write_Forbidden attributes reason rw cx
  end.
End writers.

(** ** Theorems *)

(** *** Recording a response *)

(** A writer that keeps what is done to it. *)
Definition tape : ResponseWriter (list wop) := λ op,
  set_fstate (λ s, FState (fs_audit s) (fs_once s) (fs_state s ++ [op])).

(** The world after [ops] were recorded and the audit event was changed by [f]. *)
Definition after (ops : list wop) (f : option Event → option Event) (w : world (fstate (list wop)))
    : world (fstate (list wop)) :=
  World (w_heap w) (w_header w)
    (FState {| ac_event := f (ac_event (fs_audit (w_state w))); ac_pending := ac_pending (fs_audit (w_state w)) |}
            (fs_once (w_state w)) (fs_state (w_state w) ++ ops)).

Definition emits {A} (m : HM (list wop) A) (w : world (fstate (list wop))) (a : A) (ops : list wop)
    (f : option Event → option Event) : Prop := m w = (Ret a, after ops f w).

Definition is_header (op : wop) : Prop := match op with SetHeader _ _ | AddHeader _ _ | DelHeader _ => True | _ => False end.
Definition is_body (op : wop) : Prop := match op with WriteBody _ | Flush => True | _ => False end.

(** A complete response: headers, one status, then the body. *)
Definition response_of (code : Z) (ops : list wop) : Prop :=
  ∃ hs bs, ops = hs ++ WriteHeader code :: bs ∧ Forall is_header hs ∧ Forall is_body bs.

Lemma after_after ops ops' f f' w : after ops' f' (after ops f w) = after (ops ++ ops') (f' ∘ f) w.
Proof. unfold after. cbn. by rewrite (assoc_L (++)). Qed.

Lemma after_nil w : after [] id w = w.
Proof. unfold after, id. rewrite app_nil_r. by destruct w as [? ? [[] ? ?]]. Qed.

Lemma emits_ret {A} (a : A) w : emits (mret a) w a [] id.
Proof. unfold emits. by rewrite after_nil. Qed.

Lemma emits_record op w : emits (tape op) w tt [op] id.
Proof. unfold emits, tape, set_fstate, after, id. by destruct w as [? ? [[] ? ?]]. Qed.

Lemma emits_update f w : emits (update_event f) w tt [] f.
Proof. unfold emits, update_event, set_fstate, after. cbn. by rewrite app_nil_r. Qed.

Lemma emits_bind {A B} (m : HM (list wop) A) (k : A → HM (list wop) B) w a ops f b ops' f' :
  emits m w a ops f → emits (k a) (after ops f w) b ops' f' → emits (m ≫= k) w b (ops ++ ops') (f' ∘ f).
Proof. unfold emits, mbind, HM_bind. intros -> ->. by rewrite after_after. Qed.

Lemma emits_bind_id {A B} (m : HM (list wop) A) (k : A → HM (list wop) B) w a ops b ops' f' :
  emits m w a ops id → emits (k a) (after ops id w) b ops' f' → emits (m ≫= k) w b (ops ++ ops') f'.
Proof. intros Hm Hk. exact (emits_bind _ _ _ _ _ _ _ _ _ Hm Hk). Qed.

(** One recorded operation, then the rest. *)
Lemma emits_record_bind {B} op (k : unit → HM (list wop) B) w b ops f :
  (∀ w, emits (k tt) w b ops f) → emits (tape op ≫= k) w b (op :: ops) f.
Proof. intros Hk. pose proof (emits_bind _ _ w _ _ _ _ _ _ (emits_record op w) (Hk _)) as He. exact He. Qed.

Lemma emits_header {B} (k : Header → HM (list wop) B) w b ops f :
  emits (k (w_header w)) w b ops f → emits (lift_auth get_header ≫= k) w b ops f.
Proof. done. Qed.

Create HintDb emits.
#[export] Hint Resolve emits_ret emits_record emits_record_bind : emits.

Section writer_theorems.
Context `{APIErrors, StatusConstants} (Error_string : error → string).
Context {Ser Data : Type} (Encode : Ser → object Data → list string * option apierror).
Context (Marshal : object Data → string + error) (gzip : list string → string).
Context (ParseAccept : string → list Accept) (visit : gmap string string → list (string * string))
        (ParseQuery : string → gmap string (list string)) (supported : list (SerializerInfo Ser)).
Context (RawQuery : rcontext → option string).

(** *** The deferred writer *)

Definition has_written (d : deferredResponseWriter) : bool := bool_decide (is_Some (d_w d)).

Lemma deferred_Write_emits d p :
  ∃ d' ops, (∀ w, emits (deferred_Write tape d p) w d' ops id) ∧ d_w d' ≠ None ∧
    (d_mediaType d', d_statusCode d', d_contentEncoding d') = (d_mediaType d, d_statusCode d, d_contentEncoding d) ∧
    if has_written d then Forall is_body ops else response_of (d_statusCode d) ops.
Proof.
  unfold deferred_Write, has_written. destruct (d_w d) as [[|chunks]|] eqn:Hd; cbn.
  - eexists _, [_]. split; [intros w; apply emits_record_bind; intros; apply emits_ret|]. rewrite Hd. split_and!; try done; repeat constructor.
  - eexists _, []. split; [intros w; apply emits_ret|]. split_and!; try done; repeat constructor.
  - destruct (_ && _).
    + eexists _, [_; _; _; _]. split.
      { intros w. eapply (emits_bind_id _ _ w tt [_; _]); [apply emits_record_bind; intros; apply emits_record|].
        do 2 (apply emits_record_bind; intros ?). apply emits_ret. }
      split_and!; try done. exists [SetHeader "Content-Encoding" "gzip"; AddHeader "Vary" "Accept-Encoding"; SetHeader "Content-Type" (d_mediaType d)], [].
      split_and!; [done|repeat constructor..].
    + eexists _, [_; _; _]. split.
      { intros w. apply (emits_bind_id _ _ w tt []); [apply emits_ret|]. do 3 (apply emits_record_bind; intros ?). apply emits_ret. }
      split_and!; try done. exists [SetHeader "Content-Type" (d_mediaType d)], [WriteBody p]. split_and!; [done|repeat constructor..].
Qed.

Lemma has_written_true d : d_w d ≠ None → has_written d = true.
Proof. unfold has_written. rewrite bool_decide_eq_true. by destruct (d_w d); [eexists|]. Qed.

Lemma response_app code ops bs : response_of code ops → Forall is_body bs → response_of code (ops ++ bs).
Proof.
  intros (hs & bs' & -> & Hh & Hb) Hb'. exists hs, (bs' ++ bs). rewrite <- (assoc_L (++)). split_and!; [done..|].
  by apply Forall_app.
Qed.

(** What the writer has done so far: it has begun a response with this code, or
    nothing, and will begin one. *)
Definition so_far (code : Z) (d : deferredResponseWriter) (ops : list wop) : Prop :=
  if has_written d then response_of code ops else ops = [] ∧ d_statusCode d = code.

Lemma deferred_Write_so_far code d p ops0 :
  so_far code d ops0 →
  ∃ d' ops, (∀ w, emits (deferred_Write tape d p) w d' ops id) ∧ has_written d' = true ∧ so_far code d' (ops0 ++ ops).
Proof.
  intros Hs. destruct (deferred_Write_emits d p) as (d' & ops & He & Hn & _ & Ho).
  exists d', ops. split_and!; [done|by apply has_written_true|].
  unfold so_far in *. rewrite (has_written_true d') by done.
  destruct (has_written d); [by apply response_app|]. by destruct Hs as [-> <-].
Qed.

Lemma write_chunks_so_far code d chunks ops0 :
  so_far code d ops0 →
  ∃ d' ops, (∀ w, emits (write_chunks tape d chunks) w d' ops id) ∧
    has_written d' = has_written d || bool_decide (chunks ≠ []) ∧ so_far code d' (ops0 ++ ops).
Proof.
  revert d ops0. induction chunks as [|p chunks IH]; intros d ops0 Hs; cbn [write_chunks].
  - exists d, []. split_and!; [intros w; apply emits_ret|by rewrite orb_false_r|by rewrite app_nil_r].
  - destruct (deferred_Write_so_far code d p ops0 Hs) as (d1 & ops1 & He1 & Hw1 & Hs1).
    destruct (IH d1 _ Hs1) as (d2 & ops2 & He2 & Hw2 & Hs2). exists d2, (ops1 ++ ops2). split_and!.
    + intros w. eapply emits_bind_id; [apply He1|apply He2].
    + rewrite Hw2, Hw1. by rewrite orb_true_r.
    + by rewrite (assoc_L (++)).
Qed.

Lemma deferred_Close_emits d :
  ∃ ops, (∀ w, emits (deferred_Close gzip tape d) w tt ops id) ∧ Forall is_body ops.
Proof.
  unfold deferred_Close. destruct (d_w d) as [[|chunks]|].
  1,3: exists []; split; [intros w; apply emits_ret|constructor].
  exists [WriteBody (gzip chunks)]. split; [intros w; apply emits_record|repeat constructor].
Qed.

(** The code that goes out: the one asked for, unless encoding failed before a byte was
    written and the answer would have been a success. *)
Definition final_code (statusCode : Z) (r : list string * option apierror) : Z :=
  match r with
  | ([], Some err) =>
      if (200 <=? statusCode)%Z && (statusCode <? 400)%Z then st_Code (as_status (ErrorToAPIStatus Error_string err))
      else statusCode
  | _ => statusCode
  end.

(** The fallback keeps a response that has begun. *)
Lemma fallback_so_far encoder statusCode chunks err d ops :
  has_written d = bool_decide (chunks ≠ []) → so_far statusCode d ops →
  so_far (final_code statusCode (chunks, Some err)) (fallback Error_string Encode encoder statusCode err d).2 ops.
Proof.
  intros Hw Hs. unfold fallback, so_far, has_written, final_code in *. destruct chunks as [|p chunks]; cbn in Hw.
  - rewrite Hw in Hs. destruct Hs as [-> Hc].
    by destruct (_ && _), (Encode encoder _) as [? []]; cbn; rewrite Hw.
  - rewrite Hw in Hs. by destruct (_ && _), (Encode encoder _) as [? []]; cbn; rewrite Hw.
Qed.

(** An object becomes one complete response, whether or not its encoding fails. *)
Theorem SerializeObject_spec mediaType encoder contentEncoding statusCode obj :
  Encode encoder obj ≠ ([], None) →
  ∃ ops, response_of (final_code statusCode (Encode encoder obj)) ops ∧
    ∀ w, emits (SerializeObject Error_string Encode gzip mediaType encoder tape contentEncoding statusCode obj) w tt ops id.
Proof.
  intros Hsilent. unfold SerializeObject. destruct (Encode encoder obj) as [chunks err].
  set (d0 := {| d_mediaType := mediaType; d_statusCode := statusCode; d_contentEncoding := contentEncoding; d_w := None |}).
  destruct (write_chunks_so_far statusCode d0 chunks []) as (d1 & ops1 & He1 & Hw1 & Hs1); [done|]. cbn in Hw1, Hs1.
  destruct err as [err|].
  - pose proof (fallback_so_far encoder statusCode chunks err d1 ops1 Hw1 Hs1) as Hs2.
    destruct (fallback _ _ _ _ _ _) as [output d2] eqn:Hf. cbn [snd] in Hs2.
    destruct (deferred_Write_so_far _ d2 output _ Hs2) as (d3 & ops3 & He3 & Hw3 & Hs3).
    destruct (deferred_Close_emits d3) as (ops4 & He4 & Hb). exists ((ops1 ++ ops3) ++ ops4). split.
    + apply response_app; [|done]. unfold so_far in Hs3. by rewrite Hw3 in Hs3.
    + intros w. rewrite <- (assoc_L (++)). eapply emits_bind_id; [apply He1|]. cbn. rewrite Hf.
      eapply emits_bind_id; [apply He3|apply He4].
  - destruct (deferred_Close_emits d1) as (ops2 & He2 & Hb). exists (ops1 ++ ops2). split.
    + destruct chunks; [done|]. apply response_app; [|done]. unfold so_far in Hs1. by rewrite Hw1 in Hs1.
    + intros w. eapply emits_bind_id; [apply He1|apply He2].
Qed.

(** *** Errors *)

(** golib's encoders write something for a status, and a status can be marshalled. *)
Definition status_encodable : Prop :=
  (∀ info s, info ∈ supported → (Encode (si_Serializer info) (StatusObject s)).1 ≠ []) ∧
  (∀ info pretty s, info ∈ supported → si_PrettySerializer info = Some pretty → (Encode pretty (StatusObject s)).1 ≠ []) ∧
  ∀ s, ∃ out, Marshal (StatusObject s) = inl out.

Lemma WriteRawJSON_emits code obj out :
  Marshal obj = inl out →
  ∃ ops, response_of code ops ∧ ∀ w, emits (WriteRawJSON Error_string Marshal code obj tape) w tt ops id.
Proof.
  intros Hm. unfold WriteRawJSON. rewrite Hm. eexists [_; _; _]. split; cycle 1.
  - intros w. do 2 (apply emits_record_bind; intros ?). apply emits_record.
  - exists [SetHeader "Content-Type" "application/json"], [WriteBody out]. split_and!; [done|repeat constructor..].
Qed.

Lemma plain_Error_emits text code :
  ∃ ops, response_of code ops ∧ ∀ w, emits (plain_Error tape text code) w tt ops id.
Proof.
  eexists [_; _; _; _]. split; cycle 1.
  - intros w. unfold plain_Error. do 3 (apply emits_record_bind; intros ?). apply emits_record.
  - by eexists [_; _], [_]; split_and!; [done|repeat constructor..].
Qed.

Lemma response_cons code op ops : is_header op → response_of code ops → response_of code (op :: ops).
Proof. intros Ho (hs & bs & -> & Hh & Hb). exists (op :: hs), bs. split_and!; [done|by constructor|done]. Qed.

Abbreviation write_object := (WriteObjectNegotiated_object (St := list wop) Error_string Encode Marshal gzip ParseAccept visit ParseQuery supported RawQuery).
Abbreviation error_negotiated := (ErrorNegotiated (St := list wop) Error_string Encode Marshal gzip ParseAccept visit ParseQuery supported RawQuery).

Lemma write_status_emits code s cx w :
  (∀ m, visit m ≡ₚ map_to_list m) → status_encodable → (400 ≤ code)%Z →
  ∃ ops f, response_of code ops ∧ emits (write_object code (StatusObject s) tape cx) w tt ops f.
Proof.
  intros Hvisit (Henc & Hpretty & Hmar) Hcode. unfold WriteObjectNegotiated_object. set (h := w_header w).
  pose proof (NegotiateOutput_supported ParseAccept visit ParseQuery (negotiation_request RawQuery cx h) supported Hvisit) as [Hn _].
  destruct (NegotiateOutputMediaType _ _ _ _ _) as [[o info]|err] eqn:Hneg.
  - assert ((Encode (si_Serializer info) (StatusObject s)).1 ≠ []) as Hne.
    { destruct Hn as (a & Ha & _ & [->|(pretty & Hp & -> & _)]); [by apply Henc|]. cbn. by eapply Hpretty. }
    destruct (SerializeObject_spec (si_MediaType info) (si_Serializer info) (negotiateContentEncoding h) code (StatusObject s))
      as (ops & Hr & He). { by destruct (Encode _ _) as [[] ?]. }
    assert (final_code code (Encode (si_Serializer info) (StatusObject s)) = code) as Hf.
    { destruct (Encode _ _) as [[] ?]; done. }
    rewrite Hf in Hr. eexists ops, _. split; [done|]. apply emits_header. fold h. rewrite Hneg.
    eapply (emits_bind _ _ w tt []); [apply emits_update|]. apply He.
  - destruct (Hmar s) as [out Hout]. destruct (WriteRawJSON_emits code _ _ Hout) as (ops & Hr & He).
    eexists ops, id. split; [done|]. apply emits_header. fold h. rewrite Hneg.
    assert ((code <? 200)%Z || (400 <=? code)%Z = true) as -> by (apply orb_true_iff; right; by apply Z.leb_le). apply He.
Qed.

(** An error becomes one complete response with the code of its status, which is also
    returned; only the audit event changes besides. *)
Theorem ErrorNegotiated_spec err cx w :
  (∀ m, visit m ≡ₚ map_to_list m) → status_encodable →
  (400 ≤ st_Code (as_status (ErrorToAPIStatus Error_string err)))%Z →
  ∃ ops f, response_of (st_Code (as_status (ErrorToAPIStatus Error_string err))) ops ∧
    emits (error_negotiated err tape cx) w (st_Code (as_status (ErrorToAPIStatus Error_string err))) ops f.
Proof.
  intros Hvisit Henc Hcode. unfold ErrorNegotiated. set (status := ErrorToAPIStatus Error_string err) in *.
  assert (∃ ops0, Forall is_header ops0 ∧
    emits (match as_RetryAfterSeconds status with
           | Some s => if (0 <? s)%Z then tape (SetHeader "Retry-After" (Itoa s)) else mret tt
           | None => mret tt end) w tt ops0 id) as (ops0 & Hh & He0).
  { destruct (as_RetryAfterSeconds status) as [n|]; [destruct (0 <? n)%Z|];
      [exists [SetHeader "Retry-After" (Itoa n)]; split; [repeat constructor|apply emits_record]
      |exists []; split; [constructor|apply emits_ret]..]. }
  destruct (write_status_emits (st_Code (as_status status)) status cx (after ops0 id w) Hvisit Henc Hcode) as (ops & f & Hr & He).
  exists (ops0 ++ ops), f. split.
  - clear -Hh Hr. induction Hh; [done|]. by apply response_cons.
  - eapply emits_bind_id; [apply He0|]. assert ((st_Code (as_status status) =? 204)%Z = false) as -> by (apply Z.eqb_neq; lia).
    pose proof (emits_bind _ (λ _, mret (st_Code (as_status status))) _ _ _ _ _ _ _ He (emits_ret _ _)) as Hb.
    rewrite app_nil_r in Hb. exact Hb.
Qed.

(** *** Refusals *)

Abbreviation render := (respond (St := list wop) Error_string Encode Marshal gzip ParseAccept visit ParseQuery supported RawQuery).

Definition refusal_code (r : refusal) : Z :=
  match r with
  | Unauthorized => 401
  | InternalError _ => 500
  | BadRequest _ => 400
  | Forbidden _ _ => 403
  end.

Lemma failure_code (s : APIStatus) :
  st_Code (as_status s) ≠ 0%Z →
  st_Code (as_status (ErrorToAPIStatus Error_string (StatusError s))) = st_Code (as_status s).
Proof. intros Hc. cbn. by apply Z.eqb_neq in Hc as ->. Qed.

Lemma error_response (s : APIStatus) code cx w :
  (∀ m, visit m ≡ₚ map_to_list m) → status_encodable → (400 ≤ code)%Z →
  st_Status (as_status s) = StatusFailure ∧ st_Code (as_status s) = code →
  ∃ ops f, response_of code ops ∧ emits (_ ← error_negotiated (StatusError s) tape cx; mret tt) w tt ops f.
Proof.
  intros Hvisit Henc Hcode [Hs Hc].
  assert (st_Code (as_status (ErrorToAPIStatus Error_string (StatusError s))) = code) as Hcode'.
  { rewrite failure_code; [done|lia]. }
  destruct (ErrorNegotiated_spec (StatusError s) cx w Hvisit Henc) as (ops & f & Hr & He). { by rewrite Hcode'. }
  rewrite Hcode' in Hr. exists ops, f. split; [done|].
  pose proof (emits_bind _ (λ _, mret tt) _ _ _ _ _ _ _ He (emits_ret _ _)) as Hb. rewrite app_nil_r in Hb. exact Hb.
Qed.

(** Every refusal of a filter becomes one complete response with its code, whatever
    the client accepts, and whatever names and reasons it carries. *)
Lemma respond_emits `{!APIErrorsLaws} r cx w :
  (∀ m, visit m ≡ₚ map_to_list m) → status_encodable →
  ∃ ops f, response_of (refusal_code r) ops ∧ emits (render r tape cx) w tt ops f.
Proof.
  intros Hvisit Henc. destruct r as [|err|err|attributes reason]; cbn [refusal_code].
  - apply error_response; [done..|lia|apply NewUnauthorized_status].
  - destruct (plain_Error_emits (sanitize ("Internal Server Error: " +:+ Quote (env_RequestURI (rc_env cx)) +:+ ": " +:+ Error_string err)) 500)
      as (ops & Hr & He). exists ops, id. split; [done|apply He].
  - apply error_response; [done..|lia|apply NewBadRequest_status].
  - destruct (error_response (NewForbidden (a_Name attributes) (forbidden_text attributes reason)) 403 cx
      (after [SetHeader "X-Content-Type-Options" "nosniff"] id w) Hvisit Henc) as (ops & f & Hr & He);
      [lia|apply NewForbidden_status|].
    exists (SetHeader "X-Content-Type-Options" "nosniff" :: ops), f. split; [by apply response_cons|].
    eapply (emits_bind_id _ _ w tt [_]); [apply emits_record|exact He].
Qed.

(** C23: a request that the authorizer does not allow is answered, once and completely: with
    500 when the authorizer failed and with 403 otherwise; the handler behind does not
    run, and the audit annotations say why. *)
Theorem unauthorized_request_answered `{!APIErrorsLaws} handler decide_ cx w attributes :
  (∀ m, visit m ≡ₚ map_to_list m) → status_encodable →
  GetAuthorizerAttributes cx = inl attributes → v_decision (decide_ attributes) ≠ DecisionAllow →
  ∃ ops w', WithAuthorization render handler (Some (pure_authorizer decide_)) tape cx w = (Ret tt, w') ∧
    fs_state (w_state w') = fs_state (w_state w) ++ ops ∧
    response_of (match v_err (decide_ attributes) with Some _ => 500 | None => 403 end) ops.
Proof.
  intros Hvisit Henc Ha Hd. pose proof (λ r w, respond_emits r cx w Hvisit Henc) as Hrender.
  set (rd := render) in *. clearbody rd. unfold WithAuthorization. rewrite Ha.
  unfold mbind, HM_bind, lift_ST, pure_authorizer. cbn. rewrite bool_decide_false by done.
  destruct (v_err (decide_ attributes)) as [err|]; cbn;
    match goal with |- context [rd ?r tape cx ?w1] => destruct (Hrender r w1) as (ops & f & Hr & He) end;
    unfold emits in He; rewrite He; by eexists ops, _.
Qed.

(** *** Texts *)

Lemma ContainsByte_sanitize s a :
  a = "<"%char ∨ a = ">"%char → ContainsByte (sanitize s) a = false.
Proof.
  intros Ha. induction s as [|b s IH]; [done|]. cbn [sanitize]. rewrite ContainsByte_app, IH, orb_false_r.
  repeat case_bool_decide; destruct Ha as [->| ->]; try done; cbn; rewrite bool_decide_false; done.
Qed.

(** The message of a 403 has no angle bracket from the request in it, but is read as a
    format: it is the message only when nothing in it contains a percent sign. *)
Theorem forbidden_text_spec attributes :
  ContainsByte (sanitize (forbiddenMessage attributes)) "<"%char = false ∧
  ContainsByte (sanitize (forbiddenMessage attributes)) ">"%char = false ∧
  (ContainsByte (sanitize (forbiddenMessage attributes)) "%"%char = false →
   forbidden_text attributes "" = sanitize (forbiddenMessage attributes)).
Proof.
  split_and!; [apply ContainsByte_sanitize; by left|apply ContainsByte_sanitize; by right|].
  intros Hp. unfold forbidden_text, Sprintf_no_args. cbn [slen]. by apply printf_plain.
Qed.
(** An object that wants to be streamed is never written: the gauge is given seven values
    for three labels, and the handler panics with nothing sent. *)
Lemma streams_panic `{!StringSets sset} (validateLabelValues : list string → list string → option error)
    (IsWebSocketRequest : rcontext → Header → bool) (websocket_Copy : list string → Handler (list wop)) (rw : ResponseWriter (list wop)) :
  (∀ labels lvs, validateLabelValues labels lvs = None ↔ length lvs = length labels ∧ Forall (λ x, utf8_Valid x = true) lvs) →
  ∀ code (s : ResourceStreamer) cx w, ∃ msg,
    WriteObjectNegotiated (sset := sset) Error_string Encode Marshal gzip ParseAccept visit ParseQuery supported RawQuery
      IsWebSocketRequest websocket_Copy validateLabelValues code (StreamObject_ s) rw cx w = (Panic msg, w).
Proof.
  intros Hspec code s cx w; unfold WriteObjectNegotiated, longRunning_gauge.
  rewrite (with_label_values_unfit _ Hspec); [by eexists|]. rewrite longRunning_seven_values; by intros [[=] _].
Qed.
End writer_theorems.

(** ** Witnesses *)

Module ResponseWritersExamples.

Definition failure (reason msg : string) (code : Z) : APIStatus :=
  {| as_status := {| st_Status := "Failure"; st_Message := msg; st_Reason := reason; st_Code := code |};
     as_RetryAfterSeconds := None |}.

#[local] Instance api_errors : APIErrors := {|
  StatusReasonUnknown := ""; StatusReasonNotAcceptable := "NotAcceptable";
  StatusReasonUnsupportedMediaType := "UnsupportedMediaType";
  NewUnauthorized msg := failure "Unauthorized" msg 401;
  NewForbidden name msg := failure "Forbidden" msg 403;
  NewBadRequest msg := failure "BadRequest" msg 400;
|}.

#[local] Instance statuses : StatusConstants := {|
  StatusSuccess := "Success"; StatusFailure := "Failure"; StatusReasonInternalError := "InternalError";
|}.

#[local] Instance api_errors_laws : APIErrorsLaws.
Proof. by split. Qed.

(** One serializer, which writes a status as its message. *)
Definition encode (_ : unit) (obj : object unit) : list string * option apierror :=
  match obj with
  | StatusObject s => ([st_Message (as_status s)], None)
  | _ => ([], Some (OtherError (Errorf "cannot encode" [])))
  end.

Definition text : SerializerInfo unit :=
  {| si_MediaType := "text/plain"; si_MediaTypeType := "text"; si_MediaTypeSubType := "plain"; si_Serializer := tt;
     si_PrettySerializer := None; si_StreamSerializer := None |}.

Definition marshal (_ : object unit) : string + error := inl "{}".

Lemma text_encodable : status_encodable encode marshal [text].
Proof.
  split_and!; [done|by intros info pretty s ->%list_elem_of_singleton|intros s; by eexists].
Qed.

Definition nobody_allowed : AttributesRecord → verdict := λ _, Verdict DecisionNoOpinion "no rule" None.

Definition start_recording : world (fstate (list wop)) :=
  World [] ∅ (FState {| ac_event := None; ac_pending := None |} false []).

Lemma unauthorized_request_answered_witness :
  ∃ ops w',
    WithAuthorization
      (respond (λ _, "") encode marshal (λ l, Join l "") (λ _, []) map_to_list (λ _, ∅) [text] (λ _, None))
      (λ _ _, lift_outcome (Panic "reached")) (Some (pure_authorizer nobody_allowed)) tape FiltersExamples.cx start_recording = (Ret tt, w') ∧
    fs_state (w_state w') = ops ∧ response_of 403 ops.
Proof.
  destruct (unauthorized_request_answered (λ _, "") encode marshal (λ l, Join l "") (λ _, []) map_to_list (λ _, ∅) [text]
    (λ _, None) (λ _ _, lift_outcome (Panic "reached")) nobody_allowed FiltersExamples.cx start_recording _
    ltac:(reflexivity) text_encodable eq_refl ltac:(discriminate)) as (ops & w' & Hr & Hs & Ho).
  exists ops, w'. split; [exact Hr|]. split; [exact Hs|exact Ho].
Defined.

Lemma SerializeObject_spec_witness :
  ∃ ops, response_of 500 ops ∧
    ∀ w, emits (SerializeObject (λ _, "") encode (λ l, Join l "") "text/plain" tt tape "" 200 (DataObject tt)) w tt ops id.
Proof. apply (SerializeObject_spec (λ _, "") encode (λ l, Join l "") "text/plain" tt "" 200 (DataObject tt)). discriminate. Defined.

(** The path "/a%2Fb" in a refusal. *)
Theorem forbidden_text_percent :
  forbidden_text
    {| a_User := Some {| u_Name := "eve"; u_UID := ""; u_Groups := []; u_Extra := ∅ |}; a_Verb := "get"; a_Namespace := "";
       a_APIGroup := ""; a_APIVersion := ""; a_Resource := ""; a_Subresource := ""; a_Name := ""; a_ResourceRequest := false;
       a_Path := "/a%2Fb" |} "" =
  "User " +:+ Quote "eve" +:+ " cannot get path " +:+ Quote "/a%!F(MISSING)b".
Proof. vm_compute. reflexivity. Qed.

Lemma forbidden_text_spec_witness :
  forbidden_text AuditPolicyExamples.request "" = sanitize (forbiddenMessage AuditPolicyExamples.request).
Proof. destruct (forbidden_text_spec AuditPolicyExamples.request) as (_ & _ & H). apply H. reflexivity. Defined.
End ResponseWritersExamples.
