(* ===== verification/DynamicCerts.v ===== *)
(** * Certificates that follow their files

    Models pkg/dynamiccertificates: providers of certificates and CA bundles, static or
    read from files that may change (static_content.go, dynamic_cafile_content.go,
    dynamic_serving_content.go, dynamic_sni_content.go, union_content.go), the
    controller that turns their contents into a TLS configuration (tlsconfig.go,
    named_certificates.go, client_ca.go, cert_key.go), and how
    SecureServingInfo.tlsConfig wires them (pkg/server/secure_serving.go).

    The running system is a step relation: files change, providers poll their files,
    the timer and notifications enqueue the controller's key, and its worker syncs.
    crypto/tls, crypto/x509 and golib's PEM readers are parameters. *)

From stdpp Require Import pretty.

From S2P Require Import Prelude GoStrings ServiceAccount.

Local Open Scope go_scope.

(** ** Contents *)

Record certKeyContent := { ck_cert : string; ck_key : string }.
Record sniCertKeyContent := { sc_pair : certKeyContent; sc_names : list string }.

(** The zero certKeyContent has two empty slices. *)
Record dynamicCertificateContent := {
  dc_clientCA : string;
  dc_servingCert : certKeyContent;
  dc_sniCerts : list sniCertKeyContent;
}.

#[global] Instance certKeyContent_eq_dec : EqDecision certKeyContent.
Proof. solve_decision. Defined.
#[global] Instance sniCertKeyContent_eq_dec : EqDecision sniCertKeyContent.
Proof. solve_decision. Defined.

Definition certKeyContent_Equal (c rhs : certKeyContent) : bool := (ck_key c == ck_key rhs) && (ck_cert c == ck_cert rhs).

Fixpoint names_equal (l r : list string) : bool :=
  match l, r with
  | [], [] => true
  | x :: l, y :: r => (x == y) && names_equal l r
  | _, _ => false
  end.

Definition sniCertKeyContent_Equal (c rhs : sniCertKeyContent) : bool :=
  names_equal (sc_names c) (sc_names rhs) && certKeyContent_Equal (sc_pair c) (sc_pair rhs).

Fixpoint sniCerts_equal (l r : list sniCertKeyContent) : bool :=
  match l, r with
  | [], [] => true
  | x :: l, y :: r => sniCertKeyContent_Equal x y && sniCerts_equal l r
  | _, _ => false
  end.

(** A nil right-hand side is [None]. *)
Definition dynamicCertificateContent_Equal (c : dynamicCertificateContent) (rhs : option dynamicCertificateContent) : bool :=
  match rhs with
  | None => false
  | Some rhs =>
      (dc_clientCA c == dc_clientCA rhs) && certKeyContent_Equal (dc_servingCert c) (dc_servingCert rhs) &&
      sniCerts_equal (dc_sniCerts c) (dc_sniCerts rhs)
  end.

(** ** Providers *)

(** What the atomic values hold: [None] before the first load. *)
Record DynamicCertKeyPairContent := {
  dp_name : string; dp_certFile : string; dp_keyFile : string; dp_certKeyPair : option certKeyContent;
}.

Inductive CertKeyContentProvider :=
  | StaticCertKey (name cert key : string)
  | DynamicCertKey (p : DynamicCertKeyPairContent).

Record SNICertKeyContentProvider := { sp_provider : CertKeyContentProvider; sp_sniNames : list string }.

Record DynamicFileCAContent (Pool : Type) := {
  fc_name : string; fc_filename : string; fc_caBundle : option (string * Pool);
}.
Arguments fc_name {Pool} _.
Arguments fc_filename {Pool} _.
Arguments fc_caBundle {Pool} _.

Inductive CAContentProvider (Pool : Type) :=
  | StaticCA (name bundle : string) (roots : Pool)
  | FileCA (c : DynamicFileCAContent Pool)
  | UnionCA (cs : list (CAContentProvider Pool)).
Arguments StaticCA {Pool} _ _ _.
Arguments FileCA {Pool} _.
Arguments UnionCA {Pool} _.

Section certificates.
(** tls.Certificate, what is read of its leaf, and pools of CA certificates. *)
Context {Cert Pool : Type}.
Record x509Certificate := { x_CommonName : string; x_DNSNames : list string }.

Context `{DNSValidation}.
Context (X509KeyPair : string → string → Cert + error) (ParseLeaf : Cert → x509Certificate + error)
        (ParseIP : string → bool) (NewPoolFromBytes : string → Pool + error) (ParseCertsPEM : string → Pool + error).
(** ioutil.ReadFile, at one moment. *)
Abbreviation files := (string → string + error).

(** *** Key pairs *)

(** The error, and whether the listeners were notified. *)
Definition loadCertKeyPair (fs : files) (c : DynamicCertKeyPairContent) : option error * bool * DynamicCertKeyPairContent :=
  match fs (dp_certFile c) with
  | inr err => (Some err, false, c)
  | inl cert =>
      match fs (dp_keyFile c) with
      | inr err => (Some err, false, c)
      | inl key =>
          if (slen cert =? 0) || (slen key =? 0)
          then (Some (Errorf "missing content for serving cert %q" [dp_name c]), false, c)
          else
            match X509KeyPair cert key with
            | inr err => (Some err, false, c)
            | inl _ =>
                let newCertKey := {| ck_cert := cert; ck_key := key |} in
                let changed :=
                  match dp_certKeyPair c with Some existing => negb (certKeyContent_Equal existing newCertKey) | None => true end in
                if changed
                then (None, true, {| dp_name := dp_name c; dp_certFile := dp_certFile c; dp_keyFile := dp_keyFile c;
                                     dp_certKeyPair := Some newCertKey |})
                else (None, false, c)
            end
      end
  end.

Definition NewDynamicServingContentFromFiles (fs : files) (purpose certFile keyFile : string)
    : DynamicCertKeyPairContent + error :=
  if (slen certFile =? 0) || (slen keyFile =? 0) then inr (Errorf "missing filename for serving cert" [])
  else
    let ret := {| dp_name := purpose +:+ "::" +:+ certFile +:+ "::" +:+ keyFile; dp_certFile := certFile;
                  dp_keyFile := keyFile; dp_certKeyPair := None |} in
    match loadCertKeyPair fs ret with
    | (Some err, _, _) => inr err
    | (None, _, ret) => inl ret
    end.

(** The second load reads the files again. *)
Definition NewDynamicSNIContentFromFiles (fs fs' : files) (purpose certFile keyFile : string) (sniNames : list string)
    : SNICertKeyContentProvider + error :=
  match NewDynamicServingContentFromFiles fs purpose certFile keyFile with
  | inr err => inr err
  | inl servingContent =>
      match loadCertKeyPair fs' servingContent with
      | (Some err, _, _) => inr err
      | (None, _, ret) => inl {| sp_provider := DynamicCertKey ret; sp_sniNames := sniNames |}
      end
  end.

Definition NewStaticCertKeyContent (name cert key : string) : CertKeyContentProvider + error :=
  match X509KeyPair cert key with
  | inr err => inr err
  | inl _ => inl (StaticCertKey name cert key)
  end.

Definition NewStaticSNICertKeyContent (name cert key : string) (sniNames : list string) : SNICertKeyContentProvider + error :=
  match X509KeyPair cert key with
  | inr err => inr err
  | inl _ => inl {| sp_provider := StaticCertKey name cert key; sp_sniNames := sniNames |}
  end.

Definition provider_Name (p : CertKeyContentProvider) : string :=
  match p with StaticCertKey name _ _ => name | DynamicCertKey c => dp_name c end.

(** Before the first load the type assertion on nil panics. *)
Definition CurrentCertKeyContent (p : CertKeyContentProvider) : outcome certKeyContent :=
  match p with
  | StaticCertKey _ cert key => Ret {| ck_cert := cert; ck_key := key |}
  | DynamicCertKey c =>
      match dp_certKeyPair c with Some ck => Ret ck | None => Panic "interface conversion: interface is nil" end
  end.

(** RunOnce of a provider, and one round of its worker. *)
Definition provider_load (fs : files) (p : CertKeyContentProvider) : bool * CertKeyContentProvider :=
  match p with
  | StaticCertKey _ _ _ => (false, p)
  | DynamicCertKey c => let '(_, notified, c) := loadCertKeyPair fs c in (notified, DynamicCertKey c)
  end.

(** *** CA bundles *)

Definition newCABundleAndVerifier (name caBundle : string) : (string * Pool) + error :=
  if slen caBundle =? 0 then inr (Errorf "missing content for CA bundle %q" [name])
  else
    match NewPoolFromBytes caBundle with
    | inr err => inr (ErrorWrap "error loading CA bundle for %q: %v" [name] err)
    | inl roots => inl (caBundle, roots)
    end.

Definition hasCAChanged (c : DynamicFileCAContent Pool) (caBundle : string) : bool :=
  match fc_caBundle c with None => true | Some existing => existing.1 != caBundle end.

Definition loadCABundle (fs : files) (c : DynamicFileCAContent Pool) : option error * bool * DynamicFileCAContent Pool :=
  match fs (fc_filename c) with
  | inr err => (Some err, false, c)
  | inl caBundle =>
      if slen caBundle =? 0 then (Some (Errorf "missing content for CA bundle %q" [fc_name c]), false, c)
      else if negb (hasCAChanged c caBundle) then (None, false, c)
      else
        match newCABundleAndVerifier (fc_name c) caBundle with
        | inr err => (Some err, false, c)
        | inl b => (None, true, {| fc_name := fc_name c; fc_filename := fc_filename c; fc_caBundle := Some b |})
        end
  end.

Definition NewDynamicCAContentFromFile (fs : files) (purpose filename : string) : DynamicFileCAContent Pool + error :=
  if slen filename =? 0 then inr (Errorf "missing filename for ca bundle" [])
  else
    let ret := {| fc_name := purpose +:+ "::" +:+ filename; fc_filename := filename; fc_caBundle := None |} in
    match loadCABundle fs ret with
    | (Some err, _, _) => inr err
    | (None, _, ret) => inl ret
    end.

Definition NewStaticCAContent (name caBundle : string) : CAContentProvider Pool + error :=
  match newCABundleAndVerifier name caBundle with
  | inr err => inr err
  | inl b => inl (StaticCA name b.1 b.2)
  end.

Fixpoint ca_Name (c : CAContentProvider Pool) : string :=
  match c with
  | StaticCA name _ _ => name
  | FileCA f => fc_name f
  | UnionCA cs => Join (ca_Name <$> cs) ","
  end.

(** The loop of the union: empty bundles are left out, the others trimmed. *)
Definition collect_bundles {A} (f : A → outcome string) : list A → outcome (list string) :=
  fix go cs :=
    match cs with
    | [] => Ret []
    | curr :: cs =>
        b ← f curr;
        rest ← go cs;
        Ret (if 0 <? slen b then TrimSpace b :: rest else rest)
    end.

Fixpoint CurrentCABundleContent (c : CAContentProvider Pool) : outcome string :=
  match c with
  | StaticCA _ bundle _ => Ret bundle
  | FileCA f =>
      match fc_caBundle f with Some b => Ret b.1 | None => Panic "interface conversion: interface is nil" end
  | UnionCA cs =>
      bundles ← collect_bundles CurrentCABundleContent cs;
      Ret (Join bundles (String "010"%char ""))
  end.

(** The pool of trusted roots, for authenticators. *)
Definition VerifyOptions (c : CAContentProvider Pool) : outcome (option Pool) :=
  match c with
  | StaticCA _ _ roots => Ret (Some roots)
  | FileCA f => Ret (snd <$> fc_caBundle f)
  | UnionCA _ =>
      b ← CurrentCABundleContent c;
      if slen b =? 0 then Ret None
      else match newCABundleAndVerifier (ca_Name c) b with
           | inr _ => Panic "error loading CA bundle"
           | inl v => Ret (Some v.2)
           end
  end.

(** RunOnce: every file of the provider is read; the errors of a union are collected
    and only logged. *)
Fixpoint ca_load (fs : files) (c : CAContentProvider Pool) : bool * CAContentProvider Pool :=
  match c with
  | StaticCA _ _ _ => (false, c)
  | FileCA f => let '(_, notified, f) := loadCABundle fs f in (notified, FileCA f)
  | UnionCA cs =>
      let l := ca_load fs <$> cs in (existsb fst l, UnionCA l.*2)
  end.

(** ** The controller *)

(** The parts of a tls.Config that are replaced. *)
Record tlsConfig := {
  tc_Certificates : list Cert;
  tc_NameToCertificate : option (gmap string Cert);
  tc_ClientCAs : option Pool;
}.

Record DynamicServingCertificateController := {
  cc_baseTLSConfig : tlsConfig;
  cc_clientCA : option (CAContentProvider Pool);
  cc_servingCert : option CertKeyContentProvider;
  cc_sniCerts : list SNICertKeyContentProvider;
  cc_currentlyServedContent : option dynamicCertificateContent;
  cc_currentServingTLSConfig : option tlsConfig;
}.

Definition empty_pair (ck : certKeyContent) : bool := (slen (ck_cert ck) =? 0) || (slen (ck_key ck) =? 0).

(** The contents of the SNI providers from position [i] on. *)
Fixpoint sni_contents (i : nat) (sniCerts : list SNICertKeyContentProvider) : outcome (list sniCertKeyContent + error) :=
  match sniCerts with
  | [] => Ret (inl [])
  | s :: rest =>
      ck ← CurrentCertKeyContent (sp_provider s);
      if empty_pair ck then Ret (inr (Errorf "not loading an empty SNI certificate from %d/%q" [pretty i; provider_Name (sp_provider s)]))
      else
        l ← sni_contents (S i) rest;
        Ret match l with inl l => inl ({| sc_pair := ck; sc_names := sp_sniNames s |} :: l) | inr err => inr err end
  end.

Definition newTLSContent (c : DynamicServingCertificateController) : outcome (dynamicCertificateContent + error) :=
  clientCA ← match cc_clientCA c with Some ca => CurrentCABundleContent ca | None => Ret "" end;
  servingCert ←
    match cc_servingCert c with
    | Some p =>
        ck ← CurrentCertKeyContent p;
        Ret (if empty_pair ck then inr (Errorf "not loading an empty serving certificate from %q" [provider_Name p]) else inl ck)
    | None => Ret (inl {| ck_cert := ""; ck_key := "" |})
    end;
  match servingCert with
  | inr err => Ret (inr err)
  | inl servingCert =>
      snis ← sni_contents 0 (cc_sniCerts c);
      Ret match snis with
          | inr err => inr err
          | inl snis => inl {| dc_clientCA := clientCA; dc_servingCert := servingCert; dc_sniCerts := snis |}
          end
  end.

(** *** named_certificates.go *)

Definition getCertificateNames (cert : x509Certificate) : list string :=
  let cn := x_CommonName cert in
  let cnIsIP := ParseIP cn in
  let cnIsValidDomain := (cn == "*") || (length (IsDNS1123Subdomain (TrimPrefix cn "*.")) =? 0) in
  (if negb cnIsIP && cnIsValidDomain then [cn] else []) ++ x_DNSNames cert.

Definition put_names (names : list string) (cert : Cert) (m : gmap string Cert) : gmap string Cert :=
  foldl (λ m name, <[name := cert]> m) m names.

(** The loop, from the last certificate to the first: the two maps.  The position and
    the provider's name are left out of the error. *)
Fixpoint named_loop (sniCerts : list sniCertKeyContent) (nameToCertificate byNameExplicit : gmap string Cert)
    : outcome (gmap string Cert * gmap string Cert + error) :=
  match sniCerts with
  | [] => Ret (inl (nameToCertificate, byNameExplicit))
  | s :: rest =>
      match X509KeyPair (ck_cert (sc_pair s)) (ck_key (sc_pair s)) with
      | inr err => Ret (inr (ErrorWrap "invalid SNI cert keypair [%d/%q]: %v" [] err))
      | inl cert =>
          (* the error of ParseCertificate is dropped: a nil certificate panics *)
          match ParseLeaf cert with
          | inr _ => Panic "nil pointer dereference"
          | inl x509Cert =>
              let byNameExplicit := put_names (sc_names s) cert byNameExplicit in
              let nameToCertificate :=
                if length (sc_names s) =? 0 then put_names (getCertificateNames x509Cert) cert nameToCertificate
                else nameToCertificate in
              named_loop rest nameToCertificate byNameExplicit
          end
      end
  end.

Definition BuildNamedCertificates (sniCerts : list sniCertKeyContent) : outcome (gmap string Cert + error) :=
  r ← named_loop (reverse sniCerts) ∅ ∅;
  Ret match r with
      | inr err => inr err
      | inl (nameToCertificate, byNameExplicit) => inl (byNameExplicit ∪ nameToCertificate)
      end.

(** *** tlsconfig.go *)

(** The order in which a map is ranged over. *)
Context (visit : gmap string Cert → list (string * Cert)).

(** The configuration for a content. *)
Definition build_config (base : tlsConfig) (newContent : dynamicCertificateContent) : outcome (tlsConfig + error) :=
  let cas :=
    if 0 <? slen (dc_clientCA newContent) then
      match ParseCertsPEM (dc_clientCA newContent) with
      | inr err => inr (ErrorWrap "unable to load client CA file %q: %v" [dc_clientCA newContent] err)
      | inl pool => inl (Some pool)
      end
    else inl (tc_ClientCAs base) in
  match cas with
  | inr err => Ret (inr err)
  | inl cas =>
      let certs :=
        if (0 <? slen (ck_cert (dc_servingCert newContent))) && (0 <? slen (ck_key (dc_servingCert newContent))) then
          match X509KeyPair (ck_cert (dc_servingCert newContent)) (ck_key (dc_servingCert newContent)) with
          | inr err => inr (ErrorWrap "invalid serving cert keypair: %v" [] err)
          | inl cert =>
              match ParseLeaf cert with
              | inr err => inr (ErrorWrap "invalid serving cert: %v" [] err)
              | inl _ => inl [cert]
              end
          end
        else inl (tc_Certificates base) in
      match certs with
      | inr err => Ret (inr err)
      | inl certs =>
          if 0 <? length (dc_sniCerts newContent) then
            r ← BuildNamedCertificates (dc_sniCerts newContent);
            Ret match r with
                | inr err => inr (ErrorWrap "unable to build named certificate map: %v" [] err)
                | inl m => inl {| tc_Certificates := certs ++ (visit m).*2; tc_NameToCertificate := Some m; tc_ClientCAs := cas |}
                end
          else Ret (inl {| tc_Certificates := certs; tc_NameToCertificate := tc_NameToCertificate base; tc_ClientCAs := cas |})
      end
  end.

Definition store (c : DynamicServingCertificateController) (content : dynamicCertificateContent) (config : tlsConfig)
    : DynamicServingCertificateController :=
  {| cc_baseTLSConfig := cc_baseTLSConfig c; cc_clientCA := cc_clientCA c; cc_servingCert := cc_servingCert c;
     cc_sniCerts := cc_sniCerts c; cc_currentlyServedContent := Some content; cc_currentServingTLSConfig := Some config |}.

(** syncCerts once it has the result of newTLSContent. *)
Definition sync_content (c : DynamicServingCertificateController) (r : dynamicCertificateContent + error)
    : outcome (option error * DynamicServingCertificateController) :=
  match r with
  | inr err => Ret (Some err, c)
  | inl newContent =>
      if dynamicCertificateContent_Equal newContent (cc_currentlyServedContent c) then Ret (None, c)
      else
        r ← build_config (cc_baseTLSConfig c) newContent;
        Ret match r with
            | inr err => (Some err, c)
            | inl config => (None, store c newContent config)
            end
  end.

Definition syncCerts (c : DynamicServingCertificateController) : outcome (option error * DynamicServingCertificateController) :=
  r ← newTLSContent c;
  sync_content c r.

(** [host] is the address the client connected to, without its port, if it can be
    split. *)
Definition GetConfigForClient (c : DynamicServingCertificateController) (serverName : string) (host : option string)
    : tlsConfig + error :=
  match cc_currentServingTLSConfig c with
  | None => inr (Errorf "dynamiccertificates: configuration not ready" [])
  | Some config =>
      if 0 <? slen serverName then inl config
      else
        match host ≫= λ host, default ∅ (tc_NameToCertificate config) !! host with
        | None => inl config
        | Some ipCert => inl {| tc_Certificates := [ipCert]; tc_NameToCertificate := None; tc_ClientCAs := tc_ClientCAs config |}
        end
  end.

(** *** The running system *)

(** One round of the worker of a file provider: a union runs one per member. *)
Inductive ca_poll (fs : files) : CAContentProvider Pool → bool → CAContentProvider Pool → Prop :=
  | poll_file f err notified f' : loadCABundle fs f = (err, notified, f') → ca_poll fs (FileCA f) notified (FileCA f')
  | poll_member cs i c notified c' :
      cs !! i = Some c → ca_poll fs c notified c' → ca_poll fs (UnionCA cs) notified (UnionCA (<[i := c']> cs)).

Definition with_ca (c : DynamicServingCertificateController) (ca : CAContentProvider Pool) : DynamicServingCertificateController :=
  {| cc_baseTLSConfig := cc_baseTLSConfig c; cc_clientCA := Some ca; cc_servingCert := cc_servingCert c;
     cc_sniCerts := cc_sniCerts c; cc_currentlyServedContent := cc_currentlyServedContent c;
     cc_currentServingTLSConfig := cc_currentServingTLSConfig c |}.
Definition with_cert (c : DynamicServingCertificateController) (p : CertKeyContentProvider) : DynamicServingCertificateController :=
  {| cc_baseTLSConfig := cc_baseTLSConfig c; cc_clientCA := cc_clientCA c; cc_servingCert := Some p;
     cc_sniCerts := cc_sniCerts c; cc_currentlyServedContent := cc_currentlyServedContent c;
     cc_currentServingTLSConfig := cc_currentServingTLSConfig c |}.
Definition with_snis (c : DynamicServingCertificateController) (l : list SNICertKeyContentProvider) : DynamicServingCertificateController :=
  {| cc_baseTLSConfig := cc_baseTLSConfig c; cc_clientCA := cc_clientCA c; cc_servingCert := cc_servingCert c;
     cc_sniCerts := l; cc_currentlyServedContent := cc_currentlyServedContent c;
     cc_currentServingTLSConfig := cc_currentServingTLSConfig c |}.

Definition sni_load (fs : files) (p : SNICertKeyContentProvider) : bool * SNICertKeyContentProvider :=
  let '(notified, q) := provider_load fs (sp_provider p) in
  (notified, {| sp_provider := q; sp_sniNames := sp_sniNames p |}).

(** The files, the controller, whether its key is queued (or will be again after a
    delay), and what its worker has read when it is inside syncCerts. *)
Record serving := {
  sv_files : files;
  sv_controller : DynamicServingCertificateController;
  sv_queued : bool;
  sv_working : option (dynamicCertificateContent + error);
}.

(** Every change of a provider while the worker is busy marks the key again: the queue
    hands it out once more after Done. *)
Inductive serving_step : serving → serving → Prop :=
  | step_files fs fs' c q w : serving_step (Build_serving fs c q w) (Build_serving fs' c q w)
  | step_ca fs c q w ca notified ca' :
      cc_clientCA c = Some ca → ca_poll fs ca notified ca' →
      serving_step (Build_serving fs c q w) (Build_serving fs (with_ca c ca') (q || notified) w)
  | step_cert fs c q w p notified p' :
      cc_servingCert c = Some p → provider_load fs p = (notified, p') →
      serving_step (Build_serving fs c q w) (Build_serving fs (with_cert c p') (q || notified) w)
  | step_sni fs c q w i p notified p' :
      cc_sniCerts c !! i = Some p → sni_load fs p = (notified, p') →
      serving_step (Build_serving fs c q w) (Build_serving fs (with_snis c (<[i := p']> (cc_sniCerts c))) (q || notified) w)
  | step_timer fs c q w : serving_step (Build_serving fs c q w) (Build_serving fs c true w)
  | step_start fs c r :
      newTLSContent c = Ret r →
      serving_step (Build_serving fs c true None) (Build_serving fs c false (Some r))
  | step_finish fs c q r err c' :
      sync_content c r = Ret (err, c') →
      serving_step (Build_serving fs c q (Some r)) (Build_serving fs c' (q || bool_decide (is_Some err)) None).

(** A server whose providers were made by their constructors, when its workers start. *)
Definition key_valid (ck : certKeyContent) : Prop := ∃ cert, X509KeyPair (ck_cert ck) (ck_key ck) = inl cert.
Definition provider_ready (p : CertKeyContentProvider) : Prop := ∃ ck, CurrentCertKeyContent p = Ret ck ∧ key_valid ck.
Fixpoint ca_ready (c : CAContentProvider Pool) : Prop :=
  match c with
  | StaticCA _ _ _ => True
  | FileCA f => is_Some (fc_caBundle f)
  | UnionCA cs => (fix go cs := match cs with [] => True | c :: cs => ca_ready c ∧ go cs end) cs
  end.

Definition providers_ready (c : DynamicServingCertificateController) : Prop :=
  (∀ ca, cc_clientCA c = Some ca → ca_ready ca) ∧ (∀ p, cc_servingCert c = Some p → provider_ready p) ∧
  Forall (λ s, provider_ready (sp_provider s)) (cc_sniCerts c).

Definition serving_init (s : serving) : Prop :=
  providers_ready (sv_controller s) ∧ cc_currentlyServedContent (sv_controller s) = None ∧
  cc_currentServingTLSConfig (sv_controller s) = None ∧ sv_queued s = true ∧ sv_working s = None.

(** The client CA a second authenticator brings is joined with the first. *)
Definition ApplyClientCert (clientCA : option (CAContentProvider Pool)) (new : option (CAContentProvider Pool))
    : option (CAContentProvider Pool) :=
  match new with
  | None => clientCA
  | Some new => match clientCA with None => Some new | Some c => Some (UnionCA [c; new]) end
  end.

(** SecureServingInfo.tlsConfig: every provider is loaded once, the controller synced
    once, and the workers and timers started (the controller's timer queues its key at
    once).  Errors are only logged.  Without any provider there is no controller. *)
Definition start_serving (fs : files) (base : tlsConfig) (clientCA : option (CAContentProvider Pool))
    (cert : option CertKeyContentProvider) (sniCerts : list SNICertKeyContentProvider) : outcome (option serving) :=
  if bool_decide (is_Some clientCA) || bool_decide (is_Some cert) || (0 <? length sniCerts) then
    let c := {| cc_baseTLSConfig := base; cc_clientCA := snd ∘ ca_load fs <$> clientCA;
                cc_servingCert := snd ∘ provider_load fs <$> cert; cc_sniCerts := (sni_load fs <$> sniCerts).*2;
                cc_currentlyServedContent := None; cc_currentServingTLSConfig := None |} in
    r ← syncCerts c;
    Ret (Some {| sv_files := fs; sv_controller := r.2; sv_queued := true; sv_working := None |})
  else Ret None.
End certificates.
Arguments tlsConfig : clear implicits.
Arguments DynamicServingCertificateController : clear implicits.

(** ** Theorems *)

Section named_theorems.
Context {Cert : Type} `{DNSValidation}.
Context (X509KeyPair : string → string → Cert + error) (ParseLeaf : Cert → x509Certificate + error) (ParseIP : string → bool).

(** tls.X509KeyPair parses the leaf: what it returns has one. *)
Definition leaf_law : Prop := ∀ c k cert, X509KeyPair c k = inl cert → ∃ x, ParseLeaf cert = inl x.

Definition cert_of (s : sniCertKeyContent) : option Cert :=
  match X509KeyPair (ck_cert (sc_pair s)) (ck_key (sc_pair s)) with inl cert => Some cert | inr _ => None end.

(** The names a certificate has of its own. *)
Definition own_names (cert : Cert) : list string :=
  match ParseLeaf cert with inl x => getCertificateNames ParseIP x | inr _ => [] end.

(** The first certificate that was given the name, and the first without given names
    that carries it. *)
Definition first_explicit (l : list sniCertKeyContent) (n : string) : option Cert :=
  head (omap (λ s, if decide (n ∈ sc_names s) then cert_of s else None) l).
Definition first_own (l : list sniCertKeyContent) (n : string) : option Cert :=
  head (omap (λ s, cert ← cert_of s; if decide (sc_names s = [] ∧ n ∈ own_names cert) then Some cert else None) l).

Lemma put_names_lookup names (cert : Cert) m n :
  put_names names cert m !! n = if decide (n ∈ names) then Some cert else m !! n.
Proof.
  unfold put_names. revert m. induction names as [|x names IH]; intros m; cbn; [by rewrite decide_False by set_solver|].
  rewrite IH. destruct (decide (n ∈ names)) as [Hn|Hn]; [by rewrite decide_True by set_solver|].
  destruct (decide (n = x)) as [->|Hne]; [by rewrite lookup_insert_eq, decide_True by set_solver|].
  rewrite lookup_insert_ne, decide_False by set_solver. done.
Qed.

Lemma named_loop_app l1 l2 m e :
  named_loop X509KeyPair ParseLeaf ParseIP (l1 ++ l2) m e =
  (r ← named_loop X509KeyPair ParseLeaf ParseIP l1 m e;
   match r with inl (m, e) => named_loop X509KeyPair ParseLeaf ParseIP l2 m e | inr err => Ret (inr err) end).
Proof.
  revert m e. induction l1 as [|s l1 IH]; intros m e; cbn; [done|].
  destruct (X509KeyPair _ _); [|done]. destruct (ParseLeaf _); [|done]. apply IH.
Qed.

Lemma named_loop_spec l :
  leaf_law →
  match named_loop X509KeyPair ParseLeaf ParseIP (reverse l) ∅ ∅ with
  | Ret (inl (m, e)) => (∀ n, e !! n = first_explicit l n) ∧ (∀ n, m !! n = first_own l n) ∧ Forall (λ s, is_Some (cert_of s)) l
  | Ret (inr _) => ∃ s, s ∈ l ∧ cert_of s = None
  | Panic _ => False
  end.
Proof.
  intros Hleaf. induction l as [|s l IH]; [done|].
  rewrite reverse_cons, named_loop_app.
  destruct (named_loop X509KeyPair ParseLeaf ParseIP (reverse l) ∅ ∅) as [[[m e]|err]|]; cbn; [| |done].
  2:{ destruct IH as (x & Hx & Hn). exists x. by split; [right|]. }
  destruct IH as (He & Hm & Hall).
  destruct (X509KeyPair (ck_cert (sc_pair s)) (ck_key (sc_pair s))) as [cert|err] eqn:Hc.
  2:{ exists s. split; [by left|]. unfold cert_of. by rewrite Hc. }
  destruct (Hleaf _ _ _ Hc) as [x Hx]. rewrite Hx.
  assert (cert_of s = Some cert) as Hs by (unfold cert_of; by rewrite Hc).
  assert (own_names cert = getCertificateNames ParseIP x) as Ho by (unfold own_names; by rewrite Hx).
  split_and!.
  - intros n. rewrite put_names_lookup. unfold first_explicit. cbn. rewrite Hs.
    destruct (decide (n ∈ sc_names s)); [done|]. apply He.
  - intros n. unfold first_own. cbn. rewrite Hs. cbn. rewrite Ho.
    destruct (sc_names s) as [|x' names] eqn:Hnames; cbn.
    + rewrite put_names_lookup. destruct (decide (n ∈ getCertificateNames ParseIP x)) as [Hn|Hn].
      * by rewrite decide_True.
      * rewrite decide_False by naive_solver. apply Hm.
    + rewrite decide_False by naive_solver. apply Hm.
  - constructor; [by rewrite Hs|done].
Qed.

(** C27: a name selects the first certificate it was given to explicitly; otherwise the
    first of the certificates without explicit names that carries it itself.  Building
    fails exactly when some key pair is invalid, and never panics. *)
Theorem BuildNamedCertificates_spec l :
  leaf_law →
  match BuildNamedCertificates X509KeyPair ParseLeaf ParseIP l with
  | Ret (inl m) =>
      Forall (λ s, is_Some (cert_of s)) l ∧
      ∀ n, m !! n = match first_explicit l n with Some cert => Some cert | None => first_own l n end
  | Ret (inr _) => ∃ s, s ∈ l ∧ cert_of s = None
  | Panic _ => False
  end.
Proof.
  intros Hleaf. pose proof (named_loop_spec l Hleaf) as Hl. unfold BuildNamedCertificates.
  destruct (named_loop _ _ _ _ _ _) as [[[m e]|err]|]; cbn; [|done..]. destruct Hl as (He & Hm & Hall).
  split; [done|]. intros n. rewrite lookup_union, He, Hm. by destruct (first_explicit l n), (first_own l n).
Qed.
End named_theorems.

Section serving_theorems.
Context {Cert Pool : Type} `{DNSValidation}.
Context (X509KeyPair : string → string → Cert + error) (ParseLeaf : Cert → x509Certificate + error) (ParseIP : string → bool).
Context (NewPoolFromBytes ParseCertsPEM : string → Pool + error) (visit : gmap string Cert → list (string * Cert)).
Abbreviation build := (build_config X509KeyPair ParseLeaf ParseIP ParseCertsPEM visit).
Abbreviation steps := (serving_step X509KeyPair ParseLeaf ParseIP NewPoolFromBytes ParseCertsPEM visit).
Abbreviation files := (string → string + error).
Abbreviation ctl := (DynamicServingCertificateController Cert Pool).

Lemma CAContentProvider_rect' (P : CAContentProvider Pool → Prop) :
  (∀ n b r, P (StaticCA n b r)) → (∀ f, P (FileCA f)) → (∀ cs, Forall P cs → P (UnionCA cs)) → ∀ c, P c.
Proof.
  intros Hs Hf Hu. fix IH 1. intros [n b r|f|cs]; [apply Hs|apply Hf|apply Hu].
  induction cs as [|c cs IHcs]; constructor; [apply IH|apply IHcs].
Qed.

(** *** Equality of contents *)

Lemma names_equal_eq l r : names_equal l r = true → l = r.
Proof. revert r. induction l as [|x l IH]; intros [|y r]; cbn; try done. intros [->%bool_decide_eq_true Hl]%andb_true_iff. f_equal. by apply IH. Qed.

Lemma certKeyContent_Equal_eq c r : certKeyContent_Equal c r = true ↔ c = r.
Proof.
  destruct c, r. unfold certKeyContent_Equal. cbn. rewrite andb_true_iff, !bool_decide_eq_true. split; [by intros [-> ->]|by intros [= -> ->]].
Qed.

Lemma sniCerts_equal_eq l r : sniCerts_equal l r = true → l = r.
Proof.
  revert r. induction l as [|[p n] l IH]; intros [|[p' n'] r]; cbn; try done.
  unfold sniCertKeyContent_Equal. cbn. intros [[->%names_equal_eq ->%certKeyContent_Equal_eq]%andb_true_iff Hl]%andb_true_iff. f_equal. by apply IH.
Qed.

Lemma dynamicCertificateContent_Equal_eq c o : dynamicCertificateContent_Equal c o = true → o = Some c.
Proof.
  destruct o as [[ca p l]|]; [|done]. destruct c as [ca' p' l']. cbn.
  intros [[->%bool_decide_eq_true ->%certKeyContent_Equal_eq]%andb_true_iff ->%sniCerts_equal_eq]%andb_true_iff. done.
Qed.

(** *** Providers: a load that does not notify changes nothing *)

Lemma loadCertKeyPair_inv fs c err notified c' :
  loadCertKeyPair X509KeyPair fs c = (err, notified, c') →
  (notified = false → c' = c) ∧
  (c' = c ∨ ∃ ck, dp_certKeyPair c' = Some ck ∧ key_valid X509KeyPair ck).
Proof.
  unfold loadCertKeyPair. intros Hl. repeat case_match; simplify_eq; (split; [done|]); try (by left).
  all: right; eexists; (split; [done|]); unfold key_valid; eauto.
Qed.

Lemma provider_load_inv fs p notified p' :
  provider_load X509KeyPair fs p = (notified, p') →
  (notified = false → p' = p) ∧ (provider_ready X509KeyPair p → provider_ready X509KeyPair p').
Proof.
  destruct p as [n c k|c]; cbn; [by intros [= <- <-]|].
  destruct (loadCertKeyPair X509KeyPair fs c) as [[err b] c'] eqn:Hl. intros [= <- <-].
  apply loadCertKeyPair_inv in Hl as [Hn Hv]. split; [intros Hb; by rewrite (Hn Hb)|].
  destruct Hv as [->|(ck & Hck & Hv)]; [done|]. intros _. exists ck. cbn. by rewrite Hck.
Qed.

Lemma loadCABundle_inv fs c err notified c' :
  loadCABundle NewPoolFromBytes fs c = (err, notified, c') →
  (notified = false → c' = c) ∧ (c' = c ∨ is_Some (fc_caBundle c')).
Proof. unfold loadCABundle. intros Hl. repeat case_match; simplify_eq; naive_solver. Qed.

Lemma ca_ready_union (cs : list (CAContentProvider Pool)) : ca_ready (UnionCA cs) ↔ Forall ca_ready cs.
Proof.
  cbn. induction cs as [|c cs IH]; [by split|]. rewrite Forall_cons. by rewrite IH.
Qed.

Lemma ca_poll_inv fs ca notified ca' :
  ca_poll NewPoolFromBytes fs ca notified ca' → (notified = false → ca' = ca) ∧ (ca_ready ca → ca_ready ca').
Proof.
  induction 1 as [f err notified f' Hl|cs i c notified c' Hi Hp [IH1 IH2]].
  - apply loadCABundle_inv in Hl as [Hn Hv]. split; [intros Hb; by rewrite (Hn Hb)|]. by destruct Hv as [->|].
  - split; [intros Hb; by rewrite (IH1 Hb), list_insert_id|].
    rewrite !ca_ready_union. intros Hall. apply Forall_insert; [done|]. apply IH2. by eapply Forall_lookup_1.
Qed.

(** *** Reading the contents never panics once the providers are ready *)

Lemma CurrentCABundleContent_ready (ca : CAContentProvider Pool) : ca_ready ca → ∃ b, CurrentCABundleContent ca = Ret (b : string).
Proof.
  induction ca as [n b r|f|cs IH] using CAContentProvider_rect'; cbn; [by eexists|by intros [b ->]; eexists|].
  intros Hr. apply ca_ready_union in Hr.
  enough (∃ l, collect_bundles CurrentCABundleContent cs = Ret l) as [l ->] by (cbn; by eexists).
  induction IH as [|c cs Hc IH IHcs]; [by eexists|]. apply Forall_cons in Hr as [Hr1 Hr2].
  destruct (Hc Hr1) as [b Hb]. destruct (IHcs Hr2) as [l Hl]. cbn. rewrite Hb. cbn. rewrite Hl. by eexists.
Qed.

Lemma sni_contents_ready i l :
  Forall (λ s, provider_ready X509KeyPair (sp_provider s)) l → ∃ r, sni_contents i l = Ret r.
Proof.
  intros Hl. revert i. induction Hl as [|s l (ck & Hck & _) _ IH]; intros i; cbn; [by eexists|].
  rewrite Hck. cbn. destruct (empty_pair ck); [by eexists|]. destruct (IH (S i)) as [r ->]. cbn. by eexists.
Qed.

Lemma newTLSContent_ready (c : ctl) : providers_ready X509KeyPair c → ∃ r, newTLSContent c = Ret r.
Proof.
  intros (Hca & Hp & Hs). unfold newTLSContent.
  assert (∃ b, match cc_clientCA c with Some ca => CurrentCABundleContent ca | None => Ret "" end = Ret b) as [b ->].
  { destruct (cc_clientCA c) as [ca|]; [by apply CurrentCABundleContent_ready, Hca|by eexists]. }
  cbn. destruct (sni_contents_ready 0 _ Hs) as [r Hr].
  destruct (cc_servingCert c) as [p|]; cbn; [destruct (Hp p eq_refl) as (ck & -> & _); cbn; destruct (empty_pair ck); [by eexists|]|];
    rewrite Hr; cbn; by eexists.
Qed.

Lemma build_config_safe base content :
  leaf_law X509KeyPair ParseLeaf → ∃ r, build base content = Ret r.
Proof.
  intros Hleaf. unfold build_config.
  assert (∃ r, BuildNamedCertificates X509KeyPair ParseLeaf ParseIP (dc_sniCerts content) = Ret r) as [r Hr].
  { unfold BuildNamedCertificates. pose proof (named_loop_spec X509KeyPair ParseLeaf ParseIP (dc_sniCerts content) Hleaf) as Hb.
    destruct (named_loop _ _ _ _ _ _) as [[[]|]|]; cbn; [by eexists..|done]. }
  rewrite Hr. cbn [mbind outcome_bind]. destruct (0 <? slen _), (0 <? length _), (_ && _);
    try destruct (ParseCertsPEM _); try destruct (X509KeyPair _ _) as [cert|]; try destruct (ParseLeaf cert); eexists; reflexivity.
Qed.

Lemma sync_content_cases c r :
  leaf_law X509KeyPair ParseLeaf →
  ∃ err c', sync_content X509KeyPair ParseLeaf ParseIP ParseCertsPEM visit c r = Ret (err, c') ∧
    match err with
    | Some _ => c' = c
    | None => ∃ content, r = inl content ∧
        ((cc_currentlyServedContent c = Some content ∧ c' = c) ∨
         ∃ config, build (cc_baseTLSConfig c) content = Ret (inl config) ∧ c' = store c content config)
    end.
Proof.
  intros Hleaf. unfold sync_content. destruct r as [content|err]; [|by eexists _, _; split; [reflexivity|]].
  destruct (dynamicCertificateContent_Equal content _) eqn:He.
  { apply dynamicCertificateContent_Equal_eq in He. eexists _, _. split; [reflexivity|]. cbn. eauto 10. }
  destruct (build_config_safe (cc_baseTLSConfig c) content Hleaf) as [[config|err] Hb]; rewrite Hb; cbn;
    (eexists _, _; split; [reflexivity|]); cbn; eauto 10.
Qed.

(** *** The invariant *)

(** While the key is not queued, what is served (or being stored) is what the providers
    hold: no notification is lost. *)
Definition serving_inv (s : serving) : Prop :=
  let c : ctl := sv_controller s in
  providers_ready X509KeyPair c ∧
  match cc_currentlyServedContent c, cc_currentServingTLSConfig c with
  | None, None => True
  | Some content, Some config => build (cc_baseTLSConfig c) content = Ret (inl config)
  | _, _ => False
  end ∧
  (sv_queued s = false →
   match sv_working s with
   | None => ∃ content, cc_currentlyServedContent c = Some content ∧ newTLSContent c = Ret (inl content)
   | Some r => newTLSContent c = Ret r
   end).

Lemma serving_inv_init s : serving_init X509KeyPair s → serving_inv s.
Proof. intros (Hr & H1 & H2 & Hq & _). split_and!; [done|by rewrite H1, H2|by rewrite Hq]. Qed.

Lemma serving_inv_step s s' : leaf_law X509KeyPair ParseLeaf → serving_inv s → steps s s' → serving_inv s'.
Proof.
  intros Hleaf ((Hca & Hp & Hs) & Hserved & Hidle) Hstep. unfold serving_inv in *.
  destruct Hstep as [fs fs' c q w|fs c q w ca n ca' Hc Hpoll|fs c q w p n p' Hc Hload|fs c q w i p n p' Hc Hload|fs c q w|fs c r Hr|fs c q r err c' Hsync];
    cbn [sv_files sv_controller sv_queued sv_working] in *.
  - by split_and!.
  - apply ca_poll_inv in Hpoll as [Hn Hv]. split_and!; [|done|].
    { split_and!; cbn; [intros ? [= <-]; by apply Hv, Hca|done..]. }
    intros [Hq ->]%orb_false_iff. rewrite (Hn eq_refl) in *. replace (with_ca c ca) with c; [by apply Hidle|].
    destruct c; cbn [cc_clientCA cc_servingCert] in *; by subst.
  - apply provider_load_inv in Hload as [Hn Hv]. split_and!; [|done|].
    { split_and!; cbn; [done|intros ? [= <-]; by apply Hv, Hp|done]. }
    intros [Hq ->]%orb_false_iff. rewrite (Hn eq_refl) in *. replace (with_cert c p) with c; [by apply Hidle|].
    destruct c; cbn [cc_clientCA cc_servingCert] in *; by subst.
  - unfold sni_load in Hload. destruct (provider_load _ fs (sp_provider p)) as [n' q'] eqn:Hl. simplify_eq.
    apply provider_load_inv in Hl as [Hn Hv]. split_and!; [|done|].
    { split_and!; cbn; [done..|]. apply Forall_insert; [done|]. cbn. apply Hv. by apply (Forall_lookup_1 _ _ _ _ Hs Hc). }
    intros [Hq ->]%orb_false_iff. rewrite (Hn eq_refl) in *.
    replace (with_snis c _) with c; [by apply Hidle|].
    rewrite list_insert_id by (rewrite Hc; by destruct p). by destruct c.
  - by split_and!.
  - by split_and!.
  - destruct (sync_content_cases c r Hleaf) as (err' & c'' & Hs' & Hcases). rewrite Hs' in Hsync. simplify_eq.
    destruct err as [err|].
    { subst c'. split_and!; try done. by rewrite orb_true_r. }
    destruct Hcases as (content & -> & [[Hcur ->]|(config & Hb & ->)]).
    + split_and!; try done. rewrite orb_false_r. intros Hq. exists content. split; [done|by apply Hidle].
    + split_and!; try done. rewrite orb_false_r. intros Hq. exists content. split; [done|by apply Hidle].
Qed.

Lemma serving_inv_reachable s0 s :
  leaf_law X509KeyPair ParseLeaf → serving_init X509KeyPair s0 → rtc steps s0 s → serving_inv s.
Proof.
  intros Hleaf Hinit Hr. apply serving_inv_init in Hinit.
  induction Hr as [|s1 s2 s3 Hstep _ IH]; [done|]. apply IH. by eapply serving_inv_step.
Qed.

(** C16: in every state a running server can reach, however the files change: reading the
    providers and syncing do not panic; what is served is a content for which the whole
    configuration could be built, with that configuration; and when the controller is
    idle (its key not queued, its worker not inside syncCerts) the served content is
    what the providers hold. *)
Theorem certificates_follow s0 s :
  leaf_law X509KeyPair ParseLeaf → serving_init X509KeyPair s0 → rtc steps s0 s →
  let c := sv_controller s in
  (∃ r, syncCerts X509KeyPair ParseLeaf ParseIP ParseCertsPEM visit c = Ret r) ∧
  (∀ config, cc_currentServingTLSConfig c = Some config →
     ∃ content, cc_currentlyServedContent c = Some content ∧ build (cc_baseTLSConfig c) content = Ret (inl config)) ∧
  (sv_queued s = false → sv_working s = None →
     ∃ content, newTLSContent c = Ret (inl content) ∧ cc_currentlyServedContent c = Some content).
Proof.
  intros Hleaf Hinit Hr c. destruct (serving_inv_reachable s0 s Hleaf Hinit Hr) as (Hready & Hserved & Hidle). fold c in Hready, Hserved, Hidle.
  split_and!.
  - unfold syncCerts. destruct (newTLSContent_ready c Hready) as [r ->]. cbn.
    destruct (sync_content_cases c r Hleaf) as (err & c' & -> & _). by eexists.
  - intros config Hc. rewrite Hc in Hserved. destruct (cc_currentlyServedContent c) as [content|]; [|done]. by exists content.
  - intros Hq Hw. rewrite Hw in Hidle. destruct (Hidle Hq) as (content & ? & ?). by exists content.
Qed.

(** *** Starting *)

Lemma NewDynamicServingContentFromFiles_ready fs purpose certFile keyFile c :
  NewDynamicServingContentFromFiles X509KeyPair fs purpose certFile keyFile = inl c → provider_ready X509KeyPair (DynamicCertKey c).
Proof.
  unfold NewDynamicServingContentFromFiles. case_match; [done|].
  destruct (loadCertKeyPair X509KeyPair fs _) as [[[err|] n] c'] eqn:Hl; [done|]. intros [= ->].
  unfold loadCertKeyPair in Hl. cbn in Hl. repeat case_match; simplify_eq. eexists. split; [done|]. eexists. done.
Qed.

Lemma ca_load_ready fs (ca : CAContentProvider Pool) : ca_ready ca → ca_ready (ca_load NewPoolFromBytes fs ca).2.
Proof.
  induction ca as [n b r|f|cs IH] using CAContentProvider_rect'; [done| |].
  - cbn. destruct (loadCABundle NewPoolFromBytes fs f) as [[err n] f'] eqn:Hl. apply loadCABundle_inv in Hl as [_ [->|?]]; done.
  - cbn [ca_load snd]. rewrite !ca_ready_union. intros Hr. induction IH as [|c cs Hc _ IHcs]; [constructor|].
    apply Forall_cons in Hr as [??]. cbn. constructor; auto.
Qed.

Lemma provider_load_ready fs p : provider_ready X509KeyPair p → provider_ready X509KeyPair (provider_load X509KeyPair fs p).2.
Proof. destruct (provider_load X509KeyPair fs p) as [n p'] eqn:Hl. by apply provider_load_inv in Hl as [_ ?]. Qed.

(** Starting with ready providers does not panic and leads to a reachable state. *)
Lemma start_serving_reachable fs base ca cert snis :
  leaf_law X509KeyPair ParseLeaf →
  (∀ c, ca = Some c → ca_ready c) → (∀ p, cert = Some p → provider_ready X509KeyPair p) →
  Forall (λ s, provider_ready X509KeyPair (sp_provider s)) snis →
  ∃ o, start_serving X509KeyPair ParseLeaf ParseIP NewPoolFromBytes ParseCertsPEM visit fs base ca cert snis = Ret o ∧
    ∀ s, o = Some s → ∃ s0, serving_init X509KeyPair s0 ∧ rtc steps s0 s.
Proof.
  intros Hleaf Hca Hp Hs. unfold start_serving. case_match; [|by eexists].
  match goal with |- context [syncCerts _ _ _ _ _ ?x] => set (c := x) end.
  assert (providers_ready X509KeyPair c) as Hc.
  { split_and!; cbn.
    - intros c'. destruct ca as [ca|]; [|done]. intros [= <-]. by apply ca_load_ready, Hca.
    - intros p'. destruct cert as [p|]; [|done]. intros [= <-]. by apply provider_load_ready, Hp.
    - rewrite !Forall_fmap. eapply Forall_impl; [exact Hs|]. intros s Hs1. cbn. unfold sni_load.
      pose proof (provider_load_ready fs _ Hs1) as Hl. by destruct (provider_load X509KeyPair fs (sp_provider s)). }
  unfold syncCerts. destruct (newTLSContent_ready c Hc) as [r Hr]. rewrite Hr. cbn [mbind outcome_bind].
  destruct (sync_content_cases c r Hleaf) as (err & c' & Hsync & _). rewrite Hsync. cbn [mbind outcome_bind].
  eexists. split; [reflexivity|]. intros s [= <-]. exists (Build_serving fs c true None). split; [done|].
  eapply rtc_l; [by apply step_start|]. eapply rtc_l; [by apply step_finish|]. apply rtc_once, step_timer.
Qed.

(** *** Convergence *)

(** What the files of a provider hold, when it can be loaded. *)
Definition pair_on_disk (fs : files) (p : CertKeyContentProvider) : option certKeyContent :=
  match p with
  | StaticCertKey _ cert key => if empty_pair {| ck_cert := cert; ck_key := key |} then None else Some {| ck_cert := cert; ck_key := key |}
  | DynamicCertKey c =>
      match fs (dp_certFile c), fs (dp_keyFile c) with
      | inl cert, inl key =>
          if empty_pair {| ck_cert := cert; ck_key := key |} then None
          else match X509KeyPair cert key with inl _ => Some {| ck_cert := cert; ck_key := key |} | inr _ => None end
      | _, _ => None
      end
  end.

Fixpoint ca_on_disk (fs : files) (c : CAContentProvider Pool) : option string :=
  match c with
  | StaticCA _ bundle _ => Some bundle
  | FileCA f =>
      match fs (fc_filename f) with
      | inl b => if slen b =? 0 then None else match NewPoolFromBytes b with inl _ => Some b | inr _ => None end
      | inr _ => None
      end
  | UnionCA cs =>
      l ← mapM (ca_on_disk fs) cs;
      Some (Join (TrimSpace <$> filter (λ b, (0 <? slen b) = true) l) (String "010"%char ""))
  end.

Definition sni_on_disk (fs : files) (s : SNICertKeyContentProvider) : option sniCertKeyContent :=
  ck ← pair_on_disk fs (sp_provider s);
  Some {| sc_pair := ck; sc_names := sp_sniNames s |}.

Definition disk_content (fs : files) (c : ctl) : option dynamicCertificateContent :=
  ca ← match cc_clientCA c with Some ca => ca_on_disk fs ca | None => Some "" end;
  p ← match cc_servingCert c with Some p => pair_on_disk fs p | None => Some {| ck_cert := ""; ck_key := "" |} end;
  l ← mapM (sni_on_disk fs) (cc_sniCerts c);
  Some {| dc_clientCA := ca; dc_servingCert := p; dc_sniCerts := l |}.

Lemma pair_on_disk_load fs p ck :
  pair_on_disk fs p = Some ck →
  CurrentCertKeyContent (provider_load X509KeyPair fs p).2 = Ret ck ∧ empty_pair ck = false.
Proof.
  destruct p as [n cert key|c]; cbn; [by case_match; intros; simplify_eq|].
  unfold loadCertKeyPair. destruct (fs (dp_certFile c)) as [cert|]; [|done]. destruct (fs (dp_keyFile c)) as [key|]; [|done].
  unfold empty_pair at 1. cbn. destruct ((slen cert =? 0) || (slen key =? 0)) eqn:He; [done|].
  destruct (X509KeyPair cert key); [|done]. intros [= <-]. split; [|done].
  destruct (dp_certKeyPair c) as [ex|] eqn:Hex; [|done]. destruct (certKeyContent_Equal ex _) eqn:Heq; cbn; [|done].
  rewrite Hex. by apply certKeyContent_Equal_eq in Heq as ->.
Qed.

Lemma collect_bundles_disk fs cs l :
  Forall (λ c, ∀ b, ca_on_disk fs c = Some b → CurrentCABundleContent (ca_load NewPoolFromBytes fs c).2 = Ret b) cs →
  mapM (ca_on_disk fs) cs = Some l →
  collect_bundles CurrentCABundleContent ((ca_load NewPoolFromBytes fs <$> cs).*2) = Ret (TrimSpace <$> filter (λ b, (0 <? slen b) = true) l).
Proof.
  intros Hall. revert l. induction Hall as [|c cs Hc _ IH]; intros l; cbn; [by intros [= <-]|].
  destruct (ca_on_disk fs c) as [b|]; [|done]. cbn. destruct (mapM (ca_on_disk fs) cs) as [l'|]; [|done]. intros [= <-].
  rewrite (Hc b eq_refl), (IH l' eq_refl). cbn. by destruct (slen b).
Qed.

Lemma ca_on_disk_load fs ca b :
  ca_on_disk fs ca = Some b → CurrentCABundleContent (ca_load NewPoolFromBytes fs ca).2 = Ret b.
Proof.
  revert b. induction ca as [n b' r|f|cs IH] using CAContentProvider_rect'; intros b; [by intros [= <-]| |].
  - cbn. unfold loadCABundle, hasCAChanged, newCABundleAndVerifier.
    destruct (fs (fc_filename f)) as [b'|]; [|done]. destruct (slen b' =? 0) eqn:He; [done|].
    destruct (NewPoolFromBytes b') as [pool|]; [|done]. intros [= <-].
    destruct (fc_caBundle f) as [[ex pool']|] eqn:Hex; cbn; [|done].
    destruct (ex == b') eqn:Heq; cbn; [|done]. rewrite Hex. by apply bool_decide_eq_true in Heq as ->.
  - cbn. destruct (mapM (ca_on_disk fs) cs) as [l|] eqn:Hl; [|done]. intros [= <-].
    by rewrite (collect_bundles_disk fs cs l IH Hl).
Qed.

Lemma sni_load_snd fs s :
  (sni_load X509KeyPair fs s).2 = {| sp_provider := (provider_load X509KeyPair fs (sp_provider s)).2; sp_sniNames := sp_sniNames s |}.
Proof. unfold sni_load. by destruct (provider_load X509KeyPair fs (sp_provider s)). Qed.

Lemma sni_contents_disk fs i l r :
  mapM (sni_on_disk fs) l = Some r → sni_contents i ((sni_load X509KeyPair fs <$> l).*2) = Ret (inl r).
Proof.
  revert i r. induction l as [|s l IH]; intros i r; cbn; [by intros [= <-]|].
  destruct (sni_on_disk fs s) as [x|] eqn:Hx; [|done]. cbn. destruct (mapM (sni_on_disk fs) l) as [r'|]; [|done]. intros [= <-].
  unfold sni_on_disk in Hx. destruct (pair_on_disk fs (sp_provider s)) as [ck|] eqn:Hck; [|done]. injection Hx as <-.
  apply pair_on_disk_load in Hck as [Hck He]. rewrite sni_load_snd.
  cbn. rewrite Hck. cbn. rewrite He, (IH (S i) r' eq_refl). done.
Qed.

(** Every provider polls once. *)
Definition polled (fs : files) (c : ctl) : ctl :=
  {| cc_baseTLSConfig := cc_baseTLSConfig c; cc_clientCA := snd ∘ ca_load NewPoolFromBytes fs <$> cc_clientCA c;
     cc_servingCert := snd ∘ provider_load X509KeyPair fs <$> cc_servingCert c;
     cc_sniCerts := (sni_load X509KeyPair fs <$> cc_sniCerts c).*2;
     cc_currentlyServedContent := cc_currentlyServedContent c; cc_currentServingTLSConfig := cc_currentServingTLSConfig c |}.

Lemma newTLSContent_polled fs c content :
  disk_content fs c = Some content → newTLSContent (polled fs c) = Ret (inl content).
Proof.
  unfold disk_content, newTLSContent. destruct c as [base ca p snis cont cfg]. cbn. intros Hd.
  assert (∃ b, match ca with Some ca => ca_on_disk fs ca | None => Some "" end = Some b ∧
    match snd ∘ ca_load NewPoolFromBytes fs <$> ca with Some ca => CurrentCABundleContent ca | None => Ret "" end = Ret b) as (b & Hb & Hb').
  { destruct ca as [ca|]; cbn in *; [|by eexists]. destruct (ca_on_disk fs ca) as [b|] eqn:Hb; [|done].
    exists b. split; [done|]. by apply ca_on_disk_load. }
  rewrite Hb in Hd. cbn in Hd, Hb'. rewrite Hb'. cbn.
  destruct p as [p|]; cbn in *.
  - destruct (pair_on_disk fs p) as [ck|] eqn:Hck; [|done]. cbn in Hd. apply pair_on_disk_load in Hck as [Hck He].
    rewrite Hck. cbn. rewrite He. cbn.
    destruct (mapM (sni_on_disk fs) snis) as [l|] eqn:Hl; [|done]. rewrite (sni_contents_disk fs 0 snis l Hl). by injection Hd as <-.
  - destruct (mapM (sni_on_disk fs) snis) as [l|] eqn:Hl; [|done]. rewrite (sni_contents_disk fs 0 snis l Hl). by injection Hd as <-.
Qed.

Lemma ca_polls fs (ca : CAContentProvider Pool) :
  rtc (λ a b, ∃ n, ca_poll NewPoolFromBytes fs a n b) ca (ca_load NewPoolFromBytes fs ca).2.
Proof.
  induction ca as [n b r|f|cs IH] using CAContentProvider_rect'; [done| |].
  - cbn. destruct (loadCABundle NewPoolFromBytes fs f) as [[err n] f'] eqn:Hl. apply rtc_once. exists n. by eapply poll_file.
  - cbn. enough (∀ pre, rtc (λ a b, ∃ n, ca_poll NewPoolFromBytes fs a n b) (UnionCA (pre ++ cs))
                   (UnionCA (pre ++ (ca_load NewPoolFromBytes fs <$> cs).*2))) as Hpre by apply (Hpre []).
    induction IH as [|c cs Hc _ IHcs]; intros pre; [done|]. cbn.
    etrans; [|rewrite (cons_middle (ca_load NewPoolFromBytes fs c).2), app_assoc; apply IHcs].
    rewrite <-app_assoc. cbn. clear IHcs. induction Hc as [x|x y z [n Hxy] _ IH]; [done|]. eapply rtc_l; [|exact IH].
    exists n. pose proof (poll_member NewPoolFromBytes fs (pre ++ x :: cs) (length pre) x n y) as Hm.
    rewrite insert_app_r_alt, Nat.sub_diag in Hm by lia. cbn in Hm. apply Hm; [|done].
    by rewrite lookup_app_r, Nat.sub_diag by lia.
Qed.

Lemma steps_ca fs c q w ca ca' :
  cc_clientCA c = Some ca → rtc (λ a b, ∃ n, ca_poll NewPoolFromBytes fs a n b) ca ca' →
  ∃ q', rtc steps (Build_serving fs c q w) (Build_serving fs (with_ca c ca') q' w).
Proof.
  intros Hc Hp. revert c q Hc. induction Hp as [x|x y z [n Hxy] _ IH]; intros c q Hc.
  - exists q. replace (with_ca c x) with c; [done|]. destruct c; cbn in *; by subst.
  - destruct (IH (with_ca c y) (q || n) eq_refl) as [q' Hq']. exists q'. eapply rtc_l; [by eapply step_ca|]. exact Hq'.
Qed.

Lemma steps_snis fs l c q w pre :
  cc_sniCerts c = pre ++ l →
  ∃ q', rtc steps (Build_serving fs c q w) (Build_serving fs (with_snis c (pre ++ (sni_load X509KeyPair fs <$> l).*2)) q' w).
Proof.
  revert c q pre. induction l as [|s l IH]; intros c q pre Hc.
  - exists q. cbn. replace (with_snis c (pre ++ [])) with c; [done|]. destruct c; cbn in *; by subst.
  - destruct (sni_load X509KeyPair fs s) as [n s'] eqn:Hs.
    destruct (IH (with_snis c (pre ++ s' :: l)) (q || n) (pre ++ [s'])) as [q' Hq']; [by cbn; rewrite <-app_assoc|].
    exists q'. eapply rtc_l; [eapply (step_sni _ _ _ _ _ _ _ _ _ _ (length pre) s); [|exact Hs]|].
    { by rewrite Hc, lookup_app_r, Nat.sub_diag by lia. }
    rewrite Hc, insert_app_r_alt, Nat.sub_diag by lia. cbn. rewrite Hs. cbn. rewrite <-app_assoc in Hq'. exact Hq'.
Qed.

Lemma steps_polled fs c q w : ∃ q', rtc steps (Build_serving fs c q w) (Build_serving fs (polled fs c) q' w).
Proof.
  assert (∃ q' c1, rtc steps (Build_serving fs c q w) (Build_serving fs c1 q' w) ∧
    c1 = Build_DynamicServingCertificateController (cc_baseTLSConfig c) (snd ∘ ca_load NewPoolFromBytes fs <$> cc_clientCA c)
           (cc_servingCert c) (cc_sniCerts c) (cc_currentlyServedContent c) (cc_currentServingTLSConfig c)) as (q1 & c1 & H1 & ->).
  { destruct (cc_clientCA c) as [ca|] eqn:Hca.
    - destruct (steps_ca fs c q w ca _ Hca (ca_polls fs ca)) as [q' Hq']. by eexists q', _.
    - exists q, c. split; [done|]. destruct c; cbn in *; by subst. }
  assert (∃ q' c2, rtc steps (Build_serving fs c q w) (Build_serving fs c2 q' w) ∧
    c2 = Build_DynamicServingCertificateController (cc_baseTLSConfig c) (snd ∘ ca_load NewPoolFromBytes fs <$> cc_clientCA c)
           (snd ∘ provider_load X509KeyPair fs <$> cc_servingCert c) (cc_sniCerts c) (cc_currentlyServedContent c)
           (cc_currentServingTLSConfig c)) as (q2 & c2 & H2 & ->).
  { destruct (cc_servingCert c) as [p|] eqn:Hp; [|by eexists q1, _].
    destruct (provider_load X509KeyPair fs p) as [n p'] eqn:Hl. eexists (q1 || n), _. split; [|cbn; rewrite Hl; done].
    eapply rtc_r; [exact H1|]. 
    match type of H1 with rtc _ _ (Build_serving _ ?c1 _ _) =>
      exact (step_cert X509KeyPair ParseLeaf ParseIP NewPoolFromBytes ParseCertsPEM visit fs c1 q1 w p n p' eq_refl Hl) end. }
  match type of H2 with rtc _ _ (Build_serving _ ?c2 _ _) => destruct (steps_snis fs (cc_sniCerts c) c2 q2 w [] eq_refl) as [q3 H3] end.
  exists q3. etrans; [exact H2|exact H3].
Qed.

(** C17: from every reachable state, if the files of all providers can be loaded and a
    configuration can be built from what they hold, then without any further change of
    the files the server reaches a state in which it is idle and serves that content and
    configuration: failures of earlier contents, whatever they were, do not stick. *)
Theorem certificates_converge s0 s content config :
  leaf_law X509KeyPair ParseLeaf → serving_init X509KeyPair s0 → rtc steps s0 s →
  disk_content (sv_files s) (sv_controller s) = Some content →
  build (cc_baseTLSConfig (sv_controller s)) content = Ret (inl config) →
  ∃ s', rtc steps s s' ∧ sv_files s' = sv_files s ∧ sv_queued s' = false ∧ sv_working s' = None ∧
    cc_currentlyServedContent (sv_controller s') = Some content ∧
    ∃ config', cc_currentServingTLSConfig (sv_controller s') = Some config' ∧
               build (cc_baseTLSConfig (sv_controller s')) content = Ret (inl config').
Proof.
  intros Hleaf Hinit Hr Hdisk Hb. destruct s as [fs c q w]. cbn [sv_files sv_controller] in *.
  destruct (steps_polled fs c q w) as [q1 H1].
  (* an interrupted sync is finished first *)
  assert (∃ c2, rtc steps (Build_serving fs c q w) (Build_serving fs c2 true None) ∧
    newTLSContent c2 = Ret (inl content) ∧ cc_baseTLSConfig c2 = cc_baseTLSConfig c) as (c2 & H2 & Hnew & Hbase).
  { pose proof (newTLSContent_polled fs c content Hdisk) as Hn. destruct w as [r|].
    - destruct (sync_content_cases (polled fs c) r Hleaf) as (err & c2 & Hs & Hc).
      exists c2. split.
      + etrans; [exact H1|]. eapply rtc_l; [by eapply step_finish|]. apply rtc_once, step_timer.
      + destruct err as [err|]; [by subst c2|]. destruct Hc as (cont & -> & [[_ ->]|(cfg & _ & ->)]); done.
    - exists (polled fs c). split; [|done]. etrans; [exact H1|]. apply rtc_once, step_timer. }
  destruct (sync_content_cases c2 (inl content) Hleaf) as (err & c3 & Hs & Hc).
  assert (rtc steps (Build_serving fs c q w) (Build_serving fs c3 (false || bool_decide (is_Some err)) None)) as H3.
  { etrans; [exact H2|]. eapply rtc_l; [by apply step_start|]. apply rtc_once. by apply step_finish. }
  assert (err = None ∧ cc_currentlyServedContent c3 = Some content) as [-> Hcur].
  { destruct err as [err|].
    - subst c3. unfold sync_content in Hs. rewrite Hbase, Hb in Hs. by destruct (dynamicCertificateContent_Equal _ _).
    - split; [done|]. destruct Hc as (cont & [= <-] & [[? ->]|(cfg & ? & ->)]); done. }
  exists (Build_serving fs c3 false None). split_and!; try done.
  assert (rtc steps s0 (Build_serving fs c3 false None)) as Hr3 by (etrans; [exact Hr|exact H3]).
  destruct (serving_inv_reachable s0 _ Hleaf Hinit Hr3) as (_ & Hserved & _). cbn [sv_controller] in Hserved. rewrite Hcur in Hserved.
  cbn [sv_controller]. destruct (cc_currentServingTLSConfig c3) as [cfg|]; [|done]. by exists cfg.
Qed.
End serving_theorems.

(** ** Examples *)

Module DynamicCertsExamples.
#[local] Instance dns : DNSValidation := {|
  IsDNS1123Subdomain := λ s, if s == "localhost" then [] else if HasSuffix s ".org" then [] else ["invalid"];
  IsDNS1123Label := λ s, [];
  IsDNS1035Label := λ s, [];
|}.
(** A key pair is valid when the key is "k" followed by the certificate; the leaf's
    common name is the certificate and it has one more DNS name. *)
Definition X509 (cert key : string) : string + error :=
  if key == "k" +:+ cert then inl cert else inr (Errorf "tls: private key does not match public key" []).
Definition Leaf (cert : string) : x509Certificate + error :=
  inl {| x_CommonName := cert; x_DNSNames := ["www." +:+ cert] |}.
Definition Pem (b : string) : string + error := if HasPrefix b "ca" then inl b else inr (Errorf "no certificates" []).
Definition noIP (s : string) : bool := false.

Definition sni (cert : string) (names : list string) : sniCertKeyContent :=
  {| sc_pair := {| ck_cert := cert; ck_key := "k" +:+ cert |}; sc_names := names |}.

Lemma X509_leaf : leaf_law X509 Leaf.
Proof. intros c k cert _. by eexists. Qed.

Definition three : list sniCertKeyContent := [sni "a.org" []; sni "b.org" ["a.org"]; sni "c.org" ["a.org"; "x"]].

Lemma three_built : match BuildNamedCertificates X509 Leaf noIP three with Ret (inl _) => true | _ => false end = true.
Proof. vm_compute. reflexivity. Qed.

Lemma BuildNamedCertificates_spec_witness :
  match BuildNamedCertificates X509 Leaf noIP three with
  | Ret (inl m) => m !! "a.org" = Some "b.org" ∧ m !! "www.a.org" = Some "a.org" ∧ m !! "x" = Some "c.org" ∧ m !! "b.org" = None
  | _ => False
  end.
Proof.
  generalize (BuildNamedCertificates_spec X509 Leaf noIP three X509_leaf) three_built.
  generalize (BuildNamedCertificates X509 Leaf noIP three) as r. intros [[m|err]|msg]; [|intros _ Hf; discriminate Hf..].
  intros [_ Hs] _. split_and!; rewrite Hs; reflexivity.
Defined.

(** A server with a CA bundle and a certificate in files. *)
Definition disk1 (f : string) : string + error :=
  if f == "ca.crt" then inl "ca1" else if f == "tls.crt" then inl "a.org" else if f == "tls.key" then inl "ka.org" else inr (Errorf "no such file" []).
(** The certificate was replaced, its key not yet. *)
Definition disk2 (f : string) : string + error := if f == "tls.crt" then inl "b.org" else disk1 f.
Definition disk3 (f : string) : string + error := if f == "tls.key" then inl "kb.org" else disk2 f.

Definition ca0 : DynamicFileCAContent string := {| fc_name := "client-ca::ca.crt"; fc_filename := "ca.crt"; fc_caBundle := Some ("ca1", "ca1") |}.
Definition pair0 : DynamicCertKeyPairContent :=
  {| dp_name := "serving-cert::tls.crt::tls.key"; dp_certFile := "tls.crt"; dp_keyFile := "tls.key";
     dp_certKeyPair := Some {| ck_cert := "a.org"; ck_key := "ka.org" |} |}.
Definition ctl0 : DynamicServingCertificateController string string :=
  {| cc_baseTLSConfig := {| tc_Certificates := []; tc_NameToCertificate := None; tc_ClientCAs := None |};
     cc_clientCA := Some (FileCA ca0); cc_servingCert := Some (DynamicCertKey pair0); cc_sniCerts := [];
     cc_currentlyServedContent := None; cc_currentServingTLSConfig := None |}.

(** The constructors make these providers. *)
Example providers_made :
  NewDynamicCAContentFromFile Pem disk1 "client-ca" "ca.crt" = inl ca0 ∧
  NewDynamicServingContentFromFiles X509 disk1 "serving-cert" "tls.crt" "tls.key" = inl pair0.
Proof. vm_compute. done. Qed.

Definition start : serving := {| sv_files := disk1; sv_controller := ctl0; sv_queued := true; sv_working := None |}.
Abbreviation steps := (serving_step X509 Leaf noIP Pem Pem map_to_list).

Lemma start_init : serving_init X509 start.
Proof.
  split; [|done]. split_and!; cbn; [| |constructor].
  - intros ? [= <-]. by eexists.
  - intros ? [= <-]. eexists. split; [reflexivity|]. eexists. reflexivity.
Qed.

Definition content_of (cert : string) : dynamicCertificateContent :=
  {| dc_clientCA := "ca1"; dc_servingCert := {| ck_cert := cert; ck_key := "k" +:+ cert |}; dc_sniCerts := [] |}.
Definition config_of (cert : string) : tlsConfig string string :=
  {| tc_Certificates := [cert]; tc_NameToCertificate := None; tc_ClientCAs := Some "ca1" |}.

(** The server serves its first certificate; the certificate file is replaced, the poll
    between the two writes fails and changes nothing. *)
Definition served : serving :=
  {| sv_files := disk2; sv_controller := store ctl0 (content_of "a.org") (config_of "a.org"); sv_queued := false; sv_working := None |}.

Lemma start_served : rtc steps start served.
Proof.
  eapply rtc_l; [apply step_start; reflexivity|].
  eapply rtc_l; [eapply step_finish; vm_compute; reflexivity|].
  eapply rtc_l; [apply (step_files _ _ _ _ _ _ _ disk2)|].
  eapply rtc_l; [eapply step_cert; [reflexivity|vm_compute; reflexivity]|].
  vm_compute. apply rtc_refl.
Qed.

Lemma certificates_follow_witness :
  ∃ content, newTLSContent (sv_controller served) = Ret (inl content) ∧
             cc_currentlyServedContent (sv_controller served) = Some content.
Proof. apply (certificates_follow X509 Leaf noIP Pem Pem map_to_list start served X509_leaf start_init start_served); reflexivity. Defined.

(** Then the key follows. *)
Definition rotated : serving := {| sv_files := disk3; sv_controller := sv_controller served; sv_queued := false; sv_working := None |}.

Lemma start_rotated : rtc steps start rotated.
Proof. eapply rtc_r; [apply start_served|]. apply (step_files _ _ _ _ _ _ disk2 disk3). Qed.

Lemma certificates_converge_witness :
  ∃ s', rtc steps rotated s' ∧ sv_queued s' = false ∧ cc_currentlyServedContent (sv_controller s') = Some (content_of "b.org").
Proof.
  destruct (certificates_converge X509 Leaf noIP Pem Pem map_to_list start rotated (content_of "b.org") (config_of "b.org")
              X509_leaf start_init start_rotated) as (s' & Hr & _ & Hq & _ & Hc & _); [vm_compute; reflexivity..|].
  by exists s'.
Defined.
End DynamicCertsExamples.
