(* ===== verification/StructFields.v ===== *)
(** * The fields of a struct type, and values addressed by them

    Models what the parameter codec (pkg/rest/parametercodec/structfields.go) and the
    form codec (pkg/rest/urlencoded/structfields.go) share: the walk over a struct type
    and its embedded structs that lists the fields to encode (typeFields), and access
    to the value of such a field through embedded structs and pointers (getSubv).  The
    two packages differ in how a field's tags are read, which is an argument here.

    reflect's types and values are trees: a struct type is known by its name, a pointer
    holds its target.  A value of any other type is a leaf. *)

From S2P Require Import Prelude GoStrings.

Local Open Scope go_scope.

(** ** Types and values *)

Inductive rtype :=
  | TBase (kind : string)
  | TStruct (name : string)
  | TPtr (elem : rtype).

#[global] Instance rtype_eq_dec : EqDecision rtype.
Proof. solve_decision. Defined.

(** reflect.StructField, its tag as key/value pairs. *)
Record StructField := {
  sf_Name : string;
  sf_Exported : bool;
  sf_Anonymous : bool;
  sf_Type : rtype;
  sf_Tag : list (string * string);
}.

Definition Tag_Get (sf : StructField) (key : string) : string :=
  default "" (snd <$> list_find (λ kv : string * string, kv.1 = key) (sf_Tag sf) ≫= λ kv, Some kv.2).

Inductive rvalue (Leaf : Type) :=
  | VLeaf (l : Leaf)
  | VStruct (fs : list (rvalue Leaf))
  | VPtr (target : option (rvalue Leaf)).
Arguments VLeaf {Leaf} _.
Arguments VStruct {Leaf} _.
Arguments VPtr {Leaf} _.

(** *** Tags *)

Definition parseTag (tag : string) : string * string :=
  match SplitN tag ","%char 2 with
  | [name; opts] => (name, opts)
  | _ => (tag, "")
  end.

(** The loop over the comma-separated options ends when nothing is left of the string. *)
Fixpoint contains_part (parts : list string) (optionName : string) : bool :=
  match parts with
  | [] => false
  | [s] => if s == "" then false else s == optionName
  | s :: next => if s == optionName then true else contains_part next optionName
  end.

Definition tagOptions_Contains (o : string) (optionName : string) : bool :=
  if slen o =? 0 then false else contains_part (Split o ","%char) optionName.

(** fieldProps of both packages; the form codec has no ParamType. *)
Record fieldProps {Float : Type} := {
  p_Key : string;
  p_ParamType : string;
  p_Skip : bool;
  p_Hidden : bool;
  p_Required : bool;
  p_Name : string;
  p_Format : string;
  p_Description : string;
  p_Enum : list string;
  p_Maximum : option Float;
  p_Minimum : option Float;
  p_Default : string;
}.
Arguments fieldProps : clear implicits.

(** What getFieldProps returns for an embedded field. *)
Definition no_props {Float} : fieldProps Float := {|
  p_Key := ""; p_ParamType := ""; p_Skip := false; p_Hidden := false; p_Required := false; p_Name := ""; p_Format := "";
  p_Description := ""; p_Enum := []; p_Maximum := None; p_Minimum := None; p_Default := "" |}.

Record field {Float : Type} := {
  fd_props : fieldProps Float;
  fd_Type : rtype;
  fd_index : list nat;
}.
Arguments field : clear implicits.

(** Follow a pointer. *)
Definition deref (t : rtype) : rtype := match t with TPtr e => e | _ => t end.
Definition is_struct (t : rtype) : bool := match t with TStruct _ => true | _ => false end.

(** ** typeFields *)

Section walk.
Context {Float : Type}.
(** The struct types of the program by name, and how tags are read. *)
Context (types : gmap string (list StructField)) (getFieldProps : StructField → outcome (fieldProps Float)).

(** A struct to explore: where it was found, and its name. *)
Abbreviation pending := (list nat * string)%type.
(** Fields found, structs for the next level, and how often each was queued. *)
Abbreviation scan_state := (list (field Float) * list pending * gmap string nat)%type.

(** Unexported fields are ignored, unless they are embedded structs. *)
Definition ignored (sf : StructField) : bool :=
  if sf_Anonymous sf then negb (sf_Exported sf) && negb (is_struct (deref (sf_Type sf))) else negb (sf_Exported sf).

(** The scan of one struct; [dup] when it was queued more than once on this level. *)
Fixpoint scan (dup : bool) (findex : list nat) (i : nat) (sfs : list StructField) (st : scan_state) : outcome scan_state :=
  match sfs with
  | [] => Ret st
  | sf :: rest =>
      if ignored sf then scan dup findex (S i) rest st
      else
        props ← getFieldProps sf;
        if p_Skip props then scan dup findex (S i) rest st
        else
          let '(fields, next, nextCount) := st in
          let index := findex ++ [i] in
          let ft := deref (sf_Type sf) in
          let record :=
            let fd := {| fd_props := props; fd_Type := ft; fd_index := index |} in
            (fields ++ fd :: (if dup then [fd] else []), next, nextCount) in
          let st :=
            if (p_Name props != "") || negb (sf_Anonymous sf) then record
            else match ft with
                 | TStruct n =>
                     let c := S (default 0 (nextCount !! n)) in
                     (fields, (if c =? 1 then next ++ [(index, n)] else next), <[n := c]> nextCount)
                 | _ => record
                 end in
          scan dup findex (S i) rest st
  end.

(** One level. *)
Fixpoint level (count : gmap string nat) (current : list pending) (visited : gset string) (st : scan_state)
    : outcome (gset string * scan_state) :=
  match current with
  | [] => Ret (visited, st)
  | (findex, n) :: rest =>
      if bool_decide (n ∈ visited) then level count rest visited st
      else
        st ← scan (1 <? default 0 (count !! n)) findex 0 (default [] (types !! n)) st;
        level count rest ({[n]} ∪ visited) st
  end.

(** The levels, at most [fuel] of them; [None] when that is not enough. *)
Fixpoint levels (fuel : nat) (next : list pending) (nextCount : gmap string nat) (visited : gset string)
    (fields : list (field Float)) : option (outcome (list (field Float))) :=
  match next with
  | [] => Some (Ret fields)
  | _ =>
      match fuel with
      | O => None
      | S fuel =>
          match level nextCount next visited (fields, [], ∅) with
          | Panic msg => Some (Panic msg)
          | Ret (visited, (fields, next, nextCount)) => levels fuel next nextCount visited fields
          end
      end
  end.

(** nameIndex: duplicate keys panic. *)
Fixpoint index_names (fields : list (field Float)) (i : nat) (nameIndex : gmap string nat) : outcome (gmap string nat) :=
  match fields with
  | [] => Ret nameIndex
  | f :: rest =>
      match nameIndex !! p_Key (fd_props f) with
      | Some _ => Panic ("duplicate field " +:+ p_Key (fd_props f))
      | None => index_names rest (S i) (<[p_Key (fd_props f) := i]> nameIndex)
      end
  end.

Record structFields := { sfs_list : list (field Float); sfs_nameIndex : gmap string nat }.

(** Each level but the last visits a struct type that was not visited before. *)
Definition typeFields_fuel : nat := S (S (size types)).

Definition typeFields (name : string) : option (outcome structFields) :=
  match levels typeFields_fuel [([], name)] ∅ ∅ [] with
  | None => None
  | Some r =>
      Some (fields ← r;
            nameIndex ← index_names fields 0 ∅;
            Ret {| sfs_list := fields; sfs_nameIndex := nameIndex |})
  end.
End walk.
Arguments structFields : clear implicits.

(** The type at the end of a path: pointers to structs on the way are followed. *)
Fixpoint path_type (types : gmap string (list StructField)) (t : rtype) (index : list nat) : option rtype :=
  match index with
  | [] => Some t
  | i :: rest =>
      match deref t with
      | TStruct n => fs ← types !! n; sf ← (fs : list StructField) !! i; path_type types (sf_Type sf) rest
      | _ => None
      end
  end.

(** ** The walk terminates *)

Section walk_theorems.
Context {Float : Type} (types : gmap string (list StructField)) (getFieldProps : StructField → outcome (fieldProps Float)).
Abbreviation scan := (scan getFieldProps).
Abbreviation level := (level types getFieldProps).
Abbreviation levels := (levels types getFieldProps).

(** Case analysis of a scan, for an invariant of its state. *)
Lemma scan_ind (P : nat → list (field Float) * list (list nat * string) * gmap string nat → Prop) (dup : bool) (p : list nat) (sfs : list StructField) :
  (∀ i sf st, sfs !! i = Some sf → P i st → P (S i) st) →
  (∀ i sf props fields next cnt, sfs !! i = Some sf → P i (fields, next, cnt) → getFieldProps sf = Ret props → p_Skip props = false →
     (p_Name props ≠ "" ∨ sf_Anonymous sf = false ∨ is_struct (deref (sf_Type sf)) = false) →
     let fd := {| fd_props := props; fd_Type := deref (sf_Type sf); fd_index := p ++ [i] |} in
     P (S i) (fields ++ fd :: (if dup then [fd] else []), next, cnt)) →
  (∀ i sf n fields next cnt cnt', sfs !! i = Some sf → P i (fields, next, cnt) → deref (sf_Type sf) = TStruct n → sf_Anonymous sf = true →
     P (S i) (fields, next ++ [(p ++ [i], n)], cnt')) →
  (∀ i fields next cnt cnt', P i (fields, next, cnt) → P i (fields, next, cnt')) →
  ∀ i st st', P i st → scan dup p i (drop i sfs) st = Ret st' → P (i + length (drop i sfs)) st'.
Proof.
  intros Hskip Hrec Hnext Hcnt.
  enough (∀ l i st st', l = drop i sfs → P i st → scan dup p i l st = Ret st' → P (i + length l) st') as Hgen by (intros; by eapply Hgen).
  induction l as [|sf l IH]; intros i st st' Hl HP; cbn; [intros [= <-]; by rewrite Nat.add_0_r|].
  assert (sfs !! i = Some sf) as Hi.
  { rewrite <-(Nat.add_0_r i), <-lookup_drop, <-Hl. done. }
  assert (l = drop (S i) sfs) as Hl' by (rewrite (drop_S _ _ _ Hi) in Hl; by simplify_eq).
  rewrite <-Nat.add_succ_comm. destruct (ignored sf); [apply IH; [done|by eapply Hskip]|].
  destruct (getFieldProps sf) as [props|] eqn:Hp; [|done]. cbn.
  destruct (p_Skip props) eqn:Hs; [apply IH; [done|by eapply Hskip]|].
  destruct st as [[fields next] cnt].
  set (record := (fields ++ _, next, cnt)).
  assert (p_Name props ≠ "" ∨ sf_Anonymous sf = false ∨ is_struct (deref (sf_Type sf)) = false → P (S i) record) as Hr.
  { intros Hc. by apply (Hrec i sf props fields next cnt). }
  destruct (decide (p_Name props = "")) as [Hn|Hn]; [rewrite (bool_decide_true _ Hn)|rewrite (bool_decide_false _ Hn); apply IH; auto].
  destruct (sf_Anonymous sf) eqn:Ha; [cbn|cbn; apply IH; auto].
  destruct (deref (sf_Type sf)) as [k|n|e] eqn:Hd; [apply IH; auto| |apply IH; auto].
  destruct (default 0 (cnt !! n)); (apply IH; [done|]); [by eapply Hnext|by eapply Hcnt, Hskip].
Qed.

Lemma scan_next dup p sfs st st' :
  scan dup p 0 sfs st = Ret st' → sfs = [] → st'.1.2 = st.1.2.
Proof. intros Hs ->. cbn in Hs. by simplify_eq. Qed.

Lemma level_visits count current visited st visited' st' :
  level count current visited st = Ret (visited', st') →
  visited ⊆ visited' ∧ (st'.1.2 = st.1.2 ∨ ∃ n, n ∈ dom types ∧ n ∈ visited' ∧ n ∉ visited).
Proof.
  revert visited st. induction current as [|[p n] current IH]; intros visited st; cbn; [intros [= <- <-]; auto|].
  destruct (decide (n ∈ visited)) as [Hn|Hn]; [rewrite bool_decide_true by done; apply IH|rewrite bool_decide_false by done].
  destruct (scan _ p 0 _ st) as [st1|] eqn:Hs; [|done]. cbn. intros Hl. apply IH in Hl as [Hsub Hl].
  split; [set_solver|]. destruct Hl as [Hl|(m & ? & ? & ?)]; [|right; exists m; set_solver].
  destruct (types !! n) as [fs|] eqn:Ht; [right; exists n; split; [by apply elem_of_dom_2 in Ht|set_solver]|].
  left. rewrite Hl. by eapply scan_next.
Qed.

Lemma levels_total fuel next cnt visited fields :
  size (dom types ∖ visited) < fuel → is_Some (levels fuel next cnt visited fields).
Proof.
  revert next cnt visited fields. induction fuel as [|fuel IH]; intros next cnt visited fields Hf; [lia|].
  destruct next as [|x next]; [by eexists|]. cbn [StructFields.levels].
  destruct (level cnt (x :: next) visited (fields, [], ∅)) as [[visited' [[fields' next'] cnt']]|] eqn:Hl; [|by eexists].
  apply level_visits in Hl as [Hsub [Hn|(n & Hd & Hv & Hnv)]]; cbn in *.
  - subst next'. destruct fuel; by eexists.
  - apply IH. assert (dom types ∖ visited' ⊂ dom types ∖ visited) as Hlt by set_solver.
    apply subset_size in Hlt. lia.
Qed.

(** C25: listing the fields of a struct type ends, also when types embed each other in a
    cycle (through pointers): the walk returns, or panics on a bad tag or a duplicate
    key. *)
Theorem typeFields_terminates name : is_Some (typeFields types getFieldProps name).
Proof.
  unfold typeFields. destruct (levels_total (typeFields_fuel types) [([], name)] ∅ ∅ []) as [r ->]; [|by eexists].
  unfold typeFields_fuel. rewrite difference_empty_L, size_dom. lia.
Qed.
End walk_theorems.

(** ** The paths of the fields *)

Section paths.
Context {Float : Type} (types : gmap string (list StructField)) (getFieldProps : StructField → outcome (fieldProps Float)).
Context (root : string).
Abbreviation ptype := (path_type types (TStruct root)).

(** No path leads through another one. *)
Definition antichain (l : list (list nat)) : Prop := NoDup l ∧ ∀ p q, p ∈ l → q ∈ l → p `prefix_of` q → p = q.

Lemma path_type_app t p q : path_type types t (p ++ q) = t' ← path_type types t p; path_type types t' q.
Proof.
  revert t. induction p as [|i p IH]; intros t; cbn; [done|]. destruct (deref t) as [|n|]; [done| |done].
  destruct (types !! n) as [fs|]; [|done]. cbn. destruct (fs !! i) as [sf|]; [|done]. cbn. apply IH.
Qed.

Definition field_at (f : field Float) : Prop :=
  fd_index f ≠ [] ∧ ∃ sf n p i, fd_index f = p ++ [i] ∧ (∃ t, ptype p = Some t ∧ deref t = TStruct n) ∧
    types !! n ≫= (λ fs : list StructField, fs !! i) = Some sf ∧ fd_Type f = deref (sf_Type sf) ∧
    getFieldProps sf = Ret (fd_props f) ∧ p_Skip (fd_props f) = false ∧
    (p_Name (fd_props f) ≠ "" ∨ sf_Anonymous sf = false ∨ is_struct (fd_Type f) = false).
Definition pending_at (x : list nat * string) : Prop := ∃ t, ptype x.1 = Some t ∧ deref t = TStruct x.2.

(** The invariant: every field and pending struct is at its path, and unless some key
    was recorded twice the paths of fields and pending structs form an antichain. *)
Definition keys (fields : list (field Float)) : list string := p_Key ∘ fd_props <$> fields.
Definition walk_ok (fields : list (field Float)) (pend : list (list nat * string)) : Prop :=
  Forall field_at fields ∧ Forall pending_at pend ∧
  (NoDup (keys fields) → antichain ((fd_index <$> fields) ++ pend.*1)).

Lemma antichain_perm l l' : l ≡ₚ l' → antichain l → antichain l'.
Proof. intros Hp [Hn Ha]. split; [by rewrite <-Hp|]. intros p q. rewrite <-Hp. apply Ha. Qed.

Lemma antichain_sub l l' : sublist l l' → antichain l' → antichain l.
Proof.
  intros Hs [Hn Ha]. split; [by eapply sublist_NoDup|]. intros p q Hp Hq. apply Ha; eapply elem_of_submseteq; try done; by apply sublist_submseteq.
Qed.

Lemma walk_ok_skip fields x rest : walk_ok fields (x :: rest) → walk_ok fields rest.
Proof.
  intros (Hf & Hp & Ha). apply Forall_cons in Hp as [_ Hp]. split_and!; [done..|]. intros Hn.
  eapply antichain_sub; [|by apply Ha]. cbn. apply sublist_app; [done|]. by constructor.
Qed.

(** What a scan of the struct at [p] maintains at its [i]th field: the paths found are
    not related to [p], or are earlier fields of the struct. *)
Definition scan_ok (p : list nat) (rest : list (list nat * string)) (i : nat)
    (st : list (field Float) * list (list nat * string) * gmap string nat) : Prop :=
  let '(fields, next, _) := st in
  Forall field_at fields ∧ Forall pending_at (next ++ rest) ∧
  (NoDup (keys fields) →
   let paths := (fd_index <$> fields) ++ (next ++ rest).*1 in
   antichain paths ∧ ∀ q, q ∈ paths → (¬ q `prefix_of` p ∧ ¬ p `prefix_of` q) ∨ ∃ j, j < i ∧ q = p ++ [j]).

Definition related (p : list nat) (i : nat) (paths : list (list nat)) : Prop :=
  ∀ q, q ∈ paths → (¬ q `prefix_of` p ∧ ¬ p `prefix_of` q) ∨ ∃ j, j < i ∧ q = p ++ [j].

Lemma related_fresh p i paths q :
  related p i paths → q ∈ paths → ¬ q `prefix_of` p ++ [i] ∧ ¬ p ++ [i] `prefix_of` q.
Proof.
  intros Hr Hq. destruct (Hr q Hq) as [[H1 H2]|(j & Hj & ->)].
  - split; [|by intros ?%prefix_app_l]. intros Hp.
    destruct (prefix_weak_total q p (p ++ [i]) Hp) as [|]; [by apply prefix_app_r|done..].
  - split; intros Hp%prefix_app_inv; apply prefix_cons_inv_1 in Hp; lia.
Qed.

Lemma antichain_add p i paths paths' :
  paths' ≡ₚ (p ++ [i]) :: paths → antichain paths ∧ related p i paths → antichain paths' ∧ related p (S i) paths'.
Proof.
  intros Hp [[Hn Ha] Hr]. split.
  - eapply antichain_perm; [by symmetry|]. split.
    + constructor; [|done]. intros Hin. destruct (related_fresh p i paths _ Hr Hin) as [Hx _]. by apply Hx.
    + intros a b [->|Hia]%elem_of_cons [->|Hib]%elem_of_cons Hab; [done| | |by apply Ha].
      * by destruct (related_fresh p i paths _ Hr Hib) as [_ []].
      * by destruct (related_fresh p i paths _ Hr Hia) as [[] _].
  - intros q. rewrite Hp. intros [->|Hin]%elem_of_cons; [right; exists i; split; [lia|done]|].
    destruct (Hr q Hin) as [?|(j & ? & ->)]; [by left|right; exists j; split; [lia|done]].
Qed.

Lemma related_S p i paths : related p i paths → related p (S i) paths.
Proof. intros Hr q Hq. destruct (Hr q Hq) as [?|(j & ? & ->)]; [by left|right; exists j; split; [lia|done]]. Qed.

Lemma scan_walk_ok dup p n rest fields next cnt fields' next' cnt' :
  walk_ok fields ((p, n) :: next ++ rest) →
  scan getFieldProps dup p 0 (default [] (types !! n)) (fields, next, cnt) = Ret (fields', next', cnt') →
  walk_ok fields' (next' ++ rest).
Proof.
  intros (Hf & [Hpn Hp]%Forall_cons & Ha) Hs.
  assert (∀ i sf, default [] (types !! n) !! i = Some sf → types !! n ≫= (λ fs : list StructField, fs !! i) = Some sf) as Hlook.
  { intros i sf. by destruct (types !! n). }
  pose proof (scan_ind getFieldProps (λ i st, scan_ok p rest i st) dup p (default [] (types !! n))) as Hind.
  assert (scan_ok p rest (0 + length (drop 0 (default [] (types !! n)))) (fields', next', cnt')) as (Hf' & Hp' & Ha').
  { apply (Hind) with (st := (fields, next, cnt)); [| | | | |by rewrite drop_0].
    - intros i sf [[fs nx] c] _ (H1 & H2 & H3). split_and!; [done..|]. intros Hn.
      destruct (H3 Hn) as [? ?]. split; [done|by apply related_S].
    - intros i sf props fs nx c Hi (H1 & H2 & H3) Hprops Hskip Hname. cbn.
      assert (field_at {| fd_props := props; fd_Type := deref (sf_Type sf); fd_index := p ++ [i] |}) as Hfd.
      { split; [by destruct p|]. exists sf, n, p, i. split_and!; try done. by apply Hlook. }
      split_and!; [|done|].
      + apply Forall_app. split; [done|]. apply Forall_cons; split; [done|]. destruct dup; [by apply Forall_singleton|apply Forall_nil_2].
      + unfold keys. rewrite fmap_app. cbn. intros Hn. destruct dup.
        { apply NoDup_app in Hn as (_ & _ & Hn). inversion Hn as [|?? Hx]. destruct Hx. by left. }
        apply NoDup_app in Hn as (Hn & _). eapply antichain_add; [|by apply H3].
        rewrite fmap_app. cbn. rewrite <-app_assoc. cbn. by rewrite Permutation_middle.
    - intros i sf m fs nx c c' Hi (H1 & H2 & H3) Hm _. cbn. split_and!; [done| |].
      + rewrite <-app_assoc. apply Forall_app in H2 as [??]. apply Forall_app. split; [done|]. constructor; [|done].
        destruct Hpn as (t & Ht & Hd). exists (sf_Type sf). split; [|done]. cbn in *. rewrite path_type_app, Ht. cbn. rewrite Hd.
        specialize (Hlook i sf Hi). destruct (types !! n) as [l|]; [|done]. cbn in *. by rewrite Hlook.
      + intros Hn. eapply antichain_add; [|by apply H3]. rewrite !fmap_app. cbn. rewrite <-!app_assoc. cbn.
        by rewrite <-!Permutation_middle.
    - done.
    - split_and!; [done..|]. intros Hn. destruct (Ha Hn) as [Hnd Hpre]. split.
      + eapply antichain_sub; [|by split]. apply sublist_app; [done|]. cbn. by constructor.
      + intros q Hq. left. cbn in *. rewrite <-Permutation_middle in Hnd. apply NoDup_cons in Hnd as [Hni _].
        assert (q ≠ p) as Hne by (intros ->; done).
        split; intros Hx; apply Hne; [|symmetry]; apply Hpre; try done;
          rewrite <-Permutation_middle; (by left) || (right; done). }
  split_and!; [done..|]. intros Hn. by apply Ha'.
Qed.

Lemma level_walk_ok count current visited fields next cnt visited' fields' next' cnt' :
  walk_ok fields (current ++ next) →
  level types getFieldProps count current visited (fields, next, cnt) = Ret (visited', (fields', next', cnt')) →
  walk_ok fields' next'.
Proof.
  revert visited fields next cnt. induction current as [|[p n] current IH]; intros visited fields next cnt Hok; cbn.
  { intros [= <- <- <- <-]. done. }
  destruct (bool_decide (n ∈ visited)); [apply IH; by eapply walk_ok_skip|].
  destruct (scan getFieldProps _ p 0 _ _) as [[[fields1 next1] cnt1]|] eqn:Hs; [|done]. cbn. apply IH.
  assert (∀ fs a b, walk_ok fs (a ++ b) → walk_ok fs (b ++ a)) as Hcomm.
  { intros fs a b (H1 & H2 & H3). split_and!; [done|by rewrite Permutation_app_comm|]. intros Hn.
    eapply antichain_perm; [|by apply H3]. by rewrite !fmap_app, (Permutation_app_comm a.*1). }
  apply Hcomm. eapply scan_walk_ok; [|exact Hs].
  destruct Hok as (H1 & H2 & H3). split_and!; [done| |].
  - cbn in H2. by rewrite (Permutation_app_comm next).
  - intros Hn. eapply antichain_perm; [|by apply H3]. cbn. by rewrite !fmap_app, (Permutation_app_comm next.*1).
Qed.

Lemma levels_walk_ok fuel next cnt visited fields fields' :
  walk_ok fields next → levels types getFieldProps fuel next cnt visited fields = Some (Ret fields') → walk_ok fields' [].
Proof.
  revert next cnt visited fields. induction fuel as [|fuel IH]; intros [|x next] cnt visited fields Hok; cbn [levels];
    [by intros [= <-]|done|by intros [= <-]|].
  destruct (level types getFieldProps cnt (x :: next) visited _) as [[visited1 [[fields1 next1] cnt1]]|] eqn:Hl; [|done].
  apply IH. eapply level_walk_ok; [|exact Hl]. by rewrite app_nil_r.
Qed.

Lemma index_names_NoDup fields i m m' :
  index_names fields i m = Ret m' → NoDup (keys fields) ∧ ∀ k, k ∈ keys fields → m !! k = None.
Proof.
  revert i m. induction fields as [|f fields IH]; intros i m; cbn; [intros _; split; [constructor|by intros k ?%elem_of_nil]|].
  destruct (m !! p_Key (fd_props f)) eqn:Hm; [done|]. intros [Hn Hk]%IH. split.
  - constructor; [|done]. intros Hin. apply Hk in Hin. cbn in Hin. by rewrite lookup_insert_eq in Hin.
  - intros k [->|Hin]%elem_of_cons; [done|]. apply Hk in Hin. by apply lookup_insert_None in Hin as [? _].
Qed.

(** The fields that are listed have different keys; each is reached from the root type
    by its path, has the type found there (a pointer followed) and the properties of
    its tags; and no path is a prefix of another, so that writing one field does not
    overwrite another. *)
Lemma typeFields_paths r :
  typeFields types getFieldProps root = Some (Ret r) →
  Forall field_at (sfs_list r) ∧ NoDup (keys (sfs_list r)) ∧ antichain (fd_index <$> sfs_list r).
Proof.
  unfold typeFields. destruct (levels types getFieldProps _ _ _ _ _) as [[fields|]|] eqn:Hl; [|done..]. cbn.
  destruct (index_names fields 0 ∅) as [m|] eqn:Hi; [|done]. cbn. intros [= <-]. cbn.
  apply index_names_NoDup in Hi as [Hn _].
  assert (walk_ok fields []) as (Hf & _ & Ha).
  { eapply levels_walk_ok; [|exact Hl]. split_and!; [constructor|constructor; [by exists (TStruct root)|constructor]|].
    intros _. split; [cbn; apply NoDup_singleton|]. cbn. intros p q ->%list_elem_of_singleton ->%list_elem_of_singleton. done. }
  specialize (Ha Hn). rewrite app_nil_r in Ha. done.
Qed.
End paths.

(** ** Values *)

Section rvalue_eq.
Context {Leaf : Type} `{EqDecision Leaf}.
Fixpoint rvalue_eqb (v w : rvalue Leaf) : bool :=
  match v, w with
  | VLeaf a, VLeaf b => a == b
  | VPtr None, VPtr None => true
  | VPtr (Some a), VPtr (Some b) => rvalue_eqb a b
  | VStruct l, VStruct k =>
      (fix go l k := match l, k with [], [] => true | a :: l, b :: k => rvalue_eqb a b && go l k | _, _ => false end) l k
  | _, _ => false
  end.

Lemma rvalue_ind' (P : rvalue Leaf → Prop) :
  (∀ l, P (VLeaf l)) → (∀ l, Forall P l → P (VStruct l)) → P (VPtr None) → (∀ v, P v → P (VPtr (Some v))) → ∀ v, P v.
Proof.
  intros Hl Hs Hn Hp. fix IH 1. intros [l|l|[v|]]; [apply Hl| |apply Hp, IH|apply Hn].
  apply Hs. induction l as [|v l IHl]; constructor; [apply IH|apply IHl].
Qed.

Lemma rvalue_eqb_eq v w : rvalue_eqb v w = true ↔ v = w.
Proof.
  revert w. induction v as [a|l IH| |v IH] using rvalue_ind'; intros [b|k|[w|]]; cbn; try (split; [done|by intros [=]]).
  - rewrite bool_decide_eq_true. split; congruence.
  - revert k. induction IH as [|v l Hv _ IHl]; intros [|w k]; try (split; [done|by intros [=]]).
    rewrite andb_true_iff, Hv, IHl. split; [by intros [-> [= ->]]|by intros [= -> ->]].
  - rewrite IH. split; congruence.
Qed.

#[global] Instance rvalue_eq_dec : EqDecision (rvalue Leaf).
Proof.
  intros v w. destruct (rvalue_eqb v w) eqn:He; [left; by apply rvalue_eqb_eq|].
  right. intros Heq. apply rvalue_eqb_eq in Heq. congruence.
Defined.
End rvalue_eq.

Section values.
Context {Leaf : Type} `{EqDecision Leaf}.
Context (types : gmap string (list StructField)) (zero_leaf : string → Leaf).
Abbreviation rvalue := (rvalue Leaf).

(** The zero value of a type; struct types nest by value at most [n] deep. *)
Fixpoint zero_fuel (n : nat) (t : rtype) : rvalue :=
  match t with
  | TBase k => VLeaf (zero_leaf k)
  | TPtr _ => VPtr None
  | TStruct name =>
      match n with
      | O => VStruct []
      | S n => VStruct (zero_fuel n ∘ sf_Type <$> default [] (types !! name))
      end
  end.

(** A struct type that contains itself by value does not compile, so the nesting is
    bounded by the number of struct types. *)
Definition zero (t : rtype) : rvalue := zero_fuel (S (size types)) t.

(** The fields of a struct, or of the struct a pointer points to. *)
Definition enter (v : rvalue) : option (list rvalue) :=
  match v with VStruct vs => Some vs | VPtr (Some (VStruct vs)) => Some vs | _ => None end.
Definition leave (v : rvalue) (vs : list rvalue) : rvalue :=
  match v with VPtr _ => VPtr (Some (VStruct vs)) | _ => VStruct vs end.

Definition type_String (t : rtype) : string := match t with TBase n | TStruct n => n | TPtr _ => "*" end.

(** getSubv: the value with the embedded pointers that were created on the way, and the
    type and value at the path; [ro] when the value was reached through an unexported
    field, so that it cannot be set. *)
Fixpoint getSubv (allowCreate : bool) (ro : bool) (t : rtype) (v : rvalue) (index : list nat)
    : outcome (rvalue * (rtype * rvalue + error)) :=
  match index with
  | [] => Ret (v, inl (t, v))
  | i :: rest =>
      let Field (v : rvalue) :=
        match enter v, deref t with
        | Some vs, TStruct n =>
            match vs !! i, default [] (types !! n) !! i with
            | Some x, Some sf =>
                r ← getSubv allowCreate (negb (sf_Exported sf)) (sf_Type sf) x rest;
                Ret (leave v (<[i := r.1]> vs), r.2)
            | _, _ => Panic "reflect: Field index out of range"
            end
        | _, _ => Panic "reflect: call of reflect.Value.Field on non-struct value"
        end in
      match v with
      | VPtr None =>
          if negb allowCreate then Ret (v, inr (Errorf "struct %v is nil" [type_String (deref t)]))
          else if ro then Ret (v, inr (Errorf "getSubv: cannot set embedded pointer to unexported struct: %v" [type_String (deref t)]))
          else Field (VPtr (Some (zero (deref t))))
      | _ => Field v
      end
  end.

(** Storing a value at a path without nil pointers. *)
Fixpoint setSubv (v : rvalue) (index : list nat) (x : rvalue) : rvalue :=
  match index with
  | [] => x
  | i :: rest =>
      match enter v with
      | Some vs => leave v (alter (λ y, setSubv y rest x) i vs)
      | None => v
      end
  end.

(** What is read at a path when nil pointers stand for zero values. *)
Fixpoint peek (t : rtype) (v : rvalue) (index : list nat) : rvalue :=
  match index with
  | [] => v
  | i :: rest =>
      match enter (match v with VPtr None => zero (deref t) | _ => v end), deref t with
      | Some vs, TStruct n =>
          match vs !! i, default [] (types !! n) !! i with
          | Some x, Some sf => peek (sf_Type sf) x rest
          | _, _ => v
          end
      | _, _ => v
      end
  end.

(** Paths along which no pointer has to be set through an unexported field. *)
Fixpoint settable (t : rtype) (ro : bool) (index : list nat) : bool :=
  match index with
  | [] => true
  | i :: rest =>
      negb (ro && match t with TPtr _ => true | _ => false end) &&
      match deref t with
      | TStruct n => match default [] (types !! n) !! i with Some sf => settable (sf_Type sf) (negb (sf_Exported sf)) rest | None => false end
      | _ => false
      end
  end.

(** Values of a type. *)
Fixpoint has_type (v : rvalue) (t : rtype) : Prop :=
  match v, t with
  | VLeaf _, TBase _ => True
  | VPtr None, TPtr _ => True
  | VPtr (Some v), TPtr t => has_type v t
  | VStruct vs, TStruct n =>
      (fix go (vs : list rvalue) (fs : list StructField) :=
         match vs, fs with [], [] => True | v :: vs, f :: fs => has_type v (sf_Type f) ∧ go vs fs | _, _ => False end)
        vs (default [] (types !! n))
  | _, _ => False
  end.

(** No nil pointer on the path. *)
Fixpoint reaches (v : rvalue) (index : list nat) : Prop :=
  match index with
  | [] => True
  | i :: rest => match enter v ≫= (λ vs : list rvalue, vs !! i) with Some x => reaches x rest | None => False end
  end.

Lemma has_type_struct vs n :
  has_type (VStruct vs) (TStruct n) ↔ Forall2 (λ v f, has_type v (sf_Type f)) vs (default [] (types !! n)).
Proof.
  cbn. generalize (default [] (types !! n)) as fs. induction vs as [|v vs IH]; intros [|f fs]; cbn.
  - split; [constructor|done].
  - split; [done|inversion 1].
  - split; [done|inversion 1].
  - rewrite Forall2_cons, IH. done.
Qed.

(** Struct types are laid out: the zero value of a struct has the zero values of its
    fields. *)
Definition laid_out : Prop :=
  ∀ n, zero (TStruct n) = VStruct (zero ∘ sf_Type <$> default [] (types !! n)).

Context (Hzero : laid_out).

(** What a path's first step sees. *)
Definition step_into (v : rvalue) (t : rtype) (n : string) (vs : list rvalue) : Prop :=
  deref t = TStruct n ∧ enter v = Some vs ∧ Forall2 (λ v f, has_type v (sf_Type f)) vs (default [] (types !! n)) ∧
  ∀ vs', Forall2 (λ v f, has_type v (sf_Type f)) vs' (default [] (types !! n)) → has_type (leave v vs') t ∧ enter (leave v vs') = Some vs'.

Lemma has_type_enter v t n :
  has_type v t → deref t = TStruct n → v = VPtr None ∨ ∃ vs, step_into v t n vs.
Proof.
  destruct v as [l|vs|[v|]], t as [k|m|t]; try done; cbn [deref]; intros Ht Hd.
  - right. exists vs. injection Hd as ->. split_and!; [done..|by apply has_type_struct|]. intros vs' Hvs'. split; [by apply has_type_struct|done].
  - subst t. destruct v as [l|vs|[v|]]; try done. right. exists vs.
    split_and!; [done..|by apply has_type_struct|]. intros vs' Hvs'. split; [by apply has_type_struct|done].
  - by left.
Qed.

Lemma zero_typed t : has_type (zero t) t.
Proof.
  enough (∀ v t, v = zero t → has_type v t) as Hv by (by apply Hv).
  intros v. induction v as [l|l IH| |v IH] using rvalue_ind'; clear t; intros [k|n|t] Hz; try done; try (by rewrite Hzero in Hz).
  rewrite Hzero in Hz. simplify_eq. apply has_type_struct. apply Forall_fmap in IH.
  induction IH as [|f fs Hf _ IHfs]; cbn; constructor; [by apply Hf|done].
Qed.

(** The step into a value with nil pointers read as zero values. *)
Definition opened (t : rtype) (v : rvalue) : rvalue := match v with VPtr None => VPtr (Some (zero (deref t))) | _ => v end.

Lemma opened_step v t n : has_type v t → deref t = TStruct n → ∃ vs, step_into (opened t v) t n vs.
Proof.
  intros Hv Hd. destruct (has_type_enter v t n Hv Hd) as [->|(vs & Hs)].
  - destruct t as [k|m|t]; try done. cbn in Hd. subst t. cbn [opened deref]. rewrite Hzero.
    eexists. split_and!; [done..| |].
    + apply has_type_struct. rewrite <-Hzero. apply zero_typed.
    + intros vs' Hvs'. split; [by apply has_type_struct|done].
  - exists vs. destruct Hs as (H1 & H2 & H3). by destruct v as [| |[]].
Qed.

Lemma peek_cons t v n vs i rest x sf :
  step_into (opened t v) t n vs → vs !! i = Some x → default [] (types !! n) !! i = Some sf →
  peek t v (i :: rest) = peek (sf_Type sf) x rest.
Proof.
  intros (Hd & He & _) Hx Hsf. cbn [peek].
  assert (enter (match v with VPtr None => zero (deref t) | _ => v end) = Some vs) as ->.
  { destruct v as [| |[w|]]; [done..|]. cbn [opened] in He. rewrite Hd, Hzero in He |- *. done. }
  by rewrite Hd, Hx, Hsf.
Qed.

Lemma path_type_cons t i rest t' :
  path_type types t (i :: rest) = Some t' →
  ∃ n sf, deref t = TStruct n ∧ default [] (types !! n) !! i = Some sf ∧ path_type types (sf_Type sf) rest = Some t'.
Proof.
  cbn. destruct (deref t) as [|n|]; [done| |done]. destruct (types !! n) as [fs|] eqn:Hn; [|done]. cbn.
  destruct (fs !! i) as [sf|] eqn:Hi; [|done]. cbn. intros Hp. exists n, sf. by rewrite Hn.
Qed.

Lemma peek_typed t v p t' : has_type v t → path_type types t p = Some t' → has_type (peek t v p) t'.
Proof.
  revert t v. induction p as [|i p IH]; intros t v Hv Hp; [by injection Hp as <-|].
  apply path_type_cons in Hp as (n & sf & Hd & Hsf & Hp). destruct (opened_step v t n Hv Hd) as [vs Hs].
  pose proof Hs as (_ & _ & Hall & _). destruct (Forall2_lookup_r _ _ _ _ _ Hall Hsf) as (x & Hx & Hxt).
  rewrite (peek_cons t v n vs i p x sf Hs Hx Hsf). by apply IH.
Qed.

Lemma peek_zero t p t' : path_type types t p = Some t' → peek t (zero t) p = zero t'.
Proof.
  revert t. induction p as [|i p IH]; intros t Hp; [by injection Hp as <-|].
  apply path_type_cons in Hp as (n & sf & Hd & Hsf & Hp).
  destruct (opened_step (zero t) t n (zero_typed t) Hd) as [vs Hs].
  assert (vs = zero ∘ sf_Type <$> default [] (types !! n)) as ->.
  { destruct Hs as (_ & He & _). destruct t as [k|m|t]; try done.
    - cbn [deref] in Hd. injection Hd as ->. rewrite Hzero in He. cbn in He. by simplify_eq.
    - cbn [deref] in Hd. subst t. change (enter (VPtr (Some (zero (TStruct n)))) = Some vs) in He. rewrite Hzero in He. cbn in He. by simplify_eq. }
  rewrite (peek_cons t (zero t) n _ i p (zero (sf_Type sf)) sf Hs); [by apply IH| |done].
  rewrite list_lookup_fmap, Hsf. done.
Qed.

(** Reading a path without creating anything. *)
Lemma getSubv_read t ro v p t' :
  has_type v t → path_type types t p = Some t' →
  ∃ r, getSubv false ro t v p = Ret (v, r) ∧
    match r with inl (t'', x) => t'' = t' ∧ x = peek t v p | inr _ => peek t v p = zero t' end.
Proof.
  revert t ro v. induction p as [|i p IH]; intros t ro v Hv Hp; [injection Hp as <-; by eexists|].
  pose proof Hp as Hpt. apply path_type_cons in Hp as (n & sf & Hd & Hsf & Hp).
  destruct (has_type_enter v t n Hv Hd) as [->|(vs & Hs)].
  { cbn. eexists. split; [done|]. cbn. destruct t as [k|m|t]; try done. apply (peek_zero (TPtr t) (i :: p) t' Hpt). }
  assert (opened t v = v) as Ho by (destruct Hs as (_ & He & _); by destruct v as [| |[]]).
  pose proof Hs as (_ & He & Hall & _). destruct (Forall2_lookup_r _ _ _ _ _ Hall Hsf) as (x & Hx & Hxt).
  destruct (IH (sf_Type sf) (negb (sf_Exported sf)) x Hxt Hp) as (r & Hr & Hres).
  rewrite (peek_cons t v n vs i p x sf) by (rewrite ?Ho; done).
  exists r. split; [|done]. cbn. rewrite He, Hd, Hx, Hsf, Hr. cbn.
  rewrite list_insert_id by done. destruct v as [| |[w|]]; cbn in He; simplify_eq; [done|by destruct w; simplify_eq].
Qed.

Lemma step_into_leave v t n vs vs' :
  step_into v t n vs → Forall2 (λ v f, has_type v (sf_Type f)) vs' (default [] (types !! n)) → step_into (opened t (leave v vs')) t n vs'.
Proof.
  intros (Hd & He & _ & Hl) Hvs'. replace (opened t (leave v vs')) with (leave v vs') by (by destruct v).
  split_and!; [done|by apply Hl|done|]. intros vs'' Hvs''. replace (leave (leave v vs') vs'') with (leave v vs'') by (by destruct v).
  by apply Hl.
Qed.

Lemma not_nil_opened v t n vs : step_into v t n vs → opened t v = v.
Proof. intros (_ & He & _). by destruct v as [| |[]]. Qed.

(** Reading a path and creating the embedded structs on the way: the value at the path,
    and no other path reads differently afterwards. *)
Lemma getSubv_create t ro v p t' :
  has_type v t → path_type types t p = Some t' → settable t ro p = true →
  ∃ v', getSubv true ro t v p = Ret (v', inl (t', peek t v p)) ∧ has_type v' t ∧ reaches v' p ∧
    ∀ q t'', path_type types t q = Some t'' → q = p ∨ ¬ q `prefix_of` p → peek t v' q = peek t v q.
Proof.
  revert t ro v. induction p as [|i p IH]; intros t ro v Hv Hp Hset; [injection Hp as <-; by exists v|].
  apply path_type_cons in Hp as (n & sf & Hd & Hsf & Hp). destruct (opened_step v t n Hv Hd) as [vs Hs].
  pose proof Hs as (_ & He & Hall & Hleave). destruct (Forall2_lookup_r _ _ _ _ _ Hall Hsf) as (x & Hx & Hxt).
  cbn [settable] in Hset. rewrite Hd, Hsf in Hset. apply andb_true_iff in Hset as [Hro Hset].
  destruct (IH (sf_Type sf) _ x Hxt Hp Hset) as (x' & Hget & Hxt' & Hreach & Hpeek).
  assert (Forall2 (λ v f, has_type v (sf_Type f)) (<[i := x']> vs) (default [] (types !! n))) as Hall'.
  { rewrite <-(list_insert_id (default [] (types !! n)) i sf) by done. by apply Forall2_insert. }
  assert (i < length vs) as Hlt by (by eapply lookup_lt_Some).
  exists (leave (opened t v) (<[i := x']> vs)). destruct (Hleave _ Hall') as [Ht' He']. split_and!; [|done| |].
  - assert (getSubv true ro t v (i :: p) = getSubv true false t (opened t v) (i :: p)) as ->.
    { destruct v as [| |[w|]]; [done..|]. destruct t as [k|m|t]; [done..|]. cbn in Hro |- *. by destruct ro. }
    rewrite (peek_cons t v n vs i p x sf Hs Hx Hsf). cbn [getSubv].
    destruct (opened t v) as [| |[w|]] eqn:Ho; cbn [negb]; try (rewrite He, Hd, Hx, Hsf, Hget; done). by destruct v as [| |[]].
  - cbn. rewrite He'. cbn. by rewrite list_lookup_insert_eq.
  - intros [|j q] t'' Hq Hne; [destruct Hne as [|[]]; [done|apply prefix_nil]|].
    apply path_type_cons in Hq as (n' & sf' & Hd' & Hsf' & Hq). rewrite Hd in Hd'. injection Hd' as <-.
    destruct (Forall2_lookup_r _ _ _ _ _ Hall Hsf') as (y & Hy & Hyt).
    pose proof (step_into_leave _ _ _ _ _ Hs Hall') as Hs'. rewrite (peek_cons t v n vs j q y sf' Hs Hy Hsf').
    destruct (decide (j = i)) as [->|Hji].
    + rewrite Hsf in Hsf'. simplify_eq. rewrite (peek_cons t _ n _ i q x' sf' Hs'); [|by rewrite list_lookup_insert_eq|done].
      eapply Hpeek; [done|]. destruct Hne as [[= ->]|Hne]; [by left|right]. intros ?. by apply Hne, prefix_cons.
    + rewrite (peek_cons t _ n _ j q y sf' Hs'); [done|by rewrite list_lookup_insert_ne|done].
Qed.

(** Storing at a path: the path reads the new value, unrelated paths read as before. *)
Lemma setSubv_spec t v p t' x :
  has_type v t → reaches v p → path_type types t p = Some t' → has_type x t' →
  has_type (setSubv v p x) t ∧ peek t (setSubv v p x) p = x ∧
  ∀ q t'', path_type types t q = Some t'' → ¬ p `prefix_of` q → ¬ q `prefix_of` p → peek t (setSubv v p x) q = peek t v q.
Proof.
  revert t v. induction p as [|i p IH]; intros t v Hv Hr Hp Hx.
  { injection Hp as <-. split_and!; [done..|]. intros q t'' _ []. apply prefix_nil. }
  apply path_type_cons in Hp as (n & sf & Hd & Hsf & Hp).
  destruct (has_type_enter v t n Hv Hd) as [->|(vs & Hs)]; [done|].
  pose proof Hs as (_ & He & Hall & Hleave). destruct (Forall2_lookup_r _ _ _ _ _ Hall Hsf) as (y & Hy & Hyt).
  cbn in Hr. rewrite He in Hr. cbn in Hr. rewrite Hy in Hr.
  destruct (IH (sf_Type sf) y Hyt Hr Hp Hx) as (Ht1 & Hp1 & Hq1).
  set (y' := setSubv y p x) in *.
  assert (setSubv v (i :: p) x = leave v (<[i := y']> vs)) as ->.
  { cbn. rewrite He. f_equal. apply list_eq. intros k. destruct (decide (k = i)) as [->|Hk].
    - rewrite list_lookup_alter_eq, Hy. cbn. rewrite list_lookup_insert_eq; [done|by eapply lookup_lt_Some].
    - by rewrite list_lookup_alter_ne, list_lookup_insert_ne by done. }
  assert (Forall2 (λ v f, has_type v (sf_Type f)) (<[i := y']> vs) (default [] (types !! n))) as Hall'.
  { rewrite <-(list_insert_id (default [] (types !! n)) i sf) by done. by apply Forall2_insert. }
  pose proof (step_into_leave _ _ _ _ _ Hs Hall') as Hs'. destruct (Hleave _ Hall') as [Ht' _].
  assert (i < length vs) as Hlt by (by eapply lookup_lt_Some).
  split_and!; [done| |].
  - rewrite (peek_cons t _ n _ i p y' sf Hs'); [done|by rewrite list_lookup_insert_eq|done].
  - intros [|j q] t'' Hq Hpq Hqp; [destruct Hqp; apply prefix_nil|].
    apply path_type_cons in Hq as (n' & sf' & Hd' & Hsf' & Hq). rewrite Hd in Hd'. injection Hd' as <-.
    destruct (Forall2_lookup_r _ _ _ _ _ Hall Hsf') as (z & Hz & Hzt).
    rewrite (peek_cons t v n vs j q z sf') by (rewrite ?(not_nil_opened v t n vs Hs); done).
    destruct (decide (j = i)) as [->|Hji].
    + rewrite Hsf in Hsf'. injection Hsf' as <-. rewrite Hy in Hz. injection Hz as <-. rewrite (peek_cons t _ n _ i q y' sf Hs'); [|by rewrite list_lookup_insert_eq|done].
      eapply Hq1; [done|..]; intros ?; [apply Hpq|apply Hqp]; by apply prefix_cons.
    + rewrite (peek_cons t _ n _ j q z sf' Hs'); [done|by rewrite list_lookup_insert_ne|done].
Qed.
End values.

(** ** The loops of the codecs *)

Section loops.
Context {Float Leaf : Type} `{EqDecision Leaf}.
Context (types : gmap string (list StructField)) (zero_leaf : string → Leaf).
Abbreviation zero := (zero types zero_leaf).
Abbreviation peek := (peek types zero_leaf).
Abbreviation getSubv := (getSubv types zero_leaf).
Abbreviation ptype := (path_type types).

(** Decoding: every field's value is reached, embedded structs being created, and set. *)
Fixpoint set_fields (set : field Float → rtype → rvalue Leaf → outcome (option error * rvalue Leaf)) (rt : rtype)
    (fields : list (field Float)) (rv : rvalue Leaf) : outcome (option error * rvalue Leaf) :=
  match fields with
  | [] => Ret (None, rv)
  | f :: rest =>
      r ← getSubv true false rt rv (fd_index f);
      match r with
      | (rv, inr err) => Ret (Some err, rv)
      | (rv, inl (t, subv)) =>
          r ← set f t subv;
          let '(err, subv) := r in
          let rv := setSubv rv (fd_index f) subv in
          match err with
          | Some err => Ret (Some err, rv)
          | None => set_fields set rt rest rv
          end
      end
  end.

(** Encoding: fields that cannot be reached or are zero are left out, unless they are
    required; [add] stores the strings of the others.  What was stored before an error
    is returned with it. *)
Fixpoint get_fields {Acc : Type} (GetValue : rtype → rvalue Leaf → list string + error)
    (add : field Float → list string → Acc → outcome (Acc + error)) (rt : rtype) (rv : rvalue Leaf)
    (fields : list (field Float)) (acc : Acc) : outcome (Acc * option error) :=
  match fields with
  | [] => Ret (acc, None)
  | f :: rest =>
      r ← getSubv false false rt rv (fd_index f);
      match (match r.2 with inr _ => None | inl (t, subv) => if subv == zero t then None else Some (t, subv) end) with
      | None =>
          if p_Required (fd_props f) then Ret (acc, Some (Errorf "%v must be set" [p_Key (fd_props f)]))
          else get_fields GetValue add rt rv rest acc
      | Some (t, subv) =>
          match GetValue t subv with
          | inr err => Ret (acc, Some err)
          | inl data =>
              r ← add f data acc;
              match r with
              | inr err => Ret (acc, Some err)
              | inl acc => get_fields GetValue add rt rv rest acc
              end
          end
      end
  end.

Lemma set_fields_spec set rt fields v (want : field Float → rvalue Leaf) :
  laid_out types zero_leaf → has_type types v rt → antichain (fd_index <$> fields) →
  (∀ f, f ∈ fields → ∃ t, ptype rt (fd_index f) = Some t ∧ settable types rt false (fd_index f) = true ∧
     peek rt v (fd_index f) = zero t ∧ has_type types (want f) t ∧ set f t (zero t) = Ret (None, want f)) →
  ∃ v', set_fields set rt fields v = Ret (None, v') ∧ has_type types v' rt ∧
    (∀ f, f ∈ fields → peek rt v' (fd_index f) = want f) ∧
    (∀ q t, ptype rt q = Some t → (∀ f, f ∈ fields → ¬ q `prefix_of` fd_index f ∧ ¬ fd_index f `prefix_of` q) → peek rt v' q = peek rt v q).
Proof.
  intros Hz. revert v. induction fields as [|f fields IH]; intros v Hv Hac Hall; cbn [set_fields].
  { exists v. split_and!; [done..| |done]. by intros f ?%elem_of_nil. }
  destruct (Hall f ltac:(by left)) as (t & Ht & Hset & Hpk & Hwt & Hsf).
  destruct (getSubv_create types zero_leaf Hz rt false v (fd_index f) t Hv Ht Hset) as (v1 & Hget & Hv1 & Hreach & Hpeek1).
  rewrite Hget. cbn [mbind outcome_bind]. rewrite Hpk, Hsf. cbn [mbind outcome_bind].
  destruct (setSubv_spec types zero_leaf Hz rt v1 (fd_index f) t (want f) Hv1 Hreach Ht Hwt) as (Hv2 & Hself & Hframe).
  set (v2 := setSubv v1 (fd_index f) (want f)) in *.
  destruct Hac as [Hnd Hpre]. cbn in Hnd. apply NoDup_cons in Hnd as [Hni Hnd].
  assert (∀ g, g ∈ fields → ¬ fd_index f `prefix_of` fd_index g ∧ ¬ fd_index g `prefix_of` fd_index f) as Hinc.
  { intros g Hg. assert (fd_index g ∈ fd_index <$> fields) as Hgi by (by apply list_elem_of_fmap_2).
    split; intros Hp; apply Hni; [rewrite (Hpre (fd_index f) (fd_index g))|rewrite <-(Hpre (fd_index g) (fd_index f))];
      try done; cbn; first [by left|by right]. }
  assert (∀ q t', ptype rt q = Some t' → ¬ fd_index f `prefix_of` q → ¬ q `prefix_of` fd_index f → peek rt v2 q = peek rt v q) as Hsame.
  { intros q t' Hq H1 H2. rewrite (Hframe q t') by done. eapply Hpeek1; [done|by right]. }
  destruct (IH v2 Hv2) as (v3 & Hdec & Hv3 & Hwant & Hoth).
  { split; [done|]. intros p q Hp Hq. apply Hpre; by right. }
  { intros g Hg. destruct (Hall g ltac:(by right)) as (tg & Htg & Hsg & Hpg & ? & ?). destruct (Hinc g Hg). exists tg.
    split_and!; try done. by rewrite (Hsame _ tg). }
  exists v3. split_and!; [done..| |].
  - intros g [->|Hg]%elem_of_cons; [|by apply Hwant]. rewrite (Hoth _ t Ht); [done|]. intros g Hg. by apply Hinc.
  - intros q tq Hq Hqs. rewrite (Hoth q tq Hq); [|intros g Hg; apply Hqs; by right].
    destruct (Hqs f ltac:(by left)). by eapply Hsame.
Qed.

(** What encoding stores for each field, by the value at its path; [look] reads the
    place of a field, which its slot identifies. *)
Lemma get_fields_spec {Acc Slot : Type} GetValue (add : field Float → list string → Acc → outcome (Acc + error))
    (slot : field Float → Slot) (look : Acc → Slot → option (list string)) (ok : field Float → list string → Prop)
    rt v fields acc acc' :
  (∀ f d acc acc', f ∈ fields → ok f d → look acc (slot f) = None → add f d acc = Ret (inl acc') →
     look acc' (slot f) = Some d ∧ ∀ s, s ≠ slot f → look acc' s = look acc s) →
  has_type types v rt → laid_out types zero_leaf →
  (∀ f, f ∈ fields → is_Some (ptype rt (fd_index f))) → NoDup (slot <$> fields) →
  (∀ f t d, f ∈ fields → ptype rt (fd_index f) = Some t → GetValue t (peek rt v (fd_index f)) = inl d → ok f d) →
  (∀ f, f ∈ fields → look acc (slot f) = None) →
  get_fields GetValue add rt v fields acc = Ret (acc', None) →
  (∀ s, s ∉ slot <$> fields → look acc' s = look acc s) ∧
  ∀ f t, f ∈ fields → ptype rt (fd_index f) = Some t →
    (peek rt v (fd_index f) = zero t ∧ look acc' (slot f) = None ∧ p_Required (fd_props f) = false) ∨
    ∃ d, GetValue t (peek rt v (fd_index f)) = inl d ∧ look acc' (slot f) = Some d.
Proof.
  intros Hadd0 Hv Hz. revert acc Hadd0. induction fields as [|f fields IH]; intros acc Hadd0 Hpaths Hnd Hren Hfree; cbn [get_fields].
  { intros [= <-]. split; [done|]. by intros f t ?%elem_of_nil. }
  destruct (Hpaths f ltac:(by left)) as [t Ht]. apply NoDup_cons in Hnd as [Hni Hnd].
  assert (∀ g, g ∈ fields → is_Some (ptype rt (fd_index g))) as Hpaths' by (intros g Hin; apply Hpaths; by right).
  assert (∀ g tg d, g ∈ fields → ptype rt (fd_index g) = Some tg → GetValue tg (peek rt v (fd_index g)) = inl d → ok g d) as Hren'
    by (intros g tg d Hin; apply Hren; by right).
  specialize (IH acc) as IH0.
  destruct (getSubv_read types zero_leaf Hz rt false v (fd_index f) t Hv Ht) as (r & Hr & Hres). rewrite Hr. cbn [mbind outcome_bind snd].
  set (present := match r with inr _ => None | inl (t, subv) => if subv == zero t then None else Some (t, subv) end).
  assert (present = None ∧ peek rt v (fd_index f) = zero t ∨ present = Some (t, peek rt v (fd_index f))) as Hpres.
  { subst present. destruct r as [[t' x]|err]; [|by left]. destruct Hres as [-> ->]. case_bool_decide; [by left|by right]. }
  clearbody present. clear Hr Hres r IH0. destruct Hpres as [ [-> Hzero] | -> ].
  - destruct (p_Required (fd_props f)) eqn:Hreq; [done|]. intros Henc.
    destruct (IH acc) as [Hother Hf]; try done.
    { intros g d a a' Hin. apply Hadd0. by right. }
    { intros g Hin. apply Hfree. by right. }
    split; [intros s Hs; apply Hother; intros Hx; apply Hs; by right|]. intros g tg [->|Hin]%elem_of_cons Htg; [|by apply Hf].
    left. rewrite Ht in Htg. simplify_eq. split_and!; [done| |done]. rewrite Hother by done. apply Hfree. by left.
  - destruct (GetValue t (peek rt v (fd_index f))) as [d|err] eqn:Hget; [|done].
    assert (ok f d) as Hok by (eapply Hren; [by left|done..]).
    destruct (add f d acc) as [[acc1|err]|msg] eqn:Hadd; [|done..]. cbn [mbind outcome_bind]. intros Henc.
    destruct (Hadd0 f d acc acc1 ltac:(by left) Hok (Hfree f ltac:(by left)) Hadd) as [Hat Hoth].
    destruct (IH acc1) as [Hother Hf]; try done.
    { intros g d' a a' Hin. apply Hadd0. by right. }
    { intros g Hin. rewrite Hoth; [apply Hfree; by right|]. intros Heq. apply Hni. rewrite <-Heq. by apply list_elem_of_fmap_2. }
    split.
    { intros s Hs. rewrite Hother by (intros Hx; apply Hs; by right). apply Hoth. intros ->. apply Hs. by left. }
    intros g tg [->|Hin]%elem_of_cons Htg; [|by apply Hf]. right. rewrite Ht in Htg. simplify_eq. exists d. split; [done|].
    by rewrite Hother.
Qed.
End loops.
