(* ===== verification/ParamCodec.v ===== *)
(** * Request parameters as struct fields

    Models pkg/rest/parametercodec/codec.go and getFieldProps of its structfields.go:
    the fields of a Go struct are encoded as path, query and header parameters of a
    request (by clients), decoded from them (by the handlers' argument reader) and
    described to the OpenAPI document (buildParam).  golib's conversion between values
    and strings (util.GetValue, util.SetValue, util.LowerCamelCasedName) and
    strconv.ParseFloat are parameters. *)

From S2P Require Import Prelude GoStrings GoEncoding StructFields.

Local Open Scope go_scope.

Definition PathType : string := "path".
Definition QueryType : string := "query".
Definition HeaderType : string := "header".

(** api.Parameters; header keys are canonical. *)
Record Parameters := {
  pa_Path : gmap string string;
  pa_Query : gmap string (list string);
  pa_Header : gmap string (list string);
}.

Definition NewParameters : Parameters := {| pa_Path := ∅; pa_Query := ∅; pa_Header := ∅ |}.

(** url.Values.Add and http.Header.Add *)
Definition Values_Add (m : gmap string (list string)) (key value : string) : gmap string (list string) :=
  <[key := default [] (m !! key) ++ [value]]> m.

(** Decide comparisons of the constants. *)
Ltac kinds :=
  change (PathType == PathType) with true in *; change (PathType == QueryType) with false in *;
  change (PathType == HeaderType) with false in *; change (QueryType == PathType) with false in *;
  change (QueryType == QueryType) with true in *; change (QueryType == HeaderType) with false in *;
  change (HeaderType == PathType) with false in *; change (HeaderType == QueryType) with false in *;
  change (HeaderType == HeaderType) with true in *.

Section codec.
Context {Float Leaf : Type} `{EqDecision Leaf}.
Context (types : gmap string (list StructField)) (zero_leaf : string → Leaf).
Context (LowerCamelCasedName : string → string) (ParseFloat : string → Float + error).
Context (SetValue : rtype → rvalue Leaf → list string → rvalue Leaf * option error)
        (GetValue : rtype → rvalue Leaf → list string + error).

(** *** Tags *)

Definition parse_bound (v : string) : outcome (option Float) :=
  if v == "" then Ret None
  else match ParseFloat v with inl f => Ret (Some f) | inr _ => Panic "strconv.ParseFloat: invalid syntax" end.

Definition getFieldProps (sf : StructField) : outcome (fieldProps Float) :=
  if sf_Anonymous sf then Ret no_props
  else
    let tag := Tag_Get sf "param" in
    if (tag == "-") || (tag == "") then
      Ret {| p_Key := ""; p_ParamType := ""; p_Skip := true; p_Hidden := false; p_Required := false; p_Name := "";
             p_Format := ""; p_Description := ""; p_Enum := []; p_Maximum := None; p_Minimum := None; p_Default := "" |}
    else
      let '(typ, opts) := parseTag tag in
      let name := Tag_Get sf "name" in
      let enum := Tag_Get sf "enum" in
      maximum ← parse_bound (Tag_Get sf "maximum");
      minimum ← parse_bound (Tag_Get sf "minimum");
      key ← (if typ == PathType then Ret (ToLower (sf_Name sf))
             else if typ == HeaderType then Ret (ToUpper (sf_Name sf))
             else if typ == QueryType then Ret (LowerCamelCasedName (sf_Name sf))
             else Panic ("unknown param type=" +:+ typ));
      Ret {| p_Key := if name == "" then key else name; p_ParamType := typ; p_Skip := false;
             p_Hidden := tagOptions_Contains opts "hidden"; p_Required := tagOptions_Contains opts "required"; p_Name := name;
             p_Format := Tag_Get sf "format"; p_Description := Tag_Get sf "description";
             p_Enum := if enum == "" then [] else Split enum "|"%char;
             p_Maximum := maximum; p_Minimum := minimum; p_Default := Tag_Get sf "default" |}.

(** The cache returns what typeFields computes. *)
Definition cachedTypeFields (name : string) : outcome (structFields Float) :=
  default (Panic "typeFields did not return") (typeFields types getFieldProps name).

(** typeFields asks a type for its fields, which panics when it is not a struct. *)
Definition ValidateParamType (rt : rtype) : outcome (option error) :=
  match rt with
  | TStruct name =>
      if name == "time.Time" then Ret (Some (Errorf "schema: interface must be a pointer to struct" []))
      else
        fields ← cachedTypeFields name;
        Ret (if length (sfs_list fields) =? 0 then Some (Errorf "schema: can not find param tag from struct" []) else None)
  | _ => Panic "reflect: NumField of non-struct type"
  end.

(** *** Decoding *)

(** The strings of a field's parameter, [None] when it is not set. *)
Definition param_data (p : Parameters) (f : field Float) : outcome (option (list string)) :=
  let key := if p_Name (fd_props f) == "" then p_Key (fd_props f) else p_Name (fd_props f) in
  let typ := p_ParamType (fd_props f) in
  if typ == PathType then Ret ((λ v, [v]) <$> pa_Path p !! key)
  else if typ == HeaderType then
    let value := Header_Get (pa_Header p) (CanonicalHeaderKey key) in
    Ret (if value == "" then None else Some [value])
  else if typ == QueryType then Ret (pa_Query p !! key)
  else Panic "invalid opt type".

Definition setFieldValue (p : Parameters) (f : field Float) (t : rtype) (dstValue : rvalue Leaf)
    : outcome (option error * rvalue Leaf) :=
  data ← param_data p f;
  match data with
  | None =>
      let key := if p_Name (fd_props f) == "" then p_Key (fd_props f) else p_Name (fd_props f) in
      Ret (if p_Required (fd_props f) then Some (Errorf "%s must be set" [key]) else None, dstValue)
  | Some data => let '(x, err) := SetValue t dstValue data in Ret (err, x)
  end.

Definition decode_fields (p : Parameters) : rtype → list (field Float) → rvalue Leaf → outcome (option error * rvalue Leaf) :=
  set_fields types zero_leaf (setFieldValue p).

(** [into] with its dynamic type; it is changed in place, also when an error is
    returned. *)
Definition decodeParameters (parameters : option Parameters) (t : rtype) (into : rvalue Leaf) : outcome (option error * rvalue Leaf) :=
  match parameters with
  | None => Ret (None, into)
  | Some p =>
      match t, into with
      | TPtr _, VPtr None => Ret (Some (Errorf "invalid pointer(nil)" []), into)
      | TPtr (TStruct name), VPtr (Some rv) =>
          if name == "time.Time" then Ret (Some (Errorf "schema: interface must be a pointer to struct" []), into)
          else
            fields ← cachedTypeFields name;
            r ← decode_fields p (TStruct name) (sfs_list fields) rv;
            Ret (r.1, VPtr (Some r.2))
      | TPtr _, _ => Ret (Some (Errorf "schema: interface must be a pointer to struct" []), into)
      | _, _ => Ret (Some (ErrorWrap "Internal error occurred: %v" [] (Errorf "needs a pointer, got %s %s" [])), into)
      end
  end.

(** *** Encoding *)

Definition add_param (params : Parameters) (typ key : string) (data : list string) : outcome (Parameters + error) :=
  if typ == PathType then
    v ← index data 0;
    Ret (inl {| pa_Path := <[key := v]> (pa_Path params); pa_Query := pa_Query params; pa_Header := pa_Header params |})
  else if typ == QueryType then
    Ret (inl {| pa_Path := pa_Path params; pa_Query := foldl (λ m v, Values_Add m key v) (pa_Query params) data; pa_Header := pa_Header params |})
  else if typ == HeaderType then
    Ret (inl {| pa_Path := pa_Path params; pa_Query := pa_Query params;
                pa_Header := foldl (λ m v, Values_Add m (CanonicalHeaderKey key) v) (pa_Header params) data |})
  else Ret (inr (Errorf "invalid kind: %s %s" [typ; key])).

Definition encode_fields (rt : rtype) (rv : rvalue Leaf) (fields : list (field Float)) (params : Parameters)
    : outcome (Parameters + error) :=
  r ← get_fields types zero_leaf GetValue (λ f data params, add_param params (p_ParamType (fd_props f)) (p_Key (fd_props f)) data)
        rt rv fields params;
  Ret (match r with (params, None) => inl params | (_, Some err) => inr err end).

(** [validate] is the result of the object's own Validate, if it has that method. *)
Definition encodeParameters (validate : option error) (t : rtype) (obj : rvalue Leaf) : outcome (Parameters + error) :=
  match validate with
  | Some err => Ret (inr err)
  | None =>
      match (match obj with VPtr None => None | VPtr (Some v) => Some v | _ => Some obj end) with
      | None => Panic "reflect: call of reflect.Value.Type on zero Value"
      | Some rv =>
          match deref t with
          | TStruct name =>
              if name == "time.Time" then Ret (inr (Errorf "rest-encode: input must be a struct, got %v/%v" ["struct"; name]))
              else
                fields ← cachedTypeFields name;
                encode_fields (TStruct name) rv (sfs_list fields) NewParameters
          | rt => Ret (inr (Errorf "rest-encode: input must be a struct, got %v/%v" [type_String rt]))
          end
      end
  end.

(** *** OpenAPI parameters *)

Record RestfulParameter := {
  rp_Kind : string; rp_Name : string; rp_Description : string; rp_DataType : option string; rp_Required : bool;
  rp_Minimum : option Float; rp_Maximum : option Float; rp_Format : string; rp_Default : string; rp_Enum : list string;
}.

(** The data type of a field; slices of strings have none. *)
Definition data_type (t : rtype) : outcome (option string) :=
  match t with
  | TBase k =>
      if k == "string" then Ret (Some "string")
      else if k == "bool" then Ret (Some "boolean")
      else if (k == "uint") || (k == "int") || (k == "int32") || (k == "int64") then Ret (Some "integer")
      else if k == "[]string" then Ret None
      else Panic "unsupported param"
  | _ => Panic "unsupported param"
  end.

(** [None] when the parameter is hidden; path parameters cannot be. *)
Definition buildParam (f : field Float) : outcome (option RestfulParameter) :=
  let p := fd_props f in
  if (p_ParamType p == PathType) || (p_ParamType p == QueryType) || (p_ParamType p == HeaderType) then
    if (p_ParamType p != PathType) && p_Hidden p then Ret None
    else
      dt ← data_type (fd_Type f);
      Ret (Some {| rp_Kind := p_ParamType p; rp_Name := p_Key p; rp_Description := p_Description p; rp_DataType := dt;
                   rp_Required := p_Required p; rp_Minimum := p_Minimum p; rp_Maximum := p_Maximum p; rp_Format := p_Format p;
                   rp_Default := p_Default p; rp_Enum := p_Enum p |})
  else Panic "setParam".

Fixpoint build_loop (fields : list (field Float)) : outcome (list RestfulParameter) :=
  match fields with
  | [] => Ret []
  | f :: rest =>
      p ← buildParam f;
      l ← build_loop rest;
      Ret (match p with Some p => p :: l | None => l end)
  end.

Definition buildParameters (name : string) : outcome (list RestfulParameter) :=
  if name == "time.Time" then Panic "schema: interface must be a struct"
  else
    fields ← cachedTypeFields name;
    build_loop (sfs_list fields).
End codec.

(** ** Theorems *)

Lemma foldl_Add_lookup m k d k' :
  foldl (λ m v, Values_Add m k v) m d !! k' =
  if decide (k' = k ∧ d ≠ []) then Some (default [] (m !! k) ++ d) else m !! k'.
Proof.
  revert m. induction d as [|v d IH]; intros m; cbn; [by rewrite decide_False by naive_solver|].
  rewrite IH. unfold Values_Add. destruct (decide (k' = k)) as [->|Hne].
  - rewrite (decide_True (P := _ ∧ v :: d ≠ [])) by done. rewrite lookup_insert_eq. destruct d as [|v' d].
    + by rewrite decide_False by naive_solver.
    + rewrite decide_True by done. cbn. by rewrite <-app_assoc.
  - rewrite !decide_False by naive_solver. by rewrite lookup_insert_ne.
Qed.

Section roundtrip.
Context {Float Leaf : Type} `{EqDecision Leaf}.
Context (types : gmap string (list StructField)) (zero_leaf : string → Leaf).
Context (LowerCamelCasedName : string → string) (ParseFloat : string → Float + error).
Context (SetValue : rtype → rvalue Leaf → list string → rvalue Leaf * option error)
        (GetValue : rtype → rvalue Leaf → list string + error).
Abbreviation fprops := (getFieldProps LowerCamelCasedName ParseFloat).
Abbreviation zero := (zero types zero_leaf).
Abbreviation peek := (peek types zero_leaf).
Abbreviation has_type := (has_type types).
Abbreviation ptype := (path_type types).

(** golib's conversions invert each other: what GetValue renders, SetValue reads back
    into a zero value. *)
Definition conversions : Prop :=
  ∀ t x d, has_type x t → GetValue t x = inl d → d ≠ [] → SetValue t (zero t) d = (x, None).

(** Where a parameter is stored. *)
Definition slot (f : field Float) : string * string :=
  let key := p_Key (fd_props f) in
  (p_ParamType (fd_props f), if p_ParamType (fd_props f) == HeaderType then CanonicalHeaderKey key else key).

Definition params_at (p : Parameters) (s : string * string) : option (list string) :=
  if s.1 == PathType then (λ v, [v]) <$> pa_Path p !! s.2
  else if s.1 == HeaderType then pa_Header p !! s.2
  else if s.1 == QueryType then pa_Query p !! s.2
  else None.

(** A path or header parameter has one value, which is not empty in a header; a query
    parameter at least one. *)
Definition rendered (f : field Float) (d : list string) : Prop :=
  d ≠ [] ∧ (p_ParamType (fd_props f) = PathType → length d = 1) ∧
  (p_ParamType (fd_props f) = HeaderType → ∃ s, d = [s] ∧ s ≠ "").

(** The properties of a listed field: a known kind, and a name that is also its key. *)
Definition good_props (f : field Float) : Prop :=
  (p_ParamType (fd_props f) = PathType ∨ p_ParamType (fd_props f) = QueryType ∨ p_ParamType (fd_props f) = HeaderType) ∧
  (p_Name (fd_props f) = "" ∨ p_Name (fd_props f) = p_Key (fd_props f)).

Lemma getFieldProps_good sf props :
  sf_Anonymous sf = false → fprops sf = Ret props → p_Skip props = false →
  (p_ParamType props = PathType ∨ p_ParamType props = QueryType ∨ p_ParamType props = HeaderType) ∧
  (p_Name props = "" ∨ p_Name props = p_Key props).
Proof.
  intros Ha. unfold getFieldProps. rewrite Ha. case_match; [by intros [= <-]|].
  destruct (parseTag (Tag_Get sf "param")) as [typ opts].
  destruct (parse_bound ParseFloat (Tag_Get sf "maximum")) as [mx|]; [|done]. cbn.
  destruct (parse_bound ParseFloat (Tag_Get sf "minimum")) as [mn|]; [|done]. cbn.
  destruct (decide (typ = PathType)) as [Hp|Hp]; [rewrite (bool_decide_true _ Hp)|rewrite (bool_decide_false _ Hp);
    destruct (decide (typ = HeaderType)) as [Hh|Hh]; [rewrite (bool_decide_true _ Hh)|rewrite (bool_decide_false _ Hh);
    destruct (decide (typ = QueryType)) as [Hq|Hq]; [rewrite (bool_decide_true _ Hq)|by rewrite (bool_decide_false _ Hq)]]].
  all: cbn; intros Hr _; injection Hr as <-; cbn; (split; [by auto|]);
    (destruct (decide (Tag_Get sf "name" = "")) as [Hn|Hn]; [by left|right; by rewrite (bool_decide_false _ Hn)]).
Qed.

(** Adding a parameter in a free place: it is found there, and the others stay. *)
Lemma add_param_spec f params params' d :
  good_props f → rendered f d → params_at params (slot f) = None →
  add_param params (p_ParamType (fd_props f)) (p_Key (fd_props f)) d = Ret (inl params') →
  params_at params' (slot f) = Some d ∧ ∀ s, s ≠ slot f → params_at params' s = params_at params s.
Proof.
  intros [Htyp _] (Hd & Hpath & Hheader) Hfree. unfold slot in *. cbn [fst snd] in *.
  destruct Htyp as [Ht|[Ht|Ht]]; rewrite Ht in *; unfold add_param, params_at in *; cbn [fst snd] in *; kinds.
  - destruct d as [|v [|]]; try by specialize (Hpath eq_refl). cbn. intros [= <-]. cbn.
    rewrite lookup_insert_eq. split; [done|]. intros [typ k] Hne. cbn. 
    destruct (decide (typ = PathType)) as [->|Hp]; [|by rewrite (bool_decide_false _ Hp)]. kinds.
    rewrite lookup_insert_ne; [done|]. intros Heq. apply Hne. by rewrite Heq.
  - intros [= <-]. cbn. rewrite foldl_Add_lookup, decide_True by done. rewrite Hfree. split; [done|].
    intros [typ k] Hne. cbn. destruct (decide (typ = QueryType)) as [->|Hq]; [kinds|by rewrite (bool_decide_false _ Hq)].
    rewrite foldl_Add_lookup, decide_False; [done|]. intros [-> _]. by apply Hne.
  - intros [= <-]. cbn. rewrite foldl_Add_lookup, decide_True by done. rewrite Hfree. split; [done|].
    intros [typ k] Hne. cbn. destruct (decide (typ = HeaderType)) as [->|Hq]; [kinds|by rewrite (bool_decide_false _ Hq)].
    rewrite foldl_Add_lookup, decide_False; [done|]. intros [-> _]. by apply Hne.
Qed.

(** One field of a decoded value: the parameter that encoding stored is read back. *)
Lemma setFieldValue_roundtrip params f t x :
  conversions → good_props f → has_type x t →
  (∀ d, GetValue t x = inl d → rendered f d) →
  (x = zero t ∧ params_at params (slot f) = None ∧ p_Required (fd_props f) = false) ∨
  (∃ d, GetValue t x = inl d ∧ params_at params (slot f) = Some d) →
  setFieldValue SetValue params f t (zero t) = Ret (None, x).
Proof.
  intros Hconv [Htyp Hname] Hx Hren Hat.
  assert ((if p_Name (fd_props f) == "" then p_Key (fd_props f) else p_Name (fd_props f)) = p_Key (fd_props f)) as Hkey.
  { destruct (decide (p_Name (fd_props f) = "")) as [He|He]; [by rewrite (bool_decide_true _ He)|].
    rewrite (bool_decide_false _ He). by destruct Hname. }
  assert (param_data params f = Ret (params_at params (slot f))) as Hd.
  { unfold param_data, params_at, slot in *. rewrite Hkey. cbn [fst snd] in *.
    destruct Htyp as [Ht|[Ht|Ht]]; rewrite Ht in *; kinds; [done..|]. unfold Header_Get, Header.
    destruct Hat as [(_ & Hn & _)|(d & Hg & Hs)]; [by rewrite Hn|].
    destruct (Hren d Hg) as (_ & _ & Hh). destruct (Hh Ht) as (s & -> & Hne). rewrite Hs.
    by rewrite (bool_decide_false _ Hne). }
  unfold setFieldValue. rewrite Hd. cbn [mbind outcome_bind]. destruct Hat as [(-> & -> & ->)|(d & Hg & ->)]; [done|].
  destruct (Hren d Hg) as [Hne _]. by rewrite (Hconv t x d Hx Hg Hne).
Qed.

(** Only structs are embedded. *)
Definition embeds_structs : Prop :=
  ∀ n fs sf, types !! n = Some fs → sf ∈ fs → sf_Anonymous sf = true → is_struct (deref (sf_Type sf)) = true.

Lemma listed_good root f : embeds_structs → field_at types fprops root f → good_props f ∧ is_Some (ptype (TStruct root) (fd_index f)).
Proof.
  intros Hemb (_ & sf & n & p & i & Hidx & (t & Ht & Hd) & Hsf & Hty & Hprops & Hskip & Hname).
  destruct (types !! n) as [fs|] eqn:Hn; [|done]. cbn in Hsf.
  assert (sf_Anonymous sf = false) as Ha.
  { destruct (sf_Anonymous sf) eqn:Ha; [|done]. exfalso.
    assert (is_struct (fd_Type f) = true) as Hs by (rewrite Hty; eapply Hemb; [done|by eapply list_elem_of_lookup_2|done]).
    unfold getFieldProps in Hprops. rewrite Ha in Hprops. injection Hprops as Hp. rewrite <-Hp in Hname. cbn in Hname. naive_solver congruence. }
  split; [by apply (getFieldProps_good sf)|]. rewrite Hidx, path_type_app, Ht. cbn. rewrite Hd, Hn. cbn. rewrite Hsf. by eexists.
Qed.

(** C9: encoding an object's parameters and decoding them into a new object of the same
    type gives every listed field its value back (fields behind embedded pointers
    included), under these conditions: golib's conversions invert each other; the fields
    can be set and no two share a place (a kind and a name, header names up to case); and
    each value is rendered so that its kind of parameter can carry it: as one string in
    a path, as one non-empty string in a header, as at least one in a query.  A header
    with several values is not carried, nor is an empty list. *)
Theorem parameters_roundtrip name v fields params :
  conversions → laid_out types zero_leaf → embeds_structs →
  cachedTypeFields types LowerCamelCasedName ParseFloat name = Ret fields → name ≠ "time.Time" →
  has_type v (TStruct name) → NoDup (slot <$> sfs_list fields) →
  Forall (λ f, settable types (TStruct name) false (fd_index f) = true) (sfs_list fields) →
  (∀ f t d, f ∈ sfs_list fields → ptype (TStruct name) (fd_index f) = Some t →
     GetValue t (peek (TStruct name) v (fd_index f)) = inl d → rendered f d) →
  encodeParameters types zero_leaf LowerCamelCasedName ParseFloat GetValue None (TStruct name) v = Ret (inl params) →
  ∃ v', decodeParameters types zero_leaf LowerCamelCasedName ParseFloat SetValue (Some params) (TPtr (TStruct name))
          (VPtr (Some (zero (TStruct name)))) = Ret (None, VPtr (Some v')) ∧
    ∀ f, f ∈ sfs_list fields → peek (TStruct name) v' (fd_index f) = peek (TStruct name) v (fd_index f).
Proof.
  intros Hconv Hz Hemb Hfields Hname Hv Hslots Hset Hren Henc.
  pose proof Hfields as Htf. unfold cachedTypeFields in Htf.
  destruct (typeFields types fprops name) as [r|] eqn:Hr; [|done]. cbn in Htf. subst r.
  apply typeFields_paths in Hr as (Hat & _ & Hac).
  assert (Forall (λ f, good_props f ∧ is_Some (ptype (TStruct name) (fd_index f))) (sfs_list fields)) as Hgood.
  { eapply Forall_impl; [exact Hat|]. intros f Hf. by apply listed_good. }
  unfold encodeParameters in Henc. cbn [deref] in Henc. rewrite (bool_decide_false _ Hname), Hfields in Henc.
  destruct v as [l|vs|[]]; try done. cbn [mbind outcome_bind] in Henc.
  unfold encode_fields in Henc. destruct (get_fields _ _ _ _ _ _ _ _) as [[params1 [err|]]|] eqn:Hget; [done| |done]. injection Henc as ->.
  destruct (get_fields_spec types zero_leaf GetValue
              (λ f data params, add_param params (p_ParamType (fd_props f)) (p_Key (fd_props f)) data) slot params_at rendered
              (TStruct name) (VStruct vs) (sfs_list fields) NewParameters params) as [_ Hspec]; try done.
  { intros f d acc acc' Hf. intros. eapply add_param_spec; try done. by apply (proj1 (Forall_forall _ _) Hgood f Hf). }
  { intros f Hf. by apply (proj1 (Forall_forall _ _) Hgood f Hf). }
  { intros f _. unfold params_at. cbn. rewrite !lookup_empty. by repeat case_match. }
  destruct (set_fields_spec types zero_leaf (setFieldValue SetValue params) (TStruct name) (sfs_list fields) (zero (TStruct name))
              (λ f, peek (TStruct name) (VStruct vs) (fd_index f))) as (v' & Hdec & _ & Hwant & _); [done|by apply zero_typed|done| |].
  { intros f Hf. destruct (proj1 (Forall_forall _ _) Hgood f Hf) as [Hg [t Ht]]. exists t.
    assert (has_type (peek (TStruct name) (VStruct vs) (fd_index f)) t) as Hpt by (by apply peek_typed).
    split_and!; [done|by apply (proj1 (Forall_forall _ _) Hset)|by apply peek_zero|done|].
    apply setFieldValue_roundtrip; try done; [by intros d Hd; eapply Hren|]. by apply Hspec. }
  exists v'. split; [|done]. unfold decodeParameters. rewrite (bool_decide_false _ Hname), Hfields. cbn [mbind outcome_bind].
  unfold decode_fields. rewrite Hdec. done.
Qed.

(** Whether the request carries a field's parameter. *)
Definition carries (p : Parameters) (f : field Float) : Prop := ∃ d, param_data p f = Ret (Some d).

Lemma decode_fields_required p rt fields v v' :
  decode_fields types zero_leaf SetValue p rt fields v = Ret (None, v') →
  ∀ f, f ∈ fields → p_Required (fd_props f) = true → carries p f.
Proof.
  unfold decode_fields. revert v. induction fields as [|f fields IH]; intros v; cbn [set_fields]; [by intros _ f ?%elem_of_nil|].
  destruct (getSubv types zero_leaf true false rt v (fd_index f)) as [[v1 [[t x]|err]]|]; [|done..]. cbn [mbind outcome_bind].
  destruct (setFieldValue SetValue p f t x) as [[[err|] x']|] eqn:Hs; [done| |done]. cbn [mbind outcome_bind].
  intros Hdec g [->|Hg]%elem_of_cons Hreq; [|by eapply IH]. unfold setFieldValue in Hs.
  destruct (param_data p f) as [[d|]|] eqn:Hd; [by exists d| |done]. cbn in Hs. by rewrite Hreq in Hs.
Qed.

(** A handler's parameters are decoded without error only if the request carries every
    required parameter. *)
Theorem decodeParameters_required p name rv fields into :
  cachedTypeFields types LowerCamelCasedName ParseFloat name = Ret fields →
  decodeParameters types zero_leaf LowerCamelCasedName ParseFloat SetValue (Some p) (TPtr (TStruct name)) (VPtr (Some rv)) = Ret (None, into) →
  ∀ f, f ∈ sfs_list fields → p_Required (fd_props f) = true → carries p f.
Proof.
  intros Hf. unfold decodeParameters. case_bool_decide; [done|]. rewrite Hf. cbn [mbind outcome_bind].
  destruct (decode_fields types zero_leaf SetValue p (TStruct name) (sfs_list fields) rv) as [[[err|] v']|] eqn:Hd; [done| |done].
  intros _. by eapply decode_fields_required.
Qed.
End roundtrip.

Lemma build_loop_spec {Float} (fields : list (field Float)) l :
  build_loop fields = Ret l →
  (λ p, (rp_Kind p, rp_Name p, rp_Required p)) <$> l =
  (λ f, (p_ParamType (fd_props f), p_Key (fd_props f), p_Required (fd_props f))) <$>
    filter (λ f, p_ParamType (fd_props f) = PathType ∨ p_Hidden (fd_props f) = false) fields.
Proof.
  revert l. induction fields as [|f fields IH]; intros l; cbn [build_loop]; [by intros [= <-]|].
  destruct (buildParam f) as [o|] eqn:Hb; [|done]. cbn [mbind outcome_bind].
  destruct (build_loop fields) as [l'|]; [|done]. intros [= <-]. specialize (IH l' eq_refl).
  rewrite filter_cons. unfold buildParam in Hb. destruct (_ || _) in Hb; [|done].
  destruct (decide (p_ParamType (fd_props f) = PathType)) as [Hp|Hp];
    [rewrite (bool_decide_true _ Hp) in Hb|rewrite (bool_decide_false _ Hp) in Hb; destruct (p_Hidden (fd_props f)) eqn:Hh]; cbn [negb andb] in Hb.
  - destruct (data_type (fd_Type f)); [|done]. injection Hb as <-. rewrite decide_True by auto. cbn. by rewrite IH.
  - injection Hb as <-. rewrite decide_False by naive_solver. done.
  - destruct (data_type (fd_Type f)); [|done]. injection Hb as <-. rewrite decide_True by auto. cbn. by rewrite IH.
Qed.

(** ** Examples *)

Module ParamCodecExamples.
(** Leaves are the strings of a value. *)
Abbreviation Leaf := (list string).
Definition zl (k : string) : Leaf := [].
Definition Set' (t : rtype) (x : rvalue Leaf) (d : list string) : rvalue Leaf * option error :=
  match t with
  | TBase _ => (VLeaf d, None)
  | TPtr (TBase _) => (VPtr (Some (VLeaf d)), None)
  | _ => (x, Some (Errorf "unsupported type" []))
  end.
Definition Get' (t : rtype) (x : rvalue Leaf) : list string + error :=
  match t, x with
  | TBase _, VLeaf d => inl d
  | TPtr (TBase _), VPtr (Some (VLeaf d)) => inl d
  | _, _ => inr (Errorf "unsupported type" [])
  end.
Definition camel (s : string) : string := match s with String a s => String (lower_byte a) s | _ => s end.
Definition float (s : string) : nat + error := inr (Errorf "invalid syntax" []).

Definition fld (name : string) (t : rtype) (tag : list (string * string)) : StructField :=
  {| sf_Name := name; sf_Exported := true; sf_Anonymous := false; sf_Type := t; sf_Tag := tag |}.
Definition emb (name : string) (t : rtype) : StructField :=
  {| sf_Name := name; sf_Exported := true; sf_Anonymous := true; sf_Type := t; sf_Tag := [] |}.

(** A list request: the object's name in the path, embedded paging parameters in the
    query, an optional trace in a header. *)
Definition tys : gmap string (list StructField) :=
  {[ "List" := [fld "Name" (TBase "string") [("param", "path,required")]; emb "Paging" (TPtr (TStruct "Paging"));
                fld "Trace" (TPtr (TBase "string")) [("param", "header,hidden"); ("name", "X-Trace")]];
     "Paging" := [fld "PageSize" (TBase "int") [("param", "query")]; fld "Sort" (TBase "[]string") [("param", "query")];
                  fld "Total" (TBase "int") [("param", "-")]] ]}.

Definition list_value : rvalue Leaf :=
  VStruct [VLeaf ["tom"]; VPtr (Some (VStruct [VLeaf ["10"]; VLeaf ["a"; "b"]; VLeaf ["7"]])); VPtr (Some (VLeaf ["t1"]))].

Definition fields_of (name : string) : list (field nat) :=
  match cachedTypeFields tys camel float name with Ret r => sfs_list r | Panic _ => [] end.

Example list_fields :
  (λ f, (p_ParamType (fd_props f), p_Key (fd_props f), fd_index f)) <$> fields_of "List" =
  [("path", "name", [0]); ("header", "X-Trace", [2]); ("query", "pageSize", [1; 0]); ("query", "sort", [1; 1])].
Proof. vm_compute. reflexivity. Qed.

Lemma tys_laid_out : laid_out tys zl.
Proof.
  intros n. unfold zero. destruct (tys !! n) as [fs|] eqn:Hn; [|unfold zero_fuel at 1; by rewrite Hn].
  unfold tys in Hn. apply lookup_insert_Some in Hn as [[<- <-]|[_ Hn]]; [vm_compute; reflexivity|].
  apply lookup_singleton_Some in Hn as [<- <-]. vm_compute. reflexivity.
Qed.

Lemma tys_embeds : embeds_structs tys.
Proof.
  intros n fs sf Hn Hin Ha. unfold tys in Hn.
  apply lookup_insert_Some in Hn as [[<- <-]|[_ [<- <-]%lookup_singleton_Some]];
    repeat (apply elem_of_cons in Hin as [->|Hin]; [done|]); by apply elem_of_nil in Hin.
Qed.

Lemma codec_conversions : conversions tys zl Set' Get'.
Proof.
  intros t x d Hx Hg _. destruct t as [k|n|[k|n|t]], x as [l|vs|[[l|vs|o]|]]; cbn in *; simplify_eq; done.
Qed.

Definition list_r : structFields nat :=
  match cachedTypeFields tys camel float "List" with Ret r => r | Panic _ => {| sfs_list := []; sfs_nameIndex := ∅ |} end.
Definition list_params : Parameters :=
  {| pa_Path := {[ "name" := "tom" ]}; pa_Query := {[ "pageSize" := ["10"]; "sort" := ["a"; "b"] ]};
     pa_Header := {[ "X-Trace" := ["t1"] ]} |}.

Lemma list_rendered f t d :
  f ∈ sfs_list list_r → path_type tys (TStruct "List") (fd_index f) = Some t →
  Get' t (peek tys zl (TStruct "List") list_value (fd_index f)) = inl d → rendered f d.
Proof.
  intros Hf. let l := eval vm_compute in (sfs_list list_r) in change (sfs_list list_r) with l in Hf.
  repeat (apply elem_of_cons in Hf as [->|Hf];
    [intros Ht Hd; vm_compute in Ht; injection Ht as <-; vm_compute in Hd; injection Hd as <-; split_and!; cbn; eauto; try done|]).
  by apply elem_of_nil in Hf.
Qed.

Lemma parameters_roundtrip_witness :
  ∃ v', decodeParameters tys zl camel float Set' (Some list_params) (TPtr (TStruct "List"))
          (VPtr (Some (zero tys zl (TStruct "List")))) = Ret (None, VPtr (Some v')) ∧
    ∀ f, f ∈ sfs_list list_r → peek tys zl (TStruct "List") v' (fd_index f) = peek tys zl (TStruct "List") list_value (fd_index f).
Proof.
  apply (parameters_roundtrip tys zl camel float Set' Get' "List" list_value list_r list_params
           codec_conversions tys_laid_out tys_embeds); [vm_compute; reflexivity|done| | | |exact list_rendered|vm_compute; reflexivity].
  - vm_compute. tauto.
  - apply (bool_decide_unpack _). vm_compute. exact I.
  - apply (bool_decide_unpack _). vm_compute. exact I.
Defined.

(** Without the required name decoding fails, and what was decoded before stays in the
    object. *)
Example missing_name :
  decodeParameters tys zl camel float Set' (Some {| pa_Path := ∅; pa_Query := ∅; pa_Header := ∅ |}) (TPtr (TStruct "List"))
    (VPtr (Some (zero tys zl (TStruct "List")))) = Ret (Some (Errorf "%s must be set" ["name"]), VPtr (Some (zero tys zl (TStruct "List")))).
Proof. vm_compute. reflexivity. Qed.

Lemma decodeParameters_required_witness :
  ∃ into, decodeParameters tys zl camel float Set' (Some list_params) (TPtr (TStruct "List"))
            (VPtr (Some (zero tys zl (TStruct "List")))) = Ret (None, into) ∧
    ∀ f, f ∈ sfs_list list_r → p_Required (fd_props f) = true → carries list_params f.
Proof.
  eexists. split; [vm_compute; reflexivity|].
  eapply (decodeParameters_required tys zl camel float Set' list_params "List" (zero tys zl (TStruct "List"))); vm_compute; reflexivity.
Defined.

(** Of several values of a header parameter only the first is read back: a slice in a
    header does not survive. *)
Definition tys_h : gmap string (list StructField) := {[ "H" := [fld "Tags" (TBase "[]string") [("param", "header")]] ]}.

Example header_slice_lost :
  match encodeParameters tys_h zl camel float Get' None (TStruct "H") (VStruct [VLeaf ["a"; "b"]]) with
  | Ret (inl p) =>
      pa_Header p = {[ "Tags" := ["a"; "b"] ]} ∧
      decodeParameters tys_h zl camel float Set' (Some p) (TPtr (TStruct "H")) (VPtr (Some (VStruct [VLeaf []]))) =
        Ret (None, VPtr (Some (VStruct [VLeaf ["a"]])))
  | _ => False
  end.
Proof. vm_compute. split; reflexivity. Qed.

(** Types that embed each other through pointers, as in the witness of termination. *)
Definition tys_cycle : gmap string (list StructField) :=
  {[ "A" := [emb "B" (TPtr (TStruct "B")); fld "X" (TBase "string") [("param", "query")]];
     "B" := [emb "A" (TPtr (TStruct "A")); fld "Y" (TBase "string") [("param", "query")]] ]}.
Example cycle_fields :
  match cachedTypeFields tys_cycle camel float "A" with
  | Ret r => (λ f, (p_Key (fd_props f), fd_index f)) <$> sfs_list r = [("x", [1]); ("y", [0; 1])]
  | Panic _ => False
  end.
Proof. vm_compute. reflexivity. Qed.
End ParamCodecExamples.
