(* ===== verification/UrlEncoded.v ===== *)
(** * Bodies of submitted forms

    Models pkg/rest/urlencoded: the encoder and decoder of
    application/x-www-form-urlencoded bodies, and the form parameters it describes to
    the OpenAPI document.  url.Values.Encode and url.ParseQuery are modelled byte by
    byte; the conversions of golib are parameters, as for the parameter codec, whose
    walk over struct types and loops this codec shares (StructFields). *)

From S2P Require Import Prelude GoStrings GoEncoding StructFields ParamCodec.

Local Open Scope go_scope.

(** ** url.Values *)

Definition unreserved (a : ascii) : bool :=
  let n := nat_of_ascii a in
  ((65 <=? n) && (n <=? 90)) || ((97 <=? n) && (n <=? 122)) || ((48 <=? n) && (n <=? 57)) ||
  bool_decide (n ∈ [45; 46; 95; 126]).

Definition upperhex (n : nat) : ascii := ascii_of_nat (if n <? 10 then 48 + n else 55 + n).

Definition escape_byte (a : ascii) (rest : string) : string :=
  if unreserved a then String a rest
  else if a == " "%char then String "+"%char rest
  else String "%"%char (String (upperhex (nat_of_ascii a / 16)) (String (upperhex (nat_of_ascii a mod 16)) rest)).

Fixpoint QueryEscape (s : string) : string :=
  match s with EmptyString => "" | String a s => escape_byte a (QueryEscape s) end.

Abbreviation Values := (gmap string (list string)).

(** The keys are sorted. *)
Definition Values_Encode (v : Values) : string :=
  Join (merge_sort String.le (elements (dom v)) ≫= λ k, (λ x, QueryEscape k +:+ "=" +:+ QueryEscape x) <$> default [] (v !! k)) "&".

Fixpoint parse_pairs (parts : list string) (m : Values) (err : option error) : Values * option error :=
  match parts with
  | [] => (m, err)
  | key :: rest =>
      if ContainsByte key ";"%char then parse_pairs rest m (Some (Errorf "invalid semicolon separator in query" []))
      else if key == "" then parse_pairs rest m err
      else
        let '(key, value) := match SplitN key "="%char 2 with [k; v] => (k, v) | _ => (key, "") end in
        match QueryUnescape key, QueryUnescape value with
        | Some key, Some value => parse_pairs rest (Values_Add m key value) err
        | _, _ => parse_pairs rest m (match err with None => Some (Errorf "invalid URL escape" []) | _ => err end)
        end
  end.

Definition ParseQuery (query : string) : Values * option error := parse_pairs (Split query "&"%char) ∅ None.

(** *** What is encoded is parsed back *)

Lemma escape_byte_unescape a s :
  QueryUnescape (escape_byte a s) = out ← QueryUnescape s; Some (String a out).
Proof. destruct a as [[] [] [] [] [] [] [] []]; reflexivity. Qed.

Lemma QueryUnescape_Escape s : QueryUnescape (QueryEscape s) = Some s.
Proof. induction s as [|a s IH]; [done|]. cbn [QueryEscape]. by rewrite escape_byte_unescape, IH. Qed.

Lemma escape_byte_contains a s c :
  c = "&"%char ∨ c = "="%char ∨ c = ";"%char → ContainsByte (escape_byte a s) c = ContainsByte s c.
Proof. intros [->|[->| ->]]; destruct a as [[] [] [] [] [] [] [] []]; reflexivity. Qed.

Lemma QueryEscape_contains s c : c = "&"%char ∨ c = "="%char ∨ c = ";"%char → ContainsByte (QueryEscape s) c = false.
Proof. intros Hc. induction s as [|a s IH]; [done|]. cbn [QueryEscape]. by rewrite escape_byte_contains. Qed.

Definition query_pair (kx : string * string) : string := QueryEscape kx.1 +:+ "=" +:+ QueryEscape kx.2.

Lemma query_pair_contains kx c : c = "&"%char ∨ c = ";"%char → ContainsByte (query_pair kx) c = false.
Proof.
  intros Hc. unfold query_pair. rewrite !ContainsByte_app, !QueryEscape_contains by tauto. by destruct Hc as [->| ->].
Qed.

Lemma parse_pairs_encoded l m err :
  parse_pairs (query_pair <$> l) m err = (foldl (λ m kx, Values_Add m kx.1 kx.2) m l, err).
Proof.
  revert m. induction l as [|[k x] l IH]; intros m; [done|]. cbn [fmap list_fmap parse_pairs foldl].
  rewrite query_pair_contains by auto. rewrite bool_decide_false by (unfold query_pair; by destruct (QueryEscape _)).
  unfold query_pair at 1. cbn [fst snd]. change (QueryEscape k +:+ "=" +:+ QueryEscape x) with (QueryEscape k +:+ String "="%char (QueryEscape x)).
  rewrite SplitN_2_sep by (apply QueryEscape_contains; auto). rewrite !QueryUnescape_Escape. apply IH.
Qed.

Lemma foldl_pairs_lookup ks (v m : Values) k' :
  NoDup ks →
  foldl (λ m kx, Values_Add m kx.1 kx.2) m (ks ≫= λ k, (k,.) <$> default [] (v !! k)) !! k' =
  if decide (k' ∈ ks ∧ default [] (v !! k') ≠ []) then Some (default [] (m !! k') ++ default [] (v !! k')) else m !! k'.
Proof.
  intros Hnd. revert m. induction Hnd as [|k ks Hk _ IH]; intros m; [cbn; by rewrite decide_False by set_solver|].
  rewrite bind_cons, foldl_app.
  assert (∀ d m, foldl (λ m kx, Values_Add m kx.1 kx.2) m ((k,.) <$> d) = foldl (λ m x, Values_Add m k x) m d) as ->.
  { intros d. induction d as [|x d IHd]; intros m'; cbn; [done|]. apply IHd. }
  rewrite IH, foldl_Add_lookup.
  destruct (decide (k' = k)) as [->|Hne].
  - rewrite (decide_False (P := k ∈ ks ∧ _)) by (intros [? _]; done).
    destruct (decide (default [] (v !! k) = [])) as [He|He].
    + rewrite !decide_False by naive_solver. done.
    + rewrite decide_True by done. rewrite decide_True; [done|]. split; [by left|done].
  - rewrite (decide_False (P := k' = k ∧ _)) by naive_solver.
    destruct (decide (k' ∈ ks ∧ default [] (v !! k') ≠ [])) as [[? ?]|Hn].
    + rewrite decide_True; [done|]. split; [by right|done].
    + rewrite decide_False; [done|]. intros [[->|?]%elem_of_cons ?]; naive_solver.
Qed.

Lemma ParseQuery_Encode (v : Values) : (∀ k l, v !! k = Some l → l ≠ []) → ParseQuery (Values_Encode v) = (v, None).
Proof.
  intros Hv. set (ks := merge_sort String.le (elements (dom v))).
  assert (NoDup ks) as Hnd by (unfold ks; rewrite merge_sort_Permutation; apply NoDup_elements).
  assert (∀ k, k ∈ ks ↔ is_Some (v !! k)) as Hks.
  { intros k. unfold ks. rewrite merge_sort_Permutation, elem_of_elements, elem_of_dom. done. }
  set (pairs := ks ≫= λ k, (k,.) <$> default [] (v !! k)).
  assert (ParseQuery (Values_Encode v) = parse_pairs (query_pair <$> pairs) ∅ None) as ->.
  { unfold ParseQuery, Values_Encode. fold ks.
    replace (ks ≫= λ k, (λ x, QueryEscape k +:+ "=" +:+ QueryEscape x) <$> default [] (v !! k)) with (query_pair <$> pairs).
    - destruct pairs as [|p pairs']; [done|]. rewrite Split_Join; [done|done|].
      apply Forall_fmap, Forall_true. intros kx. apply query_pair_contains. auto.
    - unfold pairs. clear. induction ks as [|k ks IH]; [done|]. rewrite !bind_cons, fmap_app, IH. f_equal.
      by rewrite <-list_fmap_compose. }
  rewrite parse_pairs_encoded. f_equal. apply map_eq. intros k. unfold pairs. rewrite foldl_pairs_lookup by done.
  rewrite lookup_empty. cbn. destruct (v !! k) as [l|] eqn:Hk.
  - rewrite decide_True; [done|]. split; [apply Hks; by eexists|]. cbn. by eapply Hv.
  - rewrite decide_False; [done|]. intros [[? Hx]%Hks _]. congruence.
Qed.

(** ** The codec *)

Section forms.
Context {Float Leaf : Type} `{EqDecision Leaf}.
Context (types : gmap string (list StructField)) (zero_leaf : string → Leaf).
Context (LowerCamelCasedName : string → string) (ParseFloat : string → Float + error).
Context (SetValue : rtype → rvalue Leaf → list string → rvalue Leaf * option error)
        (GetValue : rtype → rvalue Leaf → list string + error).

Definition form_getFieldProps (sf : StructField) : outcome (fieldProps Float) :=
  if sf_Anonymous sf then Ret no_props
  else
    let tag := Tag_Get sf "json" in
    if (tag == "-") || (tag == "") then
      Ret {| p_Key := ""; p_ParamType := ""; p_Skip := true; p_Hidden := false; p_Required := false; p_Name := "";
             p_Format := ""; p_Description := ""; p_Enum := []; p_Maximum := None; p_Minimum := None; p_Default := "" |}
    else
      let '(name, opts) := parseTag tag in
      let enum := Tag_Get sf "enum" in
      maximum ← parse_bound ParseFloat (Tag_Get sf "maximum");
      minimum ← parse_bound ParseFloat (Tag_Get sf "minimum");
      Ret {| p_Key := if name == "" then LowerCamelCasedName (sf_Name sf) else name; p_ParamType := ""; p_Skip := false;
             p_Hidden := tagOptions_Contains opts "hidden"; p_Required := tagOptions_Contains opts "required"; p_Name := name;
             p_Format := Tag_Get sf "format"; p_Description := Tag_Get sf "description";
             p_Enum := if enum == "" then [] else Split enum "|"%char;
             p_Maximum := maximum; p_Minimum := minimum; p_Default := Tag_Get sf "default" |}.

Definition form_typeFields (name : string) : outcome (structFields Float) :=
  default (Panic "typeFields did not return") (typeFields types form_getFieldProps name).

(** *** Encoding *)

Definition add_form (f : field Float) (data : list string) (values : Values) : outcome (Values + error) :=
  Ret (inl (foldl (λ m x, Values_Add m (p_Key (fd_props f)) x) values data)).

(** scan of a value that is not a map: the values so far, and the error. *)
Definition scan_struct (t : rtype) (src : rvalue Leaf) (values : Values) : outcome (Values * option error) :=
  match (match src with VPtr None => None | VPtr (Some v) => Some v | _ => Some src end) with
  | None => Panic "reflect: call of reflect.Value.Type on zero Value"
  | Some rv =>
      match deref t with
      | TStruct name =>
          if name == "time.Time" then Ret (values, Some (Errorf "schema: interface must be a struct got %s" [name]))
          else
            fields ← form_typeFields name;
            get_fields types zero_leaf GetValue add_form (TStruct name) rv (sfs_list fields) values
      | rt => Ret (values, Some (Errorf "schema: interface must be a struct got %s" [type_String rt]))
      end
  end.

(** scanMap over the entries in the order the map is ranged over.  The error of a
    struct among them is dropped. *)
Fixpoint scanMap (src : list (string * (rtype * rvalue Leaf))) (values : Values) : outcome (Values * option error) :=
  match src with
  | [] => Ret (values, None)
  | (k, (t, v)) :: rest =>
      let rt := deref t in
      if is_struct rt && (type_String rt != "time.Time") then
        r ← scan_struct t v values;
        scanMap rest r.1
      else
        match (match v with VPtr None => None | VPtr (Some v) => Some v | _ => Some v end) with
        | None => Panic "reflect: call of reflect.Value.Type on zero Value"
        | Some rv =>
            match GetValue rt rv with
            | inr err => Ret (values, Some err)
            | inl data => scanMap rest (if 0 <? length data then <[k := data]> values else values)
            end
        end
  end.

Inductive form_source :=
  | FormMap (entries : list (string * (rtype * rvalue Leaf)))
  | FormValue (t : rtype) (v : rvalue Leaf).

Definition form_scan (src : form_source) (values : Values) : outcome (Values * option error) :=
  match src with FormMap l => scanMap l values | FormValue t v => scan_struct t v values end.

(** Encode, to a writer that takes everything: what is written. *)
Definition form_Encode (src : form_source) : outcome (string + error) :=
  r ← form_scan src ∅;
  Ret (match r with (_, Some err) => inr err | (values, None) => inl (Values_Encode values) end).

(** *** Decoding *)

Definition form_set (values : Values) (f : field Float) (t : rtype) (subv : rvalue Leaf) : outcome (option error * rvalue Leaf) :=
  let '(x, err) := SetValue t subv (default [] (values !! p_Key (fd_props f))) in Ret (err, x).

Definition form_decode (values : Values) (rt : rtype) (rv : rvalue Leaf) : outcome (option error * rvalue Leaf) :=
  match rt with
  | TStruct name =>
      if name == "time.Time" then Ret (Some (ErrorWrap "Internal error occurred: %v" [] (Errorf "schema: interface must be a pointer to struct" [])), rv)
      else
        fields ← form_typeFields name;
        set_fields types zero_leaf (form_set values) rt (sfs_list fields) rv
  | _ => Ret (Some (ErrorWrap "Internal error occurred: %v" [] (Errorf "schema: interface must be a pointer to struct" [])), rv)
  end.

(** [form] is the request's parsed form, if there is one; otherwise the body is read,
    which may fail.  A body longer than 2^63-1 bytes cannot be in memory. *)
Definition form_Decode (form : option Values) (body : string + error) (t : rtype) (dst : rvalue Leaf) : outcome (option error * rvalue Leaf) :=
  let values := match form with
                | Some form => inl form
                | None => match body with
                          | inr err => inr err
                          | inl b => match ParseQuery b with (m, None) => inl m | (_, Some err) => inr err end
                          end
                end in
  match values with
  | inr err => Ret (Some err, dst)
  | inl values =>
      match t, dst with
      | TPtr _, VPtr None => Ret (Some (ErrorWrap "Internal error occurred: %v" [] (Errorf "invalid potiner(nil)" [])), dst)
      | TPtr rt, VPtr (Some rv) => r ← form_decode values rt rv; Ret (r.1, VPtr (Some r.2))
      | _, _ => Ret (Some (ErrorWrap "Internal error occurred: %v" [] (Errorf "needs a pointer, got %s %s" [])), dst)
      end
  end.

(** *** OpenAPI *)

(** The parameter is named by the tag, also when that name is empty and the key is
    another one. *)
Definition form_buildParam (f : field Float) : outcome (RestfulParameter (Float := Float)) :=
  let p := fd_props f in
  dt ← data_type (fd_Type f);
  Ret {| rp_Kind := "form"; rp_Name := p_Name p; rp_Description := p_Description p; rp_DataType := dt; rp_Required := p_Required p;
         rp_Minimum := p_Minimum p; rp_Maximum := p_Maximum p; rp_Format := p_Format p; rp_Default := p_Default p; rp_Enum := p_Enum p |}.

Fixpoint form_build_loop (fields : list (field Float)) : outcome (list (RestfulParameter (Float := Float))) :=
  match fields with
  | [] => Ret []
  | f :: rest => p ← form_buildParam f; l ← form_build_loop rest; Ret (p :: l)
  end.

Definition RouteBuilderReads (name : string) : outcome (list (RestfulParameter (Float := Float))) :=
  if name == "time.Time" then Panic "schema: interface must be a struct"
  else fields ← form_typeFields name; form_build_loop (sfs_list fields).
End forms.

(** ** Theorems *)

Section form_theorems.
Context {Float Leaf : Type} `{EqDecision Leaf}.
Context (types : gmap string (list StructField)) (zero_leaf : string → Leaf).
Context (LowerCamelCasedName : string → string) (ParseFloat : string → Float + error).
Context (SetValue : rtype → rvalue Leaf → list string → rvalue Leaf * option error)
        (GetValue : rtype → rvalue Leaf → list string + error).
Abbreviation props := (form_getFieldProps LowerCamelCasedName ParseFloat).
Abbreviation zero := (zero types zero_leaf).
Abbreviation peek := (peek types zero_leaf).

(** SetValue leaves a zero value alone when there is no string. *)
Definition no_strings : Prop := ∀ t, SetValue t (zero t) [] = (zero t, None).

Lemma field_path root f : field_at types props root f → is_Some (path_type types (TStruct root) (fd_index f)).
Proof.
  intros (_ & sf & n & p & i & Hidx & (t & Ht & Hd) & Hsf & _). destruct (types !! n) as [fs|] eqn:Hn; [|done]. cbn in Hsf.
  rewrite Hidx, path_type_app, Ht. cbn. rewrite Hd, Hn. cbn. rewrite Hsf. by eexists.
Qed.

Lemma add_form_nonempty (values values' : Values) (f : field Float) d :
  (∀ k l, values !! k = Some l → l ≠ []) → add_form f d values = Ret (inl values') → ∀ k l, values' !! k = Some l → l ≠ [].
Proof.
  intros Hv [= <-] k l. rewrite foldl_Add_lookup. case_decide as Hd; [|apply Hv]. destruct Hd as [_ Hd].
  intros [= <-] He. by apply app_eq_nil in He as [_ ?].
Qed.

Lemma get_fields_nonempty rt v (fields : list (field Float)) (values values' : Values) :
  (∀ k l, values !! k = Some l → l ≠ []) →
  get_fields types zero_leaf GetValue add_form rt v fields values = Ret (values', None) → ∀ k l, values' !! k = Some l → l ≠ [].
Proof.
  revert values. induction fields as [|f fields IH]; intros values Hv; cbn [get_fields]; [by intros [= <-]|].
  destruct (getSubv types zero_leaf false false rt v (fd_index f)) as [r|]; [|done]. cbn [mbind outcome_bind].
  destruct (match r.2 with inr _ => None | inl (t, subv) => _ end) as [[t x]|]; [|by destruct (p_Required _); [|apply IH]].
  destruct (GetValue t x) as [d|]; [|done]. destruct (add_form f d values) as [[values1|]|] eqn:Ha; [|done..].
  cbn [mbind outcome_bind]. apply IH. by eapply add_form_nonempty.
Qed.

(** C24: a struct that is encoded as a form body and decoded into a new struct of its type
    has every listed field back, through escaping, sorting and parsing of the body, under
    these conditions: golib's conversions invert each other and leave a zero value alone
    when there is no string; the fields can be set; and each value is rendered as at least
    one string (a pointer to an empty list is not, and is lost). *)
Theorem form_roundtrip name v fields body :
  conversions types zero_leaf SetValue GetValue → no_strings → laid_out types zero_leaf →
  form_typeFields types LowerCamelCasedName ParseFloat name = Ret fields → name ≠ "time.Time" → has_type types v (TStruct name) →
  Forall (λ f, settable types (TStruct name) false (fd_index f) = true) (sfs_list fields) →
  (∀ f t d, f ∈ sfs_list fields → path_type types (TStruct name) (fd_index f) = Some t →
     GetValue t (peek (TStruct name) v (fd_index f)) = inl d → d ≠ []) →
  form_Encode types zero_leaf LowerCamelCasedName ParseFloat GetValue (FormValue (TStruct name) v) = Ret (inl body) →
  ∃ v', form_Decode types zero_leaf LowerCamelCasedName ParseFloat SetValue None (inl body) (TPtr (TStruct name))
          (VPtr (Some (zero (TStruct name)))) = Ret (None, VPtr (Some v')) ∧
    ∀ f, f ∈ sfs_list fields → peek (TStruct name) v' (fd_index f) = peek (TStruct name) v (fd_index f).
Proof.
  intros Hconv Hnone Hz Hfields Hname Hv Hset Hren Henc.
  pose proof Hfields as Htf. unfold form_typeFields in Htf.
  destruct (typeFields types props name) as [r|] eqn:Hr; [|done]. cbn in Htf. subst r.
  apply typeFields_paths in Hr as (Hat & Hkeys & Hac).
  assert (∀ f, f ∈ sfs_list fields → is_Some (path_type types (TStruct name) (fd_index f))) as Hpaths.
  { intros f Hf. apply field_path. by apply (proj1 (Forall_forall _ _) Hat). }
  unfold form_Encode, form_scan, scan_struct in Henc. destruct v as [l|vs|[]]; try done. cbn [deref] in Henc.
  rewrite (bool_decide_false _ Hname), Hfields in Henc. cbn [mbind outcome_bind] in Henc.
  destruct (get_fields _ _ _ _ _ _ _ _) as [[values [err|]]|] eqn:Hget; [done| |done]. injection Henc as <-.
  assert (∀ k l, values !! k = Some l → l ≠ []) as Hne by (eapply get_fields_nonempty; [|exact Hget]; intros k l; by rewrite lookup_empty).
  destruct (get_fields_spec types zero_leaf GetValue add_form (λ f, p_Key (fd_props f)) (λ m k, m !! k) (λ _ d, d ≠ [])
              (TStruct name) (VStruct vs) (sfs_list fields) ∅ values) as [_ Hspec]; try done.
  { intros f d acc acc' _ Hd Hfree [= <-]. split.
    - rewrite foldl_Add_lookup, decide_True by done. by rewrite Hfree.
    - intros s Hs. rewrite foldl_Add_lookup, decide_False by naive_solver. done. }
  destruct (set_fields_spec types zero_leaf (form_set SetValue values) (TStruct name) (sfs_list fields) (zero (TStruct name))
              (λ f, peek (TStruct name) (VStruct vs) (fd_index f))) as (v' & Hdec & _ & Hwant & _); [done|by apply zero_typed|done| |].
  { intros f Hf. destruct (Hpaths f Hf) as [t Ht]. exists t.
    assert (has_type types (peek (TStruct name) (VStruct vs) (fd_index f)) t) as Hpt by (by apply peek_typed).
    split_and!; [done|by apply (proj1 (Forall_forall _ _) Hset)|by apply peek_zero|done|]. unfold form_set.
    destruct (Hspec f t Hf Ht) as [(Hzero & -> & _)|(d & Hg & ->)]; cbn [default].
    - rewrite Hnone, <-Hzero. done.
    - change (id d) with d. rewrite (Hconv _ _ d Hpt Hg); [done|]. by eapply Hren. }
  exists v'. split; [|done]. unfold form_Decode. rewrite ParseQuery_Encode by done. unfold form_decode.
  rewrite (bool_decide_false _ Hname), Hfields. cbn [mbind outcome_bind]. rewrite Hdec. done.
Qed.
End form_theorems.

(** ** Examples *)

Module UrlEncodedExamples.
Import ParamCodecExamples.
(** A login form; the password is required. *)
Definition form_tys : gmap string (list StructField) :=
  {[ "Login" := [fld "User" (TBase "string") [("json", "user")]; fld "Password" (TBase "string") [("json", ",required")]; emb "Extra" (TStruct "Extra")];
     "Extra" := [fld "Tags" (TBase "[]string") [("json", "tag")]] ]}.
Definition login : rvalue Leaf := VStruct [VLeaf ["tom & co"]; VLeaf ["a=b;c"]; VStruct [VLeaf ["x y"; "%"]]].
Definition login_body : string := "password=a%3Db%3Bc&tag=x+y&tag=%25&user=tom+%26+co".

Example login_encoded :
  form_Encode form_tys zl camel float Get' (FormValue (TStruct "Login") login) = Ret (inl login_body).
Proof. vm_compute. reflexivity. Qed.

Lemma form_laid_out : laid_out form_tys zl.
Proof.
  intros n. unfold zero. destruct (form_tys !! n) as [fs|] eqn:Hn; [|unfold zero_fuel at 1; by rewrite Hn].
  unfold form_tys in Hn. apply lookup_insert_Some in Hn as [[<- <-]|[_ Hn]]; [vm_compute; reflexivity|].
  apply lookup_singleton_Some in Hn as [<- <-]. vm_compute. reflexivity.
Qed.

(** A value is set only from strings. *)
Definition FormSet (t : rtype) (x : rvalue Leaf) (d : list string) : rvalue Leaf * option error :=
  match d with [] => (x, None) | _ => Set' t x d end.

Lemma form_conversions : conversions form_tys zl FormSet Get'.
Proof.
  intros t x d Hx Hg Hd. destruct d as [|s d]; [done|].
  destruct t as [k|n|[k|n|t]], x as [l|vs|[[l|vs|o]|]]; cbn in *; simplify_eq; done.
Qed.

Definition login_r : structFields nat :=
  match form_typeFields form_tys camel float "Login" with Ret r => r | Panic _ => {| sfs_list := []; sfs_nameIndex := ∅ |} end.

Lemma login_rendered f t d :
  f ∈ sfs_list login_r → path_type form_tys (TStruct "Login") (fd_index f) = Some t →
  Get' t (peek form_tys zl (TStruct "Login") login (fd_index f)) = inl d → d ≠ [].
Proof.
  intros Hf. let l := eval vm_compute in (sfs_list login_r) in change (sfs_list login_r) with l in Hf.
  repeat (apply elem_of_cons in Hf as [->|Hf];
    [intros Ht Hd; vm_compute in Ht; injection Ht as <-; vm_compute in Hd; by injection Hd as <-|]).
  by apply elem_of_nil in Hf.
Qed.

Lemma form_roundtrip_witness :
  ∃ v', form_Decode form_tys zl camel float FormSet None (inl login_body) (TPtr (TStruct "Login"))
          (VPtr (Some (zero form_tys zl (TStruct "Login")))) = Ret (None, VPtr (Some v')) ∧
    ∀ f, f ∈ sfs_list login_r → peek form_tys zl (TStruct "Login") v' (fd_index f) = peek form_tys zl (TStruct "Login") login (fd_index f).
Proof.
  apply (form_roundtrip form_tys zl camel float FormSet Get' "Login" login login_r login_body form_conversions);
    [intros [k|n|t]; done|exact form_laid_out|vm_compute; reflexivity|done|vm_compute; tauto| |exact login_rendered|vm_compute; reflexivity].
  apply (bool_decide_unpack _). vm_compute. exact I.
Defined.

(** A form without the required password is not encoded, but it is decoded. *)
Example form_required_ignored :
  form_Encode form_tys zl camel float Get' (FormValue (TStruct "Login") (VStruct [VLeaf ["tom"]; VLeaf []; VStruct [VLeaf []]]))
    = Ret (inr (Errorf "%v must be set" ["password"])) ∧
  form_Decode form_tys zl camel float FormSet None (inl "user=tom") (TPtr (TStruct "Login")) (VPtr (Some (zero form_tys zl (TStruct "Login"))))
    = Ret (None, VPtr (Some (VStruct [VLeaf ["tom"]; VLeaf []; VStruct [VLeaf []]]))).
Proof. vm_compute. split; reflexivity. Qed.

(** In a map, a struct that cannot be encoded is passed over. *)
Example form_map_error_dropped :
  form_Encode form_tys zl camel float Get'
    (FormMap [("login", (TStruct "Login", VStruct [VLeaf ["tom"]; VLeaf []; VStruct [VLeaf []]]))]) = Ret (inl "user=tom").
Proof. vm_compute. reflexivity. Qed.

(** The password is documented without a name: its tag names none. *)
Example form_unnamed_parameter :
  match RouteBuilderReads form_tys camel float "Login" with
  | Ret l => (λ p, (rp_Name p, rp_Required p)) <$> l = [("user", false); ("", true); ("tag", false)]
  | Panic _ => False
  end.
Proof. vm_compute. reflexivity. Qed.
End UrlEncodedExamples.
