(* ===== verification/Rest.v ===== *)
(** * Routes and their handlers

    Models pkg/rest/routehandle.go (a Go function of a prescribed shape becomes a
    handler: its parameters and body are read from the request, the function is called,
    its results are written) and pkg/rest/routebuilder.go (routes are built from their
    descriptions: filters, access control, documentation, the response writer), with
    the registries of the WebServiceBuilder and the security schemes of the OpenAPI
    document.  go-restful, the access control manager and the functions themselves are
    parameters; parameters are decoded by the parameter codec (ParamCodec). *)

From S2P Require Import Prelude GoStrings GoEncoding StructFields ParamCodec UrlEncoded.

Local Open Scope go_scope.

(** ** routehandle.go *)

(** reflect.Type.String and the kinds it inspects; slices and maps are base types. *)
Fixpoint rtype_String (t : rtype) : string :=
  match t with TBase n | TStruct n => n | TPtr t => "*" +:+ rtype_String t end.
Definition is_slice_or_map (t : rtype) : bool :=
  match t with TBase k => HasPrefix k "[]" || HasPrefix k "map[" | _ => false end.

Inductive requestType := paramType | bodyType.

Record routeHandle := {
  rh_in : list requestType;
  rh_param : option rtype;
  rh_body : option rtype;
  rh_out : option rtype;
  rh_numOut : nat;
}.

(** A handle: a function type, or something else. *)
Inductive handle_type :=
  | Func (ins outs : list rtype)
  | NotFunc.

Definition validateHandle (ins outs : list rtype) : option error :=
  let numIn := length ins in
  let numOut := length outs in
  if (numIn <? 2) || (4 <? numIn) then Some (Errorf "%s.NumIn() %d expected [2,4]" [])
  else if rtype_String (default (TBase "") (ins !! 0)) != "http.ResponseWriter" then
    Some (Errorf "expected func %s(*http.Request, http.ResponseWriter, ...)" [])
  else if rtype_String (default (TBase "") (ins !! 1)) != "*http.Request" then
    Some (Errorf "expected func %s(*http.Request, http.ResponseWriter, ...)" [])
  else if 2 <? numOut then Some (Errorf "%s.NumOut() %d expected [0, 2]" [])
  else if (numOut =? 2) && (rtype_String (default (TBase "") (outs !! 1)) != "error") then
    Some (Errorf "func %s expected return (***, error), got (***, %s)" [])
  else if (numOut =? 1) && (rtype_String (default (TBase "") (outs !! 0)) != "error") then
    Some (Errorf "func %s expected return error, got %s" [])
  else None.

Definition validateParamType (rt : rtype) : option error :=
  if is_struct rt then None else Some (Errorf "param just support ptr to struc" []).
Definition validateBodyType (rt : rtype) : option error :=
  if is_struct rt || is_slice_or_map rt then None else Some (Errorf "just support ptr to struct|slice|map" []).
Definition getResponseType (rt : rtype) : rtype := deref rt.

Section rest.
Context {Float Leaf : Type} `{EqDecision Leaf}.
Context (types : gmap string (list StructField)) (zero_leaf : string → Leaf).
Context (LowerCamelCasedName : string → string) (ParseFloat : string → Float + error).
Context (SetValue : rtype → rvalue Leaf → list string → rvalue Leaf * option error).
Abbreviation value := (rvalue Leaf).

Definition isParam (rt : rtype) : outcome bool :=
  err ← ValidateParamType types LowerCamelCasedName ParseFloat rt;
  Ret (match err with None => true | Some _ => false end).

(** The loop over the arguments from the third on. *)
Fixpoint init_in (ins : list rtype) (h : routeHandle) : outcome (routeHandle + error) :=
  match ins with
  | [] => Ret (inl h)
  | TPtr rt :: rest =>
      p ← isParam rt;
      if (p : bool) then
        match validateParamType rt, rh_param h with
        | Some err, _ => Ret (inr (ErrorWrap "request param type invlid" [] err))
        | None, Some _ => Ret (inr (Errorf "duplicate request param field" []))
        | None, None =>
            init_in rest {| rh_in := rh_in h ++ [paramType]; rh_param := Some rt; rh_body := rh_body h; rh_out := rh_out h; rh_numOut := rh_numOut h |}
        end
      else
        match validateBodyType rt, rh_body h with
        | Some err, _ => Ret (inr (ErrorWrap "get request body type" [] err))
        | None, Some _ => Ret (inr (Errorf "duplicate request body field" []))
        | None, None =>
            init_in rest {| rh_in := rh_in h ++ [bodyType]; rh_param := rh_param h; rh_body := Some rt; rh_out := rh_out h; rh_numOut := rh_numOut h |}
        end
  | _ :: _ => Ret (inr (Errorf "payload must be a ptr" []))
  end.

Definition initHandleIO (ins outs : list rtype) : outcome (routeHandle + error) :=
  r ← init_in (drop 2 ins) {| rh_in := []; rh_param := None; rh_body := None; rh_out := None; rh_numOut := length outs |};
  match r with
  | inr err => Ret (inr err)
  | inl h =>
      Ret (inl (if length outs =? 2
                then {| rh_in := rh_in h; rh_param := rh_param h; rh_body := rh_body h;
                        rh_out := getResponseType <$> outs !! 0; rh_numOut := rh_numOut h |}
                else h))
  end.

Definition NewRouteHandle (t : handle_type) : outcome (routeHandle + error) :=
  match t with
  | NotFunc => Ret (inr (Errorf "%s expected func" []))
  | Func ins outs =>
      match validateHandle ins outs with
      | Some err => Ret (inr (ErrorWrap "validate handle function %s %s" [] err))
      | None =>
          r ← initHandleIO ins outs;
          Ret (match r with inl h => inl h | inr err => inr (ErrorWrap "init handleIO" [] err) end)
      end
  end.

Definition newInterface (rt : option rtype) : option value :=
  rt ← rt; Some (VPtr (Some (zero types zero_leaf rt))).

(** What the request brings: its parameters, its body or the error of reading it, the
    decoder the Content-Type selects or the error of the negotiation. *)
Record rest_request := {
  rq_params : Parameters;
  rq_body : string + error;
  rq_serializer : (string → value → value * option error) + error;
}.

(** [Validate] of a value, if its type has that method: [None] when it has not, or
    returns nil. *)
Context (Validate : value → option error).

(** The error that is returned, and the values of the parameters and the body. *)
Definition readEntity (req : rest_request) (param_t : option rtype) (param body : option value)
    : outcome (option error * option value * option value) :=
  r ← match param, param_t with
      | Some param, Some t =>
          r ← decodeParameters types zero_leaf LowerCamelCasedName ParseFloat SetValue (Some (rq_params req)) (TPtr t) param;
          match r with
          | (Some _, param) => Ret (Some None, Some param)   (* the error is not returned *)
          | (None, param) =>
              Ret (match Validate param with Some err => Some (Some err) | None => None end, Some param)
          end
      | _, _ => Ret (None, param)
      end;
  let '(returned, param) := r in
  match returned with
  | Some err => Ret (err, param, body)
  | None =>
      match body with
      | None => Ret (None, param, body)
      | Some b =>
          match rq_serializer req with
          | inr err => Ret (Some err, param, body)
          | inl decode =>
              match rq_body req with
              | inr err => Ret (Some err, param, body)
              | inl buff =>
                  match decode buff b with
                  | (b, Some err) => Ret (Some err, param, Some b)
                  | (b, None) => Ret (Validate b, param, Some b)
                  end
              end
          end
      end
  end.

(** What a handler does, in order: audit the body, call the function, write a response
    (an object and an error), set the error attribute. *)
Inductive rest_event :=
  | EvAudit (body : option value)
  | EvCall (args : list value)
  | EvRespond (obj : option value) (err : option error)
  | EvAttribute (err : error).

(** What the function returns: the object of a function with two results, and the
    error of one with at least one. *)
Context (call : list value → option value * option error).

Definition handler_args (h : routeHandle) (param body : option value) : list value :=
  omap (λ v, match v with paramType => param | bodyType => body end) (rh_in h).

Definition after_call (h : routeHandle) (args : list value) : list rest_event :=
  let '(obj, err) := call args in
  match rh_numOut h with
  | 1 => EvRespond None err :: match err with Some e => [EvAttribute e] | None => [] end
  | 2 => EvRespond obj err :: match err with Some e => [EvAttribute e] | None => [] end
  | _ => []
  end.

Definition Handler (h : routeHandle) (req : rest_request) : outcome (list rest_event) :=
  r ← readEntity req (rh_param h) (newInterface (rh_param h)) (newInterface (rh_body h));
  match r with
  | (Some err, _, _) => Ret [EvRespond None (Some err)]
  | (None, param, body) =>
      let args := handler_args h param body in
      Ret (EvAudit body :: EvCall args :: after_call h args)
  end.
End rest.

(** ** routebuilder.go *)

Definition MIME_URL_ENCODED : string := "application/x-www-form-urlencoded".

Section register.
Context {Float : Type} (types : gmap string (list StructField)).
Context (LowerCamelCasedName : string → string) (ParseFloat : string → Float + error).

(** What the OpenAPI document says of a handle: its parameters, its form or body, its
    result. *)
Record route_docs := {
  rd_params : list (RestfulParameter (Float := Float));
  rd_form : list (RestfulParameter (Float := Float));
  rd_reads : option rtype;
  rd_output : option rtype;
}.

Definition buildBody (consume : string) (body : rtype) : outcome (list (RestfulParameter (Float := Float)) * option rtype) :=
  if consume == MIME_URL_ENCODED then
    match body with
    | TStruct n => form ← RouteBuilderReads types LowerCamelCasedName ParseFloat n; Ret (form, None)
    | _ => Panic "schema: interface must be a struct"
    end
  else Ret ([], Some body).

(** [inputParam], [inputBody] and [output] are given by the route, or else taken from
    the handle. *)
Definition registerHandle (consume : string) (inputParam inputBody output : option rtype) (t : handle_type)
    : outcome ((routeHandle * route_docs) + error) :=
  r ← NewRouteHandle types LowerCamelCasedName ParseFloat t;
  match r with
  | inr err => Ret (inr (ErrorWrap "new route handle" [] err))
  | inl rh =>
      params ← match (match inputParam with Some rt => Some rt | None => rh_param rh end) with
               | Some (TStruct n) => buildParameters types LowerCamelCasedName ParseFloat n
               | Some _ => Panic "schema: interface must be a struct"
               | None => Ret []
               end;
      body ← match (match inputBody with Some rt => Some rt | None => rh_body rh end) with
             | Some rt => buildBody consume rt
             | None => Ret ([], None)
             end;
      Ret (inl (rh, {| rd_params := params; rd_form := body.1; rd_reads := body.2;
                       rd_output := match output with Some rt => Some rt | None => rh_out rh end |}))
  end.
End register.
Arguments route_docs : clear implicits.

Section routes.
(** Filters, response writers and the objects of the documentation. *)
Context {F W O : Type}.

Record Acl := { acl_Filter : F; acl_Scope : string }.
(** AclManager.Get *)
Definition AclManager : Type := string → Acl + error.

Record WsRoute := {
  wr_Acl : string; wr_Method : string; wr_SubPath : string; wr_Desc : string; wr_Scope : string; wr_Consume : string;
  wr_Produce : string; wr_Operation : string; wr_Notes : string; wr_Deprecated : bool; wr_Handle : option O;
  wr_Filter : option F; wr_Filters : list F; wr_Tags : option (list string); wr_RespWriter : option W;
}.

Record WsOption := {
  wo_RootPath : string; wo_AclManager : option AclManager; wo_Filter : option F; wo_Filters : list F;
  wo_Produces : list string; wo_Consumes : list string; wo_PrefixPath : string; wo_Tags : option (list string);
  wo_Routes : list WsRoute; wo_RespWriter : option W;
}.

(** What is set on a restful.Route. *)
Record Route := {
  ro_Method : string; ro_Path : string; ro_Filters : list F; ro_Deprecated : bool; ro_SecurityDefinition : option string;
  ro_Consumes : option string; ro_Produces : option string; ro_Operation : option string; ro_Notes : option string;
  ro_Doc : string; ro_Tags : option (list string);
  (** The writer of the handler's results, if there is a handle. *)
  ro_writer : option W;
  (** The writer that was told about the route. *)
  ro_announced : option W;
}.

Definition nonempty (s : string) : option string := if s == "" then None else Some s.

Definition http_method (method : string) : outcome string :=
  let m := ToUpper method in
  if (m == "GET") || (m == "LIST") then Ret "GET"
  else if (m == "POST") || (m == "CREATE") then Ret "POST"
  else if (m == "PUT") || (m == "UPDATE") then Ret "PUT"
  else if m == "DELETE" then Ret "DELETE"
  else Panic "fatal: unsupported method".

(** WsOption.Validate: [defaultAcl] and [DefaultRespWriter] are the package's defaults. *)
Definition WsOption_Validate (defaultAcl : option AclManager) (DefaultRespWriter : W) (defaultContentTypes : list string) (p : WsOption) : WsOption :=
  {| wo_RootPath := wo_RootPath p;
     wo_AclManager := match wo_AclManager p with Some m => Some m | None => defaultAcl end;
     wo_Filter := wo_Filter p; wo_Filters := wo_Filters p;
     wo_Produces := if 0 <? length (wo_Produces p) then wo_Produces p else defaultContentTypes;
     wo_Consumes := if 0 <? length (wo_Consumes p) then wo_Consumes p else defaultContentTypes;
     wo_PrefixPath := wo_PrefixPath p; wo_Tags := wo_Tags p; wo_Routes := wo_Routes p;
     wo_RespWriter := Some (default DefaultRespWriter (wo_RespWriter p)) |}.

(** The filters and the scope of a route. *)
Definition route_filters (opt : WsOption) (wr : WsRoute) : outcome (list F * string) :=
  let filters := match wo_Filter opt with Some f => [f] | None => [] end ++ wo_Filters opt in
  r ← match wo_AclManager opt with
      | Some m =>
          if wr_Acl wr == "" then Ret (filters, wr_Scope wr)
          else match m (wr_Acl wr) with
               | inr err => Panic "acl not found"
               | inl acl => Ret (filters ++ [acl_Filter acl], acl_Scope acl)
               end
      | None => Ret (filters, wr_Scope wr)
      end;
  Ret (r.1 ++ wr_Filters wr, r.2).

(** The description with the access control and the scope appended. *)
Definition route_doc (wr : WsRoute) (scope : string) : string :=
  wr_Desc wr +:+ (if wr_Acl wr == "" then "" else " acl(" +:+ wr_Acl wr +:+ ")") +:+
  (if scope == "" then "" else " scope(" +:+ scope +:+ ")").

(** [register] is registerHandle on a handle and what the route gives of its types; its
    error is fatal. *)
Definition newRouteBuilder (register : O → outcome (option error)) (opt : WsOption) (wr : WsRoute) : outcome Route :=
  fs ← route_filters opt wr;
  let '(filters, scope) := fs in
  let routeWriter := match wr_RespWriter wr with Some w => Some w | None => wo_RespWriter opt end in
  method ← http_method (wr_Method wr);
  let route (writer announced : option W) :=
    {| ro_Method := method; ro_Path := wo_PrefixPath opt +:+ wr_SubPath wr; ro_Filters := filters; ro_Deprecated := wr_Deprecated wr;
       ro_SecurityDefinition := nonempty scope; ro_Consumes := nonempty (wr_Consume wr); ro_Produces := nonempty (wr_Produce wr);
       ro_Operation := nonempty (wr_Operation wr); ro_Notes := nonempty (wr_Notes wr); ro_Doc := route_doc wr scope;
       ro_Tags := match wr_Tags wr with Some t => Some t | None => wo_Tags opt end;
       ro_writer := writer; ro_announced := announced |} in
  match wr_Handle wr with
  | None => Ret (route None None)
  | Some handle =>
      err ← register handle;
      match err with
      | Some _ => Panic "fatal: register"
      (* the handler is given the writer of the options, not that of the route *)
      | None => Ret (route (wo_RespWriter opt) routeWriter)
      end
  end.

Fixpoint build_routes (register : O → outcome (option error)) (opt : WsOption) (routes : list WsRoute) : outcome (list Route) :=
  match routes with
  | [] => Ret []
  | wr :: rest =>
      r ← newRouteBuilder register opt wr;
      l ← build_routes register opt rest;
      Ret (r :: l)
  end.
End routes.
Arguments Acl : clear implicits.
Arguments WsRoute : clear implicits.
Arguments WsOption : clear implicits.
Arguments Route : clear implicits.

(** *** Security schemes *)

Inductive SecurityScheme :=
  | BasicAuth
  | APIKeyAuth (fieldName valueSource : string)
  | OAuth2Implicit (authorizationURL : string)
  | OAuth2Password (tokenURL : string)
  | OAuth2Application (tokenURL : string)
  | OAuth2AccessToken (authorizationURL tokenURL : string).

Record SchemeConfig := {
  sc_Name : string; sc_Type : string; sc_FieldName : string; sc_ValueSource : string; sc_AuthorizationURL : string; sc_TokenURL : string;
}.

Definition SecurityTypeBase : string := "base".
Definition SecurityTypeBearer : string := "bearer".
Definition SecurityTypeAPIKey : string := "apiKey".
Definition SecurityTypeImplicit : string := "implicit".
Definition SecurityTypePassword : string := "password".
Definition SecurityTypeApplication : string := "application".
Definition SecurityTypeAccessCode : string := "accessCode".

Definition must_be_set (p : SchemeConfig) (field : string) : SecurityScheme + error :=
  inr (Errorf (field +:+ " must be set for %s") [sc_Type p]).

Definition SchemeConfig_SecurityScheme (p : SchemeConfig) : SecurityScheme + error :=
  if sc_Name p == "" then inr (Errorf "name must be set" [])
  else
    let t := ToLower (sc_Type p) in
    if t == SecurityTypeBase then inl BasicAuth
    else if t == SecurityTypeBearer then inl (APIKeyAuth "Authorization" "header")
    else if t == SecurityTypeAPIKey then
      if sc_FieldName p == "" then must_be_set p "fieldName"
      else if sc_ValueSource p == "" then must_be_set p "valueSource"
      else inl (APIKeyAuth (sc_FieldName p) (sc_ValueSource p))
    else if t == SecurityTypeImplicit then
      if sc_AuthorizationURL p == "" then must_be_set p "authorizationURL" else inl (OAuth2Implicit (sc_AuthorizationURL p))
    else if t == SecurityTypePassword then
      if sc_TokenURL p == "" then must_be_set p "tokenURL" else inl (OAuth2Password (sc_TokenURL p))
    else if t == SecurityTypeApplication then
      if sc_TokenURL p == "" then must_be_set p "tokenURL" else inl (OAuth2Application (sc_TokenURL p))
    else if t == SecurityTypeAccessCode then
      if sc_TokenURL p == "" then must_be_set p "tokenURL"
      else if sc_AuthorizationURL p == "" then must_be_set p "authorizationURL"
      else inl (OAuth2AccessToken (sc_AuthorizationURL p) (sc_TokenURL p))
    else inr (Errorf "scheme.type %s is invalid, should be one of %s" [sc_Type p;
      Join [SecurityTypeBase; SecurityTypeBearer; SecurityTypeAPIKey; SecurityTypeImplicit; SecurityTypePassword;
            SecurityTypeApplication; SecurityTypeAccessCode] ", "]).

(** *** The WebServiceBuilder's registries *)

Record SwaggerTag := { tag_Name : string; tag_Description : string }.

Record WebServiceBuilder := {
  wb_ScopeCatalog : gmap string string;
  (** Each scheme with the scopes it was registered with. *)
  wb_securitySchemeCatalog : gmap string (SecurityScheme * gmap string string);
  wb_respWriterCatalog : gset string;
  wb_swaggerTags : list SwaggerTag;
}.

Definition ScopeRegister (p : WebServiceBuilder) (scope description : string) : WebServiceBuilder :=
  {| wb_ScopeCatalog := <[scope := description]> (wb_ScopeCatalog p); wb_securitySchemeCatalog := wb_securitySchemeCatalog p;
     wb_respWriterCatalog := wb_respWriterCatalog p; wb_swaggerTags := wb_swaggerTags p |}.

Definition SecuritySchemeRegister (p : WebServiceBuilder) (name : string) (s : SecurityScheme) : option error * WebServiceBuilder :=
  match wb_securitySchemeCatalog p !! name with
  | Some _ => (Some (Errorf "SecuritySchemeRegister %s exists" [name]), p)
  | None =>
      (None, {| wb_ScopeCatalog := wb_ScopeCatalog p; wb_securitySchemeCatalog := <[name := (s, wb_ScopeCatalog p)]> (wb_securitySchemeCatalog p);
                wb_respWriterCatalog := wb_respWriterCatalog p; wb_swaggerTags := wb_swaggerTags p |})
  end.

(** Without the check of SwaggerTagRegister. *)
Definition SwaggerTagsRegister (p : WebServiceBuilder) (tags : list SwaggerTag) : WebServiceBuilder :=
  {| wb_ScopeCatalog := wb_ScopeCatalog p; wb_securitySchemeCatalog := wb_securitySchemeCatalog p;
     wb_respWriterCatalog := wb_respWriterCatalog p; wb_swaggerTags := wb_swaggerTags p ++ tags |}.

Definition SwaggerTagRegister (p : WebServiceBuilder) (name desc : string) : WebServiceBuilder :=
  if existsb (λ t, tag_Name t == name) (wb_swaggerTags p) then p
  else {| wb_ScopeCatalog := wb_ScopeCatalog p; wb_securitySchemeCatalog := wb_securitySchemeCatalog p;
          wb_respWriterCatalog := wb_respWriterCatalog p;
          wb_swaggerTags := wb_swaggerTags p ++ [{| tag_Name := name; tag_Description := desc |}] |}.

Definition ResponseWriterRegister (p : WebServiceBuilder) (name : string) : option error * WebServiceBuilder :=
  if bool_decide (name ∈ wb_respWriterCatalog p) then (Some (Errorf "ResponseWriterRegister %s exists" [name]), p)
  else (None, {| wb_ScopeCatalog := wb_ScopeCatalog p; wb_securitySchemeCatalog := wb_securitySchemeCatalog p;
                 wb_respWriterCatalog := {[name]} ∪ wb_respWriterCatalog p; wb_swaggerTags := wb_swaggerTags p |}).

(** The part of InstallApiDocs that registers the configured schemes: the first error
    stops it, what was registered before stays. *)
Fixpoint install_schemes (p : WebServiceBuilder) (schemes : list SchemeConfig) : option error * WebServiceBuilder :=
  match schemes with
  | [] => (None, p)
  | v :: rest =>
      match SchemeConfig_SecurityScheme v with
      | inr err => (Some err, p)
      | inl scheme =>
          match SecuritySchemeRegister p (sc_Name v) scheme with
          | (Some err, p) => (Some err, p)
          | (None, p) => install_schemes p rest
          end
      end
  end.

(** The security entries of the operations: every route with a scope requires it of
    every scheme, in the order the map of schemes is ranged over. *)
Definition operation_security (schemes : list string) (securityDefinition : option string) : list (string * string) :=
  match securityDefinition with Some scope => (λ k, (k, scope)) <$> schemes | None => [] end.

(** OperationFrom: the methods a path of the document can have. *)
Definition OperationFrom {Op : Type} (lookup : string → option (string → option Op)) (method path : string) : Op + error :=
  match lookup (TrimRight path (is_byte "/"%char)) with
  | None => inr (Errorf "object has no field %q" [path])
  | Some item =>
      let m := ToLower method in
      if bool_decide (m ∈ ["get"; "post"; "patch"; "delete"; "put"; "head"; "options"]) then
        match item m with Some op => inl op | None => inr (Errorf "can't found %s:%s" [method; path]) end
      else inr (Errorf "skipping Security openapi spec for %s:%s, unsupported method '%s'" [method; path; method])
  end.

(** ** Theorems *)

Section handler_theorems.
Context {Float Leaf : Type} `{EqDecision Leaf}.
Context (types : gmap string (list StructField)) (zero_leaf : string → Leaf).
Context (LowerCamelCasedName : string → string) (ParseFloat : string → Float + error).
Context (SetValue : rtype → rvalue Leaf → list string → rvalue Leaf * option error).
Context (Validate : rvalue Leaf → option error) (call : list (rvalue Leaf) → option (rvalue Leaf) * option error).
Abbreviation decode := (decodeParameters types zero_leaf LowerCamelCasedName ParseFloat SetValue).
Abbreviation new := (newInterface types zero_leaf).

(** The body was read, decoded and validated. *)
Definition body_read (h : routeHandle) (req : rest_request (Leaf := Leaf)) (body : option (rvalue Leaf)) : Prop :=
  match new (rh_body h) with
  | None => body = None
  | Some b0 => ∃ dec buff b, rq_serializer req = inl dec ∧ rq_body req = inl buff ∧ dec buff b0 = (b, None) ∧
                 Validate b = None ∧ body = Some b
  end.

(** The parameters were decoded and validated, with every required one present. *)
Definition params_read (h : routeHandle) (req : rest_request (Leaf := Leaf)) (param : option (rvalue Leaf)) : Prop :=
  match rh_param h with
  | None => param = None
  | Some t => ∃ p0 p, new (Some t) = Some p0 ∧ decode (Some (rq_params req)) (TPtr t) p0 = Ret (None, p) ∧ Validate p = None ∧ param = Some p ∧
      ∀ name fields f, t = TStruct name → cachedTypeFields types LowerCamelCasedName ParseFloat name = Ret fields →
        f ∈ sfs_list fields → p_Required (fd_props f) = true → carries (rq_params req) f
  end.

(** The parameters could not be decoded; the body was left as it was. *)
Definition params_failed (h : routeHandle) (req : rest_request (Leaf := Leaf)) (param body : option (rvalue Leaf)) : Prop :=
  ∃ t p0 err p, rh_param h = Some t ∧ new (Some t) = Some p0 ∧ decode (Some (rq_params req)) (TPtr t) p0 = Ret (Some err, p) ∧
    param = Some p ∧ body = new (rh_body h).

Lemma body_phase h (req : rest_request (Leaf := Leaf)) param (r : option error * option (rvalue Leaf) * option (rvalue Leaf)) :
  match new (rh_body h) with
  | None => Ret (None, param, new (rh_body h))
  | Some b =>
      match rq_serializer req with
      | inr err => Ret (Some err, param, new (rh_body h))
      | inl decode =>
          match rq_body req with
          | inr err => Ret (Some err, param, new (rh_body h))
          | inl buff => match decode buff b with (b, Some err) => Ret (Some err, param, Some b) | (b, None) => Ret (Validate b, param, Some b) end
          end
      end
  end = Ret r → r.1.2 = param ∧ (r.1.1 = None → body_read h req r.2).
Proof.
  unfold body_read. destruct (new (rh_body h)) as [b0|] eqn:Hb; [|by intros [= <-]].
  destruct (rq_serializer req) as [dec|]; [|by intros [= <-]]. destruct (rq_body req) as [buff|]; [|by intros [= <-]].
  destruct (dec buff b0) as [b [err|]] eqn:Hd; intros [= <-]; cbn; [done|]. split; [done|]. intros Hv. by exists dec, buff, b.
Qed.

(** C8: a handler answers an error without calling the function, or calls the function
    once and, when the function has results, answers them once.  The function is called
    with parameters that were decoded (every required one being present) and validated
    and a body that was decoded and validated, or else after the decoding of the
    parameters failed. *)
Theorem Handler_sound h req evs :
  Handler types zero_leaf LowerCamelCasedName ParseFloat SetValue Validate call h req = Ret evs →
  (∃ err, evs = [EvRespond None (Some err)]) ∨
  (∃ param body,
     evs = EvAudit body :: EvCall (handler_args h param body) :: after_call call h (handler_args h param body) ∧
     (params_failed h req param body ∨ params_read h req param ∧ body_read h req body)).
Proof.
  unfold Handler, readEntity.
  destruct (rh_param h) as [t|] eqn:Ht.
  - destruct (new (Some t)) as [p0|] eqn:Hp0; [|done].
    destruct (decode (Some (rq_params req)) (TPtr t) p0) as [[[err|] p]|] eqn:Hdec; cbn [mbind outcome_bind]; [| |done].
    + intros [= <-]. right. exists (Some p), (new (rh_body h)). split; [done|]. left. by exists t, p0, err, p.
    + destruct (Validate p) as [err|] eqn:Hval; cbn [mbind outcome_bind]; [intros [= <-]; left; by exists err|].
      match goal with |- context [?m ≫= _] => destruct m as [r|] eqn:Hm; [|done] end. cbn [mbind outcome_bind].
      apply body_phase in Hm as [Hpar Hbody]. destruct r as [[[err|] param] body]; cbn in Hpar, Hbody; intros [= <-]; [left; by exists err|].
      right. exists param, body. split; [done|]. right. split; [|by apply Hbody]. subst param. unfold params_read. rewrite Ht.
      exists p0, p. split_and!; try done. intros name fields f -> Hf Hin Hreq.
      cbn in Hp0. injection Hp0 as <-. by eapply decodeParameters_required.
  - cbn [newInterface mbind option_bind outcome_bind].
    match goal with |- context [?m ≫= _] => destruct m as [r|] eqn:Hm; [|done] end. cbn [mbind outcome_bind].
    apply body_phase in Hm as [Hpar Hbody]. destruct r as [[[err|] param] body]; cbn in Hpar, Hbody; intros [= <-]; [left; by exists err|].
    right. exists param, body. split; [done|]. right. split; [|by apply Hbody]. unfold params_read. by rewrite Ht.
Qed.
End handler_theorems.

Section registration_theorems.
Context {Float : Type} (types : gmap string (list StructField)).
Context (LowerCamelCasedName : string → string) (ParseFloat : string → Float + error).

(** What the arguments a handle was registered with mean. *)
Definition args_match (h : routeHandle) (ins : list rtype) : Prop :=
  Forall2 (λ k t, match k with paramType => ∃ rt, t = TPtr rt ∧ rh_param h = Some rt ∧ is_struct rt = true
                             | bodyType => ∃ rt, t = TPtr rt ∧ rh_body h = Some rt end) (rh_in h) ins ∧
  (is_Some (rh_param h) ↔ paramType ∈ rh_in h) ∧ (is_Some (rh_body h) ↔ bodyType ∈ rh_in h) ∧ NoDup (rh_in h).

Lemma init_in_match done_ins ins h h' :
  args_match h done_ins → init_in types LowerCamelCasedName ParseFloat ins h = Ret (inl h') →
  args_match h' (done_ins ++ ins) ∧ rh_numOut h' = rh_numOut h ∧ rh_out h' = rh_out h.
Proof.
  revert done_ins h. induction ins as [|t ins IH]; intros done_ins h Hm; cbn [init_in].
  { intros [= <-]. by rewrite app_nil_r. }
  destruct t as [k|n|rt]; [done..|].
  destruct (isParam types LowerCamelCasedName ParseFloat rt) as [p|]; [|done]. cbn [mbind outcome_bind].
  destruct Hm as (Hf & Hp & Hb & Hnd). destruct p.
  - destruct (validateParamType rt) eqn:Hv; [done|]. destruct (rh_param h) eqn:Hpar; [done|]. intros Hi.
    rewrite cons_middle, app_assoc.
    assert (paramType ∉ rh_in h) as Hno by (rewrite <-Hp; by intros [? [=]]).
    apply (IH (done_ins ++ [TPtr rt])) in Hi as (Hm' & ? & ?); [done|].
    split_and!; cbn.
    + apply Forall2_app; [|constructor; [|constructor]].
      * eapply Forall2_impl; [exact Hf|]. intros [] x; cbn; [|done]. naive_solver.
      * exists rt. split_and!; [done..|]. unfold validateParamType in Hv. by destruct (is_struct rt).
    + split; [intros _; set_solver|by eexists].
    + rewrite Hb. set_solver.
    + apply NoDup_app. split_and!; [done| |apply NoDup_singleton]. intros x Hx ->%list_elem_of_singleton. done.
  - destruct (validateBodyType rt) eqn:Hv; [done|]. destruct (rh_body h) eqn:Hbody; [done|]. intros Hi.
    rewrite cons_middle, app_assoc.
    assert (bodyType ∉ rh_in h) as Hno by (rewrite <-Hb; by intros [? [=]]).
    apply (IH (done_ins ++ [TPtr rt])) in Hi as (Hm' & ? & ?); [done|].
    split_and!; cbn.
    + apply Forall2_app; [|constructor; [|constructor]].
      * eapply Forall2_impl; [exact Hf|]. intros [] x; cbn; [done|]. naive_solver.
      * by exists rt.
    + rewrite Hp. set_solver.
    + split; [intros _; set_solver|by eexists].
    + apply NoDup_app. split_and!; [done| |apply NoDup_singleton]. intros x Hx ->%list_elem_of_singleton. done.
Qed.

(** The signatures that validateHandle accepts. *)
Lemma validateHandle_ok ins outs :
  validateHandle ins outs = None →
  ∃ w r rest, ins = w :: r :: rest ∧ rtype_String w = "http.ResponseWriter" ∧ rtype_String r = "*http.Request" ∧
    length rest ≤ 2 ∧
    (outs = [] ∨ (∃ e, outs = [e] ∧ rtype_String e = "error") ∨ ∃ o e, outs = [o; e] ∧ rtype_String e = "error").
Proof.
  unfold validateHandle. destruct ins as [|w [|r rest]]; [done..|].
  destruct (_ || (4 <? _)) eqn:Hlen; [done|]. apply orb_false_iff in Hlen as [_ Hl%Nat.ltb_ge]. cbn in Hl.
  cbn [lookup list_lookup default fmap option_fmap option_map from_option].
  case_bool_decide as Hw; [|done]. case_bool_decide as Hr; [|done].
  destruct outs as [|o [|e [|? ?]]]; cbn; try done; intros Ho; exists w, r, rest; split_and!; try done; try lia; [by left|right..].
  - left. exists o. case_bool_decide; done.
  - right. exists o, e. case_bool_decide; done.
Qed.

(** The arguments made for the kinds of arguments have the declared types. *)
Lemma handler_args_typed {Leaf} `{EqDecision Leaf} (zero_leaf : string → Leaf) h rest :
  laid_out types zero_leaf → args_match h rest →
  Forall2 (has_type types) (handler_args h (newInterface types zero_leaf (rh_param h)) (newInterface types zero_leaf (rh_body h))) rest.
Proof.
  intros Hz (Hm & Hp & Hb & _). unfold handler_args. clear Hp Hb. induction Hm as [|k t ks ts Hk _ IH]; [constructor|].
  destruct k; cbn [omap list_omap]; destruct Hk as (rt & -> & Hrt & _) || destruct Hk as (rt & -> & Hrt); rewrite Hrt in *; cbn [newInterface mbind option_bind];
    (constructor; [cbn; by apply zero_typed|apply IH]).
Qed.

(** C26: a function that is accepted as a handle takes an http.ResponseWriter, a
    *http.Request and after them, in any order, at most one pointer to a struct with
    parameters and at most one pointer to a body; with one result it returns an error,
    with two its second is one.  The call passes after the first two exactly one value
    per further argument, each of the declared type, so that it cannot fail. *)
Theorem NewRouteHandle_args {Leaf} `{EqDecision Leaf} (zero_leaf : string → Leaf) ins outs h param body :
  laid_out types zero_leaf →
  NewRouteHandle types LowerCamelCasedName ParseFloat (Func ins outs) = Ret (inl h) →
  param = newInterface types zero_leaf (rh_param h) → body = newInterface types zero_leaf (rh_body h) →
  ∃ w r rest, ins = w :: r :: rest ∧
    rtype_String w = "http.ResponseWriter" ∧ rtype_String r = "*http.Request" ∧
    args_match h rest ∧ length rest ≤ 2 ∧
    (outs = [] ∨ (∃ e, outs = [e] ∧ rtype_String e = "error") ∨ ∃ o e, outs = [o; e] ∧ rtype_String e = "error") ∧
    rh_numOut h = length outs ∧
    Forall2 (has_type types) (handler_args h param body) rest.
Proof.
  intros Hz. unfold NewRouteHandle. destruct (validateHandle ins outs) as [err|] eqn:Hv; [done|].
  unfold initHandleIO. set (h0 := {| rh_in := []; rh_param := None; rh_body := None; rh_out := None; rh_numOut := length outs |}).
  destruct (init_in types LowerCamelCasedName ParseFloat (drop 2 ins) h0) as [[h1|]|] eqn:Hi; cbn [mbind outcome_bind]; [|done..].
  assert (args_match h0 []) as H0 by (split_and!; [constructor|..|constructor]; (split; [by intros [? ?]|by intros ?%elem_of_nil])).
  apply (init_in_match [] _ _ _ H0) in Hi as (Hm & Hn & _). intros Hh -> ->.
  assert (rh_in h = rh_in h1 ∧ rh_param h = rh_param h1 ∧ rh_body h = rh_body h1 ∧ rh_numOut h = rh_numOut h1) as (E1 & E2 & E3 & E4)
    by (destruct (length outs =? 2); injection Hh as <-; done).
  apply validateHandle_ok in Hv as (w & r & rest & -> & Hw & Hr & Hl & Ho). exists w, r, rest. cbn [drop app] in Hm.
  assert (args_match h rest) as Hm' by (unfold args_match in *; by rewrite E1, E2, E3).
  split_and!; try done; [by rewrite E4|]. by apply handler_args_typed.
Qed.
End registration_theorems.

(** The parameters of a handle are documented as they are decoded: in the same kind of
    place, under the same key, and required when they are; all but the hidden ones,
    which no path parameter is. *)
Theorem registerHandle_documents {Float} types camel (ParseFloat : string → Float + error) consume inputBody output t rh docs name fields :
  registerHandle types camel ParseFloat consume None inputBody output t = Ret (inl (rh, docs)) →
  rh_param rh = Some (TStruct name) → cachedTypeFields types camel ParseFloat name = Ret fields →
  (λ p, (rp_Kind p, rp_Name p, rp_Required p)) <$> rd_params docs =
  (λ f, (p_ParamType (fd_props f), p_Key (fd_props f), p_Required (fd_props f))) <$>
    filter (λ f, p_ParamType (fd_props f) = PathType ∨ p_Hidden (fd_props f) = false) (sfs_list fields).
Proof.
  intros Hr Hp Hf. unfold registerHandle in Hr.
  destruct (NewRouteHandle types camel ParseFloat t) as [[rh'|]|]; cbn [mbind outcome_bind] in Hr; [|done..].
  destruct (match rh_param rh' with Some (TStruct n) => _ | Some _ => _ | None => _ end) as [params|] eqn:Hb; [|done].
  cbn [mbind outcome_bind] in Hr. destruct (match (match inputBody with Some rt => _ | None => _ end) with Some rt => _ | None => _ end);
    [|done]. cbn [mbind outcome_bind] in Hr. injection Hr as -> <-. cbn [rd_params]. rewrite Hp in Hb.
  unfold buildParameters in Hb. case_bool_decide; [done|]. rewrite Hf in Hb. cbn [mbind outcome_bind] in Hb. by apply build_loop_spec.
Qed.

Section route_theorems.
Context {F W O : Type} (register : O → outcome (option error)).

(** The filters of a route that is built: those of the options, then that of its access
    control rule, then its own list.  A rule that does not exist stops the start. *)
Theorem newRouteBuilder_filters (opt : WsOption F W O) (wr : WsRoute F W O) (r : Route F W) :
  newRouteBuilder register opt wr = Ret r →
  let outer := match wo_Filter opt with Some f => [f] | None => [] end ++ wo_Filters opt in
  match wo_AclManager opt with
  | Some m =>
      (wr_Acl wr = "" ∧ ro_Filters r = outer ++ wr_Filters wr) ∨
      (wr_Acl wr ≠ "" ∧ ∃ acl, m (wr_Acl wr) = inl acl ∧ ro_Filters r = outer ++ acl_Filter acl :: wr_Filters wr ∧
         ro_SecurityDefinition r = nonempty (acl_Scope acl))
  | None => ro_Filters r = outer ++ wr_Filters wr
  end.
Proof.
  intros Hr outer. unfold newRouteBuilder in Hr. destruct (route_filters opt wr) as [[fs scope]|] eqn:Hf; [|done].
  cbn [mbind outcome_bind] in Hr.
  assert (ro_Filters r = fs ∧ ro_SecurityDefinition r = nonempty scope) as [-> ->].
  { destruct (http_method (wr_Method wr)) as [m|]; [|done]. cbn [mbind outcome_bind] in Hr.
    destruct (wr_Handle wr) as [o|]; [|by injection Hr as <-].
    destruct (register o) as [[err|]|]; cbn [mbind outcome_bind] in Hr; [done| |done]. by injection Hr as <-. }
  unfold route_filters in Hf. fold outer in Hf. destruct (wo_AclManager opt) as [m|]; [|by injection Hf as <- <-].
  destruct (decide (wr_Acl wr = "")) as [Ha|Ha].
  - left. rewrite (bool_decide_true _ Ha) in Hf. by injection Hf as <- <-.
  - right. rewrite (bool_decide_false _ Ha) in Hf. split; [done|]. destruct (m (wr_Acl wr)) as [acl|]; [|done].
    injection Hf as <- <-. exists acl. by rewrite <-app_assoc.
Qed.
End route_theorems.

(** The schemes a configuration can name: the types apiKey and accessCode are never
    recognised, in whatever case they are written, because the type is compared in lower
    case. *)
Theorem SecurityScheme_types p :
  (∃ s, SchemeConfig_SecurityScheme p = inl s) ↔
  sc_Name p ≠ "" ∧
  (ToLower (sc_Type p) = "base" ∨ ToLower (sc_Type p) = "bearer" ∨
   (ToLower (sc_Type p) = "implicit" ∧ sc_AuthorizationURL p ≠ "") ∨
   ((ToLower (sc_Type p) = "password" ∨ ToLower (sc_Type p) = "application") ∧ sc_TokenURL p ≠ "")).
Proof.
  assert (ToLower (sc_Type p) ≠ SecurityTypeAPIKey ∧ ToLower (sc_Type p) ≠ SecurityTypeAccessCode) as [Hk Hc].
  { split; intros He; apply (f_equal ToLower) in He as He'; rewrite ToLower_idem, He in He'; discriminate He'. }
  unfold SchemeConfig_SecurityScheme, must_be_set. destruct (decide (sc_Name p = "")) as [Hn|Hn];
    [rewrite (bool_decide_true _ Hn); split; [by intros [s ?]|by intros [? _]]|rewrite (bool_decide_false _ Hn)].
  rewrite (bool_decide_false _ Hk), (bool_decide_false _ Hc).
  unfold SecurityTypeBase, SecurityTypeBearer, SecurityTypeImplicit, SecurityTypePassword, SecurityTypeApplication.
  repeat case_bool_decide; split; try (intros [s Hs]; discriminate Hs); try (intros _; split; [done|]; naive_solver congruence); try (intros _; by eexists);
    intros [_ Hx]; exfalso; naive_solver congruence.
Qed.

(** ** Examples *)

Module RestExamples.
Import ParamCodecExamples.

Definition rw : rtype := TBase "http.ResponseWriter".
Definition rq : rtype := TPtr (TBase "http.Request").
Definition err_t : rtype := TBase "error".
(** func(w http.ResponseWriter, r *http.Request, param *List, body *Item) ( *Item, error) *)
Definition rest_tys : gmap string (list StructField) := <["Item" := [fld "Value" (TBase "string") []]]> tys.
Definition update_h : routeHandle :=
  {| rh_in := [paramType; bodyType]; rh_param := Some (TStruct "List"); rh_body := Some (TStruct "Item"); rh_out := Some (TStruct "Item"); rh_numOut := 2 |}.

Example update_handle :
  NewRouteHandle rest_tys camel float (Func [rw; rq; TPtr (TStruct "List"); TPtr (TStruct "Item")] [TPtr (TStruct "Item"); err_t]) = Ret (inl update_h).
Proof. vm_compute. reflexivity. Qed.

Lemma registerHandle_documents_witness :
  match registerHandle rest_tys camel float "" None None None
          (Func [rw; rq; TPtr (TStruct "List"); TPtr (TStruct "Item")] [TPtr (TStruct "Item"); err_t]) with
  | Ret (inl (rh, docs)) =>
      (λ p, (rp_Kind p, rp_Name p, rp_Required p)) <$> rd_params docs =
      [("path", "name", true); ("query", "pageSize", false); ("query", "sort", false)]
  | _ => False
  end.
Proof.
  pose proof (λ rh docs fields, registerHandle_documents rest_tys camel float "" None None
    (Func [rw; rq; TPtr (TStruct "List"); TPtr (TStruct "Item")] [TPtr (TStruct "Item"); err_t]) rh docs "List" fields) as Hd.
  destruct (registerHandle rest_tys camel float "" None None None _) as [[[rh docs]|]|] eqn:Hr; [|vm_compute in Hr; discriminate Hr..].
  destruct (cachedTypeFields rest_tys camel float "List") as [fields|] eqn:Hf; [|vm_compute in Hf; discriminate Hf].
  rewrite (Hd rh docs fields eq_refl); [|by vm_compute in Hr; injection Hr as <- <-|reflexivity].
  vm_compute in Hf. injection Hf as <-. vm_compute. reflexivity.
Defined.

(** The body of a request is its text; only "bad" is not valid. *)
Definition set_item (s : string) (v : rvalue Leaf) : rvalue Leaf * option error := (VPtr (Some (VStruct [VLeaf [s]])), None).
Definition valid (v : rvalue Leaf) : option error :=
  match v with VPtr (Some (VStruct [VLeaf ["bad"]])) => Some (Errorf "invalid item" []) | _ => None end.
Definition echo (args : list (rvalue Leaf)) : option (rvalue Leaf) * option error := (last args, None).
Definition serve (p : Parameters) (body : string) : outcome (list rest_event) :=
  Handler rest_tys zl camel float Set' valid echo update_h {| rq_params := p; rq_body := inl body; rq_serializer := inl set_item |}.

Definition item (s : string) : rvalue Leaf := VPtr (Some (VStruct [VLeaf [s]])).
Definition list_ptr : rvalue Leaf :=
  VPtr (Some (VStruct [VLeaf ["tom"]; VPtr (Some (VStruct [VLeaf ["10"]; VLeaf ["a"; "b"]; VLeaf []])); VPtr (Some (VLeaf ["t1"]))])).

Example served :
  serve list_params "good" = Ret [EvAudit (Some (item "good")); EvCall [list_ptr; item "good"]; EvRespond (Some (item "good")) None].
Proof. vm_compute. reflexivity. Qed.

Lemma Handler_sound_witness :
  (∃ err, [EvRespond None (Some (Errorf "invalid item" []))] = [EvRespond (Leaf := Leaf) None (Some err)]) ∨
  (∃ param body,
     [EvRespond None (Some (Errorf "invalid item" []))] =
       EvAudit body :: EvCall (handler_args update_h param body) :: after_call echo update_h (handler_args update_h param body) ∧
     (params_failed rest_tys zl camel float Set' update_h {| rq_params := list_params; rq_body := inl "bad"; rq_serializer := inl set_item |} param body ∨
      params_read rest_tys zl camel float Set' valid update_h {| rq_params := list_params; rq_body := inl "bad"; rq_serializer := inl set_item |} param ∧
      body_read rest_tys zl valid update_h {| rq_params := list_params; rq_body := inl "bad"; rq_serializer := inl set_item |} body)).
Proof. apply (Handler_sound rest_tys zl camel float Set' valid echo). vm_compute. reflexivity. Defined.

(** A request without the required name: decoding its parameters fails, the error is
    dropped, and the function is called with the zero parameters and an empty body. *)
Example required_not_enforced :
  serve {| pa_Path := ∅; pa_Query := pa_Query list_params; pa_Header := ∅ |} "bad" =
  Ret [EvAudit (Some (VPtr (Some (VStruct [VLeaf []]))));
       EvCall [VPtr (Some (VStruct [VLeaf []; VPtr None; VPtr None])); VPtr (Some (VStruct [VLeaf []]))];
       EvRespond (Some (VPtr (Some (VStruct [VLeaf []])))) None].
Proof. vm_compute. reflexivity. Qed.

(** A slice is accepted as a body by validateBodyType, but registering such a function
    panics: every payload is first examined as a struct of parameters. *)
Example slice_body_panics :
  validateBodyType (TBase "[]string") = None ∧
  NewRouteHandle rest_tys camel float (Func [rw; rq; TPtr (TBase "[]string")] [err_t]) = Panic "reflect: NumField of non-struct type".
Proof. vm_compute. split; reflexivity. Qed.

Lemma rest_laid_out : laid_out rest_tys zl.
Proof.
  intros n. unfold zero. destruct (rest_tys !! n) as [fs|] eqn:Hn; [|unfold zero_fuel at 1; by rewrite Hn].
  unfold rest_tys, tys in Hn. apply lookup_insert_Some in Hn as [[<- <-]|[_ Hn]]; [vm_compute; reflexivity|].
  apply lookup_insert_Some in Hn as [[<- <-]|[_ Hn]]; [vm_compute; reflexivity|].
  apply lookup_singleton_Some in Hn as [<- <-]. vm_compute. reflexivity.
Qed.

Lemma NewRouteHandle_args_witness :
  rtype_String rw = "http.ResponseWriter" ∧
  Forall2 (has_type rest_tys)
    (handler_args update_h (newInterface rest_tys zl (rh_param update_h)) (newInterface rest_tys zl (rh_body update_h)))
    [TPtr (TStruct "List"); TPtr (TStruct "Item")].
Proof.
  destruct (NewRouteHandle_args rest_tys camel float zl [rw; rq; TPtr (TStruct "List"); TPtr (TStruct "Item")] [TPtr (TStruct "Item"); err_t]
           update_h (newInterface rest_tys zl (rh_param update_h)) (newInterface rest_tys zl (rh_body update_h)) rest_laid_out)
    as (w & r & rest & Heq & Hw & _ & _ & _ & _ & _ & Ht); [vm_compute; reflexivity|reflexivity|reflexivity|].
  injection Heq as <- <- <-. split; [exact Hw|exact Ht].
Defined.

(** *** Routes *)

Definition route (acl : string) (filter : option string) (filters : list string) (w : option string) : WsRoute string string unit :=
  {| wr_Acl := acl; wr_Method := "list"; wr_SubPath := "/users"; wr_Desc := "users"; wr_Scope := ""; wr_Consume := ""; wr_Produce := "";
     wr_Operation := ""; wr_Notes := ""; wr_Deprecated := false; wr_Handle := Some tt; wr_Filter := filter; wr_Filters := filters;
     wr_Tags := None; wr_RespWriter := w |}.
Definition options (m : option AclManager) : WsOption string string unit :=
  {| wo_RootPath := "/"; wo_AclManager := m; wo_Filter := Some "log"; wo_Filters := ["trace"]; wo_Produces := []; wo_Consumes := [];
     wo_PrefixPath := "/api"; wo_Tags := None; wo_Routes := []; wo_RespWriter := Some "json" |}.
Definition manager : AclManager :=
  λ name, if name == "admin" then inl {| acl_Filter := "acl:admin"; acl_Scope := "write" |} else inr (Errorf "no acl" []).
Definition ok (_ : unit) : outcome (option error) := Ret None.
Definition built (m : option AclManager) (wr : WsRoute string string unit) : outcome (list string * option string * option string * string) :=
  r ← newRouteBuilder ok (options m) wr; Ret (ro_Filters r, ro_writer r, ro_announced r, ro_Doc r).

Definition admin_route : Route string string :=
  {| ro_Method := "GET"; ro_Path := "/api/users"; ro_Filters := ["log"; "trace"; "acl:admin"; "own"]; ro_Deprecated := false;
     ro_SecurityDefinition := Some "write"; ro_Consumes := None; ro_Produces := None; ro_Operation := None; ro_Notes := None;
     ro_Doc := "users acl(admin) scope(write)"; ro_Tags := None; ro_writer := Some "json"; ro_announced := Some "json" |}.

Lemma newRouteBuilder_filters_witness :
  ("admin" = "" ∧ ro_Filters admin_route = ["log"; "trace"; "own"]) ∨
  ("admin" ≠ "" ∧ ∃ acl, manager "admin" = inl acl ∧ ro_Filters admin_route = ["log"; "trace"; acl_Filter acl; "own"] ∧
     ro_SecurityDefinition admin_route = nonempty (acl_Scope acl)).
Proof.
  exact (newRouteBuilder_filters ok (options (Some manager)) (route "admin" None ["own"] None) admin_route
           ltac:(vm_compute; reflexivity)).
Defined.

(** The single filter of a route is never installed, although the documented order
    names it. *)
Example route_filter_ignored :
  built (Some manager) (route "admin" (Some "mine") ["own"] None) =
  Ret (["log"; "trace"; "acl:admin"; "own"], Some "json", Some "json", "users acl(admin) scope(write)").
Proof. vm_compute. reflexivity. Qed.

(** A route's own response writer is told about the route, but the results are written
    by that of the options. *)
Example route_writer_ignored :
  built (Some manager) (route "" None [] (Some "xml")) = Ret (["log"; "trace"], Some "json", Some "xml", "users").
Proof. vm_compute. reflexivity. Qed.

(** Without a manager the rule is documented and not enforced. *)
Example acl_without_manager :
  built None (route "admin" None [] None) = Ret (["log"; "trace"], Some "json", Some "json", "users acl(admin)").
Proof. vm_compute. reflexivity. Qed.

Example api_key_rejected :
  SchemeConfig_SecurityScheme {| sc_Name := "key"; sc_Type := "apiKey"; sc_FieldName := "X-Key"; sc_ValueSource := "header";
                                 sc_AuthorizationURL := ""; sc_TokenURL := "" |} =
  inr (Errorf "scheme.type %s is invalid, should be one of %s" ["apiKey"; "base, bearer, apiKey, implicit, password, application, accessCode"]).
Proof. vm_compute. reflexivity. Qed.
End RestExamples.
