(* ===== verification/ServingOptions.v ===== *)
(** * Serving options and the addresses of the server

    Models pkg/server/config (config.go, serving.go, serving_with_loopback.go,
    deprecated_insecure_serving.go, server_run_options.go): the options of the server,
    their validation and defaults, and how they become listeners, certificates and the
    client of the server itself; with pkg/server/config_selfclient.go,
    deprecated_insecure_serving.go and the part of pkg/server/config.go about addresses.

    net.IP is the list of its bytes, nil and empty alike.  Listening, generating
    certificates and golib's helpers on files and addresses are parameters. *)

From stdpp Require Import pretty.
From Stdlib Require Import SpecFloat.

From S2P Require Import Prelude GoStrings Rest CliFlags Streams Webhook ServiceAccount DynamicCerts.

Local Open Scope go_scope.

(** ** net.IP *)

Abbreviation IP := (list Z).

Definition v4InV6Prefix : IP := [0; 0; 0; 0; 0; 0; 0; 0; 0; 0; 255; 255]%Z.
Definition IPv4zero : IP := v4InV6Prefix ++ [0; 0; 0; 0]%Z.
Definition IPv6unspecified : IP := replicate 16 0%Z.
Definition IPv6loopback : IP := replicate 15 0%Z ++ [1%Z].

Definition To4 (ip : IP) : option IP :=
  if length ip =? 4 then Some ip
  else if (length ip =? 16) && (take 12 ip == v4InV6Prefix) then Some (drop 12 ip)
  else None.

Definition IP_Equal (ip x : IP) : bool :=
  if length ip =? length x then ip == x
  else if (length ip =? 4) && (length x =? 16) then (take 12 x == v4InV6Prefix) && (ip == drop 12 x)
  else if (length ip =? 16) && (length x =? 4) then (take 12 ip == v4InV6Prefix) && (drop 12 ip == x)
  else false.

Definition IsUnspecified (ip : IP) : bool := IP_Equal ip IPv4zero || IP_Equal ip IPv6unspecified.

Definition IsLoopback (ip : IP) : bool :=
  match To4 ip with
  | Some ip4 => bool_decide (head ip4 = Some 127%Z)
  | None => IP_Equal ip IPv6loopback
  end.

Definition hex_byte (b : Z) : string :=
  String (hex_digit (Z.to_nat (b / 16))) (String (hex_digit (Z.to_nat (b mod 16))) "").

(** A 16-bit group without its leading zeros. *)
Fixpoint trim_zeros (s : string) : string :=
  match s with
  | String a (String _ _ as s') => if a == "0"%char then trim_zeros s' else s
  | _ => s
  end.
Definition hex_group (g : Z) : string := trim_zeros (hex_byte (g / 256) +:+ hex_byte (g mod 256)).

Fixpoint groups (ip : IP) : list Z :=
  match ip with
  | a :: b :: ip => (a * 256 + b)%Z :: groups ip
  | _ => []
  end.

(** The first longest run of zeros: its position and length. *)
Fixpoint zero_run (l : list Z) : nat :=
  match l with 0%Z :: l => S (zero_run l) | _ => 0 end.
Fixpoint longest_run (i : nat) (l : list Z) (best : nat * nat) : nat * nat :=
  match l with
  | [] => best
  | _ :: l' => longest_run (S i) l' (if best.2 <? zero_run l then (i, zero_run l) else best)
  end.

Definition IP_String (ip : IP) : string :=
  if length ip =? 0 then "<nil>"
  else
    match To4 ip with
    | Some ip4 => Join (Itoa <$> ip4) "."
    | None =>
        if negb (length ip =? 16) then "?" +:+ foldr (λ b s, hex_byte b +:+ s) "" ip
        else
          let g := groups ip in
          let '(i, n) := longest_run 0 g (0, 0) in
          if n <? 2 then Join (hex_group <$> g) ":"
          else Join (hex_group <$> take i g) ":" +:+ "::" +:+ Join (hex_group <$> drop (i + n) g) ":"
    end.

(** *** Addresses and listeners *)

Inductive net_Addr :=
  | TCPAddr (ip : IP) (port : Z) (zone : string)
  | OtherAddr (s : string).

Definition net_Addr_String (a : net_Addr) : string :=
  match a with
  | TCPAddr ip port zone =>
      let host := if length ip =? 0 then "" else IP_String ip in
      JoinHostPort (if 0 <? slen zone then host +:+ "%" +:+ zone else host) (Itoa port)
  | OtherAddr s => s
  end.

(** A listener is known by its address; two on one address are told apart by a number. *)
Record Listener := { l_id : nat; l_Addr : net_Addr }.

(** ** path.Join *)

Fixpoint clean_parts (rooted : bool) (parts acc : list string) : list string :=
  match parts with
  | [] => reverse acc
  | p :: parts =>
      clean_parts rooted parts
        (if (p == "") || (p == ".") then acc
         else if p == ".." then
           match acc with
           | x :: acc' => if x == ".." then p :: acc else acc'
           | [] => if rooted then [] else [p]
           end
         else p :: acc)
  end.

Definition path_Clean (path : string) : string :=
  if path == "" then "."
  else
    let rooted := HasPrefix path "/" in
    let body := Join (clean_parts rooted (Split path "/") []) "/" in
    if rooted then "/" +:+ body else if body == "" then "." else body.

Definition path_Join (elem : list string) : string :=
  match filter (λ e, e ≠ "") elem with
  | [] => ""
  | elem => path_Clean (Join elem "/")
  end.

Example path_Join_ex : path_Join ["/var/run//apiserver/"; "../x.crt"] = "/var/run/x.crt".
Proof. reflexivity. Qed.
Example IP_String_ex1 : IP_String [0x20; 0x01; 0xd; 0xb8; 0; 0; 0; 0; 0; 1; 0; 0; 0; 0; 0; 1]%Z = "2001:db8::1:0:0:1".
Proof. reflexivity. Qed.
Example IP_String_ex2 : (IP_String IPv4zero, IP_String IPv6unspecified, IP_String IPv6loopback) = ("0.0.0.0", "::", "::1").
Proof. reflexivity. Qed.

(** ** server_run_options.go *)

(** Durations are int64 nanoseconds. *)
Record ServerRunOptions := {
  ro_AdvertiseAddress : IP;
  ro_CorsAllowedOriginList : list string;
  ro_HSTSDirectives : list string;
  ro_ExternalHost : string;
  ro_MaxRequestsInFlight : Z;
  ro_MaxMutatingRequestsInFlight : Z;
  ro_RequestTimeout : Z;
  ro_GoawayChance : spec_float;
  ro_LivezGracePeriod : Z;
  ro_MinRequestTimeout : Z;
  ro_ShutdownDelayDuration : Z;
  ro_JSONPatchMaxCopyBytes : Z;
  ro_MaxRequestBodyBytes : Z;
}.

Definition second : Z := 1000000000.

Definition NewServerRunOptions : ServerRunOptions := {|
  ro_AdvertiseAddress := []; ro_CorsAllowedOriginList := []; ro_HSTSDirectives := []; ro_ExternalHost := "";
  ro_MaxRequestsInFlight := 400; ro_MaxMutatingRequestsInFlight := 200; ro_RequestTimeout := 60 * second;
  ro_GoawayChance := S754_zero false; ro_LivezGracePeriod := 0; ro_MinRequestTimeout := 1800 * second;
  ro_ShutdownDelayDuration := 0; ro_JSONPatchMaxCopyBytes := 3 * 1024 * 1024; ro_MaxRequestBodyBytes := 3 * 1024 * 1024 |}.

Section validation.
Context `{UtilErrors}.

Definition hsts_error (hstsDirective : string) : option error :=
  if slen (TrimSpace hstsDirective) =? 0 then Some (Errorf "empty value in strict-transport-security-directives" [])
  else if (hstsDirective != "includeSubDomains") && (hstsDirective != "preload") then
    let maxAgeDirective := Split hstsDirective "=" in
    if negb (length maxAgeDirective =? 2) || (default "" (maxAgeDirective !! 0) != "max-age")
    then Some (Errorf "--strict-transport-security-directives invalid, allowed values: max-age=expireTime, includeSubDomains, preload. see https://tools.ietf.org/html/rfc6797#section-6.1 for more information" [])
    else None
  else None.

Definition validateHSTSDirectives (hstsDirectives : list string) : option error :=
  NewAggregate (omap hsts_error hstsDirectives).

Definition error_if (b : bool) (msg : string) : list error := if b then [Errorf msg []] else [].

(** The float64 closest to 0.02. *)
Definition goaway_max : spec_float := S754_finite false 5764607523034235 (-58).

Definition ServerRunOptions_Validate (c : ServerRunOptions) : option error :=
  NewAggregate (
    error_if (ro_LivezGracePeriod c <? 0)%Z "--livez-grace-period can not be a negative value" ++
    error_if (ro_MaxRequestsInFlight c <? 0)%Z "--max-requests-inflight can not be negative value" ++
    error_if (ro_MaxMutatingRequestsInFlight c <? 0)%Z "--max-mutating-requests-inflight can not be negative value" ++
    error_if (ro_RequestTimeout c <? 0)%Z "--request-timeout can not be negative value" ++
    error_if (SFltb (ro_GoawayChance c) (S754_zero false) || SFltb goaway_max (ro_GoawayChance c))
      "--goaway-chance can not be less than 0 or greater than 0.02" ++
    error_if (ro_MinRequestTimeout c <? 0)%Z "--min-request-timeout can not be negative value" ++
    error_if (ro_ShutdownDelayDuration c <? 0)%Z "--shutdown-delay-duration can not be negative value" ++
    error_if (ro_MaxRequestBodyBytes c <? 0)%Z "--max-resource-write-bytes can not be negative value" ++
    option_list (validateHSTSDirectives (ro_HSTSDirectives c))).

(** ** serving.go: the options and their validation *)

Record GeneratableKeyCert := {
  gk_CertFile : string;
  gk_KeyFile : string;
  gk_CertDirectory : string;
  gk_PairName : string;
  gk_GeneratedCert : option CertKeyContentProvider;
  gk_FixtureDirectory : string;
}.

Record SecureServingOptions := {
  so_Enabled : option bool;
  so_BindAddress : IP;
  so_BindPort : Z;
  so_BindNetwork : string;
  so_Required : bool;
  so_ExternalAddress : IP;
  so_Listener : option Listener;
  so_ServerCert : GeneratableKeyCert;
  so_SNICertKeys : NamedCertKeyArray;
  so_CipherSuites : list string;
  so_MinTLSVersion : string;
  so_HTTP2MaxStreamsPerConnection : Z;
  so_PermitPortSharing : bool;
  so_PermitAddressSharing : bool;
}.

(** [program] is filepath.Base(os.Args[0]). *)
Definition NewSecureServingOptions (program : string) : SecureServingOptions := {|
  so_Enabled := None; so_BindAddress := IPv4zero; so_BindPort := 8443; so_BindNetwork := ""; so_Required := true;
  so_ExternalAddress := []; so_Listener := None;
  so_ServerCert := {| gk_CertFile := ""; gk_KeyFile := ""; gk_CertDirectory := "/var/run/" +:+ program;
                      gk_PairName := "apiserver"; gk_GeneratedCert := None; gk_FixtureDirectory := "" |};
  so_SNICertKeys := {| nka_value := None; nka_changed := false |}; so_CipherSuites := []; so_MinTLSVersion := "";
  so_HTTP2MaxStreamsPerConnection := 0; so_PermitPortSharing := false; so_PermitAddressSharing := false |}.

Definition port_error (required : bool) (port : Z) : list error :=
  if required && (port <? 1)%Z || (65535 <? port)%Z then
    [Errorf "--secure-port %v must be between 1 and 65535, inclusive. It cannot be turned off with 0" [Itoa port]]
  else if (port <? 0)%Z || (65535 <? port)%Z then
    [Errorf "--secure-port %v must be between 0 and 65535, inclusive. 0 for turning off secure port" [Itoa port]]
  else [].

Definition SecureServingOptions_Validate (p : option SecureServingOptions) : option error :=
  match p with
  | None => None
  | Some p =>
      let cert := so_ServerCert p in
      NewAggregate (
        port_error (so_Required p) (so_BindPort p) ++
        error_if ((negb (slen (gk_CertFile cert) =? 0) || negb (slen (gk_KeyFile cert) =? 0)) &&
                  bool_decide (is_Some (gk_GeneratedCert cert)))
          "cert/key file and in-memory certificate cannot both be set")
  end.

(** ** deprecated_insecure_serving.go *)

(** ListenFunc is nil outside tests. *)
Record DeprecatedInsecureServingOptions := {
  io_Enabled : option bool;
  io_BindAddress : IP;
  io_BindPort : Z;
  io_BindNetwork : string;
  io_Listener : option Listener;
}.

Definition InsecureServingOptions_Validate (p : option DeprecatedInsecureServingOptions) : option error :=
  match p with
  | None => None
  | Some p =>
      NewAggregate (if (io_BindPort p <? 0)%Z || (65535 <? io_BindPort p)%Z
                    then [Errorf "insecure port %v must be between 0 and 65535, inclusive. 0 for turning off insecure (HTTP) port" [Itoa (io_BindPort p)]]
                    else [])
  end.

(** ** config.go *)

Record Config := {
  c_GenericServerRunOptions : ServerRunOptions;
  c_SecureServing : option SecureServingOptions;
  c_InsecureServing : option DeprecatedInsecureServingOptions;
  c_AlternateDNS : list string;
  c_EnableIndex : bool;
  c_EnableProfiling : bool;
  c_EnableContentionProfiling : bool;
  c_EnableMetrics : bool;
  c_EnableOpenAPI : bool;
  c_KeepAuthorizationHeader : bool;
  c_SecuritySchemes : list SchemeConfig;
  c_EnableExpvar : bool;
  c_EnableHealthz : bool;
}.

Definition NewConfig (program : string) : Config := {|
  c_GenericServerRunOptions := NewServerRunOptions; c_SecureServing := Some (NewSecureServingOptions program);
  c_InsecureServing := Some {| io_Enabled := None; io_BindAddress := IPv4zero; io_BindPort := 8080;
                               io_BindNetwork := "tcp"; io_Listener := None |};
  c_AlternateDNS := []; c_EnableIndex := true; c_EnableProfiling := false; c_EnableContentionProfiling := true;
  c_EnableMetrics := true; c_EnableOpenAPI := true; c_KeepAuthorizationHeader := false; c_SecuritySchemes := [];
  c_EnableExpvar := false; c_EnableHealthz := false |}.

(** The assignments Config.Validate makes. *)
Definition set_serving (c : Config) (secure : option SecureServingOptions)
    (insecure : option DeprecatedInsecureServingOptions) (schemes : list SchemeConfig) : Config := {|
  c_GenericServerRunOptions := c_GenericServerRunOptions c; c_SecureServing := secure; c_InsecureServing := insecure;
  c_AlternateDNS := c_AlternateDNS c; c_EnableIndex := c_EnableIndex c; c_EnableProfiling := c_EnableProfiling c;
  c_EnableContentionProfiling := c_EnableContentionProfiling c; c_EnableMetrics := c_EnableMetrics c;
  c_EnableOpenAPI := c_EnableOpenAPI c; c_KeepAuthorizationHeader := c_KeepAuthorizationHeader c;
  c_SecuritySchemes := schemes; c_EnableExpvar := c_EnableExpvar c; c_EnableHealthz := c_EnableHealthz c |}.

(** Options that are not enabled are dropped; a nil Enabled is dereferenced. *)
Definition drop_disabled {A} (enabled : A → option bool) (o : option A) : outcome (option A) :=
  match o with
  | None => Ret None
  | Some x =>
      match enabled x with
      | None => Panic "invalid memory address or nil pointer dereference"
      | Some true => Ret (Some x)
      | Some false => Ret None
      end
  end.

Definition bearer_scheme : SchemeConfig :=
  {| sc_Name := "BearerToken"; sc_Type := "bearer"; sc_FieldName := ""; sc_ValueSource := ""; sc_AuthorizationURL := ""; sc_TokenURL := "" |}.

Definition Config_Validate (p : Config) : outcome (option error * Config) :=
  let errors := option_list (ServerRunOptions_Validate (c_GenericServerRunOptions p)) in
  secure ← drop_disabled so_Enabled (c_SecureServing p);
  let errors := errors ++ option_list (SecureServingOptions_Validate secure) in
  insecure ← drop_disabled io_Enabled (c_InsecureServing p);
  let errors := errors ++ option_list (InsecureServingOptions_Validate insecure) in
  let schemes := if length (c_SecuritySchemes p) =? 0 then [bearer_scheme]
                 else c_SecuritySchemes p in
  Ret (NewAggregate errors, set_serving p secure insecure schemes).
End validation.

(** ** The runtime configuration (pkg/server) *)

Record DeprecatedInsecureServingInfo := { ii_Listener : option Listener; ii_Name : string }.

Record SecureServingInfo (Pool : Type) := {
  si_Listener : option Listener;
  si_Cert : option CertKeyContentProvider;
  si_SNICerts : list SNICertKeyContentProvider;
  si_ClientCA : option (CAContentProvider Pool);
  si_MinTLSVersion : Z;
  si_CipherSuites : list Z;
  si_HTTP2MaxStreamsPerConnection : Z;
  si_DisableHTTP2 : bool;
}.
Arguments si_Listener {Pool} _.
Arguments si_Cert {Pool} _.
Arguments si_SNICerts {Pool} _.
Arguments si_ClientCA {Pool} _.
Arguments si_MinTLSVersion {Pool} _.
Arguments si_CipherSuites {Pool} _.
Arguments si_HTTP2MaxStreamsPerConnection {Pool} _.
Arguments si_DisableHTTP2 {Pool} _.

(** The fields of client-go's rest.Config that are set. *)
Record restConfig := {
  rc_Host : string;
  rc_QPS : Z;
  rc_Burst : Z;
  rc_BearerToken : string;
  rc_CAData : string;
  rc_ServerName : string;
  rc_NegotiatedSerializer : bool;
  rc_DisableCompression : bool;
}.

Definition LoopbackClientServerNameOverride : string := "apiserver-loopback-client".

Section selfclient.
Context {Pool : Type}.
(** golib's tests for IPv6, of a text and of an address; net.InterfaceAddrs, where an
    address that is not a *net.IPNet is [None]; golib's ParsePort. *)
Context (IsIPv6String : string → bool) (IsIPv6 : IP → bool) (InterfaceAddrs : list (option IP) + error)
        (ParsePort : string → Z + error).

Definition nil_deref {A} : outcome A := Panic "invalid memory address or nil pointer dereference".

Fixpoint first_loopback (wantIPv6 : bool) (addrs : list (option IP)) : option IP :=
  match addrs with
  | [] => None
  | Some ip :: addrs =>
      if IsLoopback ip && eqb wantIPv6 (IsIPv6 ip) then Some ip else first_loopback wantIPv6 addrs
  | None :: addrs => first_loopback wantIPv6 addrs
  end.

Definition getLoopbackAddress (wantIPv6 : bool) : string :=
  match InterfaceAddrs with
  | inr _ => "localhost"
  | inl addrs => match first_loopback wantIPv6 addrs with Some ip => IP_String ip | None => "localhost" end
  end.

Definition LoopbackHostPort (bindAddress : string) : string * string + error :=
  match SplitHostPort bindAddress with
  | None => inr (Errorf "invalid server bind address: %q" [bindAddress])
  | Some (host, port) =>
      let isIPv6 := IsIPv6String host in
      let host := if (host == "0.0.0.0") || (host == "::") then getLoopbackAddress isIPv6 else host in
      inl (host, port)
  end.

(** SecureServingInfo.HostPort and DeprecatedInsecureServingInfo.HostPort, on the
    listener; [None] is a nil receiver or a nil listener. *)
Definition HostPort (l : option Listener) : string * Z + error :=
  match l with
  | None => inr (Errorf "no listener found" [])
  | Some l =>
      let addr := net_Addr_String (l_Addr l) in
      match SplitHostPort addr with
      | None => inr (Errorf "failed to get port from listener address %q: %v" [addr])
      | Some (host, portStr) =>
          match ParsePort portStr with
          | inr _ => inr (Errorf "invalid non-numeric port %q" [portStr])
          | inl port => inl (host, port)
          end
      end
  end.

Definition NewClientConfig (s : option (SecureServingInfo Pool)) (caCert : string) : outcome (option restConfig + error) :=
  match s with
  | None => Ret (inl None)
  | Some s =>
      if bool_decide (si_Cert s = None) && (length (si_SNICerts s) =? 0) then Ret (inl None)
      else
        match si_Listener s with
        | None => nil_deref
        | Some l =>
            Ret match LoopbackHostPort (net_Addr_String (l_Addr l)) with
                | inr err => inr err
                | inl (host, port) =>
                    inl (Some {| rc_Host := "https://" +:+ JoinHostPort host port; rc_QPS := -1; rc_Burst := 0;
                                 rc_BearerToken := ""; rc_CAData := caCert; rc_ServerName := "";
                                 rc_NegotiatedSerializer := false; rc_DisableCompression := false |})
                end
        end
  end.

(** SecureServingInfo.NewLoopbackClientConfig. *)
Definition with_token (c : restConfig) (token : string) : restConfig :=
  {| rc_Host := rc_Host c; rc_QPS := rc_QPS c; rc_Burst := rc_Burst c; rc_BearerToken := token; rc_CAData := rc_CAData c;
     rc_ServerName := LoopbackClientServerNameOverride; rc_NegotiatedSerializer := rc_NegotiatedSerializer c;
     rc_DisableCompression := rc_DisableCompression c |}.

Definition secure_NewLoopbackClientConfig (s : option (SecureServingInfo Pool)) (token loopbackCert : string)
    : outcome (option restConfig + error) :=
  r ← NewClientConfig s loopbackCert;
  Ret match r with inl (Some c) => inl (Some (with_token c token)) | r => r end.

(** DeprecatedInsecureServingInfo.NewLoopbackClientConfig. *)
Definition insecure_NewLoopbackClientConfig (s : option DeprecatedInsecureServingInfo) : outcome (option restConfig + error) :=
  match s with
  | None => Ret (inl None)
  | Some s =>
      match ii_Listener s with
      | None => nil_deref
      | Some l =>
          Ret match LoopbackHostPort (net_Addr_String (l_Addr l)) with
              | inr err => inr err
              | inl (host, port) =>
                  inl (Some {| rc_Host := "http://" +:+ JoinHostPort host port; rc_QPS := 50; rc_Burst := 100;
                               rc_BearerToken := ""; rc_CAData := ""; rc_ServerName := "";
                               rc_NegotiatedSerializer := false; rc_DisableCompression := false |})
              end
      end
  end.
End selfclient.

(** ** Applying the options *)

(** What the files hold at one moment. *)
Abbreviation files := (string → string + error).

Inductive control := permitPortReuse | permitAddressReuse.

Section apply.
Context {Cert Pool : Type}.
(** crypto/tls: pairs of certificate and key, the tables of ciphers. *)
Context (X509KeyPair : string → string → Cert + error) (ciphers insecureCiphers : gmap string Z).
(** net.ListenConfig.Listen, with the controls of the configuration. *)
Context (Listen : string → string → list control → Listener + error).
(** golib: tests for IPv6 addresses, the address of the host, certificates made and
    written to files; [Generate] takes the host, the IPs, the names and the directory
    of fixtures. *)
Context (IsIPv6String : string → bool) (IsIPv6 : IP → bool) (InterfaceAddrs : list (option IP) + error).
Context (ResolveBindAddress : IP → IP + error).
Context (CanReadCertAndKey : files → string → string → bool + error)
        (GenerateSelfSignedCertKeyWithFixtures : string → list IP → list string → string → string * string + error)
        (GenerateSelfSignedCertKey : string → string * string + error)
        (WriteCert WriteKey : string → string → ST files (option error)).

Definition CreateListener (network addr : string) (ctls : list control) : Listener * Z + error :=
  let network := if slen network =? 0 then "tcp" else network in
  match Listen network addr ctls with
  | inr err => inr (ErrorWrap "failed to listen on %v: %v" [addr] err)
  | inl ln =>
      match l_Addr ln with
      | TCPAddr _ port _ => inl (ln, port)
      | OtherAddr s => inr (Errorf "invalid listen address: %q" [s])
      end
  end.

(** *** Secure serving *)

Definition set_listener (p : SecureServingOptions) (l : option Listener) (port : Z) (ip : IP) : SecureServingOptions := {|
  so_Enabled := so_Enabled p; so_BindAddress := ip; so_BindPort := port; so_BindNetwork := so_BindNetwork p;
  so_Required := so_Required p; so_ExternalAddress := so_ExternalAddress p; so_Listener := l;
  so_ServerCert := so_ServerCert p; so_SNICertKeys := so_SNICertKeys p; so_CipherSuites := so_CipherSuites p;
  so_MinTLSVersion := so_MinTLSVersion p; so_HTTP2MaxStreamsPerConnection := so_HTTP2MaxStreamsPerConnection p;
  so_PermitPortSharing := so_PermitPortSharing p; so_PermitAddressSharing := so_PermitAddressSharing p |}.

Definition set_cert (p : SecureServingOptions) (cert : GeneratableKeyCert) : SecureServingOptions := {|
  so_Enabled := so_Enabled p; so_BindAddress := so_BindAddress p; so_BindPort := so_BindPort p;
  so_BindNetwork := so_BindNetwork p; so_Required := so_Required p; so_ExternalAddress := so_ExternalAddress p;
  so_Listener := so_Listener p; so_ServerCert := cert; so_SNICertKeys := so_SNICertKeys p;
  so_CipherSuites := so_CipherSuites p; so_MinTLSVersion := so_MinTLSVersion p;
  so_HTTP2MaxStreamsPerConnection := so_HTTP2MaxStreamsPerConnection p;
  so_PermitPortSharing := so_PermitPortSharing p; so_PermitAddressSharing := so_PermitAddressSharing p |}.

(** The listener of ApplyTo: a new one, or the address of the given one.  A failed call
    leaves its results, nil and zero, in the options. *)
Definition apply_listener (p : SecureServingOptions) : option error * SecureServingOptions :=
  match so_Listener p with
  | None =>
      let addr := JoinHostPort (IP_String (so_BindAddress p)) (Itoa (so_BindPort p)) in
      let ctls := (if so_PermitPortSharing p then [permitPortReuse] else []) ++
                  (if so_PermitAddressSharing p then [permitAddressReuse] else []) in
      match CreateListener (so_BindNetwork p) addr ctls with
      | inr err => (Some (ErrorWrap "failed to create listener: %v" [] err), set_listener p None 0 (so_BindAddress p))
      | inl (l, port) => (None, set_listener p (Some l) port (so_BindAddress p))
      end
  | Some l =>
      match l_Addr l with
      | OtherAddr _ => (Some (Errorf "failed to parse ip and port from listener" []), p)
      | TCPAddr ip port _ => (None, set_listener p (Some l) port ip)
      end
  end.

Definition main_cert (fs : files) (cert : GeneratableKeyCert) : option CertKeyContentProvider + error :=
  if negb (slen (gk_CertFile cert) =? 0) || negb (slen (gk_KeyFile cert) =? 0) then
    match NewDynamicServingContentFromFiles X509KeyPair fs "serving-cert" (gk_CertFile cert) (gk_KeyFile cert) with
    | inr err => inr err
    | inl c => inl (Some (DynamicCertKey c))
    end
  else inl (gk_GeneratedCert cert).

Fixpoint sni_certs (fs : files) (certs : list NamedCertKey) : list SNICertKeyContentProvider + error :=
  match certs with
  | [] => inl []
  | nck :: certs =>
      match NewDynamicSNIContentFromFiles X509KeyPair fs fs "sni-serving-cert" (CertFile nck) (KeyFile nck) (Names nck) with
      | inr err => inr (ErrorWrap "failed to load SNI cert and key: %v" [] err)
      | inl tlsCert =>
          match sni_certs fs certs with inr err => inr err | inl l => inl (tlsCert :: l) end
      end
  end.

Definition serving_info (p : SecureServingOptions) (cert : option CertKeyContentProvider) (suites : list Z)
    (version : Z) (snis : list SNICertKeyContentProvider) : SecureServingInfo Pool := {|
  si_Listener := so_Listener p; si_Cert := cert; si_SNICerts := snis; si_ClientCA := None; si_MinTLSVersion := version;
  si_CipherSuites := suites; si_HTTP2MaxStreamsPerConnection := so_HTTP2MaxStreamsPerConnection p;
  si_DisableHTTP2 := false |}.

(** What ApplyTo puts into the new SecureServingInfo; at an error, what it had put there
    until then. *)
Definition fill_info (fs : files) (p : SecureServingOptions) : option error * SecureServingInfo Pool :=
  match main_cert fs (so_ServerCert p) with
  | inr err => (Some err, serving_info p None [] 0 [])
  | inl cert =>
      match (if negb (length (so_CipherSuites p) =? 0)
             then TLSCipherSuites ciphers insecureCiphers (so_CipherSuites p) else inl []) with
      | inr err => (Some err, serving_info p cert [] 0 [])
      | inl suites =>
          match TLSVersion (so_MinTLSVersion p) with
          | inr err => (Some err, serving_info p cert suites 0 [])
          | inl version =>
              match sni_certs fs (Certs (so_SNICertKeys p)) with
              | inr err => (Some err, serving_info p cert suites version [])
              | inl snis => (None, serving_info p cert suites version snis)
              end
          end
      end
  end.

(** The error, the options and *config after the call. *)
Definition SecureServingOptions_ApplyTo (fs : files) (p : option SecureServingOptions) (config : option (SecureServingInfo Pool))
    : option error * option SecureServingOptions * option (SecureServingInfo Pool) :=
  match p with
  | None => (None, None, config)
  | Some p =>
      if (so_BindPort p <=? 0)%Z && bool_decide (so_Listener p = None) then (None, Some p, config)
      else
        match apply_listener p with
        | (Some err, p) => (Some err, Some p, config)
        | (None, p) => let '(err, c) := fill_info fs p in (err, Some p, Some c)
        end
  end.

Definition DefaultExternalAddress (p : SecureServingOptions) : IP + error :=
  if negb (length (so_ExternalAddress p) =? 0) && negb (IsUnspecified (so_ExternalAddress p)) then inl (so_ExternalAddress p)
  else ResolveBindAddress (so_BindAddress p).

Definition set_advertise (s : ServerRunOptions) (ip : IP) (host : string) : ServerRunOptions := {|
  ro_AdvertiseAddress := ip; ro_CorsAllowedOriginList := ro_CorsAllowedOriginList s;
  ro_HSTSDirectives := ro_HSTSDirectives s; ro_ExternalHost := host;
  ro_MaxRequestsInFlight := ro_MaxRequestsInFlight s; ro_MaxMutatingRequestsInFlight := ro_MaxMutatingRequestsInFlight s;
  ro_RequestTimeout := ro_RequestTimeout s; ro_GoawayChance := ro_GoawayChance s;
  ro_LivezGracePeriod := ro_LivezGracePeriod s; ro_MinRequestTimeout := ro_MinRequestTimeout s;
  ro_ShutdownDelayDuration := ro_ShutdownDelayDuration s; ro_JSONPatchMaxCopyBytes := ro_JSONPatchMaxCopyBytes s;
  ro_MaxRequestBodyBytes := ro_MaxRequestBodyBytes s |}.

Definition DefaultAdvertiseAddress (s : ServerRunOptions) (secure : option SecureServingOptions) : ServerRunOptions + error :=
  match secure with
  | None => inl s
  | Some secure =>
      if (length (ro_AdvertiseAddress s) =? 0) || IsUnspecified (ro_AdvertiseAddress s) then
        match DefaultExternalAddress secure with
        | inr err => inr (ErrorWrap "Unable to find suitable network address.error='%v'. Try to set the AdvertiseAddress directly or provide a valid BindAddress to fix this." [] err)
        | inl hostIP => inl (set_advertise s hostIP (ro_ExternalHost s))
        end
      else inl s
  end.

Definition set_cert_files (k : GeneratableKeyCert) (certFile keyFile : string) : GeneratableKeyCert :=
  {| gk_CertFile := certFile; gk_KeyFile := keyFile; gk_CertDirectory := gk_CertDirectory k; gk_PairName := gk_PairName k;
     gk_GeneratedCert := gk_GeneratedCert k; gk_FixtureDirectory := gk_FixtureDirectory k |}.
Definition set_generated (k : GeneratableKeyCert) (c : option CertKeyContentProvider) : GeneratableKeyCert :=
  {| gk_CertFile := gk_CertFile k; gk_KeyFile := gk_KeyFile k; gk_CertDirectory := gk_CertDirectory k;
     gk_PairName := gk_PairName k; gk_GeneratedCert := c; gk_FixtureDirectory := gk_FixtureDirectory k |}.

(** The second half of MaybeDefaultWithSelfSignedCerts: make a certificate for the public
    address and put it into the files, or keep it in memory. *)
Definition self_sign (p : SecureServingOptions) (k : GeneratableKeyCert) (publicAddress : string)
    (alternateDNS : list string) (alternateIPs : list IP) : ST files (option error * SecureServingOptions) := λ fs,
  let dns := if IsUnspecified (so_BindAddress p) then alternateDNS ++ ["localhost"] else alternateDNS in
  let ips := if IsUnspecified (so_BindAddress p) then alternateIPs else alternateIPs ++ [so_BindAddress p] in
  match GenerateSelfSignedCertKeyWithFixtures publicAddress ips dns (gk_FixtureDirectory k) with
  | inr err => ((Some (ErrorWrap "unable to generate self signed cert: %v" [] err), set_cert p k), fs)
  | inl (cert, key) =>
      if (0 <? slen (gk_CertFile k)) && (0 <? slen (gk_KeyFile k)) then
        match WriteCert (gk_CertFile k) cert fs with
        | (Some err, fs) => ((Some err, set_cert p k), fs)
        | (None, fs) =>
            match WriteKey (gk_KeyFile k) key fs with
            | (Some err, fs) => ((Some err, set_cert p k), fs)
            | (None, fs) => ((None, set_cert p k), fs)
            end
        end
      else
        match NewStaticCertKeyContent X509KeyPair "Generated self signed cert" cert key with
        | inr err => ((Some err, set_cert p (set_generated k None)), fs)
        | inl c => ((None, set_cert p (set_generated k (Some c))), fs)
        end
  end.

Definition MaybeDefaultWithSelfSignedCerts (p : option SecureServingOptions) (publicAddress : string)
    (alternateDNS : list string) (alternateIPs : list IP) : ST files (option error * option SecureServingOptions) := λ fs,
  match p with
  | None => ((None, None), fs)
  | Some p =>
      let k := so_ServerCert p in
      if (so_BindPort p =? 0)%Z && bool_decide (so_Listener p = None) then ((None, Some p), fs)
      else if negb (slen (gk_CertFile k) =? 0) || negb (slen (gk_KeyFile k) =? 0) then ((None, Some p), fs)
      else if 0 <? slen (gk_CertDirectory k) then
        if slen (gk_PairName k) =? 0 then ((Some (Errorf "PairName is required if CertDirectory is set" []), Some p), fs)
        else
          let k := set_cert_files k (path_Join [gk_CertDirectory k; gk_PairName k +:+ ".crt"])
                                    (path_Join [gk_CertDirectory k; gk_PairName k +:+ ".key"]) in
          match CanReadCertAndKey fs (gk_CertFile k) (gk_KeyFile k) with
          | inr err => ((Some err, Some (set_cert p k)), fs)
          | inl true => ((None, Some (set_cert p k)), fs)
          | inl false =>
              let '((err, p), fs) := self_sign p k publicAddress alternateDNS alternateIPs fs in ((err, Some p), fs)
          end
      else
        let '((err, p), fs) := self_sign p k publicAddress alternateDNS alternateIPs fs in ((err, Some p), fs)
  end.

(** serving_with_loopback.go; [token] is the new UUID. *)
Definition prepend_sni (s : SecureServingInfo Pool) (p : SNICertKeyContentProvider) : SecureServingInfo Pool := {|
  si_Listener := si_Listener s; si_Cert := si_Cert s; si_SNICerts := p :: si_SNICerts s; si_ClientCA := si_ClientCA s;
  si_MinTLSVersion := si_MinTLSVersion s; si_CipherSuites := si_CipherSuites s;
  si_HTTP2MaxStreamsPerConnection := si_HTTP2MaxStreamsPerConnection s; si_DisableHTTP2 := si_DisableHTTP2 s |}.

Record applied := { ap_options : option SecureServingOptions; ap_info : option (SecureServingInfo Pool); ap_loopback : option restConfig }.

Definition secure_ApplyToWithLoopback (fs : files) (token : string) (s : option SecureServingOptions)
    (secureServingInfo : option (SecureServingInfo Pool)) (loopbackClientConfig : option restConfig)
    : outcome (option error * applied) :=
  match s with
  | None => Ret (None, Build_applied s secureServingInfo loopbackClientConfig)
  | Some _ =>
      match SecureServingOptions_ApplyTo fs s secureServingInfo with
      | (Some err, s, info) => Ret (Some err, Build_applied s info loopbackClientConfig)
      | (None, s, None) => Ret (None, Build_applied s None loopbackClientConfig)
      | (None, s, Some info) =>
          let unchanged err := Ret (Some err, Build_applied s (Some info) loopbackClientConfig) in
          match GenerateSelfSignedCertKey LoopbackClientServerNameOverride with
          | inr err => unchanged (ErrorWrap "failed to generate self-signed certificate for loopback connection: %v" [] err)
          | inl (certPem, keyPem) =>
              match NewStaticSNICertKeyContent X509KeyPair "self-signed loopback" certPem keyPem [LoopbackClientServerNameOverride] with
              | inr err => unchanged (ErrorWrap "failed to generate self-signed certificate for loopback connection: %v" [] err)
              | inl certProvider =>
                  r ← secure_NewLoopbackClientConfig IsIPv6String IsIPv6 InterfaceAddrs (Some info) token certPem;
                  match r, loopbackClientConfig with
                  | inr err, None => unchanged err
                  | inr _, Some _ => Ret (None, Build_applied s (Some info) loopbackClientConfig)
                  | inl c, _ => Ret (None, Build_applied s (Some (prepend_sni info certProvider)) c)
                  end
              end
          end
      end
  end.

(** *** Insecure serving *)

Definition set_insecure_listener (p : DeprecatedInsecureServingOptions) (l : option Listener) (port : Z) : DeprecatedInsecureServingOptions :=
  {| io_Enabled := io_Enabled p; io_BindAddress := io_BindAddress p; io_BindPort := port;
     io_BindNetwork := io_BindNetwork p; io_Listener := l |}.

Definition InsecureServingOptions_ApplyTo (p : option DeprecatedInsecureServingOptions) (c : option DeprecatedInsecureServingInfo)
    : option error * option DeprecatedInsecureServingOptions * option DeprecatedInsecureServingInfo :=
  match p with
  | None => (None, None, c)
  | Some p =>
      if (io_BindPort p <=? 0)%Z then (None, Some p, c)
      else
        match io_Listener p with
        | Some l => (None, Some p, Some {| ii_Listener := Some l; ii_Name := "" |})
        | None =>
            let addr := JoinHostPort (IP_String (io_BindAddress p)) (Itoa (io_BindPort p)) in
            match CreateListener (io_BindNetwork p) addr [] with
            | inr err => (Some (ErrorWrap "failed to create listener: %v" [] err), Some (set_insecure_listener p None 0), c)
            | inl (l, port) =>
                (None, Some (set_insecure_listener p (Some l) port), Some {| ii_Listener := Some l; ii_Name := "" |})
            end
        end
  end.

Definition insecure_ApplyToWithLoopback (p : option DeprecatedInsecureServingOptions)
    (insecureServingInfo : option DeprecatedInsecureServingInfo) (loopbackClientConfig : option restConfig)
    : outcome (option error * (option DeprecatedInsecureServingOptions * option DeprecatedInsecureServingInfo * option restConfig)) :=
  match p with
  | None => Ret (None, (p, insecureServingInfo, loopbackClientConfig))
  | Some _ =>
      match InsecureServingOptions_ApplyTo p insecureServingInfo with
      | (Some err, p, info) => Ret (Some err, (p, info, loopbackClientConfig))
      | (None, p, None) => Ret (None, (p, None, loopbackClientConfig))
      | (None, p, Some info) =>
          r ← insecure_NewLoopbackClientConfig IsIPv6String IsIPv6 InterfaceAddrs (Some info);
          match r, loopbackClientConfig with
          | inr err, None => Ret (Some err, (p, Some info, loopbackClientConfig))
          | inr _, Some _ => Ret (None, (p, Some info, loopbackClientConfig))
          | inl c, _ => Ret (None, (p, Some info, c))
          end
      end
  end.
End apply.
Arguments applied : clear implicits.

(** ** Theorems *)

(** *** Addresses as text *)

Definition is_bracket (c : ascii) : Prop := c = "["%char ∨ c = "]"%char.
Definition no_bracket (s : string) : Prop := ContainsByte s "[" = false ∧ ContainsByte s "]" = false.

Lemma no_bracket_app s t : no_bracket (s +:+ t) ↔ no_bracket s ∧ no_bracket t.
Proof. unfold no_bracket. rewrite !ContainsByte_app, !orb_false_iff. tauto. Qed.
Lemma no_bracket_cons a s : no_bracket (String a s) ↔ ¬ is_bracket a ∧ no_bracket s.
Proof.
  unfold no_bracket, is_bracket. cbn. rewrite !orb_false_iff, !bool_decide_eq_false. naive_solver.
Qed.
Lemma no_bracket_Join l sep : Forall no_bracket l → no_bracket sep → no_bracket (Join l sep).
Proof.
  intros Hl Hsep. induction Hl as [|s l Hs Hl IH]; [done|]. destruct l as [|t l]; [done|].
  rewrite Join_cons by done. by rewrite !no_bracket_app.
Qed.

Lemma Itoa_no_bracket n : no_bracket (Itoa n).
Proof. split; (apply Itoa_ContainsByte; [done|no_digit]). Qed.
Lemma Itoa_plain n : plain_host (Itoa n).
Proof. split_and!; (apply Itoa_ContainsByte; [done|no_digit]). Qed.

(** net.IP holds bytes. *)
Definition ip_ok (ip : IP) : Prop := Forall (λ b, 0 ≤ b < 256)%Z ip.

Lemma hex_digit_no_bracket n : n < 16 → ¬ is_bracket (hex_digit n).
Proof. intros Hn. do 16 (destruct n as [|n]; [by intros [|]|]). lia. Qed.

Lemma hex_byte_no_bracket b : (0 ≤ b < 256)%Z → no_bracket (hex_byte b).
Proof.
  intros Hb. assert (0 ≤ b / 16 < 16)%Z by (split; [apply Z.div_pos|apply Z.div_lt_upper_bound]; lia).
  pose proof (Z.mod_pos_bound b 16 eq_refl). unfold hex_byte.
  rewrite !no_bracket_cons. split_and!; (done || apply hex_digit_no_bracket; lia).
Qed.

Lemma trim_zeros_no_bracket s : no_bracket s → no_bracket (trim_zeros s).
Proof.
  induction s as [|a s IH]; [done|]. intros Hs. cbn. destruct s as [|b s]; [done|].
  case_bool_decide; [|done]. apply IH. by apply no_bracket_cons in Hs as [_ Hs].
Qed.

Lemma hex_group_no_bracket g : (0 ≤ g < 65536)%Z → no_bracket (hex_group g).
Proof.
  intros Hg. assert (0 ≤ g / 256 < 256)%Z by (split; [apply Z.div_pos|apply Z.div_lt_upper_bound]; lia).
  pose proof (Z.mod_pos_bound g 256 eq_refl). apply trim_zeros_no_bracket, no_bracket_app.
  split; by apply hex_byte_no_bracket.
Qed.

Lemma groups_ok ip : ip_ok ip → Forall (λ g, 0 ≤ g < 65536)%Z (groups ip).
Proof.
  enough (∀ n ip, length ip < n → ip_ok ip → Forall (λ g, 0 ≤ g < 65536)%Z (groups ip)) as H by (by apply (H (S (length ip))); lia).
  induction n as [|n IH]; [lia|]. intros [|a [|b l]] Hl Hip; [by constructor..|].
  apply Forall_cons in Hip as [Ha [Hb Hip]%Forall_cons]. cbn. constructor; [lia|]. apply IH; [cbn in Hl; lia|done].
Qed.

Lemma hex_groups_no_bracket (l : list Z) : Forall (λ g, 0 ≤ g < 65536)%Z l → no_bracket (Join (hex_group <$> l) ":").
Proof.
  intros Hl. apply no_bracket_Join; [|by split]. apply Forall_fmap. eapply Forall_impl; [exact Hl|]. apply hex_group_no_bracket.
Qed.

(** The text of an address has no brackets, so that JoinHostPort can be undone. *)
Lemma IP_String_no_bracket ip : ip_ok ip → no_bracket (IP_String ip).
Proof.
  intros Hip. unfold IP_String. destruct (length ip =? 0); [by split|].
  destruct (To4 ip) as [ip4|].
  { apply no_bracket_Join; [|by split]. apply Forall_fmap, Forall_true. intros; apply Itoa_no_bracket. }
  destruct (negb _).
  { apply no_bracket_app. split; [by split|]. clear -Hip. induction Hip as [|b ip Hb _ IH]; [by split|]. cbn.
    apply no_bracket_app. split; [by apply hex_byte_no_bracket|done]. }
  pose proof (groups_ok ip Hip) as Hg. destruct (longest_run 0 (groups ip) (0, 0)) as [i n].
  case_match; [by apply hex_groups_no_bracket|].
  rewrite !no_bracket_app. split_and!; [|by split|]; apply hex_groups_no_bracket; [by apply Forall_take|by apply Forall_drop].
Qed.

Lemma IP_Equal_v4zero ip : IP_Equal ip IPv4zero = true → ip = IPv4zero ∨ ip = [0; 0; 0; 0]%Z.
Proof.
  unfold IP_Equal. change (length IPv4zero) with 16. destruct (length ip =? 16); [rewrite bool_decide_eq_true; auto|].
  destruct (length ip =? 4); cbn; [|done]. rewrite andb_true_iff, !bool_decide_eq_true. tauto.
Qed.

Lemma IP_Equal_16 ip x : length x = 16 → take 12 x ≠ v4InV6Prefix → IP_Equal ip x = true → ip = x.
Proof.
  intros Hx Ht. unfold IP_Equal. rewrite Hx. destruct (length ip =? 16); [by rewrite bool_decide_eq_true|].
  destruct (length ip =? 4); cbn; [|done]. by rewrite bool_decide_eq_false_2.
Qed.

Lemma IsUnspecified_String ip : IsUnspecified ip = true → IP_String ip = "0.0.0.0" ∨ IP_String ip = "::".
Proof.
  unfold IsUnspecified. intros [[->| ->]%IP_Equal_v4zero| ->%(IP_Equal_16 _ IPv6unspecified)]%orb_true_iff; auto.
Qed.

Lemma IsLoopback_String ip : IsLoopback ip = true → IP_String ip ≠ "0.0.0.0" ∧ IP_String ip ≠ "::".
Proof.
  unfold IsLoopback. destruct (To4 ip) as [ip4|] eqn:H4; [|by intros ->%(IP_Equal_16 _ IPv6loopback)].
  rewrite bool_decide_eq_true. destruct ip4 as [|b ip4]; [done|]. intros [= ->].
  unfold IP_String. rewrite H4. destruct ip as [|a ip]; [done|]. cbn [length Nat.eqb].
  rewrite fmap_cons. by destruct (Itoa <$> ip4).
Qed.

(** The host part of a TCP address. *)
Definition addr_host (ip : IP) (zone : string) : string :=
  let host := if length ip =? 0 then "" else IP_String ip in
  if 0 <? slen zone then host +:+ "%" +:+ zone else host.

Lemma SplitHostPort_listener ip port zone :
  ip_ok ip → no_bracket zone → SplitHostPort (net_Addr_String (TCPAddr ip port zone)) = Some (addr_host ip zone, Itoa port).
Proof.
  intros Hip Hz. assert (no_bracket (addr_host ip zone)) as [? ?].
  { unfold addr_host. assert (no_bracket (if length ip =? 0 then "" else IP_String ip)).
    { destruct (length ip =? 0); [by split|by apply IP_String_no_bracket]. }
    destruct (0 <? slen zone); [|done]. rewrite !no_bracket_app. by split_and!. }
  apply SplitHostPort_JoinHostPort; [done..|apply Itoa_plain].
Qed.

Section selfclient_theorems.
Context (IsIPv6String : string → bool) (IsIPv6 : IP → bool) (InterfaceAddrs : list (option IP) + error).
Abbreviation getLoopback := (getLoopbackAddress IsIPv6 InterfaceAddrs).

Lemma getLoopbackAddress_dialable v6 : getLoopback v6 ≠ "0.0.0.0" ∧ getLoopback v6 ≠ "::".
Proof.
  unfold getLoopbackAddress. destruct InterfaceAddrs as [addrs|]; [|done].
  induction addrs as [|[ip|] addrs IH]; cbn; [done| |done]. destruct (IsLoopback ip) eqn:Hl; cbn; [|done].
  destruct (eqb _ _); [by apply IsLoopback_String|done].
Qed.

(** The server's own client dials the port of the listener, at the address the listener
    is bound to; an unspecified address, of either family, is replaced by a loopback
    address, so the client never dials one. *)
Theorem LoopbackHostPort_spec ip port zone :
  ip_ok ip → no_bracket zone →
  ∃ host, LoopbackHostPort IsIPv6String IsIPv6 InterfaceAddrs (net_Addr_String (TCPAddr ip port zone)) = inl (host, Itoa port) ∧
    host ≠ "0.0.0.0" ∧ host ≠ "::" ∧
    (host = addr_host ip zone ∨ host = getLoopback (IsIPv6String (addr_host ip zone))) ∧
    (zone = "" → IsUnspecified ip = true → host = getLoopback (IsIPv6String (IP_String ip))).
Proof.
  intros Hip Hz. unfold LoopbackHostPort. rewrite SplitHostPort_listener by done.
  destruct (getLoopbackAddress_dialable (IsIPv6String (addr_host ip zone))) as [Hn1 Hn2].
  destruct (bool_decide (addr_host ip zone = "0.0.0.0") || bool_decide (addr_host ip zone = "::")) eqn:Hu;
    (eexists; split; [reflexivity|]); split_and!; try done; [by right| | | |by left|].
  - intros -> Hun. unfold addr_host. cbn. destruct ip; [done|]. done.
  - apply orb_false_iff in Hu as [Hu _]. by apply bool_decide_eq_false in Hu.
  - apply orb_false_iff in Hu as [_ Hu]. by apply bool_decide_eq_false in Hu.
  - intros -> Hun. exfalso. destruct ip as [|b ip]; [done|].
    change (addr_host (b :: ip) "") with (IP_String (b :: ip)) in Hu.
    apply orb_false_iff in Hu as [H1 H2]. apply bool_decide_eq_false in H1, H2.
    by destruct (IsUnspecified_String _ Hun).
Qed.
End selfclient_theorems.

(** *** Validation *)

Section validation_theorems.
Context `{UtilErrors} `{!UtilErrorsLaws}.

Lemma aggregate_none l : NewAggregate l = None ↔ l = [].
Proof.
  split; [|intros ->; apply NewAggregate_nil]. destruct l as [|e l]; [done|]. intros E.
  destruct (NewAggregate_cons e l) as [x Hx]. congruence.
Qed.

Lemma error_if_nil b msg : error_if b msg = [] ↔ b = false.
Proof. by destruct b. Qed.

Lemma option_list_nil' {A} (o : option A) : option_list o = [] ↔ o = None.
Proof. by destruct o. Qed.

(** The directives that are accepted: the two keywords, and max-age with one value. *)
Definition hsts_ok (d : string) : Prop :=
  d = "includeSubDomains" ∨ d = "preload" ∨ ∃ v, d = "max-age=" +:+ v ∧ ContainsByte v "=" = false.

Lemma Split_two s c a b : Split s c = [a; b] ↔ s = a +:+ String c b ∧ ContainsByte a c = false ∧ ContainsByte b c = false.
Proof.
  split.
  - intros E. pose proof (Split_parts_no_sep s c) as Hp. pose proof (Join_Split s c) as HJ. rewrite E in Hp, HJ.
    apply Forall_cons in Hp as [Ha [Hb _]%Forall_cons]. by split_and!.
  - intros (-> & Ha & Hb). by rewrite Split_app, Split_no_sep.
Qed.

Lemma TrimRight_non_nil a s p : p a = false → TrimRight (String a s) p ≠ "".
Proof. intros Ha. cbn. rewrite Ha. by destruct (TrimRight s p). Qed.

Lemma hsts_error_spec d : hsts_error d = None ↔ hsts_ok d.
Proof.
  unfold hsts_error, hsts_ok. rewrite slen_0_decide. case_bool_decide as Ht.
  - split; [done|]. intros [->|[->|(v & -> & _)]]; [done..|].
    exfalso. revert Ht. by apply (TrimRight_non_nil "m").
  - destruct (decide (d = "includeSubDomains")) as [->|H1]; [by split; auto|].
    destruct (decide (d = "preload")) as [->|H2]; [by split; auto|].
    rewrite !bool_decide_eq_false_2 by done. cbn [negb andb].
    destruct (Split d "=") as [|a [|b [|c l]]] eqn:E; cbn; try (split; [done|]; intros [|[|(v & -> & Hv)]]; [done..|]; 
      change ("max-age=" +:+ v) with ("max-age" +:+ String "=" v) in E; rewrite Split_app, Split_no_sep in E by done; done).
    apply Split_two in E as (-> & Ha & Hb). case_bool_decide as Hm; cbn.
    + subst. split; [|done]. intros _. right. right. by exists b.
    + split; [done|]. intros [|[|(v & E & Hv)]]; [done..|].
      assert (Split (a +:+ String "=" b) "=" = [a; b]) as E1 by (by apply Split_two).
      rewrite E in E1. rewrite (proj2 (Split_two _ _ "max-age" v)) in E1 by done. congruence.
Qed.

Definition run_options_ok (c : ServerRunOptions) : Prop :=
  (0 ≤ ro_LivezGracePeriod c ∧ 0 ≤ ro_MaxRequestsInFlight c ∧ 0 ≤ ro_MaxMutatingRequestsInFlight c ∧
   0 ≤ ro_RequestTimeout c ∧ 0 ≤ ro_MinRequestTimeout c ∧ 0 ≤ ro_ShutdownDelayDuration c ∧ 0 ≤ ro_MaxRequestBodyBytes c)%Z ∧
  SFltb (ro_GoawayChance c) (S754_zero false) = false ∧ SFltb goaway_max (ro_GoawayChance c) = false ∧
  Forall hsts_ok (ro_HSTSDirectives c).

Lemma omap_nil {A B} (f : A → option B) l : omap f l = [] ↔ Forall (λ x, f x = None) l.
Proof.
  induction l as [|x l IH]; cbn; [by split|]. rewrite Forall_cons, <- IH. destruct (f x); naive_solver.
Qed.

Lemma ServerRunOptions_Validate_spec c : ServerRunOptions_Validate c = None ↔ run_options_ok c.
Proof.
  unfold ServerRunOptions_Validate, validateHSTSDirectives, run_options_ok.
  rewrite aggregate_none, !app_nil, !error_if_nil, orb_false_iff, !Z.ltb_ge, option_list_nil', aggregate_none, omap_nil.
  setoid_rewrite hsts_error_spec. tauto.
Qed.

Definition secure_options_ok (p : SecureServingOptions) : Prop :=
  ((if so_Required p then 1 else 0) ≤ so_BindPort p ≤ 65535)%Z ∧
  (gk_GeneratedCert (so_ServerCert p) = None ∨ gk_CertFile (so_ServerCert p) = "" ∧ gk_KeyFile (so_ServerCert p) = "").

Lemma port_error_spec required port : port_error required port = [] ↔ ((if required : bool then 1 else 0) ≤ port ≤ 65535)%Z.
Proof.
  unfold port_error. destruct required, (Z.ltb_spec port 1), (Z.ltb_spec 65535 port), (Z.ltb_spec port 0); cbn;
    (split; [intros; (done || lia)|intros; (done || lia)]).
Qed.

Lemma SecureServingOptions_Validate_spec p : SecureServingOptions_Validate (Some p) = None ↔ secure_options_ok p.
Proof.
  unfold SecureServingOptions_Validate, secure_options_ok.
  rewrite aggregate_none, app_nil, port_error_spec, error_if_nil, !slen_0_decide.
  apply and_iff_compat_l. destruct (gk_GeneratedCert _) as [c|]; cbn.
  - rewrite andb_true_r, orb_false_iff, !negb_false_iff, !bool_decide_eq_true. naive_solver.
  - rewrite andb_false_r. naive_solver.
Qed.

Lemma InsecureServingOptions_Validate_spec p :
  InsecureServingOptions_Validate (Some p) = None ↔ (0 ≤ io_BindPort p ≤ 65535)%Z.
Proof.
  unfold InsecureServingOptions_Validate. rewrite aggregate_none.
  destruct (Z.ltb_spec (io_BindPort p) 0), (Z.ltb_spec 65535 (io_BindPort p)); cbn; (split; [intros; (done || lia)|intros; (done || lia)]).
Qed.

(** The options that are switched on. *)
Definition only_enabled {A} (enabled : A → option bool) (o : option A) : option A :=
  o ≫= λ x, if enabled x is Some true then Some x else None.

Definition flags_given {A} (enabled : A → option bool) (o : option A) : Prop := ∀ x, o = Some x → is_Some (enabled x).

Lemma drop_disabled_spec {A} (enabled : A → option bool) o :
  flags_given enabled o → drop_disabled enabled o = Ret (only_enabled enabled o).
Proof.
  intros Hg. unfold drop_disabled, only_enabled. destruct o as [x|]; [|done]. cbn.
  destruct (Hg x eq_refl) as [[] ->]; done.
Qed.

(** What a configuration has become once it was validated. *)
Definition validated (p : Config) : Config :=
  set_serving p (only_enabled so_Enabled (c_SecureServing p)) (only_enabled io_Enabled (c_InsecureServing p))
    (if length (c_SecuritySchemes p) =? 0 then [bearer_scheme] else c_SecuritySchemes p).

Definition config_ok (p : Config) : Prop :=
  run_options_ok (c_GenericServerRunOptions p) ∧
  (∀ s, only_enabled so_Enabled (c_SecureServing p) = Some s → secure_options_ok s) ∧
  (∀ i, only_enabled io_Enabled (c_InsecureServing p) = Some i → (0 ≤ io_BindPort i ≤ 65535)%Z).

(** C38: validation accepts a configuration exactly when the livez grace period, the two
    limits of requests in flight, the two request timeouts, the shutdown delay and the
    limit of request bodies are not negative, the chance of a GOAWAY is neither negative
    nor above 0.02, the HSTS directives are the known ones, and the ports of what is
    switched on are ports (not zero for the required one) with one source of certificates
    at most.  The limits of JSON patches and of HTTP/2 streams may be anything.  It drops what is switched off and names a
    scheme when there is none.  A switch that was never set, of the secure or of the
    insecure port, makes it panic. *)
Theorem Config_Validate_spec p :
  (flags_given so_Enabled (c_SecureServing p) → flags_given io_Enabled (c_InsecureServing p) →
   ∃ err, Config_Validate p = Ret (err, validated p) ∧ (err = None ↔ config_ok p)) ∧
  (∀ s, c_SecureServing p = Some s → so_Enabled s = None → returns (Config_Validate p) = false) ∧
  (∀ i, c_InsecureServing p = Some i → io_Enabled i = None → returns (Config_Validate p) = false).
Proof.
  split; [|split].
  - intros Hs Hi. unfold Config_Validate. rewrite !drop_disabled_spec by done. cbn. eexists. split; [reflexivity|].
    rewrite aggregate_none, !app_nil, !option_list_nil', ServerRunOptions_Validate_spec. unfold config_ok.
    destruct (only_enabled so_Enabled _) as [s|]; destruct (only_enabled io_Enabled _) as [i|];
      rewrite ?SecureServingOptions_Validate_spec, ?InsecureServingOptions_Validate_spec; naive_solver.
  - intros s Hs He. unfold Config_Validate. rewrite Hs. cbn [drop_disabled]. by rewrite He.
  - intros i Hi He. unfold Config_Validate. destruct (drop_disabled so_Enabled _); [|done]. cbn [mbind outcome_bind].
    rewrite Hi. cbn [drop_disabled]. by rewrite He.
Qed.
End validation_theorems.

(** *** Certificates made by the server *)

Lemma clean_parts_snoc rooted l p acc :
  p ≠ "" → p ≠ "." → p ≠ ".." → ∃ l', clean_parts rooted (l ++ [p]) acc = l' ++ [p].
Proof.
  intros H1 H2 H3. revert acc. induction l as [|x l IH]; intros acc; cbn [app clean_parts]; [|apply IH].
  rewrite !bool_decide_eq_false_2 by done. cbn [orb]. exists (reverse acc). by rewrite reverse_cons.
Qed.

Lemma Split_suffix s u c : ContainsByte u c = false → ∃ l w, Split (s +:+ u) c = l ++ [w +:+ u].
Proof.
  intros Hu. induction s as [|a s (l & w & IH)].
  - exists [], "". by rewrite !sapp_nil_l, Split_no_sep.
  - rewrite sapp_cons. cbn [Split]. rewrite IH. case_bool_decide; [by exists ("" :: l), w|].
    destruct l as [|x l]; cbn; [by exists [], (String a w)|]. by exists (String a x :: l), w.
Qed.

Lemma Join_ends l x sep : ∃ t, Join (l ++ [x]) sep = t +:+ x.
Proof.
  induction l as [|y l [t IH]]; [by exists ""|]. cbn [app]. rewrite Join_cons by (by destruct l). rewrite IH.
  exists (y +:+ sep +:+ t). by rewrite !sapp_assoc.
Qed.

(** A file name with an extension keeps it, whatever the directory and the name are. *)
Lemma path_Join_extension dir name ext :
  dir ≠ "" → ContainsByte ext "/" = false → 3 ≤ slen ext → ∃ t, path_Join [dir; name +:+ ext] = t +:+ ext.
Proof.
  intros Hd He Hl. unfold path_Join. assert (name +:+ ext ≠ "") as Hn.
  { intros E%(f_equal slen). rewrite slen_app in E. cbn in E. lia. }
  rewrite !filter_cons_True, filter_nil by done. cbn [Join]. unfold path_Clean.
  rewrite bool_decide_eq_false_2.
  2:{ intros E%(f_equal slen). rewrite !slen_app in E. cbn in E. lia. }
  replace (dir +:+ "/" +:+ name +:+ ext) with ((dir +:+ "/" +:+ name) +:+ ext) by (by rewrite !sapp_assoc).
  destruct (Split_suffix (dir +:+ "/" +:+ name) ext "/" He) as (l & w & ->).
  set (rooted := HasPrefix _ "/").
  destruct (clean_parts_snoc rooted l (w +:+ ext) []) as [l' ->];
    [intros E%(f_equal slen); rewrite slen_app in E; cbn in E; lia..|].
  destruct (Join_ends l' (w +:+ ext) "/") as [t ->].
  destruct rooted; [by exists ("/" +:+ t +:+ w); rewrite !sapp_assoc|].
  rewrite bool_decide_eq_false_2; [by exists (t +:+ w); rewrite sapp_assoc|].
  intros E%(f_equal slen). rewrite !slen_app in E. cbn in E. lia.
Qed.

Definition cert_path (k : GeneratableKeyCert) : string := path_Join [gk_CertDirectory k; gk_PairName k +:+ ".crt"].
Definition key_path (k : GeneratableKeyCert) : string := path_Join [gk_CertDirectory k; gk_PairName k +:+ ".key"].

Lemma cert_paths k : gk_CertDirectory k ≠ "" → cert_path k ≠ "" ∧ key_path k ≠ "" ∧ cert_path k ≠ key_path k.
Proof.
  intros Hd. unfold cert_path, key_path.
  destruct (path_Join_extension (gk_CertDirectory k) (gk_PairName k) ".crt") as [t ->]; [done|done|cbn; lia|].
  destruct (path_Join_extension (gk_CertDirectory k) (gk_PairName k) ".key") as [u ->]; [done|done|cbn; lia|].
  split_and!; [intros E%(f_equal slen); rewrite slen_app in E; cbn in E; lia..|].
  change ".crt" with (".cr" +:+ "t"). change ".key" with (".ke" +:+ "y"). rewrite !sapp_assoc.
  intros [_ E]%last_inj. done.
Qed.

Section cert_theorems.
Context {Cert Pool : Type} (X509KeyPair : string → string → Cert + error).
Context (CanReadCertAndKey : files → string → string → bool + error)
        (Generate : string → list IP → list string → string → string * string + error)
        (WriteCert WriteKey : string → string → ST files (option error)).
Abbreviation Maybe := (MaybeDefaultWithSelfSignedCerts X509KeyPair CanReadCertAndKey Generate WriteCert WriteKey).

(** What golib's WriteCert and WriteKey do when they succeed. *)
Definition write_law (Write : string → string → ST files (option error)) : Prop :=
  ∀ path data fs fs', Write path data fs = (None, fs') → fs' path = inl data ∧ ∀ q, q ≠ path → fs' q = fs q.

(** There is a source of certificates: files, or one in memory. *)
Definition has_cert (k : GeneratableKeyCert) : Prop := gk_CertFile k ≠ "" ∨ gk_KeyFile k ≠ "" ∨ is_Some (gk_GeneratedCert k).

Lemma main_cert_has_cert fs k c : has_cert k → main_cert X509KeyPair fs k = inl c → is_Some c.
Proof.
  unfold main_cert, has_cert. rewrite !slen_0_decide. intros Hk.
  destruct (bool_decide (gk_CertFile k = "")) eqn:E1; destruct (bool_decide (gk_KeyFile k = "")) eqn:E2; cbn;
    try (destruct (NewDynamicServingContentFromFiles _ _ _ _ _); intros [= <-]; by eexists).
  apply bool_decide_eq_true in E1, E2. intros [= <-]. by destruct Hk as [?|[?|Hg]].
Qed.

Lemma self_sign_has_cert p k pub dns ips fs p' fs' :
  self_sign X509KeyPair Generate WriteCert WriteKey p k pub dns ips fs = ((None, p'), fs') → has_cert (so_ServerCert p').
Proof.
  unfold self_sign, has_cert. destruct (Generate _ _ _ _) as [[cert key]|]; [|done].
  rewrite !slen_pos. case_bool_decide as E1; cbn; [|].
  2:{ case_bool_decide as E2; cbn.
      - destruct (NewStaticCertKeyContent _ _ _ _) as [c|]; intros; simplify_eq; cbn; eauto.
      - destruct (WriteCert _ _ _) as [[] ?]; [done|]. destruct (WriteKey _ _ _) as [[] ?]; intros; simplify_eq; cbn; eauto. }
  destruct (NewStaticCertKeyContent _ _ _ _) as [c|]; intros; simplify_eq; cbn; eauto.
Qed.

Lemma self_sign_options p k pub dns ips fs err p' fs' :
  self_sign X509KeyPair Generate WriteCert WriteKey p k pub dns ips fs = ((err, p'), fs') → ∃ k', p' = set_cert p k'.
Proof.
  unfold self_sign. destruct (Generate _ _ _ _) as [[cert key]|]; [|intros; simplify_eq; eauto].
  destruct (_ && _).
  - destruct (WriteCert _ _ _) as [[] ?]; [intros; simplify_eq; eauto|].
    destruct (WriteKey _ _ _) as [[] ?]; intros; simplify_eq; eauto.
  - destruct (NewStaticCertKeyContent _ _ _ _); intros; simplify_eq; eauto.
Qed.

(** After the defaults, a server that listens has a source of certificates. *)
Lemma MaybeDefault_has_cert p pub dns ips fs p' fs' :
  Maybe (Some p) pub dns ips fs = ((None, p'), fs') → so_BindPort p ≠ 0%Z ∨ is_Some (so_Listener p) →
  ∃ k, p' = Some (set_cert p k) ∧ has_cert k.
Proof.
  intros Hm Hon. unfold MaybeDefaultWithSelfSignedCerts in Hm.
  destruct ((so_BindPort p =? 0)%Z && bool_decide (so_Listener p = None)) eqn:Hoff.
  { exfalso. apply andb_true_iff in Hoff as [H1%Z.eqb_eq H2%bool_decide_eq_true].
    rewrite H2 in Hon. destruct Hon as [?|[? ?]]; done. }
  rewrite !slen_0_decide, slen_pos in Hm.
  assert (∀ k, (let '((err, p), fs) := self_sign X509KeyPair Generate WriteCert WriteKey p k pub dns ips fs in ((err, Some p), fs)) =
            ((None, p'), fs') → ∃ k, p' = Some (set_cert p k) ∧ has_cert k) as Hsign.
  { intros k. destruct (self_sign X509KeyPair Generate WriteCert WriteKey p k pub dns ips fs) as [[err q] fs2] eqn:E. intros; simplify_eq.
    pose proof (self_sign_has_cert _ _ _ _ _ _ _ _ E) as Hc. destruct (self_sign_options _ _ _ _ _ _ _ _ _ E) as [k' ->].
    by exists k'. }
  destruct (negb _ || negb _) eqn:Hf.
  { simplify_eq. exists (so_ServerCert p). split; [by destruct p|]. apply orb_true_iff in Hf as [Hf|Hf];
      apply negb_true_iff, bool_decide_eq_false in Hf; [by left|by right; left]. }
  case_bool_decide as Hd; cbn [negb] in Hm; [by eapply Hsign|].
  case_bool_decide; [done|].
  destruct (CanReadCertAndKey _ _ _) as [[]|]; [|by eapply Hsign|done]. simplify_eq. eexists. split; [done|].
  left. by destruct (cert_paths (so_ServerCert p) Hd).
Qed.

Lemma NewDynamicServing_pair fs certFile keyFile cert key c :
  certFile ≠ "" → keyFile ≠ "" → fs certFile = inl cert → fs keyFile = inl key → cert ≠ "" → key ≠ "" →
  X509KeyPair cert key = inl c →
  ∃ d, NewDynamicServingContentFromFiles X509KeyPair fs "serving-cert" certFile keyFile = inl d ∧
    dp_certKeyPair d = Some {| ck_cert := cert; ck_key := key |}.
Proof.
  intros H1 H2 Hc Hk Hnc Hnk Hp. unfold NewDynamicServingContentFromFiles, loadCertKeyPair. cbn.
  rewrite Hc, Hk, !slen_0_decide, !bool_decide_eq_false_2 by done. cbn. rewrite Hp. by eexists.
Qed.

(** What a pair was generated for, and that it is what is served. *)
Definition generated_for (p : SecureServingOptions) pub (dns : list string) (ips : list IP) fixtures (q : SecureServingOptions) (fs' : files) : Prop :=
  ∃ ips' dns' cert key,
    Generate pub ips' dns' fixtures = inl (cert, key) ∧ ips ⊆ ips' ∧ dns ⊆ dns' ∧
    (if IsUnspecified (so_BindAddress p) then "localhost" ∈ dns' else so_BindAddress p ∈ ips') ∧
    (cert ≠ "" → key ≠ "" → (∃ c, X509KeyPair cert key = inl c) →
     ∃ prov, main_cert X509KeyPair fs' (so_ServerCert q) = inl (Some prov) ∧
       CurrentCertKeyContent prov = Ret {| ck_cert := cert; ck_key := key |}).

Lemma self_sign_served p k pub dns ips fs q fs' :
  write_law WriteCert → write_law WriteKey →
  (gk_CertFile k = "" ∧ gk_KeyFile k = "" ∨ gk_CertFile k ≠ "" ∧ gk_KeyFile k ≠ "" ∧ gk_CertFile k ≠ gk_KeyFile k) →
  self_sign X509KeyPair Generate WriteCert WriteKey p k pub dns ips fs = ((None, q), fs') →
  generated_for p pub dns ips (gk_FixtureDirectory k) q fs'.
Proof.
  intros Hwc Hwk Hfiles. unfold self_sign, generated_for.
  set (dns' := if IsUnspecified _ then _ else dns). set (ips' := if IsUnspecified _ then ips else _).
  assert (ips ⊆ ips') by (unfold ips'; destruct (IsUnspecified _); set_solver).
  assert (dns ⊆ dns') by (unfold dns'; destruct (IsUnspecified _); set_solver).
  assert (if IsUnspecified (so_BindAddress p) then "localhost" ∈ dns' else so_BindAddress p ∈ ips')
    by (unfold ips', dns'; destruct (IsUnspecified _); set_solver).
  destruct (Generate pub ips' dns' _) as [[cert key]|] eqn:Hg; [|done]. rewrite !slen_pos.
  destruct Hfiles as [[E1 E2]|(E1 & E2 & E3)].
  - rewrite (bool_decide_eq_true_2 (gk_CertFile k = "")) by done. cbn. unfold NewStaticCertKeyContent. destruct (X509KeyPair cert key); intros; simplify_eq.
    exists ips', dns', cert, key. split_and!; try done. intros _ _ _. unfold main_cert. cbn. rewrite E1, E2. cbn. eauto.
  - rewrite !bool_decide_eq_false_2 by done. cbn.
    destruct (WriteCert _ cert fs) as [[] fs1] eqn:Hc; [done|]. destruct (WriteKey _ key fs1) as [[] fs2] eqn:Hk; intros; simplify_eq.
    exists ips', dns', cert, key. split_and!; try done. intros Hn1 Hn2 [c Hp].
    apply Hwc in Hc as [Hc _]. apply Hwk in Hk as [Hk Hother].
    destruct (NewDynamicServing_pair fs' (gk_CertFile k) (gk_KeyFile k) cert key c) as (d & Hd & Hpair); try done.
    { by rewrite Hother. }
    exists (DynamicCertKey d). unfold main_cert. cbn. rewrite !slen_0_decide, !bool_decide_eq_false_2 by done. cbn.
    by rewrite Hd, Hpair.
Qed.

(** A certificate the server had to make is the one it serves: when neither files nor a
    readable pair were there, the pair generated for the public address, for the names
    given and for the bind address (or localhost) is what the serving options provide
    afterwards, from the files or from memory. *)
Theorem self_signed_served p pub dns ips fs p' fs' :
  write_law WriteCert → write_law WriteKey →
  let k := so_ServerCert p in
  (0 < so_BindPort p)%Z → gk_CertFile k = "" → gk_KeyFile k = "" →
  (gk_CertDirectory k ≠ "" → CanReadCertAndKey fs (cert_path k) (key_path k) = inl false) →
  Maybe (Some p) pub dns ips fs = ((None, p'), fs') →
  ∃ q, p' = Some q ∧ generated_for p pub dns ips (gk_FixtureDirectory k) q fs'.
Proof.
  intros Hwc Hwk k Hport Hcf Hkf Hunread. unfold MaybeDefaultWithSelfSignedCerts. fold k. cbv zeta.
  destruct (Z.eqb_spec (so_BindPort p) 0); [lia|]. rewrite Hcf, Hkf. cbn [andb slen Nat.eqb negb orb]. rewrite slen_pos.
  case_bool_decide as Hd; cbn [negb].
  - destruct (self_sign _ _ _ _ _ _ _ _ _ _) as [[err q] fs2] eqn:E. intros; simplify_eq.
    exists q. split; [done|]. eapply self_sign_served; eauto.
  - case_match; [done|]. cbn [gk_CertFile gk_KeyFile set_cert_files].
    change (path_Join [gk_CertDirectory k; gk_PairName k +:+ ".crt"]) with (cert_path k).
    change (path_Join [gk_CertDirectory k; gk_PairName k +:+ ".key"]) with (key_path k).
    rewrite Hunread by done. destruct (self_sign _ _ _ _ _ _ _ _ _ _) as [[err q] fs2] eqn:E. intros; simplify_eq.
    exists q. split; [done|]. eapply (self_sign_served _ (set_cert_files k (cert_path k) (key_path k))); eauto.
    right. by apply cert_paths.
Qed.
End cert_theorems.

(** ** Witnesses *)

Module ServingOptionsExamples.
#[local] Existing Instance golib_errors_model.
#[local] Existing Instance golib_errors_model_laws.

Definition any4 : IP := [0; 0; 0; 0]%Z.
Definition lo4 : IP := [127; 0; 0; 1]%Z.

Lemma LoopbackHostPort_spec_witness :
  ∃ host, LoopbackHostPort (λ _, false) (λ _, false) (inl [None; Some lo4]) "0.0.0.0:8443" = inl (host, "8443") ∧
    host = "127.0.0.1".
Proof.
  destruct (LoopbackHostPort_spec (λ _, false) (λ _, false) (inl [None; Some lo4]) any4 8443 "") as (host & E & _ & _ & _ & Hl).
  - repeat constructor; lia.
  - by split.
  - exists host. split; [exact E|]. by apply Hl.
Defined.

(** The defaults, with the switches set as the flags set them. *)
Definition secure_on : SecureServingOptions := {|
  so_Enabled := Some true; so_BindAddress := any4; so_BindPort := 8443; so_BindNetwork := "tcp"; so_Required := true;
  so_ExternalAddress := []; so_Listener := None;
  so_ServerCert := {| gk_CertFile := ""; gk_KeyFile := ""; gk_CertDirectory := "/var/run/app"; gk_PairName := "apiserver";
                      gk_GeneratedCert := None; gk_FixtureDirectory := "" |};
  so_SNICertKeys := {| nka_value := None; nka_changed := false |}; so_CipherSuites := []; so_MinTLSVersion := "";
  so_HTTP2MaxStreamsPerConnection := 0; so_PermitPortSharing := false; so_PermitAddressSharing := false |}.
Definition set_enabled (s : SecureServingOptions) (b : bool) : SecureServingOptions := {|
  so_Enabled := Some b; so_BindAddress := so_BindAddress s; so_BindPort := so_BindPort s; so_BindNetwork := so_BindNetwork s;
  so_Required := so_Required s; so_ExternalAddress := so_ExternalAddress s; so_Listener := so_Listener s;
  so_ServerCert := so_ServerCert s; so_SNICertKeys := so_SNICertKeys s; so_CipherSuites := so_CipherSuites s;
  so_MinTLSVersion := so_MinTLSVersion s; so_HTTP2MaxStreamsPerConnection := so_HTTP2MaxStreamsPerConnection s;
  so_PermitPortSharing := so_PermitPortSharing s; so_PermitAddressSharing := so_PermitAddressSharing s |}.
Definition insecure_off : DeprecatedInsecureServingOptions :=
  {| io_Enabled := Some false; io_BindAddress := any4; io_BindPort := 8080; io_BindNetwork := "tcp"; io_Listener := None |}.
Definition example_config : Config := set_serving (NewConfig "app") (Some secure_on) (Some insecure_off) [].

Lemma example_config_ok : config_ok example_config.
Proof.
  split; [|split].
  - split_and!; (done || by constructor).
  - intros s [= <-]. split; [cbn; lia|by left].
  - done.
Qed.

Lemma Config_Validate_spec_witness : Config_Validate example_config = Ret (None, validated example_config).
Proof.
  destruct (proj1 (Config_Validate_spec example_config)) as (err & -> & Hok).
  - intros s [= <-]. by eexists.
  - intros s [= <-]. by eexists.
  - by rewrite (proj2 Hok example_config_ok).
Defined.

Definition disk (fs : files) (path data : string) : files := λ q, if q == path then inl data else fs q.
Definition write (path data : string) : ST files (option error) := λ fs, (None, disk fs path data).
Definition no_files : files := λ _, inr (Errorf "no such file" []).
Definition gen (host : string) (ips : list IP) (dns : list string) (fixtures : string) : string * string + error :=
  inl ("cert for " +:+ host, "key").
Definition pair (cert key : string) : string + error := inl cert.

Lemma write_ok : write_law write.
Proof.
  intros path data fs fs' [= <-]. unfold disk. split; [by rewrite bool_decide_eq_true_2|].
  intros q Hq. by rewrite bool_decide_eq_false_2.
Qed.

Lemma self_signed_served_witness :
  ∃ q fs', MaybeDefaultWithSelfSignedCerts pair (λ _ _ _, inl false) gen write write (Some secure_on) "10.0.0.1" [] [] no_files =
             ((None, Some q), fs') ∧
    generated_for pair gen secure_on "10.0.0.1" [] [] "" q fs'.
Proof.
  eexists _, _. split; [reflexivity|].
  edestruct (self_signed_served pair (λ _ _ _, inl false) gen write write secure_on "10.0.0.1" [] [] no_files) as (q & Hq & Hg);
    [exact write_ok|exact write_ok|cbn; lia|done|done|done|reflexivity|]. injection Hq as <-. exact Hg.
Defined.
End ServingOptionsExamples.
