(* ===== verification/ServerRoutes.v ===== *)
(** * Where a request goes: the director and the server's own endpoints

    Models pkg/server/handler.go (the director, which sends a request to the go-restful
    container or to the path multiplexer, and the list of paths) and pkg/server/routes
    (index.go, profiling.go, flags.go, metrics.go, version.go, expvar.go, swagger.go),
    with serverModule.handlerInit and installAPI (pkg/server/module/server.go), which
    register the endpoints a configuration asks for.

    The multiplexer is that of [PathMux].  go-restful's container is a class; what its
    services do once a request is dispatched, net/http/pprof, expvar, Prometheus and the
    swagger pages are handlers known by name. *)

From S2P Require Import Prelude GoStrings PathMux Healthz ServingOptions.

Local Open Scope go_scope.

(** ** go-restful *)

(** A web service: its root path and the paths of its routes. *)
Record WebService := { ws_RootPath : string; ws_Routes : list string }.

(** restful.Container: Add appends a service whose root path is not in use (it exits the
    process otherwise), RegisteredWebServices lists them in that order. *)
Class RestfulContainer (C : Type) := {
  restful_NewContainer : C;
  restful_Add : C → WebService → C;
  RegisteredWebServices : C → list WebService;
}.
Class RestfulContainerLaws (C : Type) `{RestfulContainer C} := {
  Registered_New : RegisteredWebServices restful_NewContainer = [];
  Registered_Add c ws :
    ws_RootPath ws ∉ ws_RootPath <$> RegisteredWebServices c →
    RegisteredWebServices (restful_Add c ws) = RegisteredWebServices c ++ [ws];
}.

Definition container_model : RestfulContainer (list WebService) :=
  {| restful_NewContainer := []; restful_Add c ws := c ++ [ws]; RegisteredWebServices c := c |}.
Lemma container_model_laws : @RestfulContainerLaws (list WebService) container_model.
Proof. by split. Qed.

(** ** Handlers *)

Inductive route_handler (HH : Type) :=
  | NotFound
  | IndexLister
  | RedirectTo (to : string)
  | Pprof (name : string)
  | DebugFlagsIndex
  | StringFlagPut
  | Prometheus
  | MetricsWithReset
  | ExpvarHandler
  | SwaggerHandler (url : string)
  | HealthHandler (h : HH).
Arguments NotFound {HH}.
Arguments IndexLister {HH}.
Arguments RedirectTo {HH} _.
Arguments Pprof {HH} _.
Arguments DebugFlagsIndex {HH}.
Arguments StringFlagPut {HH}.
Arguments Prometheus {HH}.
Arguments MetricsWithReset {HH}.
Arguments ExpvarHandler {HH}.
Arguments SwaggerHandler {HH} _.
Arguments HealthHandler {HH} _.

Section routes.
Context {C R S sset : Type} `{RestfulContainer C} `{StringSets sset}.
Context (query : R → gmap string (list string)) (quote : string → string) (Error_string : error → string).
(** go-restful's join of a root path and the path of a route. *)
Context (concatPath : string → string → string).

Definition handler : Type := route_handler (R → ST S health_response).
Definition mux : Type := PathRecorderMux handler.

(** ** routes *)

Definition Index_Install (m : mux) : mux :=
  let m := UnlistedHandle NotFound m "/" IndexLister "" in
  UnlistedHandle NotFound m "/index.html" IndexLister "".

Definition Profiling_Install (c : mux) : outcome mux :=
  let c := UnlistedHandle NotFound c "/debug/pprof" (RedirectTo "/debug/pprof/") "" in
  c ← UnlistedHandlePrefix NotFound c "/debug/pprof/" (Pprof "Index") "";
  let c := UnlistedHandle NotFound c "/debug/pprof/profile" (Pprof "Profile") "" in
  let c := UnlistedHandle NotFound c "/debug/pprof/symbol" (Pprof "Symbol") "" in
  Ret (UnlistedHandle NotFound c "/debug/pprof/trace" (Pprof "Trace") "").

(** The flags that were registered are global. *)
Definition DebugFlags_Install (c : mux) (flag : string) (h : handler) (registeredFlags : gset string)
    : outcome (mux * gset string) :=
  let c := UnlistedHandle NotFound c "/debug/flags" DebugFlagsIndex "" in
  c ← UnlistedHandlePrefix NotFound c "/debug/flags/" DebugFlagsIndex "";
  let url := path_Join ["/debug/flags"; flag] in
  Ret (UnlistedHandle NotFound c url h "", {[flag]} ∪ registeredFlags).

Definition DefaultMetrics_Install (c : mux) : mux := Handle NotFound c "/metrics" Prometheus "".
Definition MetricsWithReset_Install (c : mux) : mux := Handle NotFound c "/metrics" MetricsWithReset "".
Definition Expvar_Install (c : mux) : mux := UnlistedHandle NotFound c "/debug/vars" ExpvarHandler "".

Definition Swagger_Install (c : mux) (apidocsPath : string) : outcome mux :=
  let c := Handle NotFound c "/swagger" (RedirectTo "/swagger/") "" in
  HandlePrefix NotFound c "/swagger/" (SwaggerHandler apidocsPath) "".

(** A nil version installs nothing. *)
Definition Version_Install (version : option string) (c : C) : C :=
  match version with
  | None => c
  | Some _ => restful_Add c {| ws_RootPath := "/version"; ws_Routes := [concatPath "/version" "/"] |}
  end.

(** *** What the handlers answer *)

Record plain_response := { pr_status : Z; pr_body : string }.

(** StringFlagPutHandler: [body] is the result of reading the request's body, [setter]
    changes the flag. *)
Definition StringFlagPutHandler {F} (setter : string → ST F (string + error)) (method : string) (body : string + error)
    : ST F plain_response :=
  if method == "PUT" then
    match body with
    | inr err => mret {| pr_status := 400; pr_body := "error reading request body: " +:+ Error_string err +:+ nl |}
    | inl body =>
        r ← setter body;
        mret match r with
             | inr err => {| pr_status := 400; pr_body := Error_string err +:+ nl |}
             | inl response => {| pr_status := 200; pr_body := response +:+ nl |}
             end
    end
  else mret {| pr_status := 406; pr_body := "unsupported http method" +:+ nl |}.

(** metricsWithReset: metrics.Reset and Prometheus's handler change the metrics. *)
Definition metricsWithReset {M} (Reset : M → M) (prom : ST M plain_response) (method : string) : ST M plain_response := λ m,
  if method == "DELETE" then ({| pr_status := 200; pr_body := "metrics reset" +:+ nl |}, Reset m) else prom m.

(** ** handler.go *)

Record APIServerHandler := { ah_GoRestfulContainer : C; ah_NonGoRestfulMux : mux }.

Definition NewAPIServerHandler (notFoundHandler : option handler) : APIServerHandler :=
  let m := NewPathRecorderMux NotFound in
  {| ah_GoRestfulContainer := restful_NewContainer;
     ah_NonGoRestfulMux := match notFoundHandler with
                           | None => m
                           | Some h => NotFoundHandler NotFound m (Some h)
                           end |}.

Definition APIServerHandler_ListedPaths (a : APIServerHandler) : list string :=
  merge_sort String.le
    ((RegisteredWebServices (ah_GoRestfulContainer a) ≫= ws_Routes) ++ PathMux.ListedPaths (ah_NonGoRestfulMux a)).

(** ListedPathProviders.ListedPaths: the union of the providers' paths. *)
Definition ListedPathProviders_ListedPaths (p : list (list string)) : list string :=
  sets_List (foldl (λ s paths, foldl (λ s path, sets_Insert s [path]) s paths) (sets_NewString [] : sset) p).

(** path[i] *)
Definition byte_at (s : string) (i : nat) : outcome ascii :=
  match String.get i s with Some a => Ret a | None => Panic "index out of range" end.

Inductive target := Dispatch | Mux (h : handler).

(** The loop of director.ServeHTTP: whether a web service claims the path. *)
Fixpoint director_loop (services : list WebService) (path : string) : outcome bool :=
  match services with
  | [] => Ret false
  | ws :: services =>
      let root := ws_RootPath ws in
      if root == "/apis" then
        if (path == "/apis") || (path == "/apis/") then Ret true else director_loop services path
      else if HasPrefix path root then
        boundary ← if slen path =? slen root then Ret true else (a ← byte_at path (slen root); Ret (a == "/"%char));
        if (boundary : bool) then Ret true else director_loop services path
      else director_loop services path
  end.

Definition director_ServeHTTP (d : APIServerHandler) (path : string) : outcome target :=
  claimed ← director_loop (RegisteredWebServices (ah_GoRestfulContainer d)) path;
  Ret (if (claimed : bool) then Dispatch else Mux (PathMux.ServeHTTP (ah_NonGoRestfulMux d) path)).

(** ** serverModule.installAPI *)

Definition APIDocsPath : string := "/apidocs.json".

(** The block profile is switched on at a rate. *)
Record installed := { in_handler : APIServerHandler; in_flags : gset string; in_blockProfileRate : option Z }.

Definition installAPI (c : Config) (version : option string) (a : APIServerHandler) (registeredFlags : gset string)
    : outcome installed :=
  let m := ah_NonGoRestfulMux a in
  let m := if c_EnableIndex c then Index_Install m else m in
  r ← (if c_EnableProfiling c then
         m ← Profiling_Install m;
         DebugFlags_Install m "v" StringFlagPut registeredFlags
       else Ret (m, registeredFlags));
  let '(m, flags) := r in
  let m := if c_EnableMetrics c then
             if c_EnableProfiling c then MetricsWithReset_Install m else DefaultMetrics_Install m
           else m in
  let container := Version_Install version (ah_GoRestfulContainer a) in
  let m := if c_EnableExpvar c then Expvar_Install m else m in
  m ← (if c_EnableOpenAPI c then Swagger_Install m APIDocsPath else Ret m);
  let m := if c_EnableHealthz c then InstallHandler query quote Error_string HealthHandler NotFound m [] else m in
  Ret {| in_handler := {| ah_GoRestfulContainer := container; ah_NonGoRestfulMux := m |}; in_flags := flags;
         in_blockProfileRate := if c_EnableProfiling c && c_EnableContentionProfiling c then Some 1%Z else None |}.
End routes.

(** ** Theorems *)

(** *** The director *)

(** The paths a web service takes: /apis exactly, with or without a final slash;
    otherwise its root path and everything below it. *)
Definition claims (path root : string) : Prop :=
  if decide (root = "/apis") then path = "/apis" ∨ path = "/apis/"
  else path = root ∨ ∃ t, path = root +:+ "/" +:+ t.

Lemma get_app s a t : String.get (slen s) (s +:+ String a t) = Some a.
Proof. induction s as [|b s IH]; [done|]. rewrite sapp_cons. exact IH. Qed.

Lemma director_loop_spec services path :
  (Exists (λ ws, claims path (ws_RootPath ws)) services → director_loop services path = Ret true) ∧
  (Forall (λ ws, ¬ claims path (ws_RootPath ws)) services → director_loop services path = Ret false).
Proof.
  induction services as [|ws services [IH1 IH2]]; [split; [by intros ?%Exists_nil|done]|]. cbn [director_loop].
  rewrite Exists_cons, Forall_cons.
  set (root := ws_RootPath ws). enough (∃ b, (b = true ↔ claims path root) ∧
    (if root == "/apis" then if (path == "/apis") || (path == "/apis/") then Ret true else director_loop services path
     else if HasPrefix path root then
        boundary ← if slen path =? slen root then Ret true else (a ← byte_at path (slen root); Ret (a == "/"%char));
        if (boundary : bool) then Ret true else director_loop services path
      else director_loop services path) = if b : bool then Ret true else director_loop services path) as (b & Hb & ->).
  { destruct b; [split; [done|]|]. { intros [Hn _]. by destruct Hn; apply Hb. }
    split; [|by intros [_ ?]; apply IH2]. intros [Hc|Hc]; [by apply Hb in Hc|by apply IH1]. }
  unfold claims. case_bool_decide as Ha.
  { rewrite decide_True by done. eexists. split; [|reflexivity]. rewrite orb_true_iff, !bool_decide_eq_true. done. }
  rewrite decide_False by done. destruct (HasPrefix path root) eqn:Hp.
  2:{ exists false. split; [|done]. split; [done|]. intros [->|[t ->]]; [by rewrite HasPrefix_refl in Hp|by rewrite HasPrefix_app in Hp]. }
  apply HasPrefix_spec in Hp as [t Ht]. rewrite Ht, slen_app. destruct t as [|a t].
  { exists true. rewrite sapp_nil_r, (proj2 (Nat.eqb_eq _ _)) by (cbn; lia). split; [|done]. split; [by left|done]. }
  rewrite (proj2 (Nat.eqb_neq _ _)) by (cbn; lia). unfold byte_at. rewrite get_app. cbn.
  exists (bool_decide (a = "/"%char)). split; [|done]. rewrite bool_decide_eq_true. split.
  - intros ->. right. by exists t.
  - intros [E|[u E]]; [by apply (f_equal slen) in E; rewrite slen_app in E; cbn in E; lia|].
    apply sapp_inj_l in E. change ("/" +:+ u) with (String "/" u) in E. congruence.
Qed.

Section theorems.
Context {C R S sset : Type} `{!RestfulContainer C} `{!RestfulContainerLaws C} `{!StringSets sset} `{!StringSetsLaws sset}.
Context (query : R → gmap string (list string)) (quote : string → string) (Error_string : error → string)
        (concatPath : string → string → string).
Abbreviation hdl := (@handler R S).
Abbreviation pmux := (@mux R S).
Abbreviation install := (installAPI (C := C) (sset := sset) query quote Error_string concatPath).

(** C32: the director never indexes out of range; it dispatches to go-restful exactly the
    paths a registered web service claims, and leaves all others to the multiplexer. *)
Theorem director_spec (d : @APIServerHandler C R S) path :
  let roots := ws_RootPath <$> RegisteredWebServices (ah_GoRestfulContainer d) in
  (Exists (claims path) roots → director_ServeHTTP d path = Ret Dispatch) ∧
  (Forall (λ root, ¬ claims path root) roots →
   director_ServeHTTP d path = Ret (Mux (PathMux.ServeHTTP (ah_NonGoRestfulMux d) path))).
Proof.
  intros roots. unfold director_ServeHTTP, roots. rewrite Exists_fmap, Forall_fmap.
  destruct (director_loop_spec (RegisteredWebServices (ah_GoRestfulContainer d)) path) as [H1 H2].
  split; intros Hc; [by rewrite (H1 Hc)|by rewrite (H2 Hc)].
Qed.

(** *** The endpoints of a configuration *)

Inductive reg := Exact (listed : bool) (path : string) (h : hdl) | Prefix (listed : bool) (path : string) (h : hdl).

Definition apply_reg (m : pmux) (r : reg) : pmux :=
  match r with
  | Exact true path h => Handle NotFound m path h ""
  | Exact false path h => UnlistedHandle NotFound m path h ""
  | Prefix true path h => match HandlePrefix NotFound m path h "" with Ret m => m | Panic _ => m end
  | Prefix false path h => match UnlistedHandlePrefix NotFound m path h "" with Ret m => m | Panic _ => m end
  end.

#[local] Opaque refreshMuxLocked.

Lemma HandlePrefix_reg m path h :
  HasSuffix path "/" = true → HandlePrefix NotFound m path h "" = Ret (apply_reg m (Prefix true path h)).
Proof. intros Hs. cbn [apply_reg]. unfold HandlePrefix. by rewrite Hs. Qed.
Lemma UnlistedHandlePrefix_reg m path h :
  HasSuffix path "/" = true → UnlistedHandlePrefix NotFound m path h "" = Ret (apply_reg m (Prefix false path h)).
Proof. intros Hs. cbn [apply_reg]. unfold UnlistedHandlePrefix. by rewrite Hs. Qed.

(** The registrations of each endpoint. *)
Definition index_regs : list reg := [Exact false "/" IndexLister; Exact false "/index.html" IndexLister].
Definition profiling_regs : list reg :=
  [Exact false "/debug/pprof" (RedirectTo "/debug/pprof/"); Prefix false "/debug/pprof/" (Pprof "Index");
   Exact false "/debug/pprof/profile" (Pprof "Profile"); Exact false "/debug/pprof/symbol" (Pprof "Symbol");
   Exact false "/debug/pprof/trace" (Pprof "Trace")].
Definition flags_regs : list reg :=
  [Exact false "/debug/flags" DebugFlagsIndex; Prefix false "/debug/flags/" DebugFlagsIndex; Exact false "/debug/flags/v" StringFlagPut].
Definition swagger_regs : list reg :=
  [Exact true "/swagger" (RedirectTo "/swagger/"); Prefix true "/swagger/" (SwaggerHandler APIDocsPath)].
Definition healthz_regs : list reg :=
  [Exact true "/healthz" (HealthHandler (handleRootHealth query quote "healthz" [PingHealthz]));
   Exact true "/healthz/ping" (HealthHandler (adaptCheckToHandler Error_string (hc_Check PingHealthz)))].

Definition when {A} (b : bool) (l : list A) : list A := if b then l else [].

Definition api_regs (c : Config) : list reg :=
  when (c_EnableIndex c) index_regs ++
  when (c_EnableProfiling c) (profiling_regs ++ flags_regs) ++
  when (c_EnableMetrics c) [Exact true "/metrics" (if c_EnableProfiling c then MetricsWithReset else Prometheus)] ++
  when (c_EnableExpvar c) [Exact false "/debug/vars" ExpvarHandler] ++
  when (c_EnableOpenAPI c) swagger_regs ++
  when (c_EnableHealthz c) healthz_regs.

Lemma Profiling_regs m : Profiling_Install m = Ret (foldl apply_reg m profiling_regs).
Proof. unfold Profiling_Install. by rewrite UnlistedHandlePrefix_reg. Qed.
Lemma Flags_regs m flags : DebugFlags_Install m "v" StringFlagPut flags = Ret (foldl apply_reg m flags_regs, {["v"]} ∪ flags).
Proof. unfold DebugFlags_Install. by rewrite UnlistedHandlePrefix_reg. Qed.
Lemma Swagger_regs m : Swagger_Install m APIDocsPath = Ret (foldl apply_reg m swagger_regs).
Proof. unfold Swagger_Install. by rewrite HandlePrefix_reg. Qed.
Lemma Healthz_regs m :
  InstallHandler query quote Error_string HealthHandler NotFound m [] = foldl apply_reg m healthz_regs.
Proof. done. Qed.

Lemma foldl_when b (l : list reg) m : foldl apply_reg m (when b l) = if b then foldl apply_reg m l else m.
Proof. by destruct b. Qed.

Lemma installAPI_regs c version a flags :
  install c version a flags =
  Ret {| in_handler := {| ah_GoRestfulContainer := Version_Install concatPath version (ah_GoRestfulContainer a);
                          ah_NonGoRestfulMux := foldl apply_reg (ah_NonGoRestfulMux a) (api_regs c) |};
         in_flags := (if c_EnableProfiling c then {["v"]} else ∅) ∪ flags;
         in_blockProfileRate := if c_EnableProfiling c && c_EnableContentionProfiling c then Some 1%Z else None |}.
Proof.
  unfold installAPI, api_regs. rewrite !foldl_app, !foldl_when.
  change (Index_Install (ah_NonGoRestfulMux a)) with (foldl apply_reg (ah_NonGoRestfulMux a) index_regs).
  set (m0 := if c_EnableIndex c then _ else _).
  unfold mbind, outcome_bind, mret, outcome_ret.
  destruct (c_EnableProfiling c); [rewrite Profiling_regs; cbv beta iota; rewrite Flags_regs, foldl_app|rewrite (left_id_L ∅ (∪))];
    cbv beta iota zeta; (destruct (c_EnableOpenAPI c); [rewrite Swagger_regs|]); cbv beta iota zeta; rewrite ?Healthz_regs;
    by destruct (c_EnableMetrics c), (c_EnableExpvar c), (c_EnableHealthz c).
Qed.

#[local] Transparent refreshMuxLocked.

(** What was registered for exact paths and for prefixes. *)
Definition exacts (l : list reg) : list (string * hdl) :=
  omap (λ r, match r with Exact _ path h => Some (path, h) | _ => None end) l.
Definition prefixes (l : list reg) : list (string * hdl) :=
  omap (λ r, match r with Prefix _ path h => Some (path, h) | _ => None end) l.
Definition slashed (r : reg) : Prop := match r with Prefix _ path _ => HasSuffix path "/" = true | _ => True end.

Definition inserts (g : gmap string hdl) (l : list (string * hdl)) : gmap string hdl :=
  foldl (λ g kv, <[kv.1 := kv.2]> g) g l.

Lemma apply_regs_tables l m :
  Forall slashed l → ph_pathToHandler (m_mux m) = m_pathToHandler m →
  ph_prefixHandlers (m_mux m) = prefixHandlersOf (m_prefixToHandler m) → ph_notFoundHandler (m_mux m) = NotFound → m_notFoundHandler m = None →
  let t := m_mux (foldl apply_reg m l) in
  ph_pathToHandler t = inserts (m_pathToHandler m) (exacts l) ∧
  ph_prefixHandlers t = prefixHandlersOf (inserts (m_prefixToHandler m) (prefixes l)) ∧ ph_notFoundHandler t = NotFound.
Proof.
  intros Hl. revert m. induction Hl as [|r l Hr _ IH]; intros m H1 H2 H3 H4; [done|]. cbn [foldl].
  destruct r as [[] path h|[] path h]; cbn [apply_reg]; cbn in Hr;
    unfold HandlePrefix, UnlistedHandlePrefix; rewrite ?Hr; cbn [negb];
    (match goal with |- context [foldl apply_reg ?m' l] => apply (IH m') end; cbn; rewrite ?H4; done).
Qed.

Lemma inserts_lookup l path :
  NoDup l.*1 →
  (∀ h, (path, h) ∈ l → inserts ∅ l !! path = Some h) ∧ (path ∉ l.*1 → inserts ∅ l !! path = None).
Proof.
  intros Hnd. unfold inserts. destruct (foldl_insert_lookup fst snd l (∅ : gmap string hdl)) as [H1 H2].
  split; [|intros Hp; by rewrite H1]. intros h Hin. exact (H2 Hnd _ Hin).
Qed.

(** The handler of a path below a prefix. *)
Definition prefix_endpoint (c : Config) (path : string) : hdl :=
  if c_EnableProfiling c && HasPrefix path "/debug/pprof/" then Pprof "Index"
  else if c_EnableProfiling c && HasPrefix path "/debug/flags/" then DebugFlagsIndex
  else if c_EnableOpenAPI c && HasPrefix path "/swagger/" then SwaggerHandler APIDocsPath
  else NotFound.

Lemma api_regs_NoDup c : NoDup (exacts (api_regs c)).*1.
Proof.
  apply (bool_decide_unpack _). unfold api_regs.
  destruct (c_EnableIndex c), (c_EnableProfiling c), (c_EnableMetrics c), (c_EnableExpvar c), (c_EnableOpenAPI c), (c_EnableHealthz c);
    vm_compute; exact I.
Qed.

Lemma api_regs_slashed c : Forall slashed (api_regs c).
Proof.
  unfold api_regs. repeat (apply Forall_app; split); unfold when; case_match; repeat constructor.
Qed.

Lemma api_prefixes c :
  prefixes (api_regs c) =
  when (c_EnableProfiling c) [("/debug/pprof/", Pprof "Index"); ("/debug/flags/", DebugFlagsIndex)] ++
  when (c_EnableOpenAPI c) [("/swagger/", SwaggerHandler APIDocsPath)].
Proof.
  unfold api_regs.
  by destruct (c_EnableIndex c), (c_EnableProfiling c), (c_EnableMetrics c), (c_EnableExpvar c), (c_EnableOpenAPI c), (c_EnableHealthz c).
Qed.

Lemma api_prefix_order c :
  prefixHandlersOf (inserts ∅ (prefixes (api_regs c))) =
  when (c_EnableProfiling c) [("/debug/pprof/", Pprof "Index"); ("/debug/flags/", DebugFlagsIndex)] ++
  when (c_EnableOpenAPI c) [("/swagger/", SwaggerHandler APIDocsPath)].
Proof.
  rewrite api_prefixes. destruct (c_EnableProfiling c), (c_EnableOpenAPI c); vm_compute; reflexivity.
Qed.

Lemma debug_gated c path :
  c_EnableProfiling c = false → c_EnableExpvar c = false → HasPrefix path "/debug" = true → path ∉ (exacts (api_regs c)).*1.
Proof.
  intros H1 H2 Hd. assert (Forall (λ p, HasPrefix p "/debug" = false) (exacts (api_regs c)).*1) as Hall.
  { unfold api_regs. rewrite H1, H2. apply (bool_decide_unpack _).
    destruct (c_EnableIndex c), (c_EnableMetrics c), (c_EnableOpenAPI c), (c_EnableHealthz c); vm_compute; exact I. }
  intros Hin. rewrite Forall_forall in Hall. by rewrite (Hall _ Hin) in Hd.
Qed.

(** C33: a new server registers its endpoints without a panic, each once; afterwards the
    multiplexer serves exactly what the configuration switched on: the exact paths, what
    lies below the three prefixes, and nothing else; without profiling and expvar nothing
    under /debug.  The version is a web service. *)
Theorem installAPI_endpoints c version :
  ∃ i, install c version (NewAPIServerHandler None) ∅ = Ret i ∧
    NoDup (exacts (api_regs c)).*1 ∧
    RegisteredWebServices (ah_GoRestfulContainer (in_handler i)) =
      when (bool_decide (is_Some version)) [{| ws_RootPath := "/version"; ws_Routes := [concatPath "/version" "/"] |}] ∧
    ∀ path,
      (∀ h, (path, h) ∈ exacts (api_regs c) → PathMux.ServeHTTP (ah_NonGoRestfulMux (in_handler i)) path = h) ∧
      (path ∉ (exacts (api_regs c)).*1 → PathMux.ServeHTTP (ah_NonGoRestfulMux (in_handler i)) path = prefix_endpoint c path) ∧
      (c_EnableProfiling c = false → c_EnableExpvar c = false → HasPrefix path "/debug" = true →
       PathMux.ServeHTTP (ah_NonGoRestfulMux (in_handler i)) path = NotFound).
Proof.
  eexists. split; [apply installAPI_regs|]. split; [apply api_regs_NoDup|]. cbn [in_handler ah_GoRestfulContainer ah_NonGoRestfulMux].
  split.
  { destruct version as [v|]; cbn; [|apply Registered_New]. rewrite Registered_Add; rewrite Registered_New; [done|apply not_elem_of_nil]. }
  cbn [NewAPIServerHandler ah_NonGoRestfulMux].
  intros path. destruct (apply_regs_tables (api_regs c) (NewPathRecorderMux NotFound)) as (Hp & Hpre & Hnf); try done.
  { apply api_regs_slashed. }
  unfold PathMux.ServeHTTP, pathHandler_ServeHTTP. rewrite Hp, Hpre, Hnf. cbn [m_pathToHandler m_prefixToHandler NewPathRecorderMux].
  rewrite api_prefix_order. destruct (inserts_lookup (exacts (api_regs c)) path (api_regs_NoDup c)) as [H1 H2].
  unfold handler, mux in *.
  match goal with |- _ ∧ ?P ∧ _ => assert P as Hpx end.
  { intros Hn. rewrite (H2 Hn). unfold prefix_endpoint.
    destruct (c_EnableProfiling c), (c_EnableOpenAPI c); cbn [when app List.find fst andb];
      repeat (destruct (HasPrefix path _); [reflexivity|]); reflexivity. }
  split_and!; [intros h Hh; by rewrite (H1 h Hh)|exact Hpx|].
  intros Hprof Hexp Hd. rewrite Hpx by (by apply debug_gated). unfold prefix_endpoint. rewrite Hprof. cbn [andb].
  destruct (HasPrefix path "/swagger/") eqn:Hs; [|by rewrite andb_false_r].
  apply HasPrefix_spec in Hs as [t ->]. done.
Qed.

End theorems.

(** *** The list of paths *)

Section listing.
Context {C R S sset : Type} `{!RestfulContainer C} `{!StringSets sset} `{!StringSetsLaws sset}.

Lemma foldl_Insert (l : list string) (s : sset) x :
  sets_Has (foldl (λ s path, sets_Insert s [path]) s l) x = sets_Has s x || bool_decide (x ∈ l).
Proof.
  revert s. induction l as [|y l IH]; intros s; cbn; [by rewrite bool_decide_eq_false_2, orb_false_r by apply not_elem_of_nil|].
  rewrite IH, sets_Has_Insert, <- orb_assoc. f_equal. rewrite <- bool_decide_or. apply bool_decide_ext. set_solver.
Qed.

Lemma foldl_Insert_all (p : list (list string)) (s : sset) x :
  sets_Has (foldl (λ s paths, foldl (λ s path, sets_Insert s [path]) s paths) s p) x = sets_Has s x || bool_decide (x ∈ mjoin p).
Proof.
  revert s. induction p as [|l p IH]; intros s; cbn; [by rewrite bool_decide_eq_false_2, orb_false_r by apply not_elem_of_nil|].
  rewrite IH, foldl_Insert, <- orb_assoc. f_equal. rewrite <- bool_decide_or. apply bool_decide_ext. set_solver.
Qed.

(** The index lists, in order and without repetitions, the routes of all web services
    and the paths registered as listed; paths registered as unlisted are not among them. *)
Theorem index_lists (a : @APIServerHandler C R S) :
  let paths := ListedPathProviders_ListedPaths (sset := sset) [APIServerHandler_ListedPaths a] in
  Sorted String.le paths ∧ NoDup paths ∧
  ∀ x, x ∈ paths ↔
    (∃ ws, ws ∈ RegisteredWebServices (ah_GoRestfulContainer a) ∧ x ∈ ws_Routes ws) ∨
    x ∈ m_exposedPaths (ah_NonGoRestfulMux a).
Proof.
  intros paths. split; [apply sets_Sorted_List|]. split; [apply sets_NoDup_List|]. intros x.
  unfold paths, ListedPathProviders_ListedPaths. rewrite sets_elem_of_List, foldl_Insert_all, sets_Has_NewString.
  rewrite bool_decide_eq_false_2 by apply not_elem_of_nil. cbn [orb]. rewrite bool_decide_eq_true. cbn [mjoin list_join].
  rewrite app_nil_r. unfold APIServerHandler_ListedPaths. rewrite merge_sort_Permutation, elem_of_app, list_elem_of_bind.
  unfold PathMux.ListedPaths. rewrite merge_sort_Permutation.
  split; (intros [(ws & H1 & H2)|Hx]; [left; by exists ws|by right]).
Qed.
End listing.

(** ** Witnesses *)

Module ServerRoutesExamples.
#[local] Existing Instance container_model.
#[local] Existing Instance container_model_laws.
#[local] Existing Instance golib_sets_model.
#[local] Existing Instance golib_sets_model_laws.

Definition concat (a b : string) : string := a +:+ b.
Abbreviation R := (gmap string (list string)).

Definition install_example :=
  installAPI (C := list WebService) (R := R) (S := unit) (sset := gset string) id id (λ _, "") concat (NewConfig "app") (Some "v1")
    (NewAPIServerHandler None) ∅.

Lemma installAPI_endpoints_witness :
  ∃ i, install_example = Ret i ∧ PathMux.ServeHTTP (ah_NonGoRestfulMux (in_handler i)) "/metrics" = Prometheus ∧
    PathMux.ServeHTTP (ah_NonGoRestfulMux (in_handler i)) "/debug/pprof/heap" = NotFound.
Proof.
  destruct (installAPI_endpoints (C := list WebService) (R := R) (S := unit) (sset := gset string) id id (λ _, "") concat
              (NewConfig "app") (Some "v1")) as (i & Hi & _ & _ & Hs).
  exists i. split; [exact Hi|]. split.
  - destruct (Hs "/metrics") as [Hm _]. apply Hm. cbn. set_solver.
  - destruct (Hs "/debug/pprof/heap") as (_ & _ & Hd). by apply Hd.
Defined.

Lemma index_lists_witness :
  let a : APIServerHandler (C := list WebService) (R := R) (S := unit) :=
    {| ah_GoRestfulContainer := [{| ws_RootPath := "/version"; ws_Routes := ["/version/"] |}];
       ah_NonGoRestfulMux := Handle NotFound (NewPathRecorderMux NotFound) "/metrics" Prometheus "" |} in
  "/version/" ∈ ListedPathProviders_ListedPaths (sset := gset string) [APIServerHandler_ListedPaths a].
Proof.
  intros a. apply (index_lists a). left. exists {| ws_RootPath := "/version"; ws_Routes := ["/version/"] |}. cbn. set_solver.
Defined.

Lemma director_spec_witness :
  let d : APIServerHandler (C := list WebService) (R := R) (S := unit) :=
    {| ah_GoRestfulContainer := [{| ws_RootPath := "/version"; ws_Routes := ["/version/"] |}];
       ah_NonGoRestfulMux := NewPathRecorderMux NotFound |} in
  director_ServeHTTP d "/version/x" = Ret Dispatch ∧ director_ServeHTTP d "/versions" = Ret (Mux NotFound).
Proof.
  intros d. split.
  - apply (proj1 (director_spec d "/version/x")). left. right. by exists "x".
  - apply (proj2 (director_spec d "/versions")). constructor; [|constructor]. intros [E|[t E]]; discriminate E.
Defined.
End ServerRoutesExamples.
