(* ===== verification/ServerModule.v ===== *)
(** * The server module

    Models pkg/server/module/server.go up to the start of the server: what init and init2
    do (prepare, servingInit, authInit, handlerInit, installAPI), with
    Config.NewServerConfig (pkg/server/config/config.go) and NewRequestInfoResolver
    (pkg/server/config.go); and the TLS and HTTP/2 settings of
    pkg/server/secure_serving.go.  Serving and shutting down are in [ServerLifecycle].

    The pieces are those of other files: options and addresses ([ServingOptions]),
    endpoints ([ServerRoutes]), the loopback credentials ([Loopback]). *)

From stdpp Require Import pretty.

From S2P Require Import Prelude GoStrings Rest CliFlags Webhook Streams Healthz Negotiation ServiceAccount DynamicCerts RequestInfo Authorizer Authn Filters Loopback ServingOptions ServerRoutes.

Local Open Scope go_scope.

(** ** pkg/server/config.go *)

Record AuthenticationInfo (S : Type) := {
  ai_Authenticator : option (Request S); ai_APIAudiences : list string; ai_Anonymous : bool;
}.
Arguments ai_Authenticator {S} _.
Arguments ai_APIAudiences {S} _.
Arguments ai_Anonymous {S} _.
Record AuthorizationInfo (A sset : Type) := { zi_Authorizer : option (Authorizer A); zi_Modes : sset }.
Arguments zi_Authorizer {A sset} _.
Arguments zi_Modes {A sset} _.

(** The runtime configuration; [Chain] stands for the functions that build a handler
    chain, [Wg] for wait groups, [Audit] for a backend with its checker. *)
Record serverConfig (S A sset Pool C R Q Chain Wg Audit : Type) := {
  sv_SecureServing : option (SecureServingInfo Pool);
  sv_InsecureServing : option DeprecatedInsecureServingInfo;
  sv_Authentication : option (AuthenticationInfo S);
  sv_Authorization : option (AuthorizationInfo A sset);
  sv_LoopbackClientConfig : option restConfig;
  sv_Version : option string;
  sv_Audit : option Audit;
  sv_BuildHandlerChainFunc : option Chain;
  sv_HandlerChainWaitGroup : option Wg;
  sv_LegacyAPIGroupPrefixes : sset;
  sv_RequestInfoResolver : option (RequestInfoFactory sset);
  sv_LongRunningFunc : option (RequestInfo → bool);
  sv_ApiServerID : string;
  sv_CorsAllowedOriginList : list string;
  sv_HSTSDirectives : list string;
  sv_RequestTimeout : Z;
  sv_ShutdownTimeout : Z;
  sv_ShutdownDelayDuration : Z;
  sv_Handler : option (@APIServerHandler C R Q);
  sv_EnableOpenAPI : bool;
  sv_KeepAuthorizationHeader : bool;
  sv_SecuritySchemes : list SchemeConfig;
}.
Arguments sv_SecureServing {_ _ _ _ _ _ _ _ _ _} _.
Arguments sv_InsecureServing {_ _ _ _ _ _ _ _ _ _} _.
Arguments sv_Authentication {_ _ _ _ _ _ _ _ _ _} _.
Arguments sv_Authorization {_ _ _ _ _ _ _ _ _ _} _.
Arguments sv_LoopbackClientConfig {_ _ _ _ _ _ _ _ _ _} _.
Arguments sv_Version {_ _ _ _ _ _ _ _ _ _} _.
Arguments sv_Audit {_ _ _ _ _ _ _ _ _ _} _.
Arguments sv_BuildHandlerChainFunc {_ _ _ _ _ _ _ _ _ _} _.
Arguments sv_HandlerChainWaitGroup {_ _ _ _ _ _ _ _ _ _} _.
Arguments sv_LegacyAPIGroupPrefixes {_ _ _ _ _ _ _ _ _ _} _.
Arguments sv_RequestInfoResolver {_ _ _ _ _ _ _ _ _ _} _.
Arguments sv_LongRunningFunc {_ _ _ _ _ _ _ _ _ _} _.
Arguments sv_ApiServerID {_ _ _ _ _ _ _ _ _ _} _.
Arguments sv_CorsAllowedOriginList {_ _ _ _ _ _ _ _ _ _} _.
Arguments sv_HSTSDirectives {_ _ _ _ _ _ _ _ _ _} _.
Arguments sv_RequestTimeout {_ _ _ _ _ _ _ _ _ _} _.
Arguments sv_ShutdownTimeout {_ _ _ _ _ _ _ _ _ _} _.
Arguments sv_ShutdownDelayDuration {_ _ _ _ _ _ _ _ _ _} _.
Arguments sv_Handler {_ _ _ _ _ _ _ _ _ _} _.
Arguments sv_EnableOpenAPI {_ _ _ _ _ _ _ _ _ _} _.
Arguments sv_KeepAuthorizationHeader {_ _ _ _ _ _ _ _ _ _} _.
Arguments sv_SecuritySchemes {_ _ _ _ _ _ _ _ _ _} _.

Section module.
Context {S A sset Pool C R Q Chain Wg Audit Cert : Type} `{UtilErrors} `{StringSets sset} `{RestfulContainer C}.
(** See [ServingOptions]: TLS, the network, golib's helpers. *)
Context (X509KeyPair : string → string → Cert + error) (ciphers insecureCiphers : gmap string Z).
Context (Listen : string → string → list control → Listener + error).
Context (IsIPv6String : string → bool) (IsIPv6 : IP → bool) (InterfaceAddrs : list (option IP) + error).
Context (ResolveBindAddress : IP → IP + error).
Context (CanReadCertAndKey : files → string → string → bool + error)
        (GenerateSelfSignedCertKeyWithFixtures : string → list IP → list string → string → string * string + error)
        (GenerateSelfSignedCertKey : string → string * string + error)
        (WriteCert WriteKey : string → string → ST files (option error)).
(** server.DefaultBuildHandlerChain, a new wait group; os.Hostname, proc.Name, the
    version; the UUIDs of the server's name, of the loopback token and of its user. *)
Context (DefaultBuildHandlerChain : Chain) (newWaitGroup : Wg).
Context (os_Hostname : string + error) (proc_Name version uuid token uid : string).
(** See [ServerRoutes]. *)
Context (query : R → gmap string (list string)) (quote : string → string) (Error_string : error → string)
        (concatPath : string → string → string).

Abbreviation server := (serverConfig S A sset Pool C R Q Chain Wg Audit).

(** Config.NewServerConfig *)
Definition NewServerConfig (p : Config) : server := {|
  sv_SecureServing := None; sv_InsecureServing := None; sv_Authentication := None; sv_Authorization := None;
  sv_LoopbackClientConfig := None; sv_Version := None; sv_Audit := None; sv_BuildHandlerChainFunc := None;
  sv_HandlerChainWaitGroup := None; sv_LegacyAPIGroupPrefixes := sets_NewString ["/api"]; sv_RequestInfoResolver := None;
  sv_LongRunningFunc := None; sv_ApiServerID := "";
  sv_CorsAllowedOriginList := ro_CorsAllowedOriginList (c_GenericServerRunOptions p);
  sv_HSTSDirectives := ro_HSTSDirectives (c_GenericServerRunOptions p);
  sv_RequestTimeout := ro_RequestTimeout (c_GenericServerRunOptions p);
  sv_ShutdownTimeout := ro_RequestTimeout (c_GenericServerRunOptions p);
  sv_ShutdownDelayDuration := ro_ShutdownDelayDuration (c_GenericServerRunOptions p);
  sv_Handler := None; sv_EnableOpenAPI := c_EnableOpenAPI p; sv_KeepAuthorizationHeader := c_EnableOpenAPI p;
  sv_SecuritySchemes := c_SecuritySchemes p |}.

(** NewRequestInfoResolver: the groups' prefix and the legacy ones. *)
Definition trim_slash (s : string) : string := Trim s (is_byte "/"%char).
Definition NewRequestInfoResolver (c : server) : RequestInfoFactory sset :=
  let legacy := trim_slash <$> sets_List (sv_LegacyAPIGroupPrefixes c) in
  {| APIPrefixes := foldl (λ s p, sets_Insert s [p]) (sets_NewString [trim_slash "/apis"]) legacy;
     GrouplessAPIPrefixes := foldl (λ s p, sets_Insert s [p]) (sets_NewString []) legacy |}.

(** ** module/server.go *)

Definition longRunning : RequestInfo → bool :=
  BasicLongRunningRequestCheck (sets_NewString ["watch"; "proxy"] : sset)
    (sets_NewString ["attache"; "exec"; "proxyp"; "log"; "rotforward"]).

(** The assignments of prepare to the runtime configuration. *)
Definition prepared (s : server) : server := {|
  sv_SecureServing := sv_SecureServing s; sv_InsecureServing := sv_InsecureServing s;
  sv_Authentication := sv_Authentication s; sv_Authorization := sv_Authorization s;
  sv_LoopbackClientConfig := sv_LoopbackClientConfig s; sv_Version := Some version; sv_Audit := sv_Audit s;
  sv_BuildHandlerChainFunc := Some (default DefaultBuildHandlerChain (sv_BuildHandlerChainFunc s));
  sv_HandlerChainWaitGroup := Some (default newWaitGroup (sv_HandlerChainWaitGroup s));
  sv_LegacyAPIGroupPrefixes := sv_LegacyAPIGroupPrefixes s;
  sv_RequestInfoResolver := Some (default (NewRequestInfoResolver s) (sv_RequestInfoResolver s));
  sv_LongRunningFunc := Some longRunning; sv_ApiServerID := proc_Name +:+ "-" +:+ uuid;
  sv_CorsAllowedOriginList := sv_CorsAllowedOriginList s; sv_HSTSDirectives := sv_HSTSDirectives s;
  sv_RequestTimeout := sv_RequestTimeout s; sv_ShutdownTimeout := sv_ShutdownTimeout s;
  sv_ShutdownDelayDuration := sv_ShutdownDelayDuration s; sv_Handler := sv_Handler s; sv_EnableOpenAPI := sv_EnableOpenAPI s;
  sv_KeepAuthorizationHeader := sv_KeepAuthorizationHeader s; sv_SecuritySchemes := sv_SecuritySchemes s |}.

Definition set_options (c : Config) (g : ServerRunOptions) (secure : option SecureServingOptions)
    (insecure : option DeprecatedInsecureServingOptions) : Config := {|
  c_GenericServerRunOptions := g; c_SecureServing := secure; c_InsecureServing := insecure;
  c_AlternateDNS := c_AlternateDNS c; c_EnableIndex := c_EnableIndex c; c_EnableProfiling := c_EnableProfiling c;
  c_EnableContentionProfiling := c_EnableContentionProfiling c; c_EnableMetrics := c_EnableMetrics c;
  c_EnableOpenAPI := c_EnableOpenAPI c; c_KeepAuthorizationHeader := c_KeepAuthorizationHeader c;
  c_SecuritySchemes := c_SecuritySchemes c; c_EnableExpvar := c_EnableExpvar c; c_EnableHealthz := c_EnableHealthz c |}.

(** The host for external URLs: as given, the advertised address, or the host's name. *)
Definition external_host (g : ServerRunOptions) : ServerRunOptions + error :=
  if slen (ro_ExternalHost g) =? 0 then
    if 0 <? length (ro_AdvertiseAddress g)
    then inl (set_advertise g (ro_AdvertiseAddress g) (IP_String (ro_AdvertiseAddress g)))
    else match os_Hostname with
         | inl hostname => inl (set_advertise g (ro_AdvertiseAddress g) hostname)
         | inr err => inr (ErrorWrap "error finding host name: %v" [] err)
         end
  else inl g.

(** The module's config and server, and the files. *)
Record module := { mo_config : Config; mo_server : server; mo_files : files }.

Definition prepare (p : module) : option error * module :=
  let c := mo_config p in
  match DefaultAdvertiseAddress ResolveBindAddress (c_GenericServerRunOptions c) (c_SecureServing c) with
  | inr err => (Some err, p)
  | inl g =>
      let '((err, secure), fs) :=
        MaybeDefaultWithSelfSignedCerts X509KeyPair CanReadCertAndKey GenerateSelfSignedCertKeyWithFixtures WriteCert WriteKey
          (c_SecureServing c) (IP_String (ro_AdvertiseAddress g)) (c_AlternateDNS c) [] (mo_files p) in
      let with_g g := set_options c g secure (c_InsecureServing c) in
      match err with
      | Some err =>
          (Some (ErrorWrap "error creating self-signed certificates: %v" [] err),
           {| mo_config := with_g g; mo_server := mo_server p; mo_files := fs |})
      | None =>
          match external_host g with
          | inr err => (Some err, {| mo_config := with_g g; mo_server := mo_server p; mo_files := fs |})
          | inl g => (None, {| mo_config := with_g g; mo_server := prepared (mo_server p); mo_files := fs |})
          end
      end
  end.

Definition set_sockets (s : server) (secure : option (SecureServingInfo Pool)) (insecure : option DeprecatedInsecureServingInfo)
    (loopback : option restConfig) : server := {|
  sv_SecureServing := secure; sv_InsecureServing := insecure; sv_Authentication := sv_Authentication s;
  sv_Authorization := sv_Authorization s; sv_LoopbackClientConfig := loopback; sv_Version := sv_Version s;
  sv_Audit := sv_Audit s; sv_BuildHandlerChainFunc := sv_BuildHandlerChainFunc s;
  sv_HandlerChainWaitGroup := sv_HandlerChainWaitGroup s; sv_LegacyAPIGroupPrefixes := sv_LegacyAPIGroupPrefixes s;
  sv_RequestInfoResolver := sv_RequestInfoResolver s; sv_LongRunningFunc := sv_LongRunningFunc s;
  sv_ApiServerID := sv_ApiServerID s; sv_CorsAllowedOriginList := sv_CorsAllowedOriginList s;
  sv_HSTSDirectives := sv_HSTSDirectives s; sv_RequestTimeout := sv_RequestTimeout s;
  sv_ShutdownTimeout := sv_ShutdownTimeout s; sv_ShutdownDelayDuration := sv_ShutdownDelayDuration s;
  sv_Handler := sv_Handler s; sv_EnableOpenAPI := sv_EnableOpenAPI s;
  sv_KeepAuthorizationHeader := sv_KeepAuthorizationHeader s; sv_SecuritySchemes := sv_SecuritySchemes s |}.

(** The content configuration and compression of the loopback client. *)
Definition local_client (c : restConfig) : restConfig := {|
  rc_Host := rc_Host c; rc_QPS := rc_QPS c; rc_Burst := rc_Burst c; rc_BearerToken := rc_BearerToken c;
  rc_CAData := rc_CAData c; rc_ServerName := rc_ServerName c; rc_NegotiatedSerializer := true; rc_DisableCompression := true |}.

Definition servingInit (p : module) : outcome (option error * module) :=
  let c := mo_config p in
  let s := mo_server p in
  r ← insecure_ApplyToWithLoopback Listen IsIPv6String IsIPv6 InterfaceAddrs
        (c_InsecureServing c) (sv_InsecureServing s) (sv_LoopbackClientConfig s);
  let '(err, (io, ii, lo)) := r in
  let c := set_options c (c_GenericServerRunOptions c) (c_SecureServing c) io in
  let s := set_sockets s (sv_SecureServing s) ii lo in
  match err with
  | Some err => Ret (Some err, {| mo_config := c; mo_server := s; mo_files := mo_files p |})
  | None =>
      r ← secure_ApplyToWithLoopback X509KeyPair ciphers insecureCiphers Listen IsIPv6String IsIPv6 InterfaceAddrs
            GenerateSelfSignedCertKey (mo_files p) token (c_SecureServing c) (sv_SecureServing s) (sv_LoopbackClientConfig s);
      let '(err, a) := r in
      let c := set_options c (c_GenericServerRunOptions c) (ap_options a) (c_InsecureServing c) in
      let s lo := set_sockets s (ap_info a) (sv_InsecureServing s) lo in
      match err with
      | Some err => Ret (Some err, {| mo_config := c; mo_server := s (ap_loopback a); mo_files := mo_files p |})
      | None =>
          match ap_loopback a with
          | None => nil_deref
          | Some cl => Ret (None, {| mo_config := c; mo_server := s (Some (local_client cl)); mo_files := mo_files p |})
          end
      end
  end.

Definition serverInit (p : module) : outcome (option error * module) :=
  match prepare p with
  | (Some err, p) => Ret (Some err, p)
  | (None, p) => servingInit p
  end.

(** The part of init after the configuration was read and validated. *)
Definition init (c : Config) (fs : files) : outcome (option error * module) :=
  serverInit {| mo_config := c; mo_server := NewServerConfig c; mo_files := fs |}.

(** *** init2 *)

Definition set_auth (s : server) (audit : option Audit) (authn : AuthenticationInfo S) (authz : AuthorizationInfo A sset)
    : server := {|
  sv_SecureServing := sv_SecureServing s; sv_InsecureServing := sv_InsecureServing s; sv_Authentication := Some authn;
  sv_Authorization := Some authz; sv_LoopbackClientConfig := sv_LoopbackClientConfig s; sv_Version := sv_Version s;
  sv_Audit := audit; sv_BuildHandlerChainFunc := sv_BuildHandlerChainFunc s;
  sv_HandlerChainWaitGroup := sv_HandlerChainWaitGroup s; sv_LegacyAPIGroupPrefixes := sv_LegacyAPIGroupPrefixes s;
  sv_RequestInfoResolver := sv_RequestInfoResolver s; sv_LongRunningFunc := sv_LongRunningFunc s;
  sv_ApiServerID := sv_ApiServerID s; sv_CorsAllowedOriginList := sv_CorsAllowedOriginList s;
  sv_HSTSDirectives := sv_HSTSDirectives s; sv_RequestTimeout := sv_RequestTimeout s;
  sv_ShutdownTimeout := sv_ShutdownTimeout s; sv_ShutdownDelayDuration := sv_ShutdownDelayDuration s;
  sv_Handler := sv_Handler s; sv_EnableOpenAPI := sv_EnableOpenAPI s;
  sv_KeepAuthorizationHeader := sv_KeepAuthorizationHeader s; sv_SecuritySchemes := sv_SecuritySchemes s |}.

(** [audit], [authz] and [authn] are what the modules left in the context. *)
Definition authInit (s : server) (audit : option Audit) (authz : option (AuthorizationInfo A sset))
    (authn : option (AuthenticationInfo S)) : option error * server :=
  let audit := match audit with Some a => Some a | None => sv_Audit s end in
  let authz := default {| zi_Authorizer := Some (pure_authorizer alwaysAllowAuthorizer_Authorize);
                          zi_Modes := sets_NewString ["AlwaysAllow"] |} authz in
  let authn := default {| ai_Authenticator := None; ai_APIAudiences := []; ai_Anonymous := false |} authn in
  if ai_Anonymous authn && sets_Has (zi_Modes authz) "AlwaysAllow" then
    (Some (Errorf "AnonymousAuth is not allowed with the AlwaysAllow authorizer. Resetting AnonymousAuth to false. You should use a different authorizer" []),
     set_auth s audit authn authz)
  else
    let '(n, z) := AuthorizeClientBearerToken (rc_BearerToken <$> sv_LoopbackClientConfig s) uid
                     (Some (ai_Authenticator authn)) (Some (zi_Authorizer authz)) in
    (None, set_auth s audit
             {| ai_Authenticator := default None n; ai_APIAudiences := ai_APIAudiences authn; ai_Anonymous := ai_Anonymous authn |}
             {| zi_Authorizer := default None z; zi_Modes := zi_Modes authz |}).

(** handlerInit and installAPI *)
Definition set_handler (s : server) (h : @APIServerHandler C R Q) : server := {|
  sv_SecureServing := sv_SecureServing s; sv_InsecureServing := sv_InsecureServing s;
  sv_Authentication := sv_Authentication s; sv_Authorization := sv_Authorization s;
  sv_LoopbackClientConfig := sv_LoopbackClientConfig s; sv_Version := sv_Version s; sv_Audit := sv_Audit s;
  sv_BuildHandlerChainFunc := sv_BuildHandlerChainFunc s; sv_HandlerChainWaitGroup := sv_HandlerChainWaitGroup s;
  sv_LegacyAPIGroupPrefixes := sv_LegacyAPIGroupPrefixes s; sv_RequestInfoResolver := sv_RequestInfoResolver s;
  sv_LongRunningFunc := sv_LongRunningFunc s; sv_ApiServerID := sv_ApiServerID s;
  sv_CorsAllowedOriginList := sv_CorsAllowedOriginList s; sv_HSTSDirectives := sv_HSTSDirectives s;
  sv_RequestTimeout := sv_RequestTimeout s; sv_ShutdownTimeout := sv_ShutdownTimeout s;
  sv_ShutdownDelayDuration := sv_ShutdownDelayDuration s; sv_Handler := Some h; sv_EnableOpenAPI := sv_EnableOpenAPI s;
  sv_KeepAuthorizationHeader := sv_KeepAuthorizationHeader s; sv_SecuritySchemes := sv_SecuritySchemes s |}.

Definition serverInit2 (p : module) (registeredFlags : gset string) (audit : option Audit)
    (authz : option (AuthorizationInfo A sset)) (authn : option (AuthenticationInfo S)) : outcome (option error * module) :=
  match authInit (mo_server p) audit authz authn with
  | (Some err, s) => Ret (Some err, {| mo_config := mo_config p; mo_server := s; mo_files := mo_files p |})
  | (None, s) =>
      i ← installAPI (sset := sset) query quote Error_string concatPath (mo_config p) (sv_Version s)
            (NewAPIServerHandler None) registeredFlags;
      Ret (None, {| mo_config := mo_config p; mo_server := set_handler s (in_handler i); mo_files := mo_files p |})
  end.
End module.
Arguments module : clear implicits.

(** ** secure_serving.go: the settings of a connection *)

Definition to_uint32 (n : Z) : Z := (n mod 2 ^ 32)%Z.
Definition to_int32 (n : Z) : Z := ((n + 2 ^ 31) mod 2 ^ 32 - 2 ^ 31)%Z.

(** The static part of tlsConfig; the dynamic one is DynamicCerts' [start_serving].  The
    insecure ciphers that are in use are logged, in the order of a map. *)
Record tls_settings := {
  ts_MinVersion : Z;
  ts_NextProtos : list string;
  ts_CipherSuites : list Z;
  ts_RequestClientCert : bool;
}.

Definition tls_static {Pool} (s : SecureServingInfo Pool) : tls_settings := {|
  ts_MinVersion := if (0 <? si_MinTLSVersion s)%Z then si_MinTLSVersion s else 0x0303;
  ts_NextProtos := if si_DisableHTTP2 s then ["http/1.1"] else ["h2"; "http/1.1"];
  ts_CipherSuites := if 0 <? length (si_CipherSuites s) then si_CipherSuites s else [];
  ts_RequestClientCert := bool_decide (is_Some (si_ClientCA s)) |}.

Definition insecure_in_use {Pool} (insecureCiphers : list (string * Z)) (s : SecureServingInfo Pool) : list string :=
  suite ← si_CipherSuites s;
  fst <$> filter (λ c, c.2 = suite) insecureCiphers.

Record http2_Server := {
  h2_MaxUploadBufferPerStream : Z;
  h2_MaxReadFrameSize : Z;
  h2_MaxConcurrentStreams : Z;
  h2_MaxUploadBufferPerConnection : Z;
}.

Definition resourceBody99Percentile : Z := 256 * 1024.

(** The buffers are int32, the number of streams uint32. *)
Definition http2_options {Pool} (s : SecureServingInfo Pool) : http2_Server :=
  let streams := if (0 <? si_HTTP2MaxStreamsPerConnection s)%Z then to_uint32 (si_HTTP2MaxStreamsPerConnection s) else 250%Z in
  {| h2_MaxUploadBufferPerStream := resourceBody99Percentile; h2_MaxReadFrameSize := resourceBody99Percentile;
     h2_MaxConcurrentStreams := streams;
     h2_MaxUploadBufferPerConnection := to_int32 (resourceBody99Percentile * to_int32 streams) |}.

Definition tlsHandshakeErrorPrefix : string := "http: TLS handshake error".

(** [out] is the writer the others go to; the state has the counter of handshake errors. *)
Definition tlsHandshakeErrorWriter_Write {W} (out : string → ST W (Z * option error)) (p : string)
    : ST (nat * W) (Z * option error) := λ st,
  if Contains p tlsHandshakeErrorPrefix then ((Z.of_nat (slen p), None), (S st.1, st.2))
  else let '(r, w) := out p st.2 in (r, (st.1, w)).

(** ** Theorems *)

(** *** HTTP/2 buffers *)

Lemma to_int32_mul k n : to_int32 (k * to_int32 n) = to_int32 (k * n).
Proof.
  unfold to_int32. set (q := ((n + 2 ^ 31) / 2 ^ 32)%Z).
  replace ((n + 2 ^ 31) mod 2 ^ 32)%Z with (n + 2 ^ 31 - 2 ^ 32 * q)%Z by (pose proof (Z.div_mod (n + 2 ^ 31) (2 ^ 32)); lia).
  replace (k * (n + 2 ^ 31 - 2 ^ 32 * q - 2 ^ 31) + 2 ^ 31)%Z with (k * n + 2 ^ 31 + (- k * q) * 2 ^ 32)%Z by lia.
  by rewrite Z.mod_add by lia.
Qed.
Lemma to_int32_range n : (- 2 ^ 31 ≤ to_int32 n < 2 ^ 31)%Z.
Proof. unfold to_int32. pose proof (Z.mod_pos_bound (n + 2 ^ 31) (2 ^ 32)). lia. Qed.
Lemma to_int32_small n : (- 2 ^ 31 ≤ n < 2 ^ 31)%Z → to_int32 n = n.
Proof. intros Hn. unfold to_int32. rewrite Z.mod_small; lia. Qed.

(** The buffer of a connection is that of all its streams as long as there are at most
    8191 of them, 64000 KiB by default; a larger setting, which nothing rejects, overflows
    the int32. *)
Theorem http2_buffer {Pool} (s : SecureServingInfo Pool) :
  let n := si_HTTP2MaxStreamsPerConnection s in
  let o := http2_options s in
  ((n ≤ 0)%Z → h2_MaxConcurrentStreams o = 250%Z ∧ h2_MaxUploadBufferPerConnection o = (65536000)%Z) ∧
  ((0 < n < 2 ^ 32)%Z →
     h2_MaxConcurrentStreams o = n ∧
     (h2_MaxUploadBufferPerConnection o = h2_MaxUploadBufferPerStream o * n ↔ n ≤ 8191)%Z ∧
     (8192 ≤ n < 16384 → h2_MaxUploadBufferPerConnection o < 0)%Z).
Proof.
  intros n o. unfold o, http2_options. fold n. split.
  - intros Hn. destruct (Z.ltb_spec 0 n); [lia|]. by split.
  - intros Hn. destruct (Z.ltb_spec 0 n); [|lia]. cbn. unfold resourceBody99Percentile, to_uint32, to_int32.
    rewrite (Z.mod_small n) by lia. split; [done|]. fold (to_int32 n). fold (to_int32 (256 * 1024 * to_int32 n)).
    rewrite to_int32_mul. pose proof (to_int32_range (256 * 1024 * n)). split.
    + split; [intros E; lia|]. intros Hle. apply to_int32_small. lia.
    + intros Hb. unfold to_int32. rewrite <- (Z.mod_unique_pos _ _ 1 (256 * 1024 * n + 2 ^ 31 - 2 ^ 32)); lia.
Qed.

(** *** Long-running requests *)

(** Which requests are exempt from the deadline and from graceful shutdown: watches and
    proxied requests, the exec and log subresources, and profiles.  The names of the other
    three subresources are misspelt in the source, so attach, portforward and proxy
    subresources are not among them. *)
Theorem longRunning_spec `{!StringSets sset} `{!StringSetsLaws sset} (info : RequestInfo) :
  longRunning (sset := sset) info = true ↔
  ri_Verb info ∈ ["watch"; "proxy"] ∨
  ri_IsResourceRequest info = true ∧ ri_Subresource info ∈ ["attache"; "exec"; "proxyp"; "log"; "rotforward"] ∨
  ri_IsResourceRequest info = false ∧ HasPrefix (ri_Path info) "/debug/pprof/" = true.
Proof.
  unfold longRunning, BasicLongRunningRequestCheck. rewrite !sets_Has_NewString.
  case_bool_decide as Hv; [naive_solver|]. destruct (ri_IsResourceRequest info); cbn.
  - case_bool_decide; naive_solver.
  - naive_solver.
Qed.

Corollary attach_not_long_running `{!StringSets sset} `{!StringSetsLaws sset} (info : RequestInfo) :
  ri_IsResourceRequest info = true → ri_Verb info ∈ ["create"; "get"] → ri_Subresource info ∈ ["attach"; "portforward"; "proxy"] →
  longRunning (sset := sset) info = false.
Proof.
  intros Hr Hv Hs. apply not_true_iff_false. rewrite longRunning_spec, Hr. rewrite !elem_of_cons, !elem_of_nil in *.
  intros [Hw|[[_ Hw]|[? _]]]; [| |done];
    destruct Hv as [Hv|[Hv|[]]], Hs as [Hs|[Hs|[Hs|[]]]]; destruct_or! Hw; first [contradiction | congruence].
Qed.

(** *** Authentication and authorization *)

Section auth_theorems.
Context {S A sset Pool C R Q Chain Wg Audit : Type} `{UtilErrors} `{!StringSets sset} `{!StringSetsLaws sset}.
Context (uid : string).
Abbreviation server := (serverConfig S A sset Pool C R Q Chain Wg Audit).

Definition default_authz : AuthorizationInfo A sset :=
  {| zi_Authorizer := Some (pure_authorizer alwaysAllowAuthorizer_Authorize); zi_Modes := sets_NewString ["AlwaysAllow"] |}.
Definition default_authn : AuthenticationInfo S :=
  {| ai_Authenticator := None; ai_APIAudiences := []; ai_Anonymous := false |}.

(** The module refuses to start, with an error (its comment says it resets the option),
    exactly when anonymous requests meet AlwaysAllow; otherwise, with a loopback token,
    the loopback credentials stand in front of the modules' authenticator and authorizer,
    or of AlwaysAllow where no module authorizes; without a token, or without an
    authenticator, both stay as they were. *)
Theorem authInit_spec (s : server) audit authz authn :
  let z := default default_authz authz in
  let n := default default_authn authn in
  match authInit uid s audit authz authn with
  | (Some _, _) => ai_Anonymous n = true ∧ sets_Has (zi_Modes z) "AlwaysAllow" = true
  | (None, s') =>
      (ai_Anonymous n = false ∨ sets_Has (zi_Modes z) "AlwaysAllow" = false) ∧
      ∃ n' z', sv_Authentication s' = Some n' ∧ sv_Authorization s' = Some z' ∧
        ai_Anonymous n' = ai_Anonymous n ∧ zi_Modes z' = zi_Modes z ∧
        match rc_BearerToken <$> sv_LoopbackClientConfig s, ai_Authenticator n, zi_Authorizer z with
        | Some token, Some authenticator, Some authorizer =>
            if decide (token = "") then ai_Authenticator n' = Some authenticator ∧ zi_Authorizer z' = Some authorizer
            else ai_Authenticator n' = Some (loopback_authn token uid authenticator) ∧
                 zi_Authorizer z' = Some (loopback_authz authorizer)
        | _, _, _ => ai_Authenticator n' = ai_Authenticator n ∧ zi_Authorizer z' = zi_Authorizer z
        end
  end.
Proof.
  intros z n. unfold authInit. fold default_authz default_authn. fold z n. cbv zeta.
  destruct (ai_Anonymous n && sets_Has (zi_Modes z) "AlwaysAllow") eqn:Ha; [by apply andb_true_iff in Ha|].
  apply andb_false_iff in Ha. unfold AuthorizeClientBearerToken.
  destruct (rc_BearerToken <$> sv_LoopbackClientConfig s) as [token|] eqn:Ht.
  2:{ split; [done|]. eexists _, _. split_and!; reflexivity. }
  destruct (ai_Authenticator n) as [authenticator|] eqn:Hn.
  2:{ split; [done|]. by eexists _, _. }
  destruct (zi_Authorizer z) as [authorizer|] eqn:Hz.
  2:{ split; [done|]. by eexists _, _. }
  rewrite slen_0_decide. case_bool_decide as Hd; (split; [done|]); eexists _, _; split_and!; try reflexivity.
  - by rewrite decide_True.
  - by rewrite decide_False.
Qed.
End auth_theorems.

(** *** Listening and the server's own client *)

Section serving_theorems.
Context {S A sset Pool C R Q Chain Wg Audit Cert : Type} `{!StringSets sset} `{!RestfulContainer C}.
Context (X509KeyPair : string → string → Cert + error) (ciphers insecureCiphers : gmap string Z).
Context (Listen : string → string → list control → Listener + error).
Context (IsIPv6String : string → bool) (IsIPv6 : IP → bool) (InterfaceAddrs : list (option IP) + error).
Context (ResolveBindAddress : IP → IP + error).
Context (CanReadCertAndKey : files → string → string → bool + error)
        (GenerateSelfSignedCertKeyWithFixtures : string → list IP → list string → string → string * string + error)
        (GenerateSelfSignedCertKey : string → string * string + error)
        (WriteCert WriteKey : string → string → ST files (option error)).
Context (DefaultBuildHandlerChain : Chain) (newWaitGroup : Wg).
Context (os_Hostname : string + error) (proc_Name version uuid token : string).

Abbreviation run_init := (init (S := S) (A := A) (sset := sset) (Pool := Pool) (C := C) (R := R) (Q := Q) (Chain := Chain) (Wg := Wg) (Audit := Audit)
  X509KeyPair ciphers insecureCiphers Listen IsIPv6String IsIPv6 InterfaceAddrs ResolveBindAddress
  CanReadCertAndKey GenerateSelfSignedCertKeyWithFixtures GenerateSelfSignedCertKey WriteCert WriteKey
  DefaultBuildHandlerChain newWaitGroup os_Hostname proc_Name version uuid token).
Abbreviation insecure_apply := (insecure_ApplyToWithLoopback Listen IsIPv6String IsIPv6 InterfaceAddrs).
Abbreviation secure_apply := (secure_ApplyToWithLoopback (Pool := Pool) X509KeyPair ciphers insecureCiphers Listen IsIPv6String IsIPv6
  InterfaceAddrs GenerateSelfSignedCertKey).

(** An address of a listener: bytes, and a zone without brackets. *)
Definition addr_ok (a : net_Addr) : Prop :=
  match a with TCPAddr ip _ zone => ip_ok ip ∧ no_bracket zone | OtherAddr _ => True end.
(** What net's listeners have for an address. *)
Definition listen_law : Prop := ∀ network addr ctls l, Listen network addr ctls = inl l → addr_ok (l_Addr l).

Lemma CreateListener_spec network addr ctls l port :
  CreateListener Listen network addr ctls = inl (l, port) →
  ∃ ip zone network', l_Addr l = TCPAddr ip port zone ∧ Listen network' addr ctls = inl l.
Proof.
  unfold CreateListener. destruct (Listen _ addr ctls) as [ln|] eqn:E; [|done].
  destruct (l_Addr ln) as [ip p zone|] eqn:Ha; intros; simplify_eq. by eexists _, _, _.
Qed.

Lemma insecure_apply_returns o : ∃ err io ii lo, insecure_apply o None None = Ret (err, (io, ii, lo)).
Proof.
  unfold insecure_ApplyToWithLoopback. destruct o as [o|]; [|by eexists _, _, _, _].
  destruct (InsecureServingOptions_ApplyTo Listen (Some o) None) as [[[err|] io] [ii|]] eqn:E; try by eexists _, _, _, _.
  assert (∃ l, ii_Listener ii = Some l) as [l Hl].
  { unfold InsecureServingOptions_ApplyTo in E. case_match; [done|]. repeat case_match; simplify_eq; by eexists. }
  unfold insecure_NewLoopbackClientConfig. rewrite Hl. cbn. repeat case_match; by eexists _, _, _, _.
Qed.

(** ApplyTo on options that are to listen: a listener on a TCP address, and the main
    certificate of the options. *)
Lemma ApplyTo_listens fs s s' (i : option (SecureServingInfo Pool)) :
  listen_law → so_Listener s = None → (0 < so_BindPort s)%Z →
  SecureServingOptions_ApplyTo X509KeyPair ciphers insecureCiphers Listen fs (Some s) None = (None, s', i) →
  ∃ info l ip port zone, i = Some info ∧ si_Listener info = Some l ∧ l_Addr l = TCPAddr ip port zone ∧ ip_ok ip ∧ no_bracket zone ∧
    main_cert X509KeyPair fs (so_ServerCert s) = inl (si_Cert info).
Proof.
  intros Hlaw Hl Hport. unfold SecureServingOptions_ApplyTo, apply_listener. rewrite Hl.
  destruct (Z.leb_spec (so_BindPort s) 0); [lia|]. cbn [andb].
  destruct (CreateListener _ _ _ _) as [[l port]|] eqn:Hc; [|done].
  apply CreateListener_spec in Hc as (ip & zone & nw & Ha & Hlisten). pose proof (Hlaw _ _ _ _ Hlisten) as Hok. rewrite Ha in Hok.
  destruct Hok as [Hip Hz]. unfold fill_info. cbn [so_ServerCert set_listener so_CipherSuites so_MinTLSVersion so_SNICertKeys].
  destruct (main_cert X509KeyPair fs (so_ServerCert s)) as [cert|] eqn:Hm; [|done].
  match goal with |- context [match (if ?b then ?x else ?y) with _ => _ end] => destruct (if b then x else y) end; [|done].
  destruct (TLSVersion _); [|done]. destruct (sni_certs _ _ _); [|done].
  intros; simplify_eq. by eexists _, _, _, _, _.
Qed.

(** The certificate of the loopback connection is the one its name selects. *)
Definition loopback_sni (certPem keyPem : string) : SNICertKeyContentProvider :=
  {| sp_provider := StaticCertKey "self-signed loopback" certPem keyPem; sp_sniNames := [LoopbackClientServerNameOverride] |}.

Lemma loopback_sni_selected certPem keyPem crt snis contents :
  X509KeyPair certPem keyPem = inl crt → sni_contents 0 (loopback_sni certPem keyPem :: snis) = Ret (inl contents) →
  first_explicit X509KeyPair contents LoopbackClientServerNameOverride = Some crt.
Proof.
  intros Hp. cbn. destruct (empty_pair _); [done|]. destruct (sni_contents 1 snis) as [[l|]|]; cbn; intros; simplify_eq.
  unfold first_explicit. cbn. unfold cert_of. cbn. by rewrite Hp.
Qed.

(** A listener and a client that can use it. *)
Definition serves (info : SecureServingInfo Pool) (cl : restConfig) : Prop :=
  ∃ l ip port zone host certPem keyPem crt snis,
    si_Listener info = Some l ∧ l_Addr l = TCPAddr ip port zone ∧ is_Some (si_Cert info) ∧
    rc_Host cl = "https://" +:+ JoinHostPort host (Itoa port) ∧ host ≠ "0.0.0.0" ∧ host ≠ "::" ∧
    rc_BearerToken cl = token ∧ rc_ServerName cl = LoopbackClientServerNameOverride ∧ rc_CAData cl = certPem ∧
    si_SNICerts info = loopback_sni certPem keyPem :: snis ∧ X509KeyPair certPem keyPem = inl crt ∧
    ∀ contents, sni_contents 0 (si_SNICerts info) = Ret (inl contents) →
      first_explicit X509KeyPair contents LoopbackClientServerNameOverride = Some crt.

Lemma secure_apply_serves fs s lo :
  listen_law → so_Listener s = None → (0 < so_BindPort s)%Z → has_cert (so_ServerCert s) →
  ∃ err a, secure_apply fs token (Some s) None lo = Ret (err, a) ∧
    (err = None → ∃ info cl, ap_info a = Some info ∧ ap_loopback a = Some cl ∧ serves info cl).
Proof.
  intros Hlaw Hl Hport Hcert. unfold secure_ApplyToWithLoopback.
  destruct (SecureServingOptions_ApplyTo _ _ _ _ _ _ _) as [[[err|] s'] i] eqn:E; [by eexists _, _|].
  destruct (ApplyTo_listens fs s s' i Hlaw Hl Hport E) as (info & l & ip & port & zone & -> & Hil & Ha & Hip & Hz & Hm).
  destruct (GenerateSelfSignedCertKey _) as [[certPem keyPem]|]; [|by eexists _, _].
  unfold NewStaticSNICertKeyContent. destruct (X509KeyPair certPem keyPem) as [crt|] eqn:Hp; [|by eexists _, _].
  destruct (main_cert_has_cert X509KeyPair fs _ _ Hcert Hm) as [prov Hprov].
  unfold secure_NewLoopbackClientConfig, NewClientConfig. rewrite Hprov, Hil, Ha.
  destruct (LoopbackHostPort_spec IsIPv6String IsIPv6 InterfaceAddrs ip port zone Hip Hz) as (host & -> & Hh1 & Hh2 & _).
  cbn. eexists _, _. split; [reflexivity|]. intros _. eexists _, _. split; [reflexivity|]. split; [reflexivity|].
  eexists l, ip, port, zone, host, certPem, keyPem, crt, _. split_and!; try done.
  intros contents Hc. eapply (loopback_sni_selected certPem keyPem); [done|exact Hc].
Qed.

(** C15: a configuration with the secure port switched on never makes the module panic; when
    it initialises, the server listens on a TCP address and has a certificate, and its own
    client dials that port at an address that can be dialled, with the new token, and
    trusts the certificate that the loopback name selects. *)
Theorem init_serves c fs s :
  listen_law → c_SecureServing c = Some s → so_Listener s = None → (0 < so_BindPort s)%Z →
  ∃ err p', run_init c fs = Ret (err, p') ∧
    (err = None → ∃ info cl, sv_SecureServing (mo_server p') = Some info ∧ sv_LoopbackClientConfig (mo_server p') = Some cl ∧
       serves info cl).
Proof.
  intros Hlaw Hs Hl Hport. unfold init, serverInit, prepare. cbn [mo_config mo_server mo_files]. rewrite Hs.
  destruct (DefaultAdvertiseAddress _ _ _) as [g|err]; [|by eexists _, _].
  destruct (MaybeDefaultWithSelfSignedCerts _ _ _ _ _ _ _ _ _ _) as [[[err|] secure] fs'] eqn:Hm; [by eexists _, _|].
  apply MaybeDefault_has_cert in Hm as (k & -> & Hk); [|lia].
  destruct (external_host _ _) as [g'|err]; [|by eexists _, _].
  unfold servingInit. cbn [mo_config mo_server mo_files set_options c_InsecureServing c_SecureServing prepared NewServerConfig sv_InsecureServing sv_LoopbackClientConfig].
  destruct (insecure_apply_returns (c_InsecureServing c)) as (err & io & ii & lo & ->).
  cbn -[secure_ApplyToWithLoopback]. destruct err as [err|]; [by eexists _, _|].
  destruct (secure_apply_serves fs' (set_cert s k) lo) as (err & a & -> & Ha); [done..|].
  cbn. destruct err as [err|]; [by eexists _, _|]. destruct (Ha eq_refl) as (info & cl & Hi & Hcl & Hserves). rewrite Hcl.
  eexists _, _. split; [reflexivity|]. intros _. exists info, (local_client cl). by split_and!.
Qed.

(** With both ports switched off, which validation accepts, the module panics: the
    loopback client it configures is nil. *)
Theorem no_serving_panics `{UtilErrors} `{!UtilErrorsLaws} p fs s i host :
  c_SecureServing p = Some s → so_Enabled s = Some false → c_InsecureServing p = Some i → io_Enabled i = Some false →
  run_options_ok (c_GenericServerRunOptions p) → os_Hostname = inl host →
  ∃ c, Config_Validate p = Ret (None, c) ∧ returns (run_init c fs) = false.
Proof.
  intros Hs Hse Hi Hie Hrun Hhost.
  destruct (Config_Validate p) as [[err c]|] eqn:Hv; unfold Config_Validate in Hv; rewrite Hs, Hi in Hv; cbn in Hv;
    rewrite Hse in Hv; cbn in Hv; rewrite Hie in Hv; cbn in Hv; [|done].
  injection Hv as <- <-. exists (set_serving p None None (if length (c_SecuritySchemes p) =? 0 then [bearer_scheme] else c_SecuritySchemes p)).
  split.
  - rewrite (proj2 (ServerRunOptions_Validate_spec _) Hrun). cbn. by rewrite NewAggregate_nil.
  - unfold init, serverInit, prepare. cbn. unfold external_host. rewrite Hhost.
    destruct (slen _ =? 0); [|reflexivity]. destruct (0 <? length _); reflexivity.
Qed.
End serving_theorems.

(** ** Witnesses *)

Module ServerModuleExamples.
Import ServingOptionsExamples.
#[local] Existing Instance golib_errors_model.
#[local] Existing Instance golib_errors_model_laws.
#[local] Existing Instance golib_sets_model.
#[local] Existing Instance golib_sets_model_laws.
#[local] Existing Instance container_model.
#[local] Existing Instance container_model_laws.

(** HTTP/2 buffers *)
Definition info_with (n : Z) : SecureServingInfo unit := {|
  si_Listener := None; si_Cert := None; si_SNICerts := []; si_ClientCA := None; si_MinTLSVersion := 0; si_CipherSuites := [];
  si_HTTP2MaxStreamsPerConnection := n; si_DisableHTTP2 := false |}.

Lemma http2_buffer_witness :
  h2_MaxUploadBufferPerConnection (http2_options (info_with 8191)) = (262144 * 8191)%Z ∧
  (h2_MaxUploadBufferPerConnection (http2_options (info_with 8192)) < 0)%Z.
Proof.
  split.
  - destruct (proj2 (http2_buffer (info_with 8191))) as (_ & [_ He] & _); [cbn; lia|]. apply He. cbn. lia.
  - destruct (proj2 (http2_buffer (info_with 8192))) as (_ & _ & Ho); [cbn; lia|]. apply Ho. cbn. lia.
Defined.

(** Requests *)
Definition attach : RequestInfo := {|
  ri_IsResourceRequest := true; ri_Path := "/api/v1/namespaces/a/pods/p/attach"; ri_Verb := "create"; ri_APIPrefix := "api";
  ri_APIGroup := ""; ri_APIVersion := "v1"; ri_Namespace := "a"; ri_Resource := "pods"; ri_Subresource := "attach";
  ri_Name := "p"; ri_Parts := ["pods"; "p"; "attach"] |}.

Lemma longRunning_spec_witness : longRunning (sset := gset string) attach = false.
Proof.
  apply not_true_iff_false. rewrite (longRunning_spec (sset := gset string) attach). cbn.
  intros [Hv|[[_ Hs]|[? _]]]; [| |done]; revert Hv || revert Hs; vm_compute; set_solver.
Defined.

(** Initialisation *)
Definition listen (network addr : string) (ctls : list control) : Listener + error :=
  inl {| l_id := 0; l_Addr := TCPAddr any4 8443 "" |}.
Lemma listen_ok : listen_law listen.
Proof. intros network addr ctls l [= <-]. split; [repeat constructor; lia|by split]. Qed.

Definition gen_loopback (host : string) : string * string + error := inl ("cert for " +:+ host, "key").

Definition init_example (c : Config) :=
  init (S := unit) (A := unit) (sset := gset string) (Pool := unit) (C := list WebService) (R := gmap string (list string)) (Q := unit)
    (Chain := unit) (Wg := nat) (Audit := unit) pair ∅ ∅ listen (λ _, false) (λ _, false) (inl [Some lo4]) inl (λ _ _ _, inl false) gen
    gen_loopback write write tt 0 (inl "host") "app" "v1" "uuid" "token" c no_files.

Lemma init_example_ok : match init_example (validated example_config) with Ret (err, _) => err = None | Panic _ => False end.
Proof. vm_compute. reflexivity. Qed.

Lemma init_serves_witness :
  ∃ p' info cl, init_example (validated example_config) = Ret (None, p') ∧
    sv_SecureServing (mo_server p') = Some info ∧ sv_LoopbackClientConfig (mo_server p') = Some cl ∧
    serves pair "token" info cl.
Proof.
  destruct (init_serves (S := unit) (A := unit) (sset := gset string) (Pool := unit) (C := list WebService)
    (R := gmap string (list string)) (Q := unit) (Chain := unit) (Wg := nat) (Audit := unit) pair ∅ ∅ listen (λ _, false) (λ _, false)
    (inl [Some lo4]) inl (λ _ _ _, inl false) gen gen_loopback write write tt 0 (inl "host") "app" "v1" "uuid" "token"
    (validated example_config) no_files secure_on listen_ok eq_refl eq_refl ltac:(cbn; lia)) as (err & p' & Hi & Hs).
  pose proof init_example_ok as Hok. unfold init_example in Hok. rewrite Hi in Hok. subst err.
  destruct (Hs eq_refl) as (info & cl & H1 & H2 & H3). by exists p', info, cl.
Defined.

Definition both_off : Config :=
  set_serving (NewConfig "app") (Some (set_enabled secure_on false)) (Some insecure_off) [].

Lemma no_serving_panics_witness : ∃ c, Config_Validate both_off = Ret (None, c) ∧ returns (init_example c) = false.
Proof.
  apply (no_serving_panics (S := unit) (A := unit) (sset := gset string) (Pool := unit) (C := list WebService)
    (R := gmap string (list string)) (Q := unit) (Chain := unit) (Wg := nat) (Audit := unit) pair ∅ ∅ listen (λ _, false) (λ _, false)
    (inl [Some lo4]) inl (λ _ _ _, inl false) gen gen_loopback write write tt 0 (inl "host") "app" "v1" "uuid" "token"
    both_off no_files (set_enabled secure_on false) insecure_off "host"); try reflexivity. exact (proj1 example_config_ok).
Defined.

(** Loopback credentials *)
Definition nobody : Request unit := λ _, mret (None, false, None).
Definition with_loopback : serverConfig unit unit (gset string) unit (list WebService) unit unit unit nat unit :=
  set_sockets (NewServerConfig example_config) None None
    (Some {| rc_Host := ""; rc_QPS := 0; rc_Burst := 0; rc_BearerToken := "token"; rc_CAData := ""; rc_ServerName := "";
             rc_NegotiatedSerializer := false; rc_DisableCompression := false |}).

Lemma authInit_spec_witness :
  ∃ s' n', authInit "uid" with_loopback None None (Some {| ai_Authenticator := Some nobody; ai_APIAudiences := []; ai_Anonymous := false |}) =
             (None, s') ∧ sv_Authentication s' = Some n' ∧ ai_Authenticator n' = Some (loopback_authn "token" "uid" nobody).
Proof.
  pose proof (authInit_spec "uid" with_loopback None None
    (Some {| ai_Authenticator := Some nobody; ai_APIAudiences := []; ai_Anonymous := false |})) as Hs.
  cbv zeta in Hs. destruct (authInit _ _ _ _ _) as [[err|] s'] eqn:E; [by destruct Hs|].
  destruct Hs as (_ & n' & z' & Hn & _ & _ & _ & Ha & _). by exists s', n'.
Defined.
End ServerModuleExamples.
