(* ===== verification/ServerLifecycle.v ===== *)
(** * Serving and shutting down

    Models serverModule.Start and stop (pkg/server/module/server.go) with RunServer
    (pkg/server/secure_serving.go) as a step relation: the goroutine that delays the stop
    signal, the one that waits for requests and closes the channel stop waits for, and per
    listener the one that serves, the one that shuts the server down and the one that gives
    back its place in the wait group.  Requests come and go in between.

    golib's SafeWaitGroup is a class ([OuterFilters]), extended here by Wait. *)

From S2P Require Import Prelude OuterFilters.

Local Open Scope go_scope.

(** SafeWaitGroup.Wait first forbids further Adds, then blocks until nothing is
    outstanding; [wg_Wait] is its first part. *)
Class SafeWaitGroupWait (W : Type) := { wg_Wait : W → W; wg_waiting : W → bool }.
Class SafeWaitGroupWaitLaws (W : Type) `{SafeWaitGroup W} `{SafeWaitGroupWait W} (outstanding : W → nat) := {
  wg_Wait_outstanding w : outstanding (wg_Wait w) = outstanding w;
  wg_Wait_waiting w : wg_waiting (wg_Wait w) = true;
  wg_Add1_open w : wg_waiting w = false → (wg_Add1 w).1 = None;
  wg_Add1_waiting w : wg_waiting w = true → is_Some (wg_Add1 w).1;
  wg_Add1_keeps w : wg_waiting (wg_Add1 w).2 = wg_waiting w;
  wg_Done_keeps w : wg_waiting (wg_Done w) = wg_waiting w;
}.

Definition waitgroup_wait_model : SafeWaitGroupWait (nat * bool) :=
  {| wg_Wait w := (w.1, true); wg_waiting w := w.2 |}.
Lemma waitgroup_wait_model_laws : @SafeWaitGroupWaitLaws _ waitgroup_model waitgroup_wait_model fst.
Proof. split; intros [n []]; cbn; intros; (done || by eexists). Qed.

(** ** The goroutines *)

(** [<-stopCh; time.Sleep(s.ShutdownDelayDuration); close(delayedStopCh)] *)
Inductive delay_pc := NoDelay | DelayWait | DelaySleep | DelayDone.
(** [<-stopCh; <-delayedStopCh; s.HandlerChainWaitGroup.Wait(); close(done)] *)
Inductive closer_pc := NoCloser | CloserStop | CloserDelay | CloserWait | CloserDone.
(** [<-stopCh; server.Shutdown(ctx); close(stoppedCh)] of RunServer *)
Inductive shutdown_pc := Running | ShuttingDown | Stopped.
(** serverModule.stop *)
Inductive stop_pc := NotStopping | StopWaits | StopReturned.

#[global] Instance delay_pc_eq_dec : EqDecision delay_pc.
Proof. solve_decision. Defined.

(** A listener: where its shutdown is, whether its goroutine is in http.Server.Serve, and
    whether the goroutine [<-stoppedCh; Done()] is still to come. *)
Record server_state := Server { ls_shutdown : shutdown_pc; ls_serving : bool; ls_counted : bool }.

Section lifecycle.
Context {W : Type} `{SafeWaitGroup W} `{SafeWaitGroupWait W} (outstanding : W → nat).

Record lifecycle := Life {
  lf_cancelled : bool;              (* stopCh is closed *)
  lf_delay : delay_pc;
  lf_closer : closer_pc;
  lf_servers : list server_state;
  lf_wg : W;
  lf_requests : nat;                (* requests that hold a place in the wait group *)
  lf_crashed : bool;
  lf_stop : stop_pc;
}.

(** *** Start *)

(** The part of Start for one listener: [r] is the error of its Serve.  The error of Add
    is ignored. *)
Definition start_server (r : option error) (l : lifecycle) : option error * lifecycle :=
  match r with
  | Some err => (Some err, l)
  | None =>
      (None, Life (lf_cancelled l) (lf_delay l) (lf_closer l) (lf_servers l ++ [Server Running true true])
               (wg_Add1 (lf_wg l)).2 (lf_requests l) (lf_crashed l) (lf_stop l))
  end.

Definition start_optional (r : option (option error)) (l : lifecycle) : option error * lifecycle :=
  match r with None => (None, l) | Some r => start_server r l end.

(** [openapi] is the result of installing the API documents, if they are enabled;
    [secure] and [insecure] are the results of Serve on what is configured.  The two
    goroutines start only after both. *)
Definition Start (openapi : option error) (secure insecure : option (option error)) (l : lifecycle) : option error * lifecycle :=
  match openapi with
  | Some err => (Some err, l)
  | None =>
      match start_optional secure l with
      | (Some err, l) => (Some err, l)
      | (None, l) =>
          match start_optional insecure l with
          | (Some err, l) => (Some err, l)
          | (None, l) =>
              (None, Life (lf_cancelled l) DelayWait CloserStop (lf_servers l) (lf_wg l) (lf_requests l) (lf_crashed l) (lf_stop l))
          end
      end
  end.

(** The module after init, with its new wait group. *)
Definition fresh (wg : W) : lifecycle := Life false NoDelay NoCloser [] wg 0 false NotStopping.

(** *** Steps of the server *)

Inductive lstep : lifecycle → lifecycle → Prop :=
  | delay_wake k sv wg n st :
      lstep (Life true DelayWait k sv wg n false st) (Life true DelaySleep k sv wg n false st)
  | delay_close c k sv wg n st :
      lstep (Life c DelaySleep k sv wg n false st) (Life c DelayDone k sv wg n false st)
  | closer_stop d sv wg n st :
      lstep (Life true d CloserStop sv wg n false st) (Life true d CloserDelay sv wg n false st)
  | closer_delay c sv wg n st :
      lstep (Life c DelayDone CloserDelay sv wg n false st) (Life c DelayDone CloserWait sv (wg_Wait wg) n false st)
  | closer_done c d sv wg n st :
      outstanding wg = 0 →
      lstep (Life c d CloserWait sv wg n false st) (Life c d CloserDone sv wg n false st)
  | server_shutdown c k sv wg n st i serving counted :
      sv !! i = Some (Server Running serving counted) →
      lstep (Life c DelayDone k sv wg n false st) (Life c DelayDone k (<[i := Server ShuttingDown serving counted]> sv) wg n false st)
  | server_returns c d k sv wg n st i sh counted :
      (* Serve returns ErrServerClosed: stopCh is closed, which is logged *)
      sv !! i = Some (Server sh true counted) → sh ≠ Running →
      lstep (Life c d k sv wg n false st) (Life c d k (<[i := Server sh false counted]> sv) wg n false st)
  | server_stopped c d k sv wg n st i serving counted :
      (* all connections idle, or the timeout of Shutdown *)
      sv !! i = Some (Server ShuttingDown serving counted) →
      lstep (Life c d k sv wg n false st) (Life c d k (<[i := Server Stopped serving counted]> sv) wg n false st)
  | server_done c d k sv wg n st i serving :
      sv !! i = Some (Server Stopped serving true) →
      lstep (Life c d k sv wg n false st) (Life c d k (<[i := Server Stopped serving false]> sv) (wg_Done wg) n false st)
  | request_done c d k sv wg n st :
      lstep (Life c d k sv wg (S n) false st) (Life c d k sv (wg_Done wg) n false st)
  | stop_returns c d sv wg n :
      lstep (Life c d CloserDone sv wg n false StopWaits) (Life c d CloserDone sv wg n false StopReturned).

(** *** Steps from outside *)

Inductive estep : lifecycle → lifecycle → Prop :=
  | request_arrives c d k sv wg n st i s wg' :
      sv !! i = Some s → ls_serving s = true → wg_Add1 wg = (None, wg') →
      estep (Life c d k sv wg n false st) (Life c d k sv wg' (S n) false st)
  | context_cancelled c d k sv wg n st : estep (Life c d k sv wg n false st) (Life true d k sv wg n false st)
  | stop_called c d k sv wg n : estep (Life c d k sv wg n false NotStopping) (Life true d k sv wg n false StopWaits)
  | listener_fails c d k sv wg n st i sh counted :
      (* the goroutine panics unless delayedStopCh is closed *)
      sv !! i = Some (Server sh true counted) →
      estep (Life c d k sv wg n false st)
            (Life c d k (<[i := Server sh false counted]> sv) wg n (negb (bool_decide (d = DelayDone))) st).

Definition astep (l l' : lifecycle) : Prop := lstep l l' ∨ estep l l'.
End lifecycle.
Arguments lifecycle : clear implicits.

(** ** Theorems *)

(** *** Sums over the listeners *)

Fixpoint total (f : server_state → nat) (sv : list server_state) : nat :=
  match sv with [] => 0 | s :: sv => f s + total f sv end.

Lemma total_insert f sv i s s' : sv !! i = Some s → total f (<[i := s']> sv) + f s = total f sv + f s'.
Proof.
  revert i. induction sv as [|x sv IH]; intros [|i] Hi; [done|done| |].
  - cbn in *. simplify_eq. lia.
  - change (<[S i := s']> (x :: sv)) with (x :: <[i := s']> sv). cbn [total]. specialize (IH i Hi). lia.
Qed.

Definition holds_place (s : server_state) : nat := if ls_counted s then 1 else 0.
Definition work_left (s : server_state) : nat :=
  (match ls_shutdown s with Running => 2 | ShuttingDown => 1 | Stopped => 0 end) +
  (if ls_serving s then 1 else 0) + holds_place s.

Section theorems.
Context {W : Type} `{!SafeWaitGroup W} `{!SafeWaitGroupWait W} (outstanding : W → nat).
Context `{!SafeWaitGroupLaws W outstanding} `{!SafeWaitGroupWaitLaws W outstanding}.
Implicit Types l : lifecycle W.
Abbreviation gstep := (lstep outstanding).
Abbreviation anystep := (astep outstanding).

(** *** Termination *)

Definition life_work l : nat :=
  (match lf_delay l with DelayWait => 2 | DelaySleep => 1 | _ => 0 end) +
  (match lf_closer l with CloserStop => 3 | CloserDelay => 2 | CloserWait => 1 | _ => 0 end) +
  total work_left (lf_servers l) + lf_requests l + (match lf_stop l with StopWaits => 1 | _ => 0 end).

Lemma work_left_Server sh serving counted :
  work_left (Server sh serving counted) =
  match sh with Running => 2 | ShuttingDown => 1 | Stopped => 0 end + (if serving then 1 else 0) + (if counted then 1 else 0).
Proof. done. Qed.

Lemma lstep_work l l' : gstep l l' → life_work l' < life_work l.
Proof.
  destruct 1; unfold life_work; cbn [lf_delay lf_closer lf_servers lf_requests lf_stop]; try lia;
    match goal with Hi : ?sv !! ?i = Some ?s |- context [<[?i := ?s']> ?sv] => pose proof (total_insert work_left sv i s s' Hi) as Ht end;
    rewrite !work_left_Server in Ht; lia.
Qed.

(** *** The invariant *)

Record linv l : Prop := {
  li_count : outstanding (lf_wg l) = lf_requests l + total holds_place (lf_servers l);
  li_waiting : wg_waiting (lf_wg l) = true ↔ lf_closer l = CloserWait ∨ lf_closer l = CloserDone;
  li_closer_delay : lf_closer l = CloserWait ∨ lf_closer l = CloserDone → lf_delay l = DelayDone;
  li_running : lf_delay l ≠ DelayDone → Forall (λ s, ls_shutdown s = Running) (lf_servers l);
  li_stopped : Forall (λ s, ls_counted s = false → ls_shutdown s = Stopped) (lf_servers l);
  li_done : lf_closer l = CloserDone → outstanding (lf_wg l) = 0;
  li_stop : lf_stop l = StopReturned → lf_closer l = CloserDone;
  li_cancelled : lf_stop l ≠ NotStopping → lf_cancelled l = true;
}.

Lemma wg_Add1_outstanding w w' : wg_Add1 w = (None, w') → outstanding w' = S (outstanding w) ∧ wg_waiting w = false ∧ wg_waiting w' = false.
Proof.
  intros Ha. split; [by apply wg_Add1_ok|]. destruct (wg_waiting w) eqn:Hw.
  - destruct (wg_Add1_waiting w Hw) as [e He]. by rewrite Ha in He.
  - split; [done|]. by rewrite <- Hw, <- (wg_Add1_keeps w), Ha.
Qed.

(** A change of one listener. *)
Lemma linv_server c d k sv wg wg' n n' cr st i s s' :
  linv (Life c d k sv wg n false st) → sv !! i = Some s →
  (d ≠ DelayDone → ls_shutdown s' = ls_shutdown s) → (ls_counted s' = false → ls_shutdown s' = Stopped) →
  outstanding wg' + holds_place s = outstanding wg + holds_place s' → outstanding wg' ≤ outstanding wg → wg_waiting wg' = wg_waiting wg → n' = n →
  linv (Life c d k (<[i := s']> sv) wg' n' cr st).
Proof.
  intros [] Hi Hd Hs Ho Hle Hw ->. cbn in *. split; cbn; try done.
  - pose proof (total_insert holds_place sv i s s' Hi). lia.
  - by rewrite Hw.
  - intros Hne. specialize (li_running0 Hne). apply Forall_insert; [done|]. rewrite Hd by done. exact (Forall_lookup_1 _ _ _ _ li_running0 Hi).
  - by apply Forall_insert.
  - intros Hk. specialize (li_done0 Hk). lia.
Qed.

Lemma linv_lstep l l' : linv l → gstep l l' → linv l'.
Proof.
  intros Hinv Hstep.
  destruct Hstep as [k sv wg n st|c k sv wg n st|d sv wg n st|c sv wg n st|c d sv wg n st Hz|c k sv wg n st i serving counted Hi
                    |c d k sv wg n st i sh counted Hi Hsh|c d k sv wg n st i serving counted Hi|c d k sv wg n st i serving Hi
                    |c d k sv wg n st|c d sv wg n].
  - destruct Hinv. split; cbn in *; naive_solver.
  - destruct Hinv. split; cbn in *; naive_solver.
  - destruct Hinv. split; cbn in *; naive_solver.
  - destruct Hinv. split; cbn in *; rewrite ?wg_Wait_outstanding, ?wg_Wait_waiting; naive_solver.
  - destruct Hinv. split; cbn in *; naive_solver.
  - eapply linv_server; [done|done| | |done..]; cbn; [done|].
    intros ->. pose proof (Forall_lookup_1 _ _ _ _ (li_stopped _ Hinv) Hi) as Hs. by specialize (Hs eq_refl).
  - eapply linv_server; [done|done|done| |done..]. exact (Forall_lookup_1 _ _ _ _ (li_stopped _ Hinv) Hi).
  - eapply linv_server; [done|done| |done|done..]. intros Hd.
    pose proof (Forall_lookup_1 _ _ _ _ (li_running _ Hinv Hd) Hi) as Hs. done.
  - pose proof (li_count _ Hinv) as Hc. cbn in Hc. pose proof (total_insert holds_place sv i _ (Server Stopped serving false) Hi) as Ht.
    change (holds_place (Server Stopped serving true)) with 1 in Ht. change (holds_place (Server Stopped serving false)) with 0 in Ht.
    assert (outstanding wg = S (pred (outstanding wg))) as E by lia. apply wg_Done_spec in E.
    eapply linv_server; [done|done|done|done| | | |done]; [cbn; lia|lia|apply wg_Done_keeps].
  - destruct Hinv. cbn in *. assert (outstanding wg = S (pred (outstanding wg))) as E by lia. apply wg_Done_spec in E.
    split; cbn; rewrite ?wg_Done_keeps; try done; [lia|]. intros Hk. specialize (li_done0 Hk). lia.
  - destruct Hinv. split; cbn in *; naive_solver.
Qed.

Lemma linv_estep l l' : linv l → estep l l' → linv l'.
Proof.
  intros Hinv Hstep.
  destruct Hstep as [c d k sv wg n st i s wg' Hi Hs Ha|c d k sv wg n st|c d k sv wg n|c d k sv wg n st i sh counted Hi].
  - destruct Hinv. cbn in *. apply wg_Add1_outstanding in Ha as (Ho & Hw & Hw').
    split; cbn; rewrite ?Hw'; try done; [lia|by rewrite <- li_waiting0, Hw|].
    intros ->. rewrite (proj2 li_waiting0) in Hw by (by right). done.
  - destruct Hinv. split; cbn in *; naive_solver.
  - destruct Hinv. split; cbn in *; naive_solver.
  - eapply linv_server; [done|done|done| |done..]. exact (Forall_lookup_1 _ _ _ _ (li_stopped _ Hinv) Hi).
Qed.

(** A server whose Start succeeded. *)
Definition started l : Prop :=
  ∃ wg secure insecure, wg_waiting wg = false ∧ outstanding wg = 0 ∧ Start None secure insecure (fresh wg) = (None, l).

Lemma started_inv l : started l → linv l ∧ lf_delay l = DelayWait ∧ lf_closer l = CloserStop ∧ lf_stop l = NotStopping ∧ lf_crashed l = false.
Proof.
  intros (wg & secure & insecure & Hw & Ho & Hs). unfold Start in Hs.
  assert (∀ wg, wg_waiting wg = false → wg_waiting (wg_Add1 wg).2 = false ∧ outstanding (wg_Add1 wg).2 = S (outstanding wg)) as Hadd.
  { intros w Hw'. pose proof (wg_Add1_open w Hw') as Hn. destruct (wg_Add1 w) as [e w'] eqn:E. cbn in *. subst e.
    by apply wg_Add1_outstanding in E as (-> & _ & ->). }
  destruct (Hadd wg Hw) as [Hw1 Ho1]. destruct (Hadd _ Hw1) as [Hw2 Ho2].
  destruct secure as [[err|]|]; cbn in Hs; [done| |]; (destruct insecure as [[err|]|]; cbn in Hs; [done| |]);
    simplify_eq; (split; [|done]); split; cbn; rewrite ?Ho2, ?Ho1, ?Ho, ?Hw2, ?Hw1, ?Hw; try done; try (by repeat constructor); naive_solver.
Qed.

Lemma lifecycle_inv l0 l : started l0 → rtc anystep l0 l → linv l.
Proof.
  intros [Hinv _]%started_inv Hr. induction Hr as [|l1 l2 l3 [Hs|Hs] _ IH]; [done|apply IH..].
  - by eapply linv_lstep.
  - by eapply linv_estep.
Qed.

(** The two goroutines exist. *)
Definition goroutines l : Prop := lf_delay l ≠ NoDelay ∧ lf_closer l ≠ NoCloser.
Lemma goroutines_step l l' : goroutines l → anystep l l' → goroutines l'.
Proof. intros [Hd Hk] [Hs|Hs]; destruct Hs; by split. Qed.

Lemma reachable_goroutines l0 l : started l0 → rtc anystep l0 l → goroutines l.
Proof.
  intros (_ & Hd & Hk & _)%started_inv Hr. assert (goroutines l0) as Hg by (split; congruence).
  clear Hd Hk. induction Hr as [|l1 l2 l3 Hs _ IH]; [done|]. apply IH. by eapply goroutines_step.
Qed.

Lemma total_zero f sv : total f sv = 0 → Forall (λ s, f s = 0) sv.
Proof. induction sv as [|s sv IH]; cbn; [constructor|]. intros E. constructor; [lia|]. apply IH. lia. Qed.

Lemma all_stopped l : linv l → total holds_place (lf_servers l) = 0 → Forall (λ s, ls_shutdown s = Stopped) (lf_servers l).
Proof.
  intros Hinv Hz%total_zero. pose proof (li_stopped _ Hinv) as Hs. rewrite Forall_forall in *. intros x Hx.
  apply Hs; [done|]. specialize (Hz x Hx). unfold holds_place in Hz. by destruct (ls_counted x).
Qed.

(** C13: in every interleaving: while the stop is delayed every listener runs and requests are
    admitted; the channel stop waits for is closed only when every listener is shut down
    and no admitted request is left, and none is admitted any more; stop returns only
    then. *)
Theorem graceful_shutdown l0 l :
  started l0 → rtc anystep l0 l →
  (lf_delay l ≠ DelayDone →
     Forall (λ s, ls_shutdown s = Running) (lf_servers l) ∧ (wg_Add1 (lf_wg l)).1 = None) ∧
  (lf_closer l = CloserDone →
     lf_requests l = 0 ∧ Forall (λ s, ls_shutdown s = Stopped) (lf_servers l) ∧ is_Some (wg_Add1 (lf_wg l)).1) ∧
  (lf_stop l = StopReturned → lf_closer l = CloserDone).
Proof.
  intros Hst Hr. pose proof (lifecycle_inv _ _ Hst Hr) as Hinv. pose proof Hinv as []. split_and!; [..|done].
  - intros Hd. split; [by apply li_running0|]. apply wg_Add1_open. apply not_true_iff_false. rewrite li_waiting0. naive_solver.
  - intros Hk. specialize (li_done0 Hk). split_and!; [lia|apply all_stopped; [done|lia]|].
    apply wg_Add1_waiting, li_waiting0. by right.
Qed.

(** *** Progress *)

Lemma server_stuck c k sv wg n st :
  (∀ l', ¬ gstep (Life c DelayDone k sv wg n false st) l') →
  Forall (λ s, ls_shutdown s = Stopped ∧ ls_counted s = false) sv ∧ n = 0.
Proof.
  intros Hno. split; [|destruct n; [done|]; exfalso; by eapply Hno, request_done].
  apply Forall_lookup. intros i [sh serving counted] Hi. destruct sh.
  - exfalso. by eapply Hno, server_shutdown.
  - exfalso. by eapply Hno, server_stopped.
  - destruct counted; [|done]. exfalso. by eapply Hno, server_done.
Qed.

Lemma stuck_returned l :
  linv l → goroutines l → lf_crashed l = false → lf_stop l ≠ NotStopping → (∀ l', ¬ gstep l l') → lf_stop l = StopReturned.
Proof.
  destruct l as [c d k sv wg n cr st]. intros Hinv [Hd Hk] Hcr Hst Hno. cbn in *. subst cr.
  pose proof (li_cancelled _ Hinv Hst) as Hc. cbn in Hc. subst c.
  destruct d; [done|exfalso; by eapply Hno, delay_wake|exfalso; by eapply Hno, delay_close|].
  destruct (server_stuck _ _ _ _ _ _ Hno) as [Hsv ->].
  assert (outstanding wg = 0) as Ho.
  { pose proof (li_count _ Hinv) as Hcount. cbn in Hcount. rewrite Hcount. clear -Hsv.
    induction Hsv as [|s sv [_ Hs] _ IH]; [done|]. cbn in *. unfold holds_place at 1. by rewrite Hs. }
  destruct k; [done|exfalso; by eapply Hno, closer_stop|exfalso; by eapply Hno, closer_delay|exfalso; by eapply Hno, closer_done|].
  destruct st; [done|exfalso; by eapply Hno, stop_returns|done].
Qed.

Lemma lstep_keeps l l' : gstep l l' → lf_crashed l' = lf_crashed l ∧ (lf_stop l ≠ NotStopping → lf_stop l' ≠ NotStopping).
Proof. by destruct 1. Qed.

(** C14: once stop was called on a running server, the server's goroutines and its requests
    make finitely many steps, and when none is left stop has returned: it cannot hang. *)
Theorem stop_completes l0 l :
  started l0 → rtc anystep l0 l → lf_stop l ≠ NotStopping → lf_crashed l = false →
  (∀ n l', nsteps gstep n l l' → n ≤ life_work l) ∧
  (∀ l', rtc gstep l l' → (∀ l'', ¬ gstep l' l'') → lf_stop l' = StopReturned ∧ lf_requests l' = 0).
Proof.
  intros Hst Hr Hstop Hcr. split.
  - intros n l' Hn. induction Hn as [|n l1 l2 l3 Hs Hn IH]; [lia|].
    assert (rtc anystep l0 l2) as Hr2 by (eapply rtc_r; [done|by left]).
    destruct (lstep_keeps _ _ Hs) as [Hc Hk]. specialize (IH Hr2 (Hk Hstop)). rewrite Hc in IH. specialize (IH Hcr).
    apply lstep_work in Hs. lia.
  - intros l' Hr' Hno. assert (rtc anystep l0 l') as Hr0 by (etrans; [done|]; eapply rtc_subrel; [|done]; intros ???; by left).
    assert (lf_crashed l' = false ∧ lf_stop l' ≠ NotStopping) as [Hcr' Hst'].
    { clear Hno Hr0. induction Hr' as [|l1 l2 l3 Hs Hr' IH]; [done|]. destruct (lstep_keeps _ _ Hs) as [Hc Hk].
      apply IH; [by eapply rtc_r; [|left]|by apply Hk|congruence]. }
    pose proof (lifecycle_inv _ _ Hst Hr0) as Hinv.
    assert (lf_stop l' = StopReturned) as Hret by (by apply stuck_returned; [|eapply reachable_goroutines|..]).
    split; [done|]. pose proof (li_done _ Hinv (li_stop _ Hinv Hret)). pose proof (li_count _ Hinv). lia.
Qed.

(** After a Start that failed, stop never returns: nothing closes its channel. *)
Theorem failed_start_stop_hangs openapi secure insecure wg err l0 l :
  Start openapi secure insecure (fresh wg) = (Some err, l0) → rtc anystep l0 l → lf_stop l ≠ StopReturned.
Proof.
  intros Hs Hr. assert (lf_closer l0 = NoCloser ∧ lf_stop l0 ≠ StopReturned) as H0.
  { unfold Start in Hs. destruct openapi; [by simplify_eq|]. destruct secure as [[]|]; cbn in Hs; [by simplify_eq|..];
      (destruct insecure as [[]|]; cbn in Hs; by simplify_eq). }
  clear Hs. assert (lf_closer l = NoCloser ∧ lf_stop l ≠ StopReturned) as [_ ?]; [|done].
  induction Hr as [|l1 l2 l3 Hstep _ IH]; [done|]. apply IH. destruct H0 as [Hk Hst].
  destruct Hstep as [Hstep|Hstep]; destruct Hstep; cbn in *; by split.
Qed.
End theorems.

(** ** Witnesses *)

Module ServerLifecycleExamples.
#[local] Existing Instance waitgroup_model.
#[local] Existing Instance waitgroup_model_laws.
#[local] Existing Instance waitgroup_wait_model.
#[local] Existing Instance waitgroup_wait_model_laws.

(** One secure listener; a request is admitted, stop is called and the server runs down. *)
Definition l0 : lifecycle (nat * bool) := Life false DelayWait CloserStop [Server Running true true] (1, false) 0 false NotStopping.
Definition stopping : lifecycle (nat * bool) := Life true DelayWait CloserStop [Server Running true true] (2, false) 1 false StopWaits.
Definition over : lifecycle (nat * bool) := Life true DelayDone CloserDone [Server Stopped true false] (0, true) 0 false StopReturned.

Lemma l0_started : started fst l0.
Proof. exists (0, false), (Some None), None. by split_and!. Qed.

Lemma stopping_reachable : rtc (astep fst) l0 stopping.
Proof.
  eapply rtc_l; [right; by eapply (request_arrives _ _ _ _ _ _ _ 0)|]. cbn.
  eapply rtc_l; [right; apply stop_called|]. reflexivity.
Qed.

Lemma over_reachable : rtc (lstep fst) stopping over.
Proof.
  eapply rtc_l; [apply delay_wake|]. eapply rtc_l; [apply delay_close|]. eapply rtc_l; [apply closer_stop|].
  eapply rtc_l; [apply closer_delay|]. eapply rtc_l; [apply request_done|].
  eapply rtc_l; [by eapply (server_shutdown _ _ _ _ _ _ _ 0)|]. cbn.
  eapply rtc_l; [by eapply (server_stopped _ _ _ _ _ _ _ _ 0)|]. cbn.
  eapply rtc_l; [by eapply (server_done _ _ _ _ _ _ _ _ 0)|]. cbn.
  eapply rtc_l; [by apply closer_done|]. eapply rtc_l; [apply stop_returns|]. reflexivity.
Qed.

Lemma graceful_shutdown_witness : lf_requests over = 0 ∧ lf_closer over = CloserDone.
Proof.
  destruct (graceful_shutdown fst l0 over l0_started) as (_ & Hdone & Hret).
  - etrans; [exact stopping_reachable|]. eapply rtc_subrel; [|exact over_reachable]. intros ???. by left.
  - split; [by apply Hdone|by apply Hret].
Defined.

Lemma stop_completes_witness :
  (∀ n l', nsteps (lstep fst) n stopping l' → n ≤ 11) ∧
  (∀ l', rtc (lstep fst) stopping l' → (∀ l'', ¬ lstep fst l' l'') → lf_stop l' = StopReturned ∧ lf_requests l' = 0).
Proof. exact (stop_completes fst l0 stopping l0_started stopping_reachable ltac:(discriminate) eq_refl). Defined.

Lemma failed_start_stop_hangs_witness : lf_stop (Life true NoDelay NoCloser [] (0, false) 0 false StopWaits) ≠ StopReturned.
Proof.
  apply (failed_start_stop_hangs (W := nat * bool) fst (Some (Errorf "no api docs" [])) None None (0, false) (Errorf "no api docs" []) (fresh (0, false)));
    [reflexivity|]. apply rtc_once. right. apply stop_called.
Defined.
End ServerLifecycleExamples.
