(* ===== verification/DeepEqual.v ===== *)
(** * Semantic deep equality

    Models pkg/conversion/deep_equal.go: comparison of Go values by reflection, with
    equality functions per type, nil and empty slices and maps taken for equal, and a
    set of comparisons in progress so that cyclic values can be compared.

    A Go value is a tree in which pointers, slices and maps are references into a heap.
    reflect's Value is such a tree with the address it can be taken at (if any) and the
    mark of values reached through unexported fields.  Addresses are places (an object
    and a path into it) instead of numbers, which are the same thing for two values of
    one type unless the type has size zero; their order is a parameter.  The recursion
    of the code is not bounded: the model takes fuel.

    The theorems: where it does not panic, DeepEqual answers true exactly for values that
    unfold alike to every depth ([DeepEqual_unfolding], [DeepEqual_agrees] with functions
    per type), comparisons end when every cycle passes through an addressable array, map, slice or struct
    ([DeepEqual_terminates]), and what goes wrong otherwise and in DeepDerivative. *)

From S2P Require Import Prelude.

Local Open Scope go_scope.

(** ** Values and heaps *)

Abbreviation addr := (nat * list nat)%type.

(** Types are known by their names.  A slice has the place of its backing array, the
    offset of its first element and its length; a map its identity.  A number, boolean,
    channel or unsafe pointer is known by its value, [None] for one that is not equal to
    itself (NaN).  The fields of a struct are exported, unexported or unexported and
    embedded. *)
Inductive field_kind := Exported | Unexported | Embedded.

Inductive value :=
  | VBase (t : string) (v : option string)
  | VString (t : string) (s : string)
  | VFunc (t : string) (id : option nat)
  | VArray (t : string) (elems : list value)
  | VStruct (t : string) (fields : list (field_kind * value))
  | VSlice (t : string) (data : option (addr * nat * nat))
  | VMap (t : string) (data : option nat)
  | VIface (t : string) (elem : option value)
  | VPtr (t : string) (p : option addr).

Definition type_of (v : value) : string :=
  match v with
  | VBase t _ | VString t _ | VFunc t _ | VArray t _ | VStruct t _ | VSlice t _ | VMap t _ | VIface t _ | VPtr t _ => t
  end.

Definition hard (v : value) : bool :=
  match v with VArray _ _ | VMap _ _ | VSlice _ _ | VStruct _ _ => true | _ => false end.

(** The value at a path inside another. *)
Definition child (v : value) (i : nat) : option value :=
  match v with
  | VArray _ l => l !! i
  | VStruct _ l => snd <$> l !! i
  | _ => None
  end.

Fixpoint vlookup (v : value) (p : list nat) : option value :=
  match p with
  | [] => Some v
  | i :: p => child v i ≫= λ w, vlookup w p
  end.

Record heap := { h_objects : gmap nat value; h_maps : gmap nat (gmap string value) }.

Definition at_addr (h : heap) (a : addr) : option value := h_objects h !! a.1 ≫= λ v, vlookup v a.2.

(** reflect.Value; the invalid one is [None]. *)
Inductive ro_flag := flagNone | flagEmbedRO | flagStickyRO.

Record rvalue := RV { rv_val : value; rv_addr : option addr; rv_flag : ro_flag }.

(** flag.ro, and the flag of a field. *)
Definition ro (f : ro_flag) : ro_flag := match f with flagNone => flagNone | _ => flagStickyRO end.
Definition field_ro (f : ro_flag) (k : field_kind) : ro_flag :=
  match f, k with
  | flagStickyRO, _ | _, Unexported => flagStickyRO
  | _, Embedded => flagEmbedRO
  | _, Exported => flagNone
  end.
Definition CanInterface (x : rvalue) : bool := match rv_flag x with flagNone => true | _ => false end.

Definition visit : Type := addr * addr * string.

(** What remains of a comparison once two values were looked at: nothing, a check that
    their contents may be read, or pairs to compare in order until one differs. *)
Inductive decision :=
  | Answer (b : bool)
  | Normal (b : bool)
  | Compare (l : list (option rvalue * option rvalue)).

Section deep.
Context (h : heap).
(** The order of addresses, and the order in which the keys of a map are visited. *)
Context (addr_gt : addr → addr → bool) (MapKeys : gmap string value → list string).
(** Equalities: functions per type. *)
Context (e : gmap string (value → value → bool)).

(** *** reflect *)

(** Index, Field, Elem and MapIndex. *)
Definition sub_addr (x : rvalue) (i : nat) : option addr := (λ a, (a.1, a.2 ++ [i])) <$> rv_addr x.
Definition array_elems (x : rvalue) (l : list value) : list (option rvalue) :=
  imap (λ i v, Some (RV v (sub_addr x i) (ro (rv_flag x)))) l.
Definition struct_fields (x : rvalue) (l : list (field_kind * value)) : list (option rvalue) :=
  imap (λ i f, Some (RV f.2 (sub_addr x i) (field_ro (rv_flag x) f.1))) l.
Definition elem_at (a : addr) (f : ro_flag) : option rvalue := (λ v, RV v (Some a) f) <$> at_addr h a.
Definition slice_elem (x : rvalue) (d : addr * nat * nat) (i : nat) : option rvalue :=
  elem_at (d.1.1.1, d.1.1.2 ++ [d.1.2 + i]) (ro (rv_flag x)).
Definition map_at (m : nat) : gmap string value := default ∅ (h_maps h !! m).
Definition map_index (f : ro_flag) (m : nat) (k : string) : option rvalue := (λ v, RV v None f) <$> map_at m !! k.
Definition ptr_elem (x : rvalue) (p : option addr) : option rvalue := p ≫= λ a, elem_at a (rv_flag x).
Definition iface_elem (x : rvalue) (v : value) : option rvalue := Some (RV v None (ro (rv_flag x))).

Definition slice_len (d : option (addr * nat * nat)) : nat := match d with Some d => d.2 | None => 0 end.
Definition map_len (d : option nat) : nat := match d with Some m => size (map_at m) | None => 0 end.

Definition slice_pairs (x y : rvalue) (d1 d2 : addr * nat * nat) : list (option rvalue * option rvalue) :=
  (λ i, (slice_elem x d1 i, slice_elem y d2 i)) <$> seq 0 d1.2.

(** The elements of two maps at the keys of the first; a key carries the flag of the map
    it comes from. *)
Definition map_pairs (x y : rvalue) (m1 m2 : nat) : list (option rvalue * option rvalue) :=
  (λ k, (map_index (ro (rv_flag x)) m1 k,
         map_index (if CanInterface x then ro (rv_flag y) else flagStickyRO) m2 k)) <$> MapKeys (map_at m1).

(** [==] of values of kinds without references. *)
Definition base_eq (v1 v2 : option string) : bool :=
  match v1, v2 with Some v1, Some v2 => v1 == v2 | _, _ => false end.

(** *** The switch of deepValueEqual *)
Definition equal_step (x y : rvalue) : decision :=
  match rv_val x, rv_val y with
  | VArray _ l1, VArray _ l2 => Compare (zip (array_elems x l1) (array_elems y l2))
  | VSlice _ d1, VSlice _ d2 =>
      if negb (Bool.eqb (slice_len d1 =? 0) (slice_len d2 =? 0)) then Answer false
      else if slice_len d1 =? 0 then Answer true
      else if negb (slice_len d1 =? slice_len d2) then Answer false
      else
        match d1, d2 with
        | Some d1, Some d2 =>
            if d1.1 == d2.1 then Answer true
            else Compare (slice_pairs x y d1 d2)
        | _, _ => Answer true
        end
  | VIface _ e1, VIface _ e2 =>
      match e1, e2 with
      | Some v1, Some v2 => Compare [(iface_elem x v1, iface_elem y v2)]
      | None, None => Answer true
      | _, _ => Answer false
      end
  | VPtr _ p1, VPtr _ p2 => Compare [(ptr_elem x p1, ptr_elem y p2)]
  | VStruct _ l1, VStruct _ l2 => Compare (zip (struct_fields x l1) (struct_fields y l2))
  | VMap _ d1, VMap _ d2 =>
      if negb (Bool.eqb (map_len d1 =? 0) (map_len d2 =? 0)) then Answer false
      else if map_len d1 =? 0 then Answer true
      else if negb (map_len d1 =? map_len d2) then Answer false
      else
        match d1, d2 with
        | Some m1, Some m2 =>
            if m1 =? m2 then Answer true
            else Compare (map_pairs x y m1 m2)
        | _, _ => Answer true
        end
  | VFunc _ f1, VFunc _ f2 => Answer (bool_decide (f1 = None) && bool_decide (f2 = None))
  | VString _ s1, VString _ s2 => Normal (s1 == s2)
  | VBase _ v1, VBase _ v2 => Normal (base_eq v1 v2)
  | _, _ => Answer false
  end.

(** *** The switch of deepValueDerive *)
Definition derive_step (x y : rvalue) : decision :=
  match rv_val x, rv_val y with
  | VArray _ l1, VArray _ l2 => Compare (zip (array_elems x l1) (array_elems y l2))
  | VSlice _ d1, VSlice _ d2 =>
      if slice_len d1 =? 0 then Answer true
      else if slice_len d2 <? slice_len d1 then Answer false
      else
        match d1, d2 with
        | Some d1, Some d2 =>
            if d1.1 == d2.1 then Answer true
            else Compare (slice_pairs x y d1 d2)
        | _, _ => Answer true
        end
  | VString _ s1, VString _ s2 =>
      if s1 == "" then Answer true
      else if String.length s2 <? String.length s1 then Answer false
      else Answer (s1 == s2)
  | VIface _ e1, VIface _ e2 =>
      match e1 with
      | None => Answer true
      | Some v1 => Compare [(iface_elem x v1, e2 ≫= iface_elem y)]
      end
  | VPtr _ p1, VPtr _ p2 =>
      match p1 with
      | None => Answer true
      | Some _ => Compare [(ptr_elem x p1, ptr_elem y p2)]
      end
  | VStruct _ l1, VStruct _ l2 => Compare (zip (struct_fields x l1) (struct_fields y l2))
  | VMap _ d1, VMap _ d2 =>
      if map_len d1 =? 0 then Answer true
      else if map_len d2 <? map_len d1 then Answer false
      else
        match d1, d2 with
        | Some m1, Some m2 =>
            if m1 =? m2 then Answer true
            else Compare (map_pairs x y m1 m2)
        | _, _ => Answer true
        end
  | VFunc _ f1, VFunc _ f2 => Answer (bool_decide (f1 = None) && bool_decide (f2 = None))
  | VBase _ v1, VBase _ v2 => Normal (base_eq v1 v2)
  | _, _ => Answer false
  end.

(** *** The common beginning *)

Definition canonical (a1 a2 : addr) (t : string) : visit := if addr_gt a1 a2 then (a2, a1, t) else (a1, a2, t).

(** The pair that is remembered: both values addressable and of a kind that can recur. *)
Definition recorded (x y : rvalue) : option (addr * addr) :=
  match rv_addr x, rv_addr y with
  | Some a1, Some a2 => if hard (rv_val x) then Some (a1, a2) else None
  | _, _ => None
  end.

(** Either the answer, or the comparisons seen, this one included. *)
Definition enter (x y : option rvalue) (visited : list visit) : (outcome bool) + (rvalue * rvalue * list visit) :=
  match x, y with
  | None, None => inl (Ret true)
  | Some x, Some y =>
      if negb (type_of (rv_val x) == type_of (rv_val y)) then inl (Ret false)
      else
        match e !! type_of (rv_val x) with
        | Some f => inl (if negb (CanInterface x && CanInterface y) then Panic "using value obtained using unexported field" else Ret (f (rv_val x) (rv_val y)))
        | None =>
            match recorded x y with
            | Some (a1, a2) =>
                if a1 == a2 then inl (Ret true)
                else
                  let v := canonical a1 a2 (type_of (rv_val x)) in
                  if bool_decide (v ∈ visited) then inl (Ret true) else inr (x, y, v :: visited)
            | None => inr (x, y, visited)
            end
        end
  | _, _ => inl (Ret false)
  end.

(** The loops over elements, fields and keys: up to the first difference. *)
Definition all_of (rec : option rvalue → option rvalue → list visit → option (outcome bool * list visit))
    : list (option rvalue * option rvalue) → list visit → option (outcome bool * list visit) :=
  fix go l visited :=
    match l with
    | [] => Some (Ret true, visited)
    | (x, y) :: l =>
        match rec x y visited with
        | Some (Ret true, visited) => go l visited
        | r => r
        end
    end.

(** deepValueEqual and deepValueDerive, with their switch as an argument. *)
Fixpoint deepValue (step : rvalue → rvalue → decision) (fuel : nat) (x y : option rvalue) (visited : list visit)
    : option (outcome bool * list visit) :=
  match fuel with
  | 0 => None
  | S fuel =>
      match enter x y visited with
      | inl r => Some (r, visited)
      | inr (x, y, visited) =>
          match step x y with
          | Answer b => Some (Ret b, visited)
          | Normal b =>
              Some (if negb (CanInterface x && CanInterface y) then Panic "an unexported field was encountered" else Ret b, visited)
          | Compare l => all_of (deepValue step fuel) l visited
          end
      end
  end.

Definition deepValueEqual := deepValue equal_step.
Definition deepValueDerive := deepValue derive_step.

(** DeepEqual and DeepDerivative; a nil interface is [None]. *)
Definition DeepEqual (fuel : nat) (a1 a2 : option value) : option (outcome bool) :=
  match a1, a2 with
  | Some v1, Some v2 =>
      if negb (type_of v1 == type_of v2) then Some (Ret false)
      else fst <$> deepValueEqual fuel (Some (RV v1 None flagNone)) (Some (RV v2 None flagNone)) []
  | None, None => Some (Ret true)
  | _, _ => Some (Ret false)
  end.

Definition DeepDerivative (fuel : nat) (a1 a2 : option value) : option (outcome bool) :=
  match a1, a2 with
  | None, _ => Some (Ret true)
  | Some _, None => Some (Panic "reflect: call of reflect.Value.Type on zero Value")
  | Some v1, Some v2 =>
      if negb (type_of v1 == type_of v2) then Some (Ret false)
      else fst <$> deepValueDerive fuel (Some (RV v1 None flagNone)) (Some (RV v2 None flagNone)) []
  end.
End deep.

(** ** Equalities *)

(** A function offered as an equality: the types of its parameters and results, if it is
    a function at all (nil and nil functions are not offered). *)
Record func_value := { fn_type : option (list string * list string); fn_eq : value → value → bool }.

Definition AddFunc (e : gmap string (value → value → bool)) (f : func_value)
    : option error * gmap string (value → value → bool) :=
  match fn_type f with
  | None => (Some (Errorf "expected func, got: %v" []), e)
  | Some ([t1; t2], outs) =>
      match outs with
      | [out] =>
          if negb (t1 == t2) then (Some (Errorf "expected arg 1 and 2 to have same type, but got %v" []), e)
          else if negb (out == "bool") then (Some (Errorf "expected bool return, got: %v" []), e)
          else (None, <[t1 := fn_eq f]> e)
      | _ => (Some (Errorf "expected one 'out' param, got: %v" []), e)
      end
  | Some _ => (Some (Errorf "expected two 'in' params, got: %v" []), e)
  end.

Fixpoint AddFuncs (e : gmap string (value → value → bool)) (funcs : list func_value)
    : option error * gmap string (value → value → bool) :=
  match funcs with
  | [] => (None, e)
  | f :: funcs =>
      match AddFunc e f with
      | (Some err, e) => (Some err, e)
      | (None, e) => AddFuncs e funcs
      end
  end.

Definition EqualitiesOrDie (funcs : list func_value) : outcome (gmap string (value → value → bool)) :=
  match AddFuncs ∅ funcs with
  | (Some _, _) => Panic "EqualitiesOrDie"
  | (None, e) => Ret e
  end.

(** ** The answers *)

Section answers.
Context (h : heap) (addr_gt : addr → addr → bool) (MapKeys : gmap string value → list string).
Context (e : gmap string (value → value → bool)).

(** The comparison down to depth [n], with no set of comparisons in progress: values
    that lie deeper are taken for equal. *)
Fixpoint agree (step : rvalue → rvalue → decision) (n : nat) (x y : option rvalue) : bool :=
  match x, y with
  | None, None => true
  | Some x, Some y =>
      match n with
      | 0 => true
      | S n =>
          bool_decide (type_of (rv_val x) = type_of (rv_val y)) &&
          match e !! type_of (rv_val x) with
          | Some f => f (rv_val x) (rv_val y)
          | None =>
              match recorded x y with Some (a1, a2) => bool_decide (a1 = a2) | None => false end ||
              match step x y with
              | Answer b | Normal b => b
              | Compare l => forallb (λ p, agree step n p.1 p.2) l
              end
          end
      end
  | _, _ => false
  end.

Section any_step.
Context (step : rvalue → rvalue → decision).

Abbreviation run := (deepValue addr_gt e step).

Lemma all_of_false (rec : option rvalue → option rvalue → list visit → option (outcome bool * list visit)) l V V' :
  all_of rec l V = Some (Ret false, V') →
  ∃ x y W, (x, y) ∈ l ∧ rec x y W = Some (Ret false, V').
Proof.
  revert V; induction l as [|[x y] l IH]; intros V; cbn; [congruence|].
  destruct (rec x y V) as [[[[]|] W]|] eqn:Hr; intros Hl; simplify_eq.
  - destruct (IH _ Hl) as (x' & y' & W' & Hin & Hrec); exists x', y', W'; split; [by right|done].
  - exists x, y, V; split; [by left|done].
Qed.

(** The cases of the common beginning. *)
Lemma enter_inr x y V x' y' V' :
  enter addr_gt e x y V = inr (x', y', V') →
  x = Some x' ∧ y = Some y' ∧ type_of (rv_val x') = type_of (rv_val y') ∧ e !! type_of (rv_val x') = None ∧
  match recorded x' y' with
  | Some (a1, a2) =>
      a1 ≠ a2 ∧ canonical addr_gt a1 a2 (type_of (rv_val x')) ∉ V ∧
      V' = canonical addr_gt a1 a2 (type_of (rv_val x')) :: V
  | None => V' = V
  end.
Proof.
  unfold enter; destruct x as [x|], y as [y|]; try done.
  case_bool_decide; cbn; [|done]; destruct (e !! _) eqn:He; [done|].
  destruct (recorded x y) as [[a1 a2]|] eqn:Hr; [|intros; simplify_eq; by rewrite Hr].
  repeat case_bool_decide; try done; intros; simplify_eq; by rewrite Hr.
Qed.

Lemma enter_false x y V n : enter addr_gt e x y V = inl (Ret false) → agree step (S n) x y = false.
Proof.
  unfold enter; destruct x as [x|], y as [y|]; try done; cbn.
  case_bool_decide; cbn; [|done]; destruct (e !! _) eqn:He.
  - destruct (CanInterface x && CanInterface y); cbn; intros; by simplify_eq.
  - destruct (recorded x y) as [[a1 a2]|]; [|done]; repeat case_bool_decide; done.
Qed.

Lemma enter_true x y V :
  enter addr_gt e x y V = inl (Ret true) →
  (∀ n, agree step n x y = true) ∨
  ∃ x' y' a1 a2, x = Some x' ∧ y = Some y' ∧ type_of (rv_val x') = type_of (rv_val y') ∧
    recorded x' y' = Some (a1, a2) ∧ canonical addr_gt a1 a2 (type_of (rv_val x')) ∈ V.
Proof.
  unfold enter; destruct x as [x|], y as [y|]; try done; cbn; [|left; by intros []].
  case_bool_decide; cbn; [|done]; destruct (e !! _) eqn:He.
  - destruct (CanInterface x && CanInterface y); cbn; intros; simplify_eq; left; intros [|n]; [done|].
    cbn; rewrite He, bool_decide_true by done; done.
  - destruct (recorded x y) as [[a1 a2]|] eqn:Hr; [|done]; case_bool_decide as Ha; [|case_bool_decide; [|done]]; intros _.
    + left; intros [|n]; [done|]; cbn; rewrite He, Hr, !bool_decide_true by done; done.
    + right; by exists x, y, a1, a2.
Qed.

(** A frame that goes on. *)
Lemma agree_step n x y :
  type_of (rv_val x) = type_of (rv_val y) → e !! type_of (rv_val x) = None →
  (∀ a1 a2, recorded x y = Some (a1, a2) → a1 ≠ a2) →
  agree step (S n) (Some x) (Some y) =
  match step x y with Answer b | Normal b => b | Compare l => forallb (λ p, agree step n p.1 p.2) l end.
Proof.
  intros Ht He Hr; cbn; rewrite He, bool_decide_true by done; cbn.
  destruct (recorded x y) as [[a1 a2]|]; [|done]; rewrite bool_decide_false by eauto; done.
Qed.

(** A difference found is a difference there is. *)
Lemma run_false fuel x y V V' : run fuel x y V = Some (Ret false, V') → agree step fuel x y = false.
Proof.
  revert x y V V'; induction fuel as [|fuel IH]; intros x y V V'; [done|]; cbn [deepValue].
  destruct (enter _ _ x y V) as [r|[[x' y'] W]] eqn:Hen.
  { intros; simplify_eq; eauto using enter_false. }
  apply enter_inr in Hen as (-> & -> & Ht & He & Hr); intros Hrun.
  rewrite agree_step by (try done; intros a1 a2 Hrec; rewrite Hrec in Hr; tauto).
  destruct (step x' y') as [b|b|l]; [by simplify_eq| |].
  - by destruct (negb _); simplify_eq.
  - apply all_of_false in Hrun as (x & y & V1 & Hin & Hrun).
    apply not_true_iff_false; rewrite forallb_forall; intros Hall.
    specialize (Hall (x, y) (proj1 (list_elem_of_In _ _) Hin)); cbn in Hall; by rewrite (IH _ _ _ _ Hrun) in Hall.
Qed.

Lemma agree_antitone n x y : agree step (S n) x y = true → agree step n x y = true.
Proof.
  revert x y; induction n as [|n IH]; intros [x|] [y|]; try done.
  intros H; cbn [agree]; remember (S n) as m eqn:Hm; cbn [agree] in H; apply andb_true_iff in H as [-> H]; cbn.
  destruct (e !! _); [done|]; apply orb_true_iff in H as [->|H]; [done|].
  apply orb_true_iff; right; destruct (step x y); try done.
  rewrite forallb_forall in *; intros p Hp; subst m; by apply IH, H.
Qed.

(** *** Cycles *)

(** A value is what its address holds. *)
Definition placed (x : rvalue) : Prop := ∀ a, rv_addr x = Some a → at_addr h a = Some (rv_val x).
Definition oplaced (x : option rvalue) : Prop := ∀ x', x = Some x' → placed x'.

(** What a remembered comparison stands for. *)
Definition holds (n : nat) (v : visit) : Prop :=
  ∀ x y, at_addr h v.1.1 = Some x → at_addr h v.1.2 = Some y →
    agree step n (Some (RV x (Some v.1.1) flagNone)) (Some (RV y (Some v.1.2) flagNone)) = true.

Context (step_placed : ∀ x y l c d,
  placed x → placed y → step x y = Compare l → (c, d) ∈ l → oplaced c ∧ oplaced d).
Context (agree_flag : ∀ n x y f g,
  agree step n (Some x) (Some y) = agree step n (Some (RV (rv_val x) (rv_addr x) f)) (Some (RV (rv_val y) (rv_addr y) g))).
Context (agree_sym : ∀ n x y, oplaced x → oplaced y → agree step n x y = true → agree step n y x = true).

Lemma recorded_addr x y a1 a2 : recorded x y = Some (a1, a2) → rv_addr x = Some a1 ∧ rv_addr y = Some a2.
Proof. unfold recorded; destruct (rv_addr x), (rv_addr y); try done; destruct (hard _); intros; by simplify_eq. Qed.

Lemma holds_recorded n x y a1 a2 t :
  placed x → placed y → recorded x y = Some (a1, a2) →
  holds n (canonical addr_gt a1 a2 t) ↔ agree step n (Some x) (Some y) = true.
Proof.
  intros Hx Hy [H1 H2]%recorded_addr; rewrite (agree_flag n x y flagNone flagNone).
  pose proof (Hx _ H1) as A1; pose proof (Hy _ H2) as A2; rewrite H1, H2.
  unfold canonical, holds; destruct (addr_gt a1 a2); cbn; rewrite A1, A2; split; intros H; intros; simplify_eq; auto;
    apply agree_sym; auto; intros ? [= <-] ? [= <-]; done.
Qed.

Definition sound_run (x y : option rvalue) (V V' : list visit) : Prop :=
  V ⊆ V' ∧ ∀ n, (∀ v, v ∈ V' → holds n v) →
    agree step n x y = true ∧ ∀ v, v ∈ V' → v ∉ V → holds (S n) v.

Lemma all_of_true (rec : option rvalue → option rvalue → list visit → option (outcome bool * list visit)) l V V' :
  (∀ x y W W', (x, y) ∈ l → rec x y W = Some (Ret true, W') → sound_run x y W W') →
  all_of rec l V = Some (Ret true, V') →
  V ⊆ V' ∧ ∀ n, (∀ v, v ∈ V' → holds n v) →
    forallb (λ p, agree step n p.1 p.2) l = true ∧ ∀ v, v ∈ V' → v ∉ V → holds (S n) v.
Proof.
  revert V; induction l as [|[x y] l IH]; intros V Hrec; cbn; [intros; simplify_eq; split; [done|]; naive_solver|].
  destruct (rec x y V) as [[[[]|] W]|] eqn:Hr; intros Hl; simplify_eq.
  destruct (IH W) as [Hsub Hl']; [intros; eapply Hrec; [by right|done]|done|].
  destruct (Hrec x y V W) as [Hsub' Hx]; [by left|done|]; split; [by transitivity W|]; intros n Hn.
  destruct (Hl' n Hn) as [-> Hnew]; destruct (Hx n) as [-> Hnew']; [naive_solver|]; split; [done|].
  intros v Hv Hv'; destruct (decide (v ∈ W)); auto.
Qed.

Lemma run_true fuel x y V V' :
  oplaced x → oplaced y → run fuel x y V = Some (Ret true, V') → sound_run x y V V'.
Proof.
  revert x y V V'; induction fuel as [|fuel IH]; intros x y V V' Hx Hy; [done|]; cbn [deepValue].
  destruct (enter _ _ x y V) as [r|[[x' y'] W]] eqn:Hen.
  { intros; simplify_eq; split; [done|]; intros n Hn; split; [|naive_solver].
    apply enter_true in Hen as [Hen|(x' & y' & a1 & a2 & -> & -> & Ht & Hr & Hin)]; [done|].
    eapply holds_recorded; eauto. }
  apply enter_inr in Hen as (-> & -> & Ht & He & Hr); specialize (Hx _ eq_refl); specialize (Hy _ eq_refl); intros Hrun.
  assert (W ⊆ V' ∧ ∀ n, (∀ v, v ∈ V' → holds n v) →
    agree step (S n) (Some x') (Some y') = true ∧ ∀ v, v ∈ V' → v ∉ W → holds (S n) v) as [Hsub Hn].
  { setoid_rewrite agree_step; try done; [|intros a1 a2 Hrec; rewrite Hrec in Hr; tauto].
    destruct (step x' y') as [b|b|l] eqn:Hst; [simplify_eq; naive_solver| |].
    - destruct (negb _); simplify_eq; naive_solver.
    - eapply all_of_true; [|done]; intros c d U U' Hin Hc; destruct (step_placed _ _ _ _ _ Hx Hy Hst Hin); eauto. }
  destruct (recorded x' y') as [[a1 a2]|] eqn:Hrec; [destruct Hr as (Hne & Hnew & ->)|subst W].
  - split; [set_solver|]; intros n Hv; destruct (Hn n Hv) as [Ha Hv']; split; [by apply agree_antitone|].
    intros v Hin Hout; destruct (decide (v = canonical addr_gt a1 a2 (type_of (rv_val x')))) as [->|Hneq].
    + apply (holds_recorded (S n) x' y' a1 a2 _ Hx Hy Hrec), Ha.
    + apply Hv'; [done|]; by intros [->|?]%elem_of_cons.
  - split; [done|]; intros n Hv; destruct (Hn n Hv); split; [by apply agree_antitone|done].
Qed.

(** Started with nothing in progress. *)
Lemma run_agrees fuel x y b V' :
  oplaced x → oplaced y → run fuel x y [] = Some (Ret b, V') → b = true ↔ ∀ n, agree step n x y = true.
Proof.
  intros Hx Hy Hrun; destruct b; split; try done.
  - intros _; destruct (run_true _ _ _ _ _ Hx Hy Hrun) as [_ Hs].
    assert (∀ n v, v ∈ V' → holds n v) as Hall; [|intros n; exact (proj1 (Hs n (Hall n)))].
    induction n as [|n IH]; [done|]; intros v Hv; apply (proj2 (Hs n IH) v Hv), not_elem_of_nil.
  - intros Hn; specialize (Hn fuel); by rewrite (run_false _ _ _ _ _ Hrun) in Hn.
Qed.
End any_step.

(** *** The switches *)

Definition erase (x : rvalue) : rvalue := RV (rv_val x) (rv_addr x) flagNone.
Definition oerase (x : option rvalue) : option rvalue := erase <$> x.
Definition erase_pair (p : option rvalue * option rvalue) : option rvalue * option rvalue := (oerase p.1, oerase p.2).
Definition erase_decision (d : decision) : decision :=
  match d with Compare l => Compare (erase_pair <$> l) | d => d end.

Lemma erase_zip (l k : list (option rvalue)) : erase_pair <$> zip l k = zip (oerase <$> l) (oerase <$> k).
Proof. revert k; induction l as [|x l IH]; intros [|y k]; cbn; [done..|]; by rewrite <- IH. Qed.

Lemma erase_array x l : oerase <$> array_elems x l = oerase <$> array_elems (erase x) l.
Proof. unfold array_elems; rewrite !fmap_imap; done. Qed.

Lemma erase_struct x l : oerase <$> struct_fields x l = oerase <$> struct_fields (erase x) l.
Proof. unfold struct_fields; rewrite !fmap_imap; done. Qed.

Lemma erase_elem_at a f g : oerase (elem_at h a f) = oerase (elem_at h a g).
Proof. unfold elem_at; destruct (at_addr h a); done. Qed.

Lemma erase_map_index f g m k : oerase (map_index h f m k) = oerase (map_index h g m k).
Proof. unfold map_index; destruct (map_at h m !! k); done. Qed.

Lemma erase_slices x y d1 d2 :
  erase_pair <$> slice_pairs h x y d1 d2 = erase_pair <$> slice_pairs h (erase x) (erase y) d1 d2.
Proof.
  unfold slice_pairs; rewrite <- !list_fmap_compose; apply list_fmap_ext; intros i j _; unfold compose, erase_pair; cbn.
  f_equal; apply erase_elem_at.
Qed.

Lemma erase_maps x y m1 m2 :
  erase_pair <$> map_pairs h MapKeys x y m1 m2 = erase_pair <$> map_pairs h MapKeys (erase x) (erase y) m1 m2.
Proof.
  unfold map_pairs; rewrite <- !list_fmap_compose; apply list_fmap_ext; intros i k _; unfold compose, erase_pair; cbn.
  f_equal; apply erase_map_index.
Qed.

Lemma erase_ptr x p : oerase (ptr_elem h x p) = oerase (ptr_elem h (erase x) p).
Proof. destruct p; [apply erase_elem_at|done]. Qed.

Lemma erase_one (x y : option rvalue) : erase_pair <$> [(x, y)] = [(oerase x, oerase y)].
Proof. done. Qed.

Ltac erase_case x y :=
  repeat case_match; try done; cbn [erase_decision];
  first
    [ by rewrite (erase_slices x y)
    | by rewrite (erase_maps x y)
    | by rewrite !erase_zip, (erase_array x), (erase_array y)
    | by rewrite !erase_zip, (erase_struct x), (erase_struct y)
    | by rewrite !erase_one, (erase_ptr x), (erase_ptr y)
    | idtac ].

Lemma equal_step_erase x y :
  erase_decision (equal_step h MapKeys x y) = erase_decision (equal_step h MapKeys (erase x) (erase y)).
Proof.
  unfold equal_step; cbn [rv_val erase]; destruct (rv_val x) eqn:Hx, (rv_val y) eqn:Hy; try done; erase_case x y.
Qed.

Abbreviation same := (agree (equal_step h MapKeys)).

Lemma forallb_erase n l :
  (∀ x y, same n x y = same n (oerase x) (oerase y)) →
  forallb (λ p, same n p.1 p.2) l = forallb (λ p, same n p.1 p.2) (erase_pair <$> l).
Proof. intros H; induction l as [|[x y] l IH]; [done|]; cbn; by rewrite H, IH. Qed.

Lemma same_erase n x y : same n x y = same n (oerase x) (oerase y).
Proof.
  revert x y; induction n as [|n IH]; intros [x|] [y|]; try done; cbn [agree oerase fmap option_fmap option_map].
  change (rv_val (erase x)) with (rv_val x); change (rv_val (erase y)) with (rv_val y).
  change (recorded (erase x) (erase y)) with (recorded x y).
  f_equal; destruct (e !! _); [done|]; f_equal.
  pose proof (equal_step_erase x y) as Hst.
  destruct (equal_step h MapKeys x y) as [| |l], (equal_step h MapKeys (erase x) (erase y)) as [| |k]; cbn in Hst; simplify_eq; try done.
  by rewrite (forallb_erase n l IH), (forallb_erase n k IH), Hst.
Qed.

Lemma same_flag n x y f g :
  same n (Some x) (Some y) = same n (Some (RV (rv_val x) (rv_addr x) f)) (Some (RV (rv_val y) (rv_addr y) g)).
Proof. by rewrite same_erase, (same_erase n (Some (RV _ _ f))). Qed.

(** *** Places *)

Lemma at_addr_child a i : at_addr h (a.1, a.2 ++ [i]) = at_addr h a ≫= λ v, child v i.
Proof.
  unfold at_addr; cbn; destruct (h_objects h !! a.1) as [v|]; [|done]; cbn.
  revert v; induction (a.2) as [|j p IH]; intros v; cbn; [destruct (child v i); done|].
  destruct (child v j); [apply IH|done].
Qed.

Lemma sub_placed x i v f : placed x → child (rv_val x) i = Some v → placed (RV v (sub_addr x i) f).
Proof.
  intros Hx Hc a; unfold sub_addr; cbn; destruct (rv_addr x) as [b|] eqn:Hb; [|done]; intros [= <-].
  by rewrite at_addr_child, (Hx b Hb).
Qed.

Lemma array_placed x t l c : placed x → rv_val x = VArray t l → c ∈ array_elems x l → oplaced c.
Proof.
  intros Hx Hv (i & v & -> & Hl)%elem_of_lookup_imap_1 ? [= <-]; apply sub_placed; [done|]; by rewrite Hv.
Qed.

Lemma struct_placed x t l c : placed x → rv_val x = VStruct t l → c ∈ struct_fields x l → oplaced c.
Proof.
  intros Hx Hv (i & v & -> & Hl)%elem_of_lookup_imap_1 ? [= <-]; apply sub_placed; [done|]; rewrite Hv; cbn; by rewrite Hl.
Qed.

Lemma elem_at_placed a f : oplaced (elem_at h a f).
Proof. unfold elem_at; destruct (at_addr h a) as [v|] eqn:Ha; [|done]; intros ? [= <-] ? [= <-]; done. Qed.

Lemma map_index_placed f m k : oplaced (map_index h f m k).
Proof. unfold map_index; destruct (map_at h m !! k); [|done]; by intros ? [= <-] ?. Qed.

Lemma ptr_placed x p : oplaced (ptr_elem h x p).
Proof. destruct p; [apply elem_at_placed|done]. Qed.

Lemma iface_placed x v : oplaced (iface_elem x v).
Proof. by intros ? [= <-] ?. Qed.

Lemma zip_placed (l k : list (option rvalue)) c d :
  (∀ x, x ∈ l → oplaced x) → (∀ x, x ∈ k → oplaced x) → (c, d) ∈ zip l k → oplaced c ∧ oplaced d.
Proof. intros Hl Hk Hin; split; [apply Hl|apply Hk]; [by eapply elem_of_zip_l|by eapply elem_of_zip_r]. Qed.

Lemma equal_step_placed x y l c d :
  placed x → placed y → equal_step h MapKeys x y = Compare l → (c, d) ∈ l → oplaced c ∧ oplaced d.
Proof.
  intros Hx Hy; unfold equal_step; destruct (rv_val x) eqn:Ex, (rv_val y) eqn:Ey; try done;
    repeat case_match; intros Hl Hin; simplify_eq.
  - eapply zip_placed, Hin; intros ?; by apply array_placed with (t := t) + by eapply array_placed.
  - eapply zip_placed, Hin; intros ?; by eapply struct_placed.
  - apply list_elem_of_fmap in Hin as (i & [= -> ->] & _); split; apply elem_at_placed.
  - apply list_elem_of_fmap in Hin as (i & [= -> ->] & _); split; apply map_index_placed.
  - apply list_elem_of_singleton in Hin as [= -> ->]; split; apply iface_placed.
  - apply list_elem_of_singleton in Hin as [= -> ->]; split; apply ptr_placed.
Qed.

(** *** Symmetry *)

Context (e_sym : ∀ t f v w, e !! t = Some f → f v w = true → f w v = true).
Context (MapKeys_spec : ∀ m k, k ∈ MapKeys m ↔ is_Some (m !! k)).

Lemma recorded_swap x y : placed x → placed y →
  match recorded x y with Some (a1, a2) => bool_decide (a1 = a2) | None => false end =
  match recorded y x with Some (a1, a2) => bool_decide (a1 = a2) | None => false end.
Proof.
  intros Hx Hy; unfold recorded.
  destruct (rv_addr x) as [a|] eqn:Ha, (rv_addr y) as [b|] eqn:Hb; try done.
  destruct (decide (a = b)) as [<-|Hne].
  - specialize (Hx _ Ha); specialize (Hy _ Hb); assert (rv_val x = rv_val y) as -> by congruence; done.
  - destruct (hard (rv_val x)), (hard (rv_val y)); rewrite ?bool_decide_false by done; done.
Qed.

(** Maps of one size, the first inside the second, have the same keys. *)
Lemma same_keys (m1 m2 : gmap string value) :
  size m1 = size m2 → (∀ k, is_Some (m1 !! k) → is_Some (m2 !! k)) → ∀ k, is_Some (m2 !! k) → is_Some (m1 !! k).
Proof.
  intros Hs Hsub k; rewrite <- !elem_of_dom.
  assert (dom m1 = dom m2) as ->; [|done].
  apply set_subseteq_size_eq; [intros j; rewrite !elem_of_dom; apply Hsub|]; rewrite !size_dom; lia.
Qed.

Definition swappable (n : nat) : Prop := ∀ x y, oplaced x → oplaced y → same n x y = true → same n y x = true.

Lemma forallb_swap n l k :
  swappable n → (∀ c d, (c, d) ∈ l → oplaced c ∧ oplaced d) →
  (∀ c d, (c, d) ∈ k → ∃ c' d', (d', c') ∈ l ∧ oerase c' = oerase c ∧ oerase d' = oerase d) →
  forallb (λ p, same n p.1 p.2) l = true → forallb (λ p, same n p.1 p.2) k = true.
Proof.
  intros Hn Hl Hk Hall; apply forallb_forall; intros [c d] Hin; cbn.
  apply list_elem_of_In in Hin; destruct (Hk c d Hin) as (c' & d' & Hin' & Hc & Hd).
  rewrite same_erase, <- Hc, <- Hd, <- same_erase; destruct (Hl _ _ Hin'); apply Hn; [done..|].
  apply list_elem_of_In in Hin'; by apply (proj1 (forallb_forall _ _) Hall (d', c')).
Qed.

Lemma zip_swap {A} (l k : list A) c d : (c, d) ∈ zip k l → (d, c) ∈ zip l k.
Proof.
  revert k; induction l as [|x l IH]; intros [|y k]; cbn; try (by intros ?%not_elem_of_nil).
  intros [[= -> ->]|Hin]%elem_of_cons; [by left|right; auto].
Qed.

Lemma slice_swap x y d1 d2 c d : d1.2 = d2.2 → (c, d) ∈ slice_pairs h y x d2 d1 → (d, c) ∈ slice_pairs h x y d1 d2.
Proof.
  unfold slice_pairs; intros ->; intros (i & [= -> ->] & Hi)%list_elem_of_fmap; apply list_elem_of_fmap; by exists i.
Qed.

(** If the elements of the first map agree, the second has no other keys. *)
Lemma map_swap n x y m1 m2 c d :
  size (map_at h m1) = size (map_at h m2) →
  forallb (λ p, same n p.1 p.2) (map_pairs h MapKeys x y m1 m2) = true →
  (c, d) ∈ map_pairs h MapKeys y x m2 m1 →
  ∃ c' d', (d', c') ∈ map_pairs h MapKeys x y m1 m2 ∧ oerase c' = oerase c ∧ oerase d' = oerase d.
Proof.
  intros Hs Hall (k & [= -> ->] & Hk)%list_elem_of_fmap; apply MapKeys_spec in Hk.
  rewrite forallb_forall in Hall.
  assert (k ∈ MapKeys (map_at h m1)) as Hk1.
  { apply MapKeys_spec, (same_keys _ _ Hs); [|done]; intros j Hj.
    apply MapKeys_spec in Hj as Hj'; eapply list_elem_of_fmap_2 in Hj'; specialize (Hall _ (proj1 (list_elem_of_In _ _) Hj')).
    destruct Hj as [v Hj]; cbn in Hall; unfold map_index in Hall; rewrite Hj in Hall.
    destruct (map_at h m2 !! j); [done|]; by destruct n. }
  eexists _, _; split; [apply list_elem_of_fmap; by exists k|]; split; apply erase_map_index.
Qed.

Definition answer (n : nat) (d : decision) : bool :=
  match d with Answer b | Normal b => b | Compare l => forallb (λ p, same n p.1 p.2) l end.

Lemma equal_step_swap n x y :
  swappable n → placed x → placed y →
  answer n (equal_step h MapKeys x y) = true → answer n (equal_step h MapKeys y x) = true.
Proof.
  intros Hn Hx Hy; pose proof (λ l c d, equal_step_placed x y l c d Hx Hy) as Hp; revert Hp.
  unfold equal_step; destruct (rv_val x) eqn:Ex, (rv_val y) eqn:Ey; try done; intros Hp.
  - cbn; unfold base_eq; repeat case_match; try done; intros ->%bool_decide_eq_true; by apply bool_decide_eq_true.
  - cbn; intros ->%bool_decide_eq_true; by apply bool_decide_eq_true.
  - cbn; rewrite !andb_true_iff; tauto.
  - cbn; apply forallb_swap; [done|eauto|]; intros c d Hin; exists c, d; eauto using zip_swap.
  - cbn; apply forallb_swap; [done|eauto|]; intros c d Hin; exists c, d; eauto using zip_swap.
  - destruct (slice_len data =? 0), (slice_len data0 =? 0); try done; cbn [Bool.eqb negb].
    rewrite (Nat.eqb_sym (slice_len data0)); destruct (slice_len data =? slice_len data0) eqn:Hl; [|done]; cbn [negb].
    destruct data as [d1|], data0 as [d2|]; try done.
    destruct (decide (d1.1 = d2.1)); [by rewrite !bool_decide_true|]; rewrite !bool_decide_false in * by done.
    apply Nat.eqb_eq in Hl; apply forallb_swap; [done|eauto|]; intros c d Hin; exists c, d; eauto using slice_swap.
  - destruct (map_len h data =? 0), (map_len h data0 =? 0); try done; cbn [Bool.eqb negb].
    rewrite (Nat.eqb_sym (map_len h data0)); destruct (map_len h data =? map_len h data0) eqn:Hl; [|done]; cbn [negb].
    destruct data as [m1|], data0 as [m2|]; try done.
    rewrite (Nat.eqb_sym m2); destruct (m1 =? m2); [done|].
    apply Nat.eqb_eq in Hl; cbn; intros Hall.
    pose proof (λ c d, map_swap n x y m1 m2 c d Hl Hall) as Hsw; revert Hall; apply forallb_swap; eauto.
  - destruct elem, elem0; try done; cbn [answer].
    apply forallb_swap; [done|eauto|]; intros c d [= -> ->]%list_elem_of_singleton; eexists _, _; split; [by left|done].
  - cbn [answer].
    apply forallb_swap; [done|eauto|]; intros c d [= -> ->]%list_elem_of_singleton; eexists _, _; split; [by left|done].
Qed.

Lemma same_sym n : swappable n.
Proof.
  induction n as [|n IH]; intros [x|] [y|] Hx Hy; try done; cbn [agree].
  specialize (Hx _ eq_refl); specialize (Hy _ eq_refl).
  intros [Ht%bool_decide_eq_true H]%andb_true_iff; rewrite bool_decide_true by done; cbn; rewrite <- Ht.
  destruct (e !! type_of (rv_val x)) eqn:He; [eauto|].
  rewrite (recorded_swap y x) by done; apply orb_true_iff in H as [->|H]; [done|].
  apply orb_true_iff; right; by apply (equal_step_swap n x y IH Hx Hy).
Qed.

(** An answer of DeepEqual is that of every comparison to a finite depth made without the
    set of comparisons in progress, also with functions for some types, which have to be
    symmetric since the entries of the set are unordered pairs. *)
Lemma DeepEqual_agrees fuel a1 a2 b :
  DeepEqual h addr_gt MapKeys e fuel a1 a2 = Some (Ret b) →
  b = true ↔ ∀ n, same n ((λ v, RV v None flagNone) <$> a1) ((λ v, RV v None flagNone) <$> a2) = true.
Proof.
  unfold DeepEqual; destruct a1 as [v1|], a2 as [v2|]; try (intros [= <-]; split; [done|]; intros Hn; apply (Hn 0)).
  - case_bool_decide as Ht; cbn [negb].
    + destruct (deepValueEqual _ _ _ _ _ _ _ _) as [[r V]|] eqn:Hrun; [|done]; intros [= ->].
      eapply run_agrees, Hrun; try (by intros ? [= <-] ?); [|apply same_flag|apply same_sym].
      intros *; apply equal_step_placed.
    + intros [= <-]; split; [done|]; intros Hn; specialize (Hn 1); cbn in Hn; by rewrite bool_decide_false in Hn.
  - intros [= <-]; split; [by intros _ []|done].
Qed.
End answers.

(** ** Unfolding *)

(** What a value looks like down to a depth: references are followed, nil slices and maps
    are empty, and no address is left. *)
Inductive tree :=
  | TInvalid
  | TCut
  | TLeaf (v : value)
  | TArray (t : string) (elems : list tree)
  | TStruct (t : string) (fields : list tree)
  | TSlice (t : string) (elems : list tree)
  | TMap (t : string) (elems : list (string * tree))
  | TIface (t : string) (elem : option tree)
  | TPtr (t : string) (elem : tree).

Section unfolding.
Context (h : heap) (addr_gt : addr → addr → bool) (MapKeys : gmap string value → list string).
Context (MapKeys_spec : ∀ m k, k ∈ MapKeys m ↔ is_Some (m !! k)).

Definition slice_place (d : addr * nat * nat) (i : nat) : addr := (d.1.1.1, d.1.1.2 ++ [d.1.2 + i]).

Fixpoint unfolding (n : nat) (x : option value) : tree :=
  match x, n with
  | None, _ => TInvalid
  | Some _, 0 => TCut
  | Some v, S n =>
      match v with
      | VBase _ _ | VString _ _ | VFunc _ _ => TLeaf v
      | VArray t l => TArray t ((λ v, unfolding n (Some v)) <$> l)
      | VStruct t l => TStruct t ((λ f, unfolding n (Some f.2)) <$> l)
      | VSlice t d => TSlice t (match d with Some d => (λ i, unfolding n (at_addr h (slice_place d i))) <$> seq 0 d.2 | None => [] end)
      | VMap t d => TMap t (match d with Some m => map_to_list ((λ v, unfolding n (Some v)) <$> map_at h m) | None => [] end)
      | VIface t v => TIface t ((λ v, unfolding n (Some v)) <$> v)
      | VPtr t p => TPtr t (unfolding n (p ≫= at_addr h))
      end
  end.

(** Values of which [==] is reflexive (no NaN, no function but nil), arrays and structs
    with as many parts as their types say. *)
Context (arity : string → nat).

Fixpoint clean (v : value) : bool :=
  match v with
  | VBase _ v => bool_decide (is_Some v)
  | VFunc _ f => bool_decide (f = None)
  | VArray t l => (length l =? arity t) && forallb clean l
  | VStruct t l => (length l =? arity t) && forallb (λ f, clean f.2) l
  | VIface _ (Some v) => clean v
  | _ => true
  end.

Definition clean_heap : Prop :=
  map_Forall (λ _ v, clean v = true) (h_objects h) ∧
  map_Forall (λ _ m, map_Forall (λ _ v, clean v = true) m) (h_maps h).

Context (heap_clean : clean_heap).

Lemma child_clean v i w : clean v = true → child v i = Some w → clean w = true.
Proof.
  destruct v; try done; cbn; intros [_ Hc]%andb_true_iff; rewrite forallb_forall in Hc.
  - intros Hi%list_elem_of_lookup_2%list_elem_of_In; auto.
  - intros (f & Hi%list_elem_of_lookup_2%list_elem_of_In & ->)%fmap_Some; by apply Hc.
Qed.

Lemma at_addr_clean a v : at_addr h a = Some v → clean v = true.
Proof.
  unfold at_addr; intros (w & Hw & Hv)%bind_Some; apply (proj1 heap_clean) in Hw; revert w Hw Hv.
  induction (a.2) as [|i p IH]; cbn; intros w Hw Hv; [by simplify_eq|].
  apply bind_Some in Hv as (u & Hu & Hv); eauto using child_clean.
Qed.

Lemma map_at_clean m k v : map_at h m !! k = Some v → clean v = true.
Proof.
  unfold map_at; destruct (h_maps h !! m) as [c|] eqn:Hm; cbn; [|by rewrite lookup_empty].
  apply (proj2 heap_clean _ _ Hm).
Qed.

Definition good (x : option rvalue) : Prop := ∀ x', x = Some x' → placed h x' ∧ clean (rv_val x') = true.
Definition oval (x : option rvalue) : option value := rv_val <$> x.

Abbreviation same := (agree ∅ (equal_step h MapKeys)).

Definition agrees_unfolding (n : nat) : Prop :=
  ∀ x y, good x → good y → same n x y = true ↔ unfolding n (oval x) = unfolding n (oval y).

Lemma zip_unfolding n l k :
  agrees_unfolding n → length l = length k → Forall good l → Forall good k →
  forallb (λ p, same n p.1 p.2) (zip l k) = true ↔ (λ x, unfolding n (oval x)) <$> l = (λ x, unfolding n (oval x)) <$> k.
Proof.
  intros Hn; revert k; induction l as [|x l IH]; intros [|y k] Hl Gl Gk; try done.
  inversion_clear Gl; inversion_clear Gk; cbn in *; rewrite andb_true_iff, (Hn x y), IH by (done || lia); split; [by intros [-> ->]|].
  intros [=]; done.
Qed.

Lemma array_good x t l : good (Some x) → rv_val x = VArray t l → Forall good (array_elems x l).
Proof.
  intros Hx Hv; destruct (Hx _ eq_refl) as [Hp Hc]; apply Forall_forall; intros c Hin y ->.
  split; [by eapply (array_placed h x t l (Some y))|].
  apply elem_of_lookup_imap_1 in Hin as (i & v & [= ->] & Hi); eapply child_clean; [done|]; by rewrite Hv.
Qed.

Lemma struct_good x t l : good (Some x) → rv_val x = VStruct t l → Forall good (struct_fields x l).
Proof.
  intros Hx Hv; destruct (Hx _ eq_refl) as [Hp Hc]; apply Forall_forall; intros c Hin y ->.
  split; [by eapply (struct_placed h x t l (Some y))|].
  apply elem_of_lookup_imap_1 in Hin as (i & v & [= ->] & Hi); eapply child_clean; [done|]; rewrite Hv; cbn; by rewrite Hi.
Qed.

Lemma elem_at_good a f : good (elem_at h a f).
Proof.
  intros x Hx; split; [by eapply elem_at_placed|]; unfold elem_at in Hx; apply fmap_Some in Hx as (v & Hv & ->); eauto using at_addr_clean.
Qed.

Lemma map_index_good f m k : good (map_index h f m k).
Proof.
  intros x Hx; split; [by eapply map_index_placed|]; unfold map_index in Hx; apply fmap_Some in Hx as (v & Hv & ->); eauto using map_at_clean.
Qed.

Lemma oval_elem_at a f : oval (elem_at h a f) = at_addr h a.
Proof. unfold oval, elem_at; by destruct (at_addr h a). Qed.

Lemma oval_map_index f m k : oval (map_index h f m k) = map_at h m !! k.
Proof. unfold oval, map_index; by destruct (map_at h m !! k). Qed.

Lemma array_vals n x l : (λ x, unfolding n (oval x)) <$> array_elems x l = (λ v, unfolding n (Some v)) <$> l.
Proof. unfold array_elems; rewrite fmap_imap, <- imap_const; done. Qed.

Lemma struct_vals n x l : (λ x, unfolding n (oval x)) <$> struct_fields x l = (λ f, unfolding n (Some f.2)) <$> l.
Proof. unfold struct_fields; rewrite fmap_imap, <- imap_const; done. Qed.

Lemma slice_vals n x d k :
  (λ x, unfolding n (oval x)) <$> (slice_elem h x d <$> seq 0 k) = (λ i, unfolding n (at_addr h (slice_place d i))) <$> seq 0 k.
Proof. rewrite <- list_fmap_compose; apply list_fmap_ext; intros i j _; cbn; by rewrite <- (oval_elem_at _ (ro (rv_flag x))). Qed.

Lemma slice_pairs_zip x y d1 d2 :
  slice_pairs h x y d1 d2 = zip (slice_elem h x d1 <$> seq 0 d1.2) (slice_elem h y d2 <$> seq 0 d1.2).
Proof. unfold slice_pairs; generalize (seq 0 d1.2); intros l; induction l; cbn; congruence. Qed.

Lemma slices_good x d k : Forall good (slice_elem h x d <$> seq 0 k).
Proof. apply Forall_forall; intros c (i & -> & _)%list_elem_of_fmap; apply elem_at_good. Qed.

Lemma slice_unfolding n x y d1 d2 :
  agrees_unfolding n → d1.2 = d2.2 →
  forallb (λ p, same n p.1 p.2) (slice_pairs h x y d1 d2) = true ↔
  (λ i, unfolding n (at_addr h (slice_place d1 i))) <$> seq 0 d1.2 = (λ i, unfolding n (at_addr h (slice_place d2 i))) <$> seq 0 d2.2.
Proof.
  intros Hn Hl; rewrite slice_pairs_zip, (zip_unfolding n) by (try apply slices_good; rewrite ?length_fmap; done).
  by rewrite !slice_vals, Hl.
Qed.

Lemma unfolding_Some n v : unfolding n (Some v) ≠ unfolding n None.
Proof. destruct n; [done|]; by destruct v. Qed.

(** Maps of the same size whose values agree at the keys of the first. *)
Lemma map_unfolding n x y m1 m2 :
  agrees_unfolding n →
  size (map_at h m1) = size (map_at h m2) ∧ forallb (λ p, same n p.1 p.2) (map_pairs h MapKeys x y m1 m2) = true ↔
  (λ v, unfolding n (Some v)) <$> map_at h m1 = (λ v, unfolding n (Some v)) <$> map_at h m2.
Proof.
  intros Hn.
  assert (forallb (λ p, same n p.1 p.2) (map_pairs h MapKeys x y m1 m2) = true ↔
    ∀ k, is_Some (map_at h m1 !! k) → unfolding n (map_at h m1 !! k) = unfolding n (map_at h m2 !! k)) as ->.
  { rewrite forallb_forall; setoid_rewrite <- list_elem_of_In; unfold map_pairs; setoid_rewrite list_elem_of_fmap; split.
    - intros H k Hk; specialize (H _ (ex_intro _ k (conj eq_refl (proj2 (MapKeys_spec _ k) Hk)))); cbn in H.
      apply Hn in H; [|apply map_index_good..]; by rewrite !oval_map_index in H.
    - intros H p (k & -> & Hk); cbn; apply Hn; [apply map_index_good..|]; rewrite !oval_map_index; by apply H, MapKeys_spec. }
  split.
  - intros [Hs H]; apply map_eq; intros k; rewrite !lookup_fmap.
    destruct (map_at h m1 !! k) as [v|] eqn:H1.
    + specialize (H k); rewrite H1 in H; destruct (map_at h m2 !! k); [cbn; f_equal; by apply H|].
      by apply unfolding_Some in H.
    + destruct (map_at h m2 !! k) eqn:H2; [|done]; exfalso.
      assert (is_Some (map_at h m1 !! k)) as [? ?]; [|congruence].
      apply (same_keys _ _ Hs); [|by eexists]; intros j [w Hj]; specialize (H j); rewrite Hj in H.
      destruct (map_at h m2 !! j); [done|]; by apply unfolding_Some in H.
  - intros H; split; [by rewrite <- (map_size_fmap (λ v, unfolding n (Some v)) (map_at h m1)), H, map_size_fmap|].
    intros k [v Hk]; apply (f_equal (.!! k)) in H; rewrite !lookup_fmap, Hk in H; rewrite Hk.
    destruct (map_at h m2 !! k); cbn in H; congruence.
Qed.

Lemma map_elems_nil n d :
  map_len h d = 0 → match d with Some m => map_to_list ((λ v, unfolding n (Some v)) <$> map_at h m) | None => [] end = [].
Proof. destruct d as [m|]; [|done]; cbn; intros ->%map_size_empty_inv; by rewrite fmap_empty, map_to_list_empty. Qed.

Lemma map_to_list_eq (m m' : gmap string tree) : map_to_list m = map_to_list m' ↔ m = m'.
Proof. split; [intros H; apply map_to_list_inj; by rewrite H|by intros ->]. Qed.

Lemma oval_ptr x p : oval (ptr_elem h x p) = p ≫= at_addr h.
Proof. destruct p; [apply oval_elem_at|done]. Qed.

Lemma ptr_good x p : good (ptr_elem h x p).
Proof. destruct p; [apply elem_at_good|done]. Qed.

Abbreviation ans := (answer h MapKeys ∅).

Lemma slice_case n x y t d1 d2 :
  agrees_unfolding n → rv_val x = VSlice t d1 → rv_val y = VSlice t d2 →
  ans n (equal_step h MapKeys x y) = true ↔
  unfolding (S n) (Some (VSlice t d1)) = unfolding (S n) (Some (VSlice t d2)).
Proof.
  intros Hn Hx Hy; unfold equal_step; rewrite Hx, Hy; cbn [unfolding].
  assert (∀ (l k : list tree), TSlice t l = TSlice t k ↔ l = k) as -> by (split; congruence).
  destruct (decide (slice_len d1 = slice_len d2)) as [Hl|Hl].
  - rewrite <- Hl, Nat.eqb_refl, Bool.eqb_reflx; cbn [negb].
    destruct (slice_len d1 =? 0) eqn:H0; [apply Nat.eqb_eq in H0|apply Nat.eqb_neq in H0].
    + rewrite H0 in Hl; destruct d1 as [d1|], d2 as [d2|]; cbn in H0, Hl; rewrite ?H0, <- ?Hl; done.
    + destruct d1 as [d1|], d2 as [d2|]; cbn in H0, Hl; try done; case_bool_decide as Hp; [|by apply slice_unfolding].
      cbn; rewrite Hl; unfold slice_place; by rewrite Hp.
  - split.
    + assert (slice_len d1 =? slice_len d2 = false) as -> by (by apply Nat.eqb_neq).
      destruct (slice_len d1 =? 0) eqn:H1, (slice_len d2 =? 0) eqn:H2; try done.
      apply Nat.eqb_eq in H1, H2; lia.
    + intros H%(f_equal length); destruct Hl; destruct d1, d2; cbn in *; by rewrite ?length_fmap, ?length_seq in H.
Qed.

Lemma map_case n x y t d1 d2 :
  agrees_unfolding n → rv_val x = VMap t d1 → rv_val y = VMap t d2 →
  ans n (equal_step h MapKeys x y) = true ↔
  unfolding (S n) (Some (VMap t d1)) = unfolding (S n) (Some (VMap t d2)).
Proof.
  intros Hn Hx Hy; unfold equal_step; rewrite Hx, Hy; cbn [unfolding].
  assert (∀ (l k : list (string * tree)), TMap t l = TMap t k ↔ l = k) as -> by (split; congruence).
  destruct (decide (map_len h d1 = map_len h d2)) as [Hl|Hl].
  - rewrite <- Hl, Nat.eqb_refl, Bool.eqb_reflx; cbn [negb].
    destruct (map_len h d1 =? 0) eqn:H0; [apply Nat.eqb_eq in H0|apply Nat.eqb_neq in H0].
    + rewrite H0 in Hl; symmetry in Hl; cbn [answer]; rewrite (map_elems_nil n d1 H0), (map_elems_nil n d2 Hl); done.
    + destruct d1 as [m1|], d2 as [m2|]; cbn in H0, Hl; try done.
      rewrite map_to_list_eq, <- (map_unfolding n x y m1 m2 Hn).
      destruct (m1 =? m2) eqn:Hm; [|cbn; tauto]; apply Nat.eqb_eq in Hm as <-; split; [|done].
      intros _; rewrite (map_unfolding n x y m1 m1 Hn); done.
  - split.
    + assert (map_len h d1 =? map_len h d2 = false) as -> by (by apply Nat.eqb_neq).
      destruct (map_len h d1 =? 0) eqn:H1, (map_len h d2 =? 0) eqn:H2; try done.
      apply Nat.eqb_eq in H1, H2; lia.
    + intros H%(f_equal length); destruct Hl; destruct d1, d2; cbn in *; by rewrite ?length_map_to_list, ?map_size_fmap in H.
Qed.

Lemma step_unfolding n x y :
  agrees_unfolding n → good (Some x) → good (Some y) → type_of (rv_val x) = type_of (rv_val y) →
  ans n (equal_step h MapKeys x y) = true ↔
  unfolding (S n) (Some (rv_val x)) = unfolding (S n) (Some (rv_val y)).
Proof.
  intros Hn Gx Gy; destruct (Gx _ eq_refl) as [_ Cx], (Gy _ eq_refl) as [_ Cy]; revert Cx Cy.
  destruct (rv_val x) eqn:Ex, (rv_val y) eqn:Ey; try (unfold equal_step; rewrite Ex, Ey; done);
    cbn [type_of clean]; intros Cx Cy <-; try (by apply slice_case); try (by apply map_case);
    unfold equal_step; rewrite Ex, Ey; cbn [unfolding answer].
  - apply bool_decide_eq_true in Cx as [a ->], Cy as [b ->]; cbn; rewrite bool_decide_eq_true; split; congruence.
  - rewrite bool_decide_eq_true; split; congruence.
  - apply bool_decide_eq_true in Cx as ->, Cy as ->; done.
  - apply andb_true_iff in Cx as [Lx%Nat.eqb_eq _], Cy as [Ly%Nat.eqb_eq _].
    rewrite (zip_unfolding n), !array_vals; eauto using array_good; [split; congruence|].
    unfold array_elems; rewrite !length_imap; congruence.
  - apply andb_true_iff in Cx as [Lx%Nat.eqb_eq _], Cy as [Ly%Nat.eqb_eq _].
    rewrite (zip_unfolding n), !struct_vals; eauto using struct_good; [split; congruence|].
    unfold struct_fields; rewrite !length_imap; congruence.
  - destruct elem as [v1|], elem0 as [v2|]; cbn; try done; rewrite andb_true_r, (Hn (iface_elem x v1) (iface_elem y v2)).
    + cbn; split; congruence.
    + intros ? [= <-]; split; [by intros ?|done].
    + intros ? [= <-]; split; [by intros ?|done].
  - cbn; rewrite andb_true_r, (Hn (ptr_elem h x p) (ptr_elem h y p0)) by apply ptr_good.
    rewrite !oval_ptr; split; congruence.
Qed.

Lemma same_unfolding n : agrees_unfolding n.
Proof.
  induction n as [|n IH]; intros [x|] [y|] Gx Gy; try (split; done);
    try (split; [done|]; cbn; by (destruct (rv_val x) || destruct (rv_val y))).
  cbn [oval fmap option_fmap option_map].
  destruct (decide (type_of (rv_val x) = type_of (rv_val y))) as [Ht|Ht].
  - rewrite <- (step_unfolding n x y IH Gx Gy Ht); cbn [agree]; rewrite bool_decide_true, lookup_empty by done; cbn.
    rewrite orb_true_iff; split; [|by right]; intros [Hr|H]; [|done].
    apply (step_unfolding n x y IH Gx Gy Ht).
    destruct (recorded x y) as [[a1 a2]|] eqn:Hrec; [|done]; apply bool_decide_eq_true in Hr as <-.
    apply recorded_addr in Hrec as [H1 H2]; destruct (Gx _ eq_refl) as [Px _], (Gy _ eq_refl) as [Py _].
    by rewrite (inj Some _ _ (eq_trans (eq_sym (Px _ H1)) (Py _ H2))).
  - cbn [agree]; rewrite bool_decide_false by done; split; [done|]; intros H; destruct Ht.
    destruct (rv_val x), (rv_val y); cbn in *; congruence.
Qed.


(** An answer of DeepEqual, with no functions of its own: whether the values unfold alike
    to every depth.  The values hold no NaN and no functions; MapKeys lists the keys of a
    map, in any order. *)
Lemma DeepEqual_answers fuel a1 a2 b :
  (∀ v, a1 = Some v → clean v = true) → (∀ v, a2 = Some v → clean v = true) →
  DeepEqual h addr_gt MapKeys ∅ fuel a1 a2 = Some (Ret b) →
  b = true ↔ ∀ n, unfolding n a1 = unfolding n a2.
Proof.
  intros C1 C2 H; apply DeepEqual_agrees in H as ->; [|by intros ???? ?%lookup_empty_Some|done].
  assert (∀ a, (∀ v, a = Some v → clean v = true) → good ((λ v, RV v None flagNone) <$> a) ∧
    oval ((λ v, RV v None flagNone) <$> a) = a) as Ha.
  { intros [v|] Hv; split; try done; intros ? [= <-]; split; [by intros ?|]; by apply Hv. }
  destruct (Ha a1 C1) as [G1 E1], (Ha a2 C2) as [G2 E2].
  split; intros Hn n; specialize (Hn n).
  - apply same_unfolding in Hn; [|done..]; by rewrite E1, E2 in Hn.
  - apply same_unfolding; [done..|]; by rewrite E1, E2.
Qed.
End unfolding.

(** ** Termination *)

Section termination.
Context (addr_gt : addr → addr → bool) (e : gmap string (value → value → bool)).
Context (step : rvalue → rvalue → decision).

(** The pairs the comparison can come to, the comparisons that can be remembered for
    them, and a rank that falls from a pair that is not remembered to another. *)
Context (reach : rvalue → rvalue → Prop) (U : list visit) (rank : rvalue → rvalue → nat) (B : nat).
Context (reach_step : ∀ x y l c d,
  reach x y → e !! type_of (rv_val x) = None → step x y = Compare l → (Some c, Some d) ∈ l →
  reach c d ∧ (is_Some (recorded x y) ∨ is_Some (recorded c d) ∨ rank c d < rank x y)).
Context (reach_U : ∀ x y a1 a2,
  reach x y → recorded x y = Some (a1, a2) → canonical addr_gt a1 a2 (type_of (rv_val x)) ∈ U).
Context (reach_B : ∀ x y, reach x y → rank x y ≤ B).

Abbreviation run := (deepValue addr_gt e step).

Definition within (V : list visit) : Prop := NoDup V ∧ V ⊆ U.

Lemma within_length V : within V → length V ≤ length U.
Proof. intros [Hn Hs]; by apply submseteq_length, NoDup_submseteq. Qed.

(** A bound for the depth of the recursion from a pair. *)
Definition left_to_do (x y : rvalue) (V : list visit) : nat :=
  (length U - length V) * (B + 2) + match recorded x y with Some _ => 0 | None => S (rank x y) end.

Definition finishes (V : list visit) (r : option (outcome bool * list visit)) : Prop :=
  ∃ o V', r = Some (o, V') ∧ within V' ∧ length V ≤ length V'.

Lemma all_of_finishes fuel l V :
  within V →
  (∀ x y W, (x, y) ∈ l → within W → length V ≤ length W → finishes W (run fuel x y W)) →
  finishes V (all_of (run fuel) l V).
Proof.
  revert V; induction l as [|[x y] l IH]; intros V HV Hl; cbn; [exists (Ret true), V; auto|].
  destruct (Hl x y V) as (o & W & -> & HW & Hle); [by left|auto..|].
  destruct o as [[]|]; try (eexists _, W; auto; fail).
  destruct (IH W HW) as (o & W' & -> & HW' & Hle'); [intros; apply Hl; auto; [by right|lia]|].
  exists o, W'; split_and!; auto; lia.
Qed.

Lemma run_finishes fuel x y V : reach x y → within V → left_to_do x y V < fuel → finishes V (run fuel (Some x) (Some y) V).
Proof.
  revert x y V; induction fuel as [|fuel IH]; intros x y V Hxy HV Hf; [lia|]; cbn [deepValue].
  destruct (enter _ _ (Some x) (Some y) V) as [r|[[x' y'] W]] eqn:Hen; [exists r, V; auto|].
  apply enter_inr in Hen as ([= <-] & [= <-] & Ht & He & Hr).
  assert (within W ∧ length V ≤ length W ∧ 1 ≤ fuel ∧ ∀ c d W', reach c d → within W' → length W ≤ length W' →
    is_Some (recorded x y) ∨ is_Some (recorded c d) ∨ rank c d < rank x y → left_to_do c d W' < fuel) as (HW & Hle & H1 & Hc).
  { unfold left_to_do in *; pose proof (within_length V HV).
    destruct (recorded x y) as [[a1 a2]|] eqn:Hrec; [destruct Hr as (Hne & Hnew & ->)|subst W].
    - assert (within (canonical addr_gt a1 a2 (type_of (rv_val x)) :: V)) as HW.
      { destruct HV; split; [by constructor|]; intros v [->|?]%elem_of_cons; eauto. }
      pose proof (within_length _ HW) as Hlen; cbn in Hlen; split_and!; [done|cbn; lia|nia|].
      intros c d W' Hcd HW' Hle _; pose proof (reach_B _ _ Hcd); cbn in Hle; destruct (recorded c d); nia.
    - split_and!; [done|lia|lia|]; intros c d W' Hcd HW' Hle [[? [=]]|[[? ->]|Hlt]]; [nia|].
      destruct (recorded c d); nia. }
  destruct (step x y) as [b|b|l] eqn:Hst; [eexists _, W; auto..|].
  destruct (all_of_finishes fuel l W HW) as (o & W' & -> & HW' & Hle'); [|exists o, W'; split_and!; auto; lia].
  intros [c|] [d|] W' Hin HW' Hle'.
  { destruct (reach_step _ _ _ _ _ Hxy He Hst Hin); eapply IH; eauto. }
  all: destruct fuel; [lia|]; cbn; eexists _, W'; auto.
Qed.

Lemma run_total fuel x y :
  reach x y → length U * (B + 2) + B + 1 < fuel → is_Some (run fuel (Some x) (Some y) []).
Proof.
  intros Hxy Hf; destruct (run_finishes fuel x y []) as (o & V & -> & _); eauto.
  - split; [constructor|]; intros ? ?%not_elem_of_nil; contradiction.
  - unfold left_to_do; pose proof (reach_B _ _ Hxy); destruct (recorded x y); cbn [length]; nia.
Qed.
End termination.

Abbreviation top := (λ v, RV v None flagNone).

(** Without functions of its own, DeepEqual panics only on reading an unexported field. *)
Lemma run_panics h addr_gt MapKeys fuel x y V msg V' :
  deepValueEqual h addr_gt MapKeys ∅ fuel x y V = Some (Panic msg, V') → msg = "an unexported field was encountered".
Proof.
  unfold deepValueEqual. revert x y V V'; induction fuel as [|fuel IH]; intros x y V V'; [done|]. cbn [deepValue].
  destruct (enter addr_gt ∅ x y V) as [r|[[x' y'] W]] eqn:He.
  - intros [= -> _]. unfold enter in He. rewrite ?lookup_empty in He. repeat case_match; simplify_eq; try done;
      match goal with H : (∅ : gmap _ _) !! _ = Some _ |- _ => by rewrite lookup_empty in H end.
  - destruct (equal_step h MapKeys x' y') as [b|b|l]; [done| |].
    + destruct (negb _); [by intros [= <- _]|done].
    + clear He. revert W; induction l as [|[c d] l IHl]; intros W; cbn [all_of]; [done|].
      destruct (deepValue addr_gt ∅ (equal_step h MapKeys) fuel c d W) as [[[[]|m] W']|] eqn:Hr; try done; [apply IHl|].
      intros [= <- <-]. by eapply IH.
Qed.

(** DeepEqual of two values returns, with a depth of recursion bounded by the number
    of comparisons that can be remembered, when those are finitely many and the ranks
    fall from a comparison that is not remembered to the next such one: when every cycle
    of the values passes through an addressable array, map, slice or struct. *)
Theorem DeepEqual_terminates h addr_gt MapKeys e (reach : rvalue → rvalue → Prop) U rank B v1 v2 fuel :
  (∀ x y l c d, reach x y → e !! type_of (rv_val x) = None → equal_step h MapKeys x y = Compare l →
     (Some c, Some d) ∈ l → reach c d ∧ (is_Some (recorded x y) ∨ is_Some (recorded c d) ∨ rank c d < rank x y)) →
  (∀ x y a1 a2, reach x y → recorded x y = Some (a1, a2) → canonical addr_gt a1 a2 (type_of (rv_val x)) ∈ U) →
  (∀ x y, reach x y → rank x y ≤ B) →
  reach (top v1) (top v2) → length U * (B + 2) + B + 1 < fuel →
  is_Some (DeepEqual h addr_gt MapKeys e fuel (Some v1) (Some v2)).
Proof.
  intros Hs HU HB Hv Hf; unfold DeepEqual; destruct (negb _); [by eexists|].
  destruct (run_total addr_gt e (equal_step h MapKeys) reach U rank B Hs HU HB fuel _ _ Hv Hf) as [r Hr].
  unfold deepValueEqual; rewrite Hr; by eexists.
Qed.

(** The cycles of two values pass through comparisons that are remembered: of the pairs
    [reach] the comparison can come to, finitely many ([U]) can be remembered, and [rank]
    falls from a pair that is not remembered to the next that is not.  So it is when every
    cycle passes through an addressable array, map, slice or struct. *)
Definition cycles_remembered h addr_gt MapKeys (reach : rvalue → rvalue → Prop) (U : list visit) rank (B : nat) v1 v2 : Prop :=
  (∀ x y l c d, reach x y → equal_step h MapKeys x y = Compare l → (Some c, Some d) ∈ l →
     reach c d ∧ (is_Some (recorded x y) ∨ is_Some (recorded c d) ∨ rank c d < rank x y)) ∧
  (∀ x y a1 a2, reach x y → recorded x y = Some (a1, a2) → canonical addr_gt a1 a2 (type_of (rv_val x)) ∈ U) ∧
  (∀ x y, reach x y → rank x y ≤ B) ∧
  reach (top v1) (top v2).

(** C28: with no functions of its own, on values without NaN and without functions whose
    cycles are remembered, DeepEqual returns (the depth of its recursion is bounded), and
    tells the values apart exactly when they unfold differently to some depth, following
    every pointer, slice, map and interface and taking nil slices and maps for empty
    ones: neither the addresses of the parts nor the cycles they form matter, and the set
    of comparisons in progress, which is never emptied, turns no difference into
    equality.  Or it panics, on an unexported field it has to read.  MapKeys lists the
    keys of a map, in any order. *)
Theorem DeepEqual_unfolding h addr_gt MapKeys arity reach U rank B v1 v2 fuel :
  (∀ m k, k ∈ MapKeys m ↔ is_Some (m !! k)) →
  clean_heap h arity → clean arity v1 = true → clean arity v2 = true →
  cycles_remembered h addr_gt MapKeys reach U rank B v1 v2 → length U * (B + 2) + B + 1 < fuel →
  (∃ b, DeepEqual h addr_gt MapKeys ∅ fuel (Some v1) (Some v2) = Some (Ret b) ∧
     (b = true ↔ ∀ n, unfolding h n (Some v1) = unfolding h n (Some v2))) ∨
  DeepEqual h addr_gt MapKeys ∅ fuel (Some v1) (Some v2) = Some (Panic "an unexported field was encountered").
Proof.
  intros Hkeys Hheap C1 C2 (Hs & HU & HB & Hv) Hf.
  destruct (DeepEqual_terminates h addr_gt MapKeys ∅ reach U rank B v1 v2 fuel) as [[b|msg] Hr]; [by eauto|done..| |].
  - left. exists b. split; [done|]. by eapply (DeepEqual_answers h addr_gt MapKeys Hkeys arity Hheap); [intros ? [= <-]..|exact Hr].
  - right. rewrite Hr. unfold DeepEqual in Hr. destruct (negb _); [done|].
    destruct (deepValueEqual _ _ _ _ _ _ _ _) as [[o V]|] eqn:Hrun; [|done]. injection Hr as ->. by rewrite (run_panics _ _ _ _ _ _ _ _ _ Hrun).
Qed.

(** ** Examples *)

Definition keys_of (m : gmap string value) : list string := (map_to_list m).*1.

Lemma keys_of_spec m k : k ∈ keys_of m ↔ is_Some (m !! k).
Proof.
  unfold keys_of; rewrite list_elem_of_fmap; split.
  - intros ([k' v] & -> & Hin%elem_of_map_to_list); by exists v.
  - intros [v Hv]; exists (k, v); split; [done|]; by apply elem_of_map_to_list.
Qed.

Definition by_object (a b : addr) : bool := b.1 <? a.1.

(** [type Node struct { S string; P *Node }]: objects 0 and 1 refer to each other, object
    2 to itself; all carry the same string. *)
Definition node (s : string) (p : nat) : value := VStruct "Node" [(Exported, VString "string" s); (Exported, VPtr "*Node" (Some (p, [])))].
Definition rings : heap := {| h_objects := {[ 0 := node "x" 1; 1 := node "x" 0; 2 := node "x" 2 ]}; h_maps := ∅ |}.
Definition to_node (p : nat) : value := VPtr "*Node" (Some (p, [])).

Lemma rings_clean : clean_heap rings (λ _, 2).
Proof.
  split; [|apply map_Forall_empty]; unfold rings; cbn [h_objects].
  repeat apply map_Forall_insert_2; try done; apply map_Forall_singleton; done.
Qed.

Definition at_node (i : nat) (p : list nat) (v : value) : rvalue := RV v (Some (i, p)) flagNone.
Definition rings_pairs : list (rvalue * rvalue) :=
  (top (to_node 0), top (to_node 2)) ::
  ('(i, j) ← [(0, 1); (1, 0)];
   [(at_node i [] (node "x" j), at_node 2 [] (node "x" 2));
    (at_node i [0] (VString "string" "x"), at_node 2 [0] (VString "string" "x"));
    (at_node i [1] (to_node j), at_node 2 [1] (to_node 2))]).

Lemma rings_closed :
  Forall (λ p, ∀ l c d, equal_step rings keys_of p.1 p.2 = Compare l → (Some c, Some d) ∈ l →
    (c, d) ∈ rings_pairs ∧ (is_Some (recorded p.1 p.2) ∨ is_Some (recorded c d))) rings_pairs.
Proof.
  unfold rings_pairs at 2; cbn [mbind list_bind app]; repeat apply Forall_cons_2; try apply Forall_nil_2;
    intros l c d Hl Hin; vm_compute in Hl; simplify_eq;
    repeat (apply elem_of_cons in Hin as [Hin|Hin]; [injection Hin as -> ->|]); try (by apply not_elem_of_nil in Hin).
  all: split; [vm_compute; repeat constructor|eauto].
Qed.

Lemma rings_remembered :
  Forall (λ p, ∀ a1 a2, recorded p.1 p.2 = Some (a1, a2) →
    canonical by_object a1 a2 (type_of (rv_val p.1)) ∈ [((0, []), (2, []), "Node"); ((1, []), (2, []), "Node")]) rings_pairs.
Proof.
  unfold rings_pairs; cbn [mbind list_bind app]; repeat apply Forall_cons_2; try apply Forall_nil_2;
    intros a1 a2 Hr; vm_compute in Hr; simplify_eq; vm_compute; repeat constructor.
Qed.

(** The two rings are compared in bounded depth. *)
Lemma DeepEqual_terminates_witness :
  is_Some (DeepEqual rings by_object keys_of ∅ 10 (Some (to_node 0)) (Some (to_node 2))).
Proof.
  refine (DeepEqual_terminates rings by_object keys_of ∅ (λ x y, (x, y) ∈ rings_pairs)
    [((0, []), (2, []), "Node"); ((1, []), (2, []), "Node")] (λ _ _, 0) 0 (to_node 0) (to_node 2) 10 _ _ _ _ _).
  - intros x y l c d Hxy _ Hl Hin; destruct (proj1 (Forall_forall _ _) rings_closed _ Hxy l c d Hl Hin); tauto.
  - intros x y a1 a2 Hxy; apply (proj1 (Forall_forall _ _) rings_remembered _ Hxy).
  - done.
  - by left.
  - cbn; lia.
Defined.

(** A ring of two nodes and one of one are equal. *)
Lemma DeepEqual_unfolding_witness :
  unfolding rings 9 (Some (to_node 0)) = unfolding rings 9 (Some (to_node 2)).
Proof.
  destruct (DeepEqual_unfolding rings by_object keys_of (λ _, 2) (λ x y, (x, y) ∈ rings_pairs)
    [((0, []), (2, []), "Node"); ((1, []), (2, []), "Node")] (λ _ _, 0) 0 (to_node 0) (to_node 2) 10)
    as [(b & Hb & Hiff)|H].
  - exact keys_of_spec.
  - exact rings_clean.
  - reflexivity.
  - reflexivity.
  - split_and!.
    + intros x y l c d Hxy Hl Hin; destruct (proj1 (Forall_forall _ _) rings_closed _ Hxy l c d Hl Hin); tauto.
    + intros x y a1 a2 Hxy; apply (proj1 (Forall_forall _ _) rings_remembered _ Hxy).
    + done.
    + by left.
  - cbn; lia.
  - apply Hiff. vm_compute in Hb. by injection Hb as <-.
  - exfalso. vm_compute in H. discriminate H.
Defined.

(** A map that contains itself: comparing two of them does not end (the values of a map
    have no address, so nothing is remembered). *)
Definition loops : heap :=
  {| h_objects := ∅;
     h_maps := {[ 0 := {[ "a" := VMap "M" (Some 0) ]}; 1 := {[ "a" := VMap "M" (Some 1) ]} ]} |}.

Lemma self_containing_maps_diverge fuel :
  DeepEqual loops by_object keys_of ∅ fuel (Some (VMap "M" (Some 0))) (Some (VMap "M" (Some 1))) = None.
Proof.
  unfold DeepEqual; cbn [type_of]; rewrite bool_decide_true by done; cbn [negb].
  assert (∀ V, deepValueEqual loops by_object keys_of ∅ fuel (Some (top (VMap "M" (Some 0)))) (Some (top (VMap "M" (Some 1)))) V = None)
    as ->; [|done].
  unfold deepValueEqual; induction fuel as [|fuel IH]; intros V; [done|].
  cbn [deepValue].
  assert (enter by_object ∅ (Some (top (VMap "M" (Some 0)))) (Some (top (VMap "M" (Some 1)))) V =
    inr (top (VMap "M" (Some 0)), top (VMap "M" (Some 1)), V)) as -> by reflexivity.
  assert (equal_step loops keys_of (top (VMap "M" (Some 0))) (top (VMap "M" (Some 1))) =
    Compare [(Some (top (VMap "M" (Some 0))), Some (top (VMap "M" (Some 1))))]) as -> by (vm_compute; reflexivity).
  cbn; by rewrite IH.
Qed.

(** What DeepDerivative says is no derivative is none. *)
Lemma DeepDerivative_false h addr_gt MapKeys e fuel v1 v2 :
  DeepDerivative h addr_gt MapKeys e fuel (Some v1) (Some v2) = Some (Ret false) →
  ∃ n, agree e (derive_step h MapKeys) n (Some (top v1)) (Some (top v2)) = false.
Proof.
  unfold DeepDerivative; case_bool_decide as Ht; cbn [negb]; intros H.
  - destruct (deepValueDerive _ _ _ _ _ _ _ _) as [[r V]|] eqn:Hrun; [|done]; cbn in H; injection H as ->.
    exists fuel; by eapply run_false.
  - exists 1; cbn; by rewrite bool_decide_false.
Qed.

(** The converse fails: derivation is not symmetric, and the set of comparisons in
    progress holds unordered pairs.  Here object 0 has no string and refers to object 1,
    which has one and refers back: 1 is not derived from 0, so neither is 0 from 1, but
    the comparison of 1 with 0 is taken for the one of 0 with 1 in progress. *)
Definition crossed : heap := {| h_objects := {[ 0 := node "" 1; 1 := node "x" 0 ]}; h_maps := ∅ |}.

Lemma derivative_of_crossed :
  DeepDerivative crossed by_object keys_of ∅ 10 (Some (to_node 0)) (Some (to_node 1)) = Some (Ret true) ∧
  agree ∅ (derive_step crossed keys_of) 6 (Some (top (to_node 0))) (Some (top (to_node 1))) = false.
Proof. vm_compute; done. Qed.

(** Unexported fields panic only when their contents have to be read. *)
Lemma unexported_fields :
  let v p := VStruct "T" [(Unexported, VPtr "*int" p); (Unexported, VBase "int" (Some "1"))] in
  DeepEqual rings by_object keys_of ∅ 10 (Some (v (Some (0, [])))) (Some (v None)) = Some (Ret false) ∧
  DeepEqual rings by_object keys_of ∅ 10 (Some (v None)) (Some (v None)) =
    Some (Panic "an unexported field was encountered").
Proof. vm_compute; done. Qed.

(** ** The functions of the Equalities *)

Lemma find_app {A} (p : A → bool) (l k : list A) :
  List.find p (l ++ k) = match List.find p l with Some x => Some x | None => List.find p k end.
Proof. induction l as [|x l IH]; cbn; [done|]; by destruct (p x). Qed.

(** If no function is refused, each type that one of them is for gets the last of them,
    and the other types keep what they had. *)
Lemma AddFuncs_spec funcs e e' :
  AddFuncs e funcs = (None, e') →
  (∀ f, f ∈ funcs → ∃ t, fn_type f = Some ([t; t], ["bool"])) ∧
  ∀ t, e' !! t =
    match List.find (λ f, fn_type f == Some ([t; t], ["bool"])) (rev funcs) with
    | Some f => Some (fn_eq f)
    | None => e !! t
    end.
Proof.
  revert e; induction funcs as [|f funcs IH]; intros e; cbn [AddFuncs].
  { intros [= <-]; split; [|done]; by intros ? ?%not_elem_of_nil. }
  unfold AddFunc at 1; destruct (fn_type f) as [[ins outs]|] eqn:Hf; [|done].
  destruct ins as [|t1 [|t2 [|]]]; try done; destruct outs as [|out [|]]; try done.
  repeat case_bool_decide; cbn [negb]; try done; subst; intros Ha.
  destruct (IH _ Ha) as [Hv Hl]; split.
  - intros g [->|Hin]%elem_of_cons; eauto.
  - intros t; rewrite Hl; cbn [rev]; rewrite find_app; case_match; [done|]; cbn.
    rewrite Hf; case_bool_decide as Ht; [simplify_eq; apply lookup_insert_eq|].
    apply lookup_insert_ne; congruence.
Qed.
