(* ===== verification/MetricVectors.v ===== *)
(** * Vectors of metrics

    Models the labelled metrics of components/metrics: CounterVec, GaugeVec, HistogramVec,
    SummaryVec and TimingHistogramVec (counter.go, gauge.go, histogram.go, summary.go,
    timing_histogram.go, over prometheusextension's vectors), the reset of a registry and
    the handler that serves it (registry.go, http.go).  A vector is the lazy metric of [Metrics] with
    the series it has; the allow-lists of label values are shared with the package's map,
    so they are looked up there when they are used.  Prometheus's checks of label values
    are parameters. *)

From S2P Require Import Prelude GoStrings Streams Metrics.

Local Open Scope go_scope.

Section vectors.
Context `{StringSets sset}.

(** prometheus: whether label values or a map of labels fit the names of a vector, and
    the values in the order of the names. *)
Context (validateLabelValues : list string → list string → option error).
Context (validateLabels : list string → gmap string string → error + list string).

Abbreviation allowLists := (gmap string (gmap string sset)).

(** A vector.  [mv_allow] tells whether it found an allow-list when it was made: the list
    of its name in the package's map, which is changed in place and never replaced.
    [mv_series] has the updates each series received. *)
Record metricVec := {
  mv_lazy : lazyMetric;
  mv_originalLabels : list string;
  mv_allow : bool;
  mv_series : gmap (list string) nat;
}.

(** What an extraction returns: the no-op metric, nil, or a series. *)
Inductive member := Noop | NilMember | Series (lvs : list string).

(** The five kinds of vectors are made by the same steps, from options that hold no
    allow-list of their own (no caller in the repository sets the field). *)
Definition NewVec (lists : allowLists) (fqName deprecatedVersion stabilityLevel help : string) (labels : list string) : metricVec :=
  {| mv_lazy := NewCounter fqName deprecatedVersion stabilityLevel help; mv_originalLabels := labels;
     mv_allow := bool_decide (is_Some (lists !! fqName)); mv_series := ∅ |}.

Definition NewCounterVec := NewVec.
Definition NewGaugeVec := NewVec.
Definition NewHistogramVec := NewVec.
Definition NewSummaryVec := NewVec.
Definition NewTestableTimingHistogramVec := NewVec.

Definition set_series (v : metricVec) (s : gmap (list string) nat) : metricVec :=
  {| mv_lazy := mv_lazy v; mv_originalLabels := mv_originalLabels v; mv_allow := mv_allow v; mv_series := s |}.

(** Create: initializeMetric makes a new, empty vector. *)
Definition vec_Create `{Semver V} (g : globals) (version : option V) (v : metricVec) : outcome (bool * metricVec) :=
  res ← Create g version (mv_lazy v);
  Ret (res.1,
    {| mv_lazy := res.2; mv_originalLabels := mv_originalLabels v; mv_allow := mv_allow v;
       mv_series := if lm_once (mv_lazy v) then mv_series v else if lm_once res.2 then ∅ else mv_series v |}).

(** The allow-list in use. *)
Definition allow_list (lists : allowLists) (v : metricVec) : option (gmap string sset) :=
  if mv_allow v then lists !! lm_fqName (mv_lazy v) else None.

Definition constrain (lists : allowLists) (v : metricVec) (lvs : list string) : outcome (list string) :=
  match allow_list lists v with
  | Some l => ConstrainToAllowedList l (mv_originalLabels v) lvs
  | None => Ret lvs
  end.

Definition constrain_map (lists : allowLists) (v : metricVec) (labels : gmap string string) : gmap string string :=
  match allow_list lists v with
  | Some l => ConstrainLabelMap l labels
  | None => labels
  end.

(** prometheus.MetricVec.GetMetricWithLabelValues and GetMetricWith: an element is made
    when it is first asked for. *)
Definition get_series (v : metricVec) (lvs : list string) : metricVec :=
  match mv_series v !! lvs with
  | Some _ => v
  | None => set_series v (<[lvs := 0]> (mv_series v))
  end.

Definition GetMetricWithLabelValues (v : metricVec) (lvs : list string) : option error * metricVec :=
  match validateLabelValues (mv_originalLabels v) lvs with
  | Some err => (Some err, v)
  | None => (None, get_series v lvs)
  end.

Definition GetMetricWith (v : metricVec) (labels : gmap string string) : error + (list string * metricVec) :=
  match validateLabels (mv_originalLabels v) labels with
  | inl err => inl err
  | inr lvs => inr (lvs, get_series v lvs)
  end.

(** ** Extraction from counters, histograms and summaries *)

(** Results carry the caller's slice or map, which is edited in place. *)
Definition WithLabelValues (lists : allowLists) (v : metricVec) (lvs : list string) : outcome (member * list string * metricVec) :=
  if negb (lm_isCreated (mv_lazy v)) then Ret (Noop, lvs, v)
  else
    lvs ← constrain lists v lvs;
    match GetMetricWithLabelValues v lvs with
    | (Some _, _) => Panic "prometheus: WithLabelValues"
    | (None, v) => Ret (Series lvs, lvs, v)
    end.

Definition vec_With (lists : allowLists) (v : metricVec) (labels : gmap string string)
    : outcome (member * gmap string string * metricVec) :=
  if negb (lm_isCreated (mv_lazy v)) then Ret (Noop, labels, v)
  else
    let labels := constrain_map lists v labels in
    match GetMetricWith v labels with
    | inl _ => Panic "prometheus: With"
    | inr (lvs, v) => Ret (Series lvs, labels, v)
    end.

Definition HistogramVec_WithLabelValues := WithLabelValues.
Definition HistogramVec_With := vec_With.
Definition SummaryVec_WithLabelValues := WithLabelValues.
Definition SummaryVec_With := vec_With.

(** ** Extraction from gauges *)

Definition errNotRegistered : error := Errorf "metric vec is not registered yet" [].

Definition gauge_WithLabelValuesChecked (lists : allowLists) (v : metricVec) (lvs : list string)
    : outcome (member * option error * list string * metricVec) :=
  if negb (lm_isCreated (mv_lazy v)) then
    Ret (Noop, if lm_isHidden (mv_lazy v) then None else Some errNotRegistered, lvs, v)
  else
    lvs ← constrain lists v lvs;
    match GetMetricWithLabelValues v lvs with
    | (Some err, v) => Ret (NilMember, Some err, lvs, v)
    | (None, v) => Ret (Series lvs, None, lvs, v)
    end.

Definition gauge_WithChecked (lists : allowLists) (v : metricVec) (labels : gmap string string)
    : outcome (member * option error * gmap string string * metricVec) :=
  if negb (lm_isCreated (mv_lazy v)) then
    Ret (Noop, if lm_isHidden (mv_lazy v) then None else Some errNotRegistered, labels, v)
  else
    let labels := constrain_map lists v labels in
    match GetMetricWith v labels with
    | inl err => Ret (NilMember, Some err, labels, v)
    | inr (lvs, v) => Ret (Series lvs, None, labels, v)
    end.

(** WithLabelValues and With of GaugeVec and TimingHistogramVec. *)
Definition unchecked {A} (r : outcome (member * option error * A * metricVec)) : outcome (member * A * metricVec) :=
  r ← r;
  match r.1.1.2 with
  | None => Ret (r.1.1.1, r.1.2, r.2)
  | Some err => if err == errNotRegistered then Ret (r.1.1.1, r.1.2, r.2) else Panic "WithLabelValues"
  end.

Definition gauge_WithLabelValues (lists : allowLists) (v : metricVec) (lvs : list string) : outcome (member * list string * metricVec) :=
  unchecked (gauge_WithLabelValuesChecked lists v lvs).
Definition gauge_With (lists : allowLists) (v : metricVec) (labels : gmap string string) : outcome (member * gmap string string * metricVec) :=
  unchecked (gauge_WithChecked lists v labels).

(** ** Extraction from timing histograms *)

Definition timing_WithLabelValuesChecked (lists : allowLists) (v : metricVec) (lvs : list string)
    : outcome (member * option error * list string * metricVec) :=
  if negb (lm_isCreated (mv_lazy v)) then
    Ret (Noop, if lm_isHidden (mv_lazy v) then None else Some errNotRegistered, lvs, v)
  else
    lvs ← constrain lists v lvs;
    match GetMetricWithLabelValues v lvs with
    | (Some err, v) => Ret (Noop, Some err, lvs, v)
    | (None, v) => Ret (Series lvs, None, lvs, v)
    end.

(** [ops.(GaugeMetric)] is asked of a nil interface when the labels do not fit. *)
Definition timing_WithChecked (lists : allowLists) (v : metricVec) (labels : gmap string string)
    : outcome (member * option error * gmap string string * metricVec) :=
  if negb (lm_isCreated (mv_lazy v)) then
    Ret (Noop, if lm_isHidden (mv_lazy v) then None else Some errNotRegistered, labels, v)
  else
    let labels := constrain_map lists v labels in
    match GetMetricWith v labels with
    | inl _ => Panic "interface conversion: interface is nil, not metrics.GaugeMetric"
    | inr (lvs, v) => Ret (Series lvs, None, labels, v)
    end.

Definition timing_WithLabelValues (lists : allowLists) (v : metricVec) (lvs : list string) : outcome (member * list string * metricVec) :=
  unchecked (timing_WithLabelValuesChecked lists v lvs).
Definition timing_With (lists : allowLists) (v : metricVec) (labels : gmap string string) : outcome (member * gmap string string * metricVec) :=
  unchecked (timing_WithChecked lists v labels).

(** ** Updates, Delete and Reset *)

(** Inc, Add, Set or Observe on what an extraction has just returned. *)
Definition update (m : member) (v : metricVec) : outcome metricVec :=
  match m with
  | Noop => Ret v
  | NilMember => Panic "invalid memory address or nil pointer dereference"
  | Series lvs => Ret (match mv_series v !! lvs with Some n => set_series v (<[lvs := S n]> (mv_series v)) | None => v end)
  end.

Definition vec_Delete (v : metricVec) (labels : gmap string string) : bool * metricVec :=
  if negb (lm_isCreated (mv_lazy v)) then (false, v)
  else
    match validateLabels (mv_originalLabels v) labels with
    | inl _ => (false, v)
    | inr lvs =>
        match mv_series v !! lvs with
        | Some _ => (true, set_series v (delete lvs (mv_series v)))
        | None => (false, v)
        end
    end.

Definition vec_Reset (v : metricVec) : metricVec :=
  if negb (lm_isCreated (mv_lazy v)) then v else set_series v ∅.

Definition GaugeVec_Delete := vec_Delete.
Definition HistogramVec_Delete := vec_Delete.
Definition SummaryVec_Delete := vec_Delete.
Definition TimingHistogramVec_Delete := vec_Delete.
Definition GaugeVec_Reset := vec_Reset.
Definition HistogramVec_Reset := vec_Reset.
Definition SummaryVec_Reset := vec_Reset.
Definition TimingHistogramVec_Reset := vec_Reset.

(** kubeRegistry.Reset over the heap of vectors, and the handler. *)
Definition registry_Reset (h : list metricVec) (resettables : list nat) : list metricVec :=
  foldl (λ h i, alter vec_Reset i h) h resettables.

Definition HandlerWithReset (method : string) (h : list metricVec) (resettables : list nat) (served : list metricVec → string)
    : string * list metricVec :=
  if method == "DELETE" then ("metrics reset" +:+ String (ascii_of_nat 10) "", registry_Reset h resettables)
  else (served h, h).

(** NewGaugeFunc: the help of the gauge it made, nil when it is hidden. *)
Definition newGaugeFunc `{Semver V} (g : globals) (fqName deprecatedVersion stabilityLevel help : string) (v : V)
    : outcome (option string) :=
  res ← Create g (Some v) (NewCounter fqName deprecatedVersion stabilityLevel help);
  Ret (if (res.1 : bool) then Some (lm_Help res.2) else None).
End vectors.

(** ** Theorems *)

Section theorems.
Context `{StringSetsLaws sset}.
Context (validateLabelValues : list string → list string → option error).
Context (validateLabels : list string → gmap string string → error + list string).

(** Label values that fit are one per name; those of a map are its values in the order of
    the names. *)
Context (validateLabelValues_length : ∀ labels lvs, validateLabelValues labels lvs = None → length lvs = length labels).
Context (validateLabels_values : ∀ labels m lvs, validateLabels labels m = inr lvs → Forall2 (λ name x, m !! name = Some x) labels lvs).

Abbreviation allowLists := (gmap string (gmap string sset)).
Abbreviation WithLabelValues := (WithLabelValues validateLabelValues).
Abbreviation vec_With := (vec_With validateLabels).
Abbreviation gauge_WithLabelValuesChecked := (gauge_WithLabelValuesChecked validateLabelValues).
Abbreviation gauge_WithChecked := (gauge_WithChecked validateLabels).
Abbreviation timing_WithLabelValuesChecked := (timing_WithLabelValuesChecked validateLabelValues).
Abbreviation timing_WithChecked := (timing_WithChecked validateLabels).
Abbreviation vec_Delete := (vec_Delete validateLabels).

(** The calls that can change a vector; a call that panics leaves it as it was. *)
Inductive vec_call :=
  | CallValues (lvs : list string)
  | CallLabels (labels : gmap string string)
  | CallGaugeValues (lvs : list string)
  | CallGaugeLabels (labels : gmap string string)
  | CallTimingValues (lvs : list string)
  | CallTimingLabels (labels : gmap string string)
  | CallDelete (labels : gmap string string)
  | CallReset.

Definition after {A} (v : metricVec) (r : outcome (A * metricVec)) : metricVec :=
  match r with Ret r => r.2 | Panic _ => v end.

Definition call (lists : allowLists) (v : metricVec) (c : vec_call) : metricVec :=
  match c with
  | CallValues lvs => after v (WithLabelValues lists v lvs)
  | CallLabels labels => after v (vec_With lists v labels)
  | CallGaugeValues lvs => after v (gauge_WithLabelValuesChecked lists v lvs)
  | CallGaugeLabels labels => after v (gauge_WithChecked lists v labels)
  | CallTimingValues lvs => after v (timing_WithLabelValuesChecked lists v lvs)
  | CallTimingLabels labels => after v (timing_WithChecked lists v labels)
  | CallDelete labels => (vec_Delete v labels).2
  | CallReset => vec_Reset v
  end.

(** The series an extraction can add. *)
Definition extracted (lists : allowLists) (v : metricVec) (c : vec_call) (lvs : list string) : Prop :=
  match c with
  | CallValues l | CallGaugeValues l | CallTimingValues l =>
      constrain lists v l = Ret lvs ∧ validateLabelValues (mv_originalLabels v) lvs = None
  | CallLabels m | CallGaugeLabels m | CallTimingLabels m =>
      validateLabels (mv_originalLabels v) (constrain_map lists v m) = inr lvs
  | CallDelete _ | CallReset => False
  end.

Definition keeps (v : metricVec) (new : list string → Prop) (v' : metricVec) : Prop :=
  ∃ s, v' = set_series v s ∧
    ∀ lvs, is_Some (s !! lvs) → is_Some (mv_series v !! lvs) ∨ lm_isCreated (mv_lazy v) = true ∧ new lvs.

Lemma set_series_same v : set_series v (mv_series v) = v.
Proof. by destruct v. Qed.

Lemma keeps_refl v new : keeps v new v.
Proof. exists (mv_series v); rewrite set_series_same; eauto. Qed.

Lemma keeps_get v (new : list string → Prop) lvs : lm_isCreated (mv_lazy v) = true → new lvs → keeps v new (get_series v lvs).
Proof.
  intros Hc Hn; unfold get_series; destruct (mv_series v !! lvs) eqn:Hl; [apply keeps_refl|].
  eexists; split; [done|]; intros l; rewrite lookup_insert_is_Some; destruct (decide (lvs = l)) as [<-|]; [by right|].
  intros [?|[_ ?]]; [done|by left].
Qed.

Lemma keeps_delete v new lvs : keeps v new (set_series v (delete lvs (mv_series v))).
Proof. eexists; split; [done|]; intros l [n Hn]; left; apply lookup_delete_Some in Hn as [_ Hn]; by exists n. Qed.

#[local] Hint Resolve keeps_refl keeps_get keeps_delete : core.

(** A call keeps everything but the series, keeps or drops those there are, and adds at
    most the one that is extracted, provided the vector was created. *)
Lemma call_series lists v c : keeps v (extracted lists v c) (call lists v c).
Proof.
  destruct (lm_isCreated (mv_lazy v)) eqn:Hc, c; cbn -[constrain constrain_map];
    unfold MetricVectors.WithLabelValues, MetricVectors.vec_With, MetricVectors.gauge_WithLabelValuesChecked,
      MetricVectors.gauge_WithChecked, MetricVectors.timing_WithLabelValuesChecked, MetricVectors.timing_WithChecked,
      MetricVectors.vec_Delete, vec_Reset, GetMetricWithLabelValues, GetMetricWith; rewrite Hc; cbn -[constrain constrain_map]; auto.
  all: try (destruct (constrain lists v lvs) as [l|] eqn:Hl; [|by auto]; cbn;
    destruct (validateLabelValues _ l) eqn:Hv; cbn; [by auto|]; by apply keeps_get).
  all: try (destruct (validateLabels _ (constrain_map lists v labels)) eqn:Hv; cbn; [by auto|]; by apply keeps_get).
  - destruct (validateLabels _ labels) as [|l]; [by auto|]; destruct (mv_series v !! l); cbn; auto.
  - exists ∅; split; [done|]; intros l [n Hn]; by rewrite lookup_empty in Hn.
Qed.

(** Values an allow-list lets pass. *)
Definition allowed (l : gmap string sset) (name x : string) : Prop :=
  match l !! name with Some a => sets_Has a x = true ∨ x = "unexpected" | None => True end.

Lemma constrained_values l names lvs lvs' :
  ConstrainToAllowedList l names lvs = Ret lvs' → length lvs' = length names → Forall2 (allowed l) names lvs'.
Proof.
  revert names lvs'; induction lvs as [|x lvs IH]; intros names lvs'; cbn.
  { intros [= <-]; destruct names; [constructor|done]. }
  destruct names as [|name names]; [done|]; cbn.
  destruct (ConstrainToAllowedList l names lvs) as [rest|] eqn:Hr; [|done]; intros [= <-] Hl; constructor; [|auto].
  unfold allowed; destruct (l !! name) as [a|]; [|done]; destruct (sets_Has a x) eqn:Ha; auto.
Qed.

Lemma constrained_labels l (names : list string) m lvs :
  Forall2 (λ name x, ConstrainLabelMap l m !! name = Some x) names lvs → Forall2 (allowed l) names lvs.
Proof.
  intros Hf; eapply Forall2_impl; [done|]; intros name x; unfold ConstrainLabelMap, allowed; rewrite map_lookup_imap.
  destruct (m !! name) as [y|]; [|done]; cbn; destruct (l !! name) as [a|]; [|done].
  intros [= <-]; destruct (sets_Has a y) eqn:Ha; auto.
Qed.

Lemma extracted_allowed lists v c l lvs :
  allow_list lists v = Some l → extracted lists v c lvs → Forall2 (allowed l) (mv_originalLabels v) lvs.
Proof.
  unfold extracted, constrain, constrain_map; intros ->; destruct c; try done;
    [intros [Hc Hv]|intros Hv|intros [Hc Hv]|intros Hv|intros [Hc Hv]|intros Hv];
    eauto using constrained_values, constrained_labels.
Qed.

Lemma call_fields lists v c :
  mv_lazy (call lists v c) = mv_lazy v ∧ mv_originalLabels (call lists v c) = mv_originalLabels v ∧ mv_allow (call lists v c) = mv_allow v.
Proof. by destruct (call_series lists v c) as (s & -> & _). Qed.

(** Invariant over any sequence of calls. *)
Lemma calls_allowed lists v l cs :
  allow_list lists v = Some l →
  (∀ lvs, is_Some (mv_series v !! lvs) → Forall2 (allowed l) (mv_originalLabels v) lvs) →
  ∀ lvs, is_Some (mv_series (foldl (call lists) v cs) !! lvs) → Forall2 (allowed l) (mv_originalLabels v) lvs.
Proof.
  revert v; induction cs as [|c cs IH]; intros v Hl Hv; cbn; [done|].
  destruct (call_fields lists v c) as (H1 & H2 & H3); rewrite <- H2; apply IH.
  - unfold allow_list; by rewrite H1, H3.
  - destruct (call_series lists v c) as (s & -> & Hs); cbn; intros lvs [?|[_ ?]]%Hs; eauto using extracted_allowed.
Qed.

(** The combinations of allowed values. *)
Fixpoint combinations (vals : string → list string) (names : list string) : list (list string) :=
  match names with
  | [] => [[]]
  | name :: names => x ← "unexpected" :: vals name; cons x <$> combinations vals names
  end.

Lemma combinations_length vals names :
  length (combinations vals names) = foldr (λ name n, S (length (vals name)) * n) 1 names.
Proof.
  induction names as [|name names IH]; [done|]; cbn [combinations foldr]; rewrite <- IH.
  assert (∀ (l : list string) (k : list (list string)), length (l ≫= λ x, cons x <$> k) = length l * length k) as ->; [|done].
  intros l k; induction l as [|x l IHl]; cbn; [done|]; by rewrite length_app, length_fmap, IHl.
Qed.

Lemma combinations_elem vals names lvs :
  Forall2 (λ name x, x ∈ "unexpected" :: vals name) names lvs → lvs ∈ combinations vals names.
Proof.
  induction 1 as [|name x names lvs Hx _ IH]; cbn [combinations]; [by left|].
  apply list_elem_of_bind; exists x; split; [|done]; by apply list_elem_of_fmap_2.
Qed.

(** C39: whatever label values a program passes, by lists or by maps, checked or not, a
    vector whose labels all have allow-lists never has more series than there are
    combinations of the allowed values and the one for unexpected values. *)
Theorem vector_cardinality lists v l (vals : string → list string) cs :
  mv_series v = ∅ → allow_list lists v = Some l →
  (∀ name, name ∈ mv_originalLabels v → l !! name = Some (sets_NewString (vals name))) →
  size (mv_series (foldl (call lists) v cs)) ≤ foldr (λ name n, S (length (vals name)) * n) 1 (mv_originalLabels v).
Proof.
  intros He Hl Hv; rewrite <- combinations_length, <- length_map_to_list, <- (length_fmap fst).
  apply submseteq_length, NoDup_submseteq; [apply NoDup_fst_map_to_list|].
  intros lvs Hin; apply list_elem_of_fmap in Hin as ([lvs' n] & -> & Hin); apply elem_of_map_to_list in Hin; apply combinations_elem; cbn.
  assert (Forall2 (allowed l) (mv_originalLabels v) lvs') as Ha.
  { eapply (calls_allowed lists v l cs Hl); [|by eexists]; intros k [m Hk]; by rewrite He, lookup_empty in Hk. }
  clear Hin; induction Ha as [|name x names lvs Hx _ IH]; constructor; [|apply IH; intros; apply Hv; by right].
  unfold allowed in Hx; rewrite Hv in Hx by (by left); rewrite sets_Has_NewString in Hx.
  destruct Hx as [Hx | ->]; [right; by apply bool_decide_eq_true in Hx|by left].
Qed.

(** Before it is created, a vector has no series, and extraction gives the no-op metric. *)
Lemma not_created_noop lists v cs :
  lm_isCreated (mv_lazy v) = false → mv_series v = ∅ →
  mv_series (foldl (call lists) v cs) = ∅ ∧ (∀ lvs, WithLabelValues lists v lvs = Ret (Noop, lvs, v)).
Proof.
  intros Hc He; split; [|intros lvs; unfold MetricVectors.WithLabelValues; by rewrite Hc].
  revert v Hc He; induction cs as [|c cs IH]; intros v Hc He; cbn; [done|].
  destruct (call_series lists v c) as (s & -> & Hs); apply IH; [done|]; cbn.
  apply map_empty; intros lvs; apply eq_None_not_Some; intros Hl; apply Hs in Hl as [[n Hn]|[Hc' _]]; [by rewrite He, lookup_empty in Hn|congruence].
Qed.

(** Resetting a registry empties the created vectors it holds and no others. *)
Lemma registry_Reset_spec h resettables i :
  registry_Reset h resettables !! i = (λ v, if bool_decide (i ∈ resettables) then vec_Reset v else v) <$> h !! i.
Proof.
  unfold registry_Reset; revert h; induction resettables as [|r rs IH]; intros h; cbn.
  { case_bool_decide as Hi; [by apply not_elem_of_nil in Hi|]; by destruct (h !! i). }
  rewrite IH; destruct (decide (r = i)) as [->|Hne].
  - rewrite list_lookup_alter_eq, (bool_decide_true (i ∈ i :: rs)) by (by left).
    destruct (h !! i) as [v|]; cbn; [|done]; f_equal; case_bool_decide; [|done].
    unfold vec_Reset; destruct (lm_isCreated (mv_lazy v)) eqn:Hc; cbn; by rewrite Hc.
  - rewrite list_lookup_alter_ne by done; destruct (h !! i); [|done]; cbn; f_equal.
    rewrite (bool_decide_ext (i ∈ r :: rs) (i ∈ rs)); [done|]; rewrite elem_of_cons; naive_solver.
Qed.
End theorems.

(** ** Examples *)

Module MetricVectorsExamples.
Local Existing Instance golib_sets_model.
Local Existing Instance golib_sets_model_laws.

Definition check_values (labels lvs : list string) : option error :=
  if length labels =? length lvs then None else Some (Errorf "inconsistent label cardinality" []).
Definition check_labels (labels : list string) (m : gmap string string) : error + list string :=
  match mapM (m !!.) labels with
  | Some lvs => if length labels =? size m then inr lvs else inl (Errorf "inconsistent label cardinality" [])
  | None => inl (Errorf "label name missing" [])
  end.

Lemma check_values_length labels lvs : check_values labels lvs = None → length lvs = length labels.
Proof. unfold check_values; destruct (length labels =? length lvs) eqn:Hl; [|done]; apply Nat.eqb_eq in Hl; lia. Qed.

Lemma check_labels_values labels m lvs : check_labels labels m = inr lvs → Forall2 (λ name x, m !! name = Some x) labels lvs.
Proof.
  unfold check_labels; destruct (mapM (m !!.) labels) as [l|] eqn:Hm; [|done].
  case_match; [|done]; intros [= <-]; by apply mapM_Some.
Qed.

(** A counter of requests by verb, with an allow-list for the verbs. *)
Definition lists : gmap string (gmap string (gset string)) := {[ "requests" := {[ "verb" := sets_NewString ["get"; "put"] ]} ]}.
Definition created (v : metricVec) : metricVec :=
  {| mv_lazy := set_flags (mv_lazy v) false false true true true; mv_originalLabels := mv_originalLabels v;
     mv_allow := mv_allow v; mv_series := mv_series v |}.
Definition requests : metricVec := created (NewVec lists "requests" "" "" "" ["verb"]).
Definition calls : list vec_call := [CallValues ["get"]; CallValues ["steal"]; CallLabels {[ "verb" := "put" ]}; CallValues ["rob"]].

Lemma vector_cardinality_witness :
  size (mv_series (foldl (call check_values check_labels lists) requests calls)) ≤ 3.
Proof.
  refine (vector_cardinality check_values check_labels check_values_length check_labels_values lists requests
    {[ "verb" := sets_NewString ["get"; "put"] ]} (λ _, ["get"; "put"]) calls _ _ _).
  - reflexivity.
  - reflexivity.
  - intros name Hn; apply elem_of_cons in Hn as [->|Hn]; [reflexivity|by apply not_elem_of_nil in Hn].
Defined.

(** A vector that is made before the flags are parsed, as those of package variables are,
    has no allow-list: its series are not limited. *)
Lemma late_allow_list :
  let v := created (NewVec (∅ : gmap string (gmap string (gset string))) "requests" "" "" "" ["verb"]) in
  MetricVectors.WithLabelValues check_values lists v ["steal"] =
    Ret (Series ["steal"], ["steal"], set_series v {[ ["steal"] := 0 ]}).
Proof. vm_compute; reflexivity. Qed.

(** The caller's slice is overwritten. *)
Lemma caller_values_overwritten :
  ∃ v, MetricVectors.WithLabelValues check_values lists requests ["steal"] = Ret (Series ["unexpected"], ["unexpected"], v).
Proof. eexists; vm_compute; reflexivity. Qed.

(** Labels that do not fit: the checked extraction from a gauge returns nil and not the
    no-op metric, the one from a timing histogram panics, and so does any extraction with
    an allow-list and a value too many. *)
Lemma unfit_labels :
  (∃ err, MetricVectors.gauge_WithLabelValuesChecked check_values lists requests [] = Ret (NilMember, Some err, [], requests)) ∧
  returns (MetricVectors.timing_WithChecked check_labels lists requests ∅) = false ∧
  returns (MetricVectors.gauge_WithLabelValuesChecked check_values lists requests ["get"; "x"]) = false.
Proof. split_and!; [eexists|..]; vm_compute; reflexivity. Qed.

(** Delete does not constrain its labels: the series of unexpected values is not found by
    the values it was made for. *)
Lemma delete_unconstrained :
  let v := call check_values check_labels lists requests (CallLabels {[ "verb" := "steal" ]}) in
  (MetricVectors.vec_Delete check_labels v {[ "verb" := "steal" ]}).1 = false ∧ size (mv_series v) = 1.
Proof. vm_compute; done. Qed.
End MetricVectorsExamples.
