(* ===== verification/StableCollectors.v ===== *)
(** * Stable collectors

    Models components/metrics/desc.go, collector.go and value.go, and the part of
    registry.go that registers custom collectors: descriptors that are hidden or marked
    by version as the metrics of [Metrics] are, collectors that describe several of them,
    and the re-registration of the hidden ones.  Descriptors and collectors are shared
    objects and live in heaps.  What a custom collector describes, Prometheus's registry
    and blang/semver are parameters. *)

From S2P Require Import Prelude GoStrings Streams Metrics.

Local Open Scope go_scope.

Section collectors.
Context `{Semver V}.

(** ** Descriptors *)

(** [d_promDesc] is the descriptor made for Prometheus, with the help it was given; the
    label names and the constant labels are handed on unchanged.  The flags tell which of
    the sync.Once have run. *)
Record Desc := {
  d_fqName : string;
  d_help : string;
  d_variableLabels : list string;
  d_constLabels : gmap string string;
  d_promDesc : option string;
  d_annotatedHelp : string;
  d_stabilityLevel : string;
  d_deprecatedVersion : string;
  d_isDeprecated : bool;
  d_isHidden : bool;
  d_isCreated : bool;
  d_markDeprecationOnce : bool;
  d_createOnce : bool;
  d_deprecateOnce : bool;
  d_annotateOnce : bool;
}.

Definition NewDesc (fqName help : string) (variableLabels : list string) (constLabels : gmap string string)
    (stabilityLevel deprecatedVersion : string) : Desc :=
  {| d_fqName := fqName; d_help := help; d_variableLabels := variableLabels; d_constLabels := constLabels;
     d_promDesc := None; d_annotatedHelp := help; d_stabilityLevel := setDefaults stabilityLevel;
     d_deprecatedVersion := deprecatedVersion; d_isDeprecated := false; d_isHidden := false; d_isCreated := false;
     d_markDeprecationOnce := false; d_createOnce := false; d_deprecateOnce := false; d_annotateOnce := false |}.

Definition with_status (d : Desc) (isDeprecated isHidden marked : bool) : Desc :=
  {| d_fqName := d_fqName d; d_help := d_help d; d_variableLabels := d_variableLabels d; d_constLabels := d_constLabels d;
     d_promDesc := d_promDesc d; d_annotatedHelp := d_annotatedHelp d; d_stabilityLevel := d_stabilityLevel d;
     d_deprecatedVersion := d_deprecatedVersion d; d_isDeprecated := isDeprecated; d_isHidden := isHidden;
     d_isCreated := d_isCreated d; d_markDeprecationOnce := marked; d_createOnce := d_createOnce d;
     d_deprecateOnce := d_deprecateOnce d; d_annotateOnce := d_annotateOnce d |}.

Definition with_help (d : Desc) (help : string) (deprecated annotated : bool) : Desc :=
  {| d_fqName := d_fqName d; d_help := d_help d; d_variableLabels := d_variableLabels d; d_constLabels := d_constLabels d;
     d_promDesc := d_promDesc d; d_annotatedHelp := help; d_stabilityLevel := d_stabilityLevel d;
     d_deprecatedVersion := d_deprecatedVersion d; d_isDeprecated := d_isDeprecated d; d_isHidden := d_isHidden d;
     d_isCreated := d_isCreated d; d_markDeprecationOnce := d_markDeprecationOnce d; d_createOnce := d_createOnce d;
     d_deprecateOnce := deprecated; d_annotateOnce := annotated |}.

Definition with_created (d : Desc) (isCreated once : bool) (promDesc : option string) : Desc :=
  {| d_fqName := d_fqName d; d_help := d_help d; d_variableLabels := d_variableLabels d; d_constLabels := d_constLabels d;
     d_promDesc := promDesc; d_annotatedHelp := d_annotatedHelp d; d_stabilityLevel := d_stabilityLevel d;
     d_deprecatedVersion := d_deprecatedVersion d; d_isDeprecated := d_isDeprecated d; d_isHidden := d_isHidden d;
     d_isCreated := isCreated; d_markDeprecationOnce := d_markDeprecationOnce d; d_createOnce := once;
     d_deprecateOnce := d_deprecateOnce d; d_annotateOnce := d_annotateOnce d |}.

Definition determineDeprecationStatus (g : globals) (version : V) (d : Desc) : outcome Desc :=
  selfVersion ← parseSemver (d_deprecatedVersion d);
  match selfVersion with
  | None => Ret d
  | Some selfVersion =>
      if d_markDeprecationOnce d then Ret d
      else
        let isDeprecated := sv_LTE selfVersion version || d_isDeprecated d in
        if g_showHidden g then Ret (with_status d isDeprecated (d_isHidden d) true)
        else
          hide ← shouldHide version selfVersion;
          Ret (with_status d isDeprecated (hide || d_isHidden d) true)
  end.

Definition desc_markDeprecated (d : Desc) : Desc :=
  if d_deprecateOnce d then d
  else with_help d ("(Deprecated since " +:+ d_deprecatedVersion d +:+ ") " +:+ d_annotatedHelp d) true (d_annotateOnce d).

Definition desc_annotateStabilityLevel (d : Desc) : Desc :=
  if d_annotateOnce d then d
  else with_help d ("[" +:+ d_stabilityLevel d +:+ "] " +:+ d_annotatedHelp d) (d_deprecateOnce d) true.

Definition desc_initialize (d : Desc) : Desc :=
  let d := desc_annotateStabilityLevel d in with_created d (d_isCreated d) (d_createOnce d) (Some (d_annotatedHelp d)).

Definition initializeDeprecatedDesc (d : Desc) : Desc := desc_initialize (desc_markDeprecated d).

Definition desc_create (g : globals) (version : option V) (d : Desc) : outcome (bool * Desc) :=
  d ← (match version with Some version => determineDeprecationStatus g version d | None => Ret d end);
  if d_isHidden d then Ret (false, d)
  else
    let d :=
      if d_createOnce d then d
      else
        let d := with_created d true true (d_promDesc d) in
        if d_isDeprecated d then initializeDeprecatedDesc d else desc_initialize d in
    Ret (d_isCreated d, d).

Definition desc_ClearState (d : Desc) : Desc :=
  {| d_fqName := d_fqName d; d_help := d_help d; d_variableLabels := d_variableLabels d; d_constLabels := d_constLabels d;
     d_promDesc := None; d_annotatedHelp := d_help d; d_stabilityLevel := d_stabilityLevel d;
     d_deprecatedVersion := d_deprecatedVersion d; d_isDeprecated := false; d_isHidden := false; d_isCreated := false;
     d_markDeprecationOnce := false; d_createOnce := false; d_deprecateOnce := false; d_annotateOnce := false |}.

Definition GetRawDesc (d : Desc) : Desc :=
  NewDesc (d_fqName d) (d_help d) (d_variableLabels d) (d_constLabels d) (d_stabilityLevel d) (d_deprecatedVersion d).

(** Constant metrics: nil when the descriptor is hidden, otherwise what Prometheus makes
    of its descriptor and the label values (known by their name and values here); a
    descriptor that was never created has none, which panics.  [validate] is Prometheus's
    check of the values. *)
Context (validate : list string → list string → option error).

Definition NewConstMetric (d : Desc) (lvs : list string) : outcome (option (string * list string) * option error) :=
  if d_isHidden d then Ret (None, None)
  else
    match d_promDesc d with
    | None => Panic "invalid memory address or nil pointer dereference"
    | Some _ =>
        match validate (d_variableLabels d) lvs with
        | Some err => Ret (None, Some err)
        | None => Ret (Some (d_fqName d, lvs), None)
        end
    end.

Definition NewLazyConstMetric (d : Desc) (lvs : list string) : outcome (option (string * list string)) :=
  if d_isHidden d then Ret None
  else
    r ← NewConstMetric d lvs;
    match r.2 with Some _ => Panic "prometheus: MustNewConstMetric" | None => Ret r.1 end.

Definition NewLazyMetricWithTimestamp {M} (stamp : M → M) (m : option M) : option M :=
  match m with None => None | Some m => Some (stamp m) end.

(** ** Collectors *)

(** A custom collector embeds BaseStableCollector: [sc_describes] is what its
    DescribeWithStability sends, [sc_collects] what its CollectWithStability does: constant
    metrics, by descriptor and label values. *)
Record collector := {
  sc_describes : list nat;
  sc_collects : list (nat * list string);
  sc_resettable : bool;
  sc_descriptors : gmap string nat;
  sc_registerable : gmap string nat;
  sc_hidden : gmap string nat;
}.

Definition set_tables (c : collector) (descriptors registerable hidden : gmap string nat) : collector :=
  {| sc_describes := sc_describes c; sc_collects := sc_collects c; sc_resettable := sc_resettable c;
     sc_descriptors := descriptors; sc_registerable := registerable; sc_hidden := hidden |}.

(** [visit] is the order in which a map is ranged over. *)
Context (visit : gmap string nat → list (string * nat)).

Abbreviation dheap := (list Desc).

Definition sc_add (h : dheap) (descriptors : gmap string nat) (i : nat) : outcome (gmap string nat) :=
  d ← index h i;
  if d_fqName d == "" then Panic "nameless metrics will be not allowed"
  else if bool_decide (is_Some (descriptors !! d_fqName d)) then Panic "duplicate metrics will be not allowed"
  else Ret (<[d_fqName d := i]> descriptors).

Fixpoint sc_init (h : dheap) (descriptors : gmap string nat) (l : list nat) : outcome (gmap string nat) :=
  match l with
  | [] => Ret descriptors
  | i :: l => descriptors ← sc_add h descriptors i; sc_init h descriptors l
  end.

(** The loop of Create. *)
Fixpoint sc_create_loop (g : globals) (version : V) (h : dheap) (registerable hidden : gmap string nat) (l : list nat)
    : outcome (gmap string nat * gmap string nat * dheap) :=
  match l with
  | [] => Ret (registerable, hidden, h)
  | i :: l =>
      d ← index h i;
      res ← desc_create g (Some version) d;
      let d := res.2 in
      let h : dheap := <[i := d]> h in
      if d_isHidden d then sc_create_loop g version h registerable (<[d_fqName d := i]> hidden) l
      else sc_create_loop g version h (<[d_fqName d := i]> registerable) hidden l
  end.

Definition sc_Create (g : globals) (version : V) (h : dheap) (c : collector) : outcome (bool * collector * dheap) :=
  descriptors ← sc_init h (sc_descriptors c) (sc_describes c);
  res ← sc_create_loop g version h (sc_registerable c) (sc_hidden c) (visit descriptors).*2;
  let '(registerable, hidden, h) := res in
  Ret (0 <? size registerable, set_tables c descriptors registerable hidden, h).

Fixpoint clear_descs (h : dheap) (l : list nat) : dheap :=
  match l with
  | [] => h
  | i :: l => clear_descs (alter desc_ClearState i h) l
  end.

Definition sc_ClearState (h : dheap) (c : collector) : collector * dheap :=
  (set_tables c ∅ ∅ ∅, clear_descs h (visit (sc_descriptors c)).*2).

Definition HiddenMetrics (c : collector) : list string := (visit (sc_hidden c)).*1.

(** Describe: what Prometheus is told. *)
Definition Describe (c : collector) : list string := (visit (sc_registerable c)).*1.

(** Collect: nil metrics are dropped. *)
Fixpoint Collect (h : dheap) (l : list (nat * list string)) : outcome (list (string * list string)) :=
  match l with
  | [] => Ret []
  | (i, lvs) :: l =>
      d ← index h i;
      m ← NewLazyConstMetric d lvs;
      rest ← Collect h l;
      Ret (match m with Some m => m :: rest | None => rest end)
  end.

(** ** The registry *)

(** PromRegistry.Register's error, from the names of the registered collectors and of the
    new one; Unregister removes the collector that describes the same metrics. *)
Context (PromRegister : list (list string) → list string → option error).

Record registry := {
  r_version : V;
  r_registered : list (nat * list string);
  r_stable : list nat;
  r_resettables : list nat;
}.

Definition set_prom (r : registry) (l : list (nat * list string)) : registry :=
  {| r_version := r_version r; r_registered := l; r_stable := r_stable r; r_resettables := r_resettables r |}.

Definition trackStableCollectors (r : registry) (cs : list nat) : registry :=
  {| r_version := r_version r; r_registered := r_registered r; r_stable := r_stable r ++ cs; r_resettables := r_resettables r |}.

Definition add_resettable (r : registry) (i : nat) (c : collector) : registry :=
  if sc_resettable c then
    {| r_version := r_version r; r_registered := r_registered r; r_stable := r_stable r;
       r_resettables := r_resettables r ++ [i] |}
  else r.

Definition prom_Register (r : registry) (i : nat) (c : collector) : option error * registry :=
  match PromRegister (r_registered r).*2 (Describe c) with
  | Some err => (Some err, r)
  | None => (None, set_prom r (r_registered r ++ [(i, Describe c)]))
  end.

Definition Unregister (r : registry) (c : collector) : registry :=
  set_prom r (filter (λ p, (list_to_set p.2 : gset string) ≠ list_to_set (Describe c)) (r_registered r)).

Abbreviation cheap := (list collector).

Definition CustomRegister (g : globals) (r : registry) (h : dheap) (ch : cheap) (i : nat)
    : outcome (option error * registry * dheap * cheap) :=
  let r := trackStableCollectors r [i] in
  c ← index ch i;
  res ← sc_Create g (r_version r) h c;
  let '(ok, c, h) := res in
  let ch : cheap := <[i := c]> ch in
  if (ok : bool) then
    let '(err, r) := prom_Register r i c in Ret (err, add_resettable r i c, h, ch)
  else Ret (None, add_resettable r i c, h, ch).

(** The loop of CustomMustRegister. *)
Fixpoint custom_loop (g : globals) (r : registry) (h : dheap) (ch : cheap) (cs collectors : list nat)
    : outcome (list nat * registry * dheap * cheap) :=
  match cs with
  | [] => Ret (collectors, r, h, ch)
  | i :: cs =>
      c ← index ch i;
      res ← sc_Create g (r_version r) h c;
      let '(ok, c, h) := res in
      let ch : cheap := <[i := c]> ch in
      if (ok : bool) then custom_loop g (add_resettable r i c) h ch cs (collectors ++ [i])
      else custom_loop g r h ch cs collectors
  end.

Fixpoint prom_MustRegister (r : registry) (ch : cheap) (l : list nat) : outcome registry :=
  match l with
  | [] => Ret r
  | i :: l =>
      c ← index ch i;
      match prom_Register r i c with
      | (Some _, _) => Panic "prometheus: MustRegister"
      | (None, r) => prom_MustRegister r ch l
      end
  end.

Definition CustomMustRegister (g : globals) (r : registry) (h : dheap) (ch : cheap) (cs : list nat)
    : outcome (registry * dheap * cheap) :=
  let r := trackStableCollectors r cs in
  res ← custom_loop g r h ch cs [];
  let '(collectors, r, h, ch) := res in
  r ← prom_MustRegister r ch collectors;
  Ret (r, h, ch).

(** The loop of enableHiddenStableCollectors. *)
Fixpoint enable_loop (r : registry) (h : dheap) (ch : cheap) (l cs : list nat) : outcome (list nat * registry * dheap * cheap) :=
  match l with
  | [] => Ret (cs, r, h, ch)
  | i :: l =>
      c ← index ch i;
      if 0 <? length (HiddenMetrics c) then
        let r := Unregister r c in
        let '(c, h) := sc_ClearState h c in
        enable_loop r h (<[i := c]> ch) l (cs ++ [i])
      else enable_loop r h ch l cs
  end.

Definition enableHiddenStableCollectors (g : globals) (r : registry) (h : dheap) (ch : cheap) : outcome (registry * dheap * cheap) :=
  if length (r_stable r) =? 0 then Ret (r, h, ch)
  else
    res ← enable_loop r h ch (r_stable r) [];
    let '(cs, r, h, ch) := res in
    CustomMustRegister g
      {| r_version := r_version r; r_registered := r_registered r; r_stable := []; r_resettables := r_resettables r |} h ch cs.
End collectors.

(** ** Theorems *)

Section theorems.
Context `{Semver V}.
Context (visit : gmap string nat → list (string * nat)).
Context (visit_perm : ∀ m, visit m ≡ₚ map_to_list m).

Abbreviation dheap := (list Desc).

(** What a descriptor is, apart from its state. *)
Definition dspec (d : Desc) : string * string := (d_fqName d, d_deprecatedVersion d).

Definition dfresh (d : Desc) : Prop := d = desc_ClearState d.

Definition dparses (v : V) (d : Desc) : Prop :=
  is_Some (sv_Parse (guardVersion v)) ∧ (d_deprecatedVersion d = "" ∨ is_Some (sv_Parse (d_deprecatedVersion d))).

(** Deprecated before the minor release the binary is of. *)
Definition doutdated (v : V) (d : Desc) : bool :=
  match sv_Parse (d_deprecatedVersion d), sv_Parse (guardVersion v) with
  | Some dv, Some guard => (d_deprecatedVersion d != "") && sv_LT dv guard
  | _, _ => false
  end.

Definition dvisible (g : globals) (v : V) (d : Desc) : bool := g_showHidden g || negb (doutdated v d).

(** The help text shown for a descriptor. *)
Definition dhelp (v : V) (d : Desc) : string :=
  "[" +:+ d_stabilityLevel d +:+ "] " +:+
  match sv_Parse (d_deprecatedVersion d) with
  | Some dv =>
      if (d_deprecatedVersion d != "") && sv_LTE dv v then "(Deprecated since " +:+ d_deprecatedVersion d +:+ ") " +:+ d_help d
      else d_help d
  | None => d_help d
  end.

Definition settled (g : globals) (v : V) (d0 d : Desc) : Prop :=
  desc_ClearState d = desc_ClearState d0 ∧ d_isHidden d = negb (dvisible g v d0) ∧
  d_promDesc d = if dvisible g v d0 then Some (dhelp v d0) else None.

(** A fresh descriptor is created exactly when it is visible, with its stability level
    and its deprecation in its help; otherwise it is hidden. *)
Lemma desc_create_spec g v d :
  dfresh d → dparses v d → ∃ d', desc_create g (Some v) d = Ret (dvisible g v d, d') ∧ settled g v d d'.
Proof.
  intros Hf [[guard Hg] Hp]; unfold dfresh in Hf; rewrite Hf; clear Hf.
  unfold desc_create, determineDeprecationStatus, dvisible, doutdated, parseSemver, shouldHide, settled, dhelp, dvisible, doutdated; cbn.
  rewrite Hg; destruct (decide (d_deprecatedVersion d = "")) as [He|He].
  - rewrite He, !bool_decide_true by done; cbn [negb].
    assert (match sv_Parse "" with Some dv => false && sv_LT dv guard | None => false end = false) as -> by (by destruct (sv_Parse "")).
    cbn [negb]; rewrite !orb_true_r; eexists; split; [reflexivity|]; split_and!; cbn; rewrite ?He; try done; by destruct (sv_Parse "").
  - destruct Hp as [?|[dv Hdv]]; [done|]; rewrite !bool_decide_false by done; cbn; rewrite Hdv; cbn.
    destruct (g_showHidden g); cbn; [|destruct (sv_LT dv guard); cbn; [by eexists|]];
      rewrite orb_false_r; destruct (sv_LTE dv v); eexists; split_and!; reflexivity.
Qed.

(** *** One collector *)

(** The descriptors of a program as it declared them. *)
Context (v : V) (h0 : dheap).
Context (h0_fresh : Forall dfresh h0) (h0_parses : Forall (dparses v) h0).
Context (h0_names : NoDup (d_fqName <$> h0)) (h0_named : Forall (λ d, d_fqName d ≠ "") h0).

Definition dname (i : nat) : string := match h0 !! i with Some d => d_fqName d | None => "" end.
Definition dvis (g : globals) (i : nat) : bool := match h0 !! i with Some d => dvisible g v d | None => false end.

(** A heap in which the descriptors of [S] were created under [g]. *)
Definition dstate (g : globals) (h : dheap) (S : gset nat) : Prop :=
  length h = length h0 ∧
  ∀ i d0, h0 !! i = Some d0 → ∃ d, h !! i = Some d ∧ if bool_decide (i ∈ S) then settled g v d0 d else d = d0.

Definition insert_all (m : gmap string nat) (l : list nat) : gmap string nat := foldl (λ m i, <[dname i := i]> m) m l.

Lemma dname_inj i j : i < length h0 → j < length h0 → dname i = dname j → i = j.
Proof.
  intros Hi Hj Hn; destruct (lookup_lt_is_Some_2 h0 i Hi) as [d Hd]; destruct (lookup_lt_is_Some_2 h0 j Hj) as [d' Hd'].
  unfold dname in Hn; rewrite Hd, Hd' in Hn.
  apply (NoDup_lookup (d_fqName <$> h0) i j (d_fqName d) h0_names); rewrite list_lookup_fmap, ?Hd, ?Hd'; cbn; congruence.
Qed.

Lemma insert_all_lookup m l n i :
  (∀ j, j ∈ l → j < length h0) → NoDup l → (∀ j, j ∈ l → m !! dname j = None) →
  insert_all m l !! n = Some i ↔ (i ∈ l ∧ dname i = n) ∨ m !! n = Some i.
Proof.
  revert m; induction l as [|j l IH]; intros m Hl Hnd Hm; cbn; [split; [by right|intros [[Hi _]|?]; [by apply not_elem_of_nil in Hi|done]]|].
  apply NoDup_cons in Hnd as [Hj Hnd].
  rewrite IH; [|intros; apply Hl; by right|done|].
  - rewrite elem_of_cons, lookup_insert_Some; split.
    + intros [[Hi Hn]|[[Hn Hi]|[Hn Hi]]]; subst; eauto.
    + intros [[[Hi|Hi] Hn]|Hi]; subst; eauto.
      destruct (decide (dname j = n)) as [<-|]; [|eauto]; rewrite Hm in Hi by (by left); done.
  - intros k Hk; apply lookup_insert_None; split; [apply Hm; by right|].
    intros Hn; apply dname_inj in Hn; [by subst|apply Hl; by left|apply Hl; by right].
Qed.

Lemma create_loop_spec g h S R T l :
  dstate g h S → NoDup l → (∀ i, i ∈ l → i < length h0 ∧ i ∉ S) →
  ∃ h', sc_create_loop g v h R T l =
      Ret (insert_all R (filter (λ i, dvis g i = true) l), insert_all T (filter (λ i, dvis g i = false) l), h') ∧
    dstate g h' (S ∪ list_to_set l).
Proof.
  revert h S R T; induction l as [|i l IH]; intros h S R T Hst Hnd Hl; cbn [sc_create_loop].
  { exists h; split; [done|]; cbn; by rewrite union_empty_r_L. }
  apply NoDup_cons in Hnd as [Hi Hnd]; destruct (Hl i) as [Hlt HS]; [by left|].
  destruct (lookup_lt_is_Some_2 h0 i Hlt) as [d0 Hd0]; destruct Hst as [Hlen Hst].
  destruct (Hst i d0 Hd0) as (d & Hd & Hs); rewrite bool_decide_false in Hs by done; subst d.
  rewrite (proj2 (index_lookup _ _ _) Hd); cbn [mbind outcome_bind].
  destruct (desc_create_spec g v d0) as (d' & -> & Hset);
    [by eapply Forall_lookup_1 in h0_fresh|by eapply Forall_lookup_1 in h0_parses|]; cbn [mbind outcome_bind fst snd].
  assert (d_isHidden d' = negb (dvis g i)) as -> by (unfold dvis; rewrite Hd0; apply Hset).
  assert (d_fqName d' = dname i) as -> by (unfold dname; rewrite Hd0; destruct Hset as [Hc _]; apply (f_equal d_fqName Hc)).
  destruct (IH (<[i := d']> h) ({[i]} ∪ S) (if dvis g i then <[dname i := i]> R else R) (if dvis g i then T else <[dname i := i]> T))
    as (h' & Hloop & Hst').
  { split; [by rewrite length_insert|]; intros j dj Hj; destruct (decide (j = i)) as [->|Hne].
    - exists d'; rewrite list_lookup_insert_eq by congruence; split; [done|]; rewrite bool_decide_true by set_solver; congruence.
    - rewrite list_lookup_insert_ne by done; destruct (Hst j dj Hj) as (dd & Hdd & Hs); exists dd; split; [done|].
      rewrite (bool_decide_ext (j ∈ {[i]} ∪ S) (j ∈ S)); [done|set_solver]. }
  { done. }
  { intros j Hj; destruct (Hl j); [by right|]; split; [done|]; set_solver. }
  exists h'; split.
  - rewrite !filter_cons; destruct (dvis g i); cbn in *; rewrite ?decide_True, ?decide_False by done; exact Hloop.
  - cbn; by rewrite (union_comm_L {[i]}), <- union_assoc_L in Hst'.
Qed.

Lemma dstate_name g h S i : dstate g h S → i < length h0 → ∃ d, h !! i = Some d ∧ d_fqName d = dname i.
Proof.
  intros [_ Hst] [d0 Hd0]%lookup_lt_is_Some_2; destruct (Hst i d0 Hd0) as (d & Hd & Hs); exists d; split; [done|].
  unfold dname; rewrite Hd0; case_bool_decide; [|by subst]; destruct Hs as [Hc _]; exact (f_equal d_fqName Hc).
Qed.

Lemma dname_named i : i < length h0 → dname i ≠ "".
Proof.
  intros [d Hd]%lookup_lt_is_Some_2; unfold dname; rewrite Hd; exact (Forall_lookup_1 _ _ _ _ h0_named Hd).
Qed.

Lemma init_spec g h S m l :
  dstate g h S → NoDup l → (∀ i, i ∈ l → i < length h0 ∧ m !! dname i = None) → sc_init h m l = Ret (insert_all m l).
Proof.
  intros Hst; revert m; induction l as [|i l IH]; intros m Hnd Hl; cbn; [done|].
  apply NoDup_cons in Hnd as [Hi Hnd]; destruct (Hl i) as [Hlt Hm]; [by left|].
  destruct (dstate_name _ _ _ _ Hst Hlt) as (d & Hd & Hn); unfold sc_add.
  rewrite (proj2 (index_lookup _ _ _) Hd); cbn; rewrite Hn, bool_decide_false by (by apply dname_named).
  rewrite Hm, bool_decide_false by (by intros [? ?]); cbn; apply IH; [done|].
  intros j Hj; destruct (Hl j) as [Hjl Hjm]; [by right|]; split; [done|]; apply lookup_insert_None; split; [done|].
  intros Heq%dname_inj; [by subst|done|done].
Qed.

(** A collector whose tables are those of its descriptors under [g]. *)
Definition tables (g : globals) (c : collector) : Prop :=
  (∀ n i, sc_descriptors c !! n = Some i ↔ i ∈ sc_describes c ∧ dname i = n) ∧
  (∀ n i, sc_registerable c !! n = Some i ↔ (i ∈ sc_describes c ∧ dvis g i = true) ∧ dname i = n) ∧
  (∀ n i, sc_hidden c !! n = Some i ↔ (i ∈ sc_describes c ∧ dvis g i = false) ∧ dname i = n).

Definition blank (c : collector) : Prop := sc_descriptors c = ∅ ∧ sc_registerable c = ∅ ∧ sc_hidden c = ∅.

Definition declared (c : collector) : Prop := NoDup (sc_describes c) ∧ ∀ i, i ∈ sc_describes c → i < length h0.

Definition same_collector (c c' : collector) : Prop :=
  sc_describes c' = sc_describes c ∧ sc_collects c' = sc_collects c ∧ sc_resettable c' = sc_resettable c.

Lemma visit_elem m n i : (n, i) ∈ visit m ↔ m !! n = Some i.
Proof. by rewrite visit_perm, elem_of_map_to_list. Qed.

(** The values of a table of descriptors are visited once each, in some order. *)
Lemma visit_values m l :
  NoDup l → (∀ n i, m !! n = Some i ↔ i ∈ l ∧ dname i = n) → (visit m).*2 ≡ₚ l.
Proof.
  intros Hnd Hm; apply NoDup_Permutation; [|done|].
  - apply NoDup_fmap_2_strong; [|rewrite visit_perm; apply NoDup_map_to_list].
    intros [n i] [n' i'] [_ H1]%visit_elem%Hm [_ H2]%visit_elem%Hm; cbn; intros; subst; congruence.
  - intros i; rewrite list_elem_of_fmap; split.
    + intros ([n j] & -> & [Hj _]%visit_elem%Hm); done.
    + intros Hi; exists (dname i, i); split; [done|]; by apply visit_elem, Hm.
Qed.

Lemma insert_all_empty l n i :
  NoDup l → (∀ j, j ∈ l → j < length h0) → insert_all ∅ l !! n = Some i ↔ i ∈ l ∧ dname i = n.
Proof.
  intros Hnd Hl; rewrite insert_all_lookup by (done || intros; by rewrite lookup_empty).
  rewrite lookup_empty; naive_solver.
Qed.

Lemma insert_all_filter l P `{!∀ i, Decision (P i)} k n i :
  k ≡ₚ l → NoDup l → (∀ j, j ∈ l → j < length h0) →
  insert_all ∅ (filter P k) !! n = Some i ↔ (i ∈ l ∧ P i) ∧ dname i = n.
Proof.
  intros Hk Hnd Hl; rewrite insert_all_empty; [rewrite list_elem_of_filter, Hk; naive_solver| |].
  - apply NoDup_filter; by rewrite Hk.
  - intros j [_ Hj]%list_elem_of_filter; apply Hl; by rewrite <- Hk.
Qed.

Lemma table_nonempty (p : nat → bool) (m : gmap string nat) l :
  (∀ n i, m !! n = Some i ↔ (i ∈ l ∧ p i = true) ∧ dname i = n) → (0 <? size m) = existsb p l.
Proof.
  intros Hm; destruct (existsb p l) eqn:He.
  - apply existsb_exists in He as (i & Hi & Hp); apply list_elem_of_In in Hi; apply Nat.ltb_lt.
    assert (m !! dname i = Some i) as Hl by (by apply Hm).
    destruct (size m) eqn:Hs; [|lia]; apply map_size_empty_inv in Hs as ->; by rewrite lookup_empty in Hl.
  - apply Nat.ltb_ge; assert (m = ∅) as ->; [|by rewrite map_size_empty].
    apply map_empty; intros n; apply eq_None_not_Some; intros [i [[Hi Hp] _]%Hm].
    assert (existsb p l = true); [|congruence]; apply existsb_exists; exists i; by rewrite <- list_elem_of_In.
Qed.

Lemma Create_collector g h S c :
  dstate g h S → blank c → declared c → (∀ i, i ∈ sc_describes c → i ∉ S) →
  ∃ c' h', sc_Create visit g v h c = Ret (existsb (dvis g) (sc_describes c), c', h') ∧
    same_collector c c' ∧ tables g c' ∧ dstate g h' (S ∪ list_to_set (sc_describes c)).
Proof.
  intros Hst (Hb1 & Hb2 & Hb3) [Hnd Hl] HS; unfold sc_Create.
  rewrite Hb1, (init_spec g h S) by first [done|intros i Hi; split; [by apply Hl|by rewrite lookup_empty]]; cbn [mbind outcome_bind].
  set (m := insert_all ∅ (sc_describes c)).
  assert (∀ n i, m !! n = Some i ↔ i ∈ sc_describes c ∧ dname i = n) as Hm by (intros; by apply insert_all_empty).
  pose proof (visit_values m _ Hnd Hm) as Hv; set (l := (visit m).*2) in *.
  destruct (create_loop_spec g h S (sc_registerable c) (sc_hidden c) l Hst) as (h' & Hloop & Hst').
  { by rewrite Hv. }
  { intros i; rewrite Hv; intros Hi; split; [by apply Hl|by apply HS]. }
  rewrite Hloop, Hb2, Hb3; cbn [mbind outcome_bind].
  exists (set_tables c m (insert_all ∅ (filter (λ i, dvis g i = true) l)) (insert_all ∅ (filter (λ i, dvis g i = false) l))), h'.
  split; [|split; [done|split]].
  - rewrite (table_nonempty (dvis g) _ (sc_describes c)); [done|]; intros n i; by rewrite (insert_all_filter (sc_describes c)).
  - split_and!; cbn [sc_descriptors sc_registerable sc_hidden sc_describes set_tables]; [done|..]; intros n i; by rewrite (insert_all_filter (sc_describes c)).
  - rewrite <- (list_to_set_perm_L _ _ Hv); done.
Qed.

(** *** The registry *)

(** Prometheus accepts a collector of metrics it does not have. *)
Context (PromRegister : list (list string) → list string → option error).
Context (PromRegister_new : ∀ old new,
  new ≠ [] → NoDup new → (∀ n, n ∈ new → n ∉ concat old) → PromRegister old new = None).

(** The collectors of a program as it declared them: no descriptor belongs to two. *)
Context (ch0 : list collector).
Context (ch0_blank : Forall blank ch0) (ch0_declared : Forall declared ch0).
Context (ch0_disjoint : ∀ i j ci cj d, ch0 !! i = Some ci → ch0 !! j = Some cj →
  d ∈ sc_describes ci → d ∈ sc_describes cj → i = j).

Definition describes (i : nat) : list nat := match ch0 !! i with Some c => sc_describes c | None => [] end.
Definition owned (C : gset nat) : gset nat := set_bind (λ i, list_to_set (describes i)) C.

(** Descriptors and collectors when those of [C] were created under [g]. *)
Definition world (g : globals) (C : gset nat) (h : dheap) (ch : list collector) : Prop :=
  dstate g h (owned C) ∧ length ch = length ch0 ∧
  ∀ i c0, ch0 !! i = Some c0 → ∃ c, ch !! i = Some c ∧ same_collector c0 c ∧ if bool_decide (i ∈ C) then tables g c else blank c.

Definition some_visible (g : globals) (i : nat) : bool := existsb (dvis g) (describes i).
Definition some_hidden (g : globals) (i : nat) : bool := existsb (λ d, negb (dvis g d)) (describes i).

Lemma owned_elem C d : d ∈ owned C ↔ ∃ i, i ∈ C ∧ d ∈ describes i.
Proof. unfold owned; rewrite elem_of_set_bind; setoid_rewrite elem_of_list_to_set; done. Qed.

Lemma owned_add C i : owned ({[i]} ∪ C) = owned C ∪ list_to_set (describes i).
Proof.
  apply set_eq; intros d; rewrite elem_of_union, !owned_elem, elem_of_list_to_set; setoid_rewrite elem_of_union.
  setoid_rewrite elem_of_singleton; naive_solver.
Qed.

Lemma describes_disjoint i j d : d ∈ describes i → d ∈ describes j → i = j.
Proof.
  unfold describes; destruct (ch0 !! i) as [ci|] eqn:Hi, (ch0 !! j) as [cj|] eqn:Hj;
    try (intros Hd Hd'; exfalso; (by apply not_elem_of_nil in Hd || by apply not_elem_of_nil in Hd')).
  intros; by eapply ch0_disjoint.
Qed.

Lemma describes_lt i d : d ∈ describes i → d < length h0.
Proof.
  unfold describes; destruct (ch0 !! i) as [c|] eqn:Hi; [|by intros ?%not_elem_of_nil].
  apply (proj2 (Forall_lookup_1 _ _ _ _ ch0_declared Hi)).
Qed.

Lemma describes_NoDup i : NoDup (describes i).
Proof.
  unfold describes; destruct (ch0 !! i) as [c|] eqn:Hi; [|constructor].
  apply (proj1 (Forall_lookup_1 _ _ _ _ ch0_declared Hi)).
Qed.

Lemma world_lookup g C h ch i :
  world g C h ch → i < length ch0 →
  ∃ c, ch !! i = Some c ∧ sc_describes c = describes i ∧ declared c ∧ if bool_decide (i ∈ C) then tables g c else blank c.
Proof.
  intros (_ & _ & Hc) [c0 Hc0]%lookup_lt_is_Some_2; destruct (Hc i c0 Hc0) as (c & Hl & Hs & Ht); exists c.
  pose proof (Forall_lookup_1 _ _ _ _ ch0_declared Hc0) as Hd; unfold describes, declared in *; rewrite Hc0.
  destruct Hs as [-> _]; auto.
Qed.

(** Creating one more collector. *)
Lemma world_create g C h ch i c :
  world g C h ch → i ∉ C → ch !! i = Some c →
  ∃ c' h', sc_Create visit g v h c = Ret (some_visible g i, c', h') ∧ world g ({[i]} ∪ C) h' (<[i := c']> ch).
Proof.
  intros Hw HC Hi; pose proof Hw as (Hst & Hlen & Hch).
  assert (i < length ch0) as Hlt by (rewrite <- Hlen; by eapply lookup_lt_Some).
  destruct (world_lookup _ _ _ _ _ Hw Hlt) as (c1 & Hc1 & Hd & Hdec & Hb); simplify_eq; rewrite bool_decide_false in Hb by done.
  destruct (Create_collector g h (owned C) c Hst Hb Hdec) as (c' & h' & Hcr & Hs & Ht & Hst').
  { rewrite Hd; intros d Hd1 (j & Hj & Hd2)%owned_elem; by rewrite (describes_disjoint _ _ _ Hd1 Hd2) in HC. }
  exists c', h'; unfold some_visible; rewrite <- Hd; split; [done|]; split; [by rewrite owned_add, <- Hd|].
  split; [by rewrite length_insert|]; intros j c0 Hj; destruct (Hch j c0 Hj) as (cj & Hcj & Hsj & Htj).
  destruct (decide (j = i)) as [->|Hne].
  - exists c'; rewrite list_lookup_insert_eq by (by eapply lookup_lt_Some); simplify_eq; split; [done|].
    rewrite bool_decide_true by set_solver; split; [|done]; destruct Hs as (?&?&?), Hsj as (?&?&?); split_and!; congruence.
  - exists cj; rewrite list_lookup_insert_ne by done; split; [done|]; split; [done|].
    by rewrite (bool_decide_ext (j ∈ {[i]} ∪ C) (j ∈ C)) by set_solver.
Qed.

Lemma custom_loop_spec g r h ch cs acc C :
  world g C h ch → r_version r = v → NoDup cs → (∀ i, i ∈ cs → i < length ch0 ∧ i ∉ C) →
  ∃ r' h' ch', custom_loop visit g r h ch cs acc = Ret (acc ++ filter (λ i, some_visible g i = true) cs, r', h', ch') ∧
    world g (C ∪ list_to_set cs) h' ch' ∧
    r_registered r' = r_registered r ∧ r_stable r' = r_stable r ∧ r_version r' = v.
Proof.
  revert r h ch acc C; induction cs as [|i cs IH]; intros r h ch acc C Hw Hv Hnd Hcs; cbn [custom_loop].
  { exists r, h, ch; cbn; by rewrite app_nil_r, union_empty_r_L. }
  apply NoDup_cons in Hnd as [Hi Hnd]; destruct (Hcs i) as [Hlt HC]; [by left|].
  destruct (world_lookup _ _ _ _ _ Hw Hlt) as (c & Hc & _); rewrite (proj2 (index_lookup _ _ _) Hc); cbn [mbind outcome_bind].
  destruct (world_create _ _ _ _ _ _ Hw HC Hc) as (c' & h' & Hcr & Hw'); rewrite Hv, Hcr; cbn [mbind outcome_bind].
  destruct (IH (if some_visible g i then add_resettable r i c' else r) h' (<[i := c']> ch)
    (if some_visible g i then acc ++ [i] else acc) ({[i]} ∪ C) Hw') as (r' & h2 & ch2 & Hl & Hw2 & Hr).
  { destruct (some_visible g i); [|done]; unfold add_resettable; by destruct (sc_resettable c'). }
  { done. }
  { intros j Hj; destruct (Hcs j); [by right|]; set_solver. }
  exists r', h2, ch2; rewrite filter_cons; split; [|split].
  - destruct (some_visible g i); cbn; rewrite ?decide_True, ?decide_False by done; rewrite Hl; by rewrite <- ?app_assoc.
  - cbn; by rewrite (union_comm_L {[i]}), <- union_assoc_L in Hw2.
  - destruct Hr as (-> & -> & ?); split_and!; [..|done]; destruct (some_visible g i); try done;
      unfold add_resettable; by destruct (sc_resettable c').
Qed.

(** The names a collector shows, and a registry that has the collectors of [R]. *)
Definition shown (g : globals) (i : nat) : list string := dname <$> filter (λ d, dvis g d = true) (describes i).

Definition registered (g : globals) (r : @registry V) (R : list nat) : Prop :=
  Forall2 (λ p i, p.1 = i ∧ p.2 ≡ₚ shown g i) (r_registered r) R ∧ Forall (λ i, some_visible g i = true) R ∧ NoDup R.

Lemma shown_elem g i n : n ∈ shown g i ↔ ∃ d, d ∈ describes i ∧ dvis g d = true ∧ dname d = n.
Proof.
  unfold shown; rewrite list_elem_of_fmap; setoid_rewrite list_elem_of_filter; split; [intros (d & -> & ? & ?)|intros (d & ? & ? & <-)]; eauto.
Qed.

Lemma shown_NoDup g i : NoDup (shown g i).
Proof.
  apply NoDup_fmap_2_strong; [|apply NoDup_filter, describes_NoDup].
  intros d d' [_ Hd]%list_elem_of_filter [_ Hd']%list_elem_of_filter; apply dname_inj; by eapply describes_lt.
Qed.

Lemma shown_nonempty g i : some_visible g i = true → ∃ n, n ∈ shown g i.
Proof.
  intros (d & Hd & Hv)%existsb_exists; apply list_elem_of_In in Hd; exists (dname d); apply shown_elem; eauto.
Qed.

Lemma shown_disjoint g g' i j n : n ∈ shown g i → n ∈ shown g' j → i = j.
Proof.
  intros (d & Hd & _ & <-)%shown_elem (d' & Hd' & _ & Hn)%shown_elem.
  apply dname_inj in Hn as ->; [by eapply describes_disjoint|by eapply describes_lt..].
Qed.

Lemma Describe_shown g c i : tables g c → sc_describes c = describes i → Describe visit c ≡ₚ shown g i.
Proof.
  intros (_ & Hr & _) Hd; apply NoDup_Permutation; [|apply shown_NoDup|].
  - unfold Describe; rewrite visit_perm; apply NoDup_fst_map_to_list.
  - intros n; rewrite shown_elem; unfold Describe; rewrite list_elem_of_fmap; split.
    + intros ([n' d] & -> & [[? ?] ?]%visit_elem%Hr); rewrite Hd in *; eauto.
    + intros (d & ? & ? & <-); exists (dname d, d); split; [done|]; apply visit_elem, Hr; by rewrite Hd.
Qed.

Lemma registered_names g r R n : registered g r R → n ∈ concat (r_registered r).*2 → ∃ i, i ∈ R ∧ n ∈ shown g i.
Proof.
  intros [Hf _]; induction Hf as [|[j l] i ps R [_ Hp] _ IH]; cbn; [by intros ?%not_elem_of_nil|].
  cbn in Hp; rewrite elem_of_app, Hp; intros [Hn|Hn]; [exists i; split; [by left|done]|].
  destruct (IH Hn) as (k & Hk & ?); exists k; split; [by right|done].
Qed.

Lemma prom_MustRegister_spec g r C h ch l R :
  world g C h ch → registered g r R → NoDup l → (∀ i, i ∈ l → i < length ch0 ∧ i ∈ C ∧ i ∉ R ∧ some_visible g i = true) →
  ∃ r', prom_MustRegister visit PromRegister r ch l = Ret r' ∧ registered g r' (R ++ l) ∧
    r_stable r' = r_stable r ∧ r_version r' = r_version r.
Proof.
  intros Hw; revert r R; induction l as [|i l IH]; intros r R Hreg Hnd Hl; cbn [prom_MustRegister].
  { exists r; by rewrite app_nil_r. }
  apply NoDup_cons in Hnd as [Hi Hnd]; destruct (Hl i) as (Hlt & HC & HR & Hvis); [by left|].
  destruct (world_lookup _ _ _ _ _ Hw Hlt) as (c & Hc & Hd & _ & Ht); rewrite bool_decide_true in Ht by done.
  rewrite (proj2 (index_lookup _ _ _) Hc); cbn [mbind outcome_bind]; unfold prom_Register.
  pose proof (Describe_shown g c i Ht Hd) as Hsh; rewrite PromRegister_new.
  - destruct (IH (set_prom r (r_registered r ++ [(i, Describe visit c)])) (R ++ [i])) as (r' & Hr' & Hreg' & Hs).
    + destruct Hreg as (Hf & Hv & HnR); split_and!; cbn.
      * apply Forall2_app; [done|]; by repeat constructor.
      * apply Forall_app; by repeat constructor.
      * apply NoDup_app; split_and!; [done| |apply NoDup_singleton]; by intros j Hj ->%list_elem_of_singleton.
    + done.
    + intros j Hj; destruct (Hl j) as (? & ? & ? & ?); [by right|]; split_and!; try done.
      rewrite elem_of_app, list_elem_of_singleton; by intros [?| ->].
    + exists r'; rewrite <- app_assoc in Hreg'; auto.
  - intros He; destruct (shown_nonempty g i Hvis) as [n Hn]; rewrite <- Hsh, He in Hn; by apply not_elem_of_nil in Hn.
  - rewrite Hsh; apply shown_NoDup.
  - intros n; rewrite Hsh; intros Hn (j & Hj & Hn')%(registered_names g r R); [|done].
    by rewrite (shown_disjoint _ _ _ _ _ Hn Hn') in HR.
Qed.

(** *** Showing hidden metrics *)

Lemma clear_descs_lookup h l i :
  clear_descs h l !! i = (λ d, if bool_decide (i ∈ l) then desc_ClearState d else d) <$> h !! i.
Proof.
  revert h; induction l as [|j l IH]; intros h; cbn.
  { rewrite bool_decide_false by apply not_elem_of_nil; by destruct (h !! i). }
  rewrite IH; destruct (decide (j = i)) as [->|Hne].
  - rewrite list_lookup_alter_eq, (bool_decide_true (i ∈ i :: l)) by (by left).
    destruct (h !! i) as [d|]; cbn; [|done]; by case_bool_decide.
  - rewrite list_lookup_alter_ne by done; rewrite (bool_decide_ext (i ∈ j :: l) (i ∈ l)); [done|].
    rewrite elem_of_cons; naive_solver.
Qed.

Lemma clear_descs_length h l : length (clear_descs h l) = length h.
Proof. revert h; induction l as [|i l IH]; intros h; cbn; [done|]; by rewrite IH, length_alter. Qed.

Lemma owned_remove C i d : d ∈ owned (C ∖ {[i]}) ↔ d ∈ owned C ∧ d ∉ describes i.
Proof.
  rewrite !owned_elem; split.
  - intros (j & Hj & Hd); split; [exists j; set_solver|]; intros Hd'; assert (i = j) as -> by (by eapply describes_disjoint); set_solver.
  - intros [(j & Hj & Hd) Hd']; exists j; split; [|done]; assert (j ≠ i) by (by intros ->); set_solver.
Qed.

Lemma world_clear g C h ch i c :
  world g C h ch → i ∈ C → ch !! i = Some c →
  world g (C ∖ {[i]}) (sc_ClearState visit h c).2 (<[i := (sc_ClearState visit h c).1]> ch).
Proof.
  intros Hw HC Hi; pose proof Hw as ([Hlen Hst] & Hlenc & Hch).
  assert (i < length ch0) as Hlt by (rewrite <- Hlenc; by eapply lookup_lt_Some).
  destruct (world_lookup _ _ _ _ _ Hw Hlt) as (c1 & Hc1 & Hd & _ & Ht); simplify_eq; rewrite bool_decide_true in Ht by done.
  pose proof (visit_values _ _ (describes_NoDup i) ltac:(intros n k; rewrite <- Hd; apply (proj1 Ht))) as Hv; cbn; split; [split|split].
  - by rewrite clear_descs_length.
  - intros d d0 Hd0; destruct (Hst d d0 Hd0) as (e & He & Hs); rewrite clear_descs_lookup, He; eexists; split; [done|].
    rewrite (bool_decide_ext (d ∈ (visit (sc_descriptors c)).*2) (d ∈ describes i)) by (by rewrite Hv).
    destruct (decide (d ∈ describes i)) as [Hin|Hout].
    + rewrite (bool_decide_true (d ∈ describes i)), bool_decide_false by (try rewrite owned_remove; tauto).
      rewrite bool_decide_true in Hs by (apply owned_elem; eauto); destruct Hs as [-> _]; symmetry.
      exact (Forall_lookup_1 _ _ _ _ h0_fresh Hd0).
    + rewrite (bool_decide_false (d ∈ describes i)) by done.
      by rewrite (bool_decide_ext (d ∈ owned (C ∖ {[i]})) (d ∈ owned C)) by (rewrite owned_remove; tauto).
  - by rewrite length_insert.
  - intros j c0 Hj; destruct (Hch j c0 Hj) as (cj & Hcj & Hsj & Htj); destruct (decide (j = i)) as [->|Hne].
    + simplify_eq; eexists; rewrite list_lookup_insert_eq by (by eapply lookup_lt_Some); split; [done|]; split; [done|].
      by rewrite bool_decide_false by set_solver.
    + exists cj; rewrite list_lookup_insert_ne by done; split; [done|]; split; [done|].
      by rewrite (bool_decide_ext (j ∈ C ∖ {[i]}) (j ∈ C)) by set_solver.
Qed.

Lemma Unregister_spec g r R c i :
  registered g r R → tables g c → sc_describes c = describes i →
  registered g (Unregister visit r c) (filter (λ j, j ≠ i) R).
Proof.
  intros (Hf & Hv & Hnd) Ht Hd; pose proof (Describe_shown g c i Ht Hd) as Hsh.
  split_and!; [|apply Forall_forall; intros j [_ Hj]%list_elem_of_filter; by eapply Forall_forall in Hv|by apply NoDup_filter].
  unfold Unregister; cbn [r_registered set_prom].
  clear Hnd; induction Hf as [|[k l] j ps R [Hk Hp] Hf IH]; [constructor|].
  cbn in Hk, Hp; subst k; apply Forall_cons in Hv as [Hj Hv]; rewrite !filter_cons.
  assert ((list_to_set l : gset string) ≠ list_to_set (Describe visit c) ↔ j ≠ i) as Hiff.
  { rewrite (list_to_set_perm_L _ _ Hp), (list_to_set_perm_L _ _ Hsh); split; [by intros Hne ->|].
    intros Hne Heq; destruct (shown_nonempty g j Hj) as [n Hn]; apply Hne, (shown_disjoint g g j i n Hn).
    apply (elem_of_list_to_set (C := gset string)); rewrite <- Heq; by apply elem_of_list_to_set. }
  destruct (decide (j ≠ i)) as [Hne|He]; cbn.
  - rewrite !decide_True by (try apply Hiff; done); constructor; [done|auto].
  - rewrite !decide_False by (try rewrite Hiff; done); auto.
Qed.

Lemma HiddenMetrics_spec g c i :
  tables g c → sc_describes c = describes i → (0 <? length (HiddenMetrics visit c)) = some_hidden g i.
Proof.
  intros (_ & _ & Hh) Hd; unfold HiddenMetrics, some_hidden; rewrite length_fmap, visit_perm, length_map_to_list.
  apply table_nonempty; intros n d; rewrite Hh, Hd, negb_true_iff; done.
Qed.

Lemma enable_loop_spec g r h ch l acc C R :
  world g C h ch → registered g r R → NoDup l → (∀ i, i ∈ l → i < length ch0 ∧ i ∈ C) →
  ∃ r' h' ch' R', enable_loop visit r h ch l acc = Ret (acc ++ filter (λ i, some_hidden g i = true) l, r', h', ch') ∧
    world g (C ∖ list_to_set (filter (λ i, some_hidden g i = true) l)) h' ch' ∧ registered g r' R' ∧
    (∀ j, j ∈ R' ↔ j ∈ R ∧ ¬ (j ∈ l ∧ some_hidden g j = true)) ∧ r_version r' = r_version r.
Proof.
  revert r h ch acc C R; induction l as [|i l IH]; intros r h ch acc C R Hw Hreg Hnd Hl; cbn [enable_loop].
  { exists r, h, ch, R; rewrite app_nil_r; cbn; rewrite difference_empty_L; split_and!; try done.
    intros j; split; [|tauto]; intros Hj; split; [done|]; by intros [?%not_elem_of_nil _]. }
  apply NoDup_cons in Hnd as [Hi Hnd]; destruct (Hl i) as [Hlt HC]; [by left|].
  destruct (world_lookup _ _ _ _ _ Hw Hlt) as (c & Hc & Hd & _ & Ht); rewrite bool_decide_true in Ht by done.
  rewrite (proj2 (index_lookup _ _ _) Hc); cbn [mbind outcome_bind]; rewrite (HiddenMetrics_spec g c i Ht Hd), filter_cons.
  destruct (some_hidden g i) eqn:Hh; rewrite ?decide_True, ?decide_False by done.
  - pose proof (world_clear _ _ _ _ _ _ Hw HC Hc) as Hw'; destruct (sc_ClearState visit h c) as [c' h'] eqn:Hcl; cbn in Hw'.
    destruct (IH _ _ _ (acc ++ [i]) _ _ Hw' (Unregister_spec g r R c i Hreg Ht Hd) Hnd) as (r2 & h2 & ch2 & R' & -> & Hw2 & Hreg2 & HR' & Hv).
    { intros j Hj; destruct (Hl j); [by right|]; assert (j ≠ i) by (by intros ->); set_solver. }
    exists r2, h2, ch2, R'; rewrite <- app_assoc; split_and!; try done.
    + by rewrite list_to_set_cons, <- difference_difference_l_L.
    + intros j; rewrite HR', list_elem_of_filter, elem_of_cons; split; [|naive_solver]; intros ([? ?] & ?); naive_solver.
  - destruct (IH r h ch acc C R Hw Hreg Hnd) as (r2 & h2 & ch2 & R' & -> & Hw2 & Hreg2 & HR' & Hv).
    { intros j Hj; apply Hl; by right. }
    exists r2, h2, ch2, R'; split_and!; try done; intros j; rewrite HR', elem_of_cons; split; [|naive_solver].
    intros [? Hn]; split; [done|]; intros [[-> | ?] ?]; [congruence|tauto].
Qed.

(** Showing hidden metrics changes nothing for collectors without any. *)
Lemma dvis_shown g g' i d :
  g_showHidden g' = true → some_hidden g i = false → d ∈ describes i → dvis g' d = dvis g d.
Proof.
  intros Hg Hh Hd; assert (dvis g d = true) as ->.
  { destruct (dvis g d) eqn:Hv; [done|]; assert (some_hidden g i = true); [|congruence].
    apply existsb_exists; exists d; rewrite <- list_elem_of_In, Hv; done. }
  unfold dvis; destruct (lookup_lt_is_Some_2 h0 d (describes_lt i d Hd)) as [x ->]; unfold dvisible; by rewrite Hg.
Qed.

Lemma world_reveal g g' C h ch :
  g_showHidden g' = true → (∀ i, i ∈ C → some_hidden g i = false) → world g C h ch → world g' C h ch.
Proof.
  intros Hg HC ([Hl Hst] & Hlc & Hch); split; [split; [done|]|split; [done|]].
  - intros d d0 Hd; destruct (Hst d d0 Hd) as (e & He & Hs); exists e; split; [done|]; case_bool_decide as Ho; [|done].
    apply owned_elem in Ho as (i & Hi & Hdi); pose proof (dvis_shown g g' i d Hg (HC i Hi) Hdi) as Hv.
    unfold dvis in Hv; rewrite Hd in Hv; unfold settled; by rewrite Hv.
  - intros i c0 Hi; destruct (Hch i c0 Hi) as (c & Hc & Hs & Ht); exists c; split; [done|]; split; [done|]; case_bool_decide as Ho; [|done].
    assert (sc_describes c = describes i) as Hd by (unfold describes; rewrite Hi; apply Hs).
    assert (∀ d b, (d ∈ sc_describes c ∧ dvis g' d = b) ↔ (d ∈ sc_describes c ∧ dvis g d = b)) as Hiff.
    { intros d b; rewrite Hd; split; intros [Hdi Hb]; (split; [done|]); pose proof (dvis_shown g g' i d Hg (HC i Ho) Hdi); congruence. }
    destruct Ht as (H1 & H2 & H3); split_and!; [done|..]; intros n d; [rewrite H2|rewrite H3]; by rewrite Hiff.
Qed.

Lemma dvis_reveal g' i d : g_showHidden g' = true → d ∈ describes i → dvis g' d = true.
Proof.
  intros Hg Hd; unfold dvis; destruct (lookup_lt_is_Some_2 h0 d (describes_lt i d Hd)) as [x ->]; unfold dvisible; by rewrite Hg.
Qed.

Lemma some_visible_reveal g' i d : g_showHidden g' = true → d ∈ describes i → some_visible g' i = true.
Proof. intros Hg Hd; apply existsb_exists; exists d; rewrite <- list_elem_of_In; eauto using dvis_reveal. Qed.

Lemma registered_reveal g g' r R :
  g_showHidden g' = true → (∀ i, i ∈ R → some_hidden g i = false) → registered g r R → registered g' r R.
Proof.
  intros Hg HR (Hf & Hv & Hnd); split_and!; [|apply Forall_forall; intros i Hi|done].
  - clear Hv Hnd; induction Hf as [|[k l] i ps R [Hk Hl] _ IH]; constructor; [|apply IH; intros; apply HR; by right].
    assert (i ∈ i :: R) as Hi by (by left); split; [done|]; rewrite Hl.
    apply NoDup_Permutation; [apply shown_NoDup..|]; intros n; rewrite !shown_elem.
    split; intros (d & Hd & Hv' & Hn); exists d; split_and!; try done; pose proof (dvis_shown g g' i d Hg (HR i Hi) Hd); congruence.
  - eapply Forall_forall in Hv as (d & Hd%list_elem_of_In & _)%existsb_exists; [|done]; by eapply some_visible_reveal.
Qed.

Lemma CustomMustRegister_spec g r h ch cs C R :
  world g C h ch → registered g r R → r_version r = v → NoDup cs →
  (∀ i, i ∈ cs → i < length ch0 ∧ i ∉ C ∧ i ∉ R) →
  ∃ r' h' ch', CustomMustRegister visit PromRegister g r h ch cs = Ret (r', h', ch') ∧
    world g (C ∪ list_to_set cs) h' ch' ∧ registered g r' (R ++ filter (λ i, some_visible g i = true) cs) ∧
    r_stable r' = r_stable r ++ cs ∧ r_version r' = v.
Proof.
  intros Hw Hreg Hv Hnd Hcs; unfold CustomMustRegister.
  destruct (custom_loop_spec g (trackStableCollectors r cs) h ch cs [] C Hw Hv Hnd) as (r1 & h1 & ch1 & -> & Hw1 & Hr1 & Hs1 & Hv1).
  { intros i Hi; destruct (Hcs i Hi) as (? & ? & ?); done. }
  cbn [mbind outcome_bind app].
  destruct (prom_MustRegister_spec g r1 _ h1 ch1 (filter (λ i, some_visible g i = true) cs) R Hw1) as (r2 & -> & Hreg2 & Hs2 & Hv2).
  - unfold registered in *; by rewrite Hr1.
  - by apply NoDup_filter.
  - intros i [? Hi]%list_elem_of_filter; destruct (Hcs i Hi) as (? & ? & ?); split_and!; try done; set_solver.
  - cbn in *; exists r2, h1, ch1; split_and!; try done; congruence.
Qed.

Lemma world_start g : world g ∅ h0 ch0.
Proof.
  split; [split; [done|]|split; [done|]].
  - intros i d0 Hd; exists d0; split; [done|]; rewrite bool_decide_false; [done|]; rewrite owned_elem; set_solver.
  - intros i c0 Hi; exists c0; split; [done|]; split; [done|]; rewrite bool_decide_false by set_solver.
    exact (Forall_lookup_1 _ _ _ _ ch0_blank Hi).
Qed.

Lemma registered_shown g r R n :
  registered g r R → n ∈ concat (r_registered r).*2 ↔ ∃ i, i ∈ R ∧ n ∈ shown g i.
Proof.
  intros Hr; split; [by apply registered_names|]; destruct Hr as [Hf _].
  induction Hf as [|[j l] i ps R [_ Hp] _ IH]; cbn; intros (k & Hk & Hn); [by apply not_elem_of_nil in Hk|].
  cbn in Hp; rewrite elem_of_app, Hp; apply elem_of_cons in Hk as [-> | Hk]; [by left|right; eauto].
Qed.

Lemma registered_NoDup g r R : registered g r R → NoDup (r_registered r).*1.
Proof.
  intros (Hf & _ & Hnd); assert ((r_registered r).*1 = R) as ->; [|done].
  clear Hnd; induction Hf as [|[j l] i ps R [Hj _] _ IH]; cbn; [done|]; cbn in Hj; congruence.
Qed.

(** Registering collectors shows exactly those of their metrics that are not hidden
    by their version, and showing hidden metrics later registers all of them: no collector
    twice, none lost, whatever the order in which the tables are ranged over. *)
Theorem stable_collectors_reveal g g' cs :
  g_showHidden g' = true → NoDup cs → (∀ i, i ∈ cs → i < length ch0) →
  let r0 := {| r_version := v; r_registered := []; r_stable := []; r_resettables := [] |} in
  ∃ r1 h1 ch1 r2 h2 ch2,
    CustomMustRegister visit PromRegister g r0 h0 ch0 cs = Ret (r1, h1, ch1) ∧
    enableHiddenStableCollectors visit PromRegister g' r1 h1 ch1 = Ret (r2, h2, ch2) ∧
    (∀ n, n ∈ concat (r_registered r1).*2 ↔ ∃ i d, i ∈ cs ∧ d ∈ describes i ∧ dname d = n ∧ dvis g d = true) ∧
    (∀ n, n ∈ concat (r_registered r2).*2 ↔ ∃ i d, i ∈ cs ∧ d ∈ describes i ∧ dname d = n) ∧
    NoDup (r_registered r2).*1.
Proof.
  intros Hg Hnd Hcs r0.
  destruct (CustomMustRegister_spec g r0 h0 ch0 cs ∅ [] (world_start g)) as (r1 & h1 & ch1 & H1 & Hw1 & Hreg1 & Hst1 & Hv1); [|done|done|..].
  { split_and!; constructor. }
  { intros i Hi; split_and!; [auto|set_solver|apply not_elem_of_nil]. }
  rewrite union_empty_l_L in Hw1; cbn in Hreg1, Hst1; set (R1 := filter (λ i, some_visible g i = true) cs) in *.
  exists r1, h1, ch1; unfold enableHiddenStableCollectors; rewrite Hst1.
  assert (∀ n, n ∈ concat (r_registered r1).*2 ↔ ∃ i d, i ∈ cs ∧ d ∈ describes i ∧ dname d = n ∧ dvis g d = true) as Hsh1.
  { intros n; rewrite (registered_shown g r1 R1 n Hreg1); unfold R1; setoid_rewrite shown_elem; setoid_rewrite list_elem_of_filter; split.
    - intros (i & [_ Hi] & d & ? & ? & ?); exists i, d; auto.
    - intros (i & d & Hi & Hd & Hn & Hvd); exists i; split; [split; [|done]|eauto].
      apply existsb_exists; exists d; by rewrite <- list_elem_of_In. }
  destruct (length cs =? 0) eqn:H0.
  { apply Nat.eqb_eq, nil_length_inv in H0; exists r1, h1, ch1; split_and!; try done.
    - intros n; rewrite Hsh1; split; [intros (i & d & ? & ? & ? & ?)|intros (i & d & Hi & ?)]; eauto; rewrite H0 in Hi; by apply not_elem_of_nil in Hi.
    - apply (registered_NoDup g r1 R1 Hreg1). }
  destruct (enable_loop_spec g r1 h1 ch1 cs [] (list_to_set cs) R1 Hw1 Hreg1 Hnd) as (r' & h' & ch' & R' & -> & Hw' & Hreg' & HR' & Hv').
  { intros i Hi; split; [auto|set_solver]. }
  cbn [mbind outcome_bind app]; set (K := filter (λ i, some_hidden g i = true) cs) in *.
  assert (∀ i, i ∈ K ↔ some_hidden g i = true ∧ i ∈ cs) as HK by (intros i; unfold K; by rewrite list_elem_of_filter).
  apply (world_reveal g g' _ _ _ Hg) in Hw'.
  2: { intros i Hi; destruct (some_hidden g i) eqn:Hh; [|done]; set_solver. }
  apply (registered_reveal g g' _ _ Hg) in Hreg'.
  2: { intros i Hi; destruct (some_hidden g i) eqn:Hh; [|done]; apply HR' in Hi as [[_ ?]%list_elem_of_filter ?]; tauto. }
  destruct (CustomMustRegister_spec g' {| r_version := r_version r'; r_registered := r_registered r'; r_stable := []; r_resettables := r_resettables r' |}
    h' ch' K _ R' Hw' Hreg') as (r2 & h2 & ch2 & H2 & _ & Hreg2 & _).
  { cbn; congruence. }
  { by apply NoDup_filter. }
  { intros i Hi; pose proof (proj1 (HK i) Hi) as [? ?]; split_and!; [auto|set_solver|]; rewrite HR'; tauto. }
  exists r2, h2, ch2; split_and!; try done; [|by apply (registered_NoDup g' r2 _ Hreg2)].
  intros n; rewrite (registered_shown g' r2 _ n Hreg2); setoid_rewrite elem_of_app; setoid_rewrite shown_elem; split.
  - intros (i & Hi & d & Hd & _ & Hn); exists i, d; split_and!; try done.
    destruct Hi as [[[_ ?]%list_elem_of_filter _]%HR'|[_ [_ ?]%HK]%list_elem_of_filter]; done.
  - intros (i & d & Hi & Hd & Hn); exists i; split; [|exists d; eauto using dvis_reveal].
    destruct (some_hidden g i) eqn:Hh; [right|left].
    + apply list_elem_of_filter; rewrite HK; eauto using some_visible_reveal.
    + apply HR'; split; [|intros [_ ?]; congruence]; apply list_elem_of_filter; split; [|done].
      apply existsb_exists; exists d; rewrite <- list_elem_of_In, <- (dvis_shown g g' i d) by done; eauto using dvis_reveal.
Qed.
End theorems.

(** ** Examples *)

Module StableCollectorsExamples.
#[local] Existing Instance MetricsExamples.semver3.

Definition shared (old : list (list string)) (new : list string) : bool := existsb (λ n, bool_decide (n ∈ concat old)) new.
Definition prom (old : list (list string)) (new : list string) : option error :=
  if bool_decide (new = []) then Some (Errorf "collector has no descriptors" [])
  else if shared old new then Some (Errorf "duplicate metrics collector registration attempted" []) else None.

Lemma prom_accepts_new old new :
  new ≠ [] → NoDup new → (∀ n, n ∈ new → n ∉ concat old) → prom old new = None.
Proof.
  intros Hne _ Hn; unfold prom; rewrite bool_decide_false by done; destruct (shared old new) eqn:Hs; [|done].
  apply existsb_exists in Hs as (n & Hin & Ho%bool_decide_eq_true); apply list_elem_of_In in Hin; by destruct (Hn n Hin).
Qed.

(** A collector of two metrics, one of which was deprecated in 1.2, and one of an old
    metric only. *)
Definition descs : list Desc :=
  [NewDesc "pods" "Pods." [] ∅ "STABLE" ""; NewDesc "pods_old" "Pods." [] ∅ "" "1.2.0"; NewDesc "nodes_old" "Nodes." [] ∅ "" "1.1.0"].
Definition collector_of (l : list nat) : collector :=
  {| sc_describes := l; sc_collects := (λ i, (i, [])) <$> l; sc_resettable := false;
     sc_descriptors := ∅; sc_registerable := ∅; sc_hidden := ∅ |}.
Definition collectors : list collector := [collector_of [0; 1]; collector_of [2]].
Definition hiding : globals := {| g_showHidden := false; g_showHiddenOnce := false; g_disabled := ∅ |}.
Definition showing : globals := {| g_showHidden := true; g_showHiddenOnce := true; g_disabled := ∅ |}.
Definition registry0 : @registry (Z * Z * Z) := {| r_version := (1, 5, 0)%Z; r_registered := []; r_stable := []; r_resettables := [] |}.

Lemma collectors_disjoint i j ci cj d :
  collectors !! i = Some ci → collectors !! j = Some cj → d ∈ sc_describes ci → d ∈ sc_describes cj → i = j.
Proof.
  destruct i as [|[|[]]], j as [|[|[]]]; try done; intros [= <-] [= <-]; cbn; set_unfold; lia.
Qed.

Lemma descs_ok :
  Forall dfresh descs ∧ Forall (dparses (1, 5, 0)%Z) descs ∧ NoDup (d_fqName <$> descs) ∧ Forall (λ d, d_fqName d ≠ "") descs.
Proof.
  split_and!; try (apply (bool_decide_unpack _); vm_compute; exact I); unfold descs; rewrite !Forall_cons; split_and!; try done;
    (split; [by eexists|]); first [by left|right; by eexists].
Qed.

Lemma collectors_ok : Forall blank collectors ∧ Forall (declared descs) collectors.
Proof.
  unfold collectors; rewrite !Forall_cons; split_and!; try done; (split; [apply (bool_decide_unpack _); vm_compute; exact I|]);
    intros i Hi; cbn in Hi; set_unfold in Hi; cbn; lia.
Qed.

Definition ret_of {A} (m : outcome A) : option A := match m with Ret x => Some x | Panic _ => None end.

Lemma stable_collectors_reveal_witness :
  ∃ r1 h1 ch1 r2 h2 ch2,
    CustomMustRegister map_to_list prom hiding registry0 descs collectors [0; 1] = Ret (r1, h1, ch1) ∧
    enableHiddenStableCollectors map_to_list prom showing r1 h1 ch1 = Ret (r2, h2, ch2) ∧
    "nodes_old" ∈ concat (r_registered r2).*2.
Proof.
  destruct descs_ok as (D1 & D2 & D3 & D4); destruct collectors_ok as [C1 C2].
  destruct (stable_collectors_reveal map_to_list (λ m, reflexivity _) (1, 5, 0)%Z descs D1 D2 D3 D4
    prom prom_accepts_new collectors C1 C2 collectors_disjoint hiding showing [0; 1])
    as (r1 & h1 & ch1 & r2 & h2 & ch2 & H1 & H2 & _ & Hn & _).
  - reflexivity.
  - apply (bool_decide_unpack _); vm_compute; exact I.
  - intros i Hi; set_unfold in Hi; cbn; lia.
  - exists r1, h1, ch1, r2, h2, ch2; split; [exact H1|]; split; [exact H2|]; apply Hn; exists 1, 2.
    split_and!; [by right; left|by left|reflexivity].
Defined.

(** The metrics of custom collectors cannot be disabled. *)
Lemma stable_disabled_shown :
  (λ x, (r_registered x.1.1).*2) <$>
    ret_of (CustomMustRegister map_to_list prom {| g_showHidden := false; g_showHiddenOnce := false; g_disabled := {[ "pods" ]} |}
      registry0 descs collectors [0]) = Some [["pods"]].
Proof. vm_compute; reflexivity. Qed.

(** A collector cannot be registered in a second registry: its tables are still filled. *)
Lemma second_registry_panics :
  (λ x, returns (CustomMustRegister map_to_list prom hiding registry0 x.1.2 x.2 [0])) <$>
    ret_of (CustomMustRegister map_to_list prom hiding registry0 descs collectors [0]) = Some false.
Proof. vm_compute; reflexivity. Qed.

(** Collecting leaves hidden metrics out. *)
Lemma collect_skips_hidden :
  (λ x, Collect (λ _ _, None) x.1.2 [(0, []); (1, [])]) <$>
    ret_of (CustomMustRegister map_to_list prom hiding registry0 descs collectors [0]) = Some (Ret [("pods", [])]).
Proof. vm_compute; reflexivity. Qed.
End StableCollectorsExamples.
