(* ===== verification/LogsConfig.v ===== *)
(** * Configuration of logging

    Models components/logs/api/v1: the configuration (types.go), its flags (pflags.go),
    the registry of formats (registry.go), the features (kube_features.go), validation and
    application (options.go); and pkg/proc/logging, which applies it when a process
    starts.  klog is what is done to it: a list of effects, with its own flags as
    parameters.  Quantities are golib's; errors of fields are recorded symbolically. *)

From stdpp Require Import pretty.
From S2P Require Import Prelude GoStrings GoEncoding FeatureGate CliFlags RbacTypes Streams.

Local Open Scope go_scope.

(** ** Features *)

Definition ContextualLogging : string := "ContextualLogging".
Definition contextualLoggingDefault : bool := false.
Definition LoggingAlphaOptions : string := "LoggingAlphaOptions".
Definition LoggingBetaOptions : string := "LoggingBetaOptions".
Definition LoggingStableOptions : string := "LoggingStableOptions".

Definition featureGates : gmap string FeatureSpec := list_to_map
  [(ContextualLogging, {| Default := contextualLoggingDefault; LockToDefault := false; PreRelease := Alpha |});
   (LoggingAlphaOptions, {| Default := false; LockToDefault := false; PreRelease := Alpha |});
   (LoggingBetaOptions, {| Default := true; LockToDefault := false; PreRelease := Beta |})].

(** Add ranges over the map in some order. *)
Definition AddFeatureGates (order : gmap string FeatureSpec → list (string * FeatureSpec)) (gate : featureGate)
    : option error * featureGate :=
  Add gate (order featureGates).

(** ** The configuration *)

Record VModuleItem := { FilePattern : string; vi_Verbosity : Z }.
Abbreviation VModuleConfiguration := (list VModuleItem).

(** VerbosityLevel is a uint32. *)
Definition VerbosityLevel_String (v : Z) : string := Itoa (uint32 v).

Definition VerbosityLevel_Set (v : Z) (s : string) : option error * Z :=
  match ParseUint s 32 with
  | inr err => (Some err, v)
  | inl i => (None, uint32 i)
  end.

Definition item_String (item : VModuleItem) : string := FilePattern item +:+ "=" +:+ Itoa (vi_Verbosity item).

Definition VModuleConfiguration_String (v : VModuleConfiguration) : string := Join (item_String <$> v) ",".

(** One pattern=N. *)
Definition parse_item (pat : string) : VModuleItem + error :=
  match Split pat "="%char with
  | [pattern; level] =>
      if (slen pattern =? 0) || (slen level =? 0) then inr (Errorf "%q does not have the pattern=N format" [pat])
      else match ParseUint level 31 with
      | inr err => inr (ErrorWrap "parsing verbosity in %q: %v" [pat] err)
      | inl v => inl {| FilePattern := pattern; vi_Verbosity := v |}
      end
  | _ => inr (Errorf "%q does not have the pattern=N format" [pat])
  end.

(** The loop of Set; what was appended before an error stays. *)
Fixpoint set_items (v : VModuleConfiguration) (pats : list string) : option error * VModuleConfiguration :=
  match pats with
  | [] => (None, v)
  | pat :: pats =>
      if slen pat =? 0 then set_items v pats
      else match parse_item pat with
      | inr err => (Some err, v)
      | inl item => set_items (v ++ [item]) pats
      end
  end.

(** The receiver is a value: what was parsed is lost. *)
Definition VModuleConfiguration_Set (v : VModuleConfiguration) (value : string) : option error * VModuleConfiguration :=
  ((set_items v (Split value ","%char)).1, v).

Definition vmodulePFlag_String (v : VModuleConfiguration) : string := Join (item_String <$> v) ",".

Definition vmodulePFlag_Set (v : VModuleConfiguration) (value : string) : option error * VModuleConfiguration :=
  set_items v (Split value ","%char).

Definition verbosityPflag_String (v : Z) : string := Itoa v.

Definition verbosityPflag_Set (v : Z) (value : string) : option error * Z :=
  match ParseUint value 31 with
  | inr err => (Some err, v)
  | inl i => (None, uint32 i)
  end.

(** resource.QuantityValue. *)
Class Quantities (Q : Type) := {
  q_eq_dec :: EqDecision Q;
  q_Value : Q → Z;
  q_empty : Q;
  q_zero : Q; (* NewQuantity(0, DecimalSI), printed *)
}.

Class QuantitiesLaws (Q : Type) `{Quantities Q} := {
  q_Value_empty : q_Value q_empty = 0%Z;
  q_Value_zero : q_Value q_zero = 0%Z;
}.

(** A factory of loggers. *)
Section config.
Context `{Quantities Q} {Factory : Type}.

Record LoggingConfiguration := {
  lc_Format : string;
  lc_FlushFrequency : Z;
  lc_Verbosity : Z;
  lc_VModule : VModuleConfiguration;
  lc_SplitStream : bool;
  lc_InfoBufferSize : Q;
}.

Definition LogFlushFreqDefault : Z := 5000000000.
Definition DefaultLogFormat : string := "text".
Definition JSONLogFormat : string := "json".

Definition SetRecommendedLoggingConfiguration (c : LoggingConfiguration) : LoggingConfiguration :=
  {| lc_Format := if lc_Format c == "" then "text" else lc_Format c;
     lc_FlushFrequency := if (lc_FlushFrequency c =? 0)%Z then LogFlushFreqDefault else lc_FlushFrequency c;
     lc_Verbosity := lc_Verbosity c; lc_VModule := lc_VModule c; lc_SplitStream := lc_SplitStream c;
     lc_InfoBufferSize := if lc_InfoBufferSize c == q_empty then q_zero else lc_InfoBufferSize c |}.

Definition NewLoggingConfiguration : LoggingConfiguration :=
  SetRecommendedLoggingConfiguration
    {| lc_Format := ""; lc_FlushFrequency := 0; lc_Verbosity := 0; lc_VModule := []; lc_SplitStream := false;
       lc_InfoBufferSize := q_empty |}.

(** ** The registry of formats *)

Record logFormat := { lf_factory : option Factory; lf_feature : string }.
Record logFormatRegistry := { lr_registry : gmap string logFormat; lr_frozen : bool }.

Definition lfr_register (lfr : logFormatRegistry) (name : string) (format : logFormat) : option error * logFormatRegistry :=
  if lr_frozen lfr then (Some (Errorf "log format registry is frozen, unable to register log format %s" [name]), lfr)
  else if bool_decide (is_Some (lr_registry lfr !! name)) then (Some (Errorf "log format: %s already exists" [name]), lfr)
  else if negb (bool_decide (is_Some (featureGates !! lf_feature format))) && (lf_feature format != LoggingStableOptions)
  then (Some (Errorf "log format %s: unsupported feature gate %s" [name; lf_feature format]), lfr)
  else (None, {| lr_registry := <[name := format]> (lr_registry lfr); lr_frozen := lr_frozen lfr |}).

Definition newLogFormatRegistry : logFormatRegistry :=
  (lfr_register {| lr_registry := ∅; lr_frozen := false |} "text" {| lf_factory := None; lf_feature := LoggingStableOptions |}).2.

Definition lfr_get (lfr : logFormatRegistry) (name : string) : logFormat + error :=
  match lr_registry lfr !! name with
  | Some format => inl format
  | None => inr (Errorf "log format: %s does not exists" [name])
  end.

Definition quoted (name : string) : string := String "034"%char (name +:+ String "034"%char "").

Definition lfr_list (lfr : logFormatRegistry) : string :=
  Join (merge_sort String.le
    ((λ '(name, format), quoted name +:+
        (if lf_feature format != LoggingStableOptions then " (gated by " +:+ lf_feature format +:+ ")" else ""))
       <$> map_to_list (lr_registry lfr))) ", ".

Definition lfr_freeze (lfr : logFormatRegistry) : logFormatRegistry :=
  {| lr_registry := lr_registry lfr; lr_frozen := true |}.

Definition RegisterLogFormat (lfr : logFormatRegistry) (name : string) (factory : Factory) (feature : string)
    : option error * logFormatRegistry :=
  lfr_register lfr name {| lf_factory := Some factory; lf_feature := feature |}.

(** ** Validation *)

Inductive lerror :=
  | LInvalid (path : list path_elem) (value detail : string)
  | LForbidden (path : list path_elem) (detail : string)
  | LRequired (path : list path_elem) (detail : string).

(** klog's flags as klogflags.Init takes them over: name, default and present value. *)
Record klog_flags := { kf_v : string; kf_vmodule : string }.
Definition loggingFlags (kf : klog_flags) : list (string * string * string) :=
  [("v", "0", kf_v kf); ("vmodule", "", kf_vmodule kf)].

Definition supportedLogsFlags : list string := ["v"].

(** The copies of the flags are visited again under their normalized names. *)
Definition unsupportedLoggingFlags (kf : klog_flags) (normalize : string → string) : list (string * string * string) :=
  (λ '(name, def, value), (normalize name, def, value)) <$>
    filter (λ f, f.1.1 ∉ supportedLogsFlags) (loggingFlags kf).

Definition MaxInt32 : Z := 2147483647.

(** The gate is optional; Enabled panics for features it does not know. *)
Definition featureEnabled (gate : option featureGate) (feature : string) : outcome bool :=
  match gate with Some g => Enabled g feature | None => Ret false end.

Definition when_disabled (enabled : outcome bool) (err : lerror) : outcome (list lerror) :=
  b ← enabled; Ret (if (b : bool) then [] else [err]).

Definition validateJSONOptions (c : LoggingConfiguration) (gate : option featureGate) (fldPath : list path_elem) : outcome (list lerror) :=
  a ← (if lc_SplitStream c
       then when_disabled (featureEnabled gate LoggingAlphaOptions) (LForbidden (fldPath ++ [Child "splitStream"]) "Feature LoggingAlphaOptions is disabled")
       else Ret []);
  b ← (if (q_Value (lc_InfoBufferSize c) =? 0)%Z then Ret []
       else when_disabled (featureEnabled gate LoggingAlphaOptions) (LForbidden (fldPath ++ [Child "infoBufferSize"]) "Feature LoggingAlphaOptions is disabled"));
  Ret (a ++ b).

Definition validateFormatOptions (c : LoggingConfiguration) (gate : option featureGate) (fldPath : list path_elem) : outcome (list lerror) :=
  validateJSONOptions c gate (fldPath ++ [Child "json"]).

Definition validate_item (path : list path_elem) (item : VModuleItem) : list lerror :=
  (if FilePattern item == "" then [LRequired path "File pattern must not be empty"] else []) ++
  (if ContainsByte (FilePattern item) "="%char || ContainsByte (FilePattern item) ","%char
   then [LInvalid path (FilePattern item) "File pattern must not contain equal sign or comma"] else []) ++
  (if (MaxInt32 <? vi_Verbosity item)%Z then [LInvalid path (Itoa (vi_Verbosity item)) "Must be <= 2147483647"] else []).

(** The flags a format other than text does not honour. *)
Definition validate_flags (kf : klog_flags) (format : string) (path : list path_elem) : list lerror :=
  if format != DefaultLogFormat then
    unsupportedLoggingFlags kf WordSepNormalizeFunc ≫= λ '(name, def, value),
      if def != value then [LInvalid path format ("Non-default format doesn't honor flag: " +:+ name)] else []
  else [].

Definition validate_format (lfr : logFormatRegistry) (gate : option featureGate) (name : string) (path : list path_elem) : outcome (list lerror) :=
  match lfr_get lfr name with
  | inr _ => Ret [LInvalid path name "Unsupported log format"]
  | inl format =>
      if lf_feature format != LoggingStableOptions then
        when_disabled
          (match gate with
           | Some g => Enabled g (lf_feature format)
           | None => Ret (default false (Default <$> featureGates !! lf_feature format))
           end)
          (LForbidden path ("Log format " +:+ name +:+ " is disabled, see " +:+ lf_feature format +:+ " feature"))
      else Ret []
  end.

Definition Validate (lfr : logFormatRegistry) (kf : klog_flags) (c : LoggingConfiguration) (gate : option featureGate)
    (fldPath : list path_elem) : outcome (list lerror) :=
  let flags := validate_flags kf (lc_Format c) (fldPath ++ [Child "format"]) in
  format ← validate_format lfr gate (lc_Format c) (fldPath ++ [Child "format"]);
  let verbosity :=
    if (MaxInt32 <? lc_Verbosity c)%Z
    then [LInvalid (fldPath ++ [Child "verbosity"]) (Itoa (lc_Verbosity c)) "Must be <= 2147483647"] else [] in
  let vmoduleFldPath := fldPath ++ [Child "vmodule"] in
  let vmodule :=
    if (0 <? length (lc_VModule c)) && (lc_Format c != "") && (lc_Format c != "text")
    then [LForbidden vmoduleFldPath "Only supported for text log format"] else [] in
  let items := concat (imap (λ i item, validate_item (vmoduleFldPath ++ [Index i]) item) (lc_VModule c)) in
  options ← validateFormatOptions c gate (fldPath ++ [Child "options"]);
  Ret (flags ++ format ++ verbosity ++ vmodule ++ items ++ options).

(** ** Application *)

Inductive effect :=
  | ClearLogger | SetLoggerWithOptions (factory : Factory) (c : LoggingConfiguration) (contextual : bool)
  | SetV (value : string) | SetVModule (value : string)
  | StartFlushDaemon (frequency : Z) | EnableContextualLogging (enabled : bool).

(** Set of klog's flags -v and -vmodule. *)
Context (klog_v_Set klog_vmodule_Set : string → option error).

(** What was done to klog, with the error. *)
Definition apply (lfr : logFormatRegistry) (c : LoggingConfiguration) (gate : option featureGate)
    : outcome (option error * list effect) :=
  contextual ← match gate with Some g => Enabled g ContextualLogging | None => Ret contextualLoggingDefault end;
  logger ← match lfr_get lfr (lc_Format c) with
           | inr _ => Panic "invalid memory address or nil pointer dereference"
           | inl format =>
               match lf_factory format with
               | None => Ret ClearLogger
               | Some factory => Ret (SetLoggerWithOptions factory c contextual)
               end
           end;
  let v := verbosityPflag_String (lc_Verbosity c) in
  match klog_v_Set v with
  | Some err => Ret (Some (ErrorWrap "internal error while setting klog verbosity: %v" [] err), [logger])
  | None =>
      let vmodule := vmodulePFlag_String (lc_VModule c) in
      match klog_vmodule_Set vmodule with
      | Some err => Ret (Some (ErrorWrap "internal error while setting klog vmodule: %v" [] err), [logger; SetV v])
      | None =>
          Ret (None, [logger; SetV v; SetVModule vmodule; StartFlushDaemon (lc_FlushFrequency c); EnableContextualLogging contextual])
      end
  end.

(** field.ErrorList.ToAggregate. *)
Context (ToAggregate : list lerror → option error).

Definition ValidateAndApplyAsField (lfr : logFormatRegistry) (kf : klog_flags) (c : LoggingConfiguration) (gate : option featureGate)
    (fldPath : list path_elem) : outcome (option error * list effect) :=
  errs ← Validate lfr kf c gate fldPath;
  if 0 <? length errs then Ret (ToAggregate errs, []) else apply lfr c gate.

Definition ValidateAndApply (lfr : logFormatRegistry) (kf : klog_flags) (c : LoggingConfiguration) (gate : option featureGate)
    : outcome (option error * list effect) :=
  ValidateAndApplyAsField lfr kf c gate [].

(** ** The module (pkg/proc/logging) *)

(** InitLogs; [logFlushFreq] is the value of its flag. *)
Definition InitLogs (logFlushFreq : Z) : list effect := [StartFlushDaemon logFlushFreq; EnableContextualLogging false].

(** [Read] is the configuration from the defaults. *)
Definition logging_start (order : gmap string FeatureSpec → list (string * FeatureSpec)) (gate : featureGate) (lfr : logFormatRegistry)
    (kf : klog_flags) (logFlushFreq : Z) (Read : LoggingConfiguration → LoggingConfiguration + error)
    : outcome (option error * list effect * featureGate) :=
  match AddFeatureGates order gate with
  | (Some err, gate) => Ret (Some err, [], gate)
  | (None, gate) =>
      match Read NewLoggingConfiguration with
      | inr err => Ret (Some err, InitLogs logFlushFreq, gate)
      | inl config =>
          r ← ValidateAndApplyAsField lfr kf config (Some gate) [Child "logging"];
          let err : option error := ErrorWrap "initialize logging: %v" [] <$> r.1 in
          Ret (err, InitLogs logFlushFreq ++ r.2, gate)
      end
  end.
End config.

(** ** Theorems *)

(** *** Flags *)

(** What -vmodule can express. *)
Definition valid_item (item : VModuleItem) : Prop :=
  FilePattern item ≠ "" ∧ ContainsByte (FilePattern item) "="%char = false ∧ ContainsByte (FilePattern item) ","%char = false ∧
  (0 ≤ vi_Verbosity item ≤ MaxInt32)%Z.

Lemma Itoa_no_sep n c : c = "="%char ∨ c = ","%char → ContainsByte (Itoa n) c = false.
Proof. intros [->| ->]; apply Itoa_ContainsByte; [done|no_digit|done|no_digit]. Qed.

Lemma item_String_no_comma item : valid_item item → ContainsByte (item_String item) ","%char = false.
Proof.
  intros (_ & _ & Hc & _); unfold item_String; rewrite !ContainsByte_app, Hc; cbn [ContainsByte orb].
  by rewrite bool_decide_eq_false_2, Itoa_no_sep by auto.
Qed.

Lemma slen_zero s : (slen s =? 0) = bool_decide (s = "").
Proof. by destruct s. Qed.

Lemma parse_item_String item : valid_item item → parse_item (item_String item) = inl item.
Proof.
  intros (Hp & He & _ & Hv); unfold parse_item, item_String.
  change ("=" +:+ Itoa (vi_Verbosity item)) with (String "="%char (Itoa (vi_Verbosity item))).
  rewrite Split_app, Split_no_sep by (done || apply Itoa_no_sep; auto).
  rewrite !slen_zero, (bool_decide_eq_false_2 _ Hp), bool_decide_eq_false_2.
  - unfold MaxInt32 in Hv; rewrite ParseUint_Itoa by lia; by destruct item.
  - intros Hi; assert (ParseUint (Itoa (vi_Verbosity item)) 31 = inl (vi_Verbosity item)) as Hu.
    { apply ParseUint_Itoa; unfold MaxInt32 in Hv; lia. }
    by rewrite Hi in Hu.
Qed.

Lemma item_String_non_empty item : slen (item_String item) =? 0 = false.
Proof. unfold item_String; by destruct (FilePattern item). Qed.

Lemma set_items_String v items :
  Forall valid_item items → set_items v (item_String <$> items) = (None, v ++ items).
Proof.
  intros Hi; revert v; induction Hi as [|item items Hv Hi IH]; intros v; simpl; [by rewrite app_nil_r|].
  by rewrite item_String_non_empty, parse_item_String, IH, <- app_assoc.
Qed.

(** What -vmodule prints it reads back, and adds to what was set before. *)
Theorem vmodule_roundtrip v items :
  Forall valid_item items → vmodulePFlag_Set v (vmodulePFlag_String items) = (None, v ++ items).
Proof.
  intros Hi; unfold vmodulePFlag_Set, vmodulePFlag_String.
  destruct (decide (items = [])) as [->|Hn]; [by rewrite app_nil_r|].
  rewrite Split_Join; [by apply set_items_String| by destruct items|].
  rewrite Forall_fmap; eapply Forall_impl; [done|]; intros item; apply item_String_no_comma.
Qed.

Lemma parse_item_valid pat item :
  ContainsByte pat ","%char = false → parse_item pat = inl item → valid_item item.
Proof.
  intros Hc; unfold parse_item; pose proof (Split_parts_no_sep pat "="%char) as Hs.
  pose proof (Join_Split pat "="%char) as Hj.
  destruct (Split pat "="%char) as [|p [|l [|]]]; [done|done| |done].
  apply Forall_cons in Hs as [Hs _]; simpl in Hj; subst pat.
  rewrite !slen_zero; destruct (decide (p = "")) as [->|Hp]; [done|].
  rewrite (bool_decide_eq_false_2 _ Hp); destruct (bool_decide (l = "")); [done|]; simpl.
  destruct (ParseUint l 31) as [n|] eqn:Hn; [|done]; intros [= <-].
  apply ParseUint_range in Hn; [|lia]. rewrite ContainsByte_app in Hc; apply orb_false_iff in Hc as [Hc _].
  unfold valid_item, MaxInt32; simpl; split_and!; [done..|lia|lia].
Qed.

Lemma set_items_valid v pats :
  Forall valid_item v → Forall (λ pat, ContainsByte pat ","%char = false) pats → Forall valid_item (set_items v pats).2.
Proof.
  intros Hv Hp; revert v Hv; induction Hp as [|pat pats Hc Hp IH]; intros v Hv; simpl; [done|].
  destruct (slen pat =? 0); [by apply IH|]. destruct (parse_item pat) as [item|] eqn:E; [|done].
  apply IH, Forall_app_2; [done|]. by apply Forall_singleton, (parse_item_valid pat).
Qed.

(** Whatever the flag is given, it holds valid items only, also after an error. *)
Lemma vmodule_Set_valid v value : Forall valid_item v → Forall valid_item (vmodulePFlag_Set v value).2.
Proof. intros Hv; apply set_items_valid; [done|apply Split_parts_no_sep]. Qed.

(** The method of the configuration itself accepts the same values and keeps none. *)
Lemma VModuleConfiguration_Set_drops v value :
  VModuleConfiguration_Set v value = ((vmodulePFlag_Set v value).1, v).
Proof. done. Qed.

(** Levels are printed and read at 32 bits; the flag reads 31. *)
Lemma verbosity_roundtrip v w :
  ((0 ≤ v < 2 ^ 32 → VerbosityLevel_Set w (VerbosityLevel_String v) = (None, v)) ∧
   (0 ≤ v ≤ MaxInt32 → verbosityPflag_Set w (verbosityPflag_String v) = (None, v)))%Z.
Proof.
  unfold VerbosityLevel_Set, VerbosityLevel_String, verbosityPflag_Set, verbosityPflag_String, uint32, MaxInt32; split; intros Hv.
  - rewrite Z.mod_small, ParseUint_Itoa by lia. by rewrite Z.mod_small.
  - rewrite ParseUint_Itoa by lia. by rewrite Z.mod_small by lia.
Qed.

Section config_theorems.
Context `{QuantitiesLaws Q} {Factory : Type}.
Implicit Types (lfr : logFormatRegistry (Factory := Factory)) (c : LoggingConfiguration (Q := Q)).

(** *** Formats *)

(** Formats belong to features of the package, and text is always there. *)
Definition registry_ok lfr : Prop :=
  (∀ name format, lr_registry lfr !! name = Some format →
     lf_feature format = LoggingStableOptions ∨ is_Some (featureGates !! lf_feature format)) ∧
  lr_registry lfr !! "text" = Some {| lf_factory := None; lf_feature := LoggingStableOptions |}.

Lemma newLogFormatRegistry_ok : registry_ok (newLogFormatRegistry (Factory := Factory)).
Proof.
  assert (lr_registry (newLogFormatRegistry (Factory := Factory)) = {[ "text" := {| lf_factory := None; lf_feature := LoggingStableOptions |} ]}) as Hr
    by reflexivity.
  split; rewrite Hr; [|done]. intros name format [_ <-]%lookup_singleton_Some; by left.
Qed.

Lemma register_ok lfr name format : registry_ok lfr → registry_ok (lfr_register lfr name format).2.
Proof.
  intros [Hf Ht]; unfold lfr_register; destruct (lr_frozen lfr); [done|].
  case_bool_decide as Hn; [done|]; simpl. destruct (_ && _) eqn:E; [done|]; split; simpl.
  - intros name' format'; rewrite lookup_insert_Some; intros [[<- <-]|[_ Hl]]; [|by apply (Hf name')].
    apply andb_false_iff in E as [E|E]; [right|left].
    + by apply negb_false_iff, bool_decide_eq_true in E.
    + by apply negb_false_iff, bool_decide_eq_true in E.
  - rewrite lookup_insert_ne; [done|]. intros ->; apply Hn; by rewrite Ht.
Qed.

(** A frozen registry does not change, and a registered format never does. *)
Lemma register_keeps lfr name format name' format' :
  lr_registry lfr !! name' = Some format' → lr_registry (lfr_register lfr name format).2 !! name' = Some format'.
Proof.
  intros Hl; unfold lfr_register; destruct (lr_frozen lfr); [done|]. case_bool_decide as Hn; [done|].
  destruct (_ && _); [done|]; simpl. rewrite lookup_insert_ne; [done|]. intros ->; apply Hn; by rewrite Hl.
Qed.

Lemma frozen_register lfr name format : (lfr_register (lfr_freeze lfr) name format).2 = lfr_freeze lfr.
Proof. done. Qed.

(** *** Validation *)

(** A gate that knows the features of the package. *)
Definition gate_ok (gate : option featureGate) : Prop :=
  ∀ k, is_Some (featureGates !! k) → from_option (λ g, ∃ b, Enabled g k = Ret b) True gate.

Definition feature_on (gate : option featureGate) (k : string) : bool :=
  match gate with
  | None => default false (Default <$> featureGates !! k)
  | Some g => match Enabled g k with Ret b => b | Panic _ => false end
  end.

Definition format_on (gate : option featureGate) (format : logFormat (Factory := Factory)) : bool :=
  (lf_feature format == LoggingStableOptions) || feature_on gate (lf_feature format).

Definition item_ok (item : VModuleItem) : Prop :=
  FilePattern item ≠ "" ∧ ContainsByte (FilePattern item) "="%char = false ∧ ContainsByte (FilePattern item) ","%char = false ∧
  (vi_Verbosity item ≤ MaxInt32)%Z.

(** A valid configuration. *)
Definition config_ok lfr (kf : klog_flags) c (gate : option featureGate) : Prop :=
  (∃ format, lr_registry lfr !! lc_Format c = Some format ∧ format_on gate format = true) ∧
  (lc_Format c ≠ "text" → kf_vmodule kf = "") ∧
  (lc_Verbosity c ≤ MaxInt32)%Z ∧
  (lc_VModule c ≠ [] → lc_Format c = "" ∨ lc_Format c = "text") ∧
  Forall item_ok (lc_VModule c) ∧
  (lc_SplitStream c = true ∨ q_Value (lc_InfoBufferSize c) ≠ 0%Z → feature_on gate LoggingAlphaOptions = true).

Lemma gate_Enabled g k : gate_ok (Some g) → is_Some (featureGates !! k) → Enabled g k = Ret (feature_on (Some g) k).
Proof. intros Hg [b Hb]%Hg; simpl in *; by rewrite Hb. Qed.

Lemma featureEnabled_on gate : gate_ok gate → featureEnabled gate LoggingAlphaOptions = Ret (feature_on gate LoggingAlphaOptions).
Proof. intros Hg; destruct gate as [g|]; [|done]. simpl; by rewrite gate_Enabled by (done || by eexists). Qed.

Lemma validate_item_nil path item : validate_item path item = [] ↔ item_ok item.
Proof.
  unfold validate_item, item_ok; rewrite !app_nil. case_bool_decide as Hp; [naive_solver|].
  destruct (ContainsByte _ "="%char), (ContainsByte _ ","%char); simpl; try naive_solver.
  destruct (Z.ltb_spec MaxInt32 (vi_Verbosity item)); [naive_solver lia|naive_solver].
Qed.

Lemma validate_items_nil (path : list path_elem) l :
  concat (imap (λ i item, validate_item (path ++ [Index i]) item) l) = [] ↔
  Forall item_ok l.
Proof.
  assert (∀ f : nat → list path_elem, concat (imap (λ i item, validate_item (f i) item) l) = [] ↔
    Forall item_ok l) as Hf; [|apply Hf].
  induction l as [|item l IH]; intros f; [by split|]. rewrite imap_cons; simpl.
  rewrite app_nil, validate_item_nil, Forall_cons. by rewrite (IH (λ i, f (S i))).
Qed.

Lemma validate_options c gate path :
  gate_ok gate → ∃ l, validateFormatOptions c gate path = Ret l ∧
    (l = [] ↔ (lc_SplitStream c = true ∨ q_Value (lc_InfoBufferSize c) ≠ 0%Z → feature_on gate LoggingAlphaOptions = true)).
Proof.
  intros Hg; unfold validateFormatOptions, validateJSONOptions, when_disabled; rewrite featureEnabled_on by done; simpl.
  destruct (lc_SplitStream c), (Z.eqb_spec (q_Value (lc_InfoBufferSize c)) 0), (feature_on gate LoggingAlphaOptions);
    simpl; eexists; (split; [done|]); naive_solver.
Qed.

Lemma validate_flags_nil kf format path : validate_flags kf format path = [] ↔ (format ≠ "text" → kf_vmodule kf = "").
Proof.
  unfold validate_flags, unsupportedLoggingFlags, loggingFlags; simpl.
  change DefaultLogFormat with "text"; destruct (decide (format = "text")) as [->|Hf]; [naive_solver|].
  rewrite (bool_decide_eq_false_2 _ Hf); simpl; destruct (decide (kf_vmodule kf = "")) as [->|Hv]; [done|].
  rewrite bool_decide_eq_false_2 by done; naive_solver.
Qed.

Lemma validate_format_spec lfr gate name path :
  registry_ok lfr → gate_ok gate → ∃ l, validate_format lfr gate name path = Ret l ∧
    (l = [] ↔ ∃ format, lr_registry lfr !! name = Some format ∧ format_on gate format = true).
Proof.
  intros [Hr _] Hg; unfold validate_format, lfr_get, when_disabled, format_on.
  destruct (lr_registry lfr !! name) as [format|] eqn:E; [|by eexists; naive_solver].
  destruct (decide (lf_feature format = LoggingStableOptions)) as [Hs|Hs].
  { rewrite Hs; exists []; split; [done|]. split; [intros _; exists format; split; [done|by rewrite Hs]|done]. }
  rewrite (bool_decide_eq_false_2 _ Hs); simpl.
  assert ((match gate with
           | Some g => Enabled g (lf_feature format)
           | None => Ret (default false (Default <$> featureGates !! lf_feature format))
           end) = Ret (feature_on gate (lf_feature format))) as ->.
  { destruct gate as [g|]; [apply gate_Enabled; naive_solver|done]. }
  simpl; eexists; split; [done|]; destruct (feature_on gate _) eqn:Ho; split; try done.
  - intros _; exists format; by rewrite Ho, orb_true_r.
  - intros (f & Hl & Hf); simplify_eq; rewrite Ho, orb_false_r in Hf; by apply bool_decide_eq_true in Hf.
Qed.

Lemma vmodule_allowed {A} (l : list A) format (err : lerror) :
  (if (0 <? length l) && (format != "") && (format != "text") then [err] else []) = [] ↔ (l ≠ [] → format = "" ∨ format = "text").
Proof.
  destruct l as [|x l]; simpl; [naive_solver|].
  destruct (decide (format = "")) as [->|Hf1]; [by split; [intros _ _; left|]|]. rewrite (bool_decide_eq_false_2 _ Hf1); simpl.
  destruct (decide (format = "text")) as [->|Hf2]; [by split; [intros _ _; right|]|]. rewrite (bool_decide_eq_false_2 _ Hf2); naive_solver.
Qed.

Lemma verbosity_allowed v (err : lerror) : (if (MaxInt32 <? v)%Z then [err] else []) = [] ↔ (v ≤ MaxInt32)%Z.
Proof. destruct (Z.ltb_spec MaxInt32 v); split; (done || lia). Qed.

(** Validation ends without a panic, and finds nothing wrong exactly with valid
    configurations. *)
Theorem Validate_spec lfr kf c gate path :
  registry_ok lfr → gate_ok gate → ∃ l, Validate lfr kf c gate path = Ret l ∧ (l = [] ↔ config_ok lfr kf c gate).
Proof.
  intros Hr Hg; unfold Validate, config_ok.
  destruct (validate_options c gate (path ++ [Child "options"]) Hg) as (o & -> & Ho).
  destruct (validate_format_spec lfr gate (lc_Format c) (path ++ [Child "format"]) Hr Hg) as (f & -> & Hf).
  simpl; eexists; split; [done|].
  rewrite !app_nil, validate_flags_nil, Ho, Hf, validate_items_nil, vmodule_allowed, verbosity_allowed; tauto.
Qed.

(** *** Application *)

(** klog reads levels that fit an int32, and for -vmodule whatever the flag here reads. *)
Context (klog_v_Set klog_vmodule_Set : string → option error).
Context (klog_v_law : ∀ v, (0 ≤ v ≤ MaxInt32)%Z → klog_v_Set (Itoa v) = None).
Context (klog_vmodule_law : ∀ s, (vmodulePFlag_Set [] s).1 = None → klog_vmodule_Set s = None).
Context (ToAggregate : list (lerror) → option error).
Context (ToAggregate_law : ∀ l, l ≠ [] → is_Some (ToAggregate l)).

Abbreviation ValidateAndApplyAsField := (ValidateAndApplyAsField klog_v_Set klog_vmodule_Set ToAggregate).
Abbreviation logging_start := (logging_start klog_v_Set klog_vmodule_Set ToAggregate).

(** What klog is told for a configuration. *)
Definition told c (gate : option featureGate) (format : logFormat (Factory := Factory)) : list (effect (Q := Q) (Factory := Factory)) :=
  [match lf_factory format with
   | None => ClearLogger
   | Some factory => SetLoggerWithOptions factory c (feature_on gate ContextualLogging)
   end;
   SetV (Itoa (lc_Verbosity c)); SetVModule (vmodulePFlag_String (lc_VModule c)); StartFlushDaemon (lc_FlushFrequency c);
   EnableContextualLogging (feature_on gate ContextualLogging)].

(** Verbosities are unsigned. *)
Definition unsigned c : Prop := (0 ≤ lc_Verbosity c)%Z ∧ Forall (λ item, 0 ≤ vi_Verbosity item)%Z (lc_VModule c).

Lemma apply_ok lfr kf c gate :
  gate_ok gate → unsigned c → config_ok lfr kf c gate →
  ∃ format, lr_registry lfr !! lc_Format c = Some format ∧
    apply klog_v_Set klog_vmodule_Set lfr c gate = Ret (None, told c gate format).
Proof.
  intros Hg [Hv Hvs] ((format & Hf & _) & _ & Hm & _ & Hi & _); exists format; split; [done|].
  unfold apply, lfr_get, told, verbosityPflag_String; rewrite Hf.
  assert ((match gate with Some g => Enabled g ContextualLogging | None => Ret contextualLoggingDefault end) =
          Ret (feature_on gate ContextualLogging)) as ->.
  { destruct gate as [g|]; [apply gate_Enabled; [done|by eexists]|done]. }
  rewrite klog_v_law, klog_vmodule_law; [by destruct (lf_factory format)| |done].
  rewrite (vmodule_roundtrip []); [done|]. apply Forall_forall; intros item Hin.
  rewrite Forall_forall in Hvs, Hi; specialize (Hvs _ Hin); destruct (Hi _ Hin) as (? & ? & ? & ?); by repeat split.
Qed.

(** A valid configuration is applied completely, and klog is then told the verbosities it
    has; anything else leaves klog as it was, with an error.  Neither panics. *)
Theorem ValidateAndApply_spec lfr kf c gate path :
  registry_ok lfr → gate_ok gate → unsigned c →
  ∃ err effects, ValidateAndApplyAsField lfr kf c gate path = Ret (err, effects) ∧
    ((config_ok lfr kf c gate ∧ err = None ∧
      ∃ format, lr_registry lfr !! lc_Format c = Some format ∧ effects = told c gate format) ∨
     (¬ config_ok lfr kf c gate ∧ is_Some err ∧ effects = [])).
Proof.
  intros Hr Hg Hu; unfold LogsConfig.ValidateAndApplyAsField.
  destruct (Validate_spec lfr kf c gate path Hr Hg) as (l & -> & Hl); simpl.
  destruct l as [|e l]; simpl.
  - destruct (apply_ok lfr kf c gate Hg Hu) as (format & Hf & ->); [by apply Hl|].
    eexists _, _; split; [done|]; left; split; [by apply Hl|]; eauto.
  - eexists _, _; split; [done|]; right; split; [naive_solver|]. split; [by apply ToAggregate_law|done].
Qed.

(** *** The module *)

Lemma addLoop_known features known k :
  addLoop features known = inl k →
  (∀ name spec, known !! name = Some spec → k !! name = Some spec) ∧ (∀ name spec, (name, spec) ∈ features → k !! name = Some spec).
Proof.
  revert known; induction features as [|[name spec] features IH]; intros known; simpl.
  { intros [= <-]; split; [done|]; by intros ? ? ?%not_elem_of_nil. }
  destruct (known !! name) as [old|] eqn:E.
  - case_bool_decide as Ho; [|done]; subst old; intros Hk; apply IH in Hk as [Hk1 Hk2]; split; [done|].
    intros name' spec' [[= -> ->]|Hin]%elem_of_cons; auto.
  - intros Hk; apply IH in Hk as [Hk1 Hk2]; split.
    + intros name' spec' Hl; apply Hk1; rewrite lookup_insert_ne; [done|]. by intros ->; rewrite E in Hl.
    + intros name' spec' [[= -> ->]|Hin]%elem_of_cons; [apply Hk1, lookup_insert_eq|auto].
Qed.

Lemma AddFeatureGates_ok order gate gate' :
  order featureGates ≡ₚ map_to_list featureGates → AddFeatureGates order gate = (None, gate') → gate_ok (Some gate').
Proof.
  intros Ho; unfold AddFeatureGates, Add; destruct (closed gate); [done|].
  destruct (addLoop _ _) as [k|] eqn:E; [|done]; intros [= <-] name [spec Hs]; simpl.
  apply addLoop_known in E as [_ E]; unfold Enabled; simpl.
  rewrite (E name spec) by (by rewrite Ho; apply elem_of_map_to_list). destruct (enabled gate !! name); by eexists.
Qed.

(** A module whose features fit the gate and whose configuration is valid starts; what it
    reads decides what klog is told last.  Otherwise it fails with an error. *)
Theorem logging_start_spec order gate gate' lfr kf freq Read :
  order featureGates ≡ₚ map_to_list featureGates → AddFeatureGates order gate = (None, gate') → registry_ok lfr →
  (∀ c, Read NewLoggingConfiguration = inl c → unsigned c) →
  ∃ err effects, logging_start order gate lfr kf freq Read = Ret (err, effects, gate') ∧
    (err = None ↔ ∃ c, Read NewLoggingConfiguration = inl c ∧ config_ok lfr kf c (Some gate')) ∧
    (∀ c, Read NewLoggingConfiguration = inl c → config_ok lfr kf c (Some gate') →
       ∃ format, lr_registry lfr !! lc_Format c = Some format ∧ effects = InitLogs freq ++ told c (Some gate') format).
Proof.
  intros Ho Ha Hr Hu; unfold LogsConfig.logging_start; rewrite Ha.
  pose proof (AddFeatureGates_ok order gate gate' Ho Ha) as Hg.
  destruct (Read NewLoggingConfiguration) as [c|err] eqn:E; [|by eexists _, _; split; [done|]; naive_solver].
  destruct (ValidateAndApply_spec lfr kf c (Some gate') [Child "logging"] Hr Hg (Hu c eq_refl))
    as (err & effects & -> & [(Hok & -> & format & Hf & ->)|(Hok & [e ->] & ->)]); simpl.
  - eexists _, _; split; [done|]. split; [naive_solver|]. intros c' [= <-] _; eauto.
  - eexists _, _; split; [done|]. split; [naive_solver|]. by intros c' [= <-] ?.
Qed.

(** Once the gate is closed by its flag, the module does not start: it adds its features
    again, and a closed gate refuses those it has, too. *)
Lemma closed_gate_start order gate lfr kf freq Read :
  ∃ err, logging_start order (AddFlag gate) lfr kf freq Read = Ret (Some err, [], AddFlag gate).
Proof. by eexists. Qed.

(** A format that is not registered is no nil logger, but a panic. *)
Lemma unknown_format_panics lfr c gate :
  lr_registry lfr !! lc_Format c = None → ∃ msg, apply klog_v_Set klog_vmodule_Set lfr c gate = Panic msg.
Proof.
  intros Hl; unfold apply, lfr_get; rewrite Hl.
  destruct (match gate with Some g => Enabled g ContextualLogging | None => Ret contextualLoggingDefault end); by eexists.
Qed.
End config_theorems.

(** ** Examples *)
Module LogsConfigExamples.

#[local] Instance Z_quantities : Quantities Z := {| q_eq_dec := _; q_Value := id; q_empty := 0%Z; q_zero := 0%Z |}.
#[local] Instance Z_quantities_laws : QuantitiesLaws Z.
Proof. by split. Qed.

Definition klog_v (s : string) : option error := (verbosityPflag_Set 0 s).1.
Definition klog_vmodule (s : string) : option error := (vmodulePFlag_Set [] s).1.
Definition to_aggregate (l : list lerror) : option error :=
  match l with [] => None | _ => Some (Errorf "invalid configuration" []) end.

Lemma klog_v_accepts v : (0 ≤ v ≤ MaxInt32)%Z → klog_v (Itoa v) = None.
Proof. intros Hv; unfold klog_v; change (Itoa v) with (verbosityPflag_String v); by rewrite (proj2 (verbosity_roundtrip v 0)). Qed.

Lemma to_aggregate_some l : l ≠ [] → is_Some (to_aggregate l).
Proof. destruct l; [done|by eexists]. Qed.

(** Text and JSON. *)
Definition formats : logFormatRegistry (Factory := unit) :=
  (RegisterLogFormat newLogFormatRegistry JSONLogFormat () LoggingBetaOptions).2.

Lemma formats_ok : registry_ok formats.
Proof. apply register_ok, newLogFormatRegistry_ok. Qed.

Definition verbose (format : string) : LoggingConfiguration (Q := Z) :=
  {| lc_Format := format; lc_FlushFrequency := 1; lc_Verbosity := 5;
     lc_VModule := [{| FilePattern := "some*"; vi_Verbosity := 10 |}; {| FilePattern := "other"; vi_Verbosity := 1 |}];
     lc_SplitStream := false; lc_InfoBufferSize := 0%Z |}.

Definition no_flags : klog_flags := {| kf_v := "0"; kf_vmodule := "" |}.

Lemma vmodule_roundtrip_witness :
  vmodulePFlag_String (lc_VModule (verbose "text")) = "some*=10,other=1" ∧
  vmodulePFlag_Set [] "some*=10,other=1" = (None, lc_VModule (verbose "text")).
Proof.
  split; [done|]. apply (vmodule_roundtrip [] (lc_VModule (verbose "text"))).
  repeat constructor; done.
Defined.

Lemma Validate_spec_witness : ∃ l, Validate formats no_flags (verbose "json") None [] = Ret l ∧ l ≠ [].
Proof.
  destruct (Validate_spec formats no_flags (verbose "json") None [] formats_ok) as (l & Hl & Hok).
  { by intros k _. }
  exists l; split; [done|]. intros (_ & _ & _ & [?|?] & _)%Hok; done.
Defined.

Lemma ValidateAndApply_spec_witness :
  ∃ effects, ValidateAndApplyAsField klog_v klog_vmodule to_aggregate formats no_flags (verbose "text") None [] = Ret (None, effects) ∧
    effects = [ClearLogger; SetV "5"; SetVModule "some*=10,other=1"; StartFlushDaemon 1; EnableContextualLogging false].
Proof.
  destruct (ValidateAndApply_spec klog_v klog_vmodule klog_v_accepts (λ s H, H) to_aggregate to_aggregate_some
              formats no_flags (verbose "text") None [] formats_ok) as (err & effects & He & [(_ & -> & format & Hf & ->)|(Hn & _ & _)]).
  - by intros k _.
  - split; [done|]. by repeat constructor.
  - exists (told (verbose "text") None format); split; [done|]. by injection Hf as <-.
  - destruct Hn; split_and!; [by eexists|done|done|by right| |by intros [?|?]]. by repeat constructor.
Defined.

(** JSON output with -vmodule is refused. *)
Lemma json_vmodule_refused :
  ValidateAndApply klog_v klog_vmodule to_aggregate formats no_flags (verbose "json") None = Ret (Some (Errorf "invalid configuration" []), []).
Proof. reflexivity. Qed.

Definition no_gate : featureGate := NewFeatureGate.
Definition order (m : gmap string FeatureSpec) : list (string * FeatureSpec) := map_to_list m.

(** The recommended configuration is valid. *)
Lemma defaults_ok gate : config_ok formats no_flags NewLoggingConfiguration gate.
Proof.
  assert (NewLoggingConfiguration = {| lc_Format := "text"; lc_FlushFrequency := LogFlushFreqDefault; lc_Verbosity := 0; lc_VModule := [];
            lc_SplitStream := false; lc_InfoBufferSize := 0%Z |}) as -> by reflexivity.
  unfold config_ok; cbn [lc_Format lc_Verbosity lc_VModule lc_SplitStream lc_InfoBufferSize].
  split; [exists {| lf_factory := None; lf_feature := LoggingStableOptions |}; split; reflexivity|].
  split; [by intros []|]. split; [done|]. split; [by intros []|]. split; [constructor|]. by intros [[=]|[]].
Qed.

Lemma logging_start_spec_witness :
  ∃ err effects, logging_start klog_v klog_vmodule to_aggregate order no_gate formats no_flags 5
      (λ c, inl c) = Ret (err, effects, (AddFeatureGates order no_gate).2) ∧ err = None.
Proof.
  destruct (logging_start_spec klog_v klog_vmodule klog_v_accepts (λ s H, H) to_aggregate to_aggregate_some
              order no_gate (AddFeatureGates order no_gate).2 formats no_flags 5 (λ c, inl c)) as (err & effects & He & Hok & _).
  - done.
  - reflexivity.
  - apply formats_ok.
  - intros c [= <-]; by repeat constructor.
  - exists err, effects; split; [done|]. apply Hok; eexists; split; [reflexivity|apply defaults_ok].
Defined.

(** The flag keeps what the method of the configuration loses. *)
Lemma Set_loses :
  vmodulePFlag_Set [] "foo=1,bar=2" = (None, [{| FilePattern := "foo"; vi_Verbosity := 1 |}; {| FilePattern := "bar"; vi_Verbosity := 2 |}]) ∧
  VModuleConfiguration_Set [] "foo=1,bar=2" = (None, []) ∧
  (verbosityPflag_Set 0 "2147483648").1 = Some ErrRange ∧ VerbosityLevel_Set 0 "2147483648" = (None, 2147483648%Z).
Proof. by vm_compute. Qed.

(** The help text of the format flag. *)
Lemma formats_listed : lfr_list formats = quoted "json" +:+ " (gated by LoggingBetaOptions), " +:+ quoted "text".
Proof. by vm_compute. Qed.
End LogsConfigExamples.
