(* ===== verification/LogFilters.v ===== *)
(** * What is logged

    Models components/logs/logreduction (repeated messages) and components/logs/datapol
    (values with sensitive data).  Times are nanoseconds; a value is a reflect value as a
    tree, with the names of its types and its tags. *)

From S2P Require Import Prelude GoStrings.

Local Open Scope go_scope.

(** ** Repeated messages (logreduction.go) *)

Record LogReduction := {
  lastError : gmap string string;
  errorPrinted : gmap string Z;
  identicalErrorDelay : Z;
}.

Definition NewLogReduction (delay : Z) : LogReduction :=
  {| lastError := ∅; errorPrinted := ∅; identicalErrorDelay := delay |}.

(** The clock is read for every entry. *)
Definition fresh (now : string → Z) (l : LogReduction) (name : string) : Prop :=
  match errorPrinted l !! name with
  | Some timeout => (now name - timeout < identicalErrorDelay l)%Z
  | None => True
  end.

#[global] Instance fresh_dec now l name : Decision (fresh now l name).
Proof. unfold fresh; destruct (errorPrinted l !! name); apply _. Defined.

Definition cleanupErrorTimeouts (now : string → Z) (l : LogReduction) : LogReduction :=
  {| lastError := filter (λ kv, fresh now l kv.1) (lastError l);
     errorPrinted := filter (λ kv, fresh now l kv.1) (errorPrinted l);
     identicalErrorDelay := identicalErrorDelay l |}.

(** [t1] and [t2] are the times of the check and of the record. *)
Definition ShouldMessageBePrinted (now : string → Z) (t1 t2 : Z) (message parentID : string) (l : LogReduction) : bool * LogReduction :=
  let l := cleanupErrorTimeouts now l in
  let print := (true, {| lastError := <[parentID := message]> (lastError l); errorPrinted := <[parentID := t2]> (errorPrinted l);
                         identicalErrorDelay := identicalErrorDelay l |}) in
  match lastError l !! parentID, errorPrinted l !! parentID with
  | Some lastMsg, Some lastPrinted =>
      if (message != lastMsg) || (identicalErrorDelay l <=? t1 - lastPrinted)%Z then print else (false, l)
  | _, _ => print
  end.

Definition ClearID (parentID : string) (l : LogReduction) : LogReduction :=
  {| lastError := delete parentID (lastError l); errorPrinted := delete parentID (errorPrinted l);
     identicalErrorDelay := identicalErrorDelay l |}.

(** ** Sensitive data (datapol.go, externaltypes.go) *)

(** Values; [ty] is the package path and name of the type.  A pointer is not followed;
    a nil interface, slice or map is [None].  Fields carry their datapolicy tag. *)
Inductive rvalue :=
  | RScalar (ty : string) (zero : bool)
  | RPtr (ty : string) (isNil : bool)
  | RInterface (ty : string) (elem : option rvalue)
  | RSlice (ty : string) (elems : option (list rvalue))
  | RArray (ty : string) (elems : list rvalue)
  | RMap (ty : string) (entries : option (list (rvalue * rvalue)))
  | RStruct (ty : string) (fields : list (option string * rvalue)).

Definition rtype (v : rvalue) : string :=
  match v with
  | RScalar ty _ | RPtr ty _ | RInterface ty _ | RSlice ty _ | RArray ty _ | RMap ty _ | RStruct ty _ => ty
  end.

Fixpoint value_IsZero (v : rvalue) : bool :=
  match v with
  | RScalar _ zero => zero
  | RPtr _ isNil => isNil
  | RInterface _ elem => match elem with None => true | Some _ => false end
  | RSlice _ elems => match elems with None => true | Some _ => false end
  | RArray _ elems => forallb value_IsZero elems
  | RMap _ entries => match entries with None => true | Some _ => false end
  | RStruct _ fields => forallb (λ f, let '(_, v) := f in value_IsZero v) fields
  end.

Definition httpHeader : string := "net/http.Header".
Definition httpCookie : string := "net/http.Cookie".
Definition x509Certificate : string := "crypto/x509.Certificate".

Definition byType (t : string) : list string :=
  if t == httpHeader then ["password"; "token"]
  else if t == httpCookie then ["token"]
  else if t == x509Certificate then ["security-key"]
  else [].

(** Whether a value of a sensitive type has anything in it. *)
Definition filled (v : rvalue) : bool :=
  match v with
  | RSlice _ elems => match elems with Some (_ :: _) => true | _ => false end
  | RMap _ entries => match entries with Some (_ :: _) => true | _ => false end
  | _ => negb (value_IsZero v)
  end.

(** The loops return the first types found. *)
Fixpoint first_types (l : list (outcome (list string))) : outcome (list string) :=
  match l with
  | [] => Ret []
  | Ret [] :: l => first_types l
  | r :: _ => r
  end.

Definition tagged (tag : option string) (v : rvalue) : list (outcome (list string)) :=
  match tag with
  | Some reason => if value_IsZero v then [] else [Ret (Split reason ","%char)]
  | None => []
  end.

(** The type of the zero reflect.Value of a nil interface cannot be read. *)
Fixpoint datatypes (v : rvalue) : outcome (list string) :=
  if (0 <? length (byType (rtype v))) && filled v then Ret (byType (rtype v))
  else match v with
  | RInterface _ elem => match elem with Some e => datatypes e | None => Panic "reflect: call of reflect.Value.Type on zero Value" end
  | RSlice _ elems => match elems with Some l => first_types (map datatypes l) | None => Ret [] end
  | RArray _ l => first_types (map datatypes l)
  | RMap _ entries =>
      match entries with
      | Some l => first_types (flat_map (λ kv, let '(k, v) := kv in [datatypes k; datatypes v]) l)
      | None => Ret []
      end
  | RStruct _ fields =>
      first_types (flat_map (λ f, let '(tag, v) := f in
        match v with RPtr _ _ => [] | _ => tagged tag v ++ [datatypes v] end) fields)
  | _ => Ret []
  end.

(** The argument: nil, a pointer, or something else. *)
Inductive verify_arg := ANil | APtr (elem : option rvalue) | AValue (v : rvalue).

(** A panic is recovered, and the result is nil. *)
Definition Verify (value : verify_arg) : list string :=
  let r := match value with
           | ANil | APtr None => Panic "reflect: call of reflect.Value.Type on zero Value"
           | APtr (Some v) | AValue v => datatypes v
           end in
  match r with Ret types => types | Panic _ => [] end.

(** ** Theorems *)

(** *** Repeated messages *)

(** What it is meant to do: remember, for every parent, the message that was printed last
    and when.  Nothing is forgotten but what is cleared. *)
Abbreviation shown := (gmap string (string * Z)).

Definition should_print (delay : Z) (now : string → Z) (t1 t2 : Z) (message parentID : string) (a : shown) : bool * shown :=
  match a !! parentID with
  | Some (lastMsg, lastPrinted) =>
      if bool_decide (message = lastMsg ∧ (now parentID - lastPrinted < delay)%Z ∧ (t1 - lastPrinted < delay)%Z) then (false, a)
      else (true, <[parentID := (message, t2)]> a)
  | None => (true, <[parentID := (message, t2)]> a)
  end.

(** The calls with the times they read. *)
Inductive lcall := LPrint (now : string → Z) (t1 t2 : Z) (message parentID : string) | LClear (parentID : string).

Definition call_step (l : LogReduction) (c : lcall) : list bool * LogReduction :=
  match c with
  | LPrint now t1 t2 message parentID => let '(b, l) := ShouldMessageBePrinted now t1 t2 message parentID l in ([b], l)
  | LClear parentID => ([], ClearID parentID l)
  end.

Definition spec_step (delay : Z) (a : shown) (c : lcall) : list bool * shown :=
  match c with
  | LPrint now t1 t2 message parentID => let '(b, a) := should_print delay now t1 t2 message parentID a in ([b], a)
  | LClear parentID => ([], delete parentID a)
  end.

Fixpoint run_calls {S} (step : S → lcall → list bool * S) (s : S) (cs : list lcall) : list bool * S :=
  match cs with
  | [] => ([], s)
  | c :: cs => let '(b, s) := step s c in let '(bs, s) := run_calls step s cs in (b ++ bs, s)
  end.

(** The clock does not go back. *)
Fixpoint ordered (t : Z) (cs : list lcall) : Prop :=
  match cs with
  | [] => True
  | LPrint now t1 t2 _ _ :: cs => (∀ k, t ≤ now k ≤ t1)%Z ∧ (t1 ≤ t2)%Z ∧ ordered t2 cs
  | LClear _ :: cs => ordered t cs
  end.

(** The entry of a parent. *)
Definition entry (l : LogReduction) (p : string) : option (string * Z) :=
  m ← lastError l !! p; t ← errorPrinted l !! p; Some (m, t).

(** The record agrees with the specification but for what has expired at time [t]. *)
Definition agrees (t : Z) (l : LogReduction) (a : shown) : Prop :=
  (∀ p, is_Some (lastError l !! p) ↔ is_Some (errorPrinted l !! p)) ∧
  ∀ p, entry l p = a !! p ∨
       entry l p = None ∧ ∃ m t0, a !! p = Some (m, t0) ∧ (identicalErrorDelay l ≤ t - t0)%Z.

Lemma cleanup_lookup now l p :
  lastError (cleanupErrorTimeouts now l) !! p = (if decide (fresh now l p) then lastError l !! p else None) ∧
  errorPrinted (cleanupErrorTimeouts now l) !! p = (if decide (fresh now l p) then errorPrinted l !! p else None).
Proof.
  unfold cleanupErrorTimeouts; simpl; rewrite !map_lookup_filter.
  destruct (lastError l !! p), (errorPrinted l !! p); simpl; repeat case_decide; repeat case_guard; try done.
Qed.

Lemma entry_cleanup now l p : entry (cleanupErrorTimeouts now l) p = if decide (fresh now l p) then entry l p else None.
Proof. unfold entry; destruct (cleanup_lookup now l p) as [-> ->]; by case_decide. Qed.

Lemma cleanup_agrees now t t1 l a :
  (∀ k, t ≤ now k ≤ t1)%Z → agrees t l a → agrees t1 (cleanupErrorTimeouts now l) a.
Proof.
  intros Hn [Hd Ha]; split; intros p; specialize (Hn p); specialize (Hd p); specialize (Ha p).
  { destruct (cleanup_lookup now l p) as [-> ->]; by case_decide. }
  rewrite entry_cleanup; case_decide as Hf; simpl.
  - destruct Ha as [Ha|(He & m & t0 & Ha & Ht)]; [by left|]. right; split; [done|]. exists m, t0; split; [done|]; lia.
  - right; split; [done|]. unfold fresh in Hf; unfold entry in Ha.
    destruct (errorPrinted l !! p) as [t0|]; [|done].
    destruct (lastError l !! p) as [m|]; [|by destruct (proj2 Hd (ltac:(by eexists)))]; simpl in Ha.
    destruct Ha as [Ha|[? _]]; [|done]. exists m, t0; split; [done|]; lia.
Qed.

Lemma insert_agrees t t2 l a m p :
  (t ≤ t2)%Z → agrees t l a →
  agrees t2 {| lastError := <[p := m]> (lastError l); errorPrinted := <[p := t2]> (errorPrinted l);
               identicalErrorDelay := identicalErrorDelay l |} (<[p := (m, t2)]> a).
Proof.
  intros Ht [Hd Ha]; split; intros q; specialize (Hd q); specialize (Ha q); unfold entry in *; simpl;
    (destruct (decide (q = p)) as [->|Hq]; [rewrite !lookup_insert_eq|rewrite !lookup_insert_ne by done]); [done|done|by left|].
  destruct Ha as [Ha|(He & m' & t0 & Ha & Hx)]; [by left|]. right; split; [done|]. exists m', t0; split; [done|]; lia.
Qed.

Lemma print_agrees now t t1 t2 m p l a :
  (∀ k, t ≤ now k ≤ t1)%Z → (t1 ≤ t2)%Z → agrees t l a →
  (ShouldMessageBePrinted now t1 t2 m p l).1 = (should_print (identicalErrorDelay l) now t1 t2 m p a).1 ∧
  agrees t2 (ShouldMessageBePrinted now t1 t2 m p l).2 (should_print (identicalErrorDelay l) now t1 t2 m p a).2 ∧
  identicalErrorDelay (ShouldMessageBePrinted now t1 t2 m p l).2 = identicalErrorDelay l.
Proof.
  intros Hn Ht Hag; pose proof (cleanup_agrees now t t1 l a Hn Hag) as Hc.
  pose proof (insert_agrees t1 t2 _ a m p Ht Hc) as Hi.
  assert (agrees t2 (cleanupErrorTimeouts now l) a) as Hk.
  { destruct Hc as [Hd Ha]; split; [done|]. intros q; destruct (Ha q) as [?|(? & m' & t0 & ? & ?)]; [by left|].
    right; split; [done|]; exists m', t0; split; [done|]; lia. }
  pose proof (entry_cleanup now l p) as He; destruct Hc as [_ Hp]; specialize (Hp p).
  unfold ShouldMessageBePrinted, should_print; cbn zeta.
  assert (identicalErrorDelay (cleanupErrorTimeouts now l) = identicalErrorDelay l) as Hdl by done.
  remember (cleanupErrorTimeouts now l) as l' eqn:El; clear El; rewrite <- Hdl in *; unfold entry in Hp, He at 1.
  destruct (lastError l' !! p) as [m0|], (errorPrinted l' !! p) as [t0|]; cbn [mbind option_bind] in Hp, He.
  2-4: destruct Hp as [<-|(_ & m1 & t3 & -> & Hx)]; [|rewrite bool_decide_eq_false_2 by (intros (_ & _ & ?); lia)]; (split; [done|by split; [exact Hi|]]).
  destruct Hp as [<-|[? _]]; [|done].
  assert (now p - t0 < identicalErrorDelay l')%Z as Hf.
  { case_decide as Hf; [|done]; unfold fresh in Hf; unfold entry in He.
    destruct (lastError l !! p), (errorPrinted l !! p); simplify_eq/=; lia. }
  destruct (decide (m = m0)) as [->|Hm]; simpl.
  - rewrite bool_decide_eq_true_2 by done; simpl. destruct (Z.leb_spec (identicalErrorDelay l') (t1 - t0)).
    + rewrite bool_decide_eq_false_2 by (intros (_ & _ & ?); lia); split; [done|by split; [exact Hi|]].
    + rewrite bool_decide_eq_true_2 by done; split; [done|by split; [exact Hk|]].
  - rewrite (bool_decide_eq_false_2 (m = m0)) by done; simpl.
    rewrite bool_decide_eq_false_2 by naive_solver; split; [done|by split; [exact Hi|]].
Qed.

Lemma clear_agrees t l a p : agrees t l a → agrees t (ClearID p l) (delete p a).
Proof.
  intros [Hd Ha]; split; intros q; specialize (Hd q); specialize (Ha q); unfold entry, ClearID in *; simpl;
    (destruct (decide (q = p)) as [->|Hq]; [rewrite !lookup_delete_eq|rewrite !lookup_delete_ne by done]); [done|done|by left|done].
Qed.

Lemma run_calls_agrees t l a cs :
  ordered t cs → agrees t l a → (run_calls call_step l cs).1 = (run_calls (spec_step (identicalErrorDelay l)) a cs).1.
Proof.
  revert t l a; induction cs as [|c cs IH]; intros t l a Ho Ha; [done|].
  destruct c as [now t1 t2 m p|p]; cbn [run_calls call_step spec_step].
  - destruct Ho as (Hn & Ht & Ho); destruct (print_agrees now t t1 t2 m p l a Hn Ht Ha) as (Hb & Ha' & Hdel).
    destruct (ShouldMessageBePrinted _ _ _ _ _ _) as [b l'], (should_print _ _ _ _ _ _ _) as [b' a']; simpl in *; subst b'.
    specialize (IH t2 l' a' Ho Ha'); rewrite Hdel in IH.
    destruct (run_calls call_step l' cs), (run_calls _ a' cs); simpl in *; by subst.
  - specialize (IH t (ClearID p l) (delete p a) Ho (clear_agrees t l a p Ha)).
    change (identicalErrorDelay (ClearID p l)) with (identicalErrorDelay l) in IH.
    destruct (run_calls call_step (ClearID p l) cs), (run_calls _ (delete p a) cs); simpl in *; by subst.
Qed.

(** C40: what is forgotten never changes an answer: a message is printed exactly when its
    parent's last one was another, was printed at least the delay ago, or was cleared. *)
Theorem LogReduction_refines delay t cs :
  ordered t cs → (run_calls call_step (NewLogReduction delay) cs).1 = (run_calls (spec_step delay) ∅ cs).1.
Proof.
  intros Ho; apply (run_calls_agrees t (NewLogReduction delay)); [done|]. split; intros p; [|left]; unfold entry, NewLogReduction; simpl;
    by rewrite !lookup_empty.
Qed.

(** Only what is younger than the delay is kept. *)
Lemma cleanup_bounded now l p t0 :
  errorPrinted (cleanupErrorTimeouts now l) !! p = Some t0 → (now p - t0 < identicalErrorDelay l)%Z.
Proof.
  destruct (cleanup_lookup now l p) as [_ ->]; case_decide as Hf; [|done]; unfold fresh in Hf; intros Hp; by rewrite Hp in Hf.
Qed.

(** *** Sensitive data *)

(** Data of these types is in the value, and not behind a pointer. *)
Inductive sensitive : rvalue → list string → Prop :=
  | sens_type v : byType (rtype v) ≠ [] → filled v = true → sensitive v (byType (rtype v))
  | sens_interface ty e ts : sensitive e ts → sensitive (RInterface ty (Some e)) ts
  | sens_slice ty l e ts : In e l → sensitive e ts → sensitive (RSlice ty (Some l)) ts
  | sens_array ty l e ts : In e l → sensitive e ts → sensitive (RArray ty l) ts
  | sens_key ty l k v ts : In (k, v) l → sensitive k ts → sensitive (RMap ty (Some l)) ts
  | sens_value ty l k v ts : In (k, v) l → sensitive v ts → sensitive (RMap ty (Some l)) ts
  | sens_tag ty l reason v : In (Some reason, v) l → (∀ ty' b, v ≠ RPtr ty' b) → value_IsZero v = false →
      sensitive (RStruct ty l) (Split reason ","%char)
  | sens_field ty l tag v ts : In (tag, v) l → (∀ ty' b, v ≠ RPtr ty' b) → sensitive v ts → sensitive (RStruct ty l) ts.

(** No interface in it is nil. *)
Inductive no_nil : rvalue → Prop :=
  | nn_scalar ty b : no_nil (RScalar ty b)
  | nn_ptr ty b : no_nil (RPtr ty b)
  | nn_interface ty e : no_nil e → no_nil (RInterface ty (Some e))
  | nn_slice_nil ty : no_nil (RSlice ty None)
  | nn_slice ty l : (∀ e, In e l → no_nil e) → no_nil (RSlice ty (Some l))
  | nn_array ty l : (∀ e, In e l → no_nil e) → no_nil (RArray ty l)
  | nn_map_nil ty : no_nil (RMap ty None)
  | nn_map ty l : (∀ k v, In (k, v) l → no_nil k) → (∀ k v, In (k, v) l → no_nil v) → no_nil (RMap ty (Some l))
  | nn_struct ty l : (∀ tag v, In (tag, v) l → no_nil v) → no_nil (RStruct ty l).

Lemma first_types_cases l :
  (first_types l = Ret [] ∧ ∀ r, In r l → r = Ret []) ∨
  (∃ r, first_types l = r ∧ In r l ∧ r ≠ Ret []).
Proof.
  induction l as [|[[|t ts]|msg] l IH]; simpl; [by left| |right; eexists; split_and!; [done|by left|done]..].
  destruct IH as [[-> IH]|(r & -> & Hr & Hn)]; [left; split; [done|]; intros r [<-|Hr]; auto|right; eauto].
Qed.

(** What a step returns when nothing is wrong with the values below it. *)
Definition found (r : outcome (list string)) (S : list string → Prop) : Prop :=
  ∃ ts, r = Ret ts ∧ (ts = [] → ∀ ts', ¬ S ts') ∧ (ts ≠ [] → S ts).

Lemma found_first l (S : list string → Prop) :
  (∀ r, In r l → ∃ ts, r = Ret ts ∧ (ts ≠ [] → S ts)) →
  (∀ ts, S ts → ∃ r, In r l ∧ r ≠ Ret []) → found (first_types l) S.
Proof.
  intros H1 H2; destruct (first_types_cases l) as [[-> Hl]|(r & -> & Hr & Hn)].
  - exists []; split; [done|]. split; [|done]. intros _ ts (r & Hr & Hn)%H2; by apply Hn, Hl.
  - destruct (H1 r Hr) as (ts & -> & Hs); exists ts; split; [done|]. split; [by intros ->|done].
Qed.

(** The types of a value itself come first, then those of its parts. *)
Lemma found_typed v r (parts : list string → Prop) :
  (∀ ts, sensitive v ts ↔ (byType (rtype v) ≠ [] ∧ filled v = true ∧ ts = byType (rtype v)) ∨ parts ts) →
  found r parts →
  found (if (0 <? length (byType (rtype v))) && filled v then Ret (byType (rtype v)) else r) (sensitive v).
Proof.
  intros Hv (ts & -> & He & Hs).
  destruct (byType (rtype v)) as [|t tys] eqn:Ht, (filled v) eqn:Hf; simpl.
  3: { exists (t :: tys); split; [done|]. split; [done|]. intros _; apply Hv; by left. }
  all: exists ts; split; [done|]; split; [|intros Hn; apply Hv; right; auto].
  all: intros Hn ts' [(? & ? & ?)|Hp]%Hv; [done|by apply (He Hn ts')].
Qed.

Lemma found_nothing v : (∀ ts, sensitive v ts ↔ (byType (rtype v) ≠ [] ∧ filled v = true ∧ ts = byType (rtype v)) ∨ False) →
  found (if (0 <? length (byType (rtype v))) && filled v then Ret (byType (rtype v)) else Ret []) (sensitive v).
Proof. intros Hv; apply (found_typed v _ (λ _, False) Hv). exists []; split; [done|]. split; [by intros _ ? []|done]. Qed.

(** The parts of a slice or an array. *)
Lemma found_elements l :
  (∀ e, In e l → found (datatypes e) (sensitive e)) →
  found (first_types (map datatypes l)) (λ ts, ∃ e, In e l ∧ sensitive e ts).
Proof.
  intros IH; apply found_first.
  - intros r (e & <- & He)%in_map_iff; destruct (IH e He) as (ts & -> & _ & Hs); exists ts; split; [done|]; eauto.
  - intros ts (e & He & Hs); exists (datatypes e); split; [by apply in_map|].
    destruct (IH e He) as (ts' & -> & Hn & _); intros [= ->]; by apply (Hn eq_refl ts).
Qed.

Lemma found_entries l :
  (∀ k v, In (k, v) l → found (datatypes k) (sensitive k)) → (∀ k v, In (k, v) l → found (datatypes v) (sensitive v)) →
  found (first_types (flat_map (λ kv, let '(k, v) := kv in [datatypes k; datatypes v]) l))
    (λ ts, ∃ k v, In (k, v) l ∧ (sensitive k ts ∨ sensitive v ts)).
Proof.
  intros IHk IHv; apply found_first.
  - intros r ([k v] & Hkv & [<-|[<-|[]]])%in_flat_map;
      [destruct (IHk k v Hkv) as (ts & -> & _ & Hs)|destruct (IHv k v Hkv) as (ts & -> & _ & Hs)]; exists ts; split; [done|eauto 6|done|eauto 6].
  - intros ts (k & v & Hkv & [Hs|Hs]); [exists (datatypes k)|exists (datatypes v)];
      (split; [apply in_flat_map; exists (k, v); simpl; auto|]);
      [destruct (IHk k v Hkv) as (ts' & -> & Hn & _)|destruct (IHv k v Hkv) as (ts' & -> & Hn & _)];
      intros [= ->]; by apply (Hn eq_refl ts).
Qed.

(** The parts of a struct. *)
Definition is_ptr (v : rvalue) : bool := match v with RPtr _ _ => true | _ => false end.

Definition field_types (f : option string * rvalue) : list (outcome (list string)) :=
  let '(tag, v) := f in if is_ptr v then [] else tagged tag v ++ [datatypes v].

Lemma datatypes_struct ty fields :
  datatypes (RStruct ty fields) =
  if (0 <? length (byType ty)) && filled (RStruct ty fields) then Ret (byType ty) else first_types (flat_map field_types fields).
Proof.
  cbn [datatypes rtype]; destruct (_ && _); [done|]. f_equal; apply flat_map_ext; intros [tag v]; by destruct v.
Qed.

Definition field_sensitive (f : option string * rvalue) (ts : list string) : Prop :=
  is_ptr f.2 = false ∧
  ((∃ reason, f.1 = Some reason ∧ value_IsZero f.2 = false ∧ ts = Split reason ","%char) ∨ sensitive f.2 ts).

Lemma in_tagged tag v r :
  In r (tagged tag v) ↔ ∃ reason, tag = Some reason ∧ value_IsZero v = false ∧ r = Ret (Split reason ","%char).
Proof. unfold tagged; destruct tag as [reason|], (value_IsZero v); simpl; naive_solver. Qed.

Lemma found_fields fields :
  (∀ tag v, In (tag, v) fields → found (datatypes v) (sensitive v)) →
  found (first_types (flat_map field_types fields)) (λ ts, ∃ f, In f fields ∧ field_sensitive f ts).
Proof.
  intros IH; apply found_first.
  - intros r ([tag v] & Hf & Hr)%in_flat_map; simpl in Hr; destruct (is_ptr v) eqn:Hp; [done|].
    apply in_app_iff in Hr as [(reason & -> & Hz & ->)%in_tagged|[<-|[]]].
    + eexists; split; [done|]. intros _; exists (Some reason, v); split; [done|]. split; [done|]; left; eauto.
    + destruct (IH tag v Hf) as (ts & -> & _ & Hs); exists ts; split; [done|]. intros Hn; exists (tag, v); split; [done|]. split; [done|]; auto.
  - intros ts ([tag v] & Hf & Hp & Hs); simpl in *; destruct Hs as [(reason & -> & Hz & ->)|Hs].
    + exists (Ret (Split reason ","%char)); split; [|intros [= Hn]; by apply Split_non_nil in Hn].
      apply in_flat_map; exists (Some reason, v); split; [done|]; unfold field_types; rewrite Hp; apply in_app_iff; left; apply in_tagged; eauto.
    + exists (datatypes v); split; [apply in_flat_map; exists (tag, v); split; [done|]; simpl; rewrite Hp; apply in_app_iff; right; by left|].
      destruct (IH tag v Hf) as (ts' & -> & Hn & _); intros [= ->]; by apply (Hn eq_refl ts).
Qed.

(** Without nil interfaces, what is found is there, and what is there is found. *)
Lemma datatypes_found v : no_nil v → found (datatypes v) (sensitive v).
Proof.
  induction 1 as [ty b|ty b|ty e _ IH|ty|ty l _ IH|ty l _ IH|ty|ty l _ IHk _ IHv|ty l _ IH].
  1,2,4,7: cbn [datatypes]; apply found_nothing; intros ts; split; [inversion 1; auto|intros [(? & ? & ->)|[]]; by constructor].
  - cbn [datatypes]; apply (found_typed _ _ (sensitive e)); [|done].
    intros ts; split; [inversion 1; auto|intros [(? & ? & ->)|?]; by constructor].
  - cbn [datatypes]; eapply found_typed, found_elements, IH.
    intros ts; split; [inversion 1; subst; eauto|intros [(? & ? & ->)|(e & ? & ?)]; [by constructor|by eapply sens_slice]].
  - cbn [datatypes]; eapply found_typed, found_elements, IH.
    intros ts; split; [inversion 1; subst; eauto|intros [(? & ? & ->)|(e & ? & ?)]; [by constructor|by eapply sens_array]].
  - cbn [datatypes]; eapply found_typed, found_entries; [|exact IHk|exact IHv].
    intros ts; split; [inversion 1; subst; eauto 7|].
    intros [(? & ? & ->)|(k & v & ? & [?|?])]; [by constructor|by eapply sens_key|by eapply sens_value].
  - rewrite datatypes_struct; apply (found_typed (RStruct ty l) _ (λ ts, ∃ f, In f l ∧ field_sensitive f ts)); [|by apply found_fields].
    intros ts; split.
    + inversion 1 as [| | | | | |? ? reason v Hf Hp Hz|? ? tag v ? Hf Hp Hs]; subst; [auto|right..].
      * exists (Some reason, v); split; [done|]. split; [|left; eauto]. destruct v; try done; by edestruct Hp.
      * exists (tag, v); split; [done|]. split; [|by right]. destruct v; try done; by edestruct Hp.
    + intros [(? & ? & ->)|([tag v] & Hf & Hp & [(reason & ? & Hz & ->)|Hs])]; simpl in *; subst; [by constructor|..].
      * eapply sens_tag; [done| |done]. by intros ? ? ->.
      * eapply sens_field; [done| |done]. by intros ? ? ->.
Qed.

(** Verify reports a value exactly when there is sensitive data in it, and reports types
    that are in it, if no interface in it is nil. *)
Theorem Verify_spec v :
  no_nil v → (Verify (AValue v) ≠ [] ↔ ∃ ts, sensitive v ts) ∧ (Verify (AValue v) ≠ [] → sensitive v (Verify (AValue v))).
Proof.
  intros Hn; destruct (datatypes_found v Hn) as (ts & Hd & He & Hs); unfold Verify; rewrite Hd.
  split; [split; [intros Hts; eexists; by apply Hs|]|done]. intros [ts' Hx] ->; by apply (He eq_refl ts').
Qed.

(** *** Examples *)

Definition header : rvalue := RMap httpHeader (Some [(RScalar ".string" false, RSlice "." (Some [RScalar ".string" false]))]).

Lemma Verify_spec_witness : Verify (AValue (RStruct "example.T" [(None, RScalar ".int" true); (None, header)])) = ["password"; "token"] ∧
  sensitive (RStruct "example.T" [(None, RScalar ".int" true); (None, header)]) ["password"; "token"].
Proof.
  split; [reflexivity|]. apply (Verify_spec (RStruct "example.T" [(None, RScalar ".int" true); (None, header)])); [|done].
  apply nn_struct; intros tag v [[= <- <-]|[[= <- <-]|[]]]; [constructor|].
  apply nn_map; intros k e [[= <- <-]|[]]; [constructor|]. apply nn_slice; intros x [<-|[]]; constructor.
Defined.

(** A nil interface before sensitive data hides it: the panic ends the search. *)
Lemma nil_interface_hides :
  ∃ v ts, v = RStruct "example.T" [(None, RInterface ".error" None); (None, header)] ∧ sensitive v ts ∧ Verify (AValue v) = [].
Proof.
  eexists _, ["password"; "token"]; split; [done|]. split; [|reflexivity].
  eapply (sens_field _ _ None header); [right; by left|done|]. by apply (sens_type header).
Qed.

Definition at_ (t : Z) (m p : string) : lcall := LPrint (λ _, t) t t m p.

Lemma LogReduction_refines_witness :
  (run_calls call_step (NewLogReduction 10) [at_ 1 "a" "x"; at_ 5 "a" "x"; at_ 6 "b" "x"; at_ 7 "a" "x"; at_ 20 "a" "x"]).1 =
  [true; false; true; true; true].
Proof.
  rewrite (LogReduction_refines 10 0); [vm_compute; reflexivity|]. simpl; split_and!; intros; lia.
Defined.
