(* ===== verification/WatchHandler.v ===== *)
(** * Request log and watches

    Models pkg/server/httplog (the response writer that logs a request) and
    pkg/handlers/watch.go (events streamed to a client).  The streaming loop, its watcher
    and its client are a step relation; encoders are parameters. *)

From S2P Require Import Prelude GoStrings Authorizer Authn Filters Streams RequestMetrics.

Local Open Scope go_scope.

(** ** The request log (httplog.go) *)

Record respLogger := {
  rl_hijacked : bool;
  rl_statusRecorded : bool;
  rl_status : Z;
  rl_statusStack : string;
  rl_addedInfo : string;
  rl_captureErrorOutput : bool;
}.

Definition DefaultStacktracePred (status : Z) : bool :=
  ((status <? 200)%Z || (500 <=? status)%Z) && negb (status =? 101)%Z.

Definition StatusIsNot (statuses : list Z) (status : Z) : bool := negb (bool_decide (status ∈ statuses)).

Definition newLogged : respLogger :=
  {| rl_hijacked := false; rl_statusRecorded := false; rl_status := 0; rl_statusStack := ""; rl_addedInfo := "";
     rl_captureErrorOutput := false |}.

Section httplog.
(** The stack, as runtime.Stack prints it; what the writer behind can do. *)
Context (stack : string) (pred : Z → bool) (canFlush canHijack : bool).

Definition newline : string := String "010"%char "".

Definition recordStatus (rl : respLogger) (status : Z) : respLogger :=
  if pred status
  then {| rl_hijacked := rl_hijacked rl; rl_statusRecorded := true; rl_status := status; rl_statusStack := newline +:+ stack;
          rl_addedInfo := rl_addedInfo rl; rl_captureErrorOutput := true |}
  else {| rl_hijacked := rl_hijacked rl; rl_statusRecorded := true; rl_status := status; rl_statusStack := "";
          rl_addedInfo := rl_addedInfo rl; rl_captureErrorOutput := rl_captureErrorOutput rl |}.

(** Addf with the text already formatted. *)
Definition Addf (rl : respLogger) (text : string) : respLogger :=
  {| rl_hijacked := rl_hijacked rl; rl_statusRecorded := rl_statusRecorded rl; rl_status := rl_status rl;
     rl_statusStack := rl_statusStack rl; rl_addedInfo := rl_addedInfo rl +:+ newline +:+ text;
     rl_captureErrorOutput := rl_captureErrorOutput rl |}.

Definition rl_Write (rl : respLogger) (b : string) : respLogger * list wop :=
  let rl := if rl_statusRecorded rl then rl else recordStatus rl 200 in
  let rl := if rl_captureErrorOutput rl then Addf rl ("logging error output: " +:+ Quote b +:+ newline) else rl in
  (rl, [WriteBody b]).

Definition rl_WriteHeader (rl : respLogger) (status : Z) : respLogger * list wop := (recordStatus rl status, [WriteHeader status]).

Definition rl_Flush (rl : respLogger) : respLogger * list wop := (rl, if canFlush then [Flush] else []).

Definition rl_Hijack (rl : respLogger) : outcome (respLogger * list wop) :=
  let rl := {| rl_hijacked := true; rl_statusRecorded := rl_statusRecorded rl; rl_status := rl_status rl;
               rl_statusStack := rl_statusStack rl; rl_addedInfo := rl_addedInfo rl;
               rl_captureErrorOutput := rl_captureErrorOutput rl |} in
  if canHijack then Ret (rl, [Hijack]) else Panic "interface conversion: not http.Hijacker".

(** A call on the logging writer, with the calls on the writer behind. *)
Definition rl_call (rl : respLogger) (op : wop) : outcome (respLogger * list wop) :=
  match op with
  | WriteHeader status => Ret (rl_WriteHeader rl status)
  | WriteBody b => Ret (rl_Write rl b)
  | Flush => Ret (rl_Flush rl)
  | Hijack => rl_Hijack rl
  | op => Ret (rl, [op])
  end.

Fixpoint rl_calls (rl : respLogger) (ops : list wop) : outcome (respLogger * list wop) :=
  match ops with
  | [] => Ret (rl, [])
  | op :: ops => '(rl, l) ← rl_call rl op; '(rl, l') ← rl_calls rl ops; Ret (rl, l ++ l')
  end.

(** What identifies the request in its log line. *)
Context (verb uri latency userAgent srcIP : string).

Definition LogArgs (rl : respLogger) : list (string * string) :=
  [("verb", verb); ("URI", uri); ("latency", latency); ("userAgent", userAgent); ("srcIP", srcIP)] ++
  if rl_hijacked rl then [("hijacked", "true")]
  else [("resp", Itoa (rl_status rl))] ++
       (if slen (rl_statusStack rl) =? 0 then [] else [("statusStack", rl_statusStack rl)]) ++
       (if slen (rl_addedInfo rl) =? 0 then [] else [("addedInfo", rl_addedInfo rl)]).

(** The handler's calls; [old] is whether the request has a logger already.  The line is
    logged at verbosity 3. *)
Definition WithLogging (old v3 : bool) (ops : list wop) : outcome (list wop * list (list (string * string))) :=
  if old then Panic "multiple WithLogging calls!"
  else '(rl, l) ← rl_calls newLogged ops; Ret (l, if v3 then [LogArgs rl] else []).

(** *** Theorems *)




#[local] Instance wop_eq_dec : EqDecision wop.
Proof. solve_decision. Defined.

Lemma rl_call_passed_on rl op :
  (canHijack = true ∨ op ≠ Hijack) → ∃ rl', rl_call rl op = Ret (rl', filter (λ op, op = Flush → canFlush = true) [op]).
Proof.
  intros Hh; destruct op; cbn [rl_call]; try (eexists; rewrite filter_cons_True by done; reflexivity).
  - unfold rl_Flush; eexists; destruct canFlush; [rewrite filter_cons_True by done|rewrite filter_cons_False by naive_solver]; reflexivity.
  - unfold rl_Hijack; destruct Hh as [->|[]]; [|done]. eexists; rewrite filter_cons_True by done; reflexivity.
Qed.

(** Logging passes every call on, in order; only a hijack the writer does not support
    panics. *)
Lemma rl_calls_passed_on rl ops :
  (canHijack = true ∨ Hijack ∉ ops) → ∃ rl', rl_calls rl ops = Ret (rl', filter (λ op, op = Flush → canFlush = true) ops).
Proof.
  revert rl; induction ops as [|op ops IH]; intros rl Hh; [by eexists|].
  destruct (rl_call_passed_on rl op) as [rl1 H1]; [set_solver|].
  destruct (IH rl1) as [rl2 H2]; [set_solver|]. exists rl2; cbn [rl_calls]; rewrite H1; cbn [mbind outcome_bind]; rewrite H2.
  cbn [mbind outcome_bind]. by rewrite <- filter_app.
Qed.

(** The status that was recorded last decides about the stack. *)
Definition stack_ok (rl : respLogger) : Prop :=
  (rl_statusStack rl ≠ "" ↔ rl_statusRecorded rl = true ∧ pred (rl_status rl) = true).

Lemma rl_call_stack rl op rl' l : rl_call rl op = Ret (rl', l) → stack_ok rl → stack_ok rl'.
Proof.
  unfold stack_ok, rl_call, rl_WriteHeader, rl_Write, rl_Flush, rl_Hijack, recordStatus.
  destruct op; intros Hc Hs; simpl in Hc; simplify_eq; try done.
  - destruct (pred code) eqn:Hp; simpl; rewrite Hp; naive_solver.
  - destruct (rl_statusRecorded rl) eqn:Hr; simpl.
    + destruct (rl_captureErrorOutput rl); simpl; by rewrite Hr.
    + destruct (pred 200) eqn:Hp; simpl; [rewrite Hp; naive_solver|]. destruct (rl_captureErrorOutput rl); simpl; rewrite Hp; naive_solver.
  - destruct canHijack; simplify_eq/=; done.
Qed.

Lemma rl_calls_stack rl ops rl' l : rl_calls rl ops = Ret (rl', l) → stack_ok rl → stack_ok rl'.
Proof.
  revert rl rl' l; induction ops as [|op ops IH]; intros rl rl' l; cbn [rl_calls]; [by intros [= <- _]|].
  destruct (rl_call rl op) as [[rl1 l1]|] eqn:E1; [|done]; cbn [mbind outcome_bind].
  destruct (rl_calls rl1 ops) as [[rl2 l2]|] eqn:E2; [|done]; intros [= <- _] Hs.
  eapply IH; [done|]. by eapply rl_call_stack.
Qed.

(** Nothing a handler writes is logged before it has answered with a status to be traced. *)
Lemma no_error_no_output rl ops rl' l :
  rl_calls rl ops = Ret (rl', l) → rl_captureErrorOutput rl = false → pred 200 = false →
  (∀ code, WriteHeader code ∈ ops → pred code = false) → rl_addedInfo rl' = rl_addedInfo rl.
Proof.
  revert rl rl' l; induction ops as [|op ops IH]; intros rl rl' l Hc Hf H200 Hp; cbn [rl_calls] in Hc; [by simplify_eq/=|].
  destruct (rl_call rl op) as [[rl1 l1]|] eqn:E1; [|done]; cbn [mbind outcome_bind] in Hc.
  destruct (rl_calls rl1 ops) as [[rl2 l2]|] eqn:E2; [|done]; injection Hc as <- _.
  assert (rl_captureErrorOutput rl1 = false ∧ rl_addedInfo rl1 = rl_addedInfo rl) as [Hf1 <-].
  { unfold rl_call, rl_WriteHeader, rl_Write, rl_Flush, rl_Hijack, recordStatus in E1.
    destruct op; simpl in E1; simplify_eq/=; try done.
    - by rewrite (Hp code) by (by left).
    - rewrite H200; destruct (rl_statusRecorded rl); simpl; rewrite Hf; by rewrite ?Hf.
    - destruct canHijack; simplify_eq/=; done. }
  apply (IH rl1 rl2 l2); [done..|]. intros code Hin; apply Hp; by right.
Qed.
End httplog.

(** What WithLogging writes: the calls of the handler, and one line with the last status;
    the stack is in it exactly for statuses to be traced. *)
Lemma WithLogging_line stack pred verb uri latency ua ip ops :
  ∃ rl, WithLogging stack pred true true verb uri latency ua ip false true ops =
      Ret (ops, [LogArgs verb uri latency ua ip rl]) ∧
    (rl_statusStack rl ≠ "" ↔ rl_statusRecorded rl = true ∧ pred (rl_status rl) = true).
Proof.
  destruct (rl_calls_passed_on stack pred true true newLogged ops) as [rl Hrl]; [by left|].
  exists rl; unfold WithLogging; rewrite Hrl; cbn [mbind outcome_bind]; split.
  - do 2 f_equal; clear Hrl; induction ops as [|op ops IH]; [done|]. rewrite filter_cons_True by done; by rewrite IH.
  - eapply (rl_calls_stack stack pred true true); [exact Hrl|]. unfold stack_ok; simpl; naive_solver.
Qed.

(** ** Watches (watch.go) *)

(** What ServeWatch is given: negotiation of the stream format, and what the writer and the
    framer can do. *)
Record stream_format := { sf_MediaType : string; sf_Framer : bool; sf_EncodesAsText : bool }.

Definition watch_MediaType (f : stream_format) : string :=
  if sf_MediaType f != "application/json" then sf_MediaType f +:+ ";stream=watch" else sf_MediaType f.

(** How a watch begins: an error, a websocket, or a stream. *)
Inductive watch_start := WError (err : error) | WWebSocket (mediaType : string) (text : bool) | WStream (mediaType : string).

Definition WatchServer_ServeHTTP (mediaType : string) (useTextFraming websocket canFlush newFrameWriter : bool) : watch_start :=
  if websocket then WWebSocket mediaType useTextFraming
  else if negb canFlush then WError (Errorf "unable to start watch - can't get http.Flusher: %#v" [])
  else if negb newFrameWriter then WError (Errorf "no stream framing support is available for media type %q" [mediaType])
  else WStream mediaType.

Definition ServeWatch (negotiated : stream_format + error) (websocket canFlush newFrameWriter : bool) : watch_start :=
  match negotiated with
  | inr err => WError err
  | inl f =>
      if negb (sf_Framer f) then WError (Errorf "no framer defined for %q available for embedded encoding" [sf_MediaType f])
      else WatchServer_ServeHTTP (watch_MediaType f) (sf_EncodesAsText f) websocket canFlush newFrameWriter
  end.

Section watch.
Context {Event : Type} (encode : Event → string).

(** The loop: in the select, after an event was written, returned. *)
Inductive watch_loop := WSelect | WWritten | WReturned.

(** Its writer, the channel of results, and the signals.  [wt_sent] is all the watcher ever
    sent; [wt_stopped] whether it was told to stop. *)
Record watch_state := {
  wt_loop : watch_loop;
  wt_out : list wop;
  wt_chan : list Event;
  wt_sent : list Event;
  wt_closed : bool;
  wt_done : bool;
  wt_timeout : bool;
  wt_stopped : bool;
}.

Definition watch_begin (mediaType : string) (ch : list Event) : watch_state :=
  {| wt_loop := WSelect;
     wt_out := [SetHeader "Content-Type" mediaType; SetHeader "Transfer-Encoding" "chunked"; WriteHeader 200; Flush];
     wt_chan := ch; wt_sent := ch; wt_closed := false; wt_done := false; wt_timeout := false; wt_stopped := false |}.

Definition set_watch (s : watch_state) (loop : watch_loop) (out : list wop) (ch : list Event) : watch_state :=
  {| wt_loop := loop; wt_out := out; wt_chan := ch; wt_sent := wt_sent s; wt_closed := wt_closed s; wt_done := wt_done s;
     wt_timeout := wt_timeout s; wt_stopped := wt_stopped s |}.

(** The loop returns; ServeWatch's deferred call stops the watcher. *)
Definition watch_return (s : watch_state) (ch : list Event) : watch_state :=
  {| wt_loop := WReturned; wt_out := wt_out s; wt_chan := ch; wt_sent := wt_sent s; wt_closed := wt_closed s;
     wt_done := wt_done s; wt_timeout := wt_timeout s; wt_stopped := true |}.

(** The steps of the loop.  Encoding, which writes, may fail at any time. *)
Inductive watch_step : watch_state → watch_state → Prop :=
  | ws_done s : wt_loop s = WSelect → wt_done s = true → watch_step s (watch_return s (wt_chan s))
  | ws_timeout s : wt_loop s = WSelect → wt_timeout s = true → watch_step s (watch_return s (wt_chan s))
  | ws_end s : wt_loop s = WSelect → wt_chan s = [] → wt_closed s = true → watch_step s (watch_return s [])
  | ws_event s e ch : wt_loop s = WSelect → wt_chan s = e :: ch →
      watch_step s (set_watch s WWritten (wt_out s ++ [WriteBody (encode e)]) ch)
  | ws_fail s e ch : wt_loop s = WSelect → wt_chan s = e :: ch → watch_step s (watch_return s ch)
  | ws_flush s : wt_loop s = WWritten → wt_chan s = [] → watch_step s (set_watch s WSelect (wt_out s ++ [Flush]) [])
  | ws_more s : wt_loop s = WWritten → wt_chan s ≠ [] → watch_step s (set_watch s WSelect (wt_out s) (wt_chan s)).

(** The watcher sends or ends, the client goes away, the time is over. *)
Inductive watch_env : watch_state → watch_state → Prop :=
  | we_send s e : wt_closed s = false →
      watch_env s {| wt_loop := wt_loop s; wt_out := wt_out s; wt_chan := wt_chan s ++ [e]; wt_sent := wt_sent s ++ [e];
                     wt_closed := false; wt_done := wt_done s; wt_timeout := wt_timeout s; wt_stopped := wt_stopped s |}
  | we_close s :
      watch_env s {| wt_loop := wt_loop s; wt_out := wt_out s; wt_chan := wt_chan s; wt_sent := wt_sent s;
                     wt_closed := true; wt_done := wt_done s; wt_timeout := wt_timeout s; wt_stopped := wt_stopped s |}
  | we_done s :
      watch_env s {| wt_loop := wt_loop s; wt_out := wt_out s; wt_chan := wt_chan s; wt_sent := wt_sent s;
                     wt_closed := wt_closed s; wt_done := true; wt_timeout := wt_timeout s; wt_stopped := wt_stopped s |}
  | we_timeout s :
      watch_env s {| wt_loop := wt_loop s; wt_out := wt_out s; wt_chan := wt_chan s; wt_sent := wt_sent s;
                     wt_closed := wt_closed s; wt_done := wt_done s; wt_timeout := true; wt_stopped := wt_stopped s |}.

Inductive watch_reachable (mediaType : string) : watch_state → Prop :=
  | wr_begin ch : watch_reachable mediaType (watch_begin mediaType ch)
  | wr_step s s' : watch_reachable mediaType s → watch_step s s' → watch_reachable mediaType s'
  | wr_env s s' : watch_reachable mediaType s → watch_env s s' → watch_reachable mediaType s'.

(** *** Theorems *)

Definition bodies (ops : list wop) : list string := omap (λ op, match op with WriteBody b => Some b | _ => None end) ops.

(** What holds at every time: the events written are the first that were sent, once each
    and in order; nothing waits to be flushed while the loop waits for the watcher; a loop
    that has returned has stopped its watcher. *)
Record watch_ok (mediaType : string) (s : watch_state) : Prop := {
  wo_header : ∃ rest, wt_out s = wt_out (watch_begin mediaType []) ++ rest ∧ Forall (λ op, op = Flush ∨ ∃ b, op = WriteBody b) rest;
  wo_order : ∃ written lost, wt_sent s = written ++ lost ++ wt_chan s ∧ bodies (wt_out s) = encode <$> written ∧
                             (wt_loop s ≠ WReturned → lost = []);
  wo_flushed : wt_loop s = WSelect → wt_chan s = [] → last (wt_out s) = Some Flush;
  wo_stopped : wt_stopped s = true ↔ wt_loop s = WReturned;
}.

Lemma bodies_app l l' : bodies (l ++ l') = bodies l ++ bodies l'.
Proof. apply omap_app. Qed.

Lemma return_ok mediaType s ch lost :
  watch_ok mediaType s → wt_loop s = WSelect → wt_chan s = lost ++ ch → watch_ok mediaType (watch_return s ch).
Proof.
  intros [Hh (written & lost' & Hs & Hb & Hl) Hf Hst] Hsel Hch; split; simpl; [done| |done|done].
  rewrite Hl in Hs by (by rewrite Hsel); exists written, lost; split; [|done]. by rewrite Hs, Hch.
Qed.

Lemma step_ok mediaType s s' : watch_ok mediaType s → watch_step s s' → watch_ok mediaType s'.
Proof.
  intros Hok Hstep; destruct Hstep as [s Hl Hd|s Hl Ht|s Hl Hc Hcl|s e ch Hl Hc|s e ch Hl Hc|s Hl Hc|s Hl Hc].
  - by apply (return_ok _ _ _ []).
  - by apply (return_ok _ _ _ []).
  - by apply (return_ok _ _ _ []).
  - destruct Hok as [(rest & Ho & Hr) (written & lost & Hs & Hb & Hlo) Hf Hst]; split; simpl.
    + exists (rest ++ [WriteBody (encode e)]); split; [by rewrite Ho, <- app_assoc|].
      apply Forall_app_2; [done|]. apply Forall_singleton; right; by eexists.
    + rewrite Hlo in Hs by (by rewrite Hl); exists (written ++ [e]), []; split; [by rewrite Hs, Hc, <- app_assoc|].
      split; [|done]. by rewrite bodies_app, Hb, fmap_app.
    + done.
    + rewrite Hl in Hst; naive_solver.
  - by apply (return_ok _ _ _ [e]).
  - destruct Hok as [(rest & Ho & Hr) (written & lost & Hs & Hb & Hlo) Hf Hst]; split; simpl.
    + exists (rest ++ [Flush]); split; [by rewrite Ho, <- app_assoc|]. apply Forall_app_2; [done|]. apply Forall_singleton; by left.
    + rewrite Hlo in Hs by (by rewrite Hl); exists written, []; split; [by rewrite Hs, Hc|]. split; [|done].
      by rewrite bodies_app, Hb, app_nil_r.
    + intros _ _; by rewrite last_snoc.
    + rewrite Hl in Hst; naive_solver.
  - destruct Hok as [Hh (written & lost & Hs & Hb & Hlo) Hf Hst]; split; simpl; [done| |done|rewrite Hl in Hst; naive_solver].
    exists written, []; split; [|done]. by rewrite Hlo in Hs by (by rewrite Hl).
Qed.

Lemma env_ok mediaType s s' : watch_ok mediaType s → watch_env s s' → watch_ok mediaType s'.
Proof.
  intros [Hh Ho Hf Hst] Henv; destruct Henv as [s e Hc|s|s|s]; split; simpl; try done.
  - destruct Ho as (written & lost & Hs & Hb & Hl); exists written, lost; split; [by rewrite Hs, <- !app_assoc|done].
  - intros _ Hch; by apply app_eq_nil in Hch as [_ [=]].
Qed.

Theorem watch_safe mediaType s : watch_reachable mediaType s → watch_ok mediaType s.
Proof.
  induction 1 as [ch|s s' _ IH Hs|s s' _ IH He]; [|by eapply step_ok|by eapply env_ok].
  split; simpl; [exists []; split; [done|constructor]|by exists [], []|done|done].
Qed.

(** The loop by itself ends once the watcher has closed its channel, the client is gone or
    the time is over, after at most two steps for every event that is waiting, and one. *)
Definition watch_work (s : watch_state) : nat :=
  match wt_loop s with WReturned => 0 | WSelect => 1 + 2 * length (wt_chan s) | WWritten => 2 + 2 * length (wt_chan s) end.

Lemma watch_step_work s s' : watch_step s s' → watch_work s' < watch_work s.
Proof. unfold watch_work; intros []; simpl; repeat (match goal with H : _ = _ |- _ => rewrite H end); simpl; lia. Qed.

Lemma watch_progress s :
  wt_loop s ≠ WReturned → wt_closed s = true ∨ wt_done s = true ∨ wt_timeout s = true → ∃ s', watch_step s s'.
Proof.
  intros Hr He; destruct (wt_loop s) eqn:Hl; [| |done].
  - destruct (wt_chan s) as [|e ch] eqn:Hc; [|eexists; by eapply ws_event].
    destruct He as [He|[He|He]]; eexists; [by eapply ws_end|by eapply ws_done|by eapply ws_timeout].
  - destruct (decide (wt_chan s = [])) as [Hc|Hc]; eexists; [by eapply ws_flush|by eapply ws_more].
Qed.

(** The websocket: one message per event, in text or binary frames; no timeout. *)
Record ws_state := { wsk_running : bool; wsk_sent_out : list (bool * string); wsk_chan : list Event; wsk_sent : list Event;
                     wsk_closed : bool; wsk_done : bool }.

(** [UseTextFraming] decides the frames. *)
Inductive HandleWS_step (UseTextFraming : bool) : ws_state → ws_state → Prop :=
  | hw_done s : wsk_running s = true → wsk_done s = true →
      HandleWS_step UseTextFraming s {| wsk_running := false; wsk_sent_out := wsk_sent_out s; wsk_chan := wsk_chan s; wsk_sent := wsk_sent s;
                         wsk_closed := wsk_closed s; wsk_done := true |}
  | hw_end s : wsk_running s = true → wsk_chan s = [] → wsk_closed s = true →
      HandleWS_step UseTextFraming s {| wsk_running := false; wsk_sent_out := wsk_sent_out s; wsk_chan := []; wsk_sent := wsk_sent s;
                         wsk_closed := true; wsk_done := wsk_done s |}
  | hw_event s e ch : wsk_running s = true → wsk_chan s = e :: ch →
      HandleWS_step UseTextFraming s {| wsk_running := true; wsk_sent_out := wsk_sent_out s ++ [(UseTextFraming, encode e)]; wsk_chan := ch;
                         wsk_sent := wsk_sent s; wsk_closed := wsk_closed s; wsk_done := wsk_done s |}
  | hw_fail s e ch : wsk_running s = true → wsk_chan s = e :: ch →
      HandleWS_step UseTextFraming s {| wsk_running := false; wsk_sent_out := wsk_sent_out s; wsk_chan := ch; wsk_sent := wsk_sent s;
                         wsk_closed := wsk_closed s; wsk_done := wsk_done s |}
  (* the watcher and the client *)
  | hw_send s e : wsk_closed s = false →
      HandleWS_step UseTextFraming s {| wsk_running := wsk_running s; wsk_sent_out := wsk_sent_out s; wsk_chan := wsk_chan s ++ [e];
                         wsk_sent := wsk_sent s ++ [e]; wsk_closed := false; wsk_done := wsk_done s |}
  | hw_close s :
      HandleWS_step UseTextFraming s {| wsk_running := wsk_running s; wsk_sent_out := wsk_sent_out s; wsk_chan := wsk_chan s; wsk_sent := wsk_sent s;
                         wsk_closed := true; wsk_done := wsk_done s |}
  | hw_gone s :
      HandleWS_step UseTextFraming s {| wsk_running := wsk_running s; wsk_sent_out := wsk_sent_out s; wsk_chan := wsk_chan s; wsk_sent := wsk_sent s;
                         wsk_closed := wsk_closed s; wsk_done := true |}.

Definition HandleWS_begin (ch : list Event) : ws_state :=
  {| wsk_running := true; wsk_sent_out := []; wsk_chan := ch; wsk_sent := ch; wsk_closed := false; wsk_done := false |}.

(** The messages are the first events, one each and in order. *)
Definition ws_ordered (text : bool) (s : ws_state) : Prop :=
  ∃ written lost, wsk_sent s = written ++ lost ++ wsk_chan s ∧ wsk_sent_out s = (λ e, (text, encode e)) <$> written ∧
    (wsk_running s = true → lost = []).

Lemma HandleWS_step_ordered text s s' : HandleWS_step text s s' → ws_ordered text s → ws_ordered text s'.
Proof.
  intros Hs (written & lost & Hw & Ho & Hl); unfold ws_ordered.
  destruct Hs as [s Hrun Hd|s Hrun Hc Hcl|s e ch' Hrun Hc|s e ch' Hrun Hc|s e Hcl|s|s]; simpl in *.
  - exists written, lost; by rewrite Hw.
  - exists written, lost; by rewrite Hw, Hc.
  - rewrite (Hl Hrun) in Hw; exists (written ++ [e]), []; split; [by rewrite Hw, Hc, <- app_assoc|].
    split; [by rewrite Ho, fmap_app|done].
  - rewrite (Hl Hrun) in Hw; exists written, [e]; split; [by rewrite Hw, Hc|done].
  - exists written, lost; split; [by rewrite Hw, <- !app_assoc|done].
  - eauto.
  - eauto.
Qed.

Lemma HandleWS_order text ch s : rtc (HandleWS_step text) (HandleWS_begin ch) s → ws_ordered text s.
Proof.
  assert (ws_ordered text (HandleWS_begin ch)) as H0 by (by exists [], []).
  intros Hr; induction Hr as [|s1 s2 s3 Hs _ IH]; [done|]. apply IH; by eapply HandleWS_step_ordered.
Qed.
End watch.

(** *** Examples *)

Lemma watch_example :
  watch_reachable id "application/json" {| wt_loop := WReturned;
    wt_out := [SetHeader "Content-Type" "application/json"; SetHeader "Transfer-Encoding" "chunked"; WriteHeader 200; Flush;
               WriteBody "a"; WriteBody "b"; Flush];
    wt_chan := []; wt_sent := ["a"; "b"]; wt_closed := true; wt_done := false; wt_timeout := false; wt_stopped := true |}.
Proof.
  pose proof (wr_begin id "application/json" ["a"; "b"]) as H.
  eapply wr_step in H; [|by eapply ws_event]. eapply wr_step in H; [|by apply ws_more].
  eapply wr_step in H; [|by eapply ws_event]. eapply wr_step in H; [|by apply ws_flush].
  eapply wr_env in H; [|apply we_close]. eapply wr_step in H; [|by eapply ws_end]. exact H.
Qed.

(** A watch over a websocket has no timeout: only the watcher and the client end it. *)
Lemma websocket_started : ServeWatch (inl {| sf_MediaType := "application/yaml"; sf_Framer := true; sf_EncodesAsText := true |}) true false false =
  WWebSocket "application/yaml;stream=watch" true.
Proof. reflexivity. Qed.
