(* ===== verification/Storage.v ===== *)
(** * Storage

    Models pkg/db (the databases of a configuration), pkg/storage (stores of objects under
    keys, over a database or over nothing) and pkg/models (stores per resource, and the
    module that makes them).  golib's ORM is a parameter with its laws: rows are kept by
    table and name, and selected by name=NAME. *)

From stdpp Require Import pretty.
From S2P Require Import Prelude GoStrings.

Local Open Scope go_scope.

(** ** Databases (pkg/db) *)

Record DBConfig := {
  db_Name : string; db_Driver : string; db_Dsn : string; db_MaxRows : Z; db_WithoutPing : bool; db_IgnoreNotFound : bool;
  db_MaxIdleCount : Z; db_MaxOpenConns : Z; db_ConnMaxLifetime : Z; db_ConnMaxIdletime : Z;
}.

Definition set_name_driver (p : DBConfig) (name driver : string) : DBConfig :=
  {| db_Name := name; db_Driver := driver; db_Dsn := db_Dsn p; db_MaxRows := db_MaxRows p; db_WithoutPing := db_WithoutPing p;
     db_IgnoreNotFound := db_IgnoreNotFound p; db_MaxIdleCount := db_MaxIdleCount p; db_MaxOpenConns := db_MaxOpenConns p;
     db_ConnMaxLifetime := db_ConnMaxLifetime p; db_ConnMaxIdletime := db_ConnMaxIdletime p |}.

Definition DBConfig_Validate (p : DBConfig) : option error * DBConfig :=
  if db_Dsn p == "" then (None, p)
  else if db_Name p == "" then (Some (Errorf "name must be set" []), p)
  else (None, if db_Driver p == "" then set_name_driver p (db_Name p) "mysql" else p).

Record DBsConfig := { dc_DBConfig : DBConfig; dc_Databases : list DBConfig }.

Definition DefaultName : string := "__default__".

(** The loop over the databases, from index [i]. *)
Fixpoint validate_databases (i : nat) (l : list DBConfig) : option error * list DBConfig :=
  match l with
  | [] => (None, [])
  | p :: l =>
      match DBConfig_Validate p with
      | (Some err, p) => (Some (ErrorWrap "db[%d]: %s" [pretty i] err), p :: l)
      | (None, p) => let '(err, l) := validate_databases (S i) l in (err, p :: l)
      end
  end.

(** The database of the configuration itself is appended under its name. *)
Definition DBsConfig_Validate (p : DBsConfig) : option error * DBsConfig :=
  let main := set_name_driver (dc_DBConfig p) DefaultName (db_Driver (dc_DBConfig p)) in
  let '(err, l) := validate_databases 0 (dc_Databases p ++ [main]) in
  (err, {| dc_DBConfig := main; dc_Databases := l |}).

Inductive DBOption :=
  | WithContext | WithoutPing | WithIgnoreNotFound | WithMaxRows (n : Z) | WithMaxIdleCount (n : Z) | WithMaxOpenConns (n : Z)
  | WithConnMaxLifetime (d : Z).

Definition db_options (cf : DBConfig) : list DBOption :=
  [WithContext] ++
  (if db_WithoutPing cf then [WithoutPing] else []) ++
  (if db_IgnoreNotFound cf then [WithIgnoreNotFound] else []) ++
  (if (0 <? db_MaxRows cf)%Z then [WithMaxRows (db_MaxRows cf)] else []) ++
  (if (0 <? db_MaxIdleCount cf)%Z then [WithMaxIdleCount (db_MaxIdleCount cf)] else []) ++
  (if (0 <? db_MaxOpenConns cf)%Z then [WithMaxOpenConns (db_MaxOpenConns cf)] else []) ++
  (if (db_ConnMaxLifetime cf =? 0)%Z then [] else [WithConnMaxLifetime (db_ConnMaxLifetime cf)]) ++
  (if (db_ConnMaxIdletime cf =? 0)%Z then [] else [WithConnMaxLifetime (db_ConnMaxIdletime cf)]).

Section databases.
(** orm.Open. *)
Context {DB : Type} (Open : string → string → list DBOption → DB + error).

Record serverDB := { sd_name : string; sd_DB : option DB; sd_dbs : gmap string DB }.

Fixpoint open_databases (l : list DBConfig) (dbs : gmap string DB) : gmap string DB + error :=
  match l with
  | [] => inl dbs
  | cf :: l =>
      if (db_Dsn cf == "") || (db_Driver cf == "") then open_databases l dbs
      else match Open (db_Driver cf) (db_Dsn cf) (db_options cf) with
      | inr err => inr err
      | inl db => open_databases l (<[db_Name cf := db]> dbs)
      end
  end.

Definition NewDB (config : DBsConfig) : serverDB + error :=
  match open_databases (dc_Databases config) ∅ with
  | inr err => inr err
  | inl dbs =>
      inl (match dbs !! DefaultName with
           | Some db => {| sd_name := DefaultName; sd_DB := Some db; sd_dbs := dbs |}
           | None => {| sd_name := ""; sd_DB := None; sd_dbs := dbs |}
           end)
  end.

(** A nil receiver is [None]. *)
Definition GetDB (p : option serverDB) (name : string) : option serverDB :=
  p ← p; db ← sd_dbs p !! name; Some {| sd_name := name; sd_DB := Some db; sd_dbs := sd_dbs p |}.

(** options.DBFrom: [attr] is the database of the process. *)
Definition DBFrom (attr : option serverDB) (name : string) : option serverDB :=
  d ← attr; GetDB (Some d) (if name == "" then DefaultName else name).
End databases.

(** ** Stores (pkg/storage) *)

Definition parseKey (key : string) : string * string * string :=
  match Split key "/"%char with
  | a :: b :: c :: _ => (a, b, c)
  | [a; b] => (a, "", b)
  | [a] => (a, "", "")
  | [] => ("", "", "")
  end.

Definition parseKeyWithSelector (key selector : string) : (string * string) + error :=
  let '(table, namespace, name) := parseKey key in
  if selector != "" then inl (table, selector)
  else if name == "" then inr (Errorf "key.name is empty" [])
  else
    let q := "name=" +:+ name in
    inl (table, if namespace != "" then q +:+ ",namespace" +:+ namespace else q).

(** api.GetListOptions. *)
Record ListOptions := { lo_Query : string; lo_Orderby : list string; lo_Offset : Z; lo_Limit : Z }.

(** The interface: [out] says whether the caller wants the object back. *)
Record Store (W Obj : Type) := {
  s_Create : string → Obj → bool → W → (option error * option Obj) * W;
  s_Delete : string → bool → W → (option error * option Obj) * W;
  s_Update : string → Obj → bool → W → (option error * option Obj) * W;
  s_Get : string → bool → W → (option error * option Obj);
  s_List : string → ListOptions → W → (option error * list Obj * Z);
}.
Arguments s_Create {W Obj} _ _ _ _ _.
Arguments s_Delete {W Obj} _ _ _ _.
Arguments s_Update {W Obj} _ _ _ _ _.
Arguments s_Get {W Obj} _ _ _ _.
Arguments s_List {W Obj} _ _ _ _.

(** The stores of memory, files and etcd keep nothing. *)
Definition null_store {W Obj : Type} : Store W Obj :=
  {| s_Create _ _ _ w := ((None, None), w); s_Delete _ _ w := ((None, None), w); s_Update _ _ _ w := ((None, None), w);
     s_Get _ _ _ := (None, None); s_List _ _ _ := (None, [], 0%Z) |}.
Definition mem_store {W Obj : Type} : Store W Obj := null_store.
Definition file_store {W Obj : Type} : Store W Obj := null_store.
Definition etcd_store {W Obj : Type} : Store W Obj := null_store.

(** orm.Interface: tables and selectors. *)
Class ORM (W Obj : Type) := {
  orm_Insert : string → Obj → W → option error * W;
  orm_Get : string → string → bool → W → option error * option Obj;
  orm_Update : string → Obj → W → option error * W;
  orm_Delete : string → string → W → option error * W;
  orm_List : string → ListOptions → W → option error * list Obj * Z;
}.

Section dbkv.
Context `{ORM W Obj}.

Definition db_get (table selector : string) (ignoreNotFound : bool) (w : W) : option error * option Obj :=
  orm_Get table selector ignoreNotFound w.

Definition db_Create (key : string) (obj : Obj) (out : bool) (w : W) : (option error * option Obj) * W :=
  match parseKeyWithSelector key "" with
  | inr err => ((Some err, None), w)
  | inl (table, selector) =>
      match orm_Insert table obj w with
      | (Some err, w) => ((Some err, None), w)
      | (None, w) => (if out then db_get table selector false w else (None, None), w)
      end
  end.

Definition db_Delete (key : string) (out : bool) (w : W) : (option error * option Obj) * W :=
  match parseKeyWithSelector key "" with
  | inr err => ((Some err, None), w)
  | inl (table, selector) =>
      match (if out then db_get table selector false w else (None, None)) with
      | (Some err, o) => ((Some err, o), w)
      | (None, o) => let '(err, w) := orm_Delete table selector w in ((err, o), w)
      end
  end.

Definition db_Update (key : string) (obj : Obj) (out : bool) (w : W) : (option error * option Obj) * W :=
  match parseKeyWithSelector key "" with
  | inr err => ((Some err, None), w)
  | inl (table, selector) =>
      match orm_Update table obj w with
      | (Some err, w) => ((Some err, None), w)
      | (None, w) => (if out then db_get table selector false w else (None, None), w)
      end
  end.

Definition db_Get (key : string) (ignoreNotFound : bool) (w : W) : option error * option Obj :=
  match parseKeyWithSelector key "" with
  | inr err => (Some err, None)
  | inl (table, selector) => db_get table selector ignoreNotFound w
  end.

Definition db_List (key : string) (opts : ListOptions) (w : W) : option error * list Obj * Z :=
  let '(table, _, _) := parseKey key in orm_List table opts w.

Definition db_store : Store W Obj :=
  {| s_Create := db_Create; s_Delete := db_Delete; s_Update := db_Update; s_Get := db_Get; s_List := db_List |}.
End dbkv.

(** ** Models (pkg/models) *)

Section models.
Context {W Obj : Type}.

Record ModelStore := { ms_store : Store W Obj; ms_resource : string }.

Definition model_key (p : ModelStore) (name : string) : string := ms_resource p +:+ "/" +:+ name.

Definition ms_Create (p : ModelStore) (name : string) := s_Create (ms_store p) (model_key p name).
Definition ms_Get (p : ModelStore) (name : string) := s_Get (ms_store p) (model_key p name).
Definition ms_List (p : ModelStore) := s_List (ms_store p) (ms_resource p).
Definition ms_Update (p : ModelStore) (name : string) := s_Update (ms_store p) (model_key p name).
Definition ms_Delete (p : ModelStore) (name : string) := s_Delete (ms_store p) (model_key p name).

(** The module: models by name and in order. *)
Record models_module := { mm_store : option (Store W Obj); mm_db : bool; mm_registry : gset string; mm_models : list string }.

Fixpoint models_Register (p : models_module) (ms : list string) : outcome models_module :=
  match ms with
  | [] => Ret p
  | name :: ms =>
      if bool_decide (name ∈ mm_registry p) then Panic (name +:+ " has already been registered")
      else models_Register {| mm_store := mm_store p; mm_db := mm_db p; mm_registry := {[ name ]} ∪ mm_registry p;
                              mm_models := mm_models p ++ [name] |} ms
  end.

Definition NewModelStore (p : models_module) (kind : string) : outcome ModelStore :=
  if negb (bool_decide (kind ∈ mm_registry p)) then Panic ("model " +:+ kind +:+ " that has not been registered")
  else match mm_store p with
  | None => Panic "storage that has not been set"
  | Some s => Ret {| ms_store := s; ms_resource := kind |}
  end.

(** [dbstore] is the store of the database in the context, if there is one. *)
Definition models_init (storage dbName : string) (dbstore : option (Store W Obj)) (p : models_module) : option error * models_module :=
  let with_store s db := {| mm_store := Some s; mm_db := db; mm_registry := mm_registry p; mm_models := mm_models p |} in
  if storage == "db" then
    match dbstore with
    | None => (Some (Errorf "unable to get db[%s] from context" [dbName]), p)
    | Some s => (None, with_store s true)
    end
  else if storage == "etcd" then (None, with_store etcd_store (mm_db p))
  else if storage == "file" then (None, with_store file_store (mm_db p))
  else if storage == "mem" then (None, with_store mem_store (mm_db p))
  else (Some (Errorf "unsupported storage %s" [storage]), p).

(** Tables are made for all models, whatever the errors. *)
Definition models_preStart `{UtilErrors} (autoMigrate : bool) (AutoMigrate : string → option error) (p : models_module) : option error :=
  if autoMigrate && mm_db p then NewAggregate (omap AutoMigrate (mm_models p)) else None.
End models.

(** ** Theorems *)

(** *** Databases *)

Definition usable (cf : DBConfig) : Prop := db_Dsn cf ≠ "" ∧ db_Driver cf ≠ "".

Section database_theorems.
Context {DB : Type} (Open : string → string → list DBOption → DB + error).

Lemma open_databases_names l dbs dbs' :
  open_databases Open l dbs = inl dbs' →
  ∀ name, is_Some (dbs' !! name) ↔ is_Some (dbs !! name) ∨ ∃ cf, cf ∈ l ∧ usable cf ∧ db_Name cf = name.
Proof.
  revert dbs; induction l as [|cf l IH]; intros dbs; simpl.
  { intros [= <-] name; split; [by left|]. intros [?|(cf & Hin & _)]; [done|by apply not_elem_of_nil in Hin]. }
  destruct (_ || _) eqn:Hu.
  - intros Ho name; rewrite (IH _ Ho name); split; (intros [?|(cf' & Hin & Hu' & Hn)]; [by left|]).
    + right; exists cf'; split; [by right|done].
    + apply elem_of_cons in Hin as [->|Hin]; [|right; by exists cf'].
      destruct Hu' as [Hd Hr]; apply orb_true_iff in Hu as [Hx|Hx]; by apply bool_decide_eq_true in Hx.
  - destruct (Open _ _ _) as [db|] eqn:E; [|done]; intros Ho name; rewrite (IH _ Ho name).
    apply orb_false_iff in Hu as [Hd%bool_decide_eq_false Hr%bool_decide_eq_false].
    destruct (decide (db_Name cf = name)) as [<-|Hn].
    + rewrite lookup_insert_eq; split; [|by left]. intros _; right; exists cf; by split; [left|].
    + rewrite lookup_insert_ne by done; split; (intros [?|(cf' & Hin & Hx)]; [by left|]).
      * right; exists cf'; split; [by right|done].
      * apply elem_of_cons in Hin as [->|Hin]; [naive_solver|right; by exists cf'].
Qed.

(** A process has exactly the databases its configuration names with a driver and a
    source; its own is the one of the configuration itself. *)
Theorem NewDB_spec config s :
  NewDB Open config = inl s →
  (∀ name, is_Some (GetDB (Some s) name) ↔ ∃ cf, cf ∈ dc_Databases config ∧ usable cf ∧ db_Name cf = name) ∧
  (is_Some (sd_DB s) ↔ ∃ cf, cf ∈ dc_Databases config ∧ usable cf ∧ db_Name cf = DefaultName).
Proof.
  unfold NewDB; destruct (open_databases _ _ _) as [dbs|] eqn:E; [|done]; intros [= <-].
  pose proof (open_databases_names _ _ _ E) as Hn.
  assert (∀ name, is_Some (dbs !! name) ↔ ∃ cf, cf ∈ dc_Databases config ∧ usable cf ∧ db_Name cf = name) as Hn'.
  { intros name; rewrite Hn, lookup_empty; split; [intros [[? [=]]|?]; done|by right]. }
  split.
  - intros name; rewrite <- Hn'; destruct (dbs !! DefaultName); simpl; (destruct (dbs !! name); simpl; split; intros [? ?]; (done || by eexists)).
  - rewrite <- Hn'; destruct (dbs !! DefaultName); simpl; split; intros [? ?]; (done || by eexists).
Qed.
End database_theorems.

Lemma DBConfig_Validate_usable p p' : DBConfig_Validate p = (None, p') → db_Dsn p' ≠ "" → usable p' ∧ db_Name p' ≠ "".
Proof.
  unfold DBConfig_Validate, usable; case_bool_decide as Hd; [by intros [= <-]|].
  case_bool_decide as Hn; [done|]; case_bool_decide as Hr; intros [= <-]; simpl; intros _; done.
Qed.

Lemma validate_databases_usable i l l' :
  validate_databases i l = (None, l') → ∀ cf, cf ∈ l' → db_Dsn cf ≠ "" → usable cf ∧ db_Name cf ≠ "".
Proof.
  revert i l'; induction l as [|p l IH]; intros i l'; simpl; [intros [= <-] cf Hin; by apply not_elem_of_nil in Hin|].
  destruct (DBConfig_Validate p) as [[err|] p'] eqn:E; [done|].
  destruct (validate_databases (S i) l) as [err l1] eqn:E1; intros [= -> <-] cf [->|Hin]%elem_of_cons Hd.
  - by eapply DBConfig_Validate_usable.
  - by eapply IH.
Qed.

(** Validation completes every database that has a source. *)
Lemma DBsConfig_Validate_usable p p' :
  DBsConfig_Validate p = (None, p') → ∀ cf, cf ∈ dc_Databases p' → db_Dsn cf ≠ "" → usable cf ∧ db_Name cf ≠ "".
Proof.
  unfold DBsConfig_Validate; destruct (validate_databases _ _) as [err l] eqn:E; intros [= -> <-]; simpl.
  by eapply validate_databases_usable.
Qed.

(** It appends the database of the configuration every time. *)
Lemma validate_twice p err p' err' p'' :
  DBsConfig_Validate p = (err, p') → DBsConfig_Validate p' = (err', p'') →
  length (dc_Databases p'') = 2 + length (dc_Databases p).
Proof.
  assert (∀ i l, length (validate_databases i l).2 = length l) as Hl.
  { intros i l; revert i; induction l as [|q l IH]; intros i; simpl; [done|].
    destruct (DBConfig_Validate q) as [[e|] q']; simpl; [done|]. specialize (IH (S i)).
    destruct (validate_databases (S i) l); simpl in *; by f_equal. }
  unfold DBsConfig_Validate; pose proof (Hl 0 (dc_Databases p ++ [set_name_driver (dc_DBConfig p) DefaultName (db_Driver (dc_DBConfig p))])) as H1.
  destruct (validate_databases 0 (dc_Databases p ++ _)) as [e1 l1]; simpl in H1; intros [= _ <-]; simpl.
  pose proof (Hl 0 (l1 ++ [set_name_driver (set_name_driver (dc_DBConfig p) DefaultName (db_Driver (dc_DBConfig p))) DefaultName
    (db_Driver (dc_DBConfig p))])) as H2.
  destruct (validate_databases 0 (l1 ++ _)) as [e2 l2]; simpl in H2; intros [= _ <-]; simpl.
  rewrite length_app in *; simpl in *; lia.
Qed.

(** The idle time of connections is set as their lifetime. *)
Lemma idle_time_is_lifetime cf :
  db_ConnMaxIdletime cf ≠ 0%Z → last (db_options cf) = Some (WithConnMaxLifetime (db_ConnMaxIdletime cf)).
Proof.
  intros Hi; unfold db_options; rewrite (proj2 (Z.eqb_neq _ _) Hi), !app_assoc; apply last_snoc.
Qed.

(** *** Stores *)

Lemma parseKey_model resource name :
  ContainsByte resource "/"%char = false → ContainsByte name "/"%char = false →
  parseKey (resource +:+ "/" +:+ name) = (resource, "", name).
Proof.
  intros Hr Hn; unfold parseKey; change ("/" +:+ name) with (String "/"%char name).
  by rewrite Split_app, Split_no_sep.
Qed.

Lemma selector_model resource name :
  ContainsByte resource "/"%char = false → ContainsByte name "/"%char = false → name ≠ "" →
  parseKeyWithSelector (resource +:+ "/" +:+ name) "" = inl (resource, "name=" +:+ name).
Proof.
  intros Hr Hn Hne; unfold parseKeyWithSelector; rewrite parseKey_model by done; simpl.
  by rewrite (bool_decide_eq_false_2 _ Hne).
Qed.

(** The rows of the tables, by name; [plain] names can be selected. *)
Class ORMLaws (W Obj : Type) `{ORM W Obj} (rows : W → string → gmap string Obj) (name_of : Obj → string) (plain : string → Prop) := {
  insert_new w t o : rows w t !! name_of o = None →
    ∃ w', orm_Insert t o w = (None, w') ∧ rows w' t = <[name_of o := o]> (rows w t) ∧ ∀ t', t' ≠ t → rows w' t' = rows w t';
  insert_old w t o : is_Some (rows w t !! name_of o) → ∃ e, orm_Insert t o w = (Some e, w);
  get_present w t n ign o : plain n → rows w t !! n = Some o → orm_Get t ("name=" +:+ n) ign w = (None, Some o);
  get_absent w t n : plain n → rows w t !! n = None →
    orm_Get t ("name=" +:+ n) true w = (None, None) ∧ ∃ e, orm_Get t ("name=" +:+ n) false w = (Some e, None);
  update_present w t o : is_Some (rows w t !! name_of o) →
    ∃ w', orm_Update t o w = (None, w') ∧ rows w' t = <[name_of o := o]> (rows w t) ∧ ∀ t', t' ≠ t → rows w' t' = rows w t';
  delete_present w t n : plain n → is_Some (rows w t !! n) →
    ∃ w', orm_Delete t ("name=" +:+ n) w = (None, w') ∧ rows w' t = delete n (rows w t) ∧ ∀ t', t' ≠ t → rows w' t' = rows w t';
}.

Section store_theorems.
Context `{ORMLaws W Obj rows name_of plain}.

(** What a store of a resource promises: it is a map from names to objects, and touches no
    other resource. *)
Record is_map (p : ModelStore (W := W) (Obj := Obj)) (r : string) : Prop := {
  im_create w o out : plain (name_of o) → name_of o ≠ "" → ContainsByte (name_of o) "/"%char = false →
    match rows w r !! name_of o with
    | None => ∃ w', ms_Create p (name_of o) o out w = ((None, if out then Some o else None), w') ∧
                rows w' r = <[name_of o := o]> (rows w r) ∧ ∀ t, t ≠ r → rows w' t = rows w t
    | Some _ => ∃ e, ms_Create p (name_of o) o out w = ((Some e, None), w)
    end;
  im_get w n ign : plain n → n ≠ "" → ContainsByte n "/"%char = false →
    match rows w r !! n with
    | Some o => ms_Get p n ign w = (None, Some o)
    | None => ∃ e, ms_Get p n ign w = (if ign then None else Some e, None)
    end;
  im_update w o out : plain (name_of o) → name_of o ≠ "" → ContainsByte (name_of o) "/"%char = false →
    is_Some (rows w r !! name_of o) →
    ∃ w', ms_Update p (name_of o) o out w = ((None, if out then Some o else None), w') ∧
      rows w' r = <[name_of o := o]> (rows w r) ∧ ∀ t, t ≠ r → rows w' t = rows w t;
  im_delete w n o out : plain n → n ≠ "" → ContainsByte n "/"%char = false → rows w r !! n = Some o →
    ∃ w', ms_Delete p n out w = ((None, if out then Some o else None), w') ∧
      rows w' r = delete n (rows w r) ∧ ∀ t, t ≠ r → rows w' t = rows w t;
}.

(** A store over a database implements it, for resources and names without slashes. *)
Theorem db_store_is_map r :
  ContainsByte r "/"%char = false → is_map {| ms_store := db_store; ms_resource := r |} r.
Proof.
  intros Hr; split.
  - intros w o out Hp Hn Hs; unfold ms_Create, model_key; simpl; unfold db_Create; rewrite selector_model by done.
    destruct (rows w r !! name_of o) as [o'|] eqn:E.
    + destruct (insert_old w r o) as [e He]; [by rewrite E|]. exists e; by rewrite He.
    + destruct (insert_new w r o E) as (w' & Hi & Hrow & Ho); exists w'; rewrite Hi; split; [|done].
      destruct out; [|done]. unfold db_get; rewrite (get_present w' r (name_of o) false o); [done..|]. by rewrite Hrow, lookup_insert_eq.
  - intros w n ign Hp Hn Hs; unfold ms_Get, model_key; simpl; unfold db_Get, db_get; rewrite selector_model by done.
    destruct (rows w r !! n) as [o|] eqn:E; [by apply get_present|].
    destruct (get_absent w r n Hp E) as [H1 [e H2]]; exists e; by destruct ign.
  - intros w o out Hp Hn Hs Hx; unfold ms_Update, model_key; simpl; unfold db_Update; rewrite selector_model by done.
    destruct (update_present w r o Hx) as (w' & Hi & Hrow & Ho); exists w'; rewrite Hi; split; [|done].
    destruct out; [|done]. unfold db_get; rewrite (get_present w' r (name_of o) false o); [done..|]. by rewrite Hrow, lookup_insert_eq.
  - intros w n o out Hp Hn Hs Hx; unfold ms_Delete, model_key; simpl; unfold db_Delete; rewrite selector_model by done.
    destruct (delete_present w r n Hp) as (w' & Hi & Hrow & Ho); [by rewrite Hx|]. exists w'; split; [|done].
    destruct out; [|by rewrite Hi]. unfold db_get; rewrite (get_present w r n false o) by done. by rewrite Hi.
Qed.
End store_theorems.

(** The other stores lose what they are given, without an error. *)
Lemma null_store_forgets {W Obj : Type} (o : Obj) (w : W) r :
  let p := {| ms_store := mem_store; ms_resource := r |} in
  ms_Create p "a" o true w = ((None, None), w) ∧ ms_Get p "a" false w = (None, None).
Proof. done. Qed.

(** A namespace is not selected by: an equal sign is missing, and what names a namespace
    may come from a slash in a name. *)
Lemma namespaced_selector :
  parseKeyWithSelector "role/prod/admin" "" = inl ("role", "name=admin,namespaceprod").
Proof. reflexivity. Qed.

(** *** Models *)

Lemma models_Register_spec {W Obj} (p : models_module (W := W) (Obj := Obj)) ms :
  (NoDup ms ∧ (∀ m, m ∈ ms → m ∉ mm_registry p)) →
  ∃ p', models_Register p ms = Ret p' ∧ mm_models p' = mm_models p ++ ms ∧ mm_store p' = mm_store p ∧
    ∀ m, m ∈ mm_registry p' ↔ m ∈ mm_registry p ∨ m ∈ ms.
Proof.
  revert p; induction ms as [|m ms IH]; intros p [Hd Hn]; simpl; [exists p; rewrite app_nil_r; set_solver|].
  apply NoDup_cons in Hd as [Hm Hd]. rewrite bool_decide_eq_false_2 by (apply Hn; by left).
  edestruct (IH {| mm_store := mm_store p; mm_db := mm_db p; mm_registry := {[m]} ∪ mm_registry p; mm_models := mm_models p ++ [m] |})
    as (p' & -> & H1 & H2 & H3); [split; [done|]; simpl; set_solver|].
  exists p'; split; [done|]. rewrite H1, H2; simpl; rewrite <- app_assoc; split_and!; [done|done|]. intros x; rewrite H3; simpl; set_solver.
Qed.

(** Whatever storage is configured, an initialised module has a store for every model. *)
Lemma models_stores {W Obj} storage dbName dbstore (p p' : models_module (W := W) (Obj := Obj)) kind :
  models_init storage dbName dbstore p = (None, p') → kind ∈ mm_registry p →
  ∃ s, NewModelStore p' kind = Ret {| ms_store := s; ms_resource := kind |}.
Proof.
  unfold models_init, NewModelStore; intros Hi Hk.
  destruct (storage == "db"); [destruct dbstore; simplify_eq/=|
    destruct (storage == "etcd"); [|destruct (storage == "file"); [|destruct (storage == "mem")]]; simplify_eq/=];
    rewrite bool_decide_eq_true_2 by done; by eexists.
Qed.

(** ** Examples *)
Module StorageExamples.

(** Tables of named texts. *)
Abbreviation tables := (gmap string (gmap string (string * string))).
Definition rows (w : tables) (t : string) : gmap string (string * string) := default ∅ (w !! t).
Definition selected (selector : string) : string := TrimPrefix selector "name=".

#[local] Instance tables_orm : ORM tables (string * string) := {|
  orm_Insert t o w := if decide (is_Some (rows w t !! o.1)) then (Some (Errorf "duplicate" []), w) else (None, <[t := <[o.1 := o]> (rows w t)]> w);
  orm_Get t s ign w :=
    match rows w t !! selected s with
    | Some o => (None, Some o)
    | None => (if ign : bool then None else Some (Errorf "not found" []), None)
    end;
  orm_Update t o w := if decide (is_Some (rows w t !! o.1)) then (None, <[t := <[o.1 := o]> (rows w t)]> w) else (Some (Errorf "not found" []), w);
  orm_Delete t s w := (None, <[t := delete (selected s) (rows w t)]> w);
  orm_List t opts w := (None, (map_to_list (rows w t)).*2, Z.of_nat (size (rows w t)));
|}.

Lemma rows_insert w t m t' : rows (<[t := m]> w) t' = if decide (t' = t) then m else rows w t'.
Proof.
  unfold rows; case_decide as Ht; [subst; by rewrite lookup_insert_eq|by rewrite lookup_insert_ne].
Qed.

Lemma selected_name n : selected ("name=" +:+ n) = n.
Proof. reflexivity. Qed.

#[local] Instance tables_laws : ORMLaws tables (string * string) rows fst (λ _, True).
Proof.
  split; cbn [orm_Insert orm_Get orm_Update orm_Delete tables_orm].
  - intros w t o Hn; rewrite decide_False by (rewrite Hn; by intros [? [=]]). eexists; split; [done|].
    split; [by rewrite rows_insert, decide_True|]. intros t' Ht; by rewrite rows_insert, decide_False.
  - intros w t o Ho; rewrite decide_True by done; by eexists.
  - intros w t n ign o _ Hn; by rewrite selected_name, Hn.
  - intros w t n _ Hn; rewrite selected_name, Hn; split; [done|by eexists].
  - intros w t o Ho; rewrite decide_True by done; eexists; split; [done|].
    split; [by rewrite rows_insert, decide_True|]. intros t' Ht; by rewrite rows_insert, decide_False.
  - intros w t n _ Hn; rewrite selected_name; eexists; split; [done|].
    split; [by rewrite rows_insert, decide_True|]. intros t' Ht; by rewrite rows_insert, decide_False.
Qed.

Lemma db_store_is_map_witness :
  ∃ w, ms_Create {| ms_store := db_store; ms_resource := "role" |} "admin" ("admin", "x") true (∅ : tables) = ((None, Some ("admin", "x")), w).
Proof.
  pose proof (im_create _ _ (db_store_is_map (rows := rows) (name_of := fst) (plain := λ _, True) "role" eq_refl) ∅ ("admin", "x") true I
    ltac:(done) eq_refl) as H.
  destruct H as (w & Hw & _); by exists w.
Defined.

(** A name with a slash is read as a namespace and another name. *)
Lemma slash_in_name :
  let p := {| ms_store := db_store; ms_resource := "role" |} in
  let w := (ms_Create p "admin" ("admin", "x") false (∅ : tables)).2 in
  ms_Get p "prod/admin" false w = (Some (Errorf "not found" []), None) ∧
  parseKey (model_key p "prod/admin") = ("role", "prod", "admin").
Proof. split; vm_compute; reflexivity. Qed.
End StorageExamples.
