(* ===== verification/Pager.v ===== *)
(** * The pager of the client

    Models pkg/client/pager.go: pages of a list requested from a server, one at a time with
    the keys of a terminal or all of them.  The server is what it answers for a page: the
    total and the rows, or an error; what is drawn is left out. *)

From stdpp Require Import pretty.
From S2P Require Import Prelude GoStrings Streams.

Local Open Scope go_scope.

Record Pager := { pg_Current : Z; pg_PageSize : Z; pg_total : Z; pg_pageTotal : Z; pg_buff : string }.

(** int(math.Ceil(float64(total) / float64(pageSize))), exact below 2^53. *)
Definition ceil_div (total pageSize : Z) : Z := (- ((- total) / pageSize))%Z.

Section pager.
(** r.Do: page and size to the total and the rows. *)
Context {Row : Type} (Do : Z → Z → (Z * list Row) + error).
(** util.Atoi: zero if it is no number. *)
Context (Atoi : string → Z).

(** The pager, the rows shown and the error; [asked] is the page that was requested. *)
Record rendering := { rd_pager : Pager; rd_asked : Z; rd_rows : list Row; rd_err : option error }.

Definition Render (p : Pager) (page : Z) : rendering :=
  let page := if (page <=? 0)%Z then 1%Z else page in
  let page := if (pg_pageTotal p <=? page)%Z then pg_pageTotal p else page in
  let p := {| pg_Current := page; pg_PageSize := pg_PageSize p; pg_total := pg_total p; pg_pageTotal := pg_pageTotal p; pg_buff := pg_buff p |} in
  match Do page (pg_PageSize p) with
  | inr err => {| rd_pager := p; rd_asked := page; rd_rows := []; rd_err := Some err |}
  | inl (total, rows) =>
      {| rd_pager := {| pg_Current := page; pg_PageSize := pg_PageSize p; pg_total := total;
                        pg_pageTotal := ceil_div total (pg_PageSize p); pg_buff := Itoa page |};
         rd_asked := page; rd_rows := rows; rd_err := None |}
  end.

(** The keys; [KDigit] is one of 0 to 9. *)
Inductive key := KQuit | KNext | KPrev | KDigit (d : ascii) | KBackspace | KEnter | KOther.

Definition drop_last (s : string) : string := String.substring 0 (slen s - 1) s.

(** What a key does: the pager and the request it makes; [None] ends the loop. *)
Definition press (p : Pager) (k : key) : option (Pager * option rendering) :=
  let with_buff s := {| pg_Current := pg_Current p; pg_PageSize := pg_PageSize p; pg_total := pg_total p; pg_pageTotal := pg_pageTotal p; pg_buff := s |} in
  let render page := let r := Render p page in Some (rd_pager r, Some r) in
  match k with
  | KQuit => None
  | KNext => render (pg_Current p + 1)%Z
  | KPrev => render (pg_Current p - 1)%Z
  | KDigit d => if (d == "0"%char) && (slen (pg_buff p) =? 0) then Some (p, None) else Some (with_buff (pg_buff p +:+ String d ""), None)
  | KBackspace => if 0 <? slen (pg_buff p) then Some (with_buff (drop_last (pg_buff p)), None) else Some (p, None)
  | KEnter => render (Atoi (pg_buff p))
  | KOther => Some (p, None)
  end.

(** The loop, over the keys that are pressed: the requests it makes. *)
Fixpoint pager_keys (p : Pager) (ks : list key) : list rendering :=
  match ks with
  | [] => []
  | k :: ks =>
      match press p k with
      | None => []
      | Some (p, r) => option_list r ++ pager_keys p ks
      end
  end.

(** Dump asks for all pages of a hundred; [fuel] bounds the loop, whose end the server
    decides: the error, the pages asked for and the rows. *)
Fixpoint dump_loop (fuel : nat) (i pageTotal : Z) : option (option error * list Z * list Row) :=
  match fuel with
  | O => None
  | S fuel =>
      if (i <? pageTotal)%Z then
        match Do i 100 with
        | inr err => Some (Some err, [i], [])
        | inl (total, rows) =>
            '(err, pages, rest) ← dump_loop fuel (i + 1)%Z (ceil_div total 100);
            Some (err, i :: pages, rows ++ rest)
        end
      else Some (None, [], [])
  end.

Definition Dump (fuel : nat) : option (option error * list Z * list Row) := dump_loop fuel 0 1.

(** A pager for a request with page [current]; the checks of the request's types, which
    need reflection, are left out. *)
Definition new_pager (current pageSize : Z) : Pager :=
  {| pg_Current := current; pg_PageSize := pageSize; pg_total := 0; pg_pageTotal := 0; pg_buff := "" |}.

(** The first page, then the keys. *)
Definition pager_interactive (p : Pager) (ks : list key) : list rendering :=
  let r := Render p (pg_Current p) in
  match rd_err r with
  | Some _ => [r]
  | None => r :: pager_keys (rd_pager r) ks
  end.

(** Do: without a page size all pages are dumped. *)
Definition Pager_Do (fuel : nat) (p : Pager) (ks : list key) : list rendering + option (option error * list Z * list Row) :=
  if (pg_PageSize p =? 0)%Z then inr (Dump fuel) else inl (pager_interactive p ks).

(** ** Theorems *)

(** The first request is for page zero, whatever page was asked for. *)
Lemma first_page_zero current pageSize : rd_asked (Render (new_pager current pageSize) current) = 0%Z.
Proof.
  unfold Render, new_pager; simpl. assert ((0 <=? (if (current <=? 0)%Z then 1 else current))%Z = true) as ->.
  { apply Z.leb_le; destruct (Z.leb_spec current 0); lia. }
  by destruct (Do 0 pageSize) as [[total rows]|].
Qed.

Lemma ceil_div_spec total n : (0 < n)%Z → (n * (ceil_div total n - 1) < total ≤ n * ceil_div total n)%Z.
Proof. intros Hn; unfold ceil_div; pose proof (Z.div_mod (- total) n ltac:(lia)); pose proof (Z.mod_pos_bound (- total) n Hn); nia. Qed.

(** With a total that does not change, the pager stays within the pages there are. *)
Context (total pageSize : Z) (pages : Z → list Row).
Context (Do_stable : ∀ page, Do page pageSize = inl (total, pages page)).

Definition settled (p : Pager) : Prop := pg_PageSize p = pageSize ∧ pg_pageTotal p = ceil_div total pageSize.

Lemma Render_settled p page :
  settled p → settled (rd_pager (Render p page)) ∧ rd_asked (Render p page) = pg_Current (rd_pager (Render p page)) ∧
  rd_asked (Render p page) = Z.min (pg_pageTotal p) (Z.max 1 page) ∧ rd_rows (Render p page) = pages (rd_asked (Render p page)).
Proof.
  intros [Hs Ht]; unfold Render; cbn zeta; rewrite Ht; cbn [pg_PageSize]; rewrite Hs.
  set (q := if (ceil_div total pageSize <=? _)%Z then _ else _); rewrite Do_stable; simpl.
  split; [done|]. split; [done|]. split; [|done]. subst q.
  destruct (page <=? 0)%Z eqn:E1; [apply Z.leb_le in E1|apply Z.leb_gt in E1];
    (destruct (ceil_div total pageSize <=? _)%Z eqn:E2; [apply Z.leb_le in E2|apply Z.leb_gt in E2]; lia).
Qed.

Lemma press_settled p k p' r : settled p → press p k = Some (p', r) → settled p' ∧
  (∀ x, r = Some x → (ceil_div total pageSize > 0 → 1 ≤ rd_asked x)%Z ∧ (rd_asked x ≤ ceil_div total pageSize)%Z ∧ rd_rows x = pages (rd_asked x)).
Proof.
  intros Hs; assert (∀ page, settled (rd_pager (Render p page)) ∧
    ((ceil_div total pageSize > 0 → 1 ≤ rd_asked (Render p page))%Z ∧ (rd_asked (Render p page) ≤ ceil_div total pageSize)%Z ∧
     rd_rows (Render p page) = pages (rd_asked (Render p page)))) as Hr.
  { intros page; destruct (Render_settled p page Hs) as (H1 & _ & H2 & H3); split; [done|]. destruct Hs as [_ Ht]; rewrite Ht in H2.
    split; [lia|]. split; [lia|done]. }
  unfold press; destruct k; intros Hp; simplify_eq/=; try (by split); try (destruct (Hr (pg_Current p + 1)%Z)); try (destruct (Hr (pg_Current p - 1)%Z));
    try (destruct (Hr (Atoi (pg_buff p)))).
  - split; [done|]. by intros x [= <-].
  - split; [done|]. by intros x [= <-].
  - destruct (_ && _); simplify_eq/=; by split.
  - destruct (0 <? _); simplify_eq/=; by split.
  - split; [done|]. by intros x [= <-].
Qed.

(** Every page asked for after the first one is a page there is, and shows its rows. *)
Theorem pager_bounds p ks :
  settled p → Forall (λ x, (ceil_div total pageSize > 0 → 1 ≤ rd_asked x)%Z ∧ (rd_asked x ≤ ceil_div total pageSize)%Z ∧
                           rd_rows x = pages (rd_asked x)) (pager_keys p ks).
Proof.
  revert p; induction ks as [|k ks IH]; intros p Hs; simpl; [constructor|].
  destruct (press p k) as [[p' r]|] eqn:E; [|constructor].
  destruct (press_settled p k p' r Hs E) as [Hs' Hr]; apply Forall_app_2; [|by apply IH].
  destruct r as [x|]; simpl; [|constructor]. by apply Forall_singleton, Hr.
Qed.
End pager.

(** Dump ends when the total does not change, having asked for the pages from zero on. *)
Lemma dump_loop_stable {Row} (Do : Z → Z → (Z * list Row) + error) total pages n i fuel :
  (∀ page, Do page 100%Z = inl (total, pages page)) → Z.to_nat (ceil_div total 100 - i) = n → n < fuel →
  dump_loop Do fuel i (ceil_div total 100) =
  Some (None, seqZ i (ceil_div total 100 - i), mjoin (pages <$> seqZ i (ceil_div total 100 - i))).
Proof.
  intros Hd; revert i fuel; induction n as [|n IH]; intros i fuel Hn Hf; (destruct fuel as [|fuel]; [lia|]); cbn [dump_loop].
  - destruct (Z.ltb_spec i (ceil_div total 100)); [lia|]. by rewrite seqZ_nil by lia.
  - destruct (Z.ltb_spec i (ceil_div total 100)); [|lia]. rewrite Hd, IH by lia; cbn [mbind option_bind].
    rewrite (seqZ_cons i) by lia; rewrite fmap_cons; cbn [mjoin list_join].
    replace (Z.pred (ceil_div total 100 - i)) with (ceil_div total 100 - (i + 1))%Z by lia. by rewrite <- Z.add_1_r.
Qed.

Theorem Dump_stable {Row} (Do : Z → Z → (Z * list Row) + error) total pages fuel :
  (∀ page, Do page 100%Z = inl (total, pages page)) → (1 ≤ ceil_div total 100)%Z → Z.to_nat (ceil_div total 100) < fuel →
  Dump Do fuel = Some (None, seqZ 0 (ceil_div total 100), mjoin (pages <$> seqZ 0 (ceil_div total 100))).
Proof.
  intros Hd Hc Hf; unfold Dump; destruct fuel as [|fuel]; [lia|]. cbn [dump_loop]; simpl (0 <? 1)%Z; cbv iota; rewrite Hd.
  rewrite (dump_loop_stable Do total pages (Z.to_nat (ceil_div total 100 - 1))); [|done|lia|lia].
  cbn [mbind option_bind]. rewrite (seqZ_cons 0) by lia; rewrite fmap_cons; cbn [mjoin list_join].
  by replace (Z.pred (ceil_div total 100)) with (ceil_div total 100 - 1)%Z by lia.
Qed.

(** *** Examples *)
Module PagerExamples.
Definition server (page size : Z) : (Z * list Z) + error := inl (25, [page])%Z.
Definition Atoi (s : string) : Z := match ParseInt s 64 with (n, None) => n | _ => 0%Z end.

(** The pages asked for: zero first, then from one to the last. *)
Lemma pages_asked :
  rd_asked <$> pager_interactive server Atoi (new_pager 2 10) [KNext; KNext; KNext; KNext; KDigit "1"%char; KEnter; KPrev; KQuit] =
  [0; 1; 2; 3; 3; 3; 2]%Z.
Proof. vm_compute; reflexivity. Qed.

Lemma pager_bounds_witness :
  Forall (λ x, rd_asked x ≤ 3)%Z (pager_keys server Atoi {| pg_Current := 0; pg_PageSize := 10; pg_total := 25; pg_pageTotal := 3; pg_buff := "0" |} [KNext; KEnter]).
Proof.
  eapply Forall_impl; [apply (pager_bounds server Atoi 25 10 (λ page, [page]) (λ page, eq_refl)); by split|].
  by intros x (_ & Hx & _).
Defined.

Lemma Dump_stable_witness : Dump server 2 = Some (None, [0], [0])%Z.
Proof. apply (Dump_stable server 25 (λ page, [page]) 2 (λ page, eq_refl)); vm_compute; [done|lia]. Defined.
End PagerExamples.
