(* ===== verification/Converter.v ===== *)
(** * Conversion functions

    Models pkg/conversion/converter.go and helper.go: tables of conversion functions by
    pairs of types, and the choice of one for a conversion.  The tables are maps that
    converters share, so they live in a heap.  A conversion function is a program that may
    change the world and convert further values; its recursion is bounded by fuel. *)

From S2P Require Import Prelude GoStrings.

Local Open Scope go_scope.

(** reflect.Type: pointers, and others by name. *)
Inductive rtype := TNamed (name : string) | TPtr (elem : rtype).
#[global] Instance rtype_eq_dec : EqDecision rtype.
Proof. solve_decision. Defined.
Fixpoint rtype_code (t : rtype) : nat * string := match t with TNamed name => (0, name) | TPtr t => let '(n, name) := rtype_code t in (S n, name) end.
Fixpoint rtype_of (n : nat) (name : string) : rtype := match n with 0 => TNamed name | S n => TPtr (rtype_of n name) end.
Lemma rtype_code_of t : rtype_of (rtype_code t).1 (rtype_code t).2 = t.
Proof. induction t as [|t IH]; simpl; [done|]. destruct (rtype_code t); simpl in *; by rewrite IH. Qed.
#[global] Program Instance rtype_countable : Countable rtype := inj_countable' rtype_code (λ c, rtype_of c.1 c.2) _.
Next Obligation. apply rtype_code_of. Qed.

Abbreviation typePair := (rtype * rtype)%type.

(** An interface value: nil, or a type with a value, which a pointer may lack. *)
Record any := { an_type : rtype; an_nil : bool; an_id : nat }.
Abbreviation iface := (option any).

Section converter.
Context {W : Type}.

(** What a conversion function does: change the world, ask its scope, and return. *)
Inductive program :=
  | Return (err : option error)
  | Change (f : W → W) (rest : program)
  | Convert_ (src dest : iface) (rest : option error → program).

Definition ConversionFunc : Type := iface → iface → program.
Abbreviation ConversionFuncs := (gmap typePair ConversionFunc).

(** The maps, by address. *)
Record cheap := { ch_funcs : list ConversionFuncs; ch_ignored : list (gset typePair) }.

Record Converter := { cv_conversionFuncs : nat; cv_generated : nat; cv_ignored : nat; cv_ignoredUntyped : nat }.

Definition funcs_at (h : cheap) (a : nat) : ConversionFuncs := default ∅ (ch_funcs h !! a).
Definition ignored_at (h : cheap) (a : nat) : gset typePair := default ∅ (ch_ignored h !! a).

(** AddUntyped on the map at [a]; the type of a nil interface has no kind. *)
Definition AddUntyped (h : cheap) (a : nat) (x y : iface) (fn : ConversionFunc) : outcome (option error * cheap) :=
  match x with
  | None => Panic "invalid memory address or nil pointer dereference"
  | Some x =>
      match an_type x with
      | TNamed _ => Ret (Some (Errorf "the type %T must be a pointer to register as an untyped conversion" []), h)
      | TPtr _ =>
          match y with
          | None => Panic "invalid memory address or nil pointer dereference"
          | Some y =>
              match an_type y with
              | TNamed _ => Ret (Some (Errorf "the type %T must be a pointer to register as an untyped conversion" []), h)
              | TPtr _ =>
                  Ret (None, {| ch_funcs := <[a := <[(an_type x, an_type y) := fn]> (funcs_at h a)]> (ch_funcs h); ch_ignored := ch_ignored h |})
              end
          end
      end
  end.

Definition Merge (c other : ConversionFuncs) : ConversionFuncs := other ∪ c.

Definition RegisterUntypedConversionFunc (h : cheap) (c : Converter) := AddUntyped h (cv_conversionFuncs c).
Definition RegisterGeneratedUntypedConversionFunc (h : cheap) (c : Converter) := AddUntyped h (cv_generated c).

(** New maps are allocated at the end. *)
Definition NewConverter (h : cheap) (bytes_fn : ConversionFunc) : Converter * cheap :=
  let n := length (ch_funcs h) in
  let m := length (ch_ignored h) in
  let bytes := TPtr (TNamed "[]byte") in
  ({| cv_conversionFuncs := n; cv_generated := S n; cv_ignored := m; cv_ignoredUntyped := S m |},
   {| ch_funcs := ch_funcs h ++ [{[ (bytes, bytes) := bytes_fn ]}; ∅]; ch_ignored := ch_ignored h ++ [∅; ∅] |}).

(** The copy has a map of its own for conversion functions and shares the others. *)
Definition WithConversions (h : cheap) (c : Converter) (fns : ConversionFuncs) : Converter * cheap :=
  ({| cv_conversionFuncs := length (ch_funcs h); cv_generated := cv_generated c; cv_ignored := cv_ignored c;
      cv_ignoredUntyped := cv_ignoredUntyped c |},
   {| ch_funcs := ch_funcs h ++ [Merge (funcs_at h (cv_conversionFuncs c)) fns]; ch_ignored := ch_ignored h |}).

Definition RegisterIgnoredConversion (h : cheap) (c : Converter) (from to : iface) : outcome (option error * cheap) :=
  match from with
  | None => Panic "invalid memory address or nil pointer dereference"
  | Some from =>
      match an_type from with
      | TNamed _ => Ret (Some (Errorf "expected pointer arg for 'from' param 0, got: %v" []), h)
      | TPtr f =>
          match to with
          | None => Panic "invalid memory address or nil pointer dereference"
          | Some to =>
              match an_type to with
              | TNamed _ => Ret (Some (Errorf "expected pointer arg for 'to' param 1, got: %v" []), h)
              | TPtr t =>
                  let l := <[cv_ignored c := {[ (f, t) ]} ∪ ignored_at h (cv_ignored c)]> (ch_ignored h) in
                  Ret (None, {| ch_funcs := ch_funcs h;
                                ch_ignored := <[cv_ignoredUntyped c := {[ (TPtr f, TPtr t) ]} ∪ default ∅ (l !! cv_ignoredUntyped c)]> l |})
              end
          end
      end
  end.

(** helper.go *)
Definition EnforcePtr (obj : iface) : rtype + error :=
  match obj with
  | None => inr (Errorf "expected pointer, but got invalid kind" [])
  | Some o =>
      match an_type o with
      | TNamed name => inr (Errorf "expected pointer, but got %v type" [name])
      | TPtr t => if an_nil o then inr (Errorf "expected pointer, but got nil" []) else inl t
      end
  end.

(** What Convert decides for a pair of values. *)
Inductive choice := Ignore | Call (fn : ConversionFunc) | Refuse (err : error).

Definition pair_of (src dest : iface) : option typePair := s ← src; d ← dest; Some (an_type s, an_type d).

Definition choose (h : cheap) (c : Converter) (src dest : iface) : choice :=
  let pair := pair_of src dest in
  if from_option (λ p, bool_decide (p ∈ ignored_at h (cv_ignoredUntyped c))) false pair then Ignore
  else match pair ≫= λ p, funcs_at h (cv_conversionFuncs c) !! p with
  | Some fn => Call fn
  | None =>
      match pair ≫= λ p, funcs_at h (cv_generated c) !! p with
      | Some fn => Call fn
      | None =>
          match EnforcePtr dest with
          | inr err => Refuse err
          | inl _ =>
              match EnforcePtr src with
              | inr err => Refuse err
              | inl _ => Refuse (Errorf "converting (%s) to (%s): unknown conversion" [])
              end
          end
      end
  end.

(** A function runs with the scope it was called from. *)
Fixpoint run_program (convert : iface → iface → W → option (option error * W)) (p : program) (w : W) : option (option error * W) :=
  match p with
  | Return err => Some (err, w)
  | Change f rest => run_program convert rest (f w)
  | Convert_ src dest rest => '(err, w) ← convert src dest w; run_program convert (rest err) w
  end.

Fixpoint Convert (fuel : nat) (h : cheap) (c : Converter) (src dest : iface) (w : W) : option (option error * W) :=
  match fuel with
  | 0 => None
  | S fuel =>
      match choose h c src dest with
      | Ignore => Some (None, w)
      | Refuse err => Some (Some err, w)
      | Call fn => run_program (Convert fuel h c) (fn src dest) w
      end
  end.

(** ** Theorems *)

Lemma run_program_mono (conv conv' : iface → iface → W → option (option error * W)) p w r :
  (∀ src dest w r, conv src dest w = Some r → conv' src dest w = Some r) →
  run_program conv p w = Some r → run_program conv' p w = Some r.
Proof.
  intros Hc; revert w; induction p as [err|f rest IH|src dest rest IH]; intros w; simpl; [done|apply IH|].
  destruct (conv src dest w) as [[err w']|] eqn:E; [|done]. rewrite (Hc _ _ _ _ E); simpl; apply IH.
Qed.

(** The result does not depend on the fuel. *)
Lemma Convert_mono fuel fuel' h c src dest w r :
  fuel ≤ fuel' → Convert fuel h c src dest w = Some r → Convert fuel' h c src dest w = Some r.
Proof.
  revert fuel' src dest w r; induction fuel as [|fuel IH]; intros fuel' src dest w r Hf; simpl; [done|].
  destruct fuel' as [|fuel']; [lia|]; simpl. destruct (choose h c src dest); [done| |done].
  apply run_program_mono; intros; apply IH; [lia|done].
Qed.

(** Programs whose conversions have a lower rank. *)
Fixpoint ranked (rank : iface → iface → nat) (n : nat) (p : program) : Prop :=
  match p with
  | Return _ => True
  | Change _ rest => ranked rank n rest
  | Convert_ src dest rest => rank src dest < n ∧ ∀ err, ranked rank n (rest err)
  end.

Lemma run_program_ranked rank conv m p w :
  (∀ src dest w, rank src dest < m → is_Some (conv src dest w)) → ranked rank m p → is_Some (run_program conv p w).
Proof.
  intros Hc; revert w; induction p as [err|f rest IH|src dest rest IH]; intros w Hp; simpl in *; [by eexists|by apply IH|].
  destruct Hp as [Hlt Hp]; destruct (Hc src dest w Hlt) as [[err w'] E]; rewrite E; simpl; by apply IH.
Qed.

(** If every function converts values of lower rank only, conversion ends. *)
Theorem Convert_terminates rank h c :
  (∀ src dest fn, choose h c src dest = Call fn → ranked rank (rank src dest) (fn src dest)) →
  ∀ src dest w, is_Some (Convert (S (rank src dest)) h c src dest w).
Proof.
  intros Hr; assert (∀ n src dest w, rank src dest < n → is_Some (Convert n h c src dest w)) as Hn; [|intros; apply Hn; lia].
  induction n as [|n IH]; intros src dest w Hlt; [lia|]; cbn [Convert].
  destruct (choose h c src dest) as [|fn|err] eqn:E; [by eexists| |by eexists].
  apply (run_program_ranked rank _ (rank src dest)); [|by apply Hr]. intros; apply IH; lia.
Qed.

(** A function that asks for its own conversion never returns. *)
Lemma self_conversion_diverges h c src dest fn w :
  choose h c src dest = Call fn → fn src dest = Convert_ src dest Return → ∀ fuel, Convert fuel h c src dest w = None.
Proof. intros Hc Hf fuel; induction fuel as [|fuel IH]; simpl; [done|]. by rewrite Hc, Hf; simpl; rewrite IH. Qed.

(** *** Registration *)

(** Addresses of a converter are in the heap, and its maps are different ones. *)
Definition converter_ok (h : cheap) (c : Converter) : Prop :=
  cv_conversionFuncs c < length (ch_funcs h) ∧ cv_generated c < length (ch_funcs h) ∧ cv_conversionFuncs c ≠ cv_generated c ∧
  cv_ignored c < length (ch_ignored h) ∧ cv_ignoredUntyped c < length (ch_ignored h) ∧ cv_ignored c ≠ cv_ignoredUntyped c.

Lemma NewConverter_ok h fn : converter_ok (NewConverter h fn).2 (NewConverter h fn).1.
Proof. unfold converter_ok; simpl; rewrite !length_app; simpl; lia. Qed.

Lemma WithConversions_ok h c fns :
  converter_ok h c → converter_ok (WithConversions h c fns).2 (WithConversions h c fns).1 ∧ converter_ok (WithConversions h c fns).2 c.
Proof. unfold converter_ok; simpl; rewrite !length_app; simpl; lia. Qed.

Lemma funcs_at_insert h a m x :
  a < length (ch_funcs h) →
  funcs_at {| ch_funcs := <[a := m]> (ch_funcs h); ch_ignored := ch_ignored h |} x = if decide (x = a) then m else funcs_at h x.
Proof.
  intros Ha; unfold funcs_at; cbn [ch_funcs]; case_decide as Hx; [subst; by rewrite list_lookup_insert_eq|by rewrite list_lookup_insert_ne by done].
Qed.

(** A registered function is chosen, before generated ones, unless the pair is ignored. *)
Lemma register_chosen h c src dest fn h' :
  converter_ok h c → RegisterUntypedConversionFunc h c src dest fn = Ret (None, h') →
  choose h' c src dest = Call fn ∨ choose h' c src dest = Ignore.
Proof.
  intros (Hf & _) Hr; unfold RegisterUntypedConversionFunc, AddUntyped in Hr.
  destruct src as [s|]; [|done]; destruct (an_type s) eqn:Es; [done|]; destruct dest as [d|]; [|done]; destruct (an_type d) eqn:Ed; [done|].
  injection Hr as <-; unfold choose; destruct (from_option _ _ _); [by right|left].
  cbn [pair_of mbind option_bind]; rewrite funcs_at_insert, decide_True by done. by rewrite Es, Ed, lookup_insert_eq.
Qed.

(** Registering a function for a converter changes nothing for a copy with its own
    functions, nor the other way round. *)
Lemma register_isolated h c c' src dest fn err h' s d :
  converter_ok h c → converter_ok h c' → cv_conversionFuncs c ≠ cv_conversionFuncs c' → cv_conversionFuncs c ≠ cv_generated c' →
  RegisterUntypedConversionFunc h c src dest fn = Ret (err, h') → choose h' c' s d = choose h c' s d.
Proof.
  intros (Hf & _) _ Hn Hg Hr; unfold RegisterUntypedConversionFunc, AddUntyped in Hr.
  destruct src as [x|]; [|done]; destruct (an_type x); [by simplify_eq/=|]; destruct dest as [y|]; [|done];
    destruct (an_type y); [by simplify_eq/=|]; simplify_eq/=.
  unfold choose; rewrite !funcs_at_insert, !decide_False by done. done.
Qed.

(** A copy prefers the functions it was given to those it copied. *)
Lemma WithConversions_choose h c fns src dest p fn :
  converter_ok h c → pair_of src dest = Some p → fns !! p = Some fn → p ∉ ignored_at h (cv_ignoredUntyped c) →
  choose (WithConversions h c fns).2 (WithConversions h c fns).1 src dest = Call fn.
Proof.
  intros Hc Hp Hf Hi; unfold choose; rewrite Hp; simpl.
  unfold ignored_at in *; rewrite bool_decide_eq_false_2 by done.
  unfold funcs_at at 1; simpl; rewrite lookup_app_r, Nat.sub_diag by done; simpl.
  unfold Merge; by rewrite (lookup_union_Some_l _ _ _ _ Hf).
Qed.

(** But they share what is ignored: a conversion ignored for the copy is ignored for the
    original too. *)
Lemma copies_share_ignored h c fns src dest h' p :
  converter_ok h c → pair_of src dest = Some p →
  RegisterIgnoredConversion (WithConversions h c fns).2 (WithConversions h c fns).1 src dest = Ret (None, h') →
  choose h' c src dest = Ignore.
Proof.
  intros (_ & _ & _ & Hi & Hu & Hn) Hp Hr; unfold RegisterIgnoredConversion in Hr.
  destruct src as [x|]; [|done]; destruct (an_type x) as [|f] eqn:Ex; [done|]; destruct dest as [y|]; [|done];
    destruct (an_type y) as [|t] eqn:Ey; [done|]; simplify_eq/=.
  unfold choose, pair_of, ignored_at; simpl; rewrite Ex, Ey; simpl.
  rewrite list_lookup_insert_eq by (by rewrite length_insert); simpl.
  by rewrite bool_decide_eq_true_2 by set_solver.
Qed.
End converter.

(** *** Examples *)
Module ConverterExamples.

Definition ptr (name : string) (id : nat) : iface := Some {| an_type := TPtr (TNamed name); an_nil := false; an_id := id |}.

(** Lists: the head is converted, then the rest, which has the next lower number. *)
Definition convert_list : ConversionFunc (W := list nat) := λ src dest,
  match src with
  | Some s => match an_id s with
              | 0 => Return None
              | S n => Change (λ w, w ++ [an_id s]) (Convert_ (ptr "List" n) dest Return)
              end
  | None => Return None
  end.

Definition start : Converter * cheap (W := list nat) := NewConverter {| ch_funcs := []; ch_ignored := [] |} (λ _ _, Return None).
Definition lists : cheap (W := list nat) := default start.2 (snd <$> match RegisterUntypedConversionFunc start.2 start.1 (ptr "List" 0) (ptr "Out" 0) convert_list with
                                                     | Ret r => Some r | Panic _ => None end).

Definition rank (src dest : iface) : nat := match src with Some s => S (an_id s) | None => 0 end.

Lemma convert_lists : Convert 4 lists start.1 (ptr "List" 3) (ptr "Out" 0) [] = Some (None, [3; 2; 1]).
Proof. vm_compute; reflexivity. Qed.

Lemma unknown_conversion : Convert 1 lists start.1 (ptr "Out" 0) (ptr "List" 0) [] = Some (Some (Errorf "converting (%s) to (%s): unknown conversion" []), []).
Proof. vm_compute; reflexivity. Qed.

Lemma choose_ranked src dest fn : choose lists start.1 src dest = Call fn → ranked rank (rank src dest) (fn src dest).
Proof.
  assert (∀ p f, funcs_at lists (cv_conversionFuncs start.1) !! p = Some f → f = convert_list ∨ f = λ _ _, Return None) as Hf.
  { intros p f; change (funcs_at lists (cv_conversionFuncs start.1)) with
      (<[(TPtr (TNamed "List"), TPtr (TNamed "Out")) := convert_list]>
         ({[ (TPtr (TNamed "[]byte"), TPtr (TNamed "[]byte")) := λ _ _, Return None ]} : gmap (rtype * rtype) (ConversionFunc (W := list nat)))).
    rewrite lookup_insert_Some, lookup_singleton_Some; intros [[_ <-]|[_ [_ <-]]]; auto. }
  assert (∀ fn, fn = convert_list ∨ (fn = λ _ _, Return None) → ranked rank (rank src dest) (fn src dest)) as Hr.
  { intros fn' [->| ->]; [|done]. unfold convert_list, rank; destruct src as [s|]; [|done]. destruct (an_id s); simpl; [done|split; [lia|done]]. }
  unfold choose; destruct (from_option _ _ _); [done|].
  destruct (pair_of src dest) as [p|]; cbn [mbind option_bind].
  - destruct (funcs_at lists (cv_conversionFuncs start.1) !! p) as [f|] eqn:E; [intros [= <-]; by apply Hr, (Hf p)|].
    change (funcs_at lists (cv_generated start.1)) with (∅ : gmap (rtype * rtype) (ConversionFunc (W := list nat))).
    rewrite lookup_empty; destruct (EnforcePtr dest); [|done]; by destruct (EnforcePtr src).
  - destruct (EnforcePtr dest); [|done]; by destruct (EnforcePtr src).
Qed.

Lemma Convert_terminates_witness : is_Some (Convert 11 lists start.1 (ptr "List" 9) (ptr "Out" 0) []).
Proof. apply (Convert_terminates rank lists start.1 choose_ranked (ptr "List" 9) (ptr "Out" 0) []). Defined.
End ConverterExamples.
