(* ===== verification/QueryParams.v ===== *)
(** * Objects as query parameters

    Models pkg/conversion/queryparams/convert.go: the exported entry point [Convert]
    lists the tagged fields of a struct as url.Values.  A field holds a simple value, a
    list of simple values, a struct (whose own fields are listed in its place unless it
    marshals itself) or a pointer to one of these; anything else is left out.

    reflect's values are trees here.  A nil pointer carries what the code asks of the
    type it points to.  The result of a String, Error or MarshalQueryParameter method is
    part of the value that has the method.  A field of a struct in reach of a pointer is
    addressable, so methods with a pointer receiver are found. *)

From S2P Require Import Prelude GoStrings Streams ParamCodec UrlEncoded.

Local Open Scope go_scope.

(** ** Values *)

(** The kinds of isValueKind; a floating-point or complex number is its printed form
    and whether it is zero. *)
Inductive basic :=
  | BString (s : string)
  | BBool (b : bool)
  | BInt (z : Z)
  | BFloat (text : string) (zero : bool).

(** [sc_String]: what the value's own String or Error method returns, if it has one. *)
Record scalar := { sc_basic : basic; sc_String : option string }.

(** The type a nil pointer points to: [ENone] is a map, a pointer, a function, ...
    Since Go 1.20 reflect has the length of an array behind a nil pointer. *)
Inductive elem :=
  | EValue
  | ESlice (of_values : bool)
  | EArray (of_values : bool) (n : nat)
  | EStruct (marshals : bool) (fields : nat)
  | ENone.

(** [st_Tag]: the json tag, "" when there is none. *)
Record sfield := { st_Exported : bool; st_Tag : string }.

(** An array whose elements are not simple values is [VOther]; so is a slice, or it is a
    [VList] without [of_values]. *)
Inductive value :=
  | VScalar (s : scalar)
  | VList (of_values is_nil : bool) (l : list scalar)
  | VArray (of_values : bool) (l : list scalar)
  | VStruct (marshal : option (outcome (string + error))) (fs : list (sfield * value))
  | VPtr (v : value)
  | VNil (e : elem) (text : option string)
  | VOther (zero : bool).

Definition jsonTag (f : sfield) : string * bool :=
  if st_Tag f == "" then ("", false)
  else match Split (st_Tag f) ","%char with
       | [] => ("", false)
       | tag :: parts => (if tag == "-" then "" else tag, existsb (λ p, p == "omitempty") parts)
       end.

(** reflect.DeepEqual with the zero value of the same type. *)
Definition zero_scalar (s : scalar) : bool :=
  match sc_basic s with
  | BString s => s == ""
  | BBool b => negb b
  | BInt z => z == 0%Z
  | BFloat _ zero => zero
  end.

Fixpoint zeroValue (v : value) : bool :=
  match v with
  | VScalar s => zero_scalar s
  | VList _ is_nil _ => is_nil
  | VArray _ l => forallb zero_scalar l
  | VStruct _ fs => forallb (λ f, zeroValue f.2) fs
  | VPtr _ => false
  | VNil _ _ => true
  | VOther zero => zero
  end.

(** fmt.Sprintf("%v") *)
Definition Sprintf_v (s : scalar) : string :=
  match sc_String s with
  | Some text => text
  | None => match sc_basic s with
            | BString s => s
            | BBool b => if b then "true" else "false"
            | BInt z => Itoa z
            | BFloat text _ => text
            end
  end.

Definition plain (s : string) : scalar := {| sc_basic := BString s; sc_String := None |}.

(** ** Conversion *)

Definition unexported {A} : outcome A := Panic "reflect.Value.Interface: cannot return value obtained from unexported field or method".

(** [zero] and [text] stand for the value: zeroValue and what it prints as. *)
Definition addParam (values : Values) (tag : string) (omitempty exported : bool) (zero : bool) (text : string) : outcome Values :=
  if negb exported then unexported
  else if omitempty && zero then Ret values
  else Ret (Values_Add values tag (if text == "<nil>" then "" else text)).

Fixpoint addListOfParams (values : Values) (tag : string) (omitempty exported : bool) (l : list scalar) : outcome Values :=
  match l with
  | [] => Ret values
  | s :: l =>
      values ← addParam values tag omitempty exported (zero_scalar s) (Sprintf_v s);
      addListOfParams values tag omitempty exported l
  end.

(** What a struct marshals itself as; an error of the method is dropped. *)
Definition customMarshalValue (marshal : option (outcome (string + error))) : outcome (option string) :=
  match marshal with
  | None => Ret None
  | Some m => r ← m; Ret (match r with inl s => Some s | inr _ => None end)
  end.

Definition is_pointer (v : value) : bool := match v with VPtr _ | VNil _ _ => true | _ => false end.

(** The body of the loop of convertStruct for a field with a tag. *)
Fixpoint convert_field (exported : bool) (tag : string) (omitempty : bool) (field : value) (result : Values) : outcome Values :=
  match field with
  | VScalar s => addParam result tag omitempty exported (zero_scalar s) (Sprintf_v s)
  | VList of_values _ l | VArray of_values l =>
      if of_values then addListOfParams result tag omitempty exported l else Ret result
  | VStruct marshal fs =>
      if negb exported then unexported
      else if zeroValue field && omitempty then Ret result
      else
        m ← customMarshalValue marshal;
        match m with
        | Some s => addParam result tag omitempty true (s == "") s
        | None =>
            (fix convertStruct (fs : list (sfield * value)) (result : Values) : outcome Values :=
               match fs with
               | [] => Ret result
               | (f, v) :: fs =>
                   let '(tag, omitempty) := jsonTag f in
                   if tag == "" then convertStruct fs result
                   else
                     result ← convert_field (st_Exported f) tag omitempty v result;
                     convertStruct fs result
               end) fs result
        end
  | VPtr v => if is_pointer v then Ret result else convert_field exported tag false v result
  | VNil e text =>
      match e with
      | EValue => addParam result tag omitempty exported true (default "<nil>" text)
      | ESlice of_values => if of_values then Panic "reflect: call of reflect.Value.Len on ptr to non-array Value" else Ret result
      | EArray of_values n => if of_values && (0 <? n) then Panic "reflect: call of reflect.Value.Index on ptr Value" else Ret result
      | EStruct marshals fields =>
          if negb exported then unexported
          else if omitempty then Ret result
          else if marshals then addParam result tag omitempty true true ""
          else if fields =? 0 then Ret result
          else Panic "reflect: call of reflect.Value.Field on ptr Value"
      | ENone => Ret result
      end
  | VOther _ => Ret result
  end.

Fixpoint convertStruct (fs : list (sfield * value)) (result : Values) : outcome Values :=
  match fs with
  | [] => Ret result
  | (f, v) :: fs =>
      let '(tag, omitempty) := jsonTag f in
      if tag == "" then convertStruct fs result
      else
        result ← convert_field (st_Exported f) tag omitempty v result;
        convertStruct fs result
  end.

(** [None] is the nil interface. *)
Definition Convert (obj : option value) : outcome (Values + error) :=
  match obj with
  | None => Ret (inl ∅)
  | Some (VNil _ _) => Panic "reflect: call of reflect.Value.Type on zero Value"
  | Some (VPtr (VStruct _ fs)) => result ← convertStruct fs ∅; Ret (inl result)
  | Some (VPtr _) => Ret (inr (Errorf "expecting a pointer to a struct" []))
  | Some _ => Ret (inr (Errorf "expecting a pointer or interface" []))
  end.

(** ** Theorems *)

(** *** A reference definition

    The parameters of a field in order, without regard to what cannot be read. *)

Definition param (tag : string) (omitempty zero : bool) (text : string) : list (string * string) :=
  if omitempty && zero then [] else [(tag, if text == "<nil>" then "" else text)].

Definition field_params_with (value_params : string → bool → value → list (string * string)) (fv : sfield * value) : list (string * string) :=
  let '(tag, omitempty) := jsonTag fv.1 in if tag == "" then [] else value_params tag omitempty fv.2.

Fixpoint value_params (tag : string) (omitempty : bool) (v : value) : list (string * string) :=
  match v with
  | VScalar s => param tag omitempty (zero_scalar s) (Sprintf_v s)
  | VList true _ l | VArray true l => l ≫= λ s, param tag omitempty (zero_scalar s) (Sprintf_v s)
  | VStruct marshal fs =>
      if zeroValue v && omitempty then []
      else match marshal with
           | Some (Ret (inl s)) => param tag omitempty (s == "") s
           | _ => concat (map (field_params_with value_params) fs)
           end
  | VPtr v => if is_pointer v then [] else value_params tag false v
  | VNil EValue text => param tag omitempty true (default "<nil>" text)
  | VNil (EStruct true _) _ => param tag omitempty true ""
  | _ => []
  end.

Definition field_params : sfield * value → list (string * string) := field_params_with value_params.

(** What can be read: no tagged field in reach is unexported (an unexported list may be
    empty), points to no list, or, unless omitted, to no struct that cannot marshal
    itself; and no method panics. *)
Definition readable_with (readable : bool → bool → value → bool) (fv : sfield * value) : bool :=
  let '(tag, omitempty) := jsonTag fv.1 in (tag == "") || readable (st_Exported fv.1) omitempty fv.2.

Fixpoint readable (exported omitempty : bool) (v : value) : bool :=
  match v with
  | VScalar _ => exported
  | VList of_values _ l | VArray of_values l => negb of_values || exported || (length l =? 0)
  | VStruct marshal fs =>
      exported && (zeroValue v && omitempty ||
                   match marshal with
                   | Some (Ret (inl _)) => true
                   | Some (Panic _) => false
                   | _ => forallb (readable_with readable) fs
                   end)
  | VPtr v => is_pointer v || readable exported false v
  | VNil EValue _ => exported
  | VNil (ESlice of_values) _ => negb of_values
  | VNil (EArray of_values n) _ => negb (of_values && (0 <? n))
  | VNil (EStruct marshals fields) _ => exported && (omitempty || marshals || (fields =? 0))
  | _ => true
  end.

Definition adds (result : Values) (l : list (string * string)) : Values := foldl (λ m kv, Values_Add m kv.1 kv.2) result l.

Lemma adds_app result l l' : adds result (l ++ l') = adds (adds result l) l'.
Proof. apply foldl_app. Qed.

(** [m] adds [l] and returns exactly when [ok] holds. *)
Definition adds_if (ok : bool) (m : Values → outcome Values) (l : list (string * string)) : Prop :=
  ∀ result, if ok then m result = Ret (adds result l) else returns (m result) = false.

Lemma addParam_adds tag omitempty exported zero text :
  adds_if exported (λ r, addParam r tag omitempty exported zero text) (param tag omitempty zero text).
Proof. intros r. unfold addParam, param. by destruct exported, omitempty, zero. Qed.

Lemma adds_if_bind ok1 ok2 m1 m2 l1 l2 :
  adds_if ok1 m1 l1 → adds_if ok2 m2 l2 → adds_if (ok1 && ok2) (λ r, m1 r ≫= m2) (l1 ++ l2).
Proof.
  intros H1 H2 r. specialize (H1 r). destruct ok1; simpl; [|by destruct (m1 r)].
  rewrite H1; cbn. rewrite adds_app. apply H2.
Qed.

Lemma adds_if_iff ok ok' m l : ok = ok' → adds_if ok m l → adds_if ok' m l.
Proof. by intros ->. Qed.

Lemma addListOfParams_adds tag omitempty exported l :
  adds_if (exported || (length l =? 0)) (λ r, addListOfParams r tag omitempty exported l)
    (l ≫= λ s, param tag omitempty (zero_scalar s) (Sprintf_v s)).
Proof.
  induction l as [|s l IH]; [by destruct exported|]. cbn [addListOfParams mbind list_bind].
  eapply adds_if_iff; [|apply (adds_if_bind _ _ _ (λ r, addListOfParams r tag omitempty exported l) _ _ (addParam_adds _ _ _ _ _) IH)].
  by destruct exported.
Qed.

Lemma value_rect' (P : value → Prop) :
  (∀ s, P (VScalar s)) → (∀ o n l, P (VList o n l)) → (∀ o l, P (VArray o l)) →
  (∀ m fs, Forall (λ fv, P fv.2) fs → P (VStruct m fs)) → (∀ v, P v → P (VPtr v)) →
  (∀ e t, P (VNil e t)) → (∀ z, P (VOther z)) → ∀ v, P v.
Proof.
  intros Hs Hl Ha Hst Hp Hn Ho. fix IH 1. intros [s|o n l|o l|m fs|v|e t|z]; [apply Hs|apply Hl|apply Ha| |apply Hp, IH|apply Hn|apply Ho].
  apply Hst. induction fs as [|[f v] fs IHfs]; constructor; [apply IH|apply IHfs].
Qed.

Lemma convert_field_VStruct exported tag omitempty marshal fs result :
  convert_field exported tag omitempty (VStruct marshal fs) result =
  if negb exported then unexported
  else if zeroValue (VStruct marshal fs) && omitempty then Ret result
  else m ← customMarshalValue marshal;
       match m with Some s => addParam result tag omitempty true (s == "") s | None => convertStruct fs result end.
Proof. reflexivity. Qed.

Lemma convertStruct_fields fs :
  Forall (λ fv, ∀ e t o, adds_if (readable e o fv.2) (convert_field e t o fv.2) (value_params t o fv.2)) fs →
  adds_if (forallb (readable_with readable) fs) (convertStruct fs) (concat (map field_params fs)).
Proof.
  induction 1 as [|[f v] fs Hv _ IH]; [done|]. cbn [forallb map concat convertStruct].
  unfold readable_with at 1, field_params at 1, field_params_with; simpl. destruct (jsonTag f) as [tag omitempty].
  case_bool_decide; simpl; [apply IH|]. apply (adds_if_bind _ _ _ (convertStruct fs)); [apply Hv|apply IH].
Qed.

Lemma convert_field_adds v : ∀ e t o, adds_if (readable e o v) (convert_field e t o v) (value_params t o v).
Proof.
  induction v as [s|o n l|o l|m fs IH|v IH|el text|z] using value_rect'; intros e t om.
  - apply addParam_adds.
  - destruct o; [apply addListOfParams_adds|done].
  - destruct o; [apply addListOfParams_adds|done].
  - intros r. rewrite convert_field_VStruct. cbn [readable value_params].
    destruct e; [|done]. cbn [negb andb]. destruct (zeroValue (VStruct m fs) && om); [done|]. cbn [orb].
    destruct m as [[[s|err]|msg]|]; cbn [customMarshalValue mbind outcome_bind]; [|by apply convertStruct_fields|done|by apply convertStruct_fields].
    apply (addParam_adds t om true (s == "") s r).
  - cbn [readable convert_field value_params]. destruct (is_pointer v); [done|]. apply IH.
  - intros r; destruct el as [|[]|[] []|[] [] |]; cbn; try done; try apply addParam_adds; destruct e, om; cbn; try done.
  - done.
Qed.

(** [Convert] returns exactly when every tagged field in reach can be read, and then
    lists the parameters of the fields in the order of the fields. *)
Theorem queryparams_Convert_spec marshal fs :
  if forallb (readable_with readable) fs
  then Convert (Some (VPtr (VStruct marshal fs))) = Ret (inl (adds ∅ (concat (map field_params fs))))
  else returns (Convert (Some (VPtr (VStruct marshal fs)))) = false.
Proof.
  pose proof (convertStruct_fields fs (Forall_true _ _ (λ fv, convert_field_adds fv.2)) ∅) as H.
  cbn [Convert]. destruct (forallb _ fs); [by rewrite H|by destruct (convertStruct fs ∅)].
Qed.

(** *** The values of a name *)

Definition values_of (k : string) (l : list (string * string)) : list string := l ≫= λ kv, if kv.1 == k then [kv.2] else [].

Lemma values_of_cons k kv l : values_of k (kv :: l) = (if kv.1 == k then [kv.2] else []) ++ values_of k l.
Proof. reflexivity. Qed.

Lemma adds_lookup r l k :
  adds r l !! k = if values_of k l is [] then r !! k else Some (default [] (r !! k) ++ values_of k l).
Proof.
  revert r; induction l as [|[k' x] l IH]; intros r; [done|]. change (adds r ((k', x) :: l)) with (adds (Values_Add r k' x) l).
  rewrite IH, values_of_cons. unfold Values_Add; simpl. case_bool_decide as Hk; simpl.
  - subst k'. rewrite lookup_insert_eq; simpl. destruct (values_of k l); [done|]. by rewrite <- app_assoc.
  - by rewrite lookup_insert_ne by done.
Qed.

Lemma adds_nonempty l k vs : adds ∅ l !! k = Some vs → vs ≠ [].
Proof. rewrite adds_lookup. destruct (values_of k l); [by rewrite lookup_empty|]. rewrite lookup_empty. by intros [= <-]. Qed.

(** A name has the values of its parameters, in order; the query string made of them
    parses back to the same values. *)
Theorem queryparams_Convert_parsed marshal fs values :
  Convert (Some (VPtr (VStruct marshal fs))) = Ret (inl values) →
  (∀ k, default [] (values !! k) = values_of k (concat (map field_params fs))) ∧
  ParseQuery (Values_Encode values) = (values, None).
Proof.
  intros Hc. pose proof (queryparams_Convert_spec marshal fs) as H.
  destruct (forallb _ fs); [|by rewrite Hc in H]. rewrite H in Hc; injection Hc as <-. split.
  - intros k. rewrite adds_lookup, lookup_empty; simpl. by destruct (values_of k _).
  - apply ParseQuery_Encode. intros k l. apply adds_nonempty.
Qed.

(** *** Fields that are pointers

    A pointer that is set is listed although it is omitempty and its target is zero; a
    nil pointer to a list cannot be listed at all, and a nil pointer to a struct only
    when it is omitempty or marshals itself. *)
Lemma set_pointer_listed tag omitempty s r :
  convert_field true tag omitempty (VPtr (VScalar s)) r = Ret (Values_Add r tag (if Sprintf_v s == "<nil>" then "" else Sprintf_v s)).
Proof. reflexivity. Qed.

Lemma nil_list_panics exported tag omitempty text r :
  returns (convert_field exported tag omitempty (VNil (ESlice true) text) r) = false.
Proof. reflexivity. Qed.

Lemma nil_struct_panics tag n text r : returns (convert_field true tag false (VNil (EStruct false (S n)) text) r) = false.
Proof. reflexivity. Qed.

(** An error of MarshalQueryParameter is dropped: the fields of the struct are listed,
    as if the struct had no such method. *)
Lemma marshal_error_dropped exported tag omitempty err fs r :
  convert_field exported tag omitempty (VStruct (Some (Ret (inr err))) fs) r =
  convert_field exported tag omitempty (VStruct None fs) r.
Proof. reflexivity. Qed.

(** *** Examples *)
Module QueryParamsExamples.

Definition sf (tag : string) : sfield := {| st_Exported := true; st_Tag := tag |}.
Definition str (s : string) : value := VScalar (plain s).

Definition list_options : list (sfield * value) := [
  (sf "labelSelector,omitempty", str "app=web");
  (sf "fieldSelector,omitempty", str "");
  (sf "names", VList true false [plain "a"; plain ""; plain "b & c"]);
  (sf "timeoutSeconds,omitempty", VPtr (VScalar {| sc_basic := BInt 0; sc_String := None |}));
  (sf "", str "no tag");
  (sf "-", str "skipped");
  (sf "page", VStruct None [(sf "limit", VScalar {| sc_basic := BInt 20; sc_String := None |}); (sf "names", str "c")])].

Lemma list_options_query :
  match Convert (Some (VPtr (VStruct None list_options))) with
  | Ret (inl values) => Some (Values_Encode values)
  | _ => None
  end = Some "labelSelector=app%3Dweb&limit=20&names=a&names=&names=b+%26+c&names=c&timeoutSeconds=0".
Proof. vm_compute; reflexivity. Qed.

(** A string that reads like a nil pointer is lost. *)
Lemma nil_text_lost : Convert (Some (VPtr (VStruct None [(sf "q", str "<nil>")]))) = Ret (inl {["q" := [""]]}).
Proof. vm_compute; reflexivity. Qed.

Lemma queryparams_Convert_parsed_witness :
  ParseQuery (Values_Encode {["q" := ["a b"]]}) = ({["q" := ["a b"]]}, None).
Proof. apply (queryparams_Convert_parsed None [(sf "q", str "a b")]). vm_compute; reflexivity. Defined.
End QueryParamsExamples.
