(* ===== verification/ClientArgs.v ===== *)
(** * Structs as command lines

    Models pkg/client/args.go: [GetArgs] lists the fields of a struct as the flags and
    arguments of a command, [CleanupArgs] resets the fields whose flags were not given.

    reflect's values are trees; fields of interface type are room out.  The reading of a
    field's tag (golib's configer.GetFieldTag), pflag's record of changed flags and
    fmt.Sprintf("%v") are parameters, and a value's CmdArg method is part of the value. *)

From S2P Require Import Prelude GoStrings Streams.

Local Open Scope go_scope.

Definition maxDepth : nat := 5.

(** configer.FieldTag, as far as it is read. *)
Record FieldTag := { ft_Flag : list string; ft_Arg : string; ft_Default : string; ft_Skip : bool }.

Record afield := { af_Name : string; af_Exported : bool; af_Anonymous : bool; af_Tag : string }.

(** A type's printed name, its own name and the CmdArg method of its values. *)
Record ainfo := { ai_String : string; ai_Name : string; ai_CmdArg : option (string → list string) }.

(** The width of an integer kind; [W0] is int and uint. *)
Inductive width := W0 | W8 | W16 | W32 | W64.

Inductive aval :=
  | AInt (i : ainfo) (w : width) (z : Z)
  | AUint (i : ainfo) (w : width) (z : Z)
  | AString (i : ainfo) (s : string)
  | ABool (i : ainfo) (b : bool)
  | ASlice (i : ainfo) (is_nil : bool) (l : list aval)
  | AMap (i : ainfo) (is_nil : bool)
  | AStruct (i : ainfo) (fs : list (afield * aval))
  | APtr (i : ainfo) (target : option aval)
  | AOther (i : ainfo) (kind : string).

Definition info (v : aval) : ainfo :=
  match v with
  | AInt i _ _ | AUint i _ _ | AString i _ | ABool i _ | ASlice i _ _ | AMap i _ | AStruct i _ | APtr i _ | AOther i _ => i
  end.

Definition width_String (w : width) : string :=
  match w with W0 => "" | W8 => "8" | W16 => "16" | W32 => "32" | W64 => "64" end.

(** reflect.Kind.String *)
Definition kind_String (v : aval) : string :=
  match v with
  | AInt _ w _ => "int" +:+ width_String w
  | AUint _ w _ => "uint" +:+ width_String w
  | AString _ _ => "string"
  | ABool _ _ => "bool"
  | ASlice _ _ _ => "slice"
  | AMap _ _ => "map"
  | AStruct _ _ => "struct"
  | APtr _ _ => "ptr"
  | AOther _ kind => kind
  end.

Definition supported (w : width) : bool := match w with W8 | W16 => false | _ => true end.

(** ** Arguments *)

Definition TrimArgs (l : list string) : list string := TrimSpace <$> l.

Definition unsupported (args : list string) (v : aval) : outcome (list string * option error) :=
  Ret (args, Some (Errorf "unsupported kind %s" [kind_String v])).

Fixpoint getArgs_value (args : list string) (key : string) (v : aval) {struct v} : outcome (list string * option error) :=
  match ai_CmdArg (info v) with
  | Some CmdArg => Ret (args ++ CmdArg key, None)
  | None =>
      match v with
      | AInt _ w z | AUint _ w z => if supported w then Ret (args ++ [key; Itoa z], None) else unsupported args v
      | AString _ s => Ret (args ++ [key; s], None)
      | ABool _ b => Ret (args ++ [if b then key else key +:+ "=false"], None)
      | ASlice _ _ l =>
          (fix elems (args : list string) (l : list aval) {struct l} : outcome (list string * option error) :=
             match l with
             | [] => Ret (args, None)
             | e :: l =>
                 r ← match e with
                     | APtr _ None => Panic "reflect: call of reflect.Value.Interface on zero Value"
                     | APtr _ (Some e) => getArgs_value args key e
                     | _ => getArgs_value args key e
                     end;
                 match r with
                 | (args, None) => elems args l
                 | (args, Some err) => Ret (args, Some err)
                 end
             end) args l
      | _ => unsupported args v
      end
  end.

Section args.
Context (GetFieldTag : afield → FieldTag) (Sprintf_v : aval → string).

(** What a field tagged as an argument appends, [None] when the list is not touched. *)
Definition arg_values (v : aval) : option (list string) :=
  let other := match ai_CmdArg (info v) with
               | Some CmdArg => Some (CmdArg "")
               | None => if Sprintf_v v == "" then None else Some [Sprintf_v v]
               end in
  match v with
  | ASlice i _ l => if ai_String i == "[]string" then Some (omap (λ e, match e with AString _ s => Some s | _ => None end) l) else other
  | AString i s => if ai_String i == "string" then Some [s] else other
  | _ => other
  end.

(** The two lists; the second pointer may be nil. *)
Definition lists : Type := list string * option (list string).

Definition append1 (st : lists) (v : aval) : outcome lists :=
  Ret (match arg_values v with Some l => (st.1 ++ l, st.2) | None => st end).

Definition append2 (st : lists) (v : aval) : outcome lists :=
  match arg_values v with
  | None => Ret st
  | Some l => match st.2 with Some args2 => Ret (st.1, Some (args2 ++ l)) | None => Panic "nil pointer dereference" end
  end.

Definition is_nil_pointer (v : aval) : bool := match v with APtr _ None => true | _ => false end.
Definition pointed (v : aval) : aval := match v with APtr _ (Some v) => v | _ => v end.
Definition is_struct (v : aval) : bool := match v with AStruct _ _ => true | _ => false end.

(** The body of the loop over the fields of a struct named [rt]; [rec] is the call of
    getArgs for an inlined struct. *)
Definition field_args (rec : aval → lists → outcome (lists * option error)) (rt : string) (field : afield * aval) (st : lists)
    : outcome (lists * option error) :=
  let '(sf, fv) := field in
  let tag := GetFieldTag sf in
  if negb (af_Exported sf) || is_nil_pointer fv || ft_Skip tag then Ret (st, None)
  else if ft_Arg tag == "arg1" then st ← append1 st (pointed fv); Ret (st, None)
  else if ft_Arg tag == "arg2" then st ← append2 st (pointed fv); Ret (st, None)
  else if is_struct fv then rec fv st
  else
    flag ← index (ft_Flag tag) 0;
    r ← getArgs_value st.1 ("--" +:+ flag) (pointed fv);
    Ret ((r.1, st.2), option_map (ErrorWrap "%s.%s %s" [rt; af_Name sf]) r.2).

Fixpoint fields_args (rec : aval → lists → outcome (lists * option error)) (rt : string) (fs : list (afield * aval)) (st : lists)
    : outcome (lists * option error) :=
  match fs with
  | [] => Ret (st, None)
  | fv :: fs =>
      r ← field_args rec rt fv st;
      match r with
      | (st, None) => fields_args rec rt fs st
      | (st, Some err) => Ret (st, Some err)
      end
  end.

(** [room] is what the depth may still grow by, plus one; [None] is the nil interface. *)
Fixpoint getArgs (room : nat) (sample : option aval) (st : lists) : outcome (lists * option error) :=
  match room with
  | 0 => Panic "depth is larger than the maximum allowed depth of %d"
  | S room =>
      match sample with
      | None | Some (APtr _ None) => Panic "reflect: call of reflect.Value.Type on zero Value"
      | Some (APtr _ (Some (AStruct i fs))) | Some (AStruct i fs) =>
          if ai_String i == "time.Time" then Ret (st, Some (Errorf "sample input must be a struct" []))
          else fields_args (λ v, getArgs room (Some v)) (ai_Name i) fs st
      | _ => Ret (st, Some (Errorf "sample input must be a struct" []))
      end
  end.

Definition GetArgs (st : lists) (sample : option aval) : outcome (lists * option error) :=
  r ← getArgs (S maxDepth) sample st;
  match r with
  | (st, Some err) => Ret (st, Some err)
  | (st, None) => Ret ((TrimArgs st.1, st.2), None)
  end.

(** ** Cleanup *)

Context (Changed : string → bool).

(** reflect.Zero, for the kinds that are reset. *)
Definition reset (v : aval) : option aval :=
  match v with
  | APtr i _ => Some (APtr i None)
  | AMap i _ => Some (AMap i true)
  | ASlice i _ _ => Some (ASlice i true [])
  | _ => None
  end.

(** [ro]: the struct itself was reached through an unexported field. *)
Definition field_cleanup (rec : bool → aval → outcome aval) (ro : bool) (field : afield * aval) : outcome (afield * aval) :=
  let '(sf, v) := field in
  let tag := GetFieldTag sf in
  if ft_Skip tag then Ret (sf, v)
  else if is_struct v then v ← rec (ro || negb (af_Exported sf || af_Anonymous sf)) v; Ret (sf, v)
  else if ft_Default tag != "" then Ret (sf, v)
  else
    flag ← index (ft_Flag tag) 0;
    if Changed flag then Ret (sf, v)
    else match reset v with
         | None => Ret (sf, v)
         | Some v => if ro || negb (af_Exported sf) then Panic "reflect.Value.Set using value obtained using unexported field" else Ret (sf, v)
         end.

Fixpoint fields_cleanup (rec : bool → aval → outcome aval) (ro : bool) (fs : list (afield * aval)) : outcome (list (afield * aval)) :=
  match fs with
  | [] => Ret []
  | fv :: fs =>
      fv ← field_cleanup rec ro fv;
      fs ← fields_cleanup rec ro fs;
      Ret (fv :: fs)
  end.

Fixpoint cleanupArgs (room : nat) (ro : bool) (rv : aval) : outcome aval :=
  match room with
  | 0 => Panic "depth is larger than the maximum allowed depth of %d"
  | S room =>
      match rv with
      | AStruct i fs =>
          if ai_String i == "time.Time" then Panic "schema: interface must be a pointer to struct"
          else fs ← fields_cleanup (cleanupArgs room) ro fs; Ret (AStruct i fs)
      | _ => Panic "schema: interface must be a pointer to struct"
      end
  end.

(** The struct [out] points to is changed in place: the result is [out] afterwards. *)
Definition CleanupArgs (out : option aval) : outcome aval :=
  match out with
  | None => Panic "reflect: call of reflect.Value.Type on zero Value"
  | Some (APtr _ None) => Panic "invalid pointer(nil)"
  | Some (APtr i (Some rv)) => rv ← cleanupArgs (S maxDepth) false rv; Ret (APtr i (Some rv))
  | Some v => Panic "needs a pointer, got %s %s"
  end.
End args.

(** ** Theorems *)

Section theorems.
Context (GetFieldTag : afield → FieldTag) (Sprintf_v : aval → string) (Changed : string → bool).

Abbreviation getArgs := (getArgs GetFieldTag Sprintf_v).
Abbreviation GetArgs := (GetArgs GetFieldTag Sprintf_v).
Abbreviation field_args := (field_args GetFieldTag Sprintf_v).
Abbreviation fields_args := (fields_args GetFieldTag Sprintf_v).
Abbreviation field_cleanup := (field_cleanup GetFieldTag Changed).
Abbreviation fields_cleanup := (fields_cleanup GetFieldTag Changed).
Abbreviation cleanupArgs := (cleanupArgs GetFieldTag Changed).
Abbreviation CleanupArgs := (CleanupArgs GetFieldTag Changed).

(** *** Values

    The loop over the elements of a slice, and an induction principle that reaches
    them through pointers. *)
Fixpoint elems_args (key : string) (args : list string) (l : list aval) : outcome (list string * option error) :=
  match l with
  | [] => Ret (args, None)
  | e :: l =>
      r ← (if is_nil_pointer e then Panic "reflect: call of reflect.Value.Interface on zero Value" else getArgs_value args key (pointed e));
      match r with
      | (args, None) => elems_args key args l
      | (args, Some err) => Ret (args, Some err)
      end
  end.

Lemma getArgs_value_eq args key v :
  getArgs_value args key v =
  match ai_CmdArg (info v) with
  | Some CmdArg => Ret (args ++ CmdArg key, None)
  | None =>
      match v with
      | AInt _ w z | AUint _ w z => if supported w then Ret (args ++ [key; Itoa z], None) else unsupported args v
      | AString _ s => Ret (args ++ [key; s], None)
      | ABool _ b => Ret (args ++ [if b then key else key +:+ "=false"], None)
      | ASlice _ _ l => elems_args key args l
      | _ => unsupported args v
      end
  end.
Proof.
  destruct v as [| | | |i n l| | | |]; try reflexivity. cbn. destruct (ai_CmdArg i); [done|].
  revert args; induction l as [|e l IH]; intros args; [done|]. cbn [elems_args].
  destruct e as [| | | | | | |j [w|]|]; cbn [is_nil_pointer pointed]; try done;
    (destruct (getArgs_value _ _ _) as [[args' [err|]]|]; [done|cbn [mbind outcome_bind]; apply IH|done]).
Qed.

Lemma aval_ind' (P : aval → Prop) :
  (∀ v, match v with ASlice _ _ l => Forall (λ e, P (pointed e)) l | _ => True end → P v) → ∀ v, P v.
Proof.
  intros H. fix IH 1. intros v. apply H. destruct v as [| | | |i n l| | | |]; try exact I.
  induction l as [|e l IHl]; constructor; [exact (IH (pointed e))|exact IHl].
Qed.

(** *** Nothing already listed is lost *)

Definition grows (st st' : lists) : Prop :=
  st.1 `prefix_of` st'.1 ∧ match st.2, st'.2 with Some l, Some l' => l `prefix_of` l' | None, None => True | _, _ => False end.

#[local] Instance grows_preorder : PreOrder grows.
Proof.
  split; [intros [a [b|]]; split; cbn; reflexivity || exact I|]. intros [a1 b1] [a2 b2] [a3 b3] [H1 H2] [H3 H4]; split; simpl in *; [by etrans|].
  destruct b1, b2, b3; try done. by etrans.
Qed.

Lemma getArgs_value_grows v : ∀ args key args' err, getArgs_value args key v = Ret (args', err) → args `prefix_of` args'.
Proof.
  induction v as [v IH] using aval_ind'; intros args key args' err. rewrite getArgs_value_eq.
  destruct (ai_CmdArg (info v)); [intros [= <- _]; by apply prefix_app_r|].
  destruct v as [i w z|i w z|i s|i b|i n l|i n|i fs|i t|i k]; unfold unsupported; try (intros [= <- _]; by apply prefix_app_r); try by intros [= <- _].
  - destruct (supported w); intros [= <- _]; [by apply prefix_app_r|done].
  - destruct (supported w); intros [= <- _]; [by apply prefix_app_r|done].
  - revert args; induction IH as [|e l He _ IHl]; intros args; [by intros [= <- _]|]. cbn [elems_args].
    destruct (is_nil_pointer e); [done|].
    destruct (getArgs_value args key (pointed e)) as [[args1 [err1|]]|] eqn:E; cbn [mbind outcome_bind]; [|intros H2|done].
    + intros [= <- _]. by eapply He.
    + etrans; [by eapply He|by apply IHl].
Qed.

Lemma field_args_grows rec rt fv st st' err :
  (∀ v st st' err, rec v st = Ret (st', err) → grows st st') → field_args rec rt fv st = Ret (st', err) → grows st st'.
Proof.
  intros Hrec. destruct fv as [sf v]; cbn [field_args ClientArgs.field_args].
  destruct (_ || _); [by intros [= <- _]|]. case_bool_decide.
  { unfold append1. destruct (arg_values _ _) as [l|]; intros [= <- _]; [|done]. split; simpl; [by apply prefix_app_r|by destruct st.2]. }
  case_bool_decide.
  { unfold append2. destruct (arg_values _ _) as [l|]; [|by intros [= <- _]]. destruct st as [a [b|]]; [|done].
    intros [= <- _]. split; simpl; [done|by apply prefix_app_r]. }
  destruct (is_struct v); [apply Hrec|]. intros (flag & _ & (r & Hr & [= <- _])%bind_Ret)%bind_Ret.
  destruct r as [args' err']. split; simpl; [by eapply getArgs_value_grows|by destruct st.2].
Qed.

Lemma fields_args_grows rec rt fs st st' err :
  (∀ v st st' err, rec v st = Ret (st', err) → grows st st') → fields_args rec rt fs st = Ret (st', err) → grows st st'.
Proof.
  intros Hrec. revert st; induction fs as [|fv fs IH]; intros st; [by intros [= <- _]|].
  cbn [ClientArgs.fields_args]. intros ([st1 [err1|]] & H1 & H2)%bind_Ret; apply field_args_grows in H1; try done.
  - by injection H2 as <- _.
  - etrans; [done|by apply IH].
Qed.

(** Also when an error is returned. *)
Theorem getArgs_grows room sample st st' err : getArgs room sample st = Ret (st', err) → grows st st'.
Proof.
  revert sample st st' err; induction room as [|room IH]; intros sample st st' err; [done|]. cbn [ClientArgs.getArgs].
  destruct sample as [[| | | | | |i fs|j [[| | | | | |i fs| |]|]|]|]; try done; try (by intros [= <- _]);
    (case_bool_decide; [by intros [= <- _]|]; apply fields_args_grows; intros v; apply IH).
Qed.

(** *** Panics

    Enough for GetArgs to return: no nil pointer in a slice, a flag for every field that
    needs one, and inlined structs at most maxDepth deep. *)

Fixpoint value_ok (v : aval) : bool :=
  match ai_CmdArg (info v), v with
  | None, ASlice _ _ l => forallb (λ e, negb (is_nil_pointer e) && value_ok (pointed e)) l
  | _, _ => true
  end.

Fixpoint struct_ok (room : nat) (v : aval) : bool :=
  match room, v with
  | S room, AStruct _ fs =>
      forallb (λ field : afield * aval,
        let tag := GetFieldTag field.1 in
        negb (af_Exported field.1) || is_nil_pointer field.2 || ft_Skip tag || (ft_Arg tag == "arg1") || (ft_Arg tag == "arg2") ||
        (if is_struct field.2 then struct_ok room field.2 else (0 <? length (ft_Flag tag)) && value_ok (pointed field.2))) fs
  | _, _ => false
  end.

Lemma getArgs_value_returns v : ∀ args key, value_ok v = true → ∃ r, getArgs_value args key v = Ret r.
Proof.
  induction v as [v IH] using aval_ind'; intros args key. rewrite getArgs_value_eq.
  destruct v as [i w z|i w z|i s|i b|i n l|i n|i fs|i t|i k]; cbn [value_ok info]; destruct (ai_CmdArg i); eauto; unfold unsupported; try (destruct (supported w); eauto).
  intros Hok. revert args Hok; induction IH as [|e l He _ IHl]; intros args Hok; [eauto|]. cbn [elems_args forallb] in *.
  apply andb_true_iff in Hok as [[Hn Hv]%andb_true_iff Hl]. destruct (is_nil_pointer e); [done|].
  destruct (He args key Hv) as [[args1 [err|]] ->]; cbn [mbind outcome_bind]; eauto.
Qed.

Lemma fields_args_returns rec rt fs st :
  (∀ field st, field ∈ fs → is_Some st.2 → ∃ r, field_args rec rt field st = Ret r ∧ is_Some r.1.2) → is_Some st.2 →
  ∃ r, fields_args rec rt fs st = Ret r ∧ is_Some r.1.2.
Proof.
  revert st; induction fs as [|fv fs IH]; intros st Hf Hst; [by eexists|]. cbn [ClientArgs.fields_args].
  destruct (Hf fv st) as ([st1 [err|]] & -> & Hst1); [left|done| |]; cbn [mbind outcome_bind]; [by eexists|].
  apply IH; [|done]. intros; apply Hf; [by right|done].
Qed.

Lemma getArgs_returns room v st : struct_ok room v = true → is_Some st.2 → ∃ r, getArgs room (Some v) st = Ret r ∧ is_Some r.1.2.
Proof.
  revert v st; induction room as [|room IH]; intros v st; [done|]. destruct v as [| | | | | |i fs| |]; try done.
  cbn [struct_ok ClientArgs.getArgs]. intros Hok Hst. case_bool_decide; [by eexists|]. apply fields_args_returns; [|done].
  intros [sf v] st1 Hin [l2 Hl2]. rewrite forallb_forall in Hok. specialize (Hok (sf, v)). cbn [fst snd] in Hok.
  specialize (Hok (proj1 (list_elem_of_In _ _) Hin)). cbn [ClientArgs.field_args].
  destruct (_ || ft_Skip _); [by eexists|]. cbn [orb] in Hok. case_bool_decide.
  { unfold append1. destruct (arg_values _ _); by eexists. }
  case_bool_decide.
  { unfold append2. destruct (arg_values _ _); [|by eexists]. rewrite Hl2; by eexists. }
  cbn [orb] in Hok. destruct (is_struct v); [by apply IH|]. apply andb_true_iff in Hok as [Hf Hv].
  destruct (ft_Flag _) as [|flag ?]; [done|]. cbn [index lookup list_lookup mbind outcome_bind].
  destruct (getArgs_value_returns (pointed v) st1.1 ("--" +:+ flag) Hv) as [r ->]. by eexists.
Qed.

Theorem GetArgs_returns v st : struct_ok (S maxDepth) v = true → is_Some st.2 → returns (GetArgs st (Some v)) = true.
Proof.
  intros Hok Hst. unfold ClientArgs.GetArgs. destruct (getArgs_returns _ v st Hok Hst) as ([st' [err|]] & -> & _); done.
Qed.

(** *** Cleaning up *)

Lemma field_cleanup_idempotent rec ro field field' :
  (∀ ro v w, rec ro v = Ret w → is_struct w = true ∧ rec ro w = Ret w) →
  field_cleanup rec ro field = Ret field' → field_cleanup rec ro field' = Ret field'.
Proof.
  intros Hrec. destruct field as [sf v]; unfold ClientArgs.field_cleanup.
  destruct (ft_Skip _) eqn:Hs; [intros [= <-]; by rewrite Hs|]. destruct (is_struct v) eqn:Hv.
  { intros (w & [Hw1 Hw2]%Hrec & [= <-])%bind_Ret. by rewrite Hs, Hw1, Hw2. }
  destruct (ft_Default _ != "") eqn:Hd; [intros [= <-]; by rewrite Hs, Hv, Hd|]. intros (flag & Hf & H)%bind_Ret.
  destruct (Changed flag) eqn:Hc; [injection H as <-; by rewrite Hs, Hv, Hd, Hf; cbn; rewrite Hc|].
  destruct (reset v) as [w|] eqn:Hr; [|injection H as <-; by rewrite Hs, Hv, Hd, Hf; cbn; rewrite Hc, Hr].
  destruct (ro || _) eqn:Hro; [done|]. injection H as <-.
  assert (is_struct w = false ∧ reset w = Some w) as [Hw1 Hw2] by (by destruct v; simplify_eq/=).
  rewrite Hs, Hw1, Hd, Hf; cbn. by rewrite Hc, Hw2, Hro.
Qed.

Lemma fields_cleanup_idempotent rec ro fs fs' :
  (∀ ro v w, rec ro v = Ret w → is_struct w = true ∧ rec ro w = Ret w) →
  fields_cleanup rec ro fs = Ret fs' → fields_cleanup rec ro fs' = Ret fs'.
Proof.
  intros Hrec. revert fs'; induction fs as [|fv fs IH]; intros fs'; [by intros [= <-]|].
  cbn [ClientArgs.fields_cleanup]. intros (fv' & H1 & (fs1 & H2 & [= <-])%bind_Ret)%bind_Ret.
  cbn [ClientArgs.fields_cleanup]. by rewrite (field_cleanup_idempotent _ _ _ _ Hrec H1); cbn; rewrite (IH _ H2).
Qed.

Lemma cleanupArgs_idempotent room ro v w : cleanupArgs room ro v = Ret w → is_struct w = true ∧ cleanupArgs room ro w = Ret w.
Proof.
  revert ro v w; induction room as [|room IH]; intros ro v w; [done|]. cbn [ClientArgs.cleanupArgs].
  destruct v as [| | | | | |i fs| |]; try done. destruct (ai_String i == "time.Time") eqn:Ht; [done|].
  intros (fs' & H & [= <-])%bind_Ret. rewrite Ht. by rewrite (fields_cleanup_idempotent _ _ _ _ IH H).
Qed.

Theorem CleanupArgs_idempotent out out' : CleanupArgs out = Ret out' → CleanupArgs (Some out') = Ret out'.
Proof.
  destruct out as [[| | | | | | |i [v|]|]|]; try done. cbn [ClientArgs.CleanupArgs].
  intros (w & [_ Hw]%cleanupArgs_idempotent & [= <-])%bind_Ret. cbn [ClientArgs.CleanupArgs]. by rewrite Hw.
Qed.

(** *** Cleaning up before listing

    The fields CleanupArgs leaves alone. *)
Definition kept (field : afield * aval) : bool :=
  let tag := GetFieldTag field.1 in
  ft_Skip tag || (ft_Default tag != "") || (if ft_Flag tag is flag :: _ then Changed flag else false) ||
  (if reset field.2 is Some _ then false else true).

(** A flat, exported field with a flag; one that is reset must be a pointer, or a slice
    that is a plain flag and has no CmdArg method. *)
Definition plain_field (field : afield * aval) : bool :=
  let tag := GetFieldTag field.1 in
  af_Exported field.1 && negb (is_struct field.2) && (0 <? length (ft_Flag tag)) &&
  (kept field || match field.2 with
                 | APtr _ _ => true
                 | ASlice i _ _ => (if ai_CmdArg i is None then true else false) && (ft_Arg tag != "arg1") && (ft_Arg tag != "arg2")
                 | _ => false
                 end).

Lemma plain_field_cleanup rec rec' rt field :
  plain_field field = true →
  ∃ field', field_cleanup rec false field = Ret field' ∧
    if kept field then field' = field else ∀ st, field_args rec' rt field' st = Ret (st, None).
Proof.
  destruct field as [sf v]; unfold plain_field, kept; cbn [fst snd]. intros Hp.
  apply andb_true_iff in Hp as [[[He Hs]%andb_true_iff Hf]%andb_true_iff Hq].
  unfold ClientArgs.field_cleanup. apply negb_true_iff in Hs. rewrite Hs, He.
  destruct (ft_Flag _) as [|flag ?] eqn:Hfl; [done|]. cbn [index lookup list_lookup mbind outcome_bind].
  destruct (ft_Skip _) eqn:Hsk; [by eexists|]. destruct (ft_Default _ != ""); [by eexists|].
  destruct (Changed flag); [by eexists|]. destruct (reset v) as [w|] eqn:Hr; [|by eexists].
  cbn [orb negb] in *. eexists; split; [done|]. intros st. cbn [ClientArgs.field_args]. rewrite He.
  destruct v as [| | | |i n l0| | |i t|]; try done; injection Hr as <-; cbn [is_nil_pointer negb orb]; [|done].
  destruct (ai_CmdArg i) eqn:Hi; [done|]. cbn [andb] in Hq. apply andb_true_iff in Hq as [H1%negb_true_iff H2%negb_true_iff].
  rewrite Hsk, H1, H2, Hfl. cbn [is_struct pointed index lookup list_lookup mbind outcome_bind].
  rewrite getArgs_value_eq; cbn [info]. rewrite Hi. by destruct st.
Qed.

Lemma plain_fields_cleanup rec rec' rt fs :
  forallb plain_field fs = true →
  ∃ fs', fields_cleanup rec false fs = Ret fs' ∧ ∀ st, fields_args rec' rt fs' st = fields_args rec' rt (List.filter kept fs) st.
Proof.
  induction fs as [|fv fs IH]; [by eexists|]. cbn [forallb]. intros [H1 H2]%andb_true_iff.
  destruct (plain_field_cleanup rec rec' rt fv H1) as (fv' & Hfv & Hk). destruct (IH H2) as (fs' & Hfs & Heq).
  cbn [ClientArgs.fields_cleanup]. rewrite Hfv; cbn [mbind outcome_bind]. rewrite Hfs; cbn [mbind outcome_bind].
  eexists; split; [done|]. intros st. cbn [List.filter]. destruct (kept fv).
  - subst fv'. cbn [ClientArgs.fields_args]. destruct (field_args _ _ _ _) as [[st1 [err|]]|]; [done|apply Heq|done].
  - cbn [ClientArgs.fields_args]. rewrite Hk; cbn [mbind outcome_bind]. apply Heq.
Qed.

(** Listing a cleaned up struct lists the fields whose flags were given, that have a
    default or that cannot be reset, and nothing for the others. *)
Theorem CleanupArgs_GetArgs p i fs st :
  forallb plain_field fs = true → ai_String i ≠ "time.Time" →
  (out ← CleanupArgs (Some (APtr p (Some (AStruct i fs)))); GetArgs st (Some out)) =
  GetArgs st (Some (AStruct i (List.filter kept fs))).
Proof.
  intros Hp Hi. destruct (plain_fields_cleanup (cleanupArgs maxDepth) (λ v, getArgs maxDepth (Some v)) (ai_Name i) fs Hp) as (fs' & Hc & Heq).
  unfold ClientArgs.CleanupArgs, ClientArgs.GetArgs. cbn [ClientArgs.cleanupArgs ClientArgs.getArgs].
  rewrite bool_decide_eq_false_2 by done. rewrite Hc. cbn [mbind outcome_bind]. rewrite bool_decide_eq_false_2 by done. by rewrite Heq.
Qed.
End theorems.

(** *** Examples *)
Module ClientArgsExamples.

(** A model of tags: the flag, or "-" to skip, or an argument's place. *)
Definition tag_model (sf : afield) : FieldTag :=
  {| ft_Flag := [af_Tag sf]; ft_Arg := if bool_decide (af_Tag sf ∈ ["arg1"; "arg2"]) then af_Tag sf else "";
     ft_Default := ""; ft_Skip := af_Tag sf == "-" |}.

Definition fld (name tag : string) : afield := {| af_Name := name; af_Exported := true; af_Anonymous := false; af_Tag := tag |}.
Definition ty (name : string) : ainfo := {| ai_String := name; ai_Name := name; ai_CmdArg := None |}.
Definition str (s : string) : aval := AString (ty "string") s.

Definition run_cmd : aval := AStruct (ty "Run") [
  (fld "Names" "arg1", ASlice (ty "[]string") false [str " a "; str "b"]);
  (fld "Rest" "arg2", str " c ");
  (fld "Page" "page", AStruct (ty "Page") [(fld "Limit" "limit", APtr (ty "*int") (Some (AInt (ty "int") W0 20)))]);
  (fld "Quiet" "quiet", ABool (ty "bool") false);
  (fld "Labels" "label", ASlice (ty "[]string") false [str "x=1"; str "y=2"]);
  (fld "Since" "since", APtr (ty "*string") None)].

(** The second list is not trimmed. *)
Lemma run_args : GetArgs tag_model (λ _, "") ([], Some []) (Some run_cmd) =
  Ret (["a"; "b"; "--limit"; "20"; "--quiet=false"; "--label"; "x=1"; "--label"; "y=2"], Some [" c "], None).
Proof. vm_compute; reflexivity. Qed.

Lemma GetArgs_returns_witness : returns (GetArgs tag_model (λ _, "") ([], Some []) (Some run_cmd)) = true.
Proof. apply GetArgs_returns; [vm_compute; reflexivity|by eexists]. Defined.

(** A struct that marshals itself is inlined all the same; behind a pointer it is asked. *)
Definition cmd_struct : aval :=
  AStruct {| ai_String := "client.Range"; ai_Name := "Range"; ai_CmdArg := Some (λ key, [key; "1-2"]) |} [(fld "From" "from", AInt (ty "int") W0 1)].

Lemma struct_method_ignored :
  GetArgs tag_model (λ _, "") ([], None) (Some (AStruct (ty "T") [(fld "R" "range", cmd_struct)])) = Ret (["--from"; "1"], None, None) ∧
  GetArgs tag_model (λ _, "") ([], None) (Some (AStruct (ty "T") [(fld "R" "range", APtr (ty "*client.Range") (Some cmd_struct))])) =
    Ret (["--range"; "1-2"], None, None).
Proof. split; vm_compute; reflexivity. Qed.

(** A map cannot be listed, not even when it was reset. *)
Lemma reset_map_fails :
  (out ← CleanupArgs tag_model (λ _, false) (Some (APtr (ty "*T") (Some (AStruct (ty "T") [(fld "M" "m", AMap (ty "map[string]string") false)]))));
   GetArgs tag_model (λ _, "") ([], None) (Some out)) =
  Ret ([], None, Some (ErrorWrap "%s.%s %s" ["T"; "M"] (Errorf "unsupported kind %s" ["map"]))).
Proof. vm_compute; reflexivity. Qed.

Definition flags : list (afield * aval) := [
  (fld "A" "a", APtr (ty "*string") (Some (str "1"))); (fld "B" "b", ASlice (ty "[]string") false [str "2"]); (fld "C" "c", str "3")].

Lemma CleanupArgs_GetArgs_witness :
  (out ← CleanupArgs tag_model (λ f, f == "b") (Some (APtr (ty "*T") (Some (AStruct (ty "T") flags))));
   GetArgs tag_model (λ _, "") ([], None) (Some out)) =
  GetArgs tag_model (λ _, "") ([], None) (Some (AStruct (ty "T") (List.filter (kept tag_model (λ f, f == "b")) flags))).
Proof. apply (CleanupArgs_GetArgs tag_model (λ _, "") (λ f, f == "b") (ty "*T") (ty "T") flags); [vm_compute; reflexivity|done]. Defined.
End ClientArgsExamples.
